(* ===== verification/_CoqProject ===== *)
-Q . S2P
Prelude.v
Wrapping.v
BitIO.v
Number.v
Serde.v
Kinds.v
Wire.v
GameTime.v
Fragments.v
SequenceList.v
SequenceBuffer.v
AckManager.v
Reliable.v
ReliableChannel.v
MessageWire.v
TickBuffer.v
TickBufferFacts.v
TickBufferWire.v
ClientQueues.v
Channels.v
EntityTypes.v
MessageManager.v
SyncEngine.v
SyncOrder.v
SyncEntity.v
SyncWorld.v
HostSync.v
DiffMask.v
DirtyQueue.v
DiffHandlers.v
DiffTracking.v
UpdateManager.v
EntityMaps.v
LocalEntities.v
Waitlist.v
WaitlistSpec.v
WaitlistRefine.v
RemoteWorld.v
RemoteWorldSpec.v
RemoteHazards.v
HostWorld.v
HostAcks.v
LocalWorld.v
LocalWorldFacts.v
LocalHazards.v
Authority.v
Rooms.v
RoomsFacts.v
ServerWorld.v
ServerRecords.v
Historian.v
ServerConn.v
Resources.v
WorldServer.v
ServerAuthority.v
ServerScope.v
ServerRooms.v
ScopeHazards.v
ServerEvents.v
ServerEventFacts.v
ClientWorld.v
Client.v
ClientFacts.v
ClientMigration.v
Properties.v
EntityProps.v
PropertyFacts.v
Handshake.v
HandshakeFacts.v
HandshakeRun.v
SimpleHandshake.v
MainServer.v
MainServerFacts.v
WorldWire.v
WorldWireFacts.v
WorldWireStops.v
WorldWireUpdates.v
