(* ===== verification/Prelude.v ===== *)
(** * naia: a verification development

    naia replicates entities, their components and messages between a server and its
    clients over an unreliable datagram transport.  The crates under src/ are:
    [shared] (serialization, packets, channels, entity replication), [server] and [client]
    (connections, time, rooms and scopes, authority), the transports under [socket], the
    derive macros, the Bevy adapters, demos, tests and benches.  This library models the
    shared crate from the bits of a packet up to one connection's view of the replicated
    world, and the parts of [server] and [client] named below.

    ** How a packet travels, and where each part is modelled

    - Bits and values: [BitIO] (shared/serde: BitReader, BitWriter, BitCounter,
      FileBitWriter), [Number] and [Serde] (integers of fixed and variable length, the
      implementations of the Serde trait and what its derive macro generates), [Wire]
      (packet type, standard header, entity ids), [Kinds] (registries of message and
      component kinds).
    - Packets and acknowledgements: [Wrapping] (16-bit sequence numbers), [SequenceBuffer],
      [SequenceList], [AckManager] (headers, acknowledgements, loss monitor).
    - Channels: [Reliable] and [ReliableChannel] (senders, receivers, arrangers),
      [Fragments], [MessageWire], [Channels] (channel settings, requests and responses,
      key generators), [MessageManager] (the message part of a packet).
    - Entity messages: [EntityTypes], [SyncEngine] (authority channel, component and entity
      channels, remote engine), [SyncOrder], [SyncEntity] and [SyncWorld] (what the remote
      engine achieves for one stream, one entity and a world), [HostSync] (host channel and
      engine, and host and remote together).
    - Component updates: [DiffMask], [DirtyQueue], [DiffHandlers], [DiffTracking],
      [UpdateManager].
    - Entity identities: [EntityMaps] (global entities), [LocalEntities] (ids of a
      connection and their issuer).
    - One connection's world: [Waitlist], [WaitlistSpec], [WaitlistRefine] (items that
      wait for entities), [RemoteWorld], [RemoteWorldSpec], [RemoteHazards] (receiving),
      [HostWorld], [HostAcks] (sending and acknowledged commands), [LocalWorld],
      [LocalWorldFacts], [LocalHazards] (the manager that joins them).
    - Time and tick queues: [GameTime] (the 22-bit game clock, pings), [TickBuffer],
      [TickBufferFacts], [TickBufferWire] (tick-buffered channels of client and server),
      [ClientQueues] (jitter buffer, command history), [Historian] (snapshots of the
      server's past ticks).
    - Authority: [Authority] (the registry of statuses and the server's holders).
    - The server: [Rooms], [RoomsFacts] (rooms, users, scope overrides, scope checks),
      [ServerWorld], [ServerRecords] (global world manager and its records),
      [ServerConn] (what the server asks of a connection; [LocalWorldManager] implements
      it), [Resources], [WorldServer] (WorldServer's rooms, scope, authority, delegation,
      entities and components), [ServerAuthority], [ServerScope], [ServerRooms],
      [ScopeHazards] (what these calls achieve and where they fall short),
      [ServerEvents], [ServerEventFacts] (events of clients, disconnection, resources).
    - The client: [ClientWorld] (its global world manager), [Client] (entities,
      delegation, authority, entity events, disconnection over the [ClientConn]
      interface), [ClientFacts] (authority as the application sees it), [ClientMigration]
      (the answer to a delegation).
    - Fields of components: [Properties] (Property), [EntityProps] (EntityProperty),
      [PropertyFacts] (the two compared, and references between peers).
    - Connecting: [Handshake], [HandshakeFacts], [HandshakeRun] (the handshake with signed
      timestamps, both ends), [SimpleHandshake] (the one without), [MainServer],
      [MainServerFacts] (users and addresses, over the trait of the handshakers).
    - The entity part of a packet: [WorldWire] (world writer and reader over the interface
      [ComponentWire] of the derived code), [WorldWireFacts] (commands), [WorldWireStops]
      (hostile input, sample runs), [WorldWireUpdates] (updates, and the two together).
    [Prelude] (this file) has the outcome monad, its notation, the tactics and the lemmas
    the components share.

    ** Conventions

    A Rust function becomes a Rocq function over records with the fields of the structs;
    [&mut self] is a state passed in and returned.  [res] is the outcome of Rust code: a
    value, [Err], [Panic] or [Diverge].  Integers are [Z] with their width written out:
    wrapping operations wrap, the other operations panic on overflow, as in a build with
    overflow checks, and [debug_assert!] is checked.  Bytes are 8-bit [Z].  A HashMap or
    HashSet is a [gmap] or [gset]; where the code walks one, the order is a parameter of
    the model ([iter], [iter_e], ...) that the theorems only assume to visit each element
    once.  Shared mutable receivers and dirty queues (Arc, RwLock, atomics) live in an
    explicit heap; their operations are taken one at a time.  [Instant]s are milliseconds
    and the clock is an argument.  The application's world and components are the classes
    [WorldMutType] and [Replicate] with the laws [WorldLaws].  Floating-point durations are
    given as arguments in milliseconds.

    ** Fuel

    Loops that are not structural carry fuel that is computed from the state: the length
    of the scanned list for the scans of the receivers and arrangers, 65536 for the walk
    over packets in flight (the packet indices it can visit), the number of bits left for
    decoding.  For each of them a theorem shows that [Diverge] is not reached
    ([receive_total_exactly_once], [variable_decode_terminates], [indexed_read_stops],
    [update_steps_return], [remote_engine_safe]).

    ** What the theorems show

    - Round trips: what is written into a packet is read back, for bits, values, headers,
      messages with fragments, and whole message packets.
    - Delivery: reliable channels deliver everything once and in order over any loss,
      reordering and duplication within half the index space; acknowledgements are
      truthful and are notified once.
    - Replication: in any arrival order (messages about components that a spawn brings
      along coming after it) the remote engine emits a legal history of every entity, and
      ends with the components the host has if no insert was written as a Noop; the world
      follows the messages; a component may be updated exactly when a message about it
      has been acknowledged; migrations move an entity without losing its components or
      commands.
    - Updates: no property change is lost, and a tick sends exactly the pending changes.
    - Identities: ids convert both ways (static host ids in wire form excepted), are never
      issued twice and are quarantined.
    - Authority: the registry refines a map from entities to holders; after the calls of
      the server that are not known to panic each connection has been told the status its
      user has; the client tells its application exactly what the server decides and is
      registered for updates exactly while it holds the entity, unless it releases an
      entity it has just requested.
    - Scope: an entity is on a connection exactly when the rule of scope (overrides, rooms,
      resources) says so; rooms, users and scope checks mirror each other; a despawned
      entity leaves all of them, but not the authority registry; client events may be
      interleaved freely within their phases.
    - Ticks: the tick buffer is a map of future ticks, tick messages survive a packet, the
      game clock is exact up to half its period, the historian keeps its window.
    - Fields: a reference is the property of an optional entity but for listed calls, and
      it reaches the peer whether it or its entity arrives first.
    - Connecting: nobody gets in without a token and a verified signature, nor without the
      application's acceptance; a client that is let in completes the handshake; users and
      addresses mirror each other, with either handshaker; and where a packet, a loss or a
      timeout breaks the handshake.
    - The entity part of a packet: what is written, what is recorded for the packet, what
      stays pending and what the peer is handed agree; reading ends on every input; and
      static entities without components and spawns with 256 components go wrong.
    - Errors: what the code does outside these bounds, hostile input included; the
      findings of the manifest name the theorems that show a defect.

    ** Not modelled

    Sockets and transports (I/O), the derive macros except for the serialization they
    generate (they produce code at compile time), the Bevy adapters, demos, tests and
    benches, metrics and diagnostics, compression (a third-party library), and the parts
    of [client] and [server] that only pass calls on to the components above.
    Of [client] and [server] in particular: the packet loops of the connections and their
    timers, the façade [Server] and the sockets, the estimates of the time managers,
    priorities and bandwidth (floating-point sums and filters), and the typed event queues,
    of which the models keep the order of what is pushed.  Component payloads are
    written by derived code: the world writer and reader are modelled over its interface. *)

From Stdlib Require Import ZArith Lia.
From stdpp Require Import base list numbers option gmap.

#[global] Open Scope Z_scope.

(** * Outcomes of Rust code

    [Ok] is a normal return, [Err] is [Err(SerdeErr)], [Panic] is an unwinding
    panic (an explicit [panic!], a failed [unwrap], an out-of-range index, or an
    integer overflow of a build with overflow checks), and [Diverge] says that
    the bound of a modelled [loop] was used up.  Every loop that carries a bound
    comes with a theorem that [Diverge] is not reached. *)
Inductive res (A : Type) : Type :=
| Ok (a : A)
| Err
| Panic
| Diverge.
Arguments Ok {A} a.
Arguments Err {A}.
Arguments Panic {A}.
Arguments Diverge {A}.

#[global] Instance res_ret : MRet res := fun A a => Ok a.
#[global] Instance res_bind : MBind res := fun A B f m =>
  match m with Ok a => f a | Err => Err | Panic => Panic | Diverge => Diverge end.

Definition is_ok {A} (m : res A) : bool :=
  match m with Ok _ => true | _ => false end.

(** The value of an [unwrap] or [expect]: [None] panics. *)
Definition unwrap {A} (o : option A) : res A :=
  match o with Some a => Ok a | None => Panic end.

(** Where a caller goes on after [Err]: the state reached so far is kept. *)
Definition catch {A} (m : res A) : res (option A) :=
  match m with Ok a => Ok (Some a) | Err => Ok None | Panic => Panic | Diverge => Diverge end.

(** A left fold whose step may fail: a Rust [for] loop with a mutable state. *)
Fixpoint foldM {A S} (f : A -> S -> res S) (l : list A) (s : S) : res S :=
  match l with
  | [] => Ok s
  | a :: l' => s' ← f a s; foldM f l' s'
  end.

(** * Machine integers

    Unsigned and signed integers are [Z] values in range.  [uadd], [usub] and
    [umul] are Rust's [+], [-] and [*] with overflow checks; [wrap] is an [as]
    cast to an unsigned type of [w] bits and the core of the [wrapping_] methods. *)
Definition in_u (w x : Z) : Prop := 0 <= x < 2 ^ w.
Definition uadd (w a b : Z) : res Z := if a + b <? 2 ^ w then Ok (a + b) else Panic.
Definition usub (a b : Z) : res Z := if b <=? a then Ok (a - b) else Panic.
Definition wrap (w x : Z) : Z := x mod 2 ^ w.
Definition u16_MAX : Z := 65535.
Definition wrapping_add16 (a b : Z) : Z := wrap 16 (a + b).
Definition wrapping_sub16 (a b : Z) : Z := wrap 16 (a - b).

Lemma bind_ok {A B} (a : A) (f : A -> res B) : (x ← Ok a; f x) = f a.
Proof. reflexivity. Qed.

Lemma bind_ok_inv {A B} (m : res A) (f : A -> res B) b :
  (x ← m; f x) = Ok b -> exists a, m = Ok a /\ f a = Ok b.
Proof. destruct m; simpl; intros H; try discriminate. eauto. Qed.

Lemma bind_assoc {A B C} (m : res A) (f : A -> res B) (g : B -> res C) :
  (y ← (x ← m; f x); g y) = (x ← m; y ← f x; g y).
Proof. destruct m; reflexivity. Qed.

Lemma foldM_app {A S} (f : A -> S -> res S) l1 l2 s :
  foldM f (l1 ++ l2) s = (s' ← foldM f l1 s; foldM f l2 s').
Proof.
  revert s; induction l1 as [|a l1 IH]; intros s; [reflexivity|].
  simpl. destruct (f a s); simpl; auto.
Qed.

Lemma foldM_inv {A S} (P : S -> Prop) (f : A -> S -> res S) l s s' :
  (forall a s0 s1, P s0 -> f a s0 = Ok s1 -> P s1) ->
  P s -> foldM f l s = Ok s' -> P s'.
Proof.
  intros Hf. revert s; induction l as [|a l IH]; simpl; intros s Hs H.
  - congruence.
  - apply bind_ok_inv in H as (s1 & H1 & H2). eauto.
Qed.

(** A counted loop with an invariant on the number of rounds done. *)
Lemma foldM_seq {S} (f : nat -> S -> res S) (I : nat -> S -> Prop) n s0 :
  I O s0 -> (forall q s, (q < n)%nat -> I q s -> exists s', f q s = Ok s' /\ I (Datatypes.S q) s') ->
  exists s, foldM f (seq 0 n) s0 = Ok s /\ I n s.
Proof.
  intros H0. induction n as [|n IH]; intros Hf; [now exists s0|].
  destruct IH as (s & Hs & Hn); [intros; apply Hf; [lia|assumption]|].
  destruct (Hf n s) as (s' & Hs' & Hn'); [lia|exact Hn|]. exists s'.
  rewrite seq_S, foldM_app, Hs. cbn. now rewrite Hs'.
Qed.

(** A loop whose rounds move up in [R] and each establish a [P] that [R] keeps. *)
Lemma foldM_mono {A S} (R : S -> S -> Prop) (I : S -> Prop) (P : A -> S -> Prop) (f : A -> S -> res S) l :
  (forall s, R s s) -> (forall s1 s2 s3, R s1 s2 -> R s2 s3 -> R s1 s3) ->
  (forall a s s', R s s' -> P a s -> P a s') ->
  (forall a s, a ∈ l -> I s -> exists s', f a s = Ok s' /\ I s' /\ R s s' /\ P a s') ->
  forall s, I s -> exists s', foldM f l s = Ok s' /\ I s' /\ R s s' /\ forall a, a ∈ l -> P a s'.
Proof.
  intros Hrefl Htrans Hkeep. induction l as [|a l IH]; intros Hf s Hs; cbn [foldM].
  - exists s. split_and!; auto. intros a Ha. now apply elem_of_nil in Ha.
  - destruct (Hf a s) as (s1 & -> & Hs1 & HR1 & HP1); [now left|exact Hs|]. rewrite bind_ok.
    destruct (IH (fun b s0 Hb => Hf b s0 ltac:(now right)) s1 Hs1) as (s2 & -> & Hs2 & HR2 & HP2).
    exists s2. split_and!; eauto. intros b [->|Hb]%elem_of_cons; eauto.
Qed.

Lemma uadd_ok w a b : a + b < 2 ^ w -> uadd w a b = Ok (a + b).
Proof. intros H. unfold uadd. now rewrite (proj2 (Z.ltb_lt _ _)). Qed.

Lemma usub_ok a b : b <= a -> usub a b = Ok (a - b).
Proof. intros H. unfold usub. now rewrite (proj2 (Z.leb_le _ _)). Qed.

Lemma lookup_map {A B} (f : A -> B) (l : list A) k : map f l !! k = f <$> l !! k.
Proof. revert k; induction l as [|a l IH]; intros [|k]; cbn [map]; [reflexivity..|apply IH]. Qed.

(** Filters that agree on a list. *)
Lemma list_filter_ext_in {A} (P Q : A -> Prop) `{!forall x, Decision (P x), !forall x, Decision (Q x)} (l : list A) :
  (forall x, x ∈ l -> P x <-> Q x) -> filter P l = filter Q l.
Proof.
  induction l as [|x l IH]; intros Heq; [reflexivity|]. rewrite !filter_cons.
  assert (P x <-> Q x) as Hx by (apply Heq; now left).
  rewrite IH by (intros y Hy; apply Heq; now right).
  destruct (decide (P x)), (decide (Q x)); tauto.
Qed.

Lemma filter_keep {A} (P : A -> Prop) `{!forall x, Decision (P x)} (l : list A) :
  (forall x, x ∈ l -> P x) -> filter P l = l.
Proof.
  induction l as [|a l IH]; intros Hl; [reflexivity|].
  rewrite filter_cons, decide_True by (apply Hl; now left). f_equal. apply IH. intros x Hx. apply Hl. now right.
Qed.

Lemma filter_none {A} (P : A -> Prop) `{!forall x, Decision (P x)} (l : list A) :
  (forall x, x ∈ l -> ~ P x) -> filter P l = [].
Proof.
  induction l as [|x l IH]; intros Hn; [reflexivity|]. rewrite filter_cons, decide_False.
  - apply IH. intros y Hy. apply Hn. now right.
  - apply Hn. left.
Qed.

(** Case analysis on the monadic hypotheses of a goal. *)
Ltac res_inv :=
  repeat match goal with
  | H : (_ ← _; _) = Ok _ |- _ =>
      let a := fresh "a" in let H1 := fresh H in
      apply bind_ok_inv in H as (a & H1 & H)
  | H : mret _ = Ok _ |- _ => unfold mret, res_ret in H
  | H : Ok _ = Ok _ |- _ => injection H as H
  | H : Ok _ = Err |- _ => discriminate H
  | H : Ok _ = Panic |- _ => discriminate H
  | H : Err = Ok _ |- _ => discriminate H
  | H : Panic = Ok _ |- _ => discriminate H
  | H : Diverge = Ok _ |- _ => discriminate H
  end.

(** Turns boolean integer comparisons, in the goal or the hypotheses, into
    propositions that [lia] understands. *)
Ltac bools :=
  repeat match goal with
  | H : (_ <? _) = true |- _ => apply Z.ltb_lt in H
  | H : (_ <? _) = false |- _ => apply Z.ltb_ge in H
  | H : (_ <=? _) = true |- _ => apply Z.leb_le in H
  | H : (_ <=? _) = false |- _ => apply Z.leb_gt in H
  | H : (_ =? _) = true |- _ => apply Z.eqb_eq in H
  | H : (_ =? _) = false |- _ => apply Z.eqb_neq in H
  | H : _ && _ = true |- _ => apply andb_true_iff in H as [? ?]
  | H : _ || _ = false |- _ => apply orb_false_iff in H as [? ?]
  | H : negb _ = true |- _ => apply negb_true_iff in H
  | H : negb _ = false |- _ => apply negb_false_iff in H
  end.

(** Splits every [if] on a boolean comparison. *)
Ltac case_ifs :=
  repeat (match goal with
  | |- context [if ?b then _ else _] => destruct b eqn:?
  | H : context [if ?b then _ else _] |- _ => destruct b eqn:?
  end; bools).

(** Linear arithmetic with divisions and remainders by constants. *)
Ltac dlia := Z.to_euclidean_division_equations; lia.

Create HintDb naia discriminated.
Create Rewrite HintDb naia.

(** * Bit strings, least significant bit first *)
Fixpoint to_bits (n : nat) (z : Z) : list bool :=
  match n with O => [] | S n' => Z.odd z :: to_bits n' (Z.div2 z) end.

Fixpoint of_bits (l : list bool) : Z :=
  match l with [] => 0 | b :: l' => Z.b2z b + 2 * of_bits l' end.

(** The [to_le_bytes] of an [n]-byte integer. *)
Fixpoint to_le_bytes (n : nat) (z : Z) : list Z :=
  match n with O => [] | S n' => z mod 256 :: to_le_bytes n' (z / 256) end.

Fixpoint of_le_bytes (l : list Z) : Z :=
  match l with [] => 0 | b :: l' => b + 256 * of_le_bytes l' end.

Definition bytes_bits (bs : list Z) : list bool := concat (map (to_bits 8) bs).
Definition is_byte (b : Z) : Prop := 0 <= b < 256.

Lemma length_to_bits n z : length (to_bits n z) = n.
Proof. revert z; induction n; simpl; auto. Qed.

Lemma of_bits_range l : 0 <= of_bits l < 2 ^ Z.of_nat (length l).
Proof.
  induction l as [|b l IH]; simpl length; simpl of_bits; [lia|].
  rewrite Nat2Z.inj_succ, Z.pow_succ_r by lia.
  destruct b; simpl Z.b2z; lia.
Qed.

Lemma of_to_bits n z : of_bits (to_bits n z) = z mod 2 ^ Z.of_nat n.
Proof.
  revert z; induction n as [|n IH]; intros z.
  - simpl. now rewrite Z.mod_1_r.
  - cbn [to_bits of_bits]. rewrite IH.
    rewrite Nat2Z.inj_succ, Z.pow_succ_r, Z.div2_div by lia.
    rewrite Z.rem_mul_r by lia. rewrite Zmod_odd. destruct (Z.odd z); reflexivity.
Qed.

Lemma to_of_bits l : to_bits (length l) (of_bits l) = l.
Proof.
  induction l as [|b l IH]; [reflexivity|].
  cbn [length to_bits of_bits]. f_equal.
  - rewrite Z.odd_add_mul_2. destruct b; reflexivity.
  - etransitivity; [|exact IH]. f_equal. rewrite Z.div2_div.
    destruct b; simpl Z.b2z; dlia.
Qed.

Lemma to_bits_inj n x y :
  0 <= x < 2 ^ Z.of_nat n -> 0 <= y < 2 ^ Z.of_nat n ->
  to_bits n x = to_bits n y -> x = y.
Proof.
  intros Hx Hy H. apply (f_equal of_bits) in H. rewrite !of_to_bits in H.
  now rewrite !Z.mod_small in H by assumption.
Qed.

Lemma to_bits_app n m z :
  to_bits (n + m) z = to_bits n z ++ to_bits m (z / 2 ^ Z.of_nat n).
Proof.
  revert z; induction n as [|n IH]; intros z; cbn [Nat.add to_bits app].
  - now rewrite Z.div_1_r.
  - f_equal. rewrite IH. do 2 f_equal.
    rewrite Z.div2_div, Nat2Z.inj_succ, Z.pow_succ_r by lia.
    now rewrite Z.div_div by lia.
Qed.

Lemma of_bits_app l1 l2 :
  of_bits (l1 ++ l2) = of_bits l1 + 2 ^ Z.of_nat (length l1) * of_bits l2.
Proof.
  induction l1 as [|b l1 IH]; cbn [app of_bits length]; [lia|].
  rewrite IH, Nat2Z.inj_succ, Z.pow_succ_r by lia. lia.
Qed.

(** Only the low [n] bits of a number matter to [to_bits n]. *)
Lemma to_bits_mod n z : to_bits n (z mod 2 ^ Z.of_nat n) = to_bits n z.
Proof.
  rewrite <- of_to_bits. rewrite <- (length_to_bits n z) at 1. apply to_of_bits.
Qed.

Lemma to_bits_ext n x y :
  x mod 2 ^ Z.of_nat n = y mod 2 ^ Z.of_nat n -> to_bits n x = to_bits n y.
Proof. intros H. now rewrite <- to_bits_mod, H, to_bits_mod. Qed.

Lemma to_bits_add n m x y :
  0 <= x < 2 ^ Z.of_nat n ->
  to_bits (n + m) (x + y * 2 ^ Z.of_nat n) = to_bits n x ++ to_bits m y.
Proof.
  intros Hx. rewrite to_bits_app. f_equal.
  - apply to_bits_ext. rewrite Z.mod_add by lia. reflexivity.
  - rewrite Z.div_add, Z.div_small by lia. reflexivity.
Qed.

(** [x | (y << n)] is [x + y * 2^n] when [x] has [n] bits. *)
Lemma lor_shiftl_add x y n :
  0 <= n -> 0 <= x < 2 ^ n -> Z.lor x (Z.shiftl y n) = x + y * 2 ^ n.
Proof.
  intros Hn Hx. rewrite <- Z.add_lor_land, Z.shiftl_mul_pow2 by lia.
  enough (Z.land x (y * 2 ^ n) = 0) as -> by lia.
  apply Z.bits_inj'; intros i Hi. rewrite Z.land_spec, Z.bits_0.
  destruct (Z.lt_ge_cases i n).
  - now rewrite Z.mul_pow2_bits_low, andb_false_r by lia.
  - rewrite <- (Z.mod_small x (2 ^ n)) by lia.
    now rewrite Z.mod_pow2_bits_high by lia.
Qed.

Lemma length_bytes_bits bs : length (bytes_bits bs) = (8 * length bs)%nat.
Proof.
  unfold bytes_bits. induction bs as [|b bs IH]; [reflexivity|].
  cbn [map concat]. rewrite length_app, length_to_bits, IH. simpl. lia.
Qed.

Lemma bytes_bits_app b1 b2 : bytes_bits (b1 ++ b2) = bytes_bits b1 ++ bytes_bits b2.
Proof. unfold bytes_bits. now rewrite map_app, concat_app. Qed.

Lemma length_to_le_bytes n z : length (to_le_bytes n z) = n.
Proof. revert z; induction n; simpl; auto. Qed.

Lemma le_bytes_bits n z : bytes_bits (to_le_bytes n z) = to_bits (8 * n) z.
Proof.
  revert z; induction n as [|n IH]; intros z; [reflexivity|].
  replace (8 * S n)%nat with (8 + 8 * n)%nat by lia.
  rewrite to_bits_app. change (2 ^ Z.of_nat 8) with 256. rewrite <- IH.
  cbn [to_le_bytes]. unfold bytes_bits. cbn [map concat]. f_equal.
  apply (to_bits_mod 8).
Qed.

Lemma to_le_bytes_bytes n z : Forall is_byte (to_le_bytes n z).
Proof.
  revert z; induction n; intros z; constructor; auto.
  apply Z.mod_pos_bound; lia.
Qed.

Lemma of_to_le_bytes n z : 0 <= z < 256 ^ Z.of_nat n -> of_le_bytes (to_le_bytes n z) = z.
Proof.
  revert z; induction n as [|n IH]; intros z Hz.
  - simpl in *. lia.
  - cbn [to_le_bytes of_le_bytes]. rewrite Nat2Z.inj_succ, Z.pow_succ_r in Hz by lia.
    rewrite IH; [|split; [apply Z.div_pos; lia|apply Z.div_lt_upper_bound; lia]].
    pose proof (Z.div_mod z 256); lia.
Qed.

#[export] Hint Rewrite length_to_bits length_bytes_bits length_to_le_bytes bytes_bits_app : naia.

(** * Wrapping arithmetic *)
Lemma wrap_range w x : 0 <= w -> 0 <= wrap w x < 2 ^ w.
Proof. intros; apply Z.mod_pos_bound; lia. Qed.

Lemma wrap_small w x : in_u w x -> wrap w x = x.
Proof. apply Z.mod_small. Qed.

Lemma wrap16_add_l x y : wrap 16 (wrap 16 x + y) = wrap 16 (x + y).
Proof. unfold wrap. apply Zplus_mod_idemp_l. Qed.

Lemma wrap16_add_r x y : wrap 16 (x + wrap 16 y) = wrap 16 (x + y).
Proof. unfold wrap. apply Zplus_mod_idemp_r. Qed.

Lemma wrapping_add16_wrap x y : wrapping_add16 (wrap 16 x) y = wrap 16 (x + y).
Proof. apply wrap16_add_l. Qed.

Lemma wrapping_sub16_wrap x y : wrapping_sub16 (wrap 16 x) y = wrap 16 (x - y).
Proof. unfold wrapping_sub16. apply (wrap16_add_l x (- y)). Qed.

Lemma wrap16_inj x y : wrap 16 x = wrap 16 y -> Z.abs (x - y) < 65536 -> x = y.
Proof.
  unfold wrap. change (2 ^ 16) with 65536. intros H Hd.
  pose proof (Z.div_mod x 65536). pose proof (Z.div_mod y 65536). lia.
Qed.

#[export] Hint Resolve wrap_range : naia.
