(* ===== verification/Wrapping.v ===== *)
(** Wrap-around sequence numbers: src/shared/src/wrapping_number.rs.

    The comparison functions decide, for two [u16] counters, which one is newer;
    [wrapping_diff] is the signed distance between them.  The theorems relate them
    to the unbounded counters the 16-bit values stand for. *)

From Stdlib Require Import ZArith Lia.
From stdpp Require Import base numbers.
From S2P Require Import Prelude.

Definition sequence_greater_than (s1 s2 : Z) : bool :=
  ((s2 <? s1) && (s1 - s2 <=? 32768)) || ((s1 <? s2) && (32768 <? s2 - s1)).

Definition sequence_equal_or_greater_than (s1 s2 : Z) : bool :=
  (s1 =? s2) || sequence_greater_than s1 s2.

Definition sequence_less_than (s1 s2 : Z) : bool :=
  sequence_greater_than s2 s1.

Definition sequence_equal_or_less_than (s1 s2 : Z) : bool :=
  (s1 =? s2) || sequence_less_than s1 s2.

(** [(i16::MIN..=i16::MAX).contains(&x)] *)
Definition in_i16 (x : Z) : bool := (-32768 <=? x) && (x <=? 32767).

Definition wrapping_diff (a b : Z) : res Z :=
  let result := b - a in
  if in_i16 result then Ok result
  else if a <? b then
    let result := b - (a + 65536) in
    if in_i16 result then Ok result else Panic
  else
    let result := (b + 65536) - a in
    if in_i16 result then Ok result else Panic.

(** Two counters are [close] when the 16-bit comparison of their low halves is
    meaningful. *)
Definition close (x y : Z) : Prop := Z.abs (x - y) <= 32767.

Lemma seq_gt_spec s1 s2 :
  in_u 16 s1 -> in_u 16 s2 ->
  sequence_greater_than s1 s2 = true <->
  (s2 < s1 /\ s1 - s2 <= 32768) \/ (s1 < s2 /\ s2 - s1 > 32768).
Proof. unfold sequence_greater_than. intros _ _. lia. Qed.

Lemma seq_gt_close x y :
  close x y -> sequence_greater_than (wrap 16 x) (wrap 16 y) = (y <? x).
Proof.
  unfold close, sequence_greater_than, wrap. change (2 ^ 16) with 65536. intros H.
  Z.to_euclidean_division_equations. lia.
Qed.

Lemma seq_lt_close x y :
  close x y -> sequence_less_than (wrap 16 x) (wrap 16 y) = (x <? y).
Proof. intros H. apply seq_gt_close. unfold close in *. lia. Qed.

Lemma close_eqb x y : close x y -> (wrap 16 x =? wrap 16 y) = (x =? y).
Proof.
  intros H. unfold close in H. destruct (Z.eqb_spec x y) as [->|Hn].
  - apply Z.eqb_refl.
  - apply Z.eqb_neq. intros E. apply Hn, wrap16_inj; lia.
Qed.

#[export] Hint Rewrite seq_gt_close seq_lt_close close_eqb using (unfold close in *; lia) : naia.

Lemma wrapping_diff_total a b :
  in_u 16 a -> in_u 16 b ->
  exists d, wrapping_diff a b = Ok d /\ -32768 <= d <= 32767 /\ wrap 16 (a + d) = b.
Proof.
  unfold in_u, wrapping_diff, in_i16, wrap. change (2 ^ 16) with 65536. intros Ha Hb.
  case_ifs; first [ eexists; split; [reflexivity|]; split; [lia|dlia] | lia ].
Qed.

(** On any two [u16] values [wrapping_diff] returns (its panic branches are
    unreachable), the result fits an [i16], adding it to the first argument with
    wrap-around gives the second, and it is the only [i16] that does. *)
Theorem wrapping_diff_correct a b :
  in_u 16 a -> in_u 16 b ->
  exists d, wrapping_diff a b = Ok d /\ -32768 <= d <= 32767 /\
    wrapping_add16 a (wrap 16 d) = b /\
    (forall d', -32768 <= d' <= 32767 -> wrap 16 (a + d') = b -> d' = d).
Proof.
  intros Ha Hb. destruct (wrapping_diff_total a b Ha Hb) as (d & E & Hd & W).
  exists d. split; [exact E|]. split; [exact Hd|]. split.
  - unfold wrapping_add16. now rewrite wrap16_add_r.
  - intros d' Hd' W'. cut (a + d' = a + d); [lia|].
    apply wrap16_inj; [congruence|lia].
Qed.

Lemma wrapping_diff_correct_witness :
  in_u 16 65535 /\ in_u 16 1 /\
  exists d, wrapping_diff 65535 1 = Ok d /\ -32768 <= d <= 32767 /\
    wrapping_add16 65535 (wrap 16 d) = 1 /\
    (forall d', -32768 <= d' <= 32767 -> wrap 16 (65535 + d') = 1 -> d' = d).
Proof.
  split; [unfold in_u; lia|]. split; [unfold in_u; lia|].
  apply (wrapping_diff_correct 65535 1); unfold in_u; lia.
Defined.

(** For two unbounded counters at most 32767 apart, the four comparisons of
    their 16-bit values order them as the counters are ordered, and [wrapping_diff]
    is their exact difference. *)
Theorem sequence_order_tracks_counters x y :
  close x y ->
  sequence_greater_than (wrap 16 x) (wrap 16 y) = (y <? x) /\
  sequence_less_than (wrap 16 x) (wrap 16 y) = (x <? y) /\
  sequence_equal_or_greater_than (wrap 16 x) (wrap 16 y) = (y <=? x) /\
  sequence_equal_or_less_than (wrap 16 x) (wrap 16 y) = (x <=? y) /\
  wrapping_diff (wrap 16 x) (wrap 16 y) = Ok (y - x).
Proof.
  intros H. unfold sequence_equal_or_greater_than, sequence_equal_or_less_than.
  rewrite !seq_gt_close, !seq_lt_close, close_eqb by exact H.
  repeat split; try lia.
  destruct (wrapping_diff_total (wrap 16 x) (wrap 16 y)) as (d & E & Hd & W).
  - apply wrap_range; lia.
  - apply wrap_range; lia.
  - rewrite E. f_equal. rewrite wrap16_add_l in W.
    unfold close in H. apply wrap16_inj in W; lia.
Qed.

Lemma sequence_order_tracks_counters_witness :
  close 65537 65535 /\ sequence_greater_than (wrap 16 65537) (wrap 16 65535) = true.
Proof.
  split; [unfold close; lia|].
  apply (sequence_order_tracks_counters 65537 65535). unfold close; lia.
Defined.

(** For any two [u16] values exactly one of equal, greater and less holds, also
    at the ambiguous distance 32768: the comparison is total and antisymmetric. *)
Theorem sequence_trichotomy s1 s2 :
  in_u 16 s1 -> in_u 16 s2 ->
  (if s1 =? s2 then 1 else 0) +
  (if sequence_greater_than s1 s2 then 1 else 0) +
  (if sequence_less_than s1 s2 then 1 else 0) = 1.
Proof.
  unfold in_u, sequence_less_than, sequence_greater_than.
  change (2 ^ 16) with 65536. intros H1 H2. case_ifs; lia.
Qed.

Lemma sequence_trichotomy_witness :
  in_u 16 0 /\ in_u 16 32768 /\ sequence_greater_than 0 32768 = false /\
  (if 0 =? 32768 then 1 else 0) +
  (if sequence_greater_than 0 32768 then 1 else 0) +
  (if sequence_less_than 0 32768 then 1 else 0) = 1.
Proof.
  split; [unfold in_u; lia|]. split; [unfold in_u; lia|]. split; [reflexivity|].
  apply (sequence_trichotomy 0 32768); unfold in_u; lia.
Defined.
