(* ===== verification/BitIO.v ===== *)
(** The bit stream: src/shared/serde/src/{bit_writer,bit_reader,bit_counter,
    file_bit_writer,outgoing_packet,constants}.rs.

    [BitWriter] packs bits into 32-bit words of a fixed 430-byte array, [BitReader]
    takes them back byte by byte, [BitCounter] only counts.  Both are related to
    the plain list of bits written ([bw_bits]) or left to read ([br_bits]). *)

From Stdlib Require Import ZArith Lia.
From stdpp Require Import base list numbers.
From S2P Require Import Prelude.

(** * Constants *)
Definition MTU_SIZE_BYTES : Z := 576 - 60 - 8 - 50 - 28.
Definition MTU_SIZE_BITS : Z := MTU_SIZE_BYTES * 8.
Definition u32_MAX : Z := 4294967295.

(** [x << n] on a [u32]. *)
Definition shl32 (x n : Z) : Z := wrap 32 (Z.shiftl x n).

(** The trait [BitWrite]. *)
Class BitWrite (W : Type) : Type := {
  write_bit : bool -> W -> res W;
  write_byte : Z -> W -> res W;
}.

Definition write_bits {W} `{BitWrite W} (l : list bool) (w : W) : res W :=
  foldM write_bit l w.

(** [dst[off..off + src.len()].copy_from_slice(src)] *)
Definition copy_slice (dst : list Z) (off : Z) (src : list Z) : res (list Z) :=
  if off + Z.of_nat (length src) <=? Z.of_nat (length dst) then
    Ok (take (Z.to_nat off) dst ++ src ++ drop (Z.to_nat off + length src) dst)
  else Panic.

(** * BitCounter *)
Record BitCounter : Type := mkBitCounter {
  bc_start_bits : Z; bc_current_bits : Z; bc_max_bits : Z }.

Definition BitCounter_overflowed (c : BitCounter) : bool :=
  bc_max_bits c <? bc_current_bits c.

Definition BitCounter_bits_needed (c : BitCounter) : res Z :=
  usub (bc_current_bits c) (bc_start_bits c).

Definition BitCounter_count_bits (bits : Z) (c : BitCounter) : res BitCounter :=
  n ← uadd 32 (bc_current_bits c) bits;
  Ok (mkBitCounter (bc_start_bits c) n (bc_max_bits c)).

Definition BitCounter_write_bit (_ : bool) (c : BitCounter) : res BitCounter :=
  BitCounter_count_bits 1 c.

Definition BitCounter_write_byte (_ : Z) (c : BitCounter) : res BitCounter :=
  BitCounter_count_bits 8 c.

#[global] Instance BitCounter_BitWrite : BitWrite BitCounter := {
  write_bit := BitCounter_write_bit; write_byte := BitCounter_write_byte }.

(** * BitWriter *)
Record BitWriter : Type := mkBitWriter {
  bw_scratch : Z; bw_scratch_bits : Z; bw_buffer : list Z;
  bw_byte_count : Z; bw_current_bits : Z; bw_max_bits : Z }.

Definition BitWriter_with_capacity (bit_capacity : Z) : BitWriter :=
  mkBitWriter 0 0 (replicate (Z.to_nat MTU_SIZE_BYTES) 0) 0 0 bit_capacity.

Definition BitWriter_new : BitWriter := BitWriter_with_capacity MTU_SIZE_BITS.

Definition BitWriter_with_max_capacity : BitWriter := BitWriter_with_capacity u32_MAX.

Definition BitWriter_flush_word (w : BitWriter) : res BitWriter :=
  buf ← copy_slice (bw_buffer w) (bw_byte_count w) (to_le_bytes 4 (bw_scratch w));
  Ok (mkBitWriter 0 0 buf (bw_byte_count w + 4) (bw_current_bits w) (bw_max_bits w)).

Definition BitWriter_finalize (w : BitWriter) : res BitWriter :=
  w' ← (if 0 <? bw_scratch_bits w then
          let remaining_bytes := (bw_scratch_bits w + 7) / 8 in
          let word := to_le_bytes 4 (bw_scratch w) in
          buf ← copy_slice (bw_buffer w) (bw_byte_count w) (take (Z.to_nat remaining_bytes) word);
          Ok (mkBitWriter (bw_scratch w) (bw_scratch_bits w) buf
                (bw_byte_count w + remaining_bytes) (bw_current_bits w) (bw_max_bits w))
        else Ok w);
  Ok (mkBitWriter (bw_scratch w') (bw_scratch_bits w') (bw_buffer w')
        (bw_byte_count w') (bw_current_bits w') 0).

(** [to_bytes], [to_owned_reader] and [to_packet] all return this slice. *)
Definition BitWriter_to_bytes (w : BitWriter) : res (list Z) :=
  w' ← BitWriter_finalize w;
  Ok (take (Z.to_nat (bw_byte_count w')) (bw_buffer w')).

Definition BitWriter_counter (w : BitWriter) : BitCounter :=
  mkBitCounter (bw_current_bits w) (bw_current_bits w) (bw_max_bits w).

Definition bw_set_max (w : BitWriter) (m : Z) : BitWriter :=
  mkBitWriter (bw_scratch w) (bw_scratch_bits w) (bw_buffer w)
    (bw_byte_count w) (bw_current_bits w) m.

Definition BitWriter_reserve_bits (bits : Z) (w : BitWriter) : res BitWriter :=
  m ← usub (bw_max_bits w) bits; Ok (bw_set_max w m).

Definition BitWriter_release_bits (bits : Z) (w : BitWriter) : res BitWriter :=
  m ← uadd 32 (bw_max_bits w) bits; Ok (bw_set_max w m).

Definition BitWriter_bits_free (w : BitWriter) : res Z :=
  usub (bw_max_bits w) (bw_current_bits w).

Definition BitWriter_write_bit (bit : bool) (w : BitWriter) : res BitWriter :=
  if bw_max_bits w <=? bw_current_bits w then Panic else
  let w' := mkBitWriter
    (Z.lor (bw_scratch w) (shl32 (Z.b2z bit) (bw_scratch_bits w)))
    (bw_scratch_bits w + 1) (bw_buffer w) (bw_byte_count w)
    (bw_current_bits w + 1) (bw_max_bits w) in
  if bw_scratch_bits w' =? 32 then BitWriter_flush_word w' else Ok w'.

Definition BitWriter_write_byte (byte : Z) (w : BitWriter) : res BitWriter :=
  next ← uadd 32 (bw_current_bits w) 8;
  if bw_max_bits w <? next then Panic else
  let available := 32 - bw_scratch_bits w in
  if 8 <=? available then
    let w' := mkBitWriter
      (Z.lor (bw_scratch w) (shl32 byte (bw_scratch_bits w)))
      (bw_scratch_bits w + 8) (bw_buffer w) (bw_byte_count w) next (bw_max_bits w) in
    if bw_scratch_bits w' =? 32 then BitWriter_flush_word w' else Ok w'
  else
    let lo := Z.land byte (Z.shiftl 1 available - 1) in
    w' ← BitWriter_flush_word (mkBitWriter
      (Z.lor (bw_scratch w) (shl32 lo (bw_scratch_bits w)))
      (bw_scratch_bits w) (bw_buffer w) (bw_byte_count w) next (bw_max_bits w));
    Ok (mkBitWriter (Z.shiftr byte available) (8 - available)
      (bw_buffer w') (bw_byte_count w') (bw_current_bits w') (bw_max_bits w')).

#[global] Instance BitWriter_BitWrite : BitWrite BitWriter := {
  write_bit := BitWriter_write_bit; write_byte := BitWriter_write_byte }.

(** * FileBitWriter *)
Record FileBitWriter : Type := mkFileBitWriter {
  fw_scratch : Z; fw_scratch_bits : Z; fw_buffer : list Z }.

Definition FileBitWriter_new : FileBitWriter := mkFileBitWriter 0 0 [].

Definition FileBitWriter_flush_word (w : FileBitWriter) : FileBitWriter :=
  mkFileBitWriter 0 0 (fw_buffer w ++ to_le_bytes 4 (fw_scratch w)).

Definition FileBitWriter_finalize (w : FileBitWriter) : FileBitWriter :=
  if 0 <? fw_scratch_bits w then
    let remaining_bytes := (fw_scratch_bits w + 7) / 8 in
    let word := to_le_bytes 4 (fw_scratch w) in
    mkFileBitWriter (fw_scratch w) (fw_scratch_bits w)
      (fw_buffer w ++ take (Z.to_nat remaining_bytes) word)
  else w.

Definition FileBitWriter_to_bytes (w : FileBitWriter) : list Z :=
  fw_buffer (FileBitWriter_finalize w).

Definition FileBitWriter_write_bit (bit : bool) (w : FileBitWriter) : res FileBitWriter :=
  let w' := mkFileBitWriter
    (Z.lor (fw_scratch w) (shl32 (Z.b2z bit) (fw_scratch_bits w)))
    (fw_scratch_bits w + 1) (fw_buffer w) in
  Ok (if fw_scratch_bits w' =? 32 then FileBitWriter_flush_word w' else w').

Definition FileBitWriter_write_byte (byte : Z) (w : FileBitWriter) : res FileBitWriter :=
  let available := 32 - fw_scratch_bits w in
  Ok (if 8 <=? available then
    let w' := mkFileBitWriter
      (Z.lor (fw_scratch w) (shl32 byte (fw_scratch_bits w)))
      (fw_scratch_bits w + 8) (fw_buffer w) in
    if fw_scratch_bits w' =? 32 then FileBitWriter_flush_word w' else w'
  else
    let lo := Z.land byte (Z.shiftl 1 available - 1) in
    let w' := FileBitWriter_flush_word (mkFileBitWriter
      (Z.lor (fw_scratch w) (shl32 lo (fw_scratch_bits w)))
      (fw_scratch_bits w) (fw_buffer w)) in
    mkFileBitWriter (Z.shiftr byte available) (8 - available) (fw_buffer w')).

#[global] Instance FileBitWriter_BitWrite : BitWrite FileBitWriter := {
  write_bit := FileBitWriter_write_bit; write_byte := FileBitWriter_write_byte }.

(** * BitReader *)
Record BitReader : Type := mkBitReader {
  br_scratch : Z; br_scratch_bits : Z; br_buffer_index : Z; br_buffer : list Z }.

Definition BitReader_new (buffer : list Z) : BitReader := mkBitReader 0 0 0 buffer.

Definition BitReader_read_bit (r : BitReader) : res (bool * BitReader) :=
  r' ← (if br_scratch_bits r =? 0 then
          if br_buffer_index r =? Z.of_nat (length (br_buffer r)) then Err else
          byte ← unwrap (br_buffer r !! Z.to_nat (br_buffer_index r));
          Ok (mkBitReader byte 8 (br_buffer_index r + 1) (br_buffer r))
        else Ok r);
  let bit := negb (Z.land (br_scratch r') 1 =? 0) in
  n ← usub (br_scratch_bits r') 1;
  Ok (bit, mkBitReader (Z.shiftr (br_scratch r') 1) n (br_buffer_index r') (br_buffer r')).

Definition BitReader_read_byte (r : BitReader) : res (Z * BitReader) :=
  if 8 <=? br_scratch_bits r then
    Ok (wrap 8 (Z.land (br_scratch r) 255),
        mkBitReader (Z.shiftr (br_scratch r) 8) (br_scratch_bits r - 8)
          (br_buffer_index r) (br_buffer r))
  else
    foldM (fun i '(output, r) =>
      '(bit, r') ← BitReader_read_bit r;
      Ok (if (bit : bool) then Z.lor output (Z.shiftl 1 i) else output, r'))
    [0; 1; 2; 3; 4; 5; 6; 7] (0, r).

(** * The writer as a list of bits *)
Definition bw_bits (w : BitWriter) : list bool :=
  bytes_bits (take (Z.to_nat (bw_byte_count w)) (bw_buffer w)) ++
  to_bits (Z.to_nat (bw_scratch_bits w)) (bw_scratch w).

(** The part of the buffer that no flush has reached yet. *)
Definition bw_tail (w : BitWriter) : list Z :=
  drop (Z.to_nat (bw_byte_count w)) (bw_buffer w).

Record writer_ok (w : BitWriter) : Prop := {
  wok_sb : 0 <= bw_scratch_bits w < 32;
  wok_scratch : 0 <= bw_scratch w < 2 ^ bw_scratch_bits w;
  wok_len : length (bw_buffer w) = 430%nat;
  wok_bytes : Forall is_byte (bw_buffer w);
  wok_bc : 0 <= bw_byte_count w <= 428;
  wok_word : bw_byte_count w mod 4 = 0;
  wok_cur : bw_current_bits w = 8 * bw_byte_count w + bw_scratch_bits w;
}.

Lemma writer_ok_length w : writer_ok w -> Z.of_nat (length (bw_bits w)) = bw_current_bits w.
Proof.
  intros H. unfold bw_bits. rewrite length_app, length_bytes_bits, length_to_bits, length_take.
  rewrite (wok_len _ H). pose proof (wok_bc _ H). pose proof (wok_sb _ H).
  rewrite (wok_cur _ H). lia.
Qed.

Lemma writer_ok_current w : writer_ok w -> 0 <= bw_current_bits w <= 3455.
Proof. intros H. rewrite (wok_cur _ H). pose proof (wok_bc _ H). pose proof (wok_sb _ H). lia. Qed.

Lemma bytes_bits_inj bs1 bs2 :
  Forall is_byte bs1 -> Forall is_byte bs2 -> bytes_bits bs1 = bytes_bits bs2 -> bs1 = bs2.
Proof.
  intros H1. revert bs2. induction H1 as [|b bs1 Hb _ IH]; intros bs2 H2 E.
  - apply (f_equal length) in E. rewrite length_bytes_bits in E.
    destruct bs2; [reflexivity|discriminate].
  - destruct H2 as [|b2 bs2 Hb2 H2]; [discriminate|].
    unfold bytes_bits in E. cbn [map concat] in E.
    apply app_inj_1 in E as [E1 E2]; [|now rewrite !length_to_bits].
    f_equal; [apply (to_bits_inj 8); assumption|apply IH; assumption].
Qed.

(** A writer is determined by its bits, its unwritten tail and its limit. *)
Lemma writer_determined w1 w2 :
  writer_ok w1 -> writer_ok w2 ->
  bw_bits w1 = bw_bits w2 -> bw_tail w1 = bw_tail w2 -> bw_max_bits w1 = bw_max_bits w2 ->
  w1 = w2.
Proof.
  intros H1 H2 Eb Et Em.
  assert (bw_current_bits w1 = bw_current_bits w2) as Ec
    by (rewrite <- !writer_ok_length by assumption; congruence).
  destruct H1 as [S1 C1 L1 B1 R1 W1 K1], H2 as [S2 C2 L2 B2 R2 W2 K2].
  destruct w1 as [c1 s1 b1 n1 k1 m1], w2 as [c2 s2 b2 n2 k2 m2]; unfold bw_bits, bw_tail in *; simpl in *.
  assert (n1 = n2) as <- by dlia. assert (s1 = s2) as <- by lia. subst k1 m1.
  apply app_inj_1 in Eb as [E1 E2].
  - apply bytes_bits_inj in E1; [|now apply Forall_take|now apply Forall_take].
    apply to_bits_inj in E2; [|rewrite Z2Nat.id by lia; assumption..].
    rewrite <- (take_drop (Z.to_nat n1) b1), <- (take_drop (Z.to_nat n1) b2). congruence.
  - rewrite !length_bytes_bits, !length_take. lia.
Qed.

Lemma copy_slice_ok dst off src :
  0 <= off -> off + Z.of_nat (length src) <= Z.of_nat (length dst) ->
  exists buf, copy_slice dst off src = Ok buf /\ length buf = length dst /\
    take (Z.to_nat off + length src) buf = take (Z.to_nat off) dst ++ src /\
    drop (Z.to_nat off + length src) buf = drop (Z.to_nat off + length src) dst /\
    (Forall is_byte dst -> Forall is_byte src -> Forall is_byte buf).
Proof.
  intros Ho Hl. unfold copy_slice. rewrite (proj2 (Z.leb_le _ _)) by assumption.
  assert (length (take (Z.to_nat off) dst ++ src) = (Z.to_nat off + length src)%nat) as L
    by (rewrite length_app, length_take; lia).
  eexists; split; [reflexivity|]. rewrite app_assoc. split; [|split; [|split]].
  - rewrite length_app, L, length_drop. lia.
  - rewrite <- L. apply take_app_length.
  - rewrite <- L at 1. apply drop_app_length.
  - intros Hd Hs. repeat apply Forall_app_2; [now apply Forall_take|assumption|now apply Forall_drop].
Qed.

(** Appends the [n] low bits of [v] to a scratch word that has room for them: the
    step both [write_bit] and [write_byte] are made of. *)
Definition BitWriter_put (n v : Z) (w : BitWriter) : res BitWriter :=
  let w' := mkBitWriter (Z.lor (bw_scratch w) (shl32 v (bw_scratch_bits w)))
    (bw_scratch_bits w + n) (bw_buffer w) (bw_byte_count w)
    (bw_current_bits w + n) (bw_max_bits w) in
  if bw_scratch_bits w' =? 32 then BitWriter_flush_word w' else Ok w'.

(** [w'] is [w] with [l] appended. *)
Definition extends (w : BitWriter) (l : list bool) (w' : BitWriter) : Prop :=
  writer_ok w' /\ bw_bits w' = bw_bits w ++ l /\ bw_max_bits w' = bw_max_bits w /\
  drop (Z.to_nat (bw_byte_count w')) (bw_buffer w') =
  drop (Z.to_nat (bw_byte_count w')) (bw_buffer w) /\
  bw_byte_count w <= bw_byte_count w'.

Lemma extends_refl w : writer_ok w -> extends w [] w.
Proof. intros H. unfold extends. rewrite app_nil_r. repeat split; try apply H; lia. Qed.

Lemma extends_trans w0 w1 w2 l1 l2 :
  writer_ok w0 -> extends w0 l1 w1 -> extends w1 l2 w2 -> extends w0 (l1 ++ l2) w2.
Proof.
  intros H0 (H1 & B1 & M1 & D1 & C1) (H2 & B2 & M2 & D2 & C2).
  split; [exact H2|]. split; [now rewrite B2, B1, app_assoc|]. split; [congruence|].
  split; [|lia]. pose proof (wok_bc _ H0). rewrite D2.
  replace (Z.to_nat (bw_byte_count w2)) with
    (Z.to_nat (bw_byte_count w1) + Z.to_nat (bw_byte_count w2 - bw_byte_count w1))%nat by lia.
  rewrite <- !drop_drop. now rewrite D1.
Qed.

Lemma extends_unique w l w1 w2 : extends w l w1 -> extends w l w2 -> w1 = w2.
Proof.
  intros (H1 & B1 & M1 & D1 & _) (H2 & B2 & M2 & D2 & _).
  assert (bw_byte_count w1 = bw_byte_count w2) as E.
  { assert (bw_current_bits w1 = bw_current_bits w2) as Ec
      by (rewrite <- !writer_ok_length by assumption; congruence).
    rewrite (wok_cur _ H1), (wok_cur _ H2) in Ec.
    pose proof (wok_sb _ H1). pose proof (wok_sb _ H2).
    pose proof (wok_word _ H1). pose proof (wok_word _ H2). dlia. }
  apply writer_determined; try assumption; try congruence.
  unfold bw_tail. rewrite D1, D2, E. reflexivity.
Qed.

Lemma extends_current w l w' :
  writer_ok w -> extends w l w' ->
  bw_current_bits w' = bw_current_bits w + Z.of_nat (length l).
Proof.
  intros H (H' & B & _). rewrite <- !writer_ok_length by assumption.
  rewrite B, length_app. lia.
Qed.

(** The scratch word after or-ing a value above its bits. *)
Lemma lor_shl32 c v sb n :
  0 <= sb -> 0 <= n -> sb + n <= 32 -> 0 <= c < 2 ^ sb -> 0 <= v < 2 ^ n ->
  Z.lor c (shl32 v sb) = c + v * 2 ^ sb /\ 0 <= c + v * 2 ^ sb < 2 ^ (sb + n).
Proof.
  intros Hs Hn Hsn Hc Hv. rewrite Z.pow_add_r by lia.
  assert (2 ^ sb * 2 ^ n <= 2 ^ 32)
    by (rewrite <- Z.pow_add_r by lia; apply Z.pow_le_mono_r; lia).
  unfold shl32, wrap. rewrite Z.mod_small.
  - rewrite lor_shiftl_add by lia. split; [reflexivity|nia].
  - rewrite Z.shiftl_mul_pow2 by lia. nia.
Qed.

Lemma flush_word_spec w l :
  bw_scratch_bits w = 32 -> 0 <= bw_scratch w < 2 ^ 32 ->
  length (bw_buffer w) = 430%nat -> Forall is_byte (bw_buffer w) ->
  0 <= bw_byte_count w <= 428 -> bw_byte_count w mod 4 = 0 ->
  bw_current_bits w = 8 * bw_byte_count w + 32 -> bw_bits w = l ->
  if bw_byte_count w =? 428 then BitWriter_flush_word w = Panic else
  exists w', BitWriter_flush_word w = Ok w' /\ writer_ok w' /\ bw_bits w' = l /\
    bw_max_bits w' = bw_max_bits w /\ bw_byte_count w' = bw_byte_count w + 4 /\
    bw_scratch w' = 0 /\ bw_scratch_bits w' = 0 /\ bw_current_bits w' = bw_current_bits w /\
    drop (Z.to_nat (bw_byte_count w')) (bw_buffer w') =
    drop (Z.to_nat (bw_byte_count w')) (bw_buffer w).
Proof.
  intros Hs Hc Hl Hb Hbc Hw Hcur Hbits. destruct (Z.eqb_spec (bw_byte_count w) 428) as [E|E].
  - unfold BitWriter_flush_word, copy_slice. rewrite E, Hl. reflexivity.
  - destruct (copy_slice_ok (bw_buffer w) (bw_byte_count w) (to_le_bytes 4 (bw_scratch w)))
      as (buf & Ec & Lb & Tb & Db & Fb); [lia|rewrite Hl, length_to_le_bytes; dlia|].
    unfold BitWriter_flush_word. rewrite Ec. eexists; split; [reflexivity|].
    rewrite length_to_le_bytes in Tb, Db.
    assert (Z.to_nat (bw_byte_count w + 4) = (Z.to_nat (bw_byte_count w) + 4)%nat) as En by lia.
    split; [constructor; simpl; try first [lia|dlia]|].
    + apply Fb; [assumption|apply to_le_bytes_bytes].
    + unfold bw_bits; simpl. rewrite En, Tb, bytes_bits_app, le_bytes_bits, app_nil_r.
      rewrite <- Hbits. unfold bw_bits. rewrite Hs, Db. auto 10.
Qed.

Lemma put_spec n v w :
  writer_ok w -> 0 < n -> bw_scratch_bits w + n <= 32 -> 0 <= v < 2 ^ n ->
  if bw_current_bits w + n <=? 3455
  then exists w', BitWriter_put n v w = Ok w' /\ extends w (to_bits (Z.to_nat n) v) w' /\
         (bw_scratch_bits w + n = 32 -> bw_scratch w' = 0 /\ bw_scratch_bits w' = 0)
  else BitWriter_put n v w = Panic.
Proof.
  intros Hok Hn Hsn Hv. pose proof (wok_sb _ Hok) as Hs. pose proof (wok_scratch _ Hok) as Hc.
  destruct (lor_shl32 (bw_scratch w) v (bw_scratch_bits w) n) as [El Hr]; try lia.
  set (w1 := mkBitWriter (bw_scratch w + v * 2 ^ bw_scratch_bits w) (bw_scratch_bits w + n)
               (bw_buffer w) (bw_byte_count w) (bw_current_bits w + n) (bw_max_bits w)).
  assert (bw_bits w1 = bw_bits w ++ to_bits (Z.to_nat n) v) as Eb.
  { unfold bw_bits, w1; simpl. rewrite <- app_assoc. f_equal.
    rewrite Z2Nat.inj_add by lia. rewrite <- to_bits_add by (rewrite Z2Nat.id; lia).
    now rewrite Z2Nat.id by lia. }
  unfold BitWriter_put. rewrite El. fold w1. cbn [bw_scratch_bits w1].
  destruct Hok as [_ _ L B R W K].
  destruct (Z.eqb_spec (bw_scratch_bits w + n) 32) as [E|E].
  - pose proof (flush_word_spec w1 (bw_bits w1) E) as F. simpl in F. rewrite E in Hr.
    specialize (F Hr L B R W ltac:(lia) eq_refl).
    destruct (Z.eqb_spec (bw_byte_count w) 428) as [E4|E4].
    + rewrite (proj2 (Z.leb_gt _ _)) by lia. exact F.
    + rewrite (proj2 (Z.leb_le _ _)) by dlia.
      destruct F as (w' & F & O' & B' & M' & N' & S1 & S2 & _ & D').
      exists w'. split; [exact F|]. split; [|auto].
      split; [exact O'|]. rewrite B', Eb. repeat split; try assumption; lia.
  - rewrite (proj2 (Z.leb_le _ _)) by dlia. exists w1. split; [reflexivity|]. split; [|lia].
    split; [constructor; simpl; try assumption; lia|].
    repeat split; try assumption; simpl; lia.
Qed.

Lemma write_bit_put b w :
  BitWriter_write_bit b w =
  if bw_max_bits w <=? bw_current_bits w then Panic else BitWriter_put 1 (Z.b2z b) w.
Proof. reflexivity. Qed.

Lemma b2z_range b : 0 <= Z.b2z b < 2 ^ 1.
Proof. destruct b; simpl; lia. Qed.

Lemma to_bits_b2z b : to_bits 1 (Z.b2z b) = [b].
Proof. now destruct b. Qed.

Lemma write_bit_spec b w :
  writer_ok w ->
  if (bw_current_bits w + 1 <=? bw_max_bits w) && (bw_current_bits w + 1 <=? 3455)
  then exists w', BitWriter_write_bit b w = Ok w' /\ extends w [b] w'
  else BitWriter_write_bit b w = Panic.
Proof.
  intros Hok. pose proof (wok_sb _ Hok). rewrite write_bit_put.
  pose proof (put_spec 1 (Z.b2z b) w Hok ltac:(lia) ltac:(lia) (b2z_range b)) as P.
  rewrite to_bits_b2z in P.
  destruct (Z.leb_spec (bw_max_bits w) (bw_current_bits w)).
  - now rewrite (proj2 (Z.leb_gt (bw_current_bits w + 1) _)) by lia.
  - rewrite (proj2 (Z.leb_le _ (bw_max_bits w))) by lia. simpl.
    destruct (_ <=? 3455); [|exact P]. destruct P as (w' & P & X & _). eauto.
Qed.

Lemma write_bits_spec l w :
  writer_ok w -> l <> [] ->
  if (bw_current_bits w + Z.of_nat (length l) <=? bw_max_bits w)
     && (bw_current_bits w + Z.of_nat (length l) <=? 3455)
  then exists w', write_bits l w = Ok w' /\ extends w l w'
  else write_bits l w = Panic.
Proof.
  intros Hok Hne. revert w Hok Hne. induction l as [|b l IH]; intros w Hok Hne; [done|].
  unfold write_bits in *. cbn [foldM write_bit BitWriter_BitWrite length].
  pose proof (write_bit_spec b w Hok) as Hb.
  destruct (_ && _) eqn:E in Hb.
  - destruct Hb as (w1 & Hb & X1). rewrite Hb. cbn [mbind res_bind].
    pose proof (extends_current _ _ _ Hok X1) as C1. simpl in C1.
    pose proof X1 as (Ok1 & _ & M1 & _). destruct l as [|b2 l].
    + change (Z.of_nat (S (length []))) with 1. rewrite E. exists w1. auto.
    + specialize (IH w1 Ok1 ltac:(done)). rewrite M1 in IH.
      replace (bw_current_bits w + Z.of_nat (S (length (b2 :: l))))
        with (bw_current_bits w1 + Z.of_nat (length (b2 :: l))) by lia.
      destruct (_ && _); [|exact IH]. destruct IH as (w2 & IH & X2). exists w2.
      split; [exact IH|]. exact (extends_trans w w1 w2 [b] _ Hok X1 X2).
  - rewrite Hb. match goal with |- if ?c then _ else _ => destruct c eqn:E2 end.
    + bools. lia.
    + reflexivity.
Qed.

Lemma to_bits_split n m z :
  to_bits (n + m) z = to_bits n (z mod 2 ^ Z.of_nat n) ++ to_bits m (z / 2 ^ Z.of_nat n).
Proof. now rewrite to_bits_app, to_bits_mod. Qed.

(** [byte & ((1 << n) - 1)] and [byte >> n] are the low and high parts of a byte. *)
Lemma land_shl_mod x n : 0 <= n -> Z.land x (Z.shiftl 1 n - 1) = x mod 2 ^ n.
Proof.
  intros. rewrite Z.shiftl_1_l, Z.sub_1_r, <- Z.ones_equiv. apply Z.land_ones. assumption.
Qed.

Lemma write_byte_put b w :
  writer_ok w -> is_byte b ->
  BitWriter_write_byte b w =
  if bw_max_bits w <? bw_current_bits w + 8 then Panic else
  let available := 32 - bw_scratch_bits w in
  if 8 <=? available then BitWriter_put 8 b w else
  w1 ← BitWriter_put available (b mod 2 ^ available) w;
  BitWriter_put (8 - available) (b / 2 ^ available) w1.
Proof.
  intros Hok Hb. pose proof (writer_ok_current _ Hok). pose proof (wok_sb _ Hok).
  unfold BitWriter_write_byte, uadd.
  rewrite (proj2 (Z.ltb_lt _ _)) by lia. rewrite bind_ok.
  destruct (_ <? _) eqn:Em; [reflexivity|]. cbv zeta.
  destruct (8 <=? 32 - bw_scratch_bits w) eqn:Ea; [reflexivity|]. bools.
  rewrite land_shl_mod, Z.shiftr_div_pow2 by lia.
  set (a := 32 - bw_scratch_bits w).
  unfold BitWriter_put at 2. cbn [bw_scratch_bits].
  rewrite (proj2 (Z.eqb_eq (bw_scratch_bits w + a) 32)) by lia.
  unfold BitWriter_flush_word. cbn [bw_buffer bw_byte_count bw_scratch].
  destruct (copy_slice _ _ _) as [buf| | |]; try reflexivity.
  rewrite !bind_ok. unfold BitWriter_put.
  cbn [bw_scratch bw_scratch_bits bw_buffer bw_byte_count bw_current_bits bw_max_bits].
  rewrite (proj2 (Z.eqb_neq (0 + (8 - a)) 32)) by lia. rewrite Z.add_0_l, Z.lor_0_l.
  do 2 f_equal; [|lia]. unfold shl32. rewrite Z.shiftl_0_r. symmetry. apply wrap_small.
  unfold in_u, is_byte in *. split; [apply Z.div_pos; lia|].
  apply Z.div_lt_upper_bound; [lia|]. nia.
Qed.

Lemma write_byte_spec b w :
  writer_ok w -> is_byte b ->
  if (bw_current_bits w + 8 <=? bw_max_bits w) && (bw_current_bits w + 8 <=? 3455)
  then exists w', BitWriter_write_byte b w = Ok w' /\ extends w (to_bits 8 b) w'
  else BitWriter_write_byte b w = Panic.
Proof.
  intros Hok Hb. pose proof (wok_sb _ Hok) as Hs. rewrite write_byte_put by assumption.
  destruct (Z.ltb_spec (bw_max_bits w) (bw_current_bits w + 8)).
  { now rewrite (proj2 (Z.leb_gt (bw_current_bits w + 8) _)) by lia. }
  rewrite (proj2 (Z.leb_le _ (bw_max_bits w))) by lia. rewrite andb_true_l. cbv zeta.
  set (a := 32 - bw_scratch_bits w). destruct (Z.leb_spec 8 a) as [Ha|Ha].
  - pose proof (put_spec 8 b w Hok ltac:(lia) ltac:(lia) Hb) as P.
    destruct (_ <=? 3455); [|exact P]. destruct P as (w' & P & X & _). eauto.
  - assert (0 <= b mod 2 ^ a < 2 ^ a) as Hlo by (apply Z.mod_pos_bound; lia).
    pose proof (put_spec a (b mod 2 ^ a) w Hok ltac:(lia) ltac:(lia) Hlo) as P.
    assert (0 <= b / 2 ^ a < 2 ^ (8 - a)) as Hhi.
    { split; [apply Z.div_pos; unfold is_byte in *; lia|].
      apply Z.div_lt_upper_bound; [lia|]. rewrite <- Z.pow_add_r by lia.
      replace (a + (8 - a)) with 8 by lia. apply Hb. }
    destruct (Z.leb_spec (bw_current_bits w + a) 3455) as [Hc|Hc].
    + destruct P as (w1 & P & X1 & S1). destruct (S1 ltac:(lia)) as [_ S2].
      rewrite P, bind_ok. pose proof X1 as (Ok1 & _).
      pose proof (put_spec (8 - a) (b / 2 ^ a) w1 Ok1 ltac:(lia) ltac:(lia) Hhi) as P2.
      rewrite (extends_current _ _ _ Hok X1), length_to_bits in P2.
      replace (bw_current_bits w + Z.of_nat (Z.to_nat a) + (8 - a))
        with (bw_current_bits w + 8) in P2 by lia.
      destruct (_ <=? 3455); [|exact P2]. destruct P2 as (w2 & P2 & X2 & _).
      exists w2. split; [exact P2|].
      replace (to_bits 8 b) with
        (to_bits (Z.to_nat a) (b mod 2 ^ a) ++ to_bits (Z.to_nat (8 - a)) (b / 2 ^ a)).
      * exact (extends_trans _ _ _ _ _ Hok X1 X2).
      * replace 8%nat with (Z.to_nat a + Z.to_nat (8 - a))%nat by lia.
        rewrite to_bits_split, Z2Nat.id by lia. reflexivity.
    + rewrite P. rewrite (proj2 (Z.leb_gt _ 3455)) by lia. reflexivity.
Qed.

Lemma write_byte_bits b w :
  writer_ok w -> is_byte b -> BitWriter_write_byte b w = write_bits (to_bits 8 b) w.
Proof.
  intros Hok Hb. pose proof (write_byte_spec b w Hok Hb) as P1.
  pose proof (write_bits_spec (to_bits 8 b) w Hok ltac:(done)) as P2.
  rewrite length_to_bits in P2. change (Z.of_nat 8) with 8 in P2.
  destruct (_ && _); [|congruence].
  destruct P1 as (w1 & -> & X1), P2 as (w2 & -> & X2). f_equal. eapply extends_unique; eauto.
Qed.

(** * The file writer as a list of bits *)
Definition fw_bits (w : FileBitWriter) : list bool :=
  bytes_bits (fw_buffer w) ++ to_bits (Z.to_nat (fw_scratch_bits w)) (fw_scratch w).

Record file_ok (w : FileBitWriter) : Prop := {
  fok_sb : 0 <= fw_scratch_bits w < 32;
  fok_scratch : 0 <= fw_scratch w < 2 ^ fw_scratch_bits w;
  fok_bytes : Forall is_byte (fw_buffer w);
  fok_word : Z.of_nat (length (fw_buffer w)) mod 4 = 0;
}.

Lemma file_determined w1 w2 : file_ok w1 -> file_ok w2 -> fw_bits w1 = fw_bits w2 -> w1 = w2.
Proof.
  intros [S1 C1 B1 W1] [S2 C2 B2 W2] E. unfold fw_bits in E.
  pose proof (f_equal length E) as L. rewrite !length_app, !length_bytes_bits, !length_to_bits in L.
  destruct w1 as [c1 s1 b1], w2 as [c2 s2 b2]; simpl in *.
  assert (length b1 = length b2) as Lb by dlia. assert (s1 = s2) as <- by lia.
  apply app_inj_1 in E as [E1 E2]; [|now rewrite !length_bytes_bits, Lb].
  apply bytes_bits_inj in E1; [|assumption..].
  apply to_bits_inj in E2; [|rewrite Z2Nat.id by lia; assumption..]. congruence.
Qed.

Definition FileBitWriter_put (n v : Z) (w : FileBitWriter) : FileBitWriter :=
  let w' := mkFileBitWriter (Z.lor (fw_scratch w) (shl32 v (fw_scratch_bits w)))
    (fw_scratch_bits w + n) (fw_buffer w) in
  if fw_scratch_bits w' =? 32 then FileBitWriter_flush_word w' else w'.

Lemma file_put_spec n v w :
  file_ok w -> 0 < n -> fw_scratch_bits w + n <= 32 -> 0 <= v < 2 ^ n ->
  file_ok (FileBitWriter_put n v w) /\
  fw_bits (FileBitWriter_put n v w) = fw_bits w ++ to_bits (Z.to_nat n) v /\
  (fw_scratch_bits w + n = 32 -> fw_scratch (FileBitWriter_put n v w) = 0 /\
     fw_scratch_bits (FileBitWriter_put n v w) = 0).
Proof.
  intros [S C B W] Hn Hsn Hv.
  destruct (lor_shl32 (fw_scratch w) v (fw_scratch_bits w) n) as [El Hr]; try lia.
  unfold FileBitWriter_put, FileBitWriter_flush_word, fw_bits.
  cbn [fw_scratch_bits fw_scratch fw_buffer]. rewrite El.
  assert (to_bits (Z.to_nat (fw_scratch_bits w + n)) (fw_scratch w + v * 2 ^ fw_scratch_bits w) =
          to_bits (Z.to_nat (fw_scratch_bits w)) (fw_scratch w) ++ to_bits (Z.to_nat n) v) as Eb.
  { rewrite Z2Nat.inj_add, <- to_bits_add by (rewrite ?Z2Nat.id; lia).
    now rewrite Z2Nat.id by lia. }
  destruct (Z.eqb_spec (fw_scratch_bits w + n) 32) as [E|E].
  - rewrite E in Eb, Hr. split; [|split; [|auto]].
    + constructor; cbn [fw_scratch_bits fw_scratch fw_buffer];
        [lia|lia|apply Forall_app_2; [assumption|apply to_le_bytes_bytes]|].
      rewrite length_app, length_to_le_bytes. dlia.
    + cbn [fw_scratch_bits fw_scratch fw_buffer Z.to_nat to_bits].
      rewrite bytes_bits_app, le_bytes_bits, app_nil_r, <- app_assoc. f_equal. exact Eb.
  - split; [constructor; simpl; try assumption; lia|]. split; [|lia].
    cbn [fw_scratch_bits fw_scratch fw_buffer]. now rewrite Eb, app_assoc.
Qed.

Lemma file_write_bit_spec b w :
  file_ok w -> exists w', FileBitWriter_write_bit b w = Ok w' /\ file_ok w' /\ fw_bits w' = fw_bits w ++ [b].
Proof.
  intros H. pose proof (fok_sb _ H). eexists; split; [reflexivity|].
  destruct (file_put_spec 1 (Z.b2z b) w H ltac:(lia) ltac:(lia) (b2z_range b)) as (O & E & _).
  rewrite to_bits_b2z in E. split; [exact O|exact E].
Qed.

Lemma file_write_bits_spec l w :
  file_ok w -> exists w', write_bits l w = Ok w' /\ file_ok w' /\ fw_bits w' = fw_bits w ++ l.
Proof.
  revert w; induction l as [|b l IH]; intros w H.
  - exists w. rewrite app_nil_r. auto.
  - destruct (file_write_bit_spec b w H) as (w1 & E1 & O1 & B1).
    destruct (IH w1 O1) as (w2 & E2 & O2 & B2). exists w2.
    split; [|split; [exact O2|now rewrite B2, B1, <- app_assoc]].
    unfold write_bits. cbn [foldM write_bit FileBitWriter_BitWrite]. rewrite E1. exact E2.
Qed.

Lemma file_write_byte_spec b w :
  file_ok w -> is_byte b ->
  exists w', FileBitWriter_write_byte b w = Ok w' /\ file_ok w' /\ fw_bits w' = fw_bits w ++ to_bits 8 b.
Proof.
  intros H Hb. pose proof (fok_sb _ H). unfold FileBitWriter_write_byte.
  eexists; split; [reflexivity|]. set (a := 32 - fw_scratch_bits w).
  destruct (Z.leb_spec 8 a) as [Ha|Ha].
  - destruct (file_put_spec 8 b w H ltac:(lia) ltac:(lia) Hb) as (O & E & _).
    split; [exact O|exact E].
  - rewrite land_shl_mod, Z.shiftr_div_pow2 by lia.
    assert (0 <= b mod 2 ^ a < 2 ^ a) as Hlo by (apply Z.mod_pos_bound; lia).
    assert (0 <= b / 2 ^ a < 2 ^ (8 - a)) as Hhi.
    { split; [apply Z.div_pos; unfold is_byte in *; lia|].
      apply Z.div_lt_upper_bound; [lia|]. rewrite <- Z.pow_add_r by lia.
      replace (a + (8 - a)) with 8 by lia. apply Hb. }
    destruct (file_put_spec a (b mod 2 ^ a) w H ltac:(lia) ltac:(lia) Hlo) as (O1 & E1 & S1).
    destruct (S1 ltac:(lia)) as [C0 S0]. set (w1 := FileBitWriter_put a _ w) in *.
    destruct (file_put_spec (8 - a) (b / 2 ^ a) w1 O1 ltac:(lia) ltac:(lia) Hhi) as (O2 & E2 & _).
    assert (FileBitWriter_put (8 - a) (b / 2 ^ a) w1 = mkFileBitWriter (b / 2 ^ a) (8 - a) (fw_buffer w1)) as P2.
    { unfold FileBitWriter_put. cbn [fw_scratch_bits]. rewrite C0, S0, Z.lor_0_l, Z.add_0_l.
      rewrite (proj2 (Z.eqb_neq _ 32)) by lia. f_equal. unfold shl32. rewrite Z.shiftl_0_r.
      apply wrap_small. unfold in_u. assert (2 ^ (8 - a) <= 2 ^ 32) by (apply Z.pow_le_mono_r; lia). lia. }
    assert (fw_buffer w1 = fw_buffer w ++ to_le_bytes 4 (Z.lor (fw_scratch w) (shl32 (b mod 2 ^ a) (fw_scratch_bits w)))) as P1.
    { unfold w1, FileBitWriter_put. cbn [fw_scratch_bits].
      rewrite (proj2 (Z.eqb_eq _ 32)) by lia. reflexivity. }
    cbn [FileBitWriter_flush_word fw_buffer fw_scratch]. rewrite <- P1, <- P2.
    split; [exact O2|]. rewrite E2, E1, <- app_assoc. f_equal.
    replace 8%nat with (Z.to_nat a + Z.to_nat (8 - a))%nat by lia.
    rewrite to_bits_split, Z2Nat.id by lia. reflexivity.
Qed.

Lemma file_write_byte_bits b w :
  file_ok w -> is_byte b -> FileBitWriter_write_byte b w = write_bits (to_bits 8 b) w.
Proof.
  intros H Hb. destruct (file_write_byte_spec b w H Hb) as (w1 & -> & O1 & B1).
  destruct (file_write_bits_spec (to_bits 8 b) w H) as (w2 & -> & O2 & B2).
  f_equal. apply file_determined; congruence.
Qed.

(** * The counter *)
Lemma counter_write_bits l c :
  0 <= bc_current_bits c < 2 ^ 32 ->
  write_bits l c =
    if bc_current_bits c + Z.of_nat (length l) <? 2 ^ 32
    then Ok (mkBitCounter (bc_start_bits c) (bc_current_bits c + Z.of_nat (length l)) (bc_max_bits c))
    else Panic.
Proof.
  revert c; induction l as [|b l IH]; intros [st cur mx] H; cbn [bc_current_bits bc_start_bits bc_max_bits] in *.
  - cbn [length]. rewrite Z.add_0_r, (proj2 (Z.ltb_lt _ _)) by lia. reflexivity.
  - unfold write_bits in *. cbn [foldM write_bit BitCounter_BitWrite length].
    unfold BitCounter_write_bit, BitCounter_count_bits, uadd.
    cbn [bc_current_bits bc_start_bits bc_max_bits].
    destruct (Z.ltb_spec (cur + 1) (2 ^ 32)) as [L|L].
    + rewrite !bind_ok. rewrite IH by (cbn; lia). cbn [bc_current_bits bc_start_bits bc_max_bits].
      replace (cur + 1 + Z.of_nat (length l)) with (cur + Z.of_nat (S (length l))) by lia. reflexivity.
    + rewrite (proj2 (Z.ltb_ge _ _)) by lia. reflexivity.
Qed.

(** * What every writer promises its clients

    [W] may be any of the three writers; [wok] is its well-formedness. *)
Class BitWriteLaws (W : Type) `{BitWrite W} := {
  wok : W -> Prop;
  write_bit_wok : forall b w w', wok w -> write_bit b w = Ok w' -> wok w';
  write_byte_is_bits : forall b w, wok w -> is_byte b -> write_byte b w = write_bits (to_bits 8 b) w;
}.

#[global] Program Instance BitWriter_laws : BitWriteLaws BitWriter := { wok := writer_ok }.
Next Obligation.
  simpl; intros b w w' H E. pose proof (write_bit_spec b w H) as P.
  destruct (_ && _); [|congruence]. destruct P as (w2 & P & X). rewrite E in P.
  injection P as ->. apply X.
Qed.
Next Obligation. simpl; intros. now apply write_byte_bits. Qed.

#[global] Program Instance FileBitWriter_laws : BitWriteLaws FileBitWriter := { wok := file_ok }.
Next Obligation.
  simpl; intros b w w' H E. destruct (file_write_bit_spec b w H) as (w2 & P & O & _). congruence.
Qed.
Next Obligation. simpl; intros. now apply file_write_byte_bits. Qed.

#[global] Program Instance BitCounter_laws : BitWriteLaws BitCounter :=
  { wok c := 0 <= bc_current_bits c < 2 ^ 32 }.
Next Obligation.
  simpl; intros b c c' H E. unfold BitCounter_write_bit, BitCounter_count_bits, uadd in E.
  case_ifs; [|discriminate]. injection E as <-. simpl. lia.
Qed.
Next Obligation.
  intros b c H _. change (BitCounter_write_byte b c = write_bits (to_bits 8 b) c).
  rewrite counter_write_bits by assumption. rewrite length_to_bits.
  unfold BitCounter_write_byte, BitCounter_count_bits, uadd. change (Z.of_nat 8) with 8.
  destruct (_ <? _); reflexivity.
Qed.

Lemma write_bits_wok {W} `{BitWriteLaws W} l w w' : wok w -> write_bits l w = Ok w' -> wok w'.
Proof. apply (foldM_inv wok). intros b s0 s1. apply write_bit_wok. Qed.

Lemma write_bits_app {W} `{BitWrite W} l1 l2 (w : W) :
  write_bits (l1 ++ l2) w = (w' ← write_bits l1 w; write_bits l2 w').
Proof. apply foldM_app. Qed.

(** * Finishing a packet *)
Lemma to_bits_zero n : to_bits n 0 = replicate n false.
Proof. induction n; simpl; f_equal; auto. Qed.

Lemma take_le_bytes n m z : (n <= m)%nat -> take n (to_le_bytes m z) = to_le_bytes n z.
Proof.
  revert m z; induction n as [|n IH]; intros m z H; [reflexivity|].
  destruct m; [lia|]. simpl. rewrite IH by lia. reflexivity.
Qed.

(** The bytes of a partial word: its bits, zero padded. *)
Lemma take_word_bits rb sb c :
  0 <= sb <= 8 * rb -> rb <= 4 -> 0 <= c < 2 ^ sb ->
  bytes_bits (take (Z.to_nat rb) (to_le_bytes 4 c)) =
  to_bits (Z.to_nat sb) c ++ replicate (Z.to_nat (8 * rb - sb)) false.
Proof.
  intros Hs Hr Hc. rewrite take_le_bytes, le_bytes_bits by lia.
  replace (8 * Z.to_nat rb)%nat with (Z.to_nat sb + Z.to_nat (8 * rb - sb))%nat by lia.
  rewrite to_bits_app, Z2Nat.id, Z.div_small, to_bits_zero by lia. reflexivity.
Qed.

Lemma finalize_bytes w :
  writer_ok w ->
  if bw_current_bits w <=? 3440
  then exists bs pad, BitWriter_to_bytes w = Ok bs /\ (pad < 8)%nat /\
         bytes_bits bs = bw_bits w ++ replicate pad false /\ Forall is_byte bs /\
         Z.of_nat (length bs) = (bw_current_bits w + 7) / 8
  else BitWriter_to_bytes w = Panic.
Proof.
  intros [S C L B R W K]. unfold BitWriter_to_bytes, BitWriter_finalize.
  destruct (Z.ltb_spec 0 (bw_scratch_bits w)) as [Hs|Hs].
  - set (rb := (bw_scratch_bits w + 7) / 8).
    assert (1 <= rb <= 4 /\ bw_scratch_bits w <= 8 * rb < bw_scratch_bits w + 8) as [Hrb Hr8]
      by (unfold rb; dlia).
    assert (length (take (Z.to_nat rb) (to_le_bytes 4 (bw_scratch w))) = Z.to_nat rb) as Lt
      by (rewrite length_take, length_to_le_bytes; lia).
    destruct (Z.leb_spec (bw_current_bits w) 3440) as [Hc|Hc].
    + destruct (copy_slice_ok (bw_buffer w) (bw_byte_count w)
        (take (Z.to_nat rb) (to_le_bytes 4 (bw_scratch w)))) as (buf & E & Lb & Tb & _ & Fb);
        [lia|rewrite Lt, L; dlia|].
      rewrite E. rewrite !bind_ok. cbn [bw_byte_count bw_buffer bw_scratch].
      rewrite Lt in Tb.
      exists (take (Z.to_nat (bw_byte_count w + rb)) buf), (Z.to_nat (8 * rb - bw_scratch_bits w)).
      split; [reflexivity|]. split; [lia|].
      replace (Z.to_nat (bw_byte_count w + rb)) with (Z.to_nat (bw_byte_count w) + Z.to_nat rb)%nat by lia.
      rewrite Tb. split; [|split].
      * rewrite bytes_bits_app. unfold bw_bits. rewrite <- app_assoc. f_equal.
        apply take_word_bits; lia.
      * rewrite <- Tb. apply Forall_take, Fb; [assumption|apply Forall_take, to_le_bytes_bytes].
      * rewrite length_app, Lt, length_take, L. unfold rb in *. rewrite K. dlia.
    + unfold copy_slice. rewrite Lt, L. rewrite (proj2 (Z.leb_gt _ _)) by dlia. reflexivity.
  - rewrite (proj2 (Z.leb_le _ _)) by dlia. rewrite !bind_ok. cbn [bw_byte_count bw_buffer].
    exists (take (Z.to_nat (bw_byte_count w)) (bw_buffer w)), 0%nat.
    split; [reflexivity|]. split; [lia|]. split; [|split].
    + unfold bw_bits. replace (bw_scratch_bits w) with 0 by lia. simpl. now rewrite !app_nil_r.
    + now apply Forall_take.
    + rewrite length_take, L. rewrite K. dlia.
Qed.

(** * The reader as a list of bits *)
Definition br_bits (r : BitReader) : list bool :=
  to_bits (Z.to_nat (br_scratch_bits r)) (br_scratch r) ++
  bytes_bits (drop (Z.to_nat (br_buffer_index r)) (br_buffer r)).

Record reader_ok (r : BitReader) : Prop := {
  rok_sb : 0 <= br_scratch_bits r < 8;
  rok_idx : 0 <= br_buffer_index r <= Z.of_nat (length (br_buffer r));
  rok_bytes : Forall is_byte (br_buffer r);
}.

Lemma reader_new_ok bs : Forall is_byte bs -> reader_ok (BitReader_new bs).
Proof. intros; constructor; simpl; [lia|lia|assumption]. Qed.

Lemma land_1_odd z : negb (Z.land z 1 =? 0) = Z.odd z.
Proof.
  change 1 with (Z.ones 1). rewrite Z.land_ones, Zmod_odd by lia. now destruct (Z.odd z).
Qed.

Lemma read_bit_spec r :
  reader_ok r ->
  match br_bits r with
  | [] => BitReader_read_bit r = Err
  | b :: l => exists r', BitReader_read_bit r = Ok (b, r') /\ reader_ok r' /\ br_bits r' = l
  end.
Proof.
  intros [S I B]. destruct r as [c sb i buf]; unfold BitReader_read_bit, br_bits; simpl in *.
  destruct (Z.eqb_spec sb 0) as [->|Hs].
  - simpl. destruct (Z.eqb_spec i (Z.of_nat (length buf))) as [->|Hi].
    + now rewrite Nat2Z.id, drop_all.
    + destruct (lookup_lt_is_Some_2 buf (Z.to_nat i)) as [x Hx]; [lia|].
      rewrite Hx. simpl. rewrite (drop_S _ x) by assumption.
      unfold bytes_bits. cbn [map concat to_bits app]. eexists; split.
      * rewrite land_1_odd. reflexivity.
      * split; [constructor; simpl; try assumption; lia|].
        unfold br_bits; simpl. rewrite <- Z.div2_spec.
        replace (Z.to_nat (i + 1)) with (Datatypes.S (Z.to_nat i)) by lia. reflexivity.
  - rewrite bind_ok. cbn [br_scratch br_scratch_bits br_buffer_index br_buffer].
    unfold usub. rewrite (proj2 (Z.leb_le 1 sb)) by lia.
    replace (Z.to_nat sb) with (Datatypes.S (Z.to_nat (sb - 1))) by lia. cbn [to_bits app].
    eexists; split; [rewrite land_1_odd; reflexivity|].
    split; [constructor; simpl; try assumption; lia|].
    unfold br_bits; simpl. now rewrite Z.div2_spec.
Qed.

(** [n] successive [read_bit]s, collected. *)
Fixpoint read_bits (n : nat) (r : BitReader) : res (list bool * BitReader) :=
  match n with
  | O => Ok ([], r)
  | S n' => '(b, r1) ← BitReader_read_bit r; '(l, r2) ← read_bits n' r1; Ok (b :: l, r2)
  end.

Lemma read_bits_spec n r :
  reader_ok r ->
  if (n <=? length (br_bits r))%nat
  then exists r', read_bits n r = Ok (take n (br_bits r), r') /\ reader_ok r' /\
         br_bits r' = drop n (br_bits r)
  else read_bits n r = Err.
Proof.
  revert r; induction n as [|n IH]; intros r H; [simpl; eauto|].
  pose proof (read_bit_spec r H) as P. cbn [read_bits].
  destruct (br_bits r) as [|b l]; [simpl; now rewrite P|].
  destruct P as (r1 & -> & O1 & B1). rewrite bind_ok.
  specialize (IH r1 O1). rewrite B1 in IH. cbn [length Nat.leb].
  destruct (n <=? length l)%nat; [|now rewrite IH].
  destruct IH as (r2 & -> & O2 & B2). eexists; split; [reflexivity|auto].
Qed.

Lemma read_bits_length n r l r' : read_bits n r = Ok (l, r') -> length l = n.
Proof.
  revert r l. induction n as [|n IH]; intros r l E; cbn [read_bits] in E.
  - injection E as <- _. reflexivity.
  - apply bind_ok_inv in E as ([b r1] & E1 & E). apply bind_ok_inv in E as ([l2 r2] & E2 & E).
    injection E as <- <-. simpl. f_equal. eauto.
Qed.

Lemma lor_bit_add x n : 0 <= n -> 0 <= x < 2 ^ n -> Z.lor x (Z.shiftl 1 n) = x + 2 ^ n.
Proof. intros. rewrite lor_shiftl_add by lia. lia. Qed.

Lemma read_byte_bits r :
  reader_ok r ->
  BitReader_read_byte r = ('(l, r') ← read_bits 8 r; Ok (of_bits l, r')).
Proof.
  intros H. unfold BitReader_read_byte. rewrite (proj2 (Z.leb_gt _ _)) by apply H.
  assert (forall n k out r, (n + k = 8)%nat -> 0 <= out < 2 ^ Z.of_nat k ->
    foldM (fun i '(output, r) =>
      '(bit, r') ← BitReader_read_bit r;
      Ok (if (bit : bool) then Z.lor output (Z.shiftl 1 i) else output, r'))
      (map Z.of_nat (seq k n)) (out, r) =
    ('(l, r') ← read_bits n r; Ok (out + 2 ^ Z.of_nat k * of_bits l, r'))) as G.
  { clear. induction n as [|n IH]; intros k out r Hk Ho.
    - simpl. do 2 f_equal. lia.
    - cbn [seq map foldM read_bits]. rewrite bind_assoc.
      destruct (BitReader_read_bit r) as [[b r1]| | |]; try reflexivity. rewrite !bind_ok.
      rewrite lor_bit_add by lia. rewrite IH.
      + destruct (read_bits n r1) as [[l r2]| | |]; try reflexivity. rewrite !bind_ok.
        do 2 f_equal. cbn [of_bits]. rewrite Nat2Z.inj_succ, Z.pow_succ_r by lia.
        destruct b; simpl Z.b2z; lia.
      + lia.
      + rewrite Nat2Z.inj_succ, Z.pow_succ_r by lia. destruct b; lia. }
  specialize (G 8%nat 0%nat 0 r eq_refl ltac:(lia)). 
  etransitivity; [exact G|].
  destruct (read_bits 8 r) as [[l r2]| | |]; try reflexivity. rewrite !bind_ok. do 2 f_equal. lia.
Qed.

Lemma read_bits_enc l rest r :
  reader_ok r -> br_bits r = l ++ rest ->
  exists r', read_bits (length l) r = Ok (l, r') /\ reader_ok r' /\ br_bits r' = rest.
Proof.
  intros H E. pose proof (read_bits_spec (length l) r H) as P. rewrite E in P.
  rewrite length_app, (proj2 (Nat.leb_le _ _)) in P by lia.
  rewrite take_app_length, drop_app_length in P. exact P.
Qed.

Lemma read_bit_enc b rest r :
  reader_ok r -> br_bits r = b :: rest ->
  exists r', BitReader_read_bit r = Ok (b, r') /\ reader_ok r' /\ br_bits r' = rest.
Proof. intros H E. pose proof (read_bit_spec r H) as P. now rewrite E in P. Qed.

Lemma read_byte_enc b rest r :
  is_byte b -> reader_ok r -> br_bits r = to_bits 8 b ++ rest ->
  exists r', BitReader_read_byte r = Ok (b, r') /\ reader_ok r' /\ br_bits r' = rest.
Proof.
  intros Hb H E. destruct (read_bits_enc (to_bits 8 b) rest r H E) as (r' & R & O & B).
  rewrite length_to_bits in R. exists r'. rewrite read_byte_bits, R by assumption.
  rewrite bind_ok, of_to_bits, Z.mod_small by exact Hb. auto.
Qed.

Lemma writer_new_ok cap : writer_ok (BitWriter_with_capacity cap).
Proof.
  unfold BitWriter_with_capacity. constructor;
    cbn [bw_scratch bw_scratch_bits bw_byte_count bw_buffer bw_current_bits]; try lia.
  - apply length_replicate.
  - apply Forall_replicate. unfold is_byte. lia.
  - reflexivity.
Qed.

Lemma writer_new_bits cap : bw_bits (BitWriter_with_capacity cap) = [].
Proof. reflexivity. Qed.

Lemma write_packet l :
  Z.of_nat (length l) <= MTU_SIZE_BITS ->
  exists w bs pad,
    write_bits l BitWriter_new = Ok w /\ BitWriter_to_bytes w = Ok bs /\ Forall is_byte bs /\
    br_bits (BitReader_new bs) = l ++ replicate pad false /\
    bw_current_bits w = Z.of_nat (length l) /\ (pad < 8)%nat /\
    Z.of_nat (length bs) <= MTU_SIZE_BYTES.
Proof.
  intros Hl. change MTU_SIZE_BITS with 3440 in Hl. change MTU_SIZE_BYTES with 430.
  assert (exists w, write_bits l BitWriter_new = Ok w /\ extends BitWriter_new l w) as (w & E & X).
  { destruct l as [|b l]; [exists BitWriter_new; split; [done|apply extends_refl, writer_new_ok]|].
    pose proof (write_bits_spec (b :: l) BitWriter_new (writer_new_ok _) ltac:(done)) as P.
    change (bw_current_bits BitWriter_new) with 0 in P.
    change (bw_max_bits BitWriter_new) with 3440 in P.
    replace (_ && _) with true in P; [exact P|]. symmetry.
    apply andb_true_iff; split; apply Z.leb_le; lia. }
  pose proof (extends_current BitWriter_new l w (writer_new_ok _) X) as C.
  change (bw_current_bits BitWriter_new) with 0 in C.
  destruct X as (O & B & _). pose proof (finalize_bytes w O) as F.
  rewrite (proj2 (Z.leb_le (bw_current_bits w) 3440)) in F by lia.
  destruct F as (bs & pad & T & Hp & Eb & Fb & Lb). exists w, bs, pad.
  change (br_bits (BitReader_new bs)) with (bytes_bits bs). rewrite Eb, B.
  repeat split; try assumption. rewrite Lb, C. dlia.
Qed.

(** * Theorems *)

(** C33: [BitWriter::write_byte], [FileBitWriter::write_byte] and
    [BitCounter::write_byte], which move eight bits at once across word
    boundaries, leave exactly the state (and panic in exactly the cases) of eight
    [write_bit]s, least significant bit first, from every well-formed state. *)
Theorem write_byte_equals_eight_bits (b : Z) :
  is_byte b ->
  (forall w : BitWriter, writer_ok w -> write_byte b w = write_bits (to_bits 8 b) w) /\
  (forall w : FileBitWriter, file_ok w -> write_byte b w = write_bits (to_bits 8 b) w) /\
  (forall c : BitCounter, in_u 32 (bc_current_bits c) -> write_byte b c = write_bits (to_bits 8 b) c).
Proof.
  intros Hb. split; [|split]; intros w H;
    exact (write_byte_is_bits b w H Hb).
Qed.

(** A writer with 27 bits in its scratch word, so that a byte crosses the word. *)
Definition mid_word_writer : BitWriter :=
  mkBitWriter (2 ^ 27 - 1) 27 (replicate 430 0) 0 27 MTU_SIZE_BITS.

Lemma mid_word_writer_ok : writer_ok mid_word_writer.
Proof.
  unfold mid_word_writer. constructor;
    cbn [bw_scratch bw_scratch_bits bw_byte_count bw_buffer bw_current_bits]; try lia.
  - apply length_replicate.
  - apply Forall_replicate. unfold is_byte. lia.
  - reflexivity.
Qed.

Lemma write_byte_equals_eight_bits_witness :
  is_byte 173 /\ write_byte 173 mid_word_writer = write_bits (to_bits 8 173) mid_word_writer.
Proof.
  split; [unfold is_byte; lia|].
  apply (write_byte_equals_eight_bits 173 ltac:(unfold is_byte; lia)).
  exact mid_word_writer_ok.
Defined.

(** From a well-formed writer, writing a non-empty list of bits succeeds
    exactly when it fits both the writer's limit and the 430-byte buffer (the last
    partial word must stay below bit 3456); it then appends exactly those bits, keeps
    the limit and the invariant, and otherwise it panics. *)
Theorem bit_writer_appends (l : list bool) (w : BitWriter) :
  writer_ok w -> l <> [] ->
  if (bw_current_bits w + Z.of_nat (length l) <=? bw_max_bits w)
     && (bw_current_bits w + Z.of_nat (length l) <=? 3455)
  then exists w', write_bits l w = Ok w' /\ writer_ok w' /\ bw_bits w' = bw_bits w ++ l /\
         bw_max_bits w' = bw_max_bits w /\
         bw_current_bits w' = bw_current_bits w + Z.of_nat (length l)
  else write_bits l w = Panic.
Proof.
  intros Hok Hl. pose proof (write_bits_spec l w Hok Hl) as P.
  destruct (_ && _); [|exact P]. destruct P as (w' & E & X).
  pose proof (extends_current _ _ _ Hok X). destruct X as (? & ? & ? & _). eauto 8.
Qed.

Lemma bit_writer_appends_witness :
  exists w', write_bits [true; false; true] BitWriter_new = Ok w' /\ writer_ok w' /\
    bw_bits w' = bw_bits BitWriter_new ++ [true; false; true] /\
    bw_max_bits w' = bw_max_bits BitWriter_new /\
    bw_current_bits w' = bw_current_bits BitWriter_new + 3.
Proof.
  exact (bit_writer_appends [true; false; true] BitWriter_new (writer_new_ok _) ltac:(discriminate)).
Defined.

(** C17: Packet round trip: any bit string of at most 3440 bits (the MTU) can be
    written to a new [BitWriter]; [to_bytes] then returns at most 430 bytes, and a
    [BitReader] on those bytes returns the same bits in the same order, leaving
    fewer than eight padding bits, all zero. *)
Theorem packet_roundtrip (l : list bool) :
  Z.of_nat (length l) <= MTU_SIZE_BITS ->
  exists w bs r' pad,
    write_bits l BitWriter_new = Ok w /\ BitWriter_to_bytes w = Ok bs /\
    Z.of_nat (length bs) <= MTU_SIZE_BYTES /\
    read_bits (length l) (BitReader_new bs) = Ok (l, r') /\
    (pad < 8)%nat /\ br_bits r' = replicate pad false.
Proof.
  intros Hl. destruct (write_packet l Hl) as (w & bs & pad & E & T & Fb & Eb & _ & Hp & Lb).
  destruct (read_bits_enc l (replicate pad false) (BitReader_new bs)) as (r' & R & _ & Br).
  - now apply reader_new_ok.
  - exact Eb.
  - exists w, bs, r', pad. repeat split; assumption.
Qed.

Lemma packet_roundtrip_witness :
  Z.of_nat (length (replicate 3440 true)) <= MTU_SIZE_BITS /\
  exists w bs r' pad,
    write_bits (replicate 3440 true) BitWriter_new = Ok w /\ BitWriter_to_bytes w = Ok bs /\
    Z.of_nat (length bs) <= MTU_SIZE_BYTES /\
    read_bits (length (replicate 3440 true)) (BitReader_new bs) = Ok (replicate 3440 true, r') /\
    (pad < 8)%nat /\ br_bits r' = replicate pad false.
Proof.
  split; [vm_compute; discriminate|].
  apply (packet_roundtrip (replicate 3440 true)). vm_compute. discriminate.
Defined.

(** C34: Reading never panics: on any byte buffer, at any position the reader can
    reach, [read_bit] and [read_byte] return the next one or eight bits of the
    stream when they are there and [Err] otherwise, and leave a well-formed reader
    over the rest of the stream. *)
Theorem bit_reader_total (r : BitReader) :
  reader_ok r ->
  match br_bits r with
  | [] => BitReader_read_bit r = Err
  | b :: l => exists r', BitReader_read_bit r = Ok (b, r') /\ reader_ok r' /\ br_bits r' = l
  end /\
  (if (8 <=? length (br_bits r))%nat
   then exists r', BitReader_read_byte r = Ok (of_bits (take 8 (br_bits r)), r') /\ reader_ok r' /\
          br_bits r' = drop 8 (br_bits r)
   else BitReader_read_byte r = Err).
Proof.
  intros H. split; [apply read_bit_spec; exact H|]. rewrite read_byte_bits by exact H.
  pose proof (read_bits_spec 8 r H) as P. destruct (8 <=? _)%nat; [|now rewrite P].
  destruct P as (r' & -> & O & B). eauto.
Qed.

Lemma bit_reader_total_witness :
  reader_ok (BitReader_new [5; 7]) /\
  exists r', BitReader_read_byte (BitReader_new [5; 7]) = Ok (5, r') /\ reader_ok r' /\
    br_bits r' = to_bits 8 7.
Proof.
  assert (reader_ok (BitReader_new [5; 7])) as H
    by (apply reader_new_ok; repeat constructor; unfold is_byte; lia).
  split; [exact H|]. exact (proj2 (bit_reader_total (BitReader_new [5; 7]) H)).
Defined.

(** A [BitCounter] taken from a packet writer predicts it: counting any bits
    never panics, [overflowed] is false exactly when the writer itself would accept
    the same bits, and [bits_needed] is their number. *)
Theorem counter_predicts_writer (l : list bool) (w : BitWriter) :
  writer_ok w -> bw_current_bits w <= bw_max_bits w <= MTU_SIZE_BITS -> Z.of_nat (length l) < 2 ^ 31 ->
  exists c, write_bits l (BitWriter_counter w) = Ok c /\
    BitCounter_overflowed c = negb (is_ok (write_bits l w)) /\
    BitCounter_bits_needed c = Ok (Z.of_nat (length l)).
Proof.
  intros Hok Hm Hl. change MTU_SIZE_BITS with 3440 in Hm.
  pose proof (writer_ok_current w Hok) as Hc.
  rewrite counter_write_bits by (simpl; lia). simpl bc_current_bits.
  rewrite (proj2 (Z.ltb_lt _ _)) by lia. eexists; split; [reflexivity|].
  unfold BitCounter_overflowed, BitCounter_bits_needed, usub. simpl. split.
  - destruct l as [|b l].
    + simpl. rewrite Z.add_0_r. apply Z.ltb_ge. lia.
    + pose proof (write_bits_spec (b :: l) w Hok ltac:(done)) as P.
      destruct (_ && _) eqn:E; bools.
      * destruct P as (w' & -> & _). apply Z.ltb_ge. lia.
      * rewrite P. apply Z.ltb_lt. apply andb_false_iff in E as [E|E]; bools; lia.
  - rewrite (proj2 (Z.leb_le _ _)) by lia. f_equal. lia.
Qed.

Lemma counter_predicts_writer_witness :
  exists c, write_bits (replicate 3441 true) (BitWriter_counter BitWriter_new) = Ok c /\
    BitCounter_overflowed c = negb (is_ok (write_bits (replicate 3441 true) BitWriter_new)) /\
    BitCounter_bits_needed c = Ok (Z.of_nat (length (replicate 3441 true))).
Proof.
  apply (counter_predicts_writer (replicate 3441 true) BitWriter_new (writer_new_ok _)).
  - vm_compute. split; discriminate.
  - vm_compute. reflexivity.
Defined.
