(* ===== verification/Number.v ===== *)
(** Integers of arbitrary width on the wire: src/shared/serde/src/number.rs.

    [SerdeNumberInner] is the run-time representation behind [UnsignedInteger<N>],
    [SignedInteger<N>], [UnsignedVariableInteger<N>] and [SignedVariableInteger<N>]
    (and the fixed-point floats): a fixed field of [bits] bits, or chunks of [bits]
    bits, each preceded by a "more follows" bit. *)

From Stdlib Require Import ZArith Lia.
From stdpp Require Import base list numbers.
From S2P Require Import Prelude BitIO.

Record SerdeNumberInner : Type := mkNum {
  inner_value : Z; num_signed : bool; num_variable : bool; num_bits : Z; fraction_digits : Z }.

Definition i128_MIN : Z := - 2 ^ 127.

(** [-x] on an [i128]. *)
Definition neg128 (x : Z) : res Z := if x =? i128_MIN then Panic else Ok (- x).

(** [x as i128] for a [u128] [x]. *)
Definition as_i128 (x : Z) : Z := if x <? 2 ^ 127 then x else x - 2 ^ 128.

Definition SerdeNumberInner_new (signed variable : bool) (bits fraction_digits value : Z)
  : res SerdeNumberInner :=
  if bits =? 0 then Panic else
  if 127 <? bits then Panic else
  if negb signed && (value <? 0) then Panic else
  if negb variable && (
       (* 2_i128.pow(127) overflows *)
       (127 <=? bits) || (2 ^ bits <=? value) || (signed && (value <? 0) && (value <=? - 2 ^ bits)))
  then Panic else
  Ok (mkNum value signed variable bits fraction_digits).

Definition SerdeNumberInner_new_unchecked (signed variable : bool) (bits fraction_digits value : Z)
  : SerdeNumberInner := mkNum value signed variable bits fraction_digits.

Definition SerdeNumberInner_get (n : SerdeNumberInner) : Z := inner_value n.

Definition SerdeNumberInner_set (value : Z) (n : SerdeNumberInner) : SerdeNumberInner :=
  mkNum value (num_signed n) (num_variable n) (num_bits n) (fraction_digits n).

(** [for _ in 0..n { writer.write_bit(value & 1 != 0); value >>= 1; }] *)
Fixpoint write_field {W} `{BitWrite W} (n : nat) (value : Z) (w : W) : res (W * Z) :=
  match n with
  | O => Ok (w, value)
  | S n' =>
      w' ← write_bit (negb (Z.land value 1 =? 0)) w;
      write_field n' (Z.shiftr value 1) w'
  end.

Fixpoint ser_chunks {W} `{BitWrite W} (fuel : nat) (bits value : Z) (w : W) : res W :=
  match fuel with
  | O => Diverge
  | S fuel' =>
      let proceed := 2 ^ bits <=? value in
      w1 ← write_bit proceed w;
      '(w2, value') ← write_field (Z.to_nat bits) value w1;
      if (proceed : bool) then ser_chunks fuel' bits value' w2 else Ok w2
  end.

Definition SerdeNumberInner_ser {W} `{BitWrite W} (n : SerdeNumberInner) (w : W) : res W :=
  let negative := inner_value n <? 0 in
  '(w1, value) ←
    (if num_signed n then
       w1 ← write_bit negative w;
       if (negative : bool) then v ← neg128 (inner_value n); Ok (w1, wrap 128 v)
       else Ok (w1, wrap 128 (inner_value n))
     else Ok (w, wrap 128 (inner_value n)));
  if num_variable n then
    (* 1u128 << bits *)
    if 128 <=? num_bits n then Panic else ser_chunks 129 (num_bits n) value w1
  else
    '(w2, _) ← write_field (Z.to_nat (num_bits n)) value w1; Ok w2.

(** [for i in 0..n { if reader.read_bit()? { raw |= 1 << i } }] on a [w]-bit word. *)
Fixpoint read_lsb (w : Z) (n : nat) (i raw : Z) (r : BitReader) : res (Z * BitReader) :=
  match n with
  | O => Ok (raw, r)
  | S n' =>
      '(b, r1) ← BitReader_read_bit r;
      raw' ← (if (b : bool) then if i <? w then Ok (Z.lor raw (Z.shiftl 1 i)) else Panic else Ok raw);
      read_lsb w n' (i + 1) raw' r1
  end.

(** [for _ in 0..n { raw <<= 1; if reader.read_bit()? { raw |= 1 } }] on a [u128]. *)
Fixpoint read_msb (n : nat) (raw : Z) (r : BitReader) : res (Z * BitReader) :=
  match n with
  | O => Ok (raw, r)
  | S n' =>
      let raw1 := wrap 128 (Z.shiftl raw 1) in
      '(b, r1) ← BitReader_read_bit r;
      read_msb n' (if (b : bool) then Z.lor raw1 1 else raw1) r1
  end.

Definition reverse_bits128 (x : Z) : Z := of_bits (rev (to_bits 128 x)).

Fixpoint de_chunks (fuel : nat) (bits output shift : Z) (r : BitReader) : res (Z * BitReader) :=
  match fuel with
  | O => Diverge
  | S fuel' =>
      '(proceed, r1) ← BitReader_read_bit r;
      '(chunk, r2) ← read_lsb 32 (Z.to_nat bits) 0 0 r1;
      if 128 <=? shift then Panic else
      let output := Z.lor output (wrap 128 (Z.shiftl chunk shift)) in
      shift' ← uadd 32 shift bits;
      if (proceed : bool) then de_chunks fuel' bits output shift' r2 else Ok (output, r2)
  end.

(** Every chunk consumes at least one bit of the input, so this many rounds suffice. *)
Definition chunk_fuel (r : BitReader) : nat := (8 * length (br_buffer r) + 9)%nat.

Definition SerdeNumberInner_de (signed variable : bool) (bits fraction_digits : Z) (r : BitReader)
  : res (SerdeNumberInner * BitReader) :=
  '(negative, r1) ← (if signed then BitReader_read_bit r else Ok (false, r));
  '(output, r2) ←
    (if variable then de_chunks (chunk_fuel r1) bits 0 0 r1
     else if bits <=? 32 then read_lsb 32 (Z.to_nat bits) 0 0 r1
     else if bits <=? 64 then read_lsb 64 (Z.to_nat bits) 0 0 r1
     else
       '(raw, r2) ← read_msb (Z.to_nat bits) 0 r1;
       s ← usub 128 bits;
       Ok (reverse_bits128 (wrap 128 (Z.shiftl raw s)), r2));
  let value := as_i128 output in
  value' ← (if (negative : bool) then neg128 value else Ok value);
  Ok (SerdeNumberInner_new_unchecked signed variable bits fraction_digits value', r2).

Fixpoint length_chunks (fuel : nat) (bits value output : Z) : res Z :=
  match fuel with
  | O => Diverge
  | S fuel' =>
      let proceed := 2 ^ bits <=? value in
      output ← uadd 32 output 1;
      (* for _ in 0..bits { output += 1; value >>= 1; } *)
      output ← uadd 32 output bits;
      if (proceed : bool) then length_chunks fuel' bits (Z.shiftr value bits) output else Ok output
  end.

Definition SerdeNumberInner_bit_length (n : SerdeNumberInner) : res Z :=
  let output := if num_signed n then 1 else 0 in
  if num_variable n then
    (* 2_u128.pow(bits) *)
    if 128 <=? num_bits n then Panic
    else length_chunks 129 (num_bits n) (Z.abs (inner_value n)) output
  else uadd 32 output (num_bits n).

(** * The encoding as a list of bits *)
Fixpoint chunks_enc (fuel : nat) (bits : nat) (v : Z) : list bool :=
  match fuel with
  | O => []
  | S fuel' =>
      let proceed := 2 ^ Z.of_nat bits <=? v in
      proceed :: to_bits bits v ++
      (if (proceed : bool) then chunks_enc fuel' bits (v / 2 ^ Z.of_nat bits) else [])
  end.

Definition num_enc (n : SerdeNumberInner) : list bool :=
  let v := Z.abs (inner_value n) in
  (if num_signed n then [inner_value n <? 0] else []) ++
  (if num_variable n then chunks_enc 129 (Z.to_nat (num_bits n)) v
   else to_bits (Z.to_nat (num_bits n)) v).

(** The values [SerdeNumberInner::new] accepts, for chunks of at most 32 bits. *)
Record num_ok (n : SerdeNumberInner) : Prop := {
  nok_bits : 1 <= num_bits n <= 127;
  nok_chunk : num_variable n = true -> num_bits n <= 32;
  nok_sign : num_signed n = false -> 0 <= inner_value n;
  nok_i128 : Z.abs (inner_value n) < 2 ^ 127;
  nok_fixed : num_variable n = false -> Z.abs (inner_value n) < 2 ^ num_bits n;
}.

Lemma num_new_ok signed variable bits fd v n :
  0 <= bits -> -2 ^ 127 < v < 2 ^ 127 -> (variable = true -> bits <= 32) ->
  SerdeNumberInner_new signed variable bits fd v = Ok n ->
  n = mkNum v signed variable bits fd /\ num_ok n.
Proof.
  intros H0 Hv Hb. unfold SerdeNumberInner_new.
  destruct (bits =? 0) eqn:E0; [discriminate|]. destruct (127 <? bits) eqn:E1; [discriminate|].
  destruct (negb signed && (v <? 0)) eqn:E2; [discriminate|].
  destruct (negb variable && _) eqn:E3; [discriminate|]. intros [= <-]. split; [reflexivity|].
  destruct signed, variable; simpl in *; bools; constructor; simpl; intros;
    try discriminate; lia.
Qed.

Lemma write_field_spec {W} `{BitWriteLaws W} n v (w : W) :
  write_field n v w = (w' ← write_bits (to_bits n v) w; Ok (w', v / 2 ^ Z.of_nat n)).
Proof.
  revert v w. induction n as [|n IH]; intros v w.
  - simpl. now rewrite Z.div_1_r.
  - cbn [write_field to_bits]. unfold write_bits. cbn [foldM]. rewrite land_1_odd.
    destruct (write_bit (Z.odd v) w) as [w1| | |]; try reflexivity. rewrite !bind_ok, IH.
    unfold write_bits. rewrite <- Z.div2_spec.
    destruct (foldM write_bit (to_bits n (Z.div2 v)) w1); try reflexivity. simpl mbind.
    do 2 f_equal. rewrite Nat2Z.inj_succ, Z.pow_succ_r, Z.div2_div, Z.div_div by lia. reflexivity.
Qed.

Lemma ser_chunks_spec {W} `{BitWriteLaws W} fuel bits v (w : W) :
  0 < bits -> 0 <= v < 2 ^ (Z.of_nat fuel - 1) -> (0 < fuel)%nat ->
  ser_chunks fuel bits v w = write_bits (chunks_enc fuel (Z.to_nat bits) v) w.
Proof.
  intros Hb. revert v w. induction fuel as [|fuel IH]; intros v w Hv Hf; [lia|].
  cbn [ser_chunks chunks_enc]. rewrite Z2Nat.id by lia.
  unfold write_bits at 1. cbn [foldM]. destruct (write_bit _ w) as [w1| | |]; try reflexivity.
  rewrite !bind_ok, write_field_spec, bind_assoc, Z2Nat.id by lia.
  change (foldM write_bit) with (write_bits (W := W)). rewrite write_bits_app.
  destruct (write_bits (to_bits _ v) w1) as [w2| | |]; try reflexivity. rewrite !bind_ok.
  destruct (Z.leb_spec (2 ^ bits) v) as [L|L]; [|reflexivity].
  assert (2 ^ 1 <= 2 ^ bits) by (apply Z.pow_le_mono_r; lia).
  destruct fuel as [|fuel]; [simpl in Hv; lia|].
  apply IH; [|lia]. split; [apply Z.div_pos; lia|]. apply Z.div_lt_upper_bound; [lia|].
  replace (Z.of_nat (S (S fuel)) - 1) with (1 + (Z.of_nat (S fuel) - 1)) in Hv by lia.
  rewrite Z.pow_add_r in Hv by lia.
  assert (0 <= 2 ^ (Z.of_nat (S fuel) - 1)) by (apply Z.pow_nonneg; lia). nia.
Qed.

Lemma wrap128_abs x : Z.abs x < 2 ^ 127 -> wrap 128 (Z.abs x) = Z.abs x.
Proof. intros. apply wrap_small. unfold in_u. lia. Qed.

Lemma wrap128_pos x : 0 <= x -> Z.abs x < 2 ^ 127 -> wrap 128 x = Z.abs x.
Proof. intros. rewrite Z.abs_eq by lia. apply wrap_small. unfold in_u. lia. Qed.

Lemma num_ser_spec {W} `{BitWriteLaws W} n (w : W) :
  num_ok n -> SerdeNumberInner_ser n w = write_bits (num_enc n) w.
Proof.
  intros [B C S I F]. unfold SerdeNumberInner_ser, num_enc.
  assert (forall w1 : W,
    (if num_variable n then
       if 128 <=? num_bits n then Panic else ser_chunks 129 (num_bits n) (Z.abs (inner_value n)) w1
     else '(w2, _) ← write_field (Z.to_nat (num_bits n)) (Z.abs (inner_value n)) w1; Ok w2) =
    write_bits (if num_variable n then chunks_enc 129 (Z.to_nat (num_bits n)) (Z.abs (inner_value n))
                else to_bits (Z.to_nat (num_bits n)) (Z.abs (inner_value n))) w1) as G.
  { intros w1. rewrite (proj2 (Z.leb_gt 128 _)) by lia. destruct (num_variable n).
    - apply ser_chunks_spec; [lia| |lia]. change (Z.of_nat 129 - 1) with 128. lia.
    - rewrite write_field_spec. destruct (write_bits _ w1); reflexivity. }
  rewrite write_bits_app. destruct (num_signed n).
  - unfold write_bits at 2. cbn [foldM]. destruct (write_bit _ w) as [w1| | |]; try reflexivity.
    rewrite !bind_ok. rewrite <- G. destruct (Z.ltb_spec (inner_value n) 0).
    + unfold neg128, i128_MIN. rewrite (proj2 (Z.eqb_neq _ _)) by lia.
      rewrite !bind_ok. rewrite <- Z.abs_neq, wrap128_abs by lia. reflexivity.
    + now rewrite bind_ok, wrap128_pos by lia.
  - specialize (S eq_refl). rewrite bind_ok, wrap128_pos by lia. rewrite G. reflexivity.
Qed.

(** * Decoding *)
Lemma read_lsb_spec w n i raw r :
  0 <= i -> i + Z.of_nat n <= w -> 0 <= raw < 2 ^ i ->
  read_lsb w n i raw r = ('(l, r') ← read_bits n r; Ok (raw + 2 ^ i * of_bits l, r')).
Proof.
  revert i raw r. induction n as [|n IH]; intros i raw r Hi Hw Hr.
  - simpl. do 2 f_equal. lia.
  - cbn [read_lsb read_bits]. rewrite bind_assoc.
    destruct (BitReader_read_bit r) as [[b r1]| | |]; try reflexivity. rewrite !bind_ok.
    rewrite (proj2 (Z.ltb_lt i w)), lor_bit_add by lia.
    assert (0 <= 2 ^ i) by (apply Z.pow_nonneg; lia).
    destruct b; rewrite bind_ok, IH by (rewrite ?Z.pow_add_r; lia);
      destruct (read_bits n r1) as [[l r2]| | |]; try reflexivity; rewrite !bind_ok;
      do 2 f_equal; cbn [of_bits Z.b2z]; rewrite Z.pow_add_r by lia; lia.
Qed.

Lemma read_msb_spec n raw r :
  0 <= raw -> raw * 2 ^ Z.of_nat n + 2 ^ Z.of_nat n <= 2 ^ 128 ->
  read_msb n raw r =
  ('(l, r') ← read_bits n r; Ok (raw * 2 ^ Z.of_nat n + of_bits (rev l), r')).
Proof.
  revert raw r. induction n as [|n IH]; intros raw r H0 Hr.
  - simpl. do 2 f_equal. lia.
  - cbn [read_msb read_bits]. rewrite bind_assoc.
    destruct (BitReader_read_bit r) as [[b r1]| | |] eqn:E1; try reflexivity. rewrite !bind_ok.
    rewrite Nat2Z.inj_succ, Z.pow_succ_r in Hr |- * by lia.
    assert (0 < 2 ^ Z.of_nat n) by (apply Z.pow_pos_nonneg; lia).
    assert (wrap 128 (Z.shiftl raw 1) = 2 * raw) as ->.
    { rewrite Z.shiftl_mul_pow2 by lia. change (2 ^ 1) with 2. rewrite Z.mul_comm.
      apply wrap_small. unfold in_u. nia. }
    assert (Z.lor (2 * raw) 1 = 2 * raw + 1) as ->.
    { replace (2 * raw) with (Z.shiftl raw 1) by (rewrite Z.shiftl_mul_pow2; lia).
      rewrite Z.lor_comm, lor_shiftl_add, Z.shiftl_mul_pow2 by lia. lia. }
    destruct b; rewrite IH by nia;
      destruct (read_bits n r1) as [[l r2]| | |] eqn:E2; try reflexivity; rewrite !bind_ok;
      do 2 f_equal; cbn [rev]; rewrite of_bits_app, length_rev;
      rewrite (read_bits_length _ _ _ _ E2); cbn [of_bits Z.b2z]; ring.
Qed.

Lemma reverse_msb n l :
  length l = n -> (n <= 128)%nat ->
  reverse_bits128 (wrap 128 (Z.shiftl (of_bits (rev l)) (128 - Z.of_nat n))) = of_bits l.
Proof.
  intros Hl Hn. unfold reverse_bits128.
  pose proof (of_bits_range (rev l)) as R. rewrite length_rev, Hl in R.
  rewrite Z.shiftl_mul_pow2 by lia. unfold wrap. rewrite Z.mod_small.
  - set (m := (128 - n)%nat). replace (128 - Z.of_nat n) with (Z.of_nat m) by lia.
    replace 128%nat with (m + n)%nat by lia.
    rewrite <- (Z.add_0_l (of_bits (rev l) * _)), to_bits_add by lia.
    replace (to_bits n (of_bits (rev l))) with (rev l)
      by (rewrite <- Hl, <- (length_rev l), to_of_bits; reflexivity).
    rewrite rev_app_distr, rev_involutive, of_bits_app, to_bits_zero.
    replace (of_bits (rev (replicate m false))) with 0; [lia|].
    rewrite <- to_bits_zero. clear. induction m as [|m IH]; [reflexivity|].
    rewrite to_bits_zero, replicate_S_end, rev_app_distr. cbn [rev app of_bits].
    rewrite <- to_bits_zero, <- IH. reflexivity.
  - split; [nia|]. replace 128 with (Z.of_nat n + (128 - Z.of_nat n)) at 2 by lia.
    rewrite Z.pow_add_r by lia. assert (0 < 2 ^ (128 - Z.of_nat n)) by (apply Z.pow_pos_nonneg; lia). nia.
Qed.

Lemma chunk_fuel_enough r : reader_ok r -> (length (br_bits r) < chunk_fuel r)%nat.
Proof.
  intros [S I B]. unfold br_bits, chunk_fuel.
  rewrite length_app, length_bytes_bits, length_to_bits, length_drop. lia.
Qed.

Lemma read_lsb_enc w n v rest r :
  Z.of_nat n <= w -> 0 <= v < 2 ^ Z.of_nat n -> reader_ok r -> br_bits r = to_bits n v ++ rest ->
  exists r', read_lsb w n 0 0 r = Ok (v, r') /\ reader_ok r' /\ br_bits r' = rest.
Proof.
  intros Hw Hv Hr E. rewrite read_lsb_spec by lia.
  destruct (read_bits_enc _ _ _ Hr E) as (r' & R & O & B). rewrite length_to_bits in R.
  exists r'. rewrite R, bind_ok, of_to_bits, Z.mod_small by exact Hv.
  split; [|auto]. do 2 f_equal. lia.
Qed.

Lemma lor_chunk output c shift :
  0 <= shift -> 0 <= output < 2 ^ shift -> 0 <= c -> c * 2 ^ shift < 2 ^ 128 ->
  Z.lor output (wrap 128 (Z.shiftl c shift)) = output + c * 2 ^ shift.
Proof.
  intros Hs Ho Hc Hb. rewrite wrap_small.
  - apply lor_shiftl_add; lia.
  - rewrite Z.shiftl_mul_pow2 by lia. unfold in_u. nia.
Qed.

Lemma de_chunks_enc fuel k bits v output shift rest r :
  0 < bits <= 32 -> reader_ok r ->
  br_bits r = chunks_enc k (Z.to_nat bits) v ++ rest ->
  (0 < k)%nat -> 0 <= v < 2 ^ (Z.of_nat k - 1) ->
  0 <= shift <= 127 -> 0 <= output < 2 ^ shift -> v * 2 ^ shift < 2 ^ 127 ->
  (length (br_bits r) < fuel)%nat ->
  exists r', de_chunks fuel bits output shift r = Ok (output + v * 2 ^ shift, r') /\
    reader_ok r' /\ br_bits r' = rest.
Proof.
  intros Hb. revert k v output shift r.
  induction fuel as [|fuel IH]; intros k v output shift r Hr Er Hk Hv Hs Ho Hvs Hf; [lia|].
  destruct k as [|k]; [lia|]. cbn [chunks_enc app] in Er. rewrite Z2Nat.id in Er by lia.
  destruct (read_bit_enc _ _ _ Hr Er) as (r1 & R1 & O1 & B1).
  cbn [de_chunks]. rewrite R1, bind_ok. rewrite <- app_assoc in B1.
  assert (0 < 2 ^ bits) by (apply Z.pow_pos_nonneg; lia).
  assert (0 < 2 ^ shift) by (apply Z.pow_pos_nonneg; lia).
  rewrite <- to_bits_mod, Z2Nat.id in B1 by lia.
  pose proof (Z.mod_pos_bound v (2 ^ bits) ltac:(lia)) as Hm.
  destruct (read_lsb_enc 32 (Z.to_nat bits) (v mod 2 ^ bits) _ r1 ltac:(lia)
    ltac:(rewrite Z2Nat.id; lia) O1 B1) as (r2 & R2 & O2 & B2).
  rewrite R2, bind_ok, (proj2 (Z.leb_gt 128 shift)) by lia. cbv zeta.
  pose proof (Z.mod_le v (2 ^ bits) ltac:(lia) ltac:(lia)).
  rewrite lor_chunk by (try lia; nia).
  unfold uadd. rewrite (proj2 (Z.ltb_lt (shift + bits) _)), bind_ok by lia.
  pose proof (Z.div_mod v (2 ^ bits) ltac:(lia)) as Dv.
  destruct (Z.leb_spec (2 ^ bits) v) as [L|L].
  - assert (0 <= v / 2 ^ bits) by (apply Z.div_pos; lia).
    assert (shift + bits <= 127).
    { apply Z.lt_succ_r. apply (Z.pow_lt_mono_r_iff 2); [lia|lia|]. rewrite Z.pow_add_r by lia.
      change (2 ^ Z.succ 127) with (2 * 2 ^ 127). nia. }
    assert (2 ^ 1 <= 2 ^ bits) by (apply Z.pow_le_mono_r; lia).
    destruct k as [|k]; [simpl in Hv; lia|].
    destruct (IH (S k) (v / 2 ^ bits) (output + v mod 2 ^ bits * 2 ^ shift) (shift + bits) r2)
      as (r' & R & O & B).
    + exact O2.
    + exact B2.
    + lia.
    + split; [lia|]. apply Z.div_lt_upper_bound; [lia|].
      replace (Z.of_nat (S (S k)) - 1) with (1 + (Z.of_nat (S k) - 1)) in Hv by lia.
      rewrite Z.pow_add_r in Hv by lia.
      assert (0 <= 2 ^ (Z.of_nat (S k) - 1)) by (apply Z.pow_nonneg; lia). nia.
    + lia.
    + rewrite Z.pow_add_r by lia. nia.
    + rewrite Z.pow_add_r by lia. nia.
    + rewrite Er in Hf. rewrite B2. rewrite <- app_assoc in Hf. cbn [length] in Hf.
      rewrite length_app in Hf. lia.
    + exists r'. rewrite R. split; [|auto]. do 2 f_equal.
      rewrite Z.pow_add_r by lia. rewrite Dv at 3. ring.
  - exists r2. rewrite Z.mod_small by lia. auto.
Qed.

Lemma as_i128_small v : 0 <= v < 2 ^ 127 -> as_i128 v = v.
Proof. intros. unfold as_i128. now rewrite (proj2 (Z.ltb_lt _ _)) by lia. Qed.

Lemma fixed_field_enc bits v rest r :
  1 <= bits <= 127 -> 0 <= v < 2 ^ bits -> reader_ok r ->
  br_bits r = to_bits (Z.to_nat bits) v ++ rest ->
  exists r',
    (if bits <=? 32 then read_lsb 32 (Z.to_nat bits) 0 0 r
     else if bits <=? 64 then read_lsb 64 (Z.to_nat bits) 0 0 r
     else
       '(raw, r2) ← read_msb (Z.to_nat bits) 0 r;
       s ← usub 128 bits;
       Ok (reverse_bits128 (wrap 128 (Z.shiftl raw s)), r2)) = Ok (v, r') /\
    reader_ok r' /\ br_bits r' = rest.
Proof.
  intros Hb Hv Hr E.
  assert (0 <= v < 2 ^ Z.of_nat (Z.to_nat bits)) by (rewrite Z2Nat.id by lia; exact Hv).
  case_ifs.
  - apply read_lsb_enc; [lia|assumption..].
  - apply read_lsb_enc; [lia|assumption..].
  - assert (2 ^ bits <= 2 ^ 128) by (apply Z.pow_le_mono_r; lia).
    destruct (read_bits_enc _ _ _ Hr E) as (r' & R & O & B). rewrite length_to_bits in R.
    exists r'. rewrite read_msb_spec by (rewrite ?Z2Nat.id; lia). rewrite R, !bind_ok.
    unfold usub. rewrite (proj2 (Z.leb_le bits 128)), bind_ok, Z.mul_0_l, Z.add_0_l by lia.
    replace (128 - bits) with (128 - Z.of_nat (Z.to_nat bits)) by lia.
    rewrite reverse_msb by (rewrite ?length_to_bits; lia).
    rewrite of_to_bits, Z.mod_small by assumption. auto.
Qed.

Lemma num_de_enc n rest r :
  num_ok n -> reader_ok r -> br_bits r = num_enc n ++ rest ->
  exists r', SerdeNumberInner_de (num_signed n) (num_variable n) (num_bits n) (fraction_digits n) r
      = Ok (n, r') /\ reader_ok r' /\ br_bits r' = rest.
Proof.
  intros [B C S I F] Hr E. unfold num_enc in E. rewrite <- app_assoc in E.
  unfold SerdeNumberInner_de. set (neg := inner_value n <? 0) in *.
  assert (exists r1, (if num_signed n then BitReader_read_bit r else Ok (false, r)) = Ok (neg, r1) /\
    reader_ok r1 /\ br_bits r1 =
      (if num_variable n then chunks_enc 129 (Z.to_nat (num_bits n)) (Z.abs (inner_value n))
       else to_bits (Z.to_nat (num_bits n)) (Z.abs (inner_value n))) ++ rest) as (r1 & R1 & O1 & B1).
  { destruct (num_signed n); [exact (read_bit_enc _ _ _ Hr E)|].
    exists r. unfold neg. rewrite (proj2 (Z.ltb_ge _ 0)) by auto. auto. }
  rewrite R1, bind_ok.
  assert (exists r2, (if num_variable n then de_chunks (chunk_fuel r1) (num_bits n) 0 0 r1
     else if num_bits n <=? 32 then read_lsb 32 (Z.to_nat (num_bits n)) 0 0 r1
     else if num_bits n <=? 64 then read_lsb 64 (Z.to_nat (num_bits n)) 0 0 r1
     else
       '(raw, r2) ← read_msb (Z.to_nat (num_bits n)) 0 r1;
       s ← usub 128 (num_bits n);
       Ok (reverse_bits128 (wrap 128 (Z.shiftl raw s)), r2)) = Ok (Z.abs (inner_value n), r2) /\
    reader_ok r2 /\ br_bits r2 = rest) as (r2 & R2 & O2 & B2).
  { destruct (num_variable n).
    - destruct (de_chunks_enc (chunk_fuel r1) 129 (num_bits n) (Z.abs (inner_value n)) 0 0 rest r1)
        as (r2 & R2 & O2 & B2); try assumption; try lia; try now apply chunk_fuel_enough.
      exists r2. rewrite R2, Z.pow_0_r, Z.mul_1_r. auto.
    - apply fixed_field_enc; try assumption. split; [lia|auto]. }
  rewrite R2, bind_ok, as_i128_small by lia. exists r2. split; [|auto].
  unfold neg, neg128, i128_MIN, SerdeNumberInner_new_unchecked.
  destruct (Z.ltb_spec (inner_value n) 0) as [Hn|Hn].
  - rewrite (proj2 (Z.eqb_neq _ _)), bind_ok by lia. destruct n; simpl in *. do 3 f_equal. lia.
  - rewrite bind_ok. destruct n; simpl in *. do 3 f_equal. lia.
Qed.

Lemma length_chunks_spec fuel bits v out :
  0 < bits -> (0 < fuel)%nat -> 0 <= v < 2 ^ (Z.of_nat fuel - 1) -> 0 <= out ->
  out + Z.of_nat (length (chunks_enc fuel (Z.to_nat bits) v)) < 2 ^ 32 ->
  length_chunks fuel bits v out =
  Ok (out + Z.of_nat (length (chunks_enc fuel (Z.to_nat bits) v))).
Proof.
  intros Hb. revert v out. induction fuel as [|fuel IH]; intros v out Hf Hv Ho Hl; [lia|].
  cbn [length_chunks chunks_enc length] in *. rewrite Z2Nat.id in * by lia.
  rewrite length_app, length_to_bits in *.
  unfold uadd. rewrite (proj2 (Z.ltb_lt (out + 1) _)), bind_ok by lia.
  rewrite (proj2 (Z.ltb_lt (out + 1 + bits) _)), bind_ok by lia.
  destruct (Z.leb_spec (2 ^ bits) v) as [L|L]; [|f_equal; simpl; lia].
  rewrite Z.shiftr_div_pow2 by lia.
  assert (2 ^ 1 <= 2 ^ bits) by (apply Z.pow_le_mono_r; lia).
  destruct fuel as [|fuel]; [simpl in Hv; lia|].
  rewrite IH; [f_equal; lia|lia| |lia|lia].
  split; [apply Z.div_pos; lia|]. apply Z.div_lt_upper_bound; [lia|].
  replace (Z.of_nat (S (S fuel)) - 1) with (1 + (Z.of_nat (S fuel) - 1)) in Hv by lia.
  rewrite Z.pow_add_r in Hv by lia.
  assert (0 <= 2 ^ (Z.of_nat (S fuel) - 1)) by (apply Z.pow_nonneg; lia). nia.
Qed.

Lemma length_chunks_enc_le fuel bits v :
  (length (chunks_enc fuel bits v) <= fuel * (bits + 1))%nat.
Proof.
  revert v; induction fuel as [|fuel IH]; intros v; cbn [chunks_enc length]; [lia|].
  rewrite length_app, length_to_bits. destruct (_ <=? v); cbn [length]; [specialize (IH (v / 2 ^ Z.of_nat bits))|]; lia.
Qed.

(** A value below [2^m] takes at most [m / bits + 1] chunks. *)
Lemma chunks_enc_short fuel bits v m :
  (0 < bits)%nat -> 0 <= v < 2 ^ m -> 0 <= m ->
  Z.of_nat (length (chunks_enc fuel bits v)) <= 2 * m + 1 + Z.of_nat bits.
Proof.
  intros Hb. revert v m. induction fuel as [|fuel IH]; intros v m Hv Hm; cbn [chunks_enc length]; [lia|].
  rewrite length_app, length_to_bits. destruct (Z.leb_spec (2 ^ Z.of_nat bits) v) as [L|L]; [|simpl; lia].
  assert (Z.of_nat bits < m) as Hbm by (apply (Z.pow_lt_mono_r_iff 2); lia).
  specialize (IH (v / 2 ^ Z.of_nat bits) (m - Z.of_nat bits)).
  assert (0 <= v / 2 ^ Z.of_nat bits < 2 ^ (m - Z.of_nat bits)).
  { split; [apply Z.div_pos; lia|]. apply Z.div_lt_upper_bound; [lia|].
    rewrite <- Z.pow_add_r by lia. replace (Z.of_nat bits + (m - Z.of_nat bits)) with m by lia. lia. }
  specialize (IH ltac:(assumption) ltac:(lia)). lia.
Qed.

Lemma num_enc_length n : num_ok n -> Z.of_nat (length (num_enc n)) <= MTU_SIZE_BITS.
Proof.
  intros [B C S I F]. unfold num_enc. rewrite length_app. change MTU_SIZE_BITS with 3440.
  assert (Z.of_nat (length (if num_signed n then [inner_value n <? 0] else [])) <= 1)
    by (destruct (num_signed n); simpl; lia).
  destruct (num_variable n); [|rewrite length_to_bits; lia].
  pose proof (chunks_enc_short 129 (Z.to_nat (num_bits n)) (Z.abs (inner_value n)) 127). lia.
Qed.

Lemma num_bit_length_enc n :
  num_ok n -> SerdeNumberInner_bit_length n = Ok (Z.of_nat (length (num_enc n))).
Proof.
  intros [B C S I F]. unfold SerdeNumberInner_bit_length, num_enc. rewrite length_app.
  rewrite (proj2 (Z.leb_gt 128 _)) by lia. destruct (num_variable n).
  - pose proof (length_chunks_enc_le 129 (Z.to_nat (num_bits n)) (Z.abs (inner_value n))).
    rewrite length_chunks_spec by (destruct (num_signed n); lia).
    f_equal. destruct (num_signed n); cbn [length]; lia.
  - rewrite length_to_bits. unfold uadd.
    destruct (num_signed n); rewrite (proj2 (Z.ltb_lt _ _)) by lia; f_equal; cbn [length]; lia.
Qed.

(** * Hostile input *)
Lemma read_bit_shrink r b r' :
  reader_ok r -> BitReader_read_bit r = Ok (b, r') ->
  reader_ok r' /\ length (br_bits r) = S (length (br_bits r')).
Proof.
  intros H E. pose proof (read_bit_spec r H) as P. destruct (br_bits r) as [|b2 l]; [congruence|].
  destruct P as (r2 & P & O & B). rewrite E in P. injection P as <- <-. now rewrite B.
Qed.

Lemma read_bit_diverge r : reader_ok r -> BitReader_read_bit r <> Diverge.
Proof.
  intros H. pose proof (read_bit_spec r H) as P. destruct (br_bits r); [congruence|].
  destruct P as (? & -> & _). discriminate.
Qed.

Lemma read_lsb_safe w n i raw r :
  reader_ok r ->
  read_lsb w n i raw r <> Diverge /\
  forall v r', read_lsb w n i raw r = Ok (v, r') ->
    reader_ok r' /\ (length (br_bits r') <= length (br_bits r))%nat.
Proof.
  revert i raw r. induction n as [|n IH]; intros i raw r H; cbn [read_lsb].
  - split; [discriminate|]. intros v r' [= <- <-]. auto.
  - destruct (BitReader_read_bit r) as [[b r1]| | |] eqn:E1; try (split; [discriminate|]; intros; discriminate).
    2: { now apply read_bit_diverge in E1. }
    apply read_bit_shrink in E1 as [O1 L1]; [|exact H]. rewrite bind_ok.
    destruct b; [destruct (i <? w)|]; try (split; [discriminate|]; intros; discriminate);
      rewrite bind_ok; (split; [apply IH; exact O1|]); intros v r' E;
      apply IH in E as [? ?]; auto; split; auto; lia.
Qed.

Lemma de_chunks_terminates fuel bits output shift r :
  reader_ok r -> (length (br_bits r) < fuel)%nat -> de_chunks fuel bits output shift r <> Diverge.
Proof.
  revert output shift r. induction fuel as [|fuel IH]; intros output shift r H Hf; [lia|].
  cbn [de_chunks]. destruct (BitReader_read_bit r) as [[b r1]| | |] eqn:E1; try discriminate.
  2: { now apply read_bit_diverge in E1. }
  apply read_bit_shrink in E1 as [O1 L1]; [|exact H]. rewrite bind_ok.
  destruct (read_lsb_safe 32 (Z.to_nat bits) 0 0 r1 O1) as [N2 K2].
  destruct (read_lsb 32 (Z.to_nat bits) 0 0 r1) as [[c r2]| | |] eqn:E2; try discriminate; [|congruence].
  rewrite bind_ok. destruct (K2 _ _ eq_refl) as [O2 L2]. destruct (128 <=? shift); [discriminate|].
  unfold uadd. destruct (_ <? _); [|discriminate]. rewrite bind_ok.
  destruct b; [|discriminate]. apply IH; [exact O2|lia].
Qed.
