(* ===== verification/Serde.v ===== *)
(** The [Serde] trait and its implementations:
    src/shared/serde/src/{serde,number}.rs, src/shared/serde/src/impls/*.rs and the
    derive macros of src/shared/serde/derive/src/impls.

    An implementation is a record [Serde T] of the three methods.  [Lawful s] is what
    it promises: for the values in [valid] it writes the bits [enc x], reading them
    back gives [x] and leaves the rest of the stream, and [LawfulLen] adds that
    [bit_length] is the number of bits written. *)

From Stdlib Require Import ZArith Lia.
From stdpp Require Import base list numbers.
From S2P Require Import Prelude BitIO Number.

Record Serde (T : Type) : Type := mkSerde {
  ser : forall (W : Type) (_ : BitWrite W), T -> W -> res W;
  de : BitReader -> res (T * BitReader);
  bit_length : T -> res Z;
}.
Arguments mkSerde {T} _ _ _.
Arguments ser {T} s {W _} _ _.
Arguments de {T} s _.
Arguments bit_length {T} s _.

Class Lawful {T} (s : Serde T) := {
  valid : T -> Prop;
  enc : T -> list bool;
  ser_enc : forall W `{BitWriteLaws W} x (w : W),
    valid x -> wok w -> ser s x w = write_bits (enc x) w;
  de_enc : forall x rest r,
    valid x -> reader_ok r -> br_bits r = enc x ++ rest ->
    exists r', de s r = Ok (x, r') /\ reader_ok r' /\ br_bits r' = rest;
}.
Arguments valid {T} s {_} _.
Arguments enc {T} s {_} _.

Class LawfulLen {T} (s : Serde T) `{!Lawful s} :=
  bit_length_enc : forall x,
    valid s x -> Z.of_nat (length (enc s x)) < 2 ^ 32 ->
    bit_length s x = Ok (Z.of_nat (length (enc s x))).

(** * Integers of any width: [SerdeInteger<SIGNED, VARIABLE, BITS>] *)
Record SerdeInteger (signed variable : bool) (bits : Z) : Type := mkSerdeInteger {
  si_inner : SerdeNumberInner }.
Arguments mkSerdeInteger {signed variable bits} _.
Arguments si_inner {signed variable bits} _.

Definition UnsignedInteger : Z -> Type := SerdeInteger false false.
Definition SignedInteger : Z -> Type := SerdeInteger true false.
Definition UnsignedVariableInteger : Z -> Type := SerdeInteger false true.
Definition SignedVariableInteger : Z -> Type := SerdeInteger true true.

Definition SerdeInteger_new signed variable bits (value : Z)
  : res (SerdeInteger signed variable bits) :=
  n ← SerdeNumberInner_new signed variable bits 0 value; Ok (mkSerdeInteger n).

Definition SerdeInteger_get {signed variable bits} (n : SerdeInteger signed variable bits) : Z :=
  SerdeNumberInner_get (si_inner n).

Definition SerdeInteger_set {signed variable bits} (value : Z) (n : SerdeInteger signed variable bits)
  : SerdeInteger signed variable bits := mkSerdeInteger (SerdeNumberInner_set value (si_inner n)).

(** [n.to::<T>()] for an integer type [T] of range [lo..=hi]. *)
Definition SerdeInteger_to {signed variable bits} (lo hi : Z) (n : SerdeInteger signed variable bits)
  : res Z :=
  if (lo <=? SerdeInteger_get n) && (SerdeInteger_get n <=? hi) then Ok (SerdeInteger_get n) else Panic.

Definition SerdeInteger_const_bit_length (signed : bool) (bits : Z) : Z :=
  (if signed then 1 else 0) + bits.

Definition integer_serde signed variable bits : Serde (SerdeInteger signed variable bits) := mkSerde
  (fun W _ n w => SerdeNumberInner_ser (si_inner n) w)
  (fun r => '(n, r') ← SerdeNumberInner_de signed variable bits 0 r; Ok (mkSerdeInteger n, r'))
  (fun n => SerdeNumberInner_bit_length (si_inner n)).

Definition integer_ok {signed variable bits} (n : SerdeInteger signed variable bits) : Prop :=
  num_ok (si_inner n) /\
  si_inner n = mkNum (SerdeInteger_get n) signed variable bits 0.

Lemma integer_ser {W} `{BitWriteLaws W} {signed variable bits} (n : SerdeInteger signed variable bits) (w : W) :
  integer_ok n -> ser (integer_serde signed variable bits) n w = write_bits (num_enc (si_inner n)) w.
Proof. intros [H1 _]. now apply num_ser_spec. Qed.

Lemma integer_de {signed variable bits} (n : SerdeInteger signed variable bits) rest r :
  integer_ok n -> reader_ok r -> br_bits r = num_enc (si_inner n) ++ rest ->
  exists r', de (integer_serde signed variable bits) r = Ok (n, r') /\ reader_ok r' /\ br_bits r' = rest.
Proof.
  destruct n as [n]. intros [H E] Hr Eb. simpl in *.
  destruct (num_de_enc n rest r H Hr Eb) as (r' & R & O & B).
  exists r'. split; [|auto]. rewrite E in R |- *. cbn [num_signed num_variable num_bits fraction_digits] in R.
  rewrite R. reflexivity.
Qed.

Lemma integer_bit_length {signed variable bits} (n : SerdeInteger signed variable bits) :
  integer_ok n -> bit_length (integer_serde signed variable bits) n = Ok (Z.of_nat (length (num_enc (si_inner n)))).
Proof. intros [H _]. now apply num_bit_length_enc. Qed.

#[export] Program Instance integer_lawful signed variable bits :
  Lawful (integer_serde signed variable bits) :=
  {| valid := integer_ok; enc n := num_enc (si_inner n) |}.
Next Obligation. intros s v b W ? ? n w H _. now apply integer_ser. Qed.
Next Obligation. intros s v b n rest r. apply integer_de. Qed.

#[export] Instance integer_len signed variable bits : LawfulLen (integer_serde signed variable bits).
Proof. intros n H _. now apply integer_bit_length. Qed.

Lemma integer_new_ok signed variable bits v :
  1 <= bits <= 126 -> (variable = true -> bits <= 32) -> (signed = false -> 0 <= v) ->
  Z.abs v < 2 ^ 127 -> (variable = false -> Z.abs v < 2 ^ bits) ->
  exists n, SerdeInteger_new signed variable bits v = Ok n /\ integer_ok n /\
    SerdeInteger_get n = v /\ si_inner n = mkNum v signed variable bits 0.
Proof.
  intros Hb Hc Hs Hv Hf. exists (mkSerdeInteger (mkNum v signed variable bits 0)).
  split; [|split; [|auto]].
  - unfold SerdeInteger_new, SerdeNumberInner_new.
    rewrite (proj2 (Z.eqb_neq bits 0)), (proj2 (Z.ltb_ge 127 bits)) by lia.
    destruct signed, variable; simpl;
      rewrite ?(proj2 (Z.ltb_ge v 0)), ?(proj2 (Z.leb_gt 127 bits)), ?(proj2 (Z.leb_gt (2 ^ bits) v))
        by (try specialize (Hs eq_refl); try specialize (Hf eq_refl); lia); simpl; try reflexivity.
    specialize (Hf eq_refl). rewrite (proj2 (Z.leb_gt v (- 2 ^ bits))) by lia.
    now rewrite andb_false_r.
  - split; [|reflexivity]. constructor; simpl; auto; lia.
Qed.

(** The two steps [new(v).ser(w)] and [de(r).get()] for unsigned integers. *)
Lemma unsigned_ser {W} `{BitWriteLaws W} bits v (w : W) :
  1 <= bits <= 126 -> 0 <= v < 2 ^ bits ->
  (n ← SerdeInteger_new false false bits v; ser (integer_serde false false bits) n w) =
  write_bits (to_bits (Z.to_nat bits) v) w.
Proof.
  intros Hb Hv. assert (2 ^ bits <= 2 ^ 126) by (apply Z.pow_le_mono_r; lia).
  destruct (integer_new_ok false false bits v) as (n & -> & On & _ & En); try lia; try discriminate.
  rewrite bind_ok, integer_ser, En by exact On. unfold num_enc.
  cbn [inner_value num_signed num_variable num_bits app]. now rewrite Z.abs_eq by lia.
Qed.

Lemma unsigned_de bits v rest r :
  1 <= bits <= 126 -> 0 <= v < 2 ^ bits -> reader_ok r -> br_bits r = to_bits (Z.to_nat bits) v ++ rest ->
  exists n r', de (integer_serde false false bits) r = Ok (n, r') /\ SerdeInteger_get n = v /\
    reader_ok r' /\ br_bits r' = rest.
Proof.
  intros Hb Hv Hr E. assert (2 ^ bits <= 2 ^ 126) by (apply Z.pow_le_mono_r; lia).
  destruct (integer_new_ok false false bits v) as (n & _ & On & Gn & En); try lia; try discriminate.
  destruct (integer_de n rest r On Hr) as (r' & R & O & B).
  - rewrite En. unfold num_enc. cbn [inner_value num_signed num_variable num_bits app].
    now rewrite Z.abs_eq by lia.
  - exists n, r'. auto.
Qed.

Definition length_enc (bits : Z) (n : Z) : list bool := num_enc (mkNum n false true bits 0).

Lemma variable_ser {W} `{BitWriteLaws W} bits v (w : W) :
  1 <= bits <= 32 -> 0 <= v < 2 ^ 127 ->
  (n ← SerdeInteger_new false true bits v; ser (integer_serde false true bits) n w) =
  write_bits (length_enc bits v) w.
Proof.
  intros Hb Hv. destruct (integer_new_ok false true bits v) as (n & -> & On & _ & En);
    try lia; try discriminate.
  now rewrite bind_ok, integer_ser, En by exact On.
Qed.

Lemma variable_de bits v rest r :
  1 <= bits <= 32 -> 0 <= v < 2 ^ 127 -> reader_ok r -> br_bits r = length_enc bits v ++ rest ->
  exists n r', de (integer_serde false true bits) r = Ok (n, r') /\ SerdeInteger_get n = v /\
    reader_ok r' /\ br_bits r' = rest.
Proof.
  intros Hb Hv Hr E. destruct (integer_new_ok false true bits v) as (n & _ & On & Gn & En);
    try lia; try discriminate.
  destruct (integer_de n rest r On Hr) as (r' & R & O & B); [now rewrite En|]. exists n, r'. auto.
Qed.

Lemma variable_bit_length bits v :
  1 <= bits <= 32 -> 0 <= v < 2 ^ 127 ->
  (n ← SerdeInteger_new false true bits v; bit_length (integer_serde false true bits) n) =
  Ok (Z.of_nat (length (length_enc bits v))).
Proof.
  intros Hb Hv. destruct (integer_new_ok false true bits v) as (n & -> & On & _ & En);
    try lia; try discriminate.
  now rewrite bind_ok, integer_bit_length, En by exact On.
Qed.

(** * Scalars *)
Definition unit_serde : Serde unit :=
  mkSerde (fun W _ _ w => Ok w) (fun r => Ok (tt, r)) (fun _ => Ok 0).

Definition bool_serde : Serde bool :=
  mkSerde (fun W _ b w => write_bit b w) BitReader_read_bit (fun _ => Ok 1).

Definition u8_serde : Serde Z :=
  mkSerde (fun W _ b w => write_byte b w) BitReader_read_byte (fun _ => Ok 8).

Definition write_bytes {W} `{BitWrite W} (bs : list Z) (w : W) : res W := foldM write_byte bs w.

Fixpoint read_bytes (n : nat) (r : BitReader) : res (list Z * BitReader) :=
  match n with
  | O => Ok ([], r)
  | S n' => '(b, r1) ← BitReader_read_byte r; '(bs, r2) ← read_bytes n' r1; Ok (b :: bs, r2)
  end.

(** [impl_serde_for!] at an unsigned type, or a float seen as its bit pattern. *)
Definition uint_serde (n : nat) : Serde Z := mkSerde
  (fun W _ x w => write_bytes (to_le_bytes n x) w)
  (fun r => '(bs, r') ← read_bytes n r; Ok (of_le_bytes bs, r'))
  (fun _ => Ok (Z.of_nat n * 8)).

(** [impl_serde_for!] at a signed type, [i8] and [isize]: two's complement. *)
Definition to_signed (w x : Z) : Z := if x <? 2 ^ (w - 1) then x else x - 2 ^ w.
Definition sint_serde (n : nat) : Serde Z := mkSerde
  (fun W _ x w => write_bytes (to_le_bytes n (wrap (8 * Z.of_nat n) x)) w)
  (fun r => '(bs, r') ← read_bytes n r; Ok (to_signed (8 * Z.of_nat n) (of_le_bytes bs), r'))
  (fun _ => Ok (Z.of_nat n * 8)).

Definition u16_serde := uint_serde 2.
Definition u32_serde := uint_serde 4.
Definition u64_serde := uint_serde 8.
Definition usize_serde := uint_serde 8.

Definition is_char (c : Z) : bool :=
  (0 <=? c) && ((c <? 55296) || ((57344 <=? c) && (c <=? 1114111))).
Definition char_serde : Serde Z := mkSerde
  (fun W _ x w => write_bytes (to_le_bytes 4 x) w)
  (fun r => '(bs, r') ← read_bytes 4 r;
            if is_char (of_le_bytes bs) then Ok (of_le_bytes bs, r') else Err)
  (fun _ => Ok 32).

(** * Containers *)
Definition option_serde {T} (s : Serde T) : Serde (option T) := mkSerde
  (fun W _ o w => match o with
                  | Some x => w1 ← write_bit true w; ser s x w1
                  | None => write_bit false w
                  end)
  (fun r => '(b, r1) ← BitReader_read_bit r;
            if (b : bool) then '(x, r2) ← de s r1; Ok (Some x, r2) else Ok (None, r1))
  (fun o => match o with Some x => n ← bit_length s x; uadd 32 1 n | None => Ok 1 end).

(** Two components after each other: tuples, and the fields of a derived struct. *)
Definition pair_serde {A B} (sa : Serde A) (sb : Serde B) : Serde (A * B) := mkSerde
  (fun W _ p w => w1 ← ser sa (fst p) w; ser sb (snd p) w1)
  (fun r => '(a, r1) ← de sa r; '(b, r2) ← de sb r1; Ok ((a, b), r2))
  (fun p => n ← bit_length sa (fst p); m ← bit_length sb (snd p); uadd 32 n m).

Definition ser_all {T} (s : Serde T) {W} `{BitWrite W} (l : list T) (w : W) : res W :=
  foldM (fun x w => ser s x w) l w.

Fixpoint de_n {T} (s : Serde T) (n : nat) (r : BitReader) : res (list T * BitReader) :=
  match n with
  | O => Ok ([], r)
  | S n' => '(x, r1) ← de s r; '(l, r2) ← de_n s n' r1; Ok (x :: l, r2)
  end.

Definition length_all {T} (s : Serde T) (l : list T) (output : Z) : res Z :=
  foldM (fun x out => n ← bit_length s x; uadd 32 out n) l output.

(** [[T; N]] *)
Definition array_serde {T} (s : Serde T) (N : nat) : Serde (list T) := mkSerde
  (fun W _ l w => ser_all s l w) (de_n s N) (fun l => length_all s l 0).

Definition isize_MAX : Z := 2 ^ 63 - 1.
Definition len {T} (l : list T) : Z := Z.of_nat (length l).

(** [Vec::with_capacity(n)] for elements of [size] bytes. *)
Definition with_capacity (n size : Z) : res unit :=
  if n * size <=? isize_MAX then Ok tt else Panic.

(** [Vec<T>] and [VecDeque<T>], for elements of [size] bytes in memory. *)
Definition vec_serde {T} (s : Serde T) (size : Z) : Serde (list T) := mkSerde
  (fun W _ l w =>
     n ← SerdeInteger_new false true 5 (len l);
     w1 ← ser (integer_serde false true 5) n w;
     ser_all s l w1)
  (fun r =>
     '(n, r1) ← de (integer_serde false true 5) r;
     let length_usize := wrap 64 (SerdeInteger_get n) in
     _ ← with_capacity length_usize size;
     de_n s (Z.to_nat length_usize) r1)
  (fun l =>
     n ← SerdeInteger_new false true 5 (len l);
     k ← bit_length (integer_serde false true 5) n;
     length_all s l k).

(** [Box<[u8]>] *)
Definition bytes_serde : Serde (list Z) := mkSerde
  (fun W _ l w =>
     n ← SerdeInteger_new false true 9 (len l);
     w1 ← ser (integer_serde false true 9) n w;
     write_bytes l w1)
  (fun r =>
     '(n, r1) ← de (integer_serde false true 9) r;
     let length_usize := wrap 64 (SerdeInteger_get n) in
     _ ← with_capacity length_usize 1;
     read_bytes (Z.to_nat length_usize) r1)
  (fun l =>
     n ← SerdeInteger_new false true 9 (len l);
     k ← bit_length (integer_serde false true 9) n;
     m ← (if wrap 32 (len l) * 8 <? 2 ^ 32 then Ok (wrap 32 (len l) * 8) else Panic);
     uadd 32 k m).

(** * Derived enums: a variant index, then the payload *)
Definition bits_needed_for (variant_count : Z) : Z :=
  if variant_count <=? 2 then 1 else Z.log2 (variant_count - 1) + 1.

(** The [index] part of a derived enum with [count] variants. *)
Definition variant_serde (count : Z) : Serde Z := mkSerde
  (fun W _ i w => n ← SerdeInteger_new false false (bits_needed_for count) (wrap 16 i);
                  ser (integer_serde false false (bits_needed_for count)) n w)
  (fun r => '(n, r1) ← de (integer_serde false false (bits_needed_for count)) r;
            let i := wrap 16 (SerdeInteger_get n) in
            if i <? count then Ok (i, r1) else Err)
  (fun _ => Ok (SerdeInteger_const_bit_length false (bits_needed_for count))).

(** A type that is sent as another one ([f] to it, [g] back). *)
Definition iso_serde {A B} (f : A -> B) (g : B -> A) (s : Serde B) : Serde A := mkSerde
  (fun W _ a w => ser s (f a) w)
  (fun r => '(b, r') ← de s r; Ok (g b, r'))
  (fun a => bit_length s (f a)).

(** * Laws of the scalars *)
#[export] Program Instance unit_lawful : Lawful unit_serde := {| valid _ := True; enc _ := [] |}.
Next Obligation. reflexivity. Qed.
Next Obligation. intros [] rest r _ H E. exists r. auto. Qed.
#[export] Instance unit_len : LawfulLen unit_serde.
Proof. intros [] _ _. reflexivity. Qed.

#[export] Program Instance bool_lawful : Lawful bool_serde := {| valid _ := True; enc b := [b] |}.
Next Obligation.
  intros W ? ? b w _ _. simpl. unfold write_bits. cbn [foldM]. now destruct (write_bit b w).
Qed.
Next Obligation. intros b rest r _. apply read_bit_enc. Qed.
#[export] Instance bool_len : LawfulLen bool_serde.
Proof. intros b _ _. reflexivity. Qed.

#[export] Program Instance u8_lawful : Lawful u8_serde := {| valid := is_byte; enc := to_bits 8 |}.
Next Obligation. intros W ? ? b w Hb Hw. now apply write_byte_is_bits. Qed.
Next Obligation. intros b rest r Hb. now apply read_byte_enc. Qed.
#[export] Instance u8_len : LawfulLen u8_serde.
Proof. intros b _ _. reflexivity. Qed.

Lemma write_bytes_bits {W} `{BitWriteLaws W} bs (w : W) :
  Forall is_byte bs -> wok w -> write_bytes bs w = write_bits (bytes_bits bs) w.
Proof.
  intros Hb. revert w. induction Hb as [|b bs Hb _ IH]; intros w Hw; [reflexivity|].
  unfold write_bytes, bytes_bits. cbn [foldM map concat]. rewrite write_bits_app, write_byte_is_bits by assumption.
  destruct (write_bits (to_bits 8 b) w) as [w1| | |] eqn:E; try reflexivity.
  rewrite !bind_ok. apply IH. eapply write_bits_wok; eauto.
Qed.

Lemma read_bytes_enc bs rest r :
  Forall is_byte bs -> reader_ok r -> br_bits r = bytes_bits bs ++ rest ->
  exists r', read_bytes (length bs) r = Ok (bs, r') /\ reader_ok r' /\ br_bits r' = rest.
Proof.
  intros Hb. revert r. induction Hb as [|b bs Hb _ IH]; intros r Hr E.
  - exists r. auto.
  - unfold bytes_bits in E. cbn [map concat] in E. rewrite <- app_assoc in E.
    destruct (read_byte_enc b _ r Hb Hr E) as (r1 & R1 & O1 & B1).
    destruct (IH r1 O1 B1) as (r2 & R2 & O2 & B2).
    exists r2. cbn [length read_bytes]. rewrite R1, bind_ok, R2. auto.
Qed.

Lemma pow256 n : 256 ^ Z.of_nat n = 2 ^ (8 * Z.of_nat n).
Proof. change 256 with (2 ^ 8). now rewrite <- Z.pow_mul_r by lia. Qed.

#[export] Program Instance uint_lawful n : Lawful (uint_serde n) :=
  {| valid := in_u (8 * Z.of_nat n); enc := to_bits (8 * n) |}.
Next Obligation.
  intros n W ? ? x w _ Hw. simpl. rewrite write_bytes_bits by auto using to_le_bytes_bytes.
  now rewrite le_bytes_bits.
Qed.
Next Obligation.
  intros n x rest r Hx Hr E. rewrite <- le_bytes_bits in E.
  destruct (read_bytes_enc _ _ _ (to_le_bytes_bytes n x) Hr E) as (r' & R & O & B).
  rewrite length_to_le_bytes in R. exists r'. cbn [uint_serde de]. rewrite R, bind_ok.
  rewrite of_to_le_bytes by (rewrite pow256; exact Hx). auto.
Qed.
#[export] Instance uint_len n : LawfulLen (uint_serde n).
Proof. intros x _ _. cbn [uint_serde bit_length enc uint_lawful]. rewrite length_to_bits. f_equal. lia. Qed.

Definition in_i (w x : Z) : Prop := - 2 ^ (w - 1) <= x < 2 ^ (w - 1).

Lemma to_signed_wrap w x : 0 < w -> in_i w x -> to_signed w (wrap w x) = x.
Proof.
  unfold in_i, to_signed, wrap. intros Hw Hx.
  assert (2 ^ w = 2 * 2 ^ (w - 1)) as E by (rewrite <- Z.pow_succ_r by lia; f_equal; lia).
  destruct (Z.lt_ge_cases x 0).
  - rewrite <- (Z.mod_add x 1), Z.mod_small by lia. rewrite (proj2 (Z.ltb_ge _ _)); lia.
  - rewrite Z.mod_small by lia. rewrite (proj2 (Z.ltb_lt _ _)); lia.
Qed.

#[export] Program Instance sint_lawful n : Lawful (sint_serde (S n)) :=
  {| valid := in_i (8 * Z.of_nat (S n)); enc := to_bits (8 * S n) |}.
Next Obligation.
  intros n W ? ? x w _ Hw. cbn [ser sint_serde].
  rewrite write_bytes_bits, le_bytes_bits by auto using to_le_bytes_bytes. f_equal.
  unfold wrap. replace (8 * Z.of_nat (S n)) with (Z.of_nat (8 * S n)) by lia. apply to_bits_mod.
Qed.
Next Obligation.
  intros n x rest r Hx Hr E. rewrite <- to_bits_mod in E. rewrite <- le_bytes_bits in E.
  destruct (read_bytes_enc _ _ _ (to_le_bytes_bytes _ _) Hr E) as (r' & R & O & B).
  rewrite length_to_le_bytes in R. exists r'. cbn [sint_serde de]. rewrite R, bind_ok.
  rewrite of_to_le_bytes.
  - replace (2 ^ Z.of_nat (8 * S n)) with (2 ^ (8 * Z.of_nat (S n))) by (f_equal; lia).
    change (x mod 2 ^ (8 * Z.of_nat (S n))) with (wrap (8 * Z.of_nat (S n)) x).
    rewrite to_signed_wrap by (assumption || lia). auto.
  - rewrite pow256. replace (Z.of_nat (8 * S n)) with (8 * Z.of_nat (S n)) by lia.
    apply Z.mod_pos_bound, Z.pow_pos_nonneg; lia.
Qed.
#[export] Instance sint_len n : LawfulLen (sint_serde (S n)).
Proof. intros x _ _. cbn [sint_serde bit_length enc sint_lawful]. rewrite length_to_bits. f_equal. lia. Qed.

#[export] Program Instance char_lawful : Lawful char_serde :=
  {| valid c := is_char c = true; enc := to_bits 32 |}.
Next Obligation.
  intros W ? ? x w _ Hw. cbn [ser char_serde].
  now rewrite write_bytes_bits, le_bytes_bits by auto using to_le_bytes_bytes.
Qed.
Next Obligation.
  intros x rest r Hx Hr E. change (to_bits 32 x) with (to_bits (8 * 4) x) in E. rewrite <- le_bytes_bits in E.
  destruct (read_bytes_enc _ _ _ (to_le_bytes_bytes _ _) Hr E) as (r' & R & O & B).
  rewrite length_to_le_bytes in R. exists r'. cbn [char_serde de]. rewrite R, bind_ok.
  rewrite of_to_le_bytes, Hx; [auto|].
  unfold is_char in Hx. change (256 ^ Z.of_nat 4) with 4294967296. lia.
Qed.
#[export] Instance char_len : LawfulLen char_serde.
Proof. intros x _ _. cbn [char_serde bit_length enc char_lawful]. now rewrite length_to_bits. Qed.

(** * Laws of the containers *)
Section containers.
Context {A B : Type} (sa : Serde A) (sb : Serde B) `{!Lawful sa, !Lawful sb}.

#[export] Program Instance option_lawful : Lawful (option_serde sa) :=
  {| valid o := match o with Some x => valid sa x | None => True end;
     enc o := match o with Some x => true :: enc sa x | None => [false] end |}.
Next Obligation.
  intros W HW HL [x|] w Hx Hw; simpl; unfold write_bits; cbn [foldM].
  - destruct (write_bit true w) as [w1| | |] eqn:E; try reflexivity. rewrite !bind_ok.
    eapply ser_enc; [assumption|]. eapply write_bit_wok; eauto.
  - now destruct (write_bit false w).
Qed.
Next Obligation.
  intros [x|] rest r Hx Hr E; destruct (read_bit_enc _ _ _ Hr E) as (r1 & R1 & O1 & B1);
    cbn [option_serde de]; rewrite R1, bind_ok.
  - destruct (de_enc x rest r1 Hx O1 B1) as (r2 & R2 & O2 & B2). exists r2. rewrite R2. auto.
  - exists r1. auto.
Qed.

#[export] Program Instance pair_lawful : Lawful (pair_serde sa sb) :=
  {| valid p := valid sa (fst p) /\ valid sb (snd p); enc p := enc sa (fst p) ++ enc sb (snd p) |}.
Next Obligation.
  intros W HW HL [a b] w [Ha Hb] Hw; simpl in *. rewrite write_bits_app, (ser_enc W) by assumption.
  destruct (write_bits (enc sa a) w) as [w1| | |] eqn:E; try reflexivity. rewrite !bind_ok.
  eapply ser_enc; [assumption|]. eapply write_bits_wok; eauto.
Qed.
Next Obligation.
  intros [a b] rest r [Ha Hb] Hr E; simpl in *. rewrite <- app_assoc in E.
  destruct (de_enc a _ r Ha Hr E) as (r1 & R1 & O1 & B1).
  destruct (de_enc b _ r1 Hb O1 B1) as (r2 & R2 & O2 & B2).
  exists r2. rewrite R1, bind_ok, R2. auto.
Qed.

Definition list_enc (l : list A) : list bool := concat (map (enc sa) l).

Lemma ser_all_enc {W} `{BitWriteLaws W} l (w : W) :
  Forall (valid sa) l -> wok w -> ser_all sa l w = write_bits (list_enc l) w.
Proof.
  intros Hl. revert w. induction Hl as [|x l Hx _ IH]; intros w Hw; [reflexivity|].
  unfold ser_all, list_enc. cbn [foldM map concat]. rewrite write_bits_app, (ser_enc W) by assumption.
  destruct (write_bits (enc sa x) w) as [w1| | |] eqn:E; try reflexivity. rewrite !bind_ok.
  apply IH. eapply write_bits_wok; eauto.
Qed.

Lemma de_n_enc l rest r :
  Forall (valid sa) l -> reader_ok r -> br_bits r = list_enc l ++ rest ->
  exists r', de_n sa (length l) r = Ok (l, r') /\ reader_ok r' /\ br_bits r' = rest.
Proof.
  intros Hl. revert r. induction Hl as [|x l Hx _ IH]; intros r Hr E.
  - exists r. auto.
  - unfold list_enc in E. cbn [map concat] in E. rewrite <- app_assoc in E.
    destruct (de_enc x _ r Hx Hr E) as (r1 & R1 & O1 & B1).
    destruct (IH r1 O1 B1) as (r2 & R2 & O2 & B2).
    exists r2. cbn [length de_n]. rewrite R1, bind_ok, R2. auto.
Qed.

#[export] Program Instance array_lawful N : Lawful (array_serde sa N) :=
  {| valid l := length l = N /\ Forall (valid sa) l; enc := list_enc |}.
Next Obligation. intros N W HW HL l w [_ H] Hw. now apply ser_all_enc. Qed.
Next Obligation. intros N l rest r [<- H] Hr E. now apply de_n_enc. Qed.

Context `{!LawfulLen sa, !LawfulLen sb}.

#[export] Instance option_len : LawfulLen (option_serde sa).
Proof.
  intros [x|] Hx HL; [|reflexivity]. cbn [option_serde bit_length enc option_lawful length] in *.
  rewrite bit_length_enc by (assumption || lia). rewrite bind_ok.
  rewrite uadd_ok by lia. f_equal. lia.
Qed.

#[export] Instance pair_len : LawfulLen (pair_serde sa sb).
Proof.
  intros [a b] [Ha Hb] HL. cbn [pair_serde bit_length enc pair_lawful fst snd] in *.
  rewrite length_app in *. rewrite (bit_length_enc a), bind_ok, (bit_length_enc b), bind_ok by (assumption || lia).
  rewrite uadd_ok by lia. f_equal. lia.
Qed.

Lemma length_all_enc l out :
  Forall (valid sa) l -> 0 <= out -> out + Z.of_nat (length (list_enc l)) < 2 ^ 32 ->
  length_all sa l out = Ok (out + Z.of_nat (length (list_enc l))).
Proof.
  intros Hl. revert out. induction Hl as [|x l Hx _ IH]; intros out Ho HL.
  - simpl. f_equal. lia.
  - unfold length_all, list_enc in *. cbn [foldM map concat] in *. rewrite length_app in *.
    rewrite bit_length_enc, bind_ok by (assumption || lia).
    rewrite uadd_ok, bind_ok by lia. rewrite IH by lia. f_equal. lia.
Qed.

#[export] Instance array_len N : LawfulLen (array_serde sa N).
Proof.
  intros l [_ Hl] HL. cbn [array_serde bit_length enc array_lawful] in *.
  rewrite length_all_enc by (assumption || lia). reflexivity.
Qed.

End containers.

Section vectors.
Context {A : Type} (sa : Serde A) `{!Lawful sa} (size : Z).

(** Elements of a non-zero size whose buffer fits the address space. *)
Definition vec_valid (l : list A) : Prop :=
  0 <= size /\ len l < 2 ^ 64 /\ len l * size <= isize_MAX /\ Forall (valid sa) l.

#[export] Program Instance vec_lawful : Lawful (vec_serde sa size) :=
  {| valid := vec_valid; enc l := length_enc 5 (len l) ++ list_enc sa l |}.
Next Obligation.
  intros W HW HL l w (_ & Hl & _ & Hv) Hw. cbn [ser vec_serde].
  rewrite <- bind_assoc, variable_ser, write_bits_app by (unfold len in *; lia).
  destruct (write_bits (length_enc 5 (len l)) w) as [w1| | |] eqn:E; try reflexivity.
  rewrite !bind_ok. eapply ser_all_enc; [assumption|]. eapply write_bits_wok; eauto.
Qed.
Next Obligation.
  intros l rest r (_ & Hl & Hc & Hv) Hr E. cbn [de vec_serde].
  rewrite <- app_assoc in E.
  destruct (variable_de 5 (len l) _ r ltac:(lia) ltac:(unfold len in *; lia) Hr E) as (n & r1 & R1 & Gn & O1 & B1).
  destruct (de_n_enc sa l rest r1 Hv O1 B1) as (r2 & R2 & O2 & B2).
  exists r2. rewrite R1, bind_ok, Gn. unfold len in *. rewrite wrap_small by (unfold in_u; lia).
  unfold with_capacity. rewrite (proj2 (Z.leb_le _ _)), bind_ok, Nat2Z.id by assumption. auto.
Qed.

#[export] Instance vec_len `{!LawfulLen sa} : LawfulLen (vec_serde sa size).
Proof.
  intros l (_ & Hl & _ & Hv) HL. cbn [bit_length vec_serde enc vec_lawful] in *. rewrite length_app in *.
  rewrite <- bind_assoc, variable_bit_length, bind_ok by (unfold len in *; lia).
  rewrite (length_all_enc sa) by (assumption || lia). f_equal. lia.
Qed.
End vectors.

#[export] Program Instance bytes_lawful : Lawful bytes_serde :=
  {| valid l := len l <= isize_MAX /\ Forall is_byte l;
     enc l := length_enc 9 (len l) ++ bytes_bits l |}.
Next Obligation.
  intros W HW HL l w [Hl Hv] Hw. cbn [ser bytes_serde]. unfold isize_MAX in Hl.
  rewrite <- bind_assoc, variable_ser, write_bits_app by (unfold len in *; lia).
  destruct (write_bits (length_enc 9 (len l)) w) as [w1| | |] eqn:E; try reflexivity.
  rewrite !bind_ok. eapply write_bytes_bits; [assumption|]. eapply write_bits_wok; eauto.
Qed.
Next Obligation.
  intros l rest r [Hl Hv] Hr E. cbn [de bytes_serde]. pose proof Hl as Hl'. unfold isize_MAX in Hl'.
  rewrite <- app_assoc in E.
  destruct (variable_de 9 (len l) _ r ltac:(lia) ltac:(unfold len in *; lia) Hr E) as (n & r1 & R1 & Gn & O1 & B1).
  destruct (read_bytes_enc l rest r1 Hv O1 B1) as (r2 & R2 & O2 & B2).
  exists r2. rewrite R1, bind_ok, Gn. unfold len in *. rewrite wrap_small by (unfold in_u; lia).
  unfold with_capacity. rewrite (proj2 (Z.leb_le _ _)), bind_ok, Nat2Z.id by lia. auto.
Qed.

#[export] Instance bytes_len : LawfulLen bytes_serde.
Proof.
  intros l [Hl Hv] HL. cbn [bit_length bytes_serde enc bytes_lawful] in *. rewrite length_app, length_bytes_bits in *.
  unfold isize_MAX in Hl.
  rewrite <- bind_assoc, variable_bit_length, bind_ok by (unfold len in *; lia).
  unfold len in *. rewrite wrap_small by (unfold in_u; lia). rewrite (proj2 (Z.ltb_lt _ _)), bind_ok by lia.
  rewrite uadd_ok by lia. f_equal. lia.
Qed.

(** * Laws of derived enums and newtypes *)
Lemma bits_needed_range count : 1 <= count <= 65536 -> 1 <= bits_needed_for count <= 16.
Proof.
  intros H. unfold bits_needed_for. destruct (Z.leb_spec count 2); [lia|].
  pose proof (Z.log2_nonneg (count - 1)).
  assert (Z.log2 (count - 1) < 16) by (apply Z.log2_lt_pow2; lia). lia.
Qed.

Lemma bits_needed_enough count : 1 <= count -> count <= 2 ^ bits_needed_for count.
Proof.
  intros H. unfold bits_needed_for. destruct (Z.leb_spec count 2); [lia|].
  pose proof (Z.log2_spec (count - 1) ltac:(lia)). unfold Z.succ in *. lia.
Qed.

Section variants.
Context (count : Z) (Hc : 1 <= count <= 65536).

Program Definition variant_lawful : Lawful (variant_serde count) :=
  {| valid i := 0 <= i < count; enc i := to_bits (Z.to_nat (bits_needed_for count)) i |}.
Next Obligation.
  intros W HW HL i w Hi Hw. cbv beta in Hi. pose proof (bits_needed_range count Hc).
  pose proof (bits_needed_enough count ltac:(lia)). cbn [ser variant_serde].
  rewrite wrap_small by (unfold in_u; lia). apply unsigned_ser; lia.
Qed.
Next Obligation.
  intros i rest r Hi Hr E. cbv beta in Hi. pose proof (bits_needed_range count Hc).
  pose proof (bits_needed_enough count ltac:(lia)).
  destruct (unsigned_de (bits_needed_for count) i _ _ ltac:(lia) ltac:(lia) Hr E) as (n & r1 & R1 & Gn & O1 & B1).
  exists r1. cbn [de variant_serde]. rewrite R1, bind_ok, Gn, wrap_small by (unfold in_u; lia).
  rewrite (proj2 (Z.ltb_lt _ _)) by lia. auto.
Qed.
End variants.

Section iso.
Context {A B : Type} (f : A -> B) (g : B -> A) (s : Serde B) `{!Lawful s}.
Context (P : A -> Prop) (Hgf : forall a, P a -> g (f a) = a).

Program Definition iso_lawful : Lawful (iso_serde f g s) :=
  {| valid a := P a /\ valid s (f a); enc a := enc s (f a) |}.
Next Obligation. intros W HW HL a w [_ Ha] Hw. exact (ser_enc W (f a) w Ha Hw). Qed.
Next Obligation.
  intros a rest r [Pa Ha] Hr E. destruct (de_enc _ _ _ Ha Hr E) as (r' & R & O & B').
  exists r'. cbn [de iso_serde]. rewrite R, bind_ok, Hgf by assumption. auto.
Qed.
End iso.

(** * From a value to a packet and back *)
Lemma serde_packet {T} (s : Serde T) `{!Lawful s} x :
  valid s x -> Z.of_nat (length (enc s x)) <= MTU_SIZE_BITS ->
  exists w bs r', ser s x BitWriter_new = Ok w /\ BitWriter_to_bytes w = Ok bs /\
    de s (BitReader_new bs) = Ok (x, r').
Proof.
  intros Hx Hl. destruct (write_packet (enc s x) Hl) as (w & bs & pad & E & T1 & Hb & Eb & _).
  destruct (de_enc x (replicate pad false) (BitReader_new bs) Hx) as (r' & R & _).
  - now apply reader_new_ok.
  - exact Eb.
  - exists w, bs, r'. rewrite (ser_enc BitWriter x) by (exact Hx || exact (writer_new_ok _)). auto.
Qed.

(** Every value that [SerdeInteger::new] accepts (for chunks of at most 32
    bits) round trips through a packet, on every branch of the decoder (32-bit, 64-bit,
    reversed 128-bit and chunked), with its sign, and [bit_length] is exactly the
    number of bits it occupies. *)
Theorem integer_roundtrip signed variable bits v n :
  0 <= bits -> - 2 ^ 127 < v < 2 ^ 127 -> (variable = true -> bits <= 32) ->
  SerdeInteger_new signed variable bits v = Ok n ->
  SerdeInteger_get n = v /\
  exists w bs r',
    ser (integer_serde signed variable bits) n BitWriter_new = Ok w /\
    BitWriter_to_bytes w = Ok bs /\
    de (integer_serde signed variable bits) (BitReader_new bs) = Ok (n, r') /\
    bit_length (integer_serde signed variable bits) n = Ok (bw_current_bits w).
Proof.
  intros Hb Hv Hc E. unfold SerdeInteger_new in E. apply bind_ok_inv in E as (k & E & [= <-]).
  destruct (num_new_ok _ _ _ _ _ _ Hb Hv Hc E) as [-> Hk].
  set (n := mkSerdeInteger _). split; [reflexivity|].
  assert (integer_ok n) as On by (split; [exact Hk|reflexivity]).
  assert (Z.of_nat (length (num_enc (si_inner n))) <= MTU_SIZE_BITS) as Hl by (apply num_enc_length; exact Hk).
  destruct (write_packet _ Hl) as (w & bs & pad & Ew & T1 & Hbs & Eb & Ec & _).
  destruct (integer_de n (replicate pad false) (BitReader_new bs) On) as (r' & R & _).
  - now apply reader_new_ok.
  - exact Eb.
  - exists w, bs, r'. rewrite (integer_ser n BitWriter_new On), (integer_bit_length n On), Ec. auto.
Qed.

Lemma integer_roundtrip_witness :
  exists n, SerdeInteger_new true true 7 (-123456789) = Ok n /\
  SerdeInteger_get n = -123456789 /\
  exists w bs r',
    ser (integer_serde true true 7) n BitWriter_new = Ok w /\
    BitWriter_to_bytes w = Ok bs /\
    de (integer_serde true true 7) (BitReader_new bs) = Ok (n, r') /\
    bit_length (integer_serde true true 7) n = Ok (bw_current_bits w).
Proof.
  eexists. split; [reflexivity|]. apply (integer_roundtrip true true 7 (-123456789)); [lia|lia|lia|reflexivity].
Defined.

(** Decoding a variable-length integer terminates on every input: whatever the
    bytes, the chunk loop ends with a value, an error or an overflow panic within
    as many rounds as the input has bits. *)
Theorem variable_decode_terminates signed bits r :
  reader_ok r -> de (integer_serde signed true bits) r <> Diverge.
Proof.
  intros H. cbn [de integer_serde]. unfold SerdeNumberInner_de.
  assert (exists m, (if signed then BitReader_read_bit r else Ok (false, r)) = m /\
    m <> Diverge /\ forall b r1, m = Ok (b, r1) -> reader_ok r1) as (m & -> & Hd & Ho).
  { eexists; split; [reflexivity|]. destruct signed.
    - split; [now apply read_bit_diverge|]. intros b r1 E. now apply read_bit_shrink in E.
    - split; [discriminate|]. now intros b r1 [= <- <-]. }
  destruct m as [[neg r1]| | |]; try discriminate; [|congruence].
  specialize (Ho _ _ eq_refl). rewrite bind_ok.
  pose proof (de_chunks_terminates _ bits 0 0 r1 Ho (chunk_fuel_enough r1 Ho)) as D.
  destruct (de_chunks (chunk_fuel r1) bits 0 0 r1) as [[v r2]| | |]; try discriminate; [|congruence].
  rewrite bind_ok. destruct neg; [|discriminate]. unfold neg128. now destruct (_ =? _).
Qed.

Lemma variable_decode_terminates_witness :
  de (integer_serde false true 7) (BitReader_new (replicate 40 255)) <> Diverge.
Proof.
  apply (variable_decode_terminates false 7).
  apply reader_new_ok, Forall_replicate. unfold is_byte. lia.
Defined.

(** Hostile length prefixes are not rejected with [SerdeErr]: a run of
    continuation chunks shifts past the 128-bit accumulator, and a length of 2^63
    exceeds what [Vec::with_capacity] accepts; in both cases the decoder panics (the
    first in builds with overflow checks). *)
Theorem hostile_length_panics :
  de (integer_serde false true 7) (BitReader_new (replicate 40 255)) = Panic /\
  (exists n, SerdeInteger_new false true 5 (2 ^ 63) = Ok n /\
   exists w bs, ser (integer_serde false true 5) n BitWriter_new = Ok w /\ BitWriter_to_bytes w = Ok bs /\
     de (vec_serde u8_serde 1) (BitReader_new bs) = Panic).
Proof.
  split; [vm_compute; reflexivity|]. eexists; split; [reflexivity|].
  eexists _, _; split; [vm_compute; reflexivity|].
  split; [vm_compute; reflexivity|vm_compute; reflexivity].
Qed.

(** [SerdeInteger::new] accepts chunk sizes up to 127 bits, but the decoder
    collects a chunk in a [u32]: with a 40-bit chunk the value 2^35 is accepted and
    serialized, and deserializing the packet panics. *)
Theorem wide_chunk_decode_panics :
  exists n, SerdeInteger_new false true 40 (2 ^ 35) = Ok n /\
  exists w bs, ser (integer_serde false true 40) n BitWriter_new = Ok w /\ BitWriter_to_bytes w = Ok bs /\
    de (integer_serde false true 40) (BitReader_new bs) = Panic.
Proof.
  eexists; split; [reflexivity|]. eexists _, _; split; [vm_compute; reflexivity|].
  split; [vm_compute; reflexivity|vm_compute; reflexivity].
Qed.

(** The index of a derived enum with [count] variants: the derived width is the
    smallest positive one that can hold every index, each index round trips through a
    packet, and on input the decoder returns an index below [count] or an error. *)
Theorem variant_index_correct count i :
  1 <= count <= 65536 -> 0 <= i < count ->
  count <= 2 ^ bits_needed_for count /\
  (forall b, 1 <= b -> count <= 2 ^ b -> bits_needed_for count <= b) /\
  (exists w bs r', ser (variant_serde count) i BitWriter_new = Ok w /\ BitWriter_to_bytes w = Ok bs /\
     de (variant_serde count) (BitReader_new bs) = Ok (i, r')) /\
  (forall r j r', de (variant_serde count) r = Ok (j, r') -> 0 <= j < count).
Proof.
  intros Hc Hi. split; [apply bits_needed_enough; lia|]. split; [|split].
  - intros b Hb Hcb. unfold bits_needed_for. destruct (Z.leb_spec count 2); [lia|].
    enough (Z.log2 (count - 1) < b) by lia. apply Z.log2_lt_pow2; lia.
  - apply (serde_packet (Lawful0 := variant_lawful count Hc) (variant_serde count) i Hi).
    cbn [enc variant_lawful]. rewrite length_to_bits. pose proof (bits_needed_range count Hc).
    change MTU_SIZE_BITS with 3440. lia.
  - intros r j r' E. cbn [de variant_serde] in E. apply bind_ok_inv in E as ([n r1] & _ & E).
    destruct (Z.ltb_spec (wrap 16 (SerdeInteger_get n)) count); [|discriminate].
    injection E as <- <-. split; [apply wrap_range|]; lia.
Qed.

Lemma variant_index_correct_witness :
  8 <= 2 ^ bits_needed_for 8 /\
  (forall b, 1 <= b -> 8 <= 2 ^ b -> bits_needed_for 8 <= b) /\
  (exists w bs r', ser (variant_serde 8) 7 BitWriter_new = Ok w /\ BitWriter_to_bytes w = Ok bs /\
     de (variant_serde 8) (BitReader_new bs) = Ok (7, r')) /\
  (forall r j r', de (variant_serde 8) r = Ok (j, r') -> 0 <= j < 8).
Proof. apply (variant_index_correct 8 7); lia. Defined.
