(* ===== verification/Kinds.v ===== *)
(** The registries that give every message, channel and component type its wire tag:
    src/shared/src/messages/message_kinds.rs,
    src/shared/src/messages/channels/channel_kinds.rs and
    src/shared/src/world/component/component_kinds.rs.

    The three registries are the same code at three payloads: a net id counter, the
    tag width, and the two maps.  A kind (a Rust [TypeId]) is any countable type. *)

From Stdlib Require Import ZArith Lia String.
From stdpp Require Import base list numbers gmap countable.
From S2P Require Import Prelude BitIO Number Serde.

(** [u32::next_power_of_two] and [u32::trailing_zeros]. *)
Definition next_power_of_two (x : Z) : Z := 2 ^ Z.log2_up x.

Fixpoint count_zeros (n : nat) (x : Z) : Z :=
  match n with
  | O => 0
  | S n' => if Z.odd x then 0 else 1 + count_zeros n' (x / 2)
  end.

Definition trailing_zeros (x : Z) : Z := count_zeros 32 x.

Definition bit_width_for_kind_count (count : Z) : Z :=
  if count <? 2 then 0 else trailing_zeros (next_power_of_two count).

(** * The registry *)
Section Registry.
Context {K : Type} `{Countable K} {B : Type}.

Record Kinds : Type := mkKinds {
  current_net_id : Z;
  kind_bit_width : Z;
  kind_map : gmap K (Z * B * string);
  net_id_map : gmap Z K }.

Definition Kinds_new : Kinds := mkKinds 0 0 ∅ ∅.

(** Both maps are updated before the counter overflows. *)
Definition Kinds_add (kind : K) (builder : B) (name : string) (ks : Kinds) : res Kinds :=
  let net_id := current_net_id ks in
  next ← uadd 16 net_id 1;
  Ok (mkKinds next (bit_width_for_kind_count next)
        (<[kind := (net_id, builder, name)]> (kind_map ks))
        (<[net_id := kind]> (net_id_map ks))).

Definition net_id_to_kind (ks : Kinds) (net_id : Z) : res K := unwrap (net_id_map ks !! net_id).

Definition kind_to_net_id (ks : Kinds) (kind : K) : res Z :=
  unwrap ((fun e => fst (fst e)) <$> kind_map ks !! kind).

Definition kind_to_builder (ks : Kinds) (kind : K) : res B :=
  unwrap ((fun e => snd (fst e)) <$> kind_map ks !! kind).

Definition bit_indices (bits : Z) : list Z := map Z.of_nat (seq 0 (Z.to_nat bits)).

Definition Kind_ser {W} `{BitWrite W} (ks : Kinds) (kind : K) (w : W) : res W :=
  net_id ← kind_to_net_id ks kind;
  foldM (fun i w => write_bit (negb (Z.land (Z.shiftr net_id i) 1 =? 0)) w)
    (bit_indices (kind_bit_width ks)) w.

Definition Kind_de (ks : Kinds) (r : BitReader) : res (K * BitReader) :=
  '(net_id, r') ← foldM (fun i '(net_id, r) =>
      '(bit, r') ← de bool_serde r;
      Ok (if (bit : bool) then Z.lor net_id (wrap 16 (Z.shiftl 1 i)) else net_id, r'))
    (bit_indices (kind_bit_width ks)) (0, r);
  kind ← net_id_to_kind ks net_id;
  Ok (kind, r').

Definition kind_serde (ks : Kinds) : Serde K :=
  mkSerde (fun W _ => Kind_ser ks) (Kind_de ks) (fun _ => Ok (kind_bit_width ks)).
End Registry.
Arguments Kinds K {_ _} B.

(** * The invariant of a registry

    [mk] is the builder of a kind: what [add] was called with. *)
Lemma count_zeros_pow n k : (k < n)%nat -> count_zeros n (2 ^ Z.of_nat k) = Z.of_nat k.
Proof.
  revert k. induction n as [|n IH]; intros k Hk; [lia|]. destruct k as [|k]; [reflexivity|].
  cbn [count_zeros]. rewrite Nat2Z.inj_succ, Z.pow_succ_r, Z.odd_mul by lia.
  cbn [Z.odd andb]. rewrite Z.mul_comm, Z.div_mul, IH by lia. lia.
Qed.

Lemma bit_width_log2_up count : count < 2 ^ 31 -> bit_width_for_kind_count count = Z.log2_up count.
Proof.
  intros Hc. unfold bit_width_for_kind_count, trailing_zeros, next_power_of_two.
  destruct (Z.ltb_spec count 2).
  - destruct (Z.eq_dec count 1) as [->|]; [reflexivity|]. now rewrite Z.log2_up_eqn0 by lia.
  - pose proof (Z.log2_up_nonneg count).
    assert (Z.log2_up count <= 31) by (change 31 with (Z.log2_up (2 ^ 31)); apply Z.log2_up_le_mono; lia).
    rewrite <- (Z2Nat.id (Z.log2_up count)) by lia. apply count_zeros_pow. lia.
Qed.

Lemma bit_width_enough count : 0 <= count < 2 ^ 31 -> count <= 2 ^ bit_width_for_kind_count count.
Proof.
  intros Hc. rewrite bit_width_log2_up by lia. destruct (Z.leb_spec count 1).
  - pose proof (Z.pow_pos_nonneg 2 (Z.log2_up count) ltac:(lia) (Z.log2_up_nonneg _)). lia.
  - apply Z.log2_up_spec. lia.
Qed.

Lemma bit_width_range count : 0 <= count <= 65535 -> 0 <= bit_width_for_kind_count count <= 16.
Proof.
  intros Hc. rewrite bit_width_log2_up by lia. split; [apply Z.log2_up_nonneg|].
  change 16 with (Z.log2_up 65536). apply Z.log2_up_le_mono. lia.
Qed.

Section RegistryFacts.
Context {K : Type} `{Countable K} {B : Type} (mk : K -> B).
Implicit Types ks : Kinds K B.

Record kinds_ok (ks : Kinds K B) : Prop := {
  ko_range : 0 <= current_net_id ks <= 65535;
  ko_width : kind_bit_width ks = bit_width_for_kind_count (current_net_id ks);
  ko_kind : forall k id b n, kind_map ks !! k = Some (id, b, n) ->
    0 <= id < current_net_id ks /\ net_id_map ks !! id = Some k /\ b = mk k;
  ko_id : forall id k, net_id_map ks !! id = Some k ->
    0 <= id < current_net_id ks /\ is_Some (kind_map ks !! k);
}.

Lemma kinds_new_ok : kinds_ok Kinds_new.
Proof.
  constructor; cbn [current_net_id kind_bit_width kind_map net_id_map Kinds_new]; try lia; try reflexivity.
  - intros k id b n E. now rewrite lookup_empty in E.
  - intros id k E. now rewrite lookup_empty in E.
Qed.

Lemma kinds_add_ok k name ks ks' :
  kinds_ok ks -> Kinds_add k (mk k) name ks = Ok ks' -> kinds_ok ks'.
Proof.
  intros [Hr Hw Hk Hi] E. unfold Kinds_add, uadd in E.
  destruct (Z.ltb_spec (current_net_id ks + 1) (2 ^ 16)) as [L|]; [|discriminate].
  rewrite bind_ok in E. injection E as <-. change (2 ^ 16) with 65536 in L.
  constructor; cbn [current_net_id kind_bit_width kind_map net_id_map]; [lia|reflexivity|..].
  - intros k2 id b n E. apply lookup_insert_Some in E as [[<- [= <- <- <-]]|[Hne E]].
    + rewrite lookup_insert_eq. split; [lia|auto].
    + apply Hk in E as (R & E & ->). rewrite lookup_insert_ne by lia. split; [lia|auto].
  - intros id k2 E. apply lookup_insert_Some in E as [[<- <-]|[Hne E]].
    + rewrite lookup_insert_eq. split; [lia|eauto].
    + apply Hi in E as [R S]. split; [lia|]. now apply lookup_insert_is_Some'; right.
Qed.

(** The tag of a registered kind. *)
Lemma kind_to_net_id_ok ks k :
  kinds_ok ks -> is_Some (kind_map ks !! k) ->
  exists id, kind_to_net_id ks k = Ok id /\ 0 <= id < current_net_id ks /\
    net_id_to_kind ks id = Ok k /\ kind_to_builder ks k = Ok (mk k).
Proof.
  intros Hok [[[id b] n] E]. pose proof (ko_kind _ Hok _ _ _ _ E) as (R & Ei & ->).
  exists id. unfold kind_to_net_id, net_id_to_kind, kind_to_builder. rewrite E, Ei. cbn. auto.
Qed.

Lemma bit_indices_S n : bit_indices (Z.of_nat (S n)) = bit_indices (Z.of_nat n) ++ [Z.of_nat n].
Proof. unfold bit_indices. now rewrite !Nat2Z.id, seq_S, map_app. Qed.

Lemma to_bits_S n z : to_bits (S n) z = to_bits n z ++ [Z.odd (z / 2 ^ Z.of_nat n)].
Proof.
  replace (S n) with (n + 1)%nat by lia. rewrite to_bits_app. reflexivity.
Qed.

Lemma tag_bits {W} `{BitWrite W} n id (w : W) :
  foldM (fun i w => write_bit (negb (Z.land (Z.shiftr id i) 1 =? 0)) w) (bit_indices (Z.of_nat n)) w =
  write_bits (to_bits n id) w.
Proof.
  induction n as [|n IH]; [reflexivity|].
  rewrite bit_indices_S, to_bits_S. unfold write_bits. rewrite !foldM_app, IH. unfold write_bits.
  destruct (foldM write_bit (to_bits n id) w) as [w'| | |]; try reflexivity.
  cbn [mbind res_bind foldM]. rewrite land_1_odd, Z.shiftr_div_pow2 by lia. reflexivity.
Qed.

Lemma tag_read n id rest r :
  (n <= 16)%nat -> reader_ok r -> br_bits r = to_bits n id ++ rest ->
  exists r', foldM (fun i '(net_id, r) =>
      '(bit, r') ← de bool_serde r;
      Ok (if (bit : bool) then Z.lor net_id (wrap 16 (Z.shiftl 1 i)) else net_id, r'))
    (bit_indices (Z.of_nat n)) (0, r) = Ok (id mod 2 ^ Z.of_nat n, r') /\
    reader_ok r' /\ br_bits r' = rest.
Proof.
  revert rest. induction n as [|n IH]; intros rest Hn Hr E.
  - exists r. rewrite Z.mod_1_r. auto.
  - rewrite to_bits_S, <- app_assoc in E. destruct (IH _ ltac:(lia) Hr E) as (r1 & R1 & O1 & B1).
    destruct (read_bit_enc _ _ _ O1 B1) as (r2 & R2 & O2 & B2).
    exists r2. rewrite bit_indices_S, foldM_app, R1, bind_ok. cbn [foldM de bool_serde].
    rewrite R2, !bind_ok. split; [|auto]. cbn [mbind res_bind]. do 2 f_equal.
    rewrite Nat2Z.inj_succ, Z.pow_succ_r, (Z.mul_comm 2), Z.rem_mul_r by lia.
    pose proof (Z.mod_pos_bound id (2 ^ Z.of_nat n) ltac:(lia)).
    rewrite Zmod_odd. destruct (Z.odd _); [|lia].
    rewrite wrap_small, lor_bit_add by first [lia | unfold in_u; rewrite Z.shiftl_1_l;
      split; [apply Z.pow_nonneg; lia|apply Z.pow_lt_mono_r; lia]]. lia.
Qed.
Definition tag_enc (ks : Kinds K B) (k : K) : list bool :=
  to_bits (Z.to_nat (kind_bit_width ks))
    (match kind_to_net_id ks k with Ok id => id | _ => 0 end).

Lemma width_nat ks : kinds_ok ks ->
  Z.of_nat (Z.to_nat (kind_bit_width ks)) = kind_bit_width ks /\ (Z.to_nat (kind_bit_width ks) <= 16)%nat.
Proof. intros Hok. pose proof (bit_width_range _ (ko_range _ Hok)). rewrite (ko_width _ Hok). lia. Qed.

Program Definition kind_lawful ks (Hok : kinds_ok ks) : Lawful (kind_serde ks) :=
  {| valid k := is_Some (kind_map ks !! k); enc := tag_enc ks |}.
Next Obligation.
  intros ks Hok W ? ? k w Hk _. cbn [ser kind_serde]. unfold Kind_ser, tag_enc.
  destruct (kind_to_net_id_ok ks k Hok Hk) as (id & -> & _). rewrite bind_ok.
  destruct (width_nat ks Hok) as [<- _]. rewrite tag_bits. now rewrite Nat2Z.id.
Qed.
Next Obligation.
  intros ks Hok k rest r Hk Hr E. cbn [de kind_serde]. unfold Kind_de, tag_enc in *.
  destruct (kind_to_net_id_ok ks k Hok Hk) as (id & Ei & R & Ek & _). rewrite Ei in E.
  destruct (width_nat ks Hok) as [Ew Hw].
  destruct (tag_read _ id rest r Hw Hr E) as (r' & R' & O & B'). rewrite Ew in R'.
  exists r'. rewrite R', bind_ok. rewrite Z.mod_small, Ek; [auto|].
  rewrite (ko_width _ Hok). pose proof (bit_width_enough (current_net_id ks)).
  pose proof (ko_range _ Hok). lia.
Qed.

(** A tag no kind was registered under. *)
Lemma unknown_tag_panics ks r rest :
  kinds_ok ks -> current_net_id ks < 2 ^ kind_bit_width ks -> reader_ok r ->
  br_bits r = replicate (Z.to_nat (kind_bit_width ks)) true ++ rest -> Kind_de ks r = Panic.
Proof.
  intros Hok Hlt Hr E. destruct (width_nat ks Hok) as [Ew Hw].
  set (n := Z.to_nat (kind_bit_width ks)) in *. rewrite <- (to_of_bits (replicate n true)) in E.
  rewrite length_replicate in E. destruct (tag_read n _ rest r Hw Hr E) as (r' & R & _).
  unfold Kind_de. rewrite <- Ew, R, bind_ok. unfold net_id_to_kind.
  destruct (net_id_map ks !! _) as [k|] eqn:L; [|reflexivity]. exfalso.
  apply (ko_id _ Hok) in L as [L _]. rewrite <- Ew in Hlt.
  assert (of_bits (replicate n true) = 2 ^ Z.of_nat n - 1) as Eo.
  { clear. induction n as [|n IH]; [reflexivity|]. cbn [replicate of_bits]. rewrite IH.
    rewrite Nat2Z.inj_succ, Z.pow_succ_r by lia. cbn [Z.b2z]. lia. }
  rewrite Eo, Z.mod_small in L by (pose proof (Z.pow_pos_nonneg 2 (Z.of_nat n)); lia). lia.
Qed.

(** A whole protocol: the kinds added in order. *)
Definition register (l : list (K * string)) : res (Kinds K B) :=
  foldM (fun '(k, name) ks => Kinds_add k (mk k) name ks) l Kinds_new.

Lemma register_ok l :
  Z.of_nat (length l) <= 65535 ->
  exists ks, register l = Ok ks /\ kinds_ok ks /\ current_net_id ks = Z.of_nat (length l) /\ forall k, k ∈ l.*1 -> is_Some (kind_map ks !! k).
Proof.
  induction l as [|[k name] l IH] using rev_ind; intros Hl.
  - exists Kinds_new. split; [reflexivity|]. split; [apply kinds_new_ok|]. split; [reflexivity|].
    intros k Hk. now apply elem_of_nil in Hk.
  - rewrite length_app in Hl |- *. cbn [length] in *. destruct IH as (ks & E & Hok & Ec & Hin); [lia|].
    unfold register in *. rewrite foldM_app, E, bind_ok. cbn [foldM].
    assert (exists ks', Kinds_add k (mk k) name ks = Ok ks') as [ks' E'].
    { unfold Kinds_add. rewrite uadd_ok by (change (2 ^ 16) with 65536; lia). rewrite bind_ok. eauto. }
    exists ks'. rewrite E', bind_ok. split; [reflexivity|].
    split; [eapply kinds_add_ok; eassumption|].
    unfold Kinds_add in E'. rewrite uadd_ok in E' by (change (2 ^ 16) with 65536; lia).
    rewrite bind_ok in E'. injection E' as <-. cbn [current_net_id kind_map]. split; [lia|].
    intros k2 Hk. rewrite fmap_app in Hk. apply elem_of_app in Hk as [Hk|Hk].
    + apply lookup_insert_is_Some'. right. now apply Hin.
    + apply list_elem_of_singleton in Hk as ->. rewrite lookup_insert_eq. eauto.
Qed.
End RegistryFacts.

(** * The three registries *)
Definition MessageKinds (K : Type) `{Countable K} (P : Type) : Type := Kinds K (Serde P).
Definition ChannelKinds (K : Type) `{Countable K} (S : Type) : Type := Kinds K S.
Definition ComponentKinds (K : Type) `{Countable K} (P : Type) : Type := Kinds K (Serde P).

(** * Messages

    A message is its kind and its fields; [body k] is the code its derive macro
    generated for the fields of kind [k]. *)
Section Messages.
Context {K : Type} `{Countable K} {P : Type} (body : K -> Serde P).

Record MessageContainer : Type := mkMessage { message_kind : K; message_fields : P }.

Definition MessageContainer_write {W} `{BitWrite W} (mks : MessageKinds K P) (m : MessageContainer)
    (w : W) : res W :=
  w1 ← Kind_ser mks (message_kind m) w;
  ser (body (message_kind m)) (message_fields m) w1.

Definition MessageKinds_read (mks : MessageKinds K P) (r : BitReader)
  : res (MessageContainer * BitReader) :=
  '(k, r1) ← Kind_de mks r;
  builder ← kind_to_builder mks k;
  '(p, r2) ← de builder r1;
  Ok (mkMessage k p, r2).

Definition MessageContainer_bit_length (mks : MessageKinds K P) (m : MessageContainer) : res Z :=
  n ← bit_length (body (message_kind m)) (message_fields m);
  uadd 32 (kind_bit_width mks) n.

Definition message_serde (mks : MessageKinds K P) : Serde MessageContainer :=
  mkSerde (fun W _ => MessageContainer_write mks) (MessageKinds_read mks)
    (MessageContainer_bit_length mks).

Context `{!forall k, Lawful (body k)}.

Program Definition message_lawful (mks : MessageKinds K P) (Hok : kinds_ok body mks)
  : Lawful (message_serde mks) :=
  {| valid m := is_Some (kind_map mks !! message_kind m) /\ valid (body (message_kind m)) (message_fields m);
     enc m := tag_enc mks (message_kind m) ++ enc (body (message_kind m)) (message_fields m) |}.
Next Obligation.
  intros mks Hok W ? ? m w [Hk Hp] Hw. cbn [ser message_serde]. unfold MessageContainer_write.
  rewrite write_bits_app. pose proof (ser_enc (Lawful := kind_lawful body mks Hok) W _ w Hk Hw) as Es.
  cbn [ser kind_serde enc kind_lawful] in Es. rewrite Es.
  destruct (write_bits (tag_enc mks _) w) as [w1| | |] eqn:E; try reflexivity. rewrite !bind_ok.
  apply (ser_enc W); [exact Hp|]. eapply write_bits_wok; eassumption.
Qed.
Next Obligation.
  intros mks Hok [k p] rest r [Hk Hp] Hr E. cbn [message_kind message_fields] in *. rewrite <- app_assoc in E.
  destruct (de_enc (Lawful := kind_lawful body mks Hok) k _ r Hk Hr E) as (r1 & R1 & O1 & B1).
  destruct (de_enc (s := body k) p rest r1 Hp O1 B1) as (r2 & R2 & O2 & B2).
  destruct (kind_to_net_id_ok body mks k Hok Hk) as (_ & _ & _ & _ & Eb).
  exists r2. cbn [de message_serde kind_serde] in *. unfold MessageKinds_read.
  rewrite R1, bind_ok, Eb, bind_ok, R2. auto.
Qed.
End Messages.
Arguments MessageContainer K P : clear implicits.

(** * Theorems *)

(** Every protocol round trips its messages: after registering any list of
    message types (at most 65535, repetitions allowed), writing a message of a
    registered type costs exactly ceil(log2(number of registrations)) tag bits plus its
    fields, [bit_length] predicts that number, and reading the packet gives back the
    kind and the fields. *)
Theorem message_packet_roundtrip {K} `{Countable K} {P} (body : K -> Serde P)
    `{!forall k, Lawful (body k)} `{!forall k, LawfulLen (body k)}
    (l : list (K * string)) (m : MessageContainer K P) :
  Z.of_nat (length l) <= 65535 ->
  message_kind m ∈ l.*1 ->
  valid (body (message_kind m)) (message_fields m) ->
  let bits := Z.log2_up (Z.of_nat (length l)) +
              Z.of_nat (length (enc (body (message_kind m)) (message_fields m))) in
  bits <= MTU_SIZE_BITS ->
  exists mks w bs r',
    register body l = Ok mks /\
    MessageContainer_bit_length body mks m = Ok bits /\
    MessageContainer_write body mks m BitWriter_new = Ok w /\ bw_current_bits w = bits /\
    BitWriter_to_bytes w = Ok bs /\
    MessageKinds_read mks (BitReader_new bs) = Ok (m, r').
Proof.
  intros Hl Hk Hv bits Hb. destruct (register_ok body l Hl) as (mks & Er & Hok & Ec & Hin).
  specialize (Hin _ Hk). set (L := message_lawful body mks Hok).
  assert (valid (message_serde body mks) m) as Hm by exact (conj Hin Hv).
  assert (Z.of_nat (length (enc (message_serde body mks) m)) = bits) as Eb.
  { cbn [enc L message_lawful]. rewrite length_app. unfold tag_enc. rewrite length_to_bits.
    pose proof (width_nat body mks Hok) as [Ew _]. rewrite Nat2Z.inj_add, Ew, (ko_width _ _ Hok), Ec.
    rewrite bit_width_log2_up by lia. reflexivity. }
  destruct (write_packet (enc (message_serde body mks) m)) as (w & bs & pad & E & T & Fb & Er2 & Cw & _);
    [lia|].
  destruct (de_enc (s := message_serde body mks) m _ _ Hm (reader_new_ok bs Fb) Er2)
    as (r' & R & _).
  exists mks, w, bs, r'. split; [exact Er|]. split.
  - unfold MessageContainer_bit_length. change MTU_SIZE_BITS with 3440 in Hb.
    pose proof (Z.log2_up_nonneg (Z.of_nat (length l))).
    rewrite bit_length_enc by (exact Hv || lia). rewrite bind_ok, (ko_width _ _ Hok), Ec.
    rewrite bit_width_log2_up by lia. apply uadd_ok. lia.
  - split; [|split; [lia|auto]]. rewrite <- E.
    apply (ser_enc (s := message_serde body mks) BitWriter); [exact Hm|exact (writer_new_ok _)].
Qed.

Definition sample_body (k : bool) : Serde Z := if k then u16_serde else u8_serde.
#[export] Instance sample_body_lawful k : Lawful (sample_body k) :=
  match k with true => uint_lawful 2 | false => u8_lawful end.
#[export] Instance sample_body_len k : LawfulLen (sample_body k) :=
  match k with true => uint_len 2 | false => u8_len end.

Lemma message_packet_roundtrip_witness :
  exists mks w bs r',
    register sample_body [(true, "Move"%string); (false, "Chat"%string); (true, "Move"%string)] = Ok mks /\
    MessageContainer_bit_length sample_body mks (mkMessage true 513) = Ok 18 /\
    MessageContainer_write sample_body mks (mkMessage true 513) BitWriter_new = Ok w /\
    bw_current_bits w = 18 /\
    BitWriter_to_bytes w = Ok bs /\
    MessageKinds_read mks (BitReader_new bs) = Ok (mkMessage true 513, r').
Proof.
  assert (in_u 16 513) as Hv by (unfold in_u; lia).
  exact (message_packet_roundtrip sample_body
    [(true, "Move"%string); (false, "Chat"%string); (true, "Move"%string)] (mkMessage true 513)
    ltac:(vm_compute; discriminate) ltac:(now left) Hv ltac:(vm_compute; discriminate)).
Defined.

(** A tag that no type was registered under is not reported as [SerdeErr]: for
    every protocol whose number of registrations is not a power of two, two bytes of
    input make [MessageKind::de] (and likewise [ChannelKind::de] and
    [ComponentKind::de]) panic. *)
Theorem unregistered_tag_panics {K} `{Countable K} {B} (mk : K -> B) (l : list (K * string)) :
  Z.of_nat (length l) <= 65535 ->
  Z.of_nat (length l) < 2 ^ Z.log2_up (Z.of_nat (length l)) ->
  exists ks, register mk l = Ok ks /\ Kind_de ks (BitReader_new [255; 255]) = Panic.
Proof.
  intros Hl Hp. destruct (register_ok mk l Hl) as (ks & Er & Hok & Ec & _).
  exists ks. split; [exact Er|]. destruct (width_nat mk ks Hok) as [_ Hw].
  apply (unknown_tag_panics mk ks _ (replicate (16 - Z.to_nat (kind_bit_width ks)) true) Hok).
  - rewrite (ko_width _ _ Hok), Ec, bit_width_log2_up by lia. exact Hp.
  - apply reader_new_ok. repeat constructor; unfold is_byte; lia.
  - rewrite <- replicate_add. replace (_ + _)%nat with 16%nat by lia. reflexivity.
Qed.

Lemma unregistered_tag_panics_witness :
  exists ks, register (fun k : bool => k) [(true, "A"%string); (false, "B"%string); (true, "C"%string)] = Ok ks /\
    Kind_de ks (BitReader_new [255; 255]) = Panic.
Proof.
  apply (unregistered_tag_panics (fun k : bool => k) [(true, "A"%string); (false, "B"%string); (true, "C"%string)]);
    vm_compute; congruence.
Defined.
