(* ===== verification/Wire.v ===== *)
(** Wire-level types: the packet header (src/shared/src/connection/packet_type.rs,
    standard_header.rs), fragment numbers (src/shared/src/messages/fragment.rs) and
    connection-local entity ids (src/shared/src/world/local/local_entity.rs). *)

From Stdlib Require Import ZArith Lia.
From stdpp Require Import base list numbers countable.
From S2P Require Import Prelude BitIO Number Serde.

(** * PacketType *)
Inductive PacketType := Data | Heartbeat | Handshake | Ping | Pong.

#[global] Instance PacketType_eq_dec : EqDecision PacketType.
Proof. solve_decision. Defined.

Definition PacketType_ser {W} `{BitWrite W} (p : PacketType) (w : W) : res W :=
  let is_data := bool_decide (p = Data) in
  w1 ← ser bool_serde is_data w;
  if is_data then Ok w1 else
  index ← match p with Data => Panic | Heartbeat => Ok 0 | Handshake => Ok 1 | Ping => Ok 2 | Pong => Ok 3 end;
  n ← SerdeInteger_new false false 2 index;
  ser (integer_serde false false 2) n w1.

Definition PacketType_de (r : BitReader) : res (PacketType * BitReader) :=
  '(is_data, r1) ← de bool_serde r;
  if (is_data : bool) then Ok (Data, r1) else
  '(n, r2) ← de (integer_serde false false 2) r1;
  match SerdeInteger_get n with
  | 0 => Ok (Heartbeat, r2)
  | 1 => Ok (Handshake, r2)
  | 2 => Ok (Ping, r2)
  | 3 => Ok (Pong, r2)
  | _ => Panic
  end.

Definition PacketType_bit_length (p : PacketType) : res Z :=
  let is_data := bool_decide (p = Data) in
  output ← bit_length bool_serde is_data;
  if is_data then Ok output else
  uadd 32 output (SerdeInteger_const_bit_length false 4).

Definition packet_type_serde : Serde PacketType :=
  mkSerde (fun W _ => PacketType_ser) PacketType_de PacketType_bit_length.

(** * StandardHeader *)
Abbreviation PacketIndex := Z.

Record StandardHeader : Type := mkStandardHeader {
  packet_type : PacketType;
  sender_packet_index : PacketIndex;
  sender_ack_index : PacketIndex;
  sender_ack_bitfield : Z }.

(** The derived implementation: the fields in order. *)
Definition StandardHeader_ser {W} `{BitWrite W} (h : StandardHeader) (w : W) : res W :=
  w1 ← ser packet_type_serde (packet_type h) w;
  w2 ← ser u16_serde (sender_packet_index h) w1;
  w3 ← ser u16_serde (sender_ack_index h) w2;
  ser u32_serde (sender_ack_bitfield h) w3.

Definition StandardHeader_de (r : BitReader) : res (StandardHeader * BitReader) :=
  '(t, r1) ← de packet_type_serde r;
  '(i, r2) ← de u16_serde r1;
  '(a, r3) ← de u16_serde r2;
  '(b, r4) ← de u32_serde r3;
  Ok (mkStandardHeader t i a b, r4).

Definition StandardHeader_bit_length (h : StandardHeader) : res Z :=
  n1 ← bit_length packet_type_serde (packet_type h);
  n2 ← bit_length u16_serde (sender_packet_index h);
  n3 ← bit_length u16_serde (sender_ack_index h);
  n4 ← bit_length u32_serde (sender_ack_bitfield h);
  Ok (n1 + n2 + n3 + n4).

Definition standard_header_serde : Serde StandardHeader :=
  mkSerde (fun W _ => StandardHeader_ser) StandardHeader_de StandardHeader_bit_length.

(** * Fixed-width newtypes *)
Definition FRAGMENT_ID_BITS : Z := 10.
Definition FRAGMENT_ID_LIMIT : Z := 2 ^ FRAGMENT_ID_BITS.
Definition FRAGMENT_INDEX_BITS : Z := 20.
Definition FRAGMENT_INDEX_LIMIT : Z := 2 ^ FRAGMENT_INDEX_BITS.

Definition FragmentId_increment (id : Z) : res Z :=
  i ← uadd 16 id 1;
  Ok (if FRAGMENT_ID_LIMIT <=? i then 0 else i).

Definition FragmentIndex_increment (ix : Z) : res Z :=
  i ← uadd 32 ix 1;
  if FRAGMENT_INDEX_LIMIT <=? i then Panic else Ok i.

(** A struct around one unsigned integer of [width] bits that is sent as
    [UnsignedInteger<bits>]: [FragmentId], [FragmentIndex], [GameInstant]. *)
Definition fixed_newtype_serde (bits width : Z) : Serde Z := mkSerde
  (fun W _ x w => n ← SerdeInteger_new false false bits x; ser (integer_serde false false bits) n w)
  (fun r => '(n, r1) ← de (integer_serde false false bits) r; Ok (wrap width (SerdeInteger_get n), r1))
  (fun _ => Ok bits).

Definition fragment_id_serde := fixed_newtype_serde FRAGMENT_ID_BITS 16.
Definition fragment_index_serde := fixed_newtype_serde FRAGMENT_INDEX_BITS 32.

(** A struct around a [u16] that is sent as [UnsignedVariableInteger<bits>]:
    the id of a [HostEntity] or [RemoteEntity]. *)
Definition variable_u16_serde (bits : Z) : Serde Z := mkSerde
  (fun W _ x w => n ← SerdeInteger_new false true bits x; ser (integer_serde false true bits) n w)
  (fun r => '(n, r1) ← de (integer_serde false true bits) r; Ok (wrap 16 (SerdeInteger_get n), r1))
  (fun x => n ← SerdeInteger_new false true bits x; bit_length (integer_serde false true bits) n).

(** * Local entities *)
Record HostEntity : Type := mkHostEntity { he_id : Z; he_static : bool }.
Record RemoteEntity : Type := mkRemoteEntity { re_id : Z; re_static : bool }.

#[global] Instance HostEntity_eq_dec : EqDecision HostEntity.
Proof. solve_decision. Defined.
#[global] Instance RemoteEntity_eq_dec : EqDecision RemoteEntity.
Proof. solve_decision. Defined.

#[global] Program Instance HostEntity_countable : Countable HostEntity :=
  inj_countable' (fun e => (he_id e, he_static e)) (fun p => mkHostEntity (fst p) (snd p)) _.
Next Obligation. now intros []. Qed.
#[global] Program Instance RemoteEntity_countable : Countable RemoteEntity :=
  inj_countable' (fun e => (re_id e, re_static e)) (fun p => mkRemoteEntity (fst p) (snd p)) _.
Next Obligation. now intros []. Qed.

Inductive OwnedLocalEntity :=
| Host (id : Z) (is_static : bool)
| Remote (id : Z) (is_static : bool).

#[global] Instance OwnedLocalEntity_eq_dec : EqDecision OwnedLocalEntity.
Proof. solve_decision. Defined.

Definition host_to_remote (e : HostEntity) : RemoteEntity :=
  if he_static e then mkRemoteEntity (he_id e) true else mkRemoteEntity (he_id e) false.
Definition remote_to_host (e : RemoteEntity) : HostEntity :=
  if re_static e then mkHostEntity (re_id e) true else mkHostEntity (re_id e) false.
Definition host_copy_to_owned (e : HostEntity) : OwnedLocalEntity := Host (he_id e) (he_static e).
Definition remote_copy_to_owned (e : RemoteEntity) : OwnedLocalEntity := Remote (re_id e) (re_static e).

Definition owned_is_host (e : OwnedLocalEntity) : bool :=
  match e with Host _ _ => true | Remote _ _ => false end.
Definition owned_is_static (e : OwnedLocalEntity) : bool :=
  match e with Host _ s | Remote _ s => s end.
Definition owned_id (e : OwnedLocalEntity) : Z :=
  match e with Host i _ | Remote i _ => i end.
Definition owned_to_reversed (e : OwnedLocalEntity) : OwnedLocalEntity :=
  match e with Host i s => Remote i s | Remote i s => Host i s end.
Definition owned_take_remote (e : OwnedLocalEntity) : res RemoteEntity :=
  match e with Remote i s => Ok (mkRemoteEntity i s) | Host _ _ => Panic end.

Definition OwnedLocalEntity_ser {W} `{BitWrite W} (e : OwnedLocalEntity) (w : W) : res W :=
  w1 ← ser bool_serde (owned_is_host e) w;
  w2 ← ser bool_serde (owned_is_static e) w1;
  ser (variable_u16_serde 7) (owned_id e) w2.

Definition OwnedLocalEntity_de (r : BitReader) : res (OwnedLocalEntity * BitReader) :=
  '(is_host, r1) ← de bool_serde r;
  '(is_static, r2) ← de bool_serde r1;
  '(id, r3) ← de (variable_u16_serde 7) r2;
  Ok ((if (is_host : bool) then Host id is_static else Remote id is_static), r3).

Definition OwnedLocalEntity_bit_length (e : OwnedLocalEntity) : res Z :=
  n ← bit_length (variable_u16_serde 7) (owned_id e); uadd 32 2 n.

Definition owned_entity_serde : Serde OwnedLocalEntity :=
  mkSerde (fun W _ => OwnedLocalEntity_ser) OwnedLocalEntity_de OwnedLocalEntity_bit_length.

(** [HostEntity] and [RemoteEntity] send the id only and come back dynamic. *)
Definition host_entity_serde : Serde HostEntity := iso_serde he_id (fun i => mkHostEntity i false) (variable_u16_serde 7).
Definition remote_entity_serde : Serde RemoteEntity := iso_serde re_id (fun i => mkRemoteEntity i false) (variable_u16_serde 7).

(** * Laws *)
Definition packet_type_enc (p : PacketType) : list bool :=
  match p with
  | Data => [true]
  | Heartbeat => [false; false; false]
  | Handshake => [false; true; false]
  | Ping => [false; false; true]
  | Pong => [false; true; true]
  end.

Lemma write_bits_cons {W} `{BitWrite W} b l (w : W) :
  write_bits (b :: l) w = (w' ← write_bit b w; write_bits l w').
Proof. reflexivity. Qed.

#[export] Program Instance packet_type_lawful : Lawful packet_type_serde :=
  {| valid _ := True; enc := packet_type_enc |}.
Next Obligation.
  intros W HW HL p w _ Hw. destruct p; cbn [ser packet_type_serde]; unfold PacketType_ser;
    cbn [packet_type_enc]; rewrite write_bits_cons; cbn [ser bool_serde];
    (match goal with |- context [bool_decide ?P] =>
       let v := eval vm_compute in (bool_decide P) in change (bool_decide P) with v end);
    (destruct (write_bit _ w) as [w1| | |]; try reflexivity); rewrite !bind_ok;
    try reflexivity; rewrite unsigned_ser by lia; reflexivity.
Qed.
Next Obligation.
  intros p rest r _ Hr E. cbn [de packet_type_serde]. unfold PacketType_de.
  destruct (decide (p = Data)) as [->|Hp].
  - destruct (read_bit_enc _ _ _ Hr E) as (r1 & R1 & O1 & B1). cbn [de bool_serde]. rewrite R1. eauto.
  - set (v := match p with Data => -1 | Heartbeat => 0 | Handshake => 1 | Ping => 2 | Pong => 3 end).
    assert (packet_type_enc p = false :: to_bits (Z.to_nat 2) v) as Ep by (now destruct p).
    assert (0 <= v < 2 ^ 2) by (destruct p; unfold v; (lia || congruence)).
    rewrite Ep in E. destruct (read_bit_enc _ _ _ Hr E) as (r1 & R1 & O1 & B1).
    destruct (unsigned_de 2 v rest r1) as (n & r2 & R2 & Gn & O2 & B2); [lia|assumption..|].
    cbn [de bool_serde]. exists r2. rewrite R1, bind_ok. rewrite R2, bind_ok, Gn.
    unfold v. destruct p; auto. congruence.
Qed.

#[export] Program Instance standard_header_lawful : Lawful standard_header_serde :=
  {| valid h := in_u 16 (sender_packet_index h) /\ in_u 16 (sender_ack_index h) /\
       in_u 32 (sender_ack_bitfield h);
     enc h := packet_type_enc (packet_type h) ++ to_bits 16 (sender_packet_index h) ++
       to_bits 16 (sender_ack_index h) ++ to_bits 32 (sender_ack_bitfield h) |}.
Next Obligation.
  intros W HW HL [t i a b] w (Hi & Ha & Hb) Hw. cbn [ser standard_header_serde packet_type
    sender_packet_index sender_ack_index sender_ack_bitfield] in *. unfold StandardHeader_ser.
  cbn [packet_type sender_packet_index sender_ack_index sender_ack_bitfield].
  exact (ser_enc (Lawful := pair_lawful packet_type_serde (pair_serde u16_serde (pair_serde u16_serde u32_serde)))
    W (t, (i, (a, b))) w (conj I (conj Hi (conj Ha Hb))) Hw).
Qed.
Next Obligation.
  intros [t i a b] rest r (Hi & Ha & Hb) Hr E; simpl in Hi, Ha, Hb. cbn [packet_type
    sender_packet_index sender_ack_index sender_ack_bitfield] in E. rewrite <- !app_assoc in E.
  destruct (de_enc (Lawful := packet_type_lawful) t _ r I Hr E) as (r1 & R1 & O1 & B1).
  destruct (de_enc (Lawful := uint_lawful 2) i _ r1 Hi O1 B1) as (r2 & R2 & O2 & B2).
  destruct (de_enc (Lawful := uint_lawful 2) a _ r2 Ha O2 B2) as (r3 & R3 & O3 & B3).
  destruct (de_enc (Lawful := uint_lawful 4) b _ r3 Hb O3 B3) as (r4 & R4 & O4 & B4).
  exists r4. split; [|auto]. cbn [de standard_header_serde]. unfold StandardHeader_de, u16_serde, u32_serde.
  rewrite R1, bind_ok. rewrite R2, bind_ok. rewrite R3, bind_ok. rewrite R4. reflexivity.
Qed.

Section newtypes.
Context (bits width : Z) (Hb : 1 <= bits <= width) (Hw : width <= 32).

Program Definition fixed_newtype_lawful : Lawful (fixed_newtype_serde bits width) :=
  {| valid x := 0 <= x < 2 ^ bits; enc := to_bits (Z.to_nat bits) |}.
Next Obligation. intros W HW HL x w Hx _. apply unsigned_ser; [lia|exact Hx]. Qed.
Next Obligation.
  intros x rest r Hx Hr E. cbv beta in Hx. assert (2 ^ bits <= 2 ^ width) by (apply Z.pow_le_mono_r; lia).
  destruct (unsigned_de bits x rest r) as (n & r1 & R1 & Gn & O1 & B1); try assumption; [lia|].
  exists r1. cbn [de fixed_newtype_serde]. rewrite R1, bind_ok, Gn, wrap_small by (unfold in_u; lia). auto.
Qed.
End newtypes.

#[export] Instance fragment_id_lawful : Lawful fragment_id_serde.
Proof. apply fixed_newtype_lawful; unfold FRAGMENT_ID_BITS; lia. Defined.
#[export] Instance fragment_index_lawful : Lawful fragment_index_serde.
Proof. apply fixed_newtype_lawful; unfold FRAGMENT_INDEX_BITS; lia. Defined.

#[export] Program Instance variable_u16_lawful : Lawful (variable_u16_serde 7) :=
  {| valid := in_u 16; enc := length_enc 7 |}.
Next Obligation. intros W HW HL x w Hx _. unfold in_u in Hx. apply variable_ser; lia. Qed.
Next Obligation.
  intros x rest r Hx Hr E. pose proof Hx as Hx'. unfold in_u in Hx'.
  destruct (variable_de 7 x rest r) as (n & r1 & R1 & Gn & O1 & B1); try assumption; try lia.
  exists r1. cbn [de variable_u16_serde]. rewrite R1, bind_ok, Gn, wrap_small by exact Hx. auto.
Qed.
#[export] Instance variable_u16_len : LawfulLen (variable_u16_serde 7).
Proof. intros x Hx _. unfold valid in Hx; simpl in Hx; unfold in_u in Hx. apply variable_bit_length; lia. Qed.

#[export] Program Instance owned_entity_lawful : Lawful owned_entity_serde :=
  {| valid e := in_u 16 (owned_id e);
     enc e := owned_is_host e :: owned_is_static e :: length_enc 7 (owned_id e) |}.
Next Obligation.
  intros W HW HL e w He Hw. cbn [ser owned_entity_serde]. unfold OwnedLocalEntity_ser.
  rewrite write_bits_cons. cbn [ser bool_serde].
  destruct (write_bit (owned_is_host e) w) as [w1| | |] eqn:E1; try reflexivity. rewrite !bind_ok, write_bits_cons.
  destruct (write_bit (owned_is_static e) w1) as [w2| | |] eqn:E2; try reflexivity. rewrite !bind_ok.
  apply (ser_enc (Lawful := variable_u16_lawful) W); [exact He|].
  eapply write_bit_wok, E2. eapply write_bit_wok, E1. exact Hw.
Qed.
Next Obligation.
  intros e rest r He Hr E. destruct (read_bit_enc _ _ _ Hr E) as (r1 & R1 & O1 & B1).
  destruct (read_bit_enc _ _ _ O1 B1) as (r2 & R2 & O2 & B2).
  destruct (de_enc (Lawful := variable_u16_lawful) (owned_id e) rest r2 He O2 B2) as (r3 & R3 & O3 & B3).
  exists r3. split; [|auto]. cbn [de owned_entity_serde]. unfold OwnedLocalEntity_de. cbn [de bool_serde].
  rewrite R1, bind_ok. rewrite R2, bind_ok. rewrite R3, bind_ok. now destruct e.
Qed.
#[export] Instance owned_entity_len : LawfulLen owned_entity_serde.
Proof.
  intros e He HL. cbn [bit_length owned_entity_serde enc owned_entity_lawful length] in *.
  unfold OwnedLocalEntity_bit_length.
  rewrite (bit_length_enc (LawfulLen := variable_u16_len) (owned_id e) He) by (cbn [enc variable_u16_lawful]; lia).
  rewrite bind_ok. cbn [enc variable_u16_lawful]. rewrite uadd_ok by lia. f_equal. lia.
Qed.

Lemma owned_enc_short e : in_u 16 (owned_id e) -> Z.of_nat (length (enc owned_entity_serde e)) <= 290.
Proof.
  intros He. cbn [enc owned_entity_lawful length]. unfold length_enc, num_enc, in_u in *.
  cbn [inner_value num_signed num_variable num_bits app].
  pose proof (chunks_enc_short 129 (Z.to_nat 7) (Z.abs (owned_id e)) 16 ltac:(lia) ltac:(lia) ltac:(lia)). lia.
Qed.

(** * Theorems *)

(** The packet header round trips: every [StandardHeader] with in-range fields
    is written as 65 bits (a data packet) or 67 bits, and reading the packet back gives
    the same header. *)
Theorem standard_header_roundtrip (h : StandardHeader) :
  in_u 16 (sender_packet_index h) -> in_u 16 (sender_ack_index h) -> in_u 32 (sender_ack_bitfield h) ->
  length (enc standard_header_serde h) = (if bool_decide (packet_type h = Data) then 65 else 67)%nat /\
  exists w bs r', ser standard_header_serde h BitWriter_new = Ok w /\ BitWriter_to_bytes w = Ok bs /\
    de standard_header_serde (BitReader_new bs) = Ok (h, r').
Proof.
  intros Hi Ha Hb.
  assert (length (enc standard_header_serde h) = (if bool_decide (packet_type h = Data) then 65 else 67)%nat) as L.
  { cbn [enc standard_header_lawful]. rewrite !length_app, !length_to_bits. now destruct (packet_type h). }
  split; [exact L|]. apply (serde_packet standard_header_serde); [repeat split; first [apply Hi|apply Ha|apply Hb]|].
  rewrite L. change MTU_SIZE_BITS with 3440. case_bool_decide; lia.
Qed.

Definition sample_header := mkStandardHeader Heartbeat 65535 12 4294967295.

Lemma standard_header_roundtrip_witness :
  length (enc standard_header_serde sample_header) = 67%nat /\
  exists w bs r', ser standard_header_serde sample_header BitWriter_new = Ok w /\ BitWriter_to_bytes w = Ok bs /\
    de standard_header_serde (BitReader_new bs) = Ok (sample_header, r').
Proof. apply (standard_header_roundtrip sample_header); unfold in_u; simpl; lia. Defined.

(** [PacketType::bit_length] does not match what [ser] writes: it counts a
    4-bit index, so every packet type but [Data] is reported as five bits where three
    are written. *)
Theorem packet_type_bit_length_overcounts (p : PacketType) :
  p <> Data ->
  bit_length packet_type_serde p = Ok 5 /\
  exists w, ser packet_type_serde p BitWriter_new = Ok w /\ bw_current_bits w = 3.
Proof.
  intros Hp. split; [now destruct p|].
  destruct (write_packet (packet_type_enc p)) as (w & bs & pad & E & _ & _ & _ & C & _).
  - now destruct p.
  - exists w. rewrite (ser_enc (Lawful := packet_type_lawful) BitWriter p) by (exact I || exact (writer_new_ok _)).
    split; [exact E|]. rewrite C. now destruct p.
Qed.

Lemma packet_type_bit_length_overcounts_witness :
  bit_length packet_type_serde Ping = Ok 5 /\
  exists w, ser packet_type_serde Ping BitWriter_new = Ok w /\ bw_current_bits w = 3.
Proof. apply (packet_type_bit_length_overcounts Ping). discriminate. Defined.

(** Entity ids on the wire: an [OwnedLocalEntity] with a 16-bit id keeps its
    side (host or remote), its static flag and its id through a packet, and its
    [bit_length] is the number of bits it occupies. *)
Theorem owned_entity_roundtrip (e : OwnedLocalEntity) :
  in_u 16 (owned_id e) ->
  exists w bs r', ser owned_entity_serde e BitWriter_new = Ok w /\ BitWriter_to_bytes w = Ok bs /\
    de owned_entity_serde (BitReader_new bs) = Ok (e, r') /\
    bit_length owned_entity_serde e = Ok (bw_current_bits w).
Proof.
  intros He. pose proof (owned_enc_short e He) as L.
  destruct (write_packet (enc owned_entity_serde e)) as (w & bs & pad & E & T & Fb & Eb & C & _);
    [change MTU_SIZE_BITS with 3440; lia|].
  destruct (de_enc (Lawful := owned_entity_lawful) e _ _ He (reader_new_ok bs Fb) Eb) as (r' & R & _).
  exists w, bs, r'.
  rewrite (ser_enc (Lawful := owned_entity_lawful) BitWriter e) by (exact He || exact (writer_new_ok _)).
  rewrite (bit_length_enc (LawfulLen := owned_entity_len) e He), C by lia. auto.
Qed.

Lemma owned_entity_roundtrip_witness :
  exists w bs r', ser owned_entity_serde (Remote 40000 true) BitWriter_new = Ok w /\ BitWriter_to_bytes w = Ok bs /\
    de owned_entity_serde (BitReader_new bs) = Ok (Remote 40000 true, r') /\
    bit_length owned_entity_serde (Remote 40000 true) = Ok (bw_current_bits w).
Proof. apply (owned_entity_roundtrip (Remote 40000 true)). unfold in_u; simpl; lia. Defined.
