(* ===== verification/GameTime.v ===== *)
(** The clock the two sides share and the pings that measure it
    ([src/shared/src/game_time.rs], [src/shared/src/connection/ping_store.rs]).

    A [GameInstant] counts milliseconds modulo 2^22; [instant] is the instant of an unbounded
    clock, and the theorems say what the operations are for such clocks. *)

From Stdlib Require Import ZArith Lia Sorted.
From stdpp Require Import base numbers option list gmap.
From S2P Require Import Prelude Wrapping BitIO Number Serde Wire.

Definition GAME_INSANT_BITS : Z := 22.
Definition GAME_TIME_LIMIT : Z := 4194304.
Definition GAME_TIME_MAX : Z := 4194303.
Definition TIME_OFFSET_MAX : Z := 2097151.
Definition TIME_OFFSET_MIN : Z := -2097152.

Record GameInstant := mkInstant { millis : Z }.
Record GameDuration := mkDuration { duration_millis : Z }.

(** [elapsed] is [start_instant.elapsed(&now).as_millis()]. *)
Definition GameInstant_new (elapsed : Z) : GameInstant := mkInstant (wrap 32 (elapsed mod GAME_TIME_LIMIT)).

Definition time_since (self previous_instant : GameInstant) : res GameDuration :=
  let previous_millis := previous_instant.(millis) in
  let current_millis := self.(millis) in
  if previous_millis =? current_millis then Ok (mkDuration 0)
  else if previous_millis <? current_millis then d ← usub current_millis previous_millis; Ok (mkDuration d)
  else d ← usub GAME_TIME_MAX previous_millis; d ← uadd 32 d current_millis; Ok (mkDuration d).

(** [as i32], and the [i32] operations with their overflow check. *)
Definition as_i32 (x : Z) : Z := if x <? 2 ^ 31 then x else x - 2 ^ 32.
Definition i32 (x : Z) : res Z := if (- 2 ^ 31 <=? x) && (x <? 2 ^ 31) then Ok x else Panic.
Definition is_offset (x : Z) : bool := (TIME_OFFSET_MIN <=? x) && (x <=? TIME_OFFSET_MAX).

Definition offset_from (self other : GameInstant) : res Z :=
  let a := as_i32 self.(millis) in
  let b := as_i32 other.(millis) in
  result ← i32 (b - a);
  if is_offset result then Ok result
  else if a <? b then
    a' ← i32 (a + GAME_TIME_LIMIT); result ← i32 (b - a');
    if is_offset result then Ok result else Panic
  else
    b' ← i32 (b + GAME_TIME_LIMIT); result ← i32 (b' - a);
    if is_offset result then Ok result else Panic.

Definition is_more_than (self other : GameInstant) : res bool := d ← offset_from self other; Ok (d <? 0).

Definition add_millis (self : GameInstant) (m : Z) : res GameInstant :=
  x ← uadd 32 self.(millis) m; Ok (mkInstant (x mod GAME_TIME_LIMIT)).

Definition sub_millis (self : GameInstant) (m : Z) : res GameInstant :=
  let m := m mod GAME_TIME_LIMIT in
  if m <=? self.(millis) then x ← usub self.(millis) m; Ok (mkInstant x)
  else delta ← usub m self.(millis); x ← usub GAME_TIME_LIMIT delta; Ok (mkInstant x).

Definition add_signed_millis (self : GameInstant) (m : Z) : res GameInstant :=
  if 0 <=? m then add_millis self m else m' ← i32 (- m); sub_millis self m'.

Definition GameDuration_add_millis (self : GameDuration) (m : Z) : res GameDuration :=
  x ← uadd 32 self.(duration_millis) m; Ok (mkDuration x).
Definition GameDuration_sub_millis (self : GameDuration) (m : Z) : res GameDuration :=
  x ← usub self.(duration_millis) m; Ok (mkDuration x).

Definition game_instant_serde : Serde GameInstant := iso_serde millis mkInstant (fixed_newtype_serde GAME_INSANT_BITS 32).

(** * The clock *)
Definition instant (clock : Z) : GameInstant := mkInstant (clock mod GAME_TIME_LIMIT).

Lemma instant_range clock : 0 <= (instant clock).(millis) < GAME_TIME_LIMIT.
Proof. unfold instant, GAME_TIME_LIMIT. cbn. apply Z.mod_pos_bound. lia. Qed.

Lemma i32_ok x : - 2 ^ 31 <= x < 2 ^ 31 -> i32 x = Ok x.
Proof. intros H. unfold i32. now rewrite (proj2 (andb_true_iff _ _)) by lia. Qed.

Lemma as_i32_small x : 0 <= x < 2 ^ 31 -> as_i32 x = x.
Proof. intros H. unfold as_i32. case_ifs; lia. Qed.

Lemma is_offset_true x : -2097152 <= x <= 2097151 -> is_offset x = true.
Proof. unfold is_offset, TIME_OFFSET_MIN, TIME_OFFSET_MAX. lia. Qed.

Ltac game_arith := unfold GAME_TIME_LIMIT, GAME_TIME_MAX, TIME_OFFSET_MIN, TIME_OFFSET_MAX in *; Z.to_euclidean_division_equations; lia.

Lemma add_millis_instant x d : 0 <= d < 2 ^ 32 - GAME_TIME_LIMIT -> add_millis (instant x) d = Ok (instant (x + d)).
Proof.
  intros Hd. pose proof (instant_range x) as Hx. unfold add_millis. rewrite uadd_ok by (unfold GAME_TIME_LIMIT in *; lia). rewrite bind_ok.
  unfold instant. cbn. now rewrite Zplus_mod_idemp_l.
Qed.

Lemma sub_millis_instant x d : 0 <= d -> sub_millis (instant x) d = Ok (instant (x - d)).
Proof.
  intros Hd. unfold sub_millis, instant. cbn [millis].
  destruct (Z.leb_spec (d mod GAME_TIME_LIMIT) (x mod GAME_TIME_LIMIT)).
  - rewrite usub_ok by lia. rewrite bind_ok. do 2 f_equal. game_arith.
  - rewrite usub_ok by lia. rewrite bind_ok. rewrite usub_ok by game_arith. rewrite bind_ok. do 2 f_equal. game_arith.
Qed.

Lemma offset_from_instant x y : TIME_OFFSET_MIN <= y - x <= TIME_OFFSET_MAX -> offset_from (instant x) (instant y) = Ok (y - x).
Proof.
  intros Hd. pose proof (instant_range x) as Hx. pose proof (instant_range y) as Hy. unfold offset_from, instant in *. cbn [millis] in *.
  change GAME_TIME_LIMIT with 4194304 in *. rewrite !as_i32_small by lia.
  assert (exists q, y - x = y mod 4194304 - x mod 4194304 + 4194304 * q) as [q Hq] by (exists (y / 4194304 - x / 4194304); dlia).
  generalize dependent (y mod 4194304). generalize dependent (x mod 4194304). intros a Ha b Hb Hq. rewrite Hq in *.
  unfold TIME_OFFSET_MIN, TIME_OFFSET_MAX in Hd.
  rewrite (i32_ok (b - a)) by lia. rewrite bind_ok. destruct (is_offset (b - a)) eqn:H1.
  { f_equal. unfold is_offset, TIME_OFFSET_MIN, TIME_OFFSET_MAX in H1. lia. }
  unfold is_offset, TIME_OFFSET_MIN, TIME_OFFSET_MAX in H1. case_ifs.
  - rewrite (i32_ok (a + 4194304)) by lia. rewrite bind_ok, i32_ok by lia. rewrite bind_ok. rewrite is_offset_true; [f_equal|]; lia.
  - rewrite (i32_ok (b + 4194304)) by lia. rewrite bind_ok, i32_ok by lia. rewrite bind_ok. rewrite is_offset_true; [f_equal|]; lia.
Qed.

(** The two branches of [time_since]: the clock has passed a multiple of 2^22 or not. *)
Lemma time_since_instant x y : 0 <= y - x < GAME_TIME_LIMIT ->
  time_since (instant y) (instant x) = Ok (mkDuration (if x / GAME_TIME_LIMIT =? y / GAME_TIME_LIMIT then y - x else y - x - 1)).
Proof.
  intros Hd. pose proof (instant_range x) as Hx. pose proof (instant_range y) as Hy. unfold time_since, instant in *. cbn [millis] in *.
  change GAME_TIME_LIMIT with 4194304 in *. destruct (Z.eqb_spec (x mod 4194304) (y mod 4194304)); [|destruct (Z.ltb_spec (x mod 4194304) (y mod 4194304))].
  - do 2 f_equal. case_ifs; dlia.
  - rewrite usub_ok by lia. rewrite bind_ok. do 2 f_equal. case_ifs; dlia.
  - rewrite usub_ok by (unfold GAME_TIME_MAX; dlia). rewrite bind_ok, uadd_ok by (unfold GAME_TIME_MAX; dlia). rewrite bind_ok.
    do 2 f_equal. unfold GAME_TIME_MAX. case_ifs; dlia.
Qed.

(** C38: The 22-bit game clock follows an unbounded one: adding and subtracting milliseconds, the
    signed offset and the order of two instants are those of the clocks (offsets up to half the
    period), nothing panics, and [time_since] is the elapsed time, one millisecond short when the
    period wraps in between. *)
Theorem game_clock_exact x y d : TIME_OFFSET_MIN <= y - x <= TIME_OFFSET_MAX -> - 2 ^ 31 < d < 2 ^ 31 ->
  (0 <= x -> GameInstant_new x = instant x) /\
  add_signed_millis (instant x) d = Ok (instant (x + d)) /\
  offset_from (instant x) (instant y) = Ok (y - x) /\
  is_more_than (instant x) (instant y) = Ok (y <? x) /\
  (x <= y -> time_since (instant y) (instant x)
             = Ok (mkDuration (if x / GAME_TIME_LIMIT =? y / GAME_TIME_LIMIT then y - x else y - x - 1))).
Proof.
  intros Ho Hd. split_and!.
  - intros Hx. unfold GameInstant_new, instant. f_equal. apply wrap_small. pose proof (instant_range x) as H. unfold in_u, instant, GAME_TIME_LIMIT in *. cbn in H |- *. lia.
  - unfold add_signed_millis. destruct (Z.leb_spec 0 d); [apply add_millis_instant; unfold GAME_TIME_LIMIT; lia|].
    rewrite i32_ok by lia. rewrite bind_ok, sub_millis_instant by lia. do 2 f_equal. lia.
  - now apply offset_from_instant.
  - unfold is_more_than. rewrite offset_from_instant by exact Ho. rewrite bind_ok. f_equal. lia.
  - intros Hxy. apply time_since_instant. unfold TIME_OFFSET_MAX, TIME_OFFSET_MIN, GAME_TIME_LIMIT in *. lia.
Qed.

(** Two instants 10 ms apart, 5 ms on either side of the wrap: the elapsed time is given as 9 ms. *)
Lemma game_clock_exact_witness :
  offset_from (instant 4194299) (instant 4194309) = Ok 10 /\ time_since (instant 4194309) (instant 4194299) = Ok (mkDuration 9).
Proof.
  destruct (game_clock_exact 4194299 4194309 10) as (_ & _ & H1 & _ & H2); [unfold TIME_OFFSET_MIN, TIME_OFFSET_MAX; lia|lia|].
  split; [exact H1|apply H2; lia].
Defined.

(** An instant is sent in 22 bits. *)
#[export] Instance game_millis_lawful : Lawful (fixed_newtype_serde GAME_INSANT_BITS 32).
Proof. apply fixed_newtype_lawful; unfold GAME_INSANT_BITS; lia. Defined.
#[export] Instance game_instant_lawful : Lawful game_instant_serde.
Proof. apply (iso_lawful millis mkInstant (fixed_newtype_serde GAME_INSANT_BITS 32) (fun _ => True)). now intros []. Defined.

Lemma game_instant_valid clock : valid game_instant_serde (instant clock).
Proof. split; [exact I|]. exact (instant_range clock). Qed.

(** * Outstanding pings *)
Abbreviation PingIndex := Z.
Definition SENT_PINGS_HISTORY_SIZE : nat := 32.

(** The front of the queue is the head of the list. *)
Record PingStore := mkPings { ping_index : PingIndex; ping_buffer : list (PingIndex * GameInstant) }.
Definition PingStore_new : PingStore := mkPings 0 [].

Definition push_new (now : GameInstant) (self : PingStore) : PingIndex * PingStore :=
  (self.(ping_index), mkPings (wrapping_add16 self.(ping_index) 1)
                              (take SENT_PINGS_HISTORY_SIZE ((self.(ping_index), now) :: self.(ping_buffer)))).

(** The scan from the oldest ping to the newest. *)
Fixpoint ping_scan (vec_index : nat) (index : PingIndex) (buffer : list (PingIndex * GameInstant)) : option (nat * GameInstant) :=
  match vec_index with
  | O => None
  | S vec_index =>
      match buffer !! vec_index with
      | Some (old_index, ping_instant) =>
          if old_index =? index then Some (vec_index, ping_instant)
          else if sequence_greater_than old_index index then None
          else ping_scan vec_index index buffer
      | None => ping_scan vec_index index buffer
      end
  end.

Definition PingStore_remove (index : PingIndex) (self : PingStore) : option GameInstant * PingStore :=
  match ping_scan (length self.(ping_buffer)) index self.(ping_buffer) with
  | Some (vec_index, ping_instant) => (Some ping_instant, mkPings self.(ping_index) (delete vec_index self.(ping_buffer)))
  | None => (None, self)
  end.

Definition PingStore_clear (self : PingStore) : PingStore := mkPings self.(ping_index) [].

(** The specification: pings are numbered without bound; [l] lists the outstanding ones. *)
Abbreviation Outstanding := (list (Z * GameInstant)).
Definition later (x y : Z * GameInstant) : Prop := y.1 < x.1.
Definition low_pings (l : Outstanding) : list (PingIndex * GameInstant) := map (fun x => (wrap 16 x.1, x.2)) l.
Definition answered (c : Z) (l : Outstanding) : option GameInstant * Outstanding :=
  (snd <$> head (filter (fun x => x.1 = c) l), filter (fun x => x.1 <> c) l).

Lemma strongly_sorted_lookup {X} (R : X -> X -> Prop) l i j x y : StronglySorted R l -> l !! i = Some x -> l !! j = Some y -> (i < j)%nat -> R x y.
Proof.
  intros Hs. revert i j. induction Hs as [|z l Hs IH Hz]; intros i j Hi Hj Hij; [discriminate|].
  destruct j as [|j]; [lia|]. destruct i as [|i]; cbn in Hi, Hj.
  - injection Hi as ->. exact (proj1 (Forall_lookup _ _) Hz j y Hj).
  - eapply IH; eauto; lia.
Qed.

Lemma ping_scan_spec c l n : StronglySorted later l -> Forall (fun x => close x.1 c) l -> (n <= length l)%nat ->
  (forall x, x ∈ drop n l -> x.1 < c) ->
  match ping_scan n (wrap 16 c) (low_pings l) with
  | Some (i, t) => l !! i = Some (c, t)
  | None => forall t, (c, t) ∉ l
  end.
Proof.
  intros Hs Hc. induction n as [|n IH]; intros Hn Hd; cbn [ping_scan].
  - intros t Hin. rewrite drop_0 in Hd. specialize (Hd _ Hin). cbn in Hd. lia.
  - destruct (l !! n) as [[k t]|] eqn:Hk; [|apply lookup_ge_None in Hk; lia].
    assert (low_pings l !! n = Some (wrap 16 k, t)) as -> by (unfold low_pings; rewrite list_lookup_fmap, Hk; reflexivity).
    assert (close k c) as Hkc by exact (proj1 (Forall_lookup _ _) Hc n _ Hk).
    rewrite (close_eqb k c Hkc), (seq_gt_close k c Hkc). destruct (Z.eqb_spec k c) as [->|Hne]; [exact Hk|].
    destruct (Z.ltb_spec c k) as [Hlt|Hle].
    + intros t' Hin. apply list_elem_of_lookup in Hin as [j Hj]. destruct (decide (j <= n)%nat).
      * destruct (decide (j = n)) as [->|]; [congruence|].
        assert (later (c, t') (k, t)) as Hl by (eapply (strongly_sorted_lookup later l j n); eauto; lia). unfold later in Hl. cbn in Hl. lia.
      * assert ((c, t') ∈ drop (S n) l) as Hin.
        { apply list_elem_of_lookup. exists (j - S n)%nat. rewrite lookup_drop, <- Hj. f_equal. lia. }
        specialize (Hd _ Hin). cbn in Hd. lia.
    + apply IH; [lia|]. intros x. rewrite (drop_S l _ n Hk). intros [->|Hin]%elem_of_cons; [cbn; lia|auto].
Qed.

Lemma others_differ l1 l2 c t x : StronglySorted later (l1 ++ (c, t) :: l2) -> x ∈ l1 ++ l2 -> x.1 <> c.
Proof.
  intros Hs Hx. apply elem_of_app in Hx as [Hx|Hx]; apply list_elem_of_lookup in Hx as [i Hi]; pose proof (lookup_lt_Some _ _ _ Hi).
  - assert (later x (c, t)) as H1; [|unfold later in H1; cbn in H1; lia].
    eapply (strongly_sorted_lookup later _ i (length l1)); [exact Hs| | |lia]; [now rewrite lookup_app_l|now rewrite list_lookup_middle].
  - assert (later (c, t) x) as H1; [|unfold later in H1; cbn in H1; lia].
    eapply (strongly_sorted_lookup later _ (length l1) (length l1 + S i)%nat); [exact Hs| | |lia]; [now rewrite list_lookup_middle|].
    rewrite lookup_app_r by lia. now replace (length l1 + S i - length l1)%nat with (S i) by lia.
Qed.

Lemma answered_present c t i l : StronglySorted later l -> l !! i = Some (c, t) -> answered c l = (Some t, delete i l).
Proof.
  intros Hs Hi. destruct (list_elem_of_split_length _ _ _ Hi) as (l1 & l2 & -> & ->). rewrite delete_middle. unfold answered.
  pose proof (others_differ l1 l2 c t) as Ho. f_equal.
  - rewrite filter_app, filter_cons_True by reflexivity. rewrite (filter_none (fun x : Z * GameInstant => x.1 = c) l1); [reflexivity|].
    intros x Hx. apply Ho; [exact Hs|]. apply elem_of_app. now left.
  - rewrite filter_app, filter_cons_False by (cbn; auto). rewrite <- filter_app. apply filter_keep. intros x Hx. now apply Ho.
Qed.

Lemma answered_absent c l : (forall t, (c, t) ∉ l) -> answered c l = (None, l).
Proof.
  intros Ha. unfold answered. f_equal.
  - rewrite filter_none; [reflexivity|]. intros [k t] Hx. cbn. intros ->. exact (Ha t Hx).
  - apply filter_keep. intros [k t] Hx. cbn. intros ->. exact (Ha t Hx).
Qed.

(** What happens to a store, and what the application sees: the index of a new ping, or the send
    time a pong is matched with. *)
Inductive ping_event := SendPing (now : GameInstant) | ReceivePong (c : Z) | ClearPings.
Definition run_ping (ev : ping_event) (self : PingStore) : (PingIndex + option GameInstant) * PingStore :=
  match ev with
  | SendPing now => let '(i, self) := push_new now self in (inl i, self)
  | ReceivePong c => let '(t, self) := PingStore_remove (wrap 16 c) self in (inr t, self)
  | ClearPings => (inr None, PingStore_clear self)
  end.
Definition spec_ping (ev : ping_event) (x : Z * Outstanding) : (Z + option GameInstant) * (Z * Outstanding) :=
  let '(n, l) := x in
  match ev with
  | SendPing now => (inl (wrap 16 n), (n + 1, take SENT_PINGS_HISTORY_SIZE ((n, now) :: l)))
  | ReceivePong c => let '(t, l) := answered c l in (inr t, (n, l))
  | ClearPings => (inr None, (n, []))
  end.
Fixpoint run_pings (evs : list ping_event) (self : PingStore) : list (PingIndex + option GameInstant) :=
  match evs with [] => [] | ev :: evs => let '(o, self) := run_ping ev self in o :: run_pings evs self end.
Fixpoint spec_pings (evs : list ping_event) (x : Z * Outstanding) : list (PingIndex + option GameInstant) :=
  match evs with [] => [] | ev :: evs => let '(o, x) := spec_ping ev x in o :: spec_pings evs x end.

(** A pong names a ping at most 32767 away from every outstanding one. *)
Fixpoint prompt (evs : list ping_event) (x : Z * Outstanding) : Prop :=
  match evs with
  | [] => True
  | ev :: evs => match ev with ReceivePong c => Forall (fun y => close y.1 c) x.2 | _ => True end /\ prompt evs (spec_ping ev x).2
  end.

Definition pings_ok (n : Z) (l : Outstanding) : Prop := StronglySorted later l /\ Forall (fun y => y.1 < n) l.

Lemma Forall_sublist {X} (P : X -> Prop) (l k : list X) : sublist l k -> Forall P k -> Forall P l.
Proof. intros Hs. rewrite !Forall_forall. intros Hk x Hx. apply Hk. eapply elem_of_submseteq; [exact Hx|]. now apply sublist_submseteq. Qed.

Lemma StronglySorted_sublist {X} (R : X -> X -> Prop) (l k : list X) : sublist l k -> StronglySorted R k -> StronglySorted R l.
Proof.
  induction 1 as [|x l k Hs IH|x l k Hs IH]; intros Hk; [constructor| |]; apply StronglySorted_inv in Hk as [Hk Hx]; [|auto].
  constructor; [auto|]. eapply Forall_sublist; eauto.
Qed.

Lemma pings_ok_sublist n l k : sublist l k -> pings_ok n k -> pings_ok n l.
Proof. intros Hs [H1 H2]. split; [eapply StronglySorted_sublist; eauto|eapply Forall_sublist; eauto]. Qed.

Lemma run_ping_spec ev n l : pings_ok n l -> match ev with ReceivePong c => Forall (fun y => close y.1 c) l | _ => True end ->
  let '(o, (n', l')) := spec_ping ev (n, l) in
  run_ping ev (mkPings (wrap 16 n) (low_pings l)) = (o, mkPings (wrap 16 n') (low_pings l')) /\ pings_ok n' l'.
Proof.
  intros Hok Hc. destruct ev as [now|c|]; cbn [spec_ping run_ping].
  - unfold push_new. cbn [ping_index ping_buffer]. split.
    + do 2 f_equal; [apply wrap16_add_l|]. exact (firstn_map _ _ ((n, now) :: l)).
    + apply (pings_ok_sublist (n + 1) _ ((n, now) :: l)); [apply sublist_take|]. destruct Hok as [Hs Hn]. split.
      * constructor; [exact Hs|exact Hn].
      * constructor; [cbn; lia|]. eapply Forall_impl; [exact Hn|]. cbn. lia.
  - unfold PingStore_remove. cbn [ping_index ping_buffer]. pose proof (proj1 Hok) as Hs.
    pose proof (ping_scan_spec c l (length l) Hs Hc (le_n _)) as H. unfold low_pings at 1. rewrite length_fmap.
    rewrite drop_all in H. specialize (H ltac:(now intros ? ?%not_elem_of_nil)).
    destruct (ping_scan (length l) (wrap 16 c) (low_pings l)) as [[i t]|].
    + rewrite (answered_present c t i l Hs H). split.
      * do 2 f_equal. exact (eq_sym (list_fmap_delete _ l i)).
      * eapply pings_ok_sublist; [|exact Hok]. apply sublist_delete.
    + rewrite (answered_absent c l H). now split.
  - split; [reflexivity|]. repeat constructor.
Qed.

Lemma run_pings_spec evs n l : pings_ok n l -> prompt evs (n, l) -> run_pings evs (mkPings (wrap 16 n) (low_pings l)) = spec_pings evs (n, l).
Proof.
  revert n l. induction evs as [|ev evs IH]; intros n l Hok Hp; [reflexivity|]. destruct Hp as [Hc Hp]. cbn [run_pings spec_pings].
  pose proof (run_ping_spec ev n l Hok Hc) as H. destruct (spec_ping ev (n, l)) as [o [n' l']]. destruct H as [-> Hok']. now rewrite IH.
Qed.

(** The ping store is a list of the 32 newest outstanding pings: in every history a new ping
    gets the next number modulo 2^16, and a pong is matched with the send time of its ping exactly
    when that ping is still listed, at most once, also across the wrap of the indices. *)
Theorem ping_store_refines evs : prompt evs (0, []) -> run_pings evs PingStore_new = spec_pings evs (0, []).
Proof. apply (run_pings_spec evs 0 []). repeat constructor. Qed.

Lemma ping_store_refines_witness :
  run_pings [SendPing (instant 5); SendPing (instant 9); ReceivePong 0; ReceivePong 0; ReceivePong 1] PingStore_new
  = [inl 0; inl 1; inr (Some (instant 5)); inr None; inr (Some (instant 9))].
Proof.
  rewrite ping_store_refines; [vm_compute; reflexivity|].
  cbn. repeat split; repeat (constructor || (unfold close; cbn; lia)).
Defined.

(** A ping whose answer was lost hides every later one once 32769 more have been sent. *)
Example old_ping_hides_new_ones :
  PingStore_remove 32773 (mkPings 32774 [(32773, instant 9); (4, instant 1)]) = (None, mkPings 32774 [(32773, instant 9); (4, instant 1)]).
Proof. reflexivity. Qed.
