(* ===== verification/Fragments.v ===== *)
(** Fragmentation of large messages:
    src/shared/src/messages/fragment.rs,
    src/shared/src/messages/channels/senders/message_fragmenter.rs and
    src/shared/src/messages/channels/receivers/fragment_receiver.rs.

    [FragmentWriter] is a writer like the others: it keeps the [BitWrite] laws of BitIO,
    so any message that serializes into a packet also serializes into fragments. *)

From Stdlib Require Import ZArith Lia.
From stdpp Require Import base list numbers gmap.
From S2P Require Import Prelude BitIO Number Serde Wire.

Definition FRAGMENTATION_LIMIT_BYTES : Z := 400.
Definition FRAGMENTATION_LIMIT_BITS : Z := FRAGMENTATION_LIMIT_BYTES * 8.

(** * FragmentedMessage *)
Record FragmentedMessage : Type := mkFragment {
  fm_id : Z; fm_index : Z; fm_total : Z; fm_bytes : list Z }.

Definition FragmentedMessage_new (id index : Z) (bytes : list Z) : FragmentedMessage :=
  mkFragment id index 0 bytes.

Definition set_total (total : Z) (f : FragmentedMessage) : FragmentedMessage :=
  mkFragment (fm_id f) (fm_index f) total (fm_bytes f).

(** The derived implementation: the fields in order. *)
Definition fragment_fields (f : FragmentedMessage) : Z * (Z * (Z * list Z)) :=
  (fm_id f, (fm_index f, (fm_total f, fm_bytes f))).
Definition fragment_of_fields (p : Z * (Z * (Z * list Z))) : FragmentedMessage :=
  let '(id, (index, (total, bytes))) := p in mkFragment id index total bytes.

Definition fragment_fields_serde : Serde (Z * (Z * (Z * list Z))) :=
  pair_serde fragment_id_serde
    (pair_serde fragment_index_serde (pair_serde fragment_index_serde bytes_serde)).

Definition fragmented_message_serde : Serde FragmentedMessage :=
  iso_serde fragment_fields fragment_of_fields fragment_fields_serde.

(** * FragmentWriter *)
Record FragmentWriter : Type := mkFragmentWriter {
  fgw_id : Z; current_fragment_index : Z; fragments : list FragmentedMessage;
  current_writer : BitWriter }.

Definition FragmentWriter_new (id : Z) : FragmentWriter :=
  mkFragmentWriter id 0 [] (BitWriter_with_capacity FRAGMENTATION_LIMIT_BITS).

Definition flush_current (f : FragmentWriter) : res FragmentWriter :=
  bytes ← BitWriter_to_bytes (current_writer f);
  next ← FragmentIndex_increment (current_fragment_index f);
  Ok (mkFragmentWriter (fgw_id f) next
        (fragments f ++ [FragmentedMessage_new (fgw_id f) (current_fragment_index f) bytes])
        (BitWriter_with_capacity FRAGMENTATION_LIMIT_BITS)).

Definition FragmentWriter_to_messages (f : FragmentWriter) : res (list FragmentedMessage) :=
  f' ← flush_current f;
  Ok (map (set_total (current_fragment_index f')) (fragments f')).

Definition FragmentWriter_write_bit (bit : bool) (f : FragmentWriter) : res FragmentWriter :=
  free ← BitWriter_bits_free (current_writer f);
  f1 ← (if free =? 0 then flush_current f else Ok f);
  w ← BitWriter_write_bit bit (current_writer f1);
  Ok (mkFragmentWriter (fgw_id f1) (current_fragment_index f1) (fragments f1) w).

Definition FragmentWriter_write_byte (byte : Z) (f : FragmentWriter) : res FragmentWriter :=
  '(_, f') ← foldM (fun (_ : nat) '(temp, f) =>
      f' ← FragmentWriter_write_bit (negb (Z.land temp 1 =? 0)) f;
      Ok (Z.shiftr temp 1, f')) (seq 0 8) (byte, f);
  Ok f'.

#[global] Instance FragmentWriter_BitWrite : BitWrite FragmentWriter := {
  write_bit := FragmentWriter_write_bit; write_byte := FragmentWriter_write_byte }.

(** * MessageFragmenter: its state is the next fragment id *)
Definition fragment_message {M} (sm : Serde M) (current_fragment_id : Z) (message : M)
  : res (list FragmentedMessage * Z) :=
  let fragmenter := FragmentWriter_new current_fragment_id in
  next ← FragmentId_increment current_fragment_id;
  f ← ser sm message fragmenter;
  messages ← FragmentWriter_to_messages f;
  Ok (messages, next).

(** * FragmentReceiver *)
Definition FragmentEntry : Type := Z * option (Z * Z) * list (list Z).

(** [fragment_list[i] = payload], with its bounds check. *)
Definition set_index {A} (l : list A) (i : Z) (x : A) : res (list A) :=
  if i <? Z.of_nat (length l) then Ok (<[Z.to_nat i := x]> l) else Panic.

Definition FragmentReceiver_receive {M} (sm : Serde M) (message_index : Z) (fragment : FragmentedMessage)
    (m : gmap Z FragmentEntry) : res (option (Z * Z * M) * gmap Z FragmentEntry) :=
  let fragment_total := fm_total fragment in
  let '(fragments_received, first_message_id_opt, fragment_list) :=
    match m !! fm_id fragment with
    | Some e => e
    | None => (0, None, replicate (Z.to_nat fragment_total) [])
    end in
  first ← (if fm_index fragment =? 0 then
             match first_message_id_opt with
             | Some _ => Panic
             | None => Ok (Some (message_index, fragment_total))
             end
           else Ok first_message_id_opt);
  fragment_list ← set_index fragment_list (fm_index fragment) (fm_bytes fragment);
  fragments_received ← uadd 32 fragments_received 1;
  if negb (fragments_received =? fragment_total)
  then Ok (None, <[fm_id fragment := (fragments_received, first, fragment_list)]> m)
  else
    let m' := delete (fm_id fragment) m in
    '(first_message_index, fragment_count) ← unwrap first;
    match de sm (BitReader_new (concat fragment_list)) with
    | Ok (full_message, _) =>
        n ← uadd 16 first_message_index (wrap 16 fragment_count);
        end_message_index ← usub n 1;
        Ok (Some (first_message_index, end_message_index, full_message), m')
    | Err => Ok (None, m')
    | Panic => Panic
    | Diverge => Diverge
    end.

(** * The fragment writer as a list of bits *)
Definition fgw_bits (f : FragmentWriter) : list bool :=
  bytes_bits (concat (map fm_bytes (fragments f))) ++ bw_bits (current_writer f).

Record fgw_ok (f : FragmentWriter) : Prop := {
  fo_writer : writer_ok (current_writer f);
  fo_max : bw_max_bits (current_writer f) = 3200;
  fo_cur : bw_current_bits (current_writer f) <= 3200;
  fo_index : current_fragment_index f = Z.of_nat (length (fragments f));
  fo_limit : current_fragment_index f < FRAGMENT_INDEX_LIMIT;
  fo_full : forall k g, fragments f !! k = Some g ->
    fm_id g = fgw_id f /\ fm_index g = Z.of_nat k /\ length (fm_bytes g) = Z.to_nat 400 /\
    Forall is_byte (fm_bytes g);
}.

Lemma fgw_new_ok id : fgw_ok (FragmentWriter_new id).
Proof.
  constructor; cbn [FragmentWriter_new current_writer fragments current_fragment_index]; try done.
  apply writer_new_ok.
Qed.

Lemma length_full_fragments f :
  fgw_ok f -> length (concat (map fm_bytes (fragments f))) = (Z.to_nat 400 * length (fragments f))%nat.
Proof.
  intros Hf. pose proof (fo_full _ Hf) as Hg. generalize (fragments f), Hg. clear. intros l.
  induction l as [|g l IH] using rev_ind; intros H; [cbn; lia|].
  rewrite map_app, concat_app, !length_app. cbn [map concat]. rewrite app_nil_r, IH.
  - destruct (H (length l) g) as (_ & _ & L & _); [now rewrite list_lookup_middle|]. rewrite L. cbn [length]. lia.
  - intros k g' E. apply H. now apply lookup_app_l_Some.
Qed.

Lemma fgw_bits_length f :
  fgw_ok f -> Z.of_nat (length (fgw_bits f)) =
  3200 * current_fragment_index f + bw_current_bits (current_writer f).
Proof.
  intros Hf. unfold fgw_bits. rewrite length_app, length_bytes_bits, length_full_fragments by exact Hf.
  pose proof (writer_ok_length _ (fo_writer _ Hf)). rewrite (fo_index _ Hf). lia.
Qed.

(** Flushing adds one fragment with all the bits of the current writer. *)
Lemma flush_spec f :
  fgw_ok f ->
  if current_fragment_index f + 1 <? FRAGMENT_INDEX_LIMIT then
    exists f' bs pad, flush_current f = Ok f' /\ fgw_id f' = fgw_id f /\
      current_fragment_index f' = current_fragment_index f + 1 /\
      fragments f' = fragments f ++ [mkFragment (fgw_id f) (current_fragment_index f) 0 bs] /\
      current_writer f' = BitWriter_with_capacity FRAGMENTATION_LIMIT_BITS /\
      bytes_bits bs = bw_bits (current_writer f) ++ replicate pad false /\ (pad < 8)%nat /\
      Forall is_byte bs /\ Z.of_nat (length bs) = (bw_current_bits (current_writer f) + 7) / 8
  else flush_current f = Panic.
Proof.
  intros Hf. pose proof (finalize_bytes _ (fo_writer _ Hf)) as F. pose proof (fo_cur _ Hf).
  rewrite (proj2 (Z.leb_le _ _)) in F by lia. destruct F as (bs & pad & T & Hp & Eb & Fb & Lb).
  pose proof (fo_limit _ Hf) as Hl. pose proof (fo_index _ Hf).
  unfold flush_current, FragmentIndex_increment. rewrite T, bind_ok.
  change FRAGMENT_INDEX_LIMIT with 1048576 in *.
  rewrite uadd_ok, bind_ok by lia.
  destruct (Z.ltb_spec (current_fragment_index f + 1) 1048576).
  - rewrite (proj2 (Z.leb_gt _ _)) by lia. rewrite bind_ok.
    eexists _, bs, pad. cbn [fgw_id current_fragment_index fragments current_writer].
    repeat split; try assumption.
  - now rewrite (proj2 (Z.leb_le _ _)) by lia.
Qed.

Lemma flush_full f :
  fgw_ok f -> bw_current_bits (current_writer f) = 3200 ->
  if current_fragment_index f + 1 <? FRAGMENT_INDEX_LIMIT then
    exists f', flush_current f = Ok f' /\ fgw_ok f' /\ fgw_bits f' = fgw_bits f /\ fgw_id f' = fgw_id f /\
      bw_current_bits (current_writer f') = 0
  else flush_current f = Panic.
Proof.
  intros Hf Hc. pose proof (flush_spec f Hf) as P. destruct (Z.ltb_spec (current_fragment_index f + 1) FRAGMENT_INDEX_LIMIT);
    [|exact P].
  destruct P as (f' & bs & pad & E & Ei & En & Eg & Ew & Eb & Hp & Fb & Lb). exists f'.
  assert (length bs = Z.to_nat 400) as L400 by (rewrite Hc in Lb; change ((3200 + 7) / 8) with 400 in Lb; lia).
  assert (pad = 0%nat) as ->.
  { pose proof (f_equal length Eb) as EL. rewrite length_bytes_bits, length_app, length_replicate in EL.
    pose proof (writer_ok_length _ (fo_writer _ Hf)). lia. }
  split; [exact E|]. split; [|split; [|split; [exact Ei|now rewrite Ew]]].
  - constructor; rewrite ?Ew, ?Ei, ?En; try done.
    + apply writer_new_ok.
    + rewrite Eg, length_app, (fo_index _ Hf). cbn [length]. lia.
    + intros k g Eg'. rewrite Eg in Eg'. apply lookup_app_Some in Eg' as [Eg'|[Hk Eg']].
      * now apply (fo_full _ Hf).
      * apply list_lookup_singleton_Some in Eg' as [Hk0 <-]. cbn [fm_id fm_index fm_bytes].
        rewrite (fo_index _ Hf). repeat split; try assumption. lia.
  - unfold fgw_bits. rewrite Eg, Ew, map_app, concat_app, bytes_bits_app. cbn [map concat fm_bytes].
    rewrite (app_nil_r bs), Eb, writer_new_bits. cbn [replicate]. now rewrite !app_nil_r.
Qed.

Lemma fgw_write_bit_spec b f :
  fgw_ok f ->
  (exists f', FragmentWriter_write_bit b f = Ok f' /\ fgw_ok f' /\ fgw_bits f' = fgw_bits f ++ [b] /\
     fgw_id f' = fgw_id f) \/
  (FragmentWriter_write_bit b f = Panic /\
   3200 * (FRAGMENT_INDEX_LIMIT - 1) <= Z.of_nat (length (fgw_bits f)) + 1).
Proof.
  intros Hf. rewrite fgw_bits_length by exact Hf.
  pose proof (fo_writer _ Hf) as Hw. pose proof (fo_cur _ Hf). pose proof (fo_max _ Hf) as Hm.
  unfold FragmentWriter_write_bit, BitWriter_bits_free. rewrite usub_ok, bind_ok by lia.
  assert (forall f0, fgw_ok f0 -> bw_current_bits (current_writer f0) < 3200 ->
    exists f', (w ← BitWriter_write_bit b (current_writer f0);
      Ok (mkFragmentWriter (fgw_id f0) (current_fragment_index f0) (fragments f0) w)) = Ok f' /\
      fgw_ok f' /\ fgw_bits f' = fgw_bits f0 ++ [b] /\ fgw_id f' = fgw_id f0) as G.
  { intros f0 [W0 M0 C0 I0 L0 F0] Hlt. pose proof (write_bit_spec b _ W0) as P.
    rewrite M0, !(proj2 (Z.leb_le _ _)) in P by lia. destruct P as (w' & -> & X). rewrite bind_ok.
    pose proof (extends_current _ _ _ W0 X) as Ec. destruct X as (O & B & M & _).
    eexists. split; [reflexivity|]. split; [|split; [|reflexivity]].
    - constructor; cbn [current_writer fgw_id current_fragment_index fragments]; try assumption; try lia.
      cbn [length] in Ec. lia.
    - unfold fgw_bits. cbn [current_writer fragments]. now rewrite B, app_assoc. }
  destruct (Z.eqb_spec (bw_max_bits (current_writer f) - bw_current_bits (current_writer f)) 0) as [E0|E0].
  - pose proof (flush_full f Hf ltac:(lia)) as P.
    destruct (Z.ltb_spec (current_fragment_index f + 1) FRAGMENT_INDEX_LIMIT) as [Hl|Hl].
    + destruct P as (f1 & -> & O1 & B1 & I1 & C1). rewrite bind_ok. left.
      destruct (G f1 O1 ltac:(lia)) as (f' & -> & O' & B' & I').
      exists f'. rewrite B', B1. split; [reflexivity|]. split; [exact O'|]. split; [reflexivity|congruence].
    + rewrite P. right. split; [reflexivity|]. lia.
  - left. rewrite bind_ok. apply G; [exact Hf|lia].
Qed.

Lemma fgw_write_byte_bits n temp f s :
  foldM (fun (_ : nat) '(temp, f) =>
      f' ← FragmentWriter_write_bit (negb (Z.land temp 1 =? 0)) f;
      Ok (Z.shiftr temp 1, f')) (seq s n) (temp, f) =
  (f' ← write_bits (to_bits n temp) f; Ok (Z.shiftr temp (Z.of_nat n), f')).
Proof.
  revert temp f s. induction n as [|n IH]; intros temp f s; [reflexivity|].
  cbn [seq foldM to_bits]. unfold write_bits. cbn [foldM write_bit FragmentWriter_BitWrite].
  rewrite land_1_odd. destruct (FragmentWriter_write_bit (Z.odd temp) f) as [f1| | |]; try reflexivity.
  rewrite !bind_ok, IH, Z.shiftr_shiftr by lia. unfold write_bits.
  replace (1 + Z.of_nat n) with (Z.of_nat (S n)) by lia.
  now rewrite <- Z.div2_spec, Z.div2_div.
Qed.

#[global] Program Instance FragmentWriter_laws : BitWriteLaws FragmentWriter := { wok := fgw_ok }.
Next Obligation.
  intros b f f' Hf E. change (FragmentWriter_write_bit b f = Ok f') in E.
  destruct (fgw_write_bit_spec b f Hf) as [(f2 & E2 & O & _)|[E2 _]]; congruence.
Qed.
Next Obligation.
  intros b f Hf _. change (FragmentWriter_write_byte b f = write_bits (to_bits 8 b) f).
  unfold FragmentWriter_write_byte. rewrite fgw_write_byte_bits.
  now destruct (write_bits (to_bits 8 b) f).
Qed.

Lemma fgw_write_bits_spec l f :
  fgw_ok f -> Z.of_nat (length (fgw_bits f) + length l) < 3200 * (FRAGMENT_INDEX_LIMIT - 1) ->
  exists f', write_bits l f = Ok f' /\ fgw_ok f' /\ fgw_bits f' = fgw_bits f ++ l /\ fgw_id f' = fgw_id f.
Proof.
  revert f. induction l as [|b l IH]; intros f Hf Hl.
  - exists f. rewrite app_nil_r. auto.
  - unfold write_bits in *. cbn [foldM write_bit FragmentWriter_BitWrite length] in *.
    destruct (fgw_write_bit_spec b f Hf) as [(f1 & -> & O1 & B1 & I1)|[_ Hp]]; [|lia]. rewrite bind_ok.
    destruct (IH f1 O1) as (f' & E & O & B & I); [rewrite B1, length_app; cbn [length]; lia|].
    exists f'. rewrite B, B1, <- app_assoc. split; [exact E|]. split; [exact O|]. split; [reflexivity|congruence].
Qed.

(** What the fragments of a message look like. *)
Record fragments_of (id : Z) (bits : list bool) (fs : list FragmentedMessage) : Prop := {
  fr_count : 3200 * (Z.of_nat (length fs) - 1) <= Z.of_nat (length bits) <= 3200 * Z.of_nat (length fs);
  fr_limit : 1 <= Z.of_nat (length fs) < FRAGMENT_INDEX_LIMIT;
  fr_each : forall k g, fs !! k = Some g ->
    fm_id g = id /\ fm_index g = Z.of_nat k /\ fm_total g = Z.of_nat (length fs) /\
    (length (fm_bytes g) <= Z.to_nat 400)%nat /\ Forall is_byte (fm_bytes g);
  fr_bits : exists pad, (pad < 8)%nat /\
    bytes_bits (concat (map fm_bytes fs)) = bits ++ replicate pad false;
}.

Lemma to_messages_spec f :
  fgw_ok f -> current_fragment_index f + 1 < FRAGMENT_INDEX_LIMIT ->
  exists fs, FragmentWriter_to_messages f = Ok fs /\ fragments_of (fgw_id f) (fgw_bits f) fs.
Proof.
  intros Hf Hl. pose proof (flush_spec f Hf) as P. rewrite (proj2 (Z.ltb_lt _ _)) in P by exact Hl.
  destruct P as (f' & bs & pad & E & Ei & En & Eg & _ & Eb & Hp & Fb & Lb).
  unfold FragmentWriter_to_messages. rewrite E, bind_ok. eexists. split; [reflexivity|].
  pose proof (fgw_bits_length f Hf) as HL. pose proof (fo_cur _ Hf). pose proof (fo_index _ Hf) as HI.
  pose proof (writer_ok_current _ (fo_writer _ Hf)).
  assert (length (map (set_total (current_fragment_index f')) (fragments f')) = S (length (fragments f))) as LF
    by (rewrite length_map, Eg, length_app; cbn [length]; lia).
  constructor; rewrite ?LF.
  - lia.
  - lia.
  - intros k g Hk. rewrite lookup_map, Eg in Hk.
    destruct ((fragments f ++ _) !! k) as [g0|] eqn:Ek; [|discriminate]. injection Hk as <-.
    cbn [set_total fm_id fm_index fm_total fm_bytes]. rewrite ?En.
    apply lookup_app_Some in Ek as [Ek|[Hk Ek]].
    + apply (fo_full _ Hf) in Ek as (? & ? & ? & ?). repeat split; try assumption; lia.
    + apply list_lookup_singleton_Some in Ek as [Hk0 <-]. cbn [fm_id fm_index fm_bytes].
      repeat split; try assumption; try lia. dlia.
  - exists pad. split; [exact Hp|]. rewrite map_map. cbn [set_total fm_bytes].
    rewrite Eg, map_app, concat_app, bytes_bits_app. cbn [map concat fm_bytes].
    rewrite (app_nil_r bs), Eb. unfold fgw_bits. now rewrite app_assoc.
Qed.

Section Reassembly.
Context {M : Type} (sm : Serde M) `{!Lawful sm}.

Definition fragmentable (x : M) : Prop :=
  valid sm x /\ Z.of_nat (length (enc sm x)) < 3200 * (FRAGMENT_INDEX_LIMIT - 1).

Lemma fragment_message_spec id x :
  0 <= id < FRAGMENT_ID_LIMIT -> fragmentable x ->
  exists fs, fragment_message sm id x = Ok (fs, (id + 1) mod FRAGMENT_ID_LIMIT) /\
    fragments_of id (enc sm x) fs.
Proof.
  intros Hid [Hv Hl]. unfold fragment_message, FragmentId_increment.
  change FRAGMENT_ID_LIMIT with 1024 in *. rewrite uadd_ok, bind_ok by lia.
  rewrite (ser_enc FragmentWriter x) by (exact Hv || exact (fgw_new_ok id)).
  destruct (fgw_write_bits_spec (enc sm x) (FragmentWriter_new id) (fgw_new_ok id)) as (f & -> & O & B & I);
    [exact Hl|].
  change (fgw_bits (FragmentWriter_new id) ++ enc sm x) with (enc sm x) in B. cbn [fgw_id FragmentWriter_new] in I.
  pose proof (fgw_bits_length f O) as HL. pose proof (writer_ok_current _ (fo_writer _ O)).
  rewrite !bind_ok. destruct (to_messages_spec f O) as (fs & -> & F); [rewrite B in HL; lia|].
  exists fs. rewrite B, I in F. split; [|exact F]. rewrite bind_ok. do 2 f_equal.
  destruct (Z.leb_spec 1024 (id + 1)).
  - now replace (id + 1) with 1024 by lia.
  - now rewrite Z.mod_small by lia.
Qed.

Lemma reassemble id x fs :
  valid sm x -> fragments_of id (enc sm x) fs ->
  exists r, de sm (BitReader_new (concat (map fm_bytes fs))) = Ok (x, r).
Proof.
  intros Hv [_ _ Fe (pad & _ & Fb)].
  destruct (de_enc x (replicate pad false) (BitReader_new (concat (map fm_bytes fs))) Hv) as (r & R & _).
  - apply reader_new_ok, Forall_concat, Forall_map, Forall_lookup. intros k g Hk. now apply Fe in Hk.
  - exact Fb.
  - eauto.
Qed.

(** ** Fragments of several messages arriving in any order

    A flight is a fragmented message on its way: its fragment id, the index of its
    first fragment and the fragments.  A trace lists arrivals as message number and
    fragment number. *)
Record flight : Type := mkFlight {
  fl_id : Z; fl_first : Z; fl_message : M; fl_fragments : list FragmentedMessage }.

Definition flight_count (fl : flight) : nat := length (fl_fragments fl).

Definition flight_ok (fl : flight) : Prop :=
  0 <= fl_id fl < FRAGMENT_ID_LIMIT /\ fragmentable (fl_message fl) /\
  (exists next, fragment_message sm (fl_id fl) (fl_message fl) = Ok (fl_fragments fl, next)) /\
  0 <= fl_first fl /\ fl_first fl + Z.of_nat (flight_count fl) <= 65535.

Lemma flight_fragments fl :
  flight_ok fl -> fragments_of (fl_id fl) (enc sm (fl_message fl)) (fl_fragments fl).
Proof.
  intros (Hid & Hf & (next & E) & _). destruct (fragment_message_spec _ _ Hid Hf) as (fs & E2 & F).
  rewrite E in E2. injection E2 as -> _. exact F.
Qed.

Definition arrived (tr : list (nat * nat)) (n : nat) (fl : flight) : list nat :=
  filter (fun j => (n, j) ∈ tr) (seq 0 (flight_count fl)).

Definition slots (tr : list (nat * nat)) (n : nat) (fl : flight) : list (list Z) :=
  imap (fun j g => if bool_decide ((n, j) ∈ tr) then fm_bytes g else []) (fl_fragments fl).

(** The entry the receiver keeps for flight [n] after the arrivals [tr]. *)
Definition entry_of (tr : list (nat * nat)) (n : nat) (fl : flight) : option FragmentEntry :=
  if bool_decide (arrived tr n fl = []) || (length (arrived tr n fl) =? flight_count fl)%nat then None
  else Some (Z.of_nat (length (arrived tr n fl)),
             if bool_decide ((n, 0%nat) ∈ tr) then Some (fl_first fl, Z.of_nat (flight_count fl)) else None,
             slots tr n fl).

(** What the receiver answers to the arrival of [(n, j)] after [tr]. *)
Definition answer (tr : list (nat * nat)) (n j : nat) (fl : flight) : option (Z * Z * M) :=
  if (length (arrived (tr ++ [(n, j)]) n fl) =? flight_count fl)%nat
  then Some (fl_first fl, fl_first fl + Z.of_nat (flight_count fl) - 1, fl_message fl) else None.

Lemma filter_grow {A} (P Q : A -> Prop) `{!forall x, Decision (P x), !forall x, Decision (Q x)} (l : list A) a :
  NoDup l -> a ∈ l -> ~ P a -> (forall x, Q x <-> P x \/ x = a) ->
  length (filter Q l) = S (length (filter P l)).
Proof.
  intros Hn Ha HP HQ. induction Hn as [|x l Hx Hn IH]; [now apply elem_of_nil in Ha|].
  rewrite !filter_cons. apply elem_of_cons in Ha as [<- |Ha].
  - rewrite decide_True, decide_False by (try apply HQ; auto). cbn [length]. f_equal. f_equal.
    apply list_filter_ext_in. intros y Hy. rewrite HQ. split; [|auto]. intros [| ->]; [auto|contradiction].
  - specialize (IH Ha). destruct (decide (Q x)) as [Hq|Hq], (decide (P x)) as [Hp|Hp]; cbn [length]; try lia.
    + apply HQ in Hq as [Hq| ->]; contradiction.
    + exfalso. apply Hq, HQ. auto.
Qed.

Lemma arrival_ne (tr : list (nat * nat)) e a :
  a <> e -> bool_decide (a ∈ tr ++ [e]) = bool_decide (a ∈ tr).
Proof.
  intros Hne. apply bool_decide_ext. rewrite elem_of_app, list_elem_of_singleton.
  split; [intros [?|?]; [assumption|contradiction]|auto].
Qed.

Lemma arrived_grow tr n j fl :
  (j < flight_count fl)%nat -> (n, j) ∉ tr ->
  length (arrived (tr ++ [(n, j)]) n fl) = S (length (arrived tr n fl)).
Proof.
  intros Hj Hn. unfold arrived. apply (filter_grow _ _ _ j).
  - apply NoDup_seq.
  - apply elem_of_seq. lia.
  - exact Hn.
  - intros k. rewrite elem_of_app, list_elem_of_singleton. split; [intros [?|[= ->]]; auto|intros [?| ->]; auto].
Qed.

Lemma flight_arrived_other tr n n2 j fl : n2 <> n -> arrived (tr ++ [(n, j)]) n2 fl = arrived tr n2 fl.
Proof.
  intros Hn. apply list_filter_ext_in. intros k _. rewrite elem_of_app, list_elem_of_singleton.
  split; [intros [?|[= -> _]]; [auto|congruence]|auto].
Qed.

Lemma arrived_le tr n fl : (length (arrived tr n fl) <= flight_count fl)%nat.
Proof.
  unfold arrived. etransitivity; [apply length_filter|]. now rewrite length_seq.
Qed.

Lemma slots_grow tr n j g fl :
  fl_fragments fl !! j = Some g -> slots (tr ++ [(n, j)]) n fl = <[j := fm_bytes g]> (slots tr n fl).
Proof.
  intros Hg. apply list_eq. intros k. unfold slots. destruct (decide (k = j)) as [-> |Hk].
  - rewrite list_lookup_insert_eq by (rewrite length_imap; eapply lookup_lt_Some; eassumption).
    rewrite list_lookup_imap, Hg. cbn. f_equal. now rewrite bool_decide_eq_true_2 by set_solver.
  - rewrite list_lookup_insert_ne, !list_lookup_imap by congruence.
    destruct (fl_fragments fl !! k) as [h|]; [|reflexivity]. cbn. f_equal.
    now rewrite arrival_ne by congruence.
Qed.

Lemma slots_other tr n n2 j fl : n2 <> n -> slots (tr ++ [(n, j)]) n2 fl = slots tr n2 fl.
Proof.
  intros Hn. unfold slots. apply imap_ext. intros k g _.
  now rewrite arrival_ne by congruence.
Qed.

Lemma filter_length_all {A} (P : A -> Prop) `{!forall x, Decision (P x)} (l : list A) :
  length (filter P l) = length l -> forall x, x ∈ l -> P x.
Proof.
  induction l as [|a l IH]; intros E x Hx; [now apply elem_of_nil in Hx|].
  rewrite filter_cons in E. pose proof (length_filter P l).
  destruct (decide (P a)); cbn [length] in E; [|lia].
  apply elem_of_cons in Hx as [-> |Hx]; [assumption|]. apply IH; [lia|exact Hx].
Qed.

Lemma all_arrived tr n fl :
  length (arrived tr n fl) = flight_count fl -> forall j, (j < flight_count fl)%nat -> (n, j) ∈ tr.
Proof.
  intros E j Hj. unfold arrived in E. rewrite <- (length_seq (flight_count fl) 0) in E at 2.
  apply (filter_length_all _ _ E). apply elem_of_seq. lia.
Qed.

Lemma slots_complete tr n fl :
  length (arrived tr n fl) = flight_count fl -> slots tr n fl = map fm_bytes (fl_fragments fl).
Proof.
  intros E. apply list_eq. intros k. unfold slots. rewrite list_lookup_imap, lookup_map.
  destruct (fl_fragments fl !! k) as [g|] eqn:Hg; [|reflexivity]. cbn. f_equal.
  rewrite bool_decide_eq_true_2; [reflexivity|]. apply (all_arrived tr n fl E).
  unfold flight_count. eapply lookup_lt_Some; eassumption.
Qed.

Lemma slots_empty tr n fl :
  arrived tr n fl = [] -> slots tr n fl = replicate (flight_count fl) [].
Proof.
  intros E. apply list_eq. intros k. unfold slots. rewrite list_lookup_imap.
  destruct (fl_fragments fl !! k) as [g|] eqn:Hg; cbn.
  - pose proof (lookup_lt_Some _ _ _ Hg) as Hk. rewrite lookup_replicate_2 by exact Hk. f_equal.
    rewrite bool_decide_eq_false_2; [reflexivity|]. intros Hin.
    assert (k ∈ arrived tr n fl) as Ha by (apply list_elem_of_filter; split; [exact Hin|apply elem_of_seq; unfold flight_count; lia]).
    rewrite E in Ha. now apply elem_of_nil in Ha.
  - apply lookup_ge_None in Hg. symmetry. apply lookup_replicate_None. exact Hg.
Qed.

Definition first_of (tr : list (nat * nat)) (n : nat) (fl : flight) : option (Z * Z) :=
  if bool_decide ((n, 0%nat) ∈ tr) then Some (fl_first fl, Z.of_nat (flight_count fl)) else None.

(** The entry before an arrival, present or created on the spot. *)
Lemma entry_before tr n fl g (m : gmap Z FragmentEntry) :
  flight_ok fl -> g ∈ fl_fragments fl -> (length (arrived tr n fl) < flight_count fl)%nat ->
  m !! fl_id fl = entry_of tr n fl ->
  match m !! fm_id g with Some e => e | None => (0, None, replicate (Z.to_nat (fm_total g)) []) end =
  (Z.of_nat (length (arrived tr n fl)), first_of tr n fl, slots tr n fl).
Proof.
  intros Hf Hg Hlt Hm. apply list_elem_of_lookup in Hg as [k Hk].
  destruct (fr_each _ _ _ (flight_fragments fl Hf) k g Hk) as (E1 & _ & E2 & _). rewrite E1, E2.
  unfold FragmentEntry in *. rewrite Hm. unfold entry_of. rewrite (proj2 (Nat.eqb_neq _ _)), orb_false_r by lia.
  case_bool_decide as E; [|reflexivity].
  rewrite (slots_empty tr n fl E), E, Nat2Z.id. unfold first_of.
  rewrite bool_decide_eq_false_2; [reflexivity|]. intros Hin.
  assert (0%nat ∈ arrived tr n fl) as Ha.
  { apply list_elem_of_filter. split; [exact Hin|]. apply elem_of_seq. lia. }
  rewrite E in Ha. now apply elem_of_nil in Ha.
Qed.

Lemma first_grow tr n j g fl :
  flight_ok fl -> fl_fragments fl !! j = Some g -> (n, j) ∉ tr ->
  (if fm_index g =? 0 then
     match first_of tr n fl with
     | Some _ => Panic
     | None => Ok (Some (fl_first fl + Z.of_nat j, fm_total g))
     end
   else Ok (first_of tr n fl)) = Ok (first_of (tr ++ [(n, j)]) n fl).
Proof.
  intros Hf Hg Hn. destruct (fr_each _ _ _ (flight_fragments fl Hf) j g Hg) as (_ & -> & -> & _).
  unfold first_of. destruct (Z.eqb_spec (Z.of_nat j) 0) as [E|E].
  - assert (j = 0%nat) as -> by lia. rewrite bool_decide_eq_false_2 by exact Hn.
    rewrite bool_decide_eq_true_2 by (apply elem_of_app; right; now left).
    unfold flight_count. now rewrite Z.add_0_r.
  - now rewrite arrival_ne by (intros [= ?]; lia).
Qed.

Lemma receive_step tr n j fl g (m : gmap Z FragmentEntry) :
  flight_ok fl -> fl_fragments fl !! j = Some g -> (n, j) ∉ tr -> m !! fl_id fl = entry_of tr n fl ->
  exists m', FragmentReceiver_receive sm (fl_first fl + Z.of_nat j) g m = Ok (answer tr n j fl, m') /\
    m' !! fl_id fl = entry_of (tr ++ [(n, j)]) n fl /\
    (forall id, id <> fl_id fl -> m' !! id = m !! id).
Proof.
  intros Hf Hg Hn Hm. pose proof (lookup_lt_Some _ _ _ Hg) as Hj. fold (flight_count fl) in Hj.
  pose proof (arrived_grow tr n j fl Hj Hn) as Hgr. pose proof (arrived_le (tr ++ [(n, j)]) n fl) as Hle.
  pose proof (flight_fragments fl Hf) as Ffl. pose proof (fr_limit _ _ _ Ffl) as Hlim.
  change FRAGMENT_INDEX_LIMIT with 1048576 in Hlim.
  destruct (fr_each _ _ _ Ffl j g Hg) as (Eid & Eix & Eto & _).
  unfold FragmentReceiver_receive.
  rewrite (entry_before tr n fl g m Hf (list_elem_of_lookup_2 _ _ _ Hg) ltac:(lia) Hm).
  rewrite (first_grow tr n j g fl Hf Hg Hn), bind_ok.
  unfold set_index. rewrite Eix, (proj2 (Z.ltb_lt _ _)) by (unfold slots; rewrite length_imap; unfold flight_count in Hj; lia).
  rewrite bind_ok, Nat2Z.id, <- (slots_grow tr n j g fl Hg), uadd_ok, bind_ok by (unfold flight_count in *; lia).
  rewrite Eid, Eto. fold (flight_count fl). unfold answer, entry_of. rewrite Hgr.
  rewrite bool_decide_eq_false_2 by (intros E; rewrite E in Hgr; discriminate). cbn [orb].
  destruct (Nat.eqb_spec (S (length (arrived tr n fl))) (flight_count fl)) as [Ec|Ec].
  - rewrite (proj2 (Z.eqb_eq _ _)) by lia. cbn [negb].
    unfold first_of. rewrite bool_decide_eq_true_2 by (apply (all_arrived _ n fl); lia).
    cbn [unwrap]. rewrite bind_ok, slots_complete by lia.
    destruct Hf as (_ & [Hv _] & _ & Hfirst & Hlast).
    destruct (reassemble (fl_id fl) (fl_message fl) (fl_fragments fl) Hv Ffl) as (r & ->).
    rewrite wrap_small by (unfold in_u; lia). rewrite uadd_ok, bind_ok by lia.
    rewrite usub_ok, bind_ok by lia. eexists. split; [reflexivity|].
    split; [apply lookup_delete_eq|]. intros id Hne. now apply lookup_delete_ne.
  - rewrite (proj2 (Z.eqb_neq _ _)) by lia. cbn [negb]. eexists. split; [reflexivity|].
    split; [|intros id Hne; now apply lookup_insert_ne]. rewrite lookup_insert_eq.
    do 3 f_equal. lia.
Qed.

(** ** A whole trace *)
Context (ms : list flight) (Hms : Forall flight_ok ms) (Hids : NoDup (map fl_id ms)).

Fixpoint receive_trace (tr : list (nat * nat)) (m : gmap Z FragmentEntry)
  : res (list (option (Z * Z * M)) * gmap Z FragmentEntry) :=
  match tr with
  | [] => Ok ([], m)
  | (n, j) :: tr' =>
      fl ← unwrap (ms !! n);
      g ← unwrap (fl_fragments fl !! j);
      '(o, m1) ← FragmentReceiver_receive sm (fl_first fl + Z.of_nat j) g m;
      '(os, m2) ← receive_trace tr' m1;
      Ok (o :: os, m2)
  end.

(** A message is answered when its last fragment arrives, and only then. *)
Fixpoint answers (before tr : list (nat * nat)) : list (option (Z * Z * M)) :=
  match tr with
  | [] => []
  | (n, j) :: tr' =>
      (fl ← ms !! n; answer before n j fl) :: answers (before ++ [(n, j)]) tr'
  end.

Definition in_trace (e : nat * nat) : Prop :=
  exists fl, ms !! fst e = Some fl /\ (snd e < flight_count fl)%nat.

Lemma receive_trace_spec before tr (m : gmap Z FragmentEntry) :
  (forall n fl, ms !! n = Some fl -> m !! fl_id fl = entry_of before n fl) ->
  NoDup (before ++ tr) -> Forall in_trace tr ->
  exists m', receive_trace tr m = Ok (answers before tr, m') /\
    (forall n fl, ms !! n = Some fl -> m' !! fl_id fl = entry_of (before ++ tr) n fl) /\
    (forall id, id ∉ map fl_id ms -> m' !! id = m !! id).
Proof.
  revert before m. induction tr as [|[n j] tr IH]; intros before m Hm Hnd Hin.
  - exists m. rewrite app_nil_r. auto.
  - apply Forall_cons_1 in Hin as [(fl & Hfl & Hj) Hin]. cbn [fst snd] in *.
    assert (before ++ (n, j) :: tr = (before ++ [(n, j)]) ++ tr) as Eapp by now rewrite <- app_assoc.
    destruct (lookup_lt_is_Some_2 (fl_fragments fl) j Hj) as [g Hg].
    assert (flight_ok fl) as Hf by (eapply Forall_lookup_1; eassumption).
    assert ((n, j) ∉ before) as Hn.
    { intros Hb. apply NoDup_app in Hnd as (_ & Hd & _). apply (Hd _ Hb). now left. }
    destruct (receive_step before n j fl g m Hf Hg Hn (Hm n fl Hfl)) as (m1 & E1 & K1 & F1).
    destruct (IH (before ++ [(n, j)]) m1) as (m2 & E2 & K2 & F2); [|now rewrite <- Eapp|exact Hin|].
    + intros n2 fl2 Hfl2. destruct (decide (n2 = n)) as [->|Hne].
      * assert (fl2 = fl) as -> by congruence. exact K1.
      * rewrite F1.
        -- rewrite (Hm n2 fl2 Hfl2). unfold entry_of. rewrite flight_arrived_other, slots_other by congruence.
           now rewrite arrival_ne by congruence.
        -- intros Eid. apply Hne. eapply NoDup_lookup; [exact Hids|..]; rewrite lookup_map;
             [rewrite Hfl2; cbn; now rewrite Eid|now rewrite Hfl].
    + exists m2. cbn [receive_trace answers]. rewrite Hfl. cbn [unwrap]. rewrite bind_ok, Hg. cbn [unwrap].
      rewrite bind_ok, E1, bind_ok, E2, bind_ok. split; [reflexivity|]. split.
      * intros n2 fl2 Hfl2. rewrite Eapp. auto.
      * intros id Hid. rewrite F2 by exact Hid. apply F1. intros ->. apply Hid.
        apply list_elem_of_lookup. exists n. now rewrite lookup_map, Hfl.
Qed.


Definition result (fl : flight) : Z * Z * M :=
  (fl_first fl, fl_first fl + Z.of_nat (flight_count fl) - 1, fl_message fl).

(** The messages of [l], numbered from [k], all of whose fragments are in [tr]. *)
Fixpoint completed (tr : list (nat * nat)) (k : nat) (l : list flight) : list (Z * Z * M) :=
  match l with
  | [] => []
  | fl :: l' =>
      (if (length (arrived tr k fl) =? flight_count fl)%nat then [result fl] else []) ++
      completed tr (S k) l'
  end.

Lemma completed_other tr n j k l : (n < k)%nat -> completed (tr ++ [(n, j)]) k l = completed tr k l.
Proof.
  revert k. induction l as [|fl l IH]; intros k Hk; [reflexivity|]. cbn [completed].
  now rewrite flight_arrived_other, IH by lia.
Qed.

Lemma completed_step tr n j k l fl :
  (k <= n)%nat -> l !! (n - k)%nat = Some fl -> (j < flight_count fl)%nat -> (n, j) ∉ tr ->
  completed (tr ++ [(n, j)]) k l ≡ₚ option_list (answer tr n j fl) ++ completed tr k l.
Proof.
  intros Hk Hl Hj Hn. revert k Hk Hl. induction l as [|fl2 l IH]; intros k Hk Hl; [discriminate|].
  cbn [completed]. destruct (decide (k = n)) as [->|Hne].
  - rewrite Nat.sub_diag in Hl. injection Hl as ->. rewrite completed_other by lia.
    pose proof (arrived_grow tr n j fl Hj Hn). pose proof (arrived_le (tr ++ [(n, j)]) n fl).
    rewrite (proj2 (Nat.eqb_neq (length (arrived tr n fl)) _)) by lia. unfold answer.
    now destruct (_ =? _)%nat.
  - replace (n - k)%nat with (S (n - S k)) in Hl by lia. cbn in Hl.
    rewrite flight_arrived_other by lia. rewrite (IH (S k)) by (lia || exact Hl).
    rewrite !app_assoc. apply Permutation_app_tail, Permutation_app_comm.
Qed.

Lemma answers_completed before tr :
  NoDup (before ++ tr) -> Forall in_trace tr ->
  completed (before ++ tr) 0 ms ≡ₚ omap id (answers before tr) ++ completed before 0 ms.
Proof.
  revert before. induction tr as [|[n j] tr IH]; intros before Hnd Hin.
  - now rewrite app_nil_r.
  - apply Forall_cons_1 in Hin as [(fl & Hfl & Hj) Hin]. cbn [fst snd] in *.
    assert (before ++ (n, j) :: tr = (before ++ [(n, j)]) ++ tr) as Eapp by now rewrite <- app_assoc.
    assert ((n, j) ∉ before) as Hn.
    { intros Hb. apply NoDup_app in Hnd as (_ & Hd & _). apply (Hd _ Hb). now left. }
    rewrite Eapp in Hnd |- *. rewrite (IH _ Hnd Hin).
    rewrite (completed_step before n j 0 ms fl ltac:(lia)) by (rewrite ?Nat.sub_0_r; assumption).
    cbn [answers]. rewrite Hfl. cbn [mbind option_bind omap].
    destruct (answer before n j fl) as [a|]; cbn [option_list app list_omap id].
    + symmetry. apply Permutation_middle.
    + reflexivity.
Qed.

Lemma completed_all tr k l :
  (forall i fl j, l !! i = Some fl -> (j < flight_count fl)%nat -> ((k + i)%nat, j) ∈ tr) ->
  completed tr k l = map result l.
Proof.
  revert k. induction l as [|fl l IH]; intros k Hall; [reflexivity|]. cbn [completed map].
  rewrite (proj2 (Nat.eqb_eq _ _)).
  - cbn [app]. f_equal. apply IH. intros i fl2 j Hi Hj.
    replace (S k + i)%nat with (k + S i)%nat by lia. now apply (Hall (S i) fl2 j).
  - unfold arrived. rewrite <- (length_seq (flight_count fl) 0) at 2. f_equal.
    apply filter_keep. intros j Hj. apply elem_of_seq in Hj.
    specialize (Hall 0%nat fl j eq_refl ltac:(lia)). now rewrite Nat.add_0_r in Hall.
Qed.

Lemma arrived_nil n fl : arrived [] n fl = [].
Proof.
  unfold arrived. induction (seq 0 (flight_count fl)) as [|x l IH]; [reflexivity|].
  rewrite filter_cons, decide_False; [exact IH|]. apply not_elem_of_nil.
Qed.

Lemma entry_of_nil n fl : entry_of [] n fl = None.
Proof. unfold entry_of. now rewrite arrived_nil. Qed.

Lemma entry_of_all tr n fl :
  (forall j, (j < flight_count fl)%nat -> (n, j) ∈ tr) -> entry_of tr n fl = None.
Proof.
  intros Hall. unfold entry_of, arrived. rewrite filter_keep, length_seq, Nat.eqb_refl.
  - now rewrite orb_true_r.
  - intros j Hj. apply elem_of_seq in Hj. apply Hall. lia.
Qed.

Lemma completed_nil k l : Forall flight_ok l -> completed [] k l = [].
Proof.
  intros Hl. revert k. induction Hl as [|fl l Hf _ IH]; intros k; [reflexivity|]. cbn [completed].
  rewrite arrived_nil, IH. pose proof (fr_limit _ _ _ (flight_fragments fl Hf)) as Hlim.
  unfold flight_count. destruct (fl_fragments fl); [cbn in Hlim; lia|reflexivity].
Qed.
End Reassembly.

#[export] Instance fragment_fields_lawful : Lawful fragment_fields_serde.
Proof. unfold fragment_fields_serde. apply _. Defined.

#[export] Instance fragmented_message_lawful : Lawful fragmented_message_serde :=
  iso_lawful fragment_fields fragment_of_fields fragment_fields_serde (fun _ => True)
    (fun f _ => match f with mkFragment _ _ _ _ => eq_refl end).

Lemma short_length_enc v : 0 <= v < 512 -> length (length_enc 9 v) = 10%nat.
Proof.
  intros Hv. unfold length_enc, num_enc. cbn [num_variable num_signed num_bits inner_value app].
  rewrite Z.abs_eq by lia. change (chunks_enc 129) with (chunks_enc (S 128)). cbn [chunks_enc].
  change (2 ^ Z.of_nat (Z.to_nat 9)) with 512. rewrite (proj2 (Z.leb_gt _ _)) by lia.
  cbn [length]. rewrite app_nil_r, length_to_bits. reflexivity.
Qed.

(** A fragment is a valid message and leaves room for the packet header. *)
Lemma fragment_packet_size id bits fs k g :
  0 <= id < FRAGMENT_ID_LIMIT -> fragments_of id bits fs -> fs !! k = Some g ->
  (length (fm_bytes g) <= Z.to_nat 400)%nat /\ valid fragmented_message_serde g /\
  Z.of_nat (length (enc fragmented_message_serde g)) <= 3260.
Proof.
  intros Hid Hfs Hk. destruct (fr_each _ _ _ Hfs k g Hk) as (Ei & Ex & Et & Hl & Hb).
  pose proof (fr_limit _ _ _ Hfs) as Hlim. pose proof (lookup_lt_Some _ _ _ Hk).
  change FRAGMENT_INDEX_LIMIT with 1048576 in Hlim. change FRAGMENT_ID_LIMIT with 1024 in Hid.
  split; [exact Hl|]. split.
  - split; [exact I|]. cbn [fragment_fields fst snd]. unfold valid at 1. cbn [pair_lawful fst snd].
    split; [change (0 <= fm_id g < 1024); lia|]. split; [change (0 <= fm_index g < 1048576); lia|].
    split; [change (0 <= fm_total g < 1048576); lia|]. split; [change (Z.of_nat (length (fm_bytes g)) <= 2 ^ 63 - 1); lia|exact Hb].
  - change (enc fragmented_message_serde g) with (to_bits 10 (fm_id g) ++ to_bits 20 (fm_index g) ++
      to_bits 20 (fm_total g) ++ length_enc 9 (len (fm_bytes g)) ++ bytes_bits (fm_bytes g)).
    rewrite !length_app, !length_to_bits, length_bytes_bits, short_length_enc; unfold len; lia.
Qed.

(** * Theorems *)

(** C16: Fragmentation is lossless: a message of at most 3200 * (2^20 - 1) bits is
    cut into fragments of at most 400 bytes, numbered from 0 with the right total, each
    of which fits a packet of its own (at most 3260 bits); and when fragments of any
    number of messages, with different 10-bit fragment ids and each with its first message
    index plus its number of fragments at most 65535 (beyond that the receiver can overflow,
    [fragment_receiver_panics]), arrive in any order and any interleaving, each at most
    once, the receiver never panics, answers a message
    exactly when its last fragment arrives, with the indices of its first and last
    fragment, and once everything has arrived every message was answered once and no
    entry is left. *)
Theorem fragments_reassemble {M} (sm : Serde M) `{!Lawful sm} (ms : list flight) (tr : list (nat * nat)) :
  Forall (flight_ok sm) ms -> NoDup (map fl_id ms) -> NoDup tr -> Forall (in_trace ms) tr ->
  (forall fl g, fl ∈ ms -> g ∈ fl_fragments fl ->
     (length (fm_bytes g) <= Z.to_nat 400)%nat /\ valid fragmented_message_serde g /\
     Z.of_nat (length (enc fragmented_message_serde g)) <= 3260) /\
  exists m', receive_trace sm ms tr ∅ = Ok (answers ms [] tr, m') /\
    ((forall n fl j, ms !! n = Some fl -> (j < flight_count fl)%nat -> (n, j) ∈ tr) ->
     m' = ∅ /\ omap id (answers ms [] tr) ≡ₚ map result ms).
Proof.
  intros Hms Hids Hnd Hin. split.
  - intros fl g Hfl Hg. pose proof (proj1 (Forall_forall _ _) Hms fl Hfl) as Hf.
    apply list_elem_of_lookup in Hg as [k Hk]. exact (fragment_packet_size _ _ _ _ _ (proj1 Hf) (flight_fragments sm fl Hf) Hk).
  - destruct (receive_trace_spec sm ms Hms Hids [] tr ∅) as (m' & E & K & F).
    + intros n fl _. now rewrite lookup_empty, entry_of_nil.
    + exact Hnd.
    + exact Hin.
    + exists m'. split; [exact E|]. intros Hall. split.
      * apply map_eq. intros id. rewrite lookup_empty.
        destruct (decide (id ∈ map fl_id ms)) as [Hid|Hid].
        -- apply list_elem_of_lookup in Hid as [n Hn]. rewrite lookup_map in Hn.
           destruct (ms !! n) as [fl|] eqn:Hfl; [|discriminate]. injection Hn as <-.
           rewrite (K n fl Hfl). apply entry_of_all. intros j Hj. now apply (Hall n fl j).
        -- rewrite F by exact Hid. apply lookup_empty.
      * pose proof (answers_completed ms [] tr Hnd Hin) as P. cbn [app] in P.
        rewrite completed_all in P by exact Hall. rewrite P.
        now rewrite (completed_nil sm 0 ms Hms), app_nil_r.
Qed.

(** Two 500-byte messages with fragment ids 7 and 8, fragments interleaved. *)
Definition sample_flight (id first b : Z) : flight :=
  let x := replicate (Z.to_nat 500) b in
  mkFlight id first x
    (match fragment_message bytes_serde id x with Ok (fs, _) => fs | _ => [] end).
Definition sample_flights : list flight := [sample_flight 7 10 1; sample_flight 8 12 2].
Definition sample_trace : list (nat * nat) := [(0, 1); (1, 1); (1, 0); (0, 0)]%nat.

Lemma sample_flight_ok id first b :
  0 <= id < 1024 -> is_byte b -> 0 <= first <= 65530 -> 
  is_ok (fragment_message bytes_serde id (replicate (Z.to_nat 500) b)) = true ->
  flight_count (sample_flight id first b) = 2%nat -> flight_ok bytes_serde (sample_flight id first b).
Proof.
  intros Hid Hb Hf Hk Hc. unfold flight_ok. rewrite Hc. cbn [sample_flight fl_id fl_first fl_message fl_fragments].
  split; [exact Hid|]. split; [|split; [|lia]].
  - split.
    + split; [unfold len; rewrite length_replicate; unfold isize_MAX; lia|now apply Forall_replicate].
    + cbn [enc bytes_lawful]. rewrite length_app, length_bytes_bits, length_replicate.
      pose proof (length_chunks_enc_le 129 9 (Z.abs (len (replicate (Z.to_nat 500) b)))) as L.
      change (length (length_enc 9 (len (replicate (Z.to_nat 500) b))) <= 129 * (9 + 1))%nat in L.
      change (3200 * (FRAGMENT_INDEX_LIMIT - 1)) with 3355440000. lia.
  - destruct (fragment_message bytes_serde id _) as [[fs next]| | |]; try discriminate. eauto.
Qed.

Lemma sample_trace_complete n fl j :
  sample_flights !! n = Some fl -> (j < flight_count fl)%nat -> (n, j) ∈ sample_trace.
Proof.
  assert (flight_count (sample_flight 7 10 1) = 2%nat) as E1 by (vm_compute; reflexivity).
  assert (flight_count (sample_flight 8 12 2) = 2%nat) as E2 by (vm_compute; reflexivity).
  intros Hn Hj. assert ((n < 2)%nat /\ (j < 2)%nat) as [Hn2 Hj2].
  { destruct n as [|[|n]]; [..|discriminate]; injection Hn as <-; lia. }
  apply (bool_decide_unpack _). destruct n as [|[|n]], j as [|[|j]]; try lia; exact I.
Qed.

Lemma fragments_reassemble_witness :
  exists m', receive_trace bytes_serde sample_flights sample_trace ∅ =
      Ok ([None; None; Some (12, 13, replicate (Z.to_nat 500) 2);
           Some (10, 11, replicate (Z.to_nat 500) 1)], m') /\ m' = ∅.
Proof.
  destruct (fragments_reassemble bytes_serde sample_flights sample_trace) as (_ & m' & E & H).
  - apply Forall_cons_2; [|apply Forall_cons_2; [|apply Forall_nil_2]];
      (apply sample_flight_ok; [lia|unfold is_byte; lia|lia|vm_compute; reflexivity|vm_compute; reflexivity]).
  - apply (bool_decide_unpack _). vm_compute. exact I.
  - apply (bool_decide_unpack _). vm_compute. exact I.
  - repeat apply Forall_cons_2; try apply Forall_nil_2; (eexists; split; [reflexivity|vm_compute; lia]).
  - exists m'. split.
    + rewrite E. vm_compute. reflexivity.
    + apply H. exact sample_trace_complete.
Defined.

(** A two-fragment message whose second fragment has index 65535 completes with an
    overflow panic in builds with overflow checks, and so does a fragment whose index is
    not below its total. *)
Example fragment_receiver_panics :
  (exists fs m1,
     fragment_message bytes_serde 0 (replicate (Z.to_nat 500) 1) = Ok (fs, 1) /\ length fs = 2%nat /\
     (exists f0, fs !! 0%nat = Some f0 /\ FragmentReceiver_receive bytes_serde 65534 f0 ∅ = Ok (None, m1)) /\
     (exists f1, fs !! 1%nat = Some f1 /\ FragmentReceiver_receive bytes_serde 65535 f1 m1 = Panic)) /\
  FragmentReceiver_receive bytes_serde 3 (mkFragment 0 2 2 [1]) ∅ = Panic.
Proof.
  split; [|reflexivity]. eexists _, _. split; [vm_compute; reflexivity|]. split; [reflexivity|].
  split; (eexists; split; [reflexivity|vm_compute; reflexivity]).
Qed.
