(* ===== verification/SequenceList.v ===== *)
(** src/shared/src/sequence_list.rs: a list of values keyed by wrapping 16-bit ids,
    kept in sequence order; the packets of entity commands in flight are one.

    The theorem: while the ids in the list and the id asked for stay within half
    the id space of each other, the list is a finite map from unbounded counters. *)

From Stdlib Require Import ZArith Lia Sorted.
From stdpp Require Import base numbers option list sorting gmap.
From S2P Require Import Prelude Wrapping.

Section SequenceList.
Context {T : Type}.

(** [SequenceList { list }] *)
Abbreviation SequenceList := (list (Z * T)).

Definition SequenceList_new : SequenceList := [].

Definition SequenceList_pop_front (l : SequenceList) : res ((Z * T) * SequenceList) :=
  match l with [] => Panic | x :: l' => Ok (x, l') end.

(** The loops that scan from the back: [index] counts down from the length. *)
Fixpoint contains_loop (index : nat) (id : Z) (l : SequenceList) : res bool :=
  match index with
  | O => Ok false
  | S i =>
      '(old_id, _) ← unwrap (l !! i);
      if old_id =? id then Ok true
      else if sequence_less_than old_id id then Ok false
      else contains_loop i id l
  end.

Definition contains_scan_from_back (id : Z) (l : SequenceList) : res bool := contains_loop (length l) id l.

(** [get_mut_scan_from_back] hands out a reference to an item: the model returns its
    position and the item. *)
Fixpoint get_mut_loop (index : nat) (id : Z) (l : SequenceList) : res (option (nat * T)) :=
  match index with
  | O => Ok None
  | S i =>
      '(old_id, item) ← unwrap (l !! i);
      if old_id =? id then Ok (Some (i, item))
      else if sequence_less_than old_id id then Ok None
      else get_mut_loop i id l
  end.

Definition get_mut_scan_from_back (id : Z) (l : SequenceList) : res (option (nat * T)) := get_mut_loop (length l) id l.

(** Writing through that reference. *)
Definition set_item (i : nat) (id : Z) (item : T) (l : SequenceList) : SequenceList := <[i := (id, item)]> l.

Fixpoint insert_loop (index : nat) (id : Z) (item : T) (l : SequenceList) : res SequenceList :=
  match index with
  | O => Ok ((id, item) :: l)
  | S i =>
      '(old_id, _) ← unwrap (l !! i);
      if old_id =? id then Panic
      else if sequence_less_than old_id id then Ok (take (S i) l ++ (id, item) :: drop (S i) l)
      else insert_loop i id item l
  end.

Definition insert_scan_from_back (id : Z) (item : T) (l : SequenceList) : res SequenceList := insert_loop (length l) id item l.

Fixpoint remove_scan_from_front (id : Z) (l : SequenceList) : option (T * SequenceList) :=
  match l with
  | [] => None
  | (old_id, item) :: l' =>
      if old_id =? id then Some (item, l')
      else '(x, l'') ← remove_scan_from_front id l'; Some (x, (old_id, item) :: l'')
  end.

(** * Counters *)
(** The list stands for the counters [m]: in strictly increasing order, any two of
    them close enough for the 16-bit comparison. *)
Definition stored (m : list (Z * T)) : SequenceList := prod_map (wrap 16) id <$> m.

Definition in_window (c : Z) (m : list (Z * T)) : Prop := forall x, x ∈ m.*1 -> close x c.

Record seq_ok (m : list (Z * T)) : Prop := {
  so_sorted : StronglySorted Z.lt m.*1;
  so_close : forall c, c ∈ m.*1 -> in_window c m
}.

Lemma stored_app m1 m2 : stored (m1 ++ m2) = stored m1 ++ stored m2.
Proof. apply fmap_app. Qed.

Lemma stored_length m : length (stored m) = length m.
Proof. apply length_fmap. Qed.

(** Entries behind the scan are newer than the id. *)
Lemma stored_at m1 c v m2 : stored (m1 ++ (c, v) :: m2) !! length m1 = Some (wrap 16 c, v).
Proof. rewrite stored_app, lookup_app_r by (rewrite stored_length; lia). now rewrite stored_length, Nat.sub_diag. Qed.

Lemma split_last (m : list (Z * T)) : m = [] \/ exists m' c v, m = m' ++ [(c, v)].
Proof. destruct m as [|x m] using rev_ind; [now left|]. right. destruct x as [c v]. eauto. Qed.

Lemma sorted_app_inv (l1 l2 : list Z) : StronglySorted Z.lt (l1 ++ l2) ->
  StronglySorted Z.lt l1 /\ StronglySorted Z.lt l2 /\ forall x y, x ∈ l1 -> y ∈ l2 -> x < y.
Proof.
  induction l1 as [|a l1 IH]; cbn; intros Hs.
  - split_and!; [constructor|exact Hs|]. intros x y Hx. inversion Hx.
  - inversion Hs as [|? ? Hs' Hall]; subst. destruct (IH Hs') as (H1 & H2 & H3). rewrite Forall_forall in Hall.
    split_and!; [constructor; [exact H1|]|exact H2|].
    + apply Forall_forall. intros x Hx. apply Hall. apply elem_of_app. now left.
    + intros x y [->|Hx]%elem_of_cons Hy; [apply Hall, elem_of_app; now right|now apply H3].
Qed.

Lemma sorted_app (l1 l2 : list Z) : StronglySorted Z.lt l1 -> StronglySorted Z.lt l2 ->
  (forall x y, x ∈ l1 -> y ∈ l2 -> x < y) -> StronglySorted Z.lt (l1 ++ l2).
Proof.
  induction l1 as [|a l1 IH]; cbn; intros H1 H2 H3; [exact H2|].
  inversion H1 as [|? ? Hs' Hall]; subst. rewrite Forall_forall in Hall. constructor.
  - apply IH; auto. intros x y Hx. apply H3. now right.
  - apply Forall_forall. intros x [Hx|Hx]%elem_of_app; [now apply Hall|]. apply H3; [now left|exact Hx].
Qed.

(** The scans meet the newest entry first. *)
Section Scans.
Context (c : Z).

Lemma scan_end m (x : Z) (v : T) : seq_ok (m ++ [(x, v)]) -> in_window c (m ++ [(x, v)]) ->
  seq_ok m /\ in_window c m /\ (forall y, y ∈ m.*1 -> y < x) /\ close x c.
Proof.
  intros [Hs Hc] Hw. rewrite fmap_app in Hs. destruct (sorted_app_inv _ _ Hs) as (Hs1 & _ & Hlt). split_and!.
  - split; [exact Hs1|]. intros y Hy z Hz. apply (Hc y); rewrite fmap_app; apply elem_of_app; now left.
  - intros y Hy. apply Hw. rewrite fmap_app. apply elem_of_app. now left.
  - intros y Hy. apply Hlt; [exact Hy|]. now left.
  - apply Hw. rewrite fmap_app. apply elem_of_app. right. now left.
Qed.

Lemma contains_loop_ok m1 m2 : seq_ok m1 -> in_window c m1 ->
  contains_loop (length m1) (wrap 16 c) (stored (m1 ++ m2)) = Ok (bool_decide (c ∈ m1.*1)).
Proof.
  revert m2. induction m1 as [|[x v] m1 IH] using rev_ind; intros m2 Hok Hw; [reflexivity|].
  destruct (scan_end _ _ _ Hok Hw) as (Hok1 & Hw1 & Hlt & Hx).
  rewrite length_app, Nat.add_comm. cbn [Nat.add length contains_loop]. rewrite <- app_assoc. cbn [app]. rewrite stored_at. cbn [unwrap mbind].
  rewrite bind_ok, (close_eqb _ _ Hx), (seq_lt_close _ _ Hx), fmap_app. cbn [fmap list_fmap fst].
  destruct (Z.eqb_spec x c) as [->|Hne].
  { f_equal. symmetry. apply bool_decide_eq_true. apply elem_of_app. right. now left. }
  assert (c ∈ m1.*1 ++ [x] <-> c ∈ m1.*1) as Hiff.
  { rewrite elem_of_app. split; [|now left]. intros [H|H]; [exact H|]. apply list_elem_of_singleton in H. now subst. }
  destruct (Z.ltb_spec x c) as [Hl|Hl].
  - f_equal. symmetry. apply bool_decide_eq_false. rewrite Hiff. intros H. specialize (Hlt c H). lia.
  - rewrite IH by assumption. f_equal. now apply bool_decide_ext.
Qed.

Lemma get_mut_loop_ok m1 m2 : seq_ok m1 -> in_window c m1 ->
  exists r, get_mut_loop (length m1) (wrap 16 c) (stored (m1 ++ m2)) = Ok r /\
    match r with
    | Some (i, item) => m1 !! i = Some (c, item)
    | None => (c ∉ m1.*1)
    end.
Proof.
  revert m2. induction m1 as [|[x v] m1 IH] using rev_ind; intros m2 Hok Hw; [exists None; split; [reflexivity|apply not_elem_of_nil]|].
  destruct (scan_end _ _ _ Hok Hw) as (Hok1 & Hw1 & Hlt & Hx).
  rewrite length_app, Nat.add_comm. cbn [Nat.add length get_mut_loop]. rewrite <- app_assoc. cbn [app]. rewrite stored_at. cbn [unwrap].
  rewrite bind_ok, (close_eqb _ _ Hx), (seq_lt_close _ _ Hx).
  destruct (Z.eqb_spec x c) as [->|Hne].
  { eexists. split; [reflexivity|]. cbn. apply list_lookup_middle. reflexivity. }
  assert (c ∉ m1.*1 -> c ∉ (m1 ++ [(x, v)]).*1) as Hnot.
  { intros H. rewrite fmap_app, not_elem_of_app. split; [exact H|]. cbn. now intros ->%list_elem_of_singleton. }
  destruct (Z.ltb_spec x c) as [Hl|Hl].
  - eexists. split; [reflexivity|]. cbn. apply Hnot. intros H. specialize (Hlt c H). lia.
  - destruct (IH ((x, v) :: m2) Hok1 Hw1) as (r & Hr & Hres). exists r. split; [exact Hr|].
    destruct r as [[i item]|]; [now apply lookup_app_l_Some|now apply Hnot].
Qed.

Lemma insert_loop_ok item m1 m2 : seq_ok m1 -> in_window c m1 -> (c ∉ m1.*1) ->
  exists older newer, m1 = older ++ newer /\ (forall y, y ∈ older.*1 -> y < c) /\ (forall y, y ∈ newer.*1 -> c < y) /\
    insert_loop (length m1) (wrap 16 c) item (stored (m1 ++ m2)) = Ok (stored (older ++ (c, item) :: newer ++ m2)).
Proof.
  revert m2. induction m1 as [|[x v] m1 IH] using rev_ind; intros m2 Hok Hw Hnin.
  { exists [], []. split_and!; [reflexivity|..|reflexivity]; intros y Hy; inversion Hy. }
  destruct (scan_end _ _ _ Hok Hw) as (Hok1 & Hw1 & Hlt & Hx).
  rewrite fmap_app, not_elem_of_app in Hnin. destruct Hnin as [Hn1 Hn2]. cbn in Hn2. rewrite list_elem_of_singleton in Hn2.
  rewrite length_app, Nat.add_comm. cbn [Nat.add length insert_loop]. rewrite <- app_assoc. cbn [app]. rewrite stored_at. cbn [unwrap].
  rewrite bind_ok, (close_eqb _ _ Hx), (seq_lt_close _ _ Hx).
  destruct (Z.eqb_spec x c) as [Heq|Hne]; [now subst|]. destruct (Z.ltb_spec x c) as [Hl|Hl].
  - exists (m1 ++ [(x, v)]), []. split_and!; [now rewrite app_nil_r| |intros y Hy; inversion Hy|].
    + rewrite fmap_app. intros y [Hy|Hy]%elem_of_app; [specialize (Hlt y Hy); lia|]. cbn in Hy. apply list_elem_of_singleton in Hy. lia.
    + f_equal. replace (m1 ++ (x, v) :: m2) with ((m1 ++ [(x, v)]) ++ m2) by now rewrite <- app_assoc.
      rewrite !stored_app. rewrite take_app_length', drop_app_length' by (rewrite ?length_app, ?stored_length; cbn; lia). reflexivity.
  - destruct (IH ((x, v) :: m2) Hok1 Hw1 Hn1) as (older & newer & Hm & Ho & Hn & Hr).
    exists older, (newer ++ [(x, v)]). split_and!; [now rewrite Hm, <- app_assoc|exact Ho| |].
    + rewrite fmap_app. intros y [Hy|Hy]%elem_of_app; [now apply Hn|]. cbn in Hy. apply list_elem_of_singleton in Hy. lia.
    + rewrite Hr. now rewrite <- app_assoc.
Qed.

Lemma insert_loop_dup item m1 m2 : seq_ok m1 -> in_window c m1 -> c ∈ m1.*1 ->
  insert_loop (length m1) (wrap 16 c) item (stored (m1 ++ m2)) = Panic.
Proof.
  revert m2. induction m1 as [|[x v] m1 IH] using rev_ind; intros m2 Hok Hw Hin; [inversion Hin|].
  destruct (scan_end _ _ _ Hok Hw) as (Hok1 & Hw1 & Hlt & Hx).
  rewrite length_app, Nat.add_comm. cbn [Nat.add length insert_loop]. rewrite <- app_assoc. cbn [app]. rewrite stored_at. cbn [unwrap].
  rewrite bind_ok, (close_eqb _ _ Hx), (seq_lt_close _ _ Hx).
  destruct (Z.eqb_spec x c) as [Heq|Hne]; [reflexivity|].
  rewrite fmap_app in Hin. apply elem_of_app in Hin as [Hin|Hin]; [|cbn in Hin; apply list_elem_of_singleton in Hin; now subst].
  specialize (Hlt c Hin). rewrite (proj2 (Z.ltb_ge x c)) by lia. now apply IH.
Qed.

Lemma remove_scan_ok m : in_window c m ->
  match remove_scan_from_front (wrap 16 c) (stored m) with
  | Some (item, l) => exists m1 m2, m = m1 ++ (c, item) :: m2 /\ (c ∉ m1.*1) /\ l = stored (m1 ++ m2)
  | None => (c ∉ m.*1)
  end.
Proof.
  induction m as [|[x v] m IH]; intros Hw; [apply not_elem_of_nil|]. cbn [stored fmap list_fmap prod_map remove_scan_from_front fst snd].
  assert (close x c) as Hx by (apply Hw; now left). rewrite (close_eqb _ _ Hx). destruct (Z.eqb_spec x c) as [->|Hne].
  - exists [], m. split_and!; [reflexivity|apply not_elem_of_nil|reflexivity].
  - fold (stored m). specialize (IH (fun y Hy => Hw y (list_elem_of_further _ _ _ Hy))).
    destruct (remove_scan_from_front (wrap 16 c) (stored m)) as [[item l]|]; cbn.
    + destruct IH as (m1 & m2 & -> & Hn & ->). exists ((x, v) :: m1), m2. split_and!; [reflexivity| |reflexivity].
      cbn. rewrite not_elem_of_cons. split; [now intros ->|exact Hn].
    + rewrite not_elem_of_cons. split; [now intros ->|exact IH].
Qed.
End Scans.

(** Keeping the order: the pieces of a list, and a new counter between older and newer ones. *)
Lemma seq_ok_remove m1 x m2 : seq_ok (m1 ++ x :: m2) -> seq_ok (m1 ++ m2).
Proof.
  intros [Hs Hc]. rewrite fmap_app in Hs. cbn in Hs. destruct (sorted_app_inv _ _ Hs) as (H1 & H2 & H3).
  inversion H2 as [|? ? H2' Hall]; subst. split.
  - rewrite fmap_app. apply sorted_app; [exact H1|exact H2'|]. intros y z Hy Hz. apply H3; [exact Hy|now right].
  - assert (forall y, y ∈ (m1 ++ m2).*1 -> y ∈ (m1 ++ x :: m2).*1) as Hsub.
    { intros y. rewrite !fmap_app, !elem_of_app. cbn. rewrite elem_of_cons. tauto. }
    intros y Hy z Hz. apply (Hc y); auto.
Qed.

Lemma seq_ok_insert c (item : T) older newer : seq_ok (older ++ newer) -> in_window c (older ++ newer) ->
  (forall y, y ∈ older.*1 -> y < c) -> (forall y, y ∈ newer.*1 -> c < y) -> seq_ok (older ++ (c, item) :: newer).
Proof.
  intros [Hs Hc] Hw Ho Hn. rewrite fmap_app in Hs. destruct (sorted_app_inv _ _ Hs) as (H1 & H2 & H3). split.
  - rewrite fmap_app. cbn. apply sorted_app; [exact H1| |].
    + constructor; [exact H2|]. apply Forall_forall, Hn.
    + intros y z Hy [->|Hz]%elem_of_cons; [now apply Ho|now apply H3].
  - assert (forall y, y ∈ (older ++ (c, item) :: newer).*1 -> y = c \/ y ∈ (older ++ newer).*1) as Hsub.
    { intros y. rewrite !fmap_app, !elem_of_app. cbn. rewrite elem_of_cons. tauto. }
    intros y [->|Hy]%Hsub z [->|Hz]%Hsub; unfold close in *; [lia|now apply Hw|specialize (Hw y Hy); unfold close in Hw; lia|now apply (Hc y)].
Qed.

(** * The finite map *)
Definition as_map (m : list (Z * T)) : gmap Z T := list_to_map m.

Lemma sorted_nodup (l : list Z) : StronglySorted Z.lt l -> NoDup l.
Proof.
  induction 1 as [|x l _ IH Hall]; constructor; [|exact IH]. rewrite Forall_forall in Hall. intros Hx. specialize (Hall x Hx). lia.
Qed.

Lemma as_map_some m c item : seq_ok m -> as_map m !! c = Some item <-> (c, item) ∈ m.
Proof. intros Hok. symmetry. apply elem_of_list_to_map, sorted_nodup, Hok. Qed.

Lemma as_map_none (m : list (Z * T)) c : as_map m !! c = None <-> c ∉ m.*1.
Proof. split; [apply not_elem_of_list_to_map_2|apply not_elem_of_list_to_map_1]. Qed.

Lemma as_map_split (m1 m2 : list (Z * T)) c item : seq_ok (m1 ++ (c, item) :: m2) -> as_map (m1 ++ (c, item) :: m2) = <[c := item]> (as_map (m1 ++ m2)).
Proof.
  intros Hok. unfold as_map. rewrite (list_to_map_proper _ ((c, item) :: m1 ++ m2)); [reflexivity|apply sorted_nodup, Hok|].
  symmetry. apply Permutation_middle.
Qed.
End SequenceList.

(** A sequence list is a finite map.  While the counters in the list and the
    counter asked for lie within 32767 of each other, also across the wrap of the 16-bit
    ids: the scan for an id finds it exactly when it is there, looking an item up for
    writing gives its position, inserting a new id keeps the order and adds the entry
    (inserting a present one panics), and removing takes out exactly that entry. *)
Theorem sequence_list_is_map {T} (m : list (Z * T)) c item : seq_ok m -> in_window c m ->
  contains_scan_from_back (wrap 16 c) (stored m) = Ok (bool_decide (is_Some (as_map m !! c))) /\
  (exists r, get_mut_scan_from_back (wrap 16 c) (stored m) = Ok r /\ snd <$> r = as_map m !! c /\
     forall i old, r = Some (i, old) -> m !! i = Some (c, old)) /\
  match as_map m !! c with
  | Some _ => insert_scan_from_back (wrap 16 c) item (stored m) = Panic
  | None => exists m', insert_scan_from_back (wrap 16 c) item (stored m) = Ok (stored m') /\ seq_ok m' /\
              as_map m' = <[c := item]> (as_map m)
  end /\
  match remove_scan_from_front (wrap 16 c) (stored m) with
  | Some (old, l) => as_map m !! c = Some old /\ exists m', l = stored m' /\ seq_ok m' /\ as_map m' = delete c (as_map m)
  | None => as_map m !! c = None
  end.
Proof.
  intros Hok Hw. split_and!.
  - unfold contains_scan_from_back. rewrite stored_length. rewrite <- (app_nil_r m) at 2. rewrite contains_loop_ok by assumption.
    f_equal. apply bool_decide_ext. rewrite <- not_eq_None_Some, as_map_none. split; [tauto|]. apply dec_stable.
  - destruct (get_mut_loop_ok c m [] Hok Hw) as (r & Hr & Hres). rewrite app_nil_r in Hr. exists r.
    unfold get_mut_scan_from_back. rewrite stored_length. split; [exact Hr|].
    destruct r as [[i old]|]; cbn; [|split; [symmetry; now apply as_map_none|discriminate]].
    split; [|intros ? ? [= <- <-]; exact Hres]. symmetry. apply as_map_some; [exact Hok|]. now apply list_elem_of_lookup_2 in Hres.
  - unfold insert_scan_from_back. rewrite stored_length. destruct (as_map m !! c) as [old|] eqn:Hc.
    + rewrite <- (app_nil_r m) at 2. apply insert_loop_dup; try assumption. apply as_map_some in Hc; [|exact Hok].
      apply list_elem_of_fmap. now exists (c, old).
    + apply as_map_none in Hc. destruct (insert_loop_ok c item m [] Hok Hw Hc) as (older & newer & -> & Ho & Hn & Hr).
      rewrite app_nil_r in Hr. rewrite app_nil_r in Hr. exists (older ++ (c, item) :: newer).
      pose proof (seq_ok_insert c item older newer Hok Hw Ho Hn) as Hok'. split_and!; [exact Hr|exact Hok'|now apply as_map_split].
  - pose proof (remove_scan_ok c m Hw) as Hr. destruct (remove_scan_from_front (wrap 16 c) (stored m)) as [[old l]|]; [|now apply as_map_none].
    destruct Hr as (m1 & m2 & -> & Hn & ->). rewrite as_map_split by exact Hok. rewrite lookup_insert_eq. split; [reflexivity|].
    exists (m1 ++ m2). split_and!; [reflexivity|now apply seq_ok_remove in Hok|]. rewrite delete_insert_id; [reflexivity|].
    apply as_map_none. apply so_sorted in Hok. rewrite fmap_app in Hok. apply sorted_nodup in Hok. cbn in Hok.
    rewrite fmap_app, not_elem_of_app. split; [exact Hn|]. apply NoDup_app in Hok as (_ & _ & Hok). now apply NoDup_cons in Hok as [? _].
Qed.

(** Packets 65534, 65535 and 0 in flight. *)
Definition sample_packets : list (Z * Z) := [(65534, 10); (65535, 11); (65536, 12)].

Lemma sequence_list_is_map_witness :
  contains_scan_from_back 65535 (stored sample_packets) = Ok true /\
  insert_scan_from_back 1 13 (stored sample_packets) = Ok [(65534, 10); (65535, 11); (0, 12); (1, 13)] /\
  exists m', insert_scan_from_back (wrap 16 65537) 13 (stored sample_packets) = Ok (stored m') /\ seq_ok m' /\
    as_map m' = <[65537 := 13]> (as_map sample_packets).
Proof.
  assert (seq_ok sample_packets) as Hok.
  { split; [repeat (constructor; try lia)|]. intros c Hc x Hx. unfold close. cbn in Hc, Hx.
    rewrite !elem_of_cons, elem_of_nil in Hc, Hx. lia. }
  split; [vm_compute; reflexivity|]. split; [vm_compute; reflexivity|].
  destruct (sequence_list_is_map sample_packets 65537 13 Hok) as (_ & _ & H & _).
  - intros x Hx. unfold close. cbn in Hx. rewrite !elem_of_cons, elem_of_nil in Hx. lia.
  - exact H.
Defined.
