(* ===== verification/SequenceBuffer.v ===== *)
(** The sliding window of received packets: src/shared/src/connection/sequence_buffer.rs.

    A [SequenceBuffer] remembers which of the last [size] 16-bit sequence numbers were
    inserted.  The theorems relate it to the unbounded sequence counters: what it says
    it has was inserted, in the current turn of the 16-bit counter, and away from the
    wrap-around it has everything of the window that was inserted. *)

From Stdlib Require Import ZArith Lia.
From stdpp Require Import base list numbers.
From S2P Require Import Prelude Wrapping.

Section SequenceBuffer.
Context {T : Type}.

Record SequenceBuffer : Type := mkSequenceBuffer {
  sequence_num : Z;
  entry_sequences : list (option Z);
  entries : list (option T) }.

Definition SequenceBuffer_with_capacity (size : Z) : SequenceBuffer :=
  mkSequenceBuffer 0 (replicate (Z.to_nat size) None) (replicate (Z.to_nat size) None).

Definition sb_len (b : SequenceBuffer) : Z := Z.of_nat (length (entry_sequences b)).

(** [sequence as usize % self.entry_sequences.len()]; a buffer of size zero, on which
    this panics, is never created. *)
Definition SequenceBuffer_index (b : SequenceBuffer) (sequence : Z) : nat :=
  Z.to_nat (sequence mod sb_len b).

Definition SequenceBuffer_exists (b : SequenceBuffer) (sequence : Z) : bool :=
  match entry_sequences b !! SequenceBuffer_index b sequence with
  | Some (Some s) => s =? sequence
  | _ => false
  end.

Definition SequenceBuffer_remove (sequence : Z) (b : SequenceBuffer) : option T * SequenceBuffer :=
  if SequenceBuffer_exists b sequence then
    let index := SequenceBuffer_index b sequence in
    (mjoin (entries b !! index),
     mkSequenceBuffer (sequence_num b) (<[index:=None]> (entry_sequences b)) (<[index:=None]> (entries b)))
  else (None, b).

(** [for sequence in start..=finish { self.remove(sequence as u16); }], [n] rounds. *)
Fixpoint remove_range (n : nat) (start : Z) (b : SequenceBuffer) : SequenceBuffer :=
  match n with
  | O => b
  | S n' => remove_range n' (start + 1) (snd (SequenceBuffer_remove (wrap 16 start) b))
  end.

Definition SequenceBuffer_remove_entries (finish_sequence : Z) (b : SequenceBuffer) : SequenceBuffer :=
  let start_sequence := sequence_num b in
  let finish_sequence :=
    if finish_sequence <? start_sequence then finish_sequence + 65536 else finish_sequence in
  if finish_sequence - start_sequence <? sb_len b
  then remove_range (Z.to_nat (finish_sequence - start_sequence + 1)) start_sequence b
  else mkSequenceBuffer (sequence_num b)
         (replicate (length (entry_sequences b)) None) (replicate (length (entries b)) None).

Definition SequenceBuffer_advance_sequence (sequence : Z) (b : SequenceBuffer) : SequenceBuffer :=
  if sequence_greater_than (wrapping_add16 sequence 1) (sequence_num b) then
    let b' := SequenceBuffer_remove_entries sequence b in
    mkSequenceBuffer (wrapping_add16 sequence 1) (entry_sequences b') (entries b')
  else b.

Definition SequenceBuffer_insert (sequence : Z) (entry : T) (b : SequenceBuffer) : bool * SequenceBuffer :=
  if sequence_less_than sequence (wrapping_sub16 (sequence_num b) (wrap 16 (sb_len b)))
  then (false, b)
  else
    let b := SequenceBuffer_advance_sequence sequence b in
    let index := SequenceBuffer_index b sequence in
    (true, mkSequenceBuffer (sequence_num b)
             (<[index:=Some sequence]> (entry_sequences b)) (<[index:=Some entry]> (entries b))).

(** * Invariant

    [hi] is the newest counter inserted so far ([-1] at first) and [seen] the counters
    that were inserted.  Every occupied slot holds the 16-bit value of a counter that was
    seen and is less than one turn behind [hi]. *)
Record sb_inv (size : Z) (seen : Z -> Prop) (hi : Z) (b : SequenceBuffer) : Prop := {
  sbi_len : sb_len b = size;
  sbi_entries : length (entries b) = length (entry_sequences b);
  sbi_num : sequence_num b = wrap 16 (hi + 1);
  sbi_slot : forall k s, entry_sequences b !! k = Some (Some s) ->
    exists x, seen x /\ s = wrap 16 x /\ hi - 65536 < x <= hi /\ k = Z.to_nat (s mod size);
}.

(** Removal only empties slots, and it empties the slot that holds the number. *)
Lemma remove_slots sequence b :
  let b' := snd (SequenceBuffer_remove sequence b) in
  length (entry_sequences b') = length (entry_sequences b) /\
  length (entries b') = length (entries b) /\
  sequence_num b' = sequence_num b /\
  (forall k s, entry_sequences b' !! k = Some (Some s) -> entry_sequences b !! k = Some (Some s)) /\
  (forall k, entry_sequences b' !! k = Some (Some sequence) -> k <> Z.to_nat (sequence mod sb_len b)) /\
  (forall k s, entry_sequences b !! k = Some (Some s) -> s <> sequence ->
     entry_sequences b' !! k = Some (Some s)).
Proof.
  cbv zeta. unfold SequenceBuffer_remove, SequenceBuffer_exists.
  destruct (entry_sequences b !! SequenceBuffer_index b sequence) as [[s|]|] eqn:E.
  - destruct (Z.eqb_spec s sequence) as [->|Hn]; cbn [snd sequence_num entry_sequences entries].
    + rewrite !length_insert. do 3 (split; [reflexivity|]). split; [|split].
      * intros k s [(_ & [=] & _)|[_ Hk]]%list_lookup_insert_Some. exact Hk.
      * intros k Hk ->. fold (SequenceBuffer_index b sequence) in Hk.
        apply list_lookup_insert_Some in Hk as [(_ & [=] & _)|[Hn _]]. now apply Hn.
      * intros k s Hk Hs. rewrite list_lookup_insert_ne; [exact Hk|]. intros <-. congruence.
    + do 3 (split; [reflexivity|]). split; [auto|]. split; [|auto].
      intros k Hk ->. fold (SequenceBuffer_index b sequence) in Hk. congruence.
  - cbn [snd]. do 3 (split; [reflexivity|]). split; [auto|]. split; [|auto].
    intros k Hk ->. fold (SequenceBuffer_index b sequence) in Hk. congruence.
  - cbn [snd]. do 3 (split; [reflexivity|]). split; [auto|]. split; [|auto].
    intros k Hk ->. fold (SequenceBuffer_index b sequence) in Hk. congruence.
Qed.

Lemma remove_range_slots n start b :
  let b' := remove_range n start b in
  length (entry_sequences b') = length (entry_sequences b) /\
  length (entries b') = length (entries b) /\
  sequence_num b' = sequence_num b /\
  (forall k s, entry_sequences b' !! k = Some (Some s) -> entry_sequences b !! k = Some (Some s)) /\
  (forall j, start <= j < start + Z.of_nat n ->
     entry_sequences b' !! Z.to_nat (wrap 16 j mod sb_len b) <> Some (Some (wrap 16 j))) /\
  (forall k s, entry_sequences b !! k = Some (Some s) ->
     (forall j, start <= j < start + Z.of_nat n -> s <> wrap 16 j) ->
     entry_sequences b' !! k = Some (Some s)).
Proof.
  revert start b. induction n as [|n IH]; intros start b; cbn [remove_range].
  - do 3 (split; [reflexivity|]). split; [auto|]. split; [lia|auto].
  - destruct (remove_slots (wrap 16 start) b) as (L1 & L2 & N & S1 & S2 & S3).
    set (b1 := snd (SequenceBuffer_remove (wrap 16 start) b)) in *.
    destruct (IH (start + 1) b1) as (L1' & L2' & N' & S1' & S2' & S3').
    assert (sb_len b1 = sb_len b) as Eb by (unfold sb_len; now rewrite L1).
    rewrite Eb in S2'. split; [congruence|]. split; [congruence|]. split; [congruence|].
    split; [auto|]. split.
    + intros j Hj. destruct (decide (j = start)) as [->|Hjs]; [|apply S2'; lia].
      intros Hk. apply S1' in Hk. exact (S2 _ Hk eq_refl).
    + intros k s Hk Hs. apply S3'; [apply S3; [exact Hk|]|]; [apply Hs; lia|intros j Hj; apply Hs; lia].
Qed.

Context (size : Z) (Hsize : 0 < size <= 32767).

Lemma sb_inv_new (seen : Z -> Prop) : sb_inv size seen (-1) (SequenceBuffer_with_capacity size).
Proof.
  constructor; simpl.
  - unfold sb_len; simpl. rewrite length_replicate. lia.
  - now rewrite !length_replicate.
  - reflexivity.
  - intros k s H. apply lookup_replicate in H as [H _]. discriminate.
Qed.

Lemma sb_inv_mono (seen seen' : Z -> Prop) hi b :
  (forall x, seen x -> seen' x) -> sb_inv size seen hi b -> sb_inv size seen' hi b.
Proof.
  intros H [L E N S]. constructor; try assumption.
  intros k s Hk. destruct (S k s Hk) as (x & Hx & R). exists x. auto.
Qed.

(** Moving the newest counter from [hi] to [x] drops what is a whole turn behind. *)
Lemma advance_inv seen hi x b :
  sb_inv size seen hi b -> close (x + 1) (hi + 1) -> 
  sb_inv size seen (Z.max hi x) (SequenceBuffer_advance_sequence (wrap 16 x) b).
Proof.
  intros [L E N S] Hc. unfold SequenceBuffer_advance_sequence. rewrite wrapping_add16_wrap, N.
  rewrite seq_gt_close by exact Hc. unfold close in Hc.
  destruct (Z.ltb_spec (hi + 1) (x + 1)) as [Hx|Hx].
  2: { rewrite Z.max_l by lia. constructor; assumption. }
  rewrite Z.max_r by lia. unfold SequenceBuffer_remove_entries. rewrite N, L.
  assert (exists d, (if wrap 16 x <? wrap 16 (hi + 1) then wrap 16 x + 65536 else wrap 16 x) =
    wrap 16 (hi + 1) + d /\ d = x - (hi + 1)) as (d & -> & Hd).
  { eexists; split; [|reflexivity]. unfold wrap. change (2 ^ 16) with 65536.
    destruct (Z.ltb_spec (x mod 65536) ((hi + 1) mod 65536)); dlia. }
  replace (wrap 16 (hi + 1) + d - wrap 16 (hi + 1)) with d by lia.
  destruct (Z.ltb_spec d size) as [Hs|Hs].
  - destruct (remove_range_slots (Z.to_nat (d + 1)) (wrap 16 (hi + 1)) b) as (L1 & L2 & _ & S1 & S2 & _).
    constructor; cbn [sequence_num entry_sequences entries].
    + unfold sb_len in *; cbn [entry_sequences]. now rewrite L1.
    + congruence.
    + reflexivity.
    + intros k s Hk. destruct (S k s (S1 k s Hk)) as (y & Hy & -> & Ry & Ek).
      exists y. split; [exact Hy|]. split; [reflexivity|]. split; [|exact Ek].
      split; [|lia]. destruct (Z.lt_ge_cases (x - 65536) y) as [|Hlow]; [assumption|exfalso].
      apply (S2 (wrap 16 (hi + 1) + (y + 65536 - (hi + 1)))); [lia|].
      rewrite wrap16_add_l. replace (hi + 1 + (y + 65536 - (hi + 1))) with (y + 1 * 65536) by lia.
      replace (wrap 16 (y + 1 * 65536)) with (wrap 16 y) by (symmetry; apply (Z.mod_add y 1 65536); lia).
      rewrite L, <- Ek. exact Hk.
  - constructor; cbn [sequence_num entry_sequences entries].
    + unfold sb_len in *; cbn [entry_sequences]. now rewrite length_replicate.
    + now rewrite !length_replicate.
    + reflexivity.
    + intros k s Hk. apply lookup_replicate in Hk as [Hk _]. discriminate.
Qed.

Lemma insert_inv (seen : Z -> Prop) hi x e b :
  sb_inv size seen hi b -> close (x + 1) (hi + 1) -> close x (hi + 1 - size) -> seen x ->
  let r := SequenceBuffer_insert (wrap 16 x) e b in
  fst r = (hi + 1 - size <=? x) /\ sb_inv size seen (if fst r then Z.max hi x else hi) (snd r).
Proof.
  intros I Hc Hc2 Hx. unfold SequenceBuffer_insert.
  rewrite (sbi_len _ _ _ _ I), (sbi_num _ _ _ _ I).
  rewrite (wrap_small 16 size) by (unfold in_u; lia). rewrite wrapping_sub16_wrap.
  rewrite seq_lt_close by exact Hc2.
  destruct (Z.ltb_spec x (hi + 1 - size)); cbn [fst snd].
  - split; [symmetry; apply Z.leb_gt; lia|exact I].
  - split; [symmetry; apply Z.leb_le; lia|].
    destruct (advance_inv seen hi x b I Hc) as [L E N S].
    set (b1 := SequenceBuffer_advance_sequence (wrap 16 x) b) in *.
    constructor; cbn [sequence_num entry_sequences entries].
    + unfold sb_len in *; cbn [entry_sequences]. now rewrite length_insert.
    + rewrite !length_insert. exact E.
    + exact N.
    + intros k s Hk. apply list_lookup_insert_Some in Hk as [(<- & [= <-] & _)|[_ Hk]].
      * exists x. unfold SequenceBuffer_index. rewrite L.
        unfold close in *. split; [exact Hx|]. split; [reflexivity|]. split; [lia|reflexivity].
      * apply S. exact Hk.
Qed.

Lemma exists_sound seen hi x b :
  sb_inv size seen hi b -> hi - 65536 < x <= hi ->
  SequenceBuffer_exists b (wrap 16 x) = true -> seen x.
Proof.
  intros [L E N S] Hx. unfold SequenceBuffer_exists.
  destruct (entry_sequences b !! _) as [[s|]|] eqn:Ek; try discriminate.
  intros ->%Z.eqb_eq. destruct (S _ _ Ek) as (y & Hy & Ew & Ry & _).
  apply wrap16_inj in Ew; [congruence|lia].
Qed.

(** ** Completeness

    [held b x]: the slot of [x] holds [x].  [shadowed seen hi x]: some other recent
    counter lies in a different turn of the 16-bit counter, so that it may use the slot
    of [x] although it is less than [size] away. *)
Definition held (b : SequenceBuffer) (x : Z) : Prop :=
  entry_sequences b !! Z.to_nat (wrap 16 x mod size) = Some (Some (wrap 16 x)).

Definition shadowed (seen : Z -> Prop) (hi x : Z) : Prop :=
  exists y, seen y /\ y <= hi /\ Z.abs (x - y) < size /\ y / 65536 <> x / 65536.

Definition sb_complete (seen : Z -> Prop) (hi : Z) (b : SequenceBuffer) : Prop :=
  (forall x, seen x -> x <= hi) /\
  (forall x, seen x -> hi - size < x -> held b x \/ shadowed seen hi x).

Lemma slot_lt x : (Z.to_nat (wrap 16 x mod size) < Z.to_nat size)%nat.
Proof. pose proof (Z.mod_pos_bound (wrap 16 x) size). lia. Qed.

Lemma same_slot x y :
  Z.to_nat (wrap 16 x mod size) = Z.to_nat (wrap 16 y mod size) ->
  Z.abs (x - y) < size -> x / 65536 = y / 65536 -> x = y.
Proof.
  intros E Ha Ht.
  pose proof (Z.mod_pos_bound (wrap 16 x) size ltac:(lia)).
  pose proof (Z.mod_pos_bound (wrap 16 y) size ltac:(lia)).
  assert (wrap 16 x mod size = wrap 16 y mod size) as E' by lia. clear E.
  assert (wrap 16 x - wrap 16 y = x - y) as Ed.
  { unfold wrap. change (2 ^ 16) with 65536. clear - Ht. dlia. }
  pose proof (Z.div_mod (wrap 16 x) size ltac:(lia)) as D1.
  pose proof (Z.div_mod (wrap 16 y) size ltac:(lia)) as D2.
  set (a := wrap 16 x / size) in *. set (c := wrap 16 y / size) in *.
  assert (x - y = size * (a - c)) by (rewrite Z.mul_sub_distr_l; lia). clear D1 D2.
  assert (a - c = 0) by nia. nia.
Qed.

Lemma advance_held seen hi x y b :
  sb_inv size seen hi b -> close (x + 1) (hi + 1) ->
  y <= hi -> Z.max hi x - size < y -> held b y ->
  held (SequenceBuffer_advance_sequence (wrap 16 x) b) y.
Proof.
  intros [L E N S] Hc Hy Hw Hh. unfold SequenceBuffer_advance_sequence. rewrite wrapping_add16_wrap, N.
  rewrite seq_gt_close by exact Hc. unfold close in Hc.
  destruct (Z.ltb_spec (hi + 1) (x + 1)) as [Hx|Hx]; [|exact Hh].
  unfold SequenceBuffer_remove_entries. rewrite N, L.
  assert ((if wrap 16 x <? wrap 16 (hi + 1) then wrap 16 x + 65536 else wrap 16 x) - wrap 16 (hi + 1)
    = x - (hi + 1)) as ->.
  { unfold wrap. change (2 ^ 16) with 65536.
    destruct (Z.ltb_spec (x mod 65536) ((hi + 1) mod 65536)); dlia. }
  rewrite (proj2 (Z.ltb_lt _ _)) by lia. unfold held; cbn [entry_sequences].
  apply remove_range_slots; [exact Hh|]. intros j Hj Ew.
  assert (wrap 16 y = wrap 16 (hi + 1 + (j - wrap 16 (hi + 1)))) as Ew'.
  { rewrite Ew. rewrite <- (wrap16_add_l (hi + 1)). f_equal. lia. }
  apply wrap16_inj in Ew'; lia.
Qed.

Lemma insert_complete seen hi x e b :
  sb_inv size seen hi b -> sb_complete seen hi b ->
  close (x + 1) (hi + 1) -> close x (hi + 1 - size) ->
  let r := SequenceBuffer_insert (wrap 16 x) e b in
  sb_complete (fun y => y = x \/ seen y) (Z.max hi x) (snd r).
Proof.
  intros I [Cs Cw] Hc Hc2. unfold SequenceBuffer_insert.
  rewrite (sbi_len _ _ _ _ I), (sbi_num _ _ _ _ I).
  rewrite (wrap_small 16 size) by (unfold in_u; lia). rewrite wrapping_sub16_wrap.
  rewrite seq_lt_close by exact Hc2.
  split; [intros y [->|Hy]; [lia|apply Cs in Hy; lia]|].
  intros y Hy Hw. destruct (Z.ltb_spec x (hi + 1 - size)) as [Hx|Hx]; cbn [snd].
  - destruct Hy as [->|Hy]; [lia|]. rewrite Z.max_l in * by lia.
    destruct (Cw y Hy ltac:(lia)) as [?|(z & ? & ?)]; [now left|]. right. exists z. tauto.
  - pose proof (sbi_len _ _ _ _ (advance_inv seen hi x b I Hc)) as L.
    set (b1 := SequenceBuffer_advance_sequence (wrap 16 x) b) in *.
    unfold held; cbn [entry_sequences]. unfold SequenceBuffer_index. rewrite L.
    pose proof (slot_lt x). unfold sb_len in L.
    destruct (decide (y = x)) as [->|Hyx]; [left; apply list_lookup_insert_eq; lia|].
    destruct Hy as [->|Hy]; [congruence|]. pose proof (Cs y Hy).
    destruct (Cw y Hy ltac:(lia)) as [Hh|(z & ? & ? & ?)]; [|right; exists z; split; [tauto|split; [lia|tauto]]].
    destruct (decide (x / 65536 = y / 65536)) as [Et|Et]; [left|right].
    + rewrite list_lookup_insert_ne; [now apply (advance_held seen hi)|].
      intros Es. apply Hyx. symmetry. apply same_slot; [exact Es|lia|exact Et].
    + exists x. split; [now left|]. split; [lia|]. split; [lia|exact Et].
Qed.

Lemma held_exists seen hi b x :
  sb_inv size seen hi b -> held b x -> SequenceBuffer_exists b (wrap 16 x) = true.
Proof.
  intros [L _ _ _] Hh. unfold SequenceBuffer_exists, SequenceBuffer_index. rewrite L.
  unfold held in Hh. rewrite Hh. apply Z.eqb_refl.
Qed.

Lemma not_shadowed seen hi x :
  hi - size < x <= hi -> 2 * size <= hi mod 65536 -> ~ shadowed seen hi x.
Proof. intros Hx Hh (y & _ & Hy & Ha & Ht). apply Ht. dlia. Qed.

(** ** Runs of insertions *)
Definition insert_all (xs : list (Z * T)) (b : SequenceBuffer) : SequenceBuffer :=
  fold_left (fun b p => snd (SequenceBuffer_insert (wrap 16 (fst p)) (snd p) b)) xs b.

(** Each counter is at most 16383 away from the newest one before it. *)
Fixpoint near_run (hi : Z) (xs : list (Z * T)) : Prop :=
  match xs with
  | [] => True
  | p :: xs' => Z.abs (fst p - hi) <= 16383 /\ near_run (Z.max hi (fst p)) xs'
  end.

Definition newest (hi : Z) (xs : list (Z * T)) : Z := fold_left (fun h p => Z.max h (fst p)) xs hi.

Lemma insert_all_inv (seen : Z -> Prop) hi xs b :
  size <= 16383 -> sb_inv size seen hi b -> sb_complete seen hi b -> near_run hi xs ->
  sb_inv size (fun x => x ∈ (xs.*1) \/ seen x) (newest hi xs) (insert_all xs b) /\
  sb_complete (fun x => x ∈ (xs.*1) \/ seen x) (newest hi xs) (insert_all xs b).
Proof.
  intros Hs. revert seen hi b. induction xs as [|[x e] xs IH]; intros seen hi b I C N.
  - simpl. assert (forall x, seen x -> x ∈ (@nil Z) \/ seen x) as M by auto. split.
    + eapply sb_inv_mono; [exact M|exact I].
    + destruct C as [C1 C2]. split.
      * intros x [[]%elem_of_nil|Hx]. auto.
      * intros x [[]%elem_of_nil|Hx] Hw. destruct (C2 x Hx Hw) as [?|(y & ? & ?)]; [now left|].
        right. exists y. auto.
  - destruct N as [Hn N]; cbn [fst] in *.
    assert (close (x + 1) (hi + 1) /\ close x (hi + 1 - size)) as [Hc1 Hc2] by (unfold close; lia).
    set (seen' := fun y => y = x \/ seen y).
    assert (sb_inv size seen' hi b) as I' by (eapply sb_inv_mono; [|exact I]; unfold seen'; auto).
    destruct (insert_inv seen' hi x e b I' Hc1 Hc2 ltac:(now left)) as [F I2].
    pose proof (insert_complete seen hi x e b I C Hc1 Hc2) as C2. cbv zeta in C2.
    assert (sb_inv size seen' (Z.max hi x) (snd (SequenceBuffer_insert (wrap 16 x) e b))) as I3.
    { destruct (fst (SequenceBuffer_insert (wrap 16 x) e b)); [exact I2|].
      symmetry in F. apply Z.leb_gt in F. now rewrite Z.max_l by lia. }
    destruct (IH seen' (Z.max hi x) _ I3 C2 N) as [I4 C4].
    assert (forall y, (y ∈ xs.*1 \/ seen' y) <-> (y ∈ ((x, e) :: xs).*1 \/ seen y)) as Eq
      by (intros y; unfold seen'; rewrite fmap_cons, elem_of_cons; simpl; tauto).
    split.
    + eapply sb_inv_mono; [|exact I4]. intros y. apply Eq.
    + destruct C4 as [C5 C6]. split; [intros y Hy%Eq; auto|].
      intros y Hy%Eq Hw. destruct (C6 y Hy Hw) as [?|(z & Hz & ?)]; [now left|].
      right. exists z. split; [now apply Eq|assumption].
Qed.

End SequenceBuffer.
Arguments SequenceBuffer T : clear implicits.

(** After any run of insertions into a new buffer in which no counter is more
    than 16383 away from the newest one before it, for every counter [x] of the last
    [size] ones: if [exists] says yes then [x] itself, and not an earlier counter with
    the same 16 bits, was inserted; and when the newest counter is at least [2 * size]
    past a multiple of 65536, [exists] says yes exactly for the inserted ones. *)
Theorem sequence_buffer_window {T} (size : Z) (xs : list (Z * T)) (x : Z) :
  0 < size <= 16383 -> near_run (-1) xs ->
  let hi := newest (-1) xs in
  let b := insert_all xs (SequenceBuffer_with_capacity size) in
  hi - size < x <= hi ->
  (SequenceBuffer_exists b (wrap 16 x) = true -> x ∈ xs.*1) /\
  (2 * size <= hi mod 65536 -> SequenceBuffer_exists b (wrap 16 x) = true <-> x ∈ xs.*1).
Proof.
  intros Hs N hi b Hx.
  destruct (insert_all_inv size ltac:(lia) (fun _ => False) (-1) xs (SequenceBuffer_with_capacity size))
    as [I C]; [lia|apply sb_inv_new; lia| |exact N|].
  { split; intros ? []. }
  fold hi b in I, C.
  assert (SequenceBuffer_exists b (wrap 16 x) = true -> x ∈ xs.*1) as Snd.
  { intros E. destruct (exists_sound size _ hi x b I ltac:(lia) E) as [|[]]; assumption. }
  split; [exact Snd|]. intros Hh. split; [exact Snd|]. intros Hin.
  destruct C as [_ C]. destruct (C x ltac:(now left) ltac:(lia)) as [H|H].
  - eapply held_exists; eauto.
  - exfalso. eapply not_shadowed; eauto.
Qed.

Definition unit_run (xs : list Z) : list (Z * unit) := map (fun x => (x, tt)) xs.

Lemma sequence_buffer_window_witness :
  near_run (-1) (unit_run [0; 1; 3; 4; 70; 69; 100]) /\
  (SequenceBuffer_exists (insert_all (unit_run [0; 1; 3; 4; 70; 69; 100]) (SequenceBuffer_with_capacity 33))
     (wrap 16 69) = true <-> 69 ∈ (unit_run [0; 1; 3; 4; 70; 69; 100]).*1).
Proof.
  assert (Hn : near_run (-1) (unit_run [0; 1; 3; 4; 70; 69; 100]))
    by (vm_compute; repeat split; discriminate).
  split; [exact Hn|].
  apply (sequence_buffer_window 33 (unit_run [0; 1; 3; 4; 70; 69; 100]) 69);
    [lia|exact Hn|vm_compute; split; [reflexivity|discriminate]|vm_compute; discriminate].
Defined.

Definition counters_from (a : Z) (n : nat) : list Z := map (fun i => a + Z.of_nat i) (seq 0 n).

(** With the window of 33 packets the connection uses, the 16-bit wrap-around
    loses entries: 33 does not divide 65536, so numbers on the two sides of the wrap share
    slots.  After receiving every packet from 65500 to 65555, the two oldest of the last
    33 are reported as never received. *)
Theorem sequence_buffer_wrap_gap :
  let xs := unit_run ([16000; 32000; 48000; 64000] ++ counters_from 65500 56) in
  near_run (-1) xs /\ newest (-1) xs = 65555 /\
  filter (fun x => SequenceBuffer_exists (insert_all xs (SequenceBuffer_with_capacity 33)) (wrap 16 x) = false)
    (counters_from 65523 33) = [65523; 65524].
Proof. vm_compute. repeat split; discriminate. Qed.
