(* ===== verification/AckManager.v ===== *)
(** Packet acknowledgement: src/shared/src/connection/loss_monitor.rs and
    ack_manager.rs.

    [LossMonitor] is a ring of the last 64 outcomes.  [AckManager] numbers outgoing
    packets, remembers which are unresolved, and tells its listeners which were
    delivered, from the ack index and the 32-bit ack field of incoming headers.  The
    notifications of [process_incoming_header] to its [PacketNotifiable]s are returned
    as the list of packet indices, in order. *)

From Stdlib Require Import ZArith Lia.
From stdpp Require Import base list numbers gmap.
From S2P Require Import Prelude Wrapping BitIO Number Serde Wire SequenceBuffer.

(** * LossMonitor *)
Definition WINDOW : Z := 64.

Record LossMonitor : Type := mkLossMonitor {
  outcomes : list bool; write_pos : Z; total : Z; acked_count : Z }.

Definition LossMonitor_new : LossMonitor :=
  mkLossMonitor (replicate (Z.to_nat WINDOW) false) 0 0 0.

Definition LossMonitor_record (acked : bool) (m : LossMonitor) : res LossMonitor :=
  '(total', acked_count') ←
    (if total m =? WINDOW then
       oldest ← unwrap (outcomes m !! Z.to_nat (write_pos m));
       if (oldest : bool) then n ← usub (acked_count m) 1; Ok (total m, n)
       else Ok (total m, acked_count m)
     else Ok (total m + 1, acked_count m));
  _ ← unwrap (outcomes m !! Z.to_nat (write_pos m));
  Ok (mkLossMonitor (<[Z.to_nat (write_pos m):=acked]> (outcomes m))
        ((write_pos m + 1) mod WINDOW) total'
        (if acked then acked_count' + 1 else acked_count')).

Definition LossMonitor_record_acked (m : LossMonitor) : res LossMonitor := LossMonitor_record true m.
Definition LossMonitor_record_lost (m : LossMonitor) : res LossMonitor := LossMonitor_record false m.

(** [packet_loss_pct] is [1.0 - acked_count / total] as an [f32]; this is the exact
    ratio, lost packets over resolved ones ([0/1] when nothing is resolved). *)
Definition LossMonitor_loss_ratio (m : LossMonitor) : Z * Z :=
  if total m =? 0 then (0, 1) else (total m - acked_count m, total m).

(** * AckManager *)
Definition REDUNDANT_PACKET_ACKS_SIZE : Z := 32.

Record AckManager : Type := mkAckManager {
  next_packet_index : PacketIndex;
  last_recv_packet_index : PacketIndex;
  sent_packets : gmap PacketIndex PacketType;
  received_packets : SequenceBuffer unit;
  am_should_send_empty_ack : bool;
  loss_monitor : LossMonitor }.

Definition AckManager_new : AckManager :=
  mkAckManager 0 u16_MAX ∅ (SequenceBuffer_with_capacity (REDUNDANT_PACKET_ACKS_SIZE + 1))
    false LossMonitor_new.

Definition set_empty_ack (b : bool) (m : AckManager) : AckManager :=
  mkAckManager (next_packet_index m) (last_recv_packet_index m) (sent_packets m)
    (received_packets m) b (loss_monitor m).
Definition AckManager_mark_should_send_empty_ack := set_empty_ack true.
Definition AckManager_clear_should_send_empty_ack := set_empty_ack false.
Definition AckManager_take_should_send_empty_ack (m : AckManager) : bool * AckManager :=
  (am_should_send_empty_ack m, set_empty_ack false m).

(** One sent packet is resolved: [acked] or lost.  Data packets feed the loss monitor,
    and acknowledged data packets are notified. *)
Definition resolve_packet (index : PacketIndex) (acked : bool)
    (s : gmap PacketIndex PacketType * LossMonitor * list PacketIndex)
  : res (gmap PacketIndex PacketType * LossMonitor * list PacketIndex) :=
  let '(sent, lm, notified) := s in
  match sent !! index with
  | None => Ok s
  | Some t =>
      if bool_decide (t = Data) then
        if acked then
          lm' ← LossMonitor_record_acked lm; Ok (delete index sent, lm', notified ++ [index])
        else
          lm' ← LossMonitor_record_lost lm; Ok (delete index sent, lm', notified)
      else Ok (delete index sent, lm, notified)
  end.

(** [for i in 1..=32], with [sender_ack_bitfield >>= 1] at the end of each round. *)
Definition resolve_bits (ack_index bitfield : Z)
    (s : gmap PacketIndex PacketType * LossMonitor * list PacketIndex)
  : res (gmap PacketIndex PacketType * LossMonitor * list PacketIndex) :=
  '(s', _) ← foldM (fun i '(s, field) =>
      s' ← resolve_packet (wrapping_sub16 ack_index i) (Z.land field 1 =? 1) s;
      Ok (s', Z.shiftr field 1))
    (map Z.of_nat (seq 1 32)) (s, bitfield);
  Ok s'.

Definition AckManager_process_incoming_header (header : StandardHeader) (m : AckManager)
  : res (AckManager * list PacketIndex) :=
  let received := snd (SequenceBuffer_insert (sender_packet_index header) tt (received_packets m)) in
  let last := if sequence_greater_than (sender_packet_index header) (last_recv_packet_index m)
              then sender_packet_index header else last_recv_packet_index m in
  s1 ← resolve_packet (sender_ack_index header) true (sent_packets m, loss_monitor m, []);
  '(sent, lm, notified) ← resolve_bits (sender_ack_index header) (sender_ack_bitfield header) s1;
  Ok (mkAckManager (next_packet_index m) last sent received (am_should_send_empty_ack m) lm, notified).

(** [if exists { ack_bitfield |= mask }; mask <<= 1] for [i] in [1..=32]. *)
Definition AckManager_ack_bitfield (m : AckManager) : Z :=
  fst (fold_left (fun '(field, mask) i =>
      (if SequenceBuffer_exists (received_packets m) (wrapping_sub16 (last_recv_packet_index m) i)
       then Z.lor field mask else field, wrap 32 (Z.shiftl mask 1)))
    (map Z.of_nat (seq 1 32)) (0, 1)).

Definition AckManager_next_outgoing_packet_header (t : PacketType) (m : AckManager)
  : StandardHeader * AckManager :=
  (mkStandardHeader t (next_packet_index m) (last_recv_packet_index m) (AckManager_ack_bitfield m),
   mkAckManager (wrapping_add16 (next_packet_index m) 1) (last_recv_packet_index m)
     (<[next_packet_index m:=t]> (sent_packets m))
     (received_packets m) (am_should_send_empty_ack m) (loss_monitor m)).

(** * The loss monitor is the last 64 outcomes *)
Definition count_true (l : list bool) : Z := Z.of_nat (length (filter (fun b => b = true) l)).
Definition last_n {A} (n : nat) (l : list A) : list A := drop (length l - n) l.

Record loss_repr (h : list bool) (m : LossMonitor) : Prop := {
  lr_len : length (outcomes m) = 64%nat;
  lr_pos : write_pos m = Z.of_nat (length h) mod 64;
  lr_total : total m = Z.of_nat (length h) `min` 64;
  lr_ring : forall j, (length h - 64 <= j < length h)%nat ->
    outcomes m !! Z.to_nat (Z.of_nat j mod 64) = h !! j;
  lr_acked : acked_count m = count_true (last_n 64 h);
}.

Lemma count_true_app l1 l2 : count_true (l1 ++ l2) = count_true l1 + count_true l2.
Proof. unfold count_true. rewrite filter_app, length_app. lia. Qed.

Lemma count_true_one (b : bool) : count_true [b] = Z.b2z b.
Proof. now destruct b. Qed.

Lemma count_true_cons b l : count_true (b :: l) = Z.b2z b + count_true l.
Proof. rewrite <- (count_true_one b), <- count_true_app. reflexivity. Qed.

Lemma last_n_snoc (h : list bool) b :
  last_n 64 (h ++ [b]) =
  (if decide (length h < 64)%nat then last_n 64 h else drop 1 (last_n 64 h)) ++ [b].
Proof.
  unfold last_n. rewrite length_app; simpl. case_decide.
  - replace (length h + 1 - 64)%nat with 0%nat by lia. replace (length h - 64)%nat with 0%nat by lia.
    reflexivity.
  - rewrite drop_drop, drop_app_le by lia. do 2 f_equal. lia.
Qed.

Lemma loss_repr_new : loss_repr [] LossMonitor_new.
Proof. constructor; try reflexivity. simpl. lia. Qed.

Lemma loss_record h m b :
  loss_repr h m -> exists m', LossMonitor_record b m = Ok m' /\ loss_repr (h ++ [b]) m'.
Proof.
  intros [L P T R A]. unfold LossMonitor_record, WINDOW.
  assert (0 <= write_pos m < 64) as Hp by (rewrite P; apply Z.mod_pos_bound; lia).
  destruct (lookup_lt_is_Some_2 (outcomes m) (Z.to_nat (write_pos m))) as [o Ho]; [lia|]. rewrite Ho. cbn [unwrap].
  assert (forall t' a', t' = (Z.of_nat (length h) + 1) `min` 64 ->
    a' = count_true (if decide (length h < 64)%nat then last_n 64 h else drop 1 (last_n 64 h)) ->
    loss_repr (h ++ [b]) (mkLossMonitor (<[Z.to_nat (write_pos m):=b]> (outcomes m))
      ((write_pos m + 1) mod 64) t' (if b then a' + 1 else a'))) as G.
  { intros t' a' -> ->. constructor; cbn [outcomes write_pos total acked_count].
    - now rewrite length_insert.
    - rewrite P, length_app; simpl. dlia.
    - rewrite length_app; simpl. lia.
    - intros j. rewrite length_app; simpl. intros Hj. destruct (decide (j = length h)) as [->|Hn].
      + rewrite <- P, list_lookup_insert_eq by lia. rewrite lookup_app_r, Nat.sub_diag by lia. reflexivity.
      + rewrite lookup_app_l by lia. rewrite list_lookup_insert_ne; [apply R; lia|]. rewrite P. dlia.
    - rewrite last_n_snoc, count_true_app, count_true_one. destruct b; simpl Z.b2z; lia. }
  destruct (Z.eqb_spec (total m) 64) as [E|E].
  - assert (last_n 64 h = o :: drop 1 (last_n 64 h)) as El.
    { unfold last_n. rewrite drop_drop, (drop_S h o (length h - 64)).
      - do 2 f_equal. lia.
      - rewrite <- Ho, P, <- R by lia. f_equal. dlia. }
    assert (count_true (last_n 64 h) = Z.b2z o + count_true (drop 1 (last_n 64 h))) as Ec
      by (rewrite El at 1; apply count_true_cons).
    assert (0 <= count_true (drop 1 (last_n 64 h))) by (unfold count_true; lia).
    rewrite bind_ok. destruct o.
    + rewrite usub_ok, !bind_ok by (simpl in *; lia). eexists; split; [reflexivity|].
      apply G; [lia|]. rewrite decide_False by lia. rewrite A, Ec. simpl. lia.
    + rewrite !bind_ok. eexists; split; [reflexivity|].
      apply G; [lia|]. rewrite decide_False by lia. rewrite A, Ec. simpl. lia.
  - rewrite !bind_ok. eexists; split; [reflexivity|]. apply G; [lia|].
    rewrite decide_True by lia. exact A.
Qed.

Definition loss_ok (m : LossMonitor) : Prop := exists h, loss_repr h m.

Lemma loss_record_ok m b : loss_ok m -> exists m', LossMonitor_record b m = Ok m' /\ loss_ok m'.
Proof. intros [h H]. destruct (loss_record h m b H) as (m' & E & H'). exists m'. split; [exact E|]. now exists (h ++ [b]). Qed.

(** The loss monitor is exact: after any sequence of recorded outcomes, none of
    which panics, it counts the last 64 of them (or all, while there are fewer), so the
    reported ratio is the number of lost packets among them over their number. *)
Theorem loss_monitor_window (h : list bool) :
  exists m, foldM LossMonitor_record h LossMonitor_new = Ok m /\
    total m = Z.of_nat (length (last_n 64 h)) /\
    acked_count m = count_true (last_n 64 h) /\
    LossMonitor_loss_ratio m =
      if decide (h = []) then (0, 1)
      else (count_true (map negb (last_n 64 h)), Z.of_nat (length (last_n 64 h))).
Proof.
  assert (exists m, foldM LossMonitor_record h LossMonitor_new = Ok m /\ loss_repr h m) as (m & E & [L P T R A]).
  { induction h as [|b h IH] using rev_ind; [exists LossMonitor_new; split; [reflexivity|apply loss_repr_new]|].
    destruct IH as (m & E & H). destruct (loss_record h m b H) as (m' & E' & H').
    exists m'. rewrite foldM_app, E. cbn [foldM]. rewrite bind_ok, E'. auto. }
  assert (total m = Z.of_nat (length (last_n 64 h))) as Et
    by (unfold last_n; rewrite length_drop, T; lia).
  exists m. split; [exact E|]. split; [exact Et|]. split; [exact A|].
  unfold LossMonitor_loss_ratio. destruct (decide (h = [])) as [->|Hn].
  - rewrite (proj2 (Z.eqb_eq (total m) 0)); [reflexivity|]. rewrite T. reflexivity.
  - assert (length h <> 0)%nat by (destruct h; [congruence|discriminate]).
    rewrite (proj2 (Z.eqb_neq (total m) 0)) by lia. rewrite A, Et. f_equal.
    generalize (last_n 64 h); intros l.
    induction l as [|b l IH]; [reflexivity|]. cbn [map length]. rewrite !count_true_cons, <- IH.
    destruct b; cbn [negb Z.b2z]; lia.
Qed.

(** * Processing a header *)
Definition ack_state : Type := gmap PacketIndex PacketType * LossMonitor * list PacketIndex.

Lemma resolve_packet_spec index acked sent lm notified :
  loss_ok lm ->
  exists lm', loss_ok lm' /\
    resolve_packet index acked (sent, lm, notified) =
    Ok (delete index sent, lm',
        notified ++ (if acked && bool_decide (sent !! index = Some Data) then [index] else [])).
Proof.
  intros H. unfold resolve_packet. destruct (sent !! index) as [t|] eqn:E.
  - destruct (loss_record_ok lm acked H) as (lm' & Er & H').
    destruct t; cbn [bool_decide]; try (exists lm; split; [exact H|];
      rewrite !bool_decide_false, andb_false_r, app_nil_r by congruence; reflexivity).
    rewrite bool_decide_true by reflexivity. rewrite bool_decide_true by reflexivity.
    exists lm'. split; [exact H'|]. unfold LossMonitor_record_acked, LossMonitor_record_lost.
    destruct acked; rewrite Er, bind_ok; cbn [andb]; rewrite ?app_nil_r; reflexivity.
  - exists lm. split; [exact H|]. rewrite bool_decide_false, andb_false_r, app_nil_r by congruence.
    rewrite delete_id by exact E. reflexivity.
Qed.

(** The packets a header resolves, with what it says of them: the ack index, then the
    32 indices before it with the bits of the field. *)
Definition ack_bits (ack_index bitfield : Z) : list (PacketIndex * bool) :=
  map (fun i => (wrapping_sub16 ack_index (Z.of_nat i), Z.testbit bitfield (Z.of_nat i - 1))) (seq 1 32).
Definition ack_list (h : StandardHeader) : list (PacketIndex * bool) :=
  (sender_ack_index h, true) :: ack_bits (sender_ack_index h) (sender_ack_bitfield h).

Definition resolve_all (l : list (PacketIndex * bool)) (s : ack_state) : res ack_state :=
  foldM (fun p => resolve_packet (fst p) (snd p)) l s.

Lemma resolve_bits_all ack field s :
  0 <= field -> resolve_bits ack field s = resolve_all (ack_bits ack field) s.
Proof.
  intros Hf. unfold resolve_bits, resolve_all, ack_bits.
  assert (forall n a s, (0 < a)%nat ->
    foldM (fun i '(s, field) =>
      s' ← resolve_packet (wrapping_sub16 ack i) (Z.land field 1 =? 1) s; Ok (s', Z.shiftr field 1))
      (map Z.of_nat (seq a n)) (s, Z.shiftr field (Z.of_nat a - 1)) =
    (s' ← foldM (fun p => resolve_packet (fst p) (snd p))
       (map (fun i => (wrapping_sub16 ack (Z.of_nat i), Z.testbit field (Z.of_nat i - 1))) (seq a n)) s;
     Ok (s', Z.shiftr field (Z.of_nat (a + n) - 1)))) as G.
  { clear s. induction n as [|n IH]; intros a s Ha.
    - simpl. now rewrite Nat.add_0_r.
    - cbn [seq map foldM fst snd].
      assert ((Z.land (Z.shiftr field (Z.of_nat a - 1)) 1 =? 1) = Z.testbit field (Z.of_nat a - 1)) as ->.
      { replace (Z.of_nat a - 1) with (0 + (Z.of_nat a - 1)) at 2 by lia. rewrite <- Z.shiftr_spec by lia.
        rewrite Z.bit0_odd. generalize (Z.shiftr field (Z.of_nat a - 1)); intros f.
        change (Z.land f 1) with (Z.land f (Z.ones 1)).
        rewrite (Z.land_ones f 1 ltac:(lia)). change (2 ^ 1) with 2. rewrite Zmod_odd.
        now destruct (Z.odd f). }
      destruct (resolve_packet _ _ s) as [s'| | |]; try reflexivity. rewrite !bind_ok.
      rewrite Z.shiftr_shiftr by lia.
      replace (Z.of_nat a - 1 + 1) with (Z.of_nat (S a) - 1) by lia.
      rewrite IH by lia. now replace (a + S n)%nat with (S a + n)%nat by lia. }
  specialize (G 32%nat 1%nat s ltac:(lia)). change (Z.of_nat 1 - 1) with 0 in G.
  rewrite Z.shiftr_0_r in G. rewrite G. destruct (foldM _ _ s); reflexivity.
Qed.

Lemma resolve_all_spec l sent lm notified :
  loss_ok lm -> NoDup l.*1 ->
  exists lm' sent', loss_ok lm' /\
    resolve_all l (sent, lm, notified) =
      Ok (sent', lm', notified ++ (filter (fun p => snd p = true /\ sent !! fst p = Some Data) l).*1) /\
    (forall k, sent' !! k = if decide (k ∈ l.*1) then None else sent !! k).
Proof.
  revert sent lm notified. induction l as [|[i b] l IH]; intros sent lm notified Hl Hd.
  - exists lm, sent. split; [exact Hl|]. split; [simpl; now rewrite app_nil_r|].
    intros k. now rewrite decide_False by (intros []%elem_of_nil).
  - rewrite fmap_cons in Hd. apply NoDup_cons in Hd as [Hi Hd]. cbn [fst] in Hi.
    destruct (resolve_packet_spec i b sent lm notified Hl) as (lm1 & Hl1 & E1).
    destruct (IH (delete i sent) lm1 (notified ++ (if b && bool_decide (sent !! i = Some Data) then [i] else [])) Hl1 Hd)
      as (lm' & sent' & Hl' & E' & S').
    exists lm', sent'. split; [exact Hl'|]. split.
    + unfold resolve_all in *. cbn [foldM fst snd]. rewrite E1, bind_ok, E'. do 2 f_equal.
      rewrite <- app_assoc. f_equal.
      assert (filter (fun p => snd p = true /\ delete i sent !! fst p = Some Data) l =
              filter (fun p => snd p = true /\ sent !! fst p = Some Data) l) as ->.
      { apply list_filter_ext_in. intros [j c] Hj. cbn [fst snd]. rewrite lookup_delete_ne; [reflexivity|].
        intros <-. apply Hi. exact (list_elem_of_fmap_2 fst l (i, c) Hj). }
      rewrite filter_cons. cbn [fst snd]. destruct b; cbn [andb].
      * case_bool_decide as Hb.
        -- rewrite decide_True by auto. reflexivity.
        -- rewrite decide_False by tauto. reflexivity.
      * rewrite decide_False by (intros [? _]; discriminate). reflexivity.
    + intros k. rewrite S', fmap_cons. cbn [fst]. destruct (decide (k = i)) as [->|Hk].
      * rewrite (decide_True (P := i ∈ i :: _)) by now left. rewrite lookup_delete_eq. now destruct (decide _).
      * rewrite lookup_delete_ne by congruence.
        destruct (decide (k ∈ l.*1)) as [H|H].
        -- now rewrite decide_True by now right.
        -- now rewrite decide_False by (intros [->|?]%elem_of_cons; [congruence|auto]).
Qed.

Lemma ack_list_nodup h : in_u 16 (sender_ack_index h) -> NoDup (ack_list h).*1.
Proof.
  intros Ha. unfold ack_list, ack_bits. rewrite fmap_cons. cbn [fst].
  assert (forall i, wrapping_sub16 (sender_ack_index h) i = wrap 16 (sender_ack_index h - i)) as W by reflexivity.
  assert (sender_ack_index h = wrap 16 (sender_ack_index h - 0)) as W0
    by (rewrite Z.sub_0_r, wrap_small; [reflexivity|exact Ha]).
  apply NoDup_cons; split.
  - intros (p & Ep & (i & Ei & Hi)%list_elem_of_fmap)%list_elem_of_fmap. subst p. cbn [fst] in Ep.
    apply elem_of_seq in Hi. rewrite W in Ep. rewrite W0 in Ep at 1. apply wrap16_inj in Ep; lia.
  - rewrite <- list_fmap_compose. apply NoDup_fmap_2_strong; [|apply NoDup_seq].
    intros i j Hi%elem_of_seq Hj%elem_of_seq E. unfold compose in E; cbn [fst] in E.
    rewrite !W in E. apply wrap16_inj in E; lia.
Qed.

(** What one call of [process_incoming_header] does. *)
Lemma process_header_spec h m :
  loss_ok (loss_monitor m) -> in_u 16 (sender_ack_index h) -> 0 <= sender_ack_bitfield h ->
  exists m', AckManager_process_incoming_header h m =
      Ok (m', (filter (fun p => snd p = true /\ sent_packets m !! fst p = Some Data) (ack_list h)).*1) /\
    loss_ok (loss_monitor m') /\ next_packet_index m' = next_packet_index m /\
    received_packets m' = snd (SequenceBuffer_insert (sender_packet_index h) tt (received_packets m)) /\
    last_recv_packet_index m' = (if sequence_greater_than (sender_packet_index h) (last_recv_packet_index m)
              then sender_packet_index h else last_recv_packet_index m) /\
    (forall k, sent_packets m' !! k = if decide (k ∈ (ack_list h).*1) then None else sent_packets m !! k).
Proof.
  intros Hl Ha Hf.
  destruct (resolve_all_spec (ack_list h) (sent_packets m) (loss_monitor m) [] Hl (ack_list_nodup h Ha))
    as (lm' & sent' & Hl' & E & S).
  exists (mkAckManager (next_packet_index m)
    (if sequence_greater_than (sender_packet_index h) (last_recv_packet_index m)
     then sender_packet_index h else last_recv_packet_index m) sent'
    (snd (SequenceBuffer_insert (sender_packet_index h) tt (received_packets m)))
    (am_should_send_empty_ack m) lm').
  split; [|repeat split; [exact Hl'|exact S]].
  unfold AckManager_process_incoming_header.
  unfold resolve_all, ack_list in E. cbn [foldM fst snd] in E.
  apply bind_ok_inv in E as (s1 & E1 & E2). rewrite E1, bind_ok, resolve_bits_all by exact Hf.
  unfold resolve_all. rewrite E2. reflexivity.
Qed.

(** * The ack field *)
Lemma ack_bitfield_spec m i :
  (1 <= i <= 32)%nat ->
  Z.testbit (AckManager_ack_bitfield m) (Z.of_nat i - 1) =
  SequenceBuffer_exists (received_packets m) (wrapping_sub16 (last_recv_packet_index m) (Z.of_nat i)).
Proof.
  intros Hi. unfold AckManager_ack_bitfield.
  set (f := fun i => SequenceBuffer_exists (received_packets m) (wrapping_sub16 (last_recv_packet_index m) i)).
  assert (forall n a field, (0 < a)%nat -> (a + n <= 33)%nat -> 0 <= field < 2 ^ (Z.of_nat a - 1) ->
    let r := fst (fold_left (fun '(field, mask) i =>
      (if f i then Z.lor field mask else field, wrap 32 (Z.shiftl mask 1)))
      (map Z.of_nat (seq a n)) (field, wrap 32 (2 ^ (Z.of_nat a - 1)))) in
    0 <= r < 2 ^ (Z.of_nat (a + n) - 1) /\
    (forall j, (a <= j < a + n)%nat -> Z.testbit r (Z.of_nat j - 1) = f (Z.of_nat j)) /\
    (forall j, 0 <= j < Z.of_nat a - 1 -> Z.testbit r j = Z.testbit field j)) as G.
  { induction n as [|n IH]; intros a field Ha Han Hf r; subst r.
    - simpl. rewrite Nat.add_0_r. split; [exact Hf|]. split; [lia|auto].
    - cbn [seq map fold_left].
      assert (2 ^ (Z.of_nat a - 1) < 2 ^ 32) as Hm by (apply Z.pow_lt_mono_r; lia).
      rewrite (wrap_small 32 (2 ^ (Z.of_nat a - 1))) by (unfold in_u; lia).
      rewrite Z.shiftl_mul_pow2 by lia.
      replace (2 ^ (Z.of_nat a - 1) * 2 ^ 1) with (2 ^ (Z.of_nat (S a) - 1))
        by (rewrite <- Z.pow_add_r by lia; f_equal; lia).
      set (field' := if f (Z.of_nat a) then Z.lor field (2 ^ (Z.of_nat a - 1)) else field).
      assert (2 ^ (Z.of_nat (S a) - 1) = 2 * 2 ^ (Z.of_nat a - 1)) as E2
        by (rewrite <- Z.pow_succ_r by lia; f_equal; lia).
      assert (Z.lor field (2 ^ (Z.of_nat a - 1)) = field + 2 ^ (Z.of_nat a - 1)) as El.
      { rewrite <- (Z.mul_1_l (2 ^ _)), <- Z.shiftl_mul_pow2, lor_shiftl_add by lia.
        rewrite Z.shiftl_mul_pow2; lia. }
      assert (0 <= field' < 2 ^ (Z.of_nat (S a) - 1)) as Hf'
        by (unfold field'; rewrite El; destruct (f _); lia).
      destruct (IH (S a) field' ltac:(lia) ltac:(lia) Hf') as (R & B & O).
      replace (S a + n)%nat with (a + S n)%nat in * by lia.
      split; [exact R|]. split.
      + intros j Hj. destruct (decide (j = a)) as [->|Hn]; [|apply B; lia].
        rewrite O by lia. unfold field'. assert (Z.testbit field (Z.of_nat a - 1) = false) as Hb.
        { rewrite <- (Z.mod_small field (2 ^ (Z.of_nat a - 1))) by lia. apply Z.mod_pow2_bits_high. lia. }
        destruct (f (Z.of_nat a)); [|exact Hb]. rewrite Z.lor_spec, Hb, Z.pow2_bits_true by lia. reflexivity.
      + intros j Hj. rewrite O by lia. unfold field'. destruct (f _); [|reflexivity].
        rewrite Z.lor_spec, Z.pow2_bits_false by lia. apply orb_false_r. }
  destruct (G 32%nat 1%nat 0 ltac:(lia) ltac:(lia) ltac:(simpl; lia)) as (_ & B & _).
  apply (B i). lia.
Qed.

Lemma ack_bitfield_nonneg m : 0 <= AckManager_ack_bitfield m.
Proof.
  unfold AckManager_ack_bitfield. generalize (map Z.of_nat (seq 1 32)); intros l.
  assert (forall p, 0 <= fst p -> 0 <= snd p -> 0 <= fst (fold_left (fun '(field, mask) i =>
      (if SequenceBuffer_exists (received_packets m) (wrapping_sub16 (last_recv_packet_index m) i)
       then Z.lor field mask else field, wrap 32 (Z.shiftl mask 1))) l p)) as G.
  { induction l as [|i l IH]; intros [f k] H1 H2; [exact H1|]. cbn [fold_left fst snd] in *. apply IH; cbn [fst snd].
    - destruct (SequenceBuffer_exists _ _); [apply Z.lor_nonneg; lia|exact H1].
    - apply wrap_range. lia. }
  apply (G (0, 1)); simpl; lia.
Qed.

(** * Two connected endpoints

    [A] sends packets that [B] receives in any order, with losses and duplicates; [B]
    replies with headers, which [A] receives in any order, with losses and duplicates.
    The counters are unbounded: [l_sent] packets were sent by [A], [l_recv] are the ones
    that reached [B], [l_newest] the newest of them, [l_notified] the ones [A] was told
    are delivered. *)
Record link : Type := mkLink {
  l_sent : Z; l_A : AckManager; l_B : AckManager;
  l_recv : list Z; l_newest : Z;
  l_headers : list (StandardHeader * Z);
  l_notified : list Z }.

Definition link_init : link := mkLink 0 AckManager_new AckManager_new [] (-1) [] [].

(** The newest of the first [n] packets whose index is [idx]. *)
Definition latest (n idx : Z) : Z := n - 1 - (n - 1 - idx) mod 65536.

Inductive link_step : link -> link -> Prop :=
| step_send l t h A' :
    AckManager_next_outgoing_packet_header t (l_A l) = (h, A') ->
    link_step l (mkLink (l_sent l + 1) A' (l_B l) (l_recv l) (l_newest l) (l_headers l) (l_notified l))
| step_recv l k h B' ns :
    0 <= k < l_sent l -> Z.abs (k - l_newest l) <= 32735 ->
    sender_packet_index h = wrap 16 k -> in_u 16 (sender_ack_index h) -> 0 <= sender_ack_bitfield h ->
    AckManager_process_incoming_header h (l_B l) = Ok (B', ns) ->
    link_step l (mkLink (l_sent l) (l_A l) B' (k :: l_recv l) (Z.max (l_newest l) k) (l_headers l) (l_notified l))
| step_reply l t h B' :
    AckManager_next_outgoing_packet_header t (l_B l) = (h, B') ->
    link_step l (mkLink (l_sent l) (l_A l) B' (l_recv l) (l_newest l) ((h, l_newest l) :: l_headers l) (l_notified l))
| step_ack l h hi A' ns :
    (h, hi) ∈ l_headers l -> l_sent l - hi <= 65504 ->
    AckManager_process_incoming_header h (l_A l) = Ok (A', ns) ->
    link_step l (mkLink (l_sent l) A' (l_B l) (l_recv l) (l_newest l) (l_headers l)
                   (map (latest (l_sent l)) ns ++ l_notified l)).

Definition link_reachable : link -> Prop := rtc link_step link_init.

Record header_inv (l : link) (h : StandardHeader) (hi : Z) : Prop := {
  hdi_index : sender_ack_index h = wrap 16 hi;
  hdi_field : 0 <= sender_ack_bitfield h;
  hdi_hi : -1 <= hi < l_sent l;
  hdi_recv : hi = -1 \/ hi ∈ l_recv l;
  hdi_bits : forall i, (1 <= i <= 32)%nat ->
    Z.testbit (sender_ack_bitfield h) (Z.of_nat i - 1) = true -> hi - Z.of_nat i ∈ l_recv l;
}.

Record link_inv (l : link) : Prop := {
  li_sent : 0 <= l_sent l;
  li_next : next_packet_index (l_A l) = wrap 16 (l_sent l);
  li_lossA : loss_ok (loss_monitor (l_A l));
  li_lossB : loss_ok (loss_monitor (l_B l));
  li_tracked : forall s t, sent_packets (l_A l) !! s = Some t ->
    in_u 16 s /\ 0 <= latest (l_sent l) s /\ latest (l_sent l) s ∉ l_notified l;
  li_newest : l_newest l < l_sent l /\ (l_newest l = -1 \/ l_newest l ∈ l_recv l);
  li_recv : forall k, k ∈ l_recv l -> 0 <= k <= l_newest l;
  li_last : last_recv_packet_index (l_B l) = wrap 16 (l_newest l);
  li_buffer : sb_inv 33 (fun k => k ∈ l_recv l) (l_newest l) (received_packets (l_B l));
  li_headers : forall h hi, (h, hi) ∈ l_headers l -> header_inv l h hi;
  li_notified : forall k, k ∈ l_notified l -> 0 <= k < l_sent l /\ k ∈ l_recv l;
  li_nodup : NoDup (l_notified l);
}.

Lemma latest_wrap n k : n - 65536 <= k < n -> latest n (wrap 16 k) = k.
Proof. unfold latest, wrap. change (2 ^ 16) with 65536. intros H. dlia. Qed.

Lemma latest_index n s : in_u 16 s -> wrap 16 (latest n s) = s.
Proof. unfold latest, wrap, in_u. change (2 ^ 16) with 65536. intros H. dlia. Qed.

Lemma latest_lt n s : n - 65536 <= latest n s < n.
Proof. unfold latest. dlia. Qed.

Lemma latest_succ n s : in_u 16 s -> s <> wrap 16 n -> latest (n + 1) s = latest n s.
Proof. unfold latest, wrap, in_u. change (2 ^ 16) with 65536. intros H Hn. dlia. Qed.

Lemma header_inv_mono l l' h hi :
  l_sent l <= l_sent l' -> (forall k, k ∈ l_recv l -> k ∈ l_recv l') ->
  header_inv l h hi -> header_inv l' h hi.
Proof.
  intros Hs Hr [I F H R B]. constructor; auto; [lia|]. destruct R; auto.
Qed.

Lemma link_inv_init : link_inv link_init.
Proof.
  constructor; simpl.
  - lia.
  - reflexivity.
  - exists []. apply loss_repr_new.
  - exists []. apply loss_repr_new.
  - intros s t H. now rewrite lookup_empty in H.
  - split; [lia|now left].
  - intros k []%elem_of_nil.
  - reflexivity.
  - refine (sb_inv_new 33 _ _). lia.
  - intros h hi []%elem_of_nil.
  - intros k []%elem_of_nil.
  - constructor.
Qed.

Lemma link_send_inv l t h A' :
  link_inv l -> AckManager_next_outgoing_packet_header t (l_A l) = (h, A') ->
  link_inv (mkLink (l_sent l + 1) A' (l_B l) (l_recv l) (l_newest l) (l_headers l) (l_notified l)).
Proof.
  intros I [= _ <-]. pose proof (li_sent _ I). pose proof (li_notified _ I) as N.
  constructor; simpl; try lia; try apply I.
  - rewrite (li_next _ I). apply wrapping_add16_wrap.
  - intros s t' Hs. apply lookup_insert_Some in Hs as [[<- _]|[Hn Hs]].
    + rewrite (li_next _ I). split; [apply wrap_range; lia|]. rewrite latest_wrap by lia.
      split; [lia|]. intros Hk. apply N in Hk. lia.
    + destruct (li_tracked _ I s t' Hs) as (Hu & Hp & Hk). split; [exact Hu|].
      rewrite latest_succ by (rewrite ?(li_next _ I) in *; congruence). auto.
  - pose proof (li_newest _ I) as [? ?]. split; [lia|assumption].
  - intros h' hi Hh. eapply header_inv_mono; [| |apply I, Hh]; simpl; [lia|auto].
  - intros k Hk. apply N in Hk. split; [lia|tauto].
Qed.

Lemma link_recv_inv l k h B' ns :
  link_inv l -> 0 <= k < l_sent l -> Z.abs (k - l_newest l) <= 32735 ->
  sender_packet_index h = wrap 16 k -> in_u 16 (sender_ack_index h) -> 0 <= sender_ack_bitfield h ->
  AckManager_process_incoming_header h (l_B l) = Ok (B', ns) ->
  link_inv (mkLink (l_sent l) (l_A l) B' (k :: l_recv l) (Z.max (l_newest l) k) (l_headers l) (l_notified l)).
Proof.
  intros I Hk Hn Hi Ha Hf E.
  destruct (process_header_spec h (l_B l) (li_lossB _ I) Ha Hf) as (m' & E' & L' & _ & R' & P' & _).
  rewrite E in E'. injection E' as <- _. rewrite Hi in R', P'. rewrite (li_last _ I) in P'.
  rewrite seq_gt_close in P' by (unfold close; lia).
  pose proof (li_newest _ I) as [Hlt Hne]. pose proof (li_recv _ I) as Hrc.
  constructor; simpl; try apply I; try assumption.
  - split; [lia|]. right. destruct (Z.max_spec (l_newest l) k) as [[? ->]|[? ->]]; [now left|].
    destruct Hne as [Hne|Hne]; [lia|now right].
  - intros j [->|Hj]%elem_of_cons; [lia|]. apply Hrc in Hj. lia.
  - rewrite P'. destruct (Z.ltb_spec (l_newest l) k); [rewrite Z.max_r|rewrite Z.max_l]; auto; lia.
  - rewrite R'. set (seen := fun j => j ∈ k :: l_recv l).
    assert (sb_inv 33 seen (l_newest l) (received_packets (l_B l))) as Ib.
    { eapply sb_inv_mono; [|apply I]. intros j Hj. now right. }
    destruct (insert_inv 33 ltac:(lia) seen (l_newest l) k tt _ Ib) as [F Ib2];
      [unfold close; lia..|now left|].
    destruct (fst _); [exact Ib2|]. symmetry in F. apply Z.leb_gt in F. now rewrite Z.max_l by lia.
  - intros h' hi Hh. eapply header_inv_mono; [| |apply I, Hh]; simpl; [lia|]. intros j Hj. now right.
  - intros j Hj. apply I in Hj. split; [tauto|]. right. tauto.
Qed.

Lemma link_reply_inv l t h B' :
  link_inv l -> AckManager_next_outgoing_packet_header t (l_B l) = (h, B') ->
  link_inv (mkLink (l_sent l) (l_A l) B' (l_recv l) (l_newest l) ((h, l_newest l) :: l_headers l) (l_notified l)).
Proof.
  intros I [= <- <-]. pose proof (li_newest _ I) as [Hlt Hne].
  constructor; simpl; try apply I.
  intros h' hi [[= -> ->]|Hh]%elem_of_cons; [|eapply header_inv_mono; [| |apply I, Hh]; simpl; auto with lia].
  constructor; simpl.
  - apply I.
  - apply ack_bitfield_nonneg.
  - split; [|exact Hlt]. destruct Hne as [->|Hne]; [lia|]. apply (li_recv _ I) in Hne. lia.
  - exact Hne.
  - intros i Hi. rewrite ack_bitfield_spec, (li_last _ I), wrapping_sub16_wrap by exact Hi.
    apply (exists_sound 33 (fun k => k ∈ l_recv l) (l_newest l)); [apply I|lia].
Qed.

(** The packets a header acknowledges did arrive, and they are the ones [A] tracks. *)
Lemma acked_was_received l h hi idx :
  link_inv l -> header_inv l h hi -> l_sent l - hi <= 65504 ->
  (idx, true) ∈ ack_list h -> (exists t, sent_packets (l_A l) !! idx = Some t) ->
  0 <= latest (l_sent l) idx < l_sent l /\ latest (l_sent l) idx ∈ l_recv l.
Proof.
  intros I H Hs Hin [t Ht]. destruct (li_tracked _ I idx t Ht) as (_ & Hp & _).
  pose proof (hdi_hi _ _ _ H). pose proof (latest_lt (l_sent l) idx).
  split; [lia|]. unfold ack_list, ack_bits in Hin. rewrite (hdi_index _ _ _ H) in Hin.
  apply elem_of_cons in Hin as [[= ->]|Hin].
  - rewrite latest_wrap in * by lia. destruct (hdi_recv _ _ _ H); [lia|assumption].
  - apply list_elem_of_fmap in Hin as (i & [= -> Hb] & Hi%elem_of_seq).
    rewrite wrapping_sub16_wrap in *. rewrite latest_wrap by lia.
    apply (hdi_bits _ _ _ H); [lia|now symmetry].
Qed.

Lemma link_ack_inv l h hi A' ns :
  link_inv l -> (h, hi) ∈ l_headers l -> l_sent l - hi <= 65504 ->
  AckManager_process_incoming_header h (l_A l) = Ok (A', ns) ->
  link_inv (mkLink (l_sent l) A' (l_B l) (l_recv l) (l_newest l) (l_headers l)
              (map (latest (l_sent l)) ns ++ l_notified l)).
Proof.
  intros I Hin Hs E. pose proof (li_headers _ I h hi Hin) as H.
  assert (in_u 16 (sender_ack_index h)) as Hu by (rewrite (hdi_index _ _ _ H); apply wrap_range; lia).
  destruct (process_header_spec h (l_A l) (li_lossA _ I) Hu (hdi_field _ _ _ H))
    as (m' & E' & L' & N' & _ & _ & S').
  rewrite E in E'. injection E' as <- ->.
  set (P := fun p : PacketIndex * bool => snd p = true /\ sent_packets (l_A l) !! fst p = Some Data) in *.
  assert (forall idx, idx ∈ (filter P (ack_list h)).*1 ->
    (idx, true) ∈ ack_list h /\ exists t, sent_packets (l_A l) !! idx = Some t) as Hns.
  { intros idx ([i b] & -> & [[Hb Hd] Hl]%list_elem_of_filter)%list_elem_of_fmap.
    cbn [fst snd] in *. subst b. eauto. }
  constructor; simpl; try apply I; try assumption.
  - rewrite N'. apply I.
  - intros s t Hst. rewrite S' in Hst. case_decide as Hnot; [discriminate|].
    destruct (li_tracked _ I s t Hst) as (Hsu & Hp & Hk). split; [exact Hsu|]. split; [exact Hp|].
    intros [Hm|Hm]%elem_of_app; [|contradiction].
    apply list_elem_of_fmap in Hm as (idx & El & Hidx). apply Hns in Hidx as [Hl [t' Ht']].
    apply Hnot. destruct (li_tracked _ I idx t' Ht') as (Hiu & _).
    rewrite <- (latest_index (l_sent l) s Hsu), El, latest_index by exact Hiu.
    exact (list_elem_of_fmap_2 fst _ (idx, true) Hl).
  - intros h' hi' Hh. eapply header_inv_mono; [| |apply I, Hh]; simpl; auto with lia.
  - intros k [Hm|Hm]%elem_of_app; [|now apply I].
    apply list_elem_of_fmap in Hm as (idx & -> & Hidx). apply Hns in Hidx as [Hl Ht].
    eapply acked_was_received; eauto.
  - apply NoDup_app. split; [|split; [|apply I]].
    + apply NoDup_fmap_2_strong.
      * intros x y Hx Hy El. apply Hns in Hx as [_ [t Hx]]. apply Hns in Hy as [_ [t' Hy]].
        destruct (li_tracked _ I x t Hx) as (Hxu & _). destruct (li_tracked _ I y t' Hy) as (Hyu & _).
        rewrite <- (latest_index (l_sent l) x Hxu), El. now apply latest_index.
      * eapply sublist_NoDup; [apply (ack_list_nodup h Hu)|]. apply fmap_sublist, sublist_filter.
    + intros k Hm. apply list_elem_of_fmap in Hm as (idx & -> & Hidx). apply Hns in Hidx as [_ [t Ht]].
      apply (li_tracked _ I idx t Ht).
Qed.

Lemma link_reachable_inv l : link_reachable l -> link_inv l.
Proof.
  intros H. unfold link_reachable in H. remember link_init as l0 eqn:E0.
  assert (link_inv l0) as I0 by (subst; apply link_inv_init). clear E0.
  induction H as [|l1 l2 l3 S _ IH]; [exact I0|]. apply IH. destruct S.
  - eapply link_send_inv; eauto.
  - eapply link_recv_inv; eauto.
  - eapply link_reply_inv; eauto.
  - eapply link_ack_inv; eauto.
Qed.

(** C3: Delivery notifications are truthful and given once.  In every run of two
    endpoints over a network that loses, reorders and duplicates packets (a packet at
    most 32735 behind or ahead of the newest one received, a header used while fewer than
    65504 packets were sent after the newest packet it acknowledges), every packet that
    the sender is told was delivered had been sent and had reached the peer, and no packet
    is notified twice, also across wrap-arounds of the 16-bit packet index. *)
Theorem notifications_truthful_once (l : link) :
  link_reachable l ->
  NoDup (l_notified l) /\ forall k, k ∈ l_notified l -> 0 <= k < l_sent l /\ k ∈ l_recv l.
Proof. intros H. apply link_reachable_inv in H as I. split; apply I. Qed.

Lemma notifications_truthful_once_witness :
  exists l, link_reachable l /\ l_notified l = [0] /\
    (NoDup (l_notified l) /\ forall k, k ∈ l_notified l -> 0 <= k < l_sent l /\ k ∈ l_recv l).
Proof.
  assert (exists l, link_reachable l /\ l_notified l = [0]) as (l & H & E).
  { eexists. split.
    - eapply rtc_l; [eapply (step_send _ Data); reflexivity|].
      eapply rtc_l; [eapply (step_recv _ 0 (mkStandardHeader Data 0 65535 0));
        [simpl; lia|simpl; lia|reflexivity|unfold in_u; simpl; lia|simpl; lia|vm_compute; reflexivity]|].
      eapply rtc_l; [eapply (step_reply _ Heartbeat); reflexivity|].
      eapply rtc_l; [eapply (step_ack _ _ 0); [now left|simpl; lia|vm_compute; reflexivity]|].
      apply rtc_refl.
    - reflexivity. }
  exists l. split; [exact H|]. split; [exact E|]. exact (notifications_truthful_once l H).
Defined.

(** One header resolves exactly the 33 packets it covers: [process_incoming_header]
    never panics, forgets the packets at the ack index and at the 32 indices before it
    and no others, and notifies, newest first, exactly the tracked data packets among
    them that the header acknowledges. *)
Theorem process_header_effect (h : StandardHeader) (m : AckManager) :
  loss_ok (loss_monitor m) -> in_u 16 (sender_ack_index h) -> 0 <= sender_ack_bitfield h ->
  exists m' notified, AckManager_process_incoming_header h m = Ok (m', notified) /\
    notified = (filter (fun p => snd p = true /\ sent_packets m !! fst p = Some Data) (ack_list h)).*1 /\
    (forall k, sent_packets m' !! k = if decide (k ∈ (ack_list h).*1) then None else sent_packets m !! k) /\
    loss_ok (loss_monitor m').
Proof.
  intros Hl Ha Hf. destruct (process_header_spec h m Hl Ha Hf) as (m' & E & L & _ & _ & _ & S). eauto 10.
Qed.

Lemma process_header_effect_witness :
  let h := mkStandardHeader Data 0 1 1 in
  let m := mkAckManager 3 65535 {[ 0 := Data; 1 := Heartbeat; 2 := Data ]}
             (SequenceBuffer_with_capacity 33) false LossMonitor_new in
  exists m' notified, AckManager_process_incoming_header h m = Ok (m', notified) /\
    notified = (filter (fun p => snd p = true /\ sent_packets m !! fst p = Some Data) (ack_list h)).*1 /\
    (forall k, sent_packets m' !! k = if decide (k ∈ (ack_list h).*1) then None else sent_packets m !! k) /\
    loss_ok (loss_monitor m').
Proof.
  intros h m. apply (process_header_effect h m).
  - exists []. apply loss_repr_new.
  - unfold in_u; simpl; lia.
  - simpl; lia.
Defined.
