(* ===== verification/Reliable.v ===== *)
(** Reliable delivery: src/shared/src/messages/channels/senders/reliable_sender.rs and
    receivers/{reliable_receiver,ordered_reliable_receiver,sequenced_reliable_receiver,
    unordered_reliable_receiver}.rs.

    [ReliableSender] keeps every message until it is acknowledged and sends it again
    when a resend interval has passed; [ReliableReceiver] lets every message index through
    once; the arrangers decide in which order the application sees them.  Message
    contents are of an arbitrary type [P].  Instants and durations are integers of one
    unit; [elapsed] saturates at zero as [std::time::Instant] subtraction does. *)

From Stdlib Require Import ZArith Lia.
From stdpp Require Import base list numbers relations.
From S2P Require Import Prelude Wrapping.

Abbreviation MessageIndex := Z.

(** [earlier.elapsed(now)] *)
Definition elapsed (earlier now : Z) : Z := Z.max 0 (now - earlier).

(** * ReliableSender *)
Section Sender.
Context {P : Type}.

Record ReliableSender : Type := mkReliableSender {
  sending_messages : list (option (MessageIndex * option Z * P));
  next_send_message_index : MessageIndex;
  outgoing_messages : list (MessageIndex * P);
  min_last_sent : option Z;
  has_unsent : bool;
  max_queue_depth : option Z }.

Definition ReliableSender_new (max_queue_depth : option Z) : ReliableSender :=
  mkReliableSender [] 0 [] None false max_queue_depth.

Fixpoint cleanup_sent_messages (l : list (option (MessageIndex * option Z * P)))
  : list (option (MessageIndex * option Z * P)) :=
  match l with
  | None :: l' => cleanup_sent_messages l'
  | _ => l
  end.

Definition ReliableSender_take_next_messages (s : ReliableSender)
  : list (MessageIndex * P) * ReliableSender :=
  (outgoing_messages s,
   mkReliableSender (sending_messages s) (next_send_message_index s) [] (min_last_sent s)
     (has_unsent s) (max_queue_depth s)).

(** The loop of [deliver_message]: the first entry with the index, taken out. *)
Fixpoint take_message (message_index : MessageIndex) (l : list (option (MessageIndex * option Z * P)))
  : option P * list (option (MessageIndex * option Z * P)) :=
  match l with
  | [] => (None, [])
  | Some (old, t, m) :: l' =>
      if message_index =? old then (Some m, None :: l')
      else let '(o, l2) := take_message message_index l' in (o, Some (old, t, m) :: l2)
  | None :: l' => let '(o, l2) := take_message message_index l' in (o, None :: l2)
  end.

Definition ReliableSender_deliver_message (message_index : MessageIndex) (s : ReliableSender)
  : option P * ReliableSender :=
  let '(o, l) := take_message message_index (sending_messages s) in
  (o, mkReliableSender (match o with Some _ => cleanup_sent_messages l | None => l end)
        (next_send_message_index s) (outgoing_messages s) (min_last_sent s)
        (has_unsent s) (max_queue_depth s)).

Definition ReliableSender_send_message (message : P) (s : ReliableSender) : bool * ReliableSender :=
  if match max_queue_depth s with
     | Some max => max <=? Z.of_nat (length (sending_messages s))
     | None => false
     end
  then (false, s)
  else (true, mkReliableSender
    (sending_messages s ++ [Some (next_send_message_index s, None, message)])
    (wrapping_add16 (next_send_message_index s) 1) (outgoing_messages s) (min_last_sent s)
    true (max_queue_depth s)).

Definition min_instant (a : option Z) (t : Z) : option Z :=
  Some (match a with None => t | Some cur => if t <? cur then t else cur end).

Definition should_send (now resend_duration : Z) (last_sent : option Z) : bool :=
  match last_sent with Some t => resend_duration <=? elapsed t now | None => true end.

(** The scan over [sending_messages]: the entries with their new send times, the
    messages to send, and the earliest send time. *)
Fixpoint collect_scan (now resend_duration : Z) (l : list (option (MessageIndex * option Z * P)))
    (new_min : option Z)
  : list (option (MessageIndex * option Z * P)) * list (MessageIndex * P) * option Z :=
  match l with
  | [] => ([], [], new_min)
  | None :: l' =>
      let '(l2, out, m) := collect_scan now resend_duration l' new_min in (None :: l2, out, m)
  | Some (i, last, p) :: l' =>
      let last' := if should_send now resend_duration last then Some now else last in
      let new_min' := match last' with Some t => min_instant new_min t | None => new_min end in
      let '(l2, out, m) := collect_scan now resend_duration l' new_min' in
      (Some (i, last', p) :: l2, (if should_send now resend_duration last then [(i, p)] else []) ++ out, m)
  end.

(** [resend_duration] is [Duration::from_millis((rtt_resend_factor * rtt_millis) as u64)]. *)
Definition ReliableSender_collect_messages (now resend_duration : Z) (s : ReliableSender) : ReliableSender :=
  if negb (has_unsent s) &&
     (bool_decide (sending_messages s = []) ||
      match min_last_sent s with Some min => elapsed min now <? resend_duration | None => false end)
  then s
  else
    let '(l, out, m) := collect_scan now resend_duration (sending_messages s) None in
    mkReliableSender l (next_send_message_index s) (outgoing_messages s ++ out) m false (max_queue_depth s).

(** ** Invariant

    [log] is every message accepted so far; the queue holds the ones from [base] on,
    [None] where acknowledged, with the 16-bit form of their position. *)
Definition entry_ok (log : list P) (x : nat) (e : option (MessageIndex * option Z * P)) : Prop :=
  match e with
  | None => True
  | Some (i, _, m) => i = wrap 16 (Z.of_nat x) /\ log !! x = Some m
  end.

Record sender_inv (log : list P) (base : nat) (s : ReliableSender) : Prop := {
  si_len : (base + length (sending_messages s))%nat = length log;
  si_next : next_send_message_index s = wrap 16 (Z.of_nat (length log));
  si_entries : forall k e, sending_messages s !! k = Some e -> entry_ok log (base + k) e;
  si_head : sending_messages s !! 0%nat <> Some None;
  si_min : has_unsent s = false -> forall k i t m, sending_messages s !! k = Some (Some (i, t, m)) ->
     exists u, t = Some u /\ forall v, min_last_sent s = Some v -> v <= u;
}.

Lemma sender_inv_new d : sender_inv [] 0 (ReliableSender_new d).
Proof. constructor; simpl; try reflexivity; try discriminate; intros; now rewrite lookup_nil in *. Qed.

Lemma send_inv log base s m s' :
  sender_inv log base s -> ReliableSender_send_message m s = (true, s') ->
  sender_inv (log ++ [m]) base s'.
Proof.
  intros [L N E H M]. unfold ReliableSender_send_message.
  destruct (match max_queue_depth s with Some _ => _ | None => _ end); [discriminate|].
  intros [= <-]. constructor; cbn [sending_messages next_send_message_index has_unsent min_last_sent].
  - rewrite !length_app; simpl. lia.
  - rewrite N, length_app, wrapping_add16_wrap; simpl. f_equal. lia.
  - intros k e Hk. apply lookup_app_Some in Hk as [Hk|[Hk1 Hk2]].
    + specialize (E k e Hk). destruct e as [[[i t] p]|]; [|exact I]. destruct E as [E1 E2].
      split; [exact E1|]. now apply lookup_app_l_Some.
    + apply list_lookup_singleton_Some in Hk2 as [Hk2 <-]. split.
      * rewrite N. do 2 f_equal. lia.
      * rewrite lookup_app_r by lia. replace (base + k - length log)%nat with 0%nat by lia. reflexivity.
  - destruct (sending_messages s); [discriminate|exact H].
  - discriminate.
Qed.

Lemma take_message_spec idx l o l2 :
  take_message idx l = (o, l2) ->
  (o = None /\ l2 = l /\ forall k i t m, l !! k = Some (Some (i, t, m)) -> i <> idx) \/
  (exists k t m, o = Some m /\ l !! k = Some (Some (idx, t, m)) /\ l2 = <[k:=None]> l).
Proof.
  revert o l2. induction l as [|[[[i t] m]|] l IH]; intros o l2; cbn [take_message].
  - intros [= <- <-]. left. split; [reflexivity|]. split; [reflexivity|]. intros k i t m Hk. now rewrite lookup_nil in Hk.
  - destruct (Z.eqb_spec idx i) as [->|Hn].
    + intros [= <- <-]. right. exists 0%nat, t, m. auto.
    + destruct (take_message idx l) as [o' l'] eqn:E. intros [= <- <-].
      destruct (IH _ _ eq_refl) as [(-> & -> & Hno)|(k & u & p & -> & Hk & ->)].
      * left. split; [reflexivity|]. split; [reflexivity|]. intros [|k] j u p Hk; [simpl in Hk; congruence|].
        exact (Hno k j u p Hk).
      * right. exists (S k), u, p. auto.
  - destruct (take_message idx l) as [o' l'] eqn:E. intros [= <- <-].
    destruct (IH _ _ eq_refl) as [(-> & -> & Hno)|(k & u & p & -> & Hk & ->)].
    + left. split; [reflexivity|]. split; [reflexivity|]. intros [|k] j u p Hk; [discriminate|].
      exact (Hno k j u p Hk).
    + right. exists (S k), u, p. auto.
Qed.

Lemma cleanup_spec l :
  exists n, cleanup_sent_messages l = drop n l /\ (n <= length l)%nat /\
    (forall k, (k < n)%nat -> l !! k = Some None) /\ cleanup_sent_messages l !! 0%nat <> Some None.
Proof.
  induction l as [|[e|] l (n & E & L & A & H)]; cbn [cleanup_sent_messages].
  - exists 0%nat. repeat split; [simpl; lia|lia|discriminate].
  - exists 0%nat. repeat split; [simpl; lia|lia|discriminate].
  - exists (S n). split; [exact E|]. split; [simpl; lia|]. split; [|exact H].
    intros [|k] Hk; [reflexivity|]. apply A. lia.
Qed.

(** Acknowledging position [x] removes exactly that entry. *)
Lemma deliver_inv log base s x o s' :
  sender_inv log base s -> Z.of_nat (length (sending_messages s)) <= 65536 ->
  Z.of_nat (length log) <= Z.of_nat x + 65536 -> (x < length log)%nat ->
  ReliableSender_deliver_message (wrap 16 (Z.of_nat x)) s = (o, s') ->
  exists base', sender_inv log base' s' /\ (base <= base')%nat /\
    (o = None \/ o = log !! x) /\
    (forall y, (base <= y < length log)%nat -> (y < base')%nat ->
        sending_messages s !! (y - base)%nat = Some None \/ y = x) /\
    (forall y, (base' <= y < length log)%nat -> sending_messages s' !! (y - base')%nat =
        if decide (y = x) then Some None else sending_messages s !! (y - base)%nat).
Proof.
  intros [L N E H M] Hq Hx1 Hx2. unfold ReliableSender_deliver_message.
  destruct (take_message _ _) as [o' l] eqn:Et. intros [= <- <-].
  destruct (take_message_spec _ _ _ _ Et) as [(-> & -> & Hno)|(k & t & m & -> & Hk & ->)].
  - exists base. split; [constructor; assumption|]. split; [lia|]. split; [now left|]. split; [lia|].
    intros y Hy. case_decide as Hd; [|reflexivity]. subst y.
    destruct (lookup_lt_is_Some_2 (sending_messages s) (x - base)) as [e He]; [lia|].
    cbn [sending_messages]. rewrite He. destruct e as [[[i u] p]|]; [|reflexivity].
    specialize (E _ _ He). destruct E as [E _]. exfalso. apply (Hno _ _ _ _ He). rewrite E.
    do 2 f_equal. lia.
  - pose proof (E _ _ Hk) as [Ei Em]. pose proof (lookup_lt_Some _ _ _ Hk) as Hkl.
    assert (x = base + k)%nat as -> by (apply wrap16_inj in Ei; lia).
    destruct (cleanup_spec (<[k:=None]> (sending_messages s))) as (n & En & Ln & An & Hn).
    rewrite length_insert in Ln. exists (base + n)%nat.
    assert (forall j, cleanup_sent_messages (<[k:=None]> (sending_messages s)) !! j =
       if decide (n + j = k)%nat then Some None else sending_messages s !! (n + j)%nat) as Lk.
    { intros j. rewrite En, lookup_drop. case_decide as Hd.
      - subst k. apply list_lookup_insert_eq. exact Hkl.
      - apply list_lookup_insert_ne. congruence. }
    split; [constructor; cbn [sending_messages next_send_message_index has_unsent min_last_sent]|].
    + rewrite En, length_drop, length_insert. lia.
    + exact N.
    + intros j e Hj. rewrite Lk in Hj. case_decide; [injection Hj as <-; exact I|].
      replace (base + n + j)%nat with (base + (n + j))%nat by lia. now apply E.
    + exact Hn.
    + intros Hu j i u p Hj. rewrite Lk in Hj. case_decide; [discriminate|]. eapply M; eauto.
    + split; [lia|]. split; [right; symmetry; exact Em|]. cbn [sending_messages]. split.
      * intros y Hy Hyn. specialize (An (y - base)%nat ltac:(lia)).
        apply list_lookup_insert_Some in An as [(Ek & _ & _)|[_ An]]; [right; lia|now left].
      * intros y Hy. rewrite Lk. replace (n + (y - (base + n)))%nat with (y - base)%nat by lia.
        destruct (decide (y - base = k)%nat), (decide (y = base + k)%nat); try reflexivity; lia.
Qed.

(** ** Collecting *)

(** The messages that are due: never sent, or sent at least [resend_duration] ago. *)
Definition due (now resend_duration : Z) (l : list (option (MessageIndex * option Z * P)))
  : list (MessageIndex * P) :=
  omap (fun e => match e with
    | Some (i, last, p) => if should_send now resend_duration last then Some (i, p) else None
    | None => None
    end) l.

Definition mark_sent (now resend_duration : Z) (e : option (MessageIndex * option Z * P))
  : option (MessageIndex * option Z * P) :=
  match e with
  | Some (i, last, p) => Some (i, if should_send now resend_duration last then Some now else last, p)
  | None => None
  end.

Lemma collect_scan_spec now d l m :
  exists m', collect_scan now d l m = (map (mark_sent now d) l, due now d l, m') /\
    (forall v, m = Some v -> exists v', m' = Some v' /\ v' <= v) /\
    (forall k i t p, map (mark_sent now d) l !! k = Some (Some (i, t, p)) ->
       exists u v, t = Some u /\ m' = Some v /\ v <= u).
Proof.
  revert m. induction l as [|[[[i last] p]|] l IH]; intros m; cbn [collect_scan map mark_sent due omap list_omap].
  - exists m. split; [reflexivity|]. split; [intros v ->; exists v; split; [reflexivity|lia]|].
    intros k i t p Hk. now rewrite lookup_nil in Hk.
  - set (last' := if should_send now d last then Some now else last).
    assert (exists u, last' = Some u) as [u Eu].
    { unfold last'. destruct last as [t|]; [|simpl; eauto]. destruct (should_send now d (Some t)); eauto. }
    rewrite Eu. destruct (IH (min_instant m u)) as (m' & E & Lo & Al). rewrite E.
    destruct (Lo _ eq_refl) as (v' & Ev & Hv). exists m'. split; [|split].
    + f_equal. f_equal. fold (due now d l). destruct (should_send now d last); reflexivity.
    + intros v ->. exists v'. split; [exact Ev|]. cbn in Hv. destruct (Z.ltb_spec u v); lia.
    + intros [|k] j t q Hk; [|now apply (Al k j t q)]. injection Hk as <- <- <-.
      exists u, v'. split; [reflexivity|]. split; [exact Ev|].
      destruct m as [w|]; cbn in Hv; [destruct (Z.ltb_spec u w); lia|exact Hv].
  - destruct (IH m) as (m' & E & Lo & Al). rewrite E. exists m'. split; [reflexivity|]. split; [exact Lo|].
    intros [|k] j t q Hk; [discriminate|]. now apply (Al k j t q).
Qed.

Lemma collect_fast_nothing_due log base s now d :
  sender_inv log base s -> has_unsent s = false ->
  (sending_messages s = [] \/ exists min, min_last_sent s = Some min /\ elapsed min now < d) ->
  due now d (sending_messages s) = [] /\ map (mark_sent now d) (sending_messages s) = sending_messages s.
Proof.
  intros [_ _ _ _ M] Hu [->|(min & Em & Hd)]; [split; reflexivity|].
  specialize (M Hu). generalize dependent (sending_messages s). intros l M.
  induction l as [|[[[i t] p]|] l IH]; [split; reflexivity| |].
  - destruct IH as [I1 I2]; [intros k; exact (M (S k))|].
    destruct (M 0%nat i t p eq_refl) as (u & -> & Hv). specialize (Hv min Em).
    assert (should_send now d (Some u) = false) as Es.
    { cbn. apply Z.leb_gt. unfold elapsed in *. lia. }
    cbn [due omap list_omap map mark_sent]. rewrite Es. unfold due in I1. cbn [omap list_omap] in I1.
    rewrite I1, I2. split; reflexivity.
  - destruct IH as [I1 I2]; [intros k; exact (M (S k))|].
    cbn [due omap list_omap map mark_sent]. unfold due in I1. cbn [omap list_omap] in I1. rewrite I1, I2. split; reflexivity.
Qed.

Lemma collect_spec log base s now d :
  sender_inv log base s ->
  sender_inv log base (ReliableSender_collect_messages now d s) /\
  outgoing_messages (ReliableSender_collect_messages now d s) =
    outgoing_messages s ++ due now d (sending_messages s) /\
  sending_messages (ReliableSender_collect_messages now d s) = map (mark_sent now d) (sending_messages s).
Proof.
  intros I. unfold ReliableSender_collect_messages. destruct (negb _ && _) eqn:Ef.
  - apply andb_true_iff in Ef as [Hu Hf]. apply negb_true_iff in Hu.
    destruct (collect_fast_nothing_due log base s now d I Hu) as [E1 E2].
    { apply orb_true_iff in Hf as [Hf%bool_decide_eq_true|Hf]; [now left|right].
      destruct (min_last_sent s) as [min|]; [|discriminate]. exists min. split; [reflexivity|]. now apply Z.ltb_lt. }
    rewrite E1, E2, app_nil_r. auto.
  - destruct (collect_scan_spec now d (sending_messages s) None) as (m' & E & _ & Al). rewrite E.
    split; [|split; reflexivity]. destruct I as [L N En H M].
    constructor; cbn [sending_messages next_send_message_index has_unsent min_last_sent].
    + now rewrite length_map.
    + exact N.
    + intros k e Hk. rewrite lookup_map in Hk. apply fmap_Some in Hk as (e' & Hk & ->). specialize (En k e' Hk).
      destruct e' as [[[i t] p]|]; exact En.
    + intros Hk. apply H. destruct (sending_messages s) as [|[[[? ?] ?]|] ?]; [discriminate..|reflexivity].
    + intros _ k i t p Hk. destruct (Al k i t p Hk) as (u & v & -> & Ev & Hv).
      exists u. split; [reflexivity|]. intros w Ew. congruence.
Qed.

End Sender.
Arguments ReliableSender P : clear implicits.

(** * ReliableReceiver *)
Section Receiver.
Context {M : Type}.

Record ReliableReceiver : Type := mkReliableReceiver {
  oldest_received_message_index : MessageIndex;
  record : list (MessageIndex * bool);
  incoming_messages : list (MessageIndex * M) }.

Definition ReliableReceiver_new : ReliableReceiver := mkReliableReceiver 0 [] [].

(** The loop of [buffer_message].  [None]: the message was received before and the
    function returns; [Some r]: [r] is the record with the message marked. *)
Fixpoint buffer_loop (fuel : nat) (message_index oldest : Z) (current_index : nat)
    (record : list (MessageIndex * bool)) : res (option (list (MessageIndex * bool))) :=
  match fuel with
  | O => Diverge
  | S fuel' =>
      if (current_index <? length record)%nat then
        match record !! current_index with
        | Some (old, received) =>
            if old =? message_index then
              if (received : bool) then Ok None
              else Ok (Some (<[current_index:=(old, true)]> record))
            else buffer_loop fuel' message_index oldest (S current_index) record
        | None => buffer_loop fuel' message_index oldest (S current_index) record
        end
      else
        let next := wrapping_add16 oldest (wrap 16 (Z.of_nat current_index)) in
        if next =? message_index then Ok (Some (record ++ [(next, true)]))
        else buffer_loop fuel' message_index oldest (S current_index) (record ++ [(next, false)])
  end.

(** The fill visits every 16-bit index once, so this bounds the loop. *)
Definition buffer_fuel (record : list (MessageIndex * bool)) : nat :=
  (length record + Z.to_nat 65537)%nat.

Fixpoint clear_old_messages (oldest : Z) (record : list (MessageIndex * bool))
  : Z * list (MessageIndex * bool) :=
  match record with
  | (_, true) :: record' => clear_old_messages (wrapping_add16 oldest 1) record'
  | _ => (oldest, record)
  end.

Definition ReliableReceiver_buffer_message (message_index : MessageIndex) (message : M)
    (r : ReliableReceiver) : res ReliableReceiver :=
  if sequence_less_than message_index (oldest_received_message_index r) then Ok r else
  o ← buffer_loop (buffer_fuel (record r)) message_index (oldest_received_message_index r) 0 (record r);
  match o with
  | None => Ok r
  | Some record' =>
      let '(oldest, record'') := clear_old_messages (oldest_received_message_index r) record' in
      Ok (mkReliableReceiver oldest record'' (incoming_messages r ++ [(message_index, message)]))
  end.

Definition ReliableReceiver_receive_messages (r : ReliableReceiver)
  : list (MessageIndex * M) * ReliableReceiver :=
  (incoming_messages r, mkReliableReceiver (oldest_received_message_index r) (record r) []).

(** ** Invariant

    [got] are the positions received so far, [base] the first one missing; [record]
    describes the positions from [base] on. *)
Record recv_inv (got : list nat) (base : nat) (r : ReliableReceiver) : Prop := {
  ri_oldest : oldest_received_message_index r = wrap 16 (Z.of_nat base);
  ri_len : Z.of_nat (length (record r)) <= 32768;
  ri_record : forall k i b, record r !! k = Some (i, b) ->
    i = wrap 16 (Z.of_nat (base + k)) /\ (b = true <-> (base + k)%nat ∈ got);
  ri_below : forall x, (x < base)%nat -> x ∈ got;
  ri_above : forall x, x ∈ got -> (x < base + length (record r))%nat;
  ri_missing : base ∉ got;
}.

Lemma recv_inv_new : recv_inv [] 0 ReliableReceiver_new.
Proof.
  constructor; simpl; try lia; try reflexivity.
  - intros k i b Hk. now rewrite lookup_nil in Hk.
  - intros x []%elem_of_nil.
  - intros []%elem_of_nil.
Qed.

Definition fill (base from n : nat) : list (MessageIndex * bool) :=
  map (fun j => (wrap 16 (Z.of_nat (base + j)), false)) (seq from n).

Lemma buffer_loop_spec base fuel d k (rec : list (MessageIndex * bool)) :
  (k <= d)%nat -> (k <= length rec)%nat -> (d - k < fuel)%nat -> Z.of_nat d < 65536 ->
  (forall j i b, rec !! j = Some (i, b) -> i = wrap 16 (Z.of_nat (base + j))) ->
  buffer_loop fuel (wrap 16 (Z.of_nat (base + d))) (wrap 16 (Z.of_nat base)) k rec =
  match rec !! d with
  | Some (_, true) => Ok None
  | Some (i, false) => Ok (Some (<[d:=(i, true)]> rec))
  | None => Ok (Some (rec ++ fill base (length rec) (d - length rec) ++ [(wrap 16 (Z.of_nat (base + d)), true)]))
  end.
Proof.
  revert k rec. induction fuel as [|fuel IH]; intros k rec Hk Hl Hf Hd Hr; [lia|]. cbn [buffer_loop].
  destruct (Nat.ltb_spec k (length rec)) as [Hkl|Hkl].
  - destruct (lookup_lt_is_Some_2 rec k Hkl) as [[i b] Hi]. rewrite Hi.
    pose proof (Hr k i b Hi) as ->. destruct (decide (k = d)) as [->|Hn].
    + rewrite Z.eqb_refl, Hi. reflexivity.
    + rewrite (proj2 (Z.eqb_neq _ _)) by (intros E; apply wrap16_inj in E; lia).
      apply IH; [lia|lia|lia|exact Hd|exact Hr].
  - assert (k = length rec) as -> by lia. unfold wrapping_add16.
    rewrite wrap16_add_l, wrap16_add_r.
    replace (Z.of_nat base + Z.of_nat (length rec)) with (Z.of_nat (base + length rec)) by lia.
    destruct (decide (d = length rec)) as [->|Hn].
    + rewrite Z.eqb_refl, (lookup_ge_None_2 rec) by lia. rewrite Nat.sub_diag. reflexivity.
    + rewrite (proj2 (Z.eqb_neq _ _)) by (intros E; apply wrap16_inj in E; lia).
      rewrite IH; [|lia|rewrite length_app; simpl; lia|lia|exact Hd|].
      * rewrite (lookup_ge_None_2 rec), (lookup_ge_None_2 (rec ++ _)) by (rewrite ?length_app; simpl; lia).
        rewrite <- app_assoc, length_app. cbn [length app]. do 3 f_equal.
        replace (d - length rec)%nat with (S (d - (length rec + 1)))%nat by lia.
        unfold fill. cbn [seq map app]. do 2 f_equal. now replace (length rec + 1)%nat with (S (length rec)) by lia.
      * intros j i b Hj. apply lookup_app_Some in Hj as [Hj|[Hj1 Hj2]]; [eapply Hr; eauto|].
        apply list_lookup_singleton_Some in Hj2 as [Hj2 [= <- <-]]. do 2 f_equal. lia.
Qed.

Lemma clear_spec base (rec : list (MessageIndex * bool)) :
  exists n, clear_old_messages (wrap 16 (Z.of_nat base)) rec = (wrap 16 (Z.of_nat (base + n)), drop n rec) /\
    (n <= length rec)%nat /\ (forall k, (k < n)%nat -> exists i, rec !! k = Some (i, true)) /\
    (forall i, rec !! n <> Some (i, true)).
Proof.
  revert base. induction rec as [|[i [|]] rec IH]; intros base; cbn [clear_old_messages].
  - exists 0%nat. rewrite Nat.add_0_r. repeat split; [simpl; lia|lia|discriminate].
  - rewrite wrapping_add16_wrap. replace (Z.of_nat base + 1) with (Z.of_nat (S base)) by lia.
    destruct (IH (S base)) as (n & E & L & A & H). exists (S n). rewrite E.
    split; [now replace (S base + n)%nat with (base + S n)%nat by lia|]. split; [simpl; lia|]. split; [|exact H].
    intros [|k] Hk; [now exists i|]. apply A. lia.
  - exists 0%nat. rewrite Nat.add_0_r. repeat split; [simpl; lia|lia|discriminate].
Qed.

(** The record after marking position [base + d]. *)
Lemma marked_record got base r d rec' :
  recv_inv got base r -> (base + d)%nat ∉ got -> Z.of_nat d <= 32767 ->
  rec' = match record r !! d with
         | Some (i, _) => <[d:=(i, true)]> (record r)
         | None => record r ++ fill base (length (record r)) (d - length (record r)) ++
                   [(wrap 16 (Z.of_nat (base + d)), true)]
         end ->
  Z.of_nat (length rec') <= 32768 /\ (d < length rec')%nat /\ (length (record r) <= length rec')%nat /\
  (forall k i b, rec' !! k = Some (i, b) ->
     i = wrap 16 (Z.of_nat (base + k)) /\ (b = true <-> (base + k)%nat ∈ ((base + d)%nat :: got))).
Proof.
  intros [O L R B A Mi] Hn Hd ->. destruct (record r !! d) as [[i b]|] eqn:E.
  - pose proof (lookup_lt_Some _ _ _ E). rewrite length_insert. split; [lia|]. split; [lia|]. split; [lia|].
    intros k j c Hk. apply list_lookup_insert_Some in Hk as [(<- & [= <- <-] & _)|[Hne Hk]].
    + destruct (R _ _ _ E) as [-> _]. split; [reflexivity|]. split; [intros _; now left|reflexivity].
    + destruct (R _ _ _ Hk) as [-> Hc]. split; [reflexivity|]. rewrite Hc, elem_of_cons.
      split; [auto|]. intros [?|?]; [lia|assumption].
  - apply lookup_ge_None in E. rewrite !length_app. unfold fill. rewrite length_map, length_seq. cbn [length].
    split; [lia|]. split; [lia|]. split; [lia|]. intros k j c Hk.
    apply lookup_app_Some in Hk as [Hk|[Hk1 Hk]].
    { destruct (R _ _ _ Hk) as [-> Hc]. split; [reflexivity|]. rewrite Hc, elem_of_cons.
      split; [auto|]. intros [?|?]; [|assumption]. apply lookup_lt_Some in Hk. lia. }
    apply lookup_app_Some in Hk as [Hk|[Hk2 Hk]].
    + rewrite lookup_map in Hk. apply fmap_Some in Hk as (a & Ha & [= -> ->]).
      apply lookup_seq in Ha as [-> Ha]. split; [do 2 f_equal; lia|].
      split; [discriminate|]. intros [?|H]%elem_of_cons; [lia|]. apply A in H. lia.
    + rewrite length_map, length_seq in *.
      apply list_lookup_singleton_Some in Hk as [Hk [= <- <-]].
      replace k with d by lia. split; [reflexivity|]. split; [intros _; now left|reflexivity].
Qed.

Lemma buffer_message_spec got base r x m :
  recv_inv got base r -> Z.abs (Z.of_nat x - Z.of_nat base) <= 32767 ->
  exists r', ReliableReceiver_buffer_message (wrap 16 (Z.of_nat x)) m r = Ok r' /\
    ((x ∈ got /\ r' = r) \/
     ((x ∉ got) /\ incoming_messages r' = incoming_messages r ++ [(wrap 16 (Z.of_nat x), m)] /\
      exists base', (base <= base')%nat /\ recv_inv (x :: got) base' r')).
Proof.
  intros I Hx. unfold ReliableReceiver_buffer_message. rewrite (ri_oldest _ _ _ I).
  rewrite seq_lt_close by exact Hx. destruct (Z.ltb_spec (Z.of_nat x) (Z.of_nat base)) as [Hlt|Hge].
  { exists r. split; [reflexivity|]. left. split; [apply (ri_below _ _ _ I); lia|reflexivity]. }
  assert (exists d, x = base + d)%nat as [d ->] by (exists (x - base)%nat; lia).
  rewrite buffer_loop_spec; [|lia|lia|unfold buffer_fuel; lia|lia|intros j i b Hj; now apply (ri_record _ _ _ I) in Hj].
  assert (forall rec', (base + d)%nat ∉ got ->
    rec' = match record r !! d with
         | Some (i, _) => <[d:=(i, true)]> (record r)
         | None => record r ++ fill base (length (record r)) (d - length (record r)) ++
                   [(wrap 16 (Z.of_nat (base + d)), true)]
         end ->
    exists r', (let '(oldest, record'') := clear_old_messages (wrap 16 (Z.of_nat base)) rec' in
       Ok (mkReliableReceiver oldest record'' (incoming_messages r ++ [(wrap 16 (Z.of_nat (base + d)), m)]))) = Ok r' /\
    (((base + d)%nat ∉ got) /\ incoming_messages r' = incoming_messages r ++ [(wrap 16 (Z.of_nat (base + d)), m)] /\
      exists base', (base <= base')%nat /\ recv_inv ((base + d)%nat :: got) base' r')) as G.
  { intros rec' Hn Er. destruct (marked_record got base r d rec' I Hn ltac:(lia) Er) as (L1 & L2 & L3 & R1).
    destruct (clear_spec base rec') as (n & -> & Ln & An & Hnn). eexists; split; [reflexivity|].
    split; [exact Hn|]. split; [reflexivity|]. exists (base + n)%nat. split; [lia|].
    destruct I as [O L R B A Mi]. constructor; cbn [oldest_received_message_index record].
    - reflexivity.
    - rewrite length_drop. lia.
    - intros k i b Hk. rewrite lookup_drop in Hk. destruct (R1 _ _ _ Hk) as [-> Hb].
      rewrite <- Nat.add_assoc. auto.
    - intros y Hy. destruct (decide (y < base)%nat) as [Hy2|Hy2]; [right; now apply B|].
      destruct (An (y - base)%nat ltac:(lia)) as [i Hi]. apply R1 in Hi as [_ [Hi _]].
      specialize (Hi eq_refl). now replace (base + (y - base))%nat with y in Hi by lia.
    - intros y [->|Hy]%elem_of_cons; rewrite length_drop.
      + lia.
      + apply A in Hy. lia.
    - intros Hin. destruct (rec' !! n) as [[i b]|] eqn:En.
      + destruct (R1 _ _ _ En) as [_ [_ Hb]]. specialize (Hb Hin). subst b. exact (Hnn i eq_refl).
      + apply lookup_ge_None in En. apply elem_of_cons in Hin as [Hin|Hin]; [lia|].
        apply A in Hin. lia. }
  destruct (record r !! d) as [[i [|]]|] eqn:E.
  - exists r. split; [reflexivity|]. left. split; [|reflexivity]. apply (ri_record _ _ _ I) in E as [_ [E _]]. auto.
  - assert ((base + d)%nat ∉ got) as Hn.
    { intros Hin. destruct (ri_record _ _ _ I _ _ _ E) as [_ [_ Hb]]. specialize (Hb Hin). discriminate. }
    rewrite bind_ok. destruct (G _ Hn eq_refl) as (r' & E' & H'). eauto.
  - assert ((base + d)%nat ∉ got) as Hn.
    { intros Hin. apply (ri_above _ _ _ I) in Hin. apply lookup_ge_None in E. lia. }
    rewrite bind_ok. destruct (G _ Hn eq_refl) as (r' & E' & H'). eauto.
Qed.
End Receiver.
Arguments ReliableReceiver M : clear implicits.

(** * Arrangers *)
Section Arrangers.
Context {M : Type}.

Inductive MessageSlot : Type :=
| NotReceived
| Received (message : M)
| PreviousFragment.

Definition is_not_received (s : MessageSlot) : bool :=
  match s with NotReceived => true | _ => false end.

Record OrderedArranger : Type := mkOrderedArranger {
  oa_buffer : list (MessageIndex * MessageSlot);
  messages_received : MessageIndex }.

Definition OrderedArranger_new : OrderedArranger := mkOrderedArranger [] 0.

(** [while current_message_index != end_message_index]: the slots after the start of a
    fragmented message that is already covered by the buffer. *)
Fixpoint mark_fragments (fuel : nat) (current_message_index end_message_index : Z)
    (current_index : nat) (buffer : list (MessageIndex * MessageSlot))
  : res (list (MessageIndex * MessageSlot)) :=
  match fuel with
  | O => Diverge
  | S fuel' =>
      if current_message_index =? end_message_index then Ok buffer else
      match buffer !! S current_index with
      | None => Panic
      | Some (old, slot) =>
          if is_not_received slot then
            mark_fragments fuel' old end_message_index (S current_index)
              (<[S current_index:=(old, PreviousFragment)]> buffer)
          else Panic
      end
  end.

(** [while next_message_index != end_message_index], at the end of the buffer. *)
Fixpoint push_fragments (fuel : nat) (next_message_index end_message_index : Z)
    (buffer : list (MessageIndex * MessageSlot)) : res (list (MessageIndex * MessageSlot)) :=
  match fuel with
  | O => Diverge
  | S fuel' =>
      if next_message_index =? end_message_index then Ok buffer else
      let next := wrapping_add16 next_message_index 1 in
      push_fragments fuel' next end_message_index (buffer ++ [(next, PreviousFragment)])
  end.

(** The first loop of [process]: put the message where it needs to go. *)
Fixpoint place_message (fuel : nat) (start_message_index end_message_index : Z) (message : M)
    (messages_received : Z) (current_index : nat) (buffer : list (MessageIndex * MessageSlot))
  : res (list (MessageIndex * MessageSlot)) :=
  match fuel with
  | O => Diverge
  | S fuel' =>
      if (current_index <? length buffer)%nat then
        match buffer !! current_index with
        | None => Panic
        | Some (old, slot) =>
            if old =? start_message_index then
              if is_not_received slot then
                mark_fragments (S (length buffer)) start_message_index end_message_index current_index
                  (<[current_index:=(old, Received message)]> buffer)
              else Panic
            else place_message fuel' start_message_index end_message_index message messages_received
                   (S current_index) buffer
        end
      else
        let next := wrapping_add16 messages_received (wrap 16 (Z.of_nat current_index)) in
        if next =? start_message_index then
          push_fragments (Z.to_nat 65536) next end_message_index (buffer ++ [(next, Received message)])
        else place_message fuel' start_message_index end_message_index message messages_received
               (S current_index) (buffer ++ [(next, NotReceived)])
  end.

Definition place_fuel (buffer : list (MessageIndex * MessageSlot)) : nat :=
  (length buffer + Z.to_nat 65537)%nat.

(** [while let Some((_, PreviousFragment)) = self.buffer.front()] *)
Fixpoint pop_fragments (buffer : list (MessageIndex * MessageSlot)) (received : Z)
  : list (MessageIndex * MessageSlot) * Z :=
  match buffer with
  | (_, PreviousFragment) :: buffer' => pop_fragments buffer' (wrapping_add16 received 1)
  | _ => (buffer, received)
  end.

(** The second loop: pop messages out in order; every round pops one, so the length of
    the buffer bounds it. *)
Fixpoint pop_messages (fuel : nat) (buffer : list (MessageIndex * MessageSlot)) (received : Z)
  : res (list (MessageIndex * MessageSlot) * Z * list M) :=
  match fuel with
  | O => Diverge
  | S fuel' =>
      match buffer with
      | (_, Received message) :: buffer' =>
          let '(buffer2, received2) := pop_fragments buffer' (wrapping_add16 received 1) in
          '(buffer3, received3, output) ← pop_messages fuel' buffer2 received2;
          Ok (buffer3, received3, message :: output)
      | _ => Ok (buffer, received, [])
      end
  end.

Definition OrderedArranger_process (start_message_index end_message_index : Z) (message : M)
    (a : OrderedArranger) : res (list M * OrderedArranger) :=
  buffer ← place_message (place_fuel (oa_buffer a)) start_message_index end_message_index message
             (messages_received a) 0 (oa_buffer a);
  '(buffer', received, output) ← pop_messages (S (length buffer)) buffer (messages_received a);
  Ok (output, mkOrderedArranger buffer' received).

Record SequencedArranger : Type := mkSequencedArranger { newest_received_message_index : MessageIndex }.

Definition SequencedArranger_process (start_message_index end_message_index : Z) (message : M)
    (a : SequencedArranger) : list M * SequencedArranger :=
  if negb (sequence_less_than start_message_index (newest_received_message_index a))
  then ([message], mkSequencedArranger end_message_index)
  else ([], a).

Definition UnorderedArranger_process (start_message_index end_message_index : Z) (message : M) : list M :=
  [message].

(** ** The ordered arranger as a function from positions to slots *)
Definition slot_msg (s : MessageSlot) : option M :=
  match s with Received m => Some m | _ => None end.

(** The messages at the positions [from], [from + 1], ..., in order. *)
Definition slot_msgs (sl : nat -> MessageSlot) (from n : nat) : list M :=
  omap slot_msg (map sl (seq from n)).

(** [sl] with a message that covers the positions [x] to [y]. *)
Definition place (x y : nat) (m : M) (sl : nat -> MessageSlot) (z : nat) : MessageSlot :=
  if decide (z = x) then Received m
  else if decide (x < z <= y)%nat then PreviousFragment else sl z.

Record buffer_is (sl : nat -> MessageSlot) (base : nat) (buffer : list (MessageIndex * MessageSlot)) : Prop := {
  bi_slot : forall k i s, buffer !! k = Some (i, s) -> i = wrap 16 (Z.of_nat (base + k)) /\ s = sl (base + k)%nat;
  bi_above : forall x, (base + length buffer <= x)%nat -> sl x = NotReceived;
  bi_last : forall i, last buffer <> Some (i, NotReceived);
}.

Record arr_inv (sl : nat -> MessageSlot) (base : nat) (a : OrderedArranger) : Prop := {
  ai_received : messages_received a = wrap 16 (Z.of_nat base);
  ai_buffer : buffer_is sl base (oa_buffer a);
  ai_first : sl base = NotReceived;
}.

Lemma arr_inv_new : arr_inv (fun _ => NotReceived) 0 OrderedArranger_new.
Proof.
  constructor; try reflexivity. constructor; simpl; try discriminate; reflexivity.
Qed.

Lemma push_fragments_spec base fuel x y buffer :
  (base + length buffer = S x)%nat -> (x <= y)%nat -> (y - x < fuel)%nat -> Z.of_nat (y - x) < 65536 ->
  exists buf, push_fragments fuel (wrap 16 (Z.of_nat x)) (wrap 16 (Z.of_nat y)) buffer = Ok buf /\
    (base + length buf = S y)%nat /\
    (forall k, (base + k <= x)%nat -> buf !! k = buffer !! k) /\
    (forall k, (x < base + k <= y)%nat -> buf !! k = Some (wrap 16 (Z.of_nat (base + k)), PreviousFragment)).
Proof.
  revert x buffer. induction fuel as [|fuel IH]; intros x buffer Hl Hxy Hf Hd; [lia|]. cbn [push_fragments].
  destruct (decide (x = y)) as [->|Hn].
  - rewrite Z.eqb_refl. exists buffer. split; [reflexivity|]. split; [lia|]. split; [auto|lia].
  - rewrite (proj2 (Z.eqb_neq _ _)) by (intros E; apply wrap16_inj in E; lia).
    rewrite wrapping_add16_wrap. replace (Z.of_nat x + 1) with (Z.of_nat (S x)) by lia.
    destruct (IH (S x) (buffer ++ [(wrap 16 (Z.of_nat (S x)), PreviousFragment)])) as (buf & E & L & B & F);
      [rewrite length_app; simpl; lia|lia|lia|lia|].
    exists buf. split; [exact E|]. split; [exact L|]. split.
    + intros k Hk. rewrite B by lia. apply lookup_app_l. lia.
    + intros k Hk. destruct (decide (base + k = S x)%nat) as [Ek|Ek]; [|apply F; lia].
      rewrite B by lia. rewrite lookup_app_r by lia. replace (k - length buffer)%nat with 0%nat by lia.
      simpl. now rewrite Ek.
Qed.

Lemma mark_fragments_spec sl base fuel x y buffer :
  (base <= x)%nat -> (x <= y)%nat -> (y - x < fuel)%nat -> Z.of_nat (y - x) < 65536 ->
  (y < base + length buffer)%nat ->
  (forall k i s, buffer !! k = Some (i, s) -> (x < base + k)%nat ->
     i = wrap 16 (Z.of_nat (base + k)) /\ s = sl (base + k)%nat) ->
  (forall z, (x < z <= y)%nat -> sl z = NotReceived) ->
  exists buf, mark_fragments fuel (wrap 16 (Z.of_nat x)) (wrap 16 (Z.of_nat y)) (x - base) buffer = Ok buf /\
    length buf = length buffer /\
    (forall k, ~ (x < base + k <= y)%nat -> buf !! k = buffer !! k) /\
    (forall k, (x < base + k <= y)%nat -> buf !! k = Some (wrap 16 (Z.of_nat (base + k)), PreviousFragment)).
Proof.
  revert x buffer. induction fuel as [|fuel IH]; intros x buffer Hb Hxy Hf Hd Hl Hs Hn; [lia|].
  cbn [mark_fragments]. destruct (decide (x = y)) as [->|Hne].
  - rewrite Z.eqb_refl. exists buffer. split; [reflexivity|]. split; [reflexivity|]. split; [auto|lia].
  - rewrite (proj2 (Z.eqb_neq _ _)) by (intros E; apply wrap16_inj in E; lia).
    destruct (lookup_lt_is_Some_2 buffer (S (x - base))) as [[i s] Hi]; [lia|]. rewrite Hi.
    destruct (Hs _ _ _ Hi ltac:(lia)) as [-> ->]. replace (base + S (x - base))%nat with (S x) in * by lia.
    rewrite Hn by lia. cbn [is_not_received].
    replace (S (x - base)) with (S x - base)%nat in * by lia.
    destruct (IH (S x) (<[(S x - base)%nat:=(wrap 16 (Z.of_nat (S x)), PreviousFragment)]> buffer))
      as (buf & E & L & B & F); [lia|lia|lia|lia|rewrite length_insert; lia| |intros; apply Hn; lia|].
    { intros k i s Hk Hkx. apply list_lookup_insert_Some in Hk as [(? & _)|[_ Hk]]; [lia|].
      apply (Hs _ _ _ Hk). lia. }
    rewrite length_insert in L. exists buf. split; [exact E|]. split; [exact L|]. split.
    + intros k Hk. rewrite B by lia. apply list_lookup_insert_ne. lia.
    + intros k Hk. destruct (decide (base + k = S x)%nat) as [Ek|Ek]; [|apply F; lia].
      rewrite B by lia. replace k with (S x - base)%nat by lia. rewrite list_lookup_insert_eq by lia.
      do 3 f_equal. lia.
Qed.

(** A buffer described position by position. *)
Lemma buffer_is_intro sl base buffer :
  (forall k, (k < length buffer)%nat -> buffer !! k = Some (wrap 16 (Z.of_nat (base + k)), sl (base + k)%nat)) ->
  (forall x, (base + length buffer <= x)%nat -> sl x = NotReceived) ->
  (forall n, length buffer = S n -> sl (base + n)%nat <> NotReceived) ->
  buffer_is sl base buffer.
Proof.
  intros S A L. constructor; [|exact A|].
  - intros k i s Hk. rewrite S in Hk by (eapply lookup_lt_Some; eauto). injection Hk as <- <-. auto.
  - intros i Hi. rewrite last_lookup in Hi. destruct buffer as [|e buffer]; [discriminate|].
    cbn [length Nat.pred] in *. rewrite S in Hi by lia. injection Hi as _ Hi. exact (L _ eq_refl Hi).
Qed.

Lemma place_loop sl base fuel x y m k buffer :
  (base + k <= x)%nat -> (x <= y)%nat -> (k <= length buffer)%nat -> (x - base - k < fuel)%nat ->
  Z.of_nat (y - base) < 65536 ->
  (forall z, (x <= z <= y)%nat -> sl z = NotReceived) ->
  (forall j, (j < length buffer)%nat -> buffer !! j = Some (wrap 16 (Z.of_nat (base + j)), sl (base + j)%nat)) ->
  (forall z, (base + length buffer <= z)%nat -> sl z = NotReceived) ->
  ((x < base + length buffer)%nat -> forall n, length buffer = S n -> sl (base + n)%nat <> NotReceived) ->
  exists buf, place_message fuel (wrap 16 (Z.of_nat x)) (wrap 16 (Z.of_nat y)) m (wrap 16 (Z.of_nat base)) k buffer
      = Ok buf /\ buffer_is (place x y m sl) base buf.
Proof.
  revert k buffer. induction fuel as [|fuel IH]; intros k buffer Hk Hxy Hkl Hf Hd Hn Hs Ha Hl; [lia|].
  cbn [place_message]. destruct (Nat.ltb_spec k (length buffer)) as [Hkb|Hkb].
  - rewrite (Hs k Hkb). destruct (decide (base + k = x)%nat) as [Ek|Ek].
    + rewrite Ek, Z.eqb_refl, Hn by lia. cbn [is_not_received].
      destruct (length buffer) as [|n] eqn:El; [lia|].
      assert (y <= base + n)%nat as Hyn.
      { destruct (decide (y <= base + n)%nat); [assumption|]. exfalso. apply (Hl ltac:(lia) n eq_refl). apply Hn. lia. }
      replace k with (x - base)%nat by lia.
      destruct (mark_fragments_spec sl base (S (S n)) x y (<[(x - base)%nat:=(wrap 16 (Z.of_nat x), Received m)]> buffer))
        as (buf & E & L & B & F); [lia|lia|lia|lia|rewrite length_insert; lia| |intros; apply Hn; lia|].
      { intros j i s Hj Hjx. rewrite list_lookup_insert_ne in Hj by lia.
        rewrite Hs in Hj by (apply lookup_lt_Some in Hj; lia). injection Hj as <- <-. auto. }
      rewrite length_insert in L. exists buf. split; [exact E|]. apply buffer_is_intro.
      * intros j Hj. rewrite L, El in Hj. unfold place. destruct (decide (x < base + j <= y)%nat) as [Hr|Hr].
        -- rewrite F by exact Hr. rewrite decide_False by lia. reflexivity.
        -- rewrite B by exact Hr. destruct (decide (base + j = x)%nat) as [Ej|Ej].
           ++ replace j with (x - base)%nat by lia. rewrite list_lookup_insert_eq by lia.
              do 3 f_equal. lia.
           ++ rewrite list_lookup_insert_ne by lia. apply Hs. lia.
      * intros z Hz. rewrite L, El in Hz. unfold place. rewrite !decide_False by lia. apply Ha. lia.
      * intros n' Hn'. rewrite L, El in Hn'. injection Hn' as <-. unfold place.
        destruct (decide (base + n = x)%nat); [discriminate|].
        destruct (decide (x < base + n <= y)%nat); [discriminate|]. apply Hl; [lia|reflexivity].
    + rewrite (proj2 (Z.eqb_neq _ _)) by (intros E; apply wrap16_inj in E; lia).
      apply IH; try assumption; lia.
  - assert (k = length buffer) as -> by lia. unfold wrapping_add16. rewrite wrap16_add_l, wrap16_add_r.
    replace (Z.of_nat base + Z.of_nat (length buffer)) with (Z.of_nat (base + length buffer)) by lia.
    destruct (decide (base + length buffer = x)%nat) as [Ek|Ek].
    + rewrite Ek, Z.eqb_refl.
      destruct (push_fragments_spec base (Z.to_nat 65536) x y (buffer ++ [(wrap 16 (Z.of_nat x), Received m)]))
        as (buf & E & L & B & F); [rewrite length_app; simpl; lia|lia|lia|lia|].
      exists buf. split; [exact E|]. apply buffer_is_intro.
      * intros j Hj. unfold place. destruct (decide (base + j = x)%nat) as [Ej|Ej].
        -- rewrite B, lookup_app_r by lia. replace (j - length buffer)%nat with 0%nat by lia. simpl. now rewrite Ej.
        -- destruct (decide (x < base + j <= y)%nat) as [Hr|Hr]; [now apply F|].
           rewrite B, lookup_app_l by lia. apply Hs. lia.
      * intros z Hz. unfold place. rewrite !decide_False by lia. apply Ha. lia.
      * intros n Hn'. replace (base + n)%nat with y by lia. unfold place.
        destruct (decide (y = x)); [discriminate|]. rewrite decide_True by lia. intros [=].
    + rewrite (proj2 (Z.eqb_neq _ _)) by (intros E; apply wrap16_inj in E; lia).
      apply IH; rewrite ?length_app; cbn [length]; try lia; try assumption.
      * intros j Hj. destruct (decide (j = length buffer)) as [->|Hne].
        -- rewrite lookup_app_r, Nat.sub_diag, Ha by lia. reflexivity.
        -- rewrite lookup_app_l by lia. apply Hs. lia.
      * intros z Hz. apply Ha. lia.
Qed.

Lemma place_spec sl base x y m buffer :
  buffer_is sl base buffer -> (base <= x <= y)%nat -> Z.of_nat (y - base) < 65536 ->
  (forall z, (x <= z <= y)%nat -> sl z = NotReceived) ->
  exists buf, place_message (place_fuel buffer) (wrap 16 (Z.of_nat x)) (wrap 16 (Z.of_nat y)) m
      (wrap 16 (Z.of_nat base)) 0 buffer = Ok buf /\ buffer_is (place x y m sl) base buf.
Proof.
  intros [S A L] Hx Hd Hn.
  assert (forall j, (j < length buffer)%nat -> buffer !! j = Some (wrap 16 (Z.of_nat (base + j)), sl (base + j)%nat)) as S'.
  { intros j Hj. destruct (lookup_lt_is_Some_2 buffer j Hj) as [[i s] Hi]. rewrite Hi.
    destruct (S _ _ _ Hi) as [-> ->]. reflexivity. }
  apply place_loop; try assumption; try lia; [unfold place_fuel; lia|].
  intros _ n Hn' E. apply (L (wrap 16 (Z.of_nat (base + n)))). rewrite last_lookup, Hn'. cbn [Nat.pred].
  rewrite S' by lia. now rewrite E.
Qed.

Lemma buffer_is_tail sl base i s buffer :
  buffer_is sl base ((i, s) :: buffer) -> buffer_is sl (S base) buffer.
Proof.
  intros [S A L]. constructor.
  - intros k j t Hk. destruct (S (Datatypes.S k) j t Hk) as [-> ->].
    now replace (base + Datatypes.S k)%nat with (Datatypes.S base + k)%nat by lia.
  - intros x Hx. apply A. simpl. lia.
  - intros j Hj. apply (L j). destruct buffer; [discriminate|exact Hj].
Qed.

Lemma pop_fragments_spec sl base buffer received :
  buffer_is sl base buffer -> received = wrap 16 (Z.of_nat base) ->
  exists n, (n <= length buffer)%nat /\
    pop_fragments buffer received = (drop n buffer, wrap 16 (Z.of_nat (base + n))) /\
    buffer_is sl (base + n) (drop n buffer) /\ slot_msgs sl base n = [] /\
    sl (base + n)%nat <> PreviousFragment /\
    (forall z, (base <= z < base + n)%nat -> sl z = PreviousFragment).
Proof.
  revert base received. induction buffer as [|[i s] buffer IH]; intros base received H ->.
  - exists 0%nat. rewrite Nat.add_0_r. split; [lia|]. split; [reflexivity|]. split; [exact H|].
    split; [reflexivity|]. split; [|lia]. rewrite (bi_above _ _ _ H) by (simpl; lia). discriminate.
  - destruct (bi_slot _ _ _ H 0%nat i s eq_refl) as [-> Es]. rewrite Nat.add_0_r in Es.
    assert (s <> PreviousFragment -> exists n, (n <= length ((wrap 16 (Z.of_nat (base + 0)), s) :: buffer))%nat /\
      pop_fragments ((wrap 16 (Z.of_nat (base + 0)), s) :: buffer) (wrap 16 (Z.of_nat base)) =
        (drop n ((wrap 16 (Z.of_nat (base + 0)), s) :: buffer), wrap 16 (Z.of_nat (base + n))) /\
      buffer_is sl (base + n) (drop n ((wrap 16 (Z.of_nat (base + 0)), s) :: buffer)) /\
      slot_msgs sl base n = [] /\ sl (base + n)%nat <> PreviousFragment /\
      (forall z, (base <= z < base + n)%nat -> sl z = PreviousFragment)) as Hstop.
    { intros Hs. exists 0%nat. split; [lia|]. rewrite (Nat.add_0_r base) in *. split; [|split; [exact H|split; [reflexivity|split; [congruence|lia]]]].
      cbn [pop_fragments]. destruct s; [reflexivity|reflexivity|congruence]. }
    destruct s; try (apply Hstop; discriminate). clear Hstop. cbn [pop_fragments].
    rewrite wrapping_add16_wrap. replace (Z.of_nat base + 1) with (Z.of_nat (S base)) by lia.
    destruct (IH (S base) (wrap 16 (Z.of_nat (S base)))) as (n & Ln & E & B & Em & Hn & Hz); [|reflexivity|].
    { apply (buffer_is_tail sl base (wrap 16 (Z.of_nat (base + 0))) PreviousFragment). exact H. }
    exists (S n). replace (base + S n)%nat with (S base + n)%nat by lia.
    split; [simpl; lia|]. split; [exact E|]. split; [exact B|].
    split; [|split; [exact Hn|]].
    + unfold slot_msgs in *. cbn [seq map omap list_omap]. rewrite <- Es. exact Em.
    + intros z Hzr. destruct (decide (z = base)) as [->|Hzb]; [congruence|]. apply Hz. lia.
Qed.

Lemma slot_msgs_app sl from n k : slot_msgs sl from (n + k) = slot_msgs sl from n ++ slot_msgs sl (from + n) k.
Proof. unfold slot_msgs. now rewrite seq_app, map_app, omap_app. Qed.

Lemma pop_messages_spec sl fuel base buffer :
  buffer_is sl base buffer -> (length buffer < fuel)%nat -> sl base <> PreviousFragment ->
  exists n, (n <= length buffer)%nat /\
    pop_messages fuel buffer (wrap 16 (Z.of_nat base)) =
      Ok (drop n buffer, wrap 16 (Z.of_nat (base + n)), slot_msgs sl base n) /\
    buffer_is sl (base + n) (drop n buffer) /\ sl (base + n)%nat = NotReceived /\
    (forall z, (base <= z < base + n)%nat -> sl z <> NotReceived).
Proof.
  revert base buffer. induction fuel as [|fuel IH]; intros base buffer H Hf Hp; [lia|]. cbn [pop_messages].
  assert (sl base = NotReceived -> exists n, (n <= length buffer)%nat /\
    Ok (buffer, wrap 16 (Z.of_nat base), []) = Ok (drop n buffer, wrap 16 (Z.of_nat (base + n)), slot_msgs sl base n) /\
    buffer_is sl (base + n) (drop n buffer) /\ sl (base + n)%nat = NotReceived /\
    (forall z, (base <= z < base + n)%nat -> sl z <> NotReceived)) as Hstop.
  { intros E. exists 0%nat. rewrite Nat.add_0_r. split; [lia|]. split; [reflexivity|]. split; [exact H|].
    split; [exact E|lia]. }
  destruct buffer as [|[i s] buffer].
  { apply Hstop. apply (bi_above _ _ _ H). simpl. lia. }
  destruct (bi_slot _ _ _ H 0%nat i s eq_refl) as [_ Es]. rewrite Nat.add_0_r in Es.
  destruct s as [|m|]; [apply Hstop; congruence| |congruence]. clear Hstop.
  rewrite wrapping_add16_wrap. replace (Z.of_nat base + 1) with (Z.of_nat (S base)) by lia.
  destruct (pop_fragments_spec sl (S base) buffer _ (buffer_is_tail _ _ _ _ _ H) eq_refl) as (n & Ln & -> & B & Em & Hn & Hpf).
  destruct (IH (S base + n)%nat (drop n buffer) B) as (k & Lk & E & B' & Hk & Hz);
    [rewrite length_drop; simpl in Hf; lia|exact Hn|].
  rewrite length_drop in Lk. exists (S (n + k)). rewrite E, bind_ok, drop_drop.
  replace (base + S (n + k))%nat with (S base + n + k)%nat by lia. rewrite drop_drop in B'.
  split; [simpl; lia|]. split; [|split; [exact B'|split; [exact Hk|]]].
  - do 2 f_equal. change (S (n + k)) with (1 + (n + k))%nat. rewrite (slot_msgs_app sl base 1), (slot_msgs_app sl (base + 1)).
    replace (base + 1)%nat with (S base) by lia. rewrite Em. unfold slot_msgs at 2. cbn [seq map omap list_omap].
    rewrite <- Es. reflexivity.
  - intros z Hzr. destruct (decide (z = base)) as [->|Hzb]; [congruence|].
    destruct (decide (z < S base + n)%nat) as [Hzl|Hzl]; [|apply Hz; lia].
    rewrite Hpf by lia. discriminate.
Qed.

Lemma process_spec sl base a x y m :
  arr_inv sl base a -> (base <= x <= y)%nat -> Z.of_nat (y - base) < 65536 ->
  (forall z, (x <= z <= y)%nat -> sl z = NotReceived) ->
  exists n a', OrderedArranger_process (wrap 16 (Z.of_nat x)) (wrap 16 (Z.of_nat y)) m a =
      Ok (slot_msgs (place x y m sl) base n, a') /\ arr_inv (place x y m sl) (base + n) a' /\
    (forall z, (base <= z < base + n)%nat -> place x y m sl z <> NotReceived).
Proof.
  intros [R B F] Hx Hd Hn. unfold OrderedArranger_process. rewrite R.
  destruct (place_spec sl base x y m (oa_buffer a) B Hx Hd Hn) as (buf & -> & B'). rewrite bind_ok.
  destruct (pop_messages_spec (place x y m sl) (S (length buf)) base buf B') as (n & _ & E & B2 & Hk & Hz); [lia| |].
  { unfold place. destruct (decide (base = x)); [discriminate|]. rewrite decide_False by lia. rewrite F. discriminate. }
  rewrite E, bind_ok. exists n. eexists. split; [reflexivity|]. split; [|exact Hz].
  constructor; [reflexivity|exact B2|exact Hk].
Qed.
End Arrangers.
Arguments MessageSlot M : clear implicits.
Arguments OrderedArranger M : clear implicits.
