(* ===== verification/ReliableChannel.v ===== *)
(** The reliable channels end to end: a [ReliableSender] and a [ReliableReceiver] with
    its arranger (the parts of src/shared/src/messages/channels modelled in [Reliable])
    over a network that loses, duplicates and reorders, with acknowledgements.  The
    claims at the end are the delivery guarantees of the channel modes
    [OrderedReliable], [UnorderedReliable] and [SequencedReliable] for messages that
    need no fragmentation and refer to no missing entity. *)

From Stdlib Require Import ZArith Lia.
From stdpp Require Import base list numbers relations.
From S2P Require Import Prelude Wrapping Reliable.

Section Channel.
Context {P : Type}.

(** [ReliableMessageReceiver<OrderedArranger>::buffer_message]: the receiver, then
    [push_message] with every message it lets through. *)
Definition ordered_buffer_message (i : MessageIndex) (m : P) (r : ReliableReceiver P) (a : OrderedArranger P)
  : res (ReliableReceiver P * OrderedArranger P * list P) :=
  r1 ← ReliableReceiver_buffer_message i m r;
  let '(received, r2) := ReliableReceiver_receive_messages r1 in
  '(a', out) ← foldM (fun p '(a, out) =>
      '(o, a') ← OrderedArranger_process (fst p) (fst p) (snd p) a; Ok (a', out ++ o))
    received (a, []);
  Ok (r2, a', out).

(** Positions (from [k] on) of the entries that [collect_messages] sends. *)
Fixpoint due_positions (now d : Z) (l : list (option (MessageIndex * option Z * P))) (k : nat) : list nat :=
  match l with
  | [] => []
  | Some (_, last, _) :: l' => (if should_send now d last then [k] else []) ++ due_positions now d l' (S k)
  | None :: l' => due_positions now d l' (S k)
  end.

(** The state of the two ends and of the network.  [c_log], [c_out], [c_net], [c_got] and
    [c_delivered] record history: the messages accepted, the positions of the queued
    transmissions, the transmissions, the positions that reached the receiver (newest
    first) and the messages handed to the application. *)
Record chan : Type := mkChan {
  c_log : list P; c_S : ReliableSender P; c_out : list nat;
  c_net : list (nat * P);
  c_R : ReliableReceiver P; c_A : OrderedArranger P;
  c_got : list nat; c_delivered : list P }.

Definition chan_init (depth : option Z) : chan :=
  mkChan [] (ReliableSender_new depth) [] [] ReliableReceiver_new OrderedArranger_new [] [].

Definition queue_base (c : chan) : nat := (length (c_log c) - length (sending_messages (c_S c)))%nat.

Inductive chan_step : chan -> chan -> Prop :=
| chan_send c m S' :
    Z.of_nat (length (sending_messages (c_S c))) < 65536 ->
    ReliableSender_send_message m (c_S c) = (true, S') ->
    chan_step c (mkChan (c_log c ++ [m]) S' (c_out c) (c_net c) (c_R c) (c_A c) (c_got c) (c_delivered c))
| chan_collect c now d :
    chan_step c (mkChan (c_log c) (ReliableSender_collect_messages now d (c_S c))
      (c_out c ++ due_positions now d (sending_messages (c_S c)) (queue_base c))
      (c_net c) (c_R c) (c_A c) (c_got c) (c_delivered c))
| chan_transmit c i m out x xs :
    outgoing_messages (c_S c) = (i, m) :: out -> c_out c = x :: xs ->
    chan_step c (mkChan (c_log c)
      (mkReliableSender (sending_messages (c_S c)) (next_send_message_index (c_S c)) out
         (min_last_sent (c_S c)) (has_unsent (c_S c)) (max_queue_depth (c_S c))) xs
      ((x, m) :: c_net c) (c_R c) (c_A c) (c_got c) (c_delivered c))
| chan_receive c x m R' A' out :
    (x, m) ∈ c_net c -> Z.abs (Z.of_nat x - Z.of_nat (length (c_delivered c))) <= 32767 ->
    ordered_buffer_message (wrap 16 (Z.of_nat x)) m (c_R c) (c_A c) = Ok (R', A', out) ->
    chan_step c (mkChan (c_log c) (c_S c) (c_out c) (c_net c) R' A'
      (if decide (x ∈ c_got c) then c_got c else x :: c_got c) (c_delivered c ++ out))
| chan_ack c x :
    x ∈ c_got c -> Z.of_nat (length (c_log c)) <= Z.of_nat x + 65536 ->
    chan_step c (mkChan (c_log c) (snd (ReliableSender_deliver_message (wrap 16 (Z.of_nat x)) (c_S c)))
      (c_out c) (c_net c) (c_R c) (c_A c) (c_got c) (c_delivered c)).

Definition chan_reachable (depth : option Z) : chan -> Prop := rtc chan_step (chan_init depth).

(** * Invariant *)
Record chan_inv (c : chan) (sbase rbase : nat) (sl : nat -> MessageSlot P) : Prop := {
  ci_sender : sender_inv (c_log c) sbase (c_S c);
  ci_queue : Z.of_nat (length (sending_messages (c_S c))) <= 65536;
  ci_acked : forall x, (x < length (c_log c))%nat ->
    (x < sbase)%nat \/ sending_messages (c_S c) !! (x - sbase)%nat = Some None -> x ∈ c_got c;
  ci_out : Forall2 (fun x p => fst p = wrap 16 (Z.of_nat x) /\ c_log c !! x = Some (snd p))
             (c_out c) (outgoing_messages (c_S c));
  ci_net : forall x m, (x, m) ∈ c_net c -> c_log c !! x = Some m;
  ci_recv : recv_inv (c_got c) rbase (c_R c);
  ci_incoming : incoming_messages (c_R c) = [];
  ci_arr : arr_inv sl rbase (c_A c);
  ci_slots : forall z, (z ∈ c_got c -> exists m, sl z = Received m /\ c_log c !! z = Some m) /\
    ((z ∉ c_got c) -> sl z = NotReceived);
  ci_nodup : NoDup (c_got c);
  ci_bound : forall z, z ∈ c_got c -> (z < length (c_log c))%nat;
  ci_delivered : c_delivered c = take rbase (c_log c);
  ci_rbase : (rbase <= length (c_log c))%nat;
}.

Lemma chan_inv_init depth : chan_inv (chan_init depth) 0 0 (fun _ => NotReceived).
Proof.
  constructor; simpl.
  - apply sender_inv_new.
  - lia.
  - lia.
  - constructor.
  - intros x m []%elem_of_nil.
  - apply recv_inv_new.
  - reflexivity.
  - apply arr_inv_new.
  - intros z. split; [intros []%elem_of_nil|reflexivity].
  - constructor.
  - intros z []%elem_of_nil.
  - reflexivity.
  - lia.
Qed.

Lemma delivered_length c sb rb sl : chan_inv c sb rb sl -> length (c_delivered c) = rb.
Proof. intros I. rewrite (ci_delivered _ _ _ _ I), length_take. pose proof (ci_rbase _ _ _ _ I). lia. Qed.

Lemma due_positions_spec log now d l k :
  (forall j e, l !! j = Some e -> entry_ok log (k + j) e) ->
  Forall2 (fun x p => fst p = wrap 16 (Z.of_nat x) /\ log !! x = Some (snd p))
    (due_positions now d l k) (due now d l).
Proof.
  revert k. induction l as [|e l IH]; intros k H; [constructor|].
  assert (Forall2 (fun x p => fst p = wrap 16 (Z.of_nat x) /\ log !! x = Some (snd p))
    (due_positions now d l (S k)) (due now d l)) as T.
  { apply IH. intros j e' Hj. replace (S k + j)%nat with (k + S j)%nat by lia. now apply H. }
  pose proof (H 0%nat e eq_refl) as He. rewrite Nat.add_0_r in He.
  destruct e as [[[i last] m]|]; cbn [due_positions]; unfold due; cbn [omap list_omap]; [|exact T].
  destruct (should_send now d last); [|exact T]. constructor; [exact He|exact T].
Qed.

Lemma chan_send_inv c sb rb sl m S' :
  chan_inv c sb rb sl -> Z.of_nat (length (sending_messages (c_S c))) < 65536 ->
  ReliableSender_send_message m (c_S c) = (true, S') ->
  chan_inv (mkChan (c_log c ++ [m]) S' (c_out c) (c_net c) (c_R c) (c_A c) (c_got c) (c_delivered c)) sb rb sl.
Proof.
  intros I Hq E. pose proof (send_inv _ _ _ _ _ (ci_sender _ _ _ _ I) E) as I'.
  assert (sending_messages S' = sending_messages (c_S c) ++ [Some (next_send_message_index (c_S c), None, m)] /\
    outgoing_messages S' = outgoing_messages (c_S c)) as [Es Eo].
  { unfold ReliableSender_send_message in E.
    destruct (match max_queue_depth (c_S c) with Some _ => _ | None => _ end); [discriminate|].
    injection E as <-. split; reflexivity. }
  pose proof (si_len _ _ _ (ci_sender _ _ _ _ I)) as L. destruct I as [Is Iq Ia Io In Ir Ii Iv Isl Id Ib Ide Irb].
  constructor; simpl; try assumption.
  - rewrite Es, length_app; simpl. lia.
  - intros x Hx Hk. rewrite length_app in Hx; simpl in Hx. rewrite Es in Hk.
    destruct (decide (x = length (c_log c))) as [->|Hn].
    + destruct Hk as [Hk|Hk]; [lia|]. rewrite lookup_app_r in Hk by lia.
      replace (length (c_log c) - sb - length (sending_messages (c_S c)))%nat with 0%nat in Hk by lia. discriminate.
    + apply Ia; [lia|]. destruct Hk as [Hk|Hk]; [now left|]. destruct (decide (x < sb)%nat); [now left|right].
      now rewrite lookup_app_l in Hk by lia.
  - rewrite Eo. eapply Forall2_impl; [exact Io|]. intros x p [H1 H2]. split; [exact H1|]. now apply lookup_app_l_Some.
  - intros x m' Hx. apply lookup_app_l_Some. now apply In.
  - intros z. destruct (Isl z) as [S1 S2]. split; [|exact S2]. intros Hz. destruct (S1 Hz) as (m' & ? & ?).
    exists m'. split; [assumption|]. now apply lookup_app_l_Some.
  - intros z Hz. apply Ib in Hz. rewrite length_app. lia.
  - rewrite Ide, take_app_le by lia. reflexivity.
  - rewrite length_app. lia.
Qed.

Lemma chan_collect_inv c sb rb sl now d :
  chan_inv c sb rb sl ->
  chan_inv (mkChan (c_log c) (ReliableSender_collect_messages now d (c_S c))
      (c_out c ++ due_positions now d (sending_messages (c_S c)) (queue_base c))
      (c_net c) (c_R c) (c_A c) (c_got c) (c_delivered c)) sb rb sl.
Proof.
  intros I. destruct (collect_spec _ _ _ now d (ci_sender _ _ _ _ I)) as (I' & Eo & Es).
  pose proof (si_len _ _ _ (ci_sender _ _ _ _ I)) as L.
  assert (queue_base c = sb) as Eb by (unfold queue_base; lia). rewrite Eb.
  destruct I as [Is Iq Ia Io In Ir Ii Iv Isl Id Ib Ide Irb]. constructor; simpl; try assumption.
  - rewrite Es, length_map. exact Iq.
  - intros x Hx Hk. apply Ia; [exact Hx|]. destruct Hk as [Hk|Hk]; [now left|right].
    rewrite Es, lookup_map in Hk. apply fmap_Some in Hk as (e & He & Hk).
    destruct e as [[[? ?] ?]|]; [discriminate|exact He].
  - rewrite Eo. apply Forall2_app; [exact Io|]. apply due_positions_spec. apply Is.
Qed.

Lemma chan_transmit_inv c sb rb sl i m out x xs :
  chan_inv c sb rb sl -> outgoing_messages (c_S c) = (i, m) :: out -> c_out c = x :: xs ->
  chan_inv (mkChan (c_log c)
      (mkReliableSender (sending_messages (c_S c)) (next_send_message_index (c_S c)) out
         (min_last_sent (c_S c)) (has_unsent (c_S c)) (max_queue_depth (c_S c))) xs
      ((x, m) :: c_net c) (c_R c) (c_A c) (c_got c) (c_delivered c)) sb rb sl.
Proof.
  intros [Is Iq Ia Io In Ir Ii Iv Isl Id Ib Ide Irb] Eo Ex. rewrite Eo, Ex in Io.
  apply Forall2_cons in Io as [[H1 H2] Io]. constructor; simpl; try assumption.
  - destruct Is as [L N E H M]. constructor; assumption.
  - intros y m' [[= -> ->]|Hy]%elem_of_cons; [exact H2|now apply In].
Qed.

Lemma slot_msgs_log (log : list P) sl from n :
  (forall z, (from <= z < from + n)%nat -> exists m, sl z = Received m /\ log !! z = Some m) ->
  slot_msgs sl from n = take n (drop from log).
Proof.
  revert from. induction n as [|n IH]; intros from H; [reflexivity|].
  destruct (H from ltac:(lia)) as (m & Es & El). rewrite (drop_S log m) by exact El.
  change (S n) with (1 + n)%nat. rewrite slot_msgs_app. cbn [Nat.add take].
  replace (slot_msgs sl from 1) with [m] by (unfold slot_msgs; cbn [seq map omap list_omap]; now rewrite Es).
  cbn [app]. f_equal. rewrite <- IH; [f_equal; lia|]. intros z Hz. apply H. lia.
Qed.

Lemma first_missing (got : nat -> Prop) a b :
  ~ got a -> ~ got b -> (forall z, (z < a)%nat -> got z) -> (forall z, (z < b)%nat -> got z) -> a = b.
Proof.
  intros Ha Hb La Lb. destruct (Nat.lt_trichotomy a b) as [H|[H|H]]; [|exact H|].
  - destruct Ha. now apply Lb.
  - destruct Hb. now apply La.
Qed.

Lemma chan_receive_inv c sb rb sl x m R' A' out :
  chan_inv c sb rb sl -> (x, m) ∈ c_net c ->
  Z.abs (Z.of_nat x - Z.of_nat (length (c_delivered c))) <= 32767 ->
  ordered_buffer_message (wrap 16 (Z.of_nat x)) m (c_R c) (c_A c) = Ok (R', A', out) ->
  exists rb' sl', chan_inv (mkChan (c_log c) (c_S c) (c_out c) (c_net c) R' A'
      (if decide (x ∈ c_got c) then c_got c else x :: c_got c) (c_delivered c ++ out)) sb rb' sl'.
Proof.
  intros I Hin Hw E. rewrite (delivered_length _ _ _ _ I) in Hw.
  pose proof (ci_net _ _ _ _ I x m Hin) as Hlog. pose proof (lookup_lt_Some _ _ _ Hlog) as Hxl.
  destruct (buffer_message_spec _ _ _ x m (ci_recv _ _ _ _ I) Hw) as (r1 & E1 & Hr).
  unfold ordered_buffer_message in E. rewrite E1, bind_ok in E.
  destruct Hr as [[Hx ->]|(Hx & Ei & base' & Hb & Ir')].
  - rewrite (decide_True (P := x ∈ c_got c)) by exact Hx.
    unfold ReliableReceiver_receive_messages in E. rewrite (ci_incoming _ _ _ _ I) in E.
    cbn [foldM] in E. rewrite bind_ok in E. injection E as <- <- <-. rewrite app_nil_r.
    exists rb, sl. destruct I as [Is Iq Ia Io In Ir Ii Iv Isl Id Ib Ide Irb].
    constructor; simpl; try assumption; try reflexivity. destruct Ir; constructor; assumption.
  - rewrite (decide_False (P := x ∈ c_got c)) by exact Hx.
    destruct I as [Is Iq Ia Io In Ir Ii Iv Isl Id Ib Ide Irb].
    unfold ReliableReceiver_receive_messages in E. rewrite Ei, Ii in E. cbn [app foldM fst snd] in E.
    assert (rb <= x)%nat as Hrx by (destruct (decide (rb <= x)%nat); [assumption|]; destruct Hx; apply Ir; lia).
    destruct (process_spec sl rb (c_A c) x x m Iv) as (n & a' & Ep & Iv' & Hcov); [lia|lia| |].
    { intros z Hz. replace z with x by lia. now apply Isl. }
    rewrite Ep, !bind_ok in E. injection E as <- <- <-. cbn [app].
    assert (forall z, (z ∈ x :: c_got c -> exists m', place x x m sl z = Received m' /\ c_log c !! z = Some m') /\
      ((z ∉ x :: c_got c) -> place x x m sl z = NotReceived)) as Isl'.
    { intros z. unfold place. destruct (decide (z = x)) as [->|Hzx].
      - split; [intros _; now exists m|]. intros Hz. destruct Hz. now left.
      - rewrite decide_False by lia. destruct (Isl z) as [S1 S2]. split.
        + intros [?|Hz]%elem_of_cons; [congruence|auto].
        + intros Hz. apply S2. intros Hz2. apply Hz. now right. }
    assert (rb + n = base')%nat as Ebase.
    { apply (first_missing (fun z => z ∈ x :: c_got c)).
      - intros Hz. apply Isl' in Hz as (? & Hz & _). rewrite (ai_first _ _ _ Iv') in Hz. discriminate.
      - apply Ir'.
      - intros z Hz. destruct (decide (z < rb)%nat) as [Hzr|Hzr]; [right; now apply Ir|].
        destruct (decide (z ∈ x :: c_got c)) as [|Hno]; [assumption|].
        destruct (Hcov z); [lia|]. now apply Isl'.
      - intros z Hz. now apply Ir'. }
    assert (forall z, (rb <= z < rb + n)%nat -> exists m', place x x m sl z = Received m' /\ c_log c !! z = Some m') as Hsl.
    { intros z Hz. apply Isl'. apply Ir'. lia. }
    exists (rb + n)%nat, (place x x m sl). constructor; simpl; try assumption; try reflexivity.
    + intros y Hy Hk. right. now apply Ia.
    + rewrite Ebase. destruct Ir'; constructor; assumption.
    + constructor; assumption.
    + intros z [->|Hz]%elem_of_cons; [exact Hxl|now apply Ib].
    + rewrite Ide, (slot_msgs_log (c_log c)) by exact Hsl. apply take_take_drop.
    + destruct n as [|n]; [lia|]. destruct (Hsl (rb + n)%nat ltac:(lia)) as (? & _ & Hl).
      apply lookup_lt_Some in Hl. lia.
Qed.

Lemma chan_ack_inv c sb rb sl x :
  chan_inv c sb rb sl -> x ∈ c_got c -> Z.of_nat (length (c_log c)) <= Z.of_nat x + 65536 ->
  exists sb', chan_inv (mkChan (c_log c) (snd (ReliableSender_deliver_message (wrap 16 (Z.of_nat x)) (c_S c)))
      (c_out c) (c_net c) (c_R c) (c_A c) (c_got c) (c_delivered c)) sb' rb sl.
Proof.
  intros I Hx Hl. pose proof (ci_bound _ _ _ _ I x Hx) as Hxl.
  destruct (ReliableSender_deliver_message (wrap 16 (Z.of_nat x)) (c_S c)) as [o S'] eqn:E.
  assert (outgoing_messages S' = outgoing_messages (c_S c)) as Eo.
  { unfold ReliableSender_deliver_message in E. destruct (take_message _ _). now injection E as _ <-. }
  pose proof (si_len _ _ _ (ci_sender _ _ _ _ I)) as L.
  destruct (deliver_inv _ _ _ x o S' (ci_sender _ _ _ _ I) (ci_queue _ _ _ _ I) Hl Hxl E)
    as (sb' & Is' & Hsb & _ & Hacked & Hkept).
  pose proof (si_len _ _ _ Is') as L'. exists sb'. cbn [snd].
  destruct I as [Is Iq Ia Io In Ir Ii Iv Isl Id Ib Ide Irb]. constructor; simpl; try assumption.
  - lia.
  - intros y Hy Hk. destruct (decide (y = x)) as [->|Hyx]; [exact Hx|]. apply Ia; [exact Hy|].
    destruct (decide (y < sb)%nat) as [|Hys]; [now left|right].
    destruct (decide (y < sb')%nat) as [Hys'|Hys'].
    + destruct (Hacked y ltac:(lia) Hys'); [assumption|congruence].
    + destruct Hk as [Hk|Hk]; [lia|]. rewrite Hkept in Hk by lia. now rewrite decide_False in Hk by exact Hyx.
  - now rewrite Eo.
Qed.

Lemma chan_reachable_inv depth c : chan_reachable depth c -> exists sb rb sl, chan_inv c sb rb sl.
Proof.
  intros H. unfold chan_reachable in H. remember (chan_init depth) as c0 eqn:E0.
  assert (exists sb rb sl, chan_inv c0 sb rb sl) as I0 by (subst; eexists _, _, _; apply chan_inv_init). clear E0.
  induction H as [|c1 c2 c3 S _ IH]; [exact I0|]. apply IH. destruct I0 as (sb & rb & sl & I). destruct S.
  - eexists _, _, _. eapply chan_send_inv; eauto.
  - eexists _, _, _. eapply chan_collect_inv; eauto.
  - eexists _, _, _. eapply chan_transmit_inv; eauto.
  - destruct (chan_receive_inv _ _ _ _ _ _ _ _ _ I H H0 H1) as (? & ? & ?). eauto.
  - destruct (chan_ack_inv _ _ _ _ _ I H H0) as (? & ?). eauto.
Qed.
End Channel.
Arguments chan P : clear implicits.

(** [ReliableMessageReceiver<UnorderedArranger>::buffer_message]. *)
Definition unordered_buffer_message {P} (i : MessageIndex) (m : P) (r : ReliableReceiver P)
  : res (ReliableReceiver P * list P) :=
  r1 ← ReliableReceiver_buffer_message i m r;
  let '(received, r2) := ReliableReceiver_receive_messages r1 in
  Ok (r2, flat_map (fun p => UnorderedArranger_process (fst p) (fst p) (snd p)) received).

(** C2: Ordered reliable delivery.  In every run of a sender and an ordered receiver
    over a network that loses, duplicates and reorders transmissions and acknowledgements
    (the sender holding at most 65536 unacknowledged messages; a transmission used while at
    most 32767 positions from the first missing one; an acknowledgement used before the
    index is reused): what the application has received is exactly an initial part of what
    was sent, in order, once each, also across wrap-arounds of the 16-bit index; it
    contains every message before the first one that has not arrived; and every message that
    has not arrived is still held by the sender with its index. *)
Theorem ordered_reliable_delivery {P} depth (c : chan P) :
  chan_reachable depth c ->
  c_delivered c = take (length (c_delivered c)) (c_log c) /\
  (forall k, (forall y, (y < k)%nat -> y ∈ c_got c) -> (k <= length (c_delivered c))%nat) /\
  (forall x m, c_log c !! x = Some m -> (x ∉ c_got c) ->
     exists k t, sending_messages (c_S c) !! k = Some (Some (wrap 16 (Z.of_nat x), t, m))) /\
  NoDup (c_got c).
Proof.
  intros H. destruct (chan_reachable_inv _ _ H) as (sb & rb & sl & I).
  pose proof (delivered_length _ _ _ _ I) as L. split; [|split; [|split]].
  - rewrite L. apply I.
  - intros k Hk. rewrite L. destruct (decide (k <= rb)%nat) as [|Hn]; [assumption|].
    exfalso. apply (ri_missing _ _ _ (ci_recv _ _ _ _ I)), Hk. lia.
  - intros x m Hx Hn. pose proof (lookup_lt_Some _ _ _ Hx) as Hl.
    pose proof (si_len _ _ _ (ci_sender _ _ _ _ I)) as Ls.
    pose proof (ci_acked _ _ _ _ I x Hl) as Ha.
    assert (sb <= x)%nat by (destruct (decide (sb <= x)%nat); [assumption|]; exfalso; apply Hn, Ha; left; lia).
    destruct (lookup_lt_is_Some_2 (sending_messages (c_S c)) (x - sb)) as [e He]; [lia|].
    destruct e as [[[i t] m']|]; [|exfalso; apply Hn, Ha; now right].
    destruct (si_entries _ _ _ (ci_sender _ _ _ _ I) _ _ He) as [-> Hm].
    replace (sb + (x - sb))%nat with x in * by lia. exists (x - sb)%nat, t. congruence.
  - apply I.
Qed.

Definition sample_run (c : chan Z) : Prop :=
  c_log c = [10; 20] /\ c_delivered c = [10; 20] /\ sending_messages (c_S c) = [Some (1, Some 5, 20)].

(** Two messages, the second arriving first and twice, the first acknowledged. *)
Definition sample_sender (sending : list (option (MessageIndex * option Z * Z))) (out : list (MessageIndex * Z)) :=
  mkReliableSender sending 2 out (Some 5) false None.
Definition both : list (option (MessageIndex * option Z * Z)) := [Some (0, Some 5, 10); Some (1, Some 5, 20)].
Definition sample_net : list (nat * Z) := [(1%nat, 20); (0%nat, 10)].
Definition early_receiver : ReliableReceiver Z := mkReliableReceiver 0 [(0, false); (1, true)] [].
Definition early_arranger : OrderedArranger Z := mkOrderedArranger [(0, NotReceived); (1, Received 20)] 0.
Definition done_receiver : ReliableReceiver Z := mkReliableReceiver 2 [] [].
Definition done_arranger : OrderedArranger Z := mkOrderedArranger [] 2.

Lemma chan_step_to (c c1 c2 : chan Z) : chan_step c c1 -> c1 = c2 -> chan_step c c2.
Proof. now intros ? <-. Qed.

Definition sample_chan (out : list nat) (outgoing : list (MessageIndex * Z)) (net : list (nat * Z)) : chan Z :=
  mkChan [10; 20] (sample_sender both outgoing) out net ReliableReceiver_new OrderedArranger_new [] [].
Definition sample_early : chan Z :=
  mkChan [10; 20] (sample_sender both []) [] sample_net early_receiver early_arranger [1]%nat [].
Definition sample_late : chan Z :=
  mkChan [10; 20] (sample_sender both []) [] sample_net done_receiver done_arranger [0; 1]%nat [10; 20].
Definition sample_acked : chan Z :=
  mkChan [10; 20] (sample_sender [Some (1, Some 5, 20)] []) [] sample_net done_receiver done_arranger [0; 1]%nat [10; 20].

Lemma sample_run_reachable : exists c, chan_reachable None c /\ sample_run c.
Proof.
  exists sample_acked. split; [|split; [reflexivity|split; reflexivity]].
  eapply rtc_l; [eapply (chan_send _ 10); [simpl; lia|reflexivity]|].
  eapply rtc_l; [eapply (chan_send _ 20); [simpl; lia|reflexivity]|].
  apply (rtc_l _ _ (sample_chan [0; 1]%nat [(0, 10); (1, 20)] [])).
  { eapply chan_step_to; [eapply (chan_collect _ 5 100)|reflexivity]. }
  apply (rtc_l _ _ (sample_chan [1]%nat [(1, 20)] [(0%nat, 10)])).
  { eapply chan_step_to; [eapply chan_transmit; reflexivity|reflexivity]. }
  apply (rtc_l _ _ (sample_chan [] [] sample_net)).
  { eapply chan_step_to; [eapply chan_transmit; reflexivity|reflexivity]. }
  apply (rtc_l _ _ sample_early).
  { eapply chan_step_to;
      [eapply (chan_receive (sample_chan [] [] sample_net) 1 20 early_receiver early_arranger []);
        [left|simpl; lia|vm_compute; reflexivity]|reflexivity]. }
  apply (rtc_l _ _ sample_late).
  { eapply chan_step_to;
      [eapply (chan_receive sample_early 0 10 done_receiver done_arranger [10; 20]);
        [right; left|simpl; lia|vm_compute; reflexivity]|reflexivity]. }
  apply (rtc_l _ _ sample_late).
  { eapply chan_step_to;
      [eapply (chan_receive sample_late 1 20 done_receiver done_arranger []);
        [left|simpl; lia|vm_compute; reflexivity]|reflexivity]. }
  apply (rtc_l _ _ sample_acked); [|apply rtc_refl].
  eapply chan_step_to; [eapply (chan_ack sample_late 0); [left|simpl; lia]|reflexivity].
Qed.

Lemma ordered_reliable_delivery_witness :
  exists c : chan Z, sample_run c /\
    c_delivered c = take (length (c_delivered c)) (c_log c) /\
    (forall k, (forall y, (y < k)%nat -> y ∈ c_got c) -> (k <= length (c_delivered c))%nat) /\
    (forall x m, c_log c !! x = Some m -> (x ∉ c_got c) ->
       exists k t, sending_messages (c_S c) !! k = Some (Some (wrap 16 (Z.of_nat x), t, m))) /\
    NoDup (c_got c).
Proof.
  destruct sample_run_reachable as (c & H & S). exists c. split; [exact S|].
  exact (ordered_reliable_delivery None c H).
Defined.

(** C18: Receiving never panics and never loops forever: in every reachable state, any
    transmission within 32767 positions of the first missing one is processed by the
    ordered and by the unordered receiver; the unordered receiver hands it to the
    application if and only if it arrives for the first time; and every unacknowledged
    message is within that distance while the sender holds at most 32767 messages. *)
Theorem receive_total_exactly_once {P} depth (c : chan P) x m :
  chan_reachable depth c -> (x, m) ∈ c_net c ->
  (Z.abs (Z.of_nat x - Z.of_nat (length (c_delivered c))) <= 32767 ->
   (exists r, ordered_buffer_message (wrap 16 (Z.of_nat x)) m (c_R c) (c_A c) = Ok r) /\
   (exists R', unordered_buffer_message (wrap 16 (Z.of_nat x)) m (c_R c) =
      Ok (R', if decide (x ∈ c_got c) then [] else [m]))) /\
  (Z.of_nat (length (sending_messages (c_S c))) <= 32767 -> (queue_base c <= x)%nat ->
   Z.abs (Z.of_nat x - Z.of_nat (length (c_delivered c))) <= 32767).
Proof.
  intros H Hin. destruct (chan_reachable_inv _ _ H) as (sb & rb & sl & I).
  rewrite (delivered_length _ _ _ _ I). pose proof (ci_net _ _ _ _ I x m Hin) as Hlog.
  pose proof (lookup_lt_Some _ _ _ Hlog) as Hxl. split.
  - intros Hw. destruct (buffer_message_spec _ _ _ x m (ci_recv _ _ _ _ I) Hw) as (r1 & E1 & Hr).
    unfold ordered_buffer_message, unordered_buffer_message, ReliableReceiver_receive_messages.
    rewrite E1, !bind_ok. destruct Hr as [[Hx ->]|(Hx & Ei & base' & Hb & Ir')].
    + rewrite (ci_incoming _ _ _ _ I), decide_True by exact Hx. cbn [foldM flat_map]. rewrite bind_ok. eauto.
    + rewrite Ei, (ci_incoming _ _ _ _ I), decide_False by exact Hx. cbn [app foldM flat_map fst snd].
      assert (rb <= x)%nat by (destruct (decide (rb <= x)%nat); [assumption|]; destruct Hx; apply (ci_recv _ _ _ _ I); lia).
      destruct (process_spec sl rb (c_A c) x x m (ci_arr _ _ _ _ I)) as (n & a' & Ep & _); [lia|lia| |].
      { intros z Hz. replace z with x by lia. now apply (ci_slots _ _ _ _ I). }
      rewrite Ep, !bind_ok. split; eauto.
  - intros Hq Hx. pose proof (si_len _ _ _ (ci_sender _ _ _ _ I)) as L.
    unfold queue_base in Hx. pose proof (ci_rbase _ _ _ _ I).
    assert (sb <= rb)%nat.
    { destruct (decide (sb <= rb)%nat) as [|Hn]; [assumption|]. exfalso.
      apply (ri_missing _ _ _ (ci_recv _ _ _ _ I)), (ci_acked _ _ _ _ I rb); [lia|left; lia]. }
    lia.
Qed.

Lemma receive_total_exactly_once_witness :
  exists c : chan Z, chan_reachable None c /\
  (Z.abs (Z.of_nat 1 - Z.of_nat (length (c_delivered c))) <= 32767 ->
   (exists r, ordered_buffer_message (wrap 16 (Z.of_nat 1)) 20 (c_R c) (c_A c) = Ok r) /\
   (exists R', unordered_buffer_message (wrap 16 (Z.of_nat 1)) 20 (c_R c) =
      Ok (R', if decide (1%nat ∈ c_got c) then [] else [20]))).
Proof.
  assert (chan_reachable None (sample_chan [] [] sample_net)) as H.
  { eapply rtc_l; [eapply (chan_send _ 10); [simpl; lia|reflexivity]|].
    eapply rtc_l; [eapply (chan_send _ 20); [simpl; lia|reflexivity]|].
    apply (rtc_l _ _ (sample_chan [0; 1]%nat [(0, 10); (1, 20)] [])).
    { eapply chan_step_to; [eapply (chan_collect _ 5 100)|reflexivity]. }
    apply (rtc_l _ _ (sample_chan [1]%nat [(1, 20)] [(0%nat, 10)])).
    { eapply chan_step_to; [eapply chan_transmit; reflexivity|reflexivity]. }
    apply (rtc_l _ _ (sample_chan [] [] sample_net)); [|apply rtc_refl].
    eapply chan_step_to; [eapply chan_transmit; reflexivity|reflexivity]. }
  exists (sample_chan [] [] sample_net). split; [exact H|].
  apply (receive_total_exactly_once None (sample_chan [] [] sample_net) 1 20 H). left.
Defined.

(** The fast path of [collect_messages] is invisible: for every reachable sender
    state, every time and every resend interval, the call queues exactly the
    unacknowledged messages that were never sent or were last sent at least the interval
    ago, oldest first, and marks exactly those as sent now, as the full scan would. *)
Theorem collect_equals_full_scan {P} depth (c : chan P) (now d : Z) :
  chan_reachable depth c ->
  let s' := ReliableSender_collect_messages now d (c_S c) in
  outgoing_messages s' = outgoing_messages (c_S c) ++ due now d (sending_messages (c_S c)) /\
  sending_messages s' = map (mark_sent now d) (sending_messages (c_S c)) /\
  (forall k i t m, sending_messages (c_S c) !! k = Some (Some (i, t, m)) ->
     (t = None \/ exists u, t = Some u /\ d <= now - u) -> (i, m) ∈ outgoing_messages s').
Proof.
  intros H s'. destruct (chan_reachable_inv _ _ H) as (sb & rb & sl & I).
  destruct (collect_spec _ _ _ now d (ci_sender _ _ _ _ I)) as (_ & Eo & Es).
  split; [exact Eo|]. split; [exact Es|]. intros k i t m Hk Ht. unfold s'. rewrite Eo.
  apply elem_of_app. right. unfold due. apply list_elem_of_omap. exists (Some (i, t, m)).
  split; [eapply list_elem_of_lookup_2; exact Hk|].
  replace (should_send now d t) with true; [reflexivity|].
  destruct Ht as [->|(u & -> & Hu)]; [reflexivity|]. cbn. symmetry. apply Z.leb_le. unfold elapsed. lia.
Qed.

Lemma collect_equals_full_scan_witness :
  exists c : chan Z, sample_run c /\
  outgoing_messages (ReliableSender_collect_messages 200 100 (c_S c)) =
    outgoing_messages (c_S c) ++ due 200 100 (sending_messages (c_S c)).
Proof.
  destruct sample_run_reachable as (c & H & S). exists c. split; [exact S|].
  apply (collect_equals_full_scan None c 200 100 H).
Defined.

(** ** The sequenced arranger *)
Definition sequenced_run {P} (xs : list (nat * P)) (a : SequencedArranger) : list P * SequencedArranger :=
  fold_left (fun '(out, a) p =>
      let '(o, a') := SequencedArranger_process (wrap 16 (Z.of_nat (fst p))) (wrap 16 (Z.of_nat (fst p))) (snd p) a in
      (out ++ o, a')) xs ([], a).

(** The messages that are at or above the newest one before them. *)
Fixpoint running_newest {P} (newest : nat) (xs : list (nat * P)) : list P :=
  match xs with
  | [] => []
  | (x, m) :: xs' => if decide (newest <= x)%nat then m :: running_newest x xs' else running_newest newest xs'
  end.

Fixpoint sequenced_near {P} (newest : nat) (xs : list (nat * P)) : Prop :=
  match xs with
  | [] => True
  | (x, _) :: xs' =>
      Z.abs (Z.of_nat x - Z.of_nat newest) <= 32767 /\ sequenced_near (Nat.max newest x) xs'
  end.

(** The sequenced arranger delivers exactly the messages that are not older than
    everything delivered before: for any arrivals, each at most 32767 positions away from
    the newest one so far, its output is the sequence of running maxima, in arrival order. *)
Theorem sequenced_drops_stale {P} (xs : list (nat * P)) :
  sequenced_near 0 xs -> fst (sequenced_run xs (mkSequencedArranger 0)) = running_newest 0 xs.
Proof.
  unfold sequenced_run.
  enough (forall newest out, sequenced_near newest xs ->
    fst (fold_left (fun '(out, a) p =>
      let '(o, a') := SequencedArranger_process (wrap 16 (Z.of_nat (fst p))) (wrap 16 (Z.of_nat (fst p))) (snd p) a in
      (out ++ o, a')) xs (out, mkSequencedArranger (wrap 16 (Z.of_nat newest)))) = out ++ running_newest newest xs) as G.
  { intros H. exact (G 0%nat [] H). }
  induction xs as [|[x m] xs IH]; intros newest out H; [simpl; now rewrite app_nil_r|].
  destruct H as [Hx H]. cbn [fold_left fst snd running_newest]. unfold SequencedArranger_process.
  cbn [newest_received_message_index]. rewrite seq_lt_close by exact Hx.
  destruct (Z.ltb_spec (Z.of_nat x) (Z.of_nat newest)); cbn [negb].
  - rewrite decide_False by lia. rewrite Nat.max_l in H by lia. rewrite app_nil_r. now apply IH.
  - rewrite decide_True by lia. rewrite Nat.max_r in H by lia. rewrite IH by exact H. now rewrite <- app_assoc.
Qed.

Lemma sequenced_drops_stale_witness :
  let xs := [(0, 1); (2, 3); (1, 2); (5, 6)]%nat in
  sequenced_near 0 xs /\ fst (sequenced_run xs (mkSequencedArranger 0)) = running_newest 0 xs.
Proof.
  intros xs. assert (sequenced_near 0 xs) as H by (simpl; lia). split; [exact H|].
  exact (sequenced_drops_stale xs H).
Defined.
