(* ===== verification/MessageWire.v ===== *)
(** Messages of one channel in a packet:
    src/shared/src/messages/channels/senders/indexed_message_writer.rs,
    src/shared/src/messages/channels/receivers/indexed_message_reader.rs and the two
    unreliable senders and receivers beside them.

    A packet holds, per channel, a run of messages, each behind a continue bit; indexed
    channels send the first index in full and every later one as the distance to its
    predecessor.  [sm] is the code of the message container ([message_serde] of Kinds). *)

From Stdlib Require Import ZArith Lia.
From stdpp Require Import base list numbers gmap countable.
From S2P Require Import Prelude Wrapping BitIO Number Serde Kinds Reliable.

(** * Writing what fits: counter first, writer second *)
Lemma count_then_write l w :
  writer_ok w -> bw_current_bits w <= bw_max_bits w <= MTU_SIZE_BITS -> l <> [] ->
  Z.of_nat (length l) < 2 ^ 31 ->
  exists c, write_bits l (BitWriter_counter w) = Ok c /\
    BitCounter_overflowed c = (bw_max_bits w <? bw_current_bits w + Z.of_nat (length l)) /\
    (bw_current_bits w + Z.of_nat (length l) <= bw_max_bits w ->
     exists w', write_bits l w = Ok w' /\ extends w l w').
Proof.
  intros Hok Hm Hne Hl. change MTU_SIZE_BITS with 3440 in Hm.
  pose proof (writer_ok_current w Hok) as Hc.
  rewrite counter_write_bits by (simpl; lia). cbn [BitWriter_counter bc_current_bits bc_start_bits bc_max_bits].
  rewrite (proj2 (Z.ltb_lt _ (2 ^ 32))) by lia. eexists; split; [reflexivity|]. split; [reflexivity|].
  intros Hf. pose proof (write_bits_spec l w Hok Hne) as P.
  rewrite !(proj2 (Z.leb_le _ _)) in P by lia. exact P.
Qed.

Section Channel.
Context {M : Type} (sm : Serde M).

(** * IndexedMessageWriter *)
Definition write_message_index {W} `{BitWrite W} (last_written_id : option MessageIndex)
    (message_index : MessageIndex) (w : W) : res W :=
  match last_written_id with
  | Some last_id =>
      id_diff ← wrapping_diff last_id message_index;
      if id_diff <? 0 then Panic else
      id_diff_encoded ← SerdeInteger_new false true 3 id_diff;
      ser (integer_serde false true 3) id_diff_encoded w
  | None => ser u16_serde message_index w
  end.

Definition indexed_write_message {W} `{BitWrite W} (last_written_id : option MessageIndex)
    (message_index : MessageIndex) (message : M) (w : W) : res W :=
  w1 ← write_message_index last_written_id message_index w;
  ser sm message w1.

(** The loop; an overflow before anything was written is the panic of [warn_overflow].
    Returns the indices written, the queue left, the writer and [has_written]. *)
Fixpoint write_messages_loop (outgoing_messages : list (MessageIndex * M))
    (last_written_id : option MessageIndex) (message_indices : list MessageIndex)
    (writer : BitWriter) (has_written : bool)
  : res (list MessageIndex * list (MessageIndex * M) * BitWriter * bool) :=
  match outgoing_messages with
  | [] => Ok (message_indices, [], writer, has_written)
  | (message_index, message) :: rest =>
      counter ← write_bit true (BitWriter_counter writer);
      counter ← indexed_write_message last_written_id message_index message counter;
      if BitCounter_overflowed counter then
        if has_written then Ok (message_indices, outgoing_messages, writer, has_written) else Panic
      else
        writer ← write_bit true writer;
        writer ← indexed_write_message last_written_id message_index message writer;
        write_messages_loop rest (Some message_index) (message_indices ++ [message_index]) writer true
  end.

Definition IndexedMessageWriter_write_messages (outgoing_messages : list (MessageIndex * M))
    (writer : BitWriter) (has_written : bool)
  : res (list MessageIndex * list (MessageIndex * M) * BitWriter * bool) :=
  write_messages_loop outgoing_messages None [] writer has_written.

(** * IndexedMessageReader *)
Definition read_message_index (last_read_id : option MessageIndex) (r : BitReader)
  : res (MessageIndex * BitReader) :=
  match last_read_id with
  | Some last_id =>
      '(n, r1) ← de (integer_serde false true 3) r;
      Ok (wrapping_add16 last_id (wrap 16 (SerdeInteger_get n)), r1)
  | None => de u16_serde r
  end.

Definition indexed_read_message (last_read_id : option MessageIndex) (r : BitReader)
  : res (MessageIndex * M * BitReader) :=
  '(message_index, r1) ← read_message_index last_read_id r;
  '(new_message, r2) ← de sm r1;
  Ok (message_index, new_message, r2).

Fixpoint read_messages_loop (fuel : nat) (last_read_id : option MessageIndex)
    (output : list (MessageIndex * M)) (r : BitReader)
  : res (list (MessageIndex * M) * BitReader) :=
  match fuel with
  | O => Diverge
  | S fuel' =>
      '(channel_continue, r1) ← de bool_serde r;
      if negb channel_continue then Ok (output, r1) else
      '(id, message, r2) ← indexed_read_message last_read_id r1;
      read_messages_loop fuel' (Some id) (output ++ [(id, message)]) r2
  end.

(** Every round takes at least the continue bit: as many rounds as the buffer has bits. *)
Definition IndexedMessageReader_read_messages (r : BitReader)
  : res (list (MessageIndex * M) * BitReader) :=
  read_messages_loop (chunk_fuel r) None [] r.

(** * UnorderedUnreliableSender *)
Fixpoint unordered_write_messages (outgoing_messages : list M) (writer : BitWriter) (has_written : bool)
  : res (list M * BitWriter * bool) :=
  match outgoing_messages with
  | [] => Ok ([], writer, has_written)
  | message :: rest =>
      counter ← write_bit true (BitWriter_counter writer);
      counter ← ser sm message counter;
      if BitCounter_overflowed counter then
        if has_written then Ok (outgoing_messages, writer, has_written) else Panic
      else
        writer ← write_bit true writer;
        writer ← ser sm message writer;
        unordered_write_messages rest writer true
  end.

(** The queues of the unreliable senders: the oldest message gives way. *)
Definition MAX_QUEUE_DEPTH : nat := Z.to_nat 1024.

Definition evict_oldest {A} (queue : list A) : list A :=
  if (MAX_QUEUE_DEPTH <=? length queue)%nat then tail queue else queue.

Definition UnorderedUnreliableSender_send_message (message : M) (outgoing_messages : list M)
  : bool * list M :=
  (true, evict_oldest outgoing_messages ++ [message]).

Record SequencedUnreliableSender : Type := mkSequencedUnreliableSender {
  su_outgoing_messages : list (MessageIndex * M);
  su_next_send_message_index : MessageIndex }.

Definition SequencedUnreliableSender_new : SequencedUnreliableSender :=
  mkSequencedUnreliableSender [] 0.

Definition SequencedUnreliableSender_send_message (message : M) (s : SequencedUnreliableSender)
  : bool * SequencedUnreliableSender :=
  (true, mkSequencedUnreliableSender
    (evict_oldest (su_outgoing_messages s) ++ [(su_next_send_message_index s, message)])
    (wrapping_add16 (su_next_send_message_index s) 1)).

Definition SequencedUnreliableSender_write_messages (s : SequencedUnreliableSender) (writer : BitWriter)
    (has_written : bool)
  : res (list MessageIndex * SequencedUnreliableSender * BitWriter * bool) :=
  '(indices, rest, writer, has_written) ←
     IndexedMessageWriter_write_messages (su_outgoing_messages s) writer has_written;
  Ok (indices, mkSequencedUnreliableSender rest (su_next_send_message_index s), writer, has_written).

(** [ReliableMessageSender::write_messages] *)
Definition ReliableMessageSender_write_messages (s : ReliableSender M) (writer : BitWriter)
    (has_written : bool) : res (list MessageIndex * ReliableSender M * BitWriter * bool) :=
  '(indices, rest, writer, has_written) ←
     IndexedMessageWriter_write_messages (outgoing_messages s) writer has_written;
  Ok (indices, mkReliableSender (sending_messages s) (next_send_message_index s) rest
                 (min_last_sent s) (has_unsent s) (max_queue_depth s), writer, has_written).

(** [SequencedUnreliableReceiver::arrange_message], for messages that wait for no entity. *)
Definition SequencedUnreliable_arrange_message (message_index : MessageIndex) (message : M)
    (newest_received_message_index : option MessageIndex) (incoming_messages : list M)
  : option MessageIndex * list M :=
  match newest_received_message_index with
  | Some most_recent_id =>
      if sequence_greater_than message_index most_recent_id
      then (Some message_index, incoming_messages ++ [message])
      else (newest_received_message_index, incoming_messages)
  | None => (Some message_index, incoming_messages ++ [message])
  end.
End Channel.

(** * The bits of a run of messages *)
Section Facts.
Context {M : Type} (sm : Serde M) `{!Lawful sm}.
Implicit Types (out : list (MessageIndex * M)) (last : option MessageIndex).

(** The next index is at most half the index space ahead of the last one. *)
Definition step_ok last (i : MessageIndex) : Prop :=
  in_u 16 i /\ match last with Some l => in_u 16 l /\ wrap 16 (i - l) <= 32767 | None => True end.

Fixpoint ascending last out : Prop :=
  match out with
  | [] => True
  | (i, _) :: out' => step_ok last i /\ ascending (Some i) out'
  end.

Definition index_enc last (i : MessageIndex) : list bool :=
  match last with Some l => length_enc 3 (wrap 16 (i - l)) | None => to_bits 16 i end.

Definition message_enc last (i : MessageIndex) (m : M) : list bool :=
  true :: index_enc last i ++ enc sm m.

Fixpoint run_enc last out : list bool :=
  match out with
  | [] => []
  | (i, m) :: out' => message_enc last i m ++ run_enc (Some i) out'
  end.

Lemma step_diff l i :
  step_ok (Some l) i -> wrapping_diff l i = Ok (wrap 16 (i - l)) /\ 0 <= wrap 16 (i - l) <= 32767.
Proof.
  intros (Hi & Hl & Hd). destruct (wrapping_diff_total l i Hl Hi) as (d & -> & Rd & W).
  pose proof (wrap_range 16 (i - l) ltac:(lia)). split; [|lia]. f_equal.
  unfold wrap, in_u in *. change (2 ^ 16) with 65536 in *. dlia.
Qed.

Lemma write_index_enc {W} `{BitWriteLaws W} last i (w : W) :
  step_ok last i -> wok w -> write_message_index last i w = write_bits (index_enc last i) w.
Proof.
  intros Hs Hw. destruct last as [l|]; cbn [write_message_index index_enc].
  - destruct (step_diff l i Hs) as [-> Hd]. rewrite bind_ok, (proj2 (Z.ltb_ge _ _)) by lia.
    apply variable_ser; lia.
  - exact (ser_enc (Lawful := uint_lawful 2) W i w (proj1 Hs) Hw).
Qed.

Lemma write_message_enc {W} `{BitWriteLaws W} last i m (w : W) :
  step_ok last i -> valid sm m -> wok w ->
  (w1 ← write_bit true w; indexed_write_message sm last i m w1) = write_bits (message_enc last i m) w.
Proof.
  intros Hs Hm Hw. unfold message_enc, indexed_write_message.
  change (true :: ?l) with ([true] ++ l). rewrite write_bits_app.
  change (write_bits [true] w) with (w' ← write_bit true w; Ok w').
  destruct (write_bit true w) as [w1| | |] eqn:E; try reflexivity. rewrite !bind_ok.
  pose proof (write_bit_wok _ _ _ Hw E) as H1. rewrite write_index_enc, write_bits_app by assumption.
  destruct (write_bits (index_enc last i) w1) as [w2| | |] eqn:E2; try reflexivity. rewrite !bind_ok.
  apply (ser_enc W); [exact Hm|]. eapply write_bits_wok; eassumption.
Qed.

Lemma read_index_enc last i rest r :
  step_ok last i -> reader_ok r -> br_bits r = index_enc last i ++ rest ->
  exists r', read_message_index last r = Ok (i, r') /\ reader_ok r' /\ br_bits r' = rest.
Proof.
  intros Hs Hr E. destruct last as [l|]; cbn [read_message_index index_enc] in *.
  - destruct (step_diff l i Hs) as [_ Hd].
    destruct (variable_de 3 (wrap 16 (i - l)) rest r ltac:(lia) ltac:(lia) Hr E) as (n & r' & -> & Gn & O & B).
    exists r'. rewrite bind_ok, Gn, (wrap_small 16 (wrap 16 (i - l))) by (unfold in_u; lia). split; [|auto]. do 2 f_equal.
    destruct Hs as (Hi & _). unfold wrapping_add16. rewrite wrap16_add_r.
    replace (l + (i - l)) with i by lia. now apply wrap_small.
  - exact (de_enc (Lawful := uint_lawful 2) i rest r (proj1 Hs) Hr E).
Qed.

Lemma read_run_enc fuel last acc out rest r :
  ascending last out -> Forall (fun p => valid sm (snd p)) out -> (length out < fuel)%nat -> reader_ok r ->
  br_bits r = run_enc last out ++ false :: rest ->
  exists r', read_messages_loop sm fuel last acc r = Ok (acc ++ out, r') /\ reader_ok r' /\ br_bits r' = rest.
Proof.
  revert last acc out r. induction fuel as [|fuel IH]; intros last acc out r Ha Hv Hf Hr E; [lia|].
  cbn [read_messages_loop de bool_serde]. destruct out as [|[i m] out].
  - destruct (read_bit_enc _ _ _ Hr E) as (r' & -> & O & B). rewrite bind_ok, app_nil_r. cbn [negb]. eauto.
  - cbn [run_enc] in E. unfold message_enc in E. rewrite <- !app_comm_cons, <- !app_assoc in E.
    destruct Ha as [Hs Ha]. apply Forall_cons_1 in Hv as [Hm Hv]. cbn [snd] in Hm.
    destruct (read_bit_enc _ _ _ Hr E) as (r1 & -> & O1 & B1). rewrite bind_ok. cbn [negb].
    destruct (read_index_enc last i _ r1 Hs O1 B1) as (r2 & R2 & O2 & B2).
    destruct (de_enc m _ r2 Hm O2 B2) as (r3 & R3 & O3 & B3).
    unfold indexed_read_message. rewrite R2, bind_ok, R3, !bind_ok.
    destruct (IH (Some i) (acc ++ [(i, m)]) out r3 Ha Hv ltac:(cbn in Hf; lia) O3 B3) as (r' & -> & O & B).
    exists r'. now rewrite <- app_assoc.
Qed.

Definition fits (w : BitWriter) (l : list bool) : bool :=
  bw_current_bits w + Z.of_nat (length l) <=? bw_max_bits w.

(** One round of the loop. *)
Lemma write_loop_cons last acc i m out w hw :
  step_ok last i -> valid sm m -> Z.of_nat (length (message_enc last i m)) < 2 ^ 31 ->
  writer_ok w -> bw_current_bits w <= bw_max_bits w <= MTU_SIZE_BITS ->
  if fits w (message_enc last i m) then
    exists w1, extends w (message_enc last i m) w1 /\ bw_current_bits w1 <= bw_max_bits w1 /\
      write_messages_loop sm ((i, m) :: out) last acc w hw =
      write_messages_loop sm out (Some i) (acc ++ [i]) w1 true
  else write_messages_loop sm ((i, m) :: out) last acc w hw =
       if hw then Ok (acc, (i, m) :: out, w, hw) else Panic.
Proof.
  intros Hs Hm Hl Hw Hb. destruct (count_then_write (message_enc last i m) w Hw Hb ltac:(done) Hl)
    as (c & Ec & Eo & Ew).
  pose proof (writer_ok_current w Hw). change MTU_SIZE_BITS with 3440 in Hb.
  rewrite <- write_message_enc in Ec by (assumption || (cbn; lia)).
  unfold fits. cbn [write_messages_loop]. rewrite <- bind_assoc, Ec, bind_ok, Eo.
  destruct (Z.leb_spec (bw_current_bits w + Z.of_nat (length (message_enc last i m))) (bw_max_bits w)) as [Hf|Hf].
  - destruct (Ew Hf) as (w1 & E1 & X1). exists w1. split; [exact X1|]. split.
    + rewrite (extends_current w _ w1 Hw X1). destruct X1 as (_ & _ & -> & _). exact Hf.
    + rewrite (proj2 (Z.ltb_ge _ _)) by lia. rewrite <- write_message_enc in E1 by assumption.
      now rewrite <- bind_assoc, E1, bind_ok.
  - now rewrite (proj2 (Z.ltb_lt _ _)) by lia.
Qed.

Lemma index_enc_length last i : (length (index_enc last i) <= 516)%nat.
Proof.
  destruct last as [l|]; cbn [index_enc]; [|rewrite length_to_bits; lia].
  exact (length_chunks_enc_le 129 3 _).
Qed.

Definition sendable (p : MessageIndex * M) : Prop :=
  valid sm (snd p) /\ Z.of_nat (length (enc sm (snd p))) < 2 ^ 30.

Lemma message_enc_length last i m : sendable (i, m) -> Z.of_nat (length (message_enc last i m)) < 2 ^ 31.
Proof.
  intros [_ Hl]. unfold message_enc. cbn [length snd] in *. rewrite length_app.
  pose proof (index_enc_length last i). lia.
Qed.

(** What does not fit after [done]: nothing, or the next message. *)
Definition full_after last (done rest : list (MessageIndex * M)) (w : BitWriter) : Prop :=
  match rest with
  | [] => True
  | (i, m) :: _ => fits w (message_enc (match List.last (map Some (map fst done)) None with
                                       | Some j => Some j | None => last end) i m) = false
  end.

Lemma full_after_cons last i m done rest w :
  full_after (Some i) done rest w -> full_after last ((i, m) :: done) rest w.
Proof.
  unfold full_after. destruct rest as [|[j n] rest]; [auto|]. cbn [map fst].
  destruct done as [|[k o] done]; [auto|]. cbn [map fst].
  change (List.last (Some i :: Some k :: map Some (map fst done)) None)
    with (List.last (Some k :: map Some (map fst done)) None).
  assert (forall l : list MessageIndex, exists j, List.last (Some k :: map Some l) None = Some j) as Hl.
  { clear. intros l. revert k. induction l as [|a l IH]; intros k; [now exists k|]. exact (IH a). }
  destruct (Hl (map fst done)) as [x ->]. auto.
Qed.

Lemma write_loop_spec out last acc w hw :
  ascending last out -> Forall sendable out ->
  writer_ok w -> bw_current_bits w <= bw_max_bits w <= MTU_SIZE_BITS ->
  (hw = true \/ match out with [] => True | (i, m) :: _ => fits w (message_enc last i m) = true end) ->
  exists done rest w',
    out = done ++ rest /\
    write_messages_loop sm out last acc w hw =
      Ok (acc ++ map fst done, rest, w', hw || negb (bool_decide (done = []))) /\
    extends w (run_enc last done) w' /\ bw_current_bits w' <= bw_max_bits w' /\
    full_after last done rest w'.
Proof.
  revert last acc w hw. induction out as [|[i m] out IH]; intros last acc w hw Ha Hv Hw Hb Hhw.
  - exists [], [], w. cbn [write_messages_loop run_enc full_after map]. rewrite (app_nil_r acc).
    rewrite bool_decide_eq_true_2, orb_false_r by done.
    split; [reflexivity|]. split; [reflexivity|]. split; [now apply extends_refl|]. split; [lia|exact I].
  - destruct Ha as [Hs Ha]. apply Forall_cons_1 in Hv as [Hm Hv].
    pose proof (write_loop_cons last acc i m out w hw Hs (proj1 Hm) (message_enc_length last i m Hm) Hw Hb) as P.
    destruct (fits w (message_enc last i m)) eqn:Ef.
    + destruct P as (w1 & X1 & B1 & ->). pose proof X1 as (O1 & _ & M1 & _).
      destruct (IH (Some i) (acc ++ [i]) w1 true Ha Hv O1 ltac:(lia) ltac:(now left))
        as (done & rest & w' & -> & -> & X & B & F).
      exists ((i, m) :: done), rest, w'. split; [reflexivity|]. split.
      { rewrite <- app_assoc. cbn [map fst app negb orb]. rewrite bool_decide_eq_false_2 by done.
        now rewrite orb_true_r. }
      split; [exact (extends_trans w w1 w' _ _ Hw X1 X)|]. split; [exact B|].
      now apply full_after_cons.
    + destruct Hhw as [-> |]; [|discriminate]. exists [], ((i, m) :: out), w. rewrite P; cbn [map]; rewrite (app_nil_r acc).
      split; [reflexivity|]. split; [reflexivity|]. split; [now apply extends_refl|]. split; [lia|exact Ef].
Qed.

(** ** The same without indices *)
Definition plain_enc (l : list M) : list bool := concat (map (fun m => true :: enc sm m) l).

Definition plain_sendable (m : M) : Prop := valid sm m /\ Z.of_nat (length (enc sm m)) < 2 ^ 30.

Lemma write_plain_enc {W} `{BitWriteLaws W} m (w : W) :
  valid sm m -> wok w -> (w1 ← write_bit true w; ser sm m w1) = write_bits (true :: enc sm m) w.
Proof.
  intros Hm Hw. change (true :: enc sm m) with ([true] ++ enc sm m). rewrite write_bits_app.
  change (write_bits [true] w) with (w' ← write_bit true w; Ok w').
  destruct (write_bit true w) as [w1| | |] eqn:E; try reflexivity. rewrite !bind_ok.
  apply (ser_enc W); [exact Hm|]. eapply write_bit_wok; eassumption.
Qed.

Lemma plain_write_spec (out : list M) w hw :
  Forall plain_sendable out -> writer_ok w -> bw_current_bits w <= bw_max_bits w <= MTU_SIZE_BITS ->
  (hw = true \/ match out with [] => True | m :: _ => fits w (true :: enc sm m) = true end) ->
  exists done rest w',
    out = done ++ rest /\
    unordered_write_messages sm out w hw = Ok (rest, w', hw || negb (bool_decide (done = []))) /\
    extends w (plain_enc done) w' /\ bw_current_bits w' <= bw_max_bits w' /\
    match rest with [] => True | m :: _ => fits w' (true :: enc sm m) = false end.
Proof.
  revert w hw. induction out as [|m out IH]; intros w hw Hv Hw Hb Hhw.
  - exists [], [], w. cbn [unordered_write_messages]. rewrite bool_decide_eq_true_2, orb_false_r by done.
    split; [reflexivity|]. split; [reflexivity|]. split; [now apply extends_refl|]. split; [lia|exact I].
  - apply Forall_cons_1 in Hv as [[Hm Hl] Hv].
    destruct (count_then_write (true :: enc sm m) w Hw Hb ltac:(done) ltac:(cbn [length]; lia)) as (c & Ec & Eo & Ew).
    pose proof (writer_ok_current w Hw). change MTU_SIZE_BITS with 3440 in Hb.
    rewrite <- write_plain_enc in Ec by (assumption || (cbn; lia)).
    cbn [unordered_write_messages]. rewrite <- bind_assoc, Ec, bind_ok, Eo. unfold fits in Hhw.
    destruct (Z.ltb_spec (bw_max_bits w) (bw_current_bits w + Z.of_nat (length (true :: enc sm m)))) as [Hf|Hf].
    + destruct Hhw as [->|Hhw]; [|bools; lia]. exists [], (m :: out), w.
      split; [reflexivity|]. split; [reflexivity|]. split; [now apply extends_refl|].
      split; [lia|]. unfold fits. apply Z.leb_gt. lia.
    + destruct (Ew Hf) as (w1 & E1 & X1). pose proof (extends_current w _ w1 Hw X1) as C1.
      pose proof X1 as (O1 & _ & M1 & _). rewrite <- write_plain_enc in E1 by assumption.
      rewrite <- bind_assoc, E1, bind_ok.
      destruct (IH w1 true Hv O1 ltac:(change MTU_SIZE_BITS with 3440; lia) ltac:(now left))
        as (done & rest & w' & -> & -> & X & B & F).
      exists (m :: done), rest, w'. split; [reflexivity|]. split.
      { cbn [orb]. now rewrite bool_decide_eq_false_2, orb_true_r by done. }
      split; [exact (extends_trans w w1 w' _ _ Hw X1 X)|auto].
Qed.

Lemma run_enc_length last out : (length out <= length (run_enc last out))%nat.
Proof.
  revert last. induction out as [|[i m] out IH]; intros last; [cbn; lia|].
  cbn [run_enc]. unfold message_enc. rewrite length_app. cbn [length]. specialize (IH (Some i)). lia.
Qed.

Lemma plain_enc_length l : (length l <= length (plain_enc l))%nat.
Proof.
  induction l as [|m l IH]; [cbn; lia|]. unfold plain_enc in *. cbn [map concat]. rewrite length_app.
  cbn [length]. lia.
Qed.
End Facts.

(** * Decoders that always stop

    [Stops s]: on any input the decoder of [s] ends, and never puts bits back. *)
Class Stops {T} (s : Serde T) : Prop := de_stops : forall r, reader_ok r ->
  de s r <> Diverge /\
  forall x r', de s r = Ok (x, r') -> reader_ok r' /\ (length (br_bits r') <= length (br_bits r))%nat.

#[export] Instance bool_stops : Stops bool_serde.
Proof.
  intros r Hr. split; [now apply read_bit_diverge|]. intros b r' E.
  apply read_bit_shrink in E as [O L]; [|exact Hr]. split; [exact O|lia].
Qed.

#[export] Instance uint_stops n : Stops (uint_serde n).
Proof.
  intros r Hr. cbn [de uint_serde].
  assert (read_bytes n r <> Diverge /\ forall bs r', read_bytes n r = Ok (bs, r') ->
    reader_ok r' /\ (length (br_bits r') <= length (br_bits r))%nat) as [D S].
  { revert r Hr. induction n as [|n IH]; intros r Hr; cbn [read_bytes].
    - split; [discriminate|]. intros bs r' [= <- <-]. auto.
    - rewrite read_byte_bits by exact Hr. pose proof (read_bits_spec 8 r Hr) as P.
      destruct (_ <=? _)%nat eqn:L; [|rewrite P; split; [discriminate|intros; discriminate]].
      destruct P as (r1 & -> & O1 & B1). rewrite !bind_ok. destruct (IH r1 O1) as [D S].
      destruct (read_bytes n r1) as [[bs r2]| | |]; try (cbn [mbind res_bind]; split; [congruence|intros; congruence]).
      rewrite bind_ok. split; [discriminate|]. intros bs' r' [= <- <-].
      destruct (S _ _ eq_refl) as [O2 L2]. split; [exact O2|]. rewrite B1, length_drop in L2. lia. }
  destruct (read_bytes n r) as [[bs r']| | |]; try (cbn [mbind res_bind]; split; [congruence|intros; congruence]).
  rewrite bind_ok. split; [discriminate|]. intros x r2 [= <- <-]. eauto.
Qed.

Lemma de_chunks_shrink fuel bits output shift r v r' :
  reader_ok r -> de_chunks fuel bits output shift r = Ok (v, r') ->
  reader_ok r' /\ (length (br_bits r') <= length (br_bits r))%nat.
Proof.
  revert output shift r. induction fuel as [|fuel IH]; intros output shift r H E; [discriminate|].
  cbn [de_chunks] in E. apply bind_ok_inv in E as ([b r1] & E1 & E).
  apply read_bit_shrink in E1 as [O1 L1]; [|exact H].
  destruct (read_lsb_safe 32 (Z.to_nat bits) 0 0 r1 O1) as [_ K].
  apply bind_ok_inv in E as ([c r2] & E2 & E). destruct (K _ _ E2) as [O2 L2].
  destruct (128 <=? shift); [discriminate|]. apply bind_ok_inv in E as (out & _ & E).
  destruct b.
  - apply IH in E as [O3 L3]; [|exact O2]. split; [exact O3|lia].
  - injection E as <- <-. split; [exact O2|lia].
Qed.

#[export] Instance variable_stops bits : Stops (integer_serde false true bits).
Proof.
  intros r Hr. cbn [de integer_serde]. unfold SerdeNumberInner_de. rewrite !bind_ok.
  pose proof (de_chunks_terminates _ bits 0 0 r Hr (chunk_fuel_enough r Hr)) as D.
  destruct (de_chunks (chunk_fuel r) bits 0 0 r) as [[v r1]| | |] eqn:E;
    try (cbn [mbind res_bind]; split; [congruence|intros; congruence]).
  rewrite !bind_ok. split; [discriminate|]. intros x r' [= <- <-].
  now apply de_chunks_shrink in E.
Qed.

#[export] Instance kind_stops {K} `{Countable K} {B} (ks : Kinds K B) : Stops (kind_serde ks).
Proof.
  intros r Hr. cbn [de kind_serde]. unfold Kind_de.
  match goal with |- context [foldM ?g ?l ?s] => set (f := g); set (l0 := l) end.
  assert (forall id, foldM f l0 (id, r) <> Diverge /\ forall x r', foldM f l0 (id, r) = Ok (x, r') ->
    reader_ok r' /\ (length (br_bits r') <= length (br_bits r))%nat) as G.
  { clearbody l0. revert r Hr. induction l0 as [|i l0 IH]; intros r Hr id; cbn [foldM].
    - split; [discriminate|]. intros x r' [= <- <-]. auto.
    - assert (f i (id, r) = ('(bit, r') ← BitReader_read_bit r;
        Ok (if (bit : bool) then Z.lor id (wrap 16 (Z.shiftl 1 i)) else id, r'))) as -> by reflexivity.
      pose proof (read_bit_diverge r Hr) as D.
      destruct (BitReader_read_bit r) as [[b r1]| | |] eqn:E1;
        try (cbn [mbind res_bind]; split; [congruence|intros; congruence]).
      apply read_bit_shrink in E1 as [O1 L1]; [|exact Hr]. rewrite !bind_ok.
      split; [now apply IH|]. intros x r' E. apply (IH r1 O1) in E as [O2 L2]. split; [exact O2|lia]. }
  destruct (G 0) as [D S]. destruct (foldM f l0 (0, r)) as [[id r1]| | |];
    try (cbn [mbind res_bind]; split; [congruence|intros; congruence]).
  rewrite bind_ok. unfold net_id_to_kind. destruct (net_id_map ks !! id);
    try (cbn [mbind res_bind unwrap]; split; [congruence|intros; congruence]).
  cbn [unwrap]. rewrite bind_ok. split; [discriminate|]. intros x r' [= <- <-]. eauto.
Qed.

#[export] Instance message_stops {K} `{Countable K} {P} (body : K -> Serde P) (mks : MessageKinds K P) :
  (forall k b, kind_to_builder mks k = Ok b -> Stops b) -> Stops (message_serde body mks).
Proof.
  intros Hb r Hr. cbn [de message_serde]. unfold MessageKinds_read.
  destruct (kind_stops mks r Hr) as [D S]. cbn [de kind_serde] in *.
  destruct (Kind_de mks r) as [[k r1]| | |];
    try (cbn [mbind res_bind]; split; [congruence|intros; congruence]).
  destruct (S _ _ eq_refl) as [O1 L1]. rewrite bind_ok.
  destruct (kind_to_builder mks k) as [b| | |] eqn:Eb;
    try (unfold kind_to_builder, unwrap in Eb; case_match; discriminate);
    try (cbn [mbind res_bind]; split; [congruence|intros; congruence]).
  rewrite bind_ok. destruct (Hb k b Eb r1 O1) as [D2 S2]. destruct (de b r1) as [[p r2]| | |];
    try (cbn [mbind res_bind]; split; [congruence|intros; congruence]).
  rewrite bind_ok. split; [discriminate|]. intros x r' [= <- <-].
  destruct (S2 _ _ eq_refl). split; [assumption|lia].
Qed.

Section Termination.
Context {M : Type} (sm : Serde M) `{!Stops sm}.

Lemma read_loop_stops fuel last acc r :
  reader_ok r -> (length (br_bits r) < fuel)%nat -> read_messages_loop sm fuel last acc r <> Diverge /\
  forall out r', read_messages_loop sm fuel last acc r = Ok (out, r') ->
    reader_ok r' /\ (length (br_bits r') <= length (br_bits r))%nat.
Proof.
  revert last acc r. induction fuel as [|fuel IH]; intros last acc r Hr Hf; [lia|].
  cbn [read_messages_loop de bool_serde]. pose proof (read_bit_diverge r Hr) as D.
  destruct (BitReader_read_bit r) as [[b r1]| | |] eqn:E1;
    try (cbn [mbind res_bind]; split; [congruence|intros; congruence]).
  apply read_bit_shrink in E1 as [O1 L1]; [|exact Hr]. rewrite bind_ok.
  destruct b; cbn [negb]; [|split; [discriminate|]; intros out r' [= <- <-]; split; [exact O1|lia]].
  unfold indexed_read_message.
  assert (read_message_index last r1 <> Diverge /\ forall i r', read_message_index last r1 = Ok (i, r') ->
    reader_ok r' /\ (length (br_bits r') <= length (br_bits r1))%nat) as [D2 S2].
  { destruct last as [l|]; cbn [read_message_index]; [|exact (uint_stops 2 r1 O1)].
    destruct (variable_stops 3 r1 O1) as [D2 S2].
    destruct (de (integer_serde false true 3) r1) as [[n r2]| | |];
      try (cbn [mbind res_bind]; split; [congruence|intros; congruence]).
    rewrite bind_ok. split; [discriminate|]. intros i r' [= <- <-]. eauto. }
  destruct (read_message_index last r1) as [[i r2]| | |];
    try (cbn [mbind res_bind]; split; [congruence|intros; congruence]).
  destruct (S2 _ _ eq_refl) as [O2 L2]. rewrite bind_ok.
  destruct (de_stops (s := sm) r2 O2) as [D3 S3]. destruct (de sm r2) as [[m r3]| | |];
    try (cbn [mbind res_bind]; split; [congruence|intros; congruence]).
  destruct (S3 _ _ eq_refl) as [O3 L3]. rewrite !bind_ok.
  destruct (IH (Some i) (acc ++ [(i, m)]) r3 O3 ltac:(lia)) as [D4 S4]. split; [exact D4|].
  intros out r' E. apply S4 in E as [O4 L4]. split; [exact O4|lia].
Qed.
End Termination.

(** * Theorems *)

(** Reading the messages of a channel stops on every input: whatever the bytes,
    [IndexedMessageReader::read_messages] ends with a list, an error or a panic, for
    every message decoder that itself stops ([message_stops]: the kind tag always does),
    and it leaves a well-formed reader with no more bits than before. *)
Theorem indexed_read_stops {M} (sm : Serde M) `{!Stops sm} (r : BitReader) :
  reader_ok r ->
  match IndexedMessageReader_read_messages sm r with
  | Ok (_, r') => reader_ok r' /\ (length (br_bits r') <= length (br_bits r))%nat
  | Err | Panic => True
  | Diverge => False
  end.
Proof.
  intros Hr. unfold IndexedMessageReader_read_messages.
  destruct (read_loop_stops sm _ None [] r Hr (chunk_fuel_enough r Hr)) as [D S].
  destruct (read_messages_loop sm _ None [] r) as [[out r']| | |]; auto. eauto.
Qed.

Definition hostile_bytes : list Z := [255; 1; 2; 3; 255; 255].

Lemma indexed_read_stops_witness :
  reader_ok (BitReader_new hostile_bytes) /\
  match IndexedMessageReader_read_messages u16_serde (BitReader_new hostile_bytes) with
  | Ok (_, r') => reader_ok r' /\
      (length (br_bits r') <= length (br_bits (BitReader_new hostile_bytes)))%nat
  | Err | Panic => True
  | Diverge => False
  end.
Proof.
  assert (reader_ok (BitReader_new hostile_bytes)) as Hr
    by (apply reader_new_ok; repeat constructor; unfold is_byte; lia).
  split; [exact Hr|].
  exact (indexed_read_stops u16_serde (Stops0 := uint_stops 2) (BitReader_new hostile_bytes) Hr).
Defined.

(** Two 300-byte messages on a reliable channel; only the first fits the packet. *)
Definition big_message (b : Z) : list Z := replicate (Z.to_nat 300) b.
Definition two_big_messages : ReliableSender (list Z) :=
  ReliableSender_collect_messages 0 50
    (snd (ReliableSender_send_message (big_message 2)
      (snd (ReliableSender_send_message (big_message 1) (ReliableSender_new None))))).

(** A reliable message that waits for room in a later packet while an earlier
    one becomes due for resending brings the sender down: the first packet takes
    message 0 and leaves message 1 queued, the resend pass appends 0 behind 1, and
    writing the next packet panics with a negative index difference. *)
Theorem deferred_resend_panics :
  exists s1 w1,
    ReliableMessageSender_write_messages bytes_serde two_big_messages BitWriter_new false =
      Ok ([0], s1, w1, true) /\
    map fst (outgoing_messages s1) = [1] /\
    map fst (outgoing_messages (ReliableSender_collect_messages 60 50 s1)) = [1; 0; 1] /\
    ReliableMessageSender_write_messages bytes_serde (ReliableSender_collect_messages 60 50 s1)
      BitWriter_new false = Panic.
Proof.
  eexists. eexists. split; [vm_compute; reflexivity|].
  split; [vm_compute; reflexivity|]. split; vm_compute; reflexivity.
Qed.
