(* ===== verification/TickBuffer.v ===== *)
(** Tick-buffered channels: a client sends what it did at each of its ticks, again and again until
    it is acknowledged or too late, and the server keeps it until that tick comes.
    - [src/client/src/connection/channel_tick_buffer_sender.rs]: [MessageMap], [OutgoingMessages],
      [ChannelTickBufferSender];
    - [src/server/src/connection/tick_buffer_receiver_channel.rs]: [IncomingMessages],
      [TickBufferReceiverChannel].

    [sm] is the code of the message container ([message_serde] of Kinds); [iter_m] is the order in
    which the messages of a tick are drained from their hash map. *)

From Stdlib Require Import ZArith Lia.
From stdpp Require Import base list numbers gmap.
From S2P Require Import Prelude Wrapping BitIO Number Serde Kinds MessageWire.

Abbreviation Tick := Z.
Abbreviation ShortMessageIndex := Z.

(** * The client's side *)
Section Sender.
Context {M : Type} (sm : Serde M).

(** [MessageMap]: the messages of one tick by their index; a delivered one leaves a hole. *)
Abbreviation MessageMap := (list (option M)).
Definition MessageMap_insert (message : M) (self : MessageMap) : MessageMap := self ++ [Some message].
Fixpoint collect_from (index : Z) (self : MessageMap) : list (ShortMessageIndex * M) :=
  match self with
  | [] => []
  | Some message :: self => (wrap 8 index, message) :: collect_from (index + 1) self
  | None :: self => collect_from (index + 1) self
  end.
Definition MessageMap_collect_messages (self : MessageMap) : list (ShortMessageIndex * M) := collect_from 0 self.
Definition MessageMap_remove (message_index : ShortMessageIndex) (self : MessageMap) : MessageMap :=
  match self !! Z.to_nat message_index with Some _ => <[Z.to_nat message_index := None]> self | None => self end.
Definition MessageMap_len (self : MessageMap) : nat := length self.

(** [OutgoingMessages]: the most recent tick is in front. *)
Record OutgoingMessages := mkOutgoing { og_buffer : list (Tick * MessageMap); og_capacity : nat }.
Definition OutgoingMessages_new (capacity : nat) : OutgoingMessages := {| og_buffer := []; og_capacity := capacity |}.

Definition OutgoingMessages_push (message_tick : Tick) (message : M) (self : OutgoingMessages) : OutgoingMessages :=
  let pushed := {| og_buffer := take self.(og_capacity) ((message_tick, MessageMap_insert message []) :: self.(og_buffer)); og_capacity := self.(og_capacity) |} in
  match self.(og_buffer) with
  | (front_tick, msg_map) :: rest =>
      if message_tick =? front_tick then {| og_buffer := (front_tick, MessageMap_insert message msg_map) :: rest; og_capacity := self.(og_capacity) |}
      else if sequence_less_than message_tick front_tick then self
      else pushed
  | [] => pushed
  end.

(** Popping from the back until a tick after [until_tick] is found there: [rev] turns the back
    into the head. *)
Fixpoint pop_while_old (until_tick : Tick) (rev_buffer : list (Tick * MessageMap)) : list (Tick * MessageMap) :=
  match rev_buffer with
  | (old_tick, msg_map) :: rest => if sequence_less_than until_tick old_tick then rev_buffer else pop_while_old until_tick rest
  | [] => []
  end.
Definition pop_back_until_excluding (until_tick : Tick) (self : OutgoingMessages) : OutgoingMessages :=
  {| og_buffer := rev (pop_while_old until_tick (rev self.(og_buffer))); og_capacity := self.(og_capacity) |}.

(** The loop of [remove_message] from the back; [index] counts what is left in front. *)
Fixpoint remove_from (index : nat) (tick : Tick) (message_index : ShortMessageIndex) (buffer : list (Tick * MessageMap)) : list (Tick * MessageMap) :=
  match index with
  | O => buffer
  | S index =>
      match buffer !! index with
      | Some (old_tick, message_map) =>
          if old_tick =? tick then
            let message_map := MessageMap_remove message_index message_map in
            let buffer := <[index := (old_tick, message_map)]> buffer in
            let buffer := if (MessageMap_len message_map =? 0)%nat then delete index buffer else buffer in
            remove_from index tick message_index buffer
          else if sequence_greater_than old_tick tick then buffer
          else remove_from index tick message_index buffer
      | None => remove_from index tick message_index buffer
      end
  end.
Definition OutgoingMessages_remove_message (tick : Tick) (message_index : ShortMessageIndex) (self : OutgoingMessages) : OutgoingMessages :=
  {| og_buffer := remove_from (length self.(og_buffer)) tick message_index self.(og_buffer); og_capacity := self.(og_capacity) |}.

(** [ChannelTickBufferSender] *)
Record ChannelTickBufferSender := mkTickSender {
  ts_sending_messages : OutgoingMessages;
  ts_outgoing_messages : list (Tick * list (ShortMessageIndex * M));
  ts_last_sent : Tick;
  ts_never_sent : bool }.

Definition ChannelTickBufferSender_new (message_capacity : nat) : ChannelTickBufferSender :=
  {| ts_sending_messages := OutgoingMessages_new message_capacity; ts_outgoing_messages := []; ts_last_sent := 0; ts_never_sent := true |}.

Fixpoint collect_ticks (client_sending_tick : Tick) (buffer : list (Tick * MessageMap)) (outgoing : list (Tick * list (ShortMessageIndex * M)))
  : list (Tick * list (ShortMessageIndex * M)) :=
  match buffer with
  | [] => outgoing
  | (message_tick, message_map) :: rest =>
      if sequence_greater_than message_tick client_sending_tick then outgoing
      else collect_ticks client_sending_tick rest (outgoing ++ [(message_tick, MessageMap_collect_messages message_map)])
  end.

Definition ChannelTickBufferSender_collect_messages (client_sending_tick server_receivable_tick : Tick) (self : ChannelTickBufferSender)
  : ChannelTickBufferSender :=
  if sequence_greater_than client_sending_tick self.(ts_last_sent) || self.(ts_never_sent) then
    let sending := pop_back_until_excluding server_receivable_tick self.(ts_sending_messages) in
    {| ts_sending_messages := sending;
       ts_outgoing_messages := collect_ticks client_sending_tick sending.(og_buffer) self.(ts_outgoing_messages);
       ts_last_sent := client_sending_tick; ts_never_sent := true |}
  else self.

Definition ChannelTickBufferSender_send_message (host_tick : Tick) (message : M) (self : ChannelTickBufferSender) : ChannelTickBufferSender :=
  {| ts_sending_messages := OutgoingMessages_push host_tick message self.(ts_sending_messages); ts_outgoing_messages := self.(ts_outgoing_messages);
     ts_last_sent := self.(ts_last_sent); ts_never_sent := self.(ts_never_sent) |}.

Definition ChannelTickBufferSender_has_messages (self : ChannelTickBufferSender) : bool :=
  match self.(ts_outgoing_messages) with [] => false | _ => true end.

Definition notify_message_delivered (tick : Tick) (message_index : ShortMessageIndex) (self : ChannelTickBufferSender) : ChannelTickBufferSender :=
  {| ts_sending_messages := OutgoingMessages_remove_message tick message_index self.(ts_sending_messages);
     ts_outgoing_messages := self.(ts_outgoing_messages); ts_last_sent := self.(ts_last_sent); ts_never_sent := self.(ts_never_sent) |}.

(** The messages of one tick, behind the distance of their tick to the one written before. *)
Definition write_one {W} `{BitWrite W} (x : ShortMessageIndex * M) (s : ShortMessageIndex * W) : res (ShortMessageIndex * W) :=
  let '(message_index, message) := x in
  let '(last_id_written, w) := s in
  d ← usub message_index last_id_written;
  id_diff ← SerdeInteger_new false true 2 d;
  w ← ser (integer_serde false true 2) id_diff w;
  w ← ser sm message w;
  Ok (message_index, w).

Definition tick_write_message {W} `{BitWrite W} (last_written_tick message_tick : Tick) (messages : list (ShortMessageIndex * M)) (w : W) : res W :=
  message_tick_diff ← wrapping_diff message_tick last_written_tick;
  message_tick_diff_encoded ← SerdeInteger_new false true 3 message_tick_diff;
  w ← ser (integer_serde false true 3) message_tick_diff_encoded w;
  message_count ← SerdeInteger_new false true 3 (len messages);
  w ← ser (integer_serde false true 3) message_count w;
  '(_, w) ← foldM write_one messages (0, w);
  Ok w.

(** An overflow before anything was written is the panic of [warn_overflow]. *)
Fixpoint tick_write_loop (outgoing_messages : list (Tick * list (ShortMessageIndex * M))) (last_written_tick : Tick)
    (output : list (Tick * ShortMessageIndex)) (writer : BitWriter) (has_written : bool)
  : res (list (Tick * ShortMessageIndex) * list (Tick * list (ShortMessageIndex * M)) * BitWriter * bool) :=
  match outgoing_messages with
  | [] => Ok (output, [], writer, has_written)
  | (message_tick, messages) :: rest =>
      counter ← write_bit true (BitWriter_counter writer);
      counter ← tick_write_message last_written_tick message_tick messages counter;
      if BitCounter_overflowed counter then
        if has_written then Ok (output, outgoing_messages, writer, has_written) else Panic
      else
        writer ← write_bit true writer;
        writer ← tick_write_message last_written_tick message_tick messages writer;
        tick_write_loop rest message_tick (output ++ map (fun x => (message_tick, x.1)) messages) writer true
  end.

Definition ChannelTickBufferSender_write_messages (host_tick : Tick) (self : ChannelTickBufferSender) (writer : BitWriter) (has_written : bool)
  : res (list (Tick * ShortMessageIndex) * ChannelTickBufferSender * BitWriter * bool) :=
  '(output, rest, writer, has_written) ← tick_write_loop self.(ts_outgoing_messages) host_tick [] writer has_written;
  Ok (output, {| ts_sending_messages := self.(ts_sending_messages); ts_outgoing_messages := rest; ts_last_sent := self.(ts_last_sent);
                 ts_never_sent := self.(ts_never_sent) |}, writer, has_written).
End Sender.
Arguments OutgoingMessages M : clear implicits.
Arguments ChannelTickBufferSender M : clear implicits.

(** * The server's side *)
Section Receiver.
Context {M : Type} (sm : Serde M) (iter_m : gmap ShortMessageIndex M -> list M).

(** [IncomingMessages]: the present is in front. *)
Abbreviation IncomingMessages := (list (Tick * gmap ShortMessageIndex M)).

(** The loop of [insert] from the back (the future) to the front. *)
Fixpoint insert_from (index : nat) (message_tick : Tick) (message_index : ShortMessageIndex) (new_message : M) (buffer : IncomingMessages)
  : bool * IncomingMessages :=
  let new_messages := {[message_index := new_message]} in
  match index with
  | O => (true, (message_tick, new_messages) :: buffer)
  | S index =>
      match buffer !! index with
      | Some (existing_tick, existing_messages) =>
          if existing_tick =? message_tick then
            match existing_messages !! message_index with
            | None => (true, <[index := (existing_tick, <[message_index := new_message]> existing_messages)]> buffer)
            | Some _ => (false, buffer)
            end
          else if sequence_greater_than message_tick existing_tick then
            (true, take (S index) buffer ++ (message_tick, new_messages) :: drop (S index) buffer)
          else insert_from index message_tick message_index new_message buffer
      | None => insert_from index message_tick message_index new_message buffer
      end
  end.

Definition IncomingMessages_insert (host_tick message_tick : Tick) (message_index : ShortMessageIndex) (new_message : M) (message_capacity : Z)
    (buffer : IncomingMessages) : bool * IncomingMessages :=
  if sequence_greater_than message_tick host_tick then
    let buffer_limit_tick := wrapping_add16 host_tick message_capacity in
    if negb (sequence_greater_than buffer_limit_tick message_tick) then (false, buffer)
    else insert_from (length buffer) message_tick message_index new_message buffer
  else (false, buffer).

Fixpoint prune_outdated_commands (host_tick : Tick) (buffer : IncomingMessages) : IncomingMessages :=
  match buffer with
  | (front_tick, _) :: rest => if sequence_greater_than host_tick front_tick then prune_outdated_commands host_tick rest else buffer
  | [] => []
  end.

Definition IncomingMessages_collect (host_tick : Tick) (buffer : IncomingMessages) : list M * IncomingMessages :=
  match prune_outdated_commands host_tick buffer with
  | (front_tick, command_map) :: rest => if front_tick =? host_tick then (iter_m command_map, rest) else ([], (front_tick, command_map) :: rest)
  | [] => ([], [])
  end.

(** [read_message]: a tick and its messages; every message takes at least a bit, so that the
    buffer's bits bound the rounds. *)
Fixpoint read_tick_messages (fuel : nat) (count : Z) (host_tick remote_tick : Tick) (capacity : Z) (last_read_message_index : ShortMessageIndex)
    (buffer : IncomingMessages) (r : BitReader) : res (IncomingMessages * BitReader) :=
  if count <=? 0 then Ok (buffer, r)
  else match fuel with
  | O => Diverge
  | S fuel =>
      '(n, r) ← de (integer_serde false true 2) r;
      message_index ← uadd 8 last_read_message_index (wrap 8 (SerdeInteger_get n));
      '(new_message, r) ← de sm r;
      let '(_, buffer) := IncomingMessages_insert host_tick remote_tick message_index new_message capacity buffer in
      read_tick_messages fuel (count - 1) host_tick remote_tick capacity message_index buffer r
  end.

Definition tick_read_message (host_tick last_read_tick : Tick) (capacity : Z) (buffer : IncomingMessages) (r : BitReader)
  : res (Tick * IncomingMessages * BitReader) :=
  '(n, r) ← de (integer_serde false true 3) r;
  let remote_tick := wrap 16 (last_read_tick - wrap 16 (SerdeInteger_get n)) in
  '(n, r) ← de (integer_serde false true 3) r;
  '(buffer, r) ← read_tick_messages (chunk_fuel r) (SerdeInteger_get n) host_tick remote_tick capacity 0 buffer r;
  Ok (remote_tick, buffer, r).

Fixpoint tick_read_loop (fuel : nat) (host_tick last_read_tick : Tick) (capacity : Z) (buffer : IncomingMessages) (r : BitReader)
  : res (IncomingMessages * BitReader) :=
  match fuel with
  | O => Diverge
  | S fuel =>
      '(message_continue, r) ← de bool_serde r;
      if negb message_continue then Ok (buffer, r)
      else '(last_read_tick, buffer, r) ← tick_read_message host_tick last_read_tick capacity buffer r;
           tick_read_loop fuel host_tick last_read_tick capacity buffer r
  end.

(** [message_capacity as u16] *)
Definition TickBufferReceiverChannel_read_messages (message_capacity : Z) (host_tick remote_tick : Tick) (buffer : IncomingMessages) (r : BitReader)
  : res (IncomingMessages * BitReader) :=
  tick_read_loop (chunk_fuel r) host_tick remote_tick (wrap 16 message_capacity) buffer r.
End Receiver.

(** * All tick-buffered channels of a connection
    ([src/client/src/connection/tick_buffer_sender.rs],
    [src/server/src/connection/tick_buffer_receiver.rs]); [ck] is the code of channel kinds and
    [iter_s], [iter_r] the orders in which the maps of channels are walked. *)
Section Sending.
Context {K M : Type} `{Countable K} (ck : Serde K) (sm : Serde M).
Context (iter_s : gmap K (ChannelTickBufferSender M) -> list K).

Record TickBufferSender := mkTickBufferSender {
  tb_channel_senders : gmap K (ChannelTickBufferSender M);
  tb_packet_to_channel_map : gmap Z (list (K * list (Tick * ShortMessageIndex))) }.

(** The tick-buffered channels of the protocol with their capacities. *)
Definition TickBufferSender_new (channels : list (K * nat)) : TickBufferSender :=
  {| tb_channel_senders := foldl (fun m x => <[x.1 := ChannelTickBufferSender_new x.2]> m) ∅ channels; tb_packet_to_channel_map := ∅ |}.

Definition TickBufferSender_send_message (host_tick : Tick) (channel_kind : K) (message : M) (self : TickBufferSender) : TickBufferSender :=
  {| tb_channel_senders := alter (ChannelTickBufferSender_send_message host_tick message) channel_kind self.(tb_channel_senders);
     tb_packet_to_channel_map := self.(tb_packet_to_channel_map) |}.

Definition TickBufferSender_collect_messages (client_sending_tick server_receivable_tick : Tick) (self : TickBufferSender) : TickBufferSender :=
  {| tb_channel_senders := ChannelTickBufferSender_collect_messages client_sending_tick server_receivable_tick <$> self.(tb_channel_senders);
     tb_packet_to_channel_map := self.(tb_packet_to_channel_map) |}.

Definition TickBufferSender_has_messages (self : TickBufferSender) : bool :=
  existsb (fun k => match self.(tb_channel_senders) !! k with Some channel => ChannelTickBufferSender_has_messages channel | None => false end)
    (iter_s self.(tb_channel_senders)).

Fixpoint write_channels (packet_index : Z) (host_tick : Tick) (kinds : list K) (self : TickBufferSender) (writer : BitWriter) (has_written : bool)
  : res (TickBufferSender * BitWriter * bool) :=
  match kinds with
  | [] => Ok (self, writer, has_written)
  | channel_kind :: kinds =>
      match self.(tb_channel_senders) !! channel_kind with
      | None => write_channels packet_index host_tick kinds self writer has_written
      | Some channel =>
          if negb (ChannelTickBufferSender_has_messages channel) then write_channels packet_index host_tick kinds self writer has_written
          else
            counter ← write_bit true (BitWriter_counter writer);
            counter ← write_bit true counter;
            counter ← ser ck channel_kind counter;
            if BitCounter_overflowed counter then Ok (self, writer, has_written)
            else
              writer ← BitWriter_reserve_bits 1 writer;
              writer ← write_bit true writer;
              writer ← ser ck channel_kind writer;
              '(message_indices, channel, writer, has_written) ← ChannelTickBufferSender_write_messages sm host_tick channel writer has_written;
              let self := {| tb_channel_senders := <[channel_kind := channel]> self.(tb_channel_senders);
                             tb_packet_to_channel_map :=
                               <[packet_index := default [] (self.(tb_packet_to_channel_map) !! packet_index) ++ [(channel_kind, message_indices)]]>
                                 self.(tb_packet_to_channel_map) |} in
              writer ← BitWriter_release_bits 1 writer;
              writer ← write_bit false writer;
              write_channels packet_index host_tick kinds self writer has_written
      end
  end.

Definition TickBufferSender_write_messages (packet_index : Z) (host_tick : Tick) (self : TickBufferSender) (writer : BitWriter) (has_written : bool)
  : res (TickBufferSender * BitWriter * bool) :=
  '(self, writer, has_written) ← write_channels packet_index host_tick (iter_s self.(tb_channel_senders)) self writer has_written;
  writer ← BitWriter_release_bits 1 writer;
  writer ← write_bit false writer;
  Ok (self, writer, has_written).

Definition TickBufferSender_notify_packet_delivered (packet_index : Z) (self : TickBufferSender) : TickBufferSender :=
  match self.(tb_packet_to_channel_map) !! packet_index with
  | None => self
  | Some channel_list =>
      {| tb_channel_senders :=
           foldl (fun m x => alter (fun channel => foldl (fun channel y => notify_message_delivered y.1 y.2 channel) channel x.2) x.1 m)
             self.(tb_channel_senders) channel_list;
         tb_packet_to_channel_map := self.(tb_packet_to_channel_map) |}
  end.
End Sending.

Section Receiving.
Context {K M : Type} `{Countable K} (ck : Serde K) (sm : Serde M) (iter_m : gmap ShortMessageIndex M -> list M).

(** [TickBufferReceiver]: the capacity and the buffer of each channel. *)
Abbreviation TickBufferReceiver := (gmap K (Z * list (Tick * gmap ShortMessageIndex M))).
Context (iter_r : TickBufferReceiver -> list K).

Definition TickBufferReceiver_new (channels : list (K * Z)) : TickBufferReceiver := foldl (fun m x => <[x.1 := (x.2, [])]> m) ∅ channels.

Fixpoint TickBufferReceiver_read_loop (fuel : nat) (host_tick remote_tick : Tick) (self : TickBufferReceiver) (r : BitReader) : res (TickBufferReceiver * BitReader) :=
  match fuel with
  | O => Diverge
  | S fuel =>
      '(channel_continue, r) ← de bool_serde r;
      if negb channel_continue then Ok (self, r)
      else
        '(channel_kind, r) ← de ck r;
        '(capacity, buffer) ← unwrap (self !! channel_kind);
        '(buffer, r) ← TickBufferReceiverChannel_read_messages sm capacity host_tick remote_tick buffer r;
        TickBufferReceiver_read_loop fuel host_tick remote_tick (<[channel_kind := (capacity, buffer)]> self) r
  end.

(** Every round takes at least the continue bit. *)
Definition TickBufferReceiver_read_messages (host_tick remote_tick : Tick) (self : TickBufferReceiver) (r : BitReader) : res (TickBufferReceiver * BitReader) :=
  TickBufferReceiver_read_loop (chunk_fuel r) host_tick remote_tick self r.

Definition TickBufferReceiver_receive_messages (host_tick : Tick) (self : TickBufferReceiver) : list (K * list M) * TickBufferReceiver :=
  foldl (fun '(output, self) k =>
           match self !! k with
           | Some (capacity, buffer) =>
               let '(messages, buffer) := IncomingMessages_collect iter_m host_tick buffer in
               (output ++ [(k, messages)], <[k := (capacity, buffer)]> self)
           | None => (output, self)
           end) ([], self) (iter_r self).
End Receiving.
