(* ===== verification/TickBufferFacts.v ===== *)
(** What tick-buffered channels promise: the server's buffer behaves like a map from ticks to the
    messages of that tick, handed out when the tick comes; what a client writes into a packet is
    what the server puts into its buffer. *)

From Stdlib Require Import ZArith Lia Sorted.
From stdpp Require Import base list numbers gmap.
From S2P Require Import Prelude Wrapping BitIO Number Serde Kinds MessageWire TickBuffer.

(** * The server's buffer *)
Section Buffer.
Context {M : Type}.
Abbreviation Pending := (gmap Z (gmap Z M)).
Abbreviation Ticks := (list (Z * gmap Z M)).

(** The specification works on ticks that do not wrap. *)
Definition spec_insert (cap host tick : Z) (i : Z) (m : M) (p : Pending) : bool * Pending :=
  if (host <? tick) && (tick <? host + cap) then
    match p !! tick with
    | None => (true, <[tick := {[i := m]}]> p)
    | Some ms => match ms !! i with
                 | None => (true, <[tick := <[i := m]> ms]> p)
                 | Some _ => (false, p)
                 end
    end
  else (false, p).

(** The buffer: the ticks in ascending order, known by their low 16 bits. *)
Definition low (l : Ticks) : Ticks := map (fun x => (wrap 16 x.1, x.2)) l.
Definition before (x y : Z * gmap Z M) : Prop := x.1 < y.1.
Definition as_map (l : Ticks) : Pending := list_to_map l.

Record buffered (cap host : Z) (buffer : Ticks) (p : Pending) (l : Ticks) : Prop := {
  bf_low : buffer = low l;
  bf_map : p = as_map l;
  bf_sorted : StronglySorted before l;
  bf_window : Forall (fun x => host - (32767 - cap) <= x.1 < host + cap) l
}.

Lemma ticks_sorted_nodup l : StronglySorted before l -> NoDup l.*1.
Proof using Type.
  induction 1 as [|x l Hs IH Hx]; [constructor|]. cbn. constructor; [|exact IH].
  intros (y & Hy & Hin)%list_elem_of_fmap. rewrite Forall_forall in Hx. specialize (Hx y Hin). unfold before in Hx. lia.
Qed.

Lemma sorted_lookup l k v : StronglySorted before l -> as_map l !! k = Some v <-> (k, v) ∈ l.
Proof using Type. intros Hs. symmetry. apply elem_of_list_to_map. now apply ticks_sorted_nodup. Qed.

Lemma ticks_sorted_app l1 l2 : StronglySorted before (l1 ++ l2) <->
  StronglySorted before l1 /\ StronglySorted before l2 /\ forall x y, x ∈ l1 -> y ∈ l2 -> x.1 < y.1.
Proof using Type.
  induction l1 as [|a l1 IH]; cbn [app].
  - split; [intros H; split_and!; [constructor|exact H|intros x y Hx; now apply elem_of_nil in Hx]|tauto].
  - split.
    + intros H. apply StronglySorted_inv in H as [Hs Ha]. apply IH in Hs as (H1 & H2 & H3). rewrite Forall_app in Ha. destruct Ha as [Ha1 Ha2].
      split_and!; [now constructor|exact H2|]. intros x y [->|Hx]%elem_of_cons Hy; [rewrite Forall_forall in Ha2; exact (Ha2 y Hy)|eauto].
    + intros (H1 & H2 & H3). apply StronglySorted_inv in H1 as [H1 Ha]. constructor.
      * apply IH. split_and!; auto. intros x y Hx Hy. apply H3; [now right|exact Hy].
      * rewrite Forall_app. split; [exact Ha|]. apply Forall_forall. intros y Hy. apply H3; [now left|exact Hy].
Qed.

(** The map of a sorted list with one entry more, or another. *)
Lemma as_map_middle l1 k v l2 : StronglySorted before (l1 ++ (k, v) :: l2) -> as_map (l1 ++ (k, v) :: l2) = <[k := v]> (as_map (l1 ++ l2)).
Proof using Type.
  intros Hs. unfold as_map. rewrite !list_to_map_app. cbn. apply map_eq. intros j. rewrite !lookup_union, lookup_insert.
  destruct (decide (k = j)) as [<-|Hne]; [|rewrite lookup_insert_ne by exact Hne; now rewrite lookup_union].
  - rewrite lookup_insert_eq. replace ((list_to_map l1 : Pending) !! k) with (@None (gmap Z M)); [reflexivity|]. symmetry.
    apply not_elem_of_list_to_map. intros (x & Hx & Hin)%list_elem_of_fmap. apply ticks_sorted_app in Hs as (_ & _ & H3).
    specialize (H3 x (k, v) Hin ltac:(now left)). cbn in H3. lia.
Qed.

Lemma as_map_replace l1 k v v' l2 : StronglySorted before (l1 ++ (k, v') :: l2) -> StronglySorted before (l1 ++ (k, v) :: l2) ->
  as_map (l1 ++ (k, v) :: l2) = <[k := v]> (as_map (l1 ++ (k, v') :: l2)).
Proof using Type. intros H1 H2. rewrite !as_map_middle by assumption. now rewrite insert_insert_eq. Qed.

Lemma low_app l1 l2 : low (l1 ++ l2) = low l1 ++ low l2.
Proof using Type. apply map_app. Qed.

Lemma length_low l : length (low l) = length l.
Proof using Type. apply length_map. Qed.

(** One step of the search from the back: everything behind is later than the new tick. *)
Lemma insert_from_spec T i m l1 l2 :
  StronglySorted before (l1 ++ l2) -> Forall (fun x => close T x.1) (l1 ++ l2) -> Forall (fun x => T < x.1) l2 ->
  let p := as_map (l1 ++ l2) in
  exists l', insert_from (length l1) (wrap 16 T) i m (low (l1 ++ l2))
      = (match p !! T with Some ms => match ms !! i with Some _ => false | None => true end | None => true end, low l') /\
    StronglySorted before l' /\ (forall x, x ∈ l' -> x.1 = T \/ exists y, y ∈ l1 ++ l2 /\ y.1 = x.1) /\
    as_map l' = match p !! T with
                | Some ms => match ms !! i with Some _ => p | None => <[T := <[i := m]> ms]> p end
                | None => <[T := {[i := m]}]> p
                end.
Proof using Type.
  revert l2. induction l1 as [|x l1 IH] using rev_ind; intros l2 Hs Hc Hl2 p.
  - assert (p !! T = None) as Hn.
    { apply not_elem_of_list_to_map. intros (y & Hy & Hin)%list_elem_of_fmap. rewrite Forall_forall in Hl2. specialize (Hl2 y Hin). lia. }
    rewrite Hn. assert (StronglySorted before ((T, {[i := m]}) :: l2)) as Hs' by (constructor; [exact Hs|exact Hl2]).
    exists ((T, {[i := m]}) :: l2). split; [reflexivity|]. split; [exact Hs'|]. split.
    + intros y [->|Hy]%elem_of_cons; [now left|right; eauto].
    + exact (as_map_middle [] T {[i := m]} l2 Hs').
  - subst p. rewrite <- app_assoc in *. cbn [app] in *. rewrite length_app, Nat.add_1_r. cbn [insert_from].
    replace (low (l1 ++ x :: l2) !! length l1) with (Some (wrap 16 x.1, x.2))
      by (rewrite low_app, lookup_app_r, length_low, Nat.sub_diag by (rewrite length_low; lia); reflexivity).
    assert (close T x.1) as Hcx by (rewrite Forall_app, Forall_cons in Hc; tauto).
    rewrite (Z.eqb_sym (wrap 16 x.1)), (close_eqb T x.1 Hcx), (seq_gt_close T x.1 Hcx). destruct x as [k v]. cbn [fst snd] in *.
    pose proof (proj1 (ticks_sorted_app l1 ((k, v) :: l2)) Hs) as (_ & Hs2 & H12). apply StronglySorted_inv in Hs2 as [Hs2 Hk].
    destruct (Z.eqb_spec T k) as [<-|Hne].
    + assert (as_map (l1 ++ (T, v) :: l2) !! T = Some v) as -> by (apply sorted_lookup; [exact Hs|apply elem_of_app; right; now left]).
      destruct (v !! i) eqn:Hi; [exists (l1 ++ (T, v) :: l2); split_and!; auto; intros y Hy; right; eauto|].
      assert (StronglySorted before (l1 ++ (T, <[i := m]> v) :: l2)) as Hs'.
      { apply ticks_sorted_app. split_and!; [now apply ticks_sorted_app in Hs|constructor; [exact Hs2|exact Hk]|].
        intros y z Hy [->|Hz]%elem_of_cons; [exact (H12 y (T, v) Hy ltac:(now left))|apply H12; [exact Hy|now right]]. }
      exists (l1 ++ (T, <[i := m]> v) :: l2). split_and!; [|exact Hs'| |now apply as_map_replace].
      * f_equal. rewrite !low_app. cbn [low map]. rewrite insert_app_r_alt by (rewrite length_low; lia). now rewrite length_low, Nat.sub_diag.
      * intros y [Hy|[->|Hy]%elem_of_cons]%elem_of_app; [right; exists y; split; [apply elem_of_app; now left|reflexivity]|now left|].
        right. exists y. split; [apply elem_of_app; right; now right|reflexivity].
    + destruct (Z.ltb_spec k T) as [Hlt|Hge].
      * assert (as_map (l1 ++ (k, v) :: l2) !! T = None) as ->.
        { apply not_elem_of_list_to_map. intros (y & Hy & [Hin|[->|Hin]%elem_of_cons]%elem_of_app)%list_elem_of_fmap.
          - specialize (H12 y (k, v) Hin ltac:(now left)). cbn in H12. lia.
          - cbn in Hy. lia.
          - rewrite Forall_forall in Hl2. specialize (Hl2 y Hin). lia. }
        assert (StronglySorted before ((l1 ++ [(k, v)]) ++ (T, {[i := m]}) :: l2)) as Hs'.
        { apply ticks_sorted_app. split_and!.
          - replace (l1 ++ (k, v) :: l2) with ((l1 ++ [(k, v)]) ++ l2) in Hs by (now rewrite <- app_assoc). now apply ticks_sorted_app in Hs.
          - constructor; [exact Hs2|exact Hl2].
          - intros y z [Hy| ->%list_elem_of_singleton]%elem_of_app [->|Hz]%elem_of_cons; cbn.
            + specialize (H12 y (k, v) Hy ltac:(now left)). cbn in H12. lia.
            + apply H12; [exact Hy|now right].
            + exact Hlt.
            + rewrite Forall_forall in Hk. exact (Hk z Hz). }
        exists ((l1 ++ [(k, v)]) ++ (T, {[i := m]}) :: l2). split_and!; [|exact Hs'| |].
        -- f_equal. rewrite !low_app. cbn [low map fst snd].
           rewrite take_app_ge, drop_app_ge by (rewrite length_low; lia). rewrite length_low.
           replace (S (length l1) - length l1)%nat with 1%nat by lia. reflexivity.
        -- intros y [Hy|[->|Hy]%elem_of_cons]%elem_of_app; [|now left|].
           ++ right. exists y. split; [|reflexivity]. apply elem_of_app in Hy as [Hy| ->%list_elem_of_singleton]; apply elem_of_app; [now left|right; now left].
           ++ right. exists y. split; [apply elem_of_app; right; now right|reflexivity].
        -- rewrite as_map_middle by exact Hs'. now rewrite <- app_assoc.
      * apply IH; [exact Hs|exact Hc|]. constructor; [cbn; lia|exact Hl2].
Qed.

Lemma incoming_insert_spec cap H T i m buffer p l :
  0 <= cap <= 32767 -> buffered cap H buffer p l -> close T H ->
  exists l', IncomingMessages_insert (wrap 16 H) (wrap 16 T) i m cap buffer = ((spec_insert cap H T i m p).1, low l') /\
    buffered cap H (low l') (spec_insert cap H T i m p).2 l'.
Proof using Type.
  intros Hcap Hb Hc. pose proof Hb as [-> -> Hs Hw]. unfold IncomingMessages_insert, spec_insert. rewrite (seq_gt_close T H Hc).
  destruct (Z.ltb_spec H T) as [Hlt|Hge]; [|now exists l].
  unfold wrapping_add16. rewrite wrap16_add_l, seq_gt_close by (unfold close in *; lia).
  destruct (Z.ltb_spec T (H + cap)) as [Hin|Hout]; [|now exists l]. cbn [negb andb].
  rewrite length_low. destruct (insert_from_spec T i m l []) as (l' & Hr & Hs' & Hk & Hm).
  - now rewrite app_nil_r.
  - rewrite app_nil_r. apply Forall_forall. intros x Hx. rewrite Forall_forall in Hw. specialize (Hw x Hx). unfold close in *. lia.
  - constructor.
  - rewrite app_nil_r in *. exists l'. rewrite Hr. unfold as_map in *.
    assert (forall q, as_map l' = q -> buffered cap H (low l') q l') as Hbuf.
    { intros q Hq. split; [reflexivity|now symmetry|exact Hs'|]. apply Forall_forall. intros x Hx. rewrite Forall_forall in Hw.
      destruct (Hk x Hx) as [-> |(y & Hy & <-)]; [unfold close in Hc; lia|exact (Hw y Hy)]. }
    destruct ((list_to_map l : Pending) !! T) as [ms|]; [destruct (ms !! i)|]; (split; [reflexivity|now apply Hbuf]).
Qed.

Lemma prune_spec H l : StronglySorted before l -> Forall (fun x => close H x.1) l ->
  exists l', prune_outdated_commands (wrap 16 H) (low l) = low l' /\ StronglySorted before l' /\ (forall x, x ∈ l' <-> x ∈ l /\ H <= x.1).
Proof using Type.
  induction l as [|[k v] l IH]; intros Hs Hc.
  - exists []. split; [reflexivity|]. split; [exact Hs|]. intros x. split; [intros Hx; now apply elem_of_nil in Hx|intros [Hx _]; now apply elem_of_nil in Hx].
  - apply Forall_cons in Hc as [Hck Hc]. pose proof Hs as Hs0. apply StronglySorted_inv in Hs as [Hs Hk]. cbn [fst] in Hck.
    cbn [low map prune_outdated_commands fst snd]. rewrite (seq_gt_close H k Hck). destruct (Z.ltb_spec k H) as [Hlt|Hge].
    + destruct (IH Hs Hc) as (l' & Hr & Hs' & Hin). exists l'. split; [exact Hr|]. split; [exact Hs'|]. intros x. rewrite Hin, elem_of_cons. split; [tauto|].
      intros [[->|Hx] Hle]; [cbn in Hle; lia|tauto].
    + exists ((k, v) :: l). split; [reflexivity|]. split; [exact Hs0|]. intros x. split; [|tauto]. intros Hx. split; [exact Hx|].
      apply elem_of_cons in Hx as [->|Hx]; [exact Hge|]. rewrite Forall_forall in Hk. specialize (Hk x Hx). unfold before in Hk. cbn in Hk. lia.
Qed.

Context (iter_m : gmap Z M -> list M).

Definition spec_collect (host : Z) (p : Pending) : list M * Pending :=
  (match p !! host with Some ms => iter_m ms | None => [] end, filter (fun x => host < x.1) p).

Lemma incoming_collect_spec cap H buffer p l :
  0 <= cap <= 32767 -> buffered cap H buffer p l ->
  exists l', IncomingMessages_collect iter_m (wrap 16 H) buffer = ((spec_collect H p).1, low l') /\ buffered cap H (low l') (spec_collect H p).2 l'.
Proof using Type.
  intros Hcap [-> -> Hs Hw]. unfold IncomingMessages_collect, spec_collect.
  assert (Forall (fun x => close H x.1) l) as Hc.
  { apply Forall_forall. intros x Hx. rewrite Forall_forall in Hw. specialize (Hw x Hx). unfold close. lia. }
  destruct (prune_spec H l Hs Hc) as (l1 & -> & Hs1 & Hin1).
  assert (forall l', StronglySorted before l' -> (forall x, x ∈ l' <-> x ∈ l /\ H < x.1) -> buffered cap H (low l') (filter (fun x => H < x.1) (as_map l)) l') as Hbuf.
  { intros l' Hs' Hin. split; [reflexivity| |exact Hs'|].
    - apply map_eq. intros k. apply option_eq. intros v. rewrite map_lookup_filter_Some, !sorted_lookup by assumption. rewrite Hin. reflexivity.
    - apply Forall_forall. intros x [Hx _]%Hin. rewrite Forall_forall in Hw. exact (Hw x Hx). }
  destruct l1 as [|[k v] l1].
  - exists []. cbn [low map]. split.
    + replace (as_map l !! H) with (@None (gmap Z M)); [reflexivity|]. symmetry. apply eq_None_not_Some. intros [ms Hms%sorted_lookup]; [|exact Hs].
      assert ((H, ms) ∈ ([] : Ticks)) as Hx by (apply Hin1; cbn; split; [exact Hms|lia]). now apply elem_of_nil in Hx.
    + apply (Hbuf []); [exact Hs1|]. intros x. split; [intros Hx; now apply elem_of_nil in Hx|]. intros [Hx Hlt]. apply Hin1. split; [exact Hx|lia].
  - cbn [low map fst snd]. assert ((k, v) ∈ l /\ H <= k) as [Hkl Hk] by (apply (Hin1 (k, v)); now left).
    assert (close k H) as Hck by (rewrite Forall_forall in Hc; specialize (Hc _ Hkl); unfold close in *; cbn in Hc; lia).
    rewrite (close_eqb k H Hck). apply StronglySorted_inv in Hs1 as [Hs1 Hfk]. rewrite Forall_forall in Hfk.
    destruct (Z.eqb_spec k H) as [->|Hne].
    + exists l1. assert (as_map l !! H = Some v) as -> by (now apply sorted_lookup). split; [reflexivity|]. apply Hbuf; [exact Hs1|].
      intros x. split.
      * intros Hx. split; [apply (proj1 (Hin1 x)); now right|exact (Hfk x Hx)].
      * intros [Hx Hlt]. assert (x ∈ (H, v) :: l1) as [->|?]%elem_of_cons by (apply Hin1; split; [exact Hx|lia]); [cbn in Hlt; lia|assumption].
    + exists ((k, v) :: l1). split.
      * replace (as_map l !! H) with (@None (gmap Z M)); [reflexivity|]. symmetry. apply eq_None_not_Some. intros [ms Hms%sorted_lookup]; [|exact Hs].
        assert ((H, ms) ∈ (k, v) :: l1) as [Heq|Hx]%elem_of_cons by (apply Hin1; cbn; split; [exact Hms|lia]); [congruence|].
        specialize (Hfk _ Hx). unfold before in Hfk. cbn in Hfk. lia.
      * apply Hbuf; [constructor; [exact Hs1|now apply Forall_forall]|]. intros x. rewrite Hin1. split; [|intros [? ?]; split; [assumption|lia]].
        intros [Hx Hle]. split; [exact Hx|]. assert (x ∈ (k, v) :: l1) as [->|Hx1]%elem_of_cons by (now apply Hin1); [cbn; lia|].
        specialize (Hfk _ Hx1). unfold before in Hfk. cbn in Hfk. lia.
Qed.

(** ** Histories *)

(** A message that arrives at a host tick, or the host tick being collected. *)
Inductive tick_event := Arrive (host tick : Z) (i : Z) (m : M) | Collect (host : Z).
Definition host_of_event (ev : tick_event) : Z := match ev with Arrive h _ _ _ | Collect h => h end.

(** The answers of the buffer: whether it took a message, and what it handed out. *)
Definition run_event (cap : Z) (ev : tick_event) (buffer : Ticks) : (bool + list M) * Ticks :=
  match ev with
  | Arrive h t i m => let '(b, buffer) := IncomingMessages_insert (wrap 16 h) (wrap 16 t) i m cap buffer in (inl b, buffer)
  | Collect h => let '(ms, buffer) := IncomingMessages_collect iter_m (wrap 16 h) buffer in (inr ms, buffer)
  end.
Definition spec_event (cap : Z) (ev : tick_event) (p : Pending) : (bool + list M) * Pending :=
  match ev with
  | Arrive h t i m => let '(b, p) := spec_insert cap h t i m p in (inl b, p)
  | Collect h => let '(ms, p) := spec_collect h p in (inr ms, p)
  end.

Fixpoint run_events (cap : Z) (evs : list tick_event) (buffer : Ticks) : list (bool + list M) :=
  match evs with [] => [] | ev :: evs => let '(o, buffer) := run_event cap ev buffer in o :: run_events cap evs buffer end.
Fixpoint spec_events (cap : Z) (evs : list tick_event) (p : Pending) : list (bool + list M) :=
  match evs with [] => [] | ev :: evs => let '(o, p) := spec_event cap ev p in o :: spec_events cap evs p end.

(** The host tick never goes back, messages are within half the range of ticks, and what waits
    is not left uncollected for so long that its tick could be taken for a future one. *)
Fixpoint timely (cap host : Z) (evs : list tick_event) (p : Pending) : Prop :=
  match evs with
  | [] => True
  | ev :: evs =>
      host <= host_of_event ev /\ map_Forall (fun k _ => host_of_event ev - (32767 - cap) <= k) p /\
      match ev with Arrive h t _ _ => close t h | Collect _ => True end /\
      timely cap (host_of_event ev) evs (spec_event cap ev p).2
  end.

Lemma buffered_later cap H H' buffer p l : H <= H' -> map_Forall (fun k _ => H' - (32767 - cap) <= k) p ->
  buffered cap H buffer p l -> buffered cap H' buffer p l.
Proof using Type.
  intros Hle Hk [-> -> Hs Hw]. split; try reflexivity; [exact Hs|]. apply Forall_forall. intros [k v] Hx. rewrite Forall_forall in Hw. specialize (Hw _ Hx).
  cbn in *. assert (as_map l !! k = Some v) as Hv by (now apply sorted_lookup). specialize (Hk k v Hv). cbn in Hk. lia.
Qed.

Lemma run_events_refine cap evs : 0 <= cap <= 32767 -> forall H buffer p l,
  buffered cap H buffer p l -> timely cap H evs p -> run_events cap evs buffer = spec_events cap evs p.
Proof using Type.
  intros Hcap. induction evs as [|ev evs IH]; intros H buffer p l Hb Ht; [reflexivity|]. destruct Ht as (Hle & Hk & Hev & Ht).
  apply (buffered_later cap H (host_of_event ev)) in Hb; [|exact Hle|exact Hk]. cbn [run_events spec_events run_event spec_event] in *.
  destruct ev as [h t i m|h]; cbn [host_of_event run_event spec_event] in *.
  - destruct (incoming_insert_spec cap h t i m buffer p l Hcap Hb Hev) as (l' & -> & Hb').
    destruct (spec_insert cap h t i m p) as [b p'] eqn:Hsp. cbn [fst snd] in *. f_equal. exact (IH h _ _ l' Hb' Ht).
  - destruct (incoming_collect_spec cap h buffer p l Hcap Hb) as (l' & -> & Hb').
    destruct (spec_collect h p) as [ms p'] eqn:Hsp. cbn [fst snd] in *. f_equal. exact (IH h _ _ l' Hb' Ht).
Qed.

(** C30: The server's tick buffer, a deque of wrapping 16-bit ticks searched from the back, answers
    every timely history like a map from unbounded ticks to the messages of that tick: a message
    is taken exactly when its tick is in the future and less than the capacity ahead and its index
    is new for that tick, and collecting a tick hands out exactly the messages taken for it and
    drops everything older. *)
Theorem tick_buffer_refines cap host evs : 0 <= cap <= 32767 -> timely cap host evs ∅ ->
  run_events cap evs [] = spec_events cap evs ∅.
Proof using Type.
  intros Hcap Ht. apply (run_events_refine cap evs Hcap host [] ∅ []); [|exact Ht]. split; [reflexivity|reflexivity|constructor|constructor].
Qed.
End Buffer.

Module TickBufferSample.
Definition values (m : gmap Z Z) : list Z := map snd (map_to_list m).

(** Around the wrap of ticks: two messages for tick 65536, one twice, one late, one too early. *)
Definition history : list (tick_event (M := Z)) :=
  [Arrive 65534 65536 0 10; Arrive 65534 65535 0 20; Arrive 65535 65536 1 11; Arrive 65535 65536 0 12;
   Collect 65535; Arrive 65535 65535 3 13; Arrive 65535 65700 0 14; Collect 65536; Collect 65537].

Lemma tick_buffer_refines_witness :
  run_events values 64 history [] = [inl true; inl true; inl true; inl false; inr [20]; inl false; inl false; inr [11; 10]; inr []] /\
  run_events values 64 history [] = spec_events values 64 history ∅.
Proof.
  split; [vm_compute; reflexivity|]. apply (tick_buffer_refines values 64 65534 history); [lia|].
  assert (forall H p, bool_decide (map_Forall (fun k (_ : gmap Z Z) => H - (32767 - 64) <= k) p) = true -> map_Forall (fun k _ => H - (32767 - 64) <= k) p) as Hdec
    by (intros H p; apply bool_decide_eq_true_1).
  unfold history. cbn [timely host_of_event].
  repeat (split; [lia|]; split; [apply Hdec; vm_compute; reflexivity|split; [exact I || (unfold close; lia)|]]). exact I.
Defined.
End TickBufferSample.
