(* ===== verification/TickBufferWire.v ===== *)
(** Tick-buffered messages on the wire: what [ChannelTickBufferSender::write_messages] writes is
    what [TickBufferReceiverChannel::read_messages] puts into the server's buffer; and how the
    sender's memory of what to send again behaves. *)

From Stdlib Require Import ZArith Lia.
From stdpp Require Import base list numbers gmap.
From S2P Require Import Prelude Wrapping BitIO Number Serde Kinds MessageWire TickBuffer.

Section Wire.
Context {M : Type} (sm : Serde M) `{!Lawful sm}.
Abbreviation Batch := (list (Z * M)).

(** Indices within a tick do not go down and fit a byte. *)
Fixpoint rising (last : Z) (msgs : Batch) : Prop :=
  match msgs with [] => True | (i, m) :: msgs => last <= i <= 255 /\ valid sm m /\ rising i msgs end.

Fixpoint batch_enc (last : Z) (msgs : Batch) : list bool :=
  match msgs with [] => [] | (i, m) :: msgs => length_enc 2 (i - last) ++ enc sm m ++ batch_enc i msgs end.

(** The ticks go back, by at most half the range each time. *)
Definition tick_step (last tick : Z) : Prop := in_u 16 last /\ in_u 16 tick /\ wrap 16 (last - tick) <= 32767.

Definition tick_enc (last tick : Z) (msgs : Batch) : list bool :=
  true :: length_enc 3 (wrap 16 (last - tick)) ++ length_enc 3 (len msgs) ++ batch_enc 0 msgs.

Fixpoint falling (last : Z) (out : list (Z * Batch)) : Prop :=
  match out with [] => True | (tick, _) :: out => tick_step last tick /\ falling tick out end.

Fixpoint ticks_enc (last : Z) (out : list (Z * Batch)) : list bool :=
  match out with [] => [] | (tick, msgs) :: out => tick_enc last tick msgs ++ ticks_enc tick out end.

Definition batch_ok (x : Z * Batch) : Prop := rising 0 x.2 /\ Z.of_nat (length (batch_enc 0 x.2)) < 2 ^ 30.

(** ** Writing *)
Lemma write_batch {W} `{BitWriteLaws W} msgs last (w : W) : 0 <= last -> rising last msgs -> wok w ->
  (s ← foldM (write_one sm) msgs (last, w); Ok s.2) = write_bits (batch_enc last msgs) w.
Proof using Type.
  revert last w. induction msgs as [|[i m] msgs IH]; intros last w Hl Hr Hw; [reflexivity|]. destruct Hr as (Hi & Hm & Hr).
  cbn [foldM batch_enc].
  assert (write_one sm (i, m) (last, w) = (w ← write_bits (length_enc 2 (i - last)) w; w ← ser sm m w; Ok (i, w))) as ->.
  { unfold write_one. rewrite usub_ok by lia. rewrite bind_ok, <- variable_ser, bind_assoc by lia. reflexivity. }
  rewrite write_bits_app. destruct (write_bits (length_enc 2 (i - last)) w) as [w1| | |] eqn:E1; [|reflexivity..]. rewrite !bind_ok.
  pose proof (write_bits_wok _ _ _ Hw E1) as H1. rewrite (ser_enc W m w1 Hm H1), write_bits_app.
  destruct (write_bits (enc sm m) w1) as [w2| | |] eqn:E2; [|reflexivity..]. rewrite !bind_ok.
  apply IH; [lia|exact Hr|]. exact (write_bits_wok _ _ _ H1 E2).
Qed.

Lemma tick_diff last tick : tick_step last tick -> wrapping_diff tick last = Ok (wrap 16 (last - tick)) /\ 0 <= wrap 16 (last - tick) <= 32767.
Proof using Type.
  intros (Hl & Ht & Hd). destruct (wrapping_diff_total tick last Ht Hl) as (d & -> & Rd & Wd).
  pose proof (wrap_range 16 (last - tick) ltac:(lia)). split; [|lia]. f_equal. unfold wrap, in_u in *. change (2 ^ 16) with 65536 in *. dlia.
Qed.

Lemma batch_length msgs last : (length msgs <= length (batch_enc last msgs))%nat.
Proof using Type.
  revert last. induction msgs as [|[i m] msgs IH]; intros last; [cbn; lia|]. cbn [batch_enc length]. rewrite !length_app.
  specialize (IH i). assert (1 <= length (length_enc 2 (i - last)))%nat by (unfold length_enc, num_enc; cbn [num_signed num_variable chunks_enc app length]; lia). lia.
Qed.

Lemma batch_len x : batch_ok x -> 0 <= len x.2 < 2 ^ 127.
Proof using Type. intros [_ Hb]. pose proof (batch_length x.2 0). unfold len. lia. Qed.

Lemma write_tick {W} `{BitWriteLaws W} last tick msgs (w : W) : tick_step last tick -> batch_ok (tick, msgs) -> wok w ->
  (w ← write_bit true w; tick_write_message sm last tick msgs w) = write_bits (tick_enc last tick msgs) w.
Proof using Type.
  intros Hs Hb Hw. destruct (tick_diff last tick Hs) as [Hd Hd']. pose proof (batch_len _ Hb) as Hlen. cbn [snd] in Hlen.
  unfold tick_enc. change (true :: ?l) with ([true] ++ l). rewrite write_bits_app.
  change (write_bits [true] w) with (w' ← write_bit true w; Ok w'). destruct (write_bit true w) as [w1| | |] eqn:E; try reflexivity. rewrite !bind_ok.
  pose proof (write_bit_wok _ _ _ Hw E) as H1. unfold tick_write_message. rewrite Hd, bind_ok, <- bind_assoc, variable_ser, write_bits_app by lia.
  destruct (write_bits (length_enc 3 (wrap 16 (last - tick))) w1) as [w2| | |] eqn:E2; try reflexivity. rewrite !bind_ok.
  pose proof (write_bits_wok _ _ _ H1 E2) as H2. rewrite <- bind_assoc, variable_ser, write_bits_app by lia.
  destruct (write_bits (length_enc 3 (len msgs)) w2) as [w3| | |] eqn:E3; try reflexivity. rewrite !bind_ok.
  pose proof (write_bits_wok _ _ _ H2 E3) as H3. rewrite <- (write_batch msgs 0 w3 ltac:(lia) (proj1 Hb) H3).
  destruct (foldM (write_one sm) msgs (0, w3)) as [[? ?]| | |]; reflexivity.
Qed.

Lemma tick_enc_length last tick msgs : batch_ok (tick, msgs) -> Z.of_nat (length (tick_enc last tick msgs)) < 2 ^ 31.
Proof using Type.
  intros [_ Hb]. unfold tick_enc. cbn [length snd] in *. rewrite !length_app.
  pose proof (length_chunks_enc_le 129 3 (Z.abs (wrap 16 (last - tick)))) as L1. pose proof (length_chunks_enc_le 129 3 (Z.abs (len msgs))) as L2.
  change (length_enc 3 (wrap 16 (last - tick))) with (chunks_enc 129 3 (Z.abs (wrap 16 (last - tick)))).
  change (length_enc 3 (len msgs)) with (chunks_enc 129 3 (Z.abs (len msgs))). lia.
Qed.

(** One round of the loop. *)
Lemma tick_loop_cons last acc tick msgs out w hw :
  tick_step last tick -> batch_ok (tick, msgs) -> writer_ok w -> bw_current_bits w <= bw_max_bits w <= MTU_SIZE_BITS ->
  if fits w (tick_enc last tick msgs) then
    exists w1, extends w (tick_enc last tick msgs) w1 /\ bw_current_bits w1 <= bw_max_bits w1 /\
      tick_write_loop sm ((tick, msgs) :: out) last acc w hw = tick_write_loop sm out tick (acc ++ map (fun x => (tick, x.1)) msgs) w1 true
  else tick_write_loop sm ((tick, msgs) :: out) last acc w hw = if hw then Ok (acc, (tick, msgs) :: out, w, hw) else Panic.
Proof using Type.
  intros Hs Hb Hw Hc. destruct (count_then_write (tick_enc last tick msgs) w Hw Hc ltac:(done) (tick_enc_length last tick msgs Hb)) as (c & Ec & Eo & Ew).
  pose proof (writer_ok_current w Hw). change MTU_SIZE_BITS with 3440 in Hc.
  rewrite <- write_tick in Ec by (assumption || (cbn; lia)).
  unfold fits. cbn [tick_write_loop]. rewrite <- bind_assoc, Ec, bind_ok, Eo.
  destruct (Z.leb_spec (bw_current_bits w + Z.of_nat (length (tick_enc last tick msgs))) (bw_max_bits w)) as [Hf|Hf].
  - destruct (Ew Hf) as (w1 & E1 & X1). exists w1. split; [exact X1|]. split.
    + rewrite (extends_current w _ w1 Hw X1). destruct X1 as (_ & _ & -> & _). exact Hf.
    + rewrite (proj2 (Z.ltb_ge _ _)) by lia. rewrite <- write_tick in E1 by assumption. now rewrite <- bind_assoc, E1, bind_ok.
  - now rewrite (proj2 (Z.ltb_lt _ _)) by lia.
Qed.

(** What was written, and what is left for a later packet. *)
Lemma tick_loop_spec out last acc w hw :
  falling last out -> Forall batch_ok out -> writer_ok w -> bw_current_bits w <= bw_max_bits w <= MTU_SIZE_BITS ->
  (hw = true \/ match out with [] => True | (tick, msgs) :: _ => fits w (tick_enc last tick msgs) = true end) ->
  exists done rest w', out = done ++ rest /\
    tick_write_loop sm out last acc w hw = Ok (acc ++ concat (map (fun t => map (fun x => (t.1, x.1)) t.2) done), rest, w', hw || negb (bool_decide (done = []))) /\
    extends w (ticks_enc last done) w' /\ (hw = false -> out <> [] -> done <> []).
Proof using Type.
  revert last acc w hw. induction out as [|[tick msgs] out IH]; intros last acc w hw Ha Hv Hw Hb Hhw.
  - exists [], [], w. cbn [tick_write_loop ticks_enc map concat]. rewrite (app_nil_r acc), bool_decide_eq_true_2, orb_false_r by done.
    split; [reflexivity|]. split; [reflexivity|]. split; [now apply extends_refl|]. congruence.
  - destruct Ha as [Hs Ha]. apply Forall_cons_1 in Hv as [Hm Hv].
    pose proof (tick_loop_cons last acc tick msgs out w hw Hs Hm Hw Hb) as P.
    destruct (fits w (tick_enc last tick msgs)) eqn:Ef.
    + destruct P as (w1 & X1 & B1 & ->). pose proof X1 as (O1 & _ & M1 & _).
      destruct (IH tick (acc ++ map (fun x => (tick, x.1)) msgs) w1 true Ha Hv O1 ltac:(lia) ltac:(now left)) as (done & rest & w' & -> & -> & X & _).
      exists ((tick, msgs) :: done), rest, w'. split; [reflexivity|]. split.
      { rewrite <- app_assoc. cbn [map concat fst snd app negb orb]. rewrite bool_decide_eq_false_2 by done. now rewrite orb_true_r. }
      split; [exact (extends_trans w w1 w' _ _ Hw X1 X)|]. discriminate.
    + destruct Hhw as [->|]; [|congruence]. exists [], ((tick, msgs) :: out), w. rewrite P; cbn [map concat]; rewrite (app_nil_r acc).
      split; [reflexivity|]. split; [reflexivity|]. split; [now apply extends_refl|]. discriminate.
Qed.

(** ** Reading *)
Abbreviation Buffer := (list (Z * gmap Z M)).
Definition deliver_batch (host tick cap : Z) (msgs : Batch) (buffer : Buffer) : Buffer :=
  fold_left (fun b x => (IncomingMessages_insert host tick x.1 x.2 cap b).2) msgs buffer.
Definition deliver (host cap : Z) (out : list (Z * Batch)) (buffer : Buffer) : Buffer :=
  fold_left (fun b t => deliver_batch host t.1 cap t.2 b) out buffer.

Lemma read_batch fuel host tick cap msgs last buffer rest r :
  0 <= last -> rising last msgs -> (length msgs <= fuel)%nat -> reader_ok r -> br_bits r = batch_enc last msgs ++ rest ->
  exists r', read_tick_messages sm fuel (len msgs) host tick cap last buffer r = Ok (deliver_batch host tick cap msgs buffer, r') /\ reader_ok r' /\ br_bits r' = rest.
Proof using Type.
  revert last msgs buffer r. induction fuel as [|fuel IH]; intros last msgs buffer r Hl Hr Hf Ho E; destruct msgs as [|[i m] msgs];
    try (exists r; split; [reflexivity|split; [exact Ho|exact E]]); [cbn in Hf; lia|].
  destruct Hr as (Hi & Hm & Hr). cbn [batch_enc] in E. rewrite <- !app_assoc in E. cbn [read_tick_messages].
  rewrite (proj2 (Z.leb_gt _ _)) by (unfold len; cbn [length]; lia).
  destruct (variable_de 2 (i - last) _ r ltac:(lia) ltac:(lia) Ho E) as (n & r1 & -> & Gn & O1 & B1). rewrite bind_ok, Gn.
  rewrite (wrap_small 8) by (unfold in_u; lia). rewrite uadd_ok by lia. rewrite bind_ok. replace (last + (i - last)) with i by lia.
  destruct (de_enc m _ r1 Hm O1 B1) as (r2 & -> & O2 & B2). rewrite bind_ok.
  destruct (IH i msgs (IncomingMessages_insert host tick i m cap buffer).2 r2 ltac:(lia) Hr ltac:(cbn in Hf; lia) O2 B2) as (r3 & Hr3 & O3 & B3).
  exists r3. split; [|split; [exact O3|exact B3]]. cbn [deliver_batch fold_left fst snd].
  replace (len ((i, m) :: msgs) - 1) with (len msgs) by (unfold len; cbn [length]; lia).
  destruct (IncomingMessages_insert host tick i m cap buffer) as [b buf]. exact Hr3.
Qed.

Lemma read_ticks fuel host cap out last buffer rest r :
  falling last out -> Forall batch_ok out -> (length out < fuel)%nat -> reader_ok r -> br_bits r = ticks_enc last out ++ false :: rest ->
  exists r', tick_read_loop sm fuel host last cap buffer r = Ok (deliver host cap out buffer, r') /\ reader_ok r' /\ br_bits r' = rest.
Proof using Type.
  revert last out buffer r. induction fuel as [|fuel IH]; intros last out buffer r Ha Hv Hf Ho E; [lia|].
  cbn [tick_read_loop de bool_serde]. destruct out as [|[tick msgs] out].
  - destruct (read_bit_enc _ _ _ Ho E) as (r' & -> & O & B). rewrite bind_ok. cbn [negb]. eauto.
  - destruct Ha as [Hs Ha]. apply Forall_cons_1 in Hv as [Hb Hv]. pose proof (batch_len _ Hb) as Hlen. cbn [snd] in Hlen.
    destruct (tick_diff last tick Hs) as [_ Hd]. cbn [ticks_enc] in E. unfold tick_enc in E. rewrite <- !app_comm_cons, <- !app_assoc in E.
    destruct (read_bit_enc _ _ _ Ho E) as (r1 & -> & O1 & B1). rewrite bind_ok. cbn [negb]. unfold tick_read_message.
    destruct (variable_de 3 (wrap 16 (last - tick)) _ r1 ltac:(lia) ltac:(lia) O1 B1) as (n & r2 & -> & Gn & O2 & B2). rewrite bind_ok, Gn.
    assert (wrap 16 (last - wrap 16 (wrap 16 (last - tick))) = tick) as ->.
    { destruct Hs as (Hl & Ht & _). unfold wrap, in_u in *. change (2 ^ 16) with 65536 in *. dlia. }
    destruct (variable_de 3 (len msgs) _ r2 ltac:(lia) Hlen O2 B2) as (n2 & r3 & -> & Gn2 & O3 & B3). rewrite bind_ok, Gn2.
    destruct (read_batch (chunk_fuel r3) host tick cap msgs 0 buffer (ticks_enc tick out ++ false :: rest) r3 ltac:(lia) (proj1 Hb)) as (r4 & -> & O4 & B4); [|exact O3|exact B3|].
    { pose proof (chunk_fuel_enough r3 O3) as Hfu. rewrite B3, length_app in Hfu. pose proof (batch_length msgs 0). lia. }
    rewrite !bind_ok. destruct (IH tick out (deliver_batch host tick cap msgs buffer) r4 Ha Hv ltac:(cbn in Hf; lia) O4 B4) as (r' & -> & O & B). eauto.
Qed.

Lemma ticks_enc_length out last : (length out <= length (ticks_enc last out))%nat.
Proof using Type.
  revert last. induction out as [|[tick msgs] out IH]; intros last; [cbn; lia|]. cbn [ticks_enc length]. rewrite length_app. unfold tick_enc. cbn [length].
  specialize (IH tick). lia.
Qed.

End Wire.

(** * What the sender remembers *)
Section Memory.
Context {M : Type}.
Abbreviation MessageMap := (list (option M)).

(** Delivery makes a hole at the message's index and moves no other. *)
Lemma collect_from_removed (k : Z) (n : nat) (mm : MessageMap) : 0 <= k -> k + len mm <= 256 -> (n < length mm)%nat ->
  collect_from k (<[n := None]> mm) = filter (fun x => x.1 <> k + Z.of_nat n) (collect_from k mm).
Proof using Type.
  assert (forall j mm', 0 <= j -> j + len mm' <= 256 -> forall i : Z, i < j -> filter (fun x : Z * M => x.1 <> i) (collect_from j mm') = collect_from j mm') as Hkeep.
  { intros j mm' Hj Hm i Hi. apply filter_keep. intros x. revert j Hj Hm Hi. induction mm' as [|[m|] mm' IH]; intros j Hj Hm Hi; cbn [collect_from];
      unfold len in *; cbn [length] in *; [intros Hx; now apply elem_of_nil in Hx| |intros Hx; exact (IH (j + 1) ltac:(lia) ltac:(lia) ltac:(lia) Hx)].
    intros [->|Hx]%elem_of_cons; [cbn; rewrite wrap_small by (unfold in_u; lia); lia|exact (IH (j + 1) ltac:(lia) ltac:(lia) ltac:(lia) Hx)]. }
  revert k n. induction mm as [|o mm IH]; intros k n Hk Hl Hn; [cbn in Hn; lia|]. unfold len in Hl. cbn [length] in *.
  destruct n as [|n].
  - change (<[O := None]> (o :: mm)) with (None :: mm : MessageMap). cbn [collect_from]. rewrite Z.add_0_r. destruct o as [m|]; cbn [collect_from].
    + rewrite filter_cons, decide_False by (cbn; rewrite wrap_small by (unfold in_u; lia); lia). symmetry. apply Hkeep; unfold len; lia.
    + symmetry. apply Hkeep; unfold len; lia.
  - change (<[S n := None]> (o :: mm)) with (o :: <[n := None]> mm : MessageMap).
    assert (collect_from (k + 1) (<[n := None]> mm) = filter (fun x => x.1 <> k + Z.of_nat (S n)) (collect_from (k + 1) mm)) as Hrec.
    { rewrite IH by (unfold len in *; lia). apply list_filter_ext_in. intros x _. replace (k + 1 + Z.of_nat n) with (k + Z.of_nat (S n)) by lia. reflexivity. }
    destruct o as [m|]; cbn [collect_from]; [|exact Hrec]. rewrite Hrec, filter_cons, decide_True; [reflexivity|].
    cbn. rewrite wrap_small by (unfold in_u; lia). lia.
Qed.

Lemma collect_removed (i : Z) (mm : MessageMap) : 0 <= i -> len mm <= 256 ->
  MessageMap_collect_messages (MessageMap_remove i mm) = filter (fun x => x.1 <> i) (MessageMap_collect_messages mm).
Proof using Type.
  intros Hi Hl. unfold MessageMap_collect_messages, MessageMap_remove. destruct (mm !! Z.to_nat i) eqn:Hm.
  - apply lookup_lt_Some in Hm. rewrite collect_from_removed by (unfold len in *; lia). apply list_filter_ext_in. intros x _.
    replace (0 + Z.of_nat (Z.to_nat i)) with i by lia. reflexivity.
  - symmetry. apply filter_keep. apply lookup_ge_None in Hm. intros x.
    assert (forall k, 0 <= k -> k + len mm <= 256 -> k + Z.of_nat (length mm) <= i -> x ∈ collect_from k mm -> x.1 <> i) as Hgo; [|apply Hgo; unfold len in *; lia].
    clear Hm. induction mm as [|[m|] mm IH]; intros k Hk Hl' Hki; unfold len in *; cbn [collect_from length] in *;
      [intros Hx; now apply elem_of_nil in Hx| |apply (IH ltac:(lia) (k + 1)); lia].
    intros [->|Hx]%elem_of_cons; [cbn; rewrite wrap_small by (unfold in_u; lia); lia|]. apply (IH ltac:(lia) (k + 1)); [lia..|exact Hx].
Qed.

(** ** The buffer of ticks, the most recent in front *)
Definition low_ticks (l : list (Z * MessageMap)) : list (Z * MessageMap) := map (fun x => (wrap 16 x.1, x.2)) l.
Definition delivered (tick i : Z) (x : Z * MessageMap) : Z * MessageMap := if x.1 =? tick then (x.1, MessageMap_remove i x.2) else x.
Fixpoint recent_first (l : list (Z * MessageMap)) : Prop :=
  match l with [] => True | x :: l => Forall (fun y => y.1 < x.1) l /\ recent_first l end.

Lemma recent_first_app l1 l2 : recent_first (l1 ++ l2) -> recent_first l1 /\ recent_first l2 /\ forall x y, x ∈ l1 -> y ∈ l2 -> y.1 < x.1.
Proof using Type.
  induction l1 as [|a l1 IH]; cbn [app recent_first]; [intros H; split_and!; auto; intros x y Hx; now apply elem_of_nil in Hx|].
  rewrite Forall_app. intros [[H1 H2] H3]. destruct (IH H3) as (Ha & Hb & Hc). split_and!; auto.
  intros x y [->|Hx]%elem_of_cons Hy; [rewrite Forall_forall in H2; exact (H2 y Hy)|eauto].
Qed.

Lemma remove_from_spec T i l1 l2 :
  recent_first (l1 ++ l2) -> Forall (fun x => close x.1 T /\ x.2 <> []) (l1 ++ l2) ->
  remove_from (length l1) (wrap 16 T) i (low_ticks (l1 ++ l2)) = low_ticks (map (delivered T i) l1 ++ l2).
Proof using Type.
  revert l2. induction l1 as [|[k mm] l1 IH] using rev_ind; intros l2 Hs Hc; [reflexivity|].
  rewrite <- app_assoc in *. cbn [app] in *. rewrite length_app, Nat.add_1_r. cbn [remove_from].
  assert (forall l, length (low_ticks l) = length l) as Hlen by (intros; apply length_map).
  assert (low_ticks (l1 ++ (k, mm) :: l2) !! length l1 = Some (wrap 16 k, mm)) as ->.
  { unfold low_ticks. rewrite map_app, lookup_app_r, length_map, Nat.sub_diag by (rewrite length_map; lia). reflexivity. }
  destruct (recent_first_app _ _ Hs) as (H1 & H2 & H12).
  assert (close k T /\ mm <> []) as [Hk Hmm] by (rewrite Forall_app, Forall_cons in Hc; cbn in Hc; tauto).
  rewrite (close_eqb k T Hk), (seq_gt_close k T Hk), map_app, <- app_assoc. cbn [map app].
  destruct (Z.eqb_spec k T) as [->|Hne].
  - unfold delivered at 2. cbn [fst snd]. rewrite Z.eqb_refl.
    assert (MessageMap_remove i mm <> []) as Hne.
    { intros E. apply Hmm. apply length_zero_iff_nil. rewrite <- (Nat.add_0_l O). apply length_zero_iff_nil in E.
      unfold MessageMap_remove in E. destruct (mm !! Z.to_nat i); [rewrite length_insert in E|]; lia. }
    unfold MessageMap_len. rewrite (proj2 (Nat.eqb_neq _ _)) by (intros E; apply length_zero_iff_nil in E; congruence).
    rewrite <- (IH ((T, MessageMap_remove i mm) :: l2)).
    + f_equal. unfold low_ticks. rewrite !map_app. rewrite insert_app_r_alt by (rewrite length_map; lia). now rewrite length_map, Nat.sub_diag.
    + clear - Hs. induction l1 as [|a l1 IH]; cbn [app recent_first] in *; [exact Hs|]. destruct Hs as [Ha Hs]. split; [|now apply IH].
      rewrite Forall_app, Forall_cons in *. exact Ha.
    + rewrite Forall_app, Forall_cons in *. cbn in *. tauto.
  - unfold delivered at 2. cbn [fst]. rewrite (proj2 (Z.eqb_neq _ _)) by exact Hne. destruct (Z.ltb_spec T k) as [Hlt|Hge].
    + replace (map (delivered T i) l1) with l1; [reflexivity|]. symmetry. rewrite <- (map_id l1) at 2. apply map_ext_in. intros x Hx.
      unfold delivered. specialize (H12 x (k, mm) ltac:(now apply list_elem_of_In) ltac:(now left)). cbn in H12. now rewrite (proj2 (Z.eqb_neq _ _)) by lia.
    + apply IH; [exact Hs|exact Hc].
Qed.

Lemma low_delivered T i l : Forall (fun x => close x.1 T) l -> low_ticks (map (delivered T i) l) = map (delivered (wrap 16 T) i) (low_ticks l).
Proof using Type.
  intros Hc. unfold low_ticks. rewrite !map_map. apply map_ext_in. intros x Hx. rewrite Forall_forall in Hc.
  specialize (Hc x ltac:(now apply list_elem_of_In)). unfold delivered. cbn [fst snd]. rewrite (close_eqb x.1 T Hc). now destruct (x.1 =? T).
Qed.

Lemma pop_while_old_map u (f : Z * MessageMap -> Z * MessageMap) l : (forall x, (f x).1 = x.1) -> pop_while_old u (map f l) = map f (pop_while_old u l).
Proof using Type.
  intros Hf. induction l as [|[k mm] l IH]; [reflexivity|]. cbn [map pop_while_old]. destruct (f (k, mm)) as [k' mm'] eqn:E.
  assert (k' = k) as -> by (pose proof (Hf (k, mm)) as Hk; rewrite E in Hk; exact Hk). destruct (sequence_less_than u k); [now rewrite <- E|exact IH].
Qed.

(** What is sent of a tick after an acknowledgement. *)
Definition without_message (tick i : Z) (x : Z * list (Z * M)) : Z * list (Z * M) :=
  if x.1 =? tick then (x.1, filter (fun y => y.1 <> i) x.2) else x.

Lemma collect_ticks_delivered c tick i l acc : 0 <= i -> Forall (fun x => len x.2 <= 256) l ->
  collect_ticks c (map (delivered tick i) l) (map (without_message tick i) acc) = map (without_message tick i) (collect_ticks c l acc).
Proof using Type.
  intros Hi. revert acc. induction l as [|[k mm] l IH]; intros acc Hl; [reflexivity|]. apply Forall_cons in Hl as [Hk Hl]. cbn [map collect_ticks].
  unfold delivered at 1. cbn [fst snd]. destruct (Z.eqb_spec k tick) as [->|Hne]; cbn [collect_ticks];
    (destruct (sequence_greater_than _ c); [reflexivity|]); rewrite <- IH by exact Hl; f_equal; rewrite map_app; f_equal; cbn [map without_message fst snd].
  - unfold without_message. cbn [fst snd]. rewrite Z.eqb_refl. now rewrite collect_removed.
  - unfold without_message. cbn [fst snd]. now rewrite (proj2 (Z.eqb_neq _ _)).
Qed.

(** A tick-buffered message that was acknowledged is not sent again, and nothing else is lost by
    the acknowledgement: what the sender collects afterwards is what it would have collected
    without it, less that message. *)
Theorem acknowledged_not_sent_again T i c r (s : ChannelTickBufferSender M) l :
  s.(ts_sending_messages).(og_buffer) = low_ticks l -> s.(ts_outgoing_messages) = [] -> recent_first l ->
  Forall (fun x => close x.1 T /\ x.2 <> [] /\ len x.2 <= 256) l -> 0 <= i ->
  ts_outgoing_messages (ChannelTickBufferSender_collect_messages c r (notify_message_delivered (wrap 16 T) i s))
  = map (without_message (wrap 16 T) i) (ts_outgoing_messages (ChannelTickBufferSender_collect_messages c r s)).
Proof using Type.
  intros Hbuf Hout Hs Hl Hi. unfold ChannelTickBufferSender_collect_messages. cbn [notify_message_delivered ts_last_sent ts_never_sent ts_outgoing_messages ts_sending_messages].
  destruct (_ || _); [|cbn [notify_message_delivered ts_outgoing_messages]; now rewrite Hout]. cbn [ts_outgoing_messages]. rewrite Hout.
  unfold pop_back_until_excluding, OutgoingMessages_remove_message. cbn [og_buffer]. rewrite Hbuf.
  assert (length (low_ticks l) = length l) as -> by apply length_map.
  pose proof (remove_from_spec T i l []) as Hr. rewrite !app_nil_r in Hr.
  rewrite Hr by (exact Hs || (eapply Forall_impl; [exact Hl|]; intros x Hx; cbn in *; tauto)).
  rewrite low_delivered by (eapply Forall_impl; [exact Hl|]; intros x Hx; cbn in *; tauto).
  rewrite <- map_rev, pop_while_old_map by (intros [k mm]; unfold delivered; cbn; now destruct (k =? wrap 16 T)). rewrite <- map_rev.
  apply (collect_ticks_delivered c (wrap 16 T) i _ []); [exact Hi|]. apply Forall_rev.
  assert (Forall (fun x : Z * MessageMap => len x.2 <= 256) (rev (low_ticks l))) as Hr'.
  { apply Forall_rev. unfold low_ticks. rewrite Forall_map. eapply Forall_impl; [exact Hl|]. intros x Hx. cbn in *. tauto. }
  revert Hr'. generalize (rev (low_ticks l)). induction l0 as [|[k mm] l0 IH]; intros Hf; [constructor|]. cbn [pop_while_old].
  destruct (sequence_less_than r k); [exact Hf|]. apply Forall_cons in Hf as [_ Hf]. now apply IH.
Qed.
End Memory.

Module TickWireSample.
(** Tick 3 has two messages, tick 2 has one; message 0 of tick 3 was delivered. *)
Definition sender : ChannelTickBufferSender Z :=
  ChannelTickBufferSender_send_message 3 31 (ChannelTickBufferSender_send_message 3 30
    (ChannelTickBufferSender_send_message 2 20 (ChannelTickBufferSender_new 8))).

Lemma acknowledged_not_sent_again_witness :
  ts_outgoing_messages (ChannelTickBufferSender_collect_messages 3 1 (notify_message_delivered 3 0 sender)) = [(3, [(1, 31)]); (2, [(0, 20)])].
Proof.
  change 3 with (wrap 16 3) at 2.
  rewrite (acknowledged_not_sent_again 3 0 3 1 sender [(3, [Some 30; Some 31]); (2, [Some 20])]); [vm_compute; reflexivity|reflexivity|reflexivity| | |lia].
  - cbn. repeat constructor; cbn; lia.
  - repeat constructor; cbn; unfold close; try lia; discriminate.
Defined.

Definition out : list (Z * list (Z * Z)) := ts_outgoing_messages (ChannelTickBufferSender_collect_messages 3 1 sender).


(** [never_sent] is never cleared: what was collected for a tick is collected again. *)
Example collected_twice :
  ts_outgoing_messages (ChannelTickBufferSender_collect_messages 3 1 (ChannelTickBufferSender_collect_messages 3 1 sender))
  = [(3, [(0, 30); (1, 31)]); (2, [(0, 20)]); (3, [(0, 30); (1, 31)]); (2, [(0, 20)])].
Proof. vm_compute. reflexivity. Qed.

(** The tick of a delivered message stays in the buffer and goes out empty. *)
Example delivered_tick_still_sent :
  ts_outgoing_messages (ChannelTickBufferSender_collect_messages 3 1 (notify_message_delivered 2 0 sender)) = [(3, [(0, 30); (1, 31)]); (2, [])].
Proof. vm_compute. reflexivity. Qed.

(** The 257th message of a tick has index 0 again, and writing it panics. *)
Example too_many_messages_panic :
  let s := Nat.iter 257 (ChannelTickBufferSender_send_message 3 7) (ChannelTickBufferSender_new 8) in
  tick_write_loop u8_serde (ts_outgoing_messages (ChannelTickBufferSender_collect_messages 3 1 s)) 4 [] BitWriter_new true = Panic.
Proof. vm_compute. reflexivity. Qed.

(** A client whose indices add up to more than 255 stops a server built with overflow checks. *)
Definition overflowing : list Z :=
  match foldM (fun v w => n ← SerdeInteger_new false true 2 v; ser (integer_serde false true 2) n w) [255; 1] BitWriter_new with
  | Ok w => match BitWriter_to_bytes w with Ok bytes => bytes | _ => [] end
  | _ => []
  end.

Example index_overflow_panics :
  read_tick_messages unit_serde (chunk_fuel (BitReader_new overflowing)) 2 1 3 64 0 [] (BitReader_new overflowing) = Panic.
Proof. vm_compute. reflexivity. Qed.
End TickWireSample.
