(* ===== verification/ClientQueues.v ===== *)
(** Queues of the client ordered by ticks: packets that wait for their tick
    ([src/client/src/connection/tick_queue.rs], [jitter_buffer.rs]) and the commands kept for
    replay ([src/client/src/command_history.rs]).

    [BinaryHeap] is known through its documented operations: [pop] takes a greatest element;
    which of several equal ones is left open. *)

From Stdlib Require Import ZArith Lia Sorted.
From stdpp Require Import base numbers option list sorting sets.
From S2P Require Import Prelude Wrapping GameTime.

Abbreviation Tick := Z.

(** * The heap *)
Class BinaryHeap (T H : Type) := {
  heap_new : H;
  heap_push : T -> H -> H;
  heap_peek : H -> option T;
  heap_pop : H -> option (T * H)
}.

(** [cmp] is a total preorder on the elements of [l]. *)
Definition ordered_by {T} (cmp : T -> T -> comparison) (l : list T) : Prop :=
  exists key : T -> Z, forall x y, x ∈ l -> y ∈ l -> cmp x y = (key x ?= key y).

Class HeapLaws {T H} (cmp : T -> T -> comparison) (heap : BinaryHeap T H) := {
  contents : H -> list T;
  new_contents : contents heap_new = [];
  push_contents x h : contents (heap_push x h) ≡ₚ x :: contents h;
  peek_pop h : heap_peek h = fst <$> heap_pop h;
  pop_none h : heap_pop h = None <-> contents h = [];
  pop_some h x h' : heap_pop h = Some (x, h') -> contents h ≡ₚ x :: contents h' /\
    (ordered_by cmp (contents h) -> Forall (fun y => cmp x y <> Lt) (contents h'))
}.

Section Queue.
Context {X H : Type}.

Record ItemContainer := mkItem { item_tick : Tick; item : X }.

Definition ItemContainer_cmp (self other : ItemContainer) : comparison :=
  if self.(item_tick) =? other.(item_tick) then Eq
  else if sequence_greater_than other.(item_tick) self.(item_tick) then Gt else Lt.

Context {heap : BinaryHeap ItemContainer H}.

Definition TickQueue_add_item (tick : Tick) (x : X) (queue : H) : H := heap_push (mkItem tick x) queue.

Definition has_item (current_tick : Tick) (queue : H) : bool :=
  match heap_peek queue with
  | Some i => (current_tick =? i.(item_tick)) || sequence_greater_than current_tick i.(item_tick)
  | None => false
  end.

Definition TickQueue_pop_item (current_tick : Tick) (queue : H) : option (Tick * X) * H :=
  if has_item current_tick queue then
    match heap_pop queue with
    | Some (container, queue) => (Some (container.(item_tick), container.(item)), queue)
    | None => (None, queue)
    end
  else (None, queue).

Inductive JitterBufferType := TypeReal | TypeBypass.
Inductive JitterBuffer := JReal (queue : H) | JBypass (queue : list (Tick * X)).

Definition JitterBuffer_new (jitter_buffer_type : JitterBufferType) : JitterBuffer :=
  match jitter_buffer_type with TypeReal => JReal heap_new | TypeBypass => JBypass [] end.

Definition JitterBuffer_add_item (tick : Tick) (x : X) (self : JitterBuffer) : JitterBuffer :=
  match self with
  | JReal queue => JReal (TickQueue_add_item tick x queue)
  | JBypass queue => JBypass (queue ++ [(tick, x)])
  end.

Definition JitterBuffer_pop_item (current_tick : Tick) (self : JitterBuffer) : option (Tick * X) * JitterBuffer :=
  match self with
  | JReal queue => let '(o, queue) := TickQueue_pop_item current_tick queue in (o, JReal queue)
  | JBypass queue => match queue with x :: queue => (Some x, JBypass queue) | [] => (None, JBypass []) end
  end.

(** The receiver pops until nothing is due. *)
Fixpoint drain (fuel : nat) (current_tick : Tick) (self : JitterBuffer) : list (Tick * X) * JitterBuffer :=
  match fuel with
  | O => ([], self)
  | S fuel =>
      match JitterBuffer_pop_item current_tick self with
      | (Some x, self) => let '(out, self) := drain fuel current_tick self in (x :: out, self)
      | (None, self) => ([], self)
      end
  end.

(** ** Ticks as counters *)
Context {laws : HeapLaws ItemContainer_cmp heap}.

Definition low_item (x : Z * X) : ItemContainer := mkItem (wrap 16 x.1) x.2.
Definition holds (queue : H) (l : list (Z * X)) : Prop := contents queue ≡ₚ map low_item l.
Definition near (current : Z) (l : list (Z * X)) : Prop := Forall (fun x => close x.1 current) l /\ forall x y, x ∈ l -> y ∈ l -> close x.1 y.1.

(** The distance to [current], as the 16-bit values give it. *)
Definition centre (z : Z) : Z := (z + 32768) mod 65536 - 32768.
Lemma centre_close t current : close t current -> centre (wrap 16 t - wrap 16 current) = t - current.
Proof using Type. unfold close, centre, wrap. change (2 ^ 16) with 65536. intros Hc. dlia. Qed.

Lemma cmp_low (x y : Z * X) : close x.1 y.1 -> ItemContainer_cmp (low_item x) (low_item y) = (y.1 ?= x.1).
Proof using Type.
  intros Hc. unfold ItemContainer_cmp, low_item. cbn [item_tick]. rewrite close_eqb by exact Hc. rewrite seq_gt_close by (unfold close in *; lia).
  destruct (Z.compare_spec y.1 x.1) as [E|E|E]; case_ifs; lia || reflexivity.
Qed.

Lemma near_ordered current (l : list (Z * X)) : near current l -> ordered_by ItemContainer_cmp (map low_item l).
Proof using Type.
  intros [Hc Hp]. exists (fun i => - centre (i.(item_tick) - wrap 16 current)).
  intros i j Hi Hj. apply list_elem_of_fmap in Hi as (x & -> & Hx). apply list_elem_of_fmap in Hj as (y & -> & Hy).
  rewrite cmp_low by auto. unfold low_item. cbn [item_tick]. rewrite Forall_forall in Hc. rewrite !centre_close by auto.
  destruct (Z.compare_spec y.1 x.1); symmetry; [apply Z.compare_eq_iff|apply Z.compare_lt_iff|apply Z.compare_gt_iff]; lia.
Qed.

Lemma near_perm current (l k : list (Z * X)) : l ≡ₚ k -> near current l -> near current k.
Proof using Type. intros Hp [H1 H2]. split; [now rewrite <- Hp|]. intros x y. rewrite <- Hp. apply H2. Qed.

Lemma near_tail current (x : Z * X) l : near current (x :: l) -> near current l.
Proof using Type. intros [H1 H2]. split; [now inversion H1|]. intros y z Hy Hz. apply H2; now right. Qed.

Lemma ordered_perm {T} (cmp : T -> T -> comparison) l k : l ≡ₚ k -> ordered_by cmp k -> ordered_by cmp l.
Proof using Type. intros Hp [key Hk]. exists key. intros x y. rewrite !Hp. apply Hk. Qed.

Lemma pop_holds current queue l : holds queue l -> near current l ->
  match heap_pop queue with
  | None => l = []
  | Some (i, queue') => exists x l', i = low_item x /\ l ≡ₚ x :: l' /\ holds queue' l' /\ Forall (fun y => x.1 <= y.1) l'
  end.
Proof using Type.
  intros Hh Hn. unfold holds in Hh. destruct (heap_pop queue) as [[i queue']|] eqn:Hpop.
  - destruct (pop_some _ _ _ Hpop) as [Hp Hmin].
    destruct (Permutation_map_inv low_item l (l1 := i :: contents queue')) as (l3 & E & Hl3); [now rewrite <- Hp|].
    destruct l3 as [|x l']; [discriminate|]. injection E as -> Hq. exists x, l'. split; [reflexivity|]. split; [exact Hl3|].
    split; [unfold holds; now rewrite Hq|].
    pose proof (Hmin (ordered_perm _ _ _ Hh (near_ordered current l Hn))) as Hm. rewrite Hq in Hm. rewrite Forall_forall in Hm. apply Forall_forall.
    intros y Hy. assert (In (low_item y) (map low_item l')) as Hin by (apply in_map; now apply list_elem_of_In).
    apply list_elem_of_In in Hin. specialize (Hm _ Hin). rewrite cmp_low in Hm.
    + destruct (Z.compare_spec y.1 x.1); [lia|congruence|lia].
    + apply (proj2 Hn); rewrite Hl3; [now left|now right].
  - apply pop_none in Hpop. rewrite Hpop in Hh. apply Permutation_nil in Hh. now destruct l.
Qed.

Definition due (current : Z) (l : list (Z * X)) : list (Z * X) := filter (fun x => x.1 <= current) l.
Definition waiting (current : Z) (l : list (Z * X)) : list (Z * X) := filter (fun x => current < x.1) l.
Definition low_out (x : Z * X) : Tick * X := (wrap 16 x.1, x.2).

Lemma pop_item_spec current queue l : holds queue l -> near current l ->
  match TickQueue_pop_item (wrap 16 current) queue with
  | (Some o, queue') => exists x l', o = low_out x /\ x.1 <= current /\ l ≡ₚ x :: l' /\ holds queue' l' /\ Forall (fun y => x.1 <= y.1) l'
  | (None, queue') => queue' = queue /\ due current l = []
  end.
Proof using Type.
  intros Hh Hn. pose proof (pop_holds current queue l Hh Hn) as Hp. unfold TickQueue_pop_item, has_item. rewrite peek_pop.
  destruct (heap_pop queue) as [[i queue']|]; cbn [fmap option_fmap option_map fst]; [|now subst].
  destruct Hp as (x & l' & -> & Hl & Hh' & Hm). cbn [low_item item_tick item].
  assert (close x.1 current) as Hc by (apply (near_perm _ _ _ Hl) in Hn as [Hc _]; now inversion Hc).
  rewrite (Z.eqb_sym (wrap 16 current)), close_eqb by exact Hc. rewrite seq_gt_close by (unfold close in *; lia).
  destruct (Z.eqb_spec x.1 current); [|destruct (Z.ltb_spec x.1 current)]; cbn [orb].
  - exists x, l'. split_and!; [reflexivity|lia|exact Hl|exact Hh'|exact Hm].
  - exists x, l'. split_and!; [reflexivity|lia|exact Hl|exact Hh'|exact Hm].
  - split; [reflexivity|]. apply filter_none. intros y. rewrite Hl. rewrite Forall_forall in Hm.
    intros [->|Hy]%elem_of_cons; [lia|]. specialize (Hm y Hy). lia.
Qed.

Lemma drain_spec current fuel queue l : holds queue l -> near current l -> (length l <= fuel)%nat ->
  exists out queue', drain fuel (wrap 16 current) (JReal queue) = (map low_out out, JReal queue') /\
    out ≡ₚ due current l /\ StronglySorted (fun x y => x.1 <= y.1) out /\ holds queue' (waiting current l).
Proof using Type.
  revert queue l. induction fuel as [|fuel IH]; intros queue l Hh Hn Hf.
  { destruct l; [|cbn in Hf; lia]. exists [], queue. split_and!; [reflexivity|reflexivity|constructor|exact Hh]. }
  cbn [drain JitterBuffer_pop_item]. pose proof (pop_item_spec current queue l Hh Hn) as Hp.
  destruct (TickQueue_pop_item (wrap 16 current) queue) as [[o|] queue'].
  - destruct Hp as (x & l' & -> & Hx & Hl & Hh' & Hm). pose proof (near_tail current x l' (near_perm current _ _ Hl Hn)) as Hn'.
    destruct (IH queue' l' Hh' Hn') as (out & queue'' & -> & Ho & Hs & Hw). { rewrite Hl in Hf. cbn in Hf. lia. }
    exists (x :: out), queue''. split; [reflexivity|]. split_and!.
    + unfold due in *. rewrite Ho, Hl, filter_cons_True by exact Hx. reflexivity.
    + constructor; [exact Hs|]. rewrite Forall_forall in Hm |- *. intros y. rewrite Ho. intros [_ Hy]%list_elem_of_filter. auto.
    + unfold holds in *. rewrite Hw. apply Permutation_map. unfold waiting. rewrite Hl, filter_cons_False by lia. reflexivity.
  - destruct Hp as [-> Hd]. exists [], queue. split; [reflexivity|]. rewrite Hd. split_and!; [constructor|constructor|].
    unfold waiting. rewrite filter_keep; [exact Hh|]. intros x Hx. destruct (decide (x.1 <= current)) as [Hle|]; [|lia].
    assert (x ∈ due current l) as Hin by (now apply list_elem_of_filter). rewrite Hd in Hin. now apply not_elem_of_nil in Hin.
Qed.

Lemma add_items_hold arrivals queue l : holds queue l ->
  exists queue', foldl (fun buffer x => JitterBuffer_add_item (wrap 16 x.1) x.2 buffer) (JReal queue) arrivals = JReal queue' /\ holds queue' (l ++ arrivals).
Proof using Type.
  revert queue l. induction arrivals as [|x arrivals IH]; intros queue l Hh; cbn [foldl JitterBuffer_add_item].
  - exists queue. now rewrite app_nil_r.
  - destruct (IH (TickQueue_add_item (wrap 16 x.1) x.2 queue) (l ++ [x])) as (queue' & -> & Hq).
    + unfold holds, TickQueue_add_item in *. rewrite push_contents, Hh. rewrite Permutation_app_comm. reflexivity.
    + exists queue'. split; [reflexivity|]. now rewrite <- app_assoc in Hq.
Qed.

(** The jitter buffer hands packets over by tick: whatever packets are waiting and in whatever
    order more arrive, popping until nothing is due at the current tick returns exactly the packets
    whose tick has come, each once and oldest tick first, and keeps exactly the others, while all
    ticks lie within half the tick space of each other. *)
Theorem jitter_buffer_in_order current queue l arrivals : holds queue l -> near current (l ++ arrivals) ->
  exists out queue',
    drain (length (l ++ arrivals)) (wrap 16 current)
      (foldl (fun buffer x => JitterBuffer_add_item (wrap 16 x.1) x.2 buffer) (JReal queue) arrivals) = (map low_out out, JReal queue') /\
    out ≡ₚ due current (l ++ arrivals) /\ StronglySorted (fun x y => x.1 <= y.1) out /\ holds queue' (waiting current (l ++ arrivals)).
Proof using Type.
  intros Hh Hn. destruct (add_items_hold arrivals queue l Hh) as (queue' & -> & Hq). now apply drain_spec.
Qed.
End Queue.

(** * A heap as a list, whose greatest element is searched for *)
Section ListHeap.
Context {T : Type} (cmp : T -> T -> comparison).

Fixpoint select (x : T) (l : list T) : T * list T :=
  match l with
  | [] => (x, [])
  | y :: l => match cmp x y with
              | Lt => let '(m, r) := select y l in (m, x :: r)
              | _ => let '(m, r) := select x l in (m, y :: r)
              end
  end.

Definition list_heap : BinaryHeap T (list T) := {|
  heap_new := []; heap_push := cons;
  heap_peek l := match l with [] => None | x :: l => Some (select x l).1 end;
  heap_pop l := match l with [] => None | x :: l => Some (select x l) end |}.

Lemma select_perm x l : x :: l ≡ₚ (select x l).1 :: (select x l).2.
Proof using Type.
  revert x. induction l as [|y l IH]; intros x; cbn; [reflexivity|].
  pose proof (IH x) as Hx. pose proof (IH y) as Hy. destruct (cmp x y); destruct (select x l), (select y l); cbn in *.
  - rewrite (perm_swap y x l), Hx. apply perm_swap.
  - rewrite Hy. apply perm_swap.
  - rewrite (perm_swap y x l), Hx. apply perm_swap.
Qed.

Lemma select_greatest (key : T -> Z) x l : (forall a b, a ∈ x :: l -> b ∈ x :: l -> cmp a b = (key a ?= key b)) ->
  Forall (fun y => key y <= key (select x l).1) (x :: (select x l).2).
Proof using Type.
  revert x. induction l as [|y l IH]; intros x Hk; cbn; [repeat constructor; lia|].
  assert (cmp x y = (key x ?= key y)) as Hc by (apply Hk; set_solver). rewrite Hc.
  pose proof (IH x) as Hx. pose proof (IH y) as Hy. destruct (Z.compare_spec (key x) (key y)) as [E|E|E];
    destruct (select x l) as [m1 r1], (select y l) as [m2 r2]; cbn in *.
  - specialize (Hx ltac:(intros a b; rewrite !elem_of_cons; intros; apply Hk; rewrite !elem_of_cons; tauto)). apply Forall_cons in Hx as [H1 H2]. repeat constructor; [lia|lia|exact H2].
  - specialize (Hy ltac:(intros a b; rewrite !elem_of_cons; intros; apply Hk; rewrite !elem_of_cons; tauto)). apply Forall_cons in Hy as [H1 H2]. repeat constructor; [lia|lia|exact H2].
  - specialize (Hx ltac:(intros a b; rewrite !elem_of_cons; intros; apply Hk; rewrite !elem_of_cons; tauto)). apply Forall_cons in Hx as [H1 H2]. repeat constructor; [lia|lia|exact H2].
Qed.

#[export] Instance list_heap_laws : HeapLaws cmp list_heap.
Proof using Type.
  unshelve eapply (Build_HeapLaws T (list T) cmp list_heap (fun l => l)).
  - reflexivity.
  - reflexivity.
  - now intros [].
  - now intros [].
  - intros [|y l] m r Hp; [discriminate|]. cbn in Hp. injection Hp as Hp. pose proof (select_perm y l) as Hperm. rewrite Hp in Hperm.
    split; [exact Hperm|]. intros [key Hk]. pose proof (select_greatest key y l Hk) as Hg. rewrite Hp in Hg. cbn in Hg.
    apply Forall_cons in Hg as [_ Hg]. rewrite Forall_forall in Hg |- *. intros z Hz. specialize (Hg z Hz). cbn in Hg |- *.
    rewrite Hk; [|rewrite Hperm; now left|rewrite Hperm; now right]. intros Hlt. change (key m < key z) in Hlt. lia.
Defined.
End ListHeap.

Module QueueSample.
(** Packets of ticks 65534, 2 (65538) and 65535 arrive in this order; at tick 0 (65536) the first
    and the last are handed over. *)
Lemma jitter_buffer_in_order_witness :
  exists out queue', drain (heap := list_heap ItemContainer_cmp) 3 0
      (foldl (fun buffer x => JitterBuffer_add_item (heap := list_heap ItemContainer_cmp) (wrap 16 x.1) x.2 buffer) (JReal [])
             [(65534, 10); (65538, 11); (65535, 12)]) = (map low_out out, JReal queue') /\
    out ≡ₚ [(65534, 10); (65535, 12)].
Proof.
  destruct (jitter_buffer_in_order (heap := list_heap ItemContainer_cmp) 65536 [] [] [(65534, 10); (65538, 11); (65535, 12)])
    as (out & queue' & Hd & Hp & _); [constructor| |exists out, queue'; split; [exact Hd|exact Hp]].
  split.
  - repeat constructor; unfold close; cbn; lia.
  - intros x y Hx Hy. cbn in Hx, Hy. unfold close. set_unfold in Hx. set_unfold in Hy. destruct_or! Hx; destruct_or! Hy; subst; cbn; lia.
Defined.
End QueueSample.

(** * Commands kept for replay *)
Section History.
Context {X : Type}.
Abbreviation CommandHistory := (list (Tick * X)).

(** The loop pops from the front. *)
Fixpoint remove_to_and_including (index : Tick) (buffer : CommandHistory) : CommandHistory :=
  match buffer with
  | [] => []
  | (back_index, command) :: rest => if sequence_greater_than back_index index then buffer else remove_to_and_including index rest
  end.

Definition replays (start_tick : Tick) (buffer : CommandHistory) : list (Tick * X) * CommandHistory :=
  let buffer := remove_to_and_including start_tick buffer in (buffer, buffer).

Definition can_insert (tick : Tick) (buffer : CommandHistory) : bool :=
  match last buffer with Some (last_most_recent_command_tick, _) => sequence_greater_than tick last_most_recent_command_tick | None => true end.

Definition CommandHistory_insert (command_tick : Tick) (new_command : X) (buffer : CommandHistory) : res CommandHistory :=
  match last buffer with
  | Some (last_most_recent_command_tick, _) =>
      if negb (sequence_greater_than command_tick last_most_recent_command_tick) then Panic else Ok (buffer ++ [(command_tick, new_command)])
  | None => Ok (buffer ++ [(command_tick, new_command)])
  end.

Definition most_recent_tick (buffer : CommandHistory) : option Tick := fst <$> last buffer.

(** ** Ticks as counters *)
Abbreviation Commands := (list (Z * X)).
Definition earlier (x y : Z * X) : Prop := x.1 < y.1.

Lemma remove_to_low start (l : Commands) : StronglySorted earlier l -> Forall (fun x => close x.1 start) l ->
  remove_to_and_including (wrap 16 start) (map low_out l) = map low_out (filter (fun x => start < x.1) l).
Proof using Type.
  intros Hs. induction Hs as [|x l Hs IH Hx]; intros Hc; [reflexivity|]. apply Forall_cons in Hc as [Hcx Hc].
  cbn [map remove_to_and_including low_out fst snd]. rewrite seq_gt_close by exact Hcx. destruct (Z.ltb_spec start x.1) as [Hlt|Hge].
  - rewrite filter_cons_True by exact Hlt. rewrite filter_keep; [reflexivity|]. rewrite Forall_forall in Hx. intros y Hy. specialize (Hx y Hy). unfold earlier in Hx. lia.
  - rewrite filter_cons_False by lia. now apply IH.
Qed.

Definition latest (l : Commands) : option Z := fst <$> last l.

Lemma last_low (l : Commands) : last (map low_out l) = low_out <$> last l.
Proof using Type. exact (fmap_last low_out l). Qed.

Inductive command_event := InsertCommand (tick : Z) (command : X) | Replay (start : Z).
Definition run_command (ev : command_event) (buffer : CommandHistory) : res (list (Tick * X) * CommandHistory) :=
  match ev with
  | InsertCommand tick command => buffer ← CommandHistory_insert (wrap 16 tick) command buffer; Ok ([], buffer)
  | Replay start => Ok (replays (wrap 16 start) buffer)
  end.
Definition spec_command (ev : command_event) (l : Commands) : res (Commands * Commands) :=
  match ev with
  | InsertCommand tick command => if match latest l with Some t => t <? tick | None => true end then Ok ([], l ++ [(tick, command)]) else Panic
  | Replay start => let l := filter (fun x => start < x.1) l in Ok (l, l)
  end.
Fixpoint run_commands (evs : list command_event) (buffer : CommandHistory) : res (list (list (Tick * X))) :=
  match evs with [] => Ok [] | ev :: evs => '(o, buffer) ← run_command ev buffer; os ← run_commands evs buffer; Ok (o :: os) end.
Fixpoint spec_commands (evs : list command_event) (l : Commands) : res (list Commands) :=
  match evs with [] => Ok [] | ev :: evs => '(o, l) ← spec_command ev l; os ← spec_commands evs l; Ok (o :: os) end.

(** The ticks an event names are within half the tick space of those that are kept. *)
Definition event_tick (ev : command_event) : Z := match ev with InsertCommand tick _ => tick | Replay start => start end.
Fixpoint recent (evs : list command_event) (l : Commands) : Prop :=
  match evs with
  | [] => True
  | ev :: evs => Forall (fun x => close x.1 (event_tick ev)) l /\ forall o l', spec_command ev l = Ok (o, l') -> recent evs l'
  end.

Lemma sorted_snoc (l : Commands) x : StronglySorted earlier l -> (forall t, latest l = Some t -> t < x.1) -> StronglySorted earlier (l ++ [x]).
Proof using Type.
  intros Hs Hl. induction Hs as [|y l Hs IH Hy]; [repeat constructor|]. cbn. constructor.
  - apply IH. intros t Ht. apply Hl. unfold latest in *. destruct l; [discriminate|exact Ht].
  - apply Forall_app. split; [exact Hy|]. repeat constructor. destruct (last l) as [z|] eqn:Hz.
    + assert (earlier y z) as Hyz by (rewrite Forall_forall in Hy; apply Hy; apply last_Some_elem_of; exact Hz).
      specialize (Hl z.1). unfold latest in Hl. rewrite last_cons, Hz in Hl. specialize (Hl eq_refl). unfold earlier in *. lia.
    + apply last_None in Hz as ->. exact (Hl y.1 eq_refl).
Qed.

Lemma run_command_spec ev (l : Commands) : StronglySorted earlier l -> Forall (fun x => close x.1 (event_tick ev)) l ->
  run_command ev (map low_out l) = ('(o, l') ← spec_command ev l; Ok (map low_out o, map low_out l')) /\
  forall o l', spec_command ev l = Ok (o, l') -> StronglySorted earlier l'.
Proof using Type.
  intros Hs Hc. destruct ev as [tick command|start]; cbn [run_command spec_command event_tick] in *.
  - unfold CommandHistory_insert, latest. rewrite last_low. destruct (last l) as [x|] eqn:Hx; cbn.
    + rewrite seq_gt_close by (unfold close in *; rewrite Forall_forall in Hc; specialize (Hc x (last_Some_elem_of _ _ Hx)); cbn in Hc; lia).
      destruct (Z.ltb_spec x.1 tick); cbn [negb]; (split; [|intros o l' H1]).
      * cbn. now rewrite map_app.
      * injection H1 as <- <-. apply sorted_snoc; [exact Hs|]. unfold latest. rewrite Hx. intros t [= <-]. exact H.
      * reflexivity.
      * discriminate.
    + split; [cbn; now rewrite map_app|]. intros o l' [= <- <-]. apply last_None in Hx as ->. repeat constructor.
  - unfold replays. rewrite remove_to_low by assumption. split; [reflexivity|]. intros o l' [= <- <-].
    eapply StronglySorted_sublist; [|exact Hs]. apply sublist_filter.
Qed.

(** The command history is a list of commands by tick: in every history an insertion of a later
    command appends it and any other panics, and a replay drops exactly the commands up to the
    given tick and returns the others in order, also across the wrap of the ticks. *)
Theorem command_history_refines (evs : list command_event) : recent evs [] ->
  run_commands evs [] = (os ← spec_commands evs []; Ok (map (map low_out) os)).
Proof using Type.
  assert (forall l, StronglySorted earlier l -> recent evs l -> run_commands evs (map low_out l) = (os ← spec_commands evs l; Ok (map (map low_out) os))) as H.
  2: { intros Hr. apply (H []); [constructor|exact Hr]. }
  induction evs as [|ev evs IH]; intros l Hs Hr; [reflexivity|]. destruct Hr as [Hc Hr]. cbn [run_commands spec_commands].
  destruct (run_command_spec ev l Hs Hc) as [-> Hs']. destruct (spec_command ev l) as [[o l']| | |]; [|reflexivity..].
  rewrite !bind_ok. rewrite (IH l') by eauto. now destruct (spec_commands evs l').
Qed.
End History.

Module HistorySample.
Lemma command_history_refines_witness :
  run_commands [InsertCommand 65535 1; InsertCommand 65536 2; InsertCommand 65537 3; Replay 65535] []
  = Ok [[]; []; []; [(0, 2); (1, 3)]].
Proof.
  rewrite command_history_refines; [reflexivity|].
  assert (forall x y, Z.abs (x - y) <= 32767 -> close x y) as Hc by (unfold close; lia).
  split; [constructor|]. intros o1 l1 [= <- <-]. split; [repeat constructor; apply Hc; cbn; lia|].
  intros o2 l2 [= <- <-]. split; [repeat constructor; apply Hc; cbn; lia|].
  intros o3 l3 [= <- <-]. split; [repeat constructor; apply Hc; cbn; lia|]. intros o4 l4 _. exact I.
Defined.
End HistorySample.
