(* ===== verification/Channels.v ===== *)
(** Channels: settings, senders and receivers.
    src/shared/src/messages/channels/channel.rs, the senders and receivers under
    src/shared/src/messages/channels/, src/shared/src/key_generator.rs and
    src/shared/src/messages/channels/senders/request_sender.rs.

    A message container is a user message, a fragment or a request/response envelope;
    its serialization [sc] and the entity relations of user messages are parameters. *)

From Stdlib Require Import ZArith Lia.
From stdpp Require Import base list numbers gmap.
From S2P Require Import Prelude Wrapping BitIO Number Serde Wire Fragments Reliable MessageWire.

(** * Settings *)
Record ReliableSettings : Type := mkReliableSettings {
  max_messages_per_tick : option Z; rs_max_queue_depth : option Z }.

Definition ReliableSettings_default : ReliableSettings := mkReliableSettings None (Some 1024).

Inductive ChannelMode : Type :=
| UnorderedUnreliable
| SequencedUnreliable
| UnorderedReliable (settings : ReliableSettings)
| SequencedReliable (settings : ReliableSettings)
| OrderedReliable (settings : ReliableSettings)
| TickBuffered (message_capacity : Z).

Inductive ChannelDirection : Type := ClientToServer | ServerToClient | Bidirectional.
Inductive ChannelCriticality : Type := Low | Normal | High.

#[global] Instance ChannelDirection_eq_dec : EqDecision ChannelDirection.
Proof. solve_decision. Defined.

Record ChannelSettings : Type := mkChannelSettings {
  mode : ChannelMode; direction : ChannelDirection; criticality : ChannelCriticality }.

Definition ChannelMode_tick_buffered (m : ChannelMode) : bool :=
  match m with TickBuffered _ => true | _ => false end.

Definition default_for (m : ChannelMode) : ChannelCriticality :=
  match m with TickBuffered _ => High | _ => Normal end.

(** The gains 0.5, 1.0 and 10.0, in tenths. *)
Definition base_gain (c : ChannelCriticality) : Z :=
  match c with Low => 5 | Normal => 10 | High => 100 end.

Definition ChannelSettings_new (m : ChannelMode) (d : ChannelDirection) : res ChannelSettings :=
  if ChannelMode_tick_buffered m && negb (bool_decide (d = ClientToServer)) then Panic
  else Ok (mkChannelSettings m d (default_for m)).

Definition with_criticality (c : ChannelCriticality) (s : ChannelSettings) : ChannelSettings :=
  mkChannelSettings (mode s) (direction s) c.

Definition reliable (s : ChannelSettings) : bool :=
  match mode s with
  | UnorderedUnreliable | SequencedUnreliable | TickBuffered _ => false
  | UnorderedReliable _ | SequencedReliable _ | OrderedReliable _ => true
  end.

Definition can_send_to_server (s : ChannelSettings) : bool :=
  match direction s with ClientToServer | Bidirectional => true | ServerToClient => false end.

Definition can_send_to_client (s : ChannelSettings) : bool :=
  match direction s with ServerToClient | Bidirectional => true | ClientToServer => false end.

Definition can_request_and_respond (s : ChannelSettings) : bool :=
  reliable s && can_send_to_server s && can_send_to_client s.

(** * KeyGenerator, at keys that convert from and to [u16] *)
Record KeyGenerator : Type := mkKeyGenerator {
  recycling_keys : list (Z * Z);
  recycled_keys : list Z;
  recycle_timeout : Z;
  next_new_key : Z }.

Definition KeyGenerator_new (recycle_timeout : Z) : KeyGenerator :=
  mkKeyGenerator [] [] recycle_timeout 0.

(** The loop of [generate]: the keys whose timeout has passed, and the others. *)
Fixpoint recycle_expired (now timeout : Z) (recycling : list (Z * Z)) (recycled : list Z)
  : list (Z * Z) * list Z :=
  match recycling with
  | (key, instant) :: rest =>
      if elapsed instant now <? timeout then (recycling, recycled)
      else recycle_expired now timeout rest (recycled ++ [key])
  | [] => ([], recycled)
  end.

Definition KeyGenerator_generate (now : Z) (g : KeyGenerator) : res (Z * KeyGenerator) :=
  let '(recycling, recycled) :=
    recycle_expired now (recycle_timeout g) (recycling_keys g) (recycled_keys g) in
  match recycled with
  | key :: rest => Ok (key, mkKeyGenerator recycling rest (recycle_timeout g) (next_new_key g))
  | [] =>
      next ← uadd 16 (next_new_key g) 1;
      Ok (next_new_key g, mkKeyGenerator recycling [] (recycle_timeout g) next)
  end.

Definition KeyGenerator_recycle_key (now key : Z) (g : KeyGenerator) : KeyGenerator :=
  mkKeyGenerator (recycling_keys g ++ [(key, now)]) (recycled_keys g) (recycle_timeout g) (next_new_key g).

(** * Message containers *)
Inductive LocalRequestOrResponseId : Type := RequestId (id : Z) | ResponseId (id : Z).

Inductive Container (U : Type) : Type :=
| CMessage (message : U)
| CFragment (fragment : FragmentedMessage)
| CRequestOrResponse (id : LocalRequestOrResponseId) (bytes : list Z).
Arguments CMessage {U} message.
Arguments CFragment {U} fragment.
Arguments CRequestOrResponse {U} id bytes.

(** * RequestSender *)
Definition LocalRequestId_from (key : Z) : Z := wrap 8 key.

Record RequestSender : Type := mkRequestSender {
  local_key_generator : KeyGenerator;
  local_to_global_ids : gmap Z Z }.

(** The 60-second recycle window, in milliseconds. *)
Definition RequestSender_new : RequestSender := mkRequestSender (KeyGenerator_new 60000) ∅.

Section ChannelEnds.
Context {U E : Type} (sc : Serde (Container U)).
Context (relations_waiting : Container U -> option E) (relations_complete : Container U -> Container U).

(** [write] into [BitWriter::with_max_capacity()], then [to_bytes]. *)
Definition envelope_bytes (message : Container U) : res (list Z) :=
  w ← ser sc message BitWriter_with_max_capacity;
  BitWriter_to_bytes w.

Definition process_outgoing_request (now global_request_id : Z) (request : Container U) (s : RequestSender)
  : res (Container U * RequestSender) :=
  '(key, g) ← KeyGenerator_generate now (local_key_generator s);
  let local_request_id := LocalRequestId_from key in
  bytes ← envelope_bytes request;
  Ok (CRequestOrResponse (RequestId local_request_id) bytes,
      mkRequestSender g (<[local_request_id := global_request_id]> (local_to_global_ids s))).

Definition process_outgoing_response (local_response_id : Z) (response : Container U) : res (Container U) :=
  bytes ← envelope_bytes response;
  Ok (CRequestOrResponse (ResponseId local_response_id) bytes).

Definition RequestSender_process_incoming_response (now local_request_id : Z) (s : RequestSender)
  : option Z * RequestSender :=
  (local_to_global_ids s !! local_request_id,
   mkRequestSender (KeyGenerator_recycle_key now local_request_id (local_key_generator s))
     (delete local_request_id (local_to_global_ids s))).

(** * The senders behind [MessageChannelSender] *)
Inductive MessageChannelSender : Type :=
| UnorderedUnreliableSender (outgoing_messages : list (Container U))
| SequencedSender (s : SequencedUnreliableSender (M := Container U))
| ReliableMessageSender (reliable_sender : ReliableSender (Container U)) (request_sender : RequestSender).

Definition sender_send_message (message : Container U) (s : MessageChannelSender)
  : bool * MessageChannelSender :=
  match s with
  | UnorderedUnreliableSender q =>
      let '(b, q') := UnorderedUnreliableSender_send_message message q in (b, UnorderedUnreliableSender q')
  | SequencedSender q =>
      let '(b, q') := SequencedUnreliableSender_send_message message q in (b, SequencedSender q')
  | ReliableMessageSender rs rq =>
      let '(b, rs') := ReliableSender_send_message message rs in (b, ReliableMessageSender rs' rq)
  end.

Definition sender_collect_messages (now resend_duration : Z) (s : MessageChannelSender)
  : MessageChannelSender :=
  match s with
  | ReliableMessageSender rs rq =>
      ReliableMessageSender (ReliableSender_collect_messages now resend_duration rs) rq
  | _ => s
  end.

Definition sender_has_messages (s : MessageChannelSender) : bool :=
  match s with
  | UnorderedUnreliableSender [] => false
  | UnorderedUnreliableSender _ => true
  | SequencedSender q => match su_outgoing_messages q with [] => false | _ => true end
  | ReliableMessageSender rs _ => match outgoing_messages rs with [] => false | _ => true end
  end.

Definition sender_notify_delivered (message_index : Z) (s : MessageChannelSender) : MessageChannelSender :=
  match s with
  | ReliableMessageSender rs rq =>
      ReliableMessageSender (snd (ReliableSender_deliver_message message_index rs)) rq
  | _ => s
  end.

(** [write_messages]: the indices to track ([None] for the unordered sender). *)
Definition sender_write_messages (s : MessageChannelSender) (writer : BitWriter) (has_written : bool)
  : res (option (list Z) * MessageChannelSender * BitWriter * bool) :=
  match s with
  | UnorderedUnreliableSender q =>
      '(q', writer, has_written) ← unordered_write_messages sc q writer has_written;
      Ok (None, UnorderedUnreliableSender q', writer, has_written)
  | SequencedSender q =>
      '(indices, q', writer, has_written) ←
         SequencedUnreliableSender_write_messages sc q writer has_written;
      Ok (Some indices, SequencedSender q', writer, has_written)
  | ReliableMessageSender rs rq =>
      '(indices, rs', writer, has_written) ←
         ReliableMessageSender_write_messages sc rs writer has_written;
      Ok (Some indices, ReliableMessageSender rs' rq, writer, has_written)
  end.

Definition sender_send_request (now global_request_id : Z) (request : Container U)
    (s : MessageChannelSender) : res MessageChannelSender :=
  match s with
  | ReliableMessageSender rs rq =>
      '(m, rq') ← process_outgoing_request now global_request_id request rq;
      Ok (snd (sender_send_message m (ReliableMessageSender rs rq')))
  | _ => Panic
  end.

Definition sender_send_response (local_response_id : Z) (response : Container U)
    (s : MessageChannelSender) : res MessageChannelSender :=
  match s with
  | ReliableMessageSender rs rq =>
      m ← process_outgoing_response local_response_id response;
      Ok (snd (sender_send_message m s))
  | _ => Panic
  end.

Definition sender_process_incoming_response (now local_request_id : Z) (s : MessageChannelSender)
  : res (option Z * MessageChannelSender) :=
  match s with
  | ReliableMessageSender rs rq =>
      let '(o, rq') := RequestSender_process_incoming_response now local_request_id rq in
      Ok (o, ReliableMessageSender rs rq')
  | _ => Panic
  end.

(** * The receivers behind [MessageChannelReceiver]

    [waiting] is what was handed to the entity waitlist, in order. *)
Inductive Arranger : Type :=
| Ordered (a : OrderedArranger (Container U))
| Sequenced (a : SequencedArranger)
| Unordered.

Definition Arranger_process (start_message_index end_message_index : Z) (message : Container U) (a : Arranger)
  : res (list (Container U) * Arranger) :=
  match a with
  | Ordered o =>
      '(out, o') ← OrderedArranger_process start_message_index end_message_index message o;
      Ok (out, Ordered o')
  | Sequenced s =>
      let '(out, s') := SequencedArranger_process start_message_index end_message_index message s in
      Ok (out, Sequenced s')
  | Unordered => Ok (UnorderedArranger_process start_message_index end_message_index message, Unordered)
  end.

Record ReliableMessageReceiver : Type := mkReliableMessageReceiver {
  reliable_receiver : ReliableReceiver (Container U);
  rm_incoming_messages : list (Container U);
  arranger : Arranger;
  fragment_receiver : gmap Z FragmentEntry;
  rm_waiting : list (E * (Z * Z * Container U));
  incoming_requests : list (Z * Container U);
  incoming_responses : list (Z * Container U);
  rm_max_messages_per_tick : option Z }.

Definition with_arranger_and_cap (a : Arranger) (cap : option Z) : ReliableMessageReceiver :=
  mkReliableMessageReceiver ReliableReceiver_new [] a ∅ [] [] [] cap.

(** [receive_message]: an envelope is opened, other messages are kept.  The id of a
    request becomes the id of its response, and back. *)
Definition reliable_receive_message (message : Container U) (r : ReliableMessageReceiver)
  : res ReliableMessageReceiver :=
  match message with
  | CRequestOrResponse local_id request_bytes =>
      match de sc (BitReader_new request_bytes) with
      | Err => Ok r
      | Panic => Panic
      | Diverge => Diverge
      | Ok (request_or_response, _) =>
          Ok (match local_id with
              | RequestId id => mkReliableMessageReceiver (reliable_receiver r) (rm_incoming_messages r)
                  (arranger r) (fragment_receiver r) (rm_waiting r)
                  (incoming_requests r ++ [(id, request_or_response)]) (incoming_responses r)
                  (rm_max_messages_per_tick r)
              | ResponseId id => mkReliableMessageReceiver (reliable_receiver r) (rm_incoming_messages r)
                  (arranger r) (fragment_receiver r) (rm_waiting r)
                  (incoming_requests r) (incoming_responses r ++ [(id, request_or_response)])
                  (rm_max_messages_per_tick r)
              end)
      end
  | _ => Ok (mkReliableMessageReceiver (reliable_receiver r) (rm_incoming_messages r ++ [message])
               (arranger r) (fragment_receiver r) (rm_waiting r) (incoming_requests r)
               (incoming_responses r) (rm_max_messages_per_tick r))
  end.

(** [self.arranger.process(..)], then every message it lets through. *)
Definition arrange_and_receive (start_message_index end_message_index : Z) (message : Container U)
    (r : ReliableMessageReceiver) : res ReliableMessageReceiver :=
  '(out, a) ← Arranger_process start_message_index end_message_index message (arranger r);
  foldM reliable_receive_message out
    (mkReliableMessageReceiver (reliable_receiver r) (rm_incoming_messages r) a (fragment_receiver r)
       (rm_waiting r) (incoming_requests r) (incoming_responses r) (rm_max_messages_per_tick r)).

Definition push_message (message_index : Z) (message : Container U) (r : ReliableMessageReceiver)
  : res ReliableMessageReceiver :=
  '(full, fragments) ←
    match message with
    | CFragment f => FragmentReceiver_receive sc message_index f (fragment_receiver r)
    | _ => Ok (Some (message_index, message_index, message), fragment_receiver r)
    end;
  let r1 := mkReliableMessageReceiver (reliable_receiver r) (rm_incoming_messages r) (arranger r) fragments
              (rm_waiting r) (incoming_requests r) (incoming_responses r) (rm_max_messages_per_tick r) in
  match full with
  | None => Ok r1
  | Some (start_message_index, end_message_index, full_message) =>
      match relations_waiting full_message with
      | Some remote_entity_set =>
          Ok (mkReliableMessageReceiver (reliable_receiver r1) (rm_incoming_messages r1) (arranger r1)
                (fragment_receiver r1)
                (rm_waiting r1 ++ [(remote_entity_set, (start_message_index, end_message_index, full_message))])
                (incoming_requests r1) (incoming_responses r1) (rm_max_messages_per_tick r1))
      | None => arrange_and_receive start_message_index end_message_index full_message r1
      end
  end.

Definition ReliableMessageReceiver_buffer_message (message_index : Z) (message : Container U)
    (r : ReliableMessageReceiver) : res ReliableMessageReceiver :=
  rr ← ReliableReceiver_buffer_message message_index message (reliable_receiver r);
  let '(received, rr') := ReliableReceiver_receive_messages rr in
  foldM (fun '(id, m) r => push_message id m r) received
    (mkReliableMessageReceiver rr' (rm_incoming_messages r) (arranger r) (fragment_receiver r)
       (rm_waiting r) (incoming_requests r) (incoming_responses r) (rm_max_messages_per_tick r)).

(** [receive_messages]; [ready] is what [collect_ready_items] returned. *)
Definition ReliableMessageReceiver_receive_messages (ready : list (Z * Z * Container U))
    (r : ReliableMessageReceiver) : res (list (Container U) * ReliableMessageReceiver) :=
  r1 ← foldM (fun '(s, e, m) r => arrange_and_receive s e (relations_complete m) r) ready r;
  let messages := rm_incoming_messages r1 in
  Ok (match rm_max_messages_per_tick r1 with
      | Some cap => take (Z.to_nat cap) messages
      | None => messages
      end,
      mkReliableMessageReceiver (reliable_receiver r1) [] (arranger r1) (fragment_receiver r1)
        (rm_waiting r1) (incoming_requests r1) (incoming_responses r1) (rm_max_messages_per_tick r1)).

Inductive MessageChannelReceiver : Type :=
| UnorderedUnreliableReceiver (incoming_messages : list (Container U)) (waiting : list (E * Container U))
| SequencedUnreliableReceiver (newest : option Z) (incoming_messages : list (Container U))
    (waiting : list (E * (Z * Container U)))
| ReliableReceiver_ (r : ReliableMessageReceiver).

(** [recv_message] of the unordered receiver. *)
Definition unordered_recv_message (message : Container U)
    (s : list (Container U) * list (E * Container U)) : list (Container U) * list (E * Container U) :=
  match relations_waiting message with
  | Some set => (fst s, snd s ++ [(set, message)])
  | None => (fst s ++ [message], snd s)
  end.

(** [buffer_message] of the sequenced unreliable receiver. *)
Definition sequenced_buffer_message (message_index : Z) (message : Container U)
    (s : option Z * list (Container U) * list (E * (Z * Container U)))
  : option Z * list (Container U) * list (E * (Z * Container U)) :=
  let '(newest, incoming, waiting) := s in
  match relations_waiting message with
  | Some set => (newest, incoming, waiting ++ [(set, (message_index, message))])
  | None =>
      let '(newest', incoming') := SequencedUnreliable_arrange_message message_index message newest incoming in
      (newest', incoming', waiting)
  end.

(** The loop of the unordered receiver: every message is kept as soon as it is read. *)
Fixpoint unordered_read_messages (fuel : nat) (s : list (Container U) * list (E * Container U))
    (r : BitReader) : res (list (Container U) * list (E * Container U) * option BitReader) :=
  match fuel with
  | O => Diverge
  | S fuel' =>
      o ← catch (de bool_serde r);
      match o with
      | None => Ok (s, None)
      | Some (false, r1) => Ok (s, Some r1)
      | Some (true, r1) =>
          o ← catch (de sc r1);
          match o with
          | None => Ok (s, None)
          | Some (message, r2) => unordered_read_messages fuel' (unordered_recv_message message s) r2
          end
      end
  end.

(** [read_messages]: the receiver afterwards, and the rest of the packet or the error. *)
Definition receiver_read_messages (r : BitReader) (rcv : MessageChannelReceiver)
  : res (MessageChannelReceiver * option BitReader) :=
  match rcv with
  | UnorderedUnreliableReceiver inc wait =>
      '(inc', wait', o) ← unordered_read_messages (chunk_fuel r) (inc, wait) r;
      Ok (UnorderedUnreliableReceiver inc' wait', o)
  | SequencedUnreliableReceiver newest inc wait =>
      o ← catch (IndexedMessageReader_read_messages sc r);
      match o with
      | None => Ok (rcv, None)
      | Some (messages, r') =>
          let '(newest', inc', wait') :=
            foldl (fun s '(i, m) => sequenced_buffer_message i m s) (newest, inc, wait) messages in
          Ok (SequencedUnreliableReceiver newest' inc' wait', Some r')
      end
  | ReliableReceiver_ rr =>
      o ← catch (IndexedMessageReader_read_messages sc r);
      match o with
      | None => Ok (rcv, None)
      | Some (messages, r') =>
          rr' ← foldM (fun '(i, m) rr => ReliableMessageReceiver_buffer_message i m rr) messages rr;
          Ok (ReliableReceiver_ rr', Some r')
      end
  end.
End ChannelEnds.
Arguments MessageChannelSender U : clear implicits.
Arguments MessageChannelReceiver U E : clear implicits.
Arguments ReliableMessageReceiver U E : clear implicits.

(** A request or response of more than 3455 bits cannot be put into its envelope: the
    writer is bounded only by its 430-byte buffer, and writing past it panics. *)
Lemma large_envelope_panics {U} (sc : Serde (Container U)) `{!Lawful sc} (m : Container U) :
  valid sc m -> 3455 < Z.of_nat (length (enc sc m)) -> envelope_bytes sc m = Panic.
Proof.
  intros Hm Hl. unfold envelope_bytes.
  rewrite (ser_enc BitWriter m) by (exact Hm || exact (writer_new_ok _)).
  assert (enc sc m <> []) as Hne by (intros E; rewrite E in Hl; cbn in Hl; lia).
  pose proof (write_bits_spec (enc sc m) BitWriter_with_max_capacity (writer_new_ok _) Hne) as P.
  change (bw_current_bits BitWriter_with_max_capacity) with 0 in P.
  rewrite (proj2 (Z.leb_gt _ 3455)) in P by lia. rewrite andb_false_r in P. now rewrite P.
Qed.

(** Requests 0 and 256 of one window share a local id: the second mapping replaces the
    first. *)
Example local_request_id_truncated : LocalRequestId_from 256 = LocalRequestId_from 0.
Proof. reflexivity. Qed.
