(* ===== verification/EntityTypes.v ===== *)
(** Entity messages and commands, the authority status and its permissions:
    src/shared/src/world/entity/entity_message.rs, entity_message_type.rs,
    src/shared/src/world/entity_command.rs, src/shared/src/types.rs and
    src/shared/src/world/delegation/entity_auth_status.rs.

    A [ComponentKind] is a key of the protocol's registry and a [GlobalEntity] a 64-bit
    number.  Constructors of [EntityMessageType] carry the prefix [T], those of
    [EntityCommand] the prefix [C]. *)

From Stdlib Require Import ZArith Lia.
From stdpp Require Import base list numbers countable.
From S2P Require Import Prelude Wire.

Abbreviation ComponentKind := Z.
Abbreviation SubCommandId := Z.
Abbreviation GlobalEntity := Z.

Inductive HostType := Server | Client.

Definition HostType_invert (h : HostType) : HostType :=
  match h with Server => Client | Client => Server end.

Inductive EntityAuthStatus := Available | Requested | Granted | Releasing | Denied.

#[global] Instance HostType_eq_dec : EqDecision HostType.
Proof. solve_decision. Defined.
#[global] Instance EntityAuthStatus_eq_dec : EqDecision EntityAuthStatus.
Proof. solve_decision. Defined.

(** * [HostEntityAuthStatus]: what an endpoint may do *)
Record HostEntityAuthStatus : Type := mkHostEntityAuthStatus {
  heas_host_type : HostType; heas_auth_status : EntityAuthStatus }.

Definition can_request (s : HostEntityAuthStatus) : res bool :=
  match heas_host_type s, heas_auth_status s with
  | Client, Available => Ok true
  | Client, Requested | Client, Granted | Client, Releasing | Client, Denied => Ok false
  | Server, _ => Panic
  end.

Definition can_release (s : HostEntityAuthStatus) : res bool :=
  match heas_host_type s, heas_auth_status s with
  | Client, Available => Ok false
  | Client, Requested | Client, Granted => Ok true
  | Client, Releasing | Client, Denied => Ok false
  | Server, _ => Panic
  end.

Definition can_mutate (s : HostEntityAuthStatus) : bool :=
  match heas_host_type s, heas_auth_status s with
  | Client, Requested | Client, Granted => true
  | Client, Available | Client, Releasing | Client, Denied => false
  | Server, _ => true
  end.

Definition can_read (s : HostEntityAuthStatus) : bool :=
  match heas_host_type s, heas_auth_status s with
  | Client, Available | Client, Releasing | Client, Denied => true
  | Client, Requested | Client, Granted => false
  | Server, _ => true
  end.

Definition can_write (s : HostEntityAuthStatus) : bool :=
  match heas_host_type s, heas_auth_status s with
  | Client, Granted | Client, Releasing => true
  | Client, Available | Client, Requested | Client, Denied => false
  | Server, _ => true
  end.

(** * Messages *)
Inductive EntityMessageType :=
| TSpawn | TSpawnWithComponents | TDespawn | TInsertComponent | TRemoveComponent
| TPublish | TUnpublish | TEnableDelegation | TDisableDelegation | TSetAuthority
| TNoop
| TRequestAuthority | TReleaseAuthority | TEnableDelegationResponse | TMigrateResponse.

#[global] Instance EntityMessageType_eq_dec : EqDecision EntityMessageType.
Proof. solve_decision. Defined.

Inductive EntityMessage (E : Type) :=
| Spawn (e : E)
| SpawnWithComponents (e : E) (kinds : list ComponentKind)
| Despawn (e : E)
| InsertComponent (e : E) (kind : ComponentKind)
| RemoveComponent (e : E) (kind : ComponentKind)
| Publish (sub : SubCommandId) (e : E)
| Unpublish (sub : SubCommandId) (e : E)
| EnableDelegation (sub : SubCommandId) (e : E)
| DisableDelegation (sub : SubCommandId) (e : E)
| SetAuthority (sub : SubCommandId) (e : E) (status : EntityAuthStatus)
| RequestAuthority (sub : SubCommandId) (e : E)
| ReleaseAuthority (sub : SubCommandId) (e : E)
| EnableDelegationResponse (sub : SubCommandId) (e : E)
| MigrateResponse (sub : SubCommandId) (e : E) (other : RemoteEntity)
| Noop.
Arguments Spawn {E} e.
Arguments SpawnWithComponents {E} e kinds.
Arguments Despawn {E} e.
Arguments InsertComponent {E} e kind.
Arguments RemoveComponent {E} e kind.
Arguments Publish {E} sub e.
Arguments Unpublish {E} sub e.
Arguments EnableDelegation {E} sub e.
Arguments DisableDelegation {E} sub e.
Arguments SetAuthority {E} sub e status.
Arguments RequestAuthority {E} sub e.
Arguments ReleaseAuthority {E} sub e.
Arguments EnableDelegationResponse {E} sub e.
Arguments MigrateResponse {E} sub e other.
Arguments Noop {E}.

#[global] Instance EntityMessage_eq_dec {E} `{EqDecision E} : EqDecision (EntityMessage E).
Proof. solve_decision. Defined.

Section Messages.
Context {E : Type}.

Definition EntityMessage_entity (m : EntityMessage E) : option E :=
  match m with
  | Spawn e | SpawnWithComponents e _ | Despawn e | InsertComponent e _ | RemoveComponent e _
  | Publish _ e | Unpublish _ e | EnableDelegation _ e | EnableDelegationResponse _ e
  | DisableDelegation _ e | RequestAuthority _ e | ReleaseAuthority _ e | SetAuthority _ e _
  | MigrateResponse _ e _ => Some e
  | Noop => None
  end.

Definition EntityMessage_component_kind (m : EntityMessage E) : option ComponentKind :=
  match m with InsertComponent _ k | RemoveComponent _ k => Some k | _ => None end.

Definition with_entity {O} (m : EntityMessage E) (entity : O) : res (EntityMessage O) :=
  match m with
  | Spawn _ => Ok (Spawn entity)
  | SpawnWithComponents _ kinds => Ok (SpawnWithComponents entity kinds)
  | Despawn _ => Ok (Despawn entity)
  | InsertComponent _ k => Ok (InsertComponent entity k)
  | RemoveComponent _ k => Ok (RemoveComponent entity k)
  | Publish i _ => Ok (Publish i entity)
  | Unpublish i _ => Ok (Unpublish i entity)
  | EnableDelegation i _ => Ok (EnableDelegation i entity)
  | EnableDelegationResponse i _ => Ok (EnableDelegationResponse i entity)
  | DisableDelegation i _ => Ok (DisableDelegation i entity)
  | RequestAuthority i _ => Ok (RequestAuthority i entity)
  | ReleaseAuthority i _ => Ok (ReleaseAuthority i entity)
  | SetAuthority i _ st => Ok (SetAuthority i entity st)
  | MigrateResponse i _ other => Ok (MigrateResponse i entity other)
  | Noop => Panic
  end.

Definition get_type (m : EntityMessage E) : EntityMessageType :=
  match m with
  | Spawn _ => TSpawn
  | SpawnWithComponents _ _ => TSpawnWithComponents
  | Despawn _ => TDespawn
  | InsertComponent _ _ => TInsertComponent
  | RemoveComponent _ _ => TRemoveComponent
  | Publish _ _ => TPublish
  | Unpublish _ _ => TUnpublish
  | EnableDelegation _ _ => TEnableDelegation
  | EnableDelegationResponse _ _ => TEnableDelegationResponse
  | DisableDelegation _ _ => TDisableDelegation
  | RequestAuthority _ _ => TRequestAuthority
  | ReleaseAuthority _ _ => TReleaseAuthority
  | SetAuthority _ _ _ => TSetAuthority
  | MigrateResponse _ _ _ => TMigrateResponse
  | Noop => TNoop
  end.

Definition subcommand_id (m : EntityMessage E) : option SubCommandId :=
  match m with
  | Publish i _ | Unpublish i _ | EnableDelegation i _ | EnableDelegationResponse i _
  | DisableDelegation i _ | RequestAuthority i _ | ReleaseAuthority i _ | SetAuthority i _ _
  | MigrateResponse i _ _ => Some i
  | _ => None
  end.

End Messages.

(** [strip_entity] is [with_entity] at the unit type, arm by arm. *)
Definition strip_entity {E} (m : EntityMessage E) : res (EntityMessage unit) :=
  match m with
  | Spawn _ => Ok (Spawn tt)
  | SpawnWithComponents _ kinds => Ok (SpawnWithComponents tt kinds)
  | Despawn _ => Ok (Despawn tt)
  | InsertComponent _ k => Ok (InsertComponent tt k)
  | RemoveComponent _ k => Ok (RemoveComponent tt k)
  | Publish i _ => Ok (Publish i tt)
  | Unpublish i _ => Ok (Unpublish i tt)
  | EnableDelegation i _ => Ok (EnableDelegation i tt)
  | EnableDelegationResponse i _ => Ok (EnableDelegationResponse i tt)
  | DisableDelegation i _ => Ok (DisableDelegation i tt)
  | RequestAuthority i _ => Ok (RequestAuthority i tt)
  | ReleaseAuthority i _ => Ok (ReleaseAuthority i tt)
  | SetAuthority i _ st => Ok (SetAuthority i tt st)
  | MigrateResponse i _ other => Ok (MigrateResponse i tt other)
  | Noop => Panic
  end.

Definition with_component_kind (t : EntityMessageType) (k : ComponentKind) : res (EntityMessage unit) :=
  match t with
  | TInsertComponent => Ok (InsertComponent tt k)
  | TRemoveComponent => Ok (RemoveComponent tt k)
  | _ => Panic
  end.

(** * Commands *)
Inductive EntityCommand :=
| CSpawn (e : GlobalEntity)
| CSpawnWithComponents (e : GlobalEntity) (kinds : list ComponentKind)
| CDespawn (e : GlobalEntity)
| CInsertComponent (e : GlobalEntity) (kind : ComponentKind)
| CRemoveComponent (e : GlobalEntity) (kind : ComponentKind)
| CPublish (sub : option SubCommandId) (e : GlobalEntity)
| CUnpublish (sub : option SubCommandId) (e : GlobalEntity)
| CEnableDelegation (sub : option SubCommandId) (e : GlobalEntity)
| CDisableDelegation (sub : option SubCommandId) (e : GlobalEntity)
| CSetAuthority (sub : option SubCommandId) (e : GlobalEntity) (status : EntityAuthStatus)
| CRequestAuthority (sub : option SubCommandId) (e : GlobalEntity)
| CReleaseAuthority (sub : option SubCommandId) (e : GlobalEntity)
| CEnableDelegationResponse (sub : option SubCommandId) (e : GlobalEntity)
| CMigrateResponse (sub : option SubCommandId) (e : GlobalEntity) (old_remote : RemoteEntity) (new_host : HostEntity).

#[global] Instance EntityCommand_eq_dec : EqDecision EntityCommand.
Proof. solve_decision. Defined.

Definition EntityCommand_entity (c : EntityCommand) : GlobalEntity :=
  match c with
  | CSpawn e | CSpawnWithComponents e _ | CDespawn e | CInsertComponent e _ | CRemoveComponent e _
  | CPublish _ e | CUnpublish _ e | CEnableDelegation _ e | CDisableDelegation _ e
  | CSetAuthority _ e _ | CRequestAuthority _ e | CReleaseAuthority _ e
  | CEnableDelegationResponse _ e | CMigrateResponse _ e _ _ => e
  end.

Definition EntityCommand_component_kind (c : EntityCommand) : option ComponentKind :=
  match c with CInsertComponent _ k | CRemoveComponent _ k => Some k | _ => None end.

Definition EntityCommand_get_type (c : EntityCommand) : EntityMessageType :=
  match c with
  | CSpawn _ => TSpawn
  | CSpawnWithComponents _ _ => TSpawnWithComponents
  | CDespawn _ => TDespawn
  | CInsertComponent _ _ => TInsertComponent
  | CRemoveComponent _ _ => TRemoveComponent
  | CPublish _ _ => TPublish
  | CUnpublish _ _ => TUnpublish
  | CEnableDelegation _ _ => TEnableDelegation
  | CDisableDelegation _ _ => TDisableDelegation
  | CSetAuthority _ _ _ => TSetAuthority
  | CRequestAuthority _ _ => TRequestAuthority
  | CReleaseAuthority _ _ => TReleaseAuthority
  | CEnableDelegationResponse _ _ => TEnableDelegationResponse
  | CMigrateResponse _ _ _ _ => TMigrateResponse
  end.

Definition set_subcommand_id (id : SubCommandId) (c : EntityCommand) : res EntityCommand :=
  match c with
  | CSpawn _ | CSpawnWithComponents _ _ | CDespawn _ | CInsertComponent _ _ | CRemoveComponent _ _ => Panic
  | CPublish _ e => Ok (CPublish (Some id) e)
  | CUnpublish _ e => Ok (CUnpublish (Some id) e)
  | CEnableDelegation _ e => Ok (CEnableDelegation (Some id) e)
  | CDisableDelegation _ e => Ok (CDisableDelegation (Some id) e)
  | CSetAuthority _ e st => Ok (CSetAuthority (Some id) e st)
  | CRequestAuthority _ e => Ok (CRequestAuthority (Some id) e)
  | CReleaseAuthority _ e => Ok (CReleaseAuthority (Some id) e)
  | CEnableDelegationResponse _ e => Ok (CEnableDelegationResponse (Some id) e)
  | CMigrateResponse _ e r h => Ok (CMigrateResponse (Some id) e r h)
  end.

Definition is_valid_for_remote_entity (c : EntityCommand) : bool :=
  match c with
  | CPublish _ _ | CUnpublish _ _ | CEnableDelegation _ _ | CDisableDelegation _ _ => false
  | CInsertComponent _ _ | CRemoveComponent _ _ | CDespawn _ => true
  | _ => false
  end.

(** [strip_entity] and [with_entity] only replace the entity. *)
Lemma strip_with_entity {E} (m : EntityMessage E) e :
  EntityMessage_entity m = Some e ->
  exists m', strip_entity m = Ok m' /\ with_entity m' e = Ok m /\ get_type m' = get_type m /\
    EntityMessage_component_kind m' = EntityMessage_component_kind m /\ subcommand_id m' = subcommand_id m.
Proof. destruct m; cbn; intros [= ->]; repeat (eexists || split). Qed.
