(* ===== verification/MessageManager.v ===== *)
(** All channels of a connection: src/shared/src/messages/message_manager.rs.

    [K] is the type of channel kinds; where the code walks a HashMap the order is an
    argument ([iter]).  The theorem at the end says that the message part of a packet is
    transparent: reading it does to the receivers what handing them the written messages
    would do. *)

From Stdlib Require Import ZArith Lia String.
From stdpp Require Import base list numbers gmap countable sorting.
From S2P Require Import Prelude Wrapping BitIO Number Serde Wire Kinds Fragments Reliable MessageWire Channels EntityTypes.

Section Manager.
Context {K : Type} `{Countable K} {U E : Type} (sc : Serde (Container U)).
Context (relations_waiting : Container U -> option E) (relations_complete : Container U -> Container U).

Record MessageManager : Type := mkMessageManager {
  channel_senders : gmap K (MessageChannelSender U);
  channel_receivers : gmap K (MessageChannelReceiver U E);
  channel_settings : gmap K ChannelSettings;
  packet_to_message_map : gmap Z (list (K * list Z));
  message_fragmenter : Z }.

Definition set_sender (k : K) (s : MessageChannelSender U) (mm : MessageManager) : MessageManager :=
  mkMessageManager (<[k := s]> (channel_senders mm)) (channel_receivers mm) (channel_settings mm)
    (packet_to_message_map mm) (message_fragmenter mm).

Definition set_receiver (k : K) (r : MessageChannelReceiver U E) (mm : MessageManager) : MessageManager :=
  mkMessageManager (channel_senders mm) (<[k := r]> (channel_receivers mm)) (channel_settings mm)
    (packet_to_message_map mm) (message_fragmenter mm).

(** * [new]: the sender and the receiver a channel gets, if any *)
Definition new_sender (host_type : HostType) (s : ChannelSettings) : option (MessageChannelSender U) :=
  if negb (match host_type with Server => can_send_to_client s | Client => can_send_to_server s end)
  then None
  else match mode s with
  | UnorderedUnreliable => Some (UnorderedUnreliableSender [])
  | SequencedUnreliable => Some (SequencedSender SequencedUnreliableSender_new)
  | UnorderedReliable st | SequencedReliable st | OrderedReliable st =>
      Some (ReliableMessageSender (ReliableSender_new (rs_max_queue_depth st)) RequestSender_new)
  | TickBuffered _ => None
  end.

Definition new_receiver (host_type : HostType) (s : ChannelSettings)
  : option (MessageChannelReceiver U E) :=
  if negb (match host_type with Server => can_send_to_server s | Client => can_send_to_client s end)
  then None
  else match mode s with
  | UnorderedUnreliable => Some (UnorderedUnreliableReceiver [] [])
  | SequencedUnreliable => Some (SequencedUnreliableReceiver None [] [])
  | UnorderedReliable st =>
      Some (ReliableReceiver_ (with_arranger_and_cap Unordered (max_messages_per_tick st)))
  | SequencedReliable st =>
      Some (ReliableReceiver_ (with_arranger_and_cap (Sequenced (mkSequencedArranger 0))
              (max_messages_per_tick st)))
  | OrderedReliable st =>
      Some (ReliableReceiver_ (with_arranger_and_cap (Ordered OrderedArranger_new)
              (max_messages_per_tick st)))
  | TickBuffered _ => None
  end.

Definition MessageManager_new (host_type : HostType) (cks : ChannelKinds K ChannelSettings)
  : MessageManager :=
  let settings := (fun e : Z * ChannelSettings * string => snd (fst e)) <$> kind_map cks in
  mkMessageManager (omap (new_sender host_type) settings) (omap (new_receiver host_type) settings)
    settings ∅ 0.

(** * Outgoing messages *)
Definition MessageManager_send_message (channel_kind : K) (message : Container U) (mm : MessageManager)
  : res (bool * MessageManager) :=
  channel ← unwrap (channel_senders mm !! channel_kind);
  message_bit_length ← bit_length sc message;
  if FRAGMENTATION_LIMIT_BITS <? message_bit_length then
    settings ← unwrap (channel_settings mm !! channel_kind);
    if negb (reliable settings) then Ok (false, mm) else
    '(messages, next) ← fragment_message sc (message_fragmenter mm) message;
    let '(all_accepted, channel') := foldl (fun '(ok, c) f =>
        let '(b, c') := sender_send_message (CFragment f) c in (ok && b, c'))
      (true, channel) messages in
    Ok (all_accepted, mkMessageManager (<[channel_kind := channel']> (channel_senders mm))
          (channel_receivers mm) (channel_settings mm) (packet_to_message_map mm) next)
  else
    let '(b, channel') := sender_send_message message channel in
    Ok (b, set_sender channel_kind channel' mm).

Definition MessageManager_send_request (now : Z) (channel_kind : K) (global_request_id : Z)
    (request : Container U) (mm : MessageManager) : res MessageManager :=
  channel ← unwrap (channel_senders mm !! channel_kind);
  channel' ← sender_send_request sc now global_request_id request channel;
  Ok (set_sender channel_kind channel' mm).

Definition MessageManager_send_response (channel_kind : K) (local_response_id : Z)
    (response : Container U) (mm : MessageManager) : res MessageManager :=
  channel ← unwrap (channel_senders mm !! channel_kind);
  channel' ← sender_send_response sc local_response_id response channel;
  Ok (set_sender channel_kind channel' mm).

(** [resend_duration k] is the resend factor of the channel times the round-trip time. *)
Definition collect_outgoing_messages (now : Z) (resend_duration : K -> Z) (mm : MessageManager)
  : MessageManager :=
  mkMessageManager
    (map_imap (fun k s => Some (sender_collect_messages now (resend_duration k) s)) (channel_senders mm))
    (channel_receivers mm) (channel_settings mm) (packet_to_message_map mm) (message_fragmenter mm).

Definition has_outgoing_messages (iter : list K) (mm : MessageManager) : bool :=
  existsb (fun k => match channel_senders mm !! k with
                    | Some s => sender_has_messages s | None => false end) iter.

(** ** Channels in descending criticality, a stable sort *)
Definition channel_gain (mm : MessageManager) (k : K) : Z :=
  match channel_settings mm !! k with Some s => base_gain (criticality s) | None => 10 end.

Fixpoint insert_by_gain (gain : K -> Z) (k : K) (l : list K) : list K :=
  match l with
  | [] => [k]
  | k' :: l' => if gain k <=? gain k' then k' :: insert_by_gain gain k l' else k :: l
  end.

Definition order_channels (gain : K -> Z) (iter : list K) : list K :=
  foldl (fun l k => insert_by_gain gain k l) [] iter.

(** ** Writing *)
Definition track_packet (packet_index : Z) (k : K) (indices : option (list Z)) (mm : MessageManager)
  : MessageManager :=
  match indices with
  | None => mm
  | Some message_indices =>
      let channel_list := default [] (packet_to_message_map mm !! packet_index) in
      mkMessageManager (channel_senders mm) (channel_receivers mm) (channel_settings mm)
        (<[packet_index := channel_list ++ [(k, message_indices)]]> (packet_to_message_map mm))
        (message_fragmenter mm)
  end.

(** The loop over the channels; it ends early when not even a channel tag fits. *)
Fixpoint write_channels (cks : ChannelKinds K ChannelSettings) (packet_index : Z) (ordered : list K)
    (mm : MessageManager) (writer : BitWriter) (has_written : bool)
  : res (MessageManager * BitWriter * bool) :=
  match ordered with
  | [] => Ok (mm, writer, has_written)
  | k :: ordered' =>
      channel ← unwrap (channel_senders mm !! k);
      if negb (sender_has_messages channel)
      then write_channels cks packet_index ordered' mm writer has_written
      else
        counter ← write_bit false (BitWriter_counter writer);
        counter ← write_bit false counter;
        counter ← Kind_ser cks k counter;
        if BitCounter_overflowed counter then Ok (mm, writer, has_written) else
        writer ← BitWriter_reserve_bits 1 writer;
        writer ← write_bit true writer;
        writer ← Kind_ser cks k writer;
        '(indices, channel', writer, has_written) ← sender_write_messages sc channel writer has_written;
        let mm := track_packet packet_index k indices (set_sender k channel' mm) in
        writer ← BitWriter_release_bits 1 writer;
        writer ← write_bit false writer;
        write_channels cks packet_index ordered' mm writer has_written
  end.

Definition MessageManager_write_messages (cks : ChannelKinds K ChannelSettings) (iter : list K)
    (packet_index : Z) (mm : MessageManager) (writer : BitWriter) (has_written : bool)
  : res (MessageManager * BitWriter * bool) :=
  let ordered := order_channels (channel_gain mm) iter in
  '(mm, writer, has_written) ← write_channels cks packet_index ordered mm writer has_written;
  writer ← BitWriter_release_bits 1 writer;
  writer ← write_bit false writer;
  Ok (mm, writer, has_written).

(** * Incoming messages: the manager afterwards, and the rest of the packet or the error *)
Fixpoint read_channels (cks : ChannelKinds K ChannelSettings) (fuel : nat) (mm : MessageManager)
    (r : BitReader) : res (MessageManager * option BitReader) :=
  match fuel with
  | O => Diverge
  | S fuel' =>
      o ← catch (de bool_serde r);
      match o with
      | None => Ok (mm, None)
      | Some (false, r1) => Ok (mm, Some r1)
      | Some (true, r1) =>
          o ← catch (Kind_de cks r1);
          match o with
          | None => Ok (mm, None)
          | Some (k, r2) =>
              match channel_receivers mm !! k with
              | None => Ok (mm, None)
              | Some channel =>
                  '(channel', o) ← receiver_read_messages sc relations_waiting r2 channel;
                  match o with
                  | None => Ok (set_receiver k channel' mm, None)
                  | Some r3 => read_channels cks fuel' (set_receiver k channel' mm) r3
                  end
              end
          end
      end
  end.

Definition MessageManager_read_messages (cks : ChannelKinds K ChannelSettings) (mm : MessageManager)
    (r : BitReader) : res (MessageManager * option BitReader) :=
  read_channels cks (chunk_fuel r) mm r.

(** [receive_messages] of one channel; [ready] is what [collect_ready_items] returned. *)
Definition receiver_receive_messages (ready : list (Z * Z * Container U)) (rcv : MessageChannelReceiver U E)
  : res (list (Container U) * MessageChannelReceiver U E) :=
  match rcv with
  | UnorderedUnreliableReceiver inc wait =>
      Ok (inc ++ map (fun '(_, _, m) => relations_complete m) ready, UnorderedUnreliableReceiver [] wait)
  | SequencedUnreliableReceiver newest inc wait =>
      let '(newest', inc') := foldl (fun '(n, l) '(i, _, m) =>
          SequencedUnreliable_arrange_message i (relations_complete m) n l) (newest, inc) ready in
      Ok (inc', SequencedUnreliableReceiver newest' [] wait)
  | ReliableReceiver_ rr =>
      '(out, rr') ← ReliableMessageReceiver_receive_messages sc relations_complete ready rr;
      Ok (out, ReliableReceiver_ rr')
  end.

Definition MessageManager_receive_messages (iter : list K) (ready : K -> list (Z * Z * Container U))
    (mm : MessageManager) : res (list (K * list (Container U)) * MessageManager) :=
  foldM (fun k '(output, mm) =>
    rcv ← unwrap (channel_receivers mm !! k);
    '(messages, rcv') ← receiver_receive_messages (ready k) rcv;
    Ok (output ++ [(k, messages)], set_receiver k rcv' mm)) iter ([], mm).

(** The requests and responses of one channel; the unreliable ones are never asked. *)
Definition receiver_take_requests (rcv : MessageChannelReceiver U E)
  : res (list (Z * Container U) * list (Z * Container U) * MessageChannelReceiver U E) :=
  match rcv with
  | ReliableReceiver_ rr =>
      Ok (incoming_requests rr, incoming_responses rr,
          ReliableReceiver_ (E := E) (mkReliableMessageReceiver (reliable_receiver rr) (rm_incoming_messages rr)
            (arranger rr) (fragment_receiver rr) (rm_waiting rr) [] [] (rm_max_messages_per_tick rr)))
  | _ => Panic
  end.

Definition receive_requests_and_responses (now : Z) (iter : list K) (mm : MessageManager)
  : res (list (K * list (Z * Container U)) * list (Z * Container U) * MessageManager) :=
  foldM (fun k '(request_output, response_output, mm) =>
    settings ← unwrap (channel_settings mm !! k);
    if negb (can_request_and_respond settings) then Ok (request_output, response_output, mm) else
    rcv ← unwrap (channel_receivers mm !! k);
    '(requests, responses, rcv') ← receiver_take_requests rcv;
    let mm := set_receiver k rcv' mm in
    let request_output :=
      match requests with [] => request_output | _ => request_output ++ [(k, requests)] end in
    '(response_output, mm) ←
      match responses with
      | [] => Ok (response_output, mm)
      | _ =>
        sender ← unwrap (channel_senders mm !! k);
        '(out, sender') ← foldM (fun '(local_request_id, response) '(out, sender) =>
            '(global, sender') ← sender_process_incoming_response now local_request_id sender;
            global_request_id ← unwrap global;
            Ok (out ++ [(global_request_id, response)], sender')) responses (response_output, sender);
        Ok (out, set_sender k sender' mm)
      end;
    Ok (request_output, response_output, mm)) iter ([], [], mm).

(** * [notify_packet_delivered] *)
Definition notify_packet_delivered (packet_index : Z) (mm : MessageManager) : MessageManager :=
  match packet_to_message_map mm !! packet_index with
  | None => mm
  | Some channel_list =>
      foldl (fun mm '(k, message_indices) =>
        match channel_senders mm !! k with
        | None => mm
        | Some channel =>
            set_sender k (foldl (fun c i => sender_notify_delivered i c) channel message_indices) mm
        end) mm channel_list
  end.
End Manager.

(** * A channel in a packet *)
Inductive section (U : Type) : Type :=
| Plain (l : list (Container U))
| Indexed (l : list (Z * Container U)).
Arguments Plain {U} l.
Arguments Indexed {U} l.

Definition section_app {U} (a b : section U) : section U :=
  match a, b with
  | Plain l, Plain l' => Plain (l ++ l')
  | Indexed l, Indexed l' => Indexed (l ++ l')
  | _, _ => a
  end.

Definition section_indices {U} (s : section U) : option (list Z) :=
  match s with Plain _ => None | Indexed l => Some (map fst l) end.

Definition section_size {U} (s : section U) : nat :=
  match s with Plain l => length l | Indexed l => length l end.

(** What a sender has to write, and a receiver that can read it. *)
Definition sender_queue {U} (s : MessageChannelSender U) : section U :=
  match s with
  | UnorderedUnreliableSender q => Plain q
  | SequencedSender q => Indexed (su_outgoing_messages q)
  | ReliableMessageSender rs _ => Indexed (outgoing_messages rs)
  end.

Definition compatible {U E} (s : section U) (r : MessageChannelReceiver U E) : Prop :=
  match s, r with
  | Plain _, UnorderedUnreliableReceiver _ _ => True
  | Indexed _, SequencedUnreliableReceiver _ _ _ => True
  | Indexed _, ReliableReceiver_ _ => True
  | _, _ => False
  end.

Section Transparency.
Context {K : Type} `{Countable K} {U E : Type} (sc : Serde (Container U)) `{!Lawful sc}.
Context (relations_waiting : Container U -> option E).

Definition section_enc (s : section U) : list bool :=
  match s with Plain l => plain_enc sc l | Indexed l => run_enc sc None l end.

Definition section_ok (s : section U) : Prop :=
  match s with
  | Plain l => Forall (plain_sendable sc) l
  | Indexed l => ascending None l /\ Forall (sendable sc) l
  end.

(** The bits of the first message, zero for an empty queue. *)
Definition head_bits (s : section U) : Z :=
  match s with
  | Plain (m :: _) => Z.of_nat (length (true :: enc sc m))
  | Indexed ((i, m) :: _) => Z.of_nat (length (message_enc sc None i m))
  | _ => 0
  end.

(** Handing the messages of a section to a receiver without a packet. *)
Definition deliver_section (s : section U) (r : MessageChannelReceiver U E)
  : res (MessageChannelReceiver U E) :=
  match s, r with
  | Plain l, UnorderedUnreliableReceiver inc wait =>
      let '(inc', wait') := foldl (fun p m => unordered_recv_message relations_waiting m p) (inc, wait) l in
      Ok (UnorderedUnreliableReceiver inc' wait')
  | Indexed l, SequencedUnreliableReceiver newest inc wait =>
      let '(newest', inc', wait') :=
        foldl (fun p '(i, m) => sequenced_buffer_message relations_waiting i m p) (newest, inc, wait) l in
      Ok (SequencedUnreliableReceiver newest' inc' wait')
  | Indexed l, ReliableReceiver_ rr =>
      rr' ← foldM (fun '(i, m) rr => ReliableMessageReceiver_buffer_message sc relations_waiting i m rr) l rr;
      Ok (ReliableReceiver_ rr')
  | _, _ => Panic
  end.

Definition deliver_all (l : list (K * section U)) (mm : MessageManager (K := K) (U := U) (E := E))
  : res (MessageManager (K := K) (U := U) (E := E)) :=
  foldM (fun '(k, s) mm =>
    r ← unwrap (channel_receivers mm !! k);
    r' ← deliver_section s r;
    Ok (set_receiver k r' mm)) l mm.

Lemma extends_nil w w' : writer_ok w -> extends w [] w' -> w' = w.
Proof. intros Hw X. exact (extends_unique w [] w' w X (extends_refl w Hw)). Qed.

(** Something was written, unless there was nothing to write. *)
Lemma wrote_something {A} (hw : bool) (done rest : list A) (head_fits : Prop) :
  (hw = true \/ head_fits) -> (done = [] -> rest = [] \/ ~ head_fits) ->
  hw || negb (bool_decide (done = [])) = true \/ done ++ rest = [].
Proof.
  intros [->|Hf] Hd; [auto|]. case_bool_decide as Ed; [|rewrite orb_true_r; auto].
  destruct (Hd Ed) as [->|]; [|contradiction]. subst done. auto.
Qed.

Lemma indexed_write (q : list (Z * Container U)) w hw :
  section_ok (Indexed q) -> writer_ok w -> bw_current_bits w <= bw_max_bits w <= MTU_SIZE_BITS ->
  (hw = true \/ bw_current_bits w + head_bits (Indexed q) <= bw_max_bits w) ->
  exists done rest w' hw',
    IndexedMessageWriter_write_messages sc q w hw = Ok (map fst done, rest, w', hw') /\
    q = done ++ rest /\ (hw' = true \/ q = []) /\ (hw = true -> hw' = true) /\
    section_ok (Indexed done) /\ extends w (section_enc (Indexed done)) w' /\
    bw_current_bits w' <= bw_max_bits w'.
Proof.
  intros [Ha Hv] Hw Hb Hhw.
  destruct (write_loop_spec sc q None [] w hw Ha Hv Hw Hb) as (done & rest & w' & -> & Ew & X & B & F).
  { destruct Hhw as [->|Hhw]; [auto|right]. destruct q as [|[i m] q]; [exact I|]. apply Z.leb_le. exact Hhw. }
  exists done, rest, w', (hw || negb (bool_decide (done = []))).
  split; [exact Ew|]. split; [reflexivity|]. split; [|split; [now intros ->|split; [|auto]]].
  - apply (wrote_something hw done rest _ Hhw). intros ->. destruct rest as [|[i m] rest]; [auto|right].
    cbn [run_enc] in X. rewrite (extends_nil w w' Hw X) in F. cbn [full_after map List.last] in F.
    unfold fits in F. cbn [app head_bits]. bools. lia.
  - split; [|now apply Forall_app in Hv as [? _]]. revert Ha. generalize (@None MessageIndex). clear.
    induction done as [|[i m] done IH]; intros last; cbn; [auto|]. intros [Hs Ha]. eauto.
Qed.

Lemma sender_write_spec (s : MessageChannelSender U) w hw :
  section_ok (sender_queue s) -> writer_ok w -> bw_current_bits w <= bw_max_bits w <= MTU_SIZE_BITS ->
  (hw = true \/ bw_current_bits w + head_bits (sender_queue s) <= bw_max_bits w) ->
  exists done s' w' hw',
    sender_write_messages sc s w hw = Ok (section_indices done, s', w', hw') /\
    sender_queue s = section_app done (sender_queue s') /\
    (hw' = true \/ section_size (sender_queue s) = 0%nat) /\ (hw = true -> hw' = true) /\
    section_ok done /\ (forall r : MessageChannelReceiver U E, compatible done r <-> compatible (sender_queue s) r) /\
    extends w (section_enc done) w' /\ bw_current_bits w' <= bw_max_bits w'.
Proof.
  intros Hok Hw Hb Hhw. destruct s as [q|q|rs rq]; cbn [sender_queue section_size] in *.
  - destruct (plain_write_spec sc q w hw Hok Hw Hb) as (done & rest & w' & -> & Ew & X & B & F).
    { destruct Hhw as [->|Hhw]; [auto|right]. destruct q; [exact I|]. apply Z.leb_le. exact Hhw. }
    exists (Plain done), (UnorderedUnreliableSender rest), w', (hw || negb (bool_decide (done = []))).
    cbn [sender_write_messages]. rewrite Ew. split; [reflexivity|]. split; [reflexivity|].
    split; [|split; [now intros ->|split; [|split; [intros []; cbn; tauto|auto]]]].
    + rewrite length_zero_iff_nil. apply (wrote_something hw done rest _ Hhw). intros ->.
      destruct rest as [|m rest]; [auto|right]. rewrite (extends_nil w w' Hw X) in F. unfold fits in F.
      cbn [app head_bits]. bools. lia.
    + now apply Forall_app in Hok as [? _].
  - destruct (indexed_write _ w hw Hok Hw Hb Hhw) as (done & rest & w' & hw' & Ew & Eq & H1 & H2 & H3 & X & B).
    exists (Indexed done), (SequencedSender (mkSequencedUnreliableSender rest (su_next_send_message_index q))), w', hw'.
    cbn [sender_write_messages]. unfold SequencedUnreliableSender_write_messages. rewrite Ew.
    rewrite length_zero_iff_nil. split; [reflexivity|]. cbn [sender_queue su_outgoing_messages section_app].
    rewrite Eq at 1. split; [reflexivity|]. repeat (split; [assumption|]). split; [intros []; cbn; tauto|auto].
  - destruct (indexed_write _ w hw Hok Hw Hb Hhw) as (done & rest & w' & hw' & Ew & Eq & H1 & H2 & H3 & X & B).
    eexists (Indexed done), (ReliableMessageSender _ rq), w', hw'.
    cbn [sender_write_messages]. unfold ReliableMessageSender_write_messages. rewrite Ew.
    rewrite length_zero_iff_nil. split; [reflexivity|]. cbn [sender_queue outgoing_messages section_app].
    rewrite Eq at 1. split; [reflexivity|]. repeat (split; [assumption|]). split; [intros []; cbn; tauto|auto].
Qed.

(** * Reading a section back *)
Lemma unordered_read_spec fuel l p rest r :
  Forall (fun m => valid sc m) l -> (length l < fuel)%nat -> reader_ok r ->
  br_bits r = plain_enc sc l ++ false :: rest ->
  exists r', unordered_read_messages sc relations_waiting fuel p r =
      Ok (foldl (fun p m => unordered_recv_message relations_waiting m p) p l, Some r') /\
    reader_ok r' /\ br_bits r' = rest.
Proof.
  revert l p r. induction fuel as [|fuel IH]; intros l p r Hv Hf Hr Eb; [lia|].
  cbn [unordered_read_messages de bool_serde]. destruct l as [|m l].
  - destruct (read_bit_enc false rest r Hr Eb) as (r' & -> & O & B). exists r'. auto.
  - apply Forall_cons_1 in Hv as [Hm Hv]. unfold plain_enc in Eb. cbn [map concat] in Eb.
    rewrite <- !app_comm_cons, <- app_assoc in Eb.
    destruct (read_bit_enc true _ r Hr Eb) as (r1 & -> & O1 & B1). cbn [catch]. rewrite bind_ok.
    destruct (de_enc m _ r1 Hm O1 B1) as (r2 & -> & O2 & B2). cbn [catch]. rewrite bind_ok.
    destruct (IH l (unordered_recv_message relations_waiting m p) r2 Hv ltac:(cbn in Hf; lia) O2 B2)
      as (r' & -> & O & B). exists r'. auto.
Qed.

Lemma section_read s (rcv : MessageChannelReceiver U E) rest r :
  section_ok s -> compatible s rcv -> reader_ok r -> br_bits r = section_enc s ++ false :: rest ->
  exists r', receiver_read_messages sc relations_waiting r rcv =
      (rcv' ← deliver_section s rcv; Ok (rcv', Some r')) /\ reader_ok r' /\ br_bits r' = rest.
Proof.
  intros Hok Hc Hr Eb. pose proof (chunk_fuel_enough r Hr) as Hf. rewrite Eb, length_app in Hf.
  destruct s as [l|l]; cbn [section_enc section_ok] in *.
  - destruct rcv as [inc wait| |]; try contradiction. pose proof (plain_enc_length sc l).
    destruct (unordered_read_spec (chunk_fuel r) l (inc, wait) rest r) as (r' & Er & O & B);
      [eapply Forall_impl; [exact Hok|]; now intros m [Hm _]|lia|exact Hr|exact Eb|].
    exists r'. cbn [receiver_read_messages deliver_section]. rewrite Er, bind_ok.
    destruct (foldl _ (inc, wait) l) as [inc' wait']. auto.
  - destruct Hok as [Ha Hv]. pose proof (run_enc_length sc None l).
    destruct (read_run_enc sc (chunk_fuel r) None [] l rest r Ha) as (r' & Er & O & B);
      [eapply Forall_impl; [exact Hv|]; now intros m [Hm _]|lia|exact Hr|exact Eb|].
    exists r'. split; [|auto]. destruct rcv as [|newest inc wait|rr]; try contradiction;
      cbn [receiver_read_messages deliver_section]; unfold IndexedMessageReader_read_messages;
      rewrite Er; cbn [catch app]; rewrite bind_ok.
    + destruct (foldl _ (newest, inc, wait) l) as [[? ?] ?]. reflexivity.
    + now destruct (foldM _ l rr).
Qed.

Lemma deliver_compatible s (rcv rcv' : MessageChannelReceiver U E) s2 :
  deliver_section s rcv = Ok rcv' -> compatible s2 rcv -> compatible s2 rcv'.
Proof.
  intros Ed Hc. destruct s as [l|l], rcv as [inc wait|newest inc wait|rr]; cbn [deliver_section] in Ed; try discriminate.
  - destruct (foldl _ (inc, wait) l). injection Ed as <-. exact Hc.
  - destruct (foldl _ (newest, inc, wait) l) as [[? ?] ?]. injection Ed as <-. exact Hc.
  - apply bind_ok_inv in Ed as (rr' & _ & [= <-]). exact Hc.
Qed.

(** * The whole message part of a packet *)
Context (cks : ChannelKinds K ChannelSettings) (mk : K -> ChannelSettings) (Hcks : kinds_ok mk cks).
Abbreviation Manager := (MessageManager (K := K) (U := U) (E := E)).

Definition channel_enc (ks : K * section U) : list bool :=
  true :: tag_enc cks (fst ks) ++ section_enc (snd ks) ++ [false].

Definition packet_enc (secs : list (K * section U)) : list bool := concat (map channel_enc secs).

Definition tracked (ks : K * section U) : option (K * list Z) := pair (fst ks) <$> section_indices (snd ks).

(** [secs] is what left the queues of [mm], which became [mm'], for packet [p]. *)
Record packet_part (p : Z) (mm mm' : Manager) (secs : list (K * section U)) : Prop := {
  pp_keys : NoDup secs.*1;
  pp_ok : Forall (fun ks => section_ok (snd ks) /\ is_Some (kind_map cks !! fst ks)) secs;
  pp_sent : forall k sec, (k, sec) ∈ secs -> exists s s',
    channel_senders mm !! k = Some s /\ channel_senders mm' !! k = Some s' /\
    sender_queue s = section_app sec (sender_queue s') /\
    (forall r : MessageChannelReceiver U E, compatible sec r <-> compatible (sender_queue s) r);
  pp_rest : forall k, k ∉ secs.*1 -> channel_senders mm' !! k = channel_senders mm !! k;
  pp_track : default [] (packet_to_message_map mm' !! p) =
    default [] (packet_to_message_map mm !! p) ++ omap tracked secs;
  pp_others : forall q, q <> p -> packet_to_message_map mm' !! q = packet_to_message_map mm !! q;
  pp_receivers : channel_receivers mm' = channel_receivers mm;
}.

Lemma packet_part_nil p mm : packet_part p mm mm [].
Proof.
  constructor; try done; try apply NoDup_nil_2; try (now rewrite app_nil_r).
  intros k sec Hin. now apply elem_of_nil in Hin.
Qed.

Lemma packet_part_cons p mm mm' k s s' sec secs :
  channel_senders mm !! k = Some s -> sender_queue s = section_app sec (sender_queue s') ->
  (forall r : MessageChannelReceiver U E, compatible sec r <-> compatible (sender_queue s) r) ->
  section_ok sec -> is_Some (kind_map cks !! k) -> k ∉ secs.*1 ->
  packet_part p (track_packet p k (section_indices sec) (set_sender k s' mm)) mm' secs ->
  packet_part p mm mm' ((k, sec) :: secs).
Proof.
  intros Hs Hq Hc Hok Hk Hni [P1 P2 P3 P4 P5 P6 P7]. set (mm1 := track_packet p k _ _) in *.
  assert (channel_senders mm1 = <[k := s']> (channel_senders mm)) as E1 by (unfold mm1; destruct sec; reflexivity).
  constructor.
  - apply NoDup_cons_2; assumption.
  - apply Forall_cons_2; auto.
  - intros k2 sec2 Hin. apply elem_of_cons in Hin as [[= -> ->]|Hin].
    + exists s, s'. rewrite P4, E1, lookup_insert_eq by exact Hni. auto.
    + destruct (P3 k2 sec2 Hin) as (t & t' & Ht & Ht'). exists t, t'. rewrite E1 in Ht.
      rewrite lookup_insert_ne in Ht; [auto|]. intros <-. apply Hni, list_elem_of_fmap. now exists (k, sec2).
  - intros k2 Hk2. rewrite fmap_cons, not_elem_of_cons in Hk2. destruct Hk2 as [Hne Hk2].
    rewrite P4, E1 by exact Hk2. now apply lookup_insert_ne.
  - rewrite P5. unfold mm1. destruct sec as [l|l].
    + reflexivity.
    + cbn [section_indices track_packet packet_to_message_map set_sender]. rewrite lookup_insert_eq.
      change (default [] (Some ?x)) with x. now rewrite <- app_assoc.
  - intros q Hq'. rewrite P6 by exact Hq'. unfold mm1. destruct sec; [reflexivity|].
    cbn [section_indices track_packet packet_to_message_map set_sender]. now apply lookup_insert_ne.
  - rewrite P7. unfold mm1. now destruct sec.
Qed.

Lemma set_max_ok w m : writer_ok w -> writer_ok (bw_set_max w m).
Proof. intros [H1 H2 H3 H4 H5 H6 H7]. constructor; assumption. Qed.

(** Writing the frame of one channel: its tag, its messages, the end bit. *)
Lemma tag_write k w l :
  is_Some (kind_map cks !! k) -> writer_ok w ->
  (w1 ← write_bits l w; Kind_ser cks k w1) = write_bits (l ++ tag_enc cks k) w.
Proof.
  intros Hk Hw. rewrite write_bits_app. destruct (write_bits l w) as [w1| | |] eqn:E1; try reflexivity.
  rewrite !bind_ok. apply (ser_enc (Lawful := kind_lawful mk cks Hcks) BitWriter k w1 Hk).
  exact (write_bits_wok l w w1 Hw E1).
Qed.

Lemma tag_count k w l :
  is_Some (kind_map cks !! k) -> 0 <= bc_current_bits w < 2 ^ 32 ->
  (w1 ← write_bits l w; Kind_ser cks k w1) = write_bits (l ++ tag_enc cks k) w.
Proof.
  intros Hk Hw. rewrite write_bits_app. destruct (write_bits l w) as [w1| | |] eqn:E1; try reflexivity.
  rewrite !bind_ok. apply (ser_enc (Lawful := kind_lawful mk cks Hcks) BitCounter k w1 Hk).
  exact (write_bits_wok l w w1 Hw E1).
Qed.

Definition tag_bits_len : Z := kind_bit_width cks.

Lemma tag_length k : Z.of_nat (length (tag_enc cks k)) = tag_bits_len.
Proof. unfold tag_enc. rewrite length_to_bits. apply (width_nat mk cks Hcks). Qed.

Definition channel_room (w : BitWriter) (s : MessageChannelSender U) : Prop :=
  bw_current_bits w + 1 + tag_bits_len + head_bits (sender_queue s) <= bw_max_bits w - 1.

Lemma channel_write_spec k s w hw :
  is_Some (kind_map cks !! k) -> section_ok (sender_queue s) -> writer_ok w ->
  bw_current_bits w + 2 + tag_bits_len <= bw_max_bits w -> bw_max_bits w < MTU_SIZE_BITS ->
  (hw = true \/ channel_room w s) ->
  exists sec s' w1 w2 w3 w4 w5 hw',
    BitWriter_reserve_bits 1 w = Ok w1 /\ write_bit true w1 = Ok w2 /\ Kind_ser cks k w2 = Ok w3 /\
    sender_write_messages sc s w3 hw = Ok (section_indices sec, s', w4, hw') /\
    BitWriter_release_bits 1 w4 = Ok w5 /\
    (exists w6, write_bit false w5 = Ok w6 /\ writer_ok w6 /\
       bw_bits w6 = bw_bits w ++ channel_enc (k, sec) /\ bw_max_bits w6 = bw_max_bits w /\
       bw_current_bits w6 <= bw_max_bits w6) /\
    sender_queue s = section_app sec (sender_queue s') /\ section_ok sec /\
    (forall r : MessageChannelReceiver U E, compatible sec r <-> compatible (sender_queue s) r) /\
    (hw' = true \/ section_size (sender_queue s) = 0%nat).
Proof.
  intros Hk Hs Hw Hr Hm Hhw. change MTU_SIZE_BITS with 3440 in Hm.
  pose proof (writer_ok_current w Hw) as Hc. pose proof (tag_length k) as Ht.
  set (w1 := bw_set_max w (bw_max_bits w - 1)). pose proof (set_max_ok w (bw_max_bits w - 1) Hw) as O1. fold w1 in O1.
  pose proof (write_bits_spec ([true] ++ tag_enc cks k) w1 O1 ltac:(done)) as P.
  rewrite length_app in P. cbn [length] in P.
  change (bw_current_bits w1) with (bw_current_bits w) in P. change (bw_max_bits w1) with (bw_max_bits w - 1) in P.
  rewrite !(proj2 (Z.leb_le _ _)) in P by lia. destruct P as (w3 & E3 & X3).
  pose proof (extends_current w1 _ w3 O1 X3) as C3. rewrite length_app in C3. cbn [length] in C3.
  change (bw_current_bits w1) with (bw_current_bits w) in C3.
  pose proof X3 as (O3 & B3 & M3 & _). change (bw_max_bits w1) with (bw_max_bits w - 1) in M3.
  change (bw_bits w1) with (bw_bits w) in B3.
  rewrite <- tag_write in E3 by assumption. apply bind_ok_inv in E3 as (w2 & E2 & E3).
  change (write_bits [true] w1) with (x ← write_bit true w1; Ok x) in E2.
  apply bind_ok_inv in E2 as (w2' & E2 & [= ->]).
  destruct (sender_write_spec s w3 hw Hs O3) as (sec & s' & w4 & hw' & E4 & Hq & Hwr & _ & Hsec & Hcomp & X4 & B4).
  { change MTU_SIZE_BITS with 3440. lia. }
  { destruct Hhw as [->|Hroom]; [auto|right]. unfold channel_room in Hroom. lia. }
  pose proof X4 as (O4 & Bits4 & M4 & _).
  assert (BitWriter_release_bits 1 w4 = Ok (bw_set_max w4 (bw_max_bits w))) as E5.
  { unfold BitWriter_release_bits. rewrite uadd_ok, bind_ok by lia. do 2 f_equal. lia. }
  pose proof (set_max_ok w4 (bw_max_bits w) O4) as O5. pose proof (write_bit_spec false _ O5) as P6.
  change (bw_current_bits (bw_set_max w4 (bw_max_bits w))) with (bw_current_bits w4) in P6.
  change (bw_max_bits (bw_set_max w4 (bw_max_bits w))) with (bw_max_bits w) in P6.
  rewrite !(proj2 (Z.leb_le _ _)) in P6 by lia. destruct P6 as (w6 & E6 & X6).
  pose proof (extends_current _ _ w6 O5 X6) as C6. cbn [length] in C6.
  change (bw_current_bits (bw_set_max w4 (bw_max_bits w))) with (bw_current_bits w4) in C6.
  destruct X6 as (O6 & B6 & M6 & _).
  exists sec, s', w1, w2, w3, w4, (bw_set_max w4 (bw_max_bits w)), hw'.
  split; [unfold BitWriter_reserve_bits; rewrite usub_ok by lia; reflexivity|].
  repeat (split; [assumption|]). split; [|auto].
  exists w6. split; [exact E6|]. split; [exact O6|]. split.
  - rewrite B6. change (bw_bits (bw_set_max w4 (bw_max_bits w))) with (bw_bits w4).
    rewrite Bits4, B3. unfold channel_enc. cbn [fst snd]. now rewrite <- !app_assoc.
  - split; [exact M6|]. rewrite M6, C6. change (bw_max_bits (bw_set_max w4 (bw_max_bits w))) with (bw_max_bits w). lia.
Qed.

Lemma packet_enc_length secs : (length secs <= length (packet_enc secs))%nat.
Proof.
  induction secs as [|ks secs IH]; [cbn; lia|]. unfold packet_enc in *. cbn [map concat].
  rewrite length_app. unfold channel_enc at 1. cbn [length]. lia.
Qed.

(** Every channel to be written is registered and has a well-formed queue. *)
Definition senders_ok (ordered : list K) (mm : Manager) : Prop :=
  forall k, k ∈ ordered -> exists s, channel_senders mm !! k = Some s /\
    section_ok (sender_queue s) /\ is_Some (kind_map cks !! k).

(** Nothing written yet: the first message of every queue fits the packet. *)
Definition heads_fit (ordered : list K) (mm : Manager) (w : BitWriter) (hw : bool) : Prop :=
  hw = true \/ forall k s, k ∈ ordered -> channel_senders mm !! k = Some s ->
    sender_has_messages s = true -> channel_room w s.

Lemma has_messages_size (s : MessageChannelSender U) :
  sender_has_messages s = negb (section_size (sender_queue s) =? 0)%nat.
Proof.
  destruct s as [[|m q]|q|rs rq]; cbn; try reflexivity.
  - now destruct (su_outgoing_messages q).
  - now destruct (outgoing_messages rs).
Qed.

Lemma senders_ok_step k ordered p indices s' (mm : Manager) :
  k ∉ ordered -> senders_ok (k :: ordered) mm ->
  senders_ok ordered (track_packet p k indices (set_sender k s' mm)).
Proof.
  intros Hk Hok k2 Hk2. destruct (Hok k2 ltac:(now right)) as (s & Hs & R). exists s. split; [|exact R].
  replace (channel_senders (track_packet p k indices (set_sender k s' mm))) with
    (<[k := s']> (channel_senders mm)) by (now destruct indices).
  rewrite lookup_insert_ne by congruence. exact Hs.
Qed.

Lemma write_channels_spec p ordered (mm : Manager) w hw :
  NoDup ordered -> senders_ok ordered mm -> writer_ok w ->
  bw_current_bits w <= bw_max_bits w < MTU_SIZE_BITS -> heads_fit ordered mm w hw ->
  exists secs mm' w' hw',
    write_channels sc cks p ordered mm w hw = Ok (mm', w', hw') /\
    packet_part p mm mm' secs /\ sublist secs.*1 ordered /\
    writer_ok w' /\ bw_bits w' = bw_bits w ++ packet_enc secs /\
    bw_max_bits w' = bw_max_bits w /\ bw_current_bits w' <= bw_max_bits w'.
Proof.
  intros Hnd. revert mm w hw. induction Hnd as [|k ordered Hk Hnd IH]; intros mm w hw Hok Hw Hb Hh.
  - exists [], mm, w, hw. split; [reflexivity|]. split; [apply packet_part_nil|].
    split; [constructor|]. split; [exact Hw|]. split; [now rewrite app_nil_r|lia].
  - cbn [write_channels]. destruct (Hok k ltac:(now left)) as (s & Hs & Hq & Hkk).
    rewrite Hs. cbn [unwrap]. rewrite bind_ok.
    destruct (sender_has_messages s) eqn:Ehm; cbn [negb].
    2: { destruct (IH mm w hw) as (secs & mm' & w' & hw' & Ew & P & Hsub & R); try assumption.
         - intros k2 Hk2. apply Hok. now right.
         - destruct Hh as [->|Hh]; [now left|right]. intros k2 s2 Hk2. apply Hh. now right.
         - exists secs, mm', w', hw'. split; [exact Ew|]. split; [exact P|]. split; [|exact R].
           now apply sublist_cons. }
    pose proof (writer_ok_current w Hw) as Hc. change MTU_SIZE_BITS with 3440 in Hb.
    pose proof (tag_length k) as Ht. pose proof (width_nat mk cks Hcks) as [_ Hwid].
    destruct (count_then_write ([false; false] ++ tag_enc cks k) w Hw) as (c & Ec & Eo & _).
    { change MTU_SIZE_BITS with 3440. lia. }
    { done. }
    { rewrite length_app. cbn [length]. unfold tag_enc. rewrite length_to_bits. lia. }
    rewrite <- tag_count in Ec by (exact Hkk || (cbn; lia)).
    change (write_bits [false; false] (BitWriter_counter w)) with
      (c1 ← write_bit false (BitWriter_counter w); c2 ← write_bit false c1; Ok c2) in Ec.
    rewrite !bind_assoc in Ec. rewrite <- bind_assoc.
    assert (forall c0 : BitCounter, (x ← (c2 ← write_bit false c0; Ok c2); Kind_ser cks k x) =
      (x ← write_bit false c0; Kind_ser cks k x)) as Hid by (intros c0; now destruct (write_bit false c0)).
    destruct (write_bit false (BitWriter_counter w)) as [c1| | |]; try discriminate Ec.
    rewrite !bind_ok in *. rewrite Hid in Ec.
    destruct (write_bit false c1) as [c2| | |]; try discriminate Ec. rewrite !bind_ok in *.
    rewrite Ec, bind_ok, Eo, length_app. cbn [length].
    destruct (Z.ltb_spec (bw_max_bits w) (bw_current_bits w + Z.of_nat (2 + length (tag_enc cks k)))) as [Hf|Hf].
    { exists [], mm, w, hw. split; [reflexivity|]. split; [apply packet_part_nil|].
      split; [apply sublist_nil_l|]. split; [exact Hw|]. split; [now rewrite app_nil_r|lia]. }
    destruct (channel_write_spec k s w hw Hkk Hq Hw ltac:(lia) ltac:(change MTU_SIZE_BITS with 3440; lia))
      as (sec & s' & w1 & w2 & w3 & w4 & w5 & hw' & E1 & E2 & E3 & E4 & E5 &
          (w6 & E6 & O6 & B6 & M6 & C6) & Hqs & Hsec & Hcomp & Hwr).
    { destruct Hh as [->|Hh]; [now left|right]. apply (Hh k s); [now left|exact Hs|exact Ehm]. }
    rewrite E1, bind_ok, E2, bind_ok, E3, bind_ok, E4, bind_ok, E5, bind_ok, E6, bind_ok.
    assert (hw' = true) as ->.
    { destruct Hwr as [|Hz]; [assumption|]. rewrite has_messages_size, Hz in Ehm. discriminate. }
    destruct (IH (track_packet p k (section_indices sec) (set_sender k s' mm)) w6 true)
      as (secs & mm' & w' & hw2 & Ew & P & Hsub & O & B & M & C).
    { now apply senders_ok_step. }
    { exact O6. }
    { change MTU_SIZE_BITS with 3440. lia. }
    { now left. }
    exists ((k, sec) :: secs), mm', w', hw2. split; [exact Ew|]. split.
    { apply (packet_part_cons p mm mm' k s s' sec secs); try assumption. intros Hin. apply Hk.
      exact (elem_of_sublist _ _ _ Hin Hsub). }
    split; [now apply sublist_skip|].
    split; [exact O|]. split; [|lia]. rewrite B, B6. unfold packet_enc. cbn [map concat]. now rewrite <- app_assoc.
Qed.

(** A peer whose channels are configured like the sender's. *)
Definition peer_ok (mm peer : Manager) : Prop :=
  forall k s, channel_senders mm !! k = Some s -> exists r, channel_receivers peer !! k = Some r /\
    compatible (sender_queue s) r.

Lemma read_channels_spec fuel secs (peer peer' : Manager) rest r :
  Forall (fun ks => section_ok (snd ks) /\ is_Some (kind_map cks !! fst ks)) secs ->
  (forall k sec, (k, sec) ∈ secs -> exists rcv, channel_receivers peer !! k = Some rcv /\ compatible sec rcv) ->
  (length secs < fuel)%nat -> reader_ok r -> br_bits r = packet_enc secs ++ false :: rest ->
  deliver_all secs peer = Ok peer' ->
  exists r', read_channels sc relations_waiting cks fuel peer r = Ok (peer', Some r') /\
    reader_ok r' /\ br_bits r' = rest.
Proof.
  revert secs peer r. induction fuel as [|fuel IH]; intros secs peer r Hok Hpeer Hf Hr Eb Hd; [lia|].
  cbn [read_channels de bool_serde]. destruct secs as [|[k sec] secs].
  - destruct (read_bit_enc false rest r Hr Eb) as (r' & -> & O & B). injection Hd as <-. exists r'. auto.
  - apply Forall_cons_1 in Hok as [[Hsec Hk] Hok]. cbn [fst snd] in *.
    unfold packet_enc in Eb. cbn [map concat] in Eb. unfold channel_enc in Eb at 1. cbn [fst snd] in Eb.
    rewrite <- !app_comm_cons, <- !app_assoc in Eb.
    destruct (read_bit_enc true _ r Hr Eb) as (r1 & -> & O1 & B1). cbn [catch]. rewrite bind_ok.
    destruct (de_enc (Lawful := kind_lawful mk cks Hcks) k _ r1 Hk O1 B1) as (r2 & R2 & O2 & B2).
    cbn [de kind_serde] in R2. rewrite R2. cbn [catch]. rewrite bind_ok.
    destruct (Hpeer k sec ltac:(now left)) as (rcv & Hrcv & Hcomp). rewrite Hrcv.
    destruct (section_read sec rcv _ r2 Hsec Hcomp O2 B2) as (r3 & R3 & O3 & B3). rewrite R3.
    unfold deliver_all in Hd. cbn [foldM] in Hd. rewrite Hrcv in Hd. cbn [unwrap] in Hd. rewrite bind_ok in Hd.
    rewrite bind_assoc in Hd. apply bind_ok_inv in Hd as (rcv' & Ed & Hd). rewrite Ed, !bind_ok in *.
    apply (IH secs (set_receiver k rcv' peer) r3); try assumption; [|cbn [length] in Hf; lia].
    intros k2 sec2 Hin. cbn [set_receiver channel_receivers]. destruct (decide (k2 = k)) as [->|Hne].
    + rewrite lookup_insert_eq. exists rcv'. split; [reflexivity|].
      destruct (Hpeer k sec2 ltac:(now right)) as (rcv2 & E2 & C2). rewrite Hrcv in E2. injection E2 as <-.
      eapply deliver_compatible; eassumption.
    + rewrite lookup_insert_ne by congruence. apply Hpeer. now right.
Qed.

(** * The order of the channels *)
Definition gain_order (gain : K -> Z) : relation K := fun k k' => gain k' <= gain k.

Lemma insert_by_gain_perm gain (k : K) (l : list K) : insert_by_gain gain k l ≡ₚ k :: l.
Proof.
  induction l as [|k' l IH]; [reflexivity|]. cbn [insert_by_gain]. destruct (_ <=? _); [|reflexivity].
  rewrite IH. apply Permutation_swap.
Qed.

Lemma insert_by_gain_sorted gain (k : K) (l : list K) :
  StronglySorted (gain_order gain) l -> StronglySorted (gain_order gain) (insert_by_gain gain k l).
Proof.
  induction 1 as [|k' l Hs IH Hall]; cbn [insert_by_gain]; [repeat constructor|].
  destruct (Z.leb_spec (gain k) (gain k')) as [Hle|Hgt].
  - constructor; [exact IH|]. rewrite insert_by_gain_perm. constructor; assumption.
  - constructor; [now constructor|]. constructor; [unfold gain_order; lia|].
    eapply Forall_impl; [exact Hall|]. unfold gain_order. lia.
Qed.

Lemma order_channels_ok gain (iter : list K) :
  order_channels gain iter ≡ₚ iter /\ StronglySorted (gain_order gain) (order_channels gain iter).
Proof.
  unfold order_channels. induction iter as [|k iter [IH1 IH2]] using rev_ind; [split; [reflexivity|constructor]|].
  rewrite foldl_snoc. split.
  - rewrite insert_by_gain_perm, IH1. now rewrite Permutation_app_comm.
  - now apply insert_by_gain_sorted.
Qed.

Lemma sorted_sublist (R : relation K) (l1 l2 : list K) :
  sublist l1 l2 -> StronglySorted R l2 -> StronglySorted R l1.
Proof.
  induction 1 as [|x l1 l2 Hs IH|x l1 l2 Hs IH]; intros Hss; [constructor|..]; inversion Hss; subst.
  - constructor; [auto|]. apply Forall_forall. intros y Hy.
    eapply Forall_forall; [eassumption|]. eapply elem_of_sublist; eassumption.
  - auto.
Qed.
End Transparency.

(** * Theorems *)


(** Two channels: ordered reliable with two messages, unordered unreliable with one. *)
Definition demo_settings (k : bool) : ChannelSettings :=
  if k then mkChannelSettings (OrderedReliable ReliableSettings_default) Bidirectional Normal
  else mkChannelSettings UnorderedUnreliable Bidirectional High.
Definition demo_register : res (ChannelKinds bool ChannelSettings) :=
  register demo_settings [(true, "Reliable"%string); (false, "Unreliable"%string)].
Definition demo_cks : ChannelKinds bool ChannelSettings :=
  match demo_register with Ok cks => cks | _ => Kinds_new end.

Definition demo_value (c : Container Z) : Z := match c with CMessage u => u | _ => 0 end.
Definition demo_serde : Serde (Container Z) := iso_serde demo_value CMessage u16_serde.
Definition is_user_message (c : Container Z) : Prop := exists u, c = CMessage u.
Lemma demo_value_inv c : is_user_message c -> CMessage (demo_value c) = c.
Proof. intros [u ->]. reflexivity. Qed.
#[local] Instance demo_lawful : Lawful demo_serde :=
  iso_lawful (Lawful0 := uint_lawful 2) demo_value CMessage (uint_serde 2) is_user_message demo_value_inv.

Definition demo_manager : MessageManager (K := bool) (U := Z) (E := unit) :=
  match foldM (fun '(k, m) mm => '(_, mm') ← MessageManager_send_message demo_serde k (CMessage m) mm; Ok mm')
          [(true, 5); (true, 6); (false, 7)] (MessageManager_new Server demo_cks) with
  | Ok mm => collect_outgoing_messages 0 (fun _ => 100) mm
  | _ => MessageManager_new Server demo_cks
  end.

Definition demo_writer : BitWriter := bw_set_max BitWriter_new (MTU_SIZE_BITS - 1).

Definition demo_queue (k : bool) : section Z :=
  if k then Indexed [(0, CMessage 5); (1, CMessage 6)] else Plain [CMessage 7].

Lemma demo_sender k : sender_queue <$> channel_senders demo_manager !! k = Some (demo_queue k).
Proof. destruct k; vm_compute; reflexivity. Qed.

Lemma demo_queue_ok k : section_ok demo_serde (demo_queue k).
Proof.
  assert (forall u, in_u 16 u -> valid demo_serde (CMessage u)) as Hv
    by (intros u Hu; split; [now exists u|exact Hu]).
  destruct k; cbn [demo_queue section_ok].
  - split; [repeat split; unfold in_u, wrap; vm_compute; congruence|].
    repeat apply Forall_cons_2; try apply Forall_nil_2; (split; [apply Hv; unfold in_u; lia|vm_compute; reflexivity]).
  - repeat apply Forall_cons_2; try apply Forall_nil_2; (split; [apply Hv; unfold in_u; lia|vm_compute; reflexivity]).
Qed.

