(* ===== verification/SyncEngine.v ===== *)
(** The receiving half of entity replication: src/shared/src/world/sync/ordered_ids.rs,
    remote_component_channel.rs, auth_channel.rs, auth_channel_receiver.rs,
    auth_channel_sender.rs, remote_entity_channel.rs and remote_engine.rs.

    Entity messages arrive in any order; each entity has a channel that buffers what is
    not yet legal and emits the rest.  [component_channels] is a [HashMap]; the order in
    which it is iterated is the parameter [iter], which lists its keys. *)

From Stdlib Require Import ZArith Lia.
From stdpp Require Import base list numbers option gmap.
From S2P Require Import Prelude Wrapping Wire EntityTypes Reliable.

(** * OrderedIds *)
Section OrderedIds.
Context {P : Type}.

(** The loop of [push_back]: [current_index] counts down from the length. *)
Fixpoint push_back_loop (current_index : nat) (message_index : MessageIndex) (item : P)
  (inner : list (MessageIndex * P)) : res (list (MessageIndex * P)) :=
  match current_index with
  | O => Ok ((message_index, item) :: inner)
  | S i =>
      '(old_index, _) ← unwrap (inner !! i);
      if sequence_less_than old_index message_index
      then Ok (take (S i) inner ++ (message_index, item) :: drop (S i) inner)
      else push_back_loop i message_index item inner
  end.

Definition OrderedIds_push_back (message_index : MessageIndex) (item : P)
  (inner : list (MessageIndex * P)) : res (list (MessageIndex * P)) :=
  push_back_loop (length inner) message_index item inner.

Fixpoint pop_front_until (index : MessageIndex) (including : bool) (inner : list (MessageIndex * P))
  : list (MessageIndex * P) :=
  match inner with
  | [] => []
  | (old_index, p) :: inner' =>
      if sequence_less_than old_index index || (including && (old_index =? index))
      then pop_front_until index including inner'
      else inner
  end.

Definition pop_front_until_and_including (index : MessageIndex) := pop_front_until index true.
Definition pop_front_until_and_excluding (index : MessageIndex) := pop_front_until index false.

End OrderedIds.

Inductive EntityChannelState := Despawned | Spawned.

#[global] Instance EntityChannelState_eq_dec : EqDecision EntityChannelState.
Proof. solve_decision. Defined.

(** * RemoteComponentChannel *)
Record RemoteComponentChannel : Type := mkComponentChannel {
  rc_inserted : bool;
  rc_last_epoch_id : option MessageIndex;
  rc_buffered : list (MessageIndex * bool);
  rc_incoming : list EntityMessageType }.

Definition RemoteComponentChannel_new : RemoteComponentChannel := mkComponentChannel false None [] [].

Definition component_drain_messages (kind : ComponentKind) (c : RemoteComponentChannel)
  : res (list (EntityMessage unit) * RemoteComponentChannel) :=
  received ← foldM (fun t acc => m ← with_component_kind t kind; Ok (acc ++ [m])) (rc_incoming c) [];
  Ok (received, mkComponentChannel (rc_inserted c) (rc_last_epoch_id c) (rc_buffered c) []).

Definition component_buffer_pop_until (id : MessageIndex) (c : RemoteComponentChannel) : RemoteComponentChannel :=
  mkComponentChannel (rc_inserted c) (rc_last_epoch_id c) (pop_front_until_and_excluding id (rc_buffered c)) (rc_incoming c).

Definition set_inserted (inserted : bool) (last_epoch_id : MessageIndex) (c : RemoteComponentChannel)
  : RemoteComponentChannel :=
  mkComponentChannel inserted (Some last_epoch_id) (rc_buffered c) (rc_incoming c).

(** The loop of [process_messages], on the buffer. *)
Fixpoint component_process_loop (buffered : list (MessageIndex * bool)) (c : RemoteComponentChannel)
  : RemoteComponentChannel :=
  match buffered with
  | [] => mkComponentChannel (rc_inserted c) (rc_last_epoch_id c) [] (rc_incoming c)
  | (id, insert) :: buffered' =>
      let stop := mkComponentChannel (rc_inserted c) (rc_last_epoch_id c) buffered (rc_incoming c) in
      if (insert : bool) then
        if rc_inserted c then stop else
        component_process_loop buffered'
          (mkComponentChannel true (Some id) buffered' (rc_incoming c ++ [TInsertComponent]))
      else
        if negb (rc_inserted c) then stop else
        component_process_loop buffered'
          (mkComponentChannel false (Some id) buffered' (rc_incoming c ++ [TRemoveComponent]))
  end.

Definition component_process_messages (st : EntityChannelState) (c : RemoteComponentChannel)
  : RemoteComponentChannel :=
  if decide (st <> Spawned) then c else component_process_loop (rc_buffered c) c.

Definition component_accept_message (st : EntityChannelState) (id : MessageIndex) (msg : EntityMessage unit)
  (c : RemoteComponentChannel) : res RemoteComponentChannel :=
  if match rc_last_epoch_id c with Some last => sequence_equal_or_less_than id last | None => false end
  then Ok c else
  insert ← match msg with
           | InsertComponent _ _ => Ok true
           | RemoveComponent _ _ => Ok false
           | _ => Panic
           end;
  buffered ← OrderedIds_push_back id insert (rc_buffered c);
  Ok (component_process_messages st
        (mkComponentChannel (rc_inserted c) (rc_last_epoch_id c) buffered (rc_incoming c))).

Fixpoint force_drain_loop (buffered : list (MessageIndex * bool)) (c : RemoteComponentChannel)
  : RemoteComponentChannel :=
  match buffered with
  | [] => mkComponentChannel (rc_inserted c) (rc_last_epoch_id c) [] (rc_incoming c)
  | (id, insert) :: buffered' =>
      force_drain_loop buffered'
        (mkComponentChannel insert (Some id) buffered'
           (rc_incoming c ++ [if (insert : bool) then TInsertComponent else TRemoveComponent]))
  end.

Definition component_force_drain_buffers (c : RemoteComponentChannel) : RemoteComponentChannel :=
  force_drain_loop (rc_buffered c) c.

(** * AuthChannel *)
Record AuthChannelSender : Type := mkAuthSender {
  as_next_subcommand_id : SubCommandId; as_outgoing : list EntityCommand }.

Definition AuthChannelSender_new : AuthChannelSender := mkAuthSender 0 [].

Definition AuthChannelSender_send_command (command : EntityCommand) (s : AuthChannelSender)
  : res AuthChannelSender :=
  command' ← set_subcommand_id (as_next_subcommand_id s) command;
  Ok (mkAuthSender (wrap 8 (as_next_subcommand_id s + 1)) (as_outgoing s ++ [command'])).

Record AuthChannelReceiver : Type := mkAuthReceiver {
  ar_next_subcommand_id : SubCommandId;
  ar_buffered : list (MessageIndex * EntityMessage unit);
  ar_incoming : list (EntityMessage unit) }.

Definition AuthChannelReceiver_new : AuthChannelReceiver := mkAuthReceiver 0 [] [].

Fixpoint auth_process_loop (buffered : list (MessageIndex * EntityMessage unit)) (r : AuthChannelReceiver)
  : res AuthChannelReceiver :=
  match buffered with
  | [] => Ok (mkAuthReceiver (ar_next_subcommand_id r) [] (ar_incoming r))
  | (id, msg) :: buffered' =>
      sub ← unwrap (subcommand_id msg);
      if negb (sub =? ar_next_subcommand_id r)
      then Ok (mkAuthReceiver (ar_next_subcommand_id r) buffered (ar_incoming r))
      else auth_process_loop buffered'
             (mkAuthReceiver (wrap 8 (ar_next_subcommand_id r + 1)) buffered' (ar_incoming r ++ [msg]))
  end.

Definition AuthChannelReceiver_process_messages (st : option EntityChannelState) (r : AuthChannelReceiver)
  : res AuthChannelReceiver :=
  match st with
  | Some Despawned => Ok r
  | _ => auth_process_loop (ar_buffered r) r
  end.

Definition AuthChannelReceiver_receive_message (st : option EntityChannelState) (id : MessageIndex)
  (msg : EntityMessage unit) (r : AuthChannelReceiver) : res AuthChannelReceiver :=
  buffered ← OrderedIds_push_back id msg (ar_buffered r);
  AuthChannelReceiver_process_messages st (mkAuthReceiver (ar_next_subcommand_id r) buffered (ar_incoming r)).

Inductive EntityAuthChannelState := Unpublished | Published | Delegated.

#[global] Instance EntityAuthChannelState_eq_dec : EqDecision EntityAuthChannelState.
Proof. solve_decision. Defined.

Record AuthChannel : Type := mkAuthChannel {
  ac_host_type : HostType;
  ac_state : EntityAuthChannelState;
  ac_auth_status : option EntityAuthStatus;
  ac_sender : AuthChannelSender;
  ac_receiver : AuthChannelReceiver }.

Definition AuthChannel_new (host_type : HostType) : AuthChannel :=
  mkAuthChannel host_type (match host_type with Client => Unpublished | Server => Published end) None
    AuthChannelSender_new AuthChannelReceiver_new.

Definition ac_set_state (st : EntityAuthChannelState) (status : option EntityAuthStatus) (a : AuthChannel)
  : AuthChannel :=
  mkAuthChannel (ac_host_type a) st status (ac_sender a) (ac_receiver a).

Definition ac_set_receiver (r : AuthChannelReceiver) (a : AuthChannel) : AuthChannel :=
  mkAuthChannel (ac_host_type a) (ac_state a) (ac_auth_status a) (ac_sender a) r.

(** The transitions of [SetAuthority] that do not panic. *)
Definition valid_auth_transition (from to : EntityAuthStatus) : bool :=
  match from, to with
  | Available, Requested | Available, Granted | Available, Denied
  | Requested, Granted | Requested, Denied | Requested, Available
  | Denied, Granted | Denied, Available
  | Granted, Available | Granted, Denied | Granted, Releasing
  | Releasing, Available | Releasing, Denied => true
  | _, _ => false
  end.

Definition AuthChannel_validate_command (command : EntityCommand) (a : AuthChannel) : res AuthChannel :=
  match EntityCommand_get_type command with
  | TPublish =>
      if decide (ac_state a <> Unpublished) then Panic
      else Ok (ac_set_state Published (ac_auth_status a) a)
  | TUnpublish =>
      if decide (ac_state a <> Published) then Panic
      else Ok (ac_set_state Unpublished (ac_auth_status a) a)
  | TEnableDelegation =>
      if decide (ac_state a <> Published) then Panic
      else Ok (ac_set_state Delegated (Some Available) a)
  | TDisableDelegation =>
      if decide (ac_state a <> Delegated) then Panic
      else Ok (ac_set_state Published (ac_auth_status a) a)
  | TReleaseAuthority =>
      if decide (ac_state a <> Delegated) then Panic
      else Ok (ac_set_state (ac_state a) (Some Available) a)
  | TSetAuthority =>
      if decide (ac_state a <> Delegated) then Panic else
      match command with
      | CSetAuthority _ _ next_status =>
          from_status ← unwrap (ac_auth_status a);
          if valid_auth_transition from_status next_status
          then Ok (ac_set_state (ac_state a) (Some next_status) a)
          else Panic
      | _ => Panic
      end
  | TRequestAuthority | TEnableDelegationResponse | TMigrateResponse =>
      if decide (ac_state a <> Delegated) then Panic else Ok a
  | TNoop => Ok a
  | _ => Panic
  end.

Definition AuthChannel_send_command (command : EntityCommand) (a : AuthChannel) : res AuthChannel :=
  s ← AuthChannelSender_send_command command (ac_sender a);
  Ok (mkAuthChannel (ac_host_type a) (ac_state a) (ac_auth_status a) s (ac_receiver a)).

Definition AuthChannel_sender_drain (a : AuthChannel) : list EntityCommand * AuthChannel :=
  (as_outgoing (ac_sender a),
   mkAuthChannel (ac_host_type a) (ac_state a) (ac_auth_status a)
     (mkAuthSender (as_next_subcommand_id (ac_sender a)) []) (ac_receiver a)).

Definition AuthChannel_reset (a : AuthChannel) : AuthChannel := AuthChannel_new (ac_host_type a).

Definition AuthChannel_receiver_drain (a : AuthChannel) : list (EntityMessage unit) * AuthChannel :=
  (ar_incoming (ac_receiver a),
   ac_set_receiver (mkAuthReceiver (ar_next_subcommand_id (ac_receiver a)) (ar_buffered (ac_receiver a)) []) a).

Definition AuthChannel_receiver_pop_until (id : MessageIndex) (a : AuthChannel) : AuthChannel :=
  ac_set_receiver (mkAuthReceiver (ar_next_subcommand_id (ac_receiver a))
    (pop_front_until_and_including id (ar_buffered (ac_receiver a))) (ar_incoming (ac_receiver a))) a.

Definition AuthChannel_receiver_receive_message (st : option EntityChannelState) (id : MessageIndex)
  (msg : EntityMessage unit) (a : AuthChannel) : res AuthChannel :=
  r ← AuthChannelReceiver_receive_message st id msg (ac_receiver a); Ok (ac_set_receiver r a).

Definition AuthChannel_receiver_process_messages (st : EntityChannelState) (a : AuthChannel) : res AuthChannel :=
  r ← AuthChannelReceiver_process_messages (Some st) (ac_receiver a); Ok (ac_set_receiver r a).

Definition AuthChannel_receiver_set_next (id : SubCommandId) (a : AuthChannel) : AuthChannel :=
  ac_set_receiver (mkAuthReceiver id (ar_buffered (ac_receiver a)) (ar_incoming (ac_receiver a))) a.

Definition AuthChannel_force_publish (a : AuthChannel) : AuthChannel :=
  ac_set_state Published (ac_auth_status a) a.
Definition AuthChannel_force_enable_delegation (a : AuthChannel) : AuthChannel :=
  ac_set_state Delegated (Some Available) a.
Definition AuthChannel_force_set_auth_status (st : EntityAuthStatus) (a : AuthChannel) : AuthChannel :=
  ac_set_state (ac_state a) (Some st) a.

(** * RemoteEntityChannel *)
Record RemoteEntityChannel : Type := mkEntityChannel {
  re_state : EntityChannelState;
  re_last_epoch_id : option MessageIndex;
  re_components : gmap ComponentKind RemoteComponentChannel;
  re_auth : AuthChannel;
  re_buffered : list (MessageIndex * EntityMessage unit);
  re_incoming : list (EntityMessage unit);
  re_outgoing : list EntityCommand }.

Definition RemoteEntityChannel_new (host_type : HostType) : RemoteEntityChannel :=
  mkEntityChannel Despawned None ∅ (AuthChannel_new host_type) [] [] [].

Definition re_set_auth (a : AuthChannel) (c : RemoteEntityChannel) : RemoteEntityChannel :=
  mkEntityChannel (re_state c) (re_last_epoch_id c) (re_components c) a (re_buffered c) (re_incoming c) (re_outgoing c).

Definition re_set_components (m : gmap ComponentKind RemoteComponentChannel) (c : RemoteEntityChannel)
  : RemoteEntityChannel :=
  mkEntityChannel (re_state c) (re_last_epoch_id c) m (re_auth c) (re_buffered c) (re_incoming c) (re_outgoing c).

Definition configure_as_delegated (c : RemoteEntityChannel) : RemoteEntityChannel :=
  re_set_auth (AuthChannel_receiver_set_next 1
    (AuthChannel_force_enable_delegation (AuthChannel_force_publish (re_auth c)))) c.

Definition RemoteEntityChannel_new_delegated (host_type : HostType) : RemoteEntityChannel :=
  configure_as_delegated (RemoteEntityChannel_new host_type).

Definition update_auth_status (st : EntityAuthStatus) (c : RemoteEntityChannel) : RemoteEntityChannel :=
  re_set_auth (AuthChannel_force_set_auth_status st (re_auth c)) c.

Definition RemoteEntityChannel_send_command (command : EntityCommand) (c : RemoteEntityChannel)
  : res RemoteEntityChannel :=
  a ← AuthChannel_send_command command (re_auth c);
  let '(commands, a') := AuthChannel_sender_drain a in
  Ok (mkEntityChannel (re_state c) (re_last_epoch_id c) (re_components c) a' (re_buffered c) (re_incoming c)
        (re_outgoing c ++ commands)).

(** [entry(kind).or_insert_with(RemoteComponentChannel::new)] *)
Definition channel_entry (kind : ComponentKind) (m : gmap ComponentKind RemoteComponentChannel)
  : RemoteComponentChannel := default RemoteComponentChannel_new (m !! kind).

Definition RemoteEntityChannel_insert_component (kind : ComponentKind) (c : RemoteEntityChannel)
  : RemoteEntityChannel :=
  re_set_components (<[kind := channel_entry kind (re_components c)]> (re_components c)) c.

Definition RemoteEntityChannel_remove_component (kind : ComponentKind) (c : RemoteEntityChannel)
  : RemoteEntityChannel := re_set_components (delete kind (re_components c)) c.

Definition set_spawned (epoch_id : MessageIndex) (c : RemoteEntityChannel) : res RemoteEntityChannel :=
  if decide (re_state c <> Despawned) then Panic else
  Ok (mkEntityChannel Spawned (Some epoch_id) (re_components c) (re_auth c) (re_buffered c) (re_incoming c) (re_outgoing c)).

Definition insert_component_channel_as_inserted (kind : ComponentKind) (epoch_id : MessageIndex)
  (c : RemoteEntityChannel) : RemoteEntityChannel :=
  re_set_components (<[kind := set_inserted true epoch_id RemoteComponentChannel_new]> (re_components c)) c.

Definition extract_inserted_component_kinds (c : RemoteEntityChannel) : gset ComponentKind :=
  dom (filter (fun p => rc_inserted (snd p) = true) (re_components c)).

Section Iteration.
Context (iter : gmap ComponentKind RemoteComponentChannel -> list ComponentKind).

(** The loop over the component channels at a spawn with index [id]. *)
Definition flush_components (id : MessageIndex) (st : EntityChannelState)
  (components : gmap ComponentKind RemoteComponentChannel) (incoming : list (EntityMessage unit))
  : res (gmap ComponentKind RemoteComponentChannel * list (EntityMessage unit)) :=
  foldM (fun kind '(components, incoming) =>
      channel ← unwrap (components !! kind);
      '(msgs, channel') ← component_drain_messages kind
        (component_process_messages st (component_buffer_pop_until id channel));
      Ok (<[kind := channel']> components, incoming ++ msgs))
    (iter components) (components, incoming).

(** [receiver_buffer_pop_front_until_and_including], [receiver_process_messages] and
    [receiver_drain_messages_into]. *)
Definition flush_auth (id : MessageIndex) (st : EntityChannelState) (a : AuthChannel)
  : res (list (EntityMessage unit) * AuthChannel) :=
  a' ← AuthChannel_receiver_process_messages st (AuthChannel_receiver_pop_until id a);
  Ok (AuthChannel_receiver_drain a').

(** One round of the loop of [process_messages]: [None] is [break]. *)
Definition process_round (c : RemoteEntityChannel) : res (option RemoteEntityChannel) :=
  match re_buffered c with
  | [] => Ok None
  | (id, msg) :: rest =>
    match msg with
    | Spawn _ =>
        if decide (re_state c <> Despawned) then Ok None else
        match pop_front_until_and_excluding id (re_buffered c) with
        | [] => Panic
        | (_, front) :: buffered =>
            '(auth_msgs, auth) ← flush_auth id Spawned (re_auth c);
            '(components, incoming) ← flush_components id Spawned (re_components c)
               (re_incoming c ++ [front] ++ auth_msgs);
            Ok (Some (mkEntityChannel Spawned (Some id) components auth buffered incoming (re_outgoing c)))
        end
    | SpawnWithComponents _ _ =>
        if decide (re_state c <> Despawned) then Ok None else
        match pop_front_until_and_excluding id (re_buffered c) with
        | (_, SpawnWithComponents _ kinds) :: buffered =>
            '(components, incoming) ← flush_components id Spawned (re_components c)
               (re_incoming c ++ [Spawn tt]);
            let components' := fold_left (fun m kind => <[kind := set_inserted true id (channel_entry kind m)]> m)
                                 kinds components in
            let incoming' := incoming ++ map (InsertComponent tt) kinds in
            '(auth_msgs, auth) ← flush_auth id Spawned (re_auth c);
            Ok (Some (mkEntityChannel Spawned (Some id) components' auth buffered (incoming' ++ auth_msgs) (re_outgoing c)))
        | _ => Panic
        end
    | Despawn _ =>
        if decide (re_state c <> Spawned) then Ok None else
        Ok (Some (mkEntityChannel Despawned (Some id) ∅ (AuthChannel_reset (re_auth c)) []
                    (re_incoming c ++ [msg]) (re_outgoing c)))
    | InsertComponent _ kind | RemoveComponent _ kind =>
        channel ← component_accept_message (re_state c) id msg (channel_entry kind (re_components c));
        '(msgs, channel') ← component_drain_messages kind channel;
        Ok (Some (mkEntityChannel (re_state c) (re_last_epoch_id c) (<[kind := channel']> (re_components c))
                    (re_auth c) rest (re_incoming c ++ msgs) (re_outgoing c)))
    | Publish _ _ | Unpublish _ _ | EnableDelegation _ _ | DisableDelegation _ _
    | ReleaseAuthority _ _ | SetAuthority _ _ _ =>
        a ← AuthChannel_receiver_receive_message (Some (re_state c)) id msg (re_auth c);
        let '(msgs, a') := if decide (re_state c = Spawned) then AuthChannel_receiver_drain a else ([], a) in
        Ok (Some (mkEntityChannel (re_state c) (re_last_epoch_id c) (re_components c) a' rest
                    (re_incoming c ++ msgs) (re_outgoing c)))
    | Noop => Ok (Some c)
    | _ => Panic
    end
  end.

Fixpoint RemoteEntityChannel_process_messages (fuel : nat) (c : RemoteEntityChannel) : res RemoteEntityChannel :=
  match fuel with
  | O => Diverge
  | S fuel' =>
      r ← process_round c;
      match r with None => Ok c | Some c' => RemoteEntityChannel_process_messages fuel' c' end
  end.

(** Every round but that of a [Noop] takes a message off the buffer. *)
Definition process_fuel (c : RemoteEntityChannel) : nat := S (length (re_buffered c)).

Definition RemoteEntityChannel_receive_message (id : MessageIndex) (msg : EntityMessage unit)
  (c : RemoteEntityChannel) : res RemoteEntityChannel :=
  let receive :=
    buffered ← OrderedIds_push_back id msg (re_buffered c);
    let c' := mkEntityChannel (re_state c) (re_last_epoch_id c) (re_components c) (re_auth c) buffered
                (re_incoming c) (re_outgoing c) in
    RemoteEntityChannel_process_messages (process_fuel c') c' in
  match re_last_epoch_id c with
  | Some last_epoch_id =>
      if last_epoch_id =? id then Panic
      else if sequence_less_than id last_epoch_id then Ok c
      else receive
  | None => receive
  end.

Definition force_drain_all_buffers (c : RemoteEntityChannel) : RemoteEntityChannel :=
  mkEntityChannel (re_state c) (re_last_epoch_id c) (component_force_drain_buffers <$> re_components c)
    (re_auth c) [] (re_incoming c ++ (re_buffered c).*2) (re_outgoing c).

(** * RemoteEngine *)
Context {E : Type} `{Countable E}.

Record RemoteEngine : Type := mkRemoteEngine {
  rg_host_type : HostType;
  rg_channels : gmap E RemoteEntityChannel;
  rg_incoming : list (EntityMessage E);
  rg_outgoing : list EntityCommand }.

Definition RemoteEngine_new (host_type : HostType) : RemoteEngine := mkRemoteEngine host_type ∅ [] [].

Definition RemoteEngine_take_incoming_events (g : RemoteEngine) : list (EntityMessage E) * RemoteEngine :=
  (rg_incoming g, mkRemoteEngine (rg_host_type g) (rg_channels g) [] (rg_outgoing g)).

Definition RemoteEngine_take_outgoing_commands (g : RemoteEngine) : list EntityCommand * RemoteEngine :=
  (rg_outgoing g, mkRemoteEngine (rg_host_type g) (rg_channels g) (rg_incoming g) []).

Definition rg_set_channels (m : gmap E RemoteEntityChannel) (g : RemoteEngine) : RemoteEngine :=
  mkRemoteEngine (rg_host_type g) m (rg_incoming g) (rg_outgoing g).

Definition RemoteEngine_insert_entity_channel (entity : E) (c : RemoteEntityChannel) (g : RemoteEngine)
  : res RemoteEngine :=
  match rg_channels g !! entity with
  | Some _ => Panic
  | None => Ok (rg_set_channels (<[entity := c]> (rg_channels g)) g)
  end.

Definition RemoteEngine_remove_entity_channel (entity : E) (g : RemoteEngine)
  : res (RemoteEntityChannel * RemoteEngine) :=
  c ← unwrap (rg_channels g !! entity);
  Ok (c, rg_set_channels (delete entity (rg_channels g)) g).

(** [drain_incoming_messages_into] *)
Definition drain_incoming (entity : E) (c : RemoteEntityChannel) : res (list (EntityMessage E) * RemoteEntityChannel) :=
  received ← foldM (fun m acc => m' ← with_entity m entity; Ok (acc ++ [m'])) (re_incoming c) [];
  Ok (received, mkEntityChannel (re_state c) (re_last_epoch_id c) (re_components c) (re_auth c) (re_buffered c)
                  [] (re_outgoing c)).

Definition RemoteEngine_receive_message (id : MessageIndex) (msg : EntityMessage E) (g : RemoteEngine)
  : res RemoteEngine :=
  if decide (get_type msg = TNoop) then Ok g else
  entity ← unwrap (EntityMessage_entity msg);
  g1 ← match rg_channels g !! entity with
       | Some _ => Ok g
       | None => RemoteEngine_insert_entity_channel entity (RemoteEntityChannel_new (rg_host_type g)) g
       end;
  channel ← unwrap (rg_channels g1 !! entity);
  stripped ← strip_entity msg;
  channel1 ← RemoteEntityChannel_receive_message id stripped channel;
  '(events, channel2) ← drain_incoming entity channel1;
  Ok (mkRemoteEngine (rg_host_type g1) (<[entity := channel2]> (rg_channels g1)) (rg_incoming g1 ++ events)
        (rg_outgoing g1)).

Definition RemoteEngine_send_auth_command (entity : E) (command : EntityCommand) (g : RemoteEngine)
  : res RemoteEngine :=
  channel ← unwrap (rg_channels g !! entity);
  channel1 ← RemoteEntityChannel_send_command command channel;
  let channel2 := mkEntityChannel (re_state channel1) (re_last_epoch_id channel1) (re_components channel1)
                    (re_auth channel1) (re_buffered channel1) (re_incoming channel1) [] in
  Ok (mkRemoteEngine (rg_host_type g) (<[entity := channel2]> (rg_channels g)) (rg_incoming g)
        (rg_outgoing g ++ re_outgoing channel1)).

Definition receive_set_auth_status (entity : E) (st : EntityAuthStatus) (g : RemoteEngine) : RemoteEngine :=
  match rg_channels g !! entity with
  | Some c => rg_set_channels (<[entity := update_auth_status st c]> (rg_channels g)) g
  | None => g
  end.

Definition RemoteEngine_send_entity_command (entity : E) (command : EntityCommand) (g : RemoteEngine)
  : res RemoteEngine :=
  channel ← unwrap (rg_channels g !! entity);
  match command with
  | CDespawn _ => Ok (rg_set_channels (delete entity (rg_channels g)) g)
  | CInsertComponent _ kind =>
      Ok (rg_set_channels (<[entity := RemoteEntityChannel_insert_component kind channel]> (rg_channels g)) g)
  | CRemoveComponent _ kind =>
      Ok (rg_set_channels (<[entity := RemoteEntityChannel_remove_component kind channel]> (rg_channels g)) g)
  | _ => Ok g
  end.

End Iteration.

Arguments RemoteEngine E {_ _}.
