(* ===== verification/SyncOrder.v ===== *)
(** Ordering arguments for the sync engine: the sorted buffers of src/shared/src/world/sync/ordered_ids.rs,
    and the per-component and per-authority state machines of remote_component_channel.rs and
    auth_channel_receiver.rs on a stream whose messages arrive in any order.

    A stream has message indices [wid 0, wid 1, ...]; what the proofs need of them is that
    the 16-bit comparisons order them as their positions ([ordered]). *)

From Stdlib Require Import ZArith Lia.
From stdpp Require Import base list numbers option gmap sorting.
From S2P Require Import Prelude Wrapping Wire EntityTypes Reliable SyncEngine.

(** The first [n] message indices compare like their positions. *)
Definition ordered (n : nat) (wid : nat -> Z) : Prop :=
  forall p q, (p < n)%nat -> (q < n)%nat ->
    sequence_less_than (wid p) (wid q) = (p <? q)%nat /\ (wid p =? wid q) = (p =? q)%nat.

Lemma ordered_lt n wid p q :
  ordered n wid -> (p < n)%nat -> (q < n)%nat -> sequence_less_than (wid p) (wid q) = (p <? q)%nat.
Proof. intros H Hp Hq. apply (H p q Hp Hq). Qed.

Lemma ordered_le n wid p q :
  ordered n wid -> (p < n)%nat -> (q < n)%nat -> sequence_equal_or_less_than (wid p) (wid q) = (p <=? q)%nat.
Proof.
  intros H Hp Hq. unfold sequence_equal_or_less_than. destruct (H p q Hp Hq) as [-> ->].
  destruct (Nat.eqb_spec p q), (Nat.ltb_spec p q), (Nat.leb_spec p q); cbn; lia || reflexivity.
Qed.

(** Counters that grow and stay within half the index space are ordered. *)
Lemma ordered_counters n (c : nat -> Z) :
  (forall p q, (p < q < n)%nat -> c p < c q <= c p + 32767) -> ordered n (fun p => wrap 16 (c p)).
Proof.
  intros Hc p q Hp Hq.
  assert (close (c p) (c q) /\ ((p < q)%nat <-> c p < c q) /\ (p = q <-> c p = c q)) as (Hcl & Hlt & Heq).
  { unfold close. destruct (lt_eq_lt_dec p q) as [[H| ->]|H]; [|lia|];
      [pose proof (Hc _ _ (conj H Hq))|pose proof (Hc _ _ (conj H Hp))]; lia. }
  rewrite seq_lt_close, close_eqb by exact Hcl. split.
  - destruct (Z.ltb_spec (c p) (c q)), (Nat.ltb_spec p q); lia || reflexivity.
  - destruct (Z.eqb_spec (c p) (c q)), (Nat.eqb_spec p q); lia || reflexivity.
Qed.

(** A strictly increasing selection of positions keeps the order. *)
Lemma ordered_sub n wid m (f : nat -> nat) :
  ordered n wid -> (forall i, (i < m)%nat -> (f i < n)%nat) ->
  (forall i j, (i < j < m)%nat -> (f i < f j)%nat) -> ordered m (fun i => wid (f i)).
Proof.
  intros H Hf Hm i j Hi Hj. destruct (H (f i) (f j)) as [-> ->]; auto.
  assert ((i < j)%nat <-> (f i < f j)%nat).
  { split; [auto|]. intros. destruct (lt_eq_lt_dec i j) as [[?| ->]|Hl]; [auto|lia|].
    specialize (Hm j i). lia. }
  assert (i = j <-> f i = f j).
  { split; [congruence|]. intros. destruct (lt_eq_lt_dec i j) as [[Hl|?]|Hl]; [|auto|];
      [specialize (Hm i j)|specialize (Hm j i)]; lia. }
  split.
  - destruct (Nat.ltb_spec (f i) (f j)), (Nat.ltb_spec i j); lia || reflexivity.
  - destruct (Nat.eqb_spec (f i) (f j)), (Nat.eqb_spec i j); lia || reflexivity.
Qed.

(** * Sorted position lists *)
Fixpoint increasing (l : list nat) : Prop :=
  match l with
  | [] => True
  | p :: l' => (forall q, q ∈ l' -> (p < q)%nat) /\ increasing l'
  end.

Fixpoint ins (p : nat) (l : list nat) : list nat :=
  match l with
  | [] => [p]
  | q :: l' => if (p <? q)%nat then p :: l else q :: ins p l'
  end.

Lemma elem_of_ins p l q : q ∈ ins p l <-> q = p \/ q ∈ l.
Proof.
  induction l as [|r l IH]; cbn [ins]; [rewrite list_elem_of_singleton, elem_of_nil; tauto|].
  destruct (p <? r)%nat; rewrite !elem_of_cons, ?IH; tauto.
Qed.

Lemma increasing_ins p l : increasing l -> p ∉ l -> increasing (ins p l).
Proof.
  induction l as [|q l IH]; cbn [increasing ins].
  - intros _ _. split; [|exact I]. intros q Hq. inversion Hq.
  - intros [Hq Hl] Hp. apply not_elem_of_cons in Hp as [Hn Hp].
    destruct (Nat.ltb_spec p q); cbn [increasing].
    + split; [|auto]. intros r Hr. apply elem_of_cons in Hr as [ -> |Hr]; [lia|]. specialize (Hq _ Hr). lia.
    + split; [|auto]. intros r Hr. apply elem_of_ins in Hr as [ -> |Hr]; [lia|auto].
Qed.

Lemma increasing_app l1 l2 :
  increasing (l1 ++ l2) <-> increasing l1 /\ increasing l2 /\ forall p q, p ∈ l1 -> q ∈ l2 -> (p < q)%nat.
Proof.
  induction l1 as [|p l1 IH]; cbn [app increasing].
  - split; [|tauto]. intros H. repeat split; auto. intros p q Hp. inversion Hp.
  - rewrite IH. split.
    + intros (H & H1 & H2 & H3). repeat split; auto.
      * intros q Hq. apply H, elem_of_app. now left.
      * intros p' q Hp Hq. apply elem_of_cons in Hp as [ -> |Hp]; [|auto]. apply H, elem_of_app. now right.
    + intros ((H & H1) & H2 & H3). repeat split; auto.
      * intros q Hq. apply elem_of_app in Hq as [Hq|Hq]; [auto|]. apply H3; [now left|auto].
      * intros p' q Hp Hq. apply H3; [now right|auto].
Qed.

Lemma ins_split p l1 l2 :
  (forall q, q ∈ l1 -> (q < p)%nat) -> (forall q, q ∈ l2 -> (p < q)%nat) -> ins p (l1 ++ l2) = l1 ++ p :: l2.
Proof.
  intros H1 H2. induction l1 as [|q l1 IH]; cbn [ins app].
  - destruct l2 as [|q l2]; cbn [ins]; [reflexivity|].
    rewrite (proj2 (Nat.ltb_lt _ _)); [reflexivity|apply H2; left].
  - rewrite (proj2 (Nat.ltb_ge _ _)); [|assert (q < p)%nat by (apply H1; left); lia].
    rewrite IH; [reflexivity|]. intros r Hr. apply H1. now right.
Qed.

Section Stream.
Context (n : nat) (wid : nat -> Z) (Hord : ordered n wid).

Lemma push_back_loop_split {P} (f : nat -> P) p l1 l2 :
  (p < n)%nat -> (forall q, q ∈ l1 ++ l2 -> (q < n)%nat) -> p ∉ l1 ->
  increasing (l1 ++ l2) -> (forall q, q ∈ l2 -> (p < q)%nat) ->
  push_back_loop (length l1) (wid p) (f p) (map (fun q => (wid q, f q)) (l1 ++ l2))
  = Ok (map (fun q => (wid q, f q)) (ins p (l1 ++ l2))).
Proof.
  intros Hp Hb. revert l2 Hb. induction l1 as [|q l1 IH] using rev_ind; intros l2 Hb Hn Hi H2.
  - rewrite (ins_split p [] l2); [reflexivity| |exact H2]. intros q Hq. inversion Hq.
  - rewrite length_app, Nat.add_comm. cbn [length Nat.add push_back_loop].
    rewrite <- app_assoc in *. cbn [app] in *.
    rewrite lookup_map, list_lookup_middle by reflexivity. cbn [fmap option_fmap option_map unwrap mbind res_bind].
    rewrite (ordered_lt n) by (auto; apply Hb, elem_of_app; right; left).
    apply not_elem_of_app in Hn as [Hn1 Hn2]. rewrite list_elem_of_singleton in Hn2.
    destruct (Nat.ltb_spec q p).
    + change (q :: l2) with ([q] ++ l2) in *. rewrite (app_assoc l1 [q] l2).
      rewrite (ins_split p (l1 ++ [q]) l2); [|..|exact H2].
      * rewrite !map_app, take_app_length', drop_app_length' by (rewrite length_app, !length_map; cbn; lia).
        reflexivity.
      * apply increasing_app in Hi as (_ & _ & Hi). intros r Hr.
        apply elem_of_app in Hr as [Hr|Hr].
        -- assert (r < q)%nat by (apply Hi; [exact Hr|left]). lia.
        -- apply list_elem_of_singleton in Hr. lia.
    + apply IH; [exact Hb|exact Hn1|exact Hi|].
      intros r Hr. apply elem_of_cons in Hr as [ -> |Hr]; [lia|auto].
Qed.

(** Inserting into an ordered buffer keeps it ordered. *)
Lemma push_back_ordered {P} (f : nat -> P) p l :
  (p < n)%nat -> (forall q, q ∈ l -> (q < n)%nat) -> p ∉ l -> increasing l ->
  OrderedIds_push_back (wid p) (f p) (map (fun q => (wid q, f q)) l)
  = Ok (map (fun q => (wid q, f q)) (ins p l)).
Proof.
  intros Hp Hb Hn Hi. unfold OrderedIds_push_back. rewrite length_map.
  pose proof (push_back_loop_split f p l []) as H. rewrite app_nil_r in H. apply H; auto. intros q Hq. inversion Hq.
Qed.

(** Nothing is dropped up to a position before the whole buffer. *)
Lemma pop_until_keeps {P} (f : nat -> P) incl p l :
  (p < n)%nat -> (forall q, q ∈ l -> (p < q < n)%nat) ->
  pop_front_until (wid p) incl (map (fun q => (wid q, f q)) l) = map (fun q => (wid q, f q)) l.
Proof.
  intros Hp Hl. destruct l as [|q l]; [reflexivity|]. cbn [map pop_front_until].
  destruct (Hl q ltac:(left)) as [H1 H2].
  destruct (Hord q p) as [-> ->]; [lia..|].
  rewrite (proj2 (Nat.ltb_ge q p)), (proj2 (Nat.eqb_neq q p)) by lia. now rewrite andb_false_r.
Qed.

End Stream.

(** * One component: inserts and removes in turn

    Message [j] of the stream inserts the component when [j] is even and removes it when
    [j] is odd.  [arr] says which messages have arrived. *)
Definition comp_msg (kind : ComponentKind) (j : nat) : EntityMessage unit :=
  if Nat.even j then InsertComponent tt kind else RemoveComponent tt kind.
Definition comp_type (j : nat) : EntityMessageType :=
  if Nat.even j then TInsertComponent else TRemoveComponent.

(** Presence after the last applied message [e]. *)
Definition present (e : option nat) : bool := match e with Some j => Nat.even j | None => false end.
Definition after (e : option nat) (j : nat) : Prop := match e with Some i => (i < j)%nat | None => True end.
Definition upto (e : option nat) (j : nat) : Prop := match e with Some i => (j <= i)%nat | None => False end.

Lemma present_flip e j : present e <> Nat.even j -> negb (present e) = Nat.even j.
Proof. destruct (present e), (Nat.even j); cbn; congruence. Qed.

Section Component.
Context (m : nat) (wid : nat -> Z) (Hord : ordered m wid).
Implicit Types (arr : nat -> Prop) (e : option nat) (js : list nat) (ch : RemoteComponentChannel).

Abbreviation slots := (map (fun j => (wid j, Nat.even j))).

(** [live]: the entity is spawned; [L]: how many messages the channel has emitted;
    [e]: the last one applied; [js]: the ones waiting. *)
Record comp_base arr (L : nat) e js ch : Prop := {
  cs_buffered : rc_buffered ch = slots js;
  cs_increasing : increasing js;
  cs_waiting : forall j, j ∈ js -> (j < m)%nat /\ arr j /\ after e j;
  cs_epoch : rc_last_epoch_id ch = wid <$> e;
  cs_applied : forall j, e = Some j -> (j < m)%nat;
  cs_inserted : rc_inserted ch = present e;
  cs_seen : forall j, (j < m)%nat -> arr j -> upto e j \/ j ∈ js;
  cs_parity : Nat.odd L = present e;
  cs_incoming : rc_incoming ch = [] }.

(** A live channel has stopped at a message it cannot apply; a channel of an entity that
    is not spawned has applied nothing. *)
Definition comp_state arr (live : bool) L e js ch : Prop :=
  comp_base arr L e js ch /\
  if live then match js with j :: _ => Nat.even j = present e | [] => True end else e = None /\ L = 0%nat.

Lemma comp_state_new live : comp_state (fun _ => False) live 0 None [] RemoteComponentChannel_new.
Proof. split; [split; cbn; easy|now destruct live]. Qed.

Lemma comp_state_ext arr arr' live L e js ch :
  (forall j, (j < m)%nat -> arr j <-> arr' j) -> comp_state arr live L e js ch -> comp_state arr' live L e js ch.
Proof.
  intros Heq [[H1 H2 H3 H4 H5 H6 H7 H8 H9] H10]. split; [|exact H10]. split; auto.
  - intros j Hj. destruct (H3 j Hj) as (? & ? & ?). repeat split; auto. now apply Heq.
  - intros j Hj Ha. apply H7; [auto|]. now apply Heq.
Qed.

(** The loop applies an initial part [d] of the buffer and stops at a message that does
    not change the presence. *)
Lemma process_loop_spec js e L ch :
  rc_inserted ch = present e -> rc_last_epoch_id ch = wid <$> e -> Nat.odd L = present e ->
  exists d js' e', js = d ++ js' /\ e' = (match last d with Some j => Some j | None => e end) /\
    component_process_loop (slots js) ch =
      mkComponentChannel (present e') (wid <$> e') (slots js') (rc_incoming ch ++ map comp_type (seq L (length d))) /\
    Nat.odd (L + length d) = present e' /\
    match js' with j :: _ => Nat.even j = present e' | [] => True end.
Proof.
  revert e L ch. induction js as [|j js IH]; intros e L ch Hi He HL.
  - exists [], [], e. cbn. rewrite Nat.add_0_r, app_nil_r, Hi, He. auto.
  - destruct (Bool.bool_dec (present e) (Nat.even j)) as [Hs|Hs].
    + exists [], (j :: js), e. cbn [map app last length seq component_process_loop].
      rewrite Nat.add_0_r, app_nil_r, Hi, He, <- Hs. destruct (present e); auto.
    + assert (Hf := present_flip _ _ Hs).
      destruct (IH (Some j) (S L) (mkComponentChannel (Nat.even j) (Some (wid j)) (slots js)
        (rc_incoming ch ++ [comp_type L]))) as (d & js' & e' & Hjs & He' & Hr & Hp & Hh).
      { reflexivity. } { reflexivity. }
      { rewrite Nat.odd_succ, <- Nat.negb_odd, HL. exact Hf. }
      exists (j :: d), js', e'. split; [now subst|]. split.
      { rewrite He', last_cons. now destruct (last d). }
      split; [|split; [|exact Hh]].
      * assert (Nat.even L = Nat.even j) as Hje by (rewrite <- Hf, <- HL, <- Nat.negb_odd; reflexivity).
        assert (Ht : comp_type L = if Nat.even j then TInsertComponent else TRemoveComponent)
          by (unfold comp_type; now rewrite Hje).
        cbn [map length seq component_process_loop]. rewrite Hi.
        cbn [rc_incoming] in Hr. rewrite <- app_assoc in Hr. cbn [app] in Hr. rewrite Ht in Hr |- *.
        destruct (present e), (Nat.even j); try discriminate Hf; cbn [negb]; exact Hr.
      * cbn [length]. now rewrite <- plus_n_Sm.
Qed.

Lemma drain_types kind ch L k :
  rc_incoming ch = map comp_type (seq L k) ->
  component_drain_messages kind ch =
    Ok (map (comp_msg kind) (seq L k), mkComponentChannel (rc_inserted ch) (rc_last_epoch_id ch) (rc_buffered ch) []).
Proof.
  intros Hi. unfold component_drain_messages. rewrite Hi.
  enough (forall acc, foldM (fun t acc => m ← with_component_kind t kind; Ok (acc ++ [m])) (map comp_type (seq L k)) acc
                      = Ok (acc ++ map (comp_msg kind) (seq L k))) as E by (now rewrite E).
  generalize L. clear. induction k as [|k IH]; intros L acc; [cbn; now rewrite app_nil_r|].
  cbn [seq map foldM].
  replace (with_component_kind (comp_type L) kind) with (Ok (comp_msg kind L))
    by (unfold comp_type, comp_msg; now destruct (Nat.even L)).
  cbn [mbind res_bind]. rewrite IH, <- app_assoc. reflexivity.
Qed.

(** Running the loop on a live channel. *)
Lemma comp_process kind arr L e js ch :
  comp_base arr L e js ch ->
  exists L' e' js' ch', component_drain_messages kind (component_process_messages Spawned ch) =
      Ok (map (comp_msg kind) (seq L (L' - L)), ch') /\ (L <= L')%nat /\ comp_state arr true L' e' js' ch'.
Proof.
  intros [H1 H2 H3 H4 H5 H6 H7 H8 H10]. unfold component_process_messages.
  rewrite decide_False by (intros Hn; now apply Hn). rewrite H1.
  destruct (process_loop_spec js e L ch H6 H4 H8) as (d & js' & e' & -> & He' & -> & Hp & Hh).
  rewrite H10, app_nil_l.
  exists (L + length d)%nat, e', js'. eexists. split; [|split; [lia|]].
  { replace (L + length d - L)%nat with (length d) by lia. apply drain_types. reflexivity. }
  apply increasing_app in H2 as (Hd & Hj' & Hlt).
  assert (Hup : forall j, j ∈ d -> upto e' j).
  { intros j Hj. destruct (last d) as [i|] eqn:El; [|apply last_None in El; subst d; inversion Hj].
    subst e'. cbn. apply last_Some in El as [d' ->]. apply elem_of_app in Hj as [Hj|Hj].
    - apply increasing_app in Hd as (_ & _ & Hd). specialize (Hd j i Hj ltac:(left)). lia.
    - apply list_elem_of_singleton in Hj. lia. }
  split; [|exact Hh]. split; cbn; auto.
  - intros j Hj. destruct (H3 j) as (Hm & Ha & Hf); [apply elem_of_app; now right|]. repeat split; auto.
    destruct (last d) as [i|] eqn:El; subst e'; [|exact Hf]. cbn. apply Hlt; [|exact Hj].
    apply last_Some in El as [d' ->]. apply elem_of_app. right. left.
  - intros j ->. destruct (last d) as [i|] eqn:El; [|now apply H5].
    injection He' as ->. apply last_Some in El as [d' ->]. apply H3.
    apply elem_of_app. left. apply elem_of_app. right. left.
  - intros j Hj Ha. destruct (H7 j Hj Ha) as [Hu|Hu].
    + left. destruct (last d) as [i|] eqn:El; subst e'; [|exact Hu]. destruct e as [i0|]; [|contradiction Hu].
      cbn in *. destruct (H3 i) as (_ & _ & Hai); [|cbn in Hai; lia].
      apply last_Some in El as [d' ->]. apply elem_of_app. left. apply elem_of_app. right. left.
    + apply elem_of_app in Hu as [Hu|Hu]; auto.
Qed.

(** A message that has not arrived before. *)
Lemma comp_accept kind arr live L e js ch j :
  comp_state arr live L e js ch -> (j < m)%nat -> ~ arr j ->
  exists ch1 L' e' js' ch',
    component_accept_message (if live then Spawned else Despawned) (wid j) (comp_msg kind j) ch = Ok ch1 /\
    component_drain_messages kind ch1 = Ok (map (comp_msg kind) (seq L (L' - L)), ch') /\
    (L <= L')%nat /\ comp_state (fun i => arr i \/ i = j) live L' e' js' ch'.
Proof.
  intros [[H1 H2 H3 H4 H5 H6 H7 H8 H10] Hl] Hj Hn.
  unfold component_accept_message. rewrite H4.
  assert (Hcase : match wid <$> e with Some last => sequence_equal_or_less_than (wid j) last | None => false end
                  = match e with Some i => (j <=? i)%nat | None => false end).
  { destruct e as [i|]; [|reflexivity]. cbn. apply (ordered_le m); auto. }
  rewrite Hcase. clear Hcase. destruct (match e with Some i => (j <=? i)%nat | None => false end) eqn:Hle.
  - exists ch, L, e, js, ch. rewrite Nat.sub_diag. split; [reflexivity|]. split; [|split; [lia|]].
    { rewrite (drain_types kind ch L 0) by (now rewrite H10). rewrite <- H10. now destruct ch. }
    destruct e as [i|]; [|discriminate]. apply Nat.leb_le in Hle. split; [|exact Hl]. split; auto.
    + intros i' Hi. destruct (H3 i' Hi) as (? & ? & ?). auto.
    + intros i' Hi [Ha| ->]; [auto|]. now left.
  - assert (Hjs : j ∉ js) by (intros Hin; apply Hn, (H3 j Hin)).
    assert (Haf : after e j) by (destruct e as [i|]; cbn in *; [apply Nat.leb_gt in Hle; lia|exact I]).
    replace (match comp_msg kind j with InsertComponent _ _ => Ok true | RemoveComponent _ _ => Ok false | _ => Panic end)
      with (Ok (Nat.even j)) by (unfold comp_msg; now destruct (Nat.even j)).
    cbn [mbind res_bind]. rewrite H1.
    rewrite (push_back_ordered m wid Hord Nat.even j js Hj) by (auto; intros i Hi; apply (H3 i Hi)).
    cbn [mbind res_bind].
    set (ch0 := mkComponentChannel (rc_inserted ch) (wid <$> e) (slots (ins j js)) (rc_incoming ch)).
    assert (Hst : comp_base (fun i => arr i \/ i = j) L e (ins j js) ch0).
    { split; cbn; auto.
      - now apply increasing_ins.
      - intros i Hi. apply elem_of_ins in Hi as [ -> |Hi]; [auto|]. destruct (H3 i Hi) as (? & ? & ?). auto.
      - intros i Hi [Ha| ->]; [destruct (H7 i Hi Ha)|]; rewrite ?elem_of_ins; auto. }
    destruct live.
    + destruct (comp_process kind _ _ _ _ _ Hst) as (L' & e' & js' & ch' & Hd & HL & Hs').
      do 5 eexists. split; [reflexivity|]. eauto.
    + exists ch0, L, e, (ins j js), ch0. rewrite Nat.sub_diag. split; [reflexivity|]. split; [|split; [lia|]].
      { rewrite (drain_types kind ch0 L 0) by (cbn; now rewrite H10). unfold ch0. now rewrite H10. }
      split; [exact Hst|exact Hl].
Qed.

(** When the whole stream has arrived the presence is that of its last message. *)
Lemma comp_converges arr L e js ch :
  comp_state arr true L e js ch -> (forall j, (j < m)%nat -> arr j) ->
  js = [] /\ rc_inserted ch = Nat.odd m.
Proof.
  intros [[H1 H2 H3 H4 H5 H6 H7 H8 H10] Hl] Hall. rewrite H6.
  assert (Hnext : forall i, (i < m)%nat -> after e i -> (forall j, after e j -> (i <= j)%nat) ->
                  Nat.even i <> present e -> False).
  { intros i Hi Ha Hmin Hne. destruct (H7 i Hi (Hall i Hi)) as [Hu|Hu].
    - destruct e; cbn in *; [lia|contradiction].
    - destruct js as [|j js]; [inversion Hu|]. cbn in H2, Hl. apply Hne. rewrite <- Hl. f_equal.
      apply elem_of_cons in Hu as [Hu|Hu]; [exact Hu|].
      destruct H2 as [H2 _]. specialize (H2 i Hu). destruct (H3 j ltac:(left)) as (_ & _ & Hj).
      specialize (Hmin j Hj). lia. }
  assert (Hlast : match e with Some i => (S i = m)%nat | None => m = 0%nat end).
  { destruct e as [i|].
    - destruct (decide (S i = m)) as [|Hne]; [auto|exfalso]. specialize (H5 i eq_refl).
      apply (Hnext (S i)); [lia|cbn; lia|cbn; auto|]. cbn [present]. rewrite Nat.even_succ, <- Nat.negb_even.
      now destruct (Nat.even i).
    - destruct m as [|m0]; [reflexivity|exfalso]. apply (Hnext 0%nat); cbn; [lia|auto|intros; lia|discriminate]. }
  split.
  - destruct js as [|j js]; [reflexivity|exfalso]. destruct (H3 j ltac:(left)) as (Hj & _ & Ha).
    destruct e; cbn in Ha; lia.
  - destruct e as [i|]; [|now rewrite Hlast]. rewrite <- Hlast, Nat.odd_succ. reflexivity.
Qed.

End Component.

(** * Authority messages: strictly in the order of their sub-command ids *)
Section Authority.
Context (m : nat) (wid : nat -> Z) (Hord : ordered m wid) (msg : nat -> EntityMessage unit).
Context (Hsub : forall j, (j < m)%nat -> subcommand_id (msg j) = Some (Z.of_nat j)) (Hm : Z.of_nat m <= 256).
Implicit Types (arr : nat -> Prop) (js : list nat) (r : AuthChannelReceiver).

Abbreviation waiting := (map (fun j => (wid j, msg j))).

(** [L]: how many messages have been emitted; [js]: the ones waiting. *)
Record auth_base arr (L : nat) js r : Prop := {
  as_buffered : ar_buffered r = waiting js;
  as_increasing : increasing js;
  as_waiting : forall j, j ∈ js -> (j < m)%nat /\ arr j /\ (L <= j)%nat;
  as_next : ar_next_subcommand_id r = wrap 8 (Z.of_nat L);
  as_seen : forall j, (j < m)%nat -> arr j -> (j < L)%nat \/ j ∈ js;
  as_emitted : (L <= m)%nat /\ forall j, (j < L)%nat -> arr j;
  as_incoming : ar_incoming r = [] }.

Definition auth_state arr (live : bool) L js r : Prop :=
  auth_base arr L js r /\
  if live then match js with j :: _ => j <> L | [] => True end else L = 0%nat.

Lemma auth_state_new live : auth_state (fun _ => False) live 0 [] AuthChannelReceiver_new.
Proof.
  split; [split; cbn; try easy|now destruct live]. split; [lia|]. intros j Hj. lia.
Qed.

Lemma auth_state_ext arr arr' live L js r :
  (forall j, (j < m)%nat -> arr j <-> arr' j) -> auth_state arr live L js r -> auth_state arr' live L js r.
Proof.
  intros Heq [[H1 H2 H3 H4 H5 H6 H7] H8]. split; [|exact H8]. split; auto.
  - intros j Hj. destruct (H3 j Hj) as (? & ? & ?). repeat split; auto. now apply Heq.
  - intros j Hj Ha. apply H5; [auto|]. now apply Heq.
  - destruct H6 as [H6 H6']. split; [auto|]. intros j Hj. apply Heq; [lia|auto].
Qed.

Lemma auth_loop_spec js L r :
  increasing js -> (forall j, j ∈ js -> (j < m)%nat /\ (L <= j)%nat) ->
  ar_next_subcommand_id r = wrap 8 (Z.of_nat L) ->
  exists k js', js = seq L k ++ js' /\
    auth_process_loop (waiting js) r =
      Ok (mkAuthReceiver (wrap 8 (Z.of_nat (L + k))) (waiting js') (ar_incoming r ++ map msg (seq L k))) /\
    match js' with j :: _ => j <> (L + k)%nat | [] => True end.
Proof.
  revert L r. induction js as [|j js IH]; intros L r Hi Hb Hn.
  - exists 0%nat, []. cbn. now rewrite Nat.add_0_r, app_nil_r, Hn.
  - destruct Hi as [Hlt Hi]. destruct (Hb j ltac:(left)) as [Hj HL].
    cbn [map auth_process_loop]. rewrite (Hsub j Hj), Hn. cbn [unwrap mbind res_bind].
    assert (wrap 8 (Z.of_nat L) = Z.of_nat L) as Hw by (unfold wrap; apply Z.mod_small; lia). rewrite Hw.
    destruct (Z.eqb_spec (Z.of_nat j) (Z.of_nat L)) as [He|Hne]; cbn [negb].
    + apply Nat2Z.inj in He. subst j.
      destruct (IH (S L) (mkAuthReceiver (wrap 8 (Z.of_nat L + 1)) (waiting js) (ar_incoming r ++ [msg L])))
        as (k & js' & -> & Hr & Hh).
      { exact Hi. }
      { intros j Hj'. specialize (Hlt j Hj'). destruct (Hb j); [now right|]. lia. }
      { cbn. f_equal. lia. }
      exists (S k), js'. split; [reflexivity|]. split; [|now rewrite <- plus_n_Sm].
      rewrite Hr. cbn [ar_incoming seq map]. rewrite <- app_assoc, <- plus_n_Sm. reflexivity.
    + exists 0%nat, (j :: js). split; [reflexivity|]. cbn [seq map]. rewrite Nat.add_0_r, app_nil_r, Hw.
      split; [reflexivity|]. intros ->. now apply Hne.
Qed.

Lemma auth_process arr L js r :
  auth_base arr L js r ->
  exists L' js' next, AuthChannelReceiver_process_messages (Some Spawned) r =
      Ok (mkAuthReceiver next (waiting js') (map msg (seq L (L' - L)))) /\ (L <= L')%nat /\
    auth_state arr true L' js' (mkAuthReceiver next (waiting js') []).
Proof.
  intros [H1 H2 H3 H4 H5 [H6 H6'] H7]. cbn [AuthChannelReceiver_process_messages]. rewrite H1.
  destruct (auth_loop_spec js L r H2) as (k & js' & -> & -> & Hh); [|exact H4|].
  { intros j Hj. destruct (H3 j Hj) as (? & ? & ?). auto. }
  rewrite H7, app_nil_l. exists (L + k)%nat, js', (wrap 8 (Z.of_nat (L + k))).
  replace (L + k - L)%nat with k by lia. split; [reflexivity|]. split; [lia|]. split; [|exact Hh].
  apply increasing_app in H2 as (Hd & Hj' & Hlt).
  assert (Hin : forall j, (L <= j < L + k)%nat -> j ∈ seq L k ++ js').
  { intros j Hj. apply elem_of_app. left. apply elem_of_seq. lia. }
  split; cbn; auto.
  - intros j Hj. destruct (H3 j) as (Hm' & Ha & HL); [apply elem_of_app; now right|]. repeat split; auto.
    destruct (decide (k = 0%nat)) as [->|Hk]; [lia|].
    assert (L + k - 1 < j)%nat; [|lia]. apply Hlt; [|exact Hj]. apply elem_of_seq. lia.
  - intros j Hj Ha. destruct (H5 j Hj Ha) as [Hu|Hu]; [left; lia|].
    apply elem_of_app in Hu as [Hu|Hu]; [|now right]. apply elem_of_seq in Hu. left. lia.
  - split.
    + destruct (decide (k = 0%nat)) as [->|Hk]; [lia|].
      destruct (H3 (L + k - 1)%nat) as (? & _); [apply Hin; lia|]. lia.
    + intros j Hj. destruct (decide (j < L)%nat); [auto|]. destruct (H3 j) as (_ & ? & _); [apply Hin; lia|auto].
Qed.

(** A message that has not arrived before. *)
Lemma auth_accept arr live L js r j :
  auth_state arr live L js r -> (j < m)%nat -> ~ arr j ->
  exists L' js' next,
    AuthChannelReceiver_receive_message (Some (if live then Spawned else Despawned)) (wid j) (msg j) r =
      Ok (mkAuthReceiver next (waiting js') (map msg (seq L (L' - L)))) /\ (L <= L')%nat /\
    auth_state (fun i => arr i \/ i = j) live L' js' (mkAuthReceiver next (waiting js') []).
Proof.
  intros [[H1 H2 H3 H4 H5 [H6 H6'] H7] Hl] Hj Hn. unfold AuthChannelReceiver_receive_message.
  assert (Hjs : j ∉ js) by (intros Hin; apply Hn, (H3 j Hin)).
  assert (HLj : (L <= j)%nat) by (destruct (decide (j < L)%nat) as [Hlt|]; [contradiction (Hn (H6' j Hlt))|lia]).
  rewrite H1, (push_back_ordered m wid Hord msg j js Hj) by (auto; intros i Hi; apply (H3 i Hi)).
  cbn [mbind res_bind]. rewrite H7.
  assert (Hst : auth_base (fun i => arr i \/ i = j) L (ins j js)
                  (mkAuthReceiver (ar_next_subcommand_id r) (waiting (ins j js)) [])).
  { split; cbn; auto.
    - now apply increasing_ins.
    - intros i Hi. apply elem_of_ins in Hi as [ -> |Hi]; [auto|]. destruct (H3 i Hi) as (? & ? & ?). auto.
    - intros i Hi [Ha| ->]; [destruct (H5 i Hi Ha)|]; rewrite ?elem_of_ins; auto. }
  destruct live.
  - destruct (auth_process _ _ _ _ Hst) as (L' & js' & next & -> & HL & Hs'). eauto 10.
  - exists L, (ins j js), (ar_next_subcommand_id r). rewrite Nat.sub_diag. cbn [seq map AuthChannelReceiver_process_messages].
    split; [reflexivity|]. split; [lia|]. split; [exact Hst|exact Hl].
Qed.

Lemma auth_converges arr L js r :
  auth_state arr true L js r -> (forall j, (j < m)%nat -> arr j) -> L = m /\ js = [].
Proof.
  intros [[H1 H2 H3 H4 H5 [H6 H6'] H7] Hl] Hall.
  assert (L = m) as ->.
  { destruct (decide (L = m)) as [|Hne]; [auto|exfalso].
    destruct (H5 L ltac:(lia)) as [Hu|Hu]; [apply Hall; lia|lia|].
    destruct js as [|j js]; [inversion Hu|]. apply elem_of_cons in Hu as [Hu|Hu]; [congruence|].
    destruct H2 as [H2 _]. specialize (H2 L Hu). destruct (H3 j ltac:(left)) as (_ & _ & ?). lia. }
  split; [reflexivity|]. destruct js as [|j js]; [reflexivity|exfalso].
  destruct (H3 j ltac:(left)) as (? & _ & ?). lia.
Qed.

End Authority.
