(* ===== verification/SyncEntity.v ===== *)
(** Replication of one entity and of a world of entities over a reliable channel that
    reorders messages: the theorems on src/shared/src/world/sync/remote_entity_channel.rs
    and remote_engine.rs.

    A [script] is what a host sends about one lifetime of an entity: a spawn, which may bring
    components along, inserts and removes that alternate per component kind, authority
    messages numbered in order, and possibly a despawn at the end.  Its messages arrive in any
    order, except that those about a component that the spawn brings along come after it. *)

From Stdlib Require Import ZArith Lia.
From stdpp Require Import base list numbers option gmap.
From S2P Require Import Prelude Wrapping Wire EntityTypes Reliable SyncEngine SyncOrder.

(** * Positions of the elements that satisfy a predicate *)
Section Positions.
Context {A : Type} (P : A -> Prop) `{!forall x, Decision (P x)}.

Fixpoint positions (i : nat) (l : list A) : list nat :=
  match l with
  | [] => []
  | x :: l' => if decide (P x) then i :: positions (S i) l' else positions (S i) l'
  end.

Lemma positions_bound i l p : p ∈ positions i l -> (i <= p < i + length l)%nat.
Proof.
  revert i. induction l as [|x l IH]; cbn [positions length]; intros i; [intros H0; inversion H0|].
  case_decide; [intros [->|Hp]%elem_of_cons|intros Hp]; [lia|apply IH in Hp; lia..].
Qed.

Lemma positions_increasing i l : increasing (positions i l).
Proof.
  revert i. induction l as [|x l IH]; intros i; cbn [positions]; [exact I|].
  case_decide; [|apply IH]. split; [|apply IH]. intros q Hq%positions_bound. lia.
Qed.

Lemma positions_length i l : length (positions i l) = length (filter P l).
Proof.
  revert i. induction l as [|x l IH]; intros i; cbn [positions]; [reflexivity|].
  rewrite filter_cons. case_decide; cbn [length]; now rewrite IH.
Qed.

Lemma positions_lookup i l j p :
  positions i l !! j = Some p -> (i <= p)%nat /\ exists x, l !! (p - i)%nat = Some x /\ filter P l !! j = Some x /\ P x.
Proof.
  revert i j. induction l as [|x l IH]; intros i j; cbn [positions]; [discriminate|].
  rewrite filter_cons. case_decide as HP.
  - destruct j as [|j]; cbn.
    + intros [= ->]. split; [lia|]. exists x. rewrite Nat.sub_diag. auto.
    + intros (Hle & y & H1 & H2 & H3)%IH. split; [lia|]. exists y.
      replace (p - i)%nat with (S (p - S i)) by lia. auto.
  - intros (Hle & y & H1 & H2 & H3)%IH. split; [lia|]. exists y.
    replace (p - i)%nat with (S (p - S i)) by lia. auto.
Qed.

Lemma positions_elem i l p x : l !! p = Some x -> P x -> (i + p)%nat ∈ positions i l.
Proof.
  revert i p. induction l as [|y l IH]; intros i p Hp HP; [discriminate|]. cbn [positions].
  destruct p as [|p]; cbn in Hp.
  - injection Hp as ->. rewrite decide_True by exact HP. rewrite Nat.add_0_r. left.
  - rewrite <- Nat.add_succ_comm. case_decide; [right|]; now apply IH.
Qed.

End Positions.

Lemma increasing_lookup_lt l i j p q :
  increasing l -> l !! i = Some p -> l !! j = Some q -> (i < j)%nat -> (p < q)%nat.
Proof.
  revert i j. induction l as [|x l IH]; intros i j Hl Hi Hj Hlt; [discriminate|]. destruct Hl as [Hx Hl].
  destruct j as [|j]; [lia|]. destruct i as [|i]; cbn in *.
  - injection Hi as ->. apply Hx. eapply list_elem_of_lookup_2; eauto.
  - eapply IH; eauto. lia.
Qed.

Lemma increasing_lookup_inj l i j p : increasing l -> l !! i = Some p -> l !! j = Some p -> i = j.
Proof.
  intros Hl Hi Hj. destruct (lt_eq_lt_dec i j) as [[H|H]|H]; [|exact H|];
    eapply increasing_lookup_lt in H; eauto; lia.
Qed.

(** * Scripts *)
Definition of_kind (kind : ComponentKind) (m : EntityMessage unit) : Prop :=
  EntityMessage_component_kind m = Some kind.
#[global] Instance of_kind_dec kind m : Decision (of_kind kind m).
Proof. unfold of_kind. apply _. Defined.

(** The components that come with a spawn. *)
Definition brings (m : EntityMessage unit) : list ComponentKind :=
  match m with SpawnWithComponents _ kinds => kinds | _ => [] end.

(** The messages of a script about a component: its inserts and removes, and a spawn that brings it. *)
Definition about (kind : ComponentKind) (m : EntityMessage unit) : Prop := of_kind kind m \/ kind ∈ brings m.
#[global] Instance about_dec kind m : Decision (about kind m).
Proof. unfold about. apply _. Defined.

Definition is_spawn (m : EntityMessage unit) : Prop :=
  match m with Spawn _ => True | SpawnWithComponents _ kinds => NoDup kinds | _ => False end.

Lemma about_later kind m : brings m = [] -> about kind m <-> of_kind kind m.
Proof. unfold about. intros ->. rewrite elem_of_nil. tauto. Qed.

Lemma of_kind_brings kind m : of_kind kind m -> brings m = [].
Proof. unfold of_kind. now destruct m. Qed.

(** The authority messages that a remote entity channel accepts. *)
Definition is_authority (m : EntityMessage unit) : Prop :=
  match m with
  | Publish _ _ | Unpublish _ _ | EnableDelegation _ _ | DisableDelegation _ _ | ReleaseAuthority _ _
  | SetAuthority _ _ _ => True
  | _ => False
  end.
#[global] Instance is_authority_dec m : Decision (is_authority m).
Proof. destruct m; cbn; apply _. Defined.

Record script_ok (script : list (EntityMessage unit)) : Prop := {
  sc_spawn : exists m, script !! 0%nat = Some m /\ is_spawn m;
  sc_messages : forall p m, script !! S p = Some m ->
    (exists kind, of_kind kind m) \/ is_authority m \/ (m = Despawn tt /\ S (S p) = length script);
  sc_components : forall kind j m, filter (about kind) script !! j = Some m -> of_kind kind m -> m = comp_msg kind j;
  sc_subcommands : forall j m, filter is_authority script !! j = Some m -> subcommand_id m = Some (Z.of_nat j);
  sc_authority : Z.of_nat (length (filter is_authority script)) <= 256 }.

(** Whether a script ends with the despawn. *)
Definition despawns (script : list (EntityMessage unit)) : bool := bool_decide (last script = Some (Despawn tt)).

(** The component kinds a script leaves on the entity. *)
Definition leaves_inserted (script : list (EntityMessage unit)) (kind : ComponentKind) : bool :=
  Nat.odd (length (filter (about kind) script)).

Lemma filter_kind_msgs kind kind' l :
  filter (of_kind kind') (map (comp_msg kind) l) = if decide (kind = kind') then map (comp_msg kind) l else [].
Proof.
  induction l as [|j l IH]; cbn [map]; [now case_decide|]. rewrite filter_cons, IH.
  assert (of_kind kind' (comp_msg kind j) <-> kind = kind').
  { unfold of_kind, comp_msg. destruct (Nat.even j); cbn; split; congruence. }
  destruct (decide (kind = kind')); case_decide; tauto || reflexivity.
Qed.

Lemma filter_authority_msgs kind l : filter is_authority (map (comp_msg kind) l) = [].
Proof.
  apply filter_none. intros m (j & -> & _)%list_elem_of_fmap. unfold comp_msg. destruct (Nat.even j); auto.
Qed.

Lemma authority_not_kind kind m : is_authority m -> ~ of_kind kind m.
Proof. unfold of_kind. destruct m; cbn; try contradiction; discriminate. Qed.

Lemma authority_not_about kind m : is_authority m -> ~ about kind m.
Proof. intros Ha [Hk|Hk]; [now apply (authority_not_kind kind m Ha)|]. destruct m; try contradiction; inversion Hk. Qed.

Lemma kind_not_about kind kind' m : of_kind kind m -> kind' <> kind -> ~ about kind' m.
Proof. intros Hk Hne Ha. apply about_later in Ha; [unfold of_kind in *; congruence|eapply of_kind_brings, Hk]. Qed.

(** The inserts that a spawn with components emits. *)
Lemma filter_brought kind kinds : NoDup kinds ->
  filter (of_kind kind) (map (InsertComponent tt) kinds) = if decide (kind ∈ kinds) then [InsertComponent tt kind] else [].
Proof.
  induction 1 as [|k kinds Hk _ IH]; [reflexivity|]. cbn [map]. rewrite filter_cons, IH. unfold of_kind. cbn [EntityMessage_component_kind].
  destruct (decide (k = kind)) as [->|Hne].
  - rewrite decide_True by reflexivity. now rewrite decide_False, decide_True by (assumption || left).
  - rewrite decide_False by congruence. apply decide_ext. rewrite elem_of_cons. split; [auto|]. intros [->|]; [contradiction|assumption].
Qed.

Lemma fold_brought id kinds (m : gmap ComponentKind RemoteComponentChannel) kind : NoDup kinds ->
  fold_left (fun m kind => <[kind := set_inserted true id (channel_entry kind m)]> m) kinds m !! kind =
  if decide (kind ∈ kinds) then Some (set_inserted true id (channel_entry kind m)) else m !! kind.
Proof.
  intros Hnd. revert m. induction Hnd as [|k kinds Hk _ IH]; intros m; cbn [fold_left]; [reflexivity|]. rewrite IH. unfold channel_entry.
  destruct (decide (k = kind)) as [->|Hne].
  - rewrite lookup_insert_eq. rewrite decide_False, decide_True by (assumption || left). reflexivity.
  - rewrite lookup_insert_ne by exact Hne. apply decide_ext. rewrite elem_of_cons. split; [auto|]. intros [->|]; [contradiction|assumption].
Qed.

Lemma map_seq_extend {A} (f : nat -> A) L L' :
  (L <= L')%nat -> map f (seq 0 L) ++ map f (seq L (L' - L)) = map f (seq 0 L').
Proof. intros H. rewrite <- map_app, <- seq_app. do 2 f_equal. lia. Qed.

Lemma map_default_seq {A} (d : A) (l : list A) L :
  (L <= length l)%nat -> map (fun j => default d (l !! j)) (seq 0 L) = take L l.
Proof.
  intros HL. apply list_eq. intros i. rewrite lookup_map. destruct (decide (i < L)%nat) as [Hi|Hi].
  - rewrite lookup_seq_lt, lookup_take_lt by lia. cbn.
    destruct (lookup_lt_is_Some_2 l i) as [x ->]; [lia|reflexivity].
  - rewrite lookup_seq_ge, lookup_take_ge by lia. reflexivity.
Qed.

Section Lifetime.
Context (script : list (EntityMessage unit)) (wid : nat -> Z).
Context (Hscript : script_ok script) (Hord : ordered (length script) wid).
Implicit Types (A : list nat) (out : list (EntityMessage unit)) (c : RemoteEntityChannel) (kind : ComponentKind).

Abbreviation n := (length script).
Definition msg_at (p : nat) : EntityMessage unit := default Noop (script !! p).

(** Stream of the messages with property [P]: position and index of message [j]. *)
Definition at_pos (P : EntityMessage unit -> Prop) `{!forall x, Decision (P x)} (j : nat) : nat :=
  default 0%nat (positions P 0 script !! j).
Definition size_of (P : EntityMessage unit -> Prop) `{!forall x, Decision (P x)} : nat := length (filter P script).

Section OneStream.
Context (P : EntityMessage unit -> Prop) `{!forall x, Decision (P x)}.

Lemma at_pos_spec j :
  (j < size_of P)%nat ->
  positions P 0 script !! j = Some (at_pos P j) /\ (at_pos P j < n)%nat /\
  filter P script !! j = Some (msg_at (at_pos P j)) /\ P (msg_at (at_pos P j)).
Proof.
  unfold size_of, at_pos, msg_at. intros Hj. rewrite <- (positions_length P 0 script) in Hj.
  apply lookup_lt_is_Some_2 in Hj as [p Hp]. rewrite Hp. cbn.
  destruct (positions_lookup P 0 script j p Hp) as (_ & x & H1 & H2 & H3).
  rewrite Nat.sub_0_r in H1. rewrite H1. cbn. apply lookup_lt_Some in H1. auto.
Qed.

Lemma at_pos_mono i j : (i < j < size_of P)%nat -> (at_pos P i < at_pos P j)%nat.
Proof.
  intros Hij. apply (increasing_lookup_lt (positions P 0 script) i j);
    [apply positions_increasing|apply at_pos_spec; lia..|lia].
Qed.

Lemma at_pos_inj i j : (i < size_of P)%nat -> (j < size_of P)%nat -> at_pos P i = at_pos P j -> i = j.
Proof.
  intros Hi Hj He. destruct (at_pos_spec i Hi) as [H1 _], (at_pos_spec j Hj) as [H2 _]. rewrite He in H1.
  eapply increasing_lookup_inj; [apply (positions_increasing P 0 script)|eauto..].
Qed.

Lemma at_pos_find p : (p < n)%nat -> P (msg_at p) -> exists j, (j < size_of P)%nat /\ at_pos P j = p.
Proof.
  unfold msg_at. intros [x Hx]%lookup_lt_is_Some_2 HP. rewrite Hx in HP. cbn in HP.
  pose proof (positions_elem P 0 script p x Hx HP) as Hin. cbn in Hin.
  apply list_elem_of_lookup in Hin as [j Hj]. exists j. unfold at_pos, size_of. rewrite Hj. split; [|reflexivity].
  rewrite <- (positions_length P 0 script). eapply lookup_lt_Some; eauto.
Qed.

Lemma ordered_stream : ordered (size_of P) (fun j => wid (at_pos P j)).
Proof.
  apply (ordered_sub n); [exact Hord| |apply at_pos_mono]. intros j Hj. apply at_pos_spec, Hj.
Qed.

(** What has arrived of the stream, and the effect of one more arrival. *)
Definition arrived A (j : nat) : Prop := at_pos P j ∈ A.

Lemma arrived_same A p j0 j :
  (j0 < size_of P)%nat -> at_pos P j0 = p -> (j < size_of P)%nat ->
  (arrived A j \/ j = j0) <-> arrived (p :: A) j.
Proof.
  intros H0 <- Hj. unfold arrived. rewrite elem_of_cons. split; [intros [Ha| ->]; auto|].
  intros [Ha|Ha]; [right; now apply at_pos_inj|now left].
Qed.

Lemma arrived_other A p j :
  ~ P (msg_at p) -> (j < size_of P)%nat -> arrived A j <-> arrived (p :: A) j.
Proof.
  intros HP Hj. unfold arrived. rewrite elem_of_cons. split; [auto|]. intros [Ha|Ha]; [|exact Ha].
  destruct HP. rewrite <- Ha. apply at_pos_spec, Hj.
Qed.

End OneStream.

Lemma kind_msg kind j : (j < size_of (about kind))%nat -> of_kind kind (msg_at (at_pos (about kind) j)) ->
  msg_at (at_pos (about kind) j) = comp_msg kind j.
Proof.
  intros Hj Hk. destruct (at_pos_spec (about kind) j Hj) as (_ & _ & H & _). exact (sc_components _ Hscript kind j _ H Hk).
Qed.

Definition auth_msg (j : nat) : EntityMessage unit := default Noop (filter is_authority script !! j).

Lemma auth_msg_at j : (j < size_of is_authority)%nat -> msg_at (at_pos is_authority j) = auth_msg j.
Proof. intros Hj. unfold auth_msg. destruct (at_pos_spec _ j Hj) as (_ & _ & -> & _). reflexivity. Qed.

Lemma auth_msg_sub j : (j < size_of is_authority)%nat -> subcommand_id (auth_msg j) = Some (Z.of_nat j).
Proof.
  intros Hj. rewrite <- auth_msg_at by exact Hj. apply (sc_subcommands _ Hscript), at_pos_spec, Hj.
Qed.

Lemma auth_msg_is j : (j < size_of is_authority)%nat -> is_authority (auth_msg j).
Proof. intros Hj. rewrite <- auth_msg_at by exact Hj. apply at_pos_spec, Hj. Qed.

(** * The invariant *)
Definition comp_part A (live : bool) out (m : gmap ComponentKind RemoteComponentChannel) kind : Prop :=
  exists L e js, filter (of_kind kind) out = map (comp_msg kind) (seq 0 L) /\
    comp_state (size_of (about kind)) (fun j => wid (at_pos (about kind) j)) (arrived (about kind) A)
      live L e js (channel_entry kind m).

Definition auth_part A (live : bool) out (a : AuthChannel) : Prop :=
  exists L js, filter is_authority out = map auth_msg (seq 0 L) /\
    auth_state (size_of is_authority) (fun j => wid (at_pos is_authority j)) auth_msg (arrived is_authority A)
      live L js (ac_receiver a).

Lemma comp_part_ext A A' live out out' m m' kind :
  (forall j, (j < size_of (about kind))%nat -> arrived (about kind) A j <-> arrived (about kind) A' j) ->
  filter (of_kind kind) out' = filter (of_kind kind) out -> m' !! kind = m !! kind ->
  comp_part A live out m kind -> comp_part A' live out' m' kind.
Proof.
  intros HA Ho Hm (L & e & js & H1 & H2). exists L, e, js. rewrite Ho. split; [exact H1|].
  unfold channel_entry. rewrite Hm. eapply comp_state_ext; eauto.
Qed.

Lemma auth_part_ext A A' live out out' a :
  (forall j, (j < size_of is_authority)%nat -> arrived is_authority A j <-> arrived is_authority A' j) ->
  filter is_authority out' = filter is_authority out ->
  auth_part A live out a -> auth_part A' live out' a.
Proof.
  intros HA Ho (L & js & H1 & H2). exists L, js. rewrite Ho. split; [exact H1|].
  eapply auth_state_ext; eauto.
Qed.

(** Neither a spawn nor a despawn (nor a [Noop]). *)
Definition quiet (m : EntityMessage unit) : Prop := m <> Spawn tt /\ m <> Despawn tt /\ m <> Noop.

Lemma authority_quiet m : is_authority m -> quiet m.
Proof. destruct m; cbn; try contradiction; repeat split; discriminate. Qed.

(** Messages of [kind] only. *)
Definition only_kind kind (l : list (EntityMessage unit)) : Prop :=
  filter is_authority l = [] /\ (forall kind', kind' <> kind -> filter (of_kind kind') l = []) /\ Forall quiet l.

Lemma only_kind_msgs kind l : only_kind kind (map (comp_msg kind) l).
Proof.
  split; [apply filter_authority_msgs|]. split.
  - intros kind' Hn. rewrite filter_kind_msgs. now rewrite decide_False by auto.
  - apply Forall_forall. intros m (j & -> & _)%list_elem_of_fmap. unfold comp_msg. destruct (Nat.even j); repeat split; discriminate.
Qed.

Definition channel_state (live : bool) : EntityChannelState := if live then Spawned else Despawned.

Lemma comp_part_accept A live out m kind p :
  comp_part A live out m kind -> (p < n)%nat -> of_kind kind (msg_at p) -> p ∉ A ->
  exists ch1 msgs ch',
    component_accept_message (channel_state live) (wid p) (msg_at p) (channel_entry kind m) = Ok ch1 /\
    component_drain_messages kind ch1 = Ok (msgs, ch') /\ only_kind kind msgs /\ (live = false -> msgs = []) /\
    comp_part (p :: A) live (out ++ msgs) (<[kind := ch']> m) kind.
Proof.
  intros (L & e & js & Ho & Hs) Hp Hk HA.
  destruct (at_pos_find (about kind) p Hp (or_introl Hk)) as (j & Hj & <-).
  destruct (comp_accept _ _ (ordered_stream (about kind)) kind _ _ _ _ _ _ j Hs Hj HA)
    as (ch1 & L' & e' & js' & ch' & H1 & H2 & HL & Hs').
  rewrite kind_msg by assumption. exists ch1, (map (comp_msg kind) (seq L (L' - L))), ch'.
  split; [exact H1|]. split; [exact H2|]. split; [apply only_kind_msgs|]. split.
  - intros ->. destruct Hs' as [_ [_ ->]]. reflexivity.
  - exists L', e', js'. split.
    + rewrite filter_app, Ho, filter_kind_msgs, decide_True by reflexivity. now apply map_seq_extend.
    + unfold channel_entry. rewrite lookup_insert_eq. cbn. eapply comp_state_ext; [|exact Hs'].
      intros i Hi. now apply arrived_same.
Qed.

Lemma auth_part_accept A live out a p :
  auth_part A live out a -> (p < n)%nat -> is_authority (msg_at p) -> p ∉ A ->
  exists a1, AuthChannel_receiver_receive_message (Some (channel_state live)) (wid p) (msg_at p) a = Ok a1 /\
    (forall x, x ∈ ar_incoming (ac_receiver a1) -> is_authority x) /\ (live = false -> ar_incoming (ac_receiver a1) = []) /\
    auth_part (p :: A) live (out ++ ar_incoming (ac_receiver a1)) (snd (AuthChannel_receiver_drain a1)).
Proof.
  intros (L & js & Ho & Hs) Hp Hk HA. destruct (at_pos_find _ p Hp Hk) as (j & Hj & <-).
  destruct (auth_accept _ _ (ordered_stream is_authority) auth_msg auth_msg_sub (sc_authority _ Hscript)
    _ _ _ _ _ j Hs Hj HA) as (L' & js' & next & H1 & HL & Hs').
  unfold AuthChannel_receiver_receive_message. rewrite auth_msg_at by exact Hj. unfold channel_state.
  cbv beta in H1. rewrite H1. cbn [mbind res_bind]. eexists. split; [reflexivity|]. cbn.
  assert (HL' : (L' <= size_of is_authority)%nat) by (destruct Hs' as [[_ _ _ _ _ [HL' _] _] _]; exact HL').
  assert (Hall : forall x, x ∈ map auth_msg (seq L (L' - L)) -> is_authority x).
  { intros x (i & -> & Hi)%list_elem_of_fmap. apply elem_of_seq in Hi. apply auth_msg_is. lia. }
  split; [exact Hall|]. split.
  - intros ->. destruct Hs' as [_ ->]. reflexivity.
  - exists L', js'. split.
    + rewrite filter_app, Ho, (filter_keep is_authority (map _ _)) by exact Hall. now apply map_seq_extend.
    + cbn. eapply auth_state_ext; [|exact Hs']. intros i Hi. now apply arrived_same.
Qed.

Section Spawning.
Context (iter : gmap ComponentKind RemoteComponentChannel -> list ComponentKind).
Context (Hiter : forall m, NoDup (iter m) /\ forall kind, kind ∈ iter m <-> is_Some (m !! kind)).

Lemma msg_at_spawn : is_spawn (msg_at 0).
Proof. unfold msg_at. destruct (sc_spawn _ Hscript) as (m & -> & Hm). exact Hm. Qed.

Lemma n_pos : (0 < n)%nat.
Proof. destruct (sc_spawn _ Hscript) as (m & Hm & _). eapply lookup_lt_Some, Hm. Qed.

(** What a spawn is not. *)
Lemma spawn_other : (forall kind, ~ of_kind kind (msg_at 0)) /\ ~ is_authority (msg_at 0) /\ msg_at 0 <> Despawn tt.
Proof. pose proof msg_at_spawn as H. destruct (msg_at 0); try contradiction; repeat split; auto; discriminate. Qed.

Lemma spawn_not_about kind : kind ∉ brings (msg_at 0) -> ~ about kind (msg_at 0).
Proof. intros Hk [Ha|Ha]; [now apply spawn_other in Ha|contradiction]. Qed.

(** Nothing of a script precedes its spawn. *)
Lemma stream_after_spawn (P : EntityMessage unit -> Prop) `{!forall x, Decision (P x)} j :
  ~ P (msg_at 0) -> (j < size_of P)%nat -> (0 < at_pos P j < n)%nat.
Proof.
  intros HP Hj. destruct (at_pos_spec P j Hj) as (_ & Hn & _ & Hm). split; [|exact Hn].
  destruct (at_pos P j) eqn:E; [contradiction|lia].
Qed.

(** The spawn is the first message about a component that it brings. *)
Lemma brought_first kind : kind ∈ brings (msg_at 0) -> (0 < size_of (about kind))%nat /\ at_pos (about kind) 0 = 0%nat.
Proof.
  intros Hk. destruct (at_pos_find (about kind) 0 n_pos (or_intror Hk)) as (j & Hj & Hp). split; [lia|].
  destruct j as [|j]; [exact Hp|]. pose proof (at_pos_mono (about kind) 0 (S j) ltac:(lia)). lia.
Qed.

(** A component that the spawn brings has no channel and no message before the spawn. *)
Definition unbrought A c : Prop := forall kind, kind ∈ brings (msg_at 0) ->
  re_components c !! kind = None /\ forall q, q ∈ A -> ~ of_kind kind (msg_at q).

Lemma comp_part_spawn A out m kind ch :
  comp_part A false out m kind -> ~ about kind (msg_at 0) -> m !! kind = Some ch ->
  exists msgs ch', component_drain_messages kind
      (component_process_messages Spawned (component_buffer_pop_until (wid 0%nat) ch)) = Ok (msgs, ch') /\
    only_kind kind msgs /\ comp_part A true msgs (<[kind := ch']> m) kind.
Proof.
  intros (L & e & js & Ho & [Hb [-> ->]]) Hna Hm. unfold channel_entry in Hb. rewrite Hm in Hb. cbn in Hb.
  assert (Hpop : component_buffer_pop_until (wid 0%nat) ch = ch).
  { unfold component_buffer_pop_until, pop_front_until_and_excluding. destruct Hb as [Hbuf _ Hw _ _ _ _ _ _].
    replace (pop_front_until (wid 0%nat) false (rc_buffered ch)) with (rc_buffered ch); [now destruct ch|].
    rewrite Hbuf. destruct js as [|j js]; [reflexivity|]. cbn [map pop_front_until].
    destruct (Hw j ltac:(left)) as (Hj & _).
    pose proof (stream_after_spawn (about kind) j Hna Hj).
    rewrite (ordered_lt n) by (auto; lia).
    rewrite (proj2 (Nat.ltb_ge _ _)) by lia. reflexivity. }
  rewrite Hpop. destruct (comp_process _ _ kind _ _ _ _ _ Hb) as (L' & e' & js' & ch' & H1 & _ & Hs').
  rewrite Nat.sub_0_r in H1. exists (map (comp_msg kind) (seq 0 L')), ch'. split; [exact H1|].
  split; [apply only_kind_msgs|]. exists L', e', js'. split.
  - now rewrite filter_kind_msgs, decide_True by reflexivity.
  - unfold channel_entry. rewrite lookup_insert_eq. exact Hs'.
Qed.

(** A kind without a channel is in the same state before and after the spawn. *)
Lemma comp_part_absent A out out' m kind :
  comp_part A false out m kind -> m !! kind = None -> filter (of_kind kind) out' = [] -> comp_part A true out' m kind.
Proof.
  intros (L & e & js & Ho & [Hb [-> ->]]) Hm Ho'. exists 0%nat, None, js. split; [exact Ho'|].
  split; [exact Hb|]. unfold channel_entry in Hb. rewrite Hm in Hb.
  destruct Hb as [Hb _ _ _ _ _ _ _ _]. cbn in Hb. now destruct js.
Qed.

Lemma flush_loop A ks m incoming :
  NoDup ks -> (forall kind, kind ∈ ks -> is_Some (m !! kind)) -> (forall kind, kind ∈ ks -> comp_part A false [] m kind) ->
  (forall kind, kind ∈ ks -> ~ about kind (msg_at 0)) ->
  exists m' msgs,
    foldM (fun kind '(components, incoming) =>
      channel ← unwrap (components !! kind);
      '(msgs, channel') ← component_drain_messages kind
        (component_process_messages Spawned (component_buffer_pop_until (wid 0%nat) channel));
      Ok (<[kind := channel']> components, incoming ++ msgs)) ks (m, incoming) = Ok (m', incoming ++ msgs) /\
    filter is_authority msgs = [] /\ Forall quiet msgs /\ (forall kind, kind ∈ ks -> comp_part A true msgs m' kind) /\
    (forall kind, kind ∉ ks -> m' !! kind = m !! kind /\ filter (of_kind kind) msgs = []).
Proof.
  revert m incoming. induction ks as [|k0 ks IH]; intros m incoming Hnd Hsome Hpart Hna.
  - exists m, []. cbn. rewrite app_nil_r. repeat split; auto. intros kind Hk. inversion Hk.
  - apply NoDup_cons in Hnd as [Hk0 Hnd]. destruct (Hsome k0 ltac:(left)) as [ch Hch].
    destruct (comp_part_spawn A [] m k0 ch (Hpart k0 ltac:(left)) (Hna k0 ltac:(left)) Hch) as (msgs0 & ch' & Hd & (Hau & Hok & Hq) & Hp0).
    assert (Hne : forall kind, kind ∈ ks -> kind <> k0) by congruence.
    destruct (IH (<[k0 := ch']> m) (incoming ++ msgs0)) as (m' & msgs & Hf & Hau' & Hq' & Hin & Hout); [exact Hnd|..].
    { intros kind Hk. rewrite lookup_insert_ne by (apply not_eq_sym, Hne, Hk). apply Hsome. now right. }
    { intros kind Hk. eapply comp_part_ext; [reflexivity|reflexivity| |apply Hpart; now right].
      now rewrite lookup_insert_ne by (apply not_eq_sym, Hne, Hk). }
    { intros kind Hk. apply Hna. now right. }
    exists m', (msgs0 ++ msgs). cbn [foldM]. rewrite Hch. cbn [unwrap mbind res_bind]. rewrite Hd. cbn [mbind res_bind].
    rewrite Hf, <- app_assoc. split; [reflexivity|]. split; [now rewrite filter_app, Hau, Hau'|].
    split; [now apply Forall_app|]. split.
    + intros kind [ -> |Hk]%elem_of_cons.
      * destruct (Hout k0 Hk0) as [Hl Hf0]. eapply comp_part_ext; [reflexivity| |exact Hl|exact Hp0].
        now rewrite filter_app, Hf0, app_nil_r.
      * eapply comp_part_ext; [reflexivity| |reflexivity|apply Hin, Hk]. now rewrite filter_app, Hok by auto.
    + intros kind [Hk Hk']%not_elem_of_cons. destruct (Hout kind Hk') as [Hl Hf0].
      rewrite Hl, lookup_insert_ne by auto. split; [reflexivity|]. now rewrite filter_app, Hf0, Hok by auto.
Qed.

Lemma flush_components_spec A m incoming :
  (forall kind, comp_part A false [] m kind) -> (forall kind, kind ∈ brings (msg_at 0) -> m !! kind = None) ->
  exists m' msgs, flush_components iter (wid 0%nat) Spawned m incoming = Ok (m', incoming ++ msgs) /\
    filter is_authority msgs = [] /\ Forall quiet msgs /\ (forall kind, comp_part A true msgs m' kind) /\
    forall kind, m !! kind = None -> m' !! kind = None /\ filter (of_kind kind) msgs = [].
Proof.
  intros Hpart Hun. destruct (Hiter m) as [Hnd Hks].
  assert (Hmem : forall kind, m !! kind = None -> kind ∉ iter m) by (intros kind Hk Hin; apply Hks in Hin as [ch Hch]; congruence).
  destruct (flush_loop A (iter m) m incoming Hnd) as (m' & msgs & Hf & Hau & Hq & Hin & Hout); [apply Hks|auto| |].
  { intros kind Hk. apply spawn_not_about. intros Hb. now apply (Hmem kind (Hun kind Hb)). }
  exists m', msgs. split; [exact Hf|]. split; [exact Hau|]. split; [exact Hq|]. split.
  - intros kind. destruct (decide (kind ∈ iter m)) as [Hk|Hk]; [auto|]. destruct (Hout kind Hk) as [Hl Hf0].
    assert (Hm : m !! kind = None).
    { destruct (m !! kind) eqn:E; [|reflexivity]. destruct Hk. apply Hks. rewrite E. eauto. }
    eapply comp_part_ext; [reflexivity|reflexivity|exact Hl|]. eapply comp_part_absent; eauto.
  - intros kind Hk. destruct (Hout kind (Hmem kind Hk)) as [-> Hf0]. auto.
Qed.

Lemma flush_auth_spec A a :
  auth_part A false [] a ->
  exists msgs a', flush_auth (wid 0%nat) Spawned a = Ok (msgs, a') /\
    (forall x, x ∈ msgs -> is_authority x) /\ auth_part A true msgs a'.
Proof.
  intros (L & js & Ho & [Hb ->]). unfold flush_auth, AuthChannel_receiver_pop_until, pop_front_until_and_including.
  assert (Hpop : pop_front_until (wid 0%nat) true (ar_buffered (ac_receiver a)) = ar_buffered (ac_receiver a)).
  { destruct Hb as [Hbuf _ Hw _ _ _ _]. rewrite Hbuf. destruct js as [|j js]; [reflexivity|]. cbn [map pop_front_until].
    destruct (Hw j ltac:(left)) as (Hj & _).
    pose proof (stream_after_spawn is_authority j (proj1 (proj2 spawn_other)) Hj).
    destruct (Hord (at_pos is_authority j) 0%nat) as [-> ->]; [lia..|].
    rewrite (proj2 (Nat.ltb_ge _ _)), (proj2 (Nat.eqb_neq _ _)) by lia. reflexivity. }
  rewrite Hpop. unfold AuthChannel_receiver_process_messages. cbn [ac_receiver ac_set_receiver].
  replace (mkAuthReceiver _ _ _) with (ac_receiver a) by (now destruct (ac_receiver a)).
  destruct (auth_process _ _ auth_msg auth_msg_sub (sc_authority _ Hscript) _ _ _ _ Hb) as (L' & js' & next & -> & _ & Hs').
  cbn [mbind res_bind]. unfold AuthChannel_receiver_drain. cbn. rewrite Nat.sub_0_r.
  assert (HL' : (L' <= size_of is_authority)%nat) by (destruct Hs' as [[_ _ _ _ _ [HL' _] _] _]; exact HL').
  assert (Hall : forall x, x ∈ map auth_msg (seq 0 L') -> is_authority x).
  { intros x (i & -> & Hi)%list_elem_of_fmap. apply elem_of_seq in Hi. apply auth_msg_is. lia. }
  do 2 eexists. split; [reflexivity|]. split; [exact Hall|]. exists L', js'. split; [now rewrite filter_keep|exact Hs'].
Qed.

(** What a channel that has received the positions [A] has emitted ([out]) and holds. *)
Definition parts A (live : bool) out c : Prop :=
  (forall kind, comp_part A live out (re_components c) kind) /\ auth_part A live out (re_auth c).

(** Emitted so far: inserts and removes in turn, authority messages without a gap. *)
Definition emitted_ok out : Prop :=
  (forall kind, exists L, filter (of_kind kind) out = map (comp_msg kind) (seq 0 L)) /\
  exists L, filter is_authority out = take L (filter is_authority script).

Inductive ent_inv A out c : Prop :=
| ei_waiting bs :
    0%nat ∉ A -> re_state c = Despawned -> re_last_epoch_id c = None -> unbrought A c ->
    re_buffered c = map (fun p => (wid p, msg_at p)) bs ->
    (bs = [] /\ (forall q, q ∈ A -> msg_at q <> Despawn tt) \/
     exists q, bs = [q] /\ q ∈ A /\ msg_at q = Despawn tt /\ S q = n /\ (0 < q)%nat) ->
    out = [] -> parts A false out c -> ent_inv A out c
| ei_live rest :
    0%nat ∈ A -> (forall q, q ∈ A -> msg_at q <> Despawn tt) ->
    re_state c = Spawned -> re_last_epoch_id c = Some (wid 0%nat) -> re_buffered c = [] ->
    out = Spawn tt :: rest -> Forall quiet rest ->
    parts A true out c -> ent_inv A out c
| ei_dead q rest :
    0%nat ∈ A -> q ∈ A -> msg_at q = Despawn tt -> S q = n -> (0 < q)%nat ->
    re_state c = Despawned -> re_last_epoch_id c = Some (wid q) -> re_buffered c = [] ->
    out = Spawn tt :: rest ++ [Despawn tt] -> Forall quiet rest ->
    emitted_ok out -> ent_inv A out c.

Lemma classify p :
  (p < n)%nat -> p <> 0%nat ->
  (exists kind, of_kind kind (msg_at p)) \/ is_authority (msg_at p) \/ (msg_at p = Despawn tt /\ S p = n).
Proof.
  intros Hp Hn. destruct p as [|p]; [lia|]. unfold msg_at.
  destruct (lookup_lt_is_Some_2 script (S p) Hp) as [m Hm]. rewrite Hm. cbn. exact (sc_messages _ Hscript p m Hm).
Qed.

(** Parts are unchanged by a message of neither kind. *)
Lemma parts_other A live out c p :
  (forall kind, ~ about kind (msg_at p)) -> ~ is_authority (msg_at p) -> parts A live out c -> parts (p :: A) live out c.
Proof.
  intros Hk Ha [Hc Hau]. split.
  - intros kind. eapply comp_part_ext; [|reflexivity|reflexivity|apply Hc]. intros j Hj. now apply arrived_other.
  - eapply auth_part_ext; [|reflexivity|exact Hau]. intros j Hj. now apply arrived_other.
Qed.

Lemma drain_empty a : ar_incoming (ac_receiver a) = [] -> snd (AuthChannel_receiver_drain a) = a.
Proof. destruct a as [? ? ? ? []]; cbn. now intros ->. Qed.

(** One round on a component or authority message. *)
Lemma round_message A live out c p rest :
  parts A live (out ++ re_incoming c) c -> re_state c = channel_state live ->
  re_buffered c = (wid p, msg_at p) :: rest -> (p < n)%nat -> p ∉ A ->
  (exists kind, of_kind kind (msg_at p)) \/ is_authority (msg_at p) ->
  exists c' msgs, process_round iter c = Ok (Some c') /\
    re_state c' = re_state c /\ re_last_epoch_id c' = re_last_epoch_id c /\ re_buffered c' = rest /\
    re_incoming c' = re_incoming c ++ msgs /\ (live = false -> msgs = []) /\ Forall quiet msgs /\
    (forall kind, ~ of_kind kind (msg_at p) -> re_components c' !! kind = re_components c !! kind) /\
    parts (p :: A) live (out ++ re_incoming c') c'.
Proof.
  intros [Hc Hau] Hst Hbuf Hp HA [[kind Hk]|Ha].
  - destruct (comp_part_accept A live _ _ kind p (Hc kind) Hp Hk HA) as (ch1 & msgs & ch' & H1 & H2 & (Ho1 & Ho2 & Hq) & Hl & Hp').
    exists (mkEntityChannel (re_state c) (re_last_epoch_id c) (<[kind := ch']> (re_components c)) (re_auth c) rest
              (re_incoming c ++ msgs) (re_outgoing c)), msgs.
    split; [|cbn; repeat (split; [reflexivity|]); split; [exact Hl|]; split; [exact Hq|]; split;
      [intros kind' Hk'; apply lookup_insert_ne; congruence|]].
    + unfold process_round. rewrite Hbuf. rewrite <- Hst in H1. unfold of_kind in Hk.
      destruct (msg_at p); try discriminate Hk; injection Hk as ->; rewrite H1; cbn [mbind res_bind]; rewrite H2; reflexivity.
    + rewrite app_assoc. split; cbn.
      * intros kind'. destruct (decide (kind' = kind)) as [->|Hne]; [exact Hp'|].
        eapply comp_part_ext; [| | |apply (Hc kind')].
        -- intros j Hj. apply arrived_other; [|exact Hj]. now apply (kind_not_about kind).
        -- now rewrite filter_app, Ho2, app_nil_r.
        -- now rewrite lookup_insert_ne.
      * eapply auth_part_ext; [|now rewrite filter_app, Ho1, app_nil_r|exact Hau].
        intros j Hj. apply arrived_other; [|exact Hj]. intros Ha. now apply (authority_not_kind kind _ Ha).
  - destruct (auth_part_accept A live _ _ p Hau Hp Ha HA) as (a1 & H1 & Hall & Hl & Hp').
    set (msgs := ar_incoming (ac_receiver a1)) in *.
    assert (Hparts : forall a', (auth_part (p :: A) live (out ++ re_incoming c ++ msgs) a') ->
      parts (p :: A) live (out ++ re_incoming c ++ msgs)
        (mkEntityChannel (re_state c) (re_last_epoch_id c) (re_components c) a' rest (re_incoming c ++ msgs) (re_outgoing c))).
    { intros a' Ha'. split; [|exact Ha']. intros kind. cbn.
      eapply comp_part_ext; [| |reflexivity|apply (Hc kind)].
      - intros j Hj. apply arrived_other; [|exact Hj]. now apply authority_not_about.
      - rewrite !filter_app, (filter_none (of_kind kind) msgs), app_nil_r; [reflexivity|].
        intros x Hx. now apply authority_not_kind, Hall. }
    rewrite <- app_assoc in Hp'. specialize (Hparts _ Hp').
    assert (Hround : process_round iter c = Ok (Some (mkEntityChannel (re_state c) (re_last_epoch_id c) (re_components c)
      (snd (AuthChannel_receiver_drain a1)) rest (re_incoming c ++ msgs) (re_outgoing c)))).
    { unfold process_round. rewrite Hbuf. rewrite <- Hst in H1.
      destruct (msg_at p); try contradiction Ha; rewrite H1; cbn [mbind res_bind]; rewrite Hst;
        (destruct live; [reflexivity|]); cbn [channel_state]; rewrite decide_False by discriminate;
        rewrite (drain_empty a1 (Hl eq_refl)), (Hl eq_refl); reflexivity. }
    eexists _, msgs. split; [exact Hround|]. cbn. repeat (split; [reflexivity|]). split; [exact Hl|]. split; [|split; [reflexivity|exact Hparts]].
    apply Forall_forall. intros x Hx. now apply authority_quiet, Hall.
Qed.

(** What a spawn makes of the components: those without a message of theirs. *)
Lemma spawn_comp_part A out m kind : comp_part A true out m kind -> kind ∉ brings (msg_at 0) -> comp_part (0%nat :: A) true out m kind.
Proof.
  intros Hp Hk. eapply comp_part_ext; [|reflexivity|reflexivity|exact Hp]. intros j Hj. apply arrived_other; [now apply spawn_not_about|exact Hj].
Qed.

(** Those that it brings. *)
Lemma brought_comp_part A out m kind : kind ∈ brings (msg_at 0) -> (forall q, q ∈ A -> ~ of_kind kind (msg_at q)) -> 0%nat ∉ A ->
  filter (of_kind kind) out = [InsertComponent tt kind] -> m !! kind = Some (set_inserted true (wid 0%nat) RemoteComponentChannel_new) ->
  comp_part (0%nat :: A) true out m kind.
Proof.
  intros Hk HA H0 Ho Hm. destruct (brought_first kind Hk) as [Hs Hp]. exists 1%nat, (Some 0%nat), []. split; [exact Ho|]. split; [|exact I].
  unfold channel_entry. rewrite Hm. split; cbn; try easy.
  - now rewrite Hp.
  - now intros j [= <-].
  - intros j Hj Ha. left. unfold arrived in Ha. apply elem_of_cons in Ha as [Ha|Ha].
    + destruct j as [|j]; [lia|]. pose proof (at_pos_mono (about kind) 0 (S j) ltac:(lia)). lia.
    + exfalso. destruct (at_pos_spec (about kind) j Hj) as (_ & Hn & _ & [Hof|Hb]); [now apply (HA _ Ha)|].
      destruct (at_pos (about kind) j) as [|q] eqn:Eq; [contradiction|].
      destruct (classify (S q) Hn ltac:(lia)) as [[k' Hk']|[Hk'|[Hk' _]]].
      * rewrite (of_kind_brings _ _ Hk') in Hb. inversion Hb.
      * now apply (authority_not_about kind _ Hk'); right.
      * rewrite Hk' in Hb. inversion Hb.
Qed.

Lemma round_spawn A c rest : 0%nat ∉ A -> unbrought A c ->
  parts A false [] c -> re_incoming c = [] -> re_state c = Despawned -> re_buffered c = (wid 0%nat, msg_at 0) :: rest ->
  exists c' msgs, process_round iter c = Ok (Some c') /\
    re_state c' = Spawned /\ re_last_epoch_id c' = Some (wid 0%nat) /\ re_buffered c' = rest /\
    re_incoming c' = Spawn tt :: msgs /\ Forall quiet msgs /\ parts (0%nat :: A) true (Spawn tt :: msgs) c'.
Proof.
  intros H0 Hun [Hc Hau] Hin Hst Hbuf. pose proof msg_at_spawn as Hsp.
  destruct (flush_auth_spec A _ Hau) as (amsgs & a' & H1 & Hall & Ha').
  assert (Hqa : Forall quiet amsgs) by (apply Forall_forall; intros x Hx; now apply authority_quiet, Hall).
  assert (Hka : forall kind, filter (of_kind kind) amsgs = []) by (intros kind; apply filter_none; intros x Hx; now apply authority_not_kind, Hall).
  assert (Hother : forall out, filter is_authority out = filter is_authority amsgs -> auth_part (0%nat :: A) true out a').
  { intros out Ho. eapply auth_part_ext; [|exact Ho|exact Ha']. intros j Hj. apply arrived_other; [apply spawn_other|exact Hj]. }
  unfold process_round. rewrite Hbuf, Hst. cbn [decide decide_rel EntityChannelState_eq_dec].
  unfold pop_front_until_and_excluding. cbn [pop_front_until]. rewrite (ordered_lt n) by (auto; apply n_pos).
  cbn [Nat.ltb Nat.leb orb andb]. rewrite Hin. cbn [app]. destruct (msg_at 0) as [[]|[] kinds| | | | | | | | | | | | |] eqn:Hm0; try contradiction.
  - destruct (flush_components_spec A (re_components c) (Spawn tt :: amsgs) Hc) as (m' & msgs & H2 & Hnone & Hq & Hm' & _); [rewrite Hm0; intros kind Hk; inversion Hk|].
    rewrite decide_False by (intros Hn; now apply Hn). rewrite H1. cbn [mbind res_bind]. rewrite H2. cbn [mbind res_bind].
    exists (mkEntityChannel Spawned (Some (wid 0%nat)) m' a' rest (Spawn tt :: amsgs ++ msgs) (re_outgoing c)), (amsgs ++ msgs).
    split; [reflexivity|]. cbn. repeat (split; [reflexivity|]). split; [now apply Forall_app|]. split; cbn.
    + intros kind. apply spawn_comp_part; [|rewrite Hm0; apply not_elem_of_nil].
      eapply comp_part_ext; [reflexivity| |reflexivity|apply Hm']. rewrite filter_cons, decide_False by discriminate. now rewrite filter_app, Hka.
    + apply Hother. rewrite filter_cons, decide_False by auto. now rewrite filter_app, Hnone, app_nil_r.
  - destruct (flush_components_spec A (re_components c) [Spawn tt] Hc) as (m' & msgs & H2 & Hnone & Hq & Hm' & Hkeep); [intros kind Hk; now apply Hun|].
    rewrite decide_False by (intros Hn; now apply Hn). rewrite H2. cbn [mbind res_bind]. rewrite H1. cbn [mbind res_bind].
    set (comps := fold_left _ kinds m').
    exists (mkEntityChannel Spawned (Some (wid 0%nat)) comps a' rest (((Spawn tt :: msgs) ++ map (InsertComponent tt) kinds) ++ amsgs) (re_outgoing c)), ((msgs ++ map (InsertComponent tt) kinds) ++ amsgs).
    split; [reflexivity|]. cbn [re_state re_last_epoch_id re_buffered re_incoming app]. repeat (split; [reflexivity|]). split.
    { rewrite !Forall_app. split; [split; [exact Hq|]|exact Hqa]. apply Forall_map, Forall_forall. intros k _. repeat split; discriminate. }
    assert (Hfk : forall kind, filter (of_kind kind) (Spawn tt :: (msgs ++ map (InsertComponent tt) kinds) ++ amsgs) =
                    filter (of_kind kind) msgs ++ if decide (kind ∈ kinds) then [InsertComponent tt kind] else []).
    { intros kind. rewrite filter_cons, decide_False by discriminate. rewrite !filter_app, Hka, app_nil_r, (filter_brought kind kinds Hsp). reflexivity. }
    split; cbn [re_components re_auth].
    + intros kind. destruct (decide (kind ∈ kinds)) as [Hk|Hk].
      * assert (kind ∈ brings (msg_at 0)) as Hb by now rewrite Hm0. destruct (Hun kind Hb) as [Hnk HA]. destruct (Hkeep kind Hnk) as [Hnk' Hf0].
        apply brought_comp_part; auto.
        -- rewrite Hfk, Hf0. now rewrite decide_True.
        -- unfold comps. rewrite (fold_brought _ _ _ _ Hsp), decide_True by exact Hk. unfold channel_entry. now rewrite Hnk'.
      * apply spawn_comp_part; [|now rewrite Hm0]. eapply comp_part_ext; [reflexivity| | |apply Hm'].
        -- rewrite Hfk, decide_False by exact Hk. apply app_nil_r.
        -- unfold comps. now rewrite (fold_brought _ _ _ _ Hsp), decide_False by exact Hk.
    + apply Hother. rewrite filter_cons, decide_False by auto. rewrite !filter_app, Hnone.
      rewrite (filter_none is_authority (map (InsertComponent tt) kinds)); [reflexivity|]. intros x (k & -> & _)%list_elem_of_fmap. auto.
Qed.

Lemma parts_emitted A live out c : parts A live out c -> emitted_ok out.
Proof.
  intros [Hc (L & js & Ho & Hs)]. split.
  - intros kind. destruct (Hc kind) as (L' & _ & _ & H & _). eauto.
  - exists L. rewrite Ho. apply map_default_seq. destruct Hs as [[_ _ _ _ _ [HL _] _] _]. exact HL.
Qed.

Lemma emitted_despawn out : emitted_ok out -> emitted_ok (out ++ [Despawn tt]).
Proof.
  intros [Hc [L Hl]]. split.
  - intros kind. destruct (Hc kind) as [L' H]. exists L'. rewrite filter_app, H, filter_cons, decide_False by discriminate.
    apply app_nil_r.
  - exists L. rewrite filter_app, Hl, filter_cons, decide_False by auto. apply app_nil_r.
Qed.

Lemma round_despawn c q rest :
  re_state c = Spawned -> re_buffered c = (wid q, Despawn tt) :: rest ->
  process_round iter c = Ok (Some (mkEntityChannel Despawned (Some (wid q)) ∅ (AuthChannel_reset (re_auth c)) []
    (re_incoming c ++ [Despawn tt]) (re_outgoing c))).
Proof.
  intros Hst Hbuf. unfold process_round. rewrite Hbuf, Hst. now rewrite decide_False by (intros Hn; now apply Hn).
Qed.

Lemma loop_some f c c' :
  process_round iter c = Ok (Some c') ->
  RemoteEntityChannel_process_messages iter (S f) c = RemoteEntityChannel_process_messages iter f c'.
Proof. intros H. cbn. now rewrite H. Qed.

Lemma loop_none f c : process_round iter c = Ok None -> RemoteEntityChannel_process_messages iter (S f) c = Ok c.
Proof. intros H. cbn. now rewrite H. Qed.

Lemma round_empty c : re_buffered c = [] -> process_round iter c = Ok None.
Proof. unfold process_round. now intros ->. Qed.

Lemma round_blocked_despawn c q rest :
  re_state c = Despawned -> re_buffered c = (wid q, Despawn tt) :: rest -> process_round iter c = Ok None.
Proof.
  intros Hst Hbuf. unfold process_round. rewrite Hbuf, Hst. now rewrite decide_True by discriminate.
Qed.

Definition pushed (b : list (MessageIndex * EntityMessage unit)) c : RemoteEntityChannel :=
  mkEntityChannel (re_state c) (re_last_epoch_id c) (re_components c) (re_auth c) b (re_incoming c) (re_outgoing c).

Lemma receive_unfold c p bs :
  (p < n)%nat -> p ∉ bs -> increasing bs -> (forall q, q ∈ bs -> (q < n)%nat) ->
  re_buffered c = map (fun p => (wid p, msg_at p)) bs ->
  match re_last_epoch_id c with Some i => i = wid 0%nat /\ p <> 0%nat | None => True end ->
  RemoteEntityChannel_receive_message iter (wid p) (msg_at p) c =
  RemoteEntityChannel_process_messages iter (S (length (ins p bs)))
    (pushed (map (fun p => (wid p, msg_at p)) (ins p bs)) c).
Proof.
  intros Hp Hn Hi Hb Hbuf He. unfold RemoteEntityChannel_receive_message.
  rewrite Hbuf, (push_back_ordered n wid Hord msg_at p bs Hp Hb Hn Hi). cbn [mbind res_bind].
  unfold process_fuel. cbn [re_buffered]. rewrite length_map.
  destruct (re_last_epoch_id c) as [i|] eqn:E; [|unfold pushed; now rewrite E].
  destruct He as [-> Hp0]. destruct (Hord 0%nat p n_pos Hp) as [_ ->].
  rewrite (ordered_lt n) by (auto; apply n_pos).
  rewrite (proj2 (Nat.eqb_neq _ _)), (proj2 (Nat.ltb_ge _ _)) by lia. unfold pushed. now rewrite E.
Qed.

Lemma despawn_other p : msg_at p = Despawn tt -> (forall kind, ~ about kind (msg_at p)) /\ ~ is_authority (msg_at p).
Proof. intros ->. split; [|auto]. intros kind [Hk|Hk]; [discriminate|inversion Hk]. Qed.

(** A live channel that has the despawn at the front of its buffer ends the lifetime. *)
Lemma step_despawn A out c q rest f :
  0%nat ∈ A -> q ∈ A -> msg_at q = Despawn tt -> S q = n -> (0 < q)%nat -> re_state c = Spawned ->
  re_buffered c = [(wid q, msg_at q)] -> out ++ re_incoming c = Spawn tt :: rest -> Forall quiet rest ->
  emitted_ok (out ++ re_incoming c) ->
  exists c', RemoteEntityChannel_process_messages iter (S (S f)) c = Ok c' /\ ent_inv A (out ++ re_incoming c') c'.
Proof.
  intros H0 Hq Hd Hn Hpos Hst Hbuf Hout Hqu Hem. rewrite Hd in Hbuf.
  eexists. split.
  - rewrite (loop_some _ _ _ (round_despawn c q [] Hst Hbuf)). apply loop_none, round_empty. reflexivity.
  - cbn [re_incoming]. apply ei_dead with q rest; auto.
    + now rewrite app_assoc, Hout.
    + rewrite app_assoc. now apply emitted_despawn.
Qed.

Lemma step_spawn A out c bs : 0%nat ∉ A -> unbrought A c ->
  re_state c = Despawned -> re_last_epoch_id c = None -> re_buffered c = map (fun p => (wid p, msg_at p)) bs ->
  (bs = [] /\ (forall q, q ∈ A -> msg_at q <> Despawn tt) \/
   exists q, bs = [q] /\ q ∈ A /\ msg_at q = Despawn tt /\ S q = n /\ (0 < q)%nat) ->
  out = [] -> re_incoming c = [] -> parts A false [] c ->
  exists c', RemoteEntityChannel_receive_message iter (wid 0%nat) (msg_at 0) c = Ok c' /\
    ent_inv (0%nat :: A) (out ++ re_incoming c') c'.
Proof.
  intros H0 Hun Hst He Hbuf Hbs -> Hin Hp. pose proof n_pos as Hn0.
  rewrite (receive_unfold c 0 bs Hn0);
    [|destruct Hbs as [[-> _]|(q & -> & _ & _ & ? & ?)]; rewrite ?list_elem_of_singleton; try lia; intros Hc; inversion Hc
     |destruct Hbs as [[-> _]|(q & -> & _)]; cbn; auto; split; [|exact I]; intros ? Hc; inversion Hc
     |intros q' Hq'; destruct Hbs as [[-> _]|(q & -> & _ & _ & ? & ?)]; [inversion Hq'|apply list_elem_of_singleton in Hq'; lia]
     |exact Hbuf|now rewrite He].
  assert (Hins : ins 0 bs = 0%nat :: bs).
  { destruct Hbs as [[-> _]|(q & -> & _ & _ & _ & Hq)]; cbn [ins]; [reflexivity|].
    now rewrite (proj2 (Nat.ltb_lt 0 q) Hq). }
  rewrite Hins. cbn [map length].
  destruct (round_spawn A (pushed ((wid 0%nat, msg_at 0) :: map (fun p => (wid p, msg_at p)) bs) c)
    (map (fun p => (wid p, msg_at p)) bs)) as (c1 & msgs & Hr & Hst1 & He1 & Hb1 & Hi1 & Hq1 & Hp1); auto.
  rewrite (loop_some _ _ _ Hr). destruct Hbs as [[-> Hno]|(q & -> & HqA & Hd & Hn & Hpos)].
  - exists c1. split; [apply loop_none, round_empty, Hb1|]. cbn [app]. rewrite Hi1.
    apply ei_live with msgs; auto; [left|]. intros q [->|Hq]%elem_of_cons; [apply spawn_other|auto].
  - apply step_despawn with q msgs; auto; [left|now right|].
    cbn [app]. rewrite Hi1. eapply parts_emitted, Hp1.
Qed.

Lemma step_waiting A out c bs p :
  0%nat ∉ A -> unbrought A c -> (forall kind, kind ∈ brings (msg_at 0) -> ~ of_kind kind (msg_at p)) ->
  re_state c = Despawned -> re_last_epoch_id c = None ->
  re_buffered c = map (fun p => (wid p, msg_at p)) bs ->
  (bs = [] /\ (forall q, q ∈ A -> msg_at q <> Despawn tt) \/
   exists q, bs = [q] /\ q ∈ A /\ msg_at q = Despawn tt /\ S q = n /\ (0 < q)%nat) ->
  out = [] -> re_incoming c = [] -> parts A false [] c -> (p < n)%nat -> p ∉ A -> p <> 0%nat ->
  exists c', RemoteEntityChannel_receive_message iter (wid p) (msg_at p) c = Ok c' /\
    ent_inv (p :: A) (out ++ re_incoming c') c'.
Proof.
  intros H0 Hun Hpk Hst He Hbuf Hbs -> Hin Hp Hpn HpA Hp0.
  rewrite (receive_unfold c p bs Hpn);
    [|destruct Hbs as [[-> _]|(q & -> & ? & _)]; rewrite ?list_elem_of_singleton; [intros Hc; inversion Hc|congruence]
     |destruct Hbs as [[-> _]|(q & -> & _)]; cbn; auto; split; [|exact I]; intros ? Hc; inversion Hc
     |intros q' Hq'; destruct Hbs as [[-> _]|(q & -> & _ & _ & ? & ?)]; [inversion Hq'|apply list_elem_of_singleton in Hq'; lia]
     |exact Hbuf|now rewrite He].
  assert (Hins : ins p bs = p :: bs).
  { destruct Hbs as [[-> _]|(q & -> & Hq & _ & Hn & _)]; cbn [ins]; [reflexivity|].
    assert (p <> q) by congruence. now rewrite (proj2 (Nat.ltb_lt p q)) by lia. }
  rewrite Hins. cbn [map length]. assert (H0' : 0%nat ∉ p :: A) by (apply not_elem_of_cons; auto).
  assert (Hstop : forall c1, re_state c1 = Despawned -> re_buffered c1 = map (fun p => (wid p, msg_at p)) bs ->
            process_round iter c1 = Ok None).
  { intros c1 Hs1 Hb1. destruct Hbs as [[-> _]|(q & -> & _ & Hd & _)]; [now apply round_empty|].
    cbn [map] in Hb1. rewrite Hd in Hb1. eapply round_blocked_despawn; eauto. }
  assert (Hun' : forall c1, (forall kind, ~ of_kind kind (msg_at p) -> re_components c1 !! kind = re_components c !! kind) -> unbrought (p :: A) c1).
  { intros c1 Hc1 kind Hk. destruct (Hun kind Hk) as [Hn HA]. rewrite Hc1 by auto. split; [exact Hn|]. intros q [->|Hq]%elem_of_cons; auto. }
  destruct (classify p Hpn Hp0) as [Hk|[Hk|[Hd Hn]]].
  1, 2: destruct (round_message A false [] (pushed ((wid p, msg_at p) :: map (fun p => (wid p, msg_at p)) bs) c) p
      (map (fun p => (wid p, msg_at p)) bs)) as (c1 & msgs & Hr & Hst1 & He1 & Hb1 & Hi1 & Hno & _ & Hcs & Hp1);
    [cbn; now rewrite Hin|exact Hst|reflexivity|exact Hpn|exact HpA|first [left; exact Hk|right; exact Hk]|];
    exists c1; rewrite (loop_some _ _ _ Hr); cbn in Hst1, He1, Hi1, Hp1; rewrite Hst in Hst1; rewrite He in He1;
    (split; [apply loop_none, Hstop; auto|]); rewrite Hin, (Hno eq_refl) in Hi1; cbn in Hi1; rewrite Hi1 in Hp1 |- *;
    apply ei_waiting with bs; auto; destruct Hbs as [[-> Hnd]|(q & -> & Hq & Hq')];
    [left; split; [reflexivity|]; intros q [->|Hq]%elem_of_cons; [|auto]|right; exists q; split; [auto|split; [now right|auto]]].
  - destruct Hk as [kind Hk]. intros Hd. rewrite Hd in Hk. discriminate.
  - intros Hd. now rewrite Hd in Hk.
  - assert (bs = []) as ->.
    { destruct Hbs as [[-> _]|(q & -> & Hq & _ & Hn' & _)]; [reflexivity|]. assert (p = q) by lia. congruence. }
    exists (pushed [(wid p, msg_at p)] c). cbn [map length]. split.
    + apply loop_none. apply (round_blocked_despawn _ p []); [exact Hst|]. cbn. now rewrite Hd.
    + cbn. rewrite Hin. apply ei_waiting with [p]; auto.
      * right. exists p. repeat split; auto; [left|lia].
      * apply (parts_other _ _ _ (pushed [(wid p, msg_at p)] c)); [apply despawn_other, Hd|apply despawn_other, Hd|exact Hp].
Qed.

Lemma step_live A out c rest p :
  0%nat ∈ A -> (forall q, q ∈ A -> msg_at q <> Despawn tt) ->
  re_state c = Spawned -> re_last_epoch_id c = Some (wid 0%nat) -> re_buffered c = [] ->
  out ++ re_incoming c = Spawn tt :: rest -> Forall quiet rest -> parts A true (out ++ re_incoming c) c ->
  (p < n)%nat -> p ∉ A ->
  exists c', RemoteEntityChannel_receive_message iter (wid p) (msg_at p) c = Ok c' /\
    ent_inv (p :: A) (out ++ re_incoming c') c'.
Proof.
  intros H0 Hno Hst He Hbuf Hout Hqu Hp Hpn HpA.
  assert (Hp0 : p <> 0%nat) by congruence.
  assert (Hnil : forall q : nat, q ∉ []) by (intros q Hq; inversion Hq).
  rewrite (receive_unfold c p [] Hpn (Hnil p) I); [|intros q Hq; contradiction (Hnil q)|exact Hbuf|now rewrite He].
  cbn [ins map length]. set (c0 := pushed [(wid p, msg_at p)] c).
  assert (H0' : 0%nat ∈ p :: A) by (now right).
  destruct (classify p Hpn Hp0) as [Hk|[Hk|[Hd Hn]]].
  1, 2: destruct (round_message A true out c0 p []) as (c1 & msgs & Hr & Hst1 & He1 & Hb1 & Hi1 & _ & Hq1 & _ & Hp1);
    [exact Hp|exact Hst|reflexivity|exact Hpn|exact HpA|now (left + right)|];
    exists c1; rewrite (loop_some _ _ _ Hr); cbn in Hst1, He1, Hi1; rewrite Hst in Hst1; rewrite He in He1;
    (split; [apply loop_none, round_empty, Hb1|]);
    apply ei_live with (rest ++ msgs); auto;
    [intros q [->|Hq]%elem_of_cons; [|auto]|now rewrite Hi1, app_assoc, Hout|now apply Forall_app].
  - destruct Hk as [kind Hk]. intros Hd. rewrite Hd in Hk. discriminate.
  - intros Hd. now rewrite Hd in Hk.
  - apply step_despawn with p rest; auto; [left|lia|]. eapply parts_emitted, Hp.
Qed.

(** Every arrival is accepted without panic and keeps the invariant. *)
Lemma ent_step A out c p :
  ent_inv A (out ++ re_incoming c) c -> (p < n)%nat -> p ∉ A ->
  (forall kind, kind ∈ brings (msg_at 0) -> of_kind kind (msg_at p) -> 0%nat ∈ A) ->
  exists c', RemoteEntityChannel_receive_message iter (wid p) (msg_at p) c = Ok c' /\
    ent_inv (p :: A) (out ++ re_incoming c') c'.
Proof.
  intros [bs H0 Hst He Hun Hbuf Hbs Hout Hp|rest H0 Hno Hst He Hbuf Hout Hqu Hp
         |q rest H0 Hq Hd Hn Hpos Hst He Hbuf Hout Hqu Hem] Hpn HpA Hlead.
  - rewrite Hout in Hp. apply app_eq_nil in Hout as [-> Hin]. destruct (decide (p = 0%nat)) as [->|Hp0].
    + eapply step_spawn; eauto.
    + eapply step_waiting; eauto.
  - eapply step_live; eauto.
  - exists c. assert (p <> q) by congruence. split.
    + unfold RemoteEntityChannel_receive_message. rewrite He. destruct (Hord q p) as [_ ->]; [lia..|].
      rewrite (ordered_lt n) by (auto; lia).
      now rewrite (proj2 (Nat.eqb_neq _ _)), (proj2 (Nat.ltb_lt _ _)) by lia.
    + apply ei_dead with q rest; auto; now right.
Qed.

Lemma ent_inv_new host_type : ent_inv [] [] (RemoteEntityChannel_new host_type).
Proof.
  assert (Hnil : forall q : nat, q ∉ []) by (intros q Hq; inversion Hq).
  apply ei_waiting with []; auto.
  - intros kind _. split; [apply lookup_empty|]. intros q Hq. contradiction (Hnil q).
  - left. split; [reflexivity|]. intros q Hq. contradiction (Hnil q).
  - split.
    + intros kind. exists 0%nat, None, []. split; [reflexivity|].
      eapply comp_state_ext; [|apply comp_state_new]. intros j _. split; [contradiction|intros Hj; contradiction (Hnil _ Hj)].
    + exists 0%nat, []. split; [reflexivity|].
      eapply auth_state_ext; [|apply auth_state_new]. intros j _. split; [contradiction|intros Hj; contradiction (Hnil _ Hj)].
Qed.

(** What can be said of the output at any time. *)
Lemma ent_inv_safe A out c :
  ent_inv A out c -> emitted_ok out /\
    (out = [] \/ exists rest, Forall quiet rest /\ (out = Spawn tt :: rest \/ out = Spawn tt :: rest ++ [Despawn tt])).
Proof.
  intros [bs H0 Hst He Hun Hbuf Hbs Hout Hp|rest H0 Hno Hst He Hbuf Hout Hqu Hp
         |q rest H0 Hq Hd Hn Hpos Hst He Hbuf Hout Hqu Hem].
  - split; [eapply parts_emitted, Hp|now left].
  - split; [eapply parts_emitted, Hp|right; eauto].
  - split; [exact Hem|right; eauto].
Qed.

Lemma last_msg_at : last script = Some (msg_at (n - 1)).
Proof.
  rewrite last_lookup. pose proof n_pos. unfold msg_at. replace (n - 1)%nat with (Nat.pred n) by lia.
  destruct (lookup_lt_is_Some_2 script (Nat.pred n)) as [m ->]; [lia|reflexivity].
Qed.

Lemma despawns_at q : (q < n)%nat -> msg_at q = Despawn tt -> despawns script = true.
Proof.
  intros Hq Hd. assert (q <> 0%nat) by (intros ->; now apply spawn_other in Hd).
  destruct (classify q Hq) as [[kind Hk]|[Hk|[_ Hn]]]; [auto|rewrite Hd in Hk; discriminate|now rewrite Hd in Hk|].
  unfold despawns. apply bool_decide_eq_true. rewrite last_msg_at. replace (n - 1)%nat with q by lia. now rewrite Hd.
Qed.

(** Once the whole script has arrived the entity is as the script leaves it. *)
Lemma ent_inv_converges A out c :
  ent_inv A out c -> (forall p, (p < n)%nat -> p ∈ A) ->
  if despawns script
  then re_state c = Despawned /\ last out = Some (Despawn tt)
  else re_state c = Spawned /\
       (forall kind, bool_decide (kind ∈ extract_inserted_component_kinds c) = leaves_inserted script kind) /\
       filter is_authority out = filter is_authority script.
Proof.
  intros Hinv Hall. destruct Hinv as [bs H0 Hst He Hun Hbuf Hbs Hout Hp|rest H0 Hno Hst He Hbuf Hout Hqu [Hc Hau]
         |q rest H0 Hq Hd Hn Hpos Hst He Hbuf Hout Hqu Hem].
  - contradiction (H0 (Hall _ n_pos)).
  - assert (despawns script = false) as ->.
    { unfold despawns. apply bool_decide_eq_false. rewrite last_msg_at. pose proof n_pos.
      intros [= E]. apply (Hno (n - 1)%nat); [apply Hall; lia|exact E]. }
    split; [exact Hst|]. split.
    + intros kind. destruct (Hc kind) as (L & e & js & _ & Hs).
      eapply comp_converges in Hs as [_ Hi]; [|now apply ordered_stream|].
      2: { intros j Hj. apply Hall. apply at_pos_spec, Hj. }
      unfold leaves_inserted. fold (size_of (about kind)). rewrite <- Hi. unfold channel_entry, extract_inserted_component_kinds.
      destruct (re_components c !! kind) as [ch|] eqn:E; cbn.
      * destruct (rc_inserted ch) eqn:Er.
        -- apply bool_decide_eq_true, elem_of_dom. exists ch. now apply map_lookup_filter_Some_2.
        -- apply bool_decide_eq_false. intros [ch' [E' Hr]%map_lookup_filter_Some]%elem_of_dom. cbn in Hr. congruence.
      * apply bool_decide_eq_false. intros [ch' [E' Hr]%map_lookup_filter_Some]%elem_of_dom. congruence.
    + destruct Hau as (L & js & Ho & Hs). rewrite Ho.
      eapply auth_converges in Hs as [-> _].
      2: { intros j Hj. apply Hall. apply at_pos_spec, Hj. }
      unfold size_of, auth_msg. rewrite map_default_seq by reflexivity. now rewrite firstn_all.
  - rewrite (despawns_at q) by (auto; lia). split; [exact Hst|]. rewrite Hout. cbn [last].
    rewrite app_comm_cons, last_snoc. reflexivity.
Qed.

End Spawning.
End Lifetime.
