(* ===== verification/SyncWorld.v ===== *)
(** A world of entities replicated through [RemoteEngine]
    (src/shared/src/world/sync/remote_engine.rs): the messages of many entities arrive in one
    stream, in any order, and every entity ends up as its own script says.  The last section
    shows what the engine does outside the assumptions of these theorems. *)

From Stdlib Require Import ZArith Lia.
From stdpp Require Import base list numbers option gmap.
From S2P Require Import Prelude Wrapping Wire EntityTypes Reliable SyncEngine SyncOrder SyncEntity.

(** The message [m] addressed to entity [e]. *)
Definition addressed {E} (e : E) (m : EntityMessage unit) : EntityMessage E :=
  match with_entity m e with Ok m' => m' | _ => Noop end.

Lemma addressed_spec {E} (e : E) m :
  m <> Noop -> with_entity m e = Ok (addressed e m) /\ strip_entity (addressed e m) = Ok m /\
    EntityMessage_entity (addressed e m) = Some e /\ get_type (addressed e m) <> TNoop.
Proof. destruct m as [[]|[]| [] |[]|[]|? []|? []|? []|? []|? []|? []|? []|? []|? []|]; cbn; intros H; repeat split; congruence. Qed.

Section World.
Context {E : Type} `{Countable E}.
Context (iter : gmap ComponentKind RemoteComponentChannel -> list ComponentKind).

(** The events of entity [e], without the entity. *)
Definition events_for (e : E) (l : list (EntityMessage E)) : list (EntityMessage unit) :=
  flat_map (fun m => if decide (EntityMessage_entity m = Some e)
                     then match strip_entity m with Ok m' => [m'] | _ => [] end else []) l.

Lemma events_for_app e l1 l2 : events_for e (l1 ++ l2) = events_for e l1 ++ events_for e l2.
Proof. apply flat_map_app. Qed.

Lemma events_for_addressed e e' l :
  Forall (fun m => m <> Noop) l -> events_for e' (map (addressed e) l) = if decide (e = e') then l else [].
Proof.
  induction 1 as [|m l Hm _ IH]; cbn; [now case_decide|]. fold (events_for e' (map (addressed e) l)). rewrite IH.
  destruct (addressed_spec e m Hm) as (_ & -> & -> & _).
  destruct (decide (e = e')) as [->|Hne]; [now rewrite decide_True|]. now rewrite decide_False by congruence.
Qed.

Lemma drain_incoming_spec (e : E) c :
  Forall (fun m => m <> Noop) (re_incoming c) ->
  drain_incoming e c = Ok (map (addressed e) (re_incoming c),
    mkEntityChannel (re_state c) (re_last_epoch_id c) (re_components c) (re_auth c) (re_buffered c) [] (re_outgoing c)).
Proof.
  intros Hn. unfold drain_incoming.
  enough (forall acc, foldM (fun m acc => m' ← with_entity m e; Ok (acc ++ [m'])) (re_incoming c) acc
                      = Ok (acc ++ map (addressed e) (re_incoming c))) as -> by reflexivity.
  induction Hn as [|m l Hm _ IH]; intros acc; cbn [foldM map]; [now rewrite app_nil_r|].
  destruct (addressed_spec e m Hm) as (-> & _). cbn [mbind res_bind]. rewrite IH, <- app_assoc. reflexivity.
Qed.

(** What the hosts send: a script and the message counters for each entity (both empty for
    an entity that is never mentioned), and the arrivals at the engine. *)
Context (script : E -> list (EntityMessage unit)) (ids : E -> nat -> Z).

Definition scripts_ok : Prop := forall e,
  script e = [] \/
  (script_ok (script e) /\
   forall p q, (p < q < length (script e))%nat -> ids e p < ids e q <= ids e p + 32767).

Definition receive_all (arrivals : list (E * nat)) (g : RemoteEngine E) : res (RemoteEngine E) :=
  foldM (fun '(e, p) g => RemoteEngine_receive_message iter (wrap 16 (ids e p)) (addressed e (msg_at (script e) p)) g)
    arrivals g.

(** Messages about a component that an entity's spawn brings along arrive after the spawn
    ([done] had arrived before).  For an entity spawned without components this says nothing. *)
Definition spawn_leads (done arrivals : list (E * nat)) : Prop :=
  forall before e p later kind, arrivals = before ++ (e, p) :: later -> kind ∈ brings (msg_at (script e) 0) ->
    of_kind kind (msg_at (script e) p) -> (e, 0%nat) ∈ before ++ done.

Definition positions_of (e : E) (done : list (E * nat)) : list nat := (filter (fun x => fst x = e) done).*2.

Lemma positions_of_cons e x done :
  positions_of e (x :: done) = (if decide (fst x = e) then [snd x] else []) ++ positions_of e done.
Proof. unfold positions_of. rewrite filter_cons. now case_decide. Qed.

Lemma elem_of_positions_of e p done : p ∈ positions_of e done <-> (e, p) ∈ done.
Proof.
  unfold positions_of. rewrite list_elem_of_fmap. split.
  - intros ([e' p'] & -> & [He Hin]%list_elem_of_filter). cbn in He |- *. now subst.
  - intros Hin. exists (e, p). split; [reflexivity|]. apply list_elem_of_filter. auto.
Qed.

Abbreviation wid := (fun e p => wrap 16 (ids e p)).

Definition world_inv (done : list (E * nat)) (g : RemoteEngine E) : Prop := forall e,
  match rg_channels g !! e with
  | None => positions_of e done = [] /\ events_for e (rg_incoming g) = []
  | Some c => re_incoming c = [] /\ script e <> [] /\
              ent_inv (script e) (wid e) (positions_of e done) (events_for e (rg_incoming g)) c
  end.

Context (Hiter : forall m, NoDup (iter m) /\ forall kind, kind ∈ iter m <-> is_Some (m !! kind)).
Context (Hok : scripts_ok).

Lemma script_facts e : script e <> [] -> script_ok (script e) /\ ordered (length (script e)) (wid e).
Proof.
  intros Hne. destruct (Hok e) as [He|[Hs Hc]]; [contradiction|]. split; [exact Hs|]. now apply ordered_counters.
Qed.

Lemma msg_at_not_noop e p : (p < length (script e))%nat -> msg_at (script e) p <> Noop.
Proof.
  intros Hp. assert (Hne : script e <> []) by (intros He; rewrite He in Hp; cbn in Hp; lia).
  destruct (script_facts e Hne) as [Hs _]. destruct (decide (p = 0%nat)) as [->|Hn0].
  - pose proof (msg_at_spawn _ Hs) as Hsp. intros E0. now rewrite E0 in Hsp.
  - intros E0. destruct (classify _ Hs p Hp Hn0) as [[kind Hk]|[Hk|[Hk _]]]; rewrite E0 in Hk; [discriminate|exact Hk|discriminate].
Qed.

Lemma out_not_noop e A out c : script e <> [] -> ent_inv (script e) (wid e) A out c -> Forall (fun m => m <> Noop) out.
Proof.
  intros Hne Hinv. destruct (script_facts e Hne) as [Hs Ho].
  assert (Hq : forall rest, Forall quiet rest -> Forall (fun m => m <> Noop) rest)
    by (intros rest Hr; eapply Forall_impl; [exact Hr|]; unfold quiet; tauto).
  destruct (ent_inv_safe _ _ _ _ _ Hinv) as [_ [->|(rest & Hr & [->| ->])]].
  - constructor.
  - apply Forall_cons. split; [discriminate|auto].
  - apply Forall_cons. split; [discriminate|]. apply Forall_app. split; [auto|]. repeat constructor. discriminate.
Qed.

Lemma world_step done g e p :
  world_inv done g -> (p < length (script e))%nat -> (e, p) ∉ done ->
  (forall kind, kind ∈ brings (msg_at (script e) 0) -> of_kind kind (msg_at (script e) p) -> (e, 0%nat) ∈ done) ->
  exists g', RemoteEngine_receive_message iter (wid e p) (addressed e (msg_at (script e) p)) g = Ok g' /\
    world_inv ((e, p) :: done) g'.
Proof.
  intros Hinv Hp Hn Hlead. pose proof (msg_at_not_noop e p Hp) as Hnn.
  assert (Hne : script e <> []) by (intros He; rewrite He in Hp; cbn in Hp; lia).
  destruct (script_facts e Hne) as [Hs Ho]. destruct (addressed_spec e _ Hnn) as (_ & Hstrip & Hent & Hty).
  set (c := default (RemoteEntityChannel_new (rg_host_type g)) (rg_channels g !! e)).
  assert (Hc : re_incoming c = [] /\ ent_inv (script e) (wid e) (positions_of e done) (events_for e (rg_incoming g)) c).
  { specialize (Hinv e). unfold c. destruct (rg_channels g !! e); cbn.
    - tauto.
    - destruct Hinv as [-> ->]. split; [reflexivity|]. now apply ent_inv_new. }
  destruct Hc as [Hin Hc].
  destruct (ent_step _ _ Hs Ho iter Hiter (positions_of e done) (events_for e (rg_incoming g)) c p) as (c' & Hr & Hc').
  { now rewrite Hin, app_nil_r. } { exact Hp. } { now rewrite elem_of_positions_of. }
  { intros kind Hk Ho'. apply elem_of_positions_of. eapply Hlead; eauto. }
  assert (Hnoop : Forall (fun m => m <> Noop) (re_incoming c')).
  { apply out_not_noop in Hc'; [|exact Hne]. now apply Forall_app in Hc'. }
  eexists. split.
  - unfold RemoteEngine_receive_message. rewrite decide_False by exact Hty. rewrite Hent. cbn [unwrap mbind res_bind].
    assert (exists g1, match rg_channels g !! e with Some _ => Ok g | None =>
        RemoteEngine_insert_entity_channel e (RemoteEntityChannel_new (rg_host_type g)) g end = Ok g1 /\
      rg_channels g1 = <[e := c]> (rg_channels g) /\ rg_incoming g1 = rg_incoming g /\
      rg_host_type g1 = rg_host_type g /\ rg_outgoing g1 = rg_outgoing g) as (g1 & -> & Hch & Hi & Hh & Hog).
    { unfold c, RemoteEngine_insert_entity_channel. destruct (rg_channels g !! e) eqn:Ee; cbn.
      - exists g. now rewrite insert_id.
      - eexists. split; [reflexivity|]. auto. }
    cbn [mbind res_bind]. rewrite Hch, lookup_insert_eq. cbn [unwrap mbind res_bind]. rewrite Hstrip.
    cbn [mbind res_bind]. rewrite Hr. cbn [mbind res_bind]. rewrite (drain_incoming_spec e c' Hnoop). cbn [mbind res_bind].
    rewrite Hi, Hh, Hog, insert_insert_eq. reflexivity.
  - intros e'. cbn [rg_channels rg_incoming]. rewrite events_for_app, (events_for_addressed e e' _ Hnoop), positions_of_cons. cbn [fst snd].
    destruct (decide (e = e')) as [<-|Hne'].
    + rewrite lookup_insert_eq. split; [reflexivity|]. split; [exact Hne|].
      destruct Hc'; [eapply ei_waiting|eapply ei_live|eapply ei_dead]; eauto.
    + rewrite lookup_insert_ne, app_nil_r, app_nil_l by exact Hne'. apply Hinv.
Qed.

Lemma world_run arrivals done g :
  world_inv done g -> NoDup arrivals -> (forall x, x ∈ arrivals -> x ∉ done) ->
  (forall e p, (e, p) ∈ arrivals -> (p < length (script e))%nat) -> spawn_leads done arrivals ->
  exists g', receive_all arrivals g = Ok g' /\ world_inv (rev arrivals ++ done) g'.
Proof.
  revert done g. induction arrivals as [|[e p] arrivals IH]; intros done g Hinv Hnd Hfresh Hb Hlead.
  - exists g. auto.
  - apply NoDup_cons in Hnd as [Hx Hnd].
    destruct (world_step done g e p Hinv) as (g' & Hg & Hinv'); [apply Hb; left|apply Hfresh; left|intros kind; exact (Hlead [] e p arrivals kind eq_refl)|].
    destruct (IH ((e, p) :: done) g' Hinv' Hnd) as (g2 & Hg2 & Hinv2).
    { intros x Hin [->|Hd]%elem_of_cons; [contradiction|]. apply (Hfresh x); [now right|exact Hd]. }
    { intros e' p' Hin. apply Hb. now right. }
    { intros before e' p' later kind -> Hk Hof. specialize (Hlead ((e, p) :: before) e' p' later kind eq_refl Hk Hof). cbn [app] in Hlead. rewrite elem_of_cons, elem_of_app in Hlead. rewrite elem_of_app, elem_of_cons. tauto. }
    exists g2. split; [unfold receive_all in *; cbn [foldM]; rewrite Hg; exact Hg2|].
    cbn [rev]. rewrite <- app_assoc. exact Hinv2.
Qed.

Lemma world_inv_new host_type : world_inv [] (RemoteEngine_new host_type).
Proof. intros e. cbn. rewrite lookup_empty. auto. Qed.

(** The channel of an entity all of whose messages have arrived. *)
Lemma world_inv_complete arrivals g e :
  world_inv (rev arrivals ++ []) g -> script e <> [] -> (forall p, (p < length (script e))%nat -> (e, p) ∈ arrivals) ->
  exists c, rg_channels g !! e = Some c /\
    if despawns (script e)
    then re_state c = Despawned /\ last (events_for e (rg_incoming g)) = Some (Despawn tt)
    else re_state c = Spawned /\
         (forall kind, bool_decide (kind ∈ extract_inserted_component_kinds c) = leaves_inserted (script e) kind) /\
         filter is_authority (events_for e (rg_incoming g)) = filter is_authority (script e).
Proof.
  intros Hinv Hne Hall. specialize (Hinv e). rewrite app_nil_r in Hinv.
  assert (Hpos : forall p, (p < length (script e))%nat -> p ∈ positions_of e (rev arrivals)).
  { intros p Hp. apply elem_of_positions_of, list_elem_of_In, in_rev. rewrite rev_involutive.
    apply list_elem_of_In, Hall, Hp. }
  destruct (script_facts e Hne) as [Hs Ho]. destruct (rg_channels g !! e) as [c|].
  - destruct Hinv as (_ & _ & Hc). exists c. split; [reflexivity|]. now apply (ent_inv_converges _ _ Hs Ho) in Hc.
  - destruct Hinv as [Hnil _]. specialize (Hpos 0%nat (n_pos _ Hs)). rewrite Hnil in Hpos. inversion Hpos.
Qed.

End World.

(** C6: Replication is safe.  For the scripts and the arrival orders of
    [remote_engine_converges] (the same [scripts_ok] and [spawn_leads]): whatever part of the
    entities' scripts has arrived and however interleaved, the engine never panics nor loops, and for every
    entity the events handed to the application are: nothing before the spawn, then the
    spawn, then only component and authority events, then possibly the despawn and nothing
    after it; inserts and removes of each component kind strictly alternate, starting with
    an insert; and the authority events are an initial part of those sent, in order. *)
Theorem remote_engine_safe {E} `{Countable E} iter (script : E -> list (EntityMessage unit)) ids host_type
    (arrivals : list (E * nat)) :
  (forall m, NoDup (iter m) /\ forall kind, kind ∈ iter m <-> is_Some (m !! kind)) ->
  scripts_ok script ids -> NoDup arrivals -> (forall e p, (e, p) ∈ arrivals -> (p < length (script e))%nat) -> spawn_leads script [] arrivals ->
  exists g, receive_all iter script ids arrivals (RemoteEngine_new host_type) = Ok g /\
  forall e, let out := events_for e (rg_incoming g) in
    (out = [] \/ exists rest, Forall quiet rest /\ (out = Spawn tt :: rest \/ out = Spawn tt :: rest ++ [Despawn tt])) /\
    (forall kind, exists L, filter (of_kind kind) out = map (comp_msg kind) (seq 0 L)) /\
    (exists L, filter is_authority out = take L (filter is_authority (script e))).
Proof.
  intros Hiter Hok Hnd Hb Hlead.
  destruct (world_run iter script ids Hiter Hok arrivals [] _ (world_inv_new script ids host_type) Hnd)
    as (g & Hg & Hinv); [intros x _ Hx; inversion Hx|exact Hb|exact Hlead|].
  exists g. split; [exact Hg|]. intros e. cbv zeta. specialize (Hinv e).
  destruct (rg_channels g !! e) as [c|].
  - destruct Hinv as (_ & Hne & Hc). apply ent_inv_safe in Hc as [[Hk Ha] Ho]. auto.
  - destruct Hinv as [_ ->]. split; [now left|]. split; [|now exists 0%nat]. intros kind. now exists 0%nat.
Qed.

(** C5: Replication converges.  A script is a spawn, which may bring components along, then
    inserts and removes that alternate per component, at most 256 authority messages numbered in
    order, and possibly a despawn at the end, with message indices within 32767 of each other
    ([scripts_ok]).  When every message of an entity's script has arrived, in any order
    in which the messages about components that a spawn brings come after that spawn
    ([spawn_leads], no condition for a plain spawn; without it see
    [spawn_with_components_reorder]), and interleaved with those of other entities (which may be
    incomplete), the engine's channel for it is as the script leaves the entity: despawned, the despawn being
    the last event, if the script ends with a despawn; otherwise spawned, with exactly the
    component kinds that the script leaves inserted, and every authority message delivered
    in the order sent. *)
Theorem remote_engine_converges {E} `{Countable E} iter (script : E -> list (EntityMessage unit)) ids host_type
    (arrivals : list (E * nat)) :
  (forall m, NoDup (iter m) /\ forall kind, kind ∈ iter m <-> is_Some (m !! kind)) ->
  scripts_ok script ids -> NoDup arrivals -> (forall e p, (e, p) ∈ arrivals -> (p < length (script e))%nat) -> spawn_leads script [] arrivals ->
  exists g, receive_all iter script ids arrivals (RemoteEngine_new host_type) = Ok g /\
  forall e, script e <> [] -> (forall p, (p < length (script e))%nat -> (e, p) ∈ arrivals) ->
  exists c, rg_channels g !! e = Some c /\
    if despawns (script e)
    then re_state c = Despawned /\ last (events_for e (rg_incoming g)) = Some (Despawn tt)
    else re_state c = Spawned /\
         (forall kind, bool_decide (kind ∈ extract_inserted_component_kinds c) = leaves_inserted (script e) kind) /\
         filter is_authority (events_for e (rg_incoming g)) = filter is_authority (script e).
Proof.
  intros Hiter Hok Hnd Hb Hlead.
  destruct (world_run iter script ids Hiter Hok arrivals [] _ (world_inv_new script ids host_type) Hnd)
    as (g & Hg & Hinv); [intros x _ Hx; inversion Hx|exact Hb|exact Hlead|].
  exists g. split; [exact Hg|]. intros e Hne Hall. now apply (world_inv_complete script ids Hok arrivals).
Qed.

(** * A run across the wrap-around of the message index *)
Definition map_keys (m : gmap ComponentKind RemoteComponentChannel) : list ComponentKind := (map_to_list m).*1.

Lemma map_keys_spec m : NoDup (map_keys m) /\ forall kind, kind ∈ map_keys m <-> is_Some (m !! kind).
Proof.
  split; [apply NoDup_fst_map_to_list|]. intros kind. unfold map_keys. rewrite list_elem_of_fmap. split.
  - intros ([k v] & -> & Hin%elem_of_map_to_list). eauto.
  - intros [v Hv]. exists (kind, v). split; [reflexivity|]. now apply elem_of_map_to_list.
Qed.

Definition sample_script (e : Z) : list (EntityMessage unit) :=
  if e =? 1 then [Spawn tt; InsertComponent tt 7; Publish 0 tt; RemoveComponent tt 7; EnableDelegation 1 tt; InsertComponent tt 7]
  else if e =? 2 then [SpawnWithComponents tt [9; 8]; RemoveComponent tt 9; Despawn tt]
  else [].
Definition sample_ids (e : Z) (p : nat) : Z := 65530 + e + 2 * Z.of_nat p.
Definition sample_arrivals : list (Z * nat) :=
  [(1, 5%nat); (2, 2%nat); (1, 4%nat); (1, 1%nat); (1, 0%nat); (2, 0%nat); (1, 3%nat); (2, 1%nat); (1, 2%nat)].

(** Kinds that a script does not mention satisfy [sc_components]. *)
Lemma mentioned_kinds_script script (kinds : list ComponentKind) :
  Forall (fun m => forall kind, about kind m -> kind ∈ kinds) script ->
  (forall kind j m, kind ∈ kinds -> filter (about kind) script !! j = Some m -> of_kind kind m -> m = comp_msg kind j) ->
  forall kind j m, filter (about kind) script !! j = Some m -> of_kind kind m -> m = comp_msg kind j.
Proof.
  intros Hf H0 kind j m Hj Hk. apply H0; auto. rewrite Forall_forall in Hf. apply list_elem_of_lookup_2, list_elem_of_filter in Hj as [Ha Hin]. now apply (Hf m).
Qed.

Lemma sample_scripts_ok : scripts_ok sample_script sample_ids.
Proof.
  intros e. unfold sample_script. destruct (Z.eqb_spec e 1); [|destruct (Z.eqb_spec e 2); [|now left]]; right;
    (split; [|unfold sample_ids; cbn [length]; lia]); split.
  - now exists (Spawn tt).
  - intros p m. do 5 (destruct p as [|p]; [intros [= <-]; cbn; unfold of_kind; cbn; eauto|]). discriminate.
  - apply (mentioned_kinds_script _ [7]).
    + apply Forall_forall. intros m Hm kind Hk. repeat (apply elem_of_cons in Hm as [->|Hm]; [destruct Hk as [Hk|Hk]; cbn in Hk; try discriminate Hk; try (now inversion Hk); injection Hk as <-; left|]). inversion Hm.
    + intros kind j m ->%list_elem_of_singleton. do 3 (destruct j as [|j]; [intros [= <-]; reflexivity|]). discriminate.
  - intros j m. do 2 (destruct j as [|j]; [intros [= <-]; reflexivity|]). discriminate.
  - vm_compute. discriminate.
  - exists (SpawnWithComponents tt [9; 8]). split; [reflexivity|]. apply (bool_decide_unpack _). vm_compute. exact I.
  - intros p m. do 2 (destruct p as [|p]; [intros [= <-]; cbn; unfold of_kind; cbn; eauto 6|]). discriminate.
  - apply (mentioned_kinds_script _ [9; 8]).
    + apply Forall_forall. intros m Hm kind Hk. repeat (apply elem_of_cons in Hm as [->|Hm]; [destruct Hk as [Hk|Hk]; cbn in Hk; try discriminate Hk; try exact Hk; try (now inversion Hk); injection Hk as <-; left|]). inversion Hm.
    + intros kind j m [->|Hk]%elem_of_cons.
      * do 2 (destruct j as [|j]; [intros [= <-]; (discriminate || reflexivity)|]). discriminate.
      * apply list_elem_of_singleton in Hk as ->. destruct j as [|j]; [intros [= <-]; discriminate|discriminate].
  - intros j m. discriminate.
  - vm_compute. discriminate.
Qed.

Lemma sample_arrivals_ok :
  NoDup sample_arrivals /\ forall e p, (e, p) ∈ sample_arrivals -> (p < length (sample_script e))%nat.
Proof.
  split; [apply (bool_decide_unpack _); vm_compute; exact I|].
  intros e p Hin. unfold sample_arrivals in Hin.
  repeat (apply elem_of_cons in Hin as [Hin|Hin]; [injection Hin as -> ->; vm_compute; lia|]). inversion Hin.
Qed.

Lemma sample_spawn_leads : spawn_leads sample_script [] sample_arrivals.
Proof.
  intros before e p later kind Ha Hk Ho. rewrite app_nil_r.
  assert (sample_arrivals !! length before = Some (e, p)) as Hl by (rewrite Ha; now apply list_lookup_middle).
  assert (before = take (length before) sample_arrivals) as Hb by (rewrite Ha; symmetry; apply take_app_length). rewrite Hb. clear Ha Hb.
  revert Hl. generalize (length before) as k. intros k Hl. do 9 (destruct k as [|k];
    [injection Hl as <- <-; cbn in Hk, Ho; (now inversion Hk) || (discriminate Ho) || (apply (bool_decide_unpack _); vm_compute; exact I)|]).
  discriminate Hl.
Qed.

Lemma remote_engine_safe_witness :
  exists g, receive_all map_keys sample_script sample_ids sample_arrivals (RemoteEngine_new Client) = Ok g /\
  forall e, let out := events_for e (rg_incoming g) in
    (out = [] \/ exists rest, Forall quiet rest /\ (out = Spawn tt :: rest \/ out = Spawn tt :: rest ++ [Despawn tt])) /\
    (forall kind, exists L, filter (of_kind kind) out = map (comp_msg kind) (seq 0 L)) /\
    (exists L, filter is_authority out = take L (filter is_authority (sample_script e))).
Proof.
  apply (remote_engine_safe map_keys sample_script sample_ids Client sample_arrivals).
  - exact map_keys_spec.
  - exact sample_scripts_ok.
  - apply sample_arrivals_ok.
  - apply sample_arrivals_ok.
  - exact sample_spawn_leads.
Defined.

Lemma remote_engine_converges_witness :
  exists g, receive_all map_keys sample_script sample_ids sample_arrivals (RemoteEngine_new Client) = Ok g /\
  exists c, rg_channels g !! 1 = Some c /\ re_state c = Spawned /\
    bool_decide (7 ∈ extract_inserted_component_kinds c) = true /\
    filter is_authority (events_for 1 (rg_incoming g)) = [Publish 0 tt; EnableDelegation 1 tt].
Proof.
  destruct (remote_engine_converges map_keys sample_script sample_ids Client sample_arrivals
    map_keys_spec sample_scripts_ok (proj1 sample_arrivals_ok) (proj2 sample_arrivals_ok) sample_spawn_leads) as (g & Hg & Hc).
  exists g. split; [exact Hg|]. destruct (Hc 1) as (c & Hl & Hst & Hk & Ha); [discriminate| |].
  - intros p Hp. apply list_elem_of_In. unfold sample_arrivals. cbn in Hp.
    do 6 (destruct p as [|p]; [cbn; tauto|]). lia.
  - exists c. split; [exact Hl|]. split; [exact Hst|]. split; [rewrite Hk; reflexivity|]. rewrite Ha. reflexivity.
Defined.

(** * Outside the assumptions *)
Definition arrive (msgs : list (Z * EntityMessage unit)) : res RemoteEntityChannel :=
  foldM (fun '(id, m) c => RemoteEntityChannel_receive_message map_keys id m c) msgs (RemoteEntityChannel_new Client).

Definition summary (r : res RemoteEntityChannel) : option (EntityChannelState * list ComponentKind * list (EntityMessage unit)) :=
  match r with
  | Ok c => Some (re_state c, elements (extract_inserted_component_kinds c), re_incoming c)
  | _ => None
  end.

(** A long-lived entity freezes.  [last_epoch_id] keeps the index of the spawn for the
    whole lifetime, so once more than 32768 further messages have been sent on the
    connection (for any entities) every message for this entity compares as older than its
    spawn and is dropped, whatever it is, until the index has gone all the way around. *)
Theorem long_lived_entity_frozen iter (c : RemoteEntityChannel) (spawned i : Z) (msg : EntityMessage unit) :
  re_last_epoch_id c = Some (wrap 16 spawned) -> 32768 < i - spawned < 65536 ->
  RemoteEntityChannel_receive_message iter (wrap 16 i) msg c = Ok c.
Proof.
  intros He Hi. unfold RemoteEntityChannel_receive_message. rewrite He.
  assert (Hlt : sequence_less_than (wrap 16 i) (wrap 16 spawned) = true).
  { replace (wrap 16 i) with (wrap 16 (i - 65536)) by (unfold wrap; change (2 ^ 16) with 65536; dlia).
    rewrite seq_lt_close by (unfold close; lia). apply Z.ltb_lt. lia. }
  destruct (Z.eqb_spec (wrap 16 spawned) (wrap 16 i)) as [E|_]; [|now rewrite Hlt].
  rewrite E in Hlt. unfold sequence_less_than, sequence_greater_than in Hlt. lia.
Qed.

Lemma long_lived_entity_frozen_witness :
  exists c, arrive [(0, Spawn tt)] = Ok c /\
    RemoteEntityChannel_receive_message map_keys (wrap 16 40000) (Despawn tt) c = Ok c /\ re_state c = Spawned.
Proof.
  eexists. split; [vm_compute; reflexivity|]. split; [|reflexivity].
  apply (long_lived_entity_frozen map_keys _ 0 40000); [reflexivity|lia].
Defined.

(** [SpawnWithComponents] is not safe against reordering: pre-buffered component
    messages are processed before the coalesced components are marked inserted.  After a
    spawn with component 7 (index 1) and its removal (index 2), in order the component is
    gone; when the removal arrives first it stays buffered and the component stays.  With a
    re-insertion (index 3) that overtakes the other two, the insert is emitted twice and the
    component ends up removed although the host has it. *)
Theorem spawn_with_components_reorder :
  summary (arrive [(1, SpawnWithComponents tt [7]); (2, RemoveComponent tt 7)])
    = Some (Spawned, [], [Spawn tt; InsertComponent tt 7; RemoveComponent tt 7]) /\
  summary (arrive [(2, RemoveComponent tt 7); (1, SpawnWithComponents tt [7])])
    = Some (Spawned, [7], [Spawn tt; InsertComponent tt 7]) /\
  summary (arrive [(3, InsertComponent tt 7); (1, SpawnWithComponents tt [7]); (2, RemoveComponent tt 7)])
    = Some (Spawned, [], [Spawn tt; InsertComponent tt 7; InsertComponent tt 7; RemoveComponent tt 7]).
Proof. repeat split; vm_compute; reflexivity. Qed.

(** Processing a despawn discards the whole buffer, so a message of the next lifetime
    that arrived early is lost: with spawn, despawn and respawn arriving in order the entity
    is present, with the respawn before the despawn it is absent. *)
Theorem early_respawn_lost :
  summary (arrive [(1, Spawn tt); (2, Despawn tt); (3, Spawn tt)]) = Some (Spawned, [], [Spawn tt; Despawn tt; Spawn tt]) /\
  summary (arrive [(1, Spawn tt); (3, Spawn tt); (2, Despawn tt)]) = Some (Despawned, [], [Spawn tt; Despawn tt]).
Proof. split; vm_compute; reflexivity. Qed.
