(* ===== verification/HostSync.v ===== *)
(** The sending half of entity replication: src/shared/src/world/sync/host_entity_channel.rs
    and host_engine.rs, and what the pair of host and remote channel achieves together.

    The entity converter of a connection is the argument [converter], a lookup from global
    to host entities. *)

From Stdlib Require Import ZArith Lia.
From stdpp Require Import base list numbers option gmap.
From S2P Require Import Prelude Wrapping Wire EntityTypes Reliable SyncEngine SyncOrder SyncEntity SyncWorld.

(** * HostEntityChannel *)
Record HostEntityChannel : Type := mkHostChannel {
  hc_components : gset ComponentKind;
  hc_auth : AuthChannel;
  hc_buffered : list (MessageIndex * EntityMessage unit);
  hc_incoming : list (EntityMessage unit);
  hc_outgoing : list EntityCommand }.

Definition HostEntityChannel_new_with_components (host_type : HostType) (kinds : gset ComponentKind)
  : HostEntityChannel := mkHostChannel kinds (AuthChannel_new host_type) [] [] [].

Definition HostEntityChannel_new (host_type : HostType) : HostEntityChannel :=
  mkHostChannel ∅ (AuthChannel_new host_type) [] [] [].

Definition hc_push (kinds : gset ComponentKind) (command : EntityCommand) (c : HostEntityChannel) : HostEntityChannel :=
  mkHostChannel kinds (hc_auth c) (hc_buffered c) (hc_incoming c) (hc_outgoing c ++ [command]).

Definition HostEntityChannel_send_command (command : EntityCommand) (c : HostEntityChannel)
  : res HostEntityChannel :=
  match EntityCommand_get_type command with
  | TSpawn | TSpawnWithComponents | TDespawn | TNoop => Panic
  | TInsertComponent =>
      kind ← unwrap (EntityCommand_component_kind command);
      if decide (kind ∈ hc_components c) then Panic
      else Ok (hc_push ({[kind]} ∪ hc_components c) command c)
  | TRemoveComponent =>
      kind ← unwrap (EntityCommand_component_kind command);
      if decide (kind ∉ hc_components c) then Panic
      else Ok (hc_push (hc_components c ∖ {[kind]}) command c)
  | _ =>
      a ← AuthChannel_validate_command command (hc_auth c);
      a1 ← AuthChannel_send_command command a;
      let '(commands, a2) := AuthChannel_sender_drain a1 in
      Ok (mkHostChannel (hc_components c) a2 (hc_buffered c) (hc_incoming c) (hc_outgoing c ++ commands))
  end.

(** One round of the loop of [process_messages]: [None] is [break]. *)
Definition host_process_round (c : HostEntityChannel) : res (option HostEntityChannel) :=
  match hc_buffered c with
  | [] => Ok None
  | (id, msg) :: rest =>
      match get_type msg with
      | TRequestAuthority | TReleaseAuthority | TEnableDelegationResponse | TMigrateResponse =>
          a ← AuthChannel_receiver_receive_message None id msg (hc_auth c);
          let '(msgs, a') := AuthChannel_receiver_drain a in
          Ok (Some (mkHostChannel (hc_components c) a' rest (hc_incoming c ++ msgs) (hc_outgoing c)))
      | TNoop => Ok (Some c)
      | _ => Panic
      end
  end.

Fixpoint HostEntityChannel_process_messages (fuel : nat) (c : HostEntityChannel) : res HostEntityChannel :=
  match fuel with
  | O => Diverge
  | S fuel' =>
      r ← host_process_round c;
      match r with None => Ok c | Some c' => HostEntityChannel_process_messages fuel' c' end
  end.

Definition HostEntityChannel_receive_message (id : MessageIndex) (msg : EntityMessage unit) (c : HostEntityChannel)
  : res HostEntityChannel :=
  buffered ← OrderedIds_push_back id msg (hc_buffered c);
  HostEntityChannel_process_messages (S (length buffered))
    (mkHostChannel (hc_components c) (hc_auth c) buffered (hc_incoming c) (hc_outgoing c)).

Definition hc_set_auth (a : AuthChannel) (c : HostEntityChannel) : HostEntityChannel :=
  mkHostChannel (hc_components c) a (hc_buffered c) (hc_incoming c) (hc_outgoing c).

Definition local_enable_delegation (c : HostEntityChannel) : HostEntityChannel :=
  hc_set_auth (AuthChannel_force_enable_delegation (AuthChannel_force_publish (hc_auth c))) c.

Definition extract_outgoing_commands (c : HostEntityChannel) : list EntityCommand * HostEntityChannel :=
  (hc_outgoing c, mkHostChannel (hc_components c) (hc_auth c) (hc_buffered c) (hc_incoming c) []).

(** [drain_incoming_messages_into] *)
Definition host_drain_incoming (entity : HostEntity) (c : HostEntityChannel)
  : res (list (EntityMessage HostEntity) * HostEntityChannel) :=
  received ← foldM (fun m acc => m' ← with_entity m entity; Ok (acc ++ [m'])) (hc_incoming c) [];
  Ok (received, mkHostChannel (hc_components c) (hc_auth c) (hc_buffered c) [] (hc_outgoing c)).

(** * HostEngine *)
Record HostEngine : Type := mkHostEngine {
  hg_host_type : HostType;
  hg_channels : gmap HostEntity HostEntityChannel;
  hg_incoming : list (EntityMessage HostEntity);
  hg_outgoing : list EntityCommand }.

Definition HostEngine_new (host_type : HostType) : HostEngine := mkHostEngine host_type ∅ [] [].

Definition HostEngine_take_incoming_events (g : HostEngine) : list (EntityMessage HostEntity) * HostEngine :=
  (hg_incoming g, mkHostEngine (hg_host_type g) (hg_channels g) [] (hg_outgoing g)).

Definition HostEngine_take_outgoing_commands (g : HostEngine) : list EntityCommand * HostEngine :=
  (hg_outgoing g, mkHostEngine (hg_host_type g) (hg_channels g) (hg_incoming g) []).

Definition HostEngine_receive_message (id : MessageIndex) (msg : EntityMessage HostEntity) (g : HostEngine)
  : res HostEngine :=
  match get_type msg with
  | TSpawn | TSpawnWithComponents | TDespawn | TInsertComponent | TRemoveComponent => Panic
  | TNoop => Ok g
  | _ =>
      entity ← unwrap (EntityMessage_entity msg);
      match hg_channels g !! entity with
      | None => Ok g
      | Some channel =>
          stripped ← strip_entity msg;
          channel1 ← HostEntityChannel_receive_message id stripped channel;
          '(events, channel2) ← host_drain_incoming entity channel1;
          Ok (mkHostEngine (hg_host_type g) (<[entity := channel2]> (hg_channels g)) (hg_incoming g ++ events) (hg_outgoing g))
      end
  end.

Definition hg_command (channels : gmap HostEntity HostEntityChannel) (command : EntityCommand) (g : HostEngine) : HostEngine :=
  mkHostEngine (hg_host_type g) channels (hg_incoming g) (hg_outgoing g ++ [command]).

Definition HostEngine_send_command (converter : GlobalEntity -> option HostEntity) (command : EntityCommand)
  (g : HostEngine) : res HostEngine :=
  host_entity ← unwrap (converter (EntityCommand_entity command));
  match command with
  | CSpawn _ =>
      match hg_channels g !! host_entity with
      | Some _ => Panic
      | None => Ok (hg_command (<[host_entity := HostEntityChannel_new (hg_host_type g)]> (hg_channels g)) command g)
      end
  | CSpawnWithComponents _ kinds =>
      match hg_channels g !! host_entity with
      | Some _ => Panic
      | None => Ok (hg_command (<[host_entity := HostEntityChannel_new_with_components (hg_host_type g) (list_to_set kinds)]>
                                  (hg_channels g)) command g)
      end
  | CDespawn _ =>
      match hg_channels g !! host_entity with
      | None => Panic
      | Some _ => Ok (hg_command (delete host_entity (hg_channels g)) command g)
      end
  | _ =>
      channel ← unwrap (hg_channels g !! host_entity);
      channel1 ← HostEntityChannel_send_command command channel;
      let '(commands, channel2) := extract_outgoing_commands channel1 in
      Ok (mkHostEngine (hg_host_type g) (<[host_entity := channel2]> (hg_channels g)) (hg_incoming g)
            (hg_outgoing g ++ commands))
  end.

Definition HostEngine_remove_entity_channel (entity : HostEntity) (g : HostEngine) : res (HostEntityChannel * HostEngine) :=
  c ← unwrap (hg_channels g !! entity);
  Ok (c, mkHostEngine (hg_host_type g) (delete entity (hg_channels g)) (hg_incoming g) (hg_outgoing g)).

Definition HostEngine_insert_entity_channel (entity : HostEntity) (c : HostEntityChannel) (g : HostEngine) : res HostEngine :=
  match hg_channels g !! entity with
  | Some _ => Panic
  | None => Ok (mkHostEngine (hg_host_type g) (<[entity := c]> (hg_channels g)) (hg_incoming g) (hg_outgoing g))
  end.

Definition extract_entity_commands (entity : HostEntity) (g : HostEngine) : list EntityCommand * HostEngine :=
  match hg_channels g !! entity with
  | Some c =>
      let '(commands, c') := extract_outgoing_commands c in
      (commands, mkHostEngine (hg_host_type g) (<[entity := c']> (hg_channels g)) (hg_incoming g) (hg_outgoing g))
  | None => ([], g)
  end.

(** * The message that carries a command

    What [WorldWriter::write_command] sends for a command, without the entity: whether the
    entity and the component still exist when the packet is written decides between the
    message and a [Noop]. *)
Definition written_message (entity_exists has_global_entity : bool) (has_component : ComponentKind -> bool)
  (command : EntityCommand) : res (EntityMessage unit) :=
  match command with
  | CSpawn _ => Ok (Spawn tt)
  | CSpawnWithComponents _ kinds =>
      if negb entity_exists then Ok Noop
      else if negb has_global_entity || negb (forallb has_component kinds) then Ok Noop
      else Ok (SpawnWithComponents tt kinds)
  | CDespawn _ => Ok (Despawn tt)
  | CInsertComponent _ kind =>
      if negb entity_exists then Ok Noop
      else if negb has_global_entity || negb (has_component kind) then Ok Noop
      else Ok (InsertComponent tt kind)
  | CRemoveComponent _ kind => if negb has_global_entity then Ok Noop else Ok (RemoveComponent tt kind)
  | CPublish sub _ => i ← unwrap sub; Ok (Publish i tt)
  | CUnpublish sub _ => i ← unwrap sub; Ok (Unpublish i tt)
  | CEnableDelegation sub _ => i ← unwrap sub; Ok (EnableDelegation i tt)
  | CDisableDelegation sub _ => i ← unwrap sub; Ok (DisableDelegation i tt)
  | CSetAuthority sub _ st => i ← unwrap sub; Ok (SetAuthority i tt st)
  | CRequestAuthority sub _ => i ← unwrap sub; Ok (RequestAuthority i tt)
  | CReleaseAuthority sub _ => i ← unwrap sub; Ok (ReleaseAuthority i tt)
  | CEnableDelegationResponse sub _ => i ← unwrap sub; Ok (EnableDelegationResponse i tt)
  | CMigrateResponse sub _ _ new_host => i ← unwrap sub; Ok (MigrateResponse i tt (host_to_remote new_host))
  end.

(** The command with which [HostWorldManager] starts an entity on a connection. *)
Definition spawn_command (global_entity : GlobalEntity) (component_kinds : list ComponentKind) : EntityCommand :=
  match component_kinds with [] => CSpawn global_entity | _ => CSpawnWithComponents global_entity component_kinds end.

(** What the writer finds when it comes to a command: whether the entity exists, whether the
    connection has it, and which of its components exist. *)
Record write_state := mkWriteState { entity_exists : bool; has_global_entity : bool; has_component : ComponentKind -> bool }.
Definition written (x : write_state * EntityCommand) : res (EntityMessage unit) :=
  written_message x.1.(entity_exists) x.1.(has_global_entity) x.1.(has_component) x.2.

(** The messages that the writer sends for commands, each in the state of its time. *)
Fixpoint write_all (sends : list (write_state * EntityCommand)) : res (list (EntityMessage unit)) :=
  match sends with
  | [] => Ok []
  | x :: sends => m ← written x; ms ← write_all sends; Ok (m :: ms)
  end.

(** What a command needs so as not to be written as a [Noop]. *)
Definition still_there (x : write_state * EntityCommand) : bool :=
  let '(st, command) := x in
  match command with
  | CSpawnWithComponents _ kinds => st.(entity_exists) && st.(has_global_entity) && forallb st.(has_component) kinds
  | CInsertComponent _ kind => st.(entity_exists) && st.(has_global_entity) && st.(has_component) kind
  | CRemoveComponent _ _ => st.(has_global_entity)
  | _ => true
  end.

(** The message of a command that is not written as a [Noop]. *)
Definition as_message (command : EntityCommand) : EntityMessage unit :=
  match written_message true true (fun _ => true) command with Ok m => m | _ => Noop end.

(** Commands that a host sends about an entity it owns. *)
Definition from_host (command : EntityCommand) : bool :=
  match command with
  | CRequestAuthority _ _ | CEnableDelegationResponse _ _ | CMigrateResponse _ _ _ _ => false
  | _ => true
  end.

Definition sent (c : HostEntityChannel) : list (EntityMessage unit) := map as_message (hc_outgoing c).

(** A command that is still there is written as its message. *)
Lemma written_as_message x m : still_there x = true -> written x = Ok m -> m = as_message x.2.
Proof.
  destruct x as [[ex gl co] command]. unfold written, as_message. cbn [fst snd entity_exists has_global_entity has_component].
  destruct command as [| | | | |[]|[]|[]|[]|[]|[]|[]|[]|[]]; cbn [still_there written_message entity_exists has_global_entity has_component unwrap mbind res_bind]; intros Hs Hw; try congruence.
  - apply andb_true_iff in Hs as [[-> ->]%andb_true_iff Hk]. cbn [negb orb] in *. rewrite Hk in Hw. cbn in Hw.
    rewrite (proj2 (forallb_forall _ _)) by auto. cbn. congruence.
  - apply andb_true_iff in Hs as [[-> ->]%andb_true_iff Hk]. rewrite Hk in Hw. cbn in *. congruence.
  - rewrite Hs in Hw. cbn in *. congruence.
Qed.

Lemma write_all_messages sends ms : Forall (fun x => still_there x = true) sends -> write_all sends = Ok ms -> ms = map as_message sends.*2.
Proof.
  intros Hs. revert ms. induction Hs as [|x sends Hx _ IH]; intros ms Hw; cbn in Hw; [now injection Hw as <-|].
  apply bind_ok_inv in Hw as (m & Hm & Hw). apply bind_ok_inv in Hw as (ms' & Hms & [= <-]). cbn. f_equal; [now apply written_as_message|now apply IH].
Qed.

(** Messages of a component that the entity starts with begin with a remove. *)
Definition start (kinds : list ComponentKind) (kind : ComponentKind) : nat := if decide (kind ∈ kinds) then 1%nat else 0%nat.

(** What a host channel has sent after a spawn with [kinds]: removes answer inserts, authority
    messages are numbered. *)
Record host_inv (kinds : list ComponentKind) (c : HostEntityChannel) : Prop := {
  hi_messages : forall m, m ∈ sent c -> (exists kind, of_kind kind m) \/ is_authority m;
  hi_components : forall kind, exists L,
    filter (of_kind kind) (sent c) = map (comp_msg kind) (seq (start kinds kind) L) /\
    Nat.odd (start kinds kind + L) = bool_decide (kind ∈ hc_components c);
  hi_subcommands : forall j m, filter is_authority (sent c) !! j = Some m -> subcommand_id m = Some (wrap 8 (Z.of_nat j));
  hi_next : as_next_subcommand_id (ac_sender (hc_auth c)) = wrap 8 (Z.of_nat (length (filter is_authority (sent c))));
  hi_drained : as_outgoing (ac_sender (hc_auth c)) = [] }.

Lemma host_inv_new host_type kinds : host_inv kinds (HostEntityChannel_new_with_components host_type (list_to_set kinds)).
Proof.
  split; cbn; try easy. intros kind. exists 0%nat. split; [reflexivity|]. rewrite Nat.add_0_r. unfold start. symmetry. case_decide as Hk.
  - apply bool_decide_eq_true. now apply elem_of_list_to_set.
  - apply bool_decide_eq_false. now rewrite elem_of_list_to_set.
Qed.

(** Sending one more component message of the right parity. *)
Lemma host_inv_component ks c kind kinds command :
  host_inv ks c -> (forall kind', kind' <> kind -> kind' ∈ kinds <-> kind' ∈ hc_components c) ->
  (kind ∈ kinds <-> kind ∉ hc_components c) ->
  as_message command = (if decide (kind ∈ hc_components c) then RemoveComponent tt kind else InsertComponent tt kind) ->
  host_inv ks (hc_push kinds command c).
Proof.
  intros [H1 H2 H3 H4 H5] Hother Hkind Hm.
  assert (Hk : of_kind kind (as_message command)) by (rewrite Hm; now case_decide).
  assert (Hs : sent (hc_push kinds command c) = sent c ++ [as_message command]) by (unfold sent; cbn; apply map_app).
  assert (Hna : ~ is_authority (as_message command)) by (rewrite Hm; case_decide; cbn; auto).
  assert (Hfa : filter is_authority (sent (hc_push kinds command c)) = filter is_authority (sent c)).
  { rewrite Hs, filter_app, filter_cons, decide_False by exact Hna. apply app_nil_r. }
  split; rewrite ?Hfa; auto.
  - rewrite Hs. intros m [Hin|Hin]%elem_of_app; [auto|]. apply list_elem_of_singleton in Hin as ->. eauto.
  - intros kind'. rewrite Hs, filter_app. destruct (H2 kind') as (L & HL & Hodd).
    destruct (decide (kind' = kind)) as [->|Hne].
    + exists (S L). rewrite HL, filter_cons, decide_True by exact Hk. cbn [hc_components hc_push].
      rewrite seq_S, map_app. cbn [map]. rewrite <- plus_n_Sm. split.
      * do 2 f_equal. rewrite Hm. unfold comp_msg. rewrite <- Nat.negb_odd, Hodd.
        case_decide as Hin; [rewrite bool_decide_true by exact Hin|rewrite bool_decide_false by exact Hin]; reflexivity.
      * rewrite Nat.odd_succ, <- Nat.negb_odd, Hodd, <- bool_decide_not. now apply bool_decide_ext.
    + exists L. rewrite HL, filter_cons, decide_False by (unfold of_kind in *; congruence).
      split; [apply app_nil_r|]. rewrite Hodd. apply bool_decide_ext. symmetry. now apply Hother.
Qed.

(** Sending one more authority message. *)
Lemma host_inv_authority kinds c a command m :
  host_inv kinds c -> ac_sender a = ac_sender (hc_auth c) ->
  set_subcommand_id (as_next_subcommand_id (ac_sender (hc_auth c))) command = Ok m ->
  is_authority (as_message m) -> subcommand_id (as_message m) = Some (as_next_subcommand_id (ac_sender (hc_auth c))) ->
  exists c', (a1 ← AuthChannel_send_command command a;
     let '(commands, a2) := AuthChannel_sender_drain a1 in
     Ok (mkHostChannel (hc_components c) a2 (hc_buffered c) (hc_incoming c) (hc_outgoing c ++ commands))) = Ok c' /\ host_inv kinds c'.
Proof.
  intros [H1 H2 H3 H4 H5] Ha Hset Hau Hsub. eexists. split.
  - unfold AuthChannel_send_command, AuthChannelSender_send_command. rewrite Ha, Hset, H5. cbn. reflexivity.
  - set (c' := mkHostChannel _ _ _ _ _).
    assert (Hs : sent c' = sent c ++ [as_message m]) by (unfold sent; cbn; apply map_app).
    assert (Hfa : filter is_authority (sent c') = filter is_authority (sent c) ++ [as_message m]).
    { rewrite Hs, filter_app, filter_cons, decide_True by exact Hau. reflexivity. }
    split; rewrite ?Hfa.
    + rewrite Hs. intros x [Hin|Hin]%elem_of_app; [auto|]. apply list_elem_of_singleton in Hin as ->. auto.
    + intros kind. destruct (H2 kind) as (L & HL & Hodd). exists L. split; [|exact Hodd].
      rewrite Hs, filter_app, HL, filter_cons, decide_False; [apply app_nil_r|]. now apply authority_not_kind.
    + intros j x [Hj|[Hlen Hj]]%lookup_app_Some; [auto|].
      destruct (j - length (filter is_authority (sent c)))%nat as [|i] eqn:Ej; [|discriminate Hj].
      injection Hj as <-. rewrite Hsub, H4. do 3 f_equal. lia.
    + cbn. rewrite H4, length_app. cbn. unfold wrap. rewrite Zplus_mod_idemp_l. f_equal. lia.
    + reflexivity.
Qed.

Lemma host_send_inv kinds command c c' :
  host_inv kinds c -> from_host command = true -> HostEntityChannel_send_command command c = Ok c' -> host_inv kinds c'.
Proof.
  intros Hinv Hf Hsend.
  assert (Hval : forall a, AuthChannel_validate_command command (hc_auth c) = Ok a -> ac_sender a = ac_sender (hc_auth c)).
  { intros a. unfold AuthChannel_validate_command.
    destruct (EntityCommand_get_type command); try discriminate; try (case_decide; [discriminate|]).
    all: try (now intros [= <-]).
    destruct command; try discriminate. destruct (ac_auth_status (hc_auth c)); [|discriminate]. cbn [unwrap mbind res_bind].
    destruct (valid_auth_transition _ _); [|discriminate]. now intros [= <-]. }
  unfold HostEntityChannel_send_command in Hsend.
  destruct command; try discriminate Hsend; try discriminate Hf; cbn [EntityCommand_get_type] in Hsend.
  { cbn [EntityCommand_component_kind unwrap mbind res_bind] in Hsend. case_decide as Hin; [discriminate|]. injection Hsend as <-.
    apply (host_inv_component kinds c kind); [exact Hinv| | |now rewrite decide_False].
    - intros kind' Hne. rewrite elem_of_union, elem_of_singleton. tauto.
    - rewrite elem_of_union, elem_of_singleton. tauto. }
  { cbn [EntityCommand_component_kind unwrap mbind res_bind] in Hsend. case_decide as Hin; [discriminate|]. injection Hsend as <-.
    apply (host_inv_component kinds c kind); [exact Hinv| | |now rewrite decide_True].
    - intros kind' Hne. rewrite elem_of_difference, elem_of_singleton. tauto.
    - rewrite elem_of_difference, elem_of_singleton. tauto. }
  all: apply bind_ok_inv in Hsend as (a & Ha & Hsend); apply Hval in Ha;
    match type of Hsend with context [AuthChannel_send_command ?cmd _] =>
      edestruct (host_inv_authority kinds c a cmd) as (c2 & Hc2 & Hi2);
        [exact Hinv|exact Ha|reflexivity|exact I|reflexivity|];
        rewrite Hc2 in Hsend; injection Hsend as <-; exact Hi2
    end.
Qed.

Lemma host_run_inv kinds commands c c' :
  host_inv kinds c -> Forall (fun x => from_host x = true) commands -> foldM HostEntityChannel_send_command commands c = Ok c' -> host_inv kinds c'.
Proof.
  revert c. induction commands as [|x commands IH]; intros c Hinv Hf Hr; cbn in Hr.
  - now injection Hr as <-.
  - apply Forall_cons in Hf as [Hx Hf]. apply bind_ok_inv in Hr as (c1 & H1 & H2).
    apply (IH c1); [|exact Hf|exact H2]. eapply host_send_inv; eauto.
Qed.

(** The script of a host channel's run, when nothing is written as a [Noop]. *)
Definition host_script (g : GlobalEntity) (kinds : list ComponentKind) (c : HostEntityChannel) : list (EntityMessage unit) :=
  as_message (spawn_command g kinds) :: sent c.

Lemma spawn_message g kinds : NoDup kinds -> is_spawn (as_message (spawn_command g kinds)) /\ brings (as_message (spawn_command g kinds)) = kinds.
Proof.
  intros Hnd. destruct kinds as [|k kinds]; [easy|]. cbn [spawn_command]. unfold as_message. cbn [written_message negb].
  rewrite (proj2 (forallb_forall _ _)) by auto. easy.
Qed.

(** The messages about a component in a script. *)
Lemma host_script_about g kinds c kind : NoDup kinds -> host_inv kinds c -> filter (about kind) (host_script g kinds c) =
  (if decide (kind ∈ kinds) then [as_message (spawn_command g kinds)] else []) ++ filter (of_kind kind) (sent c).
Proof.
  intros Hnd [H1 _ _ _ _]. destruct (spawn_message g kinds Hnd) as [Hs Hb]. unfold host_script. rewrite filter_cons.
  assert (filter (about kind) (sent c) = filter (of_kind kind) (sent c)) as ->.
  { assert (forall m, m ∈ sent c -> about kind m <-> of_kind kind m) as Hsame.
    { intros m Hm. apply about_later. destruct (H1 m Hm) as [[k Hk]|Ha]; [eapply of_kind_brings, Hk|now destruct m]. }
    clear H1. induction (sent c) as [|m l IH]; [reflexivity|]. rewrite !filter_cons, IH by (intros; apply Hsame; now right). apply decide_ext, Hsame. left. }
  assert (about kind (as_message (spawn_command g kinds)) <-> kind ∈ kinds) as Hiff.
  { unfold about. rewrite Hb. split; [|now right]. intros [Hk|Hk]; [|exact Hk]. destruct (as_message _); try contradiction; discriminate. }
  destruct (decide (kind ∈ kinds)); case_decide; tauto || reflexivity.
Qed.

Lemma host_script_authority g kinds c : NoDup kinds -> filter is_authority (host_script g kinds c) = filter is_authority (sent c).
Proof.
  intros Hnd. destruct (spawn_message g kinds Hnd) as [Hs _]. unfold host_script. rewrite filter_cons, decide_False; [reflexivity|].
  destruct (as_message _); cbn in *; auto.
Qed.

Lemma host_script_ok g kinds c : NoDup kinds ->
  host_inv kinds c -> Z.of_nat (length (filter is_authority (sent c))) <= 256 -> script_ok (host_script g kinds c).
Proof.
  intros Hnd Hinv Hlen. pose proof Hinv as [H1 H2 H3 H4 H5]. split; rewrite ?host_script_authority by exact Hnd; auto.
  - eexists. split; [reflexivity|]. now apply spawn_message.
  - intros p m Hm. cbn in Hm. destruct (H1 m) as [Hm1|Hm1]; [eapply list_elem_of_lookup_2; eauto|auto..].
  - intros kind j m. rewrite host_script_about by assumption. destruct (H2 kind) as (L & -> & _). unfold start.
    destruct (decide (kind ∈ kinds)) as [Hk|Hk]; [destruct j as [|j]; cbn [app lookup list_lookup]|cbn [app]].
    + intros [= <-] Ho. destruct (spawn_message g kinds Hnd) as [Hs _]. destruct (as_message _); try contradiction; discriminate.
    + change (map (comp_msg kind) (seq 1 L) !! j = Some m -> of_kind kind m -> m = comp_msg kind (S j)).
      rewrite lookup_map. intros (i & [-> _]%lookup_seq & ->)%fmap_Some _. reflexivity.
    + rewrite lookup_map. intros (i & [-> _]%lookup_seq & ->)%fmap_Some _. reflexivity.
  - intros j m Hj. rewrite (H3 j m Hj). f_equal. unfold wrap. apply Z.mod_small. apply lookup_lt_Some in Hj. lia.
Qed.

Lemma host_script_leaves g kinds c kind : NoDup kinds ->
  host_inv kinds c -> leaves_inserted (host_script g kinds c) kind = bool_decide (kind ∈ hc_components c).
Proof.
  intros Hnd Hinv. unfold leaves_inserted. rewrite host_script_about by assumption. destruct Hinv as [_ H2 _ _ _].
  destruct (H2 kind) as (L & -> & <-). rewrite length_app, length_map, length_seq. unfold start. now case_decide.
Qed.

Lemma host_script_alive g kinds c : NoDup kinds -> host_inv kinds c -> despawns (host_script g kinds c) = false.
Proof.
  intros Hnd [H1 _ _ _ _]. destruct (spawn_message g kinds Hnd) as [Hs _]. unfold despawns. apply bool_decide_eq_false. unfold host_script.
  intros Hl%last_Some_elem_of. apply elem_of_cons in Hl as [Hl|Hl]; [now rewrite <- Hl in Hs|].
  destruct (H1 _ Hl) as [[kind Hk]|Hk]; [discriminate|exact Hk].
Qed.


(** A server sends an entity that starts with one component, gets another and gives it up again;
    the insert of the other overtakes the spawn. *)
Module AgreeSample.
Definition alive : write_state := mkWriteState true true (fun _ => true).
Definition sample_commands : list EntityCommand :=
  [CInsertComponent 5 7; CEnableDelegation None 5; CRemoveComponent 5 7; CInsertComponent 5 8; CRemoveComponent 5 9; CSetAuthority None 5 Granted].
Definition sample_host : HostEntityChannel :=
  match foldM HostEntityChannel_send_command sample_commands (HostEntityChannel_new_with_components Server (list_to_set [9; 6])) with
  | Ok c => c | _ => HostEntityChannel_new Server end.
Definition e0 : RemoteEntity := mkRemoteEntity 1 false.
Definition kinds (e : RemoteEntity) : list ComponentKind := if decide (e = e0) then [9; 6] else [].
Definition commands (e : RemoteEntity) : list EntityCommand := if decide (e = e0) then sample_commands else [].
Definition host (e : RemoteEntity) : HostEntityChannel := if decide (e = e0) then sample_host else HostEntityChannel_new Server.
Definition sends (e : RemoteEntity) : list (write_state * EntityCommand) := map (pair alive) (spawn_command 5 (kinds e) :: hc_outgoing (host e)).
Definition script (e : RemoteEntity) : list (EntityMessage unit) := match write_all (sends e) with Ok l => l | _ => [] end.
Definition sample_order : list (RemoteEntity * nat) := map (pair e0) [4; 6; 3; 0; 5; 2; 1]%nat.

Lemma script_length e : (length (script e) <= 7)%nat.
Proof. unfold script, sends, kinds, host. destruct (decide (e = e0)); vm_compute; lia. Qed.

Lemma sample_leads : spawn_leads script [] sample_order.
Proof.
  intros before e p later kind Ha Hk Ho. rewrite app_nil_r.
  assert (sample_order !! length before = Some (e, p)) as Hl by (rewrite Ha; now apply list_lookup_middle).
  assert (before = take (length before) sample_order) as Hb by (rewrite Ha; symmetry; apply take_app_length). rewrite Hb. clear Ha Hb.
  revert Hl. generalize (length before) as k. intros k Hl. do 7 (destruct k as [|k];
    [injection Hl as <- <-; change (kind ∈ [9; 6]) in Hk; vm_compute in Ho; (discriminate Ho) || (apply (bool_decide_unpack _); vm_compute; exact I) ||
      (injection Ho as <-; exfalso; repeat (apply elem_of_cons in Hk as [Hk|Hk]; [discriminate Hk|]); inversion Hk)|]).
  discriminate Hl.
Qed.

End AgreeSample.

(** An insert that is written after its component is gone blocks the component for
    the rest of the lifetime.  [write_command] sends a [Noop] for the insert (index 1) of a
    component that was removed again before the packet was written, but still sends the
    remove (index 2); the remote channel keeps that remove at the front of its buffer, and
    the next insert (index 3), which the host holds, is never applied. *)
Theorem noop_insert_blocks_component :
  let commands := [CInsertComponent 5 7; CRemoveComponent 5 7; CInsertComponent 5 7] in
  (exists c, foldM HostEntityChannel_send_command commands (HostEntityChannel_new Server) = Ok c /\ hc_components c = {[7]}) /\
  map (written_message true true (fun _ => false)) (take 2 commands) = [Ok Noop; Ok (RemoveComponent tt 7)] /\
  map (written_message true true (fun _ => true)) (drop 2 commands) = [Ok (InsertComponent tt 7)] /\
  summary (arrive [(0, Spawn tt); (2, RemoveComponent tt 7); (3, InsertComponent tt 7)]) = Some (Spawned, [], [Spawn tt]).
Proof.
  split; [eexists; split; [vm_compute; reflexivity|vm_compute; reflexivity]|].
  split; [vm_compute; reflexivity|]. split; vm_compute; reflexivity.
Qed.
