(* ===== verification/DiffMask.v ===== *)
(** The masks of changed properties: [world/update/diff_mask.rs] (a vector of
    bytes, the form that is sent), [atomic_bit_set.rs] and
    [atomic_diff_mask.rs] (64-bit words, the form that is written by the
    mutators).  The atomics are plain words here: every operation runs to its
    end before the next one starts, as in the single-threaded use the sources
    describe.  The theorem of the file is that the words behave like the bytes. *)

From Stdlib Require Import ZArith Lia.
From stdpp Require Import base list numbers option.
From S2P Require Import Prelude.

(** * Vectors of [w]-bit cells, bit [i] in cell [i / w] *)
Section Cells.
Context (w : Z) (Hw : 0 < w).

Definition cell_bit (l : list Z) (i : Z) : bool :=
  match l !! Z.to_nat (i / w) with Some c => Z.testbit c (i mod w) | None => false end.

Definition cells_ok (l : list Z) : Prop := Forall (fun c => 0 <= c < 2 ^ w) l.

Lemma in_range_bits c : 0 <= c < 2 ^ w <-> 0 <= c /\ forall k, w <= k -> Z.testbit c k = false.
Proof using Hw.
  split.
  - intros [H1 H2]. split; [exact H1|]. intros k Hk.
    rewrite <- (Z.mod_small c (2 ^ w)) by lia. apply Z.mod_pow2_bits_high; lia.
  - intros [H1 H2]. split; [exact H1|].
    assert (c = c mod 2 ^ w) as ->; [|apply Z.mod_pos_bound; lia].
    apply Z.bits_inj'. intros k Hk. destruct (Z.lt_ge_cases k w).
    + now rewrite Z.mod_pow2_bits_low by lia.
    + rewrite Z.mod_pow2_bits_high by lia. now apply H2.
Qed.

Lemma lor_range a b : 0 <= a < 2 ^ w -> 0 <= b < 2 ^ w -> 0 <= Z.lor a b < 2 ^ w.
Proof using Hw.
  rewrite !in_range_bits. intros [Ha1 Ha2] [Hb1 Hb2]. split; [now apply Z.lor_nonneg|].
  intros k Hk. now rewrite Z.lor_spec, Ha2, Hb2.
Qed.

Lemma land_range a b : 0 <= a < 2 ^ w -> 0 <= Z.land a b < 2 ^ w.
Proof using Hw.
  rewrite !in_range_bits. intros [Ha1 Ha2]. split; [apply Z.land_nonneg; now left|].
  intros k Hk. now rewrite Z.land_spec, Ha2.
Qed.

Lemma pow_range k : 0 <= k < w -> 0 <= Z.shiftl 1 k < 2 ^ w.
Proof using Hw. intros Hk. rewrite Z.shiftl_1_l. split; [lia|]. apply Z.pow_lt_mono_r; lia. Qed.

Lemma shiftl_1_testbit k n : 0 <= k -> 0 <= n -> Z.testbit (Z.shiftl 1 k) n = (k =? n).
Proof. intros. rewrite Z.shiftl_1_l. destruct (Z.eqb_spec k n) as [->|]; [now apply Z.pow2_bits_true|]. now apply Z.pow2_bits_false. Qed.

(** The cell and the position of a bit determine it. *)
Lemma index_split i j : i / w = j / w -> i mod w = j mod w -> i = j.
Proof using Hw. intros H1 H2. rewrite (Z.div_mod i w), (Z.div_mod j w) by lia. congruence. Qed.

Lemma index_join q r : 0 <= r < w -> (q * w + r) / w = q /\ (q * w + r) mod w = r.
Proof using Hw.
  intros Hr. split.
  - rewrite Z.div_add_l, Z.div_small by lia. lia.
  - rewrite Z.add_comm, Z.mod_add by lia. now apply Z.mod_small.
Qed.

Lemma div_nat_eq i j : 0 <= i -> 0 <= j -> Z.to_nat (i / w) = Z.to_nat (j / w) <-> i / w = j / w.
Proof using Hw.
  intros Hi Hj. pose proof (Z.div_pos i w Hi Hw). pose proof (Z.div_pos j w Hj Hw).
  split; [apply Z2Nat.inj; lia|congruence].
Qed.

(** Writing one cell changes only its own bits. *)
Lemma cell_bit_insert l n c i : (n < length l)%nat -> 0 <= i ->
  cell_bit (<[n := c]> l) i = if decide (Z.to_nat (i / w) = n) then Z.testbit c (i mod w) else cell_bit l i.
Proof.
  intros Hn Hi. unfold cell_bit. destruct (decide (Z.to_nat (i / w) = n)) as [->|Hne].
  - now rewrite list_lookup_insert_eq.
  - now rewrite list_lookup_insert_ne by congruence.
Qed.

Lemma cell_bit_set l c j i : 0 <= i -> 0 <= j -> l !! Z.to_nat (j / w) = Some c ->
  cell_bit (<[Z.to_nat (j / w) := Z.lor c (Z.shiftl 1 (j mod w))]> l) i = (i =? j) || cell_bit l i.
Proof using Hw.
  intros Hi Hj Hc. rewrite cell_bit_insert by (try lia; eauto using lookup_lt_Some).
  pose proof (Z.mod_pos_bound i w Hw). pose proof (Z.mod_pos_bound j w Hw).
  destruct (decide _) as [Heq|Hne].
  - apply div_nat_eq in Heq as Hq; [|lia..]. unfold cell_bit. rewrite Heq, Hc.
    rewrite Z.lor_spec, shiftl_1_testbit, orb_comm by lia. f_equal.
    destruct (Z.eqb_spec i j) as [->|Hij]; [apply Z.eqb_refl|].
    apply Z.eqb_neq. intros Hm. apply Hij. now apply index_split.
  - destruct (Z.eqb_spec i j) as [->|]; [congruence|reflexivity].
Qed.

Lemma cell_bit_clear l c j m i : 0 <= i -> 0 <= j -> l !! Z.to_nat (j / w) = Some c ->
  (forall k, 0 <= k < w -> Z.testbit m k = negb (j mod w =? k)) ->
  cell_bit (<[Z.to_nat (j / w) := Z.land c m]> l) i = negb (i =? j) && cell_bit l i.
Proof using Hw.
  intros Hi Hj Hc Hm. rewrite cell_bit_insert by (try lia; eauto using lookup_lt_Some).
  pose proof (Z.mod_pos_bound i w Hw). pose proof (Z.mod_pos_bound j w Hw).
  destruct (decide _) as [Heq|Hne].
  - apply div_nat_eq in Heq as Hq; [|lia..]. unfold cell_bit. rewrite Heq, Hc.
    rewrite Z.land_spec, Hm, andb_comm by lia. do 2 f_equal.
    destruct (Z.eqb_spec i j) as [->|Hij]; [apply Z.eqb_refl|].
    apply Z.eqb_neq. intros Hmm. apply Hij. now apply index_split.
  - destruct (Z.eqb_spec i j) as [->|]; [congruence|reflexivity].
Qed.

Lemma cells_ok_insert l n c : cells_ok l -> 0 <= c < 2 ^ w -> cells_ok (<[n := c]> l).
Proof. intros Hl Hc. now apply Forall_insert. Qed.

Lemma cells_ok_lookup l n c : cells_ok l -> l !! n = Some c -> 0 <= c < 2 ^ w.
Proof. intros Hl Hc. exact (proj1 (Forall_lookup _ _) Hl _ _ Hc). Qed.

Lemma cell_bit_overflow l i : 0 <= i -> w * Z.of_nat (length l) <= i -> cell_bit l i = false.
Proof using Hw.
  intros Hi H. unfold cell_bit. rewrite lookup_ge_None_2; [reflexivity|].
  apply Z.div_le_lower_bound in H; lia.
Qed.

(** Bit [q * w + r] is bit [r] of cell [q]. *)
Lemma cell_bit_at l q r c : l !! q = Some c -> 0 <= r < w -> cell_bit l (Z.of_nat q * w + r) = Z.testbit c r.
Proof using Hw.
  intros Hc Hr. unfold cell_bit. destruct (index_join (Z.of_nat q) r Hr) as [-> ->].
  now rewrite Nat2Z.id, Hc.
Qed.

(** Vectors of one length with the same bits are equal. *)
Lemma cells_ext l1 l2 : cells_ok l1 -> cells_ok l2 -> length l1 = length l2 ->
  (forall i, 0 <= i -> cell_bit l1 i = cell_bit l2 i) -> l1 = l2.
Proof using Hw.
  intros H1 H2 Hlen Heq. apply (list_eq_same_length _ _ _ eq_refl Hlen). intros q c1 c2 _ Hc1 Hc2.
  pose proof (cells_ok_lookup _ _ _ H1 Hc1) as Hr1. pose proof (cells_ok_lookup _ _ _ H2 Hc2) as Hr2.
  apply in_range_bits in Hr1 as [Hp1 Hr1]. apply in_range_bits in Hr2 as [Hp2 Hr2].
  apply Z.bits_inj'. intros k Hk. destruct (Z.lt_ge_cases k w).
  - rewrite <- (cell_bit_at _ _ _ _ Hc1), <- (cell_bit_at _ _ _ _ Hc2) by lia. apply Heq. nia.
  - now rewrite Hr1, Hr2.
Qed.

Lemma cells_zero l : cells_ok l ->
  (forall c, c ∈ l -> c = 0) <-> (forall i, 0 <= i -> cell_bit l i = false).
Proof using Hw.
  intros Hl. split.
  - intros H i Hi. unfold cell_bit. destruct (l !! _) as [c|] eqn:Hc; [|reflexivity].
    rewrite (H c) by eauto using list_elem_of_lookup_2. apply Z.bits_0.
  - intros H c [q Hq]%list_elem_of_lookup_1. pose proof (cells_ok_lookup _ _ _ Hl Hq) as Hr.
    apply in_range_bits in Hr as [Hp Hr]. apply Z.bits_inj'. intros k Hk. rewrite Z.bits_0.
    destruct (Z.lt_ge_cases k w); [|now apply Hr].
    rewrite <- (cell_bit_at _ _ _ _ Hq) by lia. apply H. nia.
Qed.

Lemma cells_nonzero l n c : cells_ok l -> l !! n = Some c -> c <> 0 ->
  exists i, 0 <= i < w * Z.of_nat (length l) /\ cell_bit l i = true.
Proof using Hw.
  intros Hl Hc Hne. pose proof (cells_ok_lookup _ _ _ Hl Hc) as Hr. pose proof (lookup_lt_Some _ _ _ Hc).
  assert (0 <= Z.log2 c < w) by (split; [apply Z.log2_nonneg|apply Z.log2_lt_pow2; lia]).
  exists (Z.of_nat n * w + Z.log2 c). split; [nia|]. rewrite (cell_bit_at _ _ _ _ Hc) by lia. apply Z.bit_log2; lia.
Qed.

Lemma cell_bit_replicate n i : cell_bit (replicate n 0) i = false.
Proof.
  unfold cell_bit. destruct (_ !! _) as [c|] eqn:Hc; [|reflexivity].
  apply lookup_replicate in Hc as [-> _]. apply Z.bits_0.
Qed.

Lemma cells_ok_replicate n : cells_ok (replicate n 0).
Proof using Hw. apply Forall_replicate. split; [lia|]. apply Z.pow_pos_nonneg; lia. Qed.
End Cells.

(** * The byte mask *)
Module DiffMask.

Record DiffMask := { mask : list Z }.

Definition new (bytes : Z) : DiffMask := {| mask := replicate (Z.to_nat bytes) 0 |}.

(** [!b] of a [u8]. *)
Definition not8 (b : Z) : Z := Z.lxor 255 b.

Definition bit (self : DiffMask) (index : Z) : option bool :=
  match self.(mask) !! Z.to_nat (index / 8) with
  | Some byte =>
      let adjusted_index := index mod 8 in
      Some (negb (Z.land byte (Z.shiftl 1 adjusted_index) =? 0))
  | None => None
  end.

Definition set_bit (self : DiffMask) (index : Z) (value : bool) : DiffMask :=
  match self.(mask) !! Z.to_nat (index / 8) with
  | Some byte =>
      let adjusted_index := index mod 8 in
      let bit_mask := Z.shiftl 1 adjusted_index in
      let byte' := if value then Z.lor byte bit_mask else Z.land byte (not8 bit_mask) in
      {| mask := <[Z.to_nat (index / 8) := byte']> self.(mask) |}
  | None => self
  end.

Definition clear (self : DiffMask) : DiffMask :=
  let size := length self.(mask) in {| mask := replicate size 0 |}.

Fixpoint all_zero (bytes : list Z) : bool :=
  match bytes with
  | [] => true
  | byte :: bytes' => if negb (byte =? 0) then false else all_zero bytes'
  end.

Definition is_clear (self : DiffMask) : bool := all_zero self.(mask).

Definition byte_number (self : DiffMask) : Z := wrap 8 (Z.of_nat (length self.(mask))).

Definition byte (self : DiffMask) (index : nat) : res Z := unwrap (self.(mask) !! index).

(** The loop over the byte positions of [self], which indexes [other]. *)
Fixpoint zip_bytes (f : Z -> Z -> Z) (mine others : list Z) : res (list Z) :=
  match mine, others with
  | [], _ => Ok []
  | my_byte :: mine', other_byte :: others' =>
      rest ← zip_bytes f mine' others'; Ok (f my_byte other_byte :: rest)
  | _ :: _, [] => Panic
  end.

Definition combine (f : Z -> Z -> Z) (self other : DiffMask) : res DiffMask :=
  if negb (byte_number other =? byte_number self) then Ok self
  else m ← zip_bytes f self.(mask) other.(mask); Ok {| mask := m |}.

Definition nand (self other : DiffMask) : res DiffMask :=
  combine (fun my_byte other_byte => Z.land my_byte (not8 other_byte)) self other.

Definition or (self other : DiffMask) : res DiffMask := combine Z.lor self other.

Definition copy_contents (self other : DiffMask) : res DiffMask :=
  combine (fun _ other_byte => other_byte) self other.

(** ** The set of properties a mask stands for *)
Definition has (self : DiffMask) (index : Z) : bool :=
  match bit self index with Some b => b | None => false end.

(** What every mask of the program satisfies: at most 255 bytes, all in range. *)
Definition mask_ok (self : DiffMask) : Prop :=
  (length self.(mask) < 256)%nat /\ Forall is_byte self.(mask).

Lemma land_pow2_bit b k : 0 <= k -> negb (Z.land b (Z.shiftl 1 k) =? 0) = Z.testbit b k.
Proof.
  intros Hk. destruct (Z.testbit b k) eqn:Hb.
  - apply negb_true_iff, Z.eqb_neq. intros H. apply (f_equal (fun z => Z.testbit z k)) in H.
    rewrite Z.land_spec, Hb, shiftl_1_testbit, Z.eqb_refl, Z.bits_0 in H by lia. discriminate.
  - apply negb_false_iff, Z.eqb_eq, Z.bits_inj'. intros n Hn.
    rewrite Z.land_spec, shiftl_1_testbit, Z.bits_0 by lia.
    destruct (Z.eqb_spec k n) as [->|]; [now rewrite Hb|apply andb_false_r].
Qed.

Lemma has_cell self i : has self i = cell_bit 8 self.(mask) i.
Proof.
  unfold has, bit, cell_bit. destruct (_ !! _); [|reflexivity].
  apply land_pow2_bit, Z.mod_pos_bound; lia.
Qed.

Lemma not8_bits b k : 0 <= k < 8 -> Z.testbit (not8 b) k = negb (Z.testbit b k).
Proof.
  intros Hk. unfold not8. rewrite Z.lxor_spec. change 255 with (Z.ones 8).
  rewrite Z.ones_spec_low by lia. apply xorb_true_l.
Qed.

Lemma not8_range b : is_byte b -> is_byte (not8 b).
Proof.
  unfold is_byte. change 256 with (2 ^ 8). rewrite !(in_range_bits 8) by lia. intros [H1 H2].
  split; [unfold not8; rewrite Z.lxor_nonneg; lia|]. intros k Hk. unfold not8.
  rewrite Z.lxor_spec, H2 by lia. change 255 with (Z.ones 8). now rewrite Z.ones_spec_high by lia.
Qed.

Lemma mask_cells self : mask_ok self -> cells_ok 8 self.(mask).
Proof. intros [_ H]. exact H. Qed.

Lemma mask_ext m1 m2 : mask_ok m1 -> mask_ok m2 -> length m1.(mask) = length m2.(mask) ->
  (forall i, 0 <= i -> has m1 i = has m2 i) -> m1 = m2.
Proof.
  intros H1 H2 Hlen Heq. destruct m1 as [l1], m2 as [l2]. f_equal. simpl in *.
  apply (cells_ext 8); [lia|apply H1|apply H2|exact Hlen|].
  intros i Hi. specialize (Heq i Hi). now rewrite !has_cell in Heq.
Qed.

(** ** What each operation does to the set of properties *)
Lemma new_has n i : has (new n) i = false.
Proof. rewrite has_cell. apply cell_bit_replicate. Qed.

Lemma clear_has self i : has (clear self) i = false.
Proof. rewrite has_cell. apply cell_bit_replicate. Qed.

Lemma has_beyond self i : 0 <= i -> 8 * Z.of_nat (length self.(mask)) <= i -> has self i = false.
Proof. intros. rewrite has_cell. now apply cell_bit_overflow. Qed.

Lemma byte_at self j : 0 <= j < 8 * Z.of_nat (length self.(mask)) ->
  exists c, self.(mask) !! Z.to_nat (j / 8) = Some c.
Proof.
  intros Hj. apply lookup_lt_is_Some_2.
  apply Nat2Z.inj_lt. rewrite Z2Nat.id by (apply Z.div_pos; lia). apply Z.div_lt_upper_bound; lia.
Qed.

Lemma set_bit_has self j value i : 0 <= i -> 0 <= j < 8 * Z.of_nat (length self.(mask)) ->
  has (set_bit self j value) i = if i =? j then value else has self i.
Proof.
  intros Hi Hj. destruct (byte_at self j Hj) as [c Hc]. unfold set_bit. rewrite Hc.
  rewrite !has_cell. cbn [mask]. destruct value.
  - rewrite (cell_bit_set 8) by (try exact Hc; lia). destruct (i =? j); reflexivity.
  - rewrite (cell_bit_clear 8) by (try exact Hc; try lia; intros k Hk; rewrite not8_bits, shiftl_1_testbit by dlia; reflexivity).
    destruct (i =? j); reflexivity.
Qed.

Lemma set_bit_length self j value : length (set_bit self j value).(mask) = length self.(mask).
Proof. unfold set_bit. destruct (_ !! _); [apply length_insert|reflexivity]. Qed.

Lemma set_bit_mask_ok self j value : mask_ok self -> mask_ok (set_bit self j value).
Proof.
  intros Hok. split; [rewrite set_bit_length; apply Hok|].
  unfold set_bit. destruct (_ !! _) as [c|] eqn:Hc; [|apply Hok].
  pose proof (cells_ok_lookup 8 _ _ _ (mask_cells _ Hok) Hc) as Hr.
  pose proof (Z.mod_pos_bound j 8 ltac:(lia)).
  apply (cells_ok_insert 8); [apply Hok|]. destruct value.
  - apply lor_range; [lia|exact Hr|apply pow_range; lia].
  - apply land_range; [lia|exact Hr].
Qed.

Lemma new_mask_ok n : 0 <= n < 256 -> mask_ok (new n).
Proof.
  intros Hn. split; [unfold new; cbn [mask]; rewrite length_replicate; lia|].
  apply (cells_ok_replicate 8); lia.
Qed.

Lemma clear_mask_ok self : mask_ok self -> mask_ok (clear self).
Proof.
  intros [Hl _]. split; [unfold clear; cbn [mask]; now rewrite length_replicate|].
  apply (cells_ok_replicate 8); lia.
Qed.

Lemma all_zero_spec l : all_zero l = true <-> forall c, c ∈ l -> c = 0.
Proof.
  induction l as [|b l IH]; cbn [all_zero].
  - split; [intros _ c Hc; now apply elem_of_nil in Hc|reflexivity].
  - destruct (Z.eqb_spec b 0) as [->|Hb]; cbn [negb].
    + rewrite IH. split; intros H c Hc; [|apply H; now right].
      apply elem_of_cons in Hc as [->|Hc]; auto.
    + split; [discriminate|]. intros H. destruct Hb. apply H. now left.
Qed.

Lemma is_clear_spec self : mask_ok self ->
  is_clear self = true <-> forall i, 0 <= i -> has self i = false.
Proof.
  intros Hok. unfold is_clear. rewrite all_zero_spec, (cells_zero 8) by (try lia; now apply mask_cells).
  split; intros H i Hi; specialize (H i Hi); now rewrite has_cell in *.
Qed.

Lemma is_clear_false self : mask_ok self -> is_clear self = false ->
  exists i, 0 <= i < 8 * Z.of_nat (length self.(mask)) /\ has self i = true.
Proof.
  intros Hok Hcl. unfold is_clear in Hcl. assert (exists n c, self.(mask) !! n = Some c /\ c <> 0) as (n & c & Hc & Hne).
  { clear Hok. induction self.(mask) as [|b l IH]; cbn [all_zero] in Hcl; [discriminate|].
    destruct (Z.eqb_spec b 0) as [->|Hb]; cbn [negb] in Hcl; [|now exists O, b].
    destruct (IH Hcl) as (n & c & Hc & Hne). now exists (S n), c. }
  destruct (cells_nonzero 8 ltac:(lia) _ _ _ (mask_cells _ Hok) Hc Hne) as (i & Hi & Hb).
  exists i. split; [exact Hi|]. now rewrite has_cell.
Qed.

(** The binary operations work byte by byte on masks of one length. *)
Lemma zip_bytes_ok f l1 l2 : length l1 = length l2 -> zip_bytes f l1 l2 = Ok (zip_with f l1 l2).
Proof.
  revert l2; induction l1 as [|b l1 IH]; intros [|o l2] Hlen; try discriminate; [reflexivity|].
  cbn [zip_bytes zip_with]. rewrite IH by (injection Hlen; auto). reflexivity.
Qed.

Lemma combine_ok f g m1 m2 : mask_ok m1 -> mask_ok m2 -> length m1.(mask) = length m2.(mask) ->
  (forall a b, is_byte a -> is_byte b -> is_byte (f a b)) ->
  (forall a b k, 0 <= k < 8 -> Z.testbit (f a b) k = g (Z.testbit a k) (Z.testbit b k)) -> g false false = false ->
  exists m, combine f m1 m2 = Ok m /\ mask_ok m /\ length m.(mask) = length m1.(mask) /\
    forall i, 0 <= i -> has m i = g (has m1 i) (has m2 i).
Proof.
  intros H1 H2 Hlen Hrange Hf Hg. unfold combine, byte_number.
  rewrite (proj2 (Z.eqb_eq _ _)) by now rewrite Hlen. cbn [negb].
  rewrite zip_bytes_ok, bind_ok by exact Hlen. eexists. split; [reflexivity|].
  assert (length (zip_with f m1.(mask) m2.(mask)) = length m1.(mask)) as Hl
    by (rewrite length_zip_with; lia).
  split_and!; [split; cbn [mask]| |].
  - rewrite Hl. apply H1.
  - apply Forall_lookup. intros n c. rewrite lookup_zip_with_Some. intros (a & b & -> & Ha & Hb).
    apply Hrange; [exact (cells_ok_lookup 8 _ _ _ (mask_cells _ H1) Ha)|exact (cells_ok_lookup 8 _ _ _ (mask_cells _ H2) Hb)].
  - exact Hl.
  - intros i Hi. rewrite !has_cell. unfold cell_bit. cbn [mask]. rewrite lookup_zip_with.
    destruct (m1.(mask) !! _) as [a|] eqn:Ha; cbn.
    + destruct (lookup_lt_is_Some_2 m2.(mask) (Z.to_nat (i / 8))) as [b Hb]; [rewrite <- Hlen; eauto using lookup_lt_Some|].
      rewrite Hb. cbn. apply Hf. apply Z.mod_pos_bound; lia.
    + apply lookup_ge_None_1 in Ha. rewrite lookup_ge_None_2 by lia. now rewrite Hg.
Qed.

Lemma combine_other_length f m1 m2 : mask_ok m1 -> mask_ok m2 -> length m1.(mask) <> length m2.(mask) ->
  combine f m1 m2 = Ok m1.
Proof.
  intros [H1 _] [H2 _] Hne. unfold combine, byte_number, wrap.
  rewrite (proj2 (Z.eqb_neq _ _)); [reflexivity|]. rewrite !Z.mod_small by lia. lia.
Qed.

Lemma nand_ok m1 m2 : mask_ok m1 -> mask_ok m2 -> length m1.(mask) = length m2.(mask) ->
  exists m, nand m1 m2 = Ok m /\ mask_ok m /\ length m.(mask) = length m1.(mask) /\
    forall i, 0 <= i -> has m i = has m1 i && negb (has m2 i).
Proof.
  intros H1 H2 Hlen. apply (combine_ok _ (fun a b => a && negb b)); try assumption; [| |reflexivity].
  - intros a b Ha Hb. apply (land_range 8); [lia|exact Ha].
  - intros a b k Hk. now rewrite Z.land_spec, not8_bits.
Qed.

Lemma or_ok m1 m2 : mask_ok m1 -> mask_ok m2 -> length m1.(mask) = length m2.(mask) ->
  exists m, or m1 m2 = Ok m /\ mask_ok m /\ length m.(mask) = length m1.(mask) /\
    forall i, 0 <= i -> has m i = has m1 i || has m2 i.
Proof.
  intros H1 H2 Hlen. apply (combine_ok _ orb); try assumption; [| |reflexivity].
  - intros a b Ha Hb. now apply (lor_range 8).
  - intros a b k Hk. apply Z.lor_spec.
Qed.

Lemma copy_contents_ok m1 m2 : mask_ok m1 -> mask_ok m2 -> length m1.(mask) = length m2.(mask) ->
  copy_contents m1 m2 = Ok m2.
Proof.
  intros H1 H2 Hlen.
  destruct (combine_ok (fun _ o => o) (fun _ b => b) m1 m2) as (m & Hm & Hok & Hl & Hb); try assumption; [auto..|].
  unfold copy_contents. rewrite Hm. f_equal. apply mask_ext; try assumption. now rewrite Hl.
Qed.
End DiffMask.

(** * The word mask *)
Module AtomicBitSet.
Import DiffMask.

Definition div_ceil (a b : Z) : Z := (a + b - 1) / b.
Definition words_for_bits (bit_capacity : Z) : Z := Z.max (div_ceil bit_capacity 64) 1.

Record AtomicBitSet := { words : list Z; bit_capacity : Z }.

Definition BitSet_new (bit_capacity : Z) : AtomicBitSet :=
  let n_words := words_for_bits bit_capacity in
  {| words := replicate (Z.to_nat n_words) 0; bit_capacity := bit_capacity |}.

Definition BitSet_byte_number (self : AtomicBitSet) : Z := div_ceil self.(bit_capacity) 8.

Definition with_words (self : AtomicBitSet) (ws : list Z) : AtomicBitSet :=
  {| words := ws; bit_capacity := self.(bit_capacity) |}.

(** The loop that looks for another non-zero word, from position [i]. *)
Fixpoint others_zero (word_idx i : nat) (ws : list Z) : bool :=
  match ws with
  | [] => true
  | w :: ws' =>
      if decide (i = word_idx) then others_zero word_idx (S i) ws'
      else if negb (w =? 0) then false else others_zero word_idx (S i) ws'
  end.

Definition BitSet_set_bit (self : AtomicBitSet) (index : Z) : AtomicBitSet * bool :=
  let word_idx := Z.to_nat (index / 64) in
  let bit_in_word := index mod 64 in
  match self.(words) !! word_idx with
  | None => (self, false)
  | Some prev =>
      let self' := with_words self (<[word_idx := Z.lor prev (Z.shiftl 1 bit_in_word)]> self.(words)) in
      if negb (prev =? 0) then (self', false)
      else if decide (length self'.(words) = 1%nat) then (self', true)
      else (self', others_zero word_idx 0 self'.(words))
  end.

Fixpoint swap_words (ws : list Z) (was_dirty : bool) : list Z * bool :=
  match ws with
  | [] => ([], was_dirty)
  | prev :: ws' =>
      let '(rest, d) := swap_words ws' (if negb (prev =? 0) then true else was_dirty) in
      (0 :: rest, d)
  end.

Definition BitSet_clear (self : AtomicBitSet) : AtomicBitSet * bool :=
  let '(ws, was_dirty) := swap_words self.(words) false in (with_words self ws, was_dirty).

Definition BitSet_is_clear (self : AtomicBitSet) : bool := forallb (fun w => w =? 0) self.(words).

(** One word of the other mask, gathered from its bytes. *)
Fixpoint gather (other : DiffMask) (other_byte_count : Z) (byte_base : nat) (offsets : list nat) (word_value : Z) : res Z :=
  match offsets with
  | [] => Ok word_value
  | byte_offset :: offsets' =>
      let abs_byte := (byte_base + byte_offset)%nat in
      if other_byte_count <=? Z.of_nat abs_byte then Ok word_value
      else b ← byte other abs_byte;
           gather other other_byte_count byte_base offsets'
             (if negb (b =? 0) then Z.lor word_value (Z.shiftl b (Z.of_nat byte_offset * 8)) else word_value)
  end.

Definition or_word (other : DiffMask) (other_byte_count : Z) (word_idx : nat) (st : list Z * bool) : res (list Z * bool) :=
  let '(ws, any_set) := st in
  word_value ← gather other other_byte_count (word_idx * 8) (seq 0 8) 0;
  if negb (word_value =? 0) then
    w ← unwrap (ws !! word_idx);
    Ok (<[word_idx := Z.lor w word_value]> ws, true)
  else Ok (ws, any_set).

Definition BitSet_or_with (self : AtomicBitSet) (other : DiffMask) : res (AtomicBitSet * bool) :=
  let other_byte_count := DiffMask.byte_number other in
  if other_byte_count =? 0 then Ok (self, false)
  else
    let was_clear_before := BitSet_is_clear self in
    st ← foldM (or_word other other_byte_count) (seq 0 (length self.(words))) (self.(words), false);
    Ok (with_words self st.1, was_clear_before && st.2).

(** The bits of one BitSet_byte, with [(abs_byte as u8) * 8 + bit] in [u8]. *)
Definition snap_bit (byte_val : Z) (abs_byte : Z) (b : nat) (m : DiffMask) : res DiffMask :=
  if negb (Z.land byte_val (Z.shiftl 1 (Z.of_nat b)) =? 0) then
    base ← (if wrap 8 abs_byte * 8 <? 2 ^ 8 then Ok (wrap 8 abs_byte * 8) else Panic);
    index ← uadd 8 base (Z.of_nat b);
    Ok (DiffMask.set_bit m index true)
  else Ok m.

Fixpoint snap_bytes (bits : Z) (word_idx : nat) (byte_n : Z) (offsets : list nat) (m : DiffMask) : res DiffMask :=
  match offsets with
  | [] => Ok m
  | byte_offset :: offsets' =>
      let abs_byte := Z.of_nat (word_idx * 8 + byte_offset) in
      if byte_n <=? abs_byte then Ok m
      else
        let byte_val := Z.land (Z.shiftr bits (Z.of_nat byte_offset * 8)) 255 in
        m' ← (if byte_val =? 0 then Ok m else foldM (snap_bit byte_val abs_byte) (seq 0 8) m);
        snap_bytes bits word_idx byte_n offsets' m'
  end.

Definition snap_word (byte_n : Z) (wi : nat * Z) (m : DiffMask) : res DiffMask :=
  let '(word_idx, bits) := wi in
  if bits =? 0 then Ok m else snap_bytes bits word_idx byte_n (seq 0 8) m.

Definition BitSet_snapshot (self : AtomicBitSet) : res DiffMask :=
  let byte_n := BitSet_byte_number self in
  foldM (snap_word byte_n) (imap pair self.(words)) (DiffMask.new (wrap 8 byte_n)).

Definition BitSet_byte (self : AtomicBitSet) (index : nat) : Z :=
  let word_idx := (index / 8)%nat in
  let byte_in_word := (index mod 8)%nat in
  match self.(words) !! word_idx with
  | None => 0
  | Some bits => Z.land (Z.shiftr bits (Z.of_nat byte_in_word * 8)) 255
  end.

(** ** The set of properties, and its invariant for a mask of [n] bytes *)
Definition BitSet_has (self : AtomicBitSet) (index : Z) : bool := cell_bit 64 self.(words) index.

Record set_ok (n : Z) (self : AtomicBitSet) : Prop := {
  so_range : 0 <= n <= 32;
  so_capacity : self.(bit_capacity) = 8 * n;
  so_length : Z.of_nat (length self.(words)) = words_for_bits (8 * n);
  so_cells : cells_ok 64 self.(words);
  so_beyond : forall i, 8 * n <= i -> BitSet_has self i = false
}.

Lemma others_zero_spec k i ws :
  others_zero k i ws = true <-> forall j w, ws !! j = Some w -> (i + j)%nat <> k -> w = 0.
Proof.
  revert i; induction ws as [|w ws IH]; intros i; cbn [others_zero].
  - split; [intros _ j w Hj|reflexivity]. now rewrite lookup_nil in Hj.
  - destruct (decide (i = k)) as [->|Hne].
    + rewrite IH. split; intros H [|j] w' Hj Hk.
      * lia.
      * apply (H j); [exact Hj|lia].
      * specialize (H 1%nat w' Hj). apply H. lia.
      * specialize (H (S (S j)) w' Hj). apply H. lia.
    + destruct (Z.eqb_spec w 0) as [->|Hw]; cbn [negb].
      * rewrite IH. split; intros H [|j] w' Hj Hk.
        -- now injection Hj.
        -- apply (H j); [exact Hj|lia].
        -- specialize (H 1%nat w' Hj). apply H. lia.
        -- specialize (H (S (S j)) w' Hj). apply H. lia.
      * split; [discriminate|]. intros H. destruct Hw. apply (H 0%nat); [reflexivity|lia].
Qed.

Lemma is_clear_zero self : BitSet_is_clear self = true <-> forall c, c ∈ self.(words) -> c = 0.
Proof.
  unfold BitSet_is_clear. rewrite forallb_forall. setoid_rewrite Z.eqb_eq.
  split; intros H c Hc; apply H; now apply list_elem_of_In.
Qed.

Lemma BitSet_is_clear_spec self : cells_ok 64 self.(words) ->
  BitSet_is_clear self = true <-> forall i, 0 <= i -> BitSet_has self i = false.
Proof. intros Hok. rewrite is_clear_zero. now apply cells_zero. Qed.

Lemma words_bound n : 0 <= n -> 8 * n <= 64 * words_for_bits (8 * n).
Proof. intros Hn. unfold words_for_bits, div_ceil. dlia. Qed.

Lemma BitSet_new_ok n : 0 <= n <= 32 -> set_ok n (BitSet_new (8 * n)).
Proof.
  intros Hn. split; cbn [words bit_capacity BitSet_new]; try lia.
  - rewrite length_replicate. unfold words_for_bits. lia.
  - apply cells_ok_replicate; lia.
  - intros i Hi. apply cell_bit_replicate.
Qed.

Lemma byte_number_ok n self : set_ok n self -> BitSet_byte_number self = n.
Proof. intros [Hn Hc _ _ _]. unfold BitSet_byte_number, div_ceil. rewrite Hc. dlia. Qed.

Lemma word_at n self i : set_ok n self -> 0 <= i < 8 * n -> exists c, self.(words) !! Z.to_nat (i / 64) = Some c.
Proof.
  intros [Hn _ Hl _ _] Hi. pose proof (words_bound n ltac:(lia)). apply lookup_lt_is_Some_2, Nat2Z.inj_lt.
  rewrite Z2Nat.id by (apply Z.div_pos; lia). apply Z.div_lt_upper_bound; lia.
Qed.

(** Setting a bit adds it, and reports whether the set was empty. *)
Lemma set_bit_ok n self j : set_ok n self -> 0 <= j < 8 * n ->
  exists self', BitSet_set_bit self j = (self', BitSet_is_clear self) /\ set_ok n self' /\
    forall i, 0 <= i -> BitSet_has self' i = (i =? j) || BitSet_has self i.
Proof.
  intros Hok Hj. destruct (word_at n self j Hok Hj) as [c Hc]. destruct Hok as [Hn Hcap Hl Hcells Hbey].
  pose proof (Z.mod_pos_bound j 64 ltac:(lia)). pose proof (cells_ok_lookup 64 _ _ _ Hcells Hc) as Hr.
  unfold BitSet_set_bit. rewrite Hc.
  set (self' := with_words self (<[Z.to_nat (j / 64) := Z.lor c (Z.shiftl 1 (j mod 64))]> self.(words))).
  assert (forall i, 0 <= i -> BitSet_has self' i = (i =? j) || BitSet_has self i) as Hhas
    by (intros i Hi; now apply (cell_bit_set 64)).
  exists self'. split_and!; [| |exact Hhas].
  - destruct (Z.eqb_spec c 0) as [->|Hc0]; cbn [negb].
    + destruct (decide _) as [H1|H1].
      * f_equal. symmetry. apply is_clear_zero. intros w [q Hq]%list_elem_of_lookup_1.
        cbn [words self' with_words] in H1. rewrite length_insert in H1.
        pose proof (lookup_lt_Some _ _ _ Hq). pose proof (lookup_lt_Some _ _ _ Hc). assert (q = Z.to_nat (j / 64)) as -> by lia. congruence.
      * f_equal. apply eq_true_iff_eq. rewrite others_zero_spec, is_clear_zero. cbn [words self' with_words]. split.
        -- intros H0 w [q Hq]%list_elem_of_lookup_1. destruct (decide (q = Z.to_nat (j / 64))) as [->|Hne]; [congruence|].
           apply (H0 q); [|lia]. now rewrite list_lookup_insert_ne.
        -- intros H0 q w Hq Hne. rewrite list_lookup_insert_ne in Hq by lia. apply H0. eauto using list_elem_of_lookup_2.
    + f_equal. symmetry. apply not_true_is_false. rewrite is_clear_zero. intros H0. apply Hc0, H0. eauto using list_elem_of_lookup_2.
  - split; try assumption.
    + cbn. now rewrite length_insert.
    + apply cells_ok_insert; [exact Hcells|]. apply lor_range; [lia|exact Hr|]. apply pow_range; lia.
    + intros i Hi. rewrite Hhas, Hbey, orb_false_r by lia. apply Z.eqb_neq. lia.
Qed.

Lemma swap_words_spec ws d : swap_words ws d = (replicate (length ws) 0, d || negb (forallb (fun w => w =? 0) ws)).
Proof.
  revert d; induction ws as [|w ws IH]; intros d; cbn [swap_words length replicate forallb]; [now rewrite orb_false_r|].
  rewrite IH. destruct (w =? 0), d; reflexivity.
Qed.

Lemma clear_ok n self : set_ok n self ->
  exists self', BitSet_clear self = (self', negb (BitSet_is_clear self)) /\ set_ok n self' /\ forall i, BitSet_has self' i = false.
Proof.
  intros [Hn Hcap Hl Hcells Hbey]. unfold BitSet_clear. rewrite swap_words_spec. eexists. split; [reflexivity|].
  assert (forall i, cell_bit 64 (replicate (length self.(words)) 0) i = false) as Hz by (intros; apply cell_bit_replicate).
  split; [|exact Hz]. split; try assumption.
  - cbn. now rewrite length_replicate.
  - apply cells_ok_replicate; lia.
  - intros i _. apply Hz.
Qed.

(** ** Merging a BitSet_byte mask *)
Lemma shiftl_bits b n k : 0 <= n -> 0 <= k -> Z.testbit (Z.shiftl b n) k = (n <=? k) && Z.testbit b (k - n).
Proof.
  intros Hn Hk. rewrite Z.shiftl_spec by lia. destruct (Z.leb_spec n k); [reflexivity|].
  now rewrite Z.testbit_neg_r by lia.
Qed.

Lemma gather_ok other base m o v : mask_ok other ->
  0 <= v < 2 ^ 64 -> (o + m = 8)%nat ->
  exists r, gather other (DiffMask.byte_number other) base (seq o m) v = Ok r /\ 0 <= r < 2 ^ 64 /\
    forall k, 0 <= k < 64 -> Z.testbit r k = Z.testbit v k || ((8 * Z.of_nat o <=? k) && DiffMask.has other (8 * Z.of_nat base + k)).
Proof.
  intros Hok. revert o v. induction m as [|m IH]; intros o v Hv Ho; cbn [seq gather].
  - exists v. split; [reflexivity|]. split; [exact Hv|].
    intros k Hk. rewrite (proj2 (Z.leb_gt _ _)) by lia. now rewrite orb_false_r.
  - assert (DiffMask.byte_number other = Z.of_nat (length other.(mask))) as Hn
      by (unfold DiffMask.byte_number; apply wrap_small; unfold in_u; destruct Hok; lia).
    destruct (Z.leb_spec (DiffMask.byte_number other) (Z.of_nat (base + o))) as [Hge|Hlt].
    + exists v. split; [reflexivity|]. split; [exact Hv|].
      intros k Hk. destruct (Z.leb_spec (8 * Z.of_nat o) k); [|now rewrite orb_false_r].
      rewrite has_beyond by lia. now rewrite orb_false_r.
    + destruct (lookup_lt_is_Some_2 other.(mask) (base + o)) as [b Hb]; [lia|].
      unfold DiffMask.byte. rewrite Hb. cbn [unwrap]. rewrite bind_ok.
      pose proof (cells_ok_lookup 8 _ _ _ (mask_cells _ Hok) Hb) as Hbr.
      assert (0 <= Z.shiftl b (Z.of_nat o * 8) < 2 ^ 64) as Hsr.
      { rewrite Z.shiftl_mul_pow2 by lia. pose proof (Z.pow_pos_nonneg 2 (Z.of_nat o * 8)).
        pose proof (Z.pow_le_mono_r 2 (Z.of_nat o * 8) 56 ltac:(lia) ltac:(lia)) as Hp.
        split; [nia|]. apply (Z.le_lt_trans _ (255 * 2 ^ 56)); [|lia]. apply Z.mul_le_mono_nonneg; lia. }
      set (v' := if negb (b =? 0) then _ else v).
      assert (forall k, 0 <= k -> Z.testbit v' k = Z.testbit v k || ((8 * Z.of_nat o <=? k) && Z.testbit b (k - 8 * Z.of_nat o))) as Hv'.
      { intros k Hk. unfold v'. destruct (Z.eqb_spec b 0) as [->|]; cbn [negb].
        - now rewrite Z.bits_0, andb_false_r, orb_false_r.
        - rewrite Z.lor_spec, shiftl_bits by lia. now rewrite (Z.mul_comm (Z.of_nat o)). }
      apply (in_range_bits 8) in Hbr as [Hb0 Hb8]; [|lia].
      destruct (IH (S o) v') as (r & Hr & Hrange & Hbits); [|lia|].
      * unfold v'. destruct (negb _); [apply lor_range; [lia|exact Hv|exact Hsr]|exact Hv].
      * exists r. split; [exact Hr|]. split; [exact Hrange|]. intros k Hk. rewrite Hbits, Hv' by lia.
        destruct (Z.leb_spec (8 * Z.of_nat o) k), (Z.leb_spec (8 * Z.of_nat (S o)) k); try lia; cbn [andb]; rewrite ?orb_false_r; try reflexivity.
        -- rewrite Hb8 by lia. now rewrite orb_false_r.
        -- f_equal. rewrite has_cell, <- (cell_bit_at 8 ltac:(lia) _ _ _ _ Hb) by lia. f_equal. lia.
Qed.

(** One word of the other mask: its bits, and when it is zero. *)
Lemma gather_word other q : mask_ok other ->
  exists v, gather other (DiffMask.byte_number other) (q * 8) (seq 0 8) 0 = Ok v /\ 0 <= v < 2 ^ 64 /\
    (forall r, 0 <= r < 64 -> Z.testbit v r = DiffMask.has other (64 * Z.of_nat q + r)) /\
    (v = 0 <-> forall i, 64 * Z.of_nat q <= i < 64 * Z.of_nat (S q) -> DiffMask.has other i = false).
Proof.
  intros Hok. destruct (gather_ok other (q * 8) 8 0 0 Hok) as (v & Hv & Hvr & Hvb); [lia|lia|].
  assert (forall r, 0 <= r < 64 -> Z.testbit v r = DiffMask.has other (64 * Z.of_nat q + r)) as Hvb'.
  { intros r Hr. rewrite Hvb, Z.bits_0 by lia. rewrite (proj2 (Z.leb_le _ _)) by lia. cbn [orb andb]. f_equal. lia. }
  exists v. split_and!; try assumption; try lia. split.
  - intros -> i Hi. replace i with (64 * Z.of_nat q + (i - 64 * Z.of_nat q)) by lia. rewrite <- Hvb' by lia. apply Z.bits_0.
  - intros H0. apply Z.bits_inj'. intros r Hr. rewrite Z.bits_0. destruct (Z.lt_ge_cases r 64).
    + rewrite Hvb' by lia. apply H0. lia.
    + apply (in_range_bits 64) in Hvr as [_ Hvr]; [|lia]. now apply Hvr.
Qed.

(** The state of the merge after the words below [q]. *)
Record merged (other : DiffMask) (ws : list Z) (q : nat) (st : list Z * bool) : Prop := {
  mg_length : length st.1 = length ws;
  mg_cells : cells_ok 64 st.1;
  mg_bits : forall i, 0 <= i -> cell_bit 64 st.1 i = cell_bit 64 ws i || ((i <? 64 * Z.of_nat q) && DiffMask.has other i);
  mg_any : st.2 = true <-> exists i, 0 <= i < 64 * Z.of_nat q /\ DiffMask.has other i = true
}.

Lemma or_word_ok other ws q st : mask_ok other -> (q < length ws)%nat -> merged other ws q st ->
  exists st', or_word other (DiffMask.byte_number other) q st = Ok st' /\ merged other ws (S q) st'.
Proof.
  intros Hok Hq [Hl Hc Hb Ha]. destruct st as [ws0 d]. cbn [fst snd] in *. unfold or_word.
  destruct (gather_word other q Hok) as (v & -> & Hvr & Hvb & Hv0). rewrite bind_ok.
  destruct (Z.eqb_spec v 0) as [Hv|Hv]; cbn [negb].
  - eexists; split; [reflexivity|]. pose proof (proj1 Hv0 Hv) as H0. split; cbn [fst snd]; try assumption.
    + intros i Hi. rewrite Hb by lia. f_equal. destruct (Z.ltb_spec i (64 * Z.of_nat q)), (Z.ltb_spec i (64 * Z.of_nat (S q))); try lia; try reflexivity.
      cbn [andb]. symmetry. apply H0. lia.
    + rewrite Ha. split; intros (i & Hi & Hh); exists i; (split; [|exact Hh]); [lia|].
      destruct (Z.lt_ge_cases i (64 * Z.of_nat q)); [lia|]. rewrite H0 in Hh by lia. discriminate.
  - destruct (lookup_lt_is_Some_2 ws0 q) as [w Hw]; [lia|]. rewrite Hw. cbn [unwrap]. rewrite bind_ok.
    eexists; split; [reflexivity|]. split; cbn [fst snd].
    + now rewrite length_insert.
    + apply cells_ok_insert; [exact Hc|]. apply lor_range; [lia|exact (cells_ok_lookup _ _ _ _ Hc Hw)|exact Hvr].
    + intros i Hi. rewrite cell_bit_insert by lia. pose proof (Z.mod_pos_bound i 64 ltac:(lia)).
      pose proof (Z.div_mod i 64 ltac:(lia)). pose proof (Z.div_pos i 64 Hi ltac:(lia)).
      destruct (decide (Z.to_nat (i / 64) = q)) as [Heq|Hne].
      * rewrite Z.lor_spec, Hvb by lia. replace (64 * Z.of_nat q + i mod 64) with i by lia.
        rewrite (proj2 (Z.ltb_lt _ _)) by lia. cbn [andb]. f_equal.
        specialize (Hb i Hi). rewrite (proj2 (Z.ltb_ge _ _)), orb_false_r in Hb by lia. rewrite <- Hb.
        unfold cell_bit. now rewrite Heq, Hw.
      * rewrite Hb by lia. f_equal. f_equal. destruct (Z.ltb_spec i (64 * Z.of_nat q)), (Z.ltb_spec i (64 * Z.of_nat (S q))); try lia; reflexivity.
    + split; [intros _|reflexivity]. pose proof (Z.bit_log2 v ltac:(lia)) as Hlog.
      assert (0 <= Z.log2 v < 64) as Hr by (split; [apply Z.log2_nonneg|apply Z.log2_lt_pow2; lia]).
      rewrite Hvb in Hlog by lia. eexists. split; [|exact Hlog]. lia.
Qed.

(** Merging adds the properties of the other mask, and reports whether the set
    was empty and is not any more. *)
Lemma or_with_ok n self other : set_ok n self -> mask_ok other -> Z.of_nat (length other.(mask)) = n ->
  exists self', BitSet_or_with self other = Ok (self', BitSet_is_clear self && negb (DiffMask.is_clear other)) /\ set_ok n self' /\
    forall i, 0 <= i -> BitSet_has self' i = BitSet_has self i || DiffMask.has other i.
Proof.
  intros [Hn Hcap Hl Hcells Hbey] Hok Hlen. unfold BitSet_or_with.
  assert (DiffMask.byte_number other = n) as Hbn
    by (unfold DiffMask.byte_number; rewrite Hlen; apply wrap_small; unfold in_u; lia).
  assert (forall i, 8 * n <= i -> DiffMask.has other i = false) as Hob by (intros; apply has_beyond; lia).
  pose proof (words_bound n ltac:(lia)) as Hwb.
  destruct (Z.eqb_spec (DiffMask.byte_number other) 0) as [H0|H0].
  - exists self. assert (forall i, 0 <= i -> DiffMask.has other i = false) as Hz by (intros; apply Hob; lia).
    rewrite (proj2 (DiffMask.is_clear_spec other Hok) Hz), andb_false_r. split; [reflexivity|]. split; [now split|].
    intros i Hi. now rewrite Hz, orb_false_r.
  - destruct (foldM_seq (or_word other (DiffMask.byte_number other)) (merged other self.(words)) (length self.(words)) (self.(words), false))
      as (st & -> & [Hsl Hsc Hsb Hsa]).
    + split; cbn [fst snd]; [reflexivity|exact Hcells| |].
      * intros i Hi. rewrite (proj2 (Z.ltb_ge _ _)) by lia. now rewrite orb_false_r.
      * split; [discriminate|]. intros (i & Hi & _). lia.
    + intros q s Hq Hs. now apply or_word_ok.
    + rewrite bind_ok. assert (forall i, 0 <= i -> cell_bit 64 st.1 i = BitSet_has self i || DiffMask.has other i) as Hhas.
      { intros i Hi. rewrite Hsb by lia. unfold BitSet_has. f_equal. destruct (Z.ltb_spec i (64 * Z.of_nat (length self.(words)))); [reflexivity|].
        symmetry. apply Hob. lia. }
      eexists. split; [f_equal; f_equal; f_equal|split; [|exact Hhas]].
      * apply eq_true_iff_eq. rewrite Hsa, negb_true_iff, <- not_true_iff_false, (DiffMask.is_clear_spec other Hok). split.
        -- intros (i & Hi & Hh) Hz. rewrite Hz in Hh by lia. discriminate.
        -- intros Hz. destruct (DiffMask.is_clear other) eqn:Hcl; [destruct Hz; now apply (DiffMask.is_clear_spec other Hok)|].
           apply (is_clear_false _ Hok) in Hcl as (i & Hi & Hh). exists i. split; [lia|exact Hh].
      * split; try assumption; [cbn; now rewrite Hsl|]. intros i Hi. unfold BitSet_has. cbn [words with_words]. rewrite Hhas, Hbey, Hob by lia. reflexivity.
Qed.

(** ** Taking a BitSet_snapshot *)

(** The properties below [k] of the word set are in the BitSet_byte mask, and no other. *)
Record snapped (n : Z) (self : AtomicBitSet) (k : Z) (m : DiffMask) : Prop := {
  sn_length : length m.(mask) = Z.to_nat n;
  sn_ok : mask_ok m;
  sn_has : forall i, 0 <= i -> DiffMask.has m i = (i <? k) && BitSet_has self i
}.

Lemma snapped_skip n self k k' m : snapped n self k m -> k <= k' ->
  (forall i, k <= i < k' -> 0 <= i -> BitSet_has self i = false) -> snapped n self k' m.
Proof.
  intros [Hl Hok Hh] Hk H0. split; try assumption. intros i Hi. rewrite Hh by lia.
  destruct (Z.ltb_spec i k), (Z.ltb_spec i k'); try lia; try reflexivity. cbn [andb]. symmetry. apply H0; lia.
Qed.

Lemma byte_of_word bits o : 0 <= o -> 0 <= Z.land (Z.shiftr bits (o * 8)) 255 < 256 /\
  forall r, 0 <= r < 8 -> Z.testbit (Z.land (Z.shiftr bits (o * 8)) 255) r = Z.testbit bits (o * 8 + r).
Proof.
  intros Ho. change 255 with (Z.ones 8). split.
  - rewrite Z.land_ones by lia. apply Z.mod_pos_bound. lia.
  - intros r Hr. rewrite Z.land_spec, Z.shiftr_spec, Z.ones_spec_low by lia. rewrite andb_true_r. f_equal. lia.
Qed.

Section Snapshot.
Context (n : Z) (self : AtomicBitSet) (Hself : set_ok n self).

(** One BitSet_byte of the set, at position [a]. *)
Lemma snap_byte_ok a bv m : 0 <= a < n -> 0 <= bv < 256 ->
  (forall r, 0 <= r < 8 -> Z.testbit bv r = BitSet_has self (8 * a + r)) ->
  snapped n self (8 * a) m ->
  exists m', foldM (snap_bit bv a) (seq 0 8) m = Ok m' /\ snapped n self (8 * (a + 1)) m'.
Proof using Hself.
  intros Ha Hbv Hbits Hm. destruct Hself as [Hn Hcap Hl Hcells Hbey].
  destruct (foldM_seq (snap_bit bv a) (fun b => snapped n self (8 * a + Z.of_nat b)) 8 m) as (m' & Hm' & Hs).
  - now replace (8 * a + Z.of_nat 0) with (8 * a) by lia.
  - intros b m0 Hb [Hl0 Hok0 Hh0]. unfold snap_bit. rewrite land_pow2_bit, Hbits by lia.
    rewrite (wrap_small 8 a) by (unfold in_u; lia).
    destruct (BitSet_has self (8 * a + Z.of_nat b)) eqn:Hbit.
    + rewrite (proj2 (Z.ltb_lt _ _)), bind_ok, uadd_ok, bind_ok by lia. eexists. split; [reflexivity|]. split.
      * now rewrite set_bit_length.
      * now apply set_bit_mask_ok.
      * intros i Hi. rewrite set_bit_has by (rewrite ?Hl0; lia). rewrite Hh0 by lia.
        destruct (Z.eqb_spec i (a * 8 + Z.of_nat b)) as [->|Hne].
        -- rewrite (proj2 (Z.ltb_lt _ _)) by lia. cbn [andb]. rewrite <- Hbit. f_equal. lia.
        -- destruct (Z.ltb_spec i (8 * a + Z.of_nat b)), (Z.ltb_spec i (8 * a + Z.of_nat (S b))); try lia; reflexivity.
    + eexists. split; [reflexivity|]. apply (snapped_skip n self (8 * a + Z.of_nat b)); [now split|lia|].
      intros i Hi _. now replace i with (8 * a + Z.of_nat b) by lia.
  - exists m'. split; [exact Hm'|]. now replace (8 * (a + 1)) with (8 * a + Z.of_nat 8) by lia.
Qed.

Lemma snap_bytes_ok q bits k o m : self.(words) !! q = Some bits -> (o + k = 8)%nat ->
  snapped n self (64 * Z.of_nat q + 8 * Z.of_nat o) m ->
  exists m', snap_bytes bits q n (seq o k) m = Ok m' /\ snapped n self (64 * Z.of_nat (S q)) m'.
Proof using Hself.
  intros Hq. revert o m. induction k as [|k IH]; intros o m Ho Hm;
    [|change (seq o (S k)) with (o :: seq (S o) k)]; cbn [snap_bytes].
  - exists m. split; [reflexivity|]. replace (64 * Z.of_nat (S q)) with (64 * Z.of_nat q + 8 * Z.of_nat o) by lia. exact Hm.
  - destruct (Z.leb_spec n (Z.of_nat (q * 8 + o))) as [Hge|Hlt].
    + exists m. split; [reflexivity|]. apply (snapped_skip _ _ _ _ _ Hm); [lia|].
      intros i Hi _. apply (so_beyond n self Hself). lia.
    + destruct (byte_of_word bits (Z.of_nat o) ltac:(lia)) as [Hbr Hbb].
      set (bv := Z.land (Z.shiftr bits (Z.of_nat o * 8)) 255) in *.
      assert (forall r, 0 <= r < 8 -> Z.testbit bv r = BitSet_has self (8 * Z.of_nat (q * 8 + o) + r)) as Hbits.
      { intros r Hr. rewrite Hbb by lia. unfold BitSet_has. rewrite <- (cell_bit_at 64 ltac:(lia) _ _ _ _ Hq) by lia. f_equal. lia. }
      destruct (Z.eqb_spec bv 0) as [H0|H0].
      * rewrite bind_ok. apply IH; [lia|]. apply (snapped_skip _ _ _ _ _ Hm); [lia|]. intros i Hi _.
        replace i with (8 * Z.of_nat (q * 8 + o) + (i - 8 * Z.of_nat (q * 8 + o))) by lia.
        rewrite <- Hbits by lia. rewrite H0. apply Z.bits_0.
      * destruct (snap_byte_ok (Z.of_nat (q * 8 + o)) bv m) as (m' & -> & Hm'); [lia|exact Hbr|exact Hbits| |].
        -- replace (8 * Z.of_nat (q * 8 + o)) with (64 * Z.of_nat q + 8 * Z.of_nat o) by lia. exact Hm.
        -- rewrite bind_ok. apply IH; [lia|].
           replace (64 * Z.of_nat q + 8 * Z.of_nat (S o)) with (8 * (Z.of_nat (q * 8 + o) + 1)) by lia. exact Hm'.
Qed.

Lemma snap_words_ok l q m : (forall j w, l !! j = Some w -> self.(words) !! (q + j)%nat = Some w) ->
  (q + length l = length self.(words))%nat -> snapped n self (64 * Z.of_nat q) m ->
  exists m', foldM (snap_word n) (imap (fun j w => ((q + j)%nat, w)) l) m = Ok m' /\
    snapped n self (64 * Z.of_nat (length self.(words))) m'.
Proof using Hself.
  revert q m. induction l as [|w l IH]; intros q m Hl Hlen Hm; cbn [imap foldM].
  - exists m. split; [reflexivity|]. replace (length self.(words)) with q by (simpl in Hlen; lia). exact Hm.
  - assert (exists m1, snap_word n ((q + 0)%nat, w) m = Ok m1 /\ snapped n self (64 * Z.of_nat (S q)) m1) as (m1 & Hm1 & Hs1).
    { specialize (Hl O w eq_refl). rewrite Nat.add_0_r in *. unfold snap_word. destruct (Z.eqb_spec w 0) as [->|Hw].
      - exists m. split; [reflexivity|]. apply (snapped_skip _ _ _ _ _ Hm); [lia|]. intros i Hi _.
        unfold BitSet_has. replace i with (Z.of_nat q * 64 + (i - 64 * Z.of_nat q)) by lia.
        rewrite (cell_bit_at 64 ltac:(lia) _ _ _ _ Hl) by lia. apply Z.bits_0.
      - apply (snap_bytes_ok q w 8 0 m Hl); [lia|]. now replace (64 * Z.of_nat q + 8 * Z.of_nat 0) with (64 * Z.of_nat q) by lia. }
    rewrite Hm1, bind_ok. destruct (IH (S q) m1) as (m' & Hm' & Hs'); [|simpl in Hlen; lia|exact Hs1|].
    + intros j w' Hj. replace (S q + j)%nat with (q + S j)%nat by lia. apply Hl. exact Hj.
    + exists m'. split; [|exact Hs']. rewrite <- Hm'. f_equal. apply imap_ext. intros j x _. cbn. f_equal. lia.
Qed.

Lemma snapshot_ok : exists m, BitSet_snapshot self = Ok m /\ mask_ok m /\ Z.of_nat (length m.(mask)) = n /\
  forall i, 0 <= i -> DiffMask.has m i = BitSet_has self i.
Proof using Hself.
  pose proof Hself as [Hn Hcap Hl Hcells Hbey]. pose proof (words_bound n ltac:(lia)).
  unfold BitSet_snapshot. rewrite (byte_number_ok n self Hself), (wrap_small 8 n) by (unfold in_u; lia).
  destruct (snap_words_ok self.(words) 0 (DiffMask.new n)) as (m & Hm & [Hml Hmok Hmh]); [auto|reflexivity| |].
  - split; [apply length_replicate|apply new_mask_ok; lia|]. intros i Hi. rewrite new_has, (proj2 (Z.ltb_ge _ _)) by lia. reflexivity.
  - exists m. split; [exact Hm|]. split; [exact Hmok|]. split; [lia|]. intros i Hi. rewrite Hmh by lia.
    destruct (Z.ltb_spec i (64 * Z.of_nat (length self.(words)))); [reflexivity|]. symmetry. apply Hbey. lia.
Qed.

Lemma byte_ok a : (a < Z.to_nat n)%nat -> 0 <= BitSet_byte self a < 256 /\
  forall r, 0 <= r < 8 -> Z.testbit (BitSet_byte self a) r = BitSet_has self (8 * Z.of_nat a + r).
Proof using Hself.
  intros Ha. unfold BitSet_byte. pose proof (Nat.mod_upper_bound a 8 ltac:(lia)). pose proof (Nat.div_mod_eq a 8).
  destruct (self.(words) !! (a / 8)%nat) as [c|] eqn:Hc.
  - destruct (byte_of_word c (Z.of_nat (a mod 8)) ltac:(lia)) as [H1 H2]. split; [exact H1|]. intros r Hr.
    rewrite H2 by lia. unfold BitSet_has. rewrite <- (cell_bit_at 64 ltac:(lia) _ _ _ _ Hc) by lia. f_equal. lia.
  - apply lookup_ge_None_1 in Hc. destruct Hself as [Hn _ Hl _ _]. pose proof (words_bound n ltac:(lia)). lia.
Qed.
End Snapshot.
End AtomicBitSet.

(** * The mask of a receiver *)
Module AtomicDiffMask.
Import DiffMask.

Record AtomicDiffMask := { bits : AtomicBitSet.AtomicBitSet }.

Definition AtomicMask_new (byte_len : Z) : AtomicDiffMask := {| bits := AtomicBitSet.BitSet_new (byte_len * 8) |}.

Definition AtomicMask_set_bit (self : AtomicDiffMask) (index : Z) : AtomicDiffMask * bool :=
  let '(b, was_clear) := AtomicBitSet.BitSet_set_bit self.(bits) index in ({| bits := b |}, was_clear).

Definition AtomicMask_clear (self : AtomicDiffMask) : AtomicDiffMask * bool :=
  let '(b, was_dirty) := AtomicBitSet.BitSet_clear self.(bits) in ({| bits := b |}, was_dirty).

Definition AtomicMask_or_with (self : AtomicDiffMask) (other : DiffMask) : res (AtomicDiffMask * bool) :=
  r ← AtomicBitSet.BitSet_or_with self.(bits) other; Ok ({| bits := r.1 |}, r.2).

Definition AtomicMask_snapshot (self : AtomicDiffMask) : res DiffMask := AtomicBitSet.BitSet_snapshot self.(bits).
Definition AtomicMask_is_clear (self : AtomicDiffMask) : bool := AtomicBitSet.BitSet_is_clear self.(bits).
Definition AtomicMask_byte (self : AtomicDiffMask) (index : nat) : Z := AtomicBitSet.BitSet_byte self.(bits) index.

(** [rep n a m]: the word mask [a] and the AtomicMask_byte mask [m] of [n] bytes hold the
    same properties. *)
Record rep (n : Z) (a : AtomicDiffMask) (m : DiffMask) : Prop := {
  rep_words : AtomicBitSet.set_ok n a.(bits);
  rep_mask : mask_ok m;
  rep_length : Z.of_nat (length m.(mask)) = n;
  rep_has : forall i, 0 <= i -> AtomicBitSet.BitSet_has a.(bits) i = has m i
}.

Lemma rep_new n : 0 <= n <= 32 -> rep n (AtomicMask_new n) (DiffMask.new n).
Proof.
  intros Hn. unfold AtomicMask_new. rewrite Z.mul_comm. split.
  - now apply AtomicBitSet.BitSet_new_ok.
  - apply new_mask_ok; lia.
  - unfold DiffMask.new. cbn [mask]. rewrite length_replicate. lia.
  - intros i _. rewrite new_has. apply cell_bit_replicate.
Qed.

Lemma rep_is_clear n a m : rep n a m -> AtomicMask_is_clear a = DiffMask.is_clear m.
Proof.
  intros [Hw Hm Hl Hh]. apply eq_true_iff_eq. unfold AtomicMask_is_clear.
  rewrite (AtomicBitSet.BitSet_is_clear_spec _ (AtomicBitSet.so_cells n _ Hw)), (DiffMask.is_clear_spec _ Hm).
  split; intros H i Hi; specialize (H i Hi); specialize (Hh i Hi); congruence.
Qed.

Lemma rep_snapshot n a m : rep n a m -> AtomicMask_snapshot a = Ok m.
Proof.
  intros [Hw Hm Hl Hh]. destruct (AtomicBitSet.snapshot_ok n _ Hw) as (m' & Hs & Hok & Hl' & Hh').
  unfold AtomicMask_snapshot. rewrite Hs. f_equal. apply mask_ext; try assumption; [lia|].
  intros i Hi. rewrite Hh', Hh by lia. reflexivity.
Qed.

Lemma rep_byte n a m k : rep n a m -> (k < Z.to_nat n)%nat -> DiffMask.byte m k = Ok (AtomicMask_byte a k).
Proof.
  intros [Hw Hm Hl Hh] Hk. destruct (AtomicBitSet.byte_ok n _ Hw k Hk) as [Hr Hb].
  destruct (lookup_lt_is_Some_2 m.(mask) k) as [c Hc]; [lia|]. unfold DiffMask.byte. rewrite Hc. cbn [unwrap]. f_equal.
  pose proof (cells_ok_lookup 8 _ _ _ (mask_cells _ Hm) Hc) as Hcr.
  change 256 with (2 ^ 8) in Hr. apply (in_range_bits 8) in Hcr as [_ Hcr], Hr as [_ Hr]; try lia.
  apply Z.bits_inj'. intros r Hr0. destruct (Z.lt_ge_cases r 8).
  - unfold AtomicMask_byte. rewrite Hb, Hh, has_cell by lia.
    rewrite <- (cell_bit_at 8 ltac:(lia) _ _ _ _ Hc) by lia. f_equal. lia.
  - rewrite Hcr by lia. symmetry. apply Hr. lia.
Qed.

Lemma rep_set_bit n a m j : rep n a m -> 0 <= j < 8 * n ->
  exists a', AtomicMask_set_bit a j = (a', DiffMask.is_clear m) /\ rep n a' (DiffMask.set_bit m j true).
Proof.
  intros Hr Hj. pose proof (rep_is_clear _ _ _ Hr) as Hc. destruct Hr as [Hw Hm Hl Hh].
  destruct (AtomicBitSet.set_bit_ok n _ j Hw Hj) as (b & Hb & Hok & Hbh). unfold AtomicMask_set_bit. rewrite Hb.
  eexists. split; [f_equal; exact Hc|]. split; cbn [bits].
  - exact Hok.
  - now apply set_bit_mask_ok.
  - now rewrite set_bit_length.
  - intros i Hi. rewrite Hbh, Hh, set_bit_has by lia. destruct (i =? j); reflexivity.
Qed.

Lemma rep_clear n a m : rep n a m ->
  exists a', AtomicMask_clear a = (a', negb (DiffMask.is_clear m)) /\ rep n a' (DiffMask.clear m).
Proof.
  intros Hr. pose proof (rep_is_clear _ _ _ Hr) as Hc. destruct Hr as [Hw Hm Hl Hh].
  destruct (AtomicBitSet.clear_ok n _ Hw) as (b & Hb & Hok & Hbh). unfold AtomicMask_clear. rewrite Hb.
  eexists. split; [f_equal; now rewrite <- Hc|]. split; cbn [bits].
  - exact Hok.
  - now apply clear_mask_ok.
  - unfold DiffMask.clear. cbn [mask]. now rewrite length_replicate.
  - intros i Hi. now rewrite Hbh, clear_has.
Qed.

Lemma rep_or n a m o : rep n a m -> mask_ok o -> Z.of_nat (length o.(mask)) = n ->
  exists a' m', AtomicMask_or_with a o = Ok (a', DiffMask.is_clear m && negb (DiffMask.is_clear o)) /\
    DiffMask.or m o = Ok m' /\ rep n a' m'.
Proof.
  intros Hr Ho Hlo. pose proof (rep_is_clear _ _ _ Hr) as Hc. destruct Hr as [Hw Hm Hl Hh].
  destruct (AtomicBitSet.or_with_ok n _ o Hw Ho Hlo) as (b & Hb & Hok & Hbh).
  destruct (or_ok m o Hm Ho) as (m' & Hm' & Hok' & Hl' & Hh'); [lia|].
  unfold AtomicMask_or_with. rewrite Hb. cbn. do 2 eexists. split; [f_equal; f_equal; f_equal; exact Hc|].
  split; [exact Hm'|]. split; cbn [bits]; [exact Hok|exact Hok'|lia|].
  intros i Hi. now rewrite Hbh, Hh', Hh.
Qed.

(** ** Sequences of operations *)
Inductive mask_op := OpSet (index : Z) | OpClear | OpOr (other : DiffMask).

Definition run_words (op : mask_op) (st : AtomicDiffMask * list bool) : res (AtomicDiffMask * list bool) :=
  match op with
  | OpSet i => let '(a, r) := AtomicMask_set_bit st.1 i in Ok (a, st.2 ++ [r])
  | OpClear => let '(a, r) := AtomicMask_clear st.1 in Ok (a, st.2 ++ [r])
  | OpOr o => r ← AtomicMask_or_with st.1 o; Ok (r.1, st.2 ++ [r.2])
  end.

(** The same on the AtomicMask_byte mask, where the reports are read off [AtomicMask_is_clear]. *)
Definition run_bytes (op : mask_op) (st : DiffMask * list bool) : res (DiffMask * list bool) :=
  let '(m, out) := st in
  match op with
  | OpSet i => Ok (DiffMask.set_bit m i true, out ++ [DiffMask.is_clear m])
  | OpClear => Ok (DiffMask.clear m, out ++ [negb (DiffMask.is_clear m)])
  | OpOr o => m' ← DiffMask.or m o; Ok (m', out ++ [DiffMask.is_clear m && negb (DiffMask.is_clear o)])
  end.

Definition op_ok (n : Z) (op : mask_op) : Prop :=
  match op with
  | OpSet i => 0 <= i < 8 * n
  | OpClear => True
  | OpOr o => mask_ok o /\ Z.of_nat (length o.(mask)) = n
  end.

Lemma run_step n op a m out : rep n a m -> op_ok n op ->
  exists a' m' out', run_words op (a, out) = Ok (a', out') /\ run_bytes op (m, out) = Ok (m', out') /\ rep n a' m'.
Proof.
  intros Hr Hop. destruct op as [i| |o]; cbn [run_words run_bytes op_ok fst snd] in *.
  - destruct (rep_set_bit n a m i Hr Hop) as (a' & -> & H). eauto 10.
  - destruct (rep_clear n a m Hr) as (a' & -> & H). eauto 10.
  - destruct (rep_or n a m o Hr (proj1 Hop) (proj2 Hop)) as (a' & m' & -> & -> & H). cbn. eauto 10.
Qed.

(** On any sequence of property changes, clears and merges of masks of
    its own width, the word mask ([AtomicDiffMask]) of up to 32 bytes does not
    panic, reports the same clean/dirty transitions as the AtomicMask_byte mask
    ([DiffMask]), and its AtomicMask_snapshot is the AtomicMask_byte mask, AtomicMask_byte for AtomicMask_byte. *)
Theorem word_mask_is_byte_mask n ops : 0 <= n <= 32 -> Forall (op_ok n) ops ->
  exists a m out, foldM run_words ops (AtomicMask_new n, []) = Ok (a, out) /\
    foldM run_bytes ops (DiffMask.new n, []) = Ok (m, out) /\
    AtomicMask_snapshot a = Ok m /\ AtomicMask_is_clear a = DiffMask.is_clear m /\
    forall k, (k < Z.to_nat n)%nat -> DiffMask.byte m k = Ok (AtomicMask_byte a k).
Proof.
  intros Hn Hops. cut (forall a m out, rep n a m -> exists a' m' out',
    foldM run_words ops (a, out) = Ok (a', out') /\ foldM run_bytes ops (m, out) = Ok (m', out') /\ rep n a' m').
  - intros H. destruct (H _ _ [] (rep_new n Hn)) as (a & m & out & H1 & H2 & Hr). exists a, m, out.
    split_and!; eauto using rep_snapshot, rep_is_clear, rep_byte.
  - induction Hops as [|op ops Hop _ IH]; intros a m out Hr; [now exists a, m, out|].
    destruct (run_step n op a m out Hr Hop) as (a1 & m1 & out1 & H1 & H2 & Hr1).
    cbn [foldM]. rewrite H1, H2, !bind_ok. now apply IH.
Qed.

Lemma word_mask_is_byte_mask_witness : exists a m out,
  foldM run_words [OpSet 3; OpSet 65; OpClear; OpOr {| mask := replicate 9 7 |}] (AtomicMask_new 9, []) = Ok (a, out) /\
  out = [true; false; true; true] /\ AtomicMask_snapshot a = Ok m /\ has m 65 = true.
Proof.
  destruct (word_mask_is_byte_mask 9 [OpSet 3; OpSet 65; OpClear; OpOr {| mask := replicate 9 7 |}]) as (a & m & out & H1 & H2 & H3 & _).
  - lia.
  - repeat constructor; cbn; lia.
  - exists a, m, out. split; [exact H1|]. vm_compute in H2. injection H2 as <- <-. split; [reflexivity|]. split; [exact H3|reflexivity].
Defined.
End AtomicDiffMask.
