(* ===== verification/DirtyQueue.v ===== *)
(** The dirty queue of a user ([world/update/mut_channel.rs], [DirtyQueue]) and
    the key generator for its entity indices ([world/entity_index.rs]).  The
    queue keeps [stride] words of kind bits per entity in one flat vector and a
    list of the entities to visit; the theorems show that it behaves as a set of
    (entity, kind) pairs as long as every kind bit fits in the stride, and what
    happens when one does not. *)

From Stdlib Require Import ZArith Lia.
From stdpp Require Import base numbers option list gmap sorting.
From S2P Require Import Prelude DiffMask.

(** * Entity indices *)
Module KeyGenerator32.

(** [Instant]s are milliseconds; [now] is the clock reading of the call. *)
Record KeyGenerator32 := {
  recycling_keys : list (Z * Z);
  recycled_keys : list Z;
  recycle_timeout : Z;
  next_new_key : Z
}.

Definition KeyGen_new (recycle_timeout : Z) : KeyGenerator32 :=
  {| recycling_keys := []; recycled_keys := []; recycle_timeout := recycle_timeout; next_new_key := 0 |}.

(** The loop that moves keys out of quarantine, in the order of the queue. *)
Fixpoint release (now timeout : Z) (recycling : list (Z * Z)) (recycled : list Z) : list (Z * Z) * list Z :=
  match recycling with
  | [] => ([], recycled)
  | (key, instant) :: rest =>
      if now - instant <? timeout then (recycling, recycled)
      else release now timeout rest (recycled ++ [key])
  end.

Definition generate (now : Z) (self : KeyGenerator32) : Z * KeyGenerator32 :=
  let '(recycling, recycled) := release now self.(recycle_timeout) self.(recycling_keys) self.(recycled_keys) in
  match recycled with
  | key :: rest =>
      (key, {| recycling_keys := recycling; recycled_keys := rest;
               recycle_timeout := self.(recycle_timeout); next_new_key := self.(next_new_key) |})
  | [] =>
      (self.(next_new_key),
       {| recycling_keys := recycling; recycled_keys := [];
          recycle_timeout := self.(recycle_timeout); next_new_key := wrap 32 (self.(next_new_key) + 1) |})
  end.

Definition recycle_key (now : Z) (key : Z) (self : KeyGenerator32) : KeyGenerator32 :=
  {| recycling_keys := self.(recycling_keys) ++ [(key, now)]; recycled_keys := self.(recycled_keys);
     recycle_timeout := self.(recycle_timeout); next_new_key := self.(next_new_key) |}.

Definition capacity_hint (self : KeyGenerator32) : Z := self.(next_new_key).

(** The keys in hand together with the ones keys_waiting are the keys issued so far. *)
Definition keys_waiting (self : KeyGenerator32) : list Z := (map fst self.(recycling_keys)) ++ self.(recycled_keys).

Definition gen_ok (used : list Z) (self : KeyGenerator32) : Prop :=
  0 <= self.(next_new_key) /\ NoDup (used ++ keys_waiting self) /\
  Forall (fun k => 0 <= k < self.(next_new_key)) (used ++ keys_waiting self).

Lemma release_perm now t rg rd rg' rd' : release now t rg rd = (rg', rd') ->
  (map fst rg ++ rd) ≡ₚ (map fst rg' ++ rd').
Proof.
  revert rd. induction rg as [|[k i] rg IH]; intros rd; cbn [release].
  - intros H. injection H as <- <-. reflexivity.
  - destruct (now - i <? t).
    + intros H. injection H as <- <-. reflexivity.
    + intros H. apply IH in H. rewrite <- H. cbn [map fst]. rewrite app_assoc, <- Permutation_cons_append.
      now rewrite app_comm_cons.
Qed.

(** A generated key is not in use, and stays apart from the keys in use. *)
Lemma generate_ok now used self key self' : gen_ok used self -> self.(next_new_key) + 1 < 2 ^ 32 ->
  generate now self = (key, self') -> (key ∉ used) /\ gen_ok (key :: used) self' /\
    self.(next_new_key) <= self'.(next_new_key) <= self.(next_new_key) + 1.
Proof.
  intros (Hp & Hnd & Hf) Hb. unfold generate.
  destruct (release _ _ _ _) as [rg rd] eqn:Hrel. apply release_perm in Hrel.
  assert ((used ++ keys_waiting self) ≡ₚ (used ++ map fst rg ++ rd)) as Hperm by (unfold keys_waiting; now rewrite Hrel).
  rewrite Hperm in Hnd, Hf. destruct rd as [|k rd]; intros H; injection H as <- <-; cbn [next_new_key].
  - rewrite app_nil_r in *. assert (self.(next_new_key) ∉ used ++ map fst rg) as Hni.
    { intros Hin. rewrite Forall_forall in Hf. specialize (Hf _ Hin). lia. }
    unfold gen_ok, keys_waiting. cbn [next_new_key recycling_keys recycled_keys]. rewrite wrap_small by (unfold in_u; lia).
    rewrite app_nil_r. split; [intros Hin; apply Hni, elem_of_app; now left|]. split; [|lia]. split; [lia|]. split.
    + cbn [app]. now constructor.
    + cbn [app]. constructor; [lia|]. apply (Forall_impl _ _ _ Hf). intros k; cbn; lia.
  - assert ((used ++ map fst rg ++ k :: rd) ≡ₚ ((k :: used) ++ map fst rg ++ rd)) as Hp2
      by (rewrite (app_assoc used), <- Permutation_middle, <- app_assoc; reflexivity).
    rewrite Hp2 in Hnd, Hf. split.
    + cbn [app] in Hnd. apply NoDup_cons in Hnd as [Hk _]. intros Hin. apply Hk, elem_of_app. now left.
    + split; [|lia]. split; [exact Hp|]. now split.
Qed.

Lemma recycle_key_ok now used key self : gen_ok (key :: used) self -> gen_ok used (recycle_key now key self).
Proof.
  intros (Hp & Hnd & Hf). unfold gen_ok, keys_waiting, recycle_key in *. cbn [next_new_key recycling_keys recycled_keys] in *.
  assert (((key :: used) ++ map fst self.(recycling_keys) ++ self.(recycled_keys)) ≡ₚ
          (used ++ map fst (self.(recycling_keys) ++ [(key, now)]) ++ self.(recycled_keys))) as Heq.
  { rewrite map_app. cbn [map fst]. rewrite <- (app_assoc (map fst _)). cbn [app].
    rewrite <- Permutation_middle. rewrite <- Permutation_middle. reflexivity. }
  rewrite Heq in Hnd, Hf. now split_and!.
Qed.
End KeyGenerator32.

(** * The queue *)
Module DirtyQueue.

Record DirtyQueue := { bits : list Z; stride : Z; indices : list Z }.

Definition Queue_new (kind_count : Z) : DirtyQueue :=
  {| bits := []; stride := Z.max (AtomicBitSet.div_ceil kind_count 64) 1; indices := [] |}.

Definition with_bits (self : DirtyQueue) (b : list Z) : DirtyQueue :=
  {| bits := b; stride := self.(stride); indices := self.(indices) |}.

Definition ensure_capacity (self : DirtyQueue) (slot : Z) : DirtyQueue :=
  let needed := (slot + 1) * self.(stride) in
  if needed <=? Z.of_nat (length self.(bits)) then self
  else with_bits self (self.(bits) ++ replicate (Z.to_nat needed - length self.(bits)) 0).

(** [all] over the words of the entity other than the one just written. *)
Definition other_words_zero (self : DirtyQueue) (entity_base word_idx : Z) : bool :=
  forallb (fun w =>
    if Z.of_nat w =? word_idx then true
    else match self.(bits) !! Z.to_nat (entity_base + Z.of_nat w) with
         | Some word => word =? 0
         | None => true
         end) (seq 0 (Z.to_nat self.(stride))).

(** The [fetch_or], with the growth and the retry of the defensive branch. *)
Definition mark (self : DirtyQueue) (entity_idx : Z) (slot_idx : nat) (kind_mask : Z) : res (Z * DirtyQueue) :=
  match self.(bits) !! slot_idx with
  | Some prev => Ok (prev, with_bits self (<[slot_idx := Z.lor prev kind_mask]> self.(bits)))
  | None =>
      let self' := ensure_capacity self entity_idx in
      prev ← unwrap (self'.(bits) !! slot_idx);
      Ok (prev, with_bits self' (<[slot_idx := Z.lor prev kind_mask]> self'.(bits)))
  end.

Definition push (self : DirtyQueue) (entity_idx kind_bit : Z) : res DirtyQueue :=
  let word_idx := kind_bit / 64 in
  let bit_in_word := kind_bit mod 64 in
  let kind_mask := Z.shiftl 1 bit_in_word in
  let entity_base := entity_idx * self.(stride) in
  let slot_idx := Z.to_nat (entity_base + word_idx) in
  r ← mark self entity_idx slot_idx kind_mask;
  let '(prev, self') := r in
  if negb (prev =? 0) then Ok self'
  else
    let was_clear := if self'.(stride) =? 1 then true else other_words_zero self' entity_base word_idx in
    if was_clear then Ok {| bits := self'.(bits); stride := self'.(stride); indices := self'.(indices) ++ [entity_idx] |}
    else Ok self'.

(** [!m] of a [u64]. *)
Definition not64 (m : Z) : Z := Z.lxor (Z.ones 64) m.

Definition cancel (self : DirtyQueue) (entity_idx kind_bit : Z) : DirtyQueue :=
  let word_idx := kind_bit / 64 in
  let bit_in_word := kind_bit mod 64 in
  let kind_mask := Z.shiftl 1 bit_in_word in
  let slot_idx := Z.to_nat (entity_idx * self.(stride) + word_idx) in
  match self.(bits) !! slot_idx with
  | Some slot => with_bits self (<[slot_idx := Z.land slot (not64 kind_mask)]> self.(bits))
  | None => self
  end.

(** The words of one entity, swapped with zero. *)
Fixpoint swap_out (b : list Z) (base : nat) (n : nat) : list Z * list Z :=
  match n with
  | O => (b, [])
  | S n' =>
      let '(v, b') := match b !! base with Some v => (v, <[base := 0]> b) | None => (0, b) end in
      let '(b'', rest) := swap_out b' (S base) n' in
      (b'', v :: rest)
  end.

Fixpoint drain_loop (stride : Z) (idxs : list Z) (b : list Z) : list Z * list (Z * list Z) :=
  match idxs with
  | [] => (b, [])
  | idx :: idxs' =>
      let '(b', ws) := swap_out b (Z.to_nat (idx * stride)) (Z.to_nat stride) in
      let '(b'', rest) := drain_loop stride idxs' b' in
      (b'', if existsb (fun v => negb (v =? 0)) ws then (idx, ws) :: rest else rest)
  end.

Definition drain (self : DirtyQueue) : DirtyQueue * list (Z * list Z) :=
  let '(b, out) := drain_loop self.(stride) self.(indices) self.(bits) in
  ({| bits := b; stride := self.(stride); indices := [] |}, out).

Definition is_empty (self : DirtyQueue) : bool := match self.(indices) with [] => true | _ => false end.

(** ** The set of pairs *)
Definition bit_of (stride e k : Z) (b : list Z) : bool := cell_bit 64 b (64 * (e * stride) + k).
Definition dirty (self : DirtyQueue) (e k : Z) : bool := bit_of self.(stride) e k self.(bits).

(** A kind bit has a place of its own in the words of its entity. *)
Definition kind_fits (self : DirtyQueue) (k : Z) : Prop := 0 <= k < 64 * self.(stride).

Record queue_ok (self : DirtyQueue) : Prop := {
  qo_stride : 1 <= self.(stride);
  qo_cells : cells_ok 64 self.(bits);
  qo_rows : exists rows, Z.of_nat (length self.(bits)) = rows * self.(stride);
  qo_indices : forall e, e ∈ self.(indices) -> 0 <= e;
  qo_listed : forall e k, 0 <= e -> kind_fits self k -> dirty self e k = true -> e ∈ self.(indices)
}.

Lemma slot_of s e k : 1 <= s -> 0 <= e -> 0 <= k < 64 * s ->
  let i := 64 * (e * s) + k in 0 <= i /\ i / 64 = e * s + k / 64 /\ i mod 64 = k mod 64.
Proof.
  intros Hs He Hk i. assert (0 <= e * s) by nia. split; [unfold i; lia|]. unfold i.
  rewrite (Z.mul_comm 64 (e * s)). split; [now rewrite Z.div_add_l by lia|].
  rewrite Z.add_comm. apply Z.mod_add. lia.
Qed.

Lemma pair_inj s e k e' k' : 1 <= s -> 0 <= k < 64 * s -> 0 <= k' < 64 * s ->
  64 * (e * s) + k = 64 * (e' * s) + k' <-> e = e' /\ k = k'.
Proof. intros Hs Hk Hk'. split; [intros H; assert (e = e') by nia; subst; lia|intros [-> ->]; reflexivity]. Qed.

Lemma pair_eqb s e k e' k' : 1 <= s -> 0 <= k < 64 * s -> 0 <= k' < 64 * s ->
  (64 * (e' * s) + k' =? 64 * (e * s) + k) = (e' =? e) && (k' =? k).
Proof.
  intros Hs Hk Hk'. apply eq_true_iff_eq. rewrite andb_true_iff, !Z.eqb_eq. now apply pair_inj.
Qed.

Lemma Queue_new_ok n : 0 <= n -> queue_ok (Queue_new n) /\ forall e k, dirty (Queue_new n) e k = false.
Proof.
  intros Hn. assert (forall e k, dirty (Queue_new n) e k = false) as Hd
    by (intros; unfold dirty, bit_of, cell_bit; cbn [bits Queue_new]; now rewrite lookup_nil).
  split; [|exact Hd]. split; cbn [stride bits indices Queue_new].
  - lia.
  - apply Forall_nil. constructor.
  - exists 0. reflexivity.
  - intros e He. now apply elem_of_nil in He.
  - intros e k _ _. now rewrite Hd.
Qed.

(** Growing keeps the set, and gives the entity its words. *)
Lemma ensure_capacity_ok self slot : queue_ok self -> 0 <= slot ->
  let self' := ensure_capacity self slot in
  queue_ok self' /\ self'.(stride) = self.(stride) /\ self'.(indices) = self.(indices) /\
  (slot + 1) * self.(stride) <= Z.of_nat (length self'.(bits)) /\
  forall i, 0 <= i -> cell_bit 64 self'.(bits) i = cell_bit 64 self.(bits) i.
Proof.
  intros [Hs Hc [rows Hr] Hi Hl] Hslot. unfold ensure_capacity.
  destruct (Z.leb_spec ((slot + 1) * self.(stride)) (Z.of_nat (length self.(bits)))) as [Hle|Hgt]; cbn zeta.
  - split_and!; try reflexivity; try lia. split; eauto.
  - assert (forall i, 0 <= i -> cell_bit 64 (self.(bits) ++ replicate (Z.to_nat ((slot + 1) * self.(stride)) - length self.(bits)) 0) i = cell_bit 64 self.(bits) i) as Hb.
    { intros i H0. unfold cell_bit. destruct (decide (Z.to_nat (i / 64) < length self.(bits))%nat).
      - now rewrite lookup_app_l.
      - rewrite lookup_app_r, (lookup_ge_None_2 self.(bits)) by lia. destruct (replicate _ _ !! _) eqn:E; [|reflexivity].
        apply lookup_replicate in E as [-> _]. apply Z.bits_0. }
    cbn [bits stride indices with_bits]. split_and!; try reflexivity; try exact Hb.
    + split; cbn [bits stride indices with_bits]; try assumption.
      * apply Forall_app. split; [exact Hc|]. apply cells_ok_replicate; lia.
      * exists (slot + 1). rewrite length_app, length_replicate. lia.
      * intros e k He Hk. unfold dirty, bit_of. cbn [stride bits with_bits].
        destruct (slot_of self.(stride) e k) as [H0 _]; [exact Hs|exact He|exact Hk|].
        rewrite Hb by exact H0. now apply Hl.
    + rewrite length_app, length_replicate. lia.
Qed.

Lemma nonzero_dirty self e w c : queue_ok self -> 0 <= e -> 0 <= w < self.(stride) ->
  self.(bits) !! Z.to_nat (e * self.(stride) + w) = Some c -> c <> 0 ->
  exists k, kind_fits self k /\ k / 64 = w /\ dirty self e k = true.
Proof.
  intros [Hs Hc _ _ _] He Hw Hl Hne. pose proof (cells_ok_lookup 64 _ _ _ Hc Hl) as Hr.
  assert (0 <= Z.log2 c < 64) as Hlog by (split; [apply Z.log2_nonneg|apply Z.log2_lt_pow2; lia]).
  destruct (index_join 64 ltac:(lia) w (Z.log2 c) Hlog) as [Hd Hm].
  exists (w * 64 + Z.log2 c). split_and!; [unfold kind_fits; lia|exact Hd|].
  unfold dirty, bit_of, cell_bit.
  destruct (slot_of self.(stride) e (w * 64 + Z.log2 c)) as (_ & -> & ->); [lia..|].
  rewrite Hd, Hm, Hl. apply Z.bit_log2. lia.
Qed.

Lemma word_exists self e k : queue_ok self -> 0 <= e -> kind_fits self k ->
  (e + 1) * self.(stride) <= Z.of_nat (length self.(bits)) ->
  exists c, self.(bits) !! Z.to_nat (e * self.(stride) + k / 64) = Some c.
Proof.
  intros [Hs _ _ _ _] He Hk Hle. unfold kind_fits in Hk. apply lookup_lt_is_Some_2.
  assert (0 <= k / 64 < self.(stride)) by (split; [apply Z.div_pos; lia|apply Z.div_lt_upper_bound; lia]).
  assert (0 <= e * self.(stride)) by nia. nia.
Qed.

(** A slot that exists in a row means that the whole row exists. *)
Lemma mark_ok self e k : queue_ok self -> 0 <= e -> kind_fits self k ->
  exists self1 prev, queue_ok self1 /\ self1.(stride) = self.(stride) /\ self1.(indices) = self.(indices) /\
    (forall i, 0 <= i -> cell_bit 64 self1.(bits) i = cell_bit 64 self.(bits) i) /\
    let slot := Z.to_nat (e * self.(stride) + k / 64) in
    self1.(bits) !! slot = Some prev /\
    mark self e slot (Z.shiftl 1 (k mod 64)) = Ok (prev, with_bits self1 (<[slot := Z.lor prev (Z.shiftl 1 (k mod 64))]> self1.(bits))).
Proof.
  intros Hok He Hk. unfold mark. destruct (self.(bits) !! _) as [prev|] eqn:Hl.
  - exists self, prev. split_and!; auto.
  - destruct (ensure_capacity_ok self e Hok He) as (Hok' & Hst & Hidx & Hlen & Hbits).
    destruct (word_exists (ensure_capacity self e) e k Hok' He) as [c Hc]; [unfold kind_fits; rewrite Hst; exact Hk|now rewrite Hst|].
    rewrite Hst in Hc. exists (ensure_capacity self e), c. split_and!; try assumption. now rewrite Hc.
Qed.

(** [push] adds the pair and changes no other. *)
Lemma push_ok self e k : queue_ok self -> 0 <= e -> kind_fits self k ->
  exists self', push self e k = Ok self' /\ queue_ok self' /\ self'.(stride) = self.(stride) /\
    forall e' k', 0 <= e' -> kind_fits self k' -> dirty self' e' k' = (e' =? e) && (k' =? k) || dirty self e' k'.
Proof.
  intros Hok He Hk. destruct (mark_ok self e k Hok He Hk) as (self1 & prev & Hok1 & Hst & Hidx & Hbits & Hprev & Hmark).
  unfold push. rewrite Hmark, bind_ok. set (slot := Z.to_nat (e * self.(stride) + k / 64)) in *.
  set (self2 := with_bits self1 _). destruct Hok1 as [Hs Hc Hrows Hpos Hlisted].
  pose proof (Z.mod_pos_bound k 64 ltac:(lia)) as Hkm. destruct (slot_of self.(stride) e k) as (Hi0 & Hid & Him); [lia|lia|exact Hk|].
  assert (cells_ok 64 self2.(bits)) as Hc2.
  { apply cells_ok_insert; [exact Hc|]. apply lor_range; [lia|exact (cells_ok_lookup 64 _ _ _ Hc Hprev)|apply pow_range; lia]. }
  assert (forall e' k', 0 <= e' -> kind_fits self k' -> bit_of self.(stride) e' k' self2.(bits) = (e' =? e) && (k' =? k) || dirty self e' k') as Hd.
  { intros e' k' He' Hk'. destruct (slot_of self.(stride) e' k') as (Hi0' & _); [lia|lia|exact Hk'|].
    unfold bit_of, self2, slot. cbn [bits with_bits]. rewrite <- Hid, <- Him.
    rewrite (cell_bit_set 64); [|lia|lia|lia|rewrite Hid; exact Hprev]. rewrite Hbits by lia.
    now rewrite pair_eqb by (try exact Hk; try exact Hk'; lia). }
  assert (forall inds, (forall e', e' ∈ inds -> 0 <= e') -> (forall e', e' ∈ self1.(indices) -> e' ∈ inds) -> e ∈ inds ->
    let q := {| bits := self2.(bits); stride := self2.(stride); indices := inds |} in
    queue_ok q /\ q.(stride) = self.(stride) /\
    forall e' k', 0 <= e' -> kind_fits self k' -> dirty q e' k' = (e' =? e) && (k' =? k) || dirty self e' k') as Hfin.
  { intros inds Hp Hsub He2 q. assert (q.(stride) = self.(stride)) as Hqs by exact Hst.
    assert (forall e' k', 0 <= e' -> kind_fits self k' -> dirty q e' k' = (e' =? e) && (k' =? k) || dirty self e' k') as Hdq
      by (intros; unfold dirty; rewrite Hqs; now apply Hd).
    split_and!; try assumption. split; try assumption.
    - unfold q, self2. cbn [bits with_bits stride]. now rewrite length_insert.
    - intros e' k' He' Hk' Hdirty. unfold kind_fits in Hk'. rewrite Hqs in Hk'. rewrite Hdq in Hdirty by assumption.
      apply orb_true_iff in Hdirty as [Heq|Hold]; cbn [indices q].
      + apply andb_true_iff in Heq as [->%Z.eqb_eq _]. exact He2.
      + apply Hsub, (Hlisted e' k'); [exact He'|unfold kind_fits; now rewrite Hst|].
        unfold dirty, bit_of in *. rewrite Hst, Hbits; [exact Hold|]. apply (slot_of self.(stride) e' k'); [lia|lia|exact Hk']. }
  assert (forall w c, 0 <= w < self1.(stride) -> self1.(bits) !! Z.to_nat (e * self1.(stride) + w) = Some c -> c <> 0 -> e ∈ self1.(indices)) as Hin.
  { intros w c Hw Hl Hne. destruct (nonzero_dirty self1 e w c) as (k' & Hk' & _ & Hd'); [now split|assumption..|]. now apply (Hlisted e k'). }
  assert (0 <= k / 64 < self1.(stride)) as Hkw by (unfold kind_fits in Hk; rewrite Hst; split; [apply Z.div_pos; lia|apply Z.div_lt_upper_bound; lia]).
  destruct (Z.eqb_spec prev 0) as [->|Hne]; cbn [negb].
  - destruct (if self2.(stride) =? 1 then true else _) eqn:Hcase.
    + eexists. split; [reflexivity|]. apply Hfin.
      * intros e'. rewrite elem_of_app, list_elem_of_singleton. intros [H| ->]; [now apply Hpos|exact He].
      * intros e' H. apply elem_of_app. now left.
      * apply elem_of_app. right. now apply list_elem_of_singleton.
    + exists self2. split; [reflexivity|]. apply (Hfin self1.(indices)); [exact Hpos|auto|].
      destruct (self2.(stride) =? 1); [discriminate|]. unfold other_words_zero in Hcase.
      rewrite <- not_true_iff_false, forallb_forall in Hcase.
      destruct (decide (e ∈ self1.(indices))) as [|Hni]; [assumption|]. destruct Hcase. intros w Hw.
      apply in_seq in Hw. cbn [stride with_bits self2] in Hw. destruct (Z.eqb_spec (Z.of_nat w) (k / 64)) as [|Hwne]; [reflexivity|].
      destruct (self2.(bits) !! _) as [c|] eqn:Hc'; [|reflexivity]. apply Z.eqb_eq.
      destruct (decide (c = 0)) as [|Hcne]; [assumption|]. destruct Hni. apply (Hin (Z.of_nat w) c); [lia| |exact Hcne].
      unfold self2, slot in Hc'. cbn [bits with_bits] in Hc'. rewrite list_lookup_insert_ne in Hc'; [rewrite Hst; exact Hc'|].
      rewrite Hst in *. assert (0 <= e * self.(stride)) by nia. lia.
  - exists self2. split; [reflexivity|]. apply (Hfin self1.(indices)); [exact Hpos|auto|].
    apply (Hin (k / 64) prev); [exact Hkw| |exact Hne]. rewrite Hst. exact Hprev.
Qed.

Lemma not64_bits m k : 0 <= k < 64 -> Z.testbit (not64 m) k = negb (Z.testbit m k).
Proof. intros Hk. unfold not64. rewrite Z.lxor_spec, Z.ones_spec_low by lia. apply xorb_true_l. Qed.

(** [cancel] removes the pair and changes no other. *)
Lemma cancel_ok self e k : queue_ok self -> 0 <= e -> kind_fits self k ->
  let self' := cancel self e k in
  queue_ok self' /\ self'.(stride) = self.(stride) /\ self'.(indices) = self.(indices) /\
  forall e' k', 0 <= e' -> kind_fits self k' -> dirty self' e' k' = negb ((e' =? e) && (k' =? k)) && dirty self e' k'.
Proof.
  intros Hok He Hk. pose proof Hok as [Hs Hc Hrows Hpos Hlisted].
  destruct (slot_of self.(stride) e k) as (Hi0 & Hid & Him); [lia|lia|exact Hk|]. unfold cancel.
  destruct (self.(bits) !! _) as [c|] eqn:Hl; cbn zeta.
  - set (b := <[_ := _]> self.(bits)).
    assert (forall e' k', 0 <= e' -> kind_fits self k' -> bit_of self.(stride) e' k' b = negb ((e' =? e) && (k' =? k)) && dirty self e' k') as Hd.
    { intros e' k' He' Hk'. destruct (slot_of self.(stride) e' k') as (Hi0' & _); [lia|lia|exact Hk'|].
      unfold bit_of, b. rewrite <- Hid, <- Him. rewrite (cell_bit_clear 64); [|lia|lia|lia|rewrite Hid; exact Hl|].
      - now rewrite pair_eqb by (try exact Hk; try exact Hk'; lia).
      - intros r Hr. rewrite not64_bits, shiftl_1_testbit by (try apply Z.mod_pos_bound; lia). reflexivity. }
    split_and!; try reflexivity; [|exact Hd]. split; cbn [stride bits indices with_bits]; try assumption.
    + apply cells_ok_insert; [exact Hc|]. apply land_range; [lia|exact (cells_ok_lookup 64 _ _ _ Hc Hl)].
    + unfold b. now rewrite length_insert.
    + intros e' k' He' Hk' Hdirty. unfold dirty in Hdirty. cbn [stride bits with_bits] in Hdirty.
      change (kind_fits self k') in Hk'. rewrite Hd in Hdirty by assumption. apply andb_true_iff in Hdirty as [_ Hdirty]. now apply (Hlisted e' k').
  - split_and!; try reflexivity; [exact Hok|]. intros e' k' He' Hk'.
    destruct (Z.eqb_spec e' e) as [->|]; [|reflexivity]. destruct (Z.eqb_spec k' k) as [->|]; [|reflexivity]. cbn [andb negb].
    unfold dirty, bit_of, cell_bit. now rewrite Hid, Hl.
Qed.

(** Swapping out the words from [base] on. *)
Lemma swap_out_ok b base n b' ws : swap_out b base n = (b', ws) ->
  length b' = length b /\ length ws = n /\
  (forall j, b' !! j = if decide (base <= j < base + n)%nat then (fun _ => 0) <$> b !! j else b !! j) /\
  (forall j, (j < n)%nat -> ws !! j = Some (default 0 (b !! (base + j)%nat))).
Proof.
  revert b base b' ws. induction n as [|n IH]; intros b base b' ws; cbn [swap_out].
  - intros H. injection H as <- <-. split_and!; try reflexivity; [|lia]. intros j. now destruct (decide _); [lia|].
  - set (b1 := match b !! base with Some _ => <[base := 0]> b | None => b end).
    replace (match b !! base with Some v => (v, <[base := 0]> b) | None => (0, b) end) with (default 0 (b !! base), b1)
      by (unfold b1; destruct (b !! base); reflexivity).
    destruct (swap_out b1 (S base) n) as [b2 rest] eqn:Hsw. intros H. injection H as <- <-.
    destruct (IH _ _ _ _ Hsw) as (Hlen & Hlr & Hb2 & Hws).
    assert (length b1 = length b) as Hlb by (unfold b1; destruct (b !! base); [apply length_insert|reflexivity]).
    assert (forall j, b1 !! j = if decide (j = base) then (fun _ => 0) <$> b !! j else b !! j) as Hb1.
    { intros j. unfold b1. destruct (b !! base) eqn:Hbb, (decide (j = base)) as [->|Hne]; rewrite ?Hbb; try reflexivity.
      - rewrite list_lookup_insert_eq by eauto using lookup_lt_Some. reflexivity.
      - now rewrite list_lookup_insert_ne by congruence. }
    split_and!; [lia|cbn [length]; lia| |].
    + intros j. rewrite Hb2, Hb1. destruct (decide (j = base)) as [->|];
        repeat destruct (decide _); try lia; try reflexivity; destruct (b !! j); reflexivity.
    + intros [|j] Hj; cbn [lookup list_lookup]; [now rewrite Nat.add_0_r|].
      etransitivity; [apply Hws; lia|]. rewrite Hb1. destruct (decide _); [lia|]. do 3 f_equal. lia.
Qed.

(** The words taken out are the entity's kinds, and they are gone afterwards. *)
Lemma swap_entity s b e b' ws : 1 <= s -> 0 <= e -> cells_ok 64 b ->
  swap_out b (Z.to_nat (e * s)) (Z.to_nat s) = (b', ws) ->
  length b' = length b /\ cells_ok 64 b' /\ cells_ok 64 ws /\
  (forall k, 0 <= k < 64 * s -> cell_bit 64 ws k = bit_of s e k b) /\
  (forall e' k, 0 <= e' -> 0 <= k < 64 * s -> bit_of s e' k b' = negb (e' =? e) && bit_of s e' k b).
Proof.
  intros Hs He Hc Hsw. apply swap_out_ok in Hsw as (Hlen & Hlw & Hb' & Hws). assert (0 <= e * s) by nia.
  split_and!; [exact Hlen| | | |].
  - apply Forall_lookup. intros j c. rewrite Hb'. destruct (decide _).
    + destruct (b !! j); [|discriminate]. cbn. intros H'. injection H' as <-. lia.
    + intros Hj. exact (cells_ok_lookup 64 _ _ _ Hc Hj).
  - apply Forall_lookup. intros j c Hj. pose proof (lookup_lt_Some _ _ _ Hj). rewrite Hws in Hj by lia. injection Hj as <-.
    destruct (b !! _) eqn:E; cbn; [exact (cells_ok_lookup 64 _ _ _ Hc E)|lia].
  - intros k Hk. destruct (slot_of s e k Hs He Hk) as (_ & Hd & Hm). unfold bit_of, cell_bit. rewrite Hd, Hm.
    assert (0 <= k / 64 < s) by (split; [apply Z.div_pos; lia|apply Z.div_lt_upper_bound; lia]).
    rewrite Hws by lia. replace (Z.to_nat (e * s) + Z.to_nat (k / 64))%nat with (Z.to_nat (e * s + k / 64)) by lia.
    destruct (b !! _); [reflexivity|apply Z.bits_0].
  - intros e' k He' Hk. destruct (slot_of s e' k Hs He' Hk) as (_ & Hd & Hm). unfold bit_of, cell_bit. rewrite Hd, Hm, Hb'.
    assert (0 <= k / 64 < s) by (split; [apply Z.div_pos; lia|apply Z.div_lt_upper_bound; lia]).
    assert (0 <= e' * s) by nia. destruct (Z.eqb_spec e' e) as [->|Hne].
    + destruct (decide _); [|lia]. destruct (b !! _); cbn; [apply Z.bits_0|reflexivity].
    + destruct (decide _); [|reflexivity]. exfalso. assert (e' = e) by nia. lia.
Qed.

Lemma any_nonzero ws : cells_ok 64 ws ->
  existsb (fun v => negb (v =? 0)) ws = true <-> exists k, 0 <= k < 64 * Z.of_nat (length ws) /\ cell_bit 64 ws k = true.
Proof.
  intros Hc. rewrite existsb_exists. split.
  - intros (v & Hin & Hv%negb_true_iff%Z.eqb_neq). apply list_elem_of_In, list_elem_of_lookup_1 in Hin as [j Hj].
    apply (cells_nonzero 64 ltac:(lia) _ _ _ Hc Hj Hv).
  - intros (k & Hk & Hb). unfold cell_bit in Hb. destruct (ws !! _) as [v|] eqn:Hv; [|discriminate].
    exists v. split; [apply list_elem_of_In; eauto using list_elem_of_lookup_2|]. apply negb_true_iff, Z.eqb_neq.
    intros ->. now rewrite Z.bits_0 in Hb.
Qed.

(** What a drain of the listed entities returns and leaves behind. *)
Record drained (s : Z) (idxs b b' : list Z) (out : list (Z * list Z)) : Prop := {
  dr_length : length b' = length b;
  dr_cells : cells_ok 64 b';
  dr_nodup : NoDup out.*1;
  dr_words : forall e ws, (e, ws) ∈ out -> e ∈ idxs /\ length ws = Z.to_nat s /\ cells_ok 64 ws /\
    (forall k, 0 <= k < 64 * s -> cell_bit 64 ws k = bit_of s e k b) /\
    exists k, 0 <= k < 64 * s /\ bit_of s e k b = true;
  dr_all : forall e k, e ∈ idxs -> 0 <= k < 64 * s -> bit_of s e k b = true -> e ∈ out.*1;
  dr_left : forall e k, 0 <= e -> 0 <= k < 64 * s ->
    bit_of s e k b' = true <-> bit_of s e k b = true /\ e ∉ idxs
}.

Lemma drain_loop_ok s idxs b b' out : 1 <= s -> cells_ok 64 b -> (forall e, e ∈ idxs -> 0 <= e) ->
  drain_loop s idxs b = (b', out) -> drained s idxs b b' out.
Proof.
  intros Hs. revert b b' out. induction idxs as [|e idxs IH]; intros b b' out Hc Hpos; cbn [drain_loop].
  - intros H. injection H as <- <-. split; try done.
    + apply NoDup_nil_2.
    + intros e ws He. now apply elem_of_nil in He.
    + intros e k He Hk. split; [intros; split; [assumption|apply not_elem_of_nil]|tauto].
  - destruct (swap_out b _ _) as [b1 ws] eqn:Hsw. destruct (drain_loop s idxs b1) as [b2 rest] eqn:Hdl.
    intros H. injection H as <- <-. assert (0 <= e) as He by (apply Hpos; now left).
    assert (length ws = Z.to_nat s) as Hlw by now apply swap_out_ok in Hsw as (_ & ? & _).
    destruct (swap_entity s b e b1 ws Hs He Hc Hsw) as (Hl1 & Hc1 & Hcw & Hw & Hb1).
    destruct (IH b1 b2 rest Hc1) as [Hl2 Hc2 Hnd Hwords Hall Hleft]; [intros; apply Hpos; now right|exact Hdl|].
    assert (forall e' k, e' ∈ idxs -> 0 <= k < 64 * s -> bit_of s e' k b1 = true <-> e' <> e /\ bit_of s e' k b = true) as Hb1'.
    { intros e' k He' Hk. rewrite Hb1 by (try apply Hpos; try (now right); lia). destruct (Z.eqb_spec e' e); cbn; [|tauto].
      split; [discriminate|tauto]. }
    assert (e ∉ rest.*1) as Hni.
    { intros Hin. apply list_elem_of_fmap in Hin as ([e' ws'] & -> & Hin). apply Hwords in Hin as (Hin & _ & _ & _ & k & Hk & Hb).
      apply Hb1' in Hb as [Hne _]; [now cbn in Hne|assumption..]. }
    assert (forall e' ws', (e', ws') ∈ rest -> e' ∈ e :: idxs /\ length ws' = Z.to_nat s /\ cells_ok 64 ws' /\
      (forall k, 0 <= k < 64 * s -> cell_bit 64 ws' k = bit_of s e' k b) /\ exists k, 0 <= k < 64 * s /\ bit_of s e' k b = true) as Hrest.
    { intros e' ws' Hin. pose proof (list_elem_of_fmap_2 fst _ _ Hin) as Hf. cbn in Hf.
      apply Hwords in Hin as (Hin & Hl & Hcc & Hk & k & Hkr & Hkb). assert (e' <> e) as Hne by (intros ->; exact (Hni Hf)).
      split_and!; try assumption; [now right| |].
      - intros k' Hk'. rewrite Hk, Hb1 by (try apply Hpos; try (now right); lia). destruct (Z.eqb_spec e' e); [lia|reflexivity].
      - exists k. split; [exact Hkr|]. now apply Hb1' in Hkb as [_ Hkb]. }
    destruct (existsb _ ws) eqn:Hany.
    + apply (any_nonzero ws Hcw) in Hany as (k0 & Hk0 & Hb0). rewrite Hlw, Z2Nat.id in Hk0 by lia. split; [lia|exact Hc2| | | |].
      * cbn [fmap list_fmap fst]. now apply NoDup_cons.
      * intros e' ws' [Heq|Hin]%elem_of_cons; [|now apply Hrest]. injection Heq as -> ->. split_and!; try assumption; [now left|].
        exists k0. rewrite <- Hw by lia. now split.
      * intros e' k [->|Hin]%elem_of_cons Hk Hb; [now left|]. destruct (decide (e' = e)) as [->|Hne]; [now left|].
        right. apply (Hall e' k); [exact Hin|exact Hk|]. now apply Hb1'.
      * intros e' k He' Hk. rewrite Hleft, Hb1 by lia. rewrite not_elem_of_cons. destruct (Z.eqb_spec e' e); cbn; [|tauto].
        split; [intros [? _]; discriminate|tauto].
    + assert (forall k, 0 <= k < 64 * s -> bit_of s e k b = false) as Hz.
      { intros k Hk. rewrite <- Hw by lia. apply not_true_is_false. intros Hb. apply not_true_iff_false in Hany.
        apply Hany, (any_nonzero ws Hcw). exists k. split; [lia|exact Hb]. }
      split; [lia|exact Hc2|exact Hnd|exact Hrest| |].
      * intros e' k [->|Hin]%elem_of_cons Hk Hb; [rewrite Hz in Hb by lia; discriminate|].
        destruct (decide (e' = e)) as [->|Hne]; [rewrite Hz in Hb by lia; discriminate|].
        apply (Hall e' k); [exact Hin|exact Hk|]. now apply Hb1'.
      * intros e' k He' Hk. rewrite Hleft, Hb1 by lia. rewrite not_elem_of_cons. destruct (Z.eqb_spec e' e) as [->|]; cbn; [|tauto].
        rewrite Hz by lia. split; intros [? _]; discriminate.
Qed.

(** A drain returns every dirty entity once, with exactly its dirty kinds, and
    leaves the queue empty. *)
Lemma drain_ok self self' out : queue_ok self -> drain self = (self', out) ->
  queue_ok self' /\ self'.(stride) = self.(stride) /\ self'.(indices) = [] /\ NoDup out.*1 /\
  (forall e k, 0 <= e -> kind_fits self k -> dirty self' e k = false) /\
  (forall e ws, (e, ws) ∈ out -> 0 <= e /\ length ws = Z.to_nat self.(stride) /\ cells_ok 64 ws /\
     forall k, kind_fits self k -> cell_bit 64 ws k = dirty self e k) /\
  (forall e k, 0 <= e -> kind_fits self k -> dirty self e k = true -> e ∈ out.*1).
Proof.
  intros [Hs Hc [rows Hrows] Hpos Hlisted]. unfold drain.
  destruct (drain_loop _ _ _) as [b out'] eqn:Hdl. intros H. injection H as <- <-.
  destruct (drain_loop_ok _ _ _ _ _ Hs Hc Hpos Hdl) as [Hl Hc' Hnd Hwords Hall Hleft].
  assert (forall e k, 0 <= e -> kind_fits self k -> bit_of self.(stride) e k b = false) as Hz.
  { intros e k He Hk. apply not_true_is_false. intros Hb. apply Hleft in Hb as [Hb Hni]; [|exact He|exact Hk].
    apply Hni. now apply (Hlisted e k). }
  split_and!; try reflexivity; try assumption.
  - split; cbn [stride bits indices]; try assumption.
    + exists rows. lia.
    + intros e He. now apply elem_of_nil in He.
    + intros e k He Hk Hd. unfold dirty in Hd. cbn [stride bits] in Hd. now rewrite Hz in Hd.
  - intros e ws Hin. apply Hwords in Hin as (Hin & Hlw & Hcw & Hk & _). split; [now apply Hpos|]. auto.
  - intros e k He Hk Hd. apply (Hall e k); [now apply (Hlisted e k)|exact Hk|exact Hd].
Qed.

(** ** The queue as a set of pairs *)
Inductive queue_op := OpPush (e k : Z) | OpCancel (e k : Z) | OpGrow (slot : Z) | OpDrain.

Definition queue_run_op (op : queue_op) (q : DirtyQueue) : res DirtyQueue :=
  match op with
  | OpPush e k => push q e k
  | OpCancel e k => Ok (cancel q e k)
  | OpGrow slot => Ok (ensure_capacity q slot)
  | OpDrain => Ok (drain q).1
  end.

(** What the operations mean. *)
Definition spec_op (op : queue_op) (d : gset (Z * Z)) : gset (Z * Z) :=
  match op with
  | OpPush e k => {[ (e, k) ]} ∪ d
  | OpCancel e k => d ∖ {[ (e, k) ]}
  | OpGrow _ => d
  | OpDrain => ∅
  end.

Definition op_fits (kind_count : Z) (op : queue_op) : Prop :=
  match op with
  | OpPush e k | OpCancel e k => 0 <= e /\ 0 <= k < kind_count
  | OpGrow slot => 0 <= slot
  | OpDrain => True
  end.

Definition denotes (q : DirtyQueue) (d : gset (Z * Z)) : Prop :=
  queue_ok q /\ (forall e k, (e, k) ∈ d -> 0 <= e /\ kind_fits q k) /\
  forall e k, 0 <= e -> kind_fits q k -> dirty q e k = true <-> (e, k) ∈ d.

Lemma run_op_ok n op q d : op_fits n op -> n <= 64 * q.(stride) -> denotes q d ->
  exists q', queue_run_op op q = Ok q' /\ q'.(stride) = q.(stride) /\ denotes q' (spec_op op d).
Proof.
  intros Hop Hn (Hok & Hin & Hd). destruct op as [e k|e k|slot|]; cbn [queue_run_op spec_op op_fits] in *.
  - destruct Hop as [He Hk]. destruct (push_ok q e k Hok He) as (q' & -> & Hok' & Hst & Hd'); [unfold kind_fits; lia|].
    exists q'. split; [reflexivity|]. split; [exact Hst|]. unfold denotes, kind_fits in *. rewrite Hst. split_and!; [exact Hok'| |].
    + intros e' k'. rewrite elem_of_union, elem_of_singleton. intros [H|H]; [injection H as -> ->; lia|now apply Hin].
    + intros e' k' He' Hk'. rewrite Hd' by assumption. rewrite elem_of_union, elem_of_singleton, orb_true_iff, (Hd e' k') by assumption.
      rewrite andb_true_iff, !Z.eqb_eq. split; (intros [H|H]; [left|now right]); [destruct H as [-> ->]; reflexivity|now injection H as -> ->].
  - destruct Hop as [He Hk]. destruct (cancel_ok q e k Hok He) as (Hok' & Hst & _ & Hd'); [unfold kind_fits; lia|].
    eexists. split; [reflexivity|]. split; [exact Hst|]. unfold denotes, kind_fits in *. rewrite Hst. split_and!; [exact Hok'| |].
    + intros e' k'. rewrite elem_of_difference. intros [H _]. now apply Hin.
    + intros e' k' He' Hk'. rewrite Hd' by assumption. rewrite elem_of_difference, elem_of_singleton, andb_true_iff, (Hd e' k') by assumption.
      rewrite negb_true_iff, andb_false_iff, !Z.eqb_neq. split.
      * intros [H1 H2]. split; [exact H2|]. intros H. injection H as -> ->. lia.
      * intros [H1 H2]. split; [|exact H1]. destruct (decide (e' = e)) as [->|]; [right; congruence|now left].
  - destruct (ensure_capacity_ok q slot Hok Hop) as (Hok' & Hst & _ & _ & Hb). eexists. split; [reflexivity|]. split; [exact Hst|].
    unfold denotes, kind_fits in *. rewrite Hst. split_and!; [exact Hok'|exact Hin|]. intros e k He Hk. rewrite <- Hd by assumption.
    unfold dirty, bit_of. rewrite Hst, Hb; [reflexivity|]. destruct Hok. apply (slot_of q.(stride) e k); lia.
  - destruct (drain q) as [q' out] eqn:Hdr. destruct (drain_ok q q' out Hok Hdr) as (Hok' & Hst & _ & _ & Hz & _).
    exists q'. split; [reflexivity|]. split; [exact Hst|]. unfold denotes, kind_fits in *. rewrite Hst. split_and!; [exact Hok'| |].
    + intros e k H. now apply elem_of_empty in H.
    + intros e k He Hk. rewrite Hz by assumption. split; [discriminate|]. intros H. now apply elem_of_empty in H.
Qed.

Lemma run_ops_ok n ops : Forall (op_fits n) ops -> forall q d, n <= 64 * q.(stride) -> denotes q d ->
  exists q', foldM queue_run_op ops q = Ok q' /\ q'.(stride) = q.(stride) /\ denotes q' (foldl (fun d op => spec_op op d) d ops).
Proof.
  induction 1 as [|op ops Hop _ IH]; intros q d Hn Hd; [now exists q|].
  destruct (run_op_ok n op q d Hop Hn Hd) as (q1 & H1 & Hst1 & Hd1).
  destruct (IH q1 _ ltac:(rewrite Hst1; exact Hn) Hd1) as (q2 & H2 & Hst2 & Hd2). exists q2.
  cbn [foldM foldl]. rewrite H1, bind_ok. split; [exact H2|]. split; [congruence|exact Hd2].
Qed.

Lemma denotes_new n : 0 <= n -> n <= 64 * (Queue_new n).(stride) /\ denotes (Queue_new n) ∅.
Proof.
  intros Hn. destruct (Queue_new_ok n Hn) as [Hok Hd]. split; [unfold Queue_new, AtomicBitSet.div_ceil; cbn [stride]; dlia|].
  split_and!; [exact Hok| |].
  - intros e k H. now apply elem_of_empty in H.
  - intros e k _ _. rewrite Hd. split; [discriminate|]. intros H. now apply elem_of_empty in H.
Qed.

(** C35: A dirty queue made for [n] component kinds is a set of (entity, kind)
    pairs: after any sequence of pushes, cancels, growths and drains with kinds
    below [n] it has not panicked, and a drain returns each entity of the set
    once, with exactly the kinds of its pairs, and empties the queue. *)
Theorem dirty_queue_is_set n ops : 0 <= n -> Forall (op_fits n) ops ->
  let d := foldl (fun d op => spec_op op d) ∅ ops in
  exists q q' out, foldM queue_run_op ops (Queue_new n) = Ok q /\ drain q = (q', out) /\ NoDup out.*1 /\
    (forall e k, (e, k) ∈ d <-> 0 <= k /\ exists ws, (e, ws) ∈ out /\ cell_bit 64 ws k = true) /\
    is_empty q' = true /\ forall e k, 0 <= e -> kind_fits q k -> dirty q' e k = false.
Proof.
  intros Hn Hops d. destruct (denotes_new n Hn) as [Hfit Hnew].
  destruct (run_ops_ok n ops Hops _ _ Hfit Hnew) as (q & Hq & Hst & Hok & Hin & Hd). fold d in Hin, Hd.
  destruct (drain q) as [q' out] eqn:Hdr. destruct (drain_ok q q' out Hok Hdr) as (_ & _ & Hidx & Hnd & Hz & Hws & Hall).
  exists q, q', out. split_and!; try assumption; [|unfold is_empty; now rewrite Hidx].
  intros e k. split.
  - intros Hek. destruct (Hin e k Hek) as [He Hk]. split; [apply Hk|].
    apply Hd in Hek as Hdk; [|assumption..]. apply (Hall e k He Hk) in Hdk as Ho.
    apply list_elem_of_fmap in Ho as ([e' ws] & -> & Ho). exists ws. split; [exact Ho|].
    destruct (Hws _ _ Ho) as (_ & _ & _ & Hbits). now rewrite Hbits.
  - intros (Hk0 & ws & Ho & Hb). destruct (Hws _ _ Ho) as (He & Hlen & _ & Hbits).
    assert (kind_fits q k) as Hk.
    { split; [exact Hk0|]. destruct (Z.lt_ge_cases k (64 * q.(stride))); [assumption|].
      rewrite cell_bit_overflow in Hb by (rewrite ?Hlen; destruct Hok; lia). discriminate. }
    rewrite Hbits in Hb by exact Hk. now apply Hd.
Qed.

Lemma dirty_queue_is_set_witness : exists q q' out,
  foldM queue_run_op [OpPush 1 130; OpPush 1 5; OpPush 0 7; OpCancel 0 7; OpPush 1 5] (Queue_new 200) = Ok q /\
  drain q = (q', out) /\ out = [(1, [32; 0; 4; 0])] /\ NoDup out.*1.
Proof.
  destruct (dirty_queue_is_set 200 [OpPush 1 130; OpPush 1 5; OpPush 0 7; OpCancel 0 7; OpPush 1 5]) as (q & q' & out & Hq & Hdr & Hnd & _).
  - lia.
  - repeat constructor; cbn; lia.
  - exists q, q', out. split_and!; try assumption. vm_compute in Hq. injection Hq as <-. vm_compute in Hdr. now injection Hdr as <- <-.
Defined.

(** A kind bit that does not fit in the stride of the queue (a kind
    registered after the queue was made for fewer kinds) panics when it is pushed
    for the entity with the last row: the slot lies behind the vector and growing
    it for that entity does not reach the slot. *)
Theorem kind_beyond_stride_panics q e k : 0 <= e -> 1 <= q.(stride) -> 64 * q.(stride) <= k ->
  Z.of_nat (length q.(bits)) = (e + 1) * q.(stride) -> push q e k = Panic.
Proof.
  intros He Hs Hk Hlen. assert (q.(stride) <= k / 64) by (apply Z.div_le_lower_bound; lia).
  assert (0 <= e * q.(stride)) by nia. unfold push, mark.
  rewrite (lookup_ge_None_2 q.(bits)) by nia. unfold ensure_capacity. rewrite (proj2 (Z.leb_le _ _)) by lia.
  rewrite (lookup_ge_None_2 q.(bits)) by nia. reflexivity.
Qed.

Lemma kind_beyond_stride_panics_witness : push (ensure_capacity (Queue_new 64) 2) 2 64 = Panic.
Proof. apply (kind_beyond_stride_panics (ensure_capacity (Queue_new 64) 2) 2 64); vm_compute; congruence. Defined.

(** With a later row present the bit is taken for a kind of the next entity. *)
Example kind_beyond_stride_marks_next : exists q', push (ensure_capacity (Queue_new 64) 2) 1 64 = Ok q' /\
  (drain q').2 = [] /\ dirty q' 2 0 = true.
Proof. eexists. vm_compute. split_and!; reflexivity. Qed.
End DirtyQueue.
