(* ===== verification/DiffHandlers.v ===== *)
(** Which components of which entities have changed, per user:
    - the mutation channels and receivers: [world/update/mut_channel.rs] and the
      [MutChannelData] of the server and of the client ([src/server/src/world/mut_channel.rs],
      [src/client/src/world/mut_channel.rs]);
    - [GlobalDiffHandler] ([global_diff_handler.rs]) and [UserDiffHandler]
      ([user_diff_handler.rs]).

    A [MutReceiver] is shared: its mask and its notifier are behind [Arc]s held
    by the channel and by the handlers of the users.  Receivers, channels and
    dirty sets therefore live in a store and are named by their position; a
    [Weak] that cannot be upgraded is a position that holds [None]. *)

From Stdlib Require Import ZArith Lia.
From stdpp Require Import base numbers option list gmap sorting.
From S2P Require Import Prelude DiffMask DirtyQueue Kinds.

(** * Receivers *)
Record DirtyNotifier := mkNotifier { n_entity_idx : Z; n_kind_bit : Z; n_set : nat }.

Record MutReceiver := mkReceiver { r_mask : AtomicDiffMask.AtomicDiffMask; r_notifier : option DirtyNotifier }.

Definition MutReceiver_new (diff_mask_length : Z) : MutReceiver :=
  {| r_mask := AtomicDiffMask.AtomicMask_new diff_mask_length; r_notifier := None |}.

(** [Arc<RwLock<dyn MutChannelType>>]: the two implementations. *)
Inductive MutChannelData (A : Type) `{Countable A} :=
| ServerChannel (receiver_index : gmap A nat) (receivers : list nat) (diff_mask_length : Z)
| ClientChannel (receiver : nat).
Arguments ServerChannel {A _ _} receiver_index receivers diff_mask_length.
Arguments ClientChannel {A _ _} receiver.

Section Handlers.
Context {E K A B : Type} `{Countable E, Countable K, Countable A}.

Record Store := mkStore {
  cells : list MutReceiver;
  sets : list (option DirtyQueue.DirtyQueue);
  chans : list (MutChannelData A)
}.

Definition set_cell (st : Store) (loc : nat) (r : MutReceiver) : Store :=
  {| cells := <[loc := r]> st.(cells); sets := st.(sets); chans := st.(chans) |}.
Definition set_set (st : Store) (loc : nat) (q : DirtyQueue.DirtyQueue) : Store :=
  {| cells := st.(cells); sets := <[loc := Some q]> st.(sets); chans := st.(chans) |}.
Definition set_chan (st : Store) (loc : nat) (c : MutChannelData A) : Store :=
  {| cells := st.(cells); sets := st.(sets); chans := <[loc := c]> st.(chans) |}.
Definition alloc_cell (st : Store) (r : MutReceiver) : nat * Store :=
  (length st.(cells), {| cells := st.(cells) ++ [r]; sets := st.(sets); chans := st.(chans) |}).
Definition alloc_set (st : Store) (q : DirtyQueue.DirtyQueue) : nat * Store :=
  (length st.(sets), {| cells := st.(cells); sets := st.(sets) ++ [Some q]; chans := st.(chans) |}).
Definition alloc_chan (st : Store) (c : MutChannelData A) : nat * Store :=
  (length st.(chans), {| cells := st.(cells); sets := st.(sets); chans := st.(chans) ++ [c] |}).

(** [Weak::upgrade]. *)
Definition upgrade (st : Store) (loc : nat) : option DirtyQueue.DirtyQueue :=
  match st.(sets) !! loc with Some (Some q) => Some q | _ => None end.

Definition notify_dirty (n : DirtyNotifier) (st : Store) : res Store :=
  match upgrade st n.(n_set) with
  | Some q => q' ← DirtyQueue.push q n.(n_entity_idx) n.(n_kind_bit); Ok (set_set st n.(n_set) q')
  | None => Ok st
  end.

Definition notify_clean (n : DirtyNotifier) (st : Store) : Store :=
  match upgrade st n.(n_set) with
  | Some q => set_set st n.(n_set) (DirtyQueue.cancel q n.(n_entity_idx) n.(n_kind_bit))
  | None => st
  end.

Definition with_mask (r : MutReceiver) (m : AtomicDiffMask.AtomicDiffMask) : MutReceiver :=
  {| r_mask := m; r_notifier := r.(r_notifier) |}.

Definition mutate (loc : nat) (property_index : Z) (st : Store) : res Store :=
  r ← unwrap (st.(cells) !! loc);
  let '(m, was_clear) := AtomicDiffMask.AtomicMask_set_bit r.(r_mask) property_index in
  let st' := set_cell st loc (with_mask r m) in
  if was_clear then match r.(r_notifier) with Some n => notify_dirty n st' | None => Ok st' end
  else Ok st'.

Definition or_mask (loc : nat) (other_mask : DiffMask.DiffMask) (st : Store) : res Store :=
  r ← unwrap (st.(cells) !! loc);
  '(m, was_clear_now_dirty) ← AtomicDiffMask.AtomicMask_or_with r.(r_mask) other_mask;
  let st' := set_cell st loc (with_mask r m) in
  if was_clear_now_dirty : bool then match r.(r_notifier) with Some n => notify_dirty n st' | None => Ok st' end
  else Ok st'.

Definition clear_mask (loc : nat) (st : Store) : res Store :=
  r ← unwrap (st.(cells) !! loc);
  let '(m, was_dirty) := AtomicDiffMask.AtomicMask_clear r.(r_mask) in
  let st' := set_cell st loc (with_mask r m) in
  if was_dirty then Ok (match r.(r_notifier) with Some n => notify_clean n st' | None => st' end)
  else Ok st'.

(** [OnceLock::set]: the first notifier stays. *)
Definition attach_notifier (loc : nat) (n : DirtyNotifier) (st : Store) : res Store :=
  r ← unwrap (st.(cells) !! loc);
  Ok (match r.(r_notifier) with
      | Some _ => st
      | None => set_cell st loc {| r_mask := r.(r_mask); r_notifier := Some n |}
      end).

(** * Channels *)

(** [MutChannelData::new] of the server and of the client. *)
Definition new_mut_channel (server : bool) (diff_mask_length : Z) (st : Store) : MutChannelData A * Store :=
  if server then (ServerChannel ∅ [] diff_mask_length, st)
  else let '(loc, st') := alloc_cell st (MutReceiver_new diff_mask_length) in (ClientChannel loc, st').

Definition channel_new_receiver (chan : nat) (address_opt : option A) (st : Store) : res (option nat * Store) :=
  c ← unwrap (st.(chans) !! chan);
  match c with
  | ServerChannel receiver_index receivers diff_mask_length =>
      address ← unwrap address_opt;
      match receiver_index !! address with
      | Some idx => loc ← unwrap (receivers !! idx); Ok (Some loc, st)
      | None =>
          let '(loc, st') := alloc_cell st (MutReceiver_new diff_mask_length) in
          let idx := length receivers in
          Ok (Some loc, set_chan st' chan
            (ServerChannel (<[address := idx]> receiver_index) (receivers ++ [loc]) diff_mask_length))
      end
  | ClientChannel receiver =>
      match address_opt with Some _ => Panic | None => Ok (Some receiver, st) end
  end.

(** [MutSender::mutate] through [MutChannel::send]: every receiver of the channel. *)
Definition send (chan : nat) (property_index : Z) (st : Store) : res Store :=
  c ← unwrap (st.(chans) !! chan);
  match c with
  | ServerChannel _ receivers _ => foldM (fun loc => mutate loc property_index) receivers st
  | ClientChannel receiver => mutate receiver property_index st
  end.

(** * The global registry of channels *)
Record GlobalDiffHandler := mkGlobal {
  mut_receiver_builders : gmap (E * K) nat;
  kind_bits : gmap K Z;
  max_kind_count : Z
}.

Definition Global_new : GlobalDiffHandler :=
  {| mut_receiver_builders := ∅; kind_bits := ∅; max_kind_count := 0 |}.

Definition kind_bit (self : GlobalDiffHandler) (component_kind : K) : option Z := self.(kind_bits) !! component_kind.
Definition kind_count (self : GlobalDiffHandler) : Z := self.(max_kind_count).
Definition Global_has_component (self : GlobalDiffHandler) (e : E) (k : K) : bool :=
  match self.(mut_receiver_builders) !! (e, k) with Some _ => true | None => false end.

Definition net_id_of (ks : Kinds K B) (k : K) : option Z := (fun e => fst (fst e)) <$> kind_map ks !! k.

Definition Global_register_component (server : bool) (ks : Kinds K B) (e : E) (k : K) (diff_mask_length : Z)
    (self : GlobalDiffHandler) (st : Store) : res (nat * GlobalDiffHandler * Store) :=
  _ ← unwrap (kind_map ks !! k);
  if Global_has_component self e k then Panic
  else
    let '(c, st1) := new_mut_channel server diff_mask_length st in
    let '(chan, st2) := alloc_chan st1 c in
    let builders := <[(e, k) := chan]> self.(mut_receiver_builders) in
    '(bits, count) ← match self.(kind_bits) !! k, net_id_of ks k with
      | None, Some net_id =>
          next ← uadd 16 net_id 1;
          Ok (<[k := net_id]> self.(kind_bits), if self.(max_kind_count) <? next then next else self.(max_kind_count))
      | _, _ => Ok (self.(kind_bits), self.(max_kind_count))
      end;
    Ok (chan, {| mut_receiver_builders := builders; kind_bits := bits; max_kind_count := count |}, st2).

Definition Global_deregister_component (e : E) (k : K) (self : GlobalDiffHandler) : GlobalDiffHandler :=
  {| mut_receiver_builders := delete (e, k) self.(mut_receiver_builders);
     kind_bits := self.(kind_bits); max_kind_count := self.(max_kind_count) |}.

Definition Global_receiver (address : option A) (e : E) (k : K) (self : GlobalDiffHandler) (st : Store) : res (option nat * Store) :=
  match self.(mut_receiver_builders) !! (e, k) with
  | Some chan => channel_new_receiver chan address st
  | None => Ok (None, st)
  end.

(** * The handler of one user *)
Definition ENTITY_INDEX_RECYCLE_TIMEOUT : Z := 2000.

Record UserDiffHandler := mkUser {
  receivers : gmap (E * K) nat;
  entity_to_index : gmap E Z;
  index_to_entity : list (option E);
  components_per_entity : gmap Z Z;
  key_gen : KeyGenerator32.KeyGenerator32;
  kinds_by_bit : list (option K);
  dirty_set : nat
}.

Definition User_new (g : GlobalDiffHandler) (st : Store) : UserDiffHandler * Store :=
  let '(loc, st') := alloc_set st (DirtyQueue.Queue_new (kind_count g)) in
  ({| receivers := ∅; entity_to_index := ∅; index_to_entity := []; components_per_entity := ∅;
      key_gen := KeyGenerator32.KeyGen_new ENTITY_INDEX_RECYCLE_TIMEOUT;
      kinds_by_bit := replicate (Z.to_nat (kind_count g)) None; dirty_set := loc |}, st').

(** [Vec::resize(n, None)] where it grows the vector. *)
Definition grow {T} (l : list (option T)) (slot : nat) : list (option T) :=
  if decide (length l <= slot)%nat then l ++ replicate (S slot - length l) None else l.

Definition allocate_entity_index (now : Z) (e : E) (self : UserDiffHandler) (st : Store) : Z * UserDiffHandler * Store :=
  match self.(entity_to_index) !! e with
  | Some idx => (idx, self, st)
  | None =>
      let '(idx, gen) := KeyGenerator32.generate now self.(key_gen) in
      let slot := Z.to_nat idx in
      let table := <[slot := Some e]> (grow self.(index_to_entity) slot) in
      let st' := match upgrade st self.(dirty_set) with
                 | Some q => set_set st self.(dirty_set) (DirtyQueue.ensure_capacity q idx)
                 | None => st
                 end in
      (idx, {| receivers := self.(receivers); entity_to_index := <[e := idx]> self.(entity_to_index);
               index_to_entity := table; components_per_entity := self.(components_per_entity);
               key_gen := gen; kinds_by_bit := self.(kinds_by_bit); dirty_set := self.(dirty_set) |}, st')
  end.

Definition User_register_component (g : GlobalDiffHandler) (now : Z) (address : option A) (e : E) (k : K)
    (self : UserDiffHandler) (st : Store) : res (UserDiffHandler * Store) :=
  '(receiver, st1) ← Global_receiver address e k g st;
  match receiver with
  | None => Ok (self, st1)
  | Some loc =>
      match kind_bit g k with
      | None => Ok (self, st1)
      | Some bit =>
          let '(idx, self1, st2) := allocate_entity_index now e self st1 in
          let bit_idx := Z.to_nat bit in
          let table := grow self1.(kinds_by_bit) bit_idx in
          slot ← unwrap (table !! bit_idx);
          let table' := match slot with None => <[bit_idx := Some k]> table | Some _ => table end in
          st3 ← attach_notifier loc (mkNotifier idx bit self1.(dirty_set)) st2;
          count ← uadd 32 (default 0 (self1.(components_per_entity) !! idx)) 1;
          Ok ({| receivers := <[(e, k) := loc]> self1.(receivers); entity_to_index := self1.(entity_to_index);
                 index_to_entity := self1.(index_to_entity);
                 components_per_entity := <[idx := count]> self1.(components_per_entity);
                 key_gen := self1.(key_gen); kinds_by_bit := table'; dirty_set := self1.(dirty_set) |}, st3)
      end
  end.

Definition User_deregister_component (g : GlobalDiffHandler) (now : Z) (e : E) (k : K)
    (self : UserDiffHandler) (st : Store) : UserDiffHandler * Store :=
  let recvs := delete (e, k) self.(receivers) in
  let self0 := {| receivers := recvs; entity_to_index := self.(entity_to_index); index_to_entity := self.(index_to_entity);
      components_per_entity := self.(components_per_entity); key_gen := self.(key_gen);
      kinds_by_bit := self.(kinds_by_bit); dirty_set := self.(dirty_set) |} in
  match self.(entity_to_index) !! e with
  | None => (self0, st)
  | Some idx =>
      let st' := match kind_bit g k, upgrade st self.(dirty_set) with
                 | Some bit, Some q => set_set st self.(dirty_set) (DirtyQueue.cancel q idx bit)
                 | _, _ => st
                 end in
      match self.(components_per_entity) !! idx with
      | None => (self0, st')
      | Some count =>
          let count' := Z.max 0 (count - 1) in
          if count' =? 0 then
            ({| receivers := recvs; entity_to_index := delete e self.(entity_to_index);
                index_to_entity := (if decide (Z.to_nat idx < length self.(index_to_entity))%nat
                                    then <[Z.to_nat idx := None]> self.(index_to_entity) else self.(index_to_entity));
                components_per_entity := delete idx self.(components_per_entity);
                key_gen := KeyGenerator32.recycle_key now idx self.(key_gen);
                kinds_by_bit := self.(kinds_by_bit); dirty_set := self.(dirty_set) |}, st')
          else
            ({| receivers := recvs; entity_to_index := self.(entity_to_index); index_to_entity := self.(index_to_entity);
                components_per_entity := <[idx := count']> self.(components_per_entity);
                key_gen := self.(key_gen); kinds_by_bit := self.(kinds_by_bit); dirty_set := self.(dirty_set) |}, st')
      end
  end.

Definition User_has_component (self : UserDiffHandler) (e : E) (k : K) : bool :=
  match self.(receivers) !! (e, k) with Some _ => true | None => false end.

Definition diff_mask_snapshot (self : UserDiffHandler) (st : Store) (e : E) (k : K) : res DiffMask.DiffMask :=
  loc ← unwrap (self.(receivers) !! (e, k));
  r ← unwrap (st.(cells) !! loc);
  AtomicDiffMask.AtomicMask_snapshot r.(r_mask).

Definition diff_mask_is_clear (self : UserDiffHandler) (st : Store) (e : E) (k : K) : bool :=
  match self.(receivers) !! (e, k) with
  | None => true
  | Some loc => match st.(cells) !! loc with Some r => AtomicDiffMask.AtomicMask_is_clear r.(r_mask) | None => true end
  end.

Definition User_or_diff_mask (self : UserDiffHandler) (e : E) (k : K) (other : DiffMask.DiffMask) (st : Store) : res Store :=
  loc ← unwrap (self.(receivers) !! (e, k)); or_mask loc other st.

Definition User_clear_diff_mask (self : UserDiffHandler) (e : E) (k : K) (st : Store) : res Store :=
  loc ← unwrap (self.(receivers) !! (e, k)); clear_mask loc st.

(** The set bits of a word, lowest first: [trailing_zeros] and [remaining &= remaining - 1]. *)
Fixpoint word_bits (fuel : nat) (remaining : Z) : res (list Z) :=
  if remaining =? 0 then Ok []
  else match fuel with
       | O => Diverge
       | S fuel' => rest ← word_bits fuel' (Z.land remaining (remaining - 1)); Ok (count_zeros 64 remaining :: rest)
       end.

Definition remark_word (idx : Z) (wi : nat * Z) (q : DirtyQueue.DirtyQueue) : res DirtyQueue.DirtyQueue :=
  bs ← word_bits 64 wi.2;
  foldM (fun bit q =>
    base ← (if wrap 16 (Z.of_nat wi.1) * 64 <? 2 ^ 16 then Ok (wrap 16 (Z.of_nat wi.1) * 64) else Panic);
    kb ← uadd 16 base bit;
    DirtyQueue.push q idx kb) bs q.

Definition remark (entry : Z * list Z) (q : DirtyQueue.DirtyQueue) : res DirtyQueue.DirtyQueue :=
  foldM (remark_word entry.1) (imap pair entry.2) q.

Definition decode_word (self : UserDiffHandler) (wi : nat * Z) (acc : gset K) : res (gset K) :=
  bs ← word_bits 64 wi.2;
  Ok (foldl (fun acc bit =>
    match self.(kinds_by_bit) !! Z.to_nat (Z.of_nat wi.1 * 64 + bit) with
    | Some (Some kind) => {[ kind ]} ∪ acc
    | _ => acc
    end) acc bs).

Definition decode (self : UserDiffHandler) (entry : Z * list Z) (result : gmap E (gset K)) : res (gmap E (gset K)) :=
  match self.(index_to_entity) !! Z.to_nat entry.1 with
  | Some (Some e) =>
      ks ← foldM (decode_word self) (imap pair entry.2) ∅;
      Ok (if decide (ks = ∅) then result else <[e := ks]> result)
  | _ => Ok result
  end.

Definition dirty_receiver_candidates (self : UserDiffHandler) (st : Store) : res (gmap E (gset K) * Store) :=
  q ← unwrap (upgrade st self.(dirty_set));
  let '(q1, drained) := DirtyQueue.drain q in
  q2 ← foldM remark drained q1;
  result ← foldM (decode self) drained ∅;
  Ok (result, set_set st self.(dirty_set) q2).

(** * The invariant of the store *)

Record store_ok (st : Store) : Prop := {
  st_cells : forall loc r, st.(cells) !! loc = Some r -> exists n m, AtomicDiffMask.rep n r.(r_mask) m;
  st_sets : forall loc q, upgrade st loc = Some q -> DirtyQueue.queue_ok q;
  st_notifiers : forall loc r n q, st.(cells) !! loc = Some r -> r.(r_notifier) = Some n ->
    upgrade st n.(n_set) = Some q -> 0 <= n.(n_entity_idx) /\ DirtyQueue.kind_fits q n.(n_kind_bit);
  st_known : forall loc r n, st.(cells) !! loc = Some r -> r.(r_notifier) = Some n -> (n.(n_set) < length st.(sets))%nat
}.

(** A pair that fits is marked in the queue [q]. *)
Definition marked (q : DirtyQueue.DirtyQueue) (n : DirtyNotifier) : Prop :=
  DirtyQueue.dirty q n.(n_entity_idx) n.(n_kind_bit) = true.

(** The sets of [st'] are those of [st] with more pairs marked. *)
Definition sets_grow (st st' : Store) : Prop :=
  length st'.(sets) = length st.(sets) /\
  forall loc, match upgrade st loc, upgrade st' loc with
    | Some q, Some q' => q'.(DirtyQueue.stride) = q.(DirtyQueue.stride) /\
        forall e k, 0 <= e -> DirtyQueue.kind_fits q k -> DirtyQueue.dirty q e k = true -> DirtyQueue.dirty q' e k = true
    | None, None => True
    | _, _ => False
    end.

Lemma sets_grow_refl st : sets_grow st st.
Proof. split; [reflexivity|]. intros loc. destruct (upgrade st loc); auto. Qed.

Lemma upgrade_set_cell st loc r l : upgrade (set_cell st loc r) l = upgrade st l.
Proof. reflexivity. Qed.

Lemma upgrade_some st l q : upgrade st l = Some q -> st.(sets) !! l = Some (Some q).
Proof. unfold upgrade. destruct (_ !! _) as [[|]|]; congruence. Qed.

Lemma upgrade_set_set st loc q q0 l : upgrade st loc = Some q0 ->
  upgrade (set_set st loc q) l = if decide (l = loc) then Some q else upgrade st l.
Proof.
  intros Hl%upgrade_some. unfold upgrade, set_set. cbn [sets]. destruct (decide (l = loc)) as [->|Hne].
  - now rewrite list_lookup_insert_eq by eauto using lookup_lt_Some.
  - now rewrite list_lookup_insert_ne.
Qed.

(** Replacing a set by one with the same stride keeps the invariant. *)
Lemma set_set_ok st loc q q0 : store_ok st -> upgrade st loc = Some q0 -> DirtyQueue.queue_ok q ->
  q.(DirtyQueue.stride) = q0.(DirtyQueue.stride) -> store_ok (set_set st loc q).
Proof.
  intros [Hc Hs Hn Hk] Hq Hok Hst. split.
  - exact Hc.
  - intros l q'. rewrite (upgrade_set_set st loc q q0 l Hq). destruct (decide (l = loc)); [congruence|apply Hs].
  - intros l r n q' Hl Hr. rewrite (upgrade_set_set st loc q q0 _ Hq). destruct (decide (n.(n_set) = loc)) as [Heq|].
    + intros H'. injection H' as <-. destruct (Hn l r n q0 Hl Hr) as [Hx Hy]; [congruence|]. unfold DirtyQueue.kind_fits in *. now rewrite Hst.
    + intros Hu. now apply (Hn l r n q').
  - intros l r n Hl Hr. cbn. rewrite length_insert. exact (Hk l r n Hl Hr).
Qed.

Lemma set_cell_ok st loc r m : store_ok st -> st.(cells) !! loc = Some r ->
  (exists n b, AtomicDiffMask.rep n m b) -> store_ok (set_cell st loc (with_mask r m)).
Proof.
  intros [Hc Hs Hn Hk] Hl Hm. split.
  - intros l r'. cbn [cells set_cell]. rewrite list_lookup_insert_Some. intros [(<- & <- & _)|[_ H']]; [exact Hm|now apply (Hc l)].
  - exact Hs.
  - intros l r' n q. cbn [cells set_cell]. rewrite list_lookup_insert_Some. intros [(<- & <- & _)|[_ H']] Hr; [now apply (Hn loc r)|now apply (Hn l r')].
  - intros l r' n. cbn [cells set_cell]. rewrite list_lookup_insert_Some. intros [(<- & <- & _)|[_ H']] Hr; [exact (Hk loc r n Hl Hr)|exact (Hk l r' n H' Hr)].
Qed.

(** Notifying marks the pair, if the set is alive. *)
Lemma notify_dirty_ok st loc r n : store_ok st -> st.(cells) !! loc = Some r -> r.(r_notifier) = Some n ->
  exists st', notify_dirty n st = Ok st' /\ store_ok st' /\ st'.(cells) = st.(cells) /\ st'.(chans) = st.(chans) /\ sets_grow st st' /\
    forall q, upgrade st' n.(n_set) = Some q -> marked q n.
Proof.
  intros Hok Hl Hr. unfold notify_dirty. destruct (upgrade st n.(n_set)) as [q|] eqn:Hq.
  - destruct (st_notifiers st Hok loc r n q Hl Hr Hq) as [He Hk].
    destruct (DirtyQueue.push_ok q _ _ (st_sets st Hok _ _ Hq) He Hk) as (q' & -> & Hok' & Hst & Hd). rewrite bind_ok.
    eexists. split; [reflexivity|]. split_and!; try reflexivity.
    + now apply (set_set_ok st _ q' q).
    + split; [cbn; now rewrite length_insert|]. intros l. rewrite (upgrade_set_set st _ q' q l Hq). destruct (decide (l = n.(n_set))) as [->|Hne].
      * rewrite Hq. split; [exact Hst|]. intros e k He' Hk' Hdirty. rewrite Hd by assumption. rewrite Hdirty. apply orb_true_r.
      * destruct (upgrade st l); auto.
    + intros q0. rewrite (upgrade_set_set st _ q' q _ Hq), decide_True by reflexivity. intros H'. injection H' as <-.
      unfold marked. rewrite Hd by assumption. now rewrite !Z.eqb_refl.
  - exists st. split_and!; try reflexivity; [exact Hok|apply sets_grow_refl|congruence].
Qed.

(** A change to one receiver: its mask becomes [m], with the same notifier, and a
    mask that is not clear any more is marked in its set. *)
Definition receiver_step (loc : nat) (r : MutReceiver) (m : AtomicDiffMask.AtomicDiffMask) (st st' : Store) : Prop :=
  store_ok st' /\ st'.(cells) = <[loc := with_mask r m]> st.(cells) /\ st'.(chans) = st.(chans) /\ sets_grow st st' /\
  forall n q, AtomicDiffMask.AtomicMask_is_clear r.(r_mask) = true -> AtomicDiffMask.AtomicMask_is_clear m = false ->
    r.(r_notifier) = Some n -> upgrade st' n.(n_set) = Some q -> marked q n.

Lemma notify_step st loc r m (notify : bool) : store_ok st -> st.(cells) !! loc = Some r ->
  (exists n b, AtomicDiffMask.rep n m b) ->
  (AtomicDiffMask.AtomicMask_is_clear r.(r_mask) = true -> AtomicDiffMask.AtomicMask_is_clear m = false -> notify = true) ->
  exists st', (if notify then match r.(r_notifier) with Some n => notify_dirty n (set_cell st loc (with_mask r m)) | None => Ok (set_cell st loc (with_mask r m)) end
               else Ok (set_cell st loc (with_mask r m))) = Ok st' /\ receiver_step loc r m st st'.
Proof.
  intros Hok Hl Hm Hnot. pose proof (set_cell_ok st loc r m Hok Hl Hm) as Hok1.
  set (st1 := set_cell st loc (with_mask r m)) in *.
  assert (st1.(cells) !! loc = Some (with_mask r m)) as Hl1 by (cbn; apply list_lookup_insert_eq; eauto using lookup_lt_Some).
  assert (sets_grow st st1) as Hg by exact (sets_grow_refl st).
  destruct notify; [destruct (r.(r_notifier)) as [n|] eqn:Hr|].
  - destruct (notify_dirty_ok st1 loc _ n Hok1 Hl1 Hr) as (st' & -> & Hok' & Hcells & Hch & Hgrow & Hmark).
    exists st'. split; [reflexivity|]. split_and!; try assumption. intros n' q _ _ Hn' Hq. rewrite Hr in Hn'. injection Hn' as <-. now apply Hmark.
  - exists st1. split; [reflexivity|]. split_and!; try assumption; try reflexivity. congruence.
  - exists st1. split; [reflexivity|]. split_and!; try assumption; try reflexivity.
    intros n q Hx Hy. specialize (Hnot Hx Hy). discriminate.
Qed.

Lemma mutate_ok st loc r n m i : store_ok st -> st.(cells) !! loc = Some r -> AtomicDiffMask.rep n r.(r_mask) m -> 0 <= i < 8 * n ->
  exists st' a, mutate loc i st = Ok st' /\ AtomicDiffMask.rep n a (DiffMask.set_bit m i true) /\ receiver_step loc r a st st'.
Proof.
  intros Hok Hl Hr Hi. unfold mutate. rewrite Hl. cbn [unwrap]. rewrite bind_ok.
  destruct (AtomicDiffMask.rep_set_bit n _ m i Hr Hi) as (a & -> & Ha).
  destruct (notify_step st loc r a (DiffMask.is_clear m) Hok Hl) as (st' & Hst & Hstep); [eauto| |].
  - intros Hc _. now rewrite <- (AtomicDiffMask.rep_is_clear n _ m Hr).
  - exists st', a. split; [|now split]. exact Hst.
Qed.

Lemma or_mask_ok st loc r n m o : store_ok st -> st.(cells) !! loc = Some r -> AtomicDiffMask.rep n r.(r_mask) m ->
  DiffMask.mask_ok o -> Z.of_nat (length o.(DiffMask.mask)) = n ->
  exists st' a m', or_mask loc o st = Ok st' /\ DiffMask.or m o = Ok m' /\ AtomicDiffMask.rep n a m' /\ receiver_step loc r a st st'.
Proof.
  intros Hok Hl Hr Ho Hlen. unfold or_mask. rewrite Hl. cbn [unwrap]. rewrite bind_ok.
  destruct (AtomicDiffMask.rep_or n _ m o Hr Ho Hlen) as (a & m' & -> & Hm' & Ha). rewrite bind_ok.
  destruct (notify_step st loc r a (DiffMask.is_clear m && negb (DiffMask.is_clear o)) Hok Hl) as (st' & Hst & Hstep); [eauto| |].
  - intros Hc Hd. rewrite (AtomicDiffMask.rep_is_clear n _ m Hr) in Hc. rewrite Hc. cbn [andb].
    rewrite (AtomicDiffMask.rep_is_clear n _ m' Ha) in Hd. apply negb_true_iff, not_true_iff_false. intros Hoc.
    apply not_true_iff_false in Hd. apply Hd. destruct Hr as [_ Hmok Hml _], Ha as [_ Hmok' _ _].
    rewrite DiffMask.is_clear_spec in Hc, Hoc by assumption. rewrite DiffMask.is_clear_spec by assumption.
    destruct (DiffMask.or_ok m o Hmok Ho) as (m2 & Hm2 & _ & _ & Hh); [lia|]. rewrite Hm' in Hm2. injection Hm2 as <-.
    intros i Hi. now rewrite Hh, Hc, Hoc.
  - exists st', a, m'. split; [exact Hst|]. now split_and!.
Qed.

(** Clearing empties the mask and takes the mark of the receiver out of its set. *)
Lemma receiver_clear_ok st loc r n m nt q : store_ok st -> st.(cells) !! loc = Some r -> AtomicDiffMask.rep n r.(r_mask) m ->
  r.(r_notifier) = Some nt -> upgrade st nt.(n_set) = Some q ->
  exists st' a q', clear_mask loc st = Ok st' /\ AtomicDiffMask.rep n a (DiffMask.clear m) /\ store_ok st' /\
    st'.(cells) = <[loc := with_mask r a]> st.(cells) /\ st'.(chans) = st.(chans) /\ upgrade st' nt.(n_set) = Some q' /\
    q'.(DirtyQueue.stride) = q.(DirtyQueue.stride) /\
    forall e k, 0 <= e -> DirtyQueue.kind_fits q k -> (e, k) <> (nt.(n_entity_idx), nt.(n_kind_bit)) ->
      DirtyQueue.dirty q e k = true -> DirtyQueue.dirty q' e k = true.
Proof.
  intros Hok Hl Hr Hnt Hq. unfold clear_mask. rewrite Hl. cbn [unwrap]. rewrite bind_ok.
  destruct (AtomicDiffMask.rep_clear n _ m Hr) as (a & -> & Ha).
  assert (store_ok (set_cell st loc (with_mask r a))) as Hok1 by (apply set_cell_ok; eauto).
  destruct (st_notifiers st Hok loc r nt q Hl Hnt Hq) as [He Hk].
  destruct (negb (DiffMask.is_clear m)).
  - rewrite Hnt. unfold notify_clean. rewrite upgrade_set_cell, Hq.
    destruct (DirtyQueue.cancel_ok q _ _ (st_sets st Hok _ _ Hq) He Hk) as (Hok' & Hst & _ & Hd).
    do 2 eexists. exists (DirtyQueue.cancel q nt.(n_entity_idx) nt.(n_kind_bit)).
    split; [reflexivity|]. split; [exact Ha|]. split_and!; try reflexivity.
    + now apply (set_set_ok _ _ _ q).
    + rewrite (upgrade_set_set _ _ _ q) by exact Hq. rewrite decide_True by reflexivity. reflexivity.
    + exact Hst.
    + intros e k He' Hk' Hne Hdirty. rewrite Hd by assumption. rewrite Hdirty, andb_true_r.
      apply negb_true_iff, andb_false_iff. rewrite !Z.eqb_neq.
      destruct (decide (e = nt.(n_entity_idx))) as [->|]; [right; congruence|now left].
  - do 2 eexists. exists q. split; [reflexivity|]. split; [exact Ha|]. split_and!; auto.
Qed.
End Handlers.
