(* ===== verification/DiffTracking.v ===== *)
(** The diff handlers keep track of every change: the invariant of a
    [UserDiffHandler] with the store it shares, that each operation keeps it, and
    that [dirty_receiver_candidates] then names every registered component whose
    mask is not clear. *)

From Stdlib Require Import ZArith Lia.
From stdpp Require Import base numbers option list gmap sorting.
From S2P Require Import Prelude DiffMask DirtyQueue Kinds DiffHandlers.

(** * The bits of a word *)
Lemma count_zeros_spec n x : 0 < x < 2 ^ Z.of_nat n ->
  0 <= count_zeros n x < Z.of_nat n /\ Z.testbit x (count_zeros n x) = true /\
  forall i, 0 <= i < count_zeros n x -> Z.testbit x i = false.
Proof.
  revert x. induction n as [|n IH]; intros x Hx; [simpl in Hx; lia|].
  cbn [count_zeros]. rewrite Nat2Z.inj_succ, Z.pow_succ_r in Hx by lia. destruct (Z.odd x) eqn:Hodd.
  - split_and!; try lia. now rewrite Z.bit0_odd.
  - assert (x mod 2 = 0) as Hm by (rewrite Zmod_odd, Hodd; reflexivity).
    destruct (IH (x / 2)) as (Hr & Hb & Hlow); [split; [dlia|apply Z.div_lt_upper_bound; lia]|].
    assert (forall i, 0 <= i -> Z.testbit x (1 + i) = Z.testbit (x / 2) i) as Hshift.
    { intros i Hi. rewrite Z.div2_bits by lia. f_equal. lia. }
    split_and!; [lia|lia|now rewrite Hshift by lia|].
    intros i Hi. destruct (Z.eq_dec i 0) as [->|]; [now rewrite Z.bit0_odd|].
    replace i with (1 + (i - 1)) by lia. rewrite Hshift by lia. apply Hlow. lia.
Qed.

(** [x & (x - 1)] clears the lowest set bit. *)
Lemma clear_lowest x z : 0 < x -> 0 <= z -> Z.testbit x z = true -> (forall i, 0 <= i < z -> Z.testbit x i = false) ->
  forall i, 0 <= i -> Z.testbit (Z.land x (x - 1)) i = Z.testbit x i && negb (i =? z).
Proof.
  intros Hx Hz Hb Hlow i Hi. rewrite Z.land_spec.
  assert (x mod 2 ^ z = 0) as Hm.
  { apply Z.bits_inj'. intros j Hj. rewrite Z.bits_0. destruct (Z.lt_ge_cases j z).
    - rewrite Z.mod_pow2_bits_low by lia. apply Hlow. lia.
    - apply Z.mod_pow2_bits_high. lia. }
  pose proof (Z.pow_pos_nonneg 2 z ltac:(lia) Hz) as Hp. pose proof (Z.div_mod x (2 ^ z) ltac:(lia)) as Hdm.
  assert (Z.odd (x / 2 ^ z) = true) as Hodd by (rewrite <- Z.bit0_odd, Z.div_pow2_bits by lia; exact Hb).
  assert ((x - 1) / 2 ^ z = x / 2 ^ z - 1) as Hd.
  { symmetry. apply (Z.div_unique _ _ _ (2 ^ z - 1)); [left; lia|]. rewrite Hm in Hdm. nia. }
  destruct (Z.eqb_spec i z) as [->|Hne]; cbn [negb].
  - rewrite andb_false_r. replace (Z.testbit (x - 1) z) with false; [apply andb_false_r|].
    rewrite <- (Z.add_0_l z) at 1. rewrite <- Z.div_pow2_bits, Hd, Z.bit0_odd by lia.
    rewrite Z.odd_sub, Hodd. reflexivity.
  - rewrite andb_true_r. destruct (Z.lt_ge_cases i z); [rewrite Hlow by lia; reflexivity|].
    replace i with ((i - z - 1) + 1 + z) by lia. rewrite <- !(Z.div_pow2_bits _ z), Hd by lia.
    rewrite !Z.add_1_r, <- !Z.div2_bits by lia.
    replace ((x / 2 ^ z - 1) / 2) with (x / 2 ^ z / 2); [apply andb_diag|].
    apply Z.odd_spec in Hodd as [v ->]. dlia.
Qed.

Lemma word_bits_ok fuel j w : 0 <= w < 2 ^ 64 -> 0 <= j <= 64 -> (forall i, 0 <= i < j -> Z.testbit w i = false) ->
  64 - j <= Z.of_nat fuel ->
  exists l, word_bits fuel w = Ok l /\ forall b, b ∈ l <-> 0 <= b < 64 /\ Z.testbit w b = true.
Proof.
  revert j w. induction fuel as [|fuel IH]; intros j w Hw Hj Hlow Hf; cbn [word_bits].
  all: destruct (Z.eqb_spec w 0) as [->|Hne].
  1, 3: exists []; split; [reflexivity|]; intros b; rewrite Z.bits_0; split; [intros Hb; now apply elem_of_nil in Hb|intros [_ Hb]; discriminate].
  - exfalso. pose proof (Z.bit_log2 w ltac:(lia)) as Hl. rewrite Hlow in Hl; [discriminate|].
    split; [apply Z.log2_nonneg|]. apply Z.lt_le_trans with 64; [apply Z.log2_lt_pow2; lia|lia].
  - destruct (count_zeros_spec 64 w) as (Hr & Hb & Hz); [lia|]. set (z := count_zeros 64 w) in *.
    pose proof (clear_lowest w z ltac:(lia) ltac:(lia) Hb Hz) as Hcl.
    assert (j <= z) as Hjz by (destruct (Z.lt_ge_cases z j); [rewrite Hlow in Hb by lia; discriminate|lia]).
    destruct (IH (z + 1) (Z.land w (w - 1))) as (l & -> & Hl); [apply land_range; lia|lia| |lia|].
    + intros i Hi. rewrite Hcl by lia. destruct (Z.eqb_spec i z); [apply andb_false_r|]. rewrite Hz by lia. reflexivity.
    + rewrite bind_ok. eexists. split; [reflexivity|]. intros b. rewrite elem_of_cons, Hl. split.
      * intros [->|[Hb1 Hb2]]; [auto with lia|]. rewrite Hcl in Hb2 by lia. apply andb_true_iff in Hb2 as [Hb2 _]. auto.
      * intros [Hb1 Hb2]. destruct (Z.eq_dec b z) as [->|Hbz]; [now left|]. right. split; [exact Hb1|].
        rewrite Hcl, Hb2 by lia. now rewrite (proj2 (Z.eqb_neq _ _)).
Qed.

Lemma word_bits_word w : 0 <= w < 2 ^ 64 ->
  exists l, word_bits 64 w = Ok l /\ forall b, b ∈ l <-> 0 <= b < 64 /\ Z.testbit w b = true.
Proof. intros Hw. apply (word_bits_ok 64 0 w Hw); lia. Qed.

(** * The invariant of a user's handler *)
Section Tracking.
Context {E K A B : Type} {eqE : EqDecision E} {cE : Countable E} {eqK : EqDecision K} {cK : Countable K}
  {eqA : EqDecision A} {cA : Countable A}.

Abbreviation Store := (@Store A eqA cA).
Abbreviation User := (@UserDiffHandler E K eqE cE eqK cK).
Abbreviation Global := (@GlobalDiffHandler E K eqE cE eqK cK).

(** The kinds a handler can be asked about: one bit each, and every bit has a
    place in the words of the queue. *)
Record kinds_fit (g : Global) (q : DirtyQueue.DirtyQueue) : Prop := {
  kf_fits : forall k b, kind_bit g k = Some b -> DirtyQueue.kind_fits q b;
  kf_inj : forall k k' b, kind_bit g k = Some b -> kind_bit g k' = Some b -> k = k';
  kf_stride : q.(DirtyQueue.stride) <= 1024
}.

(** The receiver of a registered component points at the component's own pair,
    and a mask that is not clear is marked there. *)
Definition receiver_tracked (g : Global) (self : User) (st : Store) (q : DirtyQueue.DirtyQueue) (e : E) (k : K) (loc : nat) : Prop :=
  exists idx b r, self.(entity_to_index) !! e = Some idx /\ kind_bit g k = Some b /\
    self.(kinds_by_bit) !! Z.to_nat b = Some (Some k) /\ st.(cells) !! loc = Some r /\
    r.(r_notifier) = Some (mkNotifier idx b self.(dirty_set)) /\
    (AtomicDiffMask.AtomicMask_is_clear r.(r_mask) = false -> DirtyQueue.dirty q idx b = true).

(** At least as many registrations are counted as components are registered. *)
Definition counted (self : User) (e : E) (idx : Z) : Prop :=
  exists c ks, self.(components_per_entity) !! idx = Some c /\ Z.of_nat (size (ks : gset K)) <= c /\
    forall k loc, self.(receivers) !! (e, k) = Some loc -> k ∈ ks.

Record user_ok (g : Global) (self : User) (st : Store) (q : DirtyQueue.DirtyQueue) : Prop := {
  uo_store : store_ok st;
  uo_set : upgrade st self.(dirty_set) = Some q;
  uo_kinds : kinds_fit g q;
  uo_table : forall e idx, self.(entity_to_index) !! e = Some idx <->
    0 <= idx /\ self.(index_to_entity) !! Z.to_nat idx = Some (Some e);
  uo_gen : KeyGenerator32.gen_ok ((map_to_list self.(entity_to_index)).*2) self.(key_gen);
  uo_bits : forall i k, self.(kinds_by_bit) !! i = Some (Some k) -> kind_bit g k = Some (Z.of_nat i);
  uo_tracked : forall e k loc, self.(receivers) !! (e, k) = Some loc -> receiver_tracked g self st q e k loc;
  uo_nonneg : forall idx c, self.(components_per_entity) !! idx = Some c -> 0 <= c;
  uo_counted : forall e idx, self.(entity_to_index) !! e = Some idx -> counted self e idx
}.

(** Two components with the same pair are the same. *)
Lemma pair_component g self st q e k e' k' idx b : user_ok g self st q ->
  self.(entity_to_index) !! e = Some idx -> kind_bit g k = Some b ->
  self.(entity_to_index) !! e' = Some idx -> kind_bit g k' = Some b -> (e, k) = (e', k').
Proof.
  intros Hok He Hk He' Hk'. f_equal.
  - apply (uo_table g self st q Hok) in He as [_ He], He' as [_ He']. congruence.
  - exact (kf_inj _ _ (uo_kinds g self st q Hok) _ _ _ Hk Hk').
Qed.

Lemma uo_queue g self st q : user_ok g self st q -> DirtyQueue.queue_ok q.
Proof. intros Hok. exact (st_sets st (uo_store _ _ _ _ Hok) _ _ (uo_set _ _ _ _ Hok)). Qed.

Lemma kinds_fit_stride g q q' : kinds_fit g q -> q'.(DirtyQueue.stride) = q.(DirtyQueue.stride) -> kinds_fit g q'.
Proof. intros [Hf Hi Hs] Hst. split; [|exact Hi|lia]. intros k b Hk. unfold DirtyQueue.kind_fits. rewrite Hst. now apply (Hf k). Qed.

(** Changing one receiver, whichever it is, keeps the invariant. *)
Lemma receiver_step_ok g self st st' q loc r m : user_ok g self st q -> st.(cells) !! loc = Some r ->
  receiver_step loc r m st st' ->
  exists q', user_ok g self st' q' /\ q'.(DirtyQueue.stride) = q.(DirtyQueue.stride).
Proof.
  intros Hok Hl (Hst' & Hcells & _ & [_ Hgrow] & Hmark). pose proof (uo_set _ _ _ _ Hok) as Hset.
  specialize (Hgrow self.(dirty_set)) as Hg. rewrite Hset in Hg. destruct (upgrade st' self.(dirty_set)) as [q'|] eqn:Hq'; [|contradiction].
  destruct Hg as [Hstride Hmono]. exists q'. split; [|exact Hstride]. split; try apply Hok; try assumption.
  - exact (kinds_fit_stride _ _ _ (uo_kinds _ _ _ _ Hok) Hstride).
  - intros e k loc' Hreg. destruct (uo_tracked _ _ _ _ Hok e k loc' Hreg) as (idx & b & r' & He & Hk & Hb & Hc & Hn & Hd).
    assert (0 <= idx /\ DirtyQueue.kind_fits q b) as [Hidx Hfits].
    { split; [now apply (uo_table _ _ _ _ Hok) in He as [? _]|exact (kf_fits _ _ (uo_kinds _ _ _ _ Hok) _ _ Hk)]. }
    unfold receiver_tracked. rewrite Hcells. destruct (decide (loc' = loc)) as [->|Hne].
    + rewrite Hl in Hc. injection Hc as <-. exists idx, b, (with_mask r m).
      split_and!; try assumption; [apply list_lookup_insert_eq; eauto using lookup_lt_Some|]. cbn [r_mask with_mask]. intros Hm.
      destruct (AtomicDiffMask.AtomicMask_is_clear r.(r_mask)) eqn:Hcl; [|now apply Hmono, Hd].
      specialize (Hmark _ q' eq_refl Hm Hn). apply Hmark. exact Hq'.
    + exists idx, b, r'. split_and!; try assumption; [now rewrite list_lookup_insert_ne|]. intros Hm. now apply Hmono, Hd.
Qed.

(** Clearing the mask of a registered component keeps the invariant. *)
Lemma User_clear_ok g self st q e k loc r n m : user_ok g self st q -> self.(receivers) !! (e, k) = Some loc ->
  st.(cells) !! loc = Some r -> AtomicDiffMask.rep n r.(r_mask) m ->
  exists st' a q', User_clear_diff_mask self e k st = Ok st' /\ user_ok g self st' q' /\
    q'.(DirtyQueue.stride) = q.(DirtyQueue.stride) /\ AtomicDiffMask.rep n a (DiffMask.clear m) /\
    st'.(cells) = <[loc := with_mask r a]> st.(cells) /\ st'.(chans) = st.(chans).
Proof.
  intros Hok Hreg Hl Hr. destruct (uo_tracked _ _ _ _ Hok e k loc Hreg) as (idx & b & r' & He & Hk & Hb & Hc & Hn & Hd).
  rewrite Hl in Hc. injection Hc as <-. pose proof (uo_set _ _ _ _ Hok) as Hset.
  destruct (receiver_clear_ok st loc r n m _ q (uo_store _ _ _ _ Hok) Hl Hr Hn Hset) as (st' & a & q' & Hcl & Ha & Hok' & Hcells & Hch & Hq' & Hst & Hkeep).
  exists st', a, q'. unfold User_clear_diff_mask. rewrite Hreg. cbn [unwrap]. rewrite bind_ok.
  split_and!; try assumption. split; try apply Hok; try assumption.
  - exact (kinds_fit_stride _ _ _ (uo_kinds _ _ _ _ Hok) Hst).
  - intros e1 k1 loc1 Hreg1. destruct (uo_tracked _ _ _ _ Hok e1 k1 loc1 Hreg1) as (idx1 & b1 & r1 & He1 & Hk1 & Hb1 & Hc1 & Hn1 & Hd1).
    unfold receiver_tracked. rewrite Hcells. destruct (decide (loc1 = loc)) as [->|Hne].
    + rewrite Hl in Hc1. injection Hc1 as <-. exists idx1, b1, (with_mask r a).
      split_and!; try assumption; [apply list_lookup_insert_eq; eauto using lookup_lt_Some|]. cbn [r_mask with_mask].
      rewrite (AtomicDiffMask.rep_is_clear _ _ _ Ha). intros Hf. apply not_true_iff_false in Hf. destruct Hf.
      apply DiffMask.is_clear_spec; [exact (AtomicDiffMask.rep_mask _ _ _ Ha)|]. intros. apply DiffMask.clear_has.
    + exists idx1, b1, r1. split_and!; try assumption; [now rewrite list_lookup_insert_ne|]. intros Hm. apply Hkeep.
      * now apply (uo_table _ _ _ _ Hok) in He1 as [? _].
      * exact (kf_fits _ _ (uo_kinds _ _ _ _ Hok) _ _ Hk1).
      * cbn. intros Heq. injection Heq as -> ->. destruct Hne.
        pose proof (pair_component _ _ _ _ e1 k1 e k idx b Hok He1 Hk1 He Hk) as Hp. injection Hp as -> ->. congruence.
      * now apply Hd1.
Qed.

(** ** Registering *)
Lemma grow_length {T} (l : list (option T)) slot : (slot < length (grow l slot))%nat.
Proof. unfold grow. destruct (decide _); [rewrite length_app, length_replicate|]; lia. Qed.

Lemma grow_lookup {T} (l : list (option T)) slot i x : grow l slot !! i = Some (Some x) <-> l !! i = Some (Some x).
Proof.
  unfold grow. destruct (decide _); [|reflexivity]. destruct (decide (i < length l)%nat).
  - now rewrite lookup_app_l.
  - rewrite lookup_app_r, (lookup_ge_None_2 l) by lia. split; [|discriminate]. intros Hr%lookup_replicate. now destruct Hr.
Qed.

(** A receiver the component can be registered with: a new one, or the one that
    is registered for it already. *)
Definition joinable (self : User) (st : Store) (e : E) (k : K) (loc : nat) : Prop :=
  (exists r, st.(cells) !! loc = Some r /\ r.(r_notifier) = None /\ AtomicDiffMask.AtomicMask_is_clear r.(r_mask) = true /\
     forall e' k', self.(receivers) !! (e', k') <> Some loc) \/
  self.(receivers) !! (e, k) = Some loc.

Lemma allocate_known now e self (st : Store) idx : self.(entity_to_index) !! e = Some idx ->
  @allocate_entity_index E K A _ _ _ _ _ _ now e self st = (idx, self, st).
Proof. intros He. unfold allocate_entity_index. now rewrite He. Qed.

(** A new index: the entity gets it, nothing else changes. *)
Lemma allocate_new now g self st q e : user_ok g self st q -> self.(entity_to_index) !! e = None ->
  self.(key_gen).(KeyGenerator32.next_new_key) + 1 < 2 ^ 32 ->
  exists idx table gen q', 0 <= idx /\
    @allocate_entity_index E K A _ _ _ _ _ _ now e self st =
      (idx, {| receivers := self.(receivers); entity_to_index := <[e := idx]> self.(entity_to_index);
               index_to_entity := table; components_per_entity := self.(components_per_entity);
               key_gen := gen; kinds_by_bit := self.(kinds_by_bit); dirty_set := self.(dirty_set) |},
       set_set st self.(dirty_set) q') /\
    (forall e' idx', <[e := idx]> self.(entity_to_index) !! e' = Some idx' <->
       0 <= idx' /\ table !! Z.to_nat idx' = Some (Some e')) /\
    KeyGenerator32.gen_ok ((map_to_list (<[e := idx]> self.(entity_to_index))).*2) gen /\
    DirtyQueue.queue_ok q' /\ q'.(DirtyQueue.stride) = q.(DirtyQueue.stride) /\
    forall e' k', 0 <= e' -> DirtyQueue.kind_fits q k' -> DirtyQueue.dirty q' e' k' = DirtyQueue.dirty q e' k'.
Proof.
  intros Hok He Hb. unfold allocate_entity_index. rewrite He.
  destruct (KeyGenerator32.generate now self.(key_gen)) as [idx gen] eqn:Hgen.
  destruct (KeyGenerator32.generate_ok now _ _ _ _ (uo_gen _ _ _ _ Hok) Hb Hgen) as (Hfresh & Hgok & _).
  pose proof (uo_set _ _ _ _ Hok) as Hset. rewrite Hset.
  assert (0 <= idx) as Hidx.
  { destruct Hgok as (_ & _ & Hf). cbn in Hf. apply Forall_cons in Hf as [Hf _]. lia. }
  assert (forall e' idx', self.(entity_to_index) !! e' = Some idx' -> idx' <> idx) as Hne.
  { intros e' idx' He' ->. apply Hfresh. apply list_elem_of_fmap. exists (e', idx). split; [reflexivity|]. now apply elem_of_map_to_list. }
  destruct (DirtyQueue.ensure_capacity_ok q idx (uo_queue _ _ _ _ Hok) Hidx) as (Hqok & Hst & _ & _ & Hbits).
  do 4 eexists. split; [exact Hidx|]. split; [reflexivity|]. split_and!; [| |exact Hqok|exact Hst|].
  - intros e' idx'. pose proof (grow_length self.(index_to_entity) (Z.to_nat idx)) as Hlen.
    destruct (decide (e' = e)) as [->|Hee].
    + rewrite lookup_insert_eq. split.
      * intros Heq. injection Heq as <-. split; [exact Hidx|]. now apply list_lookup_insert_eq.
      * intros [Hi Ht]. destruct (decide (idx' = idx)) as [->|Hii]; [reflexivity|].
        rewrite list_lookup_insert_ne, grow_lookup in Ht by lia.
        pose proof (proj2 (uo_table _ _ _ _ Hok e idx') (conj Hi Ht)). congruence.
    + rewrite lookup_insert_ne by congruence. rewrite (uo_table _ _ _ _ Hok). split; intros [Hi Ht]; (split; [exact Hi|]).
      * pose proof (Hne e' idx' (proj2 (uo_table _ _ _ _ Hok e' idx') (conj Hi Ht))).
        rewrite list_lookup_insert_ne by lia. now apply grow_lookup.
      * destruct (decide (idx' = idx)) as [->|Hii].
        -- rewrite list_lookup_insert_eq in Ht by exact Hlen. congruence.
        -- rewrite list_lookup_insert_ne in Ht by lia. now apply grow_lookup in Ht.
  - destruct Hgok as (Hp & Hnd & Hf). assert ((map_to_list (<[e := idx]> self.(entity_to_index))).*2 ≡ₚ idx :: (map_to_list self.(entity_to_index)).*2) as Hperm
      by (rewrite map_to_list_insert by exact He; reflexivity).
    split; [exact Hp|]. now rewrite Hperm.
  - intros e' k' He' Hk'. unfold DirtyQueue.dirty, DirtyQueue.bit_of. rewrite Hst, Hbits; [reflexivity|].
    pose proof (uo_queue _ _ _ _ Hok) as [Hs _ _ _ _]. apply (DirtyQueue.slot_of q.(DirtyQueue.stride) e' k'); [lia|lia|exact Hk'].
Qed.

(** The state after [allocate_entity_index], whether the entity had an index or not. *)
Record allocated (g : Global) (self : User) (st : Store) (q : DirtyQueue.DirtyQueue) (e : E)
    (idx : Z) (self1 : User) (st1 : Store) (q1 : DirtyQueue.DirtyQueue) : Prop := {
  al_receivers : self1.(receivers) = self.(receivers);
  al_kinds : self1.(kinds_by_bit) = self.(kinds_by_bit);
  al_set : self1.(dirty_set) = self.(dirty_set);
  al_counts : self1.(components_per_entity) = self.(components_per_entity);
  al_index : self1.(entity_to_index) !! e = Some idx;
  al_others : forall e', e' <> e -> self1.(entity_to_index) !! e' = self.(entity_to_index) !! e';
  al_known : forall i, self.(entity_to_index) !! e = Some i -> i = idx;
  al_table : forall e' i, self1.(entity_to_index) !! e' = Some i <-> 0 <= i /\ self1.(index_to_entity) !! Z.to_nat i = Some (Some e');
  al_gen : KeyGenerator32.gen_ok ((map_to_list self1.(entity_to_index)).*2) self1.(key_gen);
  al_store : store_ok st1;
  al_cells : st1.(cells) = st.(cells);
  al_chans : st1.(chans) = st.(chans);
  al_queue : upgrade st1 self.(dirty_set) = Some q1;
  al_stride : q1.(DirtyQueue.stride) = q.(DirtyQueue.stride);
  al_dirty : forall e' k', 0 <= e' -> DirtyQueue.kind_fits q k' -> DirtyQueue.dirty q1 e' k' = DirtyQueue.dirty q e' k';
  al_count : exists ks : gset K, Z.of_nat (size ks) <= default 0 (self.(components_per_entity) !! idx) /\
    forall k loc, self.(receivers) !! (e, k) = Some loc -> k ∈ ks
}.

Lemma allocate_ok now g self st q e : user_ok g self st q ->
  self.(key_gen).(KeyGenerator32.next_new_key) + 1 < 2 ^ 32 ->
  exists idx self1 st1 q1, allocate_entity_index now e self st = (idx, self1, st1) /\ allocated g self st q e idx self1 st1 q1.
Proof.
  intros Hok Hb. destruct (self.(entity_to_index) !! e) as [idx|] eqn:He.
  - exists idx, self, st, q. rewrite (allocate_known _ _ _ _ _ He). split; [reflexivity|]. split; try assumption; try apply Hok; try reflexivity; try (intros; congruence).
    destruct (uo_counted _ _ _ _ Hok e idx He) as (c & ks & Hc & Hks & Hin). exists ks. rewrite Hc. now split.
  - destruct (allocate_new now g self st q e Hok He Hb) as (idx & table & gen & q' & Hidx & Heq & Htab & Hgen & Hqok & Hst & Hd).
    do 3 eexists. exists q'. split; [exact Heq|]. pose proof (uo_set _ _ _ _ Hok) as Hset.
    split; try reflexivity; try assumption; cbn [entity_to_index].
    + apply lookup_insert_eq.
    + intros e' Hne. now apply lookup_insert_ne.
    + intros i Hi. congruence.
    + now apply (set_set_ok st _ q' q); [apply Hok|..].
    + rewrite (upgrade_set_set st _ q' q _ Hset). now rewrite decide_True by reflexivity.
    + exists ∅. rewrite size_empty. split.
      * destruct (_ !! idx) as [c|] eqn:Hc; cbn; [|lia]. exact (uo_nonneg _ _ _ _ Hok _ _ Hc).
      * intros k loc Hreg. destruct (uo_tracked _ _ _ _ Hok e k loc Hreg) as (i & b & r & Hi & _). congruence.
Qed.

(** The reverse table after the kind's bit has been entered. *)
Lemma kind_table g self st q k b : user_ok g self st q -> kind_bit g k = Some b ->
  exists slot, grow self.(kinds_by_bit) (Z.to_nat b) !! Z.to_nat b = Some slot /\
    let table := match slot with None => <[Z.to_nat b := Some k]> (grow self.(kinds_by_bit) (Z.to_nat b)) | Some _ => grow self.(kinds_by_bit) (Z.to_nat b) end in
    table !! Z.to_nat b = Some (Some k) /\
    forall i k', table !! i = Some (Some k') <-> self.(kinds_by_bit) !! i = Some (Some k') \/ (i = Z.to_nat b /\ k' = k).
Proof.
  intros Hok Hk. pose proof (grow_length self.(kinds_by_bit) (Z.to_nat b)) as Hlen.
  assert (0 <= b) as Hb by exact (proj1 (kf_fits _ _ (uo_kinds _ _ _ _ Hok) _ _ Hk)).
  destruct (lookup_lt_is_Some_2 _ _ Hlen) as [slot Hslot]. exists slot. split; [exact Hslot|]. destruct slot as [k0|]; cbn zeta.
  - assert (k0 = k) as ->.
    { apply grow_lookup in Hslot as Hk0. apply (uo_bits _ _ _ _ Hok) in Hk0. rewrite Z2Nat.id in Hk0 by exact Hb.
      exact (kf_inj _ _ (uo_kinds _ _ _ _ Hok) _ _ _ Hk0 Hk). }
    split; [exact Hslot|]. intros i k'. rewrite grow_lookup. split; [now left|]. intros [Hi|[-> ->]]; [exact Hi|]. now apply grow_lookup in Hslot.
  - split; [now apply list_lookup_insert_eq|]. intros i k'. destruct (decide (i = Z.to_nat b)) as [->|Hne].
    + rewrite list_lookup_insert_eq by exact Hlen. split; [intros Heq; injection Heq as ->; now right|].
      intros [Hi|[_ ->]]; [|reflexivity]. apply (grow_lookup _ (Z.to_nat b)) in Hi. congruence.
    + rewrite list_lookup_insert_ne by congruence. rewrite grow_lookup. split; [now left|]. intros [Hi|[? _]]; [exact Hi|contradiction].
Qed.

(** The notifier of the component's receiver, new or kept. *)
Lemma attach_ok g self st q e k b loc idx self1 st1 q1 : user_ok g self st q -> kind_bit g k = Some b ->
  joinable self st e k loc -> allocated g self st q e idx self1 st1 q1 ->
  exists st3 r3, attach_notifier loc (mkNotifier idx b self1.(dirty_set)) st1 = Ok st3 /\ store_ok st3 /\
    upgrade st3 self.(dirty_set) = Some q1 /\ st3.(cells) !! loc = Some r3 /\
    r3.(r_notifier) = Some (mkNotifier idx b self.(dirty_set)) /\
    (AtomicDiffMask.AtomicMask_is_clear r3.(r_mask) = false -> DirtyQueue.dirty q idx b = true) /\
    (forall e' k' loc', self.(receivers) !! (e', k') = Some loc' -> st3.(cells) !! loc' = st.(cells) !! loc') /\
    (forall l, r_mask <$> st3.(cells) !! l = r_mask <$> st.(cells) !! l).
Proof.
  intros Hok Hk Hjoin Hal. pose proof (al_store _ _ _ _ _ _ _ _ _ Hal) as Hs1. pose proof (al_cells _ _ _ _ _ _ _ _ _ Hal) as Hc1.
  pose proof (al_queue _ _ _ _ _ _ _ _ _ Hal) as Hq1. unfold attach_notifier. rewrite Hc1, (al_set _ _ _ _ _ _ _ _ _ Hal).
  assert (0 <= idx) as Hidx by exact (proj1 (proj1 (al_table _ _ _ _ _ _ _ _ _ Hal e idx) (al_index _ _ _ _ _ _ _ _ _ Hal))).
  destruct Hjoin as [(r & Hl & Hn & Hcl & Hnot)|Hreg].
  - rewrite Hl. cbn [unwrap]. rewrite bind_ok, Hn. set (r3 := {| r_mask := r.(r_mask); r_notifier := Some (mkNotifier idx b self.(dirty_set)) |}).
    exists (set_cell st1 loc r3), r3. split; [reflexivity|]. split_and!; try assumption; try reflexivity.
    + destruct Hs1 as [Hc Hs Hnt Hkn]. split; [|exact Hs| |].
      * intros l r'. cbn [cells set_cell]. rewrite Hc1, list_lookup_insert_Some. intros [(<- & <- & _)|[_ Hr']].
        -- exact (st_cells st (uo_store _ _ _ _ Hok) loc r Hl).
        -- exact (st_cells st (uo_store _ _ _ _ Hok) l r' Hr').
      * intros l r' n q'. cbn [cells set_cell]. rewrite list_lookup_insert_Some. intros [(<- & <- & _)|[_ Hr']] Hrn Hu.
        -- cbn in Hrn. injection Hrn as <-. cbn in *. rewrite upgrade_set_cell, Hq1 in Hu. injection Hu as <-. split; [exact Hidx|].
           unfold DirtyQueue.kind_fits. rewrite (al_stride _ _ _ _ _ _ _ _ _ Hal). exact (kf_fits _ _ (uo_kinds _ _ _ _ Hok) _ _ Hk).
        -- exact (Hnt l r' n q' Hr' Hrn Hu).
      * intros l r' n. cbn [cells set_cell]. rewrite list_lookup_insert_Some. intros [(<- & <- & _)|[_ Hr']] Hrn; [|exact (Hkn l r' n Hr' Hrn)].
        cbn in Hrn. injection Hrn as <-. cbn. apply upgrade_some in Hq1. eauto using lookup_lt_Some.
    + cbn. rewrite Hc1. apply list_lookup_insert_eq. eauto using lookup_lt_Some.
    + cbn. congruence.
    + intros e' k' loc' Hreg. cbn. rewrite Hc1. apply list_lookup_insert_ne. intros ->. now apply (Hnot e' k').
    + intros l. cbn. rewrite Hc1. destruct (decide (l = loc)) as [->|Hne].
      * rewrite list_lookup_insert_eq by eauto using lookup_lt_Some. now rewrite Hl.
      * now rewrite list_lookup_insert_ne.
  - destruct (uo_tracked _ _ _ _ Hok e k loc Hreg) as (idx0 & b0 & r & He0 & Hk0 & _ & Hl & Hn & Hd).
    apply (al_known _ _ _ _ _ _ _ _ _ Hal) in He0 as ->. assert (b0 = b) as -> by congruence.
    rewrite Hl. cbn [unwrap]. rewrite bind_ok, Hn. exists st1, r. split; [reflexivity|]. rewrite Hc1. now split_and!.
Qed.

Lemma User_register_ok now g self st0 st q address e k b loc : user_ok g self st q -> kind_bit g k = Some b ->
  Global_receiver address e k g st0 = Ok (Some loc, st) -> joinable self st e k loc ->
  self.(key_gen).(KeyGenerator32.next_new_key) + 1 < 2 ^ 32 ->
  (forall idx c, self.(components_per_entity) !! idx = Some c -> c + 1 < 2 ^ 32) ->
  exists self' st' q', User_register_component g now address e k self st0 = Ok (self', st') /\ user_ok g self' st' q' /\
    q'.(DirtyQueue.stride) = q.(DirtyQueue.stride) /\ self'.(receivers) = <[(e, k) := loc]> self.(receivers) /\
    forall l, r_mask <$> st'.(cells) !! l = r_mask <$> st.(cells) !! l.
Proof.
  intros Hok Hk Hrecv Hjoin Hgen Hcount. unfold User_register_component. rewrite Hrecv, bind_ok, Hk.
  destruct (allocate_ok now g self st q e Hok Hgen) as (idx & self1 & st1 & q1 & Heq & Hal). rewrite Heq.
  destruct (kind_table g self st q k b Hok Hk) as (slot & Hslot & Htk & Htab). rewrite (al_kinds _ _ _ _ _ _ _ _ _ Hal), Hslot. cbn [unwrap]. rewrite bind_ok.
  set (table := match slot with None => _ | Some _ => _ end) in *.
  destruct (attach_ok g self st q e k b loc idx self1 st1 q1 Hok Hk Hjoin Hal) as (st3 & r3 & -> & Hs3 & Hq3 & Hl3 & Hn3 & Hd3 & Hothers & Hmasks).
  rewrite bind_ok. destruct Hal as [Hre Hki Hse Hco Hin Hot Hkn Hta Hge _ _ _ _ Hst Hdi (ks & Hks & Hksin)].
  rewrite Hco. rewrite uadd_ok by (destruct (_ !! idx) eqn:Hc; cbn; [now apply (Hcount idx)|lia]). rewrite bind_ok.
  do 2 eexists. exists q1. split; [reflexivity|]. split; [|split; [exact Hst|split; [cbn; now rewrite Hre|exact Hmasks]]].
  split; cbn [receivers entity_to_index index_to_entity components_per_entity key_gen kinds_by_bit dirty_set]; rewrite ?Hse; try assumption.
  - exact (kinds_fit_stride _ _ _ (uo_kinds _ _ _ _ Hok) Hst).
  - intros i k' [Hi|[-> ->]]%Htab; [now apply (uo_bits _ _ _ _ Hok)|]. rewrite Z2Nat.id; [exact Hk|].
    exact (proj1 (kf_fits _ _ (uo_kinds _ _ _ _ Hok) _ _ Hk)).
  - rewrite Hre. intros e' k' loc'. rewrite lookup_insert_Some. unfold receiver_tracked. cbn [entity_to_index kinds_by_bit dirty_set]. rewrite ?Hse.
    intros [[Heq' <-]|[Hne Hreg]].
    + injection Heq' as <- <-. exists idx, b, r3. split_and!; try assumption. intros Hm. rewrite Hdi; [now apply Hd3| |exact (kf_fits _ _ (uo_kinds _ _ _ _ Hok) _ _ Hk)].
      now apply Hta in Hin as [? _].
    + destruct (uo_tracked _ _ _ _ Hok e' k' loc' Hreg) as (i & b' & r' & Hi & Hk' & Hb' & Hl' & Hn' & Hd').
      exists i, b', r'. split_and!; try assumption.
      * destruct (decide (e' = e)) as [->|Hee]; [apply Hkn in Hi as ->; exact Hin|now rewrite Hot].
      * apply Htab. now left.
      * now rewrite (Hothers e' k').
      * intros Hm. rewrite Hdi; [now apply Hd'|now apply (uo_table _ _ _ _ Hok) in Hi as [? _]|exact (kf_fits _ _ (uo_kinds _ _ _ _ Hok) _ _ Hk')].
  - intros i c. rewrite lookup_insert_Some. intros [[_ <-]|[_ Hc]]; [|now apply (uo_nonneg _ _ _ _ Hok i)].
    destruct (_ !! idx) eqn:Hc; cbn; [|lia]. pose proof (uo_nonneg _ _ _ _ Hok _ _ Hc). lia.
  - intros e' i Hi. unfold counted. cbn [components_per_entity receivers]. rewrite Hre. destruct (decide (e' = e)) as [->|Hee].
    + assert (i = idx) as -> by congruence. rewrite lookup_insert_eq. eexists. exists ({[ k ]} ∪ ks). split; [reflexivity|]. split.
      * rewrite size_union_alt, size_singleton. pose proof (subseteq_size (ks ∖ {[ k ]}) ks ltac:(intros x Hx; now apply elem_of_difference in Hx as [? _])). lia.
      * intros k' loc'. rewrite lookup_insert_Some, elem_of_union, elem_of_singleton. intros [[Heq' _]|[_ Hreg]].
        -- injection Heq' as <-. now left.
        -- right. exact (Hksin k' loc' Hreg).
    + rewrite Hot in Hi by exact Hee. destruct (uo_counted _ _ _ _ Hok e' i Hi) as (c & ks' & Hc & Hks' & Hin').
      exists c, ks'. split_and!; [|exact Hks'|].
      * rewrite lookup_insert_ne; [exact Hc|]. intros ->. pose proof Hi as Hi'. rewrite <- Hot in Hi' by exact Hee.
        apply Hta in Hi' as [_ Hi'], Hin as [_ Hin]. congruence.
      * intros k' loc'. rewrite lookup_insert_ne by congruence. apply Hin'.
Qed.

(** ** Deregistering a registered component *)
Lemma cancel_user_ok g self st q e k idx b : user_ok g self st q ->
  self.(entity_to_index) !! e = Some idx -> kind_bit g k = Some b ->
  let q' := DirtyQueue.cancel q idx b in
  store_ok (set_set st self.(dirty_set) q') /\ q'.(DirtyQueue.stride) = q.(DirtyQueue.stride) /\
  forall e' k' loc, (e', k') <> (e, k) -> self.(receivers) !! (e', k') = Some loc -> receiver_tracked g self (set_set st self.(dirty_set) q') q' e' k' loc.
Proof.
  intros Hok He Hk q'. pose proof (kf_fits _ _ (uo_kinds _ _ _ _ Hok) _ _ Hk) as Hf.
  assert (0 <= idx) as Hidx by now apply (uo_table _ _ _ _ Hok) in He as [? _].
  destruct (DirtyQueue.cancel_ok q idx b (uo_queue _ _ _ _ Hok) Hidx Hf) as (Hqok & Hst & _ & Hd).
  split_and!; [now apply (set_set_ok st _ _ q); [apply Hok|apply (uo_set _ _ _ _ Hok)|..]|exact Hst|].
  intros e' k' loc Hne Hreg. destruct (uo_tracked _ _ _ _ Hok e' k' loc Hreg) as (i & b' & r & Hi & Hk' & Hb' & Hl & Hn & Hd').
  exists i, b', r. split_and!; try assumption. intros Hm. unfold q'. rewrite Hd, (Hd' Hm), andb_true_r.
  - apply negb_true_iff, andb_false_iff. rewrite !Z.eqb_neq. destruct (decide (i = idx)) as [->|]; [right|now left]. intros ->.
    apply Hne. exact (pair_component _ _ _ _ e' k' e k idx b Hok Hi Hk' He Hk).
  - now apply (uo_table _ _ _ _ Hok) in Hi as [? _].
  - exact (kf_fits _ _ (uo_kinds _ _ _ _ Hok) _ _ Hk').
Qed.

(** The last registration of an entity: no component of it is left. *)
Lemma last_component self e k loc idx (c : Z) (ks : gset K) : @receivers E K _ _ _ _ self !! (e, k) = Some loc ->
  Z.of_nat (size ks) <= c -> (forall k' loc', self.(receivers) !! (e, k') = Some loc' -> k' ∈ ks) ->
  self.(components_per_entity) !! idx = Some c ->
  Z.of_nat (size (ks ∖ {[ k ]})) <= c - 1 /\ 1 <= c /\
  (c = 1 -> forall k' loc', delete (e, k) self.(receivers) !! (e, k') = Some loc' -> False).
Proof.
  intros Hreg Hks Hin _. pose proof (Hin k loc Hreg) as Hk.
  assert (size ks = 1 + size (ks ∖ {[ k ]}))%nat as Hsz.
  { rewrite <- (size_singleton (C := gset K) k), <- size_union_alt. f_equal. apply leibniz_equiv. intros x.
    rewrite elem_of_union, elem_of_singleton. split; [now right|]. intros [->|Hx]; assumption. }
  split; [lia|]. split; [lia|]. intros -> k' loc' Hr. apply lookup_delete_Some in Hr as [Hne Hr].
  assert (size (ks ∖ {[ k ]}) = 0)%nat as H0 by lia. apply size_empty_inv in H0.
  apply (not_elem_of_empty (C := gset K) k'), (H0 k'), elem_of_difference. split; [exact (Hin k' loc' Hr)|]. rewrite elem_of_singleton. congruence.
Qed.

Lemma deregister_ok now g self st q e k loc : user_ok g self st q -> self.(receivers) !! (e, k) = Some loc ->
  exists self' st' q', User_deregister_component g now e k self st = (self', st') /\ user_ok g self' st' q' /\
    q'.(DirtyQueue.stride) = q.(DirtyQueue.stride) /\ self'.(receivers) = delete (e, k) self.(receivers) /\
    st'.(cells) = st.(cells) /\ st'.(chans) = st.(chans).
Proof.
  intros Hok Hreg. destruct (uo_tracked _ _ _ _ Hok e k loc Hreg) as (idx & b & r & He & Hk & _).
  destruct (cancel_user_ok g self st q e k idx b Hok He Hk) as (Hs & Hst & Htr). pose proof (uo_set _ _ _ _ Hok) as Hset.
  destruct (uo_counted _ _ _ _ Hok e idx He) as (c & ks & Hc & Hks & Hin).
  destruct (last_component self e k loc idx c ks Hreg Hks Hin Hc) as (Hsz & Hc1 & Hlast).
  unfold User_deregister_component. rewrite He, Hk, Hset, Hc. set (q' := DirtyQueue.cancel q idx b) in *.
  assert (upgrade (set_set st self.(dirty_set) q') self.(dirty_set) = Some q') as Hq'
    by (rewrite (upgrade_set_set st _ q' q _ Hset); now rewrite decide_True by reflexivity).
  pose proof (kinds_fit_stride _ _ _ (uo_kinds _ _ _ _ Hok) Hst) as Hkf.
  rewrite Z.max_r by lia. destruct (Z.eqb_spec (c - 1) 0) as [Hz|Hz].
  - do 2 eexists. exists q'. split; [reflexivity|]. split_and!; try reflexivity; [|exact Hst].
    pose proof He as Ht. apply (uo_table _ _ _ _ Hok) in Ht as [Hi Ht].
    assert (forall e' i, self.(entity_to_index) !! e' = Some i -> e' <> e -> i <> idx) as Hdiff.
    { intros e' i Hi' Hee ->. apply (uo_table _ _ _ _ Hok) in Hi' as [_ Hi']. congruence. }
    split; cbn [receivers entity_to_index index_to_entity components_per_entity key_gen kinds_by_bit dirty_set]; try assumption.
    + rewrite decide_True by eauto using lookup_lt_Some. intros e' i. rewrite lookup_delete_Some, (uo_table _ _ _ _ Hok). split.
      * intros (Hee & Hi' & Ht'). split; [exact Hi'|]. pose proof (Hdiff e' i (proj2 (uo_table _ _ _ _ Hok e' i) (conj Hi' Ht')) ltac:(congruence)).
        rewrite list_lookup_insert_ne by lia. exact Ht'.
      * intros [Hi' Ht']. destruct (decide (i = idx)) as [->|Hne]; [rewrite list_lookup_insert_eq in Ht' by eauto using lookup_lt_Some; discriminate|].
        rewrite list_lookup_insert_ne in Ht' by lia. split; [|now split]. intros <-. apply Hne.
        pose proof (proj2 (uo_table _ _ _ _ Hok e i) (conj Hi' Ht')). congruence.
    + apply KeyGenerator32.recycle_key_ok. pose proof (uo_gen _ _ _ _ Hok) as Hg.
      assert ((map_to_list self.(entity_to_index)).*2 ≡ₚ idx :: (map_to_list (delete e self.(entity_to_index))).*2) as Hperm
        by (rewrite <- (map_to_list_delete _ e idx) by exact He; reflexivity).
      destruct Hg as (Hp & Hnd & Hf). split; [exact Hp|]. now rewrite <- Hperm.
    + exact (uo_bits _ _ _ _ Hok).
    + intros e' k' loc' Hr. apply lookup_delete_Some in Hr as Hr'. destruct Hr' as [Hne Hr'].
      destruct (Htr e' k' loc' ltac:(congruence) Hr') as (i & b' & r' & Hi' & Hrest). exists i, b', r'. split; [|exact Hrest].
      cbn [entity_to_index]. apply lookup_delete_Some. split; [|exact Hi']. intros <-. exact (Hlast ltac:(lia) k' loc' Hr).
    + intros i c' Hc'. apply lookup_delete_Some in Hc' as [_ Hc']. exact (uo_nonneg _ _ _ _ Hok i c' Hc').
    + intros e' i Hi'. apply lookup_delete_Some in Hi' as [Hee Hi']. destruct (uo_counted _ _ _ _ Hok e' i Hi') as (c' & ks' & Hc' & Hks' & Hin').
      exists c', ks'. cbn [components_per_entity receivers]. split_and!; [|exact Hks'|].
      * apply lookup_delete_Some. split; [|exact Hc']. intros <-. exact (Hdiff e' idx Hi' ltac:(congruence) eq_refl).
      * intros k' loc' Hr. apply lookup_delete_Some in Hr as [_ Hr]. exact (Hin' k' loc' Hr).
  - do 2 eexists. exists q'. split; [reflexivity|]. split_and!; try reflexivity; [|exact Hst].
    split; cbn [receivers entity_to_index index_to_entity components_per_entity key_gen kinds_by_bit dirty_set]; try assumption; try apply Hok.
    + intros e' k' loc' Hr. apply lookup_delete_Some in Hr as [Hne Hr]. exact (Htr e' k' loc' ltac:(congruence) Hr).
    + intros i c'. rewrite lookup_insert_Some. intros [[_ <-]|[_ Hc']]; [lia|exact (uo_nonneg _ _ _ _ Hok i c' Hc')].
    + intros e' i Hi'. unfold counted. cbn [components_per_entity receivers]. destruct (decide (e' = e)) as [->|Hee].
      * assert (i = idx) as -> by congruence. exists (c - 1), (ks ∖ {[ k ]}). split_and!; [apply lookup_insert_eq|exact Hsz|].
        intros k' loc' Hr. apply lookup_delete_Some in Hr as [Hne Hr]. apply elem_of_difference.
        split; [exact (Hin k' loc' Hr)|]. rewrite elem_of_singleton. congruence.
      * destruct (uo_counted _ _ _ _ Hok e' i Hi') as (c' & ks' & Hc' & Hks' & Hin'). exists c', ks'. split_and!; [|exact Hks'|].
        -- rewrite lookup_insert_ne; [exact Hc'|]. intros <-. apply (uo_table _ _ _ _ Hok) in Hi' as [_ Hi'], He as [_ He]. congruence.
        -- intros k' loc' Hr. apply lookup_delete_Some in Hr as [_ Hr]. exact (Hin' k' loc' Hr).
Qed.

(** ** Listing the candidates *)

(** [q'] has the marks of [q], and the same stride. *)
Definition marks_le (q q' : DirtyQueue.DirtyQueue) : Prop :=
  q'.(DirtyQueue.stride) = q.(DirtyQueue.stride) /\
  forall e k, 0 <= e -> DirtyQueue.kind_fits q k -> DirtyQueue.dirty q e k = true -> DirtyQueue.dirty q' e k = true.

Lemma marks_le_refl q : marks_le q q.
Proof. split; auto. Qed.

Lemma marks_le_trans q1 q2 q3 : marks_le q1 q2 -> marks_le q2 q3 -> marks_le q1 q3.
Proof.
  intros [Hs1 Hd1] [Hs2 Hd2]. split; [congruence|]. intros e k He Hk Hd. apply Hd2; [exact He| |now apply Hd1].
  unfold DirtyQueue.kind_fits in *. now rewrite Hs1.
Qed.

(** The queues a re-mark goes through. *)
Definition remarkable (s : Z) (q : DirtyQueue.DirtyQueue) : Prop := DirtyQueue.queue_ok q /\ q.(DirtyQueue.stride) = s /\ s <= 1024.

Lemma remark_word_ok s idx w v q : 0 <= idx -> remarkable s q -> Z.of_nat w < s -> 0 <= v < 2 ^ 64 ->
  exists q', remark_word idx (w, v) q = Ok q' /\ remarkable s q' /\ marks_le q q' /\
    forall r, 0 <= r < 64 -> Z.testbit v r = true -> DirtyQueue.dirty q' idx (Z.of_nat w * 64 + r) = true.
Proof.
  intros Hidx Hq Hw Hv. unfold remark_word. cbn [fst snd]. destruct (word_bits_word v Hv) as (l & -> & Hl). rewrite bind_ok.
  assert (s <= 1024) as Hs by apply Hq.
  rewrite (wrap_small 16 (Z.of_nat w)) by (unfold in_u; lia). rewrite (proj2 (Z.ltb_lt _ _)) by lia.
  destruct (foldM_mono marks_le (remarkable s) (fun bit q' => 0 <= bit < 64 -> DirtyQueue.stride q' = s -> DirtyQueue.dirty q' idx (Z.of_nat w * 64 + bit) = true)
    (fun bit q => base ← Ok (Z.of_nat w * 64); kb ← uadd 16 base bit; DirtyQueue.push q idx kb) l) with (s := q) as (q' & Hf & Hrem & Hle & Hall).
  - apply marks_le_refl.
  - apply marks_le_trans.
  - intros bit q1 q2 [Hst Hd] Hp Hb Hs2. apply Hd; [exact Hidx|unfold DirtyQueue.kind_fits; lia|]. apply Hp; [exact Hb|congruence].
  - intros bit q1 Hin (Hok1 & Hs1 & _). apply Hl in Hin as [Hb _]. rewrite bind_ok, uadd_ok, bind_ok by lia.
    destruct (DirtyQueue.push_ok q1 idx (Z.of_nat w * 64 + bit) Hok1 Hidx) as (q2 & -> & Hok2 & Hs2 & Hd2); [unfold DirtyQueue.kind_fits; lia|].
    exists q2. split; [reflexivity|]. split; [now split_and!; [|congruence|]|]. split.
    + split; [exact Hs2|]. intros e k He Hk Hd. rewrite Hd2 by assumption. rewrite Hd. apply orb_true_r.
    + intros _ _. rewrite Hd2 by (unfold DirtyQueue.kind_fits; lia). now rewrite !Z.eqb_refl.
  - exact Hq.
  - exists q'. split; [exact Hf|]. split; [exact Hrem|]. split; [exact Hle|].
    intros r Hr Hb. apply Hall; [now apply Hl|exact Hr|apply Hrem].
Qed.

(** Bit [k] of the words of an entry is bit [k mod 64] of its word [k / 64]. *)
Lemma entry_bit (ws : list Z) k : 0 <= k -> cell_bit 64 ws k = true ->
  exists v, (Z.to_nat (k / 64), v) ∈ imap pair ws /\ Z.testbit v (k mod 64) = true /\ (Z.to_nat (k / 64) < length ws)%nat.
Proof.
  intros Hk. unfold cell_bit. destruct (ws !! _) as [v|] eqn:Hv; [|discriminate]. intros Hb. exists v. split_and!; [|exact Hb|eauto using lookup_lt_Some].
  apply list_elem_of_lookup_2 with (Z.to_nat (k / 64)). rewrite list_lookup_imap, Hv. reflexivity.
Qed.

Lemma imap_pair_elem (ws : list Z) w v : (w, v) ∈ imap pair ws <-> ws !! w = Some v.
Proof.
  rewrite list_elem_of_lookup. setoid_rewrite list_lookup_imap. split.
  - intros (i & Hi). destruct (ws !! i) eqn:Hw; [|discriminate]. cbn in Hi. injection Hi as -> ->. exact Hw.
  - intros Hw. exists w. now rewrite Hw.
Qed.

Lemma remark_ok s e ws q : 0 <= e -> remarkable s q -> length ws = Z.to_nat s -> cells_ok 64 ws ->
  exists q', remark (e, ws) q = Ok q' /\ remarkable s q' /\ marks_le q q' /\
    forall k, 0 <= k -> cell_bit 64 ws k = true -> DirtyQueue.dirty q' e k = true.
Proof.
  intros He Hq Hlen Hc. unfold remark. cbn [fst snd]. assert (1 <= s) as Hs1 by (destruct Hq as ([Hs _ _ _ _] & <- & _); exact Hs).
  destruct (foldM_mono marks_le (remarkable s) (fun (wv : nat * Z) q' => q'.(DirtyQueue.stride) = s -> Z.of_nat wv.1 < s ->
      forall r, 0 <= r < 64 -> Z.testbit wv.2 r = true -> DirtyQueue.dirty q' e (Z.of_nat wv.1 * 64 + r) = true)
    (remark_word e) (imap pair ws)) with (s := q) as (q' & Hf & Hrem & Hle & Hall).
  - apply marks_le_refl.
  - apply marks_le_trans.
  - intros [w v] q1 q2 [Hst Hd] Hp Hs2 Hw r Hr Hb. cbn [fst snd] in *. apply Hd; [exact He|unfold DirtyQueue.kind_fits; lia|]. apply Hp; auto; congruence.
  - intros [w v] q1 Hin Hq1. apply imap_pair_elem in Hin. pose proof (lookup_lt_Some _ _ _ Hin).
    destruct (remark_word_ok s e w v q1 He Hq1) as (q2 & Hq2 & Hrem2 & Hle2 & Hd2); [lia|exact (cells_ok_lookup 64 _ _ _ Hc Hin)|].
    exists q2. split_and!; try assumption; try apply Hrem2; try apply Hle2. cbn [fst snd]. intros _ _. exact Hd2.
  - exact Hq.
  - exists q'. split; [exact Hf|]. split; [exact Hrem|]. split; [exact Hle|]. intros k Hk Hb.
    destruct (entry_bit ws k Hk Hb) as (v & Hin & Hv & Hlt). pose proof (Z.div_pos k 64 Hk ltac:(lia)).
    rewrite (Z.div_mod k 64) by lia. specialize (Hall _ Hin). cbn [fst snd] in Hall. rewrite Z2Nat.id in Hall by lia.
    rewrite (Z.mul_comm 64). apply Hall; [apply Hrem|lia|apply Z.mod_pos_bound; lia|exact Hv].
Qed.

(** The kinds named by the words of an entry. *)
Lemma decode_words_ok self (ws : list Z) : cells_ok 64 ws ->
  exists ks : gset K, foldM (decode_word (E := E) self) (imap pair ws) ∅ = Ok ks /\
    forall k b, 0 <= b -> self.(kinds_by_bit) !! Z.to_nat b = Some (Some k) -> cell_bit 64 ws b = true -> k ∈ ks.
Proof.
  intros Hc.
  destruct (foldM_mono (fun x y : gset K => x ⊆ y) (fun _ => True) (fun (wv : nat * Z) ks => forall r k, 0 <= r < 64 -> Z.testbit wv.2 r = true ->
      self.(kinds_by_bit) !! Z.to_nat (Z.of_nat wv.1 * 64 + r) = Some (Some k) -> k ∈ ks)
    (decode_word self) (imap pair ws)) with (s := ∅ : gset K) as (ks & Hf & _ & _ & Hall).
  - reflexivity.
  - intros x y z Hxy Hyz. now transitivity y.
  - intros wv x y Hxy Hp r k Hr Hb Hk. apply Hxy. now apply (Hp r k).
  - intros [w v] acc Hin _. apply imap_pair_elem in Hin. unfold decode_word. cbn [fst snd].
    destruct (word_bits_word v (cells_ok_lookup 64 _ _ _ Hc Hin)) as (l & -> & Hl). rewrite bind_ok. eexists. split; [reflexivity|]. split; [exact I|].
    assert (forall acc : gset K, let out := foldl (fun acc bit => match self.(kinds_by_bit) !! Z.to_nat (Z.of_nat w * 64 + bit) with
        | Some (Some kind) => {[ kind ]} ∪ acc | _ => acc end) acc l in acc ⊆ out /\
        forall r k, r ∈ l -> self.(kinds_by_bit) !! Z.to_nat (Z.of_nat w * 64 + r) = Some (Some k) -> k ∈ out) as Hfold.
    { clear Hl. induction l as [|r0 l IH]; intros acc0; cbn [foldl].
      - split; [reflexivity|]. intros r k Hr. now apply elem_of_nil in Hr.
      - match goal with |- context [foldl _ ?x l] => set (acc1 := x) end. destruct (IH acc1) as [Hsub Hk].
        assert (acc0 ⊆ acc1) as H01 by (unfold acc1; destruct (self.(kinds_by_bit) !! _) as [[kd|]|]; [apply union_subseteq_r|reflexivity..]).
        split; [now transitivity acc1|]. intros r k [->|Hr]%elem_of_cons Hkk; [|now apply (Hk r)].
        apply Hsub. unfold acc1. rewrite Hkk. apply elem_of_union_l, elem_of_singleton. reflexivity. }
    destruct (Hfold acc) as [Hsub Hk]. split; [exact Hsub|]. intros r k Hr Hb. apply Hk. now apply Hl.
  - exact I.
  - exists ks. split; [exact Hf|]. intros k b Hb Hk Hbit. destruct (entry_bit ws b Hb Hbit) as (v & Hin & Hv & _).
    pose proof (Z.div_pos b 64 Hb ltac:(lia)). apply (Hall _ Hin (b mod 64) k); cbn [fst snd]; [apply Z.mod_pos_bound; lia|exact Hv|].
    rewrite Z2Nat.id, (Z.mul_comm _ 64), <- Z.div_mod by lia. exact Hk.
Qed.

(** The result map: each live entry contributes its entity, and keeps it. *)
Lemma decode_all_ok g self st q (out : list (Z * list Z)) : user_ok g self st q -> NoDup out.*1 ->
  (forall e ws, (e, ws) ∈ out -> 0 <= e /\ cells_ok 64 ws) -> forall acc,
  exists result, foldM (decode self) out acc = Ok result /\
    (forall e, (forall idx, self.(entity_to_index) !! e = Some idx -> idx ∉ out.*1) -> result !! e = acc !! e) /\
    forall idx ws e k b, (idx, ws) ∈ out -> self.(entity_to_index) !! e = Some idx ->
      0 <= b -> self.(kinds_by_bit) !! Z.to_nat b = Some (Some k) -> cell_bit 64 ws b = true ->
      exists ks, result !! e = Some ks /\ k ∈ ks.
Proof.
  intros Hok. induction out as [|[idx ws] out IH]; intros Hnd Hws acc.
  - exists acc. split; [reflexivity|]. split; [reflexivity|]. intros idx ws e k b Hin. now apply elem_of_nil in Hin.
  - cbn [fmap list_fmap fst] in Hnd. apply NoDup_cons in Hnd as [Hni Hnd]. destruct (Hws idx ws) as [Hidx Hc]; [now left|].
    assert (exists acc1, decode self (idx, ws) acc = Ok acc1 /\ (forall e, self.(entity_to_index) !! e <> Some idx -> acc1 !! e = acc !! e) /\
      forall e k b, self.(entity_to_index) !! e = Some idx -> 0 <= b -> self.(kinds_by_bit) !! Z.to_nat b = Some (Some k) -> cell_bit 64 ws b = true ->
        exists ks, acc1 !! e = Some ks /\ k ∈ ks) as (acc1 & Hdec & Hother & Hthis).
    { unfold decode. cbn [fst snd]. destruct (self.(index_to_entity) !! Z.to_nat idx) as [[e0|]|] eqn:Ht.
      2, 3: exists acc; split; [reflexivity|]; split; [reflexivity|]; intros e k b He _ _ _; apply (uo_table _ _ _ _ Hok) in He as [_ He]; congruence.
      destruct (decode_words_ok self ws Hc) as (ks & Hks & Hkin). rewrite Hks, bind_ok. eexists. split; [reflexivity|].
      assert (self.(entity_to_index) !! e0 = Some idx) as He0 by now apply (uo_table _ _ _ _ Hok). split.
      - intros e Hne. destruct (decide _); [reflexivity|]. apply lookup_insert_ne. congruence.
      - intros e k b He Hb Hk Hbit. assert (e = e0) as -> by (apply (uo_table _ _ _ _ Hok) in He as [_ He]; congruence).
        pose proof (Hkin k b Hb Hk Hbit) as Hin. destruct (decide (ks = ∅)) as [->|_]; [now apply not_elem_of_empty in Hin|].
        exists ks. split; [apply lookup_insert_eq|exact Hin]. }
    destruct (IH Hnd (fun e w Hin => Hws e w ltac:(now right)) acc1) as (result & Hf & Hkeep & Hall).
    exists result. cbn [foldM]. rewrite Hdec, bind_ok. split; [exact Hf|]. split.
    + intros e Hno. rewrite Hkeep by (intros i Hi Hin; apply (Hno i Hi); now right).
      apply Hother. intros Hi. apply (Hno idx Hi). now left.
    + intros idx' ws' e k b [Heq|Hin]%elem_of_cons He Hb Hk Hbit; [|now apply (Hall idx' ws' e k b)].
      injection Heq as -> ->. destruct (Hthis e k b He Hb Hk Hbit) as (ks & Hks & Hk'). exists ks. split; [|exact Hk'].
      rewrite Hkeep; [exact Hks|]. intros i Hi. assert (i = idx) as -> by congruence. exact Hni.
Qed.

(** Listing the candidates terminates without panic, changes no mask, keeps the
    invariant, and finds every registered component with a change. *)
Lemma candidates_ok g self st q : user_ok g self st q ->
  exists result st' q', dirty_receiver_candidates self st = Ok (result, st') /\ user_ok g self st' q' /\
    q'.(DirtyQueue.stride) = q.(DirtyQueue.stride) /\ st'.(cells) = st.(cells) /\ st'.(chans) = st.(chans) /\
    forall e k, diff_mask_is_clear self st e k = false -> exists ks, result !! e = Some ks /\ k ∈ ks.
Proof.
  intros Hok. pose proof (uo_set _ _ _ _ Hok) as Hset. pose proof (uo_queue _ _ _ _ Hok) as Hqok.
  unfold dirty_receiver_candidates. rewrite Hset. cbn [unwrap]. rewrite bind_ok.
  destruct (DirtyQueue.drain q) as [q1 out] eqn:Hdr. destruct (DirtyQueue.drain_ok q q1 out Hqok Hdr) as (Hq1 & Hs1 & _ & Hnd & _ & Hws & Hall).
  destruct (foldM_mono marks_le (remarkable q.(DirtyQueue.stride))
     (fun (ew : Z * list Z) q' => q'.(DirtyQueue.stride) = q.(DirtyQueue.stride) -> forall k, DirtyQueue.kind_fits q k -> cell_bit 64 ew.2 k = true -> 0 <= ew.1 -> DirtyQueue.dirty q' ew.1 k = true)
     remark out) with (s := q1) as (q2 & -> & Hrem & Hle & Hmarks).
  { apply marks_le_refl. }
  { apply marks_le_trans. }
  { intros [e ws] qa qb [Hst Hd] Hp Hsb k Hk Hbit He. cbn [fst snd] in *. apply Hd; [exact He|unfold DirtyQueue.kind_fits in *; lia|]. apply Hp; auto; congruence. }
  { intros [e ws] qa Hin Hqa. destruct (Hws e ws Hin) as (He & Hlen & Hc & _).
    destruct (remark_ok _ e ws qa He Hqa Hlen Hc) as (qb & Hqb & Hremb & Hleb & Hdb). exists qb. split; [exact Hqb|]. split; [exact Hremb|]. split; [exact Hleb|].
    cbn [fst snd]. intros _ k Hk Hbit _. apply Hdb; [apply Hk|exact Hbit]. }
  { split_and!; [exact Hq1|exact Hs1|exact (kf_stride _ _ (uo_kinds _ _ _ _ Hok))]. }
  rewrite bind_ok. destruct (decode_all_ok g self st q out Hok Hnd) with (acc := ∅ : gmap E (gset K)) as (result & -> & _ & Hres).
  { intros e ws Hin. destruct (Hws e ws Hin) as (He & _ & Hc & _). now split. }
  rewrite bind_ok. destruct Hrem as (Hq2 & Hs2 & _).
  assert (forall e k, 0 <= e -> DirtyQueue.kind_fits q k -> DirtyQueue.dirty q e k = true -> exists ws, (e, ws) ∈ out /\ cell_bit 64 ws k = true) as Hent.
  { intros e k He Hk Hd. pose proof (Hall e k He Hk Hd) as Hin. apply list_elem_of_fmap in Hin as ([e' ws] & -> & Hin). exists ws. split; [exact Hin|].
    destruct (Hws _ _ Hin) as (_ & _ & _ & Hb). now rewrite Hb. }
  do 2 eexists. exists q2. split; [reflexivity|]. split_and!; try reflexivity; [|exact Hs2|].
  - split; try apply Hok.
    + apply (set_set_ok st _ q2 q); [apply Hok|assumption..].
    + rewrite (upgrade_set_set st _ q2 q _ Hset). now rewrite decide_True by reflexivity.
    + exact (kinds_fit_stride _ _ _ (uo_kinds _ _ _ _ Hok) Hs2).
    + intros e k loc Hreg. destruct (uo_tracked _ _ _ _ Hok e k loc Hreg) as (idx & b & r & He & Hk & Hb & Hl & Hn & Hd).
      exists idx, b, r. split_and!; try assumption. intros Hm. pose proof (kf_fits _ _ (uo_kinds _ _ _ _ Hok) _ _ Hk) as Hfit.
      assert (0 <= idx) as Hidx by now apply (uo_table _ _ _ _ Hok) in He as [? _].
      destruct (Hent idx b Hidx Hfit (Hd Hm)) as (ws & Hin & Hbit). exact (Hmarks _ Hin Hs2 b Hfit Hbit Hidx).
  - intros e k. unfold diff_mask_is_clear. destruct (self.(receivers) !! (e, k)) as [loc|] eqn:Hreg; [|discriminate].
    destruct (uo_tracked _ _ _ _ Hok e k loc Hreg) as (idx & b & r & He & Hk & Hb & Hl & Hn & Hd). rewrite Hl. intros Hm.
    pose proof (kf_fits _ _ (uo_kinds _ _ _ _ Hok) _ _ Hk) as Hfit. assert (0 <= idx) as Hidx by now apply (uo_table _ _ _ _ Hok) in He as [? _].
    destruct (Hent idx b Hidx Hfit (Hd Hm)) as (ws & Hin & Hbit). exact (Hres idx ws e k b Hin He (proj1 Hfit) Hb Hbit).
Qed.

(** A new handler, made when every kind is known to the global handler. *)
Lemma User_new_ok g st : store_ok st -> 0 <= kind_count g < 2 ^ 16 ->
  (forall k b, kind_bit g k = Some b -> 0 <= b < kind_count g) ->
  (forall k k' b, kind_bit g k = Some b -> kind_bit g k' = Some b -> k = k') ->
  forall self st', User_new g st = (self, st') -> user_ok g self st' (DirtyQueue.Queue_new (kind_count g)) /\ self.(receivers) = ∅.
Proof.
  intros Hst Hc Hb Hinj self st' Heq. unfold User_new, alloc_set in Heq. injection Heq as <- <-. split; [|reflexivity].
  destruct (DirtyQueue.Queue_new_ok (kind_count g)) as [Hq _]; [lia|].
  set (st' := {| cells := st.(cells); sets := _; chans := _ |}).
  assert (forall l, upgrade st' l = if decide (l = length st.(sets)) then Some (DirtyQueue.Queue_new (kind_count g)) else upgrade st l) as Hup.
  { intros l. unfold upgrade, st'. cbn [sets]. destruct (decide (l = length st.(sets))) as [->|Hne].
    - rewrite lookup_app_r, Nat.sub_diag by lia. reflexivity.
    - destruct (decide (l < length st.(sets))%nat); [now rewrite lookup_app_l by lia|].
      rewrite (lookup_ge_None_2 _ l) by (rewrite length_app; cbn; lia). now rewrite (lookup_ge_None_2 _ l) by lia. }
  split; cbn [receivers entity_to_index index_to_entity components_per_entity key_gen kinds_by_bit dirty_set].
  - destruct Hst as [Hcs Hss Hns Hkn]. split; [exact Hcs| | |].
    + intros l q. rewrite Hup. destruct (decide _); [intros Hq'; injection Hq' as <-; exact Hq|apply Hss].
    + intros l r n q Hl Hr. pose proof (Hkn l r n Hl Hr). rewrite Hup, decide_False by lia. exact (Hns l r n q Hl Hr).
    + intros l r n Hl Hr. pose proof (Hkn l r n Hl Hr). unfold st'. cbn [sets]. rewrite length_app. lia.
  - rewrite Hup. now rewrite decide_True by reflexivity.
  - split; [|exact Hinj|].
    + intros k b Hk. pose proof (Hb k b Hk). unfold DirtyQueue.kind_fits, DirtyQueue.Queue_new, AtomicBitSet.div_ceil. cbn [DirtyQueue.stride]. dlia.
    + unfold DirtyQueue.Queue_new, AtomicBitSet.div_ceil. cbn [DirtyQueue.stride]. dlia.
  - intros e idx. rewrite lookup_empty, lookup_nil. split; [discriminate|intros [_ ?]; discriminate].
  - rewrite map_to_list_empty. unfold KeyGenerator32.gen_ok, KeyGenerator32.keys_waiting. cbn. split_and!; [lia|constructor|constructor].
  - intros i k Hi. apply lookup_replicate in Hi as [? _]. discriminate.
  - intros e k loc Hr. now rewrite lookup_empty in Hr.
  - intros idx c Hr. now rewrite lookup_empty in Hr.
  - intros e idx Hr. now rewrite lookup_empty in Hr.
Qed.
End Tracking.
