(* ===== verification/UpdateManager.v ===== *)
(** Property updates on their way to one user: [EntityUpdateManager]
    ([world/update/entity_update_manager.rs]) on top of the diff handlers.  A
    component's mask moves into the record of the packet that carries it; an
    acknowledged packet is forgotten, a lost one gives its properties back unless
    a later packet in flight carries them.

    The theorems: every property change that no acknowledged packet has carried
    is still in the mask or in a packet in flight; and the update events of a
    tick are exactly the registered components with changes. *)

From Stdlib Require Import ZArith Lia.
From stdpp Require Import base numbers option list gmap sorting.
From S2P Require Import Prelude DiffMask DirtyQueue Kinds DiffHandlers DiffTracking.

Section Manager.
Context {E K A : Type} {eqE : EqDecision E} {cE : Countable E} {eqK : EqDecision K} {cK : Countable K}
  {eqA : EqDecision A} {cA : Countable A}.

Abbreviation Store := (@Store A eqA cA).
Abbreviation User := (@UserDiffHandler E K eqE cE eqK cK).
Abbreviation Global := (@GlobalDiffHandler E K eqE cE eqK cK).

(** [SentUpdatesMap]; [Instant]s are milliseconds. *)
Record EntityUpdateManager := mkManager {
  address : option A;
  diff_handler : User;
  sent_updates : gmap Z (Z * gmap (E * K) DiffMask.DiffMask);
  last_update_packet_index : Z
}.

Definition Manager_new (address : option A) (g : Global) (st : Store) : EntityUpdateManager * Store :=
  let '(u, st') := User_new g st in
  ({| address := address; diff_handler := u; sent_updates := ∅; last_update_packet_index := 0 |}, st').

Definition with_handler (self : EntityUpdateManager) (u : User) : EntityUpdateManager :=
  {| address := self.(address); diff_handler := u; sent_updates := self.(sent_updates);
     last_update_packet_index := self.(last_update_packet_index) |}.

Definition with_sent (self : EntityUpdateManager) (s : gmap Z (Z * gmap (E * K) DiffMask.DiffMask)) (last : Z) : EntityUpdateManager :=
  {| address := self.(address); diff_handler := self.(diff_handler); sent_updates := s; last_update_packet_index := last |}.

Definition diff_handler_has_component (self : EntityUpdateManager) (e : E) (k : K) : bool :=
  User_has_component self.(diff_handler) e k.

Definition or_diff_mask (self : EntityUpdateManager) (e : E) (k : K) (new_diff_mask : DiffMask.DiffMask) (st : Store) : res Store :=
  User_or_diff_mask self.(diff_handler) e k new_diff_mask st.

Definition get_diff_mask (self : EntityUpdateManager) (st : Store) (e : E) (k : K) : res DiffMask.DiffMask :=
  diff_mask_snapshot self.(diff_handler) st e k.

Definition clear_diff_mask (self : EntityUpdateManager) (e : E) (k : K) (st : Store) : res Store :=
  User_clear_diff_mask self.(diff_handler) e k st.

Definition register_component (g : Global) (now : Z) (e : E) (k : K) (self : EntityUpdateManager) (st : Store) : res (EntityUpdateManager * Store) :=
  '(u, st') ← User_register_component g now self.(address) e k self.(diff_handler) st; Ok (with_handler self u, st').

Definition deregister_component (g : Global) (now : Z) (e : E) (k : K) (self : EntityUpdateManager) (st : Store) : EntityUpdateManager * Store :=
  let '(u, st') := User_deregister_component g now e k self.(diff_handler) st in (with_handler self u, st').

Definition build_dirty_candidates_from_receivers (self : EntityUpdateManager) (st : Store) : res (gmap E (gset K) * Store) :=
  dirty_receiver_candidates self.(diff_handler) st.

(** The component masks of one packet. *)
Definition packet_mask (sent : gmap Z (Z * gmap (E * K) DiffMask.DiffMask)) (p : Z) (key : E * K) : option DiffMask.DiffMask :=
  match sent !! p with Some (_, m) => m !! key | None => None end.

(** The walk from the dropped packet up to the last one, which it does not look at. *)
Fixpoint walk (fuel : nat) (sent : gmap Z (Z * gmap (E * K) DiffMask.DiffMask)) (last : Z) (key : E * K)
    (packet_index : Z) (new_diff_mask : DiffMask.DiffMask) : res DiffMask.DiffMask :=
  if packet_index =? last then Ok new_diff_mask
  else match fuel with
       | O => Diverge
       | S fuel' =>
           m ← (match packet_mask sent packet_index key with
                | Some next_diff_mask => DiffMask.nand new_diff_mask next_diff_mask
                | None => Ok new_diff_mask
                end);
           walk fuel' sent last key (wrapping_add16 packet_index 1) m
       end.

Definition walk_fuel : nat := Z.to_nat 65536.

(** One component of a dropped packet; [sent] no longer has the packet. *)
Definition cleanup_component (self : EntityUpdateManager) (dropped : Z) (entry : (E * K) * DiffMask.DiffMask) (st : Store) : res Store :=
  let '(key, diff_mask) := entry in
  if negb (diff_handler_has_component self key.1 key.2) then Ok st
  else
    new_diff_mask ← (if dropped =? self.(last_update_packet_index) then Ok diff_mask
                     else walk walk_fuel self.(sent_updates) self.(last_update_packet_index) key (wrapping_add16 dropped 1) diff_mask);
    or_diff_mask self key.1 key.2 new_diff_mask st.

(** Iteration over a [HashMap] visits the entries in some order. *)
Context (iter : gmap (E * K) DiffMask.DiffMask -> list ((E * K) * DiffMask.DiffMask)).

Definition dropped_update_cleanup (dropped : Z) (self : EntityUpdateManager) (st : Store) : res (EntityUpdateManager * Store) :=
  match self.(sent_updates) !! dropped with
  | None => Ok (self, st)
  | Some (_, diff_mask_map) =>
      let self' := with_sent self (delete dropped self.(sent_updates)) self.(last_update_packet_index) in
      st' ← foldM (cleanup_component self' dropped) (iter diff_mask_map) st;
      Ok (self', st')
  end.

(** [drop_duration] is one and a half round trips, in milliseconds; [iter_packets]
    is the order in which the map of packets is visited. *)
Definition handle_dropped_update_packets (iter_packets : gmap Z (Z * gmap (E * K) DiffMask.DiffMask) -> list (Z * (Z * gmap (E * K) DiffMask.DiffMask)))
    (now drop_duration : Z) (self : EntityUpdateManager) (st : Store) : res (EntityUpdateManager * Store) :=
  let dropped_packets := map fst (filter (fun entry => drop_duration < now - entry.2.1) (iter_packets self.(sent_updates))) in
  foldM (fun p ms => dropped_update_cleanup p ms.1 ms.2) dropped_packets (self, st).

Definition Updates_notify_packet_delivered (packet_index : Z) (self : EntityUpdateManager) : EntityUpdateManager :=
  with_sent self (delete packet_index self.(sent_updates)) self.(last_update_packet_index).

Definition record_update (now packet_index : Z) (e : E) (k : K) (diff_mask : DiffMask.DiffMask)
    (self : EntityUpdateManager) (st : Store) : res (EntityUpdateManager * Store) :=
  let '(time, masks) := default (now, ∅) (self.(sent_updates) !! packet_index) in
  let self' := with_sent self (<[packet_index := (time, <[(e, k) := diff_mask]> masks)]> self.(sent_updates)) packet_index in
  st' ← clear_diff_mask self' e k st;
  Ok (self', st').

(** What the world writer does for an update that fits: the mask it writes is
    the one it records ([WorldWriter::write_update]). *)
Definition send_update (now packet_index : Z) (e : E) (k : K) (self : EntityUpdateManager) (st : Store) : res (EntityUpdateManager * Store) :=
  diff_mask ← get_diff_mask self st e k;
  record_update now packet_index e k diff_mask self st.

(** The update events of a tick.  [replicating], [to_world], [has_entity] and
    [has_component] are the answers of the global manager, the converter and the world. *)
Definition take_outgoing_events {W} (replicating : E -> bool) (to_world : E -> option W) (has_entity : W -> bool)
    (has_component_of_kind : W -> K -> bool) (self : EntityUpdateManager) (st : Store)
    (updatable_world : gmap E (gset K)) : res (gmap E (gset K)) :=
  foldM (fun entry (out : gmap E (gset K)) =>
    let '(global_entity, component_kinds) := entry : E * gset K in
    if negb (replicating global_entity) then Ok (delete global_entity out)
    else
      world_entity ← unwrap (to_world global_entity);
      if negb (has_entity world_entity) then Ok (delete global_entity out)
      else
        let kinds := filter (fun kind => has_component_of_kind world_entity kind &&
                       negb (diff_mask_is_clear self.(diff_handler) st global_entity kind) = true) component_kinds in
        if decide (kinds = ∅) then Ok (delete global_entity out) else Ok (<[global_entity := kinds]> out))
    (map_to_list updatable_world) updatable_world.

(** * Packets behind the last one *)

(** How many packets ago [p] was, seen from [last]. *)
Definition age (last p : Z) : Z := wrapping_sub16 last p.

Lemma age_range last p : 0 <= age last p < 65536.
Proof. unfold age, wrapping_sub16. apply (wrap_range 16). lia. Qed.

Lemma age_next last p : in_u 16 p -> p <> last -> in_u 16 last ->
  in_u 16 (wrapping_add16 p 1) /\ age last (wrapping_add16 p 1) = age last p - 1.
Proof.
  unfold age, wrapping_sub16, wrapping_add16, wrap, in_u. change (2 ^ 16) with 65536. intros Hp Hne Hl. split; dlia.
Qed.

Lemma age_zero last p : in_u 16 p -> in_u 16 last -> age last p = 0 -> p = last.
Proof. unfold age, wrapping_sub16, wrap, in_u. change (2 ^ 16) with 65536. intros Hp Hl. dlia. Qed.

Section Walk.
Context (sent : gmap Z (Z * gmap (E * K) DiffMask.DiffMask)) (last : Z) (key : E * K) (width : Z).
Context (Hlast : in_u 16 last).
Context (Hmasks : forall p m, packet_mask sent p key = Some m -> DiffMask.mask_ok m /\ Z.of_nat (length m.(DiffMask.mask)) = width).

(** The walk ends, and takes out only properties that a later packet carries. *)
Lemma walk_ok fuel p m : in_u 16 p -> age last p <= Z.of_nat fuel -> DiffMask.mask_ok m -> Z.of_nat (length m.(DiffMask.mask)) = width ->
  exists r, walk fuel sent last key p m = Ok r /\ DiffMask.mask_ok r /\ Z.of_nat (length r.(DiffMask.mask)) = width /\
    forall i, 0 <= i -> DiffMask.has m i = true -> DiffMask.has r i = true \/
      exists p' m', in_u 16 p' /\ 0 < age last p' <= age last p /\ packet_mask sent p' key = Some m' /\ DiffMask.has m' i = true.
Proof using Hlast Hmasks.
  revert p m. induction fuel as [|fuel IH]; intros p m Hp Hage Hm Hlen; cbn [walk].
  all: destruct (Z.eqb_spec p last) as [->|Hne]; [exists m; split_and!; auto|].
  - exfalso. apply Hne. pose proof (age_range last p). apply age_zero; [exact Hp|exact Hlast|lia].
  - destruct (age_next last p Hp Hne Hlast) as [Hp' Hage'].
    assert (exists m1, match packet_mask sent p key with Some nm => DiffMask.nand m nm | None => Ok m end = Ok m1 /\ DiffMask.mask_ok m1 /\
      Z.of_nat (length m1.(DiffMask.mask)) = width /\ forall i, 0 <= i -> DiffMask.has m i = true -> DiffMask.has m1 i = true \/
        exists m', packet_mask sent p key = Some m' /\ DiffMask.has m' i = true) as (m1 & -> & Hok1 & Hlen1 & Hhas1).
    { destruct (packet_mask sent p key) as [nm|] eqn:Hpm; [|exists m; split_and!; auto].
      destruct (Hmasks p nm Hpm) as [Hnm Hnl]. destruct (DiffMask.nand_ok m nm Hm Hnm) as (m1 & -> & Hok1 & Hl1 & Hh1); [lia|].
      exists m1. split_and!; [reflexivity|exact Hok1|lia|]. intros i Hi Hb. rewrite Hh1, Hb by exact Hi. destruct (DiffMask.has nm i) eqn:Hn; [right; eauto|now left]. }
    rewrite bind_ok. destruct (IH _ m1 Hp' ltac:(lia) Hok1 Hlen1) as (r & -> & Hok & Hl & Hh). exists r. split_and!; try assumption; [reflexivity|].
    intros i Hi Hb. pose proof (age_range last p). pose proof (age_range last (wrapping_add16 p 1)).
    destruct (Hhas1 i Hi Hb) as [Hb1|(m' & Hm' & Hb')].
    + destruct (Hh i Hi Hb1) as [Hr|(p' & m' & Hp1 & Ha & Hrest)]; [now left|]. right. exists p', m'. split; [exact Hp1|]. split; [lia|exact Hrest].
    + right. exists p, m'. split; [exact Hp|]. split; [|now split].
      assert (age last p <> 0) by (intros Hz; apply Hne; now apply age_zero). lia.
Qed.
End Walk.

(** * What the user is owed *)

(** [pending key i]: property [i] of the component has changed and no packet that
    carried the change has been acknowledged.  [carried p key i]: packet [p] was
    written after the last change of the property and carries it. *)
Record Ghost := mkGhost { pending : E * K -> Z -> bool; carried : Z -> E * K -> Z -> bool }.

Definition ghost_new : Ghost := {| pending := fun _ _ => false; carried := fun _ _ _ => false |}.

(** The receiver at [loc] is the component's. *)
Definition listens (self : EntityUpdateManager) (key : E * K) (loc : nat) : bool :=
  bool_decide (self.(diff_handler).(receivers) !! key = Some loc).

Definition ghost_mutate (self : EntityUpdateManager) (loc : nat) (i : Z) (gh : Ghost) : Ghost :=
  {| pending := fun key j => if listens self key loc && (j =? i) then true else gh.(pending) key j;
     carried := fun p key j => if listens self key loc && (j =? i) then false else gh.(carried) p key j |}.

Definition ghost_send (p : Z) (key : E * K) (m : DiffMask.DiffMask) (gh : Ghost) : Ghost :=
  {| pending := gh.(pending);
     carried := fun p' key' j => if bool_decide (p' = p /\ key' = key) then DiffMask.has m j else gh.(carried) p' key' j |}.

Definition ghost_deliver (p : Z) (gh : Ghost) : Ghost :=
  {| pending := fun key j => gh.(pending) key j && negb (gh.(carried) p key j);
     carried := fun p' key j => negb (p' =? p) && gh.(carried) p' key j |}.

Definition ghost_drop (p : Z) (gh : Ghost) : Ghost :=
  {| pending := gh.(pending); carried := fun p' key j => negb (p' =? p) && gh.(carried) p' key j |}.

Definition ghost_forget (key : E * K) (gh : Ghost) : Ghost :=
  {| pending := fun key' j => negb (bool_decide (key' = key)) && gh.(pending) key' j;
     carried := fun p key' j => negb (bool_decide (key' = key)) && gh.(carried) p key' j |}.

(** * The steps *)
Inductive upd_op :=
| OpMutate (loc : nat) (i : Z)
| OpSend (now p : Z) (e : E) (k : K)
| OpDelivered (p : Z)
| OpDropped (p : Z)
| OpCollect
| OpRegister (now : Z) (e : E) (k : K)
| OpDeregister (now : Z) (e : E) (k : K).

Definition upd_run_op (g : Global) (op : upd_op) (ms : EntityUpdateManager * Store) : res (EntityUpdateManager * Store) :=
  let '(self, st) := ms in
  match op with
  | OpMutate loc i => st' ← mutate loc i st; Ok (self, st')
  | OpSend now p e k => send_update now p e k self st
  | OpDelivered p => Ok (Updates_notify_packet_delivered p self, st)
  | OpDropped p => dropped_update_cleanup p self st
  | OpCollect => r ← build_dirty_candidates_from_receivers self st; Ok (self, r.2)
  | OpRegister now e k => register_component g now e k self st
  | OpDeregister now e k => Ok (deregister_component g now e k self st)
  end.

Definition ghost_op (g : Global) (op : upd_op) (ms : EntityUpdateManager * Store) (gh : Ghost) : Ghost :=
  match op with
  | OpMutate loc i => ghost_mutate ms.1 loc i gh
  | OpSend _ p e k => match get_diff_mask ms.1 ms.2 e k with Ok m => ghost_send p (e, k) m gh | _ => gh end
  | OpDelivered p => ghost_deliver p gh
  | OpDropped p => ghost_drop p gh
  | OpRegister _ e k =>
      match Global_receiver ms.1.(address) e k g ms.2 with
      | Ok (Some loc, _) => if listens ms.1 (e, k) loc then gh else ghost_forget (e, k) gh
      | _ => gh
      end
  | OpDeregister _ e k => ghost_forget (e, k) gh
  | OpCollect => gh
  end.

(** * The invariant *)

(** Property [i] is set in the mask of the receiver at [loc]. *)
Definition holds (st : Store) (loc : nat) (i : Z) : bool :=
  match st.(cells) !! loc with Some r => AtomicBitSet.BitSet_has (AtomicDiffMask.bits r.(r_mask)) i | None => false end.

(** The number of mask bytes of a component kind ([diff_mask_size]). *)
Context (width : K -> Z).

(** Every registered receiver has a mask of its kind's width. *)
Definition widths_ok (u : User) (st : Store) : Prop :=
  forall e k loc, u.(receivers) !! (e, k) = Some loc -> exists r m, st.(cells) !! loc = Some r /\ AtomicDiffMask.rep (width k) r.(r_mask) m.

Record mgr_ok (g : Global) (self : EntityUpdateManager) (st : Store) (gh : Ghost) (q : DirtyQueue.DirtyQueue) : Prop := {
  mo_user : user_ok g self.(diff_handler) st q;
  mo_width : widths_ok self.(diff_handler) st;
  mo_sent : forall p e k m, packet_mask self.(sent_updates) p (e, k) = Some m ->
    in_u 16 p /\ DiffMask.mask_ok m /\ Z.of_nat (length m.(DiffMask.mask)) = width k;
  mo_last : in_u 16 self.(last_update_packet_index);
  mo_carried : forall p key i, 0 <= i -> gh.(carried) p key i = true ->
    exists m, packet_mask self.(sent_updates) p key = Some m /\ DiffMask.has m i = true;
  mo_later : forall p p' key m i, 0 <= i -> gh.(carried) p key i = true ->
    age self.(last_update_packet_index) p' < age self.(last_update_packet_index) p ->
    packet_mask self.(sent_updates) p' key = Some m -> DiffMask.has m i = true -> gh.(carried) p' key i = true;
  mo_owed : forall key i, 0 <= i -> gh.(pending) key i = true ->
    exists loc, self.(diff_handler).(receivers) !! key = Some loc /\ (holds st loc i = true \/ exists p, gh.(carried) p key i = true)
}.

Lemma holds_rep (st : Store) loc r n m i : st.(cells) !! loc = Some r -> AtomicDiffMask.rep n r.(r_mask) m -> 0 <= i -> holds st loc i = DiffMask.has m i.
Proof. intros Hl Hr Hi. unfold holds. rewrite Hl. exact (AtomicDiffMask.rep_has _ _ _ Hr i Hi). Qed.

(** Two registered components have two receivers. *)
Lemma receivers_inj (g : Global) (u : User) (st : Store) q (key key' : E * K) loc : user_ok g u st q ->
  u.(receivers) !! key = Some loc -> u.(receivers) !! key' = Some loc -> key = key'.
Proof.
  intros Hok H1 H2. destruct key as [e k], key' as [e' k'].
  destruct (uo_tracked _ _ _ _ Hok e k loc H1) as (i1 & b1 & r1 & He1 & Hk1 & _ & Hl1 & Hn1 & _).
  destruct (uo_tracked _ _ _ _ Hok e' k' loc H2) as (i2 & b2 & r2 & He2 & Hk2 & _ & Hl2 & Hn2 & _).
  assert (mkNotifier i1 b1 u.(dirty_set) = mkNotifier i2 b2 u.(dirty_set)) as Heq by congruence. injection Heq as -> ->.
  exact (pair_component _ _ _ _ e k e' k' i2 b2 Hok He1 Hk1 He2 Hk2).
Qed.

(** A step on one receiver: its mask, and every other. *)
Lemma step_holds (st st' : Store) loc r a n m l i : st.(cells) !! loc = Some r -> st'.(cells) = <[loc := with_mask r a]> st.(cells) ->
  AtomicDiffMask.rep n a m -> 0 <= i -> holds st' l i = if decide (l = loc) then DiffMask.has m i else holds st l i.
Proof.
  intros Hl Hc Ha Hi. unfold holds. rewrite Hc. destruct (decide (l = loc)) as [->|Hne].
  - rewrite list_lookup_insert_eq by eauto using lookup_lt_Some. cbn [r_mask with_mask]. exact (AtomicDiffMask.rep_has _ _ _ Ha i Hi).
  - now rewrite list_lookup_insert_ne.
Qed.

Lemma step_widths u st st' loc r a n m m' : widths_ok u st -> st.(cells) !! loc = Some r ->
  st'.(cells) = <[loc := with_mask r a]> st.(cells) -> AtomicDiffMask.rep n r.(r_mask) m -> AtomicDiffMask.rep n a m' -> widths_ok u st'.
Proof.
  intros Hw Hl Hc Hr Ha e k l Hreg. destruct (Hw e k l Hreg) as (r0 & m0 & Hl0 & Hr0). rewrite Hc.
  destruct (decide (l = loc)) as [->|Hne].
  - rewrite list_lookup_insert_eq by eauto using lookup_lt_Some. do 2 eexists. split; [reflexivity|]. cbn [r_mask with_mask].
    assert (r0 = r) as -> by congruence. assert (width k = n) as ->; [|exact Ha].
    pose proof (AtomicBitSet.byte_number_ok _ _ (AtomicDiffMask.rep_words _ _ _ Hr0)).
    pose proof (AtomicBitSet.byte_number_ok _ _ (AtomicDiffMask.rep_words _ _ _ Hr)). congruence.
  - rewrite list_lookup_insert_ne by congruence. now exists r0, m0.
Qed.

(** ** A property changes *)
Lemma mutate_step g self st gh q loc i r n m : mgr_ok g self st gh q -> st.(cells) !! loc = Some r ->
  AtomicDiffMask.rep n r.(r_mask) m -> 0 <= i < 8 * n ->
  exists st' q', mutate loc i st = Ok st' /\ mgr_ok g self st' (ghost_mutate self loc i gh) q'.
Proof.
  intros Hok Hl Hr Hi. destruct Hok as [Hu Hw Hs Hlast Hcar Hlat Howed].
  destruct (mutate_ok st loc r n m i (uo_store _ _ _ _ Hu) Hl Hr Hi) as (st' & a & Hm & Ha & Hstep).
  destruct (receiver_step_ok g _ st st' q loc r a Hu Hl Hstep) as (q' & Hu' & _). destruct Hstep as (_ & Hc & _).
  exists st', q'. split; [exact Hm|]. pose proof (AtomicDiffMask.rep_length _ _ _ Hr) as Hlen.
  split; cbn [pending carried ghost_mutate]; try assumption.
  - exact (step_widths _ _ _ _ _ _ _ _ _ Hw Hl Hc Hr Ha).
  - intros p key j Hj. destruct (listens self key loc && (j =? i)); [discriminate|now apply Hcar].
  - intros p p' key m0 j Hj. destruct (listens self key loc && (j =? i)); [discriminate|now apply Hlat].
  - intros key j Hj. destruct (listens self key loc && (j =? i)) eqn:Hcase; intros Hp.
    + apply andb_true_iff in Hcase as [Hli%bool_decide_eq_true ->%Z.eqb_eq]. exists loc. split; [exact Hli|]. left.
      rewrite (step_holds st st' loc r a n _ loc i Hl Hc Ha Hj), decide_True by reflexivity. rewrite DiffMask.set_bit_has by lia. now rewrite Z.eqb_refl.
    + destruct (Howed key j Hj Hp) as (l & Hreg & Hor). exists l. split; [exact Hreg|]. destruct Hor as [Hh|Hc']; [left|now right].
      rewrite (step_holds st st' loc r a n _ l j Hl Hc Ha Hj). destruct (decide (l = loc)) as [->|]; [|exact Hh].
      rewrite DiffMask.set_bit_has by lia. rewrite (holds_rep st loc r n m j Hl Hr Hj) in Hh. now destruct (j =? i).
Qed.

(** ** A component is sent *)

(** No packet in flight falls 65536 packets behind when [p] becomes the last one,
    and [p] does not carry the component yet. *)
Definition can_send (self : EntityUpdateManager) (p : Z) (key : E * K) : Prop :=
  in_u 16 p /\ packet_mask self.(sent_updates) p key = None /\
  forall p' key' m, packet_mask self.(sent_updates) p' key' = Some m -> age self.(last_update_packet_index) p' + age p self.(last_update_packet_index) < 65536.

Lemma packet_mask_insert sent p time masks key m p' key' : default (time, ∅) (sent !! p) = (time, masks) ->
  packet_mask (<[p := (time, <[key := m]> masks)]> sent) p' key' =
  if decide (p' = p /\ key' = key) then Some m else packet_mask sent p' key'.
Proof.
  intros Hd. unfold packet_mask. destruct (decide (p' = p)) as [->|Hne].
  - rewrite lookup_insert_eq. destruct (decide (key' = key)) as [->|Hk].
    + rewrite decide_True by auto. apply lookup_insert_eq.
    + rewrite decide_False by tauto. rewrite lookup_insert_ne by congruence.
      destruct (sent !! p) as [[t ms]|]; cbn in Hd; injection Hd; intros; subst; [reflexivity|apply lookup_empty].
  - rewrite lookup_insert_ne by congruence. rewrite decide_False by (intros [? _]; congruence). reflexivity.
Qed.

Lemma age_shift last p p' : age last p' + age p last < 65536 -> age p p' = age last p' + age p last.
Proof. unfold age, wrapping_sub16, wrap. change (2 ^ 16) with 65536. dlia. Qed.

Lemma age_self p : age p p = 0.
Proof. unfold age, wrapping_sub16. now rewrite Z.sub_diag. Qed.

Lemma send_step g self st gh q now p e k loc : mgr_ok g self st gh q -> self.(diff_handler).(receivers) !! (e, k) = Some loc ->
  can_send self p (e, k) ->
  exists self' st' q' m, get_diff_mask self st e k = Ok m /\ send_update now p e k self st = Ok (self', st') /\
    mgr_ok g self' st' (ghost_send p (e, k) m gh) q'.
Proof.
  intros [Hu Hw Hs Hlast Hcar Hlat Howed] Hreg (Hp & Hnone & Hage). destruct (Hw e k loc Hreg) as (r & m & Hl & Hr).
  destruct (User_clear_ok g _ st q e k loc r _ m Hu Hreg Hl Hr) as (st' & a & q' & Hcl & Hu' & _ & Ha & Hc & _).
  unfold send_update, get_diff_mask, diff_mask_snapshot. rewrite Hreg. cbn [unwrap]. rewrite bind_ok, Hl. cbn [unwrap].
  rewrite bind_ok, (AtomicDiffMask.rep_snapshot _ _ _ Hr), bind_ok. unfold record_update.
  destruct (default (now, ∅) (self.(sent_updates) !! p)) as [time masks] eqn:Hdef.
  assert (default (time, ∅) (self.(sent_updates) !! p) = (time, masks)) as Hdef'
    by (destruct (self.(sent_updates) !! p) as [[t ms]|]; cbn in *; congruence).
  unfold clear_diff_mask. cbn [diff_handler with_sent]. rewrite Hcl, bind_ok.
  do 2 eexists. exists q', m. split; [reflexivity|]. split; [reflexivity|].
  pose proof (packet_mask_insert self.(sent_updates) p time masks (e, k) m) as Hpm.
  split; cbn [diff_handler with_sent sent_updates last_update_packet_index pending carried ghost_send]; try assumption.
  - exact (step_widths _ _ _ _ _ _ _ _ _ Hw Hl Hc Hr Ha).
  - intros p' e' k' m'. rewrite Hpm by exact Hdef'. destruct (decide _) as [[-> Heq]|]; [|now apply Hs].
    injection Heq as -> ->. intros Hm'. injection Hm' as <-. split; [exact Hp|]. split; [apply Hr|apply Hr].
  - intros p' key j Hj. rewrite Hpm by exact Hdef'. case_bool_decide as Hc'.
    + rewrite decide_True by exact Hc'. intros Hb. now exists m.
    + rewrite decide_False by exact Hc'. now apply Hcar.
  - intros p1 p2 key m' j Hj Hc1 Hlt Hm2 Hb2. rewrite Hpm in Hm2 by exact Hdef'.
    destruct (decide (p2 = p /\ key = (e, k))) as [Hy2|Hn2]; [rewrite bool_decide_true by exact Hy2; congruence|].
    rewrite bool_decide_false by exact Hn2. destruct (decide (p1 = p /\ key = (e, k))) as [[-> ->]|Hn1].
    { rewrite age_self in Hlt. pose proof (age_range p p2). lia. }
    rewrite bool_decide_false in Hc1 by exact Hn1. destruct (Hcar p1 key j Hj Hc1) as (m1 & Hm1 & _).
    pose proof (Hage p1 key m1 Hm1) as Ha1. pose proof (Hage p2 key m' Hm2) as Ha2.
    rewrite (age_shift _ _ _ Ha1), (age_shift _ _ _ Ha2) in Hlt. apply (Hlat p1 p2 key m' j Hj Hc1); [lia|assumption..].
  - intros key j Hj Hpend. destruct (Howed key j Hj Hpend) as (l & Hregl & Hor). exists l. split; [exact Hregl|].
    destruct Hor as [Hh|[p0 Hc0]].
    + destruct (decide (l = loc)) as [->|Hne].
      * right. exists p. pose proof (receivers_inj _ _ _ _ _ _ _ Hu Hregl Hreg) as ->. rewrite bool_decide_true by auto.
        now rewrite <- (holds_rep st loc r _ m j Hl Hr Hj).
      * left. rewrite (step_holds st st' loc r a _ _ l j Hl Hc Ha Hj). now rewrite decide_False.
    + right. exists p0. case_bool_decide as Hcb; [|exact Hc0]. destruct Hcb as [-> ->]. destruct (Hcar p (e, k) j Hj Hc0) as (m0 & Hm0 & _). congruence.
Qed.

(** ** A packet is acknowledged *)
Lemma packet_mask_delete (sent : gmap Z (Z * gmap (E * K) DiffMask.DiffMask)) p p' key : packet_mask (delete p sent) p' key = if decide (p' = p) then None else packet_mask sent p' key.
Proof.
  unfold packet_mask. destruct (decide (p' = p)) as [->|Hne]; [now rewrite lookup_delete_eq|now rewrite lookup_delete_ne].
Qed.

Lemma deliver_step g self st gh q p : mgr_ok g self st gh q -> mgr_ok g (Updates_notify_packet_delivered p self) st (ghost_deliver p gh) q.
Proof.
  intros [Hu Hw Hs Hlast Hcar Hlat Howed]. unfold Updates_notify_packet_delivered.
  split; cbn [diff_handler with_sent sent_updates last_update_packet_index pending carried ghost_deliver]; try assumption.
  - intros p' e k m. rewrite packet_mask_delete. destruct (decide _); [discriminate|apply Hs].
  - intros p' key i Hi. rewrite packet_mask_delete. intros [Hp%negb_true_iff%Z.eqb_neq Hc]%andb_true_iff. rewrite decide_False by exact Hp. now apply Hcar.
  - intros p1 p2 key m i Hi Hc Hlt. rewrite packet_mask_delete. destruct (decide (p2 = p)) as [|Hne]; [discriminate|]. intros Hm Hb.
    rewrite (proj2 (Z.eqb_neq _ _) Hne). cbn [negb andb]. apply andb_true_iff in Hc as [_ Hc]. exact (Hlat p1 p2 key m i Hi Hc Hlt Hm Hb).
  - intros key i Hi [Hp Hnc%negb_true_iff]%andb_true_iff. destruct (Howed key i Hi Hp) as (l & Hreg & Hor). exists l. split; [exact Hreg|].
    destruct Hor as [Hh|[p0 Hc0]]; [now left|]. right. exists p0. rewrite Hc0, andb_true_r. apply negb_true_iff, Z.eqb_neq. congruence.
Qed.

(** ** A packet is lost *)
Hypothesis Hiter : forall m, iter m ≡ₚ map_to_list m.

(** The masks only gain properties. *)
Definition holds_le (st st' : Store) : Prop := forall loc i, 0 <= i -> holds st loc i = true -> holds st' loc i = true.

(** One component of the lost packet [p]: its properties are back in the mask, or
    in a later packet. *)
Definition returned (self : EntityUpdateManager) (p : Z) (entry : (E * K) * DiffMask.DiffMask) (st : Store) : Prop :=
  forall loc i, self.(diff_handler).(receivers) !! entry.1 = Some loc -> 0 <= i -> DiffMask.has entry.2 i = true ->
    holds st loc i = true \/ exists p' m, age self.(last_update_packet_index) p' < age self.(last_update_packet_index) p /\
      packet_mask self.(sent_updates) p' entry.1 = Some m /\ DiffMask.has m i = true.

Lemma cleanup_component_ok g self st p e k m : (exists q, user_ok g self.(diff_handler) st q) -> widths_ok self.(diff_handler) st ->
  in_u 16 p -> in_u 16 self.(last_update_packet_index) ->
  (forall p' m', packet_mask self.(sent_updates) p' (e, k) = Some m' -> DiffMask.mask_ok m' /\ Z.of_nat (length m'.(DiffMask.mask)) = width k) ->
  DiffMask.mask_ok m -> Z.of_nat (length m.(DiffMask.mask)) = width k ->
  exists st', cleanup_component self p ((e, k), m) st = Ok st' /\ ((exists q', user_ok g self.(diff_handler) st' q') /\ widths_ok self.(diff_handler) st') /\
    holds_le st st' /\ returned self p ((e, k), m) st'.
Proof.
  intros [q Hu] Hw Hp Hlast Hms Hm Hlen. unfold cleanup_component, diff_handler_has_component, User_has_component. cbn [fst snd].
  destruct (self.(diff_handler).(receivers) !! (e, k)) as [loc|] eqn:Hreg; cbn [negb].
  2: { exists st. split; [reflexivity|]. split; [eauto|]. split; [intros l i _ Hh; exact Hh|]. intros l i Hl. cbn in Hl. congruence. }
  assert (exists nm, (if p =? self.(last_update_packet_index) then Ok m else walk walk_fuel self.(sent_updates) self.(last_update_packet_index) (e, k) (wrapping_add16 p 1) m) = Ok nm /\
    DiffMask.mask_ok nm /\ Z.of_nat (length nm.(DiffMask.mask)) = width k /\
    forall i, 0 <= i -> DiffMask.has m i = true -> DiffMask.has nm i = true \/ exists p' m', age self.(last_update_packet_index) p' < age self.(last_update_packet_index) p /\
      packet_mask self.(sent_updates) p' (e, k) = Some m' /\ DiffMask.has m' i = true) as (nm & -> & Hnm & Hnl & Hret).
  { destruct (Z.eqb_spec p self.(last_update_packet_index)) as [->|Hne]; [exists m; split_and!; auto|].
    destruct (age_next _ p Hp Hne Hlast) as [Hp' Hage'].
    destruct (walk_ok self.(sent_updates) _ (e, k) (width k) Hlast Hms walk_fuel (wrapping_add16 p 1) m Hp') as (nm & -> & Hok & Hl & Hh); [|exact Hm|exact Hlen|].
    - pose proof (age_range self.(last_update_packet_index) p). unfold walk_fuel. rewrite Z2Nat.id by lia. lia.
    - exists nm. split_and!; try assumption; [reflexivity|]. intros i Hi Hb. destruct (Hh i Hi Hb) as [Hr|(p' & m' & _ & Ha & Hrest)]; [now left|].
      right. exists p', m'. split; [lia|exact Hrest]. }
  rewrite bind_ok. destruct (Hw e k loc Hreg) as (r & m0 & Hl & Hr).
  destruct (or_mask_ok st loc r _ m0 nm (uo_store _ _ _ _ Hu) Hl Hr Hnm Hnl) as (st' & a & m1 & Hor & Hm1 & Ha & Hstep).
  destruct (receiver_step_ok g _ st st' q loc r a Hu Hl Hstep) as (q' & Hu' & _). destruct Hstep as (_ & Hc & _).
  destruct (DiffMask.or_ok m0 nm (AtomicDiffMask.rep_mask _ _ _ Hr) Hnm) as (m2 & Hm2 & _ & _ & Hh); [pose proof (AtomicDiffMask.rep_length _ _ _ Hr); lia|].
  rewrite Hm1 in Hm2. injection Hm2 as <-. exists st'. unfold or_diff_mask, User_or_diff_mask. rewrite Hreg. cbn [unwrap]. rewrite bind_ok.
  split; [exact Hor|]. split; [split; [eauto|exact (step_widths _ _ _ _ _ _ _ _ _ Hw Hl Hc Hr Ha)]|]. split.
  - intros l i Hi Hhold. rewrite (step_holds st st' loc r a _ _ l i Hl Hc Ha Hi). destruct (decide (l = loc)) as [->|]; [|exact Hhold].
    rewrite Hh by exact Hi. rewrite (holds_rep st loc r _ m0 i Hl Hr Hi) in Hhold. now rewrite Hhold.
  - intros l i Hl' Hi Hb. cbn [fst snd] in *. assert (l = loc) as -> by congruence. destruct (Hret i Hi Hb) as [Hn|Hlater]; [left|now right].
    rewrite (step_holds st st' loc r a _ _ loc i Hl Hc Ha Hi), decide_True by reflexivity. rewrite Hh, Hn by exact Hi. apply orb_true_r.
Qed.

Lemma drop_step g self st gh q p : mgr_ok g self st gh q ->
  exists self' st' q', dropped_update_cleanup p self st = Ok (self', st') /\ self'.(diff_handler) = self.(diff_handler) /\
    self'.(sent_updates) = delete p self.(sent_updates) /\ mgr_ok g self' st' (ghost_drop p gh) q'.
Proof.
  intros [Hu Hw Hs Hlast Hcar Hlat Howed]. unfold dropped_update_cleanup.
  destruct (self.(sent_updates) !! p) as [[t masks]|] eqn:Hp.
  - set (self' := with_sent self (delete p self.(sent_updates)) self.(last_update_packet_index)).
    assert (forall key m, (key, m) ∈ iter masks <-> packet_mask self.(sent_updates) p key = Some m) as Hin.
    { intros key m. rewrite Hiter, elem_of_map_to_list. unfold packet_mask. now rewrite Hp. }
    destruct (foldM_mono holds_le (fun st => (exists q, user_ok g self'.(diff_handler) st q) /\ widths_ok self'.(diff_handler) st)
      (returned self' p) (cleanup_component self' p) (iter masks)) with (s := st) as (st' & Hf & [[q' Hu'] Hw'] & Hle & Hret).
    + intros s0 l i _ Hh. exact Hh.
    + intros s1 s2 s3 H12 H23 l i Hi Hh. apply H23; [exact Hi|]. now apply H12.
    + intros entry s1 s2 H12 Hr l i Hl Hi Hb. destruct (Hr l i Hl Hi Hb) as [Hh|Hlater]; [left; now apply H12|now right].
    + intros [[e k] m] s0 Hmem [Hu0 Hw0]. apply Hin in Hmem. destruct (Hs p e k m Hmem) as (Hpu & Hmok & Hmlen).
      apply (cleanup_component_ok g self' s0 p e k m Hu0 Hw0 Hpu Hlast); [|exact Hmok|exact Hmlen].
      intros p' m'. cbn [sent_updates with_sent self']. rewrite packet_mask_delete. destruct (decide _); [discriminate|]. intros Hm'. now apply (Hs p' e k m').
    + split; [now exists q|exact Hw].
    + rewrite Hf, bind_ok. exists self', st', q'. split; [reflexivity|]. split; [reflexivity|]. split; [reflexivity|].
      split; cbn [diff_handler with_sent sent_updates last_update_packet_index pending carried ghost_drop self']; try assumption.
      * intros p' e k m. rewrite packet_mask_delete. destruct (decide _); [discriminate|apply Hs].
      * intros p' key i Hi. rewrite packet_mask_delete. intros [Hpp%negb_true_iff%Z.eqb_neq Hc]%andb_true_iff. rewrite decide_False by exact Hpp. now apply Hcar.
      * intros p1 p2 key m i Hi Hc Hlt. rewrite packet_mask_delete. destruct (decide (p2 = p)) as [|Hne]; [discriminate|]. intros Hm Hb.
        rewrite (proj2 (Z.eqb_neq _ _) Hne). cbn [negb andb]. apply andb_true_iff in Hc as [_ Hc]. exact (Hlat p1 p2 key m i Hi Hc Hlt Hm Hb).
      * intros key i Hi Hpend. destruct (Howed key i Hi Hpend) as (l & Hreg & Hor). exists l. split; [exact Hreg|].
        destruct Hor as [Hh|[p0 Hc0]]; [left; now apply Hle|]. destruct (decide (p0 = p)) as [->|Hne].
        -- destruct (Hcar p key i Hi Hc0) as (m & Hm & Hb). apply Hin in Hm as Hmem. destruct (Hret _ Hmem l i Hreg Hi Hb) as [Hh|(p' & m' & Hlt & Hm' & Hb')]; [now left|].
           right. exists p'. cbn [fst sent_updates with_sent self' last_update_packet_index] in Hm', Hlt. rewrite packet_mask_delete in Hm'. destruct (decide (p' = p)) as [|Hne]; [discriminate|].
           rewrite (proj2 (Z.eqb_neq _ _) Hne). cbn [negb andb]. exact (Hlat p p' key m' i Hi Hc0 Hlt Hm' Hb').
        -- right. exists p0. rewrite Hc0, (proj2 (Z.eqb_neq _ _) Hne). reflexivity.
  - exists self, st, q. split; [reflexivity|]. split; [reflexivity|]. split; [symmetry; now apply delete_id|].
    assert (forall key i, 0 <= i -> gh.(carried) p key i = false) as Hno.
    { intros key i Hi. apply not_true_is_false. intros Hc. destruct (Hcar p key i Hi Hc) as (m & Hm & _). unfold packet_mask in Hm. now rewrite Hp in Hm. }
    split; cbn [pending carried ghost_drop]; try assumption.
    + intros p' key i Hi [_ Hc]%andb_true_iff. now apply Hcar.
    + intros p1 p2 key m i Hi [_ Hc]%andb_true_iff Hlt Hm Hb. rewrite (Hlat p1 p2 key m i Hi Hc Hlt Hm Hb), andb_true_r.
      apply negb_true_iff, Z.eqb_neq. intros ->. unfold packet_mask in Hm. now rewrite Hp in Hm.
    + intros key i Hi Hpend. destruct (Howed key i Hi Hpend) as (l & Hreg & Hor). exists l. split; [exact Hreg|].
      destruct Hor as [Hh|[p0 Hc0]]; [now left|]. right. exists p0. rewrite Hc0, andb_true_r. apply negb_true_iff, Z.eqb_neq. intros ->.
      rewrite (Hno key i Hi) in Hc0. discriminate.
Qed.

(** ** Collecting, registering and deregistering *)
Lemma same_cells_ok g self st st' gh q q' : mgr_ok g self st gh q -> user_ok g self.(diff_handler) st' q' -> st'.(cells) = st.(cells) -> mgr_ok g self st' gh q'.
Proof.
  intros [Hu Hw Hs Hlast Hcar Hlat Howed] Hu' Hc. split; try assumption.
  - intros e k l Hreg. rewrite Hc. exact (Hw e k l Hreg).
  - intros key i Hi Hp. destruct (Howed key i Hi Hp) as (l & Hreg & Hor). exists l. split; [exact Hreg|]. unfold holds in *. now rewrite Hc.
Qed.

Lemma collect_step g self st gh q : mgr_ok g self st gh q ->
  exists result st' q', build_dirty_candidates_from_receivers self st = Ok (result, st') /\ mgr_ok g self st' gh q' /\
    st'.(cells) = st.(cells) /\ forall e k, diff_mask_is_clear self.(diff_handler) st e k = false -> exists ks, result !! e = Some ks /\ k ∈ ks.
Proof.
  intros Hok. destruct (candidates_ok g _ st q (mo_user _ _ _ _ _ Hok)) as (result & st' & q' & Hr & Hu' & _ & Hc & _ & Hall).
  exists result, st', q'. split; [exact Hr|]. split; [exact (same_cells_ok g self st st' gh q q' Hok Hu' Hc)|]. now split.
Qed.

Lemma deregister_step g self st gh q now e k loc : mgr_ok g self st gh q -> self.(diff_handler).(receivers) !! (e, k) = Some loc ->
  exists self' st' q', deregister_component g now e k self st = (self', st') /\ mgr_ok g self' st' (ghost_forget (e, k) gh) q'.
Proof.
  intros [Hu Hw Hs Hlast Hcar Hlat Howed] Hreg. unfold deregister_component.
  destruct (deregister_ok now g _ st q e k loc Hu Hreg) as (u' & st' & q' & -> & Hu' & _ & Hrec & Hc & _).
  exists (with_handler self u'), st', q'. split; [reflexivity|].
  split; cbn [diff_handler with_handler sent_updates last_update_packet_index pending carried ghost_forget]; try assumption.
  - intros e' k' l Hl. rewrite Hrec in Hl. apply lookup_delete_Some in Hl as [_ Hl]. rewrite Hc. exact (Hw e' k' l Hl).
  - intros p key i Hi [_ Hcc]%andb_true_iff. now apply Hcar.
  - intros p1 p2 key m i Hi [Hne Hcc]%andb_true_iff Hlt Hm Hb. rewrite Hne. exact (Hlat p1 p2 key m i Hi Hcc Hlt Hm Hb).
  - intros key i Hi [Hne Hp]%andb_true_iff. apply negb_true_iff, bool_decide_eq_false in Hne as Hk.
    destruct (Howed key i Hi Hp) as (l & Hl & Hor). exists l. split; [rewrite Hrec; apply lookup_delete_Some; split; [congruence|exact Hl]|].
    destruct Hor as [Hh|[p Hpc]]; [left; unfold holds in *; now rewrite Hc|right; exists p; now rewrite Hne].
Qed.

(** A receiver that was just allocated does not matter to the others. *)
Lemma fresh_cell_ok g (u : User) (st st1 : Store) q : user_ok g u st q -> st1.(sets) = st.(sets) ->
  (st1.(cells) = st.(cells) \/ exists n, 0 <= n <= 32 /\ st1.(cells) = st.(cells) ++ [MutReceiver_new n]) -> user_ok g u st1 q.
Proof.
  intros Hu Hsets Hcells.
  assert (forall l r, st1.(cells) !! l = Some r -> st.(cells) !! l = Some r \/ exists n, 0 <= n <= 32 /\ r = MutReceiver_new n) as Hback.
  { intros l r Hl. destruct Hcells as [Hc|(n & Hn & Hc)]; rewrite Hc in Hl; [now left|]. apply lookup_app_Some in Hl as [Hl|[_ Hl]]; [now left|].
    right. exists n. split; [exact Hn|]. apply list_lookup_singleton_Some in Hl as [_ <-]. reflexivity. }
  assert (forall l r, st.(cells) !! l = Some r -> st1.(cells) !! l = Some r) as Hfwd.
  { intros l r Hl. destruct Hcells as [->|(n & _ & ->)]; [exact Hl|]. now apply lookup_app_l_Some. }
  assert (forall l, upgrade st1 l = upgrade st l) as Hup by (intros l; unfold upgrade; now rewrite Hsets).
  destruct Hu as [Hst Hset Hk Ht Hg Hb Htr Hnn Hct]. split; try assumption.
  - destruct Hst as [Hc Hs Hn Hkn]. split.
    + intros l r [Hl|(n & Hr & ->)]%Hback; [exact (Hc l r Hl)|]. exists n. eexists. now apply AtomicDiffMask.rep_new.
    + intros l q0. rewrite Hup. apply Hs.
    + intros l r n q0 [Hl|(n0 & _ & ->)]%Hback Hr; [|discriminate]. rewrite Hup. exact (Hn l r n q0 Hl Hr).
    + intros l r n [Hl|(n0 & _ & ->)]%Hback Hr; [|discriminate]. rewrite Hsets. exact (Hkn l r n Hl Hr).
  - now rewrite Hup.
  - intros e k loc Hreg. destruct (Htr e k loc Hreg) as (idx & b & r & He & Hkb & Hkk & Hl & Hrest). exists idx, b, r. split_and!; try assumption; try apply Hrest. now apply Hfwd.
Qed.

(** When the component can be registered: the handler knows its kind, and the
    receiver it gets is a new one or the one it has, of the kind's width. *)
Definition can_register (g : Global) (self : EntityUpdateManager) (st : Store) (e : E) (k : K) : Prop :=
  exists b loc st1, kind_bit g k = Some b /\ Global_receiver self.(address) e k g st = Ok (Some loc, st1) /\ st1.(sets) = st.(sets) /\
    (st1.(cells) = st.(cells) \/ exists n, 0 <= n <= 32 /\ st1.(cells) = st.(cells) ++ [MutReceiver_new n]) /\
    joinable self.(diff_handler) st1 e k loc /\
    (exists r m, st1.(cells) !! loc = Some r /\ AtomicDiffMask.rep (width k) r.(r_mask) m) /\
    self.(diff_handler).(key_gen).(KeyGenerator32.next_new_key) + 1 < 2 ^ 32 /\
    forall idx c, self.(diff_handler).(components_per_entity) !! idx = Some c -> c + 1 < 2 ^ 32.

(** On the server every new channel gives a user its own new receiver. *)
Lemma server_can_register (g : Global) (self : EntityUpdateManager) (st : Store) q e k b chan a idxs rs : user_ok g self.(diff_handler) st q ->
  kind_bit g k = Some b -> g.(mut_receiver_builders) !! (e, k) = Some chan -> self.(address) = Some a ->
  st.(chans) !! chan = Some (ServerChannel idxs rs (width k)) -> idxs !! a = None -> 0 <= width k <= 32 ->
  self.(diff_handler).(key_gen).(KeyGenerator32.next_new_key) + 1 < 2 ^ 32 ->
  (forall idx c, self.(diff_handler).(components_per_entity) !! idx = Some c -> c + 1 < 2 ^ 32) -> can_register g self st e k.
Proof.
  intros Hu Hk Hb Ha Hch Hidx Hw Hg Hc. unfold can_register, Global_receiver, channel_new_receiver. rewrite Hb, Hch, Ha. cbn [unwrap]. rewrite !bind_ok, Hidx.
  exists b. do 2 eexists. split; [exact Hk|]. split; [reflexivity|]. split; [reflexivity|].
  assert ((st.(cells) ++ [MutReceiver_new (width k)]) !! length st.(cells) = Some (MutReceiver_new (width k))) as Hl
    by (rewrite lookup_app_r, Nat.sub_diag by lia; reflexivity).
  pose proof (AtomicDiffMask.rep_new (width k) Hw) as Hrep. split_and!; [right; exists (width k); now split| | |exact Hg|exact Hc].
  - left. exists (MutReceiver_new (width k)). split; [exact Hl|]. split; [reflexivity|]. split.
    + cbn [r_mask MutReceiver_new]. rewrite (AtomicDiffMask.rep_is_clear _ _ _ Hrep).
      apply DiffMask.is_clear_spec; [apply Hrep|]. intros. apply DiffMask.new_has.
    + intros e' k' Hreg. destruct (uo_tracked _ _ _ _ Hu e' k' _ Hreg) as (i & b' & r & _ & _ & _ & Hlr & _).
      apply lookup_lt_Some in Hlr. lia.
  - do 2 eexists. split; [exact Hl|exact Hrep].
Qed.

Lemma register_step g self st gh q now e k : mgr_ok g self st gh q -> can_register g self st e k ->
  exists self' st' q', register_component g now e k self st = Ok (self', st') /\
    mgr_ok g self' st' (ghost_op g (OpRegister now e k) (self, st) gh) q'.
Proof.
  intros [Hu Hw Hs Hlast Hcar Hlat Howed] (b & loc & st1 & Hk & Hrecv & Hsets & Hcells & Hjoin & (r & m & Hl & Hr) & Hgen & Hcnt).
  pose proof (fresh_cell_ok g _ st st1 q Hu Hsets Hcells) as Hu1.
  destruct (User_register_ok now g _ st st1 q _ e k b loc Hu1 Hk Hrecv Hjoin Hgen Hcnt) as (u' & st' & q' & Hreg & Hu' & _ & Hrec & Hmask).
  unfold register_component. rewrite Hreg, bind_ok. exists (with_handler self u'), st', q'. split; [reflexivity|].
  cbn [ghost_op fst snd]. rewrite Hrecv.
  assert (forall l r0, st1.(cells) !! l = Some r0 -> exists r1, st'.(cells) !! l = Some r1 /\ r1.(r_mask) = r0.(r_mask)) as Hm1.
  { intros l r0 Hl0. specialize (Hmask l). rewrite Hl0 in Hmask. destruct (st'.(cells) !! l) as [r1|]; [|discriminate]. cbn in Hmask. injection Hmask as Hmask. eauto. }
  assert (forall l r0, st.(cells) !! l = Some r0 -> st1.(cells) !! l = Some r0) as Hm0.
  { intros l r0 Hl0. destruct Hcells as [->|(n & _ & ->)]; [exact Hl0|now apply lookup_app_l_Some]. }
  assert (forall l r0 i, st.(cells) !! l = Some r0 -> holds st' l i = holds st l i) as Hholds.
  { intros l r0 i Hl0. destruct (Hm1 l r0 (Hm0 l r0 Hl0)) as (r1 & Hl1 & Heq). unfold holds. now rewrite Hl0, Hl1, Heq. }
  assert (widths_ok u' st') as Hw'.
  { intros e' k' l. rewrite Hrec, lookup_insert_Some. intros [[Heq <-]|[_ Hold]].
    - injection Heq as <- <-. destruct (Hm1 loc r Hl) as (r1 & Hl1 & Hmk). exists r1, m. now rewrite Hmk.
    - destruct (Hw e' k' l Hold) as (r0 & m0 & Hl0 & Hr0). destruct (Hm1 l r0 (Hm0 l r0 Hl0)) as (r1 & Hl1 & Hmk). exists r1, m0. now rewrite Hmk. }
  assert (forall key l i, key <> (e, k) \/ l = loc -> self.(diff_handler).(receivers) !! key = Some l ->
     u'.(receivers) !! key = Some l /\ holds st' l i = holds st l i) as Hkeep.
  { intros [e' k'] l i Hor Hold. destruct (Hw e' k' l Hold) as (r0 & m0 & Hl0 & _). split; [|exact (Hholds l r0 i Hl0)].
    rewrite Hrec. destruct (decide ((e', k') = (e, k))) as [Heq|Hne]; [|now rewrite lookup_insert_ne by congruence].
    destruct Hor as [Hn| ->]; [contradiction|]. rewrite Heq. apply lookup_insert_eq. }
  unfold listens. case_bool_decide as Hcase.
  - split; cbn [diff_handler with_handler sent_updates last_update_packet_index]; try assumption.
    intros key i Hi Hp. destruct (Howed key i Hi Hp) as (l & Hold & Hor).
    destruct (Hkeep key l i) as [Hnew Hh]; [destruct (decide (key = (e, k))) as [->|]; [right; congruence|now left]|exact Hold|].
    exists l. split; [exact Hnew|]. now rewrite Hh.
  - split; cbn [diff_handler with_handler sent_updates last_update_packet_index pending carried ghost_forget]; try assumption.
    + intros p key i Hi [_ Hc]%andb_true_iff. now apply Hcar.
    + intros p1 p2 key m' i Hi [Hne Hc]%andb_true_iff Hlt Hm' Hb'. rewrite Hne. exact (Hlat p1 p2 key m' i Hi Hc Hlt Hm' Hb').
    + intros key i Hi [Hne Hp]%andb_true_iff. apply negb_true_iff, bool_decide_eq_false in Hne as Hk'. destruct (Howed key i Hi Hp) as (l & Hold & Hor).
      destruct (Hkeep key l i (or_introl Hk') Hold) as [Hnew Hh]. exists l. split; [exact Hnew|]. rewrite Hh.
      destruct Hor as [Hx|[p Hc]]; [now left|right; exists p; now rewrite Hne].
Qed.

(** * Reachable states *)
Definition valid (g : Global) (op : upd_op) (ms : EntityUpdateManager * Store) : Prop :=
  match op with
  | OpMutate loc i => exists r n m, ms.2.(cells) !! loc = Some r /\ AtomicDiffMask.rep n r.(r_mask) m /\ 0 <= i < 8 * n
  | OpSend _ p e k => is_Some (ms.1.(diff_handler).(receivers) !! (e, k)) /\ can_send ms.1 p (e, k)
  | OpDelivered _ | OpDropped _ | OpCollect => True
  | OpRegister _ e k => can_register g ms.1 ms.2 e k
  | OpDeregister _ e k => is_Some (ms.1.(diff_handler).(receivers) !! (e, k))
  end.

(** The protocol is known when the manager is made: every kind has a bit of its
    own below the kind count. *)
Definition protocol_known (g : Global) : Prop :=
  0 <= kind_count g < 2 ^ 16 /\ (forall k b, kind_bit g k = Some b -> 0 <= b < kind_count g) /\
  forall k k' b, kind_bit g k = Some b -> kind_bit g k' = Some b -> k = k'.

Inductive reach : Global -> EntityUpdateManager * Store -> Ghost -> Prop :=
| reach_new g addr st : store_ok st -> protocol_known g -> reach g (Manager_new addr g st) ghost_new
| reach_step g op ms ms' gh : reach g ms gh -> valid g op ms -> upd_run_op g op ms = Ok ms' -> reach g ms' (ghost_op g op ms gh)
| reach_channels g g' self st st' gh : reach g (self, st) gh -> g'.(kind_bits) = g.(kind_bits) -> st'.(sets) = st.(sets) ->
    (st'.(cells) = st.(cells) \/ exists n, 0 <= n <= 32 /\ st'.(cells) = st.(cells) ++ [MutReceiver_new n]) -> reach g' (self, st') gh.

Lemma same_kinds_ok (g g' : Global) (u : User) (st : Store) q : user_ok g u st q -> g'.(kind_bits) = g.(kind_bits) -> user_ok g' u st q.
Proof.
  intros [Hst Hset [Hf Hi Hs] Ht Hg Hb Htr Hnn Hct] Heq. assert (forall k, kind_bit g' k = kind_bit g k) as Hkb by (intros; unfold kind_bit; now rewrite Heq).
  split; try assumption.
  - split; [intros k b; rewrite Hkb; apply Hf|intros k k' b; rewrite !Hkb; apply Hi|exact Hs].
  - intros i k Hk. rewrite Hkb. now apply Hb.
  - intros e k loc Hreg. destruct (Htr e k loc Hreg) as (idx & b & r & He & Hk & Hrest). exists idx, b, r. rewrite Hkb. split_and!; try assumption; apply Hrest.
Qed.

Lemma upd_step_ok g op ms gh q : mgr_ok g ms.1 ms.2 gh q -> valid g op ms ->
  exists ms' q', upd_run_op g op ms = Ok ms' /\ mgr_ok g ms'.1 ms'.2 (ghost_op g op ms gh) q'.
Proof.
  destruct ms as [self st]. cbn [fst snd]. intros Hok Hv. destruct op as [loc i|now p e k|p|p| |now e k|now e k]; cbn [upd_run_op ghost_op valid fst snd] in *.
  - destruct Hv as (r & n & m & Hl & Hr & Hi). destruct (mutate_step g self st gh q loc i r n m Hok Hl Hr Hi) as (st' & q' & -> & Hok').
    exists (self, st'), q'. now split.
  - destruct Hv as [[loc Hreg] Hsend]. destruct (send_step g self st gh q now p e k loc Hok Hreg Hsend) as (self' & st' & q' & m & -> & Hs & Hok').
    exists (self', st'), q'. now split.
  - eexists (_, _), q. split; [reflexivity|]. now apply deliver_step.
  - destruct (drop_step g self st gh q p Hok) as (self' & st' & q' & Hd & _ & _ & Hok'). exists (self', st'), q'. now split.
  - destruct (collect_step g self st gh q Hok) as (result & st' & q' & -> & Hok' & _). exists (self, st'), q'. now split.
  - destruct (register_step g self st gh q now e k Hok Hv) as (self' & st' & q' & Hr & Hok'). exists (self', st'), q'. now split.
  - destruct Hv as [loc Hreg]. destruct (deregister_step g self st gh q now e k loc Hok Hreg) as (self' & st' & q' & -> & Hok'). exists (self', st'), q'. now split.
Qed.

Lemma reach_ok g ms gh : reach g ms gh -> exists q, mgr_ok g ms.1 ms.2 gh q.
Proof.
  induction 1 as [g addr st Hst (Hc & Hb & Hi)|g op ms ms' gh Hr [q IH] Hv Hrun|g g' self st st' gh Hr [q IH] Hkb Hsets Hcells].
  - unfold Manager_new. destruct (User_new g st) as [u st'] eqn:Hnew. destruct (User_new_ok g st Hst Hc Hb Hi u st' Hnew) as [Hu Hrec].
    exists (DirtyQueue.Queue_new (kind_count g)). cbn [fst snd].
    split; cbn [diff_handler sent_updates last_update_packet_index ghost_new pending carried]; try discriminate; try exact Hu.
    + intros e k loc Hreg. rewrite Hrec in Hreg. now rewrite lookup_empty in Hreg.
    + unfold in_u. lia.
  - destruct (upd_step_ok g op ms gh q IH Hv) as (ms1 & q' & Hrun' & Hok'). rewrite Hrun in Hrun'. injection Hrun' as <-. now exists q'.
  - cbn [fst snd] in *. exists q. destruct IH as [Hu Hw Hs Hlast Hcar Hlat Howed].
    assert (forall l r, st.(cells) !! l = Some r -> st'.(cells) !! l = Some r) as Hfwd.
    { intros l r Hl. destruct Hcells as [->|(n & _ & ->)]; [exact Hl|now apply lookup_app_l_Some]. }
    split; try assumption.
    + apply (same_kinds_ok g); [|exact Hkb]. exact (fresh_cell_ok g _ st st' q Hu Hsets Hcells).
    + intros e k l Hreg. destruct (Hw e k l Hreg) as (r & m & Hl & Hrep). exists r, m. split; [now apply Hfwd|exact Hrep].
    + intros key i Hi Hp. destruct (Howed key i Hi Hp) as (l & Hreg & Hor). exists l. split; [exact Hreg|].
      destruct Hor as [Hh|Hc]; [left|now right]. unfold holds in *. destruct (st.(cells) !! l) as [r|] eqn:Hl; [|discriminate]. now rewrite (Hfwd l r Hl).
Qed.

(** Giving up every packet that is too old is a run of single drops, in whatever
    order the packets are visited. *)
Lemma handle_dropped_reach iter_packets now duration g ms gh : reach g ms gh ->
  exists ms' gh', handle_dropped_update_packets iter_packets now duration ms.1 ms.2 = Ok ms' /\ reach g ms' gh'.
Proof using Type*.
  destruct ms as [self st]. cbn [fst snd]. unfold handle_dropped_update_packets.
  generalize (map fst (filter (fun entry : Z * (Z * gmap (E * K) DiffMask.DiffMask) => duration < now - entry.2.1) (iter_packets self.(sent_updates)))).
  intros ps. revert self st gh. induction ps as [|p ps IH]; intros self st gh Hr; [exists (self, st), gh; now split|].
  destruct (reach_ok g _ gh Hr) as [q Hok]. destruct (upd_step_ok g (OpDropped p) (self, st) gh q Hok I) as ([self1 st1] & _ & Hrun & _).
  cbn [foldM fst snd]. cbn [upd_run_op] in Hrun. rewrite Hrun, bind_ok.
  apply (IH self1 st1 (ghost_op g (OpDropped p) (self, st) gh)). exact (reach_step g (OpDropped p) _ _ gh Hr I Hrun).
Qed.

(** * The update events of a tick *)
Section Events.
Context {W : Type} (replicating : E -> bool) (to_world : E -> option W) (has_entity : W -> bool) (has_component_of_kind : W -> K -> bool).

(** The components of [kinds] of an entity that stay. *)
Definition kept (self : EntityUpdateManager) (st : Store) (e : E) (kinds : gset K) : gset K :=
  match to_world e with
  | Some w => if replicating e && has_entity w then
      filter (fun kind => has_component_of_kind w kind && negb (diff_mask_is_clear self.(diff_handler) st e kind) = true) kinds else ∅
  | None => ∅
  end.

Lemma take_outgoing_ok self st updatable : (forall e, replicating e = true -> is_Some (to_world e)) ->
  exists out, take_outgoing_events replicating to_world has_entity has_component_of_kind self st updatable = Ok out /\
    forall e, out !! e = match updatable !! e with
      | Some kinds => if decide (kept self st e kinds = ∅) then None else Some (kept self st e kinds)
      | None => None
      end.
Proof.
  intros Hworld. unfold take_outgoing_events. set (f := fun entry (out : gmap E (gset K)) => _).
  assert (forall e kinds out, exists out', f (e, kinds) out = Ok out' /\
    forall e', out' !! e' = if decide (e' = e) then if decide (kept self st e kinds = ∅) then None else Some (kept self st e kinds) else out !! e') as Hstep.
  { intros e kinds out. unfold f, kept.
    assert (forall ks : gset K, exists out', (if decide (ks = ∅) then Ok (delete e out) else Ok (<[e := ks]> out)) = Ok out' /\
      forall e', out' !! e' = if decide (e' = e) then if decide (ks = ∅) then None else Some ks else out !! e') as Hput.
    { intros ks. destruct (decide (ks = ∅)); (eexists; split; [reflexivity|]); intros e'; destruct (decide (e' = e)) as [->|Hne];
        rewrite ?lookup_delete_eq, ?lookup_insert_eq, ?lookup_delete_ne, ?lookup_insert_ne by congruence; reflexivity. }
    destruct (Hput ∅) as (oute & Hoe & Hle). rewrite decide_True in Hoe by reflexivity. injection Hoe as <-.
    destruct (replicating e) eqn:Hr; cbn [negb andb].
    - destruct (Hworld e Hr) as [w Hw]. rewrite Hw. cbn [unwrap]. rewrite bind_ok. destruct (has_entity w); cbn [negb]; [apply Hput|].
      eexists. split; [reflexivity|]. exact Hle.
    - eexists. split; [reflexivity|]. destruct (to_world e); exact Hle. }
  assert (forall l out, NoDup l.*1 -> exists out', foldM f l out = Ok out' /\
    forall e, (e ∉ l.*1 -> out' !! e = out !! e) /\ forall kinds, (e, kinds) ∈ l -> out' !! e = if decide (kept self st e kinds = ∅) then None else Some (kept self st e kinds)) as Hfold.
  { induction l as [|[e0 k0] l IH]; intros out Hnd.
    - exists out. split; [reflexivity|]. intros e. split; [reflexivity|]. intros kinds Hin. now apply elem_of_nil in Hin.
    - cbn [fmap list_fmap fst] in Hnd. apply NoDup_cons in Hnd as [Hni Hnd]. destruct (Hstep e0 k0 out) as (out1 & H1 & Hl1).
      destruct (IH out1 Hnd) as (out2 & H2 & Hl2). exists out2. cbn [foldM]. rewrite H1, bind_ok. split; [exact H2|]. intros e. split.
      + intros Hn. cbn [fmap list_fmap fst] in Hn. apply not_elem_of_cons in Hn as [Hne Hn]. rewrite (proj1 (Hl2 e) Hn), Hl1. now rewrite decide_False.
      + intros kinds [Heq|Hin]%elem_of_cons; [|now apply Hl2]. injection Heq as -> ->. rewrite (proj1 (Hl2 e0) Hni), Hl1. now rewrite decide_True. }
  destruct (Hfold (map_to_list updatable) updatable (NoDup_fst_map_to_list updatable)) as (out & Hf & Hl). exists out. split; [exact Hf|].
  intros e. destruct (updatable !! e) as [kinds|] eqn:Hu.
  - apply Hl. now apply elem_of_map_to_list.
  - rewrite (proj1 (Hl e)); [exact Hu|]. intros Hin. apply list_elem_of_fmap in Hin as ([e' ks] & -> & Hin). apply elem_of_map_to_list in Hin. cbn in Hu. congruence.
Qed.

(** The events of a tick, for any candidates. *)
Lemma outgoing_listed self st updatable : (forall e, replicating e = true -> is_Some (to_world e)) ->
  exists out, take_outgoing_events replicating to_world has_entity has_component_of_kind self st updatable = Ok out /\
    forall e k, (exists ks, out !! e = Some ks /\ k ∈ ks) <->
      (exists kinds, updatable !! e = Some kinds /\ k ∈ kinds) /\
      diff_mask_is_clear self.(diff_handler) st e k = false /\ replicating e = true /\
      exists w, to_world e = Some w /\ has_entity w = true /\ has_component_of_kind w k = true.
Proof.
  intros Hworld. destruct (take_outgoing_ok self st updatable Hworld) as (out & Hout & Hlook). exists out. split; [exact Hout|].
  assert (forall e k kinds, k ∈ kept self st e kinds <-> k ∈ kinds /\ diff_mask_is_clear self.(diff_handler) st e k = false /\ replicating e = true /\
      exists w, to_world e = Some w /\ has_entity w = true /\ has_component_of_kind w k = true) as Hkept.
  { intros e k kinds. unfold kept. destruct (to_world e) as [w|] eqn:Hw.
    - destruct (replicating e) eqn:Hre, (has_entity w) eqn:Hhe; cbn [andb].
      2-4: split; [intros Hin; now apply not_elem_of_empty in Hin|]; intros (_ & _ & Hx & w' & Hw' & Hy & _); congruence.
      rewrite elem_of_filter, andb_true_iff, negb_true_iff. split.
      + intros [[Hc1 Hd] Hin]. split_and!; eauto.
      + intros (Hin & Hd & _ & w' & Hw' & _ & Hc1). injection Hw' as <-. now split_and!.
    - split; [intros Hin; now apply not_elem_of_empty in Hin|]. intros (_ & _ & _ & w' & Hw' & _). discriminate. }
  intros e k. rewrite Hlook. split.
  - intros (ks & Hks & Hin). destruct (updatable !! e) as [kinds|]; [|discriminate]. destruct (decide _); [discriminate|]. injection Hks as <-.
    apply Hkept in Hin as [Hin Hrest]. split; [eauto|exact Hrest].
  - intros ((kinds & Hke & Hin) & Hk). rewrite Hke. assert (k ∈ kept self st e kinds) as Hmem by now apply Hkept.
    destruct (decide _) as [He|_]; [rewrite He in Hmem; now apply not_elem_of_empty in Hmem|]. eauto.
Qed.

(** The update events of a tick: in every reachable state collecting the
    candidates and filtering them does not panic, changes no mask, and yields
    exactly the components that are registered with a mask that is not clear and
    that a replicated entity of the world still has. *)
Theorem update_events_exact g self st gh : reach g (self, st) gh -> (forall e, replicating e = true -> is_Some (to_world e)) ->
  exists candidates st' out, build_dirty_candidates_from_receivers self st = Ok (candidates, st') /\ st'.(cells) = st.(cells) /\
    take_outgoing_events replicating to_world has_entity has_component_of_kind self st' candidates = Ok out /\
    forall e k, (exists ks, out !! e = Some ks /\ k ∈ ks) <->
      diff_mask_is_clear self.(diff_handler) st e k = false /\ replicating e = true /\
      exists w, to_world e = Some w /\ has_entity w = true /\ has_component_of_kind w k = true.
Proof using Type*.
  intros Hr Hworld. destruct (reach_ok g _ gh Hr) as [q Hok]. cbn [fst snd] in Hok.
  destruct (collect_step g self st gh q Hok) as (cands & st' & q' & Hc & _ & Hcells & Hall).
  destruct (outgoing_listed self st' cands Hworld) as (out & Hout & Hlist). exists cands, st', out. split_and!; try assumption.
  intros e k. rewrite Hlist. unfold diff_mask_is_clear. rewrite Hcells. split; [tauto|].
  intros Hk. split; [apply (Hall e k), Hk|exact Hk].
Qed.
End Events.

(** Every step of the update manager that is allowed in a reachable state
    (a property change, a component sent, a packet acknowledged or given up, the
    candidates listed, a component registered or deregistered) returns: no panic,
    and the walk over the packets in flight ends within its 65536 steps. *)
Theorem update_steps_return g op ms gh : reach g ms gh -> valid g op ms -> exists ms', upd_run_op g op ms = Ok ms'.
Proof using Type*.
  intros Hr Hv. destruct (reach_ok g ms gh Hr) as [q Hok]. destruct (upd_step_ok g op ms gh q Hok Hv) as (ms' & _ & Hrun & _). eauto.
Qed.

(** C7: No property change is lost: in every reachable state a property that
    has changed and whose change no acknowledged packet carried belongs to a
    registered component, and is set in its mask or in the mask of a packet in
    flight.  So when nothing is in flight and the mask is clear, the user has
    acknowledged every change of the component. *)
Theorem no_change_lost g self st gh key i : reach g (self, st) gh -> 0 <= i ->
  (gh.(pending) key i = true -> exists loc, self.(diff_handler).(receivers) !! key = Some loc /\
     (holds st loc i = true \/ exists p m, packet_mask self.(sent_updates) p key = Some m /\ DiffMask.has m i = true)) /\
  (self.(sent_updates) = ∅ -> diff_mask_is_clear self.(diff_handler) st key.1 key.2 = true -> gh.(pending) key i = false).
Proof using Type*.
  intros Hr Hi. destruct (reach_ok g _ gh Hr) as [q Hok]. cbn [fst snd] in Hok. destruct Hok as [Hu Hw _ _ Hcar _ Howed].
  assert (gh.(pending) key i = true -> exists loc, self.(diff_handler).(receivers) !! key = Some loc /\
     (holds st loc i = true \/ exists p m, packet_mask self.(sent_updates) p key = Some m /\ DiffMask.has m i = true)) as Hmain.
  { intros Hp. destruct (Howed key i Hi Hp) as (loc & Hreg & Hor). exists loc. split; [exact Hreg|]. destruct Hor as [Hh|[p Hc]]; [now left|].
    right. destruct (Hcar p key i Hi Hc) as (m & Hm & Hb). eauto. }
  split; [exact Hmain|]. intros Hempty Hclear. apply not_true_is_false. intros Hp. destruct (Hmain Hp) as (loc & Hreg & Hor).
  destruct Hor as [Hh|(p & m & Hm & _)]; [|unfold packet_mask in Hm; rewrite Hempty in Hm; now rewrite lookup_empty in Hm].
  destruct key as [e k]. cbn [fst snd] in Hclear. destruct (Hw e k loc Hreg) as (r & m & Hl & Hrep).
  unfold diff_mask_is_clear in Hclear. rewrite Hreg, Hl, (AtomicDiffMask.rep_is_clear _ _ _ Hrep) in Hclear.
  rewrite (holds_rep st loc r _ m i Hl Hrep Hi) in Hh. apply DiffMask.is_clear_spec with (i := i) in Hclear; [congruence|apply Hrep|exact Hi].
Qed.
End Manager.

(** * A run *)
Module Sample.
Definition order (m : gmap (Z * Z) DiffMask.DiffMask) : list ((Z * Z) * DiffMask.DiffMask) := map_to_list m.
Definition width (_ : Z) : Z := 1.
Abbreviation G := (@GlobalDiffHandler Z Z _ _ _ _).
Definition g0 : G := {| mut_receiver_builders := ∅; kind_bits := {[ 1 := 0; 2 := 1 ]}; max_kind_count := 2 |}.
Definition st0 : @Store nat _ _ := {| cells := []; sets := []; chans := [] |}.
Definition g1 : G := {| mut_receiver_builders := {[ (7, 1) := 0%nat ]}; kind_bits := {[ 1 := 0; 2 := 1 ]}; max_kind_count := 2 |}.

(** The channel of component 1 of entity 7 is made after the user joined. *)
Definition with_channel (st : @Store nat _ _) : @Store nat _ _ :=
  {| cells := st.(cells); sets := st.(sets); chans := [ServerChannel ∅ [] 1] |}.

Definition run (ops : list upd_op) : res (EntityUpdateManager * Store) :=
  let '(self, st) := Manager_new (Some 9%nat) g0 st0 in foldM (upd_run_op order g1) ops (self, with_channel st).

(** Registered, changed, sent in packet 3, changed again, and packet 3 given up. *)
Definition ops : list upd_op :=
  [OpRegister 0 7 1; OpMutate 0 2; OpSend 0 3 7 1; OpMutate 0 5; OpDropped 3].

Definition state (n : nat) : EntityUpdateManager * Store :=
  match run (take n ops) with Ok ms => ms | _ => Manager_new None g0 st0 end.

Fixpoint ghost (n : nat) : Ghost :=
  match n with
  | O => ghost_new
  | S n' => match ops !! n' with Some op => ghost_op g1 op (state n') (ghost n') | None => ghost n' end
  end.

Abbreviation reached := (reach order width g1).

Lemma store0_ok : store_ok st0.
Proof.
  split.
  - intros [|loc] r Hl; discriminate Hl.
  - intros [|loc] q Hq; discriminate Hq.
  - intros [|loc] r n q Hl; discriminate Hl.
  - intros [|loc] r n Hl; discriminate Hl.
Qed.

Lemma known0 : protocol_known g0.
Proof.
  split; [cbn; lia|]. assert (forall k b, kind_bit g0 k = Some b -> (k = 1 /\ b = 0) \/ (k = 2 /\ b = 1)) as Hb.
  { intros k b Hk. unfold kind_bit, g0 in Hk. cbn [kind_bits] in Hk. apply lookup_insert_Some in Hk as [[<- <-]|[_ Hk]]; [auto|].
    apply lookup_singleton_Some in Hk as [<- <-]. auto. }
  split.
  - intros k b Hk. apply Hb in Hk. cbn. lia.
  - intros k k' b Hk Hk'. apply Hb in Hk. apply Hb in Hk'. lia.
Qed.

Lemma reach0 : reached (state 0) (ghost 0).
Proof.
  pose proof (reach_new order width g0 (Some 9%nat) st0 store0_ok known0) as Hr.
  exact (reach_channels order width g0 g1 (state 0).1 _ (state 0).2 _ Hr eq_refl eq_refl (or_introl eq_refl)).
Qed.

Lemma step n op : ops !! n = Some op -> valid width g1 op (state n) -> upd_run_op order g1 op (state n) = Ok (state (S n)) ->
  reached (state n) (ghost n) -> reached (state (S n)) (ghost (S n)).
Proof. intros Hop Hv Hrun Hr. cbn [ghost]. rewrite Hop. exact (reach_step order width g1 op _ _ _ Hr Hv Hrun). Qed.

(** The receiver of the run: a mask of one byte, clear when it is looked at. *)
Lemma clear_cell n r : (state n).2.(cells) !! 0%nat = Some r -> r.(r_mask) = AtomicDiffMask.AtomicMask_new 1 ->
  forall i, 0 <= i < 8 -> valid width g1 (OpMutate 0 i) (state n).
Proof.
  intros Hl Hm i Hi. exists r, 1, (DiffMask.new 1). split; [exact Hl|]. rewrite Hm. split; [apply AtomicDiffMask.rep_new; lia|lia].
Qed.

Lemma reach3 : reached (state 3) (ghost 3).
Proof.
  apply (step 2 (OpSend 0 3 7 1)); [reflexivity| |vm_compute; reflexivity|].
  { split; [eexists; vm_compute; reflexivity|]. split; [unfold in_u; lia|]. split; [vm_compute; reflexivity|].
    intros p' key' m Hm. assert ((state 2).1.(sent_updates) = ∅) as Hs by (vm_compute; reflexivity).
    unfold packet_mask in Hm. rewrite Hs in Hm. now rewrite lookup_empty in Hm. }
  apply (step 1 (OpMutate 0 2)); [reflexivity| |vm_compute; reflexivity|].
  { eapply clear_cell; [vm_compute; reflexivity|vm_compute; reflexivity|lia]. }
  apply (step 0 (OpRegister 0 7 1)); [reflexivity| |vm_compute; reflexivity|exact reach0].
  destruct (reach_ok order width (fun _ => reflexivity _) g1 _ _ reach0) as [q Hok].
  change (can_register width g1 (state 0).1 (state 0).2 7 1).
  eapply (server_can_register width g1 (state 0).1 (state 0).2 q 7 1 0 0%nat 9%nat ∅ []);
    [exact (mo_user _ _ _ _ _ _ Hok)|vm_compute; reflexivity..| | | ].
  - unfold width. lia.
  - vm_compute. reflexivity.
  - intros idx c Hc. assert ((state 0).1.(diff_handler).(components_per_entity) = ∅) as He by (vm_compute; reflexivity).
    rewrite He in Hc. now rewrite lookup_empty in Hc.
Qed.

Lemma reach5 : reached (state 5) (ghost 5).
Proof.
  apply (step 4 (OpDropped 3)); [reflexivity|exact I|vm_compute; reflexivity|].
  apply (step 3 (OpMutate 0 5)); [reflexivity| |vm_compute; reflexivity|exact reach3].
  eapply clear_cell; [vm_compute; reflexivity|vm_compute; reflexivity|lia].
Qed.

(** After the loss both changes are back in the mask, and nothing is in flight. *)
Lemma no_change_lost_witness : (ghost 5).(pending) (7, 1) 2 = true /\ (state 5).1.(sent_updates) = ∅ /\
  exists loc, (state 5).1.(diff_handler).(receivers) !! (7, 1) = Some loc /\
    (holds (state 5).2 loc 2 = true \/ exists p m, packet_mask (state 5).1.(sent_updates) p (7, 1) = Some m /\ DiffMask.has m 2 = true).
Proof.
  split; [vm_compute; reflexivity|]. split; [vm_compute; reflexivity|].
  apply (no_change_lost order width (fun _ => reflexivity _) g1 (state 5).1 (state 5).2 (ghost 5) (7, 1) 2).
  - exact reach5.
  - lia.
  - vm_compute. reflexivity.
Defined.

Lemma update_steps_return_witness : exists ms', upd_run_op order g1 (OpDropped 3) (state 5) = Ok ms'.
Proof. apply (update_steps_return order width (fun _ => reflexivity _) g1 (OpDropped 3) (state 5) (ghost 5) reach5). exact I. Defined.

Lemma update_events_exact_witness : exists candidates st' out,
  build_dirty_candidates_from_receivers (state 5).1 (state 5).2 = Ok (candidates, st') /\ st'.(cells) = (state 5).2.(cells) /\
  take_outgoing_events (fun e => bool_decide (e = 7)) Some (fun _ => true) (fun _ k => k =? 1) (state 5).1 st' candidates = Ok out /\
  exists ks, out !! 7 = Some ks /\ 1 ∈ ks.
Proof.
  destruct (update_events_exact order width (fun _ => reflexivity _) (fun e => bool_decide (e = 7)) Some (fun _ => true) (fun _ k => k =? 1)
    g1 (state 5).1 (state 5).2 (ghost 5)) as (cands & st' & out & Hc & Hcells & Hout & Hiff).
  - exact reach5.
  - intros e _. now exists e.
  - exists cands, st', out. split_and!; try assumption. apply Hiff. split; [vm_compute; reflexivity|]. split; [vm_compute; reflexivity|]. now exists 7.
Defined.
End Sample.

(** * Where tracking is lost *)

(** The reachable states above leave out some call orders that the callers do
    produce.  Each of these runs uses the operations as they are and ends with a
    registered component whose change is not listed, or with a panic. *)
Module Hazards.
Import Sample.

(** Evaluates the conjuncts one after the other, each run before the next uses its result. *)
Ltac run_it := repeat (split; [vm_compute; reflexivity|]); vm_compute; reflexivity.

Abbreviation State := (@EntityUpdateManager Z Z nat _ _ _ _ * @DiffHandlers.Store nat _ _)%type.

(** Global handler with the channels of entity 7, and a store to start from. *)
Definition globals (builders : list ((Z * Z) * nat)) : G :=
  {| mut_receiver_builders := list_to_map builders; kind_bits := {[ 1 := 0; 2 := 1 ]}; max_kind_count := 2 |}.

Definition start (addr : option nat) (rs : list MutReceiver) (cs : list (MutChannelData nat)) : State :=
  Manager_new addr g0 {| cells := rs; sets := []; chans := cs |}.

(** What the tick would send, with entity 7 replicated and all its components in
    the world, and whether the component's mask has a change. *)
Definition events (ms : State) : res (gmap Z (gset Z)) :=
  r ← build_dirty_candidates_from_receivers ms.1 ms.2;
  take_outgoing_events (fun _ => true) Some (fun _ => true) (fun _ _ => true) ms.1 r.2 r.1.

Definition lift (f : @DiffHandlers.Store nat _ _ -> res (@DiffHandlers.Store nat _ _)) (ms : State) : res State :=
  st ← f ms.2; Ok (ms.1, st).

(** A component that is removed and inserted again before the user has
    acknowledged the removal stops being updated.  [insert_component] registers
    the new receiver at once; the acknowledgement of the old removal then
    deregisters the component, and a later change of it, which its channel still
    marks, is filtered out of the update events because no receiver is registered. *)
Theorem reinsert_before_ack_stops_updates :
  exists ms ms', (ms0 ← register_component (globals [((7, 1), 0%nat)]) 0 7 1
                    (start (Some 9%nat) [] [ServerChannel ∅ [] 1; ServerChannel ∅ [] 1]).1
                    (start (Some 9%nat) [] [ServerChannel ∅ [] 1; ServerChannel ∅ [] 1]).2;
                  register_component (globals [((7, 1), 1%nat)]) 0 7 1 ms0.1 ms0.2) = Ok ms /\
    lift (send 1 2) (deregister_component (globals [((7, 1), 1%nat)]) 50 7 1 ms.1 ms.2) = Ok ms' /\
    diff_handler_has_component ms.1 7 1 = true /\ holds ms'.2 1 2 = true /\ events ms' = Ok ∅.
Proof. do 2 eexists. run_it. Qed.

(** A component whose receiver is registered again after it was
    deregistered (authority released and granted again on the client) keeps the
    notifier of its first registration: the new entity index is another one, so a
    change is marked under the old index and is not listed, although the component
    is registered and its mask has the change. *)
Theorem regrant_stops_updates :
  exists ms0 ms1 ms2, (let s := start None [MutReceiver_new 1] [ClientChannel 0] in
      register_component (globals [((7, 1), 0%nat)]) 0 7 1 s.1 s.2) = Ok ms0 /\
    (let s := deregister_component (globals [((7, 1), 0%nat)]) 100 7 1 ms0.1 ms0.2 in
      register_component (globals [((7, 1), 0%nat)]) 200 7 1 s.1 s.2) = Ok ms1 /\
    lift (send 0 2) ms1 = Ok ms2 /\
    diff_handler_has_component ms2.1 7 1 = true /\ diff_mask_is_clear ms2.1.(diff_handler) ms2.2 7 1 = false /\ events ms2 = Ok ∅.
Proof. do 3 eexists. run_it. Qed.

(** The same happens to a receiver that was changed before it was registered (a
    client writes while its request for authority is pending): no notifier was
    attached at the clean-to-dirty transition, and there is no other one. *)
Example change_before_grant_not_listed :
  exists ms0 ms1 ms2, lift (send 0 2) (start None [MutReceiver_new 1] [ClientChannel 0]) = Ok ms0 /\
    register_component (globals [((7, 1), 0%nat)]) 0 7 1 ms0.1 ms0.2 = Ok ms1 /\ lift (send 0 3) ms1 = Ok ms2 /\
    diff_handler_has_component ms2.1 7 1 = true /\ diff_mask_is_clear ms2.1.(diff_handler) ms2.2 7 1 = false /\ events ms2 = Ok ∅.
Proof. do 3 eexists. run_it. Qed.

(** Deregistering a component that was never registered (an immutable one, whose
    removal is acknowledged) counts down the registrations of its entity: the
    index is given back while another component still uses it. *)
Example foreign_deregister_stops_updates :
  exists ms0 ms1, (let s := start (Some 9%nat) [] [ServerChannel ∅ [] 1] in
      register_component (globals [((7, 1), 0%nat)]) 0 7 1 s.1 s.2) = Ok ms0 /\
    lift (send 0 2) (deregister_component (globals [((7, 1), 0%nat)]) 50 7 2 ms0.1 ms0.2) = Ok ms1 /\
    diff_handler_has_component ms1.1 7 1 = true /\ diff_mask_is_clear ms1.1.(diff_handler) ms1.2 7 1 = false /\ events ms1 = Ok ∅.
Proof. do 2 eexists. run_it. Qed.

(** A user who joins before the component kinds have been seen gets a queue of
    one word per entity; a change of kind 64 then panics. *)
Example late_kind_panics :
  exists ms0, (let s := Manager_new (Some 9%nat) {| mut_receiver_builders := ∅ : gmap (Z * Z) nat; kind_bits := ∅; max_kind_count := 0 |}
                   {| cells := []; sets := []; chans := [ServerChannel ∅ [] 1] |} in
      register_component {| mut_receiver_builders := {[ (7, 1) := 0%nat ]}; kind_bits := {[ 1 := 64 ]}; max_kind_count := 65 |} 0 7 1 s.1 s.2) = Ok ms0 /\
    lift (send 0 2) ms0 = Panic.
Proof. eexists. run_it. Qed.
End Hazards.
