(* ===== verification/EntityMaps.v ===== *)
(** Identities of entities: src/shared/src/bigmap.rs,
    src/shared/src/world/entity/global_entity_map.rs, entity_converters.rs,
    src/shared/src/world/local/local_entity_map.rs, local_entity_record.rs and
    src/shared/src/world/host/host_entity_generator.rs.

    A world entity [E] is known to the program as a [GlobalEntity] and, on each
    connection, as a 16-bit [HostEntity] or [RemoteEntity].  [BigMap] issues the
    global numbers, [GlobalEntityMap] relates them to world entities,
    [LocalEntityMap] to the ids of a connection, and [HostEntityGenerator] issues
    and recycles the ids of the sending side.  The conversion traits are classes:
    the invariant of each map is that its two directions are inverse to each other.
    [Result<_, EntityDoesNotExistError>] is [option]; [Instant]s are milliseconds. *)

From Stdlib Require Import ZArith Lia.
From stdpp Require Import base numbers option list gmap.
From S2P Require Import Prelude Wire Reliable Channels EntityTypes DirtyQueue.

#[global] Program Instance OwnedLocalEntity_countable : Countable OwnedLocalEntity :=
  inj_countable' (fun e => match e with Host i s => (true, i, s) | Remote i s => (false, i, s) end)
    (fun p => match p with (true, i, s) => Host i s | (false, i, s) => Remote i s end) _.
Next Obligation. now intros []. Qed.

(** * Maps with a way back *)
Section Mirror.
Context {A B : Type} {eqA : EqDecision A} {cA : Countable A} {eqB : EqDecision B}.

(** [back] is the inverse of the finite map [f]. *)
Definition mirror (f : gmap A B) (back : B -> option A) : Prop :=
  forall a b, f !! a = Some b <-> back b = Some a.

Lemma mirror_empty back : (forall b, back b = None) -> mirror ∅ back.
Proof using Type. intros Hb a b. rewrite lookup_empty, Hb. split; discriminate. Qed.

Lemma mirror_ext f back back' : mirror f back -> (forall b, back' b = back b) -> mirror f back'.
Proof using Type. intros Hm He a b. now rewrite He. Qed.

Lemma mirror_insert f back back' a b : mirror f back -> f !! a = None -> back b = None ->
  back' b = Some a -> (forall b', b' <> b -> back' b' = back b') -> mirror (<[a := b]> f) back'.
Proof using eqB.
  intros Hm Ha Hb Hn Ho a' b'. rewrite lookup_insert_Some.
  destruct (decide (b' = b)) as [->|Hb'].
  - rewrite Hn. split; [intros [[-> _]|[_ H]]; [reflexivity|apply Hm in H; congruence]|].
    intros [= ->]. now left.
  - rewrite Ho by exact Hb'. split; [intros [[_ ?]|[_ H]]; [congruence|now apply Hm]|].
    intros H. apply Hm in H. right. split; congruence.
Qed.

Lemma mirror_delete f back back' a b : mirror f back -> back b = Some a -> back' b = None ->
  (forall b', b' <> b -> back' b' = back b') -> mirror (delete a f) back'.
Proof using eqB.
  intros Hm Hb Hn Ho a' b'. rewrite lookup_delete_Some. destruct (decide (b' = b)) as [->|Hb'].
  - rewrite Hn. split; [intros [Hne H]; apply Hm in H; congruence|discriminate].
  - rewrite Ho by exact Hb'. rewrite <- (Hm a' b'). split; [tauto|]. intros H. split; [|exact H].
    intros ->. apply Hm in Hb. congruence.
Qed.

(** Nothing goes back to a key that is not in the map. *)
Lemma mirror_inj f back b1 b2 a : mirror f back -> back b1 = Some a -> back b2 = Some a -> b1 = b2.
Proof using Type. intros Hm H1 H2. apply Hm in H1, H2. congruence. Qed.
End Mirror.

(** * BigMap *)
Record BigMap (V : Type) := mkBigMap { bm_inner : gmap Z V; current_index : Z }.
Arguments mkBigMap {V} _ _.
Arguments bm_inner {V} _.
Arguments current_index {V} _.

Section BigMaps.
Context {V : Type}.

Definition BigMap_new : BigMap V := mkBigMap ∅ 0.
Definition BigMap_get (key : Z) (m : BigMap V) : option V := bm_inner m !! key.

(** A write through [get_mut]. *)
Definition BigMap_set (key : Z) (v : V) (m : BigMap V) : BigMap V := mkBigMap (<[key := v]> (bm_inner m)) (current_index m).

Definition BigMap_insert (value : V) (m : BigMap V) : res (Z * BigMap V) :=
  if current_index m =? 2 ^ 64 - 1 then Panic
  else Ok (current_index m, mkBigMap (<[current_index m := value]> (bm_inner m)) (wrap 64 (current_index m + 1))).

Definition BigMap_remove (key : Z) (m : BigMap V) : option V * BigMap V :=
  (bm_inner m !! key, mkBigMap (delete key (bm_inner m)) (current_index m)).

(** Every key in the map was issued: it is below the next one. *)
Definition bigmap_ok (m : BigMap V) : Prop :=
  0 <= current_index m < 2 ^ 64 /\ forall k v, bm_inner m !! k = Some v -> 0 <= k < current_index m.

Lemma bigmap_new_ok : bigmap_ok BigMap_new.
Proof using Type. split; [cbn; lia|]. intros k v H. cbn in H. now rewrite lookup_empty in H. Qed.

Lemma bigmap_insert_ok v m : bigmap_ok m -> current_index m < 2 ^ 64 - 1 ->
  exists m', BigMap_insert v m = Ok (current_index m, m') /\ bigmap_ok m' /\
    bm_inner m !! current_index m = None /\ current_index m' = current_index m + 1 /\
    bm_inner m' = <[current_index m := v]> (bm_inner m).
Proof using Type.
  intros [Hc Hk] Hlt. unfold BigMap_insert. rewrite (proj2 (Z.eqb_neq _ _)) by lia.
  rewrite wrap_small by (unfold in_u; lia).
  assert (bm_inner m !! current_index m = None) as Hn.
  { destruct (bm_inner m !! current_index m) eqn:H; [|reflexivity]. apply Hk in H. lia. }
  eexists. split; [reflexivity|]. split; [|now split]. split; [cbn; lia|]. cbn [bm_inner current_index].
  intros k w [[<- _]|[_ H]]%lookup_insert_Some; [lia|]. apply Hk in H. lia.
Qed.

Lemma bigmap_set_ok k v w m : bigmap_ok m -> bm_inner m !! k = Some w -> bigmap_ok (BigMap_set k v m).
Proof using Type.
  intros [Hc Hk] Hin. split; [exact Hc|]. cbn. intros k' v' [[<- _]|[_ H]]%lookup_insert_Some; eauto.
Qed.

Lemma bigmap_remove_ok k m : bigmap_ok m -> bigmap_ok (BigMap_remove k m).2.
Proof using Type. intros [Hc Hk]. split; [exact Hc|]. cbn. intros k' v' [_ H]%lookup_delete_Some. eauto. Qed.
End BigMaps.

(** * The map between world entities and global entities *)
Class EntityAndGlobalEntityConverter (E M : Type) := {
  global_entity_to_entity : M -> GlobalEntity -> option E;
  entity_to_global_entity : M -> E -> option GlobalEntity }.

Module GlobalEntityMap.
Section Spawner.
Context {E : Type} {eqE : EqDecision E} {cE : Countable E}.

Record GlobalEntityMap := {
  entity_to_global_map : gmap E GlobalEntity;
  global_to_entity_map : BigMap (option E);
  reserved_global_entities : gmap RemoteEntity GlobalEntity
}.

Definition GlobalMap_new : GlobalEntityMap :=
  {| entity_to_global_map := ∅; global_to_entity_map := BigMap_new; reserved_global_entities := ∅ |}.

Definition entity_count (self : GlobalEntityMap) : nat := size self.(entity_to_global_map).

Definition GlobalMap_to_entity (self : GlobalEntityMap) (global_entity : GlobalEntity) : option E :=
  match BigMap_get global_entity self.(global_to_entity_map) with
  | Some (Some world_entity) => Some world_entity
  | Some None => None
  | None => None
  end.

Definition GlobalMap_to_global (self : GlobalEntityMap) (world_entity : E) : option GlobalEntity :=
  self.(entity_to_global_map) !! world_entity.

#[global] Instance global_map_converter : EntityAndGlobalEntityConverter E GlobalEntityMap :=
  {| global_entity_to_entity := GlobalMap_to_entity; entity_to_global_entity := GlobalMap_to_global |}.

Definition with_reserved (r : gmap RemoteEntity GlobalEntity) (self : GlobalEntityMap) : GlobalEntityMap :=
  {| entity_to_global_map := self.(entity_to_global_map); global_to_entity_map := self.(global_to_entity_map);
     reserved_global_entities := r |}.

(** The first part of [spawn]: a reserved number is taken over by the new entity. *)
Definition take_reserved (world_entity : E) (remote_entity_opt : option RemoteEntity) (self : GlobalEntityMap)
  : res (option GlobalEntity * GlobalEntityMap) :=
  match remote_entity_opt with
  | None => Ok (None, self)
  | Some remote_entity =>
      match self.(reserved_global_entities) !! remote_entity with
      | None => Ok (None, self)
      | Some global_entity =>
          match BigMap_get global_entity self.(global_to_entity_map) with
          | None => Panic
          | Some _ => Ok (Some global_entity,
              {| entity_to_global_map := self.(entity_to_global_map);
                 global_to_entity_map := BigMap_set global_entity (Some world_entity) self.(global_to_entity_map);
                 reserved_global_entities := delete remote_entity self.(reserved_global_entities) |})
          end
      end
  end.

Definition GlobalMap_spawn (world_entity : E) (remote_entity_opt : option RemoteEntity) (self : GlobalEntityMap)
  : res (GlobalEntity * GlobalEntityMap) :=
  '(global_entity_opt, self1) ← take_reserved world_entity remote_entity_opt self;
  '(global_entity, g2e) ←
    match global_entity_opt with
    | Some global_entity => Ok (global_entity, self1.(global_to_entity_map))
    | None => BigMap_insert (Some world_entity) self1.(global_to_entity_map)
    end;
  Ok (global_entity,
      {| entity_to_global_map := <[world_entity := global_entity]> self1.(entity_to_global_map);
         global_to_entity_map := g2e; reserved_global_entities := self1.(reserved_global_entities) |}).

Definition reserve_global_entity (remote_entity : RemoteEntity) (self : GlobalEntityMap)
  : res (GlobalEntity * GlobalEntityMap) :=
  match self.(reserved_global_entities) !! remote_entity with
  | Some _ => Panic
  | None =>
      '(global_entity, g2e) ← BigMap_insert None self.(global_to_entity_map);
      Ok (global_entity,
          {| entity_to_global_map := self.(entity_to_global_map); global_to_entity_map := g2e;
             reserved_global_entities := <[remote_entity := global_entity]> self.(reserved_global_entities) |})
  end.

Definition despawn_by_global (global_entity : GlobalEntity) (self : GlobalEntityMap) : res GlobalEntityMap :=
  match BigMap_remove global_entity self.(global_to_entity_map) with
  | (Some (Some world_entity), g2e) =>
      Ok {| entity_to_global_map := delete world_entity self.(entity_to_global_map);
            global_to_entity_map := g2e; reserved_global_entities := self.(reserved_global_entities) |}
  | _ => Panic
  end.

Definition despawn_by_world (world_entity : E) (self : GlobalEntityMap) : res GlobalEntityMap :=
  global_entity ← unwrap (self.(entity_to_global_map) !! world_entity);
  Ok {| entity_to_global_map := delete world_entity self.(entity_to_global_map);
        global_to_entity_map := (BigMap_remove global_entity self.(global_to_entity_map)).2;
        reserved_global_entities := self.(reserved_global_entities) |}.

(** The two directions are inverse, issued numbers are below the counter, and a
    reserved number has a slot without an entity that no other reservation has. *)
Record global_map_ok (self : GlobalEntityMap) : Prop := {
  gm_bigmap : bigmap_ok self.(global_to_entity_map);
  gm_mirror : mirror self.(entity_to_global_map) (GlobalMap_to_entity self);
  gm_reserved : forall r g, self.(reserved_global_entities) !! r = Some g ->
    bm_inner self.(global_to_entity_map) !! g = Some None;
  gm_reserved_inj : forall r1 r2 g, self.(reserved_global_entities) !! r1 = Some g ->
    self.(reserved_global_entities) !! r2 = Some g -> r1 = r2
}.

(** A call on the map, with what it needs; [issued] is the counter of numbers. *)
Inductive call :=
| Spawn_call (e : E) (r : option RemoteEntity)
| Reserve_call (r : RemoteEntity)
| Despawn_global_call (g : GlobalEntity)
| Despawn_world_call (e : E).

Definition allowed (c : call) (self : GlobalEntityMap) : Prop :=
  match c with
  | Spawn_call e _ => self.(entity_to_global_map) !! e = None
  | Reserve_call r => self.(reserved_global_entities) !! r = None
  | Despawn_global_call g => is_Some (GlobalMap_to_entity self g)
  | Despawn_world_call e => is_Some (self.(entity_to_global_map) !! e)
  end.

(** The number a call returns, if it is a spawn, and the state it leaves. *)
Definition exec (c : call) (self : GlobalEntityMap) : res (option GlobalEntity * GlobalEntityMap) :=
  match c with
  | Spawn_call e r => '(g, s) ← GlobalMap_spawn e r self; Ok (Some g, s)
  | Reserve_call r => '(_, s) ← reserve_global_entity r self; Ok (None, s)
  | Despawn_global_call g => s ← despawn_by_global g self; Ok (None, s)
  | Despawn_world_call e => s ← despawn_by_world e self; Ok (None, s)
  end.

(** Histories of allowed calls; [log] holds the numbers spawns have returned. *)
Inductive reach : GlobalEntityMap -> list GlobalEntity -> Prop :=
| reach_new : reach GlobalMap_new []
| reach_step self log c o self' : reach self log -> allowed c self ->
    current_index self.(global_to_entity_map) < 2 ^ 64 - 1 -> exec c self = Ok (o, self') ->
    reach self' (match o with Some g => g :: log | None => log end).

(** What a number in the log or in a reservation is worth: it was issued, and no
    pending reservation will give it out again. *)
Definition log_ok (self : GlobalEntityMap) (log : list GlobalEntity) : Prop :=
  NoDup log /\ (forall g, g ∈ log -> g < current_index self.(global_to_entity_map)) /\
  forall r g, self.(reserved_global_entities) !! r = Some g -> g ∉ log.

Lemma to_entity_spec (self : GlobalEntityMap) g e :
  GlobalMap_to_entity self g = Some e <-> bm_inner self.(global_to_entity_map) !! g = Some (Some e).
Proof using Type.
  unfold GlobalMap_to_entity, BigMap_get. destruct (_ !! g) as [[e'|]|]; split; congruence.
Qed.

Lemma to_entity_inner self self' g :
  bm_inner self'.(global_to_entity_map) !! g = bm_inner self.(global_to_entity_map) !! g ->
  GlobalMap_to_entity self' g = GlobalMap_to_entity self g.
Proof using Type. intros H. unfold GlobalMap_to_entity, BigMap_get. now rewrite H. Qed.

Lemma global_new_ok : global_map_ok GlobalMap_new /\ log_ok GlobalMap_new [].
Proof using Type.
  split; [split|].
  - apply bigmap_new_ok.
  - now apply mirror_empty.
  - cbn. intros r g H. now rewrite lookup_empty in H.
  - cbn. intros r1 r2 g H. now rewrite lookup_empty in H.
  - split_and!; [constructor|intros g H; now apply elem_of_nil in H|].
    cbn. intros r g H. now rewrite lookup_empty in H.
Qed.

(** A slot number that is new, or reserved, has no world entity yet. *)
Lemma slot_free self g v : bm_inner self.(global_to_entity_map) !! g = v -> v = None \/ v = Some None ->
  GlobalMap_to_entity self g = None.
Proof using Type. intros H [->| ->]; unfold GlobalMap_to_entity, BigMap_get; now rewrite H. Qed.

Ltac spread := cbn [entity_to_global_map global_to_entity_map reserved_global_entities bm_inner current_index BigMap_set BigMap_remove snd].

(** A number from the counter meets nothing that was issued before. *)
Lemma spawn_fresh e self log : global_map_ok self -> log_ok self log -> self.(entity_to_global_map) !! e = None ->
  current_index self.(global_to_entity_map) < 2 ^ 64 - 1 ->
  exists g self', ('(g, g2e) ← BigMap_insert (Some e) self.(global_to_entity_map);
    Ok (g, {| entity_to_global_map := <[e := g]> self.(entity_to_global_map);
              global_to_entity_map := g2e; reserved_global_entities := self.(reserved_global_entities) |})) = Ok (g, self') /\
    global_map_ok self' /\ log_ok self' (g :: log).
Proof using Type.
  intros [Hb Hm Hr Hi] (Hnd & Hlt & Hres) He Hc.
  destruct (bigmap_insert_ok (Some e) _ Hb Hc) as (b' & -> & Hb' & Hn & Hci & Hin). cbn [mbind res_bind].
  do 2 eexists. split; [reflexivity|]. split; [split|]; spread.
  - exact Hb'.
  - apply mirror_insert with (GlobalMap_to_entity self); [exact Hm|exact He| | |].
    + apply (slot_free _ _ _ Hn). now left.
    + apply to_entity_spec. spread. now rewrite Hin, lookup_insert_eq.
    + intros g' Hne. apply to_entity_inner. spread. now rewrite Hin, lookup_insert_ne by congruence.
  - intros r g H. rewrite Hin, lookup_insert_ne; [now apply Hr with r|]. intros <-. apply Hr in H. congruence.
  - exact Hi.
  - split_and!; spread; rewrite ?Hci.
    + constructor; [|exact Hnd]. intros H. apply Hlt in H. lia.
    + intros g' [->|H]%elem_of_cons; [lia|]. apply Hlt in H. lia.
    + intros r g H [->|H']%elem_of_cons; [apply Hr in H; congruence|now apply (Hres r g)].
Qed.

Lemma spawn_ok e r self log : global_map_ok self -> log_ok self log -> self.(entity_to_global_map) !! e = None ->
  current_index self.(global_to_entity_map) < 2 ^ 64 - 1 ->
  exists g self', GlobalMap_spawn e r self = Ok (g, self') /\ global_map_ok self' /\ log_ok self' (g :: log).
Proof using Type.
  intros [Hb Hm Hr Hi] (Hnd & Hlt & Hres) He Hc. unfold GlobalMap_spawn, take_reserved.
  destruct r as [r|]; [destruct (self.(reserved_global_entities) !! r) as [g|] eqn:Hg|].
  - unfold BigMap_get. rewrite (Hr _ _ Hg). cbn [mbind res_bind]. do 2 eexists. split; [reflexivity|]. split; [split|]; spread.
    + exact (bigmap_set_ok _ _ _ _ Hb (Hr _ _ Hg)).
    + apply mirror_insert with (GlobalMap_to_entity self); [exact Hm|exact He| | |].
      * apply (slot_free _ _ _ (Hr _ _ Hg)). now right.
      * apply to_entity_spec. spread. now rewrite lookup_insert_eq.
      * intros g' Hne. apply to_entity_inner. spread. now rewrite lookup_insert_ne by congruence.
    + intros r' g' [Hne H]%lookup_delete_Some. rewrite lookup_insert_ne; [now apply Hr with r'|].
      intros ->. apply Hne. exact (Hi _ _ _ Hg H).
    + intros r1 r2 g' [_ H1]%lookup_delete_Some [_ H2]%lookup_delete_Some. eauto.
    + split_and!; spread.
      * constructor; [now apply Hres with r|exact Hnd].
      * intros g' [->|H]%elem_of_cons; [|now apply Hlt]. apply Hr in Hg. apply Hb in Hg. lia.
      * intros r' g' [Hne H]%lookup_delete_Some [->|Hin]%elem_of_cons; [|now apply (Hres r' g')].
        apply Hne. exact (Hi _ _ _ Hg H).
  - cbn [mbind res_bind]. now apply spawn_fresh.
  - cbn [mbind res_bind]. now apply spawn_fresh.
Qed.

Lemma reserve_ok r self log : global_map_ok self -> log_ok self log -> self.(reserved_global_entities) !! r = None ->
  current_index self.(global_to_entity_map) < 2 ^ 64 - 1 ->
  exists g self', reserve_global_entity r self = Ok (g, self') /\ global_map_ok self' /\ log_ok self' log.
Proof using Type.
  intros [Hb Hm Hr Hi] (Hnd & Hlt & Hres) He Hc. unfold reserve_global_entity. rewrite He.
  destruct (bigmap_insert_ok None _ Hb Hc) as (b' & -> & Hb' & Hn & Hci & Hin). cbn [mbind res_bind].
  assert (forall r' g, self.(reserved_global_entities) !! r' = Some g -> g <> current_index self.(global_to_entity_map)) as Hne.
  { intros r' g H ->. apply Hr in H. congruence. }
  do 2 eexists. split; [reflexivity|]. split; [split|]; spread.
  - exact Hb'.
  - apply mirror_ext with (GlobalMap_to_entity self); [exact Hm|]. intros g.
    destruct (decide (g = current_index self.(global_to_entity_map))) as [->|Hg].
    + rewrite (slot_free _ _ _ Hn) by now left. apply (slot_free _ _ (Some None)); [|now right].
      spread. now rewrite Hin, lookup_insert_eq.
    + apply to_entity_inner. spread. now rewrite Hin, lookup_insert_ne by congruence.
  - intros r' g [[_ <-]|[_ H]]%lookup_insert_Some; rewrite Hin; [now rewrite lookup_insert_eq|].
    rewrite lookup_insert_ne; [now apply Hr with r'|]. intros <-. now apply (Hne r' _ H).
  - intros r1 r2 g [[<- <-]|[H1 H1']]%lookup_insert_Some [[<- H2]|[H2 H2']]%lookup_insert_Some; try congruence.
    + now apply Hne in H2'.
    + subst g. now apply Hne in H1'.
    + eauto.
  - split_and!; spread; rewrite ?Hci; [exact Hnd|intros g H; apply Hlt in H; lia|].
    intros r' g [[_ <-]|[_ H]]%lookup_insert_Some Hin'; [apply Hlt in Hin'; lia|now apply (Hres r' g)].
Qed.

(** Removing a pair from both directions. *)
Lemma unmap_ok g e self log : global_map_ok self -> log_ok self log -> GlobalMap_to_entity self g = Some e ->
  let self' := {| entity_to_global_map := delete e self.(entity_to_global_map);
                  global_to_entity_map := (BigMap_remove g self.(global_to_entity_map)).2;
                  reserved_global_entities := self.(reserved_global_entities) |} in
  global_map_ok self' /\ log_ok self' log.
Proof using Type.
  intros [Hb Hm Hr Hi] Hl Hg. split; [split|exact Hl]; spread.
  - now apply bigmap_remove_ok.
  - apply mirror_delete with (GlobalMap_to_entity self) g; [exact Hm|exact Hg| |].
    + apply (slot_free _ _ None); [|now left]. spread. apply lookup_delete_eq.
    + intros g' Hne. apply to_entity_inner. spread. now rewrite lookup_delete_ne by congruence.
  - intros r g' H. rewrite lookup_delete_ne; [now apply Hr with r|]. intros ->.
    apply to_entity_spec in Hg. apply Hr in H. congruence.
  - exact Hi.
Qed.

Lemma exec_ok c self log : global_map_ok self -> log_ok self log -> allowed c self ->
  current_index self.(global_to_entity_map) < 2 ^ 64 - 1 ->
  exists o self', exec c self = Ok (o, self') /\ global_map_ok self' /\
    log_ok self' (match o with Some g => g :: log | None => log end).
Proof using Type.
  intros Hok Hl Ha Hc. destruct c as [e r|r|g|e]; cbn [exec allowed] in *.
  - destruct (spawn_ok e r self log) as (g & s' & -> & H); auto. exists (Some g), s'. now split.
  - destruct (reserve_ok r self log) as (g & s' & -> & H); auto. exists None, s'. now split.
  - destruct Ha as [e He]. destruct (unmap_ok g e self log Hok Hl He) as [H1 H2].
    apply to_entity_spec in He. unfold despawn_by_global, BigMap_remove. rewrite He. cbn [mbind res_bind].
    do 2 eexists. split; [reflexivity|]. now split.
  - destruct Ha as [g Hg]. unfold despawn_by_world. rewrite Hg. cbn [unwrap mbind res_bind].
    destruct (unmap_ok g e self log Hok Hl) as [H1 H2]; [now apply (gm_mirror _ Hok)|].
    do 2 eexists. split; [reflexivity|]. now split.
Qed.

Lemma global_reach_ok self log : reach self log -> global_map_ok self /\ log_ok self log.
Proof using Type.
  induction 1 as [|self log c o self' _ [Hok Hl] Ha Hc He]; [apply global_new_ok|].
  destruct (exec_ok c self log Hok Hl Ha Hc) as (o' & s' & He' & H). rewrite He in He'.
  injection He' as <- <-. exact H.
Qed.
End Spawner.
Arguments GlobalEntityMap E {eqE cE}.
Arguments call E : clear implicits.
End GlobalEntityMap.


(** In every history of allowed calls on a [GlobalEntityMap], the two
    conversions are inverse to each other, no two spawns ever return the same global
    entity (not even after a despawn, and whether or not the number was reserved
    first), and as long as the 64-bit counter is not used up every further allowed
    call returns. *)
Theorem global_identity_unique {E} {eqE : EqDecision E} {cE : Countable E}
  (self : GlobalEntityMap.GlobalEntityMap E) (log : list GlobalEntity) :
  GlobalEntityMap.reach self log ->
  (forall e g, entity_to_global_entity self e = Some g <-> global_entity_to_entity self g = Some e) /\
  NoDup log /\
  (forall c, GlobalEntityMap.allowed c self ->
     current_index (GlobalEntityMap.global_to_entity_map self) < 2 ^ 64 - 1 ->
     is_ok (GlobalEntityMap.exec c self) = true).
Proof.
  intros Hr. destruct (GlobalEntityMap.global_reach_ok _ _ Hr) as [Hok Hl]. split_and!.
  - exact (GlobalEntityMap.gm_mirror _ Hok).
  - apply Hl.
  - intros c Ha Hc. destruct (GlobalEntityMap.exec_ok c self log Hok Hl Ha Hc) as (o & s' & -> & _). reflexivity.
Qed.

Module GlobalSample.
Import GlobalEntityMap.
Definition sample_calls : list (call Z) :=
  [Reserve_call (mkRemoteEntity 3 false); Spawn_call 10 (Some (mkRemoteEntity 3 false)); Spawn_call 11 None;
   Despawn_global_call 0; Spawn_call 10 None].

#[local] Instance allowed_decision (c : call Z) self : Decision (allowed c self).
Proof. destruct c; apply _. Defined.

Fixpoint exec_all (calls : list (call Z)) (self : GlobalEntityMap Z) (log : list GlobalEntity)
  : res (GlobalEntityMap Z * list GlobalEntity) :=
  match calls with
  | [] => Ok (self, log)
  | c :: rest =>
      if decide (allowed c self /\ current_index self.(global_to_entity_map) < 2 ^ 64 - 1)
      then '(o, self') ← exec c self; exec_all rest self' (match o with Some g => g :: log | None => log end)
      else Err
  end.

Lemma exec_all_reach calls self log self' log' :
  reach self log -> exec_all calls self log = Ok (self', log') -> reach self' log'.
Proof.
  revert self log. induction calls as [|c calls IH]; cbn [exec_all]; intros self log Hr H; [now injection H as <- <-|].
  destruct (decide _) as [[Ha Hc]|]; [|discriminate].
  apply bind_ok_inv in H as ([o s1] & He & H). apply (IH _ _ (reach_step _ _ _ _ _ Hr Ha Hc He) H).
Qed.

Lemma global_identity_unique_witness :
  exists self, exec_all sample_calls GlobalMap_new [] = Ok (self, [2; 1; 0]) /\
    reach self [2; 1; 0] /\ NoDup [2; 1; 0].
Proof.
  eexists. split; [vm_compute; reflexivity|]. match goal with |- reach ?s _ /\ _ => assert (reach s [2; 1; 0]) as Hr end.
  { apply (exec_all_reach sample_calls GlobalMap_new []); [constructor|vm_compute; reflexivity]. }
  split; [exact Hr|]. exact (proj1 (proj2 (global_identity_unique _ _ Hr))).
Defined.
End GlobalSample.
