(* ===== verification/LocalEntities.v ===== *)
(** The entity ids of one connection: src/shared/src/world/local/local_entity_map.rs,
    local_entity_record.rs, the conversion traits of
    src/shared/src/world/entity/entity_converters.rs and
    src/shared/src/world/host/host_entity_generator.rs.

    [LocalEntityMap] keeps a record per global entity and the two ways back, from a
    host id and from a remote id.  [HostEntityGenerator] issues host ids from two
    pools and takes them back when the despawn is acknowledged.  Clock readings are
    arguments, in milliseconds. *)

From Stdlib Require Import ZArith Lia.
From stdpp Require Import base numbers option list gmap.
From S2P Require Import Prelude Wire Reliable Channels EntityTypes DirtyQueue EntityMaps.

(** * Records *)
Definition owned_host (e : OwnedLocalEntity) : res HostEntity :=
  match e with Host id is_static => Ok (mkHostEntity id is_static) | Remote _ _ => Panic end.
Definition owned_remote (e : OwnedLocalEntity) : res RemoteEntity :=
  match e with Remote id is_static => Ok (mkRemoteEntity id is_static) | Host _ _ => Panic end.
Definition owned_new_host (id : HostEntity) : OwnedLocalEntity := Host (he_id id) false.
Definition owned_new_host_static (id : Z) : OwnedLocalEntity := Host id true.
Definition owned_new_remote (id : RemoteEntity) : OwnedLocalEntity := Remote (re_id id) (re_static id).

Record LocalEntityRecord := { record_entity : OwnedLocalEntity }.

Definition new_host_owned_entity (entity : HostEntity) : LocalEntityRecord :=
  {| record_entity := owned_new_host entity |}.
Definition new_static_host_owned_entity (entity : HostEntity) : LocalEntityRecord :=
  {| record_entity := owned_new_host_static (he_id entity) |}.
Definition new_remote_owned_entity (entity : RemoteEntity) : LocalEntityRecord :=
  {| record_entity := owned_new_remote entity |}.
Definition is_host_owned (r : LocalEntityRecord) : bool := owned_is_host r.(record_entity).
Definition is_remote_owned (r : LocalEntityRecord) : bool := negb (owned_is_host r.(record_entity)).
Definition record_host_entity (r : LocalEntityRecord) : res HostEntity := owned_host r.(record_entity).
Definition record_remote_entity (r : LocalEntityRecord) : res RemoteEntity := owned_remote r.(record_entity).

(** * The conversion trait of a connection, with its default method *)
Class LocalEntityAndGlobalEntityConverter (M : Type) := {
  global_entity_to_host_entity : M -> GlobalEntity -> res (option HostEntity);
  global_entity_to_remote_entity : M -> GlobalEntity -> res (option RemoteEntity);
  global_entity_to_owned_entity : M -> GlobalEntity -> option OwnedLocalEntity;
  host_entity_to_global_entity : M -> HostEntity -> option GlobalEntity;
  static_host_entity_to_global_entity : M -> HostEntity -> option GlobalEntity;
  remote_entity_to_global_entity : M -> RemoteEntity -> option GlobalEntity;
  apply_entity_redirect : M -> OwnedLocalEntity -> OwnedLocalEntity }.

Definition owned_entity_to_global_entity {M} `{LocalEntityAndGlobalEntityConverter M} (self : M)
  (owned_entity : OwnedLocalEntity) : option GlobalEntity :=
  match owned_entity with
  | Host id true => static_host_entity_to_global_entity self (mkHostEntity id false)
  | Host id false => host_entity_to_global_entity self (mkHostEntity id false)
  | Remote id is_static =>
      remote_entity_to_global_entity self (if is_static then mkRemoteEntity id true else mkRemoteEntity id false)
  end.

Definition convert_to_global {M} `{LocalEntityAndGlobalEntityConverter M} (self : OwnedLocalEntity) (converter : M)
  : option GlobalEntity :=
  match self with
  | Host id true => static_host_entity_to_global_entity converter (mkHostEntity id false)
  | Host id false => host_entity_to_global_entity converter (mkHostEntity id false)
  | Remote id is_static =>
      remote_entity_to_global_entity converter (if is_static then mkRemoteEntity id true else mkRemoteEntity id false)
  end.

Module LocalEntityMap.

Record LocalEntityMap := {
  host_type : HostType;
  global_to_local : gmap GlobalEntity LocalEntityRecord;
  host_to_global : gmap HostEntity GlobalEntity;
  remote_to_global : gmap RemoteEntity GlobalEntity;
  entity_redirects : gmap OwnedLocalEntity (OwnedLocalEntity * Z)
}.

Definition LocalMap_new (host_type : HostType) : LocalEntityMap :=
  {| host_type := host_type; global_to_local := ∅; host_to_global := ∅; remote_to_global := ∅; entity_redirects := ∅ |}.

Definition LocalMap_to_host (self : LocalEntityMap) (global_entity : GlobalEntity) : res (option HostEntity) :=
  match self.(global_to_local) !! global_entity with
  | Some record =>
      if is_host_owned record then h ← record_host_entity record; Ok (Some h) else Ok None
  | None => Ok None
  end.

Definition LocalMap_to_remote (self : LocalEntityMap) (global_entity : GlobalEntity) : res (option RemoteEntity) :=
  match self.(global_to_local) !! global_entity with
  | Some record =>
      if is_remote_owned record then r ← record_remote_entity record; Ok (Some r) else Ok None
  | None => Ok None
  end.

Definition LocalMap_to_owned (self : LocalEntityMap) (global_entity : GlobalEntity) : option OwnedLocalEntity :=
  match self.(global_to_local) !! global_entity with Some record => Some record.(record_entity) | None => None end.

Definition LocalMap_from_host (self : LocalEntityMap) (host_entity : HostEntity) : option GlobalEntity :=
  self.(host_to_global) !! host_entity.
Definition LocalMap_from_static_host (self : LocalEntityMap) (host_entity : HostEntity) : option GlobalEntity :=
  self.(host_to_global) !! host_entity.
Definition LocalMap_from_remote (self : LocalEntityMap) (remote_entity : RemoteEntity) : option GlobalEntity :=
  self.(remote_to_global) !! remote_entity.

Definition LocalMap_redirect (self : LocalEntityMap) (entity : OwnedLocalEntity) : OwnedLocalEntity :=
  match self.(entity_redirects) !! entity with Some (new_entity, _) => new_entity | None => entity end.

#[global] Instance local_map_converter : LocalEntityAndGlobalEntityConverter LocalEntityMap := {|
  global_entity_to_host_entity := LocalMap_to_host;
  global_entity_to_remote_entity := LocalMap_to_remote;
  global_entity_to_owned_entity := LocalMap_to_owned;
  host_entity_to_global_entity := LocalMap_from_host;
  static_host_entity_to_global_entity := LocalMap_from_static_host;
  remote_entity_to_global_entity := LocalMap_from_remote;
  apply_entity_redirect := LocalMap_redirect |}.

Definition with_host (record : LocalEntityRecord) (g : GlobalEntity) (h : HostEntity) (self : LocalEntityMap) : LocalEntityMap :=
  {| host_type := self.(host_type); global_to_local := <[g := record]> self.(global_to_local);
     host_to_global := <[h := g]> self.(host_to_global); remote_to_global := self.(remote_to_global);
     entity_redirects := self.(entity_redirects) |}.

Definition insert_with_host_entity (global_entity : GlobalEntity) (host_entity : HostEntity) (self : LocalEntityMap)
  : res LocalEntityMap :=
  if decide (is_Some (self.(global_to_local) !! global_entity)) then Panic
  else if decide (is_Some (self.(host_to_global) !! host_entity)) then Panic
  else Ok (with_host (new_host_owned_entity host_entity) global_entity host_entity self).

Definition insert_with_static_host_entity (global_entity : GlobalEntity) (host_entity : HostEntity) (self : LocalEntityMap)
  : res LocalEntityMap :=
  if decide (is_Some (self.(global_to_local) !! global_entity)) then Panic
  else if decide (is_Some (self.(host_to_global) !! host_entity)) then Panic
  else Ok (with_host (new_static_host_owned_entity host_entity) global_entity host_entity self).

Definition insert_with_remote_entity (global_entity : GlobalEntity) (remote_entity : RemoteEntity) (self : LocalEntityMap)
  : res LocalEntityMap :=
  if decide (is_Some (self.(global_to_local) !! global_entity)) then Panic
  else if decide (is_Some (self.(remote_to_global) !! remote_entity)) then Panic
  else Ok {| host_type := self.(host_type);
             global_to_local := <[global_entity := new_remote_owned_entity remote_entity]> self.(global_to_local);
             host_to_global := self.(host_to_global);
             remote_to_global := <[remote_entity := global_entity]> self.(remote_to_global);
             entity_redirects := self.(entity_redirects) |}.

Definition with_locals (g2l : gmap GlobalEntity LocalEntityRecord) (h2g : gmap HostEntity GlobalEntity)
  (r2g : gmap RemoteEntity GlobalEntity) (self : LocalEntityMap) : LocalEntityMap :=
  {| host_type := self.(host_type); global_to_local := g2l; host_to_global := h2g; remote_to_global := r2g;
     entity_redirects := self.(entity_redirects) |}.

Definition LocalMap_remove_by_global_entity (global_entity : GlobalEntity) (self : LocalEntityMap)
  : res (option LocalEntityRecord * LocalEntityMap) :=
  let g2l := delete global_entity self.(global_to_local) in
  match self.(global_to_local) !! global_entity with
  | None => Ok (None, with_locals g2l self.(host_to_global) self.(remote_to_global) self)
  | Some record =>
      if is_host_owned record then
        host_entity ← record_host_entity record;
        Ok (Some record, with_locals g2l (delete host_entity self.(host_to_global)) self.(remote_to_global) self)
      else
        remote_entity ← record_remote_entity record;
        Ok (Some record, with_locals g2l self.(host_to_global) (delete remote_entity self.(remote_to_global)) self)
  end.

(** The panic of a missing mapping, then the removal of the record. *)
Definition LocalMap_remove_by_remote_entity (remote_entity : RemoteEntity) (self : LocalEntityMap)
  : res (GlobalEntity * LocalEntityMap) :=
  let self1 := with_locals self.(global_to_local) self.(host_to_global) (delete remote_entity self.(remote_to_global)) self in
  match self.(remote_to_global) !! remote_entity with
  | None => Panic
  | Some global_entity =>
      '(_, self2) ← LocalMap_remove_by_global_entity global_entity self1;
      Ok (global_entity, self2)
  end.

Definition remove_remote_mapping_if_exists (remote_entity : RemoteEntity) (self : LocalEntityMap) : LocalEntityMap :=
  with_locals self.(global_to_local) self.(host_to_global) (delete remote_entity self.(remote_to_global)) self.

(** [iter] is the order in which the hash map is walked. *)
Definition remote_entities (iter : gmap GlobalEntity LocalEntityRecord -> list (GlobalEntity * LocalEntityRecord))
  (self : LocalEntityMap) : list GlobalEntity :=
  map fst (filter (fun x => is_remote_owned (snd x) = true) (iter self.(global_to_local))).

Definition with_redirects (redirects : gmap OwnedLocalEntity (OwnedLocalEntity * Z)) (self : LocalEntityMap) : LocalEntityMap :=
  {| host_type := self.(host_type); global_to_local := self.(global_to_local); host_to_global := self.(host_to_global);
     remote_to_global := self.(remote_to_global); entity_redirects := redirects |}.

Definition install_entity_redirect (now : Z) (old_entity new_entity : OwnedLocalEntity) (self : LocalEntityMap) : LocalEntityMap :=
  with_redirects (<[old_entity := (new_entity, now)]> self.(entity_redirects)) self.

Definition cleanup_old_redirects (now ttl_seconds : Z) (self : LocalEntityMap) : LocalEntityMap :=
  with_redirects (filter (fun x => elapsed x.2.2 now < ttl_seconds * 1000) self.(entity_redirects)) self.

End LocalEntityMap.

(** * The issuer of host ids *)
Module HostEntityGenerator.
Import LocalEntityMap.

Record HostEntityGenerator := {
  user_key : Z;
  generator : KeyGenerator;
  static_generator : KeyGenerator;
  reserved_host_entities : gmap GlobalEntity HostEntity;
  reserved_host_entity_ttl : Z;
  reserved_host_entities_ttls : list (Z * GlobalEntity)
}.

Definition HostGen_new (user_key : Z) : HostEntityGenerator :=
  {| user_key := user_key; generator := KeyGenerator_new 60000; static_generator := KeyGenerator_new 60000;
     reserved_host_entities := ∅; reserved_host_entity_ttl := 60000; reserved_host_entities_ttls := [] |}.

Definition with_generator (g : KeyGenerator) (self : HostEntityGenerator) : HostEntityGenerator :=
  {| user_key := self.(user_key); generator := g; static_generator := self.(static_generator);
     reserved_host_entities := self.(reserved_host_entities); reserved_host_entity_ttl := self.(reserved_host_entity_ttl);
     reserved_host_entities_ttls := self.(reserved_host_entities_ttls) |}.

Definition with_static_generator (g : KeyGenerator) (self : HostEntityGenerator) : HostEntityGenerator :=
  {| user_key := self.(user_key); generator := self.(generator); static_generator := g;
     reserved_host_entities := self.(reserved_host_entities); reserved_host_entity_ttl := self.(reserved_host_entity_ttl);
     reserved_host_entities_ttls := self.(reserved_host_entities_ttls) |}.

Definition with_reservations (r : gmap GlobalEntity HostEntity) (ttls : list (Z * GlobalEntity)) (self : HostEntityGenerator)
  : HostEntityGenerator :=
  {| user_key := self.(user_key); generator := self.(generator); static_generator := self.(static_generator);
     reserved_host_entities := r; reserved_host_entity_ttl := self.(reserved_host_entity_ttl);
     reserved_host_entities_ttls := ttls |}.

Definition generate_host_entity (now : Z) (self : HostEntityGenerator) : res (HostEntity * HostEntityGenerator) :=
  '(key, g) ← KeyGenerator_generate now self.(generator);
  Ok (mkHostEntity key false, with_generator g self).

Definition generate_static_host_entity (now : Z) (self : HostEntityGenerator) : res (HostEntity * HostEntityGenerator) :=
  '(key, g) ← KeyGenerator_generate now self.(static_generator);
  Ok (mkHostEntity key true, with_static_generator g self).

(** The loop over the front of the queue of timeouts. *)
Fixpoint expire_reservations (now ttl : Z) (ttls : list (Z * GlobalEntity)) (reserved : gmap GlobalEntity HostEntity)
  : res (list (Z * GlobalEntity) * gmap GlobalEntity HostEntity) :=
  match ttls with
  | [] => Ok ([], reserved)
  | (timeout, global_entity) :: rest =>
      if elapsed timeout now <? ttl then Ok (ttls, reserved)
      else match reserved !! global_entity with
           | Some _ => expire_reservations now ttl rest (delete global_entity reserved)
           | None => Panic
           end
  end.

Definition process_reserved_entity_timeouts (now : Z) (self : HostEntityGenerator) : res HostEntityGenerator :=
  '(ttls, reserved) ← expire_reservations now self.(reserved_host_entity_ttl) self.(reserved_host_entities_ttls)
                        self.(reserved_host_entities);
  Ok (with_reservations reserved ttls self).

Definition host_reserve_entity (now : Z) (global_entity : GlobalEntity) (entity_map : LocalEntityMap)
  (self : HostEntityGenerator) : res (HostEntity * LocalEntityMap * HostEntityGenerator) :=
  self1 ← process_reserved_entity_timeouts now self;
  match self1.(reserved_host_entities) !! global_entity with
  | Some _ => Panic
  | None =>
      '(host_entity, self2) ← generate_host_entity now self1;
      entity_map' ← insert_with_host_entity global_entity host_entity entity_map;
      Ok (host_entity, entity_map',
          with_reservations (<[global_entity := host_entity]> self2.(reserved_host_entities))
            self2.(reserved_host_entities_ttls) self2)
  end.

Definition host_remove_reserved_entity (global_entity : GlobalEntity) (self : HostEntityGenerator)
  : option HostEntity * HostEntityGenerator :=
  (self.(reserved_host_entities) !! global_entity,
   with_reservations (delete global_entity self.(reserved_host_entities)) self.(reserved_host_entities_ttls) self).

(** The branch on the pool that each removal ends with. *)
Definition recycle_host (now : Z) (host_entity : HostEntity) (self : HostEntityGenerator) : HostEntityGenerator :=
  if he_static host_entity
  then with_static_generator (KeyGenerator_recycle_key now (he_id host_entity) self.(static_generator)) self
  else with_generator (KeyGenerator_recycle_key now (he_id host_entity) self.(generator)) self.

Definition recycle_record (now : Z) (record : LocalEntityRecord) (self : HostEntityGenerator) : res HostEntityGenerator :=
  if is_host_owned record then host_entity ← record_host_entity record; Ok (recycle_host now host_entity self) else Ok self.

Definition HostGen_remove_by_global_entity (now : Z) (global_entity : GlobalEntity) (entity_map : LocalEntityMap)
  (self : HostEntityGenerator) : res (LocalEntityMap * HostEntityGenerator) :=
  '(record_opt, entity_map') ← LocalMap_remove_by_global_entity global_entity entity_map;
  record ← unwrap record_opt;
  self' ← recycle_record now record self;
  Ok (entity_map', self').

Definition HostGen_remove_by_host_entity (now : Z) (host_entity : HostEntity) (converter : LocalEntityMap)
  (self : HostEntityGenerator) : res (LocalEntityMap * HostEntityGenerator) :=
  match LocalMap_from_host converter host_entity with
  | Some global_entity => HostGen_remove_by_global_entity now global_entity converter self
  | None => Ok (converter, recycle_host now host_entity self)
  end.

Definition HostGen_remove_by_remote_entity (now : Z) (remote_entity : RemoteEntity) (entity_map : LocalEntityMap)
  (self : HostEntityGenerator) : res (GlobalEntity * LocalEntityMap * HostEntityGenerator) :=
  global_entity ← unwrap (LocalMap_from_remote entity_map remote_entity);
  '(record_opt, entity_map') ← LocalMap_remove_by_global_entity global_entity entity_map;
  record ← unwrap record_opt;
  self' ← recycle_record now record self;
  Ok (global_entity, entity_map', self').

(** [EntityConverterMut::get_or_reserve_entity]; [can_relate] is the answer of
    [GlobalWorldManagerType::entity_can_relate_to_user] for this generator's user. *)
Definition get_or_reserve_entity (can_relate : bool) (now : Z) (global_entity : GlobalEntity) (entity_map : LocalEntityMap)
  (self : HostEntityGenerator) : res (option OwnedLocalEntity * LocalEntityMap * HostEntityGenerator) :=
  if negb can_relate then Ok (None, entity_map, self)
  else match LocalMap_to_owned entity_map global_entity with
       | Some owned => Ok (Some owned, entity_map, self)
       | None =>
           '(host_entity, entity_map', self') ← host_reserve_entity now global_entity entity_map self;
           Ok (Some (host_copy_to_owned host_entity), entity_map', self')
       end.
End HostEntityGenerator.

(** * The invariant of the map *)
Module LocalMapFacts.
Import LocalEntityMap.

(** The ids of a global entity, read off its record. *)
Definition host_of (self : LocalEntityMap) (g : GlobalEntity) : option HostEntity :=
  match self.(global_to_local) !! g with
  | Some {| record_entity := Host id is_static |} => Some (mkHostEntity id is_static)
  | _ => None
  end.
Definition remote_of (self : LocalEntityMap) (g : GlobalEntity) : option RemoteEntity :=
  match self.(global_to_local) !! g with
  | Some {| record_entity := Remote id is_static |} => Some (mkRemoteEntity id is_static)
  | _ => None
  end.

Lemma to_host_of self g : LocalMap_to_host self g = Ok (host_of self g).
Proof. unfold LocalMap_to_host, host_of. destruct (_ !! g) as [[[id s|id s]]|]; reflexivity. Qed.

Lemma to_remote_of self g : LocalMap_to_remote self g = Ok (remote_of self g).
Proof. unfold LocalMap_to_remote, remote_of. destruct (_ !! g) as [[[id s|id s]]|]; reflexivity. Qed.

Definition local_map_ok (self : LocalEntityMap) : Prop :=
  mirror self.(host_to_global) (host_of self) /\ mirror self.(remote_to_global) (remote_of self).

Lemma local_new_ok t : local_map_ok (LocalMap_new t).
Proof. split; apply mirror_empty; intros g; unfold host_of, remote_of; cbn; now rewrite lookup_empty. Qed.

Lemma host_of_ext self self' g : self'.(global_to_local) !! g = self.(global_to_local) !! g ->
  host_of self' g = host_of self g /\ remote_of self' g = remote_of self g.
Proof. intros H. unfold host_of, remote_of. now rewrite H. Qed.

Lemma with_host_ok g h self : local_map_ok self -> self.(global_to_local) !! g = None ->
  self.(host_to_global) !! h = None ->
  local_map_ok (with_host {| record_entity := host_copy_to_owned h |} g h self).
Proof.
  intros [Hh Hr] Hg Hf. split.
  - apply mirror_insert with (host_of self); [exact Hh|exact Hf| | |].
    + unfold host_of. now rewrite Hg.
    + unfold host_of. cbn. rewrite lookup_insert_eq. now destruct h.
    + intros g' Hne. apply host_of_ext. cbn. now rewrite lookup_insert_ne by congruence.
  - apply mirror_ext with (remote_of self); [exact Hr|]. intros g'. unfold remote_of. cbn.
    destruct (decide (g' = g)) as [->|Hne]; [rewrite lookup_insert_eq, Hg; reflexivity|].
    now rewrite lookup_insert_ne by congruence.
Qed.

(** The two insertions write the record of the id they are given, when the pool of
    the id is the one the method is for. *)
Lemma insert_host_ok g h self : local_map_ok self -> self.(global_to_local) !! g = None ->
  self.(host_to_global) !! h = None -> he_static h = false ->
  exists self', insert_with_host_entity g h self = Ok self' /\ local_map_ok self' /\
    self' = with_host {| record_entity := host_copy_to_owned h |} g h self.
Proof.
  intros Hok Hg Hh Hs. unfold insert_with_host_entity. rewrite Hg, Hh.
  do 2 (rewrite decide_False by (now intros [? [=]])).
  assert (new_host_owned_entity h = {| record_entity := host_copy_to_owned h |}) as ->.
  { unfold new_host_owned_entity, owned_new_host, host_copy_to_owned. now rewrite Hs. }
  eexists. split; [reflexivity|]. split; [now apply with_host_ok|reflexivity].
Qed.

Lemma insert_static_ok g h self : local_map_ok self -> self.(global_to_local) !! g = None ->
  self.(host_to_global) !! h = None -> he_static h = true ->
  exists self', insert_with_static_host_entity g h self = Ok self' /\ local_map_ok self' /\
    self' = with_host {| record_entity := host_copy_to_owned h |} g h self.
Proof.
  intros Hok Hg Hh Hs. unfold insert_with_static_host_entity. rewrite Hg, Hh.
  do 2 (rewrite decide_False by (now intros [? [=]])).
  assert (new_static_host_owned_entity h = {| record_entity := host_copy_to_owned h |}) as ->.
  { unfold new_static_host_owned_entity, owned_new_host_static, host_copy_to_owned. now rewrite Hs. }
  eexists. split; [reflexivity|]. split; [now apply with_host_ok|reflexivity].
Qed.

Lemma insert_remote_ok g r self : local_map_ok self -> self.(global_to_local) !! g = None ->
  self.(remote_to_global) !! r = None ->
  exists self', insert_with_remote_entity g r self = Ok self' /\ local_map_ok self' /\
    self'.(host_to_global) = self.(host_to_global) /\ remote_of self' g = Some r /\
    self'.(global_to_local) = <[g := {| record_entity := remote_copy_to_owned r |}]> self.(global_to_local) /\
    self'.(remote_to_global) = <[r := g]> self.(remote_to_global).
Proof.
  intros [Hh Hr] Hg Hf. unfold insert_with_remote_entity. rewrite Hg, Hf.
  do 2 (rewrite decide_False by (now intros [? [=]])).
  assert (forall s', s'.(global_to_local) = <[g := new_remote_owned_entity r]> self.(global_to_local) ->
            remote_of s' g = Some r) as Hnew.
  { intros s' Hs'. unfold remote_of. rewrite Hs', lookup_insert_eq. now destruct r. }
  eexists. split; [reflexivity|]. split_and!; [split|reflexivity|now apply Hnew|reflexivity|reflexivity].
  - apply mirror_ext with (host_of self); [exact Hh|]. intros g'. unfold host_of. cbn.
    destruct (decide (g' = g)) as [->|Hne]; [rewrite lookup_insert_eq, Hg; reflexivity|].
    now rewrite lookup_insert_ne by congruence.
  - apply mirror_insert with (remote_of self); [exact Hr|exact Hf| |now apply Hnew|].
    + unfold remote_of. now rewrite Hg.
    + intros g' Hne. apply host_of_ext. cbn. now rewrite lookup_insert_ne by congruence.
Qed.

(** The state without a record and without its way back. *)
Definition dropped (g : GlobalEntity) (self : LocalEntityMap) : LocalEntityMap :=
  with_locals (delete g self.(global_to_local))
    (match host_of self g with Some h => delete h self.(host_to_global) | None => self.(host_to_global) end)
    (match remote_of self g with Some r => delete r self.(remote_to_global) | None => self.(remote_to_global) end) self.

Lemma dropped_of g self g' :
  host_of (dropped g self) g' = (if decide (g' = g) then None else host_of self g') /\
  remote_of (dropped g self) g' = (if decide (g' = g) then None else remote_of self g').
Proof.
  unfold host_of, remote_of, dropped. cbn [global_to_local with_locals].
  destruct (decide (g' = g)) as [->|Hne]; [now rewrite lookup_delete_eq|now rewrite lookup_delete_ne by congruence].
Qed.

Lemma dropped_ok g self : local_map_ok self -> local_map_ok (dropped g self).
Proof.
  intros [Hh Hr]. split.
  - cbn [host_to_global dropped with_locals]. destruct (host_of self g) as [h|] eqn:Hg.
    + apply mirror_delete with (host_of self) g; [exact Hh|exact Hg| |].
      * rewrite (proj1 (dropped_of g self g)). now rewrite decide_True.
      * intros g' Hne. rewrite (proj1 (dropped_of g self g')). now rewrite decide_False.
    + apply mirror_ext with (host_of self); [exact Hh|]. intros g'. rewrite (proj1 (dropped_of g self g')).
      destruct (decide (g' = g)) as [->|]; congruence.
  - cbn [remote_to_global dropped with_locals]. destruct (remote_of self g) as [h|] eqn:Hg.
    + apply mirror_delete with (remote_of self) g; [exact Hr|exact Hg| |].
      * rewrite (proj2 (dropped_of g self g)). now rewrite decide_True.
      * intros g' Hne. rewrite (proj2 (dropped_of g self g')). now rewrite decide_False.
    + apply mirror_ext with (remote_of self); [exact Hr|]. intros g'. rewrite (proj2 (dropped_of g self g')).
      destruct (decide (g' = g)) as [->|]; congruence.
Qed.

(** Taking a record out takes its way back out, and nothing else. *)
Lemma remove_global_eq g self :
  LocalMap_remove_by_global_entity g self = Ok (self.(global_to_local) !! g, dropped g self).
Proof.
  unfold LocalMap_remove_by_global_entity, dropped, host_of, remote_of.
  destruct (self.(global_to_local) !! g) as [[[id s|id s]]|]; reflexivity.
Qed.

Lemma remove_remote_eq r g self : local_map_ok self -> self.(remote_to_global) !! r = Some g ->
  LocalMap_remove_by_remote_entity r self = Ok (g, dropped g self).
Proof.
  intros [Hh Hr] Hg. unfold LocalMap_remove_by_remote_entity. rewrite Hg, remove_global_eq. cbn [mbind res_bind].
  apply Hr in Hg. unfold dropped, host_of, remote_of in *. cbn [global_to_local with_locals remote_to_global host_to_global] in *.
  destruct (self.(global_to_local) !! g) as [[[id s|id s]]|]; try discriminate. injection Hg as <-.
  unfold with_locals. cbn. now rewrite delete_delete_eq.
Qed.

(** Where a global entity is mapped, its ways back are. *)
Lemma to_owned_spec self g :
  LocalMap_to_owned self g = match host_of self g, remote_of self g with
    | Some h, _ => Some (host_copy_to_owned h) | None, Some r => Some (remote_copy_to_owned r) | None, None => None end.
Proof. unfold LocalMap_to_owned, host_of, remote_of. now destruct (_ !! g) as [[[id s|id s]]|]. Qed.
End LocalMapFacts.

(** * Ids in use are never issued twice *)
Module HostIds.
Import LocalEntityMap HostEntityGenerator LocalMapFacts.

(** A 16-bit generator read as the 32-bit one: they differ only in what happens when
    the counter is used up. *)
Definition as32 (g : KeyGenerator) : KeyGenerator32.KeyGenerator32 :=
  {| KeyGenerator32.recycling_keys := recycling_keys g; KeyGenerator32.recycled_keys := recycled_keys g;
     KeyGenerator32.recycle_timeout := recycle_timeout g; KeyGenerator32.next_new_key := next_new_key g |}.

Lemma recycle_expired_release now t rg rd : 0 < t -> recycle_expired now t rg rd = KeyGenerator32.release now t rg rd.
Proof.
  intros Ht. revert rd. induction rg as [|[k i] rg IH]; intros rd; cbn [recycle_expired KeyGenerator32.release]; [reflexivity|].
  rewrite IH. unfold elapsed. destruct (Z.max 0 (now - i) <? t) eqn:H1, (now - i <? t) eqn:H2; bools; auto; lia.
Qed.

(** A pool: ids [used] are out, the others wait or were never issued. *)
Record pool_ok (used : list Z) (g : KeyGenerator) : Prop := {
  pool_gen : KeyGenerator32.gen_ok used (as32 g);
  pool_timeout : recycle_timeout g = 60000;
  pool_range : next_new_key g <= 65535
}.

Lemma pool_new_ok : pool_ok [] (KeyGenerator_new 60000).
Proof. repeat split; cbn; try lia; constructor. Qed.

Lemma pool_generate now used g : pool_ok used g -> next_new_key g < 65535 ->
  exists key g', KeyGenerator_generate now g = Ok (key, g') /\ (key ∉ used) /\ pool_ok (key :: used) g' /\
    next_new_key g' <= next_new_key g + 1.
Proof.
  intros [Hg Ht Hb] Hlt. destruct (KeyGenerator32.generate now (as32 g)) as [key g'] eqn:He.
  pose proof (KeyGenerator32.generate_ok now used (as32 g) key g' Hg) as Hgen. cbn [as32 KeyGenerator32.next_new_key] in Hgen.
  destruct Hgen as (Hk & Hg' & Hn); [lia|exact He|].
  unfold KeyGenerator32.generate in He. unfold KeyGenerator_generate. rewrite recycle_expired_release by lia.
  cbn [as32 KeyGenerator32.recycle_timeout KeyGenerator32.recycling_keys KeyGenerator32.recycled_keys] in He.
  destruct (KeyGenerator32.release _ _ _ _) as [rg [|k rd]].
  - rewrite uadd_ok by lia. cbn [mbind res_bind]. injection He as <- <-. do 2 eexists. split; [reflexivity|].
    split; [exact Hk|]. cbn [next_new_key]. split; [|lia]. split; [|exact Ht|cbn; lia].
    unfold as32. cbn [recycling_keys recycled_keys recycle_timeout next_new_key].
    cbn [as32 KeyGenerator32.next_new_key] in *. now rewrite wrap_small in Hg' by (unfold in_u; destruct Hg; cbn in *; lia).
  - injection He as <- <-. do 2 eexists. split; [reflexivity|]. split; [exact Hk|]. cbn [next_new_key]. split; [|lia].
    now split.
Qed.

Lemma pool_perm used used' g : used ≡ₚ used' -> pool_ok used g -> pool_ok used' g.
Proof.
  intros Hp [(H1 & H2 & H3) Ht Hb]. split; [|exact Ht|exact Hb].
  split; [exact H1|]. now rewrite <- Hp.
Qed.

Lemma pool_recycle now used key g : pool_ok (key :: used) g -> pool_ok used (KeyGenerator_recycle_key now key g).
Proof. intros [Hg Ht Hb]. split; [|exact Ht|exact Hb]. exact (KeyGenerator32.recycle_key_ok now used key (as32 g) Hg). Qed.

(** Ids recycled less than 60 seconds ago stay in quarantine. *)
Lemma release_keeps now t rg rd rg' rd' k i : KeyGenerator32.release now t rg rd = (rg', rd') ->
  (k, i) ∈ rg -> now - i < t -> (k, i) ∈ rg'.
Proof.
  revert rd. induction rg as [|[k1 i1] rg IH]; intros rd; cbn [KeyGenerator32.release]; [now intros _ H%elem_of_nil|].
  destruct (now - i1 <? t) eqn:Hlt; bools.
  - intros [= <- <-] Hin _. exact Hin.
  - intros H [[= -> ->]|Hin]%elem_of_cons Hi; [lia|]. now apply (IH (rd ++ [k1])).
Qed.

Lemma pool_quarantine now used g key g' k i : pool_ok used g -> KeyGenerator_generate now g = Ok (key, g') ->
  (k, i) ∈ recycling_keys g -> now - i < 60000 -> key <> k /\ (k, i) ∈ recycling_keys g'.
Proof.
  intros [Hg Ht Hb] He Hin Hi. unfold KeyGenerator_generate in He. rewrite recycle_expired_release in He by lia.
  destruct (KeyGenerator32.release _ _ _ _) as [rg rd] eqn:Hrel.
  assert ((k, i) ∈ rg) as Hin' by (apply (release_keeps _ _ _ _ _ _ _ _ Hrel Hin); lia).
  apply KeyGenerator32.release_perm in Hrel.
  destruct Hg as (_ & Hnd & Hf). unfold KeyGenerator32.keys_waiting in *. cbn in Hnd, Hf.
  rewrite Hrel in Hnd, Hf. assert (k ∈ map fst rg) as Hk by (apply list_elem_of_fmap; now exists (k, i)).
  destruct rd as [|k' rd].
  - apply bind_ok_inv in He as (n & _ & He). injection He as <- <-. split; [|exact Hin'].
    intros Heq. rewrite Forall_forall in Hf. specialize (Hf k). rewrite app_nil_r in Hf.
    ospecialize (Hf _); [apply elem_of_app; now right|]. lia.
  - injection He as <- <-. split; [|exact Hin']. intros ->.
    apply NoDup_app in Hnd as (_ & _ & Hnd). apply NoDup_app in Hnd as (_ & Hd & _). apply (Hd k Hk). now left.
Qed.

(** What happens to the ids of a connection.  [Issue] is the allocation of
    [LocalWorldManager::host_init_entity], [Evict] its removal of a stale mapping, and
    [Delivered] the acknowledgement of a despawn. *)
Inductive event :=
| Issue (is_static : bool) (g : GlobalEntity)
| Reserve (g : GlobalEntity)
| Unreserve (g : GlobalEntity)
| Evict (g : GlobalEntity)
| Delivered (h : HostEntity)
| Remote_in (g : GlobalEntity) (r : RemoteEntity)
| Remote_out (r : RemoteEntity).

Definition issue (is_static : bool) (now : Z) (g : GlobalEntity) (m : LocalEntityMap) (gen : HostEntityGenerator)
  : res (option HostEntity * LocalEntityMap * HostEntityGenerator) :=
  if is_static then
    '(h, gen') ← generate_static_host_entity now gen; m' ← insert_with_static_host_entity g h m; Ok (Some h, m', gen')
  else
    '(h, gen') ← generate_host_entity now gen; m' ← insert_with_host_entity g h m; Ok (Some h, m', gen').

Definition run_event (now : Z) (ev : event) (m : LocalEntityMap) (gen : HostEntityGenerator)
  : res (option HostEntity * LocalEntityMap * HostEntityGenerator) :=
  match ev with
  | Issue is_static g => issue is_static now g m gen
  | Reserve g => '(h, m', gen') ← host_reserve_entity now g m gen; Ok (Some h, m', gen')
  | Unreserve g => Ok (None, m, (host_remove_reserved_entity g gen).2)
  | Evict g => '(_, m') ← LocalMap_remove_by_global_entity g m; Ok (None, m', gen)
  | Delivered h => '(m', gen') ← HostGen_remove_by_host_entity now h m gen; Ok (None, m', gen')
  | Remote_in g r => m' ← insert_with_remote_entity g r m; Ok (None, m', gen)
  | Remote_out r => '(_, m') ← LocalMap_remove_by_remote_entity r m; Ok (None, m', gen)
  end.

Definition pool_of (is_static : bool) (gen : HostEntityGenerator) : KeyGenerator :=
  if is_static then gen.(static_generator) else gen.(generator).

Definition event_allowed (live : list HostEntity) (m : LocalEntityMap) (gen : HostEntityGenerator) (ev : event) : Prop :=
  match ev with
  | Issue is_static g => m.(global_to_local) !! g = None /\ next_new_key (pool_of is_static gen) < 65535
  | Reserve g => m.(global_to_local) !! g = None /\ gen.(reserved_host_entities) !! g = None /\
                 next_new_key gen.(generator) < 65535
  | Unreserve _ | Evict _ => True
  | Delivered h => h ∈ live
  | Remote_in g r => m.(global_to_local) !! g = None /\ m.(remote_to_global) !! r = None
  | Remote_out r => is_Some (m.(remote_to_global) !! r)
  end.

(** The ids that are out, and those that came back, with the time they did. *)
Definition live_after (live : list HostEntity) (ev : event) (o : option HostEntity) : list HostEntity :=
  match ev, o with
  | Delivered h, _ => filter (fun x => x <> h) live
  | _, Some h => h :: live
  | _, None => live
  end.
Definition freed_after (now : Z) (freed : list (HostEntity * Z)) (ev : event) : list (HostEntity * Z) :=
  match ev with Delivered h => (h, now) :: freed | _ => freed end.

Inductive ids_reach (t : HostType) (user : Z)
  : LocalEntityMap -> HostEntityGenerator -> list HostEntity -> list (HostEntity * Z) -> Z -> Prop :=
| ids_start clock : ids_reach t user (LocalMap_new t) (HostGen_new user) [] [] clock
| ids_step m gen live freed clock now ev o m' gen' :
    ids_reach t user m gen live freed clock -> clock <= now -> event_allowed live m gen ev ->
    run_event now ev m gen = Ok (o, m', gen') ->
    ids_reach t user m' gen' (live_after live ev o) (freed_after now freed ev) now.

Definition ids_of (is_static : bool) (live : list HostEntity) : list Z :=
  map he_id (filter (fun h => he_static h = is_static) live).

Record ids_ok (m : LocalEntityMap) (gen : HostEntityGenerator) (live : list HostEntity) (freed : list (HostEntity * Z))
  (clock : Z) : Prop := {
  ids_map : local_map_ok m;
  ids_live : forall h g, m.(host_to_global) !! h = Some g -> h ∈ live;
  ids_pool : forall st, pool_ok (ids_of st live) (pool_of st gen);
  ids_ttls : gen.(reserved_host_entities_ttls) = [];
  ids_freed : forall h t, (h, t) ∈ freed -> clock < t + 60000 ->
    (he_id h, t) ∈ recycling_keys (pool_of (he_static h) gen)
}.

Lemma elem_of_ids st live id : id ∈ ids_of st live <-> mkHostEntity id st ∈ live.
Proof.
  unfold ids_of. rewrite list_elem_of_fmap. split.
  - intros (h & -> & [<- Hh]%list_elem_of_filter). now destruct h.
  - intros H. exists (mkHostEntity id st). split; [reflexivity|]. now apply list_elem_of_filter.
Qed.

Lemma ids_of_cons st h live :
  ids_of st (h :: live) = if decide (he_static h = st) then he_id h :: ids_of st live else ids_of st live.
Proof. unfold ids_of. rewrite filter_cons. now destruct (decide _). Qed.

Lemma ids_of_filter st h live : NoDup (ids_of st live) -> NoDup (ids_of st (filter (fun x => x <> h) live)).
Proof.
  induction live as [|x live IH]; [now intros _; constructor|].
  rewrite ids_of_cons, filter_cons. intros Hnd.
  assert (NoDup (ids_of st live)) as Hnd' by (destruct (decide _); [now inversion Hnd|exact Hnd]).
  destruct (decide (x <> h)); [|now apply IH]. rewrite ids_of_cons. destruct (decide (he_static x = st)) as [Hs|]; [|now apply IH].
  apply NoDup_cons in Hnd as [Hni _]. constructor; [|now apply IH].
  rewrite elem_of_ids in *. intros Hin. apply Hni. now apply list_elem_of_filter in Hin as [_ Hin].
Qed.

(** Taking an id out of its pool. *)
Lemma ids_of_remove h live : NoDup (ids_of (he_static h) live) -> h ∈ live ->
  ids_of (he_static h) live ≡ₚ he_id h :: ids_of (he_static h) (filter (fun x => x <> h) live).
Proof.
  intros Hnd Hin. apply NoDup_Permutation; [exact Hnd| |].
  - constructor; [|now apply ids_of_filter]. rewrite elem_of_ids, list_elem_of_filter. destruct h. tauto.
  - intros id. rewrite elem_of_cons, !elem_of_ids, list_elem_of_filter.
    destruct (decide (mkHostEntity id (he_static h) = h)) as [He|Hne].
    { assert (id = he_id h) by (now rewrite <- He). rewrite He. tauto. }
    split; [tauto|]. intros [->|[_ H]]; [now destruct h|exact H].
Qed.

Lemma ids_of_other st h live : he_static h <> st -> ids_of st (filter (fun x => x <> h) live) = ids_of st live.
Proof.
  intros Hne. induction live as [|x live IH]; [reflexivity|]. rewrite filter_cons, (ids_of_cons _ x live).
  destruct (decide (x <> h)) as [|Heq]; [rewrite ids_of_cons, IH; reflexivity|].
  apply dec_stable in Heq. subst x. rewrite decide_False by exact Hne. exact IH.
Qed.

(** The pools of a generator after one of them moved. *)
Definition set_pool (st : bool) (g : KeyGenerator) (gen : HostEntityGenerator) : HostEntityGenerator :=
  if st then with_static_generator g gen else with_generator g gen.

Lemma pool_of_set st g gen st' : pool_of st' (set_pool st g gen) = if decide (st' = st) then g else pool_of st' gen.
Proof. now destruct st, st'. Qed.

(** Both kinds of allocation are one operation on the pool and the map. *)
Lemma issue_eq st now g m gen key gen' :
  KeyGenerator_generate now (pool_of st gen) = Ok (key, gen') -> local_map_ok m -> m.(global_to_local) !! g = None ->
  m.(host_to_global) !! mkHostEntity key st = None ->
  issue st now g m gen = Ok (Some (mkHostEntity key st),
    with_host {| record_entity := Host key st |} g (mkHostEntity key st) m, set_pool st gen' gen).
Proof.
  intros Hk Hm Hg Hh. unfold issue. destruct st.
  - unfold generate_static_host_entity. cbn [pool_of] in Hk. rewrite Hk. cbn [mbind res_bind].
    destruct (insert_static_ok g (mkHostEntity key true) m) as (m' & -> & _ & ->); auto.
  - unfold generate_host_entity. cbn [pool_of] in Hk. rewrite Hk. cbn [mbind res_bind].
    destruct (insert_host_ok g (mkHostEntity key false) m) as (m' & -> & _ & ->); auto.
Qed.

(** An id taken from its pool is not out, and the invariant holds with it. *)
Lemma take_id_ok st now g m gen live freed clock : ids_ok m gen live freed clock -> clock <= now ->
  m.(global_to_local) !! g = None -> next_new_key (pool_of st gen) < 65535 ->
  exists key gen', KeyGenerator_generate now (pool_of st gen) = Ok (key, gen') /\
    m.(host_to_global) !! mkHostEntity key st = None /\ (mkHostEntity key st ∉ live) /\
    (forall t, (mkHostEntity key st, t) ∈ freed -> t + 60000 <= now) /\
    ids_ok (with_host {| record_entity := Host key st |} g (mkHostEntity key st) m) (set_pool st gen' gen)
      (mkHostEntity key st :: live) freed now.
Proof.
  intros [Hm Hl Hp Ht Hf] Hc Hg Hn.
  destruct (pool_generate now _ _ (Hp st) Hn) as (key & gen' & Hk & Hni & Hp' & _).
  rewrite elem_of_ids in Hni. exists key, gen'. split; [exact Hk|].
  assert (m.(host_to_global) !! mkHostEntity key st = None) as Hh.
  { destruct (m.(host_to_global) !! _) eqn:H; [|reflexivity]. now apply Hl in H. }
  assert (forall h t, (h, t) ∈ freed -> now < t + 60000 -> he_static h = st ->
    key <> he_id h /\ (he_id h, t) ∈ recycling_keys gen') as Hq.
  { intros h t Hin Hlt Hs. specialize (Hf h t Hin ltac:(lia)). rewrite Hs in Hf.
    exact (pool_quarantine now _ _ _ _ _ _ (Hp st) Hk Hf ltac:(lia)). }
  split_and!; [exact Hh|exact Hni| |].
  - intros t Hin. destruct (Z.le_gt_cases (t + 60000) now); [assumption|].
    destruct (Hq _ _ Hin) as [Hne _]; [lia|reflexivity|]. now cbn in Hne.
  - split.
    + exact (with_host_ok g (mkHostEntity key st) m Hm Hg Hh).
    + cbn. intros h g' [[<- _]|[_ H]]%lookup_insert_Some; [now left|right; eauto].
    + intros st'. rewrite pool_of_set, ids_of_cons. cbn [he_static he_id].
      destruct (decide (st' = st)) as [->|Hne]; [now rewrite decide_True|rewrite decide_False by congruence; apply Hp].
    + now destruct st.
    + intros h t Hin Hlt. rewrite pool_of_set. destruct (decide (he_static h = st)) as [Hs|Hs]; [now apply Hq|].
      apply Hf; [exact Hin|lia].
Qed.

(** The way back of an id: a delivered despawn recycles it, mapped or not. *)
Lemma delivered_eq now h m gen : local_map_ok m ->
  HostGen_remove_by_host_entity now h m gen =
  Ok (match m.(host_to_global) !! h with Some g => dropped g m | None => m end,
      set_pool (he_static h) (KeyGenerator_recycle_key now (he_id h) (pool_of (he_static h) gen)) gen).
Proof.
  intros [Hh _]. unfold HostGen_remove_by_host_entity, LocalMap_from_host.
  destruct (m.(host_to_global) !! h) as [g|] eqn:Hg.
  - apply Hh in Hg. unfold HostGen_remove_by_global_entity. rewrite remove_global_eq. cbn [mbind res_bind].
    unfold host_of in Hg. destruct (m.(global_to_local) !! g) as [[[id s|id s]]|]; try discriminate.
    injection Hg as <-. cbn. unfold recycle_host, set_pool. cbn. now destruct s.
  - unfold recycle_host, set_pool. now destruct (he_static h).
Qed.

Lemma delivered_ok now h m gen live freed clock : ids_ok m gen live freed clock -> clock <= now -> h ∈ live ->
  ids_ok (match m.(host_to_global) !! h with Some g => dropped g m | None => m end)
    (set_pool (he_static h) (KeyGenerator_recycle_key now (he_id h) (pool_of (he_static h) gen)) gen)
    (filter (fun x => x <> h) live) ((h, now) :: freed) now.
Proof.
  intros [Hm Hl Hp Ht Hf] Hc Hin. split.
  - destruct (m.(host_to_global) !! h); [now apply dropped_ok|exact Hm].
  - intros h' g' H. apply list_elem_of_filter. destruct (m.(host_to_global) !! h) as [g|] eqn:Hg.
    + apply (proj1 Hm) in Hg. cbn in H. rewrite Hg in H. apply lookup_delete_Some in H as [Hne H]. split; [congruence|eauto].
    + split; [intros ->; congruence|eauto].
  - intros st. rewrite pool_of_set. destruct (decide (st = he_static h)) as [->|Hne].
    + apply pool_recycle. eapply pool_perm; [|apply Hp]. apply ids_of_remove; [|exact Hin].
      destruct (Hp (he_static h)) as [(_ & Hnd & _) _ _]. now apply NoDup_app in Hnd.
    + rewrite ids_of_other by congruence. apply Hp.
  - now destruct (he_static h).
  - intros h' t [[= -> ->]|Hin']%elem_of_cons Hlt.
    + rewrite pool_of_set, decide_True by reflexivity. cbn. apply elem_of_app. right. now left.
    + specialize (Hf h' t Hin' ltac:(lia)). rewrite pool_of_set. destruct (decide _) as [He|]; [|exact Hf].
      cbn. rewrite <- He. apply elem_of_app. now left.
Qed.

(** Reserving allocates from the dynamic pool: no reservation ever has a timeout. *)
Lemma reserve_eq now g m gen key gen' : KeyGenerator_generate now gen.(generator) = Ok (key, gen') ->
  gen.(reserved_host_entities_ttls) = [] -> gen.(reserved_host_entities) !! g = None ->
  local_map_ok m -> m.(global_to_local) !! g = None -> m.(host_to_global) !! mkHostEntity key false = None ->
  host_reserve_entity now g m gen = Ok (mkHostEntity key false,
    with_host {| record_entity := Host key false |} g (mkHostEntity key false) m,
    with_reservations (<[g := mkHostEntity key false]> gen.(reserved_host_entities)) [] (with_generator gen' gen)).
Proof.
  intros Hk Ht Hr Hm Hg Hh. unfold host_reserve_entity, process_reserved_entity_timeouts. rewrite Ht.
  cbn [expire_reservations mbind res_bind with_reservations reserved_host_entities]. rewrite Hr.
  unfold generate_host_entity. cbn [generator with_reservations]. rewrite Hk. cbn [mbind res_bind].
  destruct (insert_host_ok g (mkHostEntity key false) m) as (m' & -> & _ & ->); auto.
Qed.

Lemma ids_ok_gen m gen gen' live freed clock : ids_ok m gen live freed clock ->
  (forall st, pool_of st gen' = pool_of st gen) -> gen'.(reserved_host_entities_ttls) = [] -> ids_ok m gen' live freed clock.
Proof.
  intros [Hm Hl Hp Ht Hf] Heq Ht'. split; auto.
  - intros st. rewrite Heq. apply Hp.
  - intros h t. rewrite Heq. apply Hf.
Qed.

Lemma ids_ok_map m m' gen live freed clock now : ids_ok m gen live freed clock -> clock <= now -> local_map_ok m' ->
  (forall h g, m'.(host_to_global) !! h = Some g -> is_Some (m.(host_to_global) !! h)) -> ids_ok m' gen live freed now.
Proof.
  intros [Hm Hl Hp Ht Hf] Hc Hm' Hs. split; auto.
  - intros h g H. destruct (Hs h g H) as [g' H']. eauto.
  - intros h t Hin Hlt. apply Hf; [exact Hin|lia].
Qed.

Lemma dropped_hosts g m h g' : (dropped g m).(host_to_global) !! h = Some g' -> is_Some (m.(host_to_global) !! h).
Proof. cbn. destruct (host_of m g); [intros [_ H]%lookup_delete_Some|intros H]; now rewrite H. Qed.

Lemma event_ok now ev m gen live freed clock : ids_ok m gen live freed clock -> clock <= now ->
  event_allowed live m gen ev ->
  exists o m' gen', run_event now ev m gen = Ok (o, m', gen') /\
    ids_ok m' gen' (live_after live ev o) (freed_after now freed ev) now /\
    forall h, o = Some h -> (h ∉ live) /\ forall t, (h, t) ∈ freed -> t + 60000 <= now.
Proof.
  intros Hok Hc Ha. destruct ev as [st g|g|g|g|h|g r|r]; cbn [run_event event_allowed live_after freed_after] in *.
  - destruct Ha as [Hg Hn]. destruct (take_id_ok st now g m gen live freed clock) as (key & gen' & Hk & Hh & Hni & Hq & Hok'); auto.
    rewrite (issue_eq st now g m gen key gen'); auto; [|apply Hok]. do 3 eexists. split; [reflexivity|]. split; [exact Hok'|].
    intros h [= <-]. now split.
  - destruct Ha as (Hg & Hr & Hn).
    destruct (take_id_ok false now g m gen live freed clock) as (key & gen' & Hk & Hh & Hni & Hq & Hok'); auto.
    rewrite (reserve_eq now g m gen key gen'); auto; [|apply Hok|apply Hok]. cbn [mbind res_bind].
    do 3 eexists. split; [reflexivity|]. split; [|intros h [= <-]; now split].
    apply (ids_ok_gen _ _ _ _ _ _ Hok'); [now intros []|reflexivity].
  - do 3 eexists. split; [reflexivity|]. split; [|discriminate].
    apply (ids_ok_map m _ _ _ _ clock); [|exact Hc|apply Hok|intros h g' H; now rewrite H].
    apply (ids_ok_gen _ _ _ _ _ _ Hok); [now intros []|apply Hok].
  - rewrite remove_global_eq. cbn [mbind res_bind]. do 3 eexists. split; [reflexivity|]. split; [|discriminate].
    apply (ids_ok_map m) with clock; auto; [apply dropped_ok, Hok|apply dropped_hosts].
  - rewrite delivered_eq by apply Hok. cbn [mbind res_bind]. do 3 eexists. split; [reflexivity|].
    split; [now apply delivered_ok with clock|discriminate].
  - destruct Ha as [Hg Hr]. destruct (insert_remote_ok g r m) as (m' & -> & Hm' & Hh & _); auto; [apply Hok|].
    cbn [mbind res_bind]. do 3 eexists. split; [reflexivity|]. split; [|discriminate].
    apply (ids_ok_map m) with clock; auto. intros h g'. rewrite Hh. now intros ->.
  - destruct Ha as [g Hg]. rewrite (remove_remote_eq r g m (ids_map _ _ _ _ _ Hok) Hg). cbn [mbind res_bind].
    do 3 eexists. split; [reflexivity|]. split; [|discriminate].
    apply (ids_ok_map m) with clock; auto; [apply dropped_ok, Hok|apply dropped_hosts].
Qed.

Lemma ids_reach_ok t user m gen live freed clock : ids_reach t user m gen live freed clock -> ids_ok m gen live freed clock.
Proof.
  induction 1 as [clock|m gen live freed clock now ev o m' gen' _ Hok Hc Ha He].
  - split.
    + apply local_new_ok.
    + cbn. intros h g H. now rewrite lookup_empty in H.
    + intros []; apply pool_new_ok.
    + reflexivity.
    + intros h t0 H. now apply elem_of_nil in H.
  - destruct (event_ok now ev m gen live freed clock Hok Hc Ha) as (o1 & m1 & gen1 & He1 & Hok1 & _).
    rewrite He in He1. injection He1 as <- <- <-. exact Hok1.
Qed.
End HostIds.

(** The wire form of a mapped id leads back to its entity, but for static host ids: those are
    looked up as the dynamic id of the same number. *)
Lemma owned_back t user m gen live freed clock g o : HostIds.ids_reach t user m gen live freed clock -> global_entity_to_owned_entity m g = Some o ->
  owned_entity_to_global_entity m o = match o with Host id true => host_entity_to_global_entity m (mkHostEntity id false) | _ => Some g end.
Proof.
  intros Hr Ho. destruct (HostIds.ids_reach_ok _ _ _ _ _ _ _ Hr) as [[Hh Hm] _ _ _ _]. cbn in Ho.
  rewrite LocalMapFacts.to_owned_spec in Ho. destruct (LocalMapFacts.host_of m g) as [[id st]|] eqn:Hg.
  - injection Ho as <-. cbn. destruct st; [reflexivity|now apply Hh].
  - destruct (LocalMapFacts.remote_of m g) as [[id st]|] eqn:Hg'; [|discriminate]. injection Ho as <-. cbn.
    apply Hm in Hg'. now destruct st.
Qed.

(** C14: In every history of a connection's entity map and id generator the conversions between
    global entities and host ids, and between global entities and remote ids, agree both ways; the
    wire form of a mapped id leads back to its entity if the id is remote or a dynamic host id (a
    static host id in wire form is looked up as the dynamic id of the same number); every further
    allowed event returns; and an id that is handed out is neither in use (mapped, or evicted with
    its despawn not yet acknowledged) nor was it given back less than sixty seconds before. *)
Theorem host_ids_exclusive t user m gen live freed clock : HostIds.ids_reach t user m gen live freed clock ->
  (forall g h, global_entity_to_host_entity m g = Ok (Some h) <-> host_entity_to_global_entity m h = Some g) /\
  (forall g r, global_entity_to_remote_entity m g = Ok (Some r) <-> remote_entity_to_global_entity m r = Some g) /\
  (forall g o, global_entity_to_owned_entity m g = Some o ->
     owned_entity_to_global_entity m o = match o with Host id true => host_entity_to_global_entity m (mkHostEntity id false) | _ => Some g end) /\
  (forall g h, host_entity_to_global_entity m h = Some g -> h ∈ live) /\
  forall now ev, clock <= now -> HostIds.event_allowed live m gen ev ->
    exists o m' gen', HostIds.run_event now ev m gen = Ok (o, m', gen') /\
      forall h, o = Some h -> (h ∉ live) /\ forall t, (h, t) ∈ freed -> t + 60000 <= now.
Proof.
  intros Hr. pose proof (HostIds.ids_reach_ok _ _ _ _ _ _ _ Hr) as Hok. destruct Hok as [[Hh Hm] Hl Hp Ht Hf] eqn:Heq.
  split_and!.
  - intros g h. cbn. rewrite LocalMapFacts.to_host_of. split; [intros [= H]; now apply Hh|intros H; apply Hh in H; now rewrite H].
  - intros g r. cbn. rewrite LocalMapFacts.to_remote_of. split; [intros [= H]; now apply Hm|intros H; apply Hm in H; now rewrite H].
  - intros g o. now apply (owned_back _ _ _ _ _ _ _ g o Hr).
  - intros g h. apply Hl.
  - intros now ev Hc Ha. destruct (HostIds.event_ok now ev m gen live freed clock) as (o & m' & gen' & He & _ & Hn); auto.
    exists o, m', gen'. now split.
Qed.

Module IdsSample.
Import LocalEntityMap HostEntityGenerator HostIds.

#[local] Instance event_allowed_decision live m gen ev : Decision (event_allowed live m gen ev).
Proof. destruct ev; cbn [event_allowed]; apply _. Defined.

Definition ids_state : Type := LocalEntityMap * HostEntityGenerator * list HostEntity * list (HostEntity * Z) * Z.

Fixpoint run_all (evs : list (Z * event)) (s : ids_state) : res ids_state :=
  match evs with
  | [] => Ok s
  | (now, ev) :: rest =>
      let '(m, gen, live, freed, clock) := s in
      if decide (clock <= now /\ event_allowed live m gen ev)
      then '(o, m', gen') ← run_event now ev m gen;
           run_all rest (m', gen', live_after live ev o, freed_after now freed ev, now)
      else Err
  end.

Lemma run_all_reach t user evs m gen live freed clock m' gen' live' freed' clock' :
  ids_reach t user m gen live freed clock ->
  run_all evs (m, gen, live, freed, clock) = Ok (m', gen', live', freed', clock') ->
  ids_reach t user m' gen' live' freed' clock'.
Proof.
  revert m gen live freed clock. induction evs as [|[now ev] evs IH]; cbn [run_all]; intros m gen live freed clock Hr H.
  - now injection H as <- <- <- <- <-.
  - destruct (decide _) as [[Hc Ha]|]; [|discriminate]. apply bind_ok_inv in H as ([[o m1] gen1] & He & H).
    apply (IH _ _ _ _ _ (ids_step _ _ _ _ _ _ _ _ _ _ _ _ Hr Hc Ha He) H).
Qed.

(** Two dynamic entities and a static one; one leaves scope and comes back before its
    despawn is acknowledged, a second life of its id starts after the quarantine. *)
Definition sample_events : list (Z * event) :=
  [(0, Issue false 100); (1, Issue true 101); (2, Reserve 102); (3, Evict 100); (4, Issue false 100);
   (5, Delivered (mkHostEntity 0 false)); (6, Remote_in 103 (mkRemoteEntity 0 false)); (60005, Issue false 104)].

Definition sample_ids_state : ids_state :=
  match run_all sample_events (LocalMap_new Server, HostGen_new 7, [], [], 0) with
  | Ok s => s | _ => (LocalMap_new Server, HostGen_new 7, [], [], 0)
  end.

Definition sample_map : LocalEntityMap := sample_ids_state.1.1.1.1.
Definition sample_gen : HostEntityGenerator := sample_ids_state.1.1.1.2.
Definition sample_live : list HostEntity := sample_ids_state.1.1.2.
Definition sample_freed : list (HostEntity * Z) := sample_ids_state.1.2.

Lemma sample_ids_reach : ids_reach Server 7 sample_map sample_gen sample_live sample_freed 60005.
Proof.
  apply (run_all_reach Server 7 sample_events _ _ _ _ _ _ _ _ _ _ (ids_start Server 7 0)).
  vm_compute. reflexivity.
Qed.

Lemma host_ids_exclusive_witness :
  LocalMap_from_host sample_map (mkHostEntity 0 false) = Some 104 /\ sample_freed = [(mkHostEntity 0 false, 5)] /\
  exists o m' gen', run_event 60006 (Issue false 105) sample_map sample_gen = Ok (o, m', gen') /\
    o = Some (mkHostEntity 3 false).
Proof.
  split_and!; [vm_compute; reflexivity..|].
  destruct (host_ids_exclusive _ _ _ _ _ _ _ sample_ids_reach) as (_ & _ & _ & _ & Hn).
  destruct (Hn 60006 (Issue false 105)) as (o & m' & gen' & Hev & _);
    [vm_compute; discriminate|split; vm_compute; reflexivity|].
  exists o, m', gen'. split; [exact Hev|]. vm_compute in Hev. now injection Hev as <- _ _.
Defined.
End IdsSample.

(** The id of a mapped global entity converts back to that entity when the id
    is dynamic or remote.  The id of a static host entity does not: both
    [owned_entity_to_global_entity] and [convert_to_global] look it up as the dynamic
    id of the same number, so they return another entity or nothing. *)
Theorem owned_conversion_back t user m gen live freed clock g o :
  HostIds.ids_reach t user m gen live freed clock -> global_entity_to_owned_entity m g = Some o ->
  owned_entity_to_global_entity m o = convert_to_global o m /\
  match o with
  | Host id true => convert_to_global o m = host_entity_to_global_entity m (mkHostEntity id false) /\
                    convert_to_global o m <> Some g
  | _ => convert_to_global o m = Some g
  end.
Proof.
  intros Hr Ho. split; [reflexivity|]. pose proof (owned_back _ _ _ _ _ _ _ g o Hr Ho) as Hb. change (owned_entity_to_global_entity m o) with (convert_to_global o m) in Hb.
  destruct o as [id []|]; [|exact Hb..]. split; [exact Hb|]. rewrite Hb. destruct (HostIds.ids_reach_ok _ _ _ _ _ _ _ Hr) as [[Hh Hm] _ _ _ _]. cbn in Ho |- *.
  rewrite LocalMapFacts.to_owned_spec in Ho. destruct (LocalMapFacts.host_of m g) as [[id' st]|] eqn:Hg; [injection Ho as -> ->|destruct (LocalMapFacts.remote_of m g) as [[]|]; discriminate].
  intros H. apply Hh in H. congruence.
Qed.

Lemma owned_conversion_back_witness :
  global_entity_to_owned_entity IdsSample.sample_map 101 = Some (Host 0 true) /\
  convert_to_global (Host 0 true) IdsSample.sample_map = Some 104 /\
  convert_to_global (Host 0 true) IdsSample.sample_map <> Some 101.
Proof.
  split_and!; [vm_compute; reflexivity..|].
  refine (proj2 (proj2 (owned_conversion_back _ _ _ _ _ _ _ 101 (Host 0 true) IdsSample.sample_ids_reach _))).
  vm_compute. reflexivity.
Defined.
