(* ===== verification/Waitlist.v ===== *)
(** Items that wait for entities: src/shared/src/world/remote/remote_entity_waitlist.rs.

    A message, component or field update that names remote entities which are not
    known yet is put into a [WaitlistStore] under a handle; [RemoteEntityWaitlist]
    tracks which entities each handle waits for and marks it ready when all of them
    are in scope, or removed after sixty seconds or when more than 128 handles wait
    for one entity.  All stores of a connection share one waitlist.

    The order in which hash sets are walked is a parameter: [iter_e] for sets of
    entities, [iter_h] for sets of handles.  [InScopeEntities] is a predicate. *)

From Stdlib Require Import ZArith Lia.
From stdpp Require Import base numbers option list gmap sets.
From S2P Require Import Prelude Wire Reliable Channels EntityTypes DirtyQueue EntityMaps LocalEntities.

Abbreviation WaitlistHandle := Z.
Definition PER_ENTITY_WAITLIST_CAP : nat := 128.

(** The order of a hash set: every element once. *)
Definition walks {A} `{Countable A} (iter : gset A -> list A) : Prop :=
  forall s, NoDup (iter s) /\ forall x, x ∈ iter s <-> x ∈ s.

(** * Stores *)
Record WaitlistStore (T : Type) := mkStore { item_handles : gset WaitlistHandle; items : gmap WaitlistHandle T }.
Arguments mkStore {T} _ _.
Arguments item_handles {T} _.
Arguments items {T} _.

Record RemoteEntityWaitlist := mkWaitlist {
  handle_store : KeyGenerator;
  handle_to_required_entities : gmap WaitlistHandle (gset RemoteEntity);
  waiting_entity_to_handles : gmap RemoteEntity (list WaitlistHandle);
  ready_handles : gset WaitlistHandle;
  removed_handles : gset WaitlistHandle;
  handle_ttls : list (Z * WaitlistHandle);
  handle_ttl : Z
}.

Definition Waitlist_new : RemoteEntityWaitlist := mkWaitlist (KeyGenerator_new 60000) ∅ ∅ ∅ ∅ [] 60000.

Section Waitlist.
Context {T : Type}.
Context (iter_e : gset RemoteEntity -> list RemoteEntity) (iter_h : gset WaitlistHandle -> list WaitlistHandle).

Definition Store_new : WaitlistStore T := mkStore ∅ ∅.

Definition Store_queue (handle : WaitlistHandle) (item : T) (s : WaitlistStore T) : WaitlistStore T :=
  mkStore ({[handle]} ∪ item_handles s) (<[handle := item]> (items s)).

Definition Store_remove (handle : WaitlistHandle) (s : WaitlistStore T) : option T * WaitlistStore T :=
  (items s !! handle, mkStore (item_handles s ∖ {[handle]}) (delete handle (items s))).

(** One round of the loop over the handles that are ready. *)
Definition take_item (handle : WaitlistHandle) (acc : gset WaitlistHandle * WaitlistStore T * list T)
  : res (gset WaitlistHandle * WaitlistStore T * list T) :=
  let '(ready, s, out) := acc in
  let '(item, s') := Store_remove handle s in
  item ← unwrap item;
  Ok (ready ∖ {[handle]}, s', out ++ [item]).

Definition Store_collect_ready_items (ready : gset WaitlistHandle) (s : WaitlistStore T)
  : res (option (list T) * gset WaitlistHandle * WaitlistStore T) :=
  let intersection := item_handles s ∩ ready in
  if decide (intersection = ∅) then Ok (None, ready, s)
  else '(ready', s', out) ← foldM take_item (iter_h intersection) (ready, s, []);
       Ok (Some out, ready', s').

Definition expire_item (acc : gset WaitlistHandle * WaitlistStore T) (handle : WaitlistHandle)
  : gset WaitlistHandle * WaitlistStore T :=
  (acc.1 ∖ {[handle]}, (Store_remove handle acc.2).2).

Definition remove_expired_items (expired : gset WaitlistHandle) (s : WaitlistStore T)
  : gset WaitlistHandle * WaitlistStore T :=
  fold_left expire_item (iter_h (item_handles s ∩ expired)) (expired, s).

(** * The waitlist *)
Definition required_entities_are_in_scope (in_scope : RemoteEntity -> bool) (entities : gset RemoteEntity) : bool :=
  forallb in_scope (iter_e entities).

(** [handle_ttls.remove(position)]: the first entry of the handle. *)
Fixpoint remove_ttl (handle : WaitlistHandle) (ttls : list (Z * WaitlistHandle)) : list (Z * WaitlistHandle) :=
  match ttls with
  | [] => []
  | (t, h) :: rest => if h =? handle then rest else (t, h) :: remove_ttl handle rest
  end.

Definition forget_handle (handle : WaitlistHandle) (m : gmap RemoteEntity (list WaitlistHandle)) (entity : RemoteEntity)
  : gmap RemoteEntity (list WaitlistHandle) :=
  match m !! entity with
  | Some queue =>
      let queue' := filter (fun h => h <> handle) queue in
      if decide (queue' = []) then delete entity m else <[entity := queue']> m
  | None => m
  end.

Definition remove_waiting_handle (now : Z) (handle : WaitlistHandle) (w : RemoteEntityWaitlist)
  : res RemoteEntityWaitlist :=
  let ttls := remove_ttl handle (handle_ttls w) in
  entities ← unwrap (handle_to_required_entities w !! handle);
  Ok (mkWaitlist (KeyGenerator_recycle_key now handle (handle_store w))
        (delete handle (handle_to_required_entities w))
        (fold_left (forget_handle handle) (iter_e entities) (waiting_entity_to_handles w))
        (ready_handles w) (removed_handles w) ttls (handle_ttl w)).

Definition mark_removed (handle : WaitlistHandle) (w : RemoteEntityWaitlist) : RemoteEntityWaitlist :=
  mkWaitlist (handle_store w) (handle_to_required_entities w) (waiting_entity_to_handles w) (ready_handles w)
    ({[handle]} ∪ removed_handles w) (handle_ttls w) (handle_ttl w).

Definition mark_ready (handle : WaitlistHandle) (w : RemoteEntityWaitlist) : RemoteEntityWaitlist :=
  mkWaitlist (handle_store w) (handle_to_required_entities w) (waiting_entity_to_handles w)
    ({[handle]} ∪ ready_handles w) (removed_handles w) (handle_ttls w) (handle_ttl w).

(** The first loop of [queue]: the oldest handle of each full queue is taken out. *)
Definition evict_front (acc : gmap RemoteEntity (list WaitlistHandle) * gset WaitlistHandle) (entity : RemoteEntity)
  : gmap RemoteEntity (list WaitlistHandle) * gset WaitlistHandle :=
  match acc.1 !! entity with
  | Some queue =>
      if (PER_ENTITY_WAITLIST_CAP <=? length queue)%nat then
        match queue with
        | evicted :: rest => (<[entity := rest]> acc.1, {[evicted]} ∪ acc.2)
        | [] => acc
        end
      else acc
  | None => acc
  end.

Definition push_handle (handle : WaitlistHandle) (m : gmap RemoteEntity (list WaitlistHandle)) (entity : RemoteEntity)
  : gmap RemoteEntity (list WaitlistHandle) :=
  <[entity := default [] (m !! entity) ++ [handle]]> m.

Definition drop_handle (now : Z) (handle : WaitlistHandle) (w : RemoteEntityWaitlist) : res RemoteEntityWaitlist :=
  remove_waiting_handle now handle (mark_removed handle w).

Definition with_waiting (m : gmap RemoteEntity (list WaitlistHandle)) (w : RemoteEntityWaitlist) : RemoteEntityWaitlist :=
  mkWaitlist (handle_store w) (handle_to_required_entities w) m (ready_handles w) (removed_handles w) (handle_ttls w) (handle_ttl w).
Definition with_handle_store (g : KeyGenerator) (w : RemoteEntityWaitlist) : RemoteEntityWaitlist :=
  mkWaitlist g (handle_to_required_entities w) (waiting_entity_to_handles w) (ready_handles w) (removed_handles w)
    (handle_ttls w) (handle_ttl w).

Definition Waitlist_queue (now : Z) (in_scope : RemoteEntity -> bool) (entities : gset RemoteEntity) (item : T)
  (w : RemoteEntityWaitlist) (s : WaitlistStore T) : res (WaitlistHandle * RemoteEntityWaitlist * WaitlistStore T) :=
  '(new_handle, g) ← KeyGenerator_generate now (handle_store w);
  let w := with_handle_store g w in
  if required_entities_are_in_scope in_scope entities then
    Ok (new_handle, mark_ready new_handle w, Store_queue new_handle item s)
  else
    let '(waiting, evictions) := fold_left evict_front (iter_e entities) (waiting_entity_to_handles w, ∅) in
    w1 ← foldM (drop_handle now) (iter_h evictions) (with_waiting waiting w);
    let w2 := with_waiting (fold_left (push_handle new_handle) (iter_e entities) (waiting_entity_to_handles w1)) w1 in
    Ok (new_handle,
        mkWaitlist (handle_store w2) (<[new_handle := entities]> (handle_to_required_entities w2))
          (waiting_entity_to_handles w2) (ready_handles w2) (removed_handles w2)
          (handle_ttls w2 ++ [(now, new_handle)]) (handle_ttl w2),
        Store_queue new_handle item s).

(** The loop over the front of the queue of deadlines; a round takes one entry off. *)
Fixpoint check_handle_ttls (fuel : nat) (now : Z) (w : RemoteEntityWaitlist) : res RemoteEntityWaitlist :=
  match fuel with
  | O => Diverge
  | S fuel' =>
      match handle_ttls w with
      | [] => Ok w
      | (ttl, handle) :: rest =>
          if elapsed ttl now <? handle_ttl w then Ok w
          else
            w' ← drop_handle now handle
                   (mkWaitlist (handle_store w) (handle_to_required_entities w) (waiting_entity_to_handles w)
                      (ready_handles w) (removed_handles w) rest (handle_ttl w));
            check_handle_ttls fuel' now w'
      end
  end.

Definition with_marks (ready removed : gset WaitlistHandle) (w : RemoteEntityWaitlist) : RemoteEntityWaitlist :=
  mkWaitlist (handle_store w) (handle_to_required_entities w) (waiting_entity_to_handles w) ready removed
    (handle_ttls w) (handle_ttl w).

(** [Instant::now()] inside [remove_waiting_handle] is read as [now]. *)
Definition Waitlist_collect_ready_items (now : Z) (w : RemoteEntityWaitlist) (s : WaitlistStore T)
  : res (option (list T) * RemoteEntityWaitlist * WaitlistStore T) :=
  w1 ← check_handle_ttls (S (length (handle_ttls w))) now w;
  let '(removed, s1) := remove_expired_items (removed_handles w1) s in
  let w2 := with_marks (ready_handles w1) removed w1 in
  if decide (ready_handles w2 = ∅) then Ok (None, w2, s1)
  else '(out, ready, s2) ← Store_collect_ready_items (ready_handles w2) s1;
       Ok (out, with_marks ready removed w2, s2).

Definition Waitlist_spawn_entity (now : Z) (in_scope : RemoteEntity -> bool) (entity : RemoteEntity)
  (w : RemoteEntityWaitlist) : res RemoteEntityWaitlist :=
  let outgoing :=
    filter (fun h => match handle_to_required_entities w !! h with
                     | Some entities => required_entities_are_in_scope in_scope entities
                     | None => false
                     end = true) (default [] (waiting_entity_to_handles w !! entity)) in
  foldM (fun h w' => remove_waiting_handle now h (mark_ready h w')) outgoing w.
End Waitlist.
Arguments Store_new {T}.
