(* ===== verification/WaitlistSpec.v ===== *)
(** What the waitlist promises: a list of entries in the order they were queued, each
    waiting, ready or dropped.  The operations of Waitlist.v are shown to do to the
    hash maps, queues and handles what the operations here do to that list. *)

From Stdlib Require Import ZArith Lia.
From stdpp Require Import base numbers option list gmap sets sorting.
From S2P Require Import Prelude Wire Reliable Channels EntityTypes DirtyQueue EntityMaps LocalEntities Waitlist.

(** [Ready t] and [Dropped t] entries gave their handle back at time [t]. *)
Inductive en_state := Waiting | Ready (t : Z) | Dropped (t : Z).
#[global] Instance en_state_eq_dec : EqDecision en_state.
Proof. solve_decision. Defined.

Definition is_ready (st : en_state) : bool := match st with Ready _ => true | _ => false end.
Definition is_dropped (st : en_state) : bool := match st with Dropped _ => true | _ => false end.

Record entry (T : Type) := Entry {
  en_handle : WaitlistHandle; en_store : nat; en_item : T; en_needs : gset RemoteEntity; en_time : Z; en_status : en_state }.
Arguments Entry {T} _ _ _ _ _ _.
Arguments en_handle {T} _.
Arguments en_store {T} _.
Arguments en_item {T} _.
Arguments en_needs {T} _.
Arguments en_time {T} _.
Arguments en_status {T} _.

Section Spec.
Context {T : Type}.
Implicit Types (en : entry T) (spec : list (entry T)).

Definition with_status (st : en_state) en : entry T :=
  Entry (en_handle en) (en_store en) (en_item en) (en_needs en) (en_time en) st.

(** The handles that wait for an entity, oldest first, and the deadlines. *)
Definition waiting_on (e : RemoteEntity) spec : list WaitlistHandle :=
  en_handle <$> filter (fun en => en_status en = Waiting /\ e ∈ en_needs en) spec.
Definition deadlines spec : list (Z * WaitlistHandle) :=
  (fun en => (en_time en, en_handle en)) <$> filter (fun en => en_status en = Waiting) spec.

Definition mark (st : en_state) (hs : list WaitlistHandle) spec : list (entry T) :=
  (fun en => if decide (en_handle en ∈ hs) then with_status st en else en) <$> spec.

(** The oldest handle of every entity of the set that 128 handles already wait for. *)
Definition evictions_of (iter_e : gset RemoteEntity -> list RemoteEntity) (entities : gset RemoteEntity) spec
  : list WaitlistHandle :=
  omap (fun e => if (PER_ENTITY_WAITLIST_CAP <=? length (waiting_on e spec))%nat then head (waiting_on e spec) else None)
    (iter_e entities).

Definition in_scope_all (in_scope : RemoteEntity -> bool) (entities : gset RemoteEntity) : Prop :=
  set_Forall (fun e => in_scope e = true) entities.

Definition spec_queue iter_e (now : Z) (in_scope : RemoteEntity -> bool) (entities : gset RemoteEntity) (store : nat)
  (item : T) (h : WaitlistHandle) spec : list (entry T) :=
  if decide (in_scope_all in_scope entities) then spec ++ [Entry h store item entities now (Ready now)]
  else mark (Dropped now) (evictions_of iter_e entities spec) spec ++ [Entry h store item entities now Waiting].

Definition spec_spawn (now : Z) (in_scope : RemoteEntity -> bool) (e : RemoteEntity) spec : list (entry T) :=
  (fun en => if decide (en_status en = Waiting /\ e ∈ en_needs en /\ in_scope_all in_scope (en_needs en))
             then with_status (Ready now) en else en) <$> spec.

(** Sixty seconds after it was queued an entry is dropped. *)
Definition spec_expire (now : Z) spec : list (entry T) :=
  (fun en => if decide (en_status en = Waiting /\ 60000 <= now - en_time en)
             then with_status (Dropped now) en else en) <$> spec.

Definition spec_ready (store : nat) spec : list T :=
  en_item <$> filter (fun en => en_store en = store /\ is_ready (en_status en) = true) spec.

(** The entries of a store that stay after a collection: those that still wait. *)
Definition spec_rest (store : nat) spec : list (entry T) :=
  filter (fun en => en_store en = store -> en_status en = Waiting) spec.

(** * How the implementation represents the list *)
Record waits_rel (X : list WaitlistHandle) (w : RemoteEntityWaitlist) spec : Prop := {
  wr_nodup : NoDup (en_handle <$> spec);
  wr_required : forall h S, handle_to_required_entities w !! h = Some S <->
    exists en, en ∈ spec /\ en_handle en = h /\ en_needs en = S /\ en_status en = Waiting;
  wr_queue : forall e, filter (.∉ X) (default [] (waiting_entity_to_handles w !! e)) = filter (.∉ X) (waiting_on e spec);
  wr_queue_in : forall e h, h ∈ default [] (waiting_entity_to_handles w !! e) -> h ∈ waiting_on e spec;
  wr_ttls : filter (fun x => x.2 ∉ X) (handle_ttls w) = filter (fun x => x.2 ∉ X) (deadlines spec);
  wr_ttls_in : forall x, x ∈ handle_ttls w -> x ∈ deadlines spec;
  wr_ttls_nodup : NoDup (snd <$> handle_ttls w)
}.

Record marks_ok (w : RemoteEntityWaitlist) spec : Prop := {
  mo_ready : forall h, h ∈ ready_handles w <-> exists en, en ∈ spec /\ en_handle en = h /\ is_ready (en_status en) = true;
  mo_removed : forall h, h ∈ removed_handles w <-> exists en, en ∈ spec /\ en_handle en = h /\ is_dropped (en_status en) = true
}.

Record store_ok (i : nat) (s : WaitlistStore T) spec : Prop := {
  so_items : forall h x, items s !! h = Some x <->
    exists en, en ∈ spec /\ en_store en = i /\ en_handle en = h /\ en_item en = x;
  so_handles : forall h, h ∈ item_handles s <-> is_Some (items s !! h)
}.

Definition handle_held (used : list Z) (g : KeyGenerator) en : Prop :=
  match en_status en with
  | Waiting => en_handle en ∈ used
  | Ready t | Dropped t => en_handle en ∈ used \/ (en_handle en, t) ∈ recycling_keys g
  end.

(** [K] are handles that were issued and belong to no entry yet. *)
Definition handles_ok (K : list WaitlistHandle) (g : KeyGenerator) spec : Prop :=
  exists used, HostIds.pool_ok used g /\ Forall (handle_held used g) spec /\
    forall k, k ∈ K -> k ∈ used /\ k ∉ en_handle <$> spec.

Record waitlist_inv (w : RemoteEntityWaitlist) (stores : nat -> WaitlistStore T) spec : Prop := {
  wi_waits : waits_rel [] w spec;
  wi_marks : marks_ok w spec;
  wi_stores : forall i, store_ok i (stores i) spec;
  wi_handles : handles_ok [] (handle_store w) spec;
  wi_ttl : handle_ttl w = 60000;
  wi_times : StronglySorted (fun en1 en2 => en_time en1 <= en_time en2) spec
}.

(** * Marking entries *)
Lemma elem_of_mark st hs spec en : en ∈ mark st hs spec <->
  exists en0, en0 ∈ spec /\ en = if decide (en_handle en0 ∈ hs) then with_status st en0 else en0.
Proof. unfold mark. rewrite list_elem_of_fmap. firstorder. Qed.

Lemma mark_handles st hs spec : en_handle <$> mark st hs spec = en_handle <$> spec.
Proof.
  unfold mark. rewrite <- list_fmap_compose. apply list_fmap_ext. intros i en _. cbn. now destruct (decide _).
Qed.

Lemma mark_app st hs1 hs2 spec : mark st hs2 (mark st hs1 spec) = mark st (hs1 ++ hs2) spec.
Proof.
  unfold mark. rewrite <- list_fmap_compose. apply list_fmap_ext. intros i en _. cbn.
  destruct (decide (en_handle en ∈ hs1)) as [H1|H1]; cbn [en_handle with_status].
  - rewrite (decide_True (P := en_handle en ∈ hs1 ++ hs2)) by (apply elem_of_app; now left). now destruct (decide _).
  - destruct (decide (en_handle en ∈ hs2)) as [H2|H2].
    + rewrite decide_True; [reflexivity|]. apply elem_of_app. now right.
    + rewrite decide_False; [reflexivity|]. intros [|]%elem_of_app; tauto.
Qed.

Lemma mark_nil st spec : mark st [] spec = spec.
Proof. unfold mark. rewrite <- (list_fmap_id spec) at 2. apply list_fmap_ext. intros i en _. cbn. now rewrite decide_False by apply not_elem_of_nil. Qed.

(** Entries are told apart by their handle. *)
Lemma entry_inj spec en1 en2 : NoDup (en_handle <$> spec) -> en1 ∈ spec -> en2 ∈ spec ->
  en_handle en1 = en_handle en2 -> en1 = en2.
Proof.
  intros Hnd (i & Hi)%list_elem_of_lookup (j & Hj)%list_elem_of_lookup Heq.
  assert (i = j) as ->; [|congruence].
  apply (NoDup_lookup _ i j (en_handle en1) Hnd); rewrite list_lookup_fmap; [now rewrite Hi|rewrite Hj; cbn; congruence].
Qed.

Lemma elem_of_waiting_on e h spec : h ∈ waiting_on e spec <->
  exists en, en ∈ spec /\ en_handle en = h /\ en_status en = Waiting /\ e ∈ en_needs en.
Proof.
  unfold waiting_on. rewrite list_elem_of_fmap. split.
  - intros (en & -> & [[? ?] ?]%list_elem_of_filter). eauto 6.
  - intros (en & H1 & <- & H2 & H3). exists en. split; [reflexivity|]. now apply list_elem_of_filter.
Qed.

Lemma elem_of_deadlines t h spec : (t, h) ∈ deadlines spec <->
  exists en, en ∈ spec /\ en_handle en = h /\ en_time en = t /\ en_status en = Waiting.
Proof.
  unfold deadlines. rewrite list_elem_of_fmap. split.
  - intros (en & [= -> ->] & [? ?]%list_elem_of_filter). eauto 6.
  - intros (en & H1 & <- & <- & H2). exists en. split; [reflexivity|]. now apply list_elem_of_filter.
Qed.

(** Marking takes the handles out of the queues and the deadlines. *)
Lemma waiting_on_mark st hs e spec : st <> Waiting ->
  waiting_on e (mark st hs spec) = filter (.∉ hs) (waiting_on e spec).
Proof.
  intros Hst. unfold waiting_on. induction spec as [|en spec IH]; [reflexivity|].
  cbn [mark fmap list_fmap]. fold (mark st hs spec). rewrite !filter_cons.
  destruct (decide (en_handle en ∈ hs)) as [Hin|Hin]; cbn [en_status en_needs with_status en_handle].
  - rewrite decide_False by (intros [? _]; congruence). rewrite IH.
    destruct (decide (en_status en = Waiting /\ e ∈ en_needs en)); [|reflexivity]. cbn [fmap list_fmap].
    now rewrite filter_cons, decide_False by tauto.
  - destruct (decide (en_status en = Waiting /\ e ∈ en_needs en)); [|exact IH]. cbn [fmap list_fmap].
    rewrite filter_cons, decide_True by exact Hin. now f_equal.
Qed.

Lemma deadlines_mark st hs spec : st <> Waiting ->
  deadlines (mark st hs spec) = filter (fun x => x.2 ∉ hs) (deadlines spec).
Proof.
  intros Hst. unfold deadlines. induction spec as [|en spec IH]; [reflexivity|].
  cbn [mark fmap list_fmap]. fold (mark st hs spec). rewrite !filter_cons.
  destruct (decide (en_handle en ∈ hs)) as [Hin|Hin]; cbn [en_status with_status en_handle en_time].
  - rewrite decide_False by congruence. rewrite IH.
    destruct (decide (en_status en = Waiting)); [|reflexivity]. cbn [fmap list_fmap].
    rewrite filter_cons, decide_False by (cbn; tauto). reflexivity.
  - destruct (decide (en_status en = Waiting)); [|exact IH]. cbn [fmap list_fmap].
    rewrite filter_cons, decide_True by exact Hin. now f_equal.
Qed.

Lemma deadlines_nodup spec : NoDup (en_handle <$> spec) -> NoDup (snd <$> deadlines spec).
Proof.
  unfold deadlines. induction spec as [|en spec IH]; [constructor|]. cbn [fmap list_fmap]. intros [Hni Hnd]%NoDup_cons.
  rewrite filter_cons. destruct (decide _); [|now apply IH]. cbn [fmap list_fmap snd]. constructor; [|now apply IH].
  intros ([t h] & Heq & (en' & [= -> ->] & [_ Hin]%list_elem_of_filter)%list_elem_of_fmap)%list_elem_of_fmap.
  apply Hni. cbn in Heq. rewrite Heq. apply list_elem_of_fmap. eauto.
Qed.

(** * Taking a handle out of the waiting maps *)
Lemma remove_ttl_filter h ttls : NoDup (snd <$> ttls) -> remove_ttl h ttls = filter (fun x => x.2 <> h) ttls.
Proof.
  induction ttls as [|[t k] ttls IH]; [reflexivity|]. cbn [fmap list_fmap snd remove_ttl]. intros [Hni Hnd]%NoDup_cons.
  rewrite filter_cons. cbn [snd]. destruct (Z.eqb_spec k h) as [->|Hne].
  - rewrite decide_False by tauto. symmetry. apply filter_keep. intros [t' k'] Hin Heq. cbn in Heq. subst k'.
    apply Hni, list_elem_of_fmap. now exists (t', h).
  - rewrite decide_True by exact Hne. now rewrite IH.
Qed.

Lemma forget_handles h l m e :
  default [] (fold_left (forget_handle h) l m !! e) =
  if decide (e ∈ l) then filter (fun x => x <> h) (default [] (m !! e)) else default [] (m !! e).
Proof.
  assert (forall (m : gmap RemoteEntity (list Z)) a, default [] (forget_handle h m a !! e) =
    if decide (e = a) then filter (fun x => x <> h) (default [] (m !! e)) else default [] (m !! e)) as Hone.
  { intros m' a. unfold forget_handle. destruct (m' !! a) as [q|] eqn:Hq.
    - destruct (decide (filter _ q = [])) as [Hn|Hn]; destruct (decide (e = a)) as [->|Hne];
        rewrite ?lookup_delete_eq, ?lookup_insert_eq, ?lookup_delete_ne, ?lookup_insert_ne, ?Hq by congruence; cbn; congruence.
    - destruct (decide (e = a)) as [->|Hne]; [now rewrite Hq|reflexivity]. }
  revert m. induction l as [|a l IH]; intros m; cbn [fold_left]; [now rewrite decide_False by apply not_elem_of_nil|].
  rewrite IH, Hone. destruct (decide (e = a)) as [->|Hne].
  - rewrite (decide_True (P := a ∈ a :: l)) by now left. destruct (decide (a ∈ l)); [|reflexivity].
    rewrite list_filter_filter. apply list_filter_ext_in. tauto.
  - destruct (decide (e ∈ l)) as [Hin|Hin].
    + now rewrite (decide_True (P := e ∈ a :: l)) by now right.
    + rewrite (decide_False (P := e ∈ a :: l)); [reflexivity|]. intros [|]%elem_of_cons; tauto.
Qed.

Lemma filter_comm {A} (P Q : A -> Prop) `{!forall x, Decision (P x), !forall x, Decision (Q x)} (l : list A) :
  filter P (filter Q l) = filter Q (filter P l).
Proof. rewrite !list_filter_filter. apply list_filter_ext_in. tauto. Qed.

Lemma filter_not_one {B} (f : B -> Z) h (l : list B) : filter (fun x => f x ∉ [h]) l = filter (fun x => f x <> h) l.
Proof. apply list_filter_ext_in. intros x _. now rewrite list_elem_of_singleton. Qed.

Context (iter_e : gset RemoteEntity -> list RemoteEntity) (iter_h : gset WaitlistHandle -> list WaitlistHandle).
Context (Hwe : walks iter_e) (Hwh : walks iter_h).

(** Everything but the tracking of waits is left alone by a removal. *)
Definition same_marks (w w' : RemoteEntityWaitlist) : Prop :=
  ready_handles w' = ready_handles w /\ removed_handles w' = removed_handles w /\ handle_ttl w' = handle_ttl w.

Lemma required_of X w spec en : waits_rel X w spec -> en ∈ spec -> en_status en = Waiting ->
  handle_to_required_entities w !! en_handle en = Some (en_needs en).
Proof. intros Hw Hin Hst. apply (wr_required _ _ _ Hw). eauto 6. Qed.

(** The queues after a removal, wherever the handle was. *)
Lemma queue_after X w spec en e : waits_rel X w spec -> en ∈ spec ->
  default [] (fold_left (forget_handle (en_handle en)) (iter_e (en_needs en)) (waiting_entity_to_handles w) !! e) =
  filter (fun x => x <> en_handle en) (default [] (waiting_entity_to_handles w !! e)).
Proof using Hwe.
  intros Hw Hin. rewrite forget_handles. destruct (decide _) as [He|He]; [reflexivity|].
  symmetry. apply filter_keep. intros h Hh ->. apply (wr_queue_in _ _ _ Hw) in Hh.
  apply elem_of_waiting_on in Hh as (en' & Hin' & Heq & _ & Hne).
  rewrite (entry_inj _ _ _ (wr_nodup _ _ _ Hw) Hin' Hin Heq) in Hne. apply He, Hwe, Hne.
Qed.

Lemma remove_waiting_rel X w spec en st now : waits_rel X w spec -> en ∈ spec -> en_status en = Waiting -> st <> Waiting ->
  exists w', remove_waiting_handle iter_e now (en_handle en) w = Ok w' /\ waits_rel X w' (mark st [en_handle en] spec) /\
    handle_store w' = KeyGenerator_recycle_key now (en_handle en) (handle_store w) /\ same_marks w w'.
Proof using Hwe.
  intros Hw Hin Hwait Hst. unfold remove_waiting_handle. rewrite (required_of _ _ _ _ Hw Hin Hwait). cbn [unwrap mbind res_bind].
  eexists. split; [reflexivity|]. split; [|now split].
  split; cbn [handle_to_required_entities waiting_entity_to_handles handle_ttls].
  - rewrite mark_handles. apply Hw.
  - intros h S. rewrite lookup_delete_Some, (wr_required _ _ _ Hw). split.
    + intros (Hne & en' & H1 & H2 & H3 & H4). exists en'. split; [|now split_and!]. apply elem_of_mark. exists en'.
      split; [exact H1|]. rewrite decide_False; [reflexivity|]. rewrite list_elem_of_singleton. congruence.
    + intros (en' & (en0 & H0 & ->)%elem_of_mark & H2 & H3 & H4). destruct (decide _) as [Hd|Hd]; [cbn in H4; congruence|].
      rewrite list_elem_of_singleton in Hd. split; [congruence|]. eauto 6.
  - intros e. rewrite (queue_after _ _ _ _ _ Hw Hin), waiting_on_mark by exact Hst.
    rewrite (filter_not_one (fun x => x)). rewrite filter_comm, (wr_queue _ _ _ Hw). apply filter_comm.
  - intros e h. rewrite (queue_after _ _ _ _ _ Hw Hin), waiting_on_mark by exact Hst. rewrite !list_elem_of_filter.
    intros [Hne Hq]. split; [now rewrite list_elem_of_singleton|now apply (wr_queue_in _ _ _ Hw)].
  - rewrite remove_ttl_filter by apply Hw. rewrite deadlines_mark by exact Hst. rewrite filter_not_one.
    rewrite filter_comm, (wr_ttls _ _ _ Hw). apply filter_comm.
  - intros x. rewrite remove_ttl_filter by apply Hw. rewrite deadlines_mark by exact Hst. rewrite !list_elem_of_filter.
    intros [Hne Hx]. split; [now rewrite list_elem_of_singleton|now apply (wr_ttls_in _ _ _ Hw)].
  - rewrite remove_ttl_filter by apply Hw. eapply sublist_NoDup; [apply (wr_ttls_nodup _ _ _ Hw)|].
    apply fmap_sublist, sublist_filter.
Qed.

(** The exception list can be cleared once none of its handles waits. *)
Lemma waits_close X w spec : waits_rel X w spec ->
  (forall en, en ∈ spec -> en_handle en ∈ X -> en_status en <> Waiting) -> waits_rel [] w spec.
Proof.
  intros Hw Hx. assert (forall e h, h ∈ waiting_on e spec -> h ∉ X) as Hq.
  { intros e h (en & H1 & <- & H2 & _)%elem_of_waiting_on Hin. exact (Hx en H1 Hin H2). }
  assert (forall x, x ∈ deadlines spec -> x.2 ∉ X) as Hd.
  { intros [t h] (en & H1 & <- & _ & H2)%elem_of_deadlines Hin. exact (Hx en H1 Hin H2). }
  split; try apply Hw.
  - intros e. rewrite !filter_keep by (intros; apply not_elem_of_nil).
    pose proof (wr_queue _ _ _ Hw e) as H. rewrite !filter_keep in H; [exact H|apply Hq|].
    intros h Hh. apply (Hq e). now apply (wr_queue_in _ _ _ Hw).
  - rewrite !filter_keep by (intros; apply not_elem_of_nil).
    pose proof (wr_ttls _ _ _ Hw) as H. rewrite !filter_keep in H; [exact H|apply Hd|].
    intros x Hh. apply Hd. now apply (wr_ttls_in _ _ _ Hw).
Qed.

(** * Settling entries: a waiting handle becomes ready or dropped *)
Record core_inv (K X : list WaitlistHandle) (w : RemoteEntityWaitlist) spec : Prop := {
  ci_waits : waits_rel X w spec;
  ci_marks : marks_ok w spec;
  ci_handles : handles_ok K (handle_store w) spec;
  ci_ttl : handle_ttl w = 60000
}.

Lemma recycle_held K now en st spec g : (st = Ready now \/ st = Dropped now) -> NoDup (en_handle <$> spec) -> en ∈ spec ->
  en_status en = Waiting -> handles_ok K g spec ->
  handles_ok K (KeyGenerator_recycle_key now (en_handle en) g) (mark st [en_handle en] spec).
Proof.
  intros Hst Hnd Hin Hw (used & Hp & Hf & HK). rewrite Forall_forall in Hf.
  pose proof (Hf en Hin) as Hh. unfold handle_held in Hh. rewrite Hw in Hh.
  apply list_elem_of_split in Hh as (l1 & l2 & ->). exists (l1 ++ l2). split_and!.
  - apply HostIds.pool_recycle. eapply HostIds.pool_perm; [|exact Hp]. now rewrite Permutation_middle.
  - apply Forall_forall. intros x (en0 & H0 & ->)%elem_of_mark. unfold handle_held.
    destruct (decide _) as [Hd|Hd]; rewrite list_elem_of_singleton in Hd.
    + assert ((en_handle en, now) ∈ recycling_keys (KeyGenerator_recycle_key now (en_handle en) g)) as Hr.
      { cbn. apply elem_of_app. right. now left. }
      cbn [en_status with_status en_handle]. rewrite Hd. destruct Hst as [-> | ->]; now right.
    + pose proof (Hf en0 H0) as Hh0. unfold handle_held in Hh0.
      assert (en_handle en0 ∈ l1 ++ en_handle en :: l2 -> en_handle en0 ∈ l1 ++ l2) as Hu.
      { rewrite !elem_of_app, elem_of_cons. tauto. }
      assert (forall t, (en_handle en0, t) ∈ recycling_keys g ->
        (en_handle en0, t) ∈ recycling_keys (KeyGenerator_recycle_key now (en_handle en) g)) as Hr.
      { intros t H. cbn. apply elem_of_app. now left. }
      destruct (en_status en0); [now apply Hu|destruct Hh0 as [|]; [left|right]; auto..].
  - intros k Hk. destruct (HK k Hk) as [H1 H2]. rewrite mark_handles. split; [|exact H2].
    apply elem_of_app in H1 as [H1|[->|H1]%elem_of_cons]; rewrite elem_of_app; [now left| |now right].
    exfalso. apply H2, list_elem_of_fmap. eauto.
Qed.

(** Marking a handle in one of the two sets. *)
Lemma marked_set (P : en_state -> bool) st en spec (s s' : gset Z) :
  NoDup (en_handle <$> spec) -> en ∈ spec -> P (en_status en) = false ->
  (forall h, h ∈ s <-> exists en, en ∈ spec /\ en_handle en = h /\ P (en_status en) = true) ->
  s' = (if P st then {[en_handle en]} ∪ s else s) ->
  forall h, h ∈ s' <-> exists en', en' ∈ mark st [en_handle en] spec /\ en_handle en' = h /\ P (en_status en') = true.
Proof.
  intros Hnd Hin Hf Hs -> h.
  assert (forall x, x ∈ (if P st then {[en_handle en]} ∪ s else s) <-> (x = en_handle en /\ P st = true) \/ x ∈ s) as Hset.
  { intros x. destruct (P st); [rewrite elem_of_union, elem_of_singleton; tauto|]. split; [now right|]. intros [[_ [=]]|]; assumption. }
  rewrite Hset, Hs. split.
  - intros [[-> Hp]|(en0 & H0 & <- & Hp)].
    + exists (with_status st en). split; [|now split]. apply elem_of_mark. exists en. split; [exact Hin|].
      now rewrite decide_True by now apply list_elem_of_singleton.
    + exists en0. split; [|now split]. apply elem_of_mark. exists en0. split; [exact H0|]. rewrite decide_False; [reflexivity|].
      rewrite list_elem_of_singleton. intros Heq. rewrite (entry_inj _ _ _ Hnd H0 Hin Heq) in Hp. congruence.
  - intros (en' & (en0 & H0 & ->)%elem_of_mark & <- & Hp). destruct (decide _) as [Hd|Hd]; [|right; eauto].
    rewrite list_elem_of_singleton in Hd. left. cbn in Hp |- *. now split.
Qed.

(** One settled handle: [f] puts it into the set that [st] is for. *)
Lemma settle_one K X st now (f : WaitlistHandle -> RemoteEntityWaitlist -> RemoteEntityWaitlist) w spec en :
  ((st = Ready now /\ f = mark_ready) \/ (st = Dropped now /\ f = mark_removed)) ->
  core_inv K X w spec -> en ∈ spec -> en_status en = Waiting ->
  exists w', remove_waiting_handle iter_e now (en_handle en) (f (en_handle en) w) = Ok w' /\
    core_inv K X w' (mark st [en_handle en] spec).
Proof using Hwe.
  intros Hf [Hw [Hm1 Hm2] Hh Ht] Hin Hwait. pose proof (wr_nodup _ _ _ Hw) as Hnd.
  destruct Hf as [[-> ->]|[-> ->]].
  - destruct (remove_waiting_rel X (mark_ready (en_handle en) w) spec en (Ready now) now)
      as (w' & He & Hw' & Hg & (Hr & Hd & Ht')); [destruct Hw; now split|exact Hin|exact Hwait|discriminate|].
    exists w'. split; [exact He|]. split; [exact Hw'| |rewrite Hg; apply recycle_held; auto|now rewrite Ht'].
    split; [rewrite Hr|rewrite Hd]; cbn [ready_handles removed_handles mark_ready].
    + apply (marked_set is_ready _ _ _ (ready_handles w)); auto. now rewrite Hwait.
    + apply (marked_set is_dropped _ _ _ (removed_handles w)); auto. now rewrite Hwait.
  - destruct (remove_waiting_rel X (mark_removed (en_handle en) w) spec en (Dropped now) now)
      as (w' & He & Hw' & Hg & (Hr & Hd & Ht')); [destruct Hw; now split|exact Hin|exact Hwait|discriminate|].
    exists w'. split; [exact He|]. split; [exact Hw'| |rewrite Hg; apply recycle_held; auto|now rewrite Ht'].
    split; [rewrite Hr|rewrite Hd]; cbn [ready_handles removed_handles mark_removed].
    + apply (marked_set is_ready _ _ _ (ready_handles w)); auto. now rewrite Hwait.
    + apply (marked_set is_dropped _ _ _ (removed_handles w)); auto. now rewrite Hwait.
Qed.

Lemma settle_all K X st now f hs w spec :
  ((st = Ready now /\ f = mark_ready) \/ (st = Dropped now /\ f = mark_removed)) ->
  core_inv K X w spec -> NoDup hs ->
  (forall h, h ∈ hs -> exists en, en ∈ spec /\ en_handle en = h /\ en_status en = Waiting) ->
  exists w', foldM (fun h w' => remove_waiting_handle iter_e now h (f h w')) hs w = Ok w' /\
    core_inv K X w' (mark st hs spec).
Proof using Hwe.
  intros Hf. revert w spec. induction hs as [|h hs IH]; intros w spec Hc Hnd Hall; cbn [foldM].
  - exists w. now rewrite mark_nil.
  - apply NoDup_cons in Hnd as [Hni Hnd]. destruct (Hall h) as (en & Hin & <- & Hw); [now left|].
    destruct (settle_one K X st now f w spec en Hf Hc Hin Hw) as (w1 & -> & Hc1). cbn [mbind res_bind].
    destruct (IH w1 _ Hc1 Hnd) as (w2 & He2 & Hc2).
    { intros h Hh. destruct (Hall h) as (en' & Hin' & <- & Hw'); [now right|]. exists en'. split; [|now split].
      apply elem_of_mark. exists en'. split; [exact Hin'|]. rewrite decide_False; [reflexivity|].
      rewrite list_elem_of_singleton. congruence. }
    exists w2. split; [exact He2|]. now rewrite mark_app in Hc2.
Qed.

Lemma scope_check in_scope S : required_entities_are_in_scope iter_e in_scope S = true <-> in_scope_all in_scope S.
Proof using Hwe.
  unfold required_entities_are_in_scope, in_scope_all. rewrite forallb_forall. split.
  - intros H e He. apply H. apply list_elem_of_In, Hwe, He.
  - intros H e He. apply H. apply list_elem_of_In, Hwe in He. exact He.
Qed.

Lemma mark_ext st hs hs' spec : (forall en, en ∈ spec -> en_handle en ∈ hs <-> en_handle en ∈ hs') -> mark st hs spec = mark st hs' spec.
Proof.
  intros H. unfold mark. apply list_fmap_ext. intros i en Hi. apply list_elem_of_lookup_2 in Hi.
  destruct (decide (en_handle en ∈ hs)), (decide (en_handle en ∈ hs')); firstorder.
Qed.

Lemma queue_exact w spec e : waits_rel [] w spec -> default [] (waiting_entity_to_handles w !! e) = waiting_on e spec.
Proof.
  intros Hw. pose proof (wr_queue _ _ _ Hw e) as H. now rewrite !filter_keep in H by (intros; apply not_elem_of_nil).
Qed.

Lemma ttls_exact w spec : waits_rel [] w spec -> handle_ttls w = deadlines spec.
Proof.
  intros Hw. pose proof (wr_ttls _ _ _ Hw) as H. now rewrite !filter_keep in H by (intros; apply not_elem_of_nil).
Qed.

Lemma waiting_on_nodup e spec : NoDup (en_handle <$> spec) -> NoDup (waiting_on e spec).
Proof. intros H. eapply sublist_NoDup; [exact H|]. apply fmap_sublist, sublist_filter. Qed.

(** * Spawning *)
Lemma spawn_core K now in_scope e w spec : core_inv K [] w spec ->
  exists w', Waitlist_spawn_entity iter_e now in_scope e w = Ok w' /\ core_inv K [] w' (spec_spawn now in_scope e spec).
Proof using Hwe.
  intros Hc. unfold Waitlist_spawn_entity. rewrite (queue_exact _ spec) by apply Hc.
  set (out := filter _ (waiting_on e spec)).
  assert (forall en, en ∈ spec -> en_handle en ∈ out <->
    en_status en = Waiting /\ e ∈ en_needs en /\ in_scope_all in_scope (en_needs en)) as Hout.
  { intros en Hin. unfold out. rewrite list_elem_of_filter, elem_of_waiting_on. split.
    - intros [Hs (en' & H1 & H2 & H3 & H4)]. pose proof (wr_nodup _ _ _ (ci_waits _ _ _ _ Hc)) as Hnd.
      rewrite (entry_inj _ _ _ Hnd H1 Hin H2) in *. rewrite (required_of _ _ _ _ (ci_waits _ _ _ _ Hc) Hin H3) in Hs.
      apply scope_check in Hs. now split_and!.
    - intros (H3 & H4 & Hs). rewrite (required_of _ _ _ _ (ci_waits _ _ _ _ Hc) Hin H3). rewrite scope_check. eauto 8. }
  destruct (settle_all K [] (Ready now) now mark_ready out w spec) as (w' & He & Hc'); [now left|exact Hc| | |].
  - apply NoDup_filter, waiting_on_nodup, Hc.
  - intros h Hh. unfold out in Hh. apply list_elem_of_filter in Hh as [_ (en & H1 & H2 & H3 & _)%elem_of_waiting_on]. eauto.
  - exists w'. split; [exact He|]. replace (spec_spawn now in_scope e spec) with (mark (Ready now) out spec); [exact Hc'|].
    unfold mark, spec_spawn. apply list_fmap_ext. intros i en Hi. apply list_elem_of_lookup_2 in Hi. cbn beta.
    pose proof (Hout en Hi). destruct (decide (en_handle en ∈ out)), (decide (en_status en = Waiting /\ _)); tauto.
Qed.

(** * Deadlines *)
Definition ordered_times spec : Prop := StronglySorted (fun en1 en2 => en_time en1 <= en_time en2) spec.

Lemma ordered_fmap (f : entry T -> entry T) spec : (forall en, en_time (f en) = en_time en) -> ordered_times spec -> ordered_times (f <$> spec).
Proof.
  intros Hf. unfold ordered_times. induction 1 as [|en spec Hs IH Hall]; [constructor|]. cbn. constructor; [exact IH|].
  apply Forall_fmap. eapply Forall_impl; [exact Hall|]. intros en'. cbn. now rewrite !Hf.
Qed.

Lemma mark_time st (hs : list WaitlistHandle) en : en_time (if decide (en_handle en ∈ hs) then with_status st en else en) = en_time en.
Proof. now destruct (decide _). Qed.

(** The first deadline is the earliest. *)
Lemma first_deadline t h rest spec en : ordered_times spec -> deadlines spec = (t, h) :: rest -> en ∈ spec ->
  en_status en = Waiting -> t <= en_time en.
Proof.
  intros Hs. unfold deadlines. revert Hs. induction 1 as [|en0 spec Hs IH Hall]; [discriminate|]. rewrite filter_cons.
  destruct (decide (en_status en0 = Waiting)) as [Hw|Hw].
  - cbn. intros [= <- <- _] [->|Hin]%elem_of_cons _; [lia|]. rewrite Forall_forall in Hall. now apply Hall.
  - intros Hd [->|Hin]%elem_of_cons Hw'; [congruence|]. now apply IH.
Qed.

Lemma expire_none now spec : (forall en, en ∈ spec -> en_status en = Waiting -> now - en_time en < 60000) ->
  spec_expire now spec = spec.
Proof.
  intros H. unfold spec_expire. rewrite <- (list_fmap_id spec) at 2. apply list_fmap_ext.
  intros i en Hi%list_elem_of_lookup_2. rewrite decide_False; [reflexivity|]. intros [Hw Ht]. specialize (H en Hi Hw). lia.
Qed.

Lemma expire_mark now en spec : NoDup (en_handle <$> spec) -> en ∈ spec -> en_status en = Waiting -> 60000 <= now - en_time en ->
  spec_expire now (mark (Dropped now) [en_handle en] spec) = spec_expire now spec.
Proof.
  intros Hnd Hin Hw Ht. unfold spec_expire, mark. rewrite <- list_fmap_compose. apply list_fmap_ext.
  intros i en0 Hi%list_elem_of_lookup_2. cbn. destruct (decide (en_handle en0 ∈ _)) as [Hd|Hd]; [|reflexivity].
  rewrite list_elem_of_singleton in Hd. rewrite (entry_inj _ _ _ Hnd Hi Hin Hd).
  rewrite (decide_True (P := en_status en = Waiting /\ _)) by (split; assumption).
  rewrite decide_False; [reflexivity|]. intros [[=] _].
Qed.

Lemma ttls_core K fuel now w spec : core_inv K [] w spec -> ordered_times spec -> (length (handle_ttls w) < fuel)%nat ->
  exists w', check_handle_ttls iter_e fuel now w = Ok w' /\ core_inv K [] w' (spec_expire now spec).
Proof using Hwe.
  revert w spec. induction fuel as [|fuel IH]; intros w spec Hc Ho Hlen; [lia|]. cbn [check_handle_ttls].
  pose proof (ttls_exact _ _ (ci_waits _ _ _ _ Hc)) as Htt. destruct (handle_ttls w) as [|[t h] rest] eqn:Hl.
  - exists w. split; [reflexivity|]. rewrite expire_none; [exact Hc|]. intros en Hin Hw.
    assert ((en_time en, en_handle en) ∈ deadlines spec) as Hd by (apply elem_of_deadlines; eauto 6).
    rewrite <- Htt in Hd. now apply elem_of_nil in Hd.
  - rewrite (ci_ttl _ _ _ _ Hc). unfold elapsed. destruct (Z.max 0 (now - t) <? 60000) eqn:Hlt; bools.
    + exists w. split; [reflexivity|]. rewrite expire_none; [exact Hc|]. intros en Hin Hw.
      pose proof (first_deadline _ _ _ _ _ Ho (eq_sym Htt) Hin Hw). lia.
    + assert ((t, h) ∈ deadlines spec) as Hd by (rewrite <- Htt; now left).
      apply elem_of_deadlines in Hd as (en & Hin & <- & <- & Hw).
      set (w0 := mkWaitlist _ _ _ _ _ rest _).
      assert (core_inv K [en_handle en] w0 spec) as Hc0.
      { destruct Hc as [Hwr Hm Hh Ht]. split; [|destruct Hm; now split|exact Hh|reflexivity].
        destruct Hwr as [H1 H2 H3 H4 H5 H6 H7]. rewrite Hl in *. split; cbn [w0 handle_to_required_entities waiting_entity_to_handles handle_ttls]; auto.
        - intros e. now rewrite <- (queue_exact w spec e) by (split; rewrite ?Hl; auto).
        - rewrite <- Htt. rewrite filter_cons, decide_False; [reflexivity|]. cbn. rewrite list_elem_of_singleton. tauto.
        - intros x Hx. apply H6. now right.
        - cbn in H7. now apply NoDup_cons in H7. }
      destruct (settle_one K [en_handle en] (Dropped now) now mark_removed w0 spec en) as (w1 & He1 & Hc1); [now right|exact Hc0|exact Hin|exact Hw|].
      unfold drop_handle. fold w0. rewrite He1. cbn [mbind res_bind].
      assert (core_inv K [] w1 (mark (Dropped now) [en_handle en] spec)) as Hc2.
      { destruct Hc1 as [Hwr Hm Hh Ht]. split; auto. apply (waits_close _ _ _ Hwr).
        intros en' (en0 & H0 & ->)%elem_of_mark. destruct (decide (en_handle en0 ∈ _)) as [Hd|Hd]; [discriminate|tauto]. }
      destruct (IH w1 _ Hc2) as (w2 & He2 & Hc3).
      * apply ordered_fmap; [intros; apply mark_time|exact Ho].
      * rewrite (ttls_exact _ _ (ci_waits _ _ _ _ Hc2)), deadlines_mark by discriminate. rewrite <- Htt.
        rewrite filter_cons, decide_False by (cbn; rewrite list_elem_of_singleton; tauto).
        pose proof (length_filter (fun x : Z * Z => x.2 ∉ [en_handle en]) rest). cbn in Hlen. lia.
      * exists w2. split; [exact He2|]. rewrite expire_mark in Hc3; auto; [apply Hc|lia].
Qed.
End Spec.
