(* ===== verification/WaitlistRefine.v ===== *)
(** The collection and the queueing of the waitlist, and the refinement theorem:
    every history of a connection's waitlist and stores behaves like the list of
    entries of WaitlistSpec.v. *)

From Stdlib Require Import ZArith Lia.
From stdpp Require Import base numbers option list gmap sets sorting.
From S2P Require Import Prelude Wire Reliable Channels EntityTypes DirtyQueue EntityMaps LocalEntities Waitlist WaitlistSpec.

Section Refine.
Context {T : Type}.
Context (iter_e : gset RemoteEntity -> list RemoteEntity) (iter_h : gset WaitlistHandle -> list WaitlistHandle).
Context (Hwe : walks iter_e) (Hwh : walks iter_h).
Implicit Types (en : entry T) (spec : list (entry T)) (s : WaitlistStore T).

(** * Taking items out of a store *)
Record taken (l : list WaitlistHandle) (r r' : gset WaitlistHandle) s s' : Prop := {
  tk_set : forall h, h ∈ r' <-> h ∈ r /\ h ∉ l;
  tk_items : forall h, items s' !! h = if decide (h ∈ l) then None else items s !! h;
  tk_handles : forall h, h ∈ item_handles s' <-> h ∈ item_handles s /\ h ∉ l
}.

Lemma taken_nil r s : taken [] r r s s.
Proof using Type.
  split; intros h.
  - pose proof (not_elem_of_nil h). tauto.
  - now rewrite decide_False by apply not_elem_of_nil.
  - pose proof (not_elem_of_nil h). tauto.
Qed.

Lemma taken_cons h l r r' s s' : taken l (r ∖ {[h]}) r' (Store_remove h s).2 s' -> taken (h :: l) r r' s s'.
Proof using Type.
  intros [H1 H2 H3]. split; intros k.
  - rewrite H1, elem_of_difference, elem_of_singleton, not_elem_of_cons. tauto.
  - rewrite H2. cbn [Store_remove snd items]. destruct (decide (k ∈ l)) as [Hl|Hl].
    + now rewrite (decide_True (P := k ∈ h :: l)) by now right.
    + destruct (decide (k ∈ h :: l)) as [[->|]%elem_of_cons|Hn]; [apply lookup_delete_eq|tauto|].
      apply not_elem_of_cons in Hn as [Hn _]. now rewrite lookup_delete_ne by congruence.
  - rewrite H3. cbn [Store_remove snd item_handles]. rewrite elem_of_difference, elem_of_singleton, not_elem_of_cons. tauto.
Qed.

Lemma expire_items_taken l r s : taken l r (fold_left expire_item l (r, s)).1 s (fold_left expire_item l (r, s)).2.
Proof using Type.
  revert r s. induction l as [|h l IH]; intros r s; cbn [fold_left]; [apply taken_nil|]. apply taken_cons, IH.
Qed.

Lemma take_items_taken l r s out : NoDup l -> (forall h, h ∈ l -> is_Some (items s !! h)) ->
  exists r' s', foldM take_item l (r, s, out) = Ok (r', s', out ++ omap (fun h => items s !! h) l) /\ taken l r r' s s'.
Proof using Type.
  revert r s out. induction l as [|h l IH]; intros r s out Hnd Hall; cbn [foldM omap list_omap].
  - exists r, s. rewrite app_nil_r. split; [reflexivity|apply taken_nil].
  - apply NoDup_cons in Hnd as [Hni Hnd]. destruct (Hall h) as [x Hx]; [now left|].
    assert (forall k, k ∈ l -> items (Store_remove h s).2 !! k = items s !! k) as Hsame.
    { intros k Hk. cbn. rewrite lookup_delete_ne; [reflexivity|]. intros ->. tauto. }
    destruct (IH (r ∖ {[h]}) (Store_remove h s).2 (out ++ [x]) Hnd) as (r' & s' & He & Ht).
    { intros k Hk. rewrite Hsame by exact Hk. apply Hall. now right. }
    exists r', s'. split; [|now apply taken_cons].
    assert (take_item h (r, s, out) = Ok (r ∖ {[h]}, (Store_remove h s).2, out ++ [x])) as ->.
    { unfold take_item, Store_remove. now rewrite Hx. }
    cbn [mbind res_bind]. rewrite He, Hx. rewrite <- app_assoc. do 3 f_equal. cbn [app]. f_equal.
    clear -Hsame. induction l as [|k l IH]; [reflexivity|]. cbn [omap list_omap].
    rewrite <- (Hsame k) by now left. cbn [Store_remove snd items]. destruct (delete h (items s) !! k); [f_equal|]; (apply IH; intros; apply Hsame; now right).
Qed.

(** * Entries leave the list *)
Lemma prune_waits (P : entry T -> Prop) `{!forall x, Decision (P x)} w spec :
  (forall en, en ∈ spec -> en_status en = Waiting -> P en) -> waits_rel [] w spec -> waits_rel [] w (filter P spec).
Proof using Type.
  intros Hp Hw. pose proof Hw as [H1 H2 H3 H4 H5 H6 H7].
  assert (forall e, waiting_on e (filter P spec) = waiting_on e spec) as Hq.
  { intros e. unfold waiting_on. f_equal. rewrite list_filter_filter. apply list_filter_ext_in.
    intros en Hin. specialize (Hp en Hin). tauto. }
  assert (deadlines (filter P spec) = deadlines spec) as Hd.
  { unfold deadlines. f_equal. rewrite list_filter_filter. apply list_filter_ext_in.
    intros en Hin. specialize (Hp en Hin). tauto. }
  split; rewrite ?Hd; auto; try (intros e; rewrite Hq; apply Hw).
  - eapply sublist_NoDup; [exact H1|]. apply fmap_sublist, sublist_filter.
  - intros h S. rewrite H2. split; intros (en & Hin & Ha & Hb & Hc); exists en; (split; [|now split_and!]).
    + apply list_elem_of_filter. auto.
    + now apply list_elem_of_filter in Hin.
Qed.

Lemma prune_store i l r r' s s' spec (P : entry T -> Prop) `{!forall x, Decision (P x)} : NoDup (en_handle <$> spec) ->
  (forall en, en ∈ spec -> en_store en = i -> en_handle en ∈ l <-> ~ P en) ->
  store_ok i s spec -> taken l r r' s s' -> store_ok i s' (filter P spec).
Proof using Type.
  intros Hnd Hl [Hi Hh] [_ Ht Hth]. split.
  - intros h x. rewrite Ht. destruct (decide (h ∈ l)) as [Hin|Hin].
    + split; [discriminate|]. intros (en & [Hp He]%list_elem_of_filter & H1 & <- & _). exfalso. now apply (Hl en He H1).
    + rewrite Hi. split; intros (en & He & H1 & <- & H2); exists en; (split; [|now split_and!]).
      * apply list_elem_of_filter. split; [|exact He]. apply dec_stable. intros Hn. apply Hin. now apply (Hl en He H1).
      * now apply list_elem_of_filter in He.
  - intros h. rewrite Hth, Hh, Ht. destruct (decide (h ∈ l)) as [Hin|Hin]; [|tauto].
    split; [tauto|]. intros [? [=]].
Qed.

Lemma prune_other j s spec (P : entry T -> Prop) `{!forall x, Decision (P x)} :
  (forall en, en ∈ spec -> en_store en = j -> P en) -> store_ok j s spec -> store_ok j s (filter P spec).
Proof using Type.
  intros Hp [Hi Hh]. split; [|exact Hh]. intros h x. rewrite Hi.
  split; intros (en & He & H1 & <- & H2); exists en; (split; [|now split_and!]).
  - apply list_elem_of_filter. auto.
  - now apply list_elem_of_filter in He.
Qed.

(** The handles of one store in the ready or the removed set. *)
Lemma in_both (b : en_state -> bool) i s spec (r : gset WaitlistHandle) : store_ok i s spec -> NoDup (en_handle <$> spec) ->
  (forall h, h ∈ r <-> exists en, en ∈ spec /\ en_handle en = h /\ b (en_status en) = true) ->
  forall h, h ∈ iter_h (item_handles s ∩ r) <->
    exists en, en ∈ spec /\ en_handle en = h /\ en_store en = i /\ b (en_status en) = true.
Proof using Hwh.
  intros [Hi Hh] Hnd Hr h. rewrite (proj2 (Hwh _) h), elem_of_intersection, Hh, Hr. split.
  - intros [[x (en & H1 & H2 & H3 & _)%Hi] (en' & H1' & H2' & H3')].
    assert (en = en') as <- by (apply (entry_inj _ _ _ Hnd H1 H1'); congruence). eauto 6.
  - intros (en & H1 & H2 & H3 & H4). split; [|eauto 6]. exists (en_item en). apply Hi. eauto 6.
Qed.

Lemma marks_prune (b : en_state -> bool) i l spec (r r' : gset WaitlistHandle) s s' (P : entry T -> Prop) `{!forall x, Decision (P x)} :
  NoDup (en_handle <$> spec) -> taken l r r' s s' ->
  (forall h, h ∈ l <-> exists en, en ∈ spec /\ en_handle en = h /\ en_store en = i /\ b (en_status en) = true) ->
  (forall en, P en <-> ~ (en_store en = i /\ b (en_status en) = true)) ->
  (forall h, h ∈ r <-> exists en, en ∈ spec /\ en_handle en = h /\ b (en_status en) = true) ->
  forall h, h ∈ r' <-> exists en, en ∈ filter P spec /\ en_handle en = h /\ b (en_status en) = true.
Proof using Type.
  intros Hnd Ht Hl Hp Hr h. rewrite (tk_set _ _ _ _ _ Ht), Hr. split.
  - intros [(en & H1 & H2 & H3) Hni]. exists en. split; [|now split]. apply list_elem_of_filter. split; [|exact H1].
    apply Hp. intros [H4 _]. apply Hni, Hl. eauto 6.
  - intros (en & [H0 H1]%list_elem_of_filter & H2 & H3). split; [eauto|]. intros (en' & H1' & H2' & H3' & H4')%Hl.
    apply Hp in H0. apply H0. rewrite <- (entry_inj _ _ _ Hnd H1' H1 ltac:(congruence)). now split.
Qed.

(** * Collecting *)
Lemma iter_h_empty (x : gset WaitlistHandle) : x = ∅ -> iter_h x = [].
Proof using Hwh.
  intros ->. destruct (iter_h ∅) as [|h l] eqn:Hl; [reflexivity|]. exfalso. apply (not_elem_of_empty (C := gset Z) h).
  apply Hwh. rewrite Hl. now left.
Qed.

(** The three ways out of [collect_ready_items] take the same items. *)
Lemma collect_stage w s removed : (forall h, h ∈ item_handles s -> is_Some (items s !! h)) ->
  exists out ready' s', (if decide (ready_handles w = ∅) then Ok (None, w, s)
     else '(out, ready, s2) ← Store_collect_ready_items iter_h (ready_handles w) s;
          Ok (out, with_marks ready removed w, s2)) = Ok (out, with_marks ready' (if decide (ready_handles w = ∅) then removed_handles w else removed) w, s') /\
    taken (iter_h (item_handles s ∩ ready_handles w)) (ready_handles w) ready' s s' /\
    default [] out = omap (fun h => items s !! h) (iter_h (item_handles s ∩ ready_handles w)).
Proof using Hwh.
  intros Hs. destruct (decide (ready_handles w = ∅)) as [Hn|Hn].
  - exists None, (ready_handles w), s. rewrite iter_h_empty by (rewrite Hn; apply (intersection_empty_r_L (C := gset Z))).
    split; [destruct w; reflexivity|]. split; [apply taken_nil|reflexivity].
  - unfold Store_collect_ready_items. destruct (decide (item_handles s ∩ ready_handles w = ∅)) as [Hi|Hi].
    + exists None, (ready_handles w), s. rewrite (iter_h_empty _ Hi). split; [reflexivity|]. split; [apply taken_nil|reflexivity].
    + destruct (take_items_taken (iter_h (item_handles s ∩ ready_handles w)) (ready_handles w) s [])
        as (r' & s' & -> & Ht); [apply Hwh|intros h Hh; apply Hwh, elem_of_intersection in Hh; now apply Hs|].
      cbn [mbind res_bind app]. eexists _, r', s'. split; [reflexivity|]. split; [exact Ht|reflexivity].
Qed.

Lemma store_ok_fmap i s spec (f : entry T -> entry T) :
  (forall en, en_handle (f en) = en_handle en /\ en_store (f en) = en_store en /\ en_item (f en) = en_item en) ->
  store_ok i s spec -> store_ok i s (f <$> spec).
Proof using Type.
  intros Hf [Hi Hh]. split; [|exact Hh]. intros h x. rewrite Hi. split.
  - intros (en & H1 & H2 & H3 & H4). exists (f en). destruct (Hf en) as (-> & -> & ->). split; [|now split_and!].
    apply list_elem_of_fmap. eauto.
  - intros (en & (en0 & -> & H1)%list_elem_of_fmap & H2 & H3 & H4). exists en0. destruct (Hf en0) as (Ha & Hb & Hc).
    split; [exact H1|]. now rewrite <- Ha, <- Hb, <- Hc.
Qed.

Definition upd (i : nat) s (stores : nat -> WaitlistStore T) : nat -> WaitlistStore T :=
  fun j => if decide (j = i) then s else stores j.

Lemma inv_core w stores spec : waitlist_inv w stores spec -> core_inv [] [] w spec.
Proof using Type. intros [H1 H2 H3 H4 H5 H6]. now split. Qed.

(** The items of the ready entries, found by their handles. *)
Lemma ready_items i s spec l : store_ok i s spec -> NoDup (en_handle <$> spec) -> NoDup l ->
  (forall h, h ∈ l <-> exists en, en ∈ spec /\ en_handle en = h /\ en_store en = i /\ is_ready (en_status en) = true) ->
  omap (fun h => items s !! h) l ≡ₚ spec_ready i spec.
Proof using Type.
  intros [Hi _] Hnd Hl Hin. set (F := filter (fun en => en_store en = i /\ is_ready (en_status en) = true) spec).
  assert (l ≡ₚ en_handle <$> F) as Hp.
  { apply NoDup_Permutation; [exact Hl|eapply sublist_NoDup; [exact Hnd|apply fmap_sublist, sublist_filter]|].
    intros h. rewrite Hin, list_elem_of_fmap. unfold F. split.
    - intros (en & H1 & <- & H2). exists en. split; [reflexivity|]. now apply list_elem_of_filter.
    - intros (en & -> & [H2 H1]%list_elem_of_filter). exists en. tauto. }
  rewrite Hp. unfold spec_ready. fold F. apply Permutation_refl'.
  assert (forall en, en ∈ F -> items s !! en_handle en = Some (en_item en)) as HF.
  { intros en [[H1 _] H2]%list_elem_of_filter. apply Hi. eauto. }
  clear -HF. induction F as [|en F IH]; [reflexivity|]. cbn. rewrite (HF en) by now left. f_equal. apply IH.
  intros. apply HF. now right.
Qed.

Definition keep (b : en_state -> bool) (i : nat) en : Prop := ~ (en_store en = i /\ b (en_status en) = true).

(** Entries of one kind leave a store, the set and the list together. *)
Lemma prune_core (b : en_state -> bool) i w w' s s' l r r' spec : b Waiting = false -> core_inv [] [] w spec -> store_ok i s spec ->
  (forall h, h ∈ l <-> exists en, en ∈ spec /\ en_handle en = h /\ en_store en = i /\ b (en_status en) = true) ->
  taken l r r' s s' ->
  w' = with_marks (ready_handles w') (removed_handles w') w ->
  marks_ok w' (filter (keep b i) spec) ->
  core_inv [] [] w' (filter (keep b i) spec) /\ store_ok i s' (filter (keep b i) spec).
Proof using Type.
  intros Hb [Hw Hm Hh Ht] Hs Hl Htk Hw' Hm'. pose proof (wr_nodup _ _ _ Hw) as Hnd. split.
  - split; auto; rewrite Hw'; cbn [handle_store handle_ttl with_marks]; auto.
    + assert (waits_rel [] w (filter (keep b i) spec)) as [H1 H2 H3 H4 H5 H6 H7]; [|now split].
      apply prune_waits; [|exact Hw]. intros en _ Hen [_ H]. rewrite Hen in H. congruence.
    + destruct Hh as (used & Hp & Hf & _). exists used. split; [exact Hp|]. split; [|now intros k Hk%elem_of_nil].
      rewrite Forall_forall in *. intros en [_ Hen]%list_elem_of_filter. auto.
  - refine (prune_store i l r r' s s' spec _ Hnd _ Hs Htk). intros en Hin Hst. rewrite Hl. unfold keep. split.
    + intros (en' & H1 & H2 & H3 & H4) Hn. apply Hn. rewrite <- (entry_inj _ _ _ Hnd H1 Hin H2). now split.
    + intros Hn. apply dec_stable in Hn as [_ Hn]. eauto 6.
Qed.

Lemma marks_other (b c : en_state -> bool) i spec (r : gset WaitlistHandle) :
  (forall st, b st = true -> c st = false) ->
  (forall h, h ∈ r <-> exists en, en ∈ spec /\ en_handle en = h /\ c (en_status en) = true) ->
  forall h, h ∈ r <-> exists en, en ∈ filter (keep b i) spec /\ en_handle en = h /\ c (en_status en) = true.
Proof using Type.
  intros Hbc Hr h. rewrite Hr. split; intros (en & H1 & H2 & H3); exists en; (split; [|now split]).
  - apply list_elem_of_filter. split; [|exact H1]. intros [_ H]. apply Hbc in H. congruence.
  - now apply list_elem_of_filter in H1.
Qed.

Lemma spec_rest_eq i spec : spec_rest i spec = filter (keep is_ready i) (filter (keep is_dropped i) spec).
Proof using Type.
  unfold spec_rest. rewrite list_filter_filter. apply list_filter_ext_in. intros en _. unfold keep.
  destruct (en_status en) eqn:Hst; cbn; (split; [intros H; split; intros [H1 H2]; specialize (H H1); congruence|]);
    intros [H1 H2] H; [reflexivity|exfalso; now apply H1|exfalso; now apply H2].
Qed.

Lemma spec_ready_drop i spec : spec_ready i (filter (keep is_dropped i) spec) = spec_ready i spec.
Proof using Type.
  unfold spec_ready. f_equal. rewrite list_filter_filter. apply list_filter_ext_in. intros en _. unfold keep.
  destruct (en_status en); cbn; (split; [tauto|]); intros [H1 H2]; (split; [now split|]); intros [_ H3]; discriminate.
Qed.

Lemma ordered_filter (P : entry T -> Prop) `{!forall x, Decision (P x)} spec : ordered_times spec -> ordered_times (filter P spec).
Proof using Type.
  unfold ordered_times. induction 1 as [|en spec Hs IH Hall]; [constructor|]. rewrite filter_cons.
  destruct (decide (P en)); [|exact IH]. constructor; [exact IH|]. rewrite Forall_forall in *.
  intros x [_ Hx]%list_elem_of_filter. auto.
Qed.

Lemma collect_ok now i w stores spec : waitlist_inv w stores spec ->
  exists out w' s', Waitlist_collect_ready_items iter_e iter_h now w (stores i) = Ok (out, w', s') /\
    waitlist_inv w' (upd i s' stores) (spec_rest i (spec_expire now spec)) /\
    default [] out ≡ₚ spec_ready i (spec_expire now spec).
Proof using Hwe Hwh.
  intros Hinv. pose proof (wi_stores _ _ _ Hinv) as Hst. pose proof (wi_times _ _ _ Hinv) as Ho.
  unfold Waitlist_collect_ready_items.
  destruct (ttls_core iter_e Hwe [] (S (length (handle_ttls w))) now w spec) as (w1 & -> & Hc1);
    [now apply inv_core in Hinv|exact Ho|lia|]. cbn [mbind res_bind].
  set (spec1 := spec_expire now spec) in *.
  assert (forall j, store_ok j (stores j) spec1) as Hst1.
  { intros j. apply store_ok_fmap; [|apply Hst]. intros en. now destruct (decide _). }
  assert (ordered_times spec1) as Ho1 by (apply ordered_fmap; [intros en; now destruct (decide _)|exact Ho]).
  pose proof (wr_nodup _ _ _ (ci_waits _ _ _ _ Hc1)) as Hnd1. destruct (ci_marks _ _ _ _ Hc1) as [Hm1 Hm2].
  unfold remove_expired_items. set (l1 := iter_h (item_handles (stores i) ∩ removed_handles w1)).
  pose proof (expire_items_taken l1 (removed_handles w1) (stores i)) as Ht1.
  destruct (fold_left expire_item l1 (removed_handles w1, stores i)) as [removed s1]. cbn [fst snd] in Ht1.
  assert (forall h, h ∈ l1 <-> exists en, en ∈ spec1 /\ en_handle en = h /\ en_store en = i /\ is_dropped (en_status en) = true) as Hl1
    by (apply in_both; auto).
  set (w2 := with_marks (ready_handles w1) removed w1).
  destruct (prune_core is_dropped i w1 w2 (stores i) s1 l1 _ _ spec1 eq_refl Hc1 (Hst1 i) Hl1 Ht1 eq_refl) as [Hc2 Hs2].
  { split; cbn [w2 ready_handles removed_handles with_marks].
    - apply marks_other; [now intros []|exact Hm1].
    - apply (marks_prune is_dropped i l1 spec1 _ _ _ _ _ Hnd1 Ht1 Hl1); [reflexivity|exact Hm2]. }
  pose proof (wr_nodup _ _ _ (ci_waits _ _ _ _ Hc2)) as Hnd2. destruct (ci_marks _ _ _ _ Hc2) as [Hm3 Hm4].
  destruct (collect_stage w2 s1 removed) as (out & ready' & s2 & -> & Ht2 & Hout); [intros h Hh; now apply (so_handles _ _ _ Hs2)|].
  set (l2 := iter_h (item_handles s1 ∩ ready_handles w2)) in *.
  assert (forall h, h ∈ l2 <-> exists en, en ∈ filter (keep is_dropped i) spec1 /\ en_handle en = h /\ en_store en = i /\
    is_ready (en_status en) = true) as Hl2 by (apply in_both; auto).
  replace (if decide (ready_handles w2 = ∅) then removed_handles w2 else removed) with (removed_handles w2) by now destruct (decide _).
  set (w3 := with_marks ready' (removed_handles w2) w2).
  destruct (prune_core is_ready i w2 w3 s1 s2 l2 _ _ _ eq_refl Hc2 Hs2 Hl2 Ht2 eq_refl) as [Hc3 Hs3].
  { split; cbn [w3 ready_handles removed_handles with_marks].
    - apply (marks_prune is_ready i l2 _ _ _ _ _ _ Hnd2 Ht2 Hl2); [reflexivity|exact Hm3].
    - apply marks_other; [now intros []|exact Hm4]. }
  exists out, w3, s2. split; [reflexivity|]. rewrite spec_rest_eq. split.
  - destruct Hc3 as [H1 H2 H3 H4]. split; auto.
    + intros j. unfold upd. destruct (decide (j = i)) as [->|Hne]; [exact Hs3|].
      apply prune_other; [|apply prune_other; [|apply Hst1]]; intros en _ Hj [Hi _]; congruence.
    + now apply ordered_filter, ordered_filter.
  - rewrite Hout. rewrite <- spec_ready_drop. apply ready_items; auto. apply Hwh.
Qed.

(** * Queueing *)

(** Entries that gave their handle back did so less than sixty seconds ago, so the
    handle is still in quarantine. *)
Definition fresh_at (now : Z) spec : Prop :=
  forall en, en ∈ spec -> en_time en <= now /\
    match en_status en with Waiting => True | Ready t | Dropped t => now - t < 60000 end.

Lemma generate_handle now g spec : handles_ok [] g spec -> fresh_at now spec -> next_new_key g < 65535 ->
  exists key g', KeyGenerator_generate now g = Ok (key, g') /\ (forall en, en ∈ spec -> en_handle en <> key) /\
    handles_ok [key] g' spec.
Proof using Type.
  intros (used & Hp & Hf & _) Hfr Hn. rewrite Forall_forall in Hf.
  destruct (HostIds.pool_generate now used g Hp Hn) as (key & g' & He & Hni & Hp' & _). exists key, g'. split; [exact He|].
  assert (forall en, en ∈ spec -> en_handle en <> key /\ handle_held (key :: used) g' en) as Hall.
  { intros en Hin. specialize (Hf en Hin). destruct (Hfr en Hin) as [_ Ht]. unfold handle_held in *.
    assert (en_handle en ∈ used -> en_handle en <> key /\ en_handle en ∈ key :: used) as Hu.
    { intros H. split; [intros Heq; rewrite Heq in H; tauto|now right]. }
    destruct (en_status en) as [|t|t]; [now apply Hu|..];
      (destruct Hf as [Hf|Hf]; [destruct (Hu Hf); split; [assumption|now left]|]);
      destruct (HostIds.pool_quarantine now used g key g' _ _ Hp He Hf Ht) as [Hne Hr]; (split; [congruence|now right]). }
  split; [intros en Hin; now apply Hall|]. exists (key :: used). split; [exact Hp'|]. split.
  - apply Forall_forall. intros en Hin. now apply Hall.
  - intros k ->%list_elem_of_singleton. split; [now left|]. intros (en & -> & Hin)%list_elem_of_fmap. now apply (Hall en).
Qed.

(** One round of the eviction loop: a full queue loses its front. *)
Lemma evict_one (m : gmap RemoteEntity (list WaitlistHandle)) ev a :
  exists m' ev', evict_front (m, ev) a = (m', ev') /\ (forall e, e <> a -> m' !! e = m !! e) /\
    default [] (m' !! a) = (if decide (PER_ENTITY_WAITLIST_CAP <= length (default [] (m !! a)))%nat
                            then tail (default [] (m !! a)) else default [] (m !! a)) /\
    (forall h, h ∈ ev' <-> h ∈ ev \/ (PER_ENTITY_WAITLIST_CAP <= length (default [] (m !! a)))%nat /\
                                     head (default [] (m !! a)) = Some h).
Proof using Type.
  unfold evict_front. cbn [fst snd]. destruct (m !! a) as [q|] eqn:Hq; cbn [default from_option id].
  - destruct (Nat.leb_spec PER_ENTITY_WAITLIST_CAP (length q)) as [Hle|Hlt].
    + destruct q as [|x q]; [cbn in Hle; unfold PER_ENTITY_WAITLIST_CAP in Hle; lia|].
      exists (<[a := q]> m), ({[x]} ∪ ev). split; [reflexivity|]. split_and!.
      * intros e He. now rewrite lookup_insert_ne by congruence.
      * rewrite lookup_insert_eq, decide_True by exact Hle. reflexivity.
      * intros h. rewrite elem_of_union, elem_of_singleton. cbn [head]. split.
        -- intros [->|H]; [right; now split|now left].
        -- intros [H|[_ [= ->]]]; [now right|now left].
    + exists m, ev. split; [reflexivity|]. split_and!; [reflexivity| |].
      * rewrite Hq, decide_False by lia. reflexivity.
      * intros h. split; [now left|]. intros [H|[H _]]; [exact H|lia].
  - exists m, ev. split; [reflexivity|]. split_and!; [reflexivity| |].
    + rewrite Hq. now destruct (decide _).
    + intros h. split; [now left|]. intros [H|[_ [=]]]. exact H.
Qed.

Lemma evict_fold l m ev : NoDup l ->
  (forall e, default [] ((fold_left evict_front l (m, ev)).1 !! e) =
     if decide (e ∈ l /\ (PER_ENTITY_WAITLIST_CAP <= length (default [] (m !! e)))%nat) then tail (default [] (m !! e))
     else default [] (m !! e)) /\
  (forall h, h ∈ (fold_left evict_front l (m, ev)).2 <-> h ∈ ev \/ exists e, e ∈ l /\
     (PER_ENTITY_WAITLIST_CAP <= length (default [] (m !! e)))%nat /\ head (default [] (m !! e)) = Some h).
Proof using Type.
  revert m ev. induction l as [|a l IH]; intros m ev Hnd; cbn [fold_left].
  - split; [intros e; rewrite decide_False; [reflexivity|intros [H _]; now apply elem_of_nil in H]|].
    intros h. split; [now left|]. intros [H|(e & H & _)]; [exact H|now apply elem_of_nil in H].
  - apply NoDup_cons in Hnd as [Hni Hnd].
    destruct (evict_one m ev a) as (m' & ev' & -> & Hm & Ha & Hev).
    destruct (IH m' ev' Hnd) as [IH1 IH2]. split.
    + intros e. rewrite IH1. destruct (decide (e = a)) as [->|Hne].
      * rewrite decide_False by tauto. rewrite Ha. destruct (decide (_ <= _)%nat) as [Hle|Hlt].
        -- rewrite decide_True; [reflexivity|]. split; [now left|exact Hle].
        -- rewrite decide_False; [reflexivity|]. tauto.
      * rewrite (Hm e Hne). destruct (decide (e ∈ l /\ _)) as [[H1 H2]|Hn].
        -- rewrite decide_True; [reflexivity|]. split; [now right|exact H2].
        -- rewrite decide_False; [reflexivity|]. intros [[H|H]%elem_of_cons H']; tauto.
    + intros h. rewrite IH2, Hev. split.
      * intros [[H|H]|(e & H1 & H2)]; [now left|right; exists a; split; [now left|exact H]|].
        right. exists e. split; [now right|]. rewrite Hm in H2; [exact H2|]. intros ->. tauto.
      * intros [H|(e & [->|H1]%elem_of_cons & H2)]; [now do 2 left|now left; right|].
        right. exists e. split; [exact H1|]. rewrite Hm; [exact H2|]. intros ->. tauto.
Qed.

Lemma push_fold k l (m : gmap RemoteEntity (list WaitlistHandle)) e : NoDup l ->
  default [] (fold_left (push_handle k) l m !! e) = default [] (m !! e) ++ (if decide (e ∈ l) then [k] else []).
Proof using Type.
  revert m. induction l as [|a l IH]; intros m Hnd; cbn [fold_left].
  - rewrite decide_False by apply not_elem_of_nil. now rewrite app_nil_r.
  - apply NoDup_cons in Hnd as [Hni Hnd]. rewrite IH by exact Hnd. unfold push_handle.
    destruct (decide (e = a)) as [->|Hne].
    + rewrite lookup_insert_eq, decide_False by exact Hni. rewrite app_nil_r. cbn [default from_option id].
      now rewrite (decide_True (P := a ∈ a :: l)) by now left.
    + rewrite lookup_insert_ne by congruence. destruct (decide (e ∈ l)) as [Hin|Hin].
      * now rewrite (decide_True (P := e ∈ a :: l)) by now right.
      * rewrite (decide_False (P := e ∈ a :: l)); [reflexivity|]. intros [|]%elem_of_cons; tauto.
Qed.

Lemma elem_of_evictions entities spec h : h ∈ evictions_of iter_e entities spec <->
  exists e, e ∈ iter_e entities /\ (PER_ENTITY_WAITLIST_CAP <= length (waiting_on e spec))%nat /\
    head (waiting_on e spec) = Some h.
Proof using Type.
  unfold evictions_of. rewrite list_elem_of_omap. split.
  - intros (e & He & H). exists e. destruct (Nat.leb_spec PER_ENTITY_WAITLIST_CAP (length (waiting_on e spec))); [|discriminate].
    now split_and!.
  - intros (e & He & Hl & H). exists e. split; [exact He|]. now rewrite (proj2 (Nat.leb_le _ _) Hl).
Qed.

(** The state after the eviction loop: the evicted handles are the exceptions. *)
Lemma evict_rel K entities w spec m ev : core_inv K [] w spec ->
  fold_left evict_front (iter_e entities) (waiting_entity_to_handles w, ∅) = (m, ev) ->
  core_inv K (iter_h ev) (with_waiting m w) spec /\
  (forall h, h ∈ iter_h ev <-> h ∈ evictions_of iter_e entities spec) /\
  (forall h, h ∈ iter_h ev -> exists en, en ∈ spec /\ en_handle en = h /\ en_status en = Waiting).
Proof using Hwe Hwh.
  intros Hc Hfold. destruct (evict_fold (iter_e entities) (waiting_entity_to_handles w) ∅ (proj1 (Hwe entities))) as [Hq Hev].
  rewrite Hfold in Hq, Hev. cbn [fst snd] in Hq, Hev.
  assert (forall e, default [] (waiting_entity_to_handles w !! e) = waiting_on e spec) as Hex by (intros; apply queue_exact, Hc).
  assert (forall h, h ∈ iter_h ev <-> h ∈ evictions_of iter_e entities spec) as Hin.
  { intros h. rewrite (proj2 (Hwh ev) h), Hev, elem_of_evictions. split.
    - intros [H|(e & H)]; [now apply not_elem_of_empty in H|]. exists e. now rewrite <- Hex.
    - intros (e & H). right. exists e. now rewrite Hex. }
  split; [|split; [exact Hin|]].
  - destruct Hc as [[H1 H2 H3 H4 H5 H6 H7] [Hm1 Hm2] Hh Ht]. split; [|now split|exact Hh|exact Ht].
    split; cbn [with_waiting handle_to_required_entities waiting_entity_to_handles handle_ttls]; auto.
    + intros e. rewrite Hq, Hex. destruct (decide _) as [[He Hl]|]; [|reflexivity].
      destruct (waiting_on e spec) as [|x q] eqn:Hwo; [reflexivity|]. cbn [tail]. rewrite filter_cons, decide_False; [reflexivity|].
      intros Hn. apply Hn, Hin, elem_of_evictions. exists e. rewrite Hwo. now split_and!.
    + intros e h. rewrite Hq, Hex. destruct (decide _); [|tauto]. destruct (waiting_on e spec); [tauto|]. cbn. now right.
    + pose proof H5 as H5'. rewrite !filter_keep in H5' by (intros; apply not_elem_of_nil). now rewrite H5'.
  - intros h Hh. apply Hin, elem_of_evictions in Hh as (e & _ & _ & Hhd). destruct (waiting_on e spec) as [|x q] eqn:Hwo; [discriminate|].
    injection Hhd as ->. assert (h ∈ waiting_on e spec) as Hw by (rewrite Hwo; now left).
    apply elem_of_waiting_on in Hw as (en & Ha & Hb & Hd & _). eauto.
Qed.

(** * A new entry at the end of the list *)
Lemma append_waits k i x entities now w spec : waits_rel [] w spec -> (forall en, en ∈ spec -> en_handle en <> k) ->
  waits_rel [] (mkWaitlist (handle_store w) (<[k := entities]> (handle_to_required_entities w))
      (fold_left (push_handle k) (iter_e entities) (waiting_entity_to_handles w)) (ready_handles w) (removed_handles w)
      (handle_ttls w ++ [(now, k)]) (handle_ttl w)) (spec ++ [Entry k i x entities now Waiting]).
Proof using Hwe.
  intros Hw Hk. set (en := Entry k i x entities now Waiting).
  assert (forall e, waiting_on e (spec ++ [en]) = waiting_on e spec ++ (if decide (e ∈ iter_e entities) then [k] else [])) as Hq.
  { intros e. unfold waiting_on. rewrite filter_app, fmap_app. f_equal. rewrite filter_cons, filter_nil. cbn [en_status en_needs en].
    pose proof (proj2 (Hwe entities) e). destruct (decide (e ∈ iter_e entities)), (decide (Waiting = Waiting /\ e ∈ entities)); (reflexivity || tauto). }
  assert (deadlines (spec ++ [en]) = deadlines spec ++ [(now, k)]) as Hd.
  { unfold deadlines. now rewrite filter_app, fmap_app. }
  assert (k ∉ en_handle <$> spec) as Hni by (intros (en0 & -> & H)%list_elem_of_fmap; now apply (Hk en0)).
  pose proof Hw as [H1 H2 H3 H4 H5 H6 H7]. split; cbn [handle_to_required_entities waiting_entity_to_handles handle_ttls].
  - rewrite fmap_app. apply NoDup_app. split_and!; [exact H1| |apply NoDup_singleton].
    intros h Hh ->%list_elem_of_singleton. now apply Hni.
  - intros h S. rewrite lookup_insert_Some. split.
    + intros [[<- <-]|[Hne (en0 & Ha & Hb)%H2]]; [exists en|exists en0]; (split; [apply elem_of_app|now split_and!]).
      * right. now left.
      * now left.
    + intros (en0 & [Ha|Ha%list_elem_of_singleton]%elem_of_app & <- & <- & Hst).
      * right. split; [intros Heq; now apply (Hk en0)|]. apply H2. eauto.
      * left. now rewrite Ha.
  - intros e. rewrite push_fold by apply Hwe. now rewrite Hq, (queue_exact _ _ _ Hw).
  - intros e h. rewrite push_fold by apply Hwe. now rewrite Hq, (queue_exact _ _ _ Hw).
  - now rewrite Hd, (ttls_exact _ _ Hw).
  - intros y. now rewrite Hd, (ttls_exact _ _ Hw).
  - rewrite fmap_app. apply NoDup_app. split_and!; [exact H7| |apply NoDup_singleton].
    intros h ([t h'] & -> & (en0 & Ha & Hb & _)%H6%elem_of_deadlines)%list_elem_of_fmap Hh%list_elem_of_singleton.
    cbn in Hh. apply (Hk en0 Ha). congruence.
Qed.

Lemma append_marks w w' spec en : marks_ok w spec ->
  (forall h, h ∈ ready_handles w' <-> h ∈ ready_handles w \/ (h = en_handle en /\ is_ready (en_status en) = true)) ->
  (forall h, h ∈ removed_handles w' <-> h ∈ removed_handles w \/ (h = en_handle en /\ is_dropped (en_status en) = true)) ->
  marks_ok w' (spec ++ [en]).
Proof using Type.
  assert (forall (b : en_state -> bool) (r r' : gset Z),
    (forall h, h ∈ r <-> exists en, en ∈ spec /\ en_handle en = h /\ b (en_status en) = true) ->
    (forall h, h ∈ r' <-> h ∈ r \/ (h = en_handle en /\ b (en_status en) = true)) ->
    forall h, h ∈ r' <-> exists en', en' ∈ spec ++ [en] /\ en_handle en' = h /\ b (en_status en') = true) as Hone.
  { intros b r r' Hr Hr' h. rewrite Hr', Hr. split.
    - intros [(en0 & H1 & H2)|[-> H]]; [exists en0|exists en]; (split; [apply elem_of_app|now try split]); [now left|right; now left].
    - intros (en0 & [H1|H1%list_elem_of_singleton]%elem_of_app & H2 & H3); [left; eauto|right]. subst en0. now split. }
  intros [H1 H2] Hr Hd. split; [now apply (Hone is_ready (ready_handles w))|now apply (Hone is_dropped (removed_handles w))].
Qed.

Lemma append_store_same i k x S now st s spec : store_ok i s spec -> (forall en, en ∈ spec -> en_handle en <> k) ->
  store_ok i (Store_queue k x s) (spec ++ [Entry k i x S now st]).
Proof using Type.
  intros [Hi Hh] Hk. split.
  - intros h y. cbn [items Store_queue]. rewrite lookup_insert_Some, Hi. split.
    + intros [[<- <-]|[Hne (en & H1 & H2)]]; [exists (Entry k i x S now st)|exists en]; (split; [apply elem_of_app|now split_and!]).
      * right. now left.
      * now left.
    + intros (en & [H1|H1%list_elem_of_singleton]%elem_of_app & H2 & H3 & H4).
      * right. split; [intros ->; now apply (Hk en)|eauto 6].
      * left. subst en. now split.
  - intros h. cbn [item_handles items Store_queue]. rewrite elem_of_union, elem_of_singleton, Hh, lookup_insert_is_Some.
    destruct (decide (k = h)); [split; [left; congruence|now left]|]. split; [intros [->|]; [tauto|right; now split]|].
    intros [|[_ ?]]; [congruence|now right].
Qed.

Lemma append_store_other j i k x S now st s spec : j <> i -> store_ok j s spec ->
  store_ok j s (spec ++ [Entry k i x S now st]).
Proof using Type.
  intros Hj [Hi Hh]. split; [|exact Hh]. intros h y. rewrite Hi. split.
  - intros (en & H1 & H2). exists en. split; [apply elem_of_app; now left|exact H2].
  - intros (en & [H1|H1%list_elem_of_singleton]%elem_of_app & H2); [eauto|]. subst en. cbn in H2. destruct H2 as [H2 _]. congruence.
Qed.

Lemma append_times spec en : ordered_times spec -> (forall en0, en0 ∈ spec -> en_time en0 <= en_time en) -> ordered_times (spec ++ [en]).
Proof using Type.
  unfold ordered_times. induction 1 as [|en0 spec Hs IH Hall]; intros Hle; cbn; [repeat constructor|].
  constructor; [apply IH; intros; apply Hle; now right|]. apply Forall_app. split; [exact Hall|]. constructor; [|constructor].
  apply Hle. now left.
Qed.

Lemma append_handles g k i x S now st spec : handles_ok [k] g spec ->
  handles_ok [] g (spec ++ [Entry k i x S now st]).
Proof using Type.
  intros (used & Hp & Hf & HK). destruct (HK k ltac:(now left)) as [Hk _]. exists used. split; [exact Hp|].
  split; [|now intros ? ?%elem_of_nil]. apply Forall_app. split; [exact Hf|]. constructor; [|constructor].
  unfold handle_held. cbn. destruct st; [exact Hk|now left|now left].
Qed.

Lemma queue_stores i k x S now st stores spec spec' (f : entry T -> entry T) : spec' = f <$> spec ->
  (forall en, en_handle (f en) = en_handle en /\ en_store (f en) = en_store en /\ en_item (f en) = en_item en) ->
  (forall j, store_ok j (stores j) spec) -> (forall en, en ∈ spec' -> en_handle en <> k) ->
  forall j, store_ok j (upd i (Store_queue k x (stores i)) stores j) (spec' ++ [Entry k i x S now st]).
Proof using Type.
  intros -> Hf Hst Hk j. unfold upd. destruct (decide (j = i)) as [->|Hne].
  - apply append_store_same; [apply store_ok_fmap; auto|exact Hk].
  - apply append_store_other; [exact Hne|apply store_ok_fmap; auto].
Qed.

Lemma append_settled w spec en : waits_rel [] w spec -> (forall en0, en0 ∈ spec -> en_handle en0 <> en_handle en) ->
  en_status en <> Waiting -> waits_rel [] w (spec ++ [en]).
Proof using Type.
  intros [H1 H2 H3 H4 H5 H6 H7] Hk Hst.
  assert (forall e, waiting_on e (spec ++ [en]) = waiting_on e spec) as Hq.
  { intros e. unfold waiting_on. rewrite filter_app, filter_cons, decide_False by tauto. now rewrite filter_nil, app_nil_r. }
  assert (deadlines (spec ++ [en]) = deadlines spec) as Hd.
  { unfold deadlines. rewrite filter_app, filter_cons, decide_False by tauto. now rewrite filter_nil, app_nil_r. }
  split; rewrite ?Hd; auto; try (intros e; rewrite Hq; auto).
  - rewrite fmap_app. apply NoDup_app. split_and!; [exact H1| |apply NoDup_singleton].
    intros h (en0 & -> & H0)%list_elem_of_fmap Heq%list_elem_of_singleton. now apply (Hk en0).
  - intros h S. rewrite H2. split; intros (en0 & Ha & Hb & Hd' & Hs); exists en0; (split; [|now split_and!]).
    + apply elem_of_app. now left.
    + apply elem_of_app in Ha as [Ha|Ha%list_elem_of_singleton]; [exact Ha|]. subst en0. tauto.
Qed.

Definition queue_post (now : Z) in_scope entities i item h w' s' stores spec : Prop :=
  (forall en, en ∈ spec -> en_handle en <> h) /\
  waitlist_inv w' (upd i s' stores) (spec_queue iter_e now in_scope entities i item h spec).

Lemma queue_ready now in_scope entities i item k g' w stores spec : waitlist_inv w stores spec -> fresh_at now spec ->
  in_scope_all in_scope entities -> (forall en, en ∈ spec -> en_handle en <> k) -> handles_ok [k] g' spec ->
  queue_post now in_scope entities i item k (mark_ready k (with_handle_store g' w)) (Store_queue k item (stores i)) stores spec.
Proof using Type.
  intros [Hw Hm Hs Hh Ht Ho] Hfr Hsc Hk HK. split; [exact Hk|]. unfold spec_queue. rewrite decide_True by exact Hsc. split.
  - apply append_settled; [destruct Hw; now split|exact Hk|discriminate].
  - apply (append_marks w); [exact Hm|..]; intros h; cbn [ready_handles removed_handles mark_ready with_handle_store en_handle en_status is_ready is_dropped].
    + rewrite elem_of_union, elem_of_singleton. tauto.
    + split; [now left|]. intros [|[_ [=]]]. assumption.
  - apply (queue_stores i k item entities now (Ready now) stores spec spec id); auto. symmetry. apply list_fmap_id.
  - now apply append_handles.
  - exact Ht.
  - apply append_times; [exact Ho|]. intros en0 H0. now apply Hfr.
Qed.

Lemma queue_waiting now in_scope entities i item k g' w stores spec : waitlist_inv w stores spec -> fresh_at now spec ->
  ~ in_scope_all in_scope entities -> (forall en, en ∈ spec -> en_handle en <> k) -> handles_ok [k] g' spec ->
  exists w1, (let '(waiting, evictions) := fold_left evict_front (iter_e entities) (waiting_entity_to_handles (with_handle_store g' w), ∅) in
      foldM (drop_handle iter_e now) (iter_h evictions) (with_waiting waiting (with_handle_store g' w))) = Ok w1 /\
    queue_post now in_scope entities i item k
      (mkWaitlist (handle_store w1) (<[k := entities]> (handle_to_required_entities w1))
        (fold_left (push_handle k) (iter_e entities) (waiting_entity_to_handles w1)) (ready_handles w1) (removed_handles w1)
        (handle_ttls w1 ++ [(now, k)]) (handle_ttl w1)) (Store_queue k item (stores i)) stores spec.
Proof using Hwe Hwh.
  intros Hinv Hfr Hsc Hk HK.
  assert (core_inv [k] [] (with_handle_store g' w) spec) as Hc.
  { destruct Hinv as [[H1 H2 H3 H4 H5 H6 H7] [Hm1 Hm2] _ _ Ht _]. now split. }
  destruct (fold_left evict_front _ _) as [m ev] eqn:Hfold. destruct (evict_rel [k] entities _ spec m ev Hc Hfold) as (Hc1 & Hev & Hall).
  destruct (settle_all iter_e Hwe [k] (iter_h ev) (Dropped now) now mark_removed (iter_h ev) _ spec ltac:(now right) Hc1 (proj1 (Hwh ev)) Hall)
    as (w1 & He & Hc2). exists w1. split; [exact He|]. split; [exact Hk|].
  rewrite (mark_ext _ (iter_h ev) (evictions_of iter_e entities spec)) in Hc2 by (intros; apply Hev).
  unfold spec_queue. rewrite decide_False by exact Hsc. set (spec1 := mark _ _ spec) in *.
  assert (waits_rel [] w1 spec1) as Hw1.
  { apply (waits_close _ _ _ (ci_waits _ _ _ _ Hc2)). intros en (en0 & H0 & ->)%elem_of_mark.
    destruct (decide (en_handle en0 ∈ evictions_of _ _ _)) as [Hd|Hd]; [discriminate|]. intros Hin. now apply Hev in Hin. }
  assert (forall en, en ∈ spec1 -> en_handle en <> k) as Hk1.
  { intros en (en0 & H0 & ->)%elem_of_mark. destruct (decide _); cbn; now apply (Hk en0). }
  split.
  - now apply append_waits.
  - apply (append_marks w1); [apply Hc2|..]; intros h; cbn; (split; [now left|]); intros [|[_ [=]]]; assumption.
  - eapply (queue_stores i k item entities now Waiting stores spec spec1 _ eq_refl); [|apply Hinv|exact Hk1].
    intros en. now destruct (decide _).
  - apply append_handles, Hc2.
  - apply Hc2.
  - apply append_times; [apply ordered_fmap; [intros; apply mark_time|apply Hinv]|].
    intros en (en0 & H0 & ->)%elem_of_mark. rewrite mark_time. now apply Hfr.
Qed.

Lemma queue_ok now in_scope entities i item w stores spec : waitlist_inv w stores spec -> fresh_at now spec ->
  next_new_key (handle_store w) < 65535 ->
  exists h w' s', Waitlist_queue iter_e iter_h now in_scope entities item w (stores i) = Ok (h, w', s') /\
    queue_post now in_scope entities i item h w' s' stores spec.
Proof using Hwe Hwh.
  intros Hinv Hfr Hn. destruct (generate_handle now _ spec (wi_handles _ _ _ Hinv) Hfr Hn) as (k & g' & He & Hk & HK).
  unfold Waitlist_queue. rewrite He. cbn [mbind res_bind]. destruct (required_entities_are_in_scope iter_e in_scope entities) eqn:Hsc.
  - do 3 eexists. split; [reflexivity|]. apply queue_ready; auto. now apply (scope_check iter_e Hwe).
  - destruct (queue_waiting now in_scope entities i item k g' w stores spec) as (w1 & He1 & Hpost); auto.
    { intros H. apply (scope_check iter_e Hwe) in H. congruence. }
    destruct (fold_left evict_front _ _) as [m ev]. rewrite He1. cbn [mbind res_bind].
    do 3 eexists. split; [reflexivity|]. exact Hpost.
Qed.

Lemma spawn_entity_ok now in_scope e w stores spec : waitlist_inv w stores spec ->
  exists w', Waitlist_spawn_entity iter_e now in_scope e w = Ok w' /\ waitlist_inv w' stores (spec_spawn now in_scope e spec).
Proof using Hwe.
  intros Hinv. destruct (spawn_core iter_e Hwe [] now in_scope e w spec (inv_core _ _ _ Hinv)) as (w' & He & [H1 H2 H3 H4]).
  exists w'. split; [exact He|]. split; auto.
  - intros j. apply store_ok_fmap; [|apply Hinv]. intros en. now destruct (decide _).
  - apply ordered_fmap; [|apply Hinv]. intros en. now destruct (decide _).
Qed.

Lemma waitlist_new_inv : waitlist_inv Waitlist_new (fun _ => Store_new) ([] : list (entry T)).
Proof using Type.
  split.
  - split.
    + constructor.
    + intros h S. cbn. rewrite lookup_empty. split; [discriminate|]. intros (en & Hen & _). now apply elem_of_nil in Hen.
    + intros e. cbn. now rewrite lookup_empty.
    + intros e h. cbn. rewrite lookup_empty. intros Hh. now apply elem_of_nil in Hh.
    + reflexivity.
    + intros x Hx. now apply elem_of_nil in Hx.
    + constructor.
  - split; intros h; cbn; (split; [intros Hh; now apply not_elem_of_empty in Hh|]); intros (en & Hen & _); now apply elem_of_nil in Hen.
  - intros i. split.
    + intros h x. cbn. rewrite lookup_empty. split; [discriminate|]. intros (en & Hen & _). now apply elem_of_nil in Hen.
    + intros h. cbn. rewrite lookup_empty. split; [intros Hh; now apply not_elem_of_empty in Hh|now intros [? [=]]].
  - exists []. split; [apply HostIds.pool_new_ok|]. split; [constructor|]. intros k Hk. now apply elem_of_nil in Hk.
  - reflexivity.
  - constructor.
Qed.

(** Histories of a connection's waitlist with its stores, and the list of entries
    they stand for. *)
Inductive waitlist_reach : RemoteEntityWaitlist -> (nat -> WaitlistStore T) -> list (entry T) -> Prop :=
| wl_new : waitlist_reach Waitlist_new (fun _ => Store_new) []
| wl_queue now in_scope entities i item w stores spec h w' s' : waitlist_reach w stores spec -> fresh_at now spec ->
    next_new_key (handle_store w) < 65535 ->
    Waitlist_queue iter_e iter_h now in_scope entities item w (stores i) = Ok (h, w', s') ->
    waitlist_reach w' (upd i s' stores) (spec_queue iter_e now in_scope entities i item h spec)
| wl_spawn now in_scope e w stores spec w' : waitlist_reach w stores spec ->
    Waitlist_spawn_entity iter_e now in_scope e w = Ok w' ->
    waitlist_reach w' stores (spec_spawn now in_scope e spec)
| wl_collect now i w stores spec out w' s' : waitlist_reach w stores spec ->
    Waitlist_collect_ready_items iter_e iter_h now w (stores i) = Ok (out, w', s') ->
    waitlist_reach w' (upd i s' stores) (spec_rest i (spec_expire now spec)).

Lemma waitlist_reach_inv w stores spec : waitlist_reach w stores spec -> waitlist_inv w stores spec.
Proof using Hwe Hwh.
  induction 1 as [|now in_scope entities i item w stores spec h w' s' _ IH Hfr Hn He
    |now in_scope e w stores spec w' _ IH He|now i w stores spec out w' s' _ IH He].
  - apply waitlist_new_inv.
  - destruct (queue_ok now in_scope entities i item w stores spec IH Hfr Hn) as (h1 & w1 & s1 & He1 & _ & Hinv).
    rewrite He in He1. injection He1 as <- <- <-. exact Hinv.
  - destruct (spawn_entity_ok now in_scope e w stores spec IH) as (w1 & He1 & Hinv). rewrite He in He1. now injection He1 as <-.
  - destruct (collect_ok now i w stores spec IH) as (out1 & w1 & s1 & He1 & Hinv & _).
    rewrite He in He1. injection He1 as <- <- <-. exact Hinv.
Qed.
End Refine.

(** C15: The waitlist refines the list of entries.  In every history of queueing,
    spawning and collecting, each further call returns (queueing while a handle is
    left and no collection is overdue by sixty seconds); a queued item gets a handle
    no entry has; and collecting a store hands out exactly the items whose entities
    were all in scope when they were queued or when one of them spawned, once each:
    they are gone from the list afterwards. *)
Theorem waitlist_refines {T} iter_e iter_h (w : RemoteEntityWaitlist) (stores : nat -> WaitlistStore T) spec :
  walks iter_e -> walks iter_h -> waitlist_reach iter_e iter_h w stores spec ->
  (forall now in_scope entities i item, fresh_at now spec -> next_new_key (handle_store w) < 65535 ->
     exists h w' s', Waitlist_queue iter_e iter_h now in_scope entities item w (stores i) = Ok (h, w', s') /\
       h ∉ en_handle <$> spec) /\
  (forall now in_scope e, is_ok (Waitlist_spawn_entity iter_e now in_scope e w) = true) /\
  (forall now i, exists out w' s',
     Waitlist_collect_ready_items iter_e iter_h now w (stores i) = Ok (out, w', s') /\
     default [] out ≡ₚ spec_ready i (spec_expire now spec) /\
     spec_ready i (spec_rest i (spec_expire now spec)) = []).
Proof.
  intros Hwe Hwh Hr. pose proof (waitlist_reach_inv iter_e iter_h Hwe Hwh w stores spec Hr) as Hinv. split_and!.
  - intros now in_scope entities i item Hfr Hn.
    destruct (queue_ok iter_e iter_h Hwe Hwh now in_scope entities i item w stores spec Hinv Hfr Hn) as (h & w' & s' & He & Hk & _).
    exists h, w', s'. split; [exact He|]. intros (en & -> & Hin)%list_elem_of_fmap. now apply (Hk en).
  - intros now in_scope e. destruct (spawn_entity_ok iter_e Hwe now in_scope e w stores spec Hinv) as (w' & -> & _). reflexivity.
  - intros now i. destruct (collect_ok iter_e iter_h Hwe Hwh now i w stores spec Hinv) as (out & w' & s' & He & _ & Hp).
    exists out, w', s'. split_and!; [exact He|exact Hp|]. unfold spec_ready, spec_rest.
    rewrite (filter_none _ (filter _ _)); [reflexivity|].
    intros en [Hk _]%list_elem_of_filter [Hi Hrd]. now rewrite Hk in Hrd.
Qed.

(** An item that waits is not forgotten: when one of the entities it waits for
    spawns while all of them are in scope, the next collection of its store returns it,
    however long that takes. *)
Theorem waiting_item_delivered {T} iter_e iter_h (w : RemoteEntityWaitlist) (stores : nat -> WaitlistStore T) spec en in_scope e now now' :
  walks iter_e -> walks iter_h -> waitlist_reach iter_e iter_h w stores spec ->
  en ∈ spec -> en_status en = Waiting -> e ∈ en_needs en -> (forall x, x ∈ en_needs en -> in_scope x = true) ->
  exists w1 out w2 s2, Waitlist_spawn_entity iter_e now in_scope e w = Ok w1 /\
    Waitlist_collect_ready_items iter_e iter_h now' w1 (stores (en_store en)) = Ok (out, w2, s2) /\
    en_item en ∈ default [] out.
Proof.
  intros Hwe Hwh Hr Hin Hst He Hsc. pose proof (waitlist_reach_inv iter_e iter_h Hwe Hwh w stores spec Hr) as Hinv.
  destruct (spawn_entity_ok iter_e Hwe now in_scope e w stores spec Hinv) as (w1 & He1 & Hinv1).
  destruct (collect_ok iter_e iter_h Hwe Hwh now' (en_store en) w1 stores _ Hinv1) as (out & w2 & s2 & He2 & _ & Hp).
  exists w1, out, w2, s2. split; [exact He1|]. split; [exact He2|]. rewrite Hp. unfold spec_ready, spec_expire, spec_spawn.
  apply list_elem_of_fmap. exists (with_status (Ready now) en). split; [reflexivity|]. apply list_elem_of_filter. split; [now split|].
  apply list_elem_of_fmap. exists (with_status (Ready now) en). split; [now rewrite decide_False by (now intros [[=] _])|].
  apply list_elem_of_fmap. exists en. split; [|exact Hin]. rewrite decide_True; [reflexivity|]. split_and!; auto.
Qed.

Module WaitlistSample.
Lemma walks_elements {A} `{Countable A} : walks (elements (C := gset A)).
Proof. intros s. split; [apply NoDup_elements|]. intros x. apply elem_of_elements. Qed.

Definition r1 : RemoteEntity := mkRemoteEntity 1 false.
Definition r2 : RemoteEntity := mkRemoteEntity 2 true.
Definition both : gset RemoteEntity := {[r1; r2]}.

Definition queued {T} (r : res (Z * RemoteEntityWaitlist * WaitlistStore T)) : RemoteEntityWaitlist * WaitlistStore T :=
  match r with Ok (_, w, s) => (w, s) | _ => (Waitlist_new, Store_new) end.

Definition after_one : RemoteEntityWaitlist * WaitlistStore Z :=
  queued (Waitlist_queue elements elements 0 (fun _ => false) both 10 Waitlist_new Store_new).
Definition after_two : RemoteEntityWaitlist * WaitlistStore Z :=
  queued (Waitlist_queue elements elements 3 (fun _ => false) {[r2]} 20 after_one.1 Store_new).

Definition sample_stores : nat -> WaitlistStore Z := upd 1 after_two.2 (upd 0 after_one.2 (fun _ => Store_new)).
Definition sample_spec : list (entry Z) :=
  spec_queue elements 3 (fun _ => false) {[r2]} 1 20 1 (spec_queue elements 0 (fun _ => false) both 0 10 0 []).

Lemma sample_spec_eq : sample_spec = [Entry 0 0 10 both 0 Waiting; Entry 1 1 20 {[r2]} 3 Waiting].
Proof. vm_compute. reflexivity. Qed.

Lemma sample_waitlist_reach : waitlist_reach elements elements after_two.1 sample_stores sample_spec.
Proof.
  apply (wl_queue _ _ 3 (fun _ => false) {[r2]} 1 20 after_one.1 (upd 0 after_one.2 (fun _ => Store_new)) _ 1 after_two.1 after_two.2).
  - apply (wl_queue _ _ 0 (fun _ => false) both 0 10 Waitlist_new (fun _ => Store_new) [] 0 after_one.1 after_one.2).
    + constructor.
    + intros en Hen. now apply elem_of_nil in Hen.
    + reflexivity.
    + vm_compute. reflexivity.
  - replace (spec_queue elements 0 (fun _ => false) both 0 10 0 []) with [Entry 0 0 10 both 0 Waiting] by (vm_compute; reflexivity).
    intros en ->%list_elem_of_singleton. cbn. split; [lia|exact I].
  - reflexivity.
  - vm_compute. reflexivity.
Qed.

Lemma waitlist_refines_witness :
  sample_spec = [Entry 0 0 10 both 0 Waiting; Entry 1 1 20 {[r2]} 3 Waiting] /\
  exists out w' s', Waitlist_collect_ready_items elements elements 60003 after_two.1 (sample_stores 1) = Ok (out, w', s') /\
    default [] out ≡ₚ [].
Proof.
  split; [exact sample_spec_eq|].
  destruct (waitlist_refines elements elements after_two.1 sample_stores sample_spec walks_elements walks_elements sample_waitlist_reach)
    as (_ & _ & Hc). destruct (Hc 60003 1%nat) as (out & w' & s' & He & Hp & _). exists out, w', s'. split; [exact He|].
  rewrite Hp, sample_spec_eq. vm_compute. reflexivity.
Defined.

Lemma waiting_item_delivered_witness :
  exists w1 out w2 s2, Waitlist_spawn_entity elements 5 (fun _ => true) r2 after_two.1 = Ok w1 /\
    Waitlist_collect_ready_items elements elements 9 w1 (sample_stores 0) = Ok (out, w2, s2) /\ 10 ∈ default [] out.
Proof.
  apply (waiting_item_delivered elements elements after_two.1 sample_stores sample_spec (Entry 0 0 10 both 0 Waiting) (fun _ => true) r2 5 9);
    [exact walks_elements|exact walks_elements|exact sample_waitlist_reach|rewrite sample_spec_eq; now left|reflexivity| |now intros].
  cbn. unfold both. apply elem_of_union. right. now apply elem_of_singleton.
Defined.
End WaitlistSample.
