(* ===== verification/RemoteWorld.v ===== *)
(** The receiving side of replication: src/shared/src/world/remote/remote_world_waitlist.rs,
    src/shared/src/world/remote/remote_world_manager.rs, src/shared/src/world/entity_event.rs
    and the conversions to events of src/shared/src/world/entity/entity_message.rs.

    [RemoteWorldManager] feeds incoming entity messages to the remote engine, applies
    the ordered messages that come out to the world and the two entity maps, and puts
    components and field updates that name unknown entities on the waitlist.

    The world and the components are the application's: the traits [WorldMutType] and
    [Replicate] are classes, and what they do is an argument of every definition here.
    [Instant::now()] is read as the [now] of the call.  The iteration orders of hash
    sets and maps are the parameters [iter_c], [iter_e], [iter_h] and [iter_f]. *)

From Stdlib Require Import ZArith Lia.
From stdpp Require Import base numbers option list gmap sets.
From S2P Require Import Prelude Wire Reliable Channels EntityTypes SyncEngine DirtyQueue EntityMaps LocalEntities Waitlist.
Import LocalEntityMap GlobalEntityMap.

Abbreviation Tick := Z.

Inductive EntityEvent (C : Type) :=
| EvSpawn (g : GlobalEntity)
| EvDespawn (g : GlobalEntity)
| EvInsertComponent (g : GlobalEntity) (kind : ComponentKind)
| EvRemoveComponent (g : GlobalEntity) (component : C)
| EvUpdateComponent (tick : Tick) (g : GlobalEntity) (kind : ComponentKind)
| EvPublish (g : GlobalEntity)
| EvUnpublish (g : GlobalEntity)
| EvEnableDelegation (g : GlobalEntity)
| EvDisableDelegation (g : GlobalEntity)
| EvSetAuthority (g : GlobalEntity) (status : EntityAuthStatus)
| EvRequestAuthority (g : GlobalEntity)
| EvReleaseAuthority (g : GlobalEntity)
| EvEnableDelegationResponse (g : GlobalEntity)
| EvMigrateResponse (g : GlobalEntity) (r : RemoteEntity).
Arguments EvSpawn {C} _.
Arguments EvDespawn {C} _.
Arguments EvInsertComponent {C} _ _.
Arguments EvRemoveComponent {C} _ _.
Arguments EvUpdateComponent {C} _ _ _.
Arguments EvPublish {C} _.
Arguments EvUnpublish {C} _.
Arguments EvEnableDelegation {C} _.
Arguments EvDisableDelegation {C} _.
Arguments EvSetAuthority {C} _ _.
Arguments EvRequestAuthority {C} _.
Arguments EvReleaseAuthority {C} _.
Arguments EvEnableDelegationResponse {C} _.
Arguments EvMigrateResponse {C} _ _.

(** What the managers use of a world with entities [E] and components [C]; [U] is a
    component update and [F] the update of one field.  The two [apply] methods return
    whether the update could be read. *)
Class WorldMutType (W E C U F : Type) := {
  world_spawn_entity : W -> E * W;
  world_despawn_entity : E -> W -> W;
  insert_boxed_component : E -> C -> W -> W;
  remove_component_of_kind : E -> ComponentKind -> W -> option C * W;
  component_apply_update : LocalEntityMap -> E -> ComponentKind -> U -> W -> bool * W;
  component_apply_field_update : LocalEntityMap -> E -> ComponentKind -> F -> W -> bool * W }.

(** What they use of components and updates.  [relations_complete] panics when an
    entity the component waits for cannot be converted. *)
Class Replicate (C U F : Type) := {
  component_kind : C -> ComponentKind;
  relations_waiting : C -> option (gset RemoteEntity);
  relations_complete : LocalEntityMap -> C -> res C;
  update_kind : U -> ComponentKind;
  field_id : F -> Z;
  split_into_waiting_and_ready : LocalEntityMap -> U -> option (option (list (RemoteEntity * F)) * option U) }.

(** [EntityMessage<RemoteEntity>::to_event] and [EntityMessage<HostEntity>::to_event] *)
Definition remote_to_event {C} (local_entity_map : LocalEntityMap) (msg : EntityMessage RemoteEntity) : res (EntityEvent C) :=
  remote_entity ← unwrap (EntityMessage_entity msg);
  global_entity ← unwrap (LocalMap_from_remote local_entity_map remote_entity);
  match msg with
  | Publish _ _ => Ok (EvPublish global_entity)
  | Unpublish _ _ => Ok (EvUnpublish global_entity)
  | EnableDelegation _ _ => Ok (EvEnableDelegation global_entity)
  | EnableDelegationResponse _ _ => Panic
  | DisableDelegation _ _ => Ok (EvDisableDelegation global_entity)
  | RequestAuthority _ _ => Ok (EvRequestAuthority global_entity)
  | ReleaseAuthority _ _ => Ok (EvReleaseAuthority global_entity)
  | SetAuthority _ _ status => Ok (EvSetAuthority global_entity status)
  | MigrateResponse _ _ _ => Panic
  | Spawn _ | SpawnWithComponents _ _ | Despawn _ | InsertComponent _ _ | RemoveComponent _ _ => Panic
  | Noop => Panic
  end.

Definition host_to_event {C} (local_entity_map : LocalEntityMap) (msg : EntityMessage HostEntity) : res (option (EntityEvent C)) :=
  host_entity ← unwrap (EntityMessage_entity msg);
  match LocalMap_from_host local_entity_map host_entity with
  | None => Ok None
  | Some global_entity =>
      match msg with
      | Publish _ _ => Ok (Some (EvPublish global_entity))
      | Unpublish _ _ => Ok (Some (EvUnpublish global_entity))
      | EnableDelegation _ _ => Ok (Some (EvEnableDelegation global_entity))
      | EnableDelegationResponse _ _ => Ok (Some (EvEnableDelegationResponse global_entity))
      | DisableDelegation _ _ => Ok (Some (EvDisableDelegation global_entity))
      | RequestAuthority _ _ => Ok (Some (EvRequestAuthority global_entity))
      | ReleaseAuthority _ _ => Ok (Some (EvReleaseAuthority global_entity))
      | SetAuthority _ _ status => Ok (Some (EvSetAuthority global_entity status))
      | MigrateResponse _ _ new_remote_entity => Ok (Some (EvMigrateResponse global_entity new_remote_entity))
      | Spawn _ | SpawnWithComponents _ _ | Despawn _ | InsertComponent _ _ | RemoveComponent _ _ => Panic
      | Noop => Panic
      end
  end.

Section RemoteWorld.
Context {W E C U F : Type} {eqE : EqDecision E} {cE : Countable E}.
Context {world_type : WorldMutType W E C U F} {replicate : Replicate C U F}.
Context (iter_c : gmap ComponentKind RemoteComponentChannel -> list ComponentKind).
Context (iter_e : gset RemoteEntity -> list RemoteEntity) (iter_h : gset WaitlistHandle -> list WaitlistHandle).
Context (iter_f : gmap Z WaitlistHandle -> list (Z * WaitlistHandle)).

Abbreviation engine := (RemoteEngine RemoteEntity).

(** [InScopeEntities] of the remote engine: the entity has a channel. *)
Definition engine_has_entity (g : engine) (entity : RemoteEntity) : bool :=
  bool_decide (is_Some (rg_channels g !! entity)).

(** * RemoteWorldWaitlist *)
Record RemoteWorldWaitlist := mkWorldWaitlist {
  entity_waitlist : RemoteEntityWaitlist;
  insert_waitlist_store : WaitlistStore (RemoteEntity * C);
  insert_waitlist_map : gmap (RemoteEntity * ComponentKind) WaitlistHandle;
  update_waitlist_store : WaitlistStore (Tick * RemoteEntity * ComponentKind * F);
  update_waitlist_map : gmap (RemoteEntity * ComponentKind) (gmap Z WaitlistHandle)
}.

Definition WorldWaitlist_new : RemoteWorldWaitlist := mkWorldWaitlist Waitlist_new Store_new ∅ Store_new ∅.

Definition waitlist_queue_entity (now : Z) (g : engine) (entity : RemoteEntity) (component : C) (kind : ComponentKind)
  (entity_set : gset RemoteEntity) (self : RemoteWorldWaitlist) : res RemoteWorldWaitlist :=
  '(handle, w, s) ← Waitlist_queue iter_e iter_h now (engine_has_entity g) entity_set (entity, component)
                      (entity_waitlist self) (insert_waitlist_store self);
  Ok (mkWorldWaitlist w s (<[(entity, kind) := handle]> (insert_waitlist_map self))
        (update_waitlist_store self) (update_waitlist_map self)).

Definition complete_insert (converter : LocalEntityMap) (x : RemoteEntity * C)
  (acc : gmap (RemoteEntity * ComponentKind) WaitlistHandle * list (RemoteEntity * ComponentKind * C))
  : res (gmap (RemoteEntity * ComponentKind) WaitlistHandle * list (RemoteEntity * ComponentKind * C)) :=
  let '(entity, component) := x in
  let kind := component_kind component in
  component' ← relations_complete converter component;
  Ok (delete (entity, kind) acc.1, acc.2 ++ [(entity, kind, component')]).

Definition entities_to_insert (now : Z) (converter : LocalEntityMap) (self : RemoteWorldWaitlist)
  : res (list (RemoteEntity * ComponentKind * C) * RemoteWorldWaitlist) :=
  '(list_opt, w, s) ← Waitlist_collect_ready_items iter_e iter_h now (entity_waitlist self) (insert_waitlist_store self);
  '(m, output) ← foldM (complete_insert converter) (default [] list_opt) (insert_waitlist_map self, []);
  Ok (output, mkWorldWaitlist w s m (update_waitlist_store self) (update_waitlist_map self)).

Definition WorldWaitlist_spawn_entity (now : Z) (g : engine) (entity : RemoteEntity) (self : RemoteWorldWaitlist)
  : res RemoteWorldWaitlist :=
  w ← Waitlist_spawn_entity iter_e now (engine_has_entity g) entity (entity_waitlist self);
  Ok (mkWorldWaitlist w (insert_waitlist_store self) (insert_waitlist_map self) (update_waitlist_store self)
        (update_waitlist_map self)).

Definition WorldWaitlist_process_remove (now : Z) (entity : RemoteEntity) (kind : ComponentKind) (self : RemoteWorldWaitlist)
  : res (bool * RemoteWorldWaitlist) :=
  match insert_waitlist_map self !! (entity, kind) with
  | Some handle =>
      w ← remove_waiting_handle iter_e now handle (entity_waitlist self);
      Ok (true, mkWorldWaitlist w (Store_remove handle (insert_waitlist_store self)).2
                  (delete (entity, kind) (insert_waitlist_map self)) (update_waitlist_store self) (update_waitlist_map self))
  | None =>
      match update_waitlist_map self !! (entity, kind) with
      | Some handle_map =>
          '(w, s) ← foldM (fun x acc => w' ← remove_waiting_handle iter_e now x.2 acc.1;
                                        Ok (w', (Store_remove x.2 acc.2).2))
                      (iter_f handle_map) (entity_waitlist self, update_waitlist_store self);
          Ok (true, mkWorldWaitlist w (insert_waitlist_store self) (insert_waitlist_map self) s
                      (delete (entity, kind) (update_waitlist_map self)))
      | None => Ok (false, self)
      end
  end.

(** The waiting part of an update: one handle per field, an older one gives way. *)
Definition queue_field_update (now : Z) (g : engine) (tick : Tick) (remote_entity : RemoteEntity) (kind : ComponentKind)
  (x : RemoteEntity * F) (self : RemoteWorldWaitlist) : res RemoteWorldWaitlist :=
  let '(waiting_remote_entity, waiting_field_update) := x in
  let fid := field_id waiting_field_update in
  '(handle, w, s) ← Waitlist_queue iter_e iter_h now (engine_has_entity g) {[waiting_remote_entity]}
                      (tick, remote_entity, kind, waiting_field_update) (entity_waitlist self) (update_waitlist_store self);
  let handle_map := default ∅ (update_waitlist_map self !! (remote_entity, kind)) in
  '(w', s') ← match handle_map !! fid with
              | Some old_handle => w' ← remove_waiting_handle iter_e now old_handle w; Ok (w', (Store_remove handle s).2)
              | None => Ok (w, s)
              end;
  Ok (mkWorldWaitlist w' (insert_waitlist_store self) (insert_waitlist_map self) s'
        (<[(remote_entity, kind) := <[fid := handle]> handle_map]> (update_waitlist_map self))).

Definition world_entity_of (global_map : GlobalEntityMap E) (g : option GlobalEntity) : res E :=
  global_entity ← unwrap g; unwrap (GlobalMap_to_entity global_map global_entity).

Definition ready_update (now : Z) (g : engine) (converter : LocalEntityMap) (global_map : GlobalEntityMap E)
  (x : Tick * OwnedLocalEntity * U) (acc : RemoteWorldWaitlist * W * list (Tick * OwnedLocalEntity * ComponentKind))
  : res (RemoteWorldWaitlist * W * list (Tick * OwnedLocalEntity * ComponentKind)) :=
  let '(tick, local_entity, component_update) := x in
  let '(self, world, output) := acc in
  let kind := update_kind component_update in
  match split_into_waiting_and_ready converter component_update with
  | None => Ok acc
  | Some (None, None) => Panic
  | Some (waiting_updates_opt, ready_update_opt) =>
      self' ← match waiting_updates_opt with
              | Some waiting_updates =>
                  remote_entity ← owned_take_remote local_entity;
                  foldM (queue_field_update now g tick remote_entity kind) waiting_updates self
              | None => Ok self
              end;
      match ready_update_opt with
      | None => Ok (self', world, output)
      | Some update =>
          world_entity ← world_entity_of global_map (owned_entity_to_global_entity converter local_entity);
          let '(ok, world') := component_apply_update converter world_entity kind update world in
          Ok (self', world', if (ok : bool) then output ++ [(tick, local_entity, kind)] else output)
      end
  end.

Definition WorldWaitlist_process_ready_updates (now : Z) (g : engine) (converter : LocalEntityMap)
  (global_map : GlobalEntityMap E) (incoming_updates : list (Tick * OwnedLocalEntity * U)) (self : RemoteWorldWaitlist) (world : W)
  : res (RemoteWorldWaitlist * W * list (Tick * OwnedLocalEntity * ComponentKind)) :=
  foldM (ready_update now g converter global_map) incoming_updates (self, world, []).

Definition waitlist_update (converter : LocalEntityMap) (global_map : GlobalEntityMap E)
  (x : Tick * RemoteEntity * ComponentKind * F)
  (acc : gmap (RemoteEntity * ComponentKind) (gmap Z WaitlistHandle) * W * list (Tick * RemoteEntity * ComponentKind))
  : res (gmap (RemoteEntity * ComponentKind) (gmap Z WaitlistHandle) * W * list (Tick * RemoteEntity * ComponentKind)) :=
  let '(tick, remote_entity, kind, update) := x in
  let '(m, world, output) := acc in
  let m' := match m !! (remote_entity, kind) with
            | Some component_map =>
                let component_map' := delete (field_id update) component_map in
                if decide (component_map' = ∅) then delete (remote_entity, kind) m
                else <[(remote_entity, kind) := component_map']> m
            | None => m
            end in
  world_entity ← world_entity_of global_map (LocalMap_from_remote converter remote_entity);
  let '(ok, world') := component_apply_field_update converter world_entity kind update world in
  Ok (m', world', if (ok : bool) then output ++ [(tick, remote_entity, kind)] else output).

Definition WorldWaitlist_process_waitlist_updates (now : Z) (converter : LocalEntityMap) (global_map : GlobalEntityMap E)
  (self : RemoteWorldWaitlist) (world : W)
  : res (RemoteWorldWaitlist * W * list (Tick * RemoteEntity * ComponentKind)) :=
  '(list_opt, w, s) ← Waitlist_collect_ready_items iter_e iter_h now (entity_waitlist self) (update_waitlist_store self);
  '(m, world', output) ← foldM (waitlist_update converter global_map) (default [] list_opt) (update_waitlist_map self, world, []);
  Ok (mkWorldWaitlist w (insert_waitlist_store self) (insert_waitlist_map self) s m, world', output).

(** * RemoteWorldManager *)
Record RemoteWorldManager := mkRemoteWorld {
  remote_engine : engine;
  authed_entities_opt : option (gset RemoteEntity);
  rw_incoming_events : list (EntityEvent C);
  waitlist : RemoteWorldWaitlist
}.

Definition RemoteWorld_new (host_type : HostType) : RemoteWorldManager :=
  mkRemoteWorld (RemoteEngine_new host_type) (match host_type with Client => Some ∅ | Server => None end) [] WorldWaitlist_new.

Definition rw_set_engine (g : engine) (self : RemoteWorldManager) : RemoteWorldManager :=
  mkRemoteWorld g (authed_entities_opt self) (rw_incoming_events self) (waitlist self).
Definition rw_set_waitlist (w : RemoteWorldWaitlist) (self : RemoteWorldManager) : RemoteWorldManager :=
  mkRemoteWorld (remote_engine self) (authed_entities_opt self) (rw_incoming_events self) w.
Definition rw_push (e : EntityEvent C) (self : RemoteWorldManager) : RemoteWorldManager :=
  mkRemoteWorld (remote_engine self) (authed_entities_opt self) (rw_incoming_events self ++ [e]) (waitlist self).

Definition remote_register_authed_entity (remote_entity : RemoteEntity) (self : RemoteWorldManager) : RemoteWorldManager :=
  match authed_entities_opt self with
  | None => self
  | Some s => mkRemoteWorld (remote_engine self) (Some ({[remote_entity]} ∪ s)) (rw_incoming_events self) (waitlist self)
  end.

Definition remote_deregister_authed_entity (remote_entity : RemoteEntity) (self : RemoteWorldManager) : RemoteWorldManager :=
  match authed_entities_opt self with
  | None => self
  | Some s => mkRemoteWorld (remote_engine self) (Some (s ∖ {[remote_entity]})) (rw_incoming_events self) (waitlist self)
  end.

Definition remote_is_component_updatable (converter : LocalEntityMap) (global_entity : GlobalEntity) (kind : ComponentKind)
  (self : RemoteWorldManager) : res bool :=
  match authed_entities_opt self with
  | None => Ok false
  | Some authed =>
      remote_opt ← LocalMap_to_remote converter global_entity;
      match remote_opt with
      | None => Ok false
      | Some remote_entity =>
          if decide (remote_entity ∈ authed) then
            match rg_channels (remote_engine self) !! remote_entity with
            | None => Ok false
            | Some channel => Ok (bool_decide (is_Some (re_components channel !! kind)))
            end
          else Ok false
      end
  end.

Definition remote_take_outgoing_commands (self : RemoteWorldManager) : list EntityCommand * RemoteWorldManager :=
  let '(commands, g) := RemoteEngine_take_outgoing_commands (remote_engine self) in (commands, rw_set_engine g self).

Definition remote_send_entity_command (converter : LocalEntityMap) (command : EntityCommand) (self : RemoteWorldManager)
  : res RemoteWorldManager :=
  remote_opt ← LocalMap_to_remote converter (EntityCommand_entity command);
  match remote_opt with
  | None => Ok self
  | Some remote_entity =>
      g ← RemoteEngine_send_entity_command remote_entity command (remote_engine self); Ok (rw_set_engine g self)
  end.

Definition remote_send_auth_command (converter : LocalEntityMap) (command : EntityCommand) (self : RemoteWorldManager)
  : res RemoteWorldManager :=
  remote_opt ← LocalMap_to_remote converter (EntityCommand_entity command);
  match remote_opt with
  | None => Ok self
  | Some remote_entity =>
      g ← RemoteEngine_send_auth_command remote_entity command (remote_engine self); Ok (rw_set_engine g self)
  end.

Definition remote_receive_set_auth_status (remote_entity : RemoteEntity) (status : EntityAuthStatus) (self : RemoteWorldManager)
  : RemoteWorldManager := rw_set_engine (receive_set_auth_status remote_entity status (remote_engine self)) self.

Definition remote_spawn_entity (now : Z) (entity : RemoteEntity) (self : RemoteWorldManager) : res RemoteWorldManager :=
  w ← WorldWaitlist_spawn_entity now (remote_engine self) entity (waitlist self); Ok (rw_set_waitlist w self).

(** The waitlist keeps nothing per despawned entity. *)
Definition remote_despawn_entity (entity : RemoteEntity) (self : RemoteWorldManager) : RemoteWorldManager := self.

(** The state a batch of messages works on: the manager, the two maps, the world and
    the components that were read with their insert messages. *)
Record batch := mkBatch {
  b_self : RemoteWorldManager;
  b_spawner : GlobalEntityMap E;
  b_map : LocalEntityMap;
  b_world : W;
  b_components : gmap (OwnedLocalEntity * ComponentKind) C
}.

Definition with_self (f : RemoteWorldManager -> RemoteWorldManager) (b : batch) : batch :=
  mkBatch (f (b_self b)) (b_spawner b) (b_map b) (b_world b) (b_components b).

Definition finish_insert (entity : RemoteEntity) (world_entity : E) (component : C) (kind : ComponentKind) (b : batch) : res batch :=
  let world := insert_boxed_component world_entity component (b_world b) in
  global_entity ← unwrap (LocalMap_from_remote (b_map b) entity);
  Ok (mkBatch (rw_push (EvInsertComponent global_entity kind) (b_self b)) (b_spawner b) (b_map b) world (b_components b)).

Definition process_insert (now : Z) (entity : RemoteEntity) (world_entity : E) (component : C) (kind : ComponentKind) (b : batch)
  : res batch :=
  match relations_waiting component with
  | Some remote_entity_set =>
      w ← waitlist_queue_entity now (remote_engine (b_self b)) entity component kind remote_entity_set (waitlist (b_self b));
      Ok (with_self (rw_set_waitlist w) b)
  | None => finish_insert entity world_entity component kind b
  end.

Definition process_remove (now : Z) (entity : RemoteEntity) (world_entity : E) (kind : ComponentKind) (b : batch) : res batch :=
  '(removed, w) ← WorldWaitlist_process_remove now entity kind (waitlist (b_self b));
  let b := with_self (rw_set_waitlist w) b in
  if (removed : bool) then Ok b
  else
    let '(component_opt, world) := remove_component_of_kind world_entity kind (b_world b) in
    let b := mkBatch (b_self b) (b_spawner b) (b_map b) world (b_components b) in
    match component_opt with
    | None => Ok b
    | Some component =>
        match LocalMap_from_remote (b_map b) entity with
        | Some global_entity => Ok (with_self (rw_push (EvRemoveComponent global_entity component)) b)
        | None => Ok b
        end
    end.

(** One message of [process_ready_messages]; [gkinds] is
    [GlobalWorldManagerType::component_kinds]. *)
Definition ready_message (gkinds : GlobalEntity -> option (list ComponentKind)) (now : Z) (msg : EntityMessage RemoteEntity)
  (b : batch) : res batch :=
  match msg with
  | Spawn remote_entity =>
      let '(world_entity, world) := world_spawn_entity (b_world b) in
      '(global_entity, spawner) ← GlobalMap_spawn world_entity (Some remote_entity) (b_spawner b);
      local_map ← match LocalMap_from_remote (b_map b) remote_entity with
                  | Some _ => Ok (b_map b)
                  | None => insert_with_remote_entity global_entity remote_entity (b_map b)
                  end;
      Ok (mkBatch (rw_push (EvSpawn global_entity) (b_self b)) spawner local_map world (b_components b))
  | Despawn remote_entity =>
      '(global_entity, local_map) ← LocalMap_remove_by_remote_entity remote_entity (b_map b);
      world_entity ← unwrap (GlobalMap_to_entity (b_spawner b) global_entity);
      let b := mkBatch (b_self b) (b_spawner b) local_map (b_world b) (b_components b) in
      b ← foldM (process_remove now remote_entity world_entity) (default [] (gkinds global_entity)) b;
      Ok (mkBatch (rw_push (EvDespawn global_entity) (b_self b)) (b_spawner b) (b_map b)
            (world_despawn_entity world_entity (b_world b)) (b_components b))
  | InsertComponent remote_entity kind =>
      let key := (remote_copy_to_owned remote_entity, kind) in
      component ← unwrap (b_components b !! key);
      let b := mkBatch (b_self b) (b_spawner b) (b_map b) (b_world b) (delete key (b_components b)) in
      match LocalMap_from_remote (b_map b) remote_entity with
      | Some global_entity =>
          world_entity ← unwrap (GlobalMap_to_entity (b_spawner b) global_entity);
          process_insert now remote_entity world_entity component kind b
      | None => Ok b
      end
  | RemoveComponent remote_entity kind =>
      world_entity ← world_entity_of (b_spawner b) (LocalMap_from_remote (b_map b) remote_entity);
      process_remove now remote_entity world_entity kind b
  | Noop => Ok b
  | SetAuthority _ remote_entity status =>
      let b := with_self (remote_receive_set_auth_status remote_entity status) b in
      match LocalMap_from_remote (b_map b) remote_entity with
      | None => Ok b
      | Some global_entity => Ok (with_self (rw_push (EvSetAuthority global_entity status)) b)
      end
  | msg => event ← remote_to_event (b_map b) msg; Ok (with_self (rw_push event) b)
  end.

Definition process_ready_messages (gkinds : GlobalEntity -> option (list ComponentKind)) (now : Z)
  (messages : list (EntityMessage RemoteEntity)) (b : batch) : res batch :=
  foldM (ready_message gkinds now) messages b.

Definition process_waitlist_messages (now : Z) (b : batch) : res batch :=
  '(inserts, w) ← entities_to_insert now (b_map b) (waitlist (b_self b));
  foldM (fun x b => let '(entity, kind, component) := x in
                    world_entity ← world_entity_of (b_spawner b) (LocalMap_from_remote (b_map b) entity);
                    finish_insert entity world_entity component kind b)
    inserts (with_self (rw_set_waitlist w) b).

Definition push_update {X} (to_global : X -> option GlobalEntity) (x : Tick * X * ComponentKind) (self : RemoteWorldManager)
  : res RemoteWorldManager :=
  let '(tick, entity, kind) := x in
  global_entity ← unwrap (to_global entity);
  Ok (rw_push (EvUpdateComponent tick global_entity kind) self).

Definition process_updates (now : Z) (incoming_updates : list (Tick * OwnedLocalEntity * U)) (b : batch) : res batch :=
  '(w, world, ready) ← WorldWaitlist_process_ready_updates now (remote_engine (b_self b)) (b_map b) (b_spawner b)
                         incoming_updates (waitlist (b_self b)) (b_world b);
  self ← foldM (push_update (owned_entity_to_global_entity (b_map b))) ready (rw_set_waitlist w (b_self b));
  '(w, world, waited) ← WorldWaitlist_process_waitlist_updates now (b_map b) (b_spawner b) (waitlist self) world;
  self ← foldM (push_update (LocalMap_from_remote (b_map b))) waited (rw_set_waitlist w self);
  Ok (mkBatch self (b_spawner b) (b_map b) world (b_components b)).

(** [EntityMessageReceiver::remote_take_incoming_messages] *)
Definition remote_take_incoming_messages {X} `{Countable X} (messages : list (MessageIndex * EntityMessage X))
  (g : RemoteEngine X) : res (list (EntityMessage X) * RemoteEngine X) :=
  g' ← foldM (fun x g => RemoteEngine_receive_message iter_c x.1 x.2 g) messages g;
  Ok (RemoteEngine_take_incoming_events g').

Definition RemoteWorld_take_incoming_events (gkinds : GlobalEntity -> option (list ComponentKind)) (now : Z)
  (incoming_updates : list (Tick * OwnedLocalEntity * U)) (incoming_messages : list (MessageIndex * EntityMessage RemoteEntity))
  (b : batch) : res (list (EntityEvent C) * batch) :=
  '(messages, g) ← remote_take_incoming_messages incoming_messages (remote_engine (b_self b));
  b ← process_updates now incoming_updates (with_self (rw_set_engine g) b);
  b ← process_ready_messages gkinds now messages b;
  b ← process_waitlist_messages now b;
  Ok (rw_incoming_events (b_self b),
      with_self (fun self => mkRemoteWorld (remote_engine self) (authed_entities_opt self) [] (waitlist self)) b).

(** Channel access for migrations. *)
Definition force_drain_entity_buffers (remote_entity : RemoteEntity) (self : RemoteWorldManager) : res RemoteWorldManager :=
  channel ← unwrap (rg_channels (remote_engine self) !! remote_entity);
  Ok (rw_set_engine (rg_set_channels (<[remote_entity := force_drain_all_buffers channel]> (rg_channels (remote_engine self)))
        (remote_engine self)) self).

Definition extract_component_kinds (remote_entity : RemoteEntity) (self : RemoteWorldManager) : res (gset ComponentKind) :=
  channel ← unwrap (rg_channels (remote_engine self) !! remote_entity); Ok (extract_inserted_component_kinds channel).

Definition remote_remove_entity_channel (remote_entity : RemoteEntity) (self : RemoteWorldManager)
  : res (RemoteEntityChannel * RemoteWorldManager) :=
  '(channel, g) ← RemoteEngine_remove_entity_channel remote_entity (remote_engine self); Ok (channel, rw_set_engine g self).

Definition remote_insert_entity_channel (remote_entity : RemoteEntity) (channel : RemoteEntityChannel) (self : RemoteWorldManager)
  : res RemoteWorldManager :=
  g ← RemoteEngine_insert_entity_channel remote_entity channel (remote_engine self); Ok (rw_set_engine g self).
End RemoteWorld.
