(* ===== verification/RemoteWorldSpec.v ===== *)
(** The application's world follows the ordered entity messages: a refinement of
    [process_ready_messages] by the replay of the messages on a map from remote
    entities to their components. *)

From Stdlib Require Import ZArith Lia.
From stdpp Require Import base numbers option list gmap sets.
From S2P Require Import Prelude Wire Reliable Channels EntityTypes SyncEngine DirtyQueue EntityMaps LocalEntities Waitlist RemoteWorld.
Import LocalEntityMap GlobalEntityMap LocalMapFacts.

(** What the program relies on of a world: spawning gives an entity that was never
    used before and is there until it is despawned, and each operation changes the
    components of its entity only. *)
Class WorldLaws (W E C U F : Type) `{WorldMutType W E C U F} `{Replicate C U F} := {
  components_of : W -> E -> gmap ComponentKind C;
  alive : W -> E -> Prop;
  ever_used : W -> E -> Prop;
  alive_used w e : alive w e -> ever_used w e;
  spawn_law w e w' : world_spawn_entity w = (e, w') ->
    ~ ever_used w e /\ (forall x, ever_used w' x <-> x = e \/ ever_used w x) /\ components_of w' e = ∅ /\
    (forall x, x <> e -> components_of w' x = components_of w x) /\ forall x, alive w' x <-> x = e \/ alive w x;
  insert_law w e c : components_of (insert_boxed_component e c w) e = <[component_kind c := c]> (components_of w e) /\
    (forall x, x <> e -> components_of (insert_boxed_component e c w) x = components_of w x) /\
    (forall x, ever_used (insert_boxed_component e c w) x <-> ever_used w x) /\
    (alive w e -> forall x, alive (insert_boxed_component e c w) x <-> alive w x);
  remove_law w e k c w' : remove_component_of_kind e k w = (c, w') ->
    c = components_of w e !! k /\ components_of w' e = delete k (components_of w e) /\
    (forall x, x <> e -> components_of w' x = components_of w x) /\ (forall x, ever_used w' x <-> ever_used w x) /\
    (alive w e -> forall x, alive w' x <-> alive w x);
  despawn_law w e : (forall x, x <> e -> components_of (world_despawn_entity e w) x = components_of w x) /\
    (forall x, ever_used (world_despawn_entity e w) x <-> ever_used w x) /\
    forall x, alive (world_despawn_entity e w) x <-> x <> e /\ alive w x }.

Section Follow.
Context {W E C U F : Type} {eqE : EqDecision E} {cE : Countable E}.
Context {world_type : WorldMutType W E C U F} {replicate : Replicate C U F} {laws : WorldLaws W E C U F}.
Context (iter_c : gmap ComponentKind RemoteComponentChannel -> list ComponentKind).
Context (iter_e : gset RemoteEntity -> list RemoteEntity) (iter_h : gset WaitlistHandle -> list WaitlistHandle).
Context (iter_f : gmap Z WaitlistHandle -> list (Z * WaitlistHandle)).
Context (gkinds : GlobalEntity -> option (list ComponentKind)) (now : Z).

Abbreviation batch := (@batch W E C F eqE cE).
Abbreviation key := (OwnedLocalEntity * ComponentKind)%type.

(** * The specification *)
Abbreviation replica := (gmap RemoteEntity (gmap ComponentKind C)).

(** The components that were read are used up by their inserts. *)
Definition replay (msg : EntityMessage RemoteEntity) (x : replica * gmap key C) : replica * gmap key C :=
  match msg with
  | Spawn r => (<[r := ∅]> x.1, x.2)
  | Despawn r => (delete r x.1, x.2)
  | InsertComponent r k =>
      match x.2 !! (remote_copy_to_owned r, k), x.1 !! r with
      | Some c, Some cs => (<[r := <[k := c]> cs]> x.1, delete (remote_copy_to_owned r, k) x.2)
      | _, _ => x
      end
  | RemoveComponent r k => match x.1 !! r with Some cs => (<[r := delete k cs]> x.1, x.2) | None => x end
  | _ => x
  end.

(** A message fits the state it meets: entities are spawned before they are used and
    an insert has its component at hand, complete. *)
Definition fits (msg : EntityMessage RemoteEntity) (x : replica * gmap key C) : Prop :=
  match msg with
  | Spawn r => x.1 !! r = None
  | Despawn r | RemoveComponent r _ => is_Some (x.1 !! r)
  | InsertComponent r k => is_Some (x.1 !! r) /\
      exists c, x.2 !! (remote_copy_to_owned r, k) = Some c /\ component_kind c = k /\ relations_waiting c = None
  | Noop | SetAuthority _ _ _ => True
  | Publish _ r | Unpublish _ r | EnableDelegation _ r | DisableDelegation _ r | RequestAuthority _ r
  | ReleaseAuthority _ r => is_Some (x.1 !! r)
  | SpawnWithComponents _ _ | EnableDelegationResponse _ _ | MigrateResponse _ _ _ => False
  end.

Fixpoint all_fit (msgs : list (EntityMessage RemoteEntity)) (x : replica * gmap key C) : Prop :=
  match msgs with [] => True | m :: rest => fits m x /\ all_fit rest (replay m x) end.

Definition replay_all (msgs : list (EntityMessage RemoteEntity)) (x : replica * gmap key C) : replica * gmap key C :=
  fold_left (fun x m => replay m x) msgs x.

(** The events for the application: none for the components of a despawned entity. *)
Definition event_of (to_global : RemoteEntity -> option GlobalEntity) (x : replica) (msg : EntityMessage RemoteEntity)
  : list (EntityEvent C) :=
  match msg, EntityMessage_entity msg ≫= to_global with
  | Despawn _, Some g => [EvDespawn g]
  | InsertComponent _ k, Some g => [EvInsertComponent g k]
  | RemoveComponent r k, Some g =>
      match x !! r ≫= (fun cs => cs !! k) with Some c => [EvRemoveComponent g c] | None => [] end
  | SetAuthority _ _ st, Some g => [EvSetAuthority g st]
  | Publish _ _, Some g => [EvPublish g]
  | Unpublish _ _, Some g => [EvUnpublish g]
  | EnableDelegation _ _, Some g => [EvEnableDelegation g]
  | DisableDelegation _ _, Some g => [EvDisableDelegation g]
  | RequestAuthority _ _, Some g => [EvRequestAuthority g]
  | ReleaseAuthority _ _, Some g => [EvReleaseAuthority g]
  | _, _ => []
  end.

(** * The relation *)
Definition world_entity (b : batch) (r : RemoteEntity) : option E :=
  LocalMap_from_remote (b_map b) r ≫= GlobalMap_to_entity (b_spawner b).

Record follows (b : batch) (x : replica * gmap key C) : Prop := {
  fo_map : local_map_ok (b_map b);
  fo_spawner : global_map_ok (b_spawner b);
  fo_reserved : (b_spawner b).(reserved_global_entities) = ∅;
  fo_used : forall e g, (b_spawner b).(entity_to_global_map) !! e = Some g -> ever_used (b_world b) e;
  fo_issued : forall g r, (b_map b).(global_to_local) !! g = Some r -> g < current_index (b_spawner b).(global_to_entity_map);
  fo_mapped : forall r g, LocalMap_from_remote (b_map b) r = Some g -> is_Some (GlobalMap_to_entity (b_spawner b) g);
  fo_replica : forall r, x.1 !! r = components_of (b_world b) <$> world_entity b r;
  fo_alive : forall r e, world_entity b r = Some e -> alive (b_world b) e;
  fo_components : b_components b = x.2;
  fo_waiting : insert_waitlist_map (waitlist (b_self b)) = ∅ /\ update_waitlist_map (waitlist (b_self b)) = ∅
}.

Lemma follows_mapped b x r : follows b x -> is_Some (x.1 !! r) ->
  exists g e, LocalMap_from_remote (b_map b) r = Some g /\ GlobalMap_to_entity (b_spawner b) g = Some e /\
    x.1 !! r = Some (components_of (b_world b) e).
Proof using Type.
  intros Hf [cs Hcs]. pose proof (fo_replica _ _ Hf r) as Hr. rewrite Hcs in Hr. unfold world_entity in Hr.
  destruct (LocalMap_from_remote (b_map b) r) as [g|] eqn:Hg; [|discriminate]. cbn in Hr.
  destruct (GlobalMap_to_entity (b_spawner b) g) as [e|] eqn:He; [|discriminate]. injection Hr as ->. eauto.
Qed.

(** Different remote entities are different entities of the world. *)
Lemma world_entity_inj b x r1 r2 e : follows b x -> world_entity b r1 = Some e -> world_entity b r2 = Some e -> r1 = r2.
Proof using Type.
  intros Hf. unfold world_entity. destruct (LocalMap_from_remote (b_map b) r1) as [g1|] eqn:H1; [|discriminate].
  destruct (LocalMap_from_remote (b_map b) r2) as [g2|] eqn:H2; [|discriminate]. cbn. intros He1 He2.
  rewrite (mirror_inj _ _ _ _ _ (gm_mirror _ (fo_spawner _ _ Hf)) He1 He2) in H1.
  destruct (fo_map _ _ Hf) as [_ Hm]. unfold LocalMap_from_remote in H1, H2. apply Hm in H1, H2. congruence.
Qed.

(** A change of the components of one mapped entity. *)
Lemma follows_update b x b' r e cs : follows b x -> world_entity b r = Some e ->
  b_spawner b' = b_spawner b -> b_map b' = b_map b ->
  insert_waitlist_map (waitlist (b_self b')) = ∅ -> update_waitlist_map (waitlist (b_self b')) = ∅ ->
  components_of (b_world b') e = cs -> (forall y, y <> e -> components_of (b_world b') y = components_of (b_world b) y) ->
  (forall y, ever_used (b_world b') y <-> ever_used (b_world b) y) -> (forall y, alive (b_world b') y <-> alive (b_world b) y) ->
  follows b' (<[r := cs]> x.1, b_components b').
Proof using Type.
  intros Hf He Hs Hm Hw1 Hw2 Hc Ho Hu Hal. pose proof Hf as [H1 H2 H3 H4 H5 H6 H7 HA H8 H9].
  split; rewrite ?Hs, ?Hm; auto.
  - intros y g Hy. apply Hu. eauto.
  - intros r'. assert (world_entity b' r' = world_entity b r') as Hwe by (unfold world_entity; now rewrite Hs, Hm).
    rewrite Hwe. cbn [fst]. destruct (decide (r' = r)) as [->|Hne].
    + rewrite lookup_insert_eq, He. cbn. now rewrite Hc.
    + rewrite lookup_insert_ne by congruence. rewrite H7. destruct (world_entity b r') as [e'|] eqn:He'; [|reflexivity].
      cbn. rewrite Ho; [reflexivity|]. intros ->. apply Hne. exact (world_entity_inj _ _ _ _ _ Hf He' He).
  - intros r' e'. assert (world_entity b' r' = world_entity b r') as -> by (unfold world_entity; now rewrite Hs, Hm). intros H. apply Hal. now apply (HA r').
Qed.

(** The entities of the world that are not the peer's. *)
Definition own_entity (b : batch) (e : E) : Prop := alive (b_world b) e /\ forall r, world_entity b r <> Some e.
Lemma own_same b b' : b_spawner b' = b_spawner b -> b_map b' = b_map b -> (forall y, alive (b_world b') y <-> alive (b_world b) y) -> forall e, own_entity b' e <-> own_entity b e.
Proof using Type. intros Hs Hm Hal e. unfold own_entity, world_entity. now rewrite Hs, Hm, Hal. Qed.

(** * Steps *)
Abbreviation ready_message := (ready_message iter_e iter_h iter_f gkinds now).
Abbreviation process_remove := (process_remove iter_e iter_f now).

Definition no_waits (b : batch) : Prop :=
  insert_waitlist_map (waitlist (b_self b)) = ∅ /\ update_waitlist_map (waitlist (b_self b)) = ∅.

(** Removing a component that waits for nothing. *)
Lemma process_remove_eq r e k (b : batch) : no_waits b -> alive (b_world b) e ->
  exists b', process_remove r e k b = Ok b' /\ b_spawner b' = b_spawner b /\ b_map b' = b_map b /\
    b_components b' = b_components b /\ no_waits b' /\
    components_of (b_world b') e = delete k (components_of (b_world b) e) /\
    (forall y, y <> e -> components_of (b_world b') y = components_of (b_world b) y) /\
    (forall y, ever_used (b_world b') y <-> ever_used (b_world b) y) /\ (forall y, alive (b_world b') y <-> alive (b_world b) y) /\
    rw_incoming_events (b_self b') = rw_incoming_events (b_self b) ++
      match components_of (b_world b) e !! k, LocalMap_from_remote (b_map b) r with
      | Some c, Some g => [EvRemoveComponent g c] | _, _ => [] end.
Proof using Type.
  intros [Hw1 Hw2] Hae. unfold process_remove, WorldWaitlist_process_remove. rewrite Hw1, Hw2, !lookup_empty. cbn [mbind res_bind].
  destruct (remove_component_of_kind e k (b_world (with_self (rw_set_waitlist (waitlist (b_self b))) b))) as [c w'] eqn:Hrm.
  cbn [b_world with_self] in Hrm. destruct (remove_law _ _ _ _ _ Hrm) as (-> & Hd & Ho & Hu & Hal). specialize (Hal Hae).
  destruct (components_of (b_world b) e !! k) as [c|] eqn:Hk.
  - cbn [b_map with_self]. destruct (LocalMap_from_remote (b_map b) r) as [g|] eqn:Hg;
      (eexists; split; [reflexivity|]; cbn [b_spawner b_map b_components b_world b_self with_self rw_push rw_set_waitlist rw_incoming_events];
       split_and!; try assumption; try reflexivity; try (split; assumption); now rewrite app_nil_r).
  - eexists. split; [reflexivity|]. cbn [b_spawner b_map b_components b_world b_self with_self rw_push rw_set_waitlist rw_incoming_events].
    split_and!; try assumption; try reflexivity; try (split; assumption). now rewrite app_nil_r.
Qed.

(** The components of an entity that is already unmapped go without events. *)
Lemma remove_loop r e ks (b : batch) : no_waits b -> alive (b_world b) e -> LocalMap_from_remote (b_map b) r = None ->
  exists b', foldM (process_remove r e) ks b = Ok b' /\ b_spawner b' = b_spawner b /\ b_map b' = b_map b /\
    b_components b' = b_components b /\ no_waits b' /\
    (forall y, y <> e -> components_of (b_world b') y = components_of (b_world b) y) /\
    (forall y, ever_used (b_world b') y <-> ever_used (b_world b) y) /\ (forall y, alive (b_world b') y <-> alive (b_world b) y) /\
    rw_incoming_events (b_self b') = rw_incoming_events (b_self b).
Proof using Type.
  revert b. induction ks as [|k ks IH]; intros b Hw Hae Hg; cbn [foldM]; [exists b; now split_and!|].
  destruct (process_remove_eq r e k b Hw Hae) as (b1 & -> & Hs & Hm & Hc & Hw1 & _ & Ho & Hu & Hal & He). cbn [mbind res_bind].
  destruct (IH b1 Hw1) as (b2 & -> & Hs2 & Hm2 & Hc2 & Hw2 & Ho2 & Hu2 & Hal2 & He2); [now apply Hal|now rewrite Hm|].
  exists b2. split_and!; [reflexivity|congruence..|exact Hw2| | | |].
  - intros y Hy. now rewrite Ho2, Ho by exact Hy.
  - intros y. now rewrite Hu2, Hu.
  - intros y. now rewrite Hal2, Hal.
  - rewrite He2, He, Hg. destruct (components_of (b_world b) e !! k); now rewrite app_nil_r.
Qed.

Definition step_events (b : batch) (x : replica) (msg : EntityMessage RemoteEntity) : list (EntityEvent C) :=
  match msg with
  | Spawn _ => [EvSpawn (current_index (b_spawner b).(global_to_entity_map))]
  | _ => event_of (LocalMap_from_remote (b_map b)) x msg
  end.

Definition step_ok (b : batch) (x : replica * gmap key C) (msg : EntityMessage RemoteEntity) (b' : batch) : Prop :=
  follows b' (replay msg x) /\ (forall e, own_entity b' e <-> own_entity b e) /\ rw_incoming_events (b_self b') = rw_incoming_events (b_self b) ++ step_events b x.1 msg /\
  current_index (b_spawner b').(global_to_entity_map) <= current_index (b_spawner b).(global_to_entity_map) + 1.

(** Only the events and the engine of the manager moved. *)
Lemma follows_quiet b x b' : follows b x -> b_spawner b' = b_spawner b -> b_map b' = b_map b -> b_world b' = b_world b ->
  b_components b' = b_components b -> waitlist (b_self b') = waitlist (b_self b) -> follows b' x.
Proof using Type.
  intros [H1 H2 H3 H4 H5 H6 H7 HA H8 H9] Hs Hm Hw Hc Hl. split; rewrite ?Hs, ?Hm, ?Hw, ?Hc, ?Hl; auto.
  - intros r. rewrite H7. unfold world_entity. now rewrite Hs, Hm.
  - intros r e. unfold world_entity. rewrite Hs, Hm. apply HA.
Qed.

Lemma remove_step r k b x : follows b x -> is_Some (x.1 !! r) ->
  exists b', ready_message (RemoveComponent r k) b = Ok b' /\ step_ok b x (RemoveComponent r k) b'.
Proof using Type.
  intros Hf Hin. destruct (follows_mapped b x r Hf Hin) as (g & e & Hg & He & Hx).
  cbn [RemoteWorld.ready_message]. unfold world_entity_of. rewrite Hg. cbn [unwrap mbind res_bind]. rewrite He. cbn [unwrap mbind res_bind].
  assert (world_entity b r = Some e) as Hwe by (unfold world_entity; now rewrite Hg).
  destruct (process_remove_eq r e k b (fo_waiting _ _ Hf) (fo_alive _ _ Hf r e Hwe)) as (b' & -> & Hs & Hm & Hc & [Hw1 Hw2] & Hd & Ho & Hu & Hal & Hev).
  exists b'. split; [reflexivity|]. split_and!.
  - cbn [replay]. rewrite Hx. rewrite <- (fo_components _ _ Hf), <- Hc.
    apply (follows_update b x b' r e); auto.
  - now apply own_same.
  - rewrite Hev. unfold step_events, event_of. cbn. rewrite Hg, Hx. cbn. now destruct (components_of (b_world b) e !! k).
  - rewrite Hs. lia.
Qed.

Lemma insert_step r k b x : follows b x -> fits (InsertComponent r k) x ->
  exists b', ready_message (InsertComponent r k) b = Ok b' /\ step_ok b x (InsertComponent r k) b'.
Proof using Type.
  intros Hf (Hin & c & Hc & Hk & Hrel). destruct (follows_mapped b x r Hf Hin) as (g & e & Hg & He & Hx).
  cbn [RemoteWorld.ready_message]. rewrite (fo_components _ _ Hf), Hc. cbn [unwrap mbind res_bind b_map b_spawner].
  rewrite Hg, He. cbn [unwrap mbind res_bind]. unfold process_insert. rewrite Hrel. unfold finish_insert. cbn [b_map]. rewrite Hg.
  cbn [unwrap mbind res_bind]. eexists. split; [reflexivity|]. destruct (insert_law (b_world b) e c) as (Hi & Ho & Hu & Hal).
  assert (world_entity b r = Some e) as Hwe by (unfold world_entity; now rewrite Hg). specialize (Hal (fo_alive _ _ Hf r e Hwe)).
  destruct (fo_waiting _ _ Hf) as [Hw1 Hw2]. split_and!.
  - cbn [replay]. rewrite Hc, Hx. cbn [b_components b_spawner b_map b_world b_self]. rewrite Hk in Hi.
    match goal with |- follows ?b' _ => apply (follows_update b x b' r e _ Hf); try assumption; try reflexivity end.
  - now apply own_same.
  - unfold step_events, event_of. cbn. now rewrite Hg.
  - cbn. lia.
Qed.

(** A world entity that is new to the global map gets the next number. *)
Lemma spawn_unreserved e r (sp : GlobalEntityMap E) : global_map_ok sp -> sp.(reserved_global_entities) = ∅ ->
  sp.(entity_to_global_map) !! e = None -> current_index sp.(global_to_entity_map) < 2 ^ 64 - 1 ->
  exists sp', GlobalMap_spawn e (Some r) sp = Ok (current_index sp.(global_to_entity_map), sp') /\ global_map_ok sp' /\
    sp'.(reserved_global_entities) = ∅ /\
    sp'.(entity_to_global_map) = <[e := current_index sp.(global_to_entity_map)]> sp.(entity_to_global_map) /\
    current_index sp'.(global_to_entity_map) = current_index sp.(global_to_entity_map) + 1 /\
    forall g, GlobalMap_to_entity sp' g =
      if decide (g = current_index sp.(global_to_entity_map)) then Some e else GlobalMap_to_entity sp g.
Proof using Type.
  intros Hok Hr He Hc. destruct (spawn_ok e (Some r) sp [] Hok) as (g & sp' & Hsp & Hok' & _); auto.
  { split_and!; [constructor|now intros g H%elem_of_nil|]. rewrite Hr. intros r' g H. now rewrite lookup_empty in H. }
  destruct (bigmap_insert_ok (Some e) _ (gm_bigmap _ Hok) Hc) as (b1 & Hins & _ & Hn & Hci & Hinn).
  pose proof Hsp as Heq. unfold GlobalMap_spawn, take_reserved in Heq. rewrite Hr, lookup_empty in Heq. cbn [mbind res_bind] in Heq.
  rewrite Hins in Heq. cbn [mbind res_bind] in Heq. injection Heq as <- Heq.
  exists sp'. split; [exact Hsp|]. split; [exact Hok'|]. rewrite <- Heq.
  cbn [reserved_global_entities entity_to_global_map global_to_entity_map]. split_and!; [exact Hr|reflexivity|exact Hci|].
  intros g. unfold GlobalMap_to_entity, BigMap_get. cbn [global_to_entity_map]. rewrite Hinn.
  destruct (decide _) as [->|Hne]; [now rewrite lookup_insert_eq|now rewrite lookup_insert_ne by congruence].
Qed.

Lemma spawn_step r b x : follows b x -> x.1 !! r = None -> current_index (b_spawner b).(global_to_entity_map) < 2 ^ 64 - 1 ->
  exists b', ready_message (Spawn r) b = Ok b' /\ step_ok b x (Spawn r) b'.
Proof using Type.
  intros Hf Hr Hc. cbn [RemoteWorld.ready_message]. destruct (world_spawn_entity (b_world b)) as [e w'] eqn:Hsp.
  destruct (spawn_law _ _ _ Hsp) as (Hfresh & Hu & He0 & Ho & Hal).
  assert ((b_spawner b).(entity_to_global_map) !! e = None) as He.
  { destruct ((b_spawner b).(entity_to_global_map) !! e) eqn:H; [|reflexivity]. now apply (fo_used _ _ Hf) in H. }
  destruct (spawn_unreserved e r _ (fo_spawner _ _ Hf) (fo_reserved _ _ Hf) He Hc) as (sp' & -> & Hok' & Hres' & He2g & Hci & Hto).
  cbn [mbind res_bind]. set (g := current_index (b_spawner b).(global_to_entity_map)) in *.
  assert (LocalMap_from_remote (b_map b) r = None) as Hnone.
  { destruct (LocalMap_from_remote (b_map b) r) as [g0|] eqn:Hg0; [|reflexivity]. destruct (fo_mapped _ _ Hf _ _ Hg0) as [e0 H0].
    pose proof (fo_replica _ _ Hf r) as Hx. unfold world_entity in Hx. rewrite Hg0 in Hx. cbn in Hx. rewrite H0, Hr in Hx. discriminate. }
  rewrite Hnone. destruct (insert_remote_ok g r (b_map b) (fo_map _ _ Hf)) as (m' & -> & Hm' & _ & _ & Hg2l & Hr2g).
  { destruct ((b_map b).(global_to_local) !! g) eqn:H; [|reflexivity]. apply (fo_issued _ _ Hf) in H. unfold g in H. lia. }
  { exact Hnone. }
  cbn [mbind res_bind]. eexists. split; [reflexivity|].
  assert (forall r' g', LocalMap_from_remote (b_map b) r' = Some g' -> g' <> g) as Hold.
  { intros r' g' H ->. pose proof (proj2 (fo_map _ _ Hf)) as Hmir. unfold LocalMap_from_remote in H. apply Hmir in H.
    unfold remote_of in H. destruct ((b_map b).(global_to_local) !! g) as [rec|] eqn:Hl; [|discriminate].
    apply (fo_issued _ _ Hf) in Hl. unfold g in Hl. lia. }
  match goal with |- step_ok _ _ _ ?b1 => set (b' := b1) end.
  assert (forall r', world_entity b' r' = if decide (r' = r) then Some e else world_entity b r') as Hwe.
  { intros r'. unfold b', world_entity, LocalMap_from_remote. cbn [b_map b_spawner]. rewrite Hr2g. destruct (decide (r' = r)) as [->|Hne].
    - rewrite lookup_insert_eq. cbn. now rewrite Hto, decide_True.
    - rewrite lookup_insert_ne by congruence. destruct ((b_map b).(remote_to_global) !! r') as [g'|] eqn:Hg'; [|reflexivity]. cbn. rewrite Hto. now rewrite decide_False by exact (Hold _ _ Hg'). }
  split_and!; [|intros y; unfold own_entity|reflexivity|unfold b'; cbn [b_spawner]; lia].
  2: { change (b_world b') with w'. rewrite Hal. split.
    - intros [[->|Hy] Hn]; [exfalso; apply (Hn r); now rewrite Hwe, decide_True|]. split; [exact Hy|]. intros r' Hr'. apply (Hn r'). rewrite Hwe. destruct (decide (r' = r)) as [->|]; [|exact Hr'].
      pose proof (fo_replica _ _ Hf r) as Hx. rewrite Hr, Hr' in Hx. discriminate.
    - intros [Hy Hn]. split; [now right|]. intros r'. rewrite Hwe. destruct (decide _); [|apply Hn]. intros [= ->]. apply Hfresh. now apply alive_used. }
  pose proof Hf as [H1 H2 H3 H4 H5 H6 H7 HA H8 H9]. split; unfold b'; cbn [b_map b_spawner b_world b_components b_self replay fst snd]; auto.
  - intros y g0. rewrite He2g, lookup_insert_Some. intros [[<- _]|[_ H]]; apply Hu; [now left|right; eauto].
  - intros g0 rec. rewrite Hg2l, lookup_insert_Some, Hci. intros [[<- _]|[_ H]]; [unfold g; lia|]. apply H5 in H. unfold g in *. lia.
  - intros r' g'. unfold LocalMap_from_remote. rewrite Hr2g, lookup_insert_Some, Hto.
    intros [[<- <-]|[_ H]]; [now rewrite decide_True|]. destruct (decide _); [eauto|]. eapply H6, H.
  - intros r'. unfold world_entity, LocalMap_from_remote. cbn [b_map b_spawner b_world]. rewrite Hr2g.
    destruct (decide (r' = r)) as [->|Hne].
    + rewrite !lookup_insert_eq. cbn. rewrite Hto, decide_True by reflexivity. cbn. now rewrite He0.
    + rewrite !lookup_insert_ne by congruence. rewrite H7. unfold world_entity, LocalMap_from_remote.
      destruct ((b_map b).(remote_to_global) !! r') as [g'|] eqn:Hg'; [|reflexivity]. cbn. rewrite Hto.
      rewrite decide_False by exact (Hold _ _ Hg'). destruct (GlobalMap_to_entity (b_spawner b) g') as [e'|] eqn:He'; [|reflexivity].
      cbn. rewrite Ho; [reflexivity|]. intros ->. apply (gm_mirror _ H2) in He'. congruence.
  - intros r' e' H. fold b' in H. rewrite Hwe in H. apply Hal. destruct (decide _); [left; congruence|right; now apply (HA r')].
Qed.

Lemma despawn_step r b x : follows b x -> is_Some (x.1 !! r) ->
  exists b', ready_message (Despawn r) b = Ok b' /\ step_ok b x (Despawn r) b'.
Proof using Type.
  intros Hf Hin. destruct (follows_mapped b x r Hf Hin) as (g & e & Hg & He & Hx).
  cbn [RemoteWorld.ready_message]. rewrite (remove_remote_eq r g _ (fo_map _ _ Hf) Hg). cbn [mbind res_bind]. rewrite He. cbn [unwrap mbind res_bind].
  pose proof (dropped_ok g _ (fo_map _ _ Hf)) as Hdm.
  assert (remote_of (b_map b) g = Some r) as Hrof by (apply (fo_map _ _ Hf); exact Hg).
  assert (forall r', LocalMap_from_remote (dropped g (b_map b)) r' = if decide (r' = r) then None else LocalMap_from_remote (b_map b) r') as Hfr.
  { intros r'. unfold LocalMap_from_remote, dropped. cbn [remote_to_global with_locals]. rewrite Hrof.
    destruct (decide _) as [->|Hne]; [apply lookup_delete_eq|now rewrite lookup_delete_ne by congruence]. }
  destruct (remove_loop r e (default [] (gkinds g)) (mkBatch (b_self b) (b_spawner b) (dropped g (b_map b)) (b_world b) (b_components b)))
    as (b1 & -> & Hs & Hm & Hc & Hw & Ho & Hu & Hal & Hev); [exact (fo_waiting _ _ Hf)|apply (fo_alive _ _ Hf r); unfold world_entity; now rewrite Hg|cbn; rewrite Hfr; now rewrite decide_True|].
  cbn [mbind res_bind]. eexists. split; [reflexivity|]. cbn [b_spawner b_map b_components b_world] in *.
  destruct (despawn_law (b_world b1) e) as (Hdo & Hdu & Hda).
  match goal with |- step_ok _ _ _ ?b2 => set (b' := b2) end.
  assert (forall r', world_entity b' r' = if decide (r' = r) then None else world_entity b r') as Hwe.
  { intros r'. unfold b', world_entity. cbn [b_map b_spawner]. rewrite Hm, Hs, Hfr. now destruct (decide _). }
  assert (forall r', world_entity b r' = Some e -> r' = r) as Honly by (intros r' Hr'; apply (world_entity_inj b x r' r e Hf); [exact Hr'|unfold world_entity; now rewrite Hg]).
  split_and!.
  - pose proof Hf as [H1 H2 H3 H4 H5 H6 H7 HA H8 H9]. unfold b'.
    split; cbn [b_map b_spawner b_world b_components b_self replay fst snd]; rewrite ?Hs, ?Hm, ?Hc; auto.
    + intros y g0 H. apply Hdu, Hu. eauto.
    + intros g0 rec. cbn [dropped global_to_local with_locals]. intros [_ H]%lookup_delete_Some. eauto.
    + intros r' g'. rewrite Hfr. destruct (decide _); [discriminate|]. eauto.
    + intros r'. unfold world_entity. cbn [b_map b_spawner b_world]. rewrite Hfr.
      destruct (decide (r' = r)) as [->|Hne]; [now rewrite lookup_delete_eq|]. rewrite lookup_delete_ne by congruence. rewrite H7.
      unfold world_entity. destruct (LocalMap_from_remote (b_map b) r' ≫= _) as [e'|] eqn:He'; [|reflexivity].
      cbn. rewrite Hdo, Ho; [reflexivity|..]; (intros ->; apply Hne; apply (world_entity_inj b x r' r e Hf); [exact He'|unfold world_entity; now rewrite Hg]).
    + intros r' e' H. unfold world_entity in H. cbn [b_map b_spawner] in H. rewrite Hfr in H. destruct (decide _) as [|Hne]; [discriminate|]. change (world_entity b r' = Some e') in H. apply Hda. split; [intros ->; apply Hne; now apply Honly|]. apply Hal. now apply (HA r').
  - intros y. unfold own_entity. change (b_world b') with (world_despawn_entity e (b_world b1)). rewrite Hda, Hal. split.
    + intros [[Hy Ha] Hn]. split; [exact Ha|]. intros r' Hr'. apply (Hn r'). rewrite Hwe. destruct (decide _) as [->|]; [|exact Hr'].
      exfalso. apply Hy. unfold world_entity in Hr'. rewrite Hg in Hr'. cbn in Hr'. congruence.
    + intros [Ha Hn]. split; [split; [|exact Ha]|].
      * intros ->. apply (Hn r). unfold world_entity. now rewrite Hg.
      * intros r'. rewrite Hwe. destruct (decide _); [discriminate|apply Hn].
  - unfold b'. cbn [b_self rw_push rw_incoming_events]. rewrite Hev. unfold step_events, event_of. cbn. now rewrite Hg.
  - unfold b'. cbn [b_spawner]. rewrite Hs. lia.
Qed.

(** Messages that touch neither the maps nor the world. *)
Lemma quiet_step msg sub r b x : follows b x -> is_Some (x.1 !! r) ->
  msg ∈ [Publish sub r; Unpublish sub r; EnableDelegation sub r; DisableDelegation sub r; RequestAuthority sub r;
         ReleaseAuthority sub r] ->
  exists b', ready_message msg b = Ok b' /\ step_ok b x msg b'.
Proof using Type.
  intros Hf Hin Hm. destruct (follows_mapped b x r Hf Hin) as (g & e & Hg & He & Hx).
  repeat (apply elem_of_cons in Hm as [->|Hm]); [..|now apply elem_of_nil in Hm];
    cbn [RemoteWorld.ready_message]; unfold remote_to_event; cbn [EntityMessage_entity unwrap mbind res_bind];
    rewrite Hg; cbn [unwrap mbind res_bind]; eexists; (split; [reflexivity|]);
    (split_and!; [apply (follows_quiet b); auto|now apply own_same|unfold step_events, event_of; cbn; now rewrite Hg|cbn; lia]).
Qed.

Lemma set_authority_step sub r st b x : follows b x ->
  exists b', ready_message (SetAuthority sub r st) b = Ok b' /\ step_ok b x (SetAuthority sub r st) b'.
Proof using Type.
  intros Hf. cbn [RemoteWorld.ready_message b_map with_self].
  destruct (LocalMap_from_remote (b_map b) r) as [g|] eqn:Hg; eexists; (split; [reflexivity|]);
    (split_and!; [apply (follows_quiet b); auto|now apply own_same|unfold step_events, event_of; cbn; rewrite Hg; now rewrite ?app_nil_r|cbn; lia]).
Qed.

Lemma step_fits msg b x : follows b x -> fits msg x -> current_index (b_spawner b).(global_to_entity_map) < 2 ^ 64 - 1 ->
  exists b', ready_message msg b = Ok b' /\ step_ok b x msg b'.
Proof using Type.
  intros Hf Hfit Hc. destruct msg as [r|r kinds|r|r k|r k|sub r|sub r|sub r|sub r|sub r st|sub r|sub r|sub r|sub r o|];
    cbn [fits] in Hfit; try contradiction.
  - now apply spawn_step.
  - now apply despawn_step.
  - now apply insert_step.
  - now apply remove_step.
  - apply (quiet_step _ sub r); auto. now left.
  - apply (quiet_step _ sub r); auto. right. now left.
  - apply (quiet_step _ sub r); auto. do 2 right. now left.
  - apply (quiet_step _ sub r); auto. do 3 right. now left.
  - now apply set_authority_step.
  - apply (quiet_step _ sub r); auto. do 4 right. now left.
  - apply (quiet_step _ sub r); auto. do 5 right. now left.
  - exists b. split; [reflexivity|]. split_and!; [exact Hf|reflexivity|now rewrite app_nil_r|lia].
Qed.

(** The events of a run, message by message. *)
Inductive emits : batch -> replica * gmap key C -> list (EntityMessage RemoteEntity) -> list (EntityEvent C) -> batch -> Prop :=
| emits_nil b x : emits b x [] [] b
| emits_cons b x m b1 ms evs b' : ready_message m b = Ok b1 -> emits b1 (replay m x) ms evs b' ->
    emits b x (m :: ms) (step_events b x.1 m ++ evs) b'.

Lemma follow_run msgs b x : follows b x -> all_fit msgs x ->
  current_index (b_spawner b).(global_to_entity_map) + Z.of_nat (length msgs) < 2 ^ 64 ->
  exists b' evs, process_ready_messages iter_e iter_h iter_f gkinds now msgs b = Ok b' /\ follows b' (replay_all msgs x) /\ (forall e, own_entity b' e <-> own_entity b e) /\
    emits b x msgs evs b' /\ rw_incoming_events (b_self b') = rw_incoming_events (b_self b) ++ evs.
Proof using Type.
  unfold process_ready_messages, replay_all. revert b x. induction msgs as [|m msgs IH]; intros b x Hf Hall Hc; cbn [foldM fold_left].
  - exists b, []. split_and!; [reflexivity|exact Hf|reflexivity|constructor|now rewrite app_nil_r].
  - destruct Hall as [Hm Hall]. cbn [length] in Hc.
    destruct (step_fits m b x Hf Hm ltac:(lia)) as (b1 & He & Hf1 & Hown & Hev & Hi). rewrite He. cbn [mbind res_bind].
    destruct (IH b1 (replay m x) Hf1 Hall ltac:(lia)) as (b2 & evs & He2 & Hf2 & Hown2 & Hem & Hev2).
    exists b2, (step_events b x.1 m ++ evs). split_and!; [exact He2|exact Hf2|intros y; now rewrite Hown2, Hown|now apply emits_cons with b1|].
    now rewrite Hev2, Hev, app_assoc.
Qed.
End Follow.

(** C10: The world follows the messages.  Let the ordered messages of a batch fit: entities are
    spawned before they are used, an insert has its component at hand and the component waits
    for no entity; and let no insert or update wait on the lists of the connection.  Then
    [process_ready_messages] does not panic; afterwards the entities of the application's world
    are exactly those that replaying the messages gives and the world's own, which are those it
    had before; the components of each replayed entity are those of the replay; the entity maps
    stay inverse to each other and the events are those of the messages, one by one, with none
    for the components of a despawned entity. *)
Theorem world_follows_messages {W E C U F} {eqE : EqDecision E} {cE : Countable E}
  {world_type : WorldMutType W E C U F} {replicate : Replicate C U F} {laws : WorldLaws W E C U F}
  iter_e iter_h iter_f gkinds now msgs (b : batch) x :
  follows b x -> all_fit msgs x ->
  current_index (b_spawner b).(global_to_entity_map) + Z.of_nat (length msgs) < 2 ^ 64 ->
  exists b' evs, process_ready_messages iter_e iter_h iter_f gkinds now msgs b = Ok b' /\
    (forall r, (replay_all msgs x).1 !! r = components_of (b_world b') <$> world_entity b' r) /\
    (forall e, alive (b_world b') e <-> (exists r, is_Some ((replay_all msgs x).1 !! r) /\ world_entity b' r = Some e) \/ own_entity b e) /\
    local_map_ok (b_map b') /\ global_map_ok (b_spawner b') /\
    emits iter_e iter_h iter_f gkinds now b x msgs evs b' /\
    rw_incoming_events (b_self b') = rw_incoming_events (b_self b) ++ evs.
Proof.
  intros Hf Hall Hc. destruct (follow_run iter_e iter_h iter_f gkinds now msgs b x Hf Hall Hc) as (b' & evs & He & Hf' & Hown & Hem & Hev).
  exists b', evs. split_and!; auto; [apply Hf'| |apply Hf'|apply Hf'].
  intros e. rewrite <- Hown. split.
  - intros He0. destruct (decide (Exists (fun p => world_entity b' p.1 = Some e) (map_to_list (replay_all msgs x).1))) as [[[r cs] [Hin Hr]]%Exists_exists|Hn].
    + left. exists r. split; [exists cs; now apply elem_of_map_to_list in Hin|exact Hr].
    + right. split; [exact He0|]. intros r Hr. apply Hn, Exists_exists. exists (r, components_of (b_world b') e). split; [|exact Hr].
      apply elem_of_map_to_list. now rewrite (fo_replica _ _ Hf' r), Hr.
  - intros [(r & _ & Hr)|[Ha _]]; [exact (fo_alive _ _ Hf' r e Hr)|exact Ha].
Qed.

(** * A world of numbered entities, for runs *)
Module SampleWorld.

(** A component with one entity property: [c_waiting] names the entity the property
    waits for, as [EntityProperty::waiting_complete] finds it. *)
Record comp := mkComp { c_kind : ComponentKind; c_value : Z; c_waiting : option RemoteEntity; c_target : option GlobalEntity }.
Record table := mkTable { t_next : Z; t_rows : gmap Z (gmap ComponentKind comp) }.
#[global] Instance comp_eq_dec : EqDecision comp.
Proof. solve_decision. Defined.

(** The update of a field carries a number; it may wait for an entity. *)
Record update := mkUpdate { u_kind : ComponentKind; u_waiting : list (RemoteEntity * (Z * Z)); u_ready : option Z }.

Definition set_value (v : Z) (c : comp) : comp := mkComp (c_kind c) v (c_waiting c) (c_target c).

Definition apply_value (e : Z) (k : ComponentKind) (v : Z) (w : table) : bool * table :=
  (true, mkTable (t_next w) (alter (alter (set_value v) k) e (t_rows w))).

Definition table_insert (e : Z) (c : comp) (w : table) : table :=
  mkTable (t_next w) (<[e := <[c_kind c := c]> (default ∅ (t_rows w !! e))]> (t_rows w)).

#[global] Instance table_world : WorldMutType table Z comp update (Z * Z) := {|
  world_spawn_entity w := (t_next w, mkTable (t_next w + 1) (<[t_next w := ∅]> (t_rows w)));
  world_despawn_entity e w := mkTable (t_next w) (delete e (t_rows w));
  insert_boxed_component := table_insert;
  remove_component_of_kind e k w :=
    (default ∅ (t_rows w !! e) !! k, mkTable (t_next w) (<[e := delete k (default ∅ (t_rows w !! e))]> (t_rows w)));
  component_apply_update _ e k u w := apply_value e k (default 0 (u_ready u)) w;
  component_apply_field_update _ e k f w := apply_value e k f.2 w |}.

(** The branch of [EntityProperty::waiting_complete] for a waiting property. *)
Definition waiting_complete (converter : LocalEntityMap) (c : comp) : res comp :=
  match c_waiting c with
  | None => Ok c
  | Some r =>
      g ← unwrap (convert_to_global (LocalMap_redirect converter (remote_copy_to_owned r)) converter);
      Ok (mkComp (c_kind c) (c_value c) None (Some g))
  end.

#[global] Instance comp_replicate : Replicate comp update (Z * Z) := {|
  component_kind := c_kind;
  relations_waiting c := match c_waiting c with Some r => Some {[r]} | None => None end;
  relations_complete := waiting_complete;
  update_kind := u_kind;
  field_id := fst;
  split_into_waiting_and_ready _ u := Some (match u_waiting u with [] => None | l => Some l end,
    match u_ready u with Some v => Some (mkUpdate (u_kind u) [] (Some v)) | None => None end) |}.

#[global] Program Instance table_laws : WorldLaws table Z comp update (Z * Z) := {|
  components_of w e := default ∅ (t_rows w !! e);
  alive w e := is_Some (t_rows w !! e) /\ e < t_next w;
  ever_used w e := e < t_next w |}.
Next Obligation. now intros w e [_ H]. Qed.
Next Obligation.
  cbn. intros w e w' [= <- <-]. cbn. split_and!; [lia|intros x; lia|now rewrite lookup_insert_eq|..].
  - intros x Hx. now rewrite lookup_insert_ne by congruence.
  - intros x. rewrite lookup_insert_is_Some. split; [intros [[->|[_ H]] Hl]; [now left|]|intros [->|[H Hl]]; (split; [|lia])].
    + destruct (decide (x = t_next w)); [now left|right]. split; [exact H|lia].
    + now left.
    + destruct (decide (t_next w = x)); [now left|now right].
Qed.
Next Obligation.
  cbn. intros w e c. split_and!; [now rewrite lookup_insert_eq| |tauto|].
  - intros x Hx. now rewrite lookup_insert_ne by congruence.
  - intros [He Hl] x. rewrite lookup_insert_is_Some. destruct (decide (e = x)) as [<-|]; tauto.
Qed.
Next Obligation.
  cbn. intros w e k c w' [= <- <-]. cbn. split_and!; [reflexivity|now rewrite lookup_insert_eq| |tauto|].
  - intros x Hx. now rewrite lookup_insert_ne by congruence.
  - intros [He Hl] x. rewrite lookup_insert_is_Some. destruct (decide (e = x)) as [<-|]; tauto.
Qed.
Next Obligation.
  cbn. intros w e. split_and!; [|tauto|].
  - intros x Hx. now rewrite lookup_delete_ne by congruence.
  - intros x. rewrite lookup_delete_is_Some. split; [intros [[Hn H] Hl]; split; [congruence|now split]|intros [Hn [H Hl]]; split; [split; [congruence|exact H]|exact Hl]].
Qed.

Abbreviation sample_batch := (@batch table Z comp (Z * Z) _ _).

Definition start (t : HostType) (components : gmap (OwnedLocalEntity * ComponentKind) comp) : sample_batch :=
  mkBatch (RemoteWorld_new t) GlobalMap_new (LocalMap_new t) (mkTable 0 ∅) components.

Lemma start_follows t components : follows (start t components) (∅, components).
Proof.
  split; cbn [b_map b_spawner b_world b_components b_self start fst snd].
  - apply local_new_ok.
  - apply global_new_ok.
  - reflexivity.
  - cbn. intros e g H. now rewrite lookup_empty in H.
  - cbn. intros g r H. now rewrite lookup_empty in H.
  - cbn. intros r g. unfold LocalMap_from_remote. cbn. rewrite lookup_empty. discriminate.
  - intros r. unfold world_entity, LocalMap_from_remote. cbn. now rewrite !lookup_empty.
  - intros r e. unfold world_entity, LocalMap_from_remote. cbn. now rewrite lookup_empty.
  - reflexivity.
  - now split.
Qed.

Definition r5 : RemoteEntity := mkRemoteEntity 5 false.
Definition r6 : RemoteEntity := mkRemoteEntity 6 true.
Definition health (v : Z) : comp := mkComp 1 v None None.

Definition sample_msgs : list (EntityMessage RemoteEntity) :=
  [Spawn r5; Spawn r6; InsertComponent r5 1; Publish 0 r5; InsertComponent r6 1; RemoveComponent r5 1; Despawn r6].
Definition sample_components : gmap (OwnedLocalEntity * ComponentKind) comp :=
  {[ (Remote 5 false, 1) := health 100; (Remote 6 true, 1) := health 50 ]}.

Lemma world_follows_messages_witness :
  (replay_all sample_msgs (∅ : gmap RemoteEntity (gmap ComponentKind comp), sample_components)).1 = {[ r5 := ∅ ]} /\
  exists b' evs, process_ready_messages elements elements map_to_list (fun _ => None) 0 sample_msgs
      (start Client sample_components) = Ok b' /\ rw_incoming_events (b_self b') = evs.
Proof.
  split; [vm_compute; reflexivity|].
  destruct (world_follows_messages elements elements map_to_list (fun _ => None) 0 sample_msgs (start Client sample_components)
    (∅, sample_components) (start_follows _ _)) as (b' & evs & He & _ & _ & _ & _ & _ & Hev).
  - cbn [all_fit sample_msgs]. split_and!; try exact I; try (vm_compute; (reflexivity || (eexists; reflexivity))).
    + split; [vm_compute; eexists; reflexivity|]. exists (health 100). vm_compute. auto.
    + split; [vm_compute; eexists; reflexivity|]. exists (health 50). vm_compute. auto.
  - vm_compute. reflexivity.
  - exists b', evs. split; [exact He|]. exact Hev.
Defined.
End SampleWorld.
