(* ===== verification/RemoteHazards.v ===== *)
(** Runs of the receiving side that end in a panic or lose data, although every
    message is one that the sending side produces. *)

From Stdlib Require Import ZArith Lia.
From stdpp Require Import base numbers option list gmap sets.
From S2P Require Import Prelude Wire Reliable Channels EntityTypes SyncEngine DirtyQueue EntityMaps LocalEntities Waitlist RemoteWorld RemoteWorldSpec.
Import LocalEntityMap GlobalEntityMap SampleWorld.

Definition map_keys_c (m : gmap ComponentKind RemoteComponentChannel) : list ComponentKind := (map_to_list m).*1.

(** A batch with the hash iteration orders fixed. *)
Definition take_events (updates : list (Tick * OwnedLocalEntity * update)) (now : Z)
  (msgs : list (MessageIndex * EntityMessage RemoteEntity)) (b : sample_batch) : res (list (EntityEvent comp) * sample_batch) :=
  RemoteWorld_take_incoming_events map_keys_c elements elements map_to_list (fun _ => None) now updates msgs b.

Definition with_component (key : OwnedLocalEntity * ComponentKind) (c : comp) (b : sample_batch) : sample_batch :=
  mkBatch (b_self b) (b_spawner b) (b_map b) (b_world b) (<[key := c]> (b_components b)).

Section Components.
Context {W E C U F : Type} {eqE : EqDecision E} {cE : Countable E}.
Context {world_type : WorldMutType W E C U F} {replicate : Replicate C U F}.
Context (iter_e : gset RemoteEntity -> list RemoteEntity) (iter_h : gset WaitlistHandle -> list WaitlistHandle).
Context (iter_f : gmap Z WaitlistHandle -> list (Z * WaitlistHandle)).

(** Inserting and removing leaves the components that were read alone. *)
Lemma process_insert_keeps now r e c k (b b' : @batch W E C F eqE cE) :
  process_insert iter_e iter_h now r e c k b = Ok b' -> b_components b' = b_components b.
Proof using Type.
  unfold process_insert, finish_insert. destruct (relations_waiting c); intros H; res_inv; now subst b'.
Qed.

Lemma process_remove_keeps now r e k (b b' : @batch W E C F eqE cE) :
  process_remove iter_e iter_f now r e k b = Ok b' -> b_components b' = b_components b.
Proof using Type.
  unfold process_remove. intros H. apply bind_ok_inv in H as ([removed w] & _ & H). destruct removed; [now injection H as <-|].
  destruct (remove_component_of_kind _ _ _) as [[c|] w']; [|now injection H as <-].
  destruct (LocalMap_from_remote _ _); now injection H as <-.
Qed.

Lemma insert_uses_component gkinds now r k (b b' : @batch W E C F eqE cE) :
  ready_message iter_e iter_h iter_f gkinds now (InsertComponent r k) b = Ok b' ->
  b_components b' !! (remote_copy_to_owned r, k) = None.
Proof using Type.
  cbn [ready_message]. intros H. apply bind_ok_inv in H as (c & _ & H). cbn [b_map b_spawner] in H.
  destruct (LocalMap_from_remote (b_map b) r) as [g|]; [|injection H as <-; cbn; apply lookup_delete_eq].
  apply bind_ok_inv in H as (e & _ & H). apply process_insert_keeps in H. rewrite H. cbn. apply lookup_delete_eq.
Qed.
End Components.

(** The components of insert messages wait in one slot per entity and kind, so
    an insert, a remove and a second insert of one kind that are handled in one batch
    always panic: the first insert takes the slot's component and the second finds
    none.  A spawn followed by insert, remove and insert in one packet is such a batch. *)
Theorem reinsert_in_one_batch_panics :
  (forall {W E C U F} {eqE : EqDecision E} {cE : Countable E} {world_type : WorldMutType W E C U F} {replicate : Replicate C U F}
     iter_e iter_h iter_f gkinds now r k (b : @batch W E C F eqE cE),
     is_ok (process_ready_messages iter_e iter_h iter_f gkinds now
              [InsertComponent r k; RemoveComponent r k; InsertComponent r k] b) = false) /\
  take_events [] 0 [(0, Spawn r5); (1, InsertComponent r5 1); (2, RemoveComponent r5 1); (3, InsertComponent r5 1)]
    (start Client {[ (Remote 5 false, 1) := health 7 ]}) = Panic.
Proof.
  split; [|vm_compute; reflexivity]. intros. unfold process_ready_messages. cbn [foldM].
  destruct (ready_message _ _ _ _ _ (InsertComponent r k) b) as [b1| | |] eqn:H1; [|reflexivity..]. cbn [mbind res_bind].
  apply insert_uses_component in H1.
  destruct (ready_message _ _ _ _ _ (RemoveComponent r k) b1) as [b2| | |] eqn:H2; [|reflexivity..]. cbn [mbind res_bind].
  cbn [ready_message] in H2. apply bind_ok_inv in H2 as (e & _ & H2). apply process_remove_keeps in H2.
  cbn [ready_message]. rewrite H2, H1. reflexivity.
Qed.

(** The states before the panics. *)
Definition after (r : res (list (EntityEvent comp) * sample_batch)) : sample_batch :=
  match r with Ok (_, b) => b | _ => start Client ∅ end.

Definition lived : sample_batch := after (take_events [] 0 [(0, Spawn r5); (1, InsertComponent r5 1)]
  (start Client {[ (Remote 5 false, 1) := health 7 ]})).
Definition despawned : sample_batch := after (take_events [] 10 [(2, Despawn r5)] lived).
Definition move_to (v : Z) : Tick * OwnedLocalEntity * update := (3, Remote 5 false, mkUpdate 1 [] (Some v)).

(** An update that arrives after the despawn of its entity panics: the engine
    keeps a channel for the despawned entity, which is what the reader takes for "in
    scope", and applying the update unwraps the missing mapping.  While the entity
    lives the same update is applied. *)
Theorem late_update_panics :
  (exists b, take_events [move_to 9] 5 [] lived = Ok ([EvUpdateComponent 3 0 1], b) /\
     t_rows (b_world b) !! 0 = Some {[ 1 := health 9 ]}) /\
  engine_has_entity (remote_engine (b_self despawned)) r5 = true /\
  LocalMap_from_remote (b_map despawned) r5 = None /\
  take_events [move_to 9] 20 [] despawned = Panic.
Proof.
  split; [eexists; split; vm_compute; reflexivity|]. split_and!; vm_compute; reflexivity.
Qed.

(** A component that points at [r5]. *)
Definition pointer (r : RemoteEntity) : comp := mkComp 2 0 (Some r) None.

(** A component that names an entity which the receiver has despawned, or of
    which only a later message than its spawn has arrived, panics when it is inserted: the
    waitlist asks whether the entity has a channel, finds one, and completes the
    component at once although the entity has no mapping.  If no message of the
    entity has arrived the component waits, as it should. *)
Theorem relation_to_unmapped_entity_panics :
  take_events [] 30 [(3, Spawn r6); (4, InsertComponent r6 2)]
    (with_component (Remote 6 true, 2) (pointer r5) despawned) = Panic /\
  take_events [] 0 [(1, InsertComponent r5 1); (2, Spawn r6); (3, InsertComponent r6 2)]
    (start Client {[ (Remote 5 false, 1) := health 7; (Remote 6 true, 2) := pointer r5 ]}) = Panic /\
  exists b, take_events [] 0 [(2, Spawn r6); (3, InsertComponent r6 2)]
    (start Client {[ (Remote 6 true, 2) := pointer r5 ]}) = Ok ([EvSpawn 0], b) /\
    size (handle_to_required_entities (entity_waitlist (waitlist (b_self b)))) = 1%nat.
Proof.
  split_and!; [vm_compute; reflexivity..|]. eexists. split; [vm_compute; reflexivity|vm_compute; reflexivity].
Qed.

(** An entity [r6] with a component that waits for [r5], then the spawn of [r5]. *)
Definition waiting_insert : sample_batch := after (take_events [] 0 [(2, Spawn r6); (3, InsertComponent r6 2)]
  (start Client {[ (Remote 6 true, 2) := pointer r5 ]})).
Definition target_spawned : sample_batch := after (take_events [] 10 [(4, Spawn r5)] waiting_insert).
Definition target_ready : sample_batch :=
  match remote_spawn_entity elements 11 r5 (b_self target_spawned) with
  | Ok self => mkBatch self (b_spawner target_spawned) (b_map target_spawned) (b_world target_spawned) (b_components target_spawned)
  | _ => target_spawned
  end.

(** A remove that meets a waiting insert panics unless it comes while the insert
    waits: once the awaited entity has spawned, or the sixty seconds are over, the handle
    is no longer waiting but the insert is still listed, and dropping the handle unwraps
    nothing.  While it waits the remove cancels the insert, and without the remove the
    insert goes through. *)
Theorem remove_of_settled_insert_panics :
  take_events [] 20 [(5, RemoveComponent r6 2)] target_ready = Panic /\
  take_events [] 70000 [(5, RemoveComponent r6 2)] (after (take_events [] 60000 [] waiting_insert)) = Panic /\
  (exists b, take_events [] 20 [(5, RemoveComponent r6 2)] waiting_insert = Ok ([], b)) /\
  (exists b, take_events [] 20 [] target_ready = Ok ([EvInsertComponent 0 2], b)).
Proof. split_and!; [vm_compute; reflexivity..|eexists; vm_compute; reflexivity|eexists; vm_compute; reflexivity]. Qed.

(** Two updates of one field that wait for [r6], then the spawn of [r6]. *)
Definition field_update (v : Z) : Tick * OwnedLocalEntity * update := (3, Remote 5 false, mkUpdate 1 [(r6, (0, v))] None).
Definition spawn_waited (b : sample_batch) : res (list (EntityEvent comp) * sample_batch) :=
  let b := after (take_events [] 20 [(9, Spawn r6)] b) in
  self ← remote_spawn_entity elements 21 r6 (b_self b);
  take_events [] 22 [] (mkBatch self (b_spawner b) (b_map b) (b_world b) (b_components b)).

(** A second update of a field that still waits for an entity loses both
    updates: the code takes the new update out of the store instead of the old one and
    drops the handle of the old one, so when the entity arrives nothing is applied.  A
    single waiting update is applied. *)
Theorem superseding_update_lost :
  (exists b, spawn_waited (after (take_events [field_update 11] 5 [] lived)) = Ok ([EvUpdateComponent 3 0 1], b) /\
     t_rows (b_world b) !! 0 = Some {[ 1 := health 11 ]}) /\
  (exists b, spawn_waited (after (take_events [field_update 11; field_update 12] 5 [] lived)) = Ok ([], b) /\
     t_rows (b_world b) !! 0 = Some {[ 1 := health 7 ]}).
Proof. split; eexists; (split; vm_compute; reflexivity). Qed.
