(* ===== verification/HostWorld.v ===== *)
(** The sending side of replication for one connection:
    src/shared/src/world/host/host_world_manager.rs.

    [HostWorldManager] owns the host ids, sends entity commands through the host
    engine, and replays the commands the peer has acknowledged in a second engine, so
    that it knows which entities and components the peer has.  Acknowledged despawns
    give the host id back and acknowledged removals stop the tracking of changes.

    The diff handler of the server or client ([g]) and the heap of receivers and dirty
    queues ([Store]) are shared with the update manager; [Instant::now()] is [now]. *)

From Stdlib Require Import ZArith Lia.
From stdpp Require Import base numbers option list gmap sets.
From S2P Require Import Prelude Wrapping Wire Reliable Channels EntityTypes SyncEngine SyncOrder SyncEntity SyncWorld HostSync DirtyQueue DiffHandlers UpdateManager EntityMaps LocalEntities Waitlist RemoteWorld.
Import LocalEntityMap HostEntityGenerator LocalMapFacts.

Section HostWorld.
Context {A C : Type} {eqA : EqDecision A} {cA : Countable A}.
Context (iter_c : gmap ComponentKind RemoteComponentChannel -> list ComponentKind).

Abbreviation Updates := (@EntityUpdateManager GlobalEntity ComponentKind A _ _ _ _).
Abbreviation Heap := (@Store A eqA cA).
Abbreviation Diffs := (@GlobalDiffHandler GlobalEntity ComponentKind _ _ _ _).

Record HostWorldManager := mkHostWorld {
  entity_generator : HostEntityGenerator;
  host_engine : HostEngine;
  delivered_receiver : ReliableReceiver (EntityMessage HostEntity);
  delivered_engine : RemoteEngine HostEntity;
  hw_incoming_events : list (EntityEvent C)
}.

Definition HostWorld_new (host_type : HostType) (user_key : Z) : HostWorldManager :=
  mkHostWorld (HostGen_new user_key) (HostEngine_new host_type) ReliableReceiver_new
    (RemoteEngine_new (HostType_invert host_type)) [].

Definition hw_set_generator (g : HostEntityGenerator) (self : HostWorldManager) : HostWorldManager :=
  mkHostWorld g (host_engine self) (delivered_receiver self) (delivered_engine self) (hw_incoming_events self).
Definition hw_set_engine (g : HostEngine) (self : HostWorldManager) : HostWorldManager :=
  mkHostWorld (entity_generator self) g (delivered_receiver self) (delivered_engine self) (hw_incoming_events self).
Definition hw_set_delivered (r : ReliableReceiver (EntityMessage HostEntity)) (g : RemoteEngine HostEntity)
  (self : HostWorldManager) : HostWorldManager :=
  mkHostWorld (entity_generator self) (host_engine self) r g (hw_incoming_events self).
Definition hw_push (e : EntityEvent C) (self : HostWorldManager) : HostWorldManager :=
  mkHostWorld (entity_generator self) (host_engine self) (delivered_receiver self) (delivered_engine self)
    (hw_incoming_events self ++ [e]).

(** * Receiving *)
(** One message of [process_incoming_messages]. *)
Definition host_message (local_entity_map : LocalEntityMap) (msg : EntityMessage HostEntity) (self : HostWorldManager)
  : res HostWorldManager :=
  match msg with
  | Spawn _ | Despawn _ | InsertComponent _ _ | RemoveComponent _ _ | Publish _ _ | Unpublish _ _
  | EnableDelegation _ _ | DisableDelegation _ _ | SetAuthority _ _ _ => Panic
  | MigrateResponse _ client_host_entity new_remote_entity =>
      global_entity ← unwrap (LocalMap_from_host local_entity_map client_host_entity);
      Ok (hw_push (EvMigrateResponse global_entity new_remote_entity) self)
  | Noop => Ok self
  | _ =>
      event ← host_to_event local_entity_map msg;
      Ok (match event with Some event => hw_push event self | None => self end)
  end.

Definition host_process_incoming_messages (local_entity_map : LocalEntityMap) (messages : list (EntityMessage HostEntity))
  (self : HostWorldManager) : res HostWorldManager := foldM (host_message local_entity_map) messages self.

(** [EntityMessageReceiver::host_take_incoming_events] *)
Definition host_take_incoming_events (messages : list (MessageIndex * EntityMessage HostEntity)) (g : HostEngine)
  : res (list (EntityMessage HostEntity) * HostEngine) :=
  g' ← foldM (fun x g => HostEngine_receive_message x.1 x.2 g) messages g;
  Ok (HostEngine_take_incoming_events g').

Definition HostWorld_take_incoming_events (local_entity_map : LocalEntityMap)
  (incoming_messages : list (MessageIndex * EntityMessage HostEntity)) (self : HostWorldManager)
  : res (list (EntityEvent C) * HostWorldManager) :=
  '(messages, g) ← host_take_incoming_events incoming_messages (host_engine self);
  self ← host_process_incoming_messages local_entity_map messages (hw_set_engine g self);
  Ok (hw_incoming_events self,
      mkHostWorld (entity_generator self) (host_engine self) (delivered_receiver self) (delivered_engine self) []).

(** * Sending *)
Definition host_take_outgoing_commands (self : HostWorldManager) : list EntityCommand * HostWorldManager :=
  let '(commands, g) := HostEngine_take_outgoing_commands (host_engine self) in (commands, hw_set_engine g self).

Definition host_generate_entity (now : Z) (self : HostWorldManager) : res (HostEntity * HostWorldManager) :=
  '(h, g) ← generate_host_entity now (entity_generator self); Ok (h, hw_set_generator g self).

Definition host_generate_static_entity (now : Z) (self : HostWorldManager) : res (HostEntity * HostWorldManager) :=
  '(h, g) ← generate_static_host_entity now (entity_generator self); Ok (h, hw_set_generator g self).

Definition HostWorld_reserve_entity (now : Z) (global_entity : GlobalEntity) (entity_map : LocalEntityMap)
  (self : HostWorldManager) : res (HostEntity * LocalEntityMap * HostWorldManager) :=
  '(h, entity_map', g) ← host_reserve_entity now global_entity entity_map (entity_generator self);
  Ok (h, entity_map', hw_set_generator g self).

Definition host_removed_reserved_entity (global_entity : GlobalEntity) (self : HostWorldManager)
  : option HostEntity * HostWorldManager :=
  let '(h, g) := host_remove_reserved_entity global_entity (entity_generator self) in (h, hw_set_generator g self).

Definition host_has_entity (host_entity : HostEntity) (self : HostWorldManager) : bool :=
  bool_decide (is_Some (hg_channels (host_engine self) !! host_entity)).

(** [send_command]: the engine unwraps the conversion. *)
Definition host_send_command (converter : LocalEntityMap) (command : EntityCommand) (self : HostWorldManager)
  : res HostWorldManager :=
  host_opt ← LocalMap_to_host converter (EntityCommand_entity command);
  g ← HostEngine_send_command (fun _ => host_opt) command (host_engine self);
  Ok (hw_set_engine g self).

Definition init_static_entity_send_host_commands (converter : LocalEntityMap) (global_entity : GlobalEntity)
  (component_kinds : list ComponentKind) (self : HostWorldManager) : res HostWorldManager :=
  host_send_command converter (spawn_command global_entity component_kinds) self.

(** [immutable] is [ComponentKinds::kind_is_immutable]. *)
Definition register_mutable (immutable : ComponentKind -> bool) (g : Diffs) (now : Z) (global_entity : GlobalEntity)
  (kind : ComponentKind) (us : Updates * Heap) : res (Updates * Heap) :=
  if immutable kind then Ok us else UpdateManager.register_component g now global_entity kind us.1 us.2.

Definition init_entity_send_host_commands (immutable : ComponentKind -> bool) (g : Diffs) (now : Z)
  (converter : LocalEntityMap) (global_entity : GlobalEntity) (component_kinds : list ComponentKind)
  (us : Updates * Heap) (self : HostWorldManager) : res (Updates * Heap * HostWorldManager) :=
  us ← foldM (register_mutable immutable g now global_entity) component_kinds us;
  self ← host_send_command converter (spawn_command global_entity component_kinds) self;
  Ok (us, self).

Definition host_is_component_updatable (converter : LocalEntityMap) (global_entity : GlobalEntity) (kind : ComponentKind)
  (self : HostWorldManager) : res bool :=
  host_opt ← LocalMap_to_host converter global_entity;
  match host_opt with
  | None => Ok false
  | Some host_entity =>
      match hg_channels (host_engine self) !! host_entity with
      | None => Ok false
      | Some host_channel =>
          if decide (kind ∉ hc_components host_channel) then Ok false
          else match rg_channels (delivered_engine self) !! host_entity with
               | None => Ok false
               | Some delivered_channel => Ok (bool_decide (is_Some (re_components delivered_channel !! kind)))
               end
      end
  end.

(** * Acknowledged commands *)
Definition host_deliver_message (command_id : MessageIndex) (message : EntityMessage HostEntity) (self : HostWorldManager)
  : res HostWorldManager :=
  r ← ReliableReceiver_buffer_message command_id message (delivered_receiver self);
  Ok (hw_set_delivered r (delivered_engine self) self).

Definition is_migrate_response (m : EntityMessage HostEntity) : bool :=
  match m with MigrateResponse _ _ _ => true | _ => false end.

Definition delivered_state : Type := HostWorldManager * LocalEntityMap * (Updates * Heap).

(** One message of the loop of [process_delivered_commands]: [None] is its [return]. *)
Definition delivered_message (g : Diffs) (now : Z) (msg : EntityMessage HostEntity) (s : delivered_state)
  : res (option delivered_state) :=
  let '(self, local_map, us) := s in
  match msg with
  | Despawn host_entity =>
      '(local_map', gen) ← HostGen_remove_by_host_entity now host_entity local_map (entity_generator self);
      Ok (Some (hw_set_generator gen self, local_map', us))
  | InsertComponent host_entity _ =>
      Ok (match LocalMap_from_host local_map host_entity with None => None | Some _ => Some s end)
  | RemoveComponent host_entity kind =>
      Ok (match LocalMap_from_host local_map host_entity with
          | None => None
          | Some global_entity =>
              Some (self, local_map, UpdateManager.deregister_component g now global_entity kind us.1 us.2)
          end)
  | _ => Ok (Some s)
  end.

Fixpoint delivered_messages (g : Diffs) (now : Z) (messages : list (EntityMessage HostEntity)) (s : delivered_state)
  : res delivered_state :=
  match messages with
  | [] => Ok s
  | msg :: rest =>
      next ← delivered_message g now msg s;
      match next with None => Ok s | Some s' => delivered_messages g now rest s' end
  end.

Definition host_process_delivered_commands (g : Diffs) (now : Z) (s : delivered_state) : res delivered_state :=
  let '(self, local_map, us) := s in
  let '(delivered, r) := ReliableReceiver_receive_messages (delivered_receiver self) in
  let filtered := filter (fun x => is_migrate_response x.2 = false) delivered in
  '(messages, engine) ← remote_take_incoming_messages iter_c filtered (delivered_engine self);
  delivered_messages g now messages (hw_set_delivered r engine self, local_map, us).

(** * Channel access for migrations *)
Definition host_extract_entity_commands (host_entity : HostEntity) (self : HostWorldManager)
  : list EntityCommand * HostWorldManager :=
  let '(commands, g) := extract_entity_commands host_entity (host_engine self) in (commands, hw_set_engine g self).

Definition host_insert_entity_channel (entity : HostEntity) (channel : HostEntityChannel) (self : HostWorldManager)
  : res HostWorldManager :=
  g ← HostEngine_insert_entity_channel entity channel (host_engine self); Ok (hw_set_engine g self).

Definition host_remove_entity_channel (entity : HostEntity) (self : HostWorldManager)
  : res (HostEntityChannel * HostWorldManager) :=
  '(channel, g) ← HostEngine_remove_entity_channel entity (host_engine self); Ok (channel, hw_set_engine g self).
End HostWorld.
