(* ===== verification/HostAcks.v ===== *)
(** What [HostWorldManager] knows about its peer: the acknowledged commands of many
    entities come back in any order and in batches of any size, and once all commands
    of an entity are acknowledged the components that may be updated are exactly those
    its host channel has. *)

From Stdlib Require Import ZArith Lia.
From stdpp Require Import base numbers option list gmap sets.
From S2P Require Import Prelude Wrapping Wire Reliable Channels EntityTypes SyncEngine SyncOrder SyncEntity SyncWorld HostSync DirtyQueue DiffHandlers UpdateManager EntityMaps LocalEntities Waitlist RemoteWorld HostWorld.
Import LocalEntityMap HostEntityGenerator LocalMapFacts HostIds.

(** * One entity: what a channel has seen

    Whether a component is known to the peer is whether the channel of the acknowledged commands
    has an entry for its kind.  That does not depend on the order of the messages, so it is followed
    here for scripts in which any message may also be a [Noop] and a spawn may bring components. *)
Section Tracks.
Context (script : list (EntityMessage unit)) (wid : nat -> Z).
Context (iter_c : gmap ComponentKind RemoteComponentChannel -> list ComponentKind).
Implicit Types (A : list nat) (c : RemoteEntityChannel).

(** A spawn first, then component and authority messages; any of them may be a [Noop]. *)
Definition host_shape (p : nat) (m : EntityMessage unit) : Prop :=
  m = Noop \/ match p with O => m = Spawn tt \/ exists kinds, m = SpawnWithComponents tt kinds | S _ => (exists kind, of_kind kind m) \/ is_authority m end.

Context (Hshape : forall p m, script !! p = Some m -> host_shape p m).
Context (Hafter : forall p, (0 < p < length script)%nat -> (wid 0%nat =? wid p) = false /\ sequence_less_than (wid p) (wid 0%nat) = false).
Context (Hiter : forall m, NoDup (iter_c m) /\ forall kind, kind ∈ iter_c m <-> is_Some (m !! kind)).

Definition drained (m : gmap ComponentKind RemoteComponentChannel) : Prop := forall kind ch, m !! kind = Some ch -> rc_incoming ch = [].
Definition auth_drained (a : AuthChannel) : Prop := Forall (fun x => is_authority x.2) (ar_buffered (ac_receiver a)) /\ ar_incoming (ac_receiver a) = [].

Record tracks A c : Prop := {
  tk_buffered : re_buffered c = [];
  tk_components : drained (re_components c);
  tk_auth : auth_drained (re_auth c);
  tk_state : (re_state c = Despawned /\ re_last_epoch_id c = None) \/ (re_state c = Spawned /\ re_last_epoch_id c = Some (wid 0%nat) /\ 0%nat ∈ A);
  tk_kinds : forall kind, is_Some (re_components c !! kind) <-> exists p, p ∈ A /\ about kind (msg_at script p)
}.

Lemma push_back_loop_total {P} i id (x : P) l : (i <= length l)%nat -> exists l', push_back_loop i id x l = Ok l' /\ l' ≡ₚ (id, x) :: l.
Proof using Type.
  induction i as [|i IH]; intros Hi; cbn; [eauto|]. destruct (lookup_lt_is_Some_2 l i ltac:(lia)) as [[old y] Hl]. rewrite Hl. cbn.
  destruct (sequence_less_than old id); [|apply IH; lia]. eexists. split; [reflexivity|]. change (take (S i) l ++ ?y :: drop (S i) l ≡ₚ ?z) with (take (S i) l ++ y :: drop (S i) l ≡ₚ z).
  rewrite <- Permutation_middle. now rewrite take_drop.
Qed.

(** The channel of a component, whatever is in its buffer. *)
Lemma process_loop_types buffered ch : exists l, rc_incoming (component_process_loop buffered ch) = rc_incoming ch ++ l /\ Forall (fun t => t = TInsertComponent \/ t = TRemoveComponent) l.
Proof using Type.
  revert ch. induction buffered as [|[id []] buffered IH]; intros ch; cbn.
  - exists []. now rewrite app_nil_r.
  - destruct (rc_inserted ch); [exists []; now rewrite app_nil_r|]. edestruct IH as (l & -> & Hl). cbn. exists (TInsertComponent :: l). rewrite <- app_assoc. auto.
  - destruct (rc_inserted ch); cbn; [|exists []; now rewrite app_nil_r]. edestruct IH as (l & -> & Hl). cbn. exists (TRemoveComponent :: l). rewrite <- app_assoc. auto.
Qed.

Lemma drain_total kind st ch : rc_incoming ch = [] -> exists msgs ch', component_drain_messages kind (component_process_messages st ch) = Ok (msgs, ch') /\
  rc_incoming ch' = [] /\ Forall (fun m => m <> Noop) msgs.
Proof using Type.
  intros Hi. assert (exists l, rc_incoming (component_process_messages st ch) = l /\ Forall (fun t => t = TInsertComponent \/ t = TRemoveComponent) l) as (l & Hl & Ht).
  { unfold component_process_messages. case_decide; [exists []; now rewrite Hi|]. destruct (process_loop_types (rc_buffered ch) ch) as (l & -> & Hl). rewrite Hi. eauto. }
  unfold component_drain_messages. rewrite Hl.
  assert (forall acc : list (EntityMessage unit), Forall (fun m => m <> Noop) acc ->
    exists msgs, foldM (fun t acc => m ← with_component_kind t kind; Ok (acc ++ [m])) l acc = Ok msgs /\ Forall (fun m => m <> Noop) msgs) as Hfold.
  { clear Hl. induction Ht as [|t l [->| ->] _ IH]; intros acc Hacc; cbn; [eauto|..];
      (apply IH, Forall_app; split; [exact Hacc|]; repeat constructor; discriminate). }
  destruct (Hfold []) as (msgs & -> & Hm); [constructor|]. cbn. eauto 6.
Qed.

Lemma accept_total kind st id m ch : of_kind kind m -> rc_incoming ch = [] -> exists ch1 msgs ch', component_accept_message st id m ch = Ok ch1 /\
  component_drain_messages kind ch1 = Ok (msgs, ch') /\ rc_incoming ch' = [] /\ Forall (fun m => m <> Noop) msgs.
Proof using Type.
  intros Hk Hi. unfold component_accept_message.
  destruct (match rc_last_epoch_id ch with Some last => _ | None => false end).
  - exists ch. unfold component_drain_messages. rewrite Hi. cbn. eauto 8.
  - assert (exists b : bool, match m with InsertComponent _ _ => Ok true | RemoveComponent _ _ => Ok false | _ => Panic end = Ok b) as [b ->] by (unfold of_kind in Hk; destruct m; try discriminate; eauto).
    cbn. destruct (push_back_loop_total (length (rc_buffered ch)) id b (rc_buffered ch) ltac:(lia)) as (l & Hl & _). unfold OrderedIds_push_back. rewrite Hl. cbn.
    destruct (drain_total kind st (mkComponentChannel (rc_inserted ch) (rc_last_epoch_id ch) l (rc_incoming ch)) Hi) as (msgs & ch' & Hd & Hi' & Hm). eauto 8.
Qed.

Lemma flush_total id st m incoming : drained m -> exists m' msgs, flush_components iter_c id st m incoming = Ok (m', incoming ++ msgs) /\
  drained m' /\ Forall (fun m => m <> Noop) msgs /\ forall kind, is_Some (m' !! kind) <-> is_Some (m !! kind).
Proof using Hiter.
  intros Hd. unfold flush_components. destruct (Hiter m) as [_ Hks].
  assert (forall ks m incoming, drained m -> (forall kind, kind ∈ ks -> is_Some (m !! kind)) ->
    exists m' msgs, foldM (fun kind '(components, incoming) => channel ← unwrap (components !! kind);
      '(msgs, channel') ← component_drain_messages kind (component_process_messages st (component_buffer_pop_until id channel));
      Ok (<[kind := channel']> components, incoming ++ msgs)) ks (m, incoming) = Ok (m', incoming ++ msgs) /\
    drained m' /\ Forall (fun m => m <> Noop) msgs /\ forall kind, is_Some (m' !! kind) <-> is_Some (m !! kind)) as Hloop.
  { clear. induction ks as [|k ks IH]; intros m incoming Hd Hk; cbn [foldM]; [exists m, []; now rewrite app_nil_r|].
    destruct (Hk k ltac:(left)) as [ch Hch]. rewrite Hch. cbn [unwrap mbind res_bind].
    destruct (drain_total k st (component_buffer_pop_until id ch)) as (msgs & ch' & -> & Hi' & Hm); [exact (Hd k ch Hch)|]. cbn [mbind res_bind].
    destruct (IH (<[k := ch']> m) (incoming ++ msgs)) as (m' & msgs' & -> & Hd' & Hm' & Hs').
    - intros kind x [[_ <-]|[_ Hx]]%lookup_insert_Some; [exact Hi'|exact (Hd kind x Hx)].
    - intros kind Hin. apply lookup_insert_is_Some. destruct (decide (k = kind)); [now left|right; split; [assumption|]]. apply Hk. now right.
    - exists m', (msgs ++ msgs'). rewrite app_assoc. split; [reflexivity|]. split; [exact Hd'|]. split; [now apply Forall_app|].
      intros kind. rewrite Hs', lookup_insert_is_Some. destruct (decide (k = kind)) as [->|Hne];
        [rewrite Hch; split; [eauto|now left]|split; [intros [?|[_ ?]]; [contradiction|assumption]|right; now split]]. }
  apply Hloop; [exact Hd|apply Hks].
Qed.

Lemma auth_loop_total buffered r : Forall (fun x => is_authority x.2) buffered -> Forall is_authority (ar_incoming r) ->
  exists r', auth_process_loop buffered r = Ok r' /\ Forall (fun x => is_authority x.2) (ar_buffered r') /\ Forall is_authority (ar_incoming r').
Proof using Type.
  intros Hb. revert r. induction Hb as [|[id m] buffered Hm Hb IH]; intros r Hr; cbn; [eexists; split; [reflexivity|]; now split|].
  assert (exists sub, subcommand_id m = Some sub) as [sub ->] by (cbn in Hm; destruct m; try contradiction; cbn; eauto). cbn.
  destruct (negb _); [eexists; split; [reflexivity|]; split; [now constructor|exact Hr]|]. apply IH. cbn. apply Forall_app. auto.
Qed.

Lemma auth_not_noop l : Forall is_authority l -> Forall (fun m => m <> Noop) l.
Proof using Type. intros Hl. eapply Forall_impl; [exact Hl|]. now intros []. Qed.

Lemma auth_receive_total st id m a : is_authority m -> auth_drained a -> exists a1, AuthChannel_receiver_receive_message (Some st) id m a = Ok a1 /\
  Forall (fun x => is_authority x.2) (ar_buffered (ac_receiver a1)) /\ Forall is_authority (ar_incoming (ac_receiver a1)) /\ (st = Despawned -> ar_incoming (ac_receiver a1) = []).
Proof using Type.
  intros Hm [Hb Hi]. unfold AuthChannel_receiver_receive_message, AuthChannelReceiver_receive_message, OrderedIds_push_back.
  destruct (push_back_loop_total (length (ar_buffered (ac_receiver a))) id m _ ltac:(reflexivity)) as (l & -> & Hl). cbn.
  assert (Forall (fun x => is_authority x.2) l) as Hl' by (rewrite Hl; now constructor).
  destruct st; cbn; [eexists; split; [reflexivity|]; cbn; rewrite Hi; auto|].
  destruct (auth_loop_total l (mkAuthReceiver (ar_next_subcommand_id (ac_receiver a)) l (ar_incoming (ac_receiver a))) Hl') as (r' & -> & H1 & H2); [cbn; now rewrite Hi|].
  cbn. eexists. split; [reflexivity|]. cbn. split; [exact H1|]. split; [exact H2|discriminate].
Qed.

Lemma flush_auth_total id a : auth_drained a -> exists msgs a', flush_auth id Spawned a = Ok (msgs, a') /\ auth_drained a' /\ Forall (fun m => m <> Noop) msgs.
Proof using Type.
  intros [Hb Hi]. unfold flush_auth, AuthChannel_receiver_process_messages, AuthChannel_receiver_pop_until. cbn.
  assert (Forall (fun x => is_authority x.2) (pop_front_until_and_including id (ar_buffered (ac_receiver a)))) as Hp.
  { unfold pop_front_until_and_including. induction Hb as [|[i m] l Hm Hb IH]; cbn; [constructor|]. destruct (_ || _); [exact IH|now constructor]. }
  destruct (auth_loop_total _ (mkAuthReceiver (ar_next_subcommand_id (ac_receiver a)) (pop_front_until_and_including id (ar_buffered (ac_receiver a))) (ar_incoming (ac_receiver a))) Hp) as (r' & -> & H1 & H2); [cbn; now rewrite Hi|].
  cbn. do 2 eexists. split; [reflexivity|]. split; [split; [exact H1|reflexivity]|now apply auth_not_noop].
Qed.

Lemma shape_at p : (p < length script)%nat -> host_shape p (msg_at script p).
Proof using Hshape. intros Hp. destruct (lookup_lt_is_Some_2 script p Hp) as [m Hm]. unfold msg_at. rewrite Hm. exact (Hshape p m Hm). Qed.

Lemma pop_self {P} id (x : P) : pop_front_until_and_excluding id [(id, x)] = [(id, x)].
Proof using Type.
  unfold pop_front_until_and_excluding. cbn. assert (sequence_less_than id id = false) as ->; [|reflexivity].
  unfold sequence_less_than, sequence_greater_than. rewrite Z.sub_diag, Z.ltb_irrefl. cbn. reflexivity.
Qed.

Lemma fold_brought_kinds id kinds (m : gmap ComponentKind RemoteComponentChannel) : drained m ->
  let m' := fold_left (fun m kind => <[kind := set_inserted true id (channel_entry kind m)]> m) kinds m in
  drained m' /\ forall kind, is_Some (m' !! kind) <-> is_Some (m !! kind) \/ kind ∈ kinds.
Proof using Type.
  revert m. induction kinds as [|k kinds IH]; intros m Hd; cbn [fold_left]; [split; [exact Hd|]; intros kind; rewrite elem_of_nil; tauto|].
  destruct (IH (<[k := set_inserted true id (channel_entry k m)]> m)) as [Hd' Hs'].
  { intros kind x [[_ <-]|[_ Hx]]%lookup_insert_Some; [|exact (Hd kind x Hx)]. cbn. unfold channel_entry. destruct (m !! k) eqn:Hk; [exact (Hd k _ Hk)|reflexivity]. }
  split; [exact Hd'|]. intros kind. rewrite Hs', lookup_insert_is_Some', elem_of_cons. split; [intros [[?|?]|?]|intros [?|[?|?]]]; auto.
Qed.

(** The round that handles the message. *)
Lemma tracks_round A c p : tracks A c -> re_incoming c = [] -> (p < length script)%nat -> p ∉ A -> msg_at script p <> Noop ->
  exists c', process_round iter_c (mkEntityChannel (re_state c) (re_last_epoch_id c) (re_components c) (re_auth c) [(wid p, msg_at script p)] (re_incoming c) (re_outgoing c)) = Ok (Some c') /\
    tracks (p :: A) c' /\ Forall (fun m => m <> Noop) (re_incoming c').
Proof using Hshape Hiter.
  intros [Hb Hc Ha Hst Hk] Hi Hp HA Hno. destruct (shape_at p Hp) as [E|Hs]; [contradiction|]. rewrite Hi.
  assert (forall kind (P : Prop), (exists q, q ∈ p :: A /\ about kind (msg_at script q)) <-> about kind (msg_at script p) \/ exists q, q ∈ A /\ about kind (msg_at script q)) as Hmore.
  { intros kind _. split; [intros (q & [->|Hq]%elem_of_cons & Hab); eauto|]. intros [Hab|(q & Hq & Hab)]; [exists p; split; [left|exact Hab]|exists q; split; [now right|exact Hab]]. }
  destruct p as [|p].
  - assert (re_state c = Despawned /\ re_last_epoch_id c = None) as [Hst1 _] by (destruct Hst as [|(_ & _ & ?)]; [assumption|contradiction]).
    destruct (flush_auth_total (wid 0%nat) (re_auth c) Ha) as (amsgs & a' & Hfa & Ha' & Hna).
    unfold process_round. cbn [re_buffered re_state re_components re_auth re_incoming re_outgoing]. rewrite Hst1.
    destruct Hs as [Hm|[kinds Hm]]; rewrite Hm, decide_False, pop_self by (intros Hn; now apply Hn).
    + destruct (flush_total (wid 0%nat) Spawned (re_components c) ([] ++ [Spawn tt] ++ amsgs) Hc) as (m' & msgs & Hf & Hd' & Hn' & Hs').
      rewrite Hfa. cbn [mbind res_bind]. rewrite Hf. cbn [mbind res_bind]. eexists. split; [reflexivity|]. split; [|cbn; constructor; [discriminate|now apply Forall_app]].
      split; cbn; auto.
      * right. split_and!; [reflexivity..|left].
      * intros kind. rewrite Hs', Hk, (Hmore kind True), Hm. split; [now right|]. intros [[Hab|Hab]|]; [discriminate|inversion Hab|assumption].
    + destruct (flush_total (wid 0%nat) Spawned (re_components c) ([] ++ [Spawn tt]) Hc) as (m' & msgs & Hf & Hd' & Hn' & Hs').
      rewrite Hf. cbn [mbind res_bind]. rewrite Hfa. cbn [mbind res_bind]. eexists. split; [reflexivity|].
      destruct (fold_brought_kinds (wid 0%nat) kinds m' Hd') as [Hd2 Hs2]. split.
      * split; cbn; auto; [right; split_and!; [reflexivity..|left]|]. intros kind. rewrite Hs2, Hs', Hk, (Hmore kind True), Hm.
        unfold about. cbn [brings]. split; [intros [?|?]; auto|]. intros [[Hab|Hab]|]; [discriminate|auto..].
      * cbn. constructor; [discriminate|]. rewrite !Forall_app. split_and!; auto. apply Forall_map, Forall_forall. discriminate.
  - destruct Hs as [[kind Hof]|Hau].
    + assert (rc_incoming (channel_entry kind (re_components c)) = []) as Hin.
      { unfold channel_entry. destruct (re_components c !! kind) eqn:E; [exact (Hc kind _ E)|reflexivity]. }
      destruct (accept_total kind (re_state c) (wid (S p)) (msg_at script (S p)) _ Hof Hin) as (ch1 & msgs & ch' & H1 & H2 & H3 & H4).
      exists (mkEntityChannel (re_state c) (re_last_epoch_id c) (<[kind := ch']> (re_components c)) (re_auth c) [] msgs (re_outgoing c)). split.
      { unfold process_round. cbn [re_buffered]. unfold of_kind in Hof. destruct (msg_at script (S p)); try discriminate Hof; injection Hof as ->;
          cbn [re_state re_components]; rewrite H1; cbn [mbind res_bind]; rewrite H2; reflexivity. }
      split; [|exact H4]. split; cbn; auto.
      * intros k x [[_ <-]|[_ Hx]]%lookup_insert_Some; [exact H3|exact (Hc k x Hx)].
      * destruct Hst as [?|(? & ? & ?)]; [now left|right; split_and!; auto; now right].
      * intros k. rewrite lookup_insert_is_Some', Hk, (Hmore k True), (about_later k _ (of_kind_brings _ _ Hof)). unfold of_kind in *. rewrite Hof.
        split; [intros [->|?]; auto|]. intros [[= ->]|?]; auto.
    + destruct (auth_receive_total (re_state c) (wid (S p)) (msg_at script (S p)) (re_auth c) Hau Ha) as (a1 & H1 & H2 & H3 & H4).
      assert (forall a', auth_drained a' -> forall msgs, tracks (S p :: A) (mkEntityChannel (re_state c) (re_last_epoch_id c) (re_components c) a' [] msgs (re_outgoing c))) as Htr.
      { intros a' Ha' msgs. split; cbn; auto; [destruct Hst as [?|(? & ? & ?)]; [now left|right; split_and!; auto; now right]|].
        intros k. rewrite Hk, (Hmore k True). split; [now right|]. intros [Hab|]; [now apply authority_not_about in Hab|assumption]. }
      destruct (decide (re_state c = Spawned)) as [Hsp|Hsp].
      * exists (mkEntityChannel (re_state c) (re_last_epoch_id c) (re_components c) (snd (AuthChannel_receiver_drain a1)) [] (ar_incoming (ac_receiver a1)) (re_outgoing c)).
        split; [|split; [apply Htr; now split|now apply auth_not_noop]].
        unfold process_round. cbn [re_buffered]. destruct (msg_at script (S p)); try contradiction Hau; cbn [re_state re_auth]; rewrite H1; cbn [mbind res_bind]; now rewrite decide_True.
      * exists (mkEntityChannel (re_state c) (re_last_epoch_id c) (re_components c) a1 [] [] (re_outgoing c)).
        split; [|split; [apply Htr; split; [exact H2|apply H4; destruct (re_state c); congruence]|constructor]].
        unfold process_round. cbn [re_buffered]. destruct (msg_at script (S p)); try contradiction Hau; cbn [re_state re_auth]; rewrite H1; cbn [mbind res_bind]; now rewrite decide_False.
Qed.

Lemma tracks_step A c p : tracks A c -> re_incoming c = [] -> (p < length script)%nat -> p ∉ A -> msg_at script p <> Noop ->
  exists c', RemoteEntityChannel_receive_message iter_c (wid p) (msg_at script p) c = Ok c' /\ tracks (p :: A) c' /\ Forall (fun m => m <> Noop) (re_incoming c').
Proof using Hshape Hiter Hafter.
  intros Ht Hi Hp HA Hno. destruct (tracks_round A c p Ht Hi Hp HA Hno) as (c' & Hr & Ht' & Hn').
  exists c'. split; [|now split]. destruct Ht as [Hb _ _ Hst _]. unfold RemoteEntityChannel_receive_message. rewrite Hb. cbn [OrderedIds_push_back length push_back_loop mbind res_bind].
  assert (RemoteEntityChannel_process_messages iter_c (process_fuel (mkEntityChannel (re_state c) (re_last_epoch_id c) (re_components c) (re_auth c) [(wid p, msg_at script p)] (re_incoming c) (re_outgoing c)))
    (mkEntityChannel (re_state c) (re_last_epoch_id c) (re_components c) (re_auth c) [(wid p, msg_at script p)] (re_incoming c) (re_outgoing c)) = Ok c') as Hloop.
  { cbn [process_fuel re_buffered length RemoteEntityChannel_process_messages]. rewrite Hr. cbn [mbind res_bind]. unfold process_round. now rewrite (tk_buffered _ _ Ht'). }
  destruct Hst as [[_ E]|(_ & E & H0)]; rewrite E in Hloop |- *; [exact Hloop|]. destruct p as [|p]; [contradiction|]. destruct (Hafter (S p) ltac:(lia)) as [-> ->]. exact Hloop.
Qed.

Lemma tracks_new host_type A : (forall p, p ∈ A -> msg_at script p = Noop) -> tracks A (RemoteEntityChannel_new host_type).
Proof using Type.
  intros HA. split; cbn; auto; [intros kind ch; now rewrite lookup_empty|split; [constructor|reflexivity]|]. intros kind. rewrite lookup_empty. split; [now intros []|].
  intros (p & Hp & Hab). rewrite (HA p Hp) in Hab. destruct Hab as [Hab|Hab]; [discriminate|inversion Hab].
Qed.
End Tracks.
Section Acks.
Context {A C : Type} {eqA : EqDecision A} {cA : Countable A}.
Context (iter_c : gmap ComponentKind RemoteComponentChannel -> list ComponentKind).
Context (script : HostEntity -> list (EntityMessage unit)) (num : HostEntity -> nat -> nat).
Abbreviation ids := (fun e p => Z.of_nat (num e p)).
Abbreviation state := (@delivered_state A C eqA cA).
Abbreviation Diffs := (@GlobalDiffHandler GlobalEntity ComponentKind _ _ _ _).

(** The acknowledged command [x]: an entity and a position in its script; the commands
    of all entities are numbered in one sequence. *)
Definition ack_id (x : HostEntity * nat) : MessageIndex := wrap 16 (Z.of_nat (num x.1 x.2)).
Definition ack_msg (x : HostEntity * nat) : EntityMessage HostEntity := addressed x.1 (msg_at (script x.1) x.2).
Definition numbers (l : list (HostEntity * nat)) : list nat := (fun x => num x.1 x.2) <$> l.

(** A number at most 32767 away from the first one that is not acknowledged. *)
Definition in_ack_window (got : list nat) (x : nat) : Prop := forall base, (forall z, (z < base)%nat -> z ∈ got) -> (base ∉ got) ->
  Z.abs (Z.of_nat x - Z.of_nat base) <= 32767.

(** Acknowledgements, the processing of those that wait, and any other steps of the
    connection in between: they change the host engine and the maps, not what is
    known of the peer.  [done] has been processed, [waiting] not yet; newest first. *)
Inductive ack_reach (g : Diffs) : list (HostEntity * nat) -> list (HostEntity * nat) -> state -> Prop :=
| ar_new host_type user m us : local_map_ok m -> ack_reach g [] [] (HostWorld_new host_type user, m, us)
| ar_other don wait self m us self' m' us' : ack_reach g don wait (self, m, us) ->
    delivered_receiver self' = delivered_receiver self -> delivered_engine self' = delivered_engine self -> local_map_ok m' ->
    ack_reach g don wait (self', m', us')
| ar_ack don wait self m us x self' : ack_reach g don wait (self, m, us) ->
    (x.2 < length (script x.1))%nat -> (x ∉ wait ++ don) -> in_ack_window (numbers (wait ++ don)) (num x.1 x.2) ->
    host_deliver_message (ack_id x) (ack_msg x) self = Ok self' -> ack_reach g don (x :: wait) (self', m, us)
| ar_process don wait s now s' : ack_reach g don wait s -> host_process_delivered_commands iter_c g now s = Ok s' ->
    ack_reach g (wait ++ don) [] s'.

Context (Hiter : forall m, NoDup (iter_c m) /\ forall kind, kind ∈ iter_c m <-> is_Some (m !! kind)).
Context (Hshape : forall e p m, script e !! p = Some m -> host_shape p m).
Context (Hwindow : forall e p, (0 < p < length (script e))%nat -> ids e 0%nat < ids e p <= ids e 0%nat + 32767).
Context (Hinj : forall e p e' p', (p < length (script e))%nat -> (p' < length (script e'))%nat -> num e p = num e' p' -> (e, p) = (e', p')).

Abbreviation wid := (fun e p => wrap 16 (ids e p)).

(** The acknowledged commands [don] have passed through the engine. *)
Definition seen_all (don : list (HostEntity * nat)) (g : RemoteEngine HostEntity) : Prop := forall e,
  match rg_channels g !! e with
  | None => forall p, (e, p) ∈ don -> msg_at (script e) p = Noop
  | Some c => re_incoming c = [] /\ tracks (script e) (wid e) (positions_of e don) c
  end.

Lemma after_spawn e p : (0 < p < length (script e))%nat -> (wid e 0%nat =? wid e p) = false /\ sequence_less_than (wid e p) (wid e 0%nat) = false.
Proof using Hwindow.
  intros Hp. pose proof (Hwindow e p Hp) as Hw. cbv beta in *. assert (close (ids e p) (ids e 0%nat)) as Hc by (unfold close; lia).
  rewrite seq_lt_close by exact Hc. rewrite close_eqb by (unfold close in *; lia). split; [apply Z.eqb_neq|apply Z.ltb_ge]; lia.
Qed.

Lemma seen_step don g x : seen_all don g -> (x.2 < length (script x.1))%nat -> (x ∉ don) ->
  exists g', RemoteEngine_receive_message iter_c (ack_id x) (ack_msg x) g = Ok g' /\ seen_all (x :: don) g'.
Proof using Hiter Hshape Hwindow.
  destruct x as [e p]. cbn [fst snd]. intros Hseen Hp Hn. unfold ack_id, ack_msg. cbn [fst snd].
  destruct (decide (msg_at (script e) p = Noop)) as [Hnoop|Hnoop].
  - rewrite Hnoop. exists g. split; [reflexivity|]. intros e'. specialize (Hseen e'). destruct (rg_channels g !! e') as [c|].
    + destruct Hseen as [Hi [H1 H2 H3 H4 H5]]. split; [exact Hi|]. rewrite positions_of_cons. cbn [fst snd]. destruct (decide (e = e')) as [<-|]; [|now split].
      split; auto; cbn [app].
      * destruct H4 as [?|(? & ? & ?)]; [now left|right; split_and!; auto; now right].
      * intros kind. rewrite H5. split; intros (q & Hq & Hab); [exists q; split; [now right|exact Hab]|]. apply elem_of_cons in Hq as [->|Hq]; [|eauto].
        rewrite Hnoop in Hab. destruct Hab as [Hab|Hab]; [discriminate|inversion Hab].
    + intros q [[= -> ->]|Hq]%elem_of_cons; auto.
  - destruct (addressed_spec e _ Hnoop) as (_ & Hstrip & Hent & Hty).
    set (c := default (RemoteEntityChannel_new (rg_host_type g)) (rg_channels g !! e)).
    assert (re_incoming c = [] /\ tracks (script e) (wid e) (positions_of e don) c) as [Hi Ht].
    { specialize (Hseen e). unfold c. destruct (rg_channels g !! e); cbn; [exact Hseen|]. split; [reflexivity|]. apply tracks_new. intros q Hq. now apply Hseen, elem_of_positions_of. }
    destruct (tracks_step (script e) (wid e) iter_c (Hshape e) (after_spawn e) Hiter (positions_of e don) c p Ht Hi Hp) as (c' & Hr & Ht' & Hn'); [now rewrite elem_of_positions_of|exact Hnoop|].
    assert (exists g1, match rg_channels g !! e with Some _ => Ok g | None => RemoteEngine_insert_entity_channel e (RemoteEntityChannel_new (rg_host_type g)) g end = Ok g1 /\
      rg_channels g1 = <[e := c]> (rg_channels g)) as (g1 & Hg1 & Hch).
    { unfold c, RemoteEngine_insert_entity_channel. destruct (rg_channels g !! e) eqn:Ee; cbn; [exists g; now rewrite insert_id|eauto]. }
    eexists. split.
    + unfold RemoteEngine_receive_message. rewrite decide_False by exact Hty. rewrite Hent. cbn [unwrap mbind res_bind]. rewrite Hg1. cbn [mbind res_bind].
      rewrite Hch, lookup_insert_eq. cbn [unwrap mbind res_bind]. rewrite Hstrip. cbn [mbind res_bind]. rewrite Hr. cbn [mbind res_bind]. rewrite (drain_incoming_spec e c' Hn'). reflexivity.
    + intros e'. cbn [rg_channels]. rewrite positions_of_cons. cbn [fst snd]. specialize (Hseen e'). destruct (decide (e = e')) as [<-|Hne].
      * rewrite lookup_insert_eq. split; [reflexivity|]. destruct Ht' as [H1 H2 H3 H4 H5]. now split.
      * rewrite !lookup_insert_ne by exact Hne. destruct (rg_channels g !! e'); [exact Hseen|]. intros q [[= ? ?]|Hq]%elem_of_cons; [congruence|auto].
Qed.

Lemma seen_run l don g : seen_all don g -> NoDup l -> (forall x, x ∈ l -> (x.2 < length (script x.1))%nat /\ (x ∉ don)) ->
  exists g', foldM (fun x g => RemoteEngine_receive_message iter_c x.1 x.2 g) ((fun x => (ack_id x, ack_msg x)) <$> l) g = Ok g' /\ seen_all (rev l ++ don) g'.
Proof using Hiter Hshape Hwindow.
  revert don g. induction l as [|x l IH]; intros don g Hs Hnd Hl; cbn [fmap list_fmap foldM rev app]; [eauto|]. apply NoDup_cons in Hnd as [Hx Hnd].
  destruct (Hl x ltac:(left)) as [Hp Hn]. destruct (seen_step don g x Hs Hp Hn) as (g1 & He & Hs1). cbn [fst snd]. rewrite He. cbn [mbind res_bind].
  destruct (IH (x :: don) g1 Hs1 Hnd) as (g2 & Hg2 & Hs2).
  { intros y Hy. destruct (Hl y ltac:(now right)) as [Hp' Hn']. split; [exact Hp'|]. intros [->|?]%elem_of_cons; contradiction. }
  exists g2. split; [exact Hg2|]. now rewrite <- app_assoc.
Qed.

(** What holds in every such state. *)
Record acks_ok (don wait : list (HostEntity * nat)) (s : state) : Prop := {
  ak_map : local_map_ok s.1.2;
  ak_range : forall e p, (e, p) ∈ wait ++ don -> (p < length (script e))%nat;
  ak_once : NoDup (wait ++ don);
  ak_receiver : exists base, recv_inv (numbers (wait ++ don)) base (delivered_receiver s.1.1);
  ak_waiting : incoming_messages (delivered_receiver s.1.1) = (fun x => (ack_id x, ack_msg x)) <$> rev wait;
  ak_engine : seen_all don (delivered_engine s.1.1)
}.

Lemma acks_new host_type user (m : LocalEntityMap) us : local_map_ok m -> acks_ok [] [] (HostWorld_new host_type user, m, us).
Proof.
  intros Hm. split; cbn; try easy; [constructor|exists 0%nat; apply recv_inv_new|].
  intros e. cbn. rewrite lookup_empty. intros p Hp. inversion Hp.
Qed.

(** The numbers of acknowledged commands differ. *)
Lemma number_fresh don wait s x : acks_ok don wait s -> (x.2 < length (script x.1))%nat -> (x ∉ wait ++ don) ->
  num x.1 x.2 ∉ numbers (wait ++ don).
Proof using Hinj.
  intros [_ Hr _ _ _ _] Hx Hn (y & Hy & Hin)%list_elem_of_fmap. destruct x as [e p], y as [e' p']. cbn in *.
  specialize (Hr _ _ Hin). apply (Hinj e p e' p') in Hy; auto. rewrite Hy in Hn. contradiction.
Qed.

Lemma ack_step don wait self (m : LocalEntityMap) us x : acks_ok don wait (self, m, us) -> (x.2 < length (script x.1))%nat -> (x ∉ wait ++ don) ->
  in_ack_window (numbers (wait ++ don)) (num x.1 x.2) ->
  exists self', host_deliver_message (ack_id x) (ack_msg x) self = Ok self' /\ acks_ok don (x :: wait) (self', m, us).
Proof using Hinj.
  intros H Hx Hn Hw. pose proof (number_fresh don wait _ x H Hx Hn) as Hnew. destruct H as [Hm Hr Hnd (base & Hrecv) Hwt Heng].
  cbn [fst snd] in *. unfold host_deliver_message, ack_id.
  destruct (buffer_message_spec _ base _ (num x.1 x.2) (ack_msg x) Hrecv) as (r' & -> & [[Hin _]|(_ & Hinc & base' & _ & Hrecv')]); [|contradiction|].
  { apply Hw; [apply Hrecv|apply Hrecv]. }
  eexists. split; [reflexivity|]. split; cbn [fst snd hw_set_delivered delivered_receiver delivered_engine].
  - exact Hm.
  - intros e p [Heq|Hin]%elem_of_cons; [rewrite <- Heq in Hx; exact Hx|now apply Hr].
  - constructor; [exact Hn|exact Hnd].
  - exists base'. exact Hrecv'.
  - rewrite Hinc. cbn [rev]. now rewrite fmap_app, Hwt.
  - exact Heng.
Qed.

(** The messages that wait are those of the scripts, so none is filtered out. *)
Lemma ack_not_migrate x : (x.2 < length (script x.1))%nat -> is_migrate_response (ack_msg x) = false.
Proof using Hshape.
  intros Hx. unfold ack_msg. destruct x as [e p]. cbn in *. destruct (shape_at (script e) (Hshape e) p Hx) as [->|Hs]; [reflexivity|].
  destruct p as [|p]; [destruct Hs as [->|[kinds ->]]; reflexivity|]. destruct Hs as [[kind Hk]|Ha]; [unfold of_kind in Hk|];
    destruct (msg_at (script e) (S p)) as [[]|[]| [] |[]|[]|? []|? []|? []|? []|? []|? []|? []|? []|? []|]; easy.
Qed.

(** The loop over the messages the engine lets through. *)
Lemma delivered_messages_ok (g : Diffs) now msgs (s : state) : local_map_ok s.1.2 ->
  exists s', delivered_messages g now msgs s = Ok s' /\ local_map_ok s'.1.2 /\
    delivered_receiver s'.1.1 = delivered_receiver s.1.1 /\ delivered_engine s'.1.1 = delivered_engine s.1.1.
Proof.
  revert s. induction msgs as [|msg msgs IH]; intros [[self m] us] Hm; cbn [fst snd delivered_messages] in *; [eauto 6|].
  assert (exists o, delivered_message g now msg (self, m, us) = Ok o /\
    match o with
    | Some s' => local_map_ok s'.1.2 /\ delivered_receiver s'.1.1 = delivered_receiver self /\ delivered_engine s'.1.1 = delivered_engine self
    | None => True end) as (o & -> & Ho).
  { destruct msg; cbn [delivered_message]; try (eexists; split; [reflexivity|]; now cbn).
    - rewrite delivered_eq by exact Hm. eexists. split; [reflexivity|]. cbn. split_and!; [|reflexivity..].
      destruct (host_to_global m !! _); [now apply dropped_ok|exact Hm].
    - eexists. split; [reflexivity|]. now destruct (LocalMap_from_host m _).
    - eexists. split; [reflexivity|]. now destruct (LocalMap_from_host m _). }
  cbn [mbind res_bind]. destruct o as [s'|]; [|eexists; split; [reflexivity|]; auto].
  destruct Ho as (Hm' & Hr' & He'). destruct (IH s' Hm') as (s2 & -> & Hm2 & Hr2 & He2). exists s2.
  split_and!; auto; [now rewrite Hr2|now rewrite He2].
Qed.

Lemma process_step don wait (s : state) (g : Diffs) now : acks_ok don wait s ->
  exists s', host_process_delivered_commands iter_c g now s = Ok s' /\ acks_ok (wait ++ don) [] s'.
Proof using Hiter Hshape Hwindow.
  intros [Hm Hr Hnd (base & Hrecv) Hwt Hseen]. destruct s as [[self m] us]. cbn [fst snd] in *.
  apply NoDup_app in Hnd as Hnd'. destruct Hnd' as (Hndw & Hdisj & _).
  assert (forall x, x ∈ rev wait -> x ∈ wait) as Hrev by (intros x Hx; now apply list_elem_of_In, in_rev, list_elem_of_In in Hx).
  unfold host_process_delivered_commands, ReliableReceiver_receive_messages. rewrite Hwt.
  rewrite filter_keep.
  2:{ intros x (y & -> & Hy)%list_elem_of_fmap. apply ack_not_migrate. destruct y as [e p]. apply Hr, elem_of_app. left. now apply Hrev. }
  destruct (seen_run (rev wait) don (delivered_engine self) Hseen) as (h1 & Hh1 & Hseen1).
  { apply NoDup_ListNoDup, NoDup_rev, NoDup_ListNoDup, Hndw. }
  { intros [e p] Hx%Hrev. split; [|now apply Hdisj]. apply Hr, elem_of_app. now left. }
  rewrite rev_involutive in Hseen1. unfold remote_take_incoming_messages. rewrite Hh1. cbn [mbind res_bind RemoteEngine_take_incoming_events].
  edestruct (delivered_messages_ok g now (rg_incoming h1)) as (s' & Hs' & Hm' & Hr' & He'); [|rewrite Hs'; exists s'; split; [reflexivity|]].
  { exact Hm. }
  cbn in Hr', He'. split; cbn [app rev]; rewrite ?Hr', ?He'; cbn.
  - exact Hm'.
  - exact Hr.
  - exact Hnd.
  - exists base. destruct Hrecv. now split.
  - reflexivity.
  - exact Hseen1.
Qed.

Lemma ack_reach_ok (g : Diffs) don wait s : ack_reach g don wait s -> acks_ok don wait s.
Proof using Hiter Hshape Hwindow Hinj.
  induction 1 as [host_type user m us Hm|don wait self m us self' m' us' _ IH Hr He Hm'|don wait self m us x self' _ IH Hx Hn Hw He
    |don wait s now s' _ IH He].
  - now apply acks_new.
  - destruct IH as [H1 H2 H3 H4 H5 H6]. split; cbn [fst snd] in *; rewrite ?Hr, ?He; auto.
  - destruct (ack_step don wait self m us x IH Hx Hn Hw) as (self1 & He1 & Hok1). rewrite He in He1. now injection He1 as <-.
  - destruct (process_step don wait s g now IH) as (s1 & He1 & Hok1). rewrite He in He1. now injection He1 as <-.
Qed.
End Acks.


(** What is written for a command is a [Noop] or its message. *)
Lemma written_or_noop x m : written x = Ok m -> m = Noop \/ m = as_message x.2.
Proof.
  intros Hw. destruct (still_there x) eqn:Hs; [right; now apply written_as_message|left]. destruct x as [[ex gl co] command]. unfold written in Hw. cbn in Hs, Hw.
  destruct command; cbn in Hs, Hw; try discriminate.
  - destruct ex, gl, (forallb co kinds); cbn in Hs, Hw; congruence.
  - destruct ex, gl, (co kind); cbn in Hs, Hw; congruence.
  - rewrite Hs in Hw. cbn in Hw. congruence.
Qed.

Lemma write_all_lookup sends ms p m : write_all sends = Ok ms -> ms !! p = Some m -> exists x, sends !! p = Some x /\ written x = Ok m.
Proof.
  revert ms p. induction sends as [|x sends IH]; intros ms p Hw Hp; cbn in Hw; [now injection Hw as <-|].
  apply bind_ok_inv in Hw as (m0 & Hm & Hw). apply bind_ok_inv in Hw as (ms' & Hms & [= <-]). destruct p as [|p]; cbn in Hp |- *; [injection Hp as <-; eauto|eauto].
Qed.

(** The messages written for a host channel's commands have the shape the channels expect. *)
Lemma written_shape g kinds c sends script p m : NoDup kinds -> host_inv kinds c -> sends.*2 = spawn_command g kinds :: hc_outgoing c -> write_all sends = Ok script ->
  script !! p = Some m -> host_shape p m.
Proof.
  intros Hnd Hinv Hs Hw Hp. destruct (write_all_lookup sends script p m Hw Hp) as (x & Hx & Hm). destruct (written_or_noop x m Hm) as [->| ->]; [now left|]. right.
  assert (Hc : (spawn_command g kinds :: hc_outgoing c) !! p = Some x.2) by (rewrite <- Hs, list_lookup_fmap, Hx; reflexivity). destruct p as [|p]; cbn in Hc.
  - injection Hc as Hc. rewrite <- Hc. destruct (spawn_message g kinds Hnd) as [Hsp _]. destruct (as_message (spawn_command g kinds)) as [[]|[] ks| | | | | | | | | | | | |]; try contradiction; cbn; [left; reflexivity|right; eexists; reflexivity].
  - destruct Hinv as [H1 _ _ _ _]. apply H1. unfold sent. apply list_elem_of_fmap. exists x.2. split; [reflexivity|]. eapply list_elem_of_lookup_2, Hc.
Qed.

(** C11: The host knows what the peer has.  Entities start on the connection with the component kinds
    they have (a spawn that brings them along, or a plain one), their host channels accept runs of
    commands that hosts send about entities they own (not the despawn, and not [RequestAuthority],
    [EnableDelegationResponse] or [MigrateResponse]), and the writer sends a message for each command, a [Noop] where the
    entity or the component is gone by then.  The commands of all entities are numbered in one
    sequence, those of an entity within 32767 of its spawn.  Acknowledgements come in any order within
    the receiver's window, are processed in batches of any size, and any other work of the connection
    that leaves the acknowledged part alone may come in between.  Then processing never panics, and at
    every time the changes of a component may be sent exactly if its host channel has the component
    and the acknowledgement of a message about it (its insert or remove, or the spawn that brought
    it), not written as a [Noop], has been processed.  In particular, once all commands of an entity
    are acknowledged and none of them was written as a [Noop], the components whose changes may be
    sent are those of its host channel. *)
Theorem acked_components_updatable {A C} {eqA : EqDecision A} {cA : Countable A} iter_c (spawned : gset HostEntity) (entity : HostEntity -> GlobalEntity)
    (kinds : HostEntity -> list ComponentKind) (commands : HostEntity -> list EntityCommand) (host : HostEntity -> HostEntityChannel)
    (sends : HostEntity -> list (write_state * EntityCommand)) (script : HostEntity -> list (EntityMessage unit)) (num : HostEntity -> nat -> nat)
    host_type g don wait (self : @HostWorldManager C) m (us : @EntityUpdateManager GlobalEntity ComponentKind A _ _ _ _ * @Store A eqA cA) :
  (forall m, NoDup (iter_c m) /\ forall kind, kind ∈ iter_c m <-> is_Some (m !! kind)) ->
  (forall e, e ∈ spawned -> NoDup (kinds e) /\ Forall (fun c => from_host c = true) (commands e) /\
     foldM HostEntityChannel_send_command (commands e) (HostEntityChannel_new_with_components host_type (list_to_set (kinds e))) = Ok (host e) /\
     (sends e).*2 = spawn_command (entity e) (kinds e) :: hc_outgoing (host e) /\ write_all (sends e) = Ok (script e)) ->
  (forall e, e ∉ spawned -> script e = []) ->
  (forall e p, (0 < p < length (script e))%nat -> Z.of_nat (num e 0%nat) < Z.of_nat (num e p) <= Z.of_nat (num e 0%nat) + 32767) ->
  (forall e p e' p', (p < length (script e))%nat -> (p' < length (script e'))%nat -> num e p = num e' p' -> (e, p) = (e', p')) ->
  ack_reach iter_c script num g don wait (self, m, us) ->
  (forall now, is_ok (host_process_delivered_commands iter_c g now (self, m, us)) = true) /\
  forall global_entity e c, e ∈ spawned -> host_of m global_entity = Some e -> hg_channels (host_engine self) !! e = Some c -> forall kind,
    exists updatable, host_is_component_updatable m global_entity kind self = Ok updatable /\
      (updatable = true <-> kind ∈ hc_components c /\ exists p, (e, p) ∈ don /\ about kind (msg_at (script e) p)) /\
      (hc_components c = hc_components (host e) -> Forall (fun x => still_there x = true) (sends e) -> (forall p, (p < length (script e))%nat -> (e, p) ∈ don) ->
       updatable = bool_decide (kind ∈ hc_components c)).
Proof.
  intros Hiter Hrun Hnone Hids Hinj Hreach.
  assert (Hhost : forall e, e ∈ spawned -> host_inv (kinds e) (host e)).
  { intros e He. destruct (Hrun e He) as (_ & Hf & Hr & _). eapply host_run_inv; [apply host_inv_new|exact Hf|exact Hr]. }
  assert (Hshape : forall e p x, script e !! p = Some x -> host_shape p x).
  { intros e p x Hx. destruct (decide (e ∈ spawned)) as [He|He]; [|now rewrite Hnone in Hx]. destruct (Hrun e He) as (Hnd & _ & _ & Hs & Hw). eapply written_shape; eauto. }
  pose proof (ack_reach_ok iter_c script num Hiter Hshape Hids Hinj g don wait _ Hreach) as Hacks. split.
  { intros now. destruct (process_step iter_c script num Hiter Hshape Hids don wait _ g now Hacks) as (s' & -> & _). reflexivity. }
  intros ge e c He Hm Hc kind. destruct Hacks as [_ _ _ _ _ Hseen]. cbn [fst snd] in *. specialize (Hseen e).
  assert (exists updatable, host_is_component_updatable m ge kind self = Ok updatable /\
    (updatable = true <-> kind ∈ hc_components c /\ exists p, (e, p) ∈ don /\ about kind (msg_at (script e) p))) as (u & Hu & Hiff).
  { unfold host_is_component_updatable. rewrite to_host_of, Hm. cbn [mbind res_bind]. rewrite Hc.
    destruct (decide (kind ∈ hc_components c)) as [Hin|Hin]; [rewrite decide_False by tauto|rewrite decide_True by exact Hin; exists false; split; [reflexivity|]; split; [discriminate|tauto]].
    destruct (rg_channels (delivered_engine self) !! e) as [ch|]; eexists; (split; [reflexivity|]).
    - destruct Hseen as [_ [_ _ _ _ Hk]]. rewrite bool_decide_eq_true, Hk. setoid_rewrite elem_of_positions_of. tauto.
    - split; [discriminate|]. intros (_ & p & Hp & Ha). rewrite (Hseen p Hp) in Ha. destruct Ha as [Ha|Ha]; [discriminate|inversion Ha]. }
  exists u. split; [exact Hu|]. split; [exact Hiff|]. intros Hcc Hst Hall. symmetry.
  destruct (Hrun e He) as (Hnd & _ & _ & Hs & Hw).
  assert (script e = host_script (entity e) (kinds e) (host e)) as Hscript by (rewrite (write_all_messages _ _ Hst Hw), Hs; reflexivity).
  destruct (decide (kind ∈ hc_components c)) as [Hin|Hin]; [rewrite bool_decide_true by exact Hin; symmetry; apply Hiff; split; [exact Hin|]|rewrite bool_decide_false by exact Hin; destruct u; [exfalso; apply Hin, Hiff; reflexivity|reflexivity]].
  pose proof (host_script_leaves (entity e) (kinds e) (host e) kind Hnd (Hhost e He)) as Hl. rewrite <- Hcc, bool_decide_true in Hl by exact Hin.
  unfold leaves_inserted in Hl. rewrite <- Hscript in Hl. destruct (filter (about kind) (script e)) as [|x l] eqn:Hf; [discriminate|].
  assert (x ∈ filter (about kind) (script e)) as [Hab [p Hp]%list_elem_of_lookup]%list_elem_of_filter by (rewrite Hf; left).
  exists p. split; [apply Hall; eapply lookup_lt_Some, Hp|]. unfold msg_at. now rewrite Hp.
Qed.

(** An entity that starts with a component and gets another: the last command is acknowledged
    first, and the component of the spawn is updatable before the other. *)
Module AckSample.
Definition h1 : HostEntity := mkHostEntity 1 false.
Definition alive : write_state := mkWriteState true true (fun _ => true).
Definition cmds (_ : HostEntity) : list EntityCommand := [CInsertComponent 5 7; CInsertComponent 5 8].
Definition channel (_ : HostEntity) : HostEntityChannel :=
  match foldM HostEntityChannel_send_command (cmds h1) (HostEntityChannel_new_with_components Server (list_to_set [6])) with
  | Ok c => c | _ => HostEntityChannel_new Server end.
Definition number (_ : HostEntity) (p : nat) : nat := p.
Definition keys (m : gmap ComponentKind RemoteComponentChannel) : list ComponentKind := (map_to_list m).*1.
Definition sent_for (e : HostEntity) : list (write_state * EntityCommand) := map (pair alive) (spawn_command 5 [6] :: hc_outgoing (channel e)).
Definition ack_script (e : HostEntity) : list (EntityMessage unit) :=
  if decide (e = h1) then match write_all (sent_for e) with Ok l => l | _ => [] end else [].
Abbreviation state := (@delivered_state Z Z _ _).

Definition diffs : @GlobalDiffHandler GlobalEntity ComponentKind _ _ _ _ := Global_new.
Definition map1 : LocalEntityMap :=
  match insert_with_host_entity 5 h1 (LocalMap_new Server) with Ok m => m | _ => LocalMap_new Server end.
Definition us0 : @EntityUpdateManager GlobalEntity ComponentKind Z _ _ _ _ * @Store Z _ _ :=
  Manager_new None diffs {| cells := []; sets := []; chans := [] |}.
Definition sent_all : @HostWorldManager Z :=
  hw_set_engine (mkHostEngine Server {[h1 := channel h1]} [] []) (HostWorld_new Server 3).

Definition ack_at (p : nat) (s : state) : state :=
  match host_deliver_message (ack_id number (h1, p)) (ack_msg ack_script (h1, p)) s.1.1 with
  | Ok self => (self, s.1.2, s.2) | _ => s end.
Definition process (s : state) : state :=
  match host_process_delivered_commands keys diffs 0 s with Ok s' => s' | _ => s end.

Definition s1 : state := ack_at 2 (sent_all, map1, us0).
Definition s2 : state := ack_at 0 s1.
Definition s3 : state := process s2.
Definition s4 : state := ack_at 1 s3.
Definition s5 : state := process s4.

Lemma host_script_length e : (length (ack_script e) <= 3)%nat /\ length (ack_script h1) = 3%nat.
Proof. split; [|vm_compute; reflexivity]. unfold ack_script. destruct (decide (e = h1)) as [->|]; [vm_compute; lia|cbn; lia]. Qed.

Lemma window_small (got : list nat) x : (x <= 3)%nat -> (3%nat ∉ got) -> in_ack_window got x.
Proof. intros Hx H3 base Hb _. destruct (decide (3 < base)%nat) as [Hl|Hl]; [now apply Hb in Hl|lia]. Qed.

Lemma map1_ok : local_map_ok map1.
Proof.
  destruct (insert_host_ok 5 h1 (LocalMap_new Server) (local_new_ok Server)) as (m & He & Hok & _); [reflexivity..|].
  unfold map1. rewrite He. exact Hok.
Qed.

Abbreviation reach := (ack_reach keys ack_script number diffs).

Lemma ack_at_reach don wait p s : reach don wait s -> (p < 3)%nat -> ((h1, p) ∉ wait ++ don) -> (3%nat ∉ numbers number (wait ++ don)) ->
  is_ok (host_deliver_message (ack_id number (h1, p)) (ack_msg ack_script (h1, p)) s.1.1) = true -> reach don ((h1, p) :: wait) (ack_at p s).
Proof.
  destruct s as [[self m] us]. unfold ack_at. cbn [fst snd]. intros Hr Hp Hn H3.
  destruct (host_deliver_message _ _ self) as [self'| | |] eqn:He; try discriminate. intros _.
  apply (ar_ack _ _ _ _ don wait self m us (h1, p) self' Hr); [|exact Hn|apply window_small; [cbn; unfold number; lia|exact H3]|exact He].
  cbn [fst snd]. rewrite (proj2 (host_script_length h1)). exact Hp.
Qed.

Lemma process_reach don wait s : reach don wait s -> is_ok (host_process_delivered_commands keys diffs 0 s) = true ->
  reach (wait ++ don) [] (process s).
Proof.
  unfold process. intros Hr. destruct (host_process_delivered_commands keys diffs 0 s) as [s'| | |] eqn:He; try discriminate. intros _.
  exact (ar_process _ _ _ _ don wait s 0 s' Hr He).
Qed.

Lemma sample_acked : reach [(h1, 1%nat); (h1, 0%nat); (h1, 2%nat)] [] s5.
Proof.
  apply (process_reach [(h1, 0%nat); (h1, 2%nat)] [(h1, 1%nat)]); [|vm_compute; reflexivity].
  apply (ack_at_reach _ []); [|lia|apply (bool_decide_unpack _); vm_compute; exact I..|vm_compute; reflexivity].
  apply (process_reach [] [(h1, 0%nat); (h1, 2%nat)]); [|vm_compute; reflexivity].
  apply (ack_at_reach [] [(h1, 2%nat)]); [|lia|apply (bool_decide_unpack _); vm_compute; exact I..|vm_compute; reflexivity].
  apply (ack_at_reach [] []); [|lia|apply (bool_decide_unpack _); vm_compute; exact I..|vm_compute; reflexivity].
  apply (ar_other _ _ _ _ [] [] (HostWorld_new Server 3) map1 us0); [apply ar_new, map1_ok|reflexivity..|apply map1_ok].
Qed.

Lemma acked_components_updatable_witness :
  host_is_component_updatable s3.1.2 5 7 s3.1.1 = Ok false /\ host_is_component_updatable s5.1.2 5 6 s5.1.1 = Ok true /\
  host_is_component_updatable s5.1.2 5 7 s5.1.1 = Ok true /\ host_is_component_updatable s5.1.2 5 9 s5.1.1 = Ok false.
Proof.
  split; [vm_compute; reflexivity|].
  destruct (acked_components_updatable keys {[h1]} (fun _ => 5) (fun _ => [6]) cmds channel sent_for ack_script number Server diffs [(h1, 1%nat); (h1, 0%nat); (h1, 2%nat)] [] s5.1.1 s5.1.2 s5.2)
    as [_ H].
  - intros m. split; [apply NoDup_fst_map_to_list|]. intros kind. unfold keys. rewrite list_elem_of_fmap. split.
    + intros ([k v] & -> & Hin). apply elem_of_map_to_list in Hin. eauto.
    + intros [v Hv]. exists (kind, v). split; [reflexivity|]. now apply elem_of_map_to_list.
  - intros e He. apply elem_of_singleton in He as ->. split_and!; [apply NoDup_singleton|repeat constructor|vm_compute; reflexivity..].
  - intros e He. unfold ack_script. rewrite decide_False; [reflexivity|]. intros ->. apply He, elem_of_singleton. reflexivity.
  - intros e p Hp. pose proof (host_script_length e). unfold number. lia.
  - intros e p e' p' Hp Hp'. unfold ack_script in Hp, Hp'. unfold number.
    destruct (decide (e = h1)) as [->|]; [|cbn in Hp; lia]. destruct (decide (e' = h1)) as [->|]; [now intros ->|cbn in Hp'; lia].
  - exact sample_acked.
  - assert (forall kind, host_is_component_updatable s5.1.2 5 kind s5.1.1 = Ok (bool_decide (kind ∈ hc_components (channel h1)))) as Hup.
    { intros kind. destruct (H 5 h1 (channel h1)) with (kind := kind) as (u & -> & _ & Hu); [now apply elem_of_singleton|vm_compute; reflexivity..|]. f_equal.
      apply Hu; [reflexivity|repeat constructor|]. intros p Hp. rewrite (proj2 (host_script_length h1)) in Hp. rewrite !elem_of_cons. destruct p as [|[|[|p]]]; [tauto..|lia]. }
    rewrite !Hup. split_and!; vm_compute; reflexivity.
Defined.
End AckSample.
