(* ===== verification/LocalWorld.v ===== *)
(** One connection's view of the replicated world:
    src/shared/src/world/local/local_world_manager.rs.

    [LocalWorldManager] owns the entity map of a connection, the reliable sender and
    receiver of entity commands, the host and remote world managers and the update
    manager.  It routes each call and each message by who owns the entity, turns
    acknowledged packets into acknowledged commands, and moves an entity from the
    remote to the host side when its authority is delegated.

    The diff handler [g] of the server or client and the heap of receivers are shared by
    all connections and passed along; [immutable] is [ComponentKinds::kind_is_immutable],
    [gkinds] is [GlobalWorldManagerType::component_kinds], [Instant::now()] is [now] and
    [iter_*] are the iteration orders of hash maps.  Counters for benchmarks and
    diagnostics for tests are left out. *)

From Stdlib Require Import ZArith Lia.
From stdpp Require Import base numbers option list gmap sets.
From S2P Require Import Prelude Wrapping Wire SequenceList Reliable Channels EntityTypes SyncEngine HostSync DiffMask DirtyQueue DiffHandlers UpdateManager EntityMaps LocalEntities Waitlist RemoteWorld HostWorld.
Import LocalEntityMap HostEntityGenerator GlobalEntityMap.

Section LocalWorld.
Context {W E C U F A : Type} {eqE : EqDecision E} {cE : Countable E} {eqA : EqDecision A} {cA : Countable A}.
Context {world_type : WorldMutType W E C U F} {replicate : Replicate C U F}.
Context (iter_c : gmap ComponentKind RemoteComponentChannel -> list ComponentKind).
Context (iter_e : gset RemoteEntity -> list RemoteEntity) (iter_h : gset WaitlistHandle -> list WaitlistHandle).
Context (iter_f : gmap Z WaitlistHandle -> list (Z * WaitlistHandle)).

Abbreviation Updates := (@EntityUpdateManager GlobalEntity ComponentKind A _ _ _ _).
Abbreviation Heap := (@Store A eqA cA).
Abbreviation Diffs := (@GlobalDiffHandler GlobalEntity ComponentKind _ _ _ _).
Abbreviation Host := (@HostWorldManager C).
Abbreviation RemoteSide := (@RemoteWorldManager C F).
Abbreviation CommandId := MessageIndex.

Definition COMMAND_RECORD_TTL : Z := 60000.

(** [SentCommandPackets]: by packet index, when it was sent and its commands. *)
Abbreviation SentCommandPackets := (list (Z * (Z * list (CommandId * EntityMessage OwnedLocalEntity)))).

Record LocalWorldManager := mkLocalWorld {
  entity_map : LocalEntityMap;
  lw_sender : @ReliableSender EntityCommand;
  sent_command_packets : SentCommandPackets;
  lw_receiver : ReliableReceiver (EntityMessage OwnedLocalEntity);
  lw_host : Host;
  lw_remote : RemoteSide;
  updater : Updates;
  paused_entities : gset GlobalEntity;
  incoming_components : gmap (OwnedLocalEntity * ComponentKind) C;
  incoming_updates : list (Tick * OwnedLocalEntity * U)
}.

Definition LocalWorld_new (address : option A) (host_type : HostType) (user_key : Z) (g : Diffs) (st : Heap)
  : LocalWorldManager * Heap :=
  let '(u, st') := Manager_new address g st in
  (mkLocalWorld (LocalMap_new host_type) (ReliableSender_new None) SequenceList_new ReliableReceiver_new
     (HostWorld_new host_type user_key) (RemoteWorld_new host_type) u ∅ ∅ [], st').

Definition lw_set_map (m : LocalEntityMap) (self : LocalWorldManager) : LocalWorldManager :=
  mkLocalWorld m (lw_sender self) (sent_command_packets self) (lw_receiver self) (lw_host self) (lw_remote self)
    (updater self) (paused_entities self) (incoming_components self) (incoming_updates self).
Definition lw_set_packets (p : SentCommandPackets) (self : LocalWorldManager) : LocalWorldManager :=
  mkLocalWorld (entity_map self) (lw_sender self) p (lw_receiver self) (lw_host self) (lw_remote self)
    (updater self) (paused_entities self) (incoming_components self) (incoming_updates self).
Definition lw_set_sender (s : @ReliableSender EntityCommand) (self : LocalWorldManager) : LocalWorldManager :=
  mkLocalWorld (entity_map self) s (sent_command_packets self) (lw_receiver self) (lw_host self) (lw_remote self)
    (updater self) (paused_entities self) (incoming_components self) (incoming_updates self).
Definition lw_set_host (h : Host) (self : LocalWorldManager) : LocalWorldManager :=
  mkLocalWorld (entity_map self) (lw_sender self) (sent_command_packets self) (lw_receiver self) h (lw_remote self)
    (updater self) (paused_entities self) (incoming_components self) (incoming_updates self).
Definition lw_set_remote (r : RemoteSide) (self : LocalWorldManager) : LocalWorldManager :=
  mkLocalWorld (entity_map self) (lw_sender self) (sent_command_packets self) (lw_receiver self) (lw_host self) r
    (updater self) (paused_entities self) (incoming_components self) (incoming_updates self).
Definition lw_set_updater (u : Updates) (self : LocalWorldManager) : LocalWorldManager :=
  mkLocalWorld (entity_map self) (lw_sender self) (sent_command_packets self) (lw_receiver self) (lw_host self) (lw_remote self)
    u (paused_entities self) (incoming_components self) (incoming_updates self).
Definition lw_set_paused (p : gset GlobalEntity) (self : LocalWorldManager) : LocalWorldManager :=
  mkLocalWorld (entity_map self) (lw_sender self) (sent_command_packets self) (lw_receiver self) (lw_host self) (lw_remote self)
    (updater self) p (incoming_components self) (incoming_updates self).
Definition lw_set_incoming (r : ReliableReceiver (EntityMessage OwnedLocalEntity)) (components : gmap (OwnedLocalEntity * ComponentKind) C)
  (updates : list (Tick * OwnedLocalEntity * U)) (self : LocalWorldManager) : LocalWorldManager :=
  mkLocalWorld (entity_map self) (lw_sender self) (sent_command_packets self) r (lw_host self) (lw_remote self)
    (updater self) (paused_entities self) components updates.

(** * Who owns an entity *)
Definition has_local_entity (local_entity : OwnedLocalEntity) (self : LocalWorldManager) : bool :=
  match local_entity with
  | Wire.Host id is_static => host_has_entity (mkHostEntity id is_static) (lw_host self)
  | Wire.Remote id is_static => engine_has_entity (remote_engine (lw_remote self)) (mkRemoteEntity id is_static)
  end.

Definition has_global_entity (global_entity : GlobalEntity) (self : LocalWorldManager) : bool :=
  match LocalMap_to_owned (entity_map self) global_entity with
  | Some local_entity => has_local_entity local_entity self
  | None => false
  end.

(** Running a call of the host or the remote manager against the entity map. *)
Definition on_host (command : EntityCommand) (self : LocalWorldManager) : res LocalWorldManager :=
  h ← host_send_command (entity_map self) command (lw_host self); Ok (lw_set_host h self).
Definition on_remote_auth (command : EntityCommand) (self : LocalWorldManager) : res LocalWorldManager :=
  r ← remote_send_auth_command (entity_map self) command (lw_remote self); Ok (lw_set_remote r self).
Definition on_remote_entity (command : EntityCommand) (self : LocalWorldManager) : res LocalWorldManager :=
  r ← remote_send_entity_command (entity_map self) command (lw_remote self); Ok (lw_set_remote r self).

(** * Host entities *)
(** Stale mapping: the entity is mapped but its host channel is gone. *)
Definition evict_stale_mapping (global_entity : GlobalEntity) (self : LocalWorldManager) : res LocalEntityMap :=
  host_opt ← LocalMap_to_host (entity_map self) global_entity;
  match host_opt with
  | Some existing_host_entity =>
      if host_has_entity existing_host_entity (lw_host self) then Ok (entity_map self)
      else '(_, m) ← LocalMap_remove_by_global_entity global_entity (entity_map self); Ok m
  | None => Ok (entity_map self)
  end.

Definition host_init_entity (immutable : ComponentKind -> bool) (g : Diffs) (now : Z) (global_entity : GlobalEntity)
  (component_kinds : list ComponentKind) (is_static : bool) (x : LocalWorldManager * Heap) : res (LocalWorldManager * Heap) :=
  let '(self, st) := x in
  m ← evict_stale_mapping global_entity self;
  host_opt ← LocalMap_to_host m global_entity;
  '(m, h) ← match host_opt with
            | Some _ => Ok (m, lw_host self)
            | None =>
                if is_static
                then '(host_entity, h) ← host_generate_static_entity now (lw_host self);
                     m' ← insert_with_static_host_entity global_entity host_entity m; Ok (m', h)
                else '(host_entity, h) ← host_generate_entity now (lw_host self);
                     m' ← insert_with_host_entity global_entity host_entity m; Ok (m', h)
            end;
  if is_static
  then h' ← init_static_entity_send_host_commands m global_entity component_kinds h;
       Ok (lw_set_host h' (lw_set_map m self), st)
  else '(us, h') ← init_entity_send_host_commands immutable g now m global_entity component_kinds (updater self, st) h;
       Ok (lw_set_updater us.1 (lw_set_host h' (lw_set_map m self)), us.2).

Definition LocalWorld_reserve_entity (now : Z) (global_entity : GlobalEntity) (self : LocalWorldManager)
  : res (HostEntity * LocalWorldManager) :=
  '(h, m, host) ← HostWorld_reserve_entity now global_entity (entity_map self) (lw_host self);
  Ok (h, lw_set_host host (lw_set_map m self)).

Definition LocalWorld_remove_reserved_entity (global_entity : GlobalEntity) (self : LocalWorldManager)
  : option HostEntity * LocalWorldManager :=
  let '(h, host) := host_removed_reserved_entity global_entity (lw_host self) in (h, lw_set_host host self).

Definition host_send_enable_delegation (global_entity : GlobalEntity) (self : LocalWorldManager) : res LocalWorldManager :=
  on_host (CEnableDelegation None global_entity) self.

Definition host_local_enable_delegation (host_entity : HostEntity) (self : LocalWorldManager) : res LocalWorldManager :=
  let engine := host_engine (lw_host self) in
  channel ← unwrap (hg_channels engine !! host_entity);
  Ok (lw_set_host (hw_set_engine (mkHostEngine (hg_host_type engine) (<[host_entity := local_enable_delegation channel]> (hg_channels engine))
                                    (hg_incoming engine) (hg_outgoing engine)) (lw_host self)) self).

Definition host_send_migrate_response (global_entity : GlobalEntity) (old_remote_entity : RemoteEntity) (new_host_entity : HostEntity)
  (self : LocalWorldManager) : res LocalWorldManager :=
  on_host (CMigrateResponse None global_entity old_remote_entity new_host_entity) self.

Definition host_send_set_auth (global_entity : GlobalEntity) (auth_status : EntityAuthStatus) (self : LocalWorldManager)
  : res LocalWorldManager :=
  local_entity ← unwrap (LocalMap_to_owned (entity_map self) global_entity);
  let command := CSetAuthority None global_entity auth_status in
  if owned_is_host local_entity then on_host command self else on_remote_auth command self.

(** * Packets with commands *)
Definition insert_sent_command_packet (packet_index now : Z) (self : LocalWorldManager) : res LocalWorldManager :=
  found ← contains_scan_from_back packet_index (sent_command_packets self);
  if (found : bool) then Ok self
  else packets ← insert_scan_from_back packet_index (now, []) (sent_command_packets self); Ok (lw_set_packets packets self).

Definition record_command_written (packet_index : Z) (command_id : CommandId) (message : EntityMessage OwnedLocalEntity)
  (self : LocalWorldManager) : res LocalWorldManager :=
  entry ← get_mut_scan_from_back packet_index (sent_command_packets self);
  '(i, (time, sent_actions_list)) ← unwrap entry;
  Ok (lw_set_packets (set_item i packet_index (time, sent_actions_list ++ [(command_id, message)]) (sent_command_packets self)) self).

(** [update_sent_command_entity_refs] *)
Definition redirect_message (old_entity new_entity : OwnedLocalEntity) (message : EntityMessage OwnedLocalEntity)
  : res (EntityMessage OwnedLocalEntity) :=
  match EntityMessage_entity message with
  | Some entity => if decide (entity = old_entity) then with_entity message new_entity else Ok message
  | None => Ok message
  end.

Definition redirect_commands (old_entity new_entity : OwnedLocalEntity)
  (commands : list (CommandId * EntityMessage OwnedLocalEntity)) : res (list (CommandId * EntityMessage OwnedLocalEntity)) :=
  foldM (fun x acc => m ← redirect_message old_entity new_entity x.2; Ok (acc ++ [(x.1, m)])) commands [].

Definition update_sent_command_entity_refs (old_entity new_entity : OwnedLocalEntity) (self : LocalWorldManager)
  : res LocalWorldManager :=
  packets ← foldM (fun x acc => commands ← redirect_commands old_entity new_entity x.2.2; Ok (acc ++ [(x.1, (x.2.1, commands))]))
              (sent_command_packets self) [];
  Ok (lw_set_packets packets self).

(** * Migration *)
(** [migrate_entity_remote_to_host]: [None] is the [Err] of a missing entity; the record of
    a host-owned entity has no remote entity to restore, and taking it panics. *)
Definition migrate_entity_remote_to_host (now : Z) (global_entity : GlobalEntity) (self : LocalWorldManager)
  : res (option HostEntity * LocalWorldManager) :=
  '(record_opt, m) ← LocalMap_remove_by_global_entity global_entity (entity_map self);
  match record_opt with
  | None => Ok (None, lw_set_map m self)
  | Some record =>
      if negb (is_remote_owned record) then
        remote_entity ← record_remote_entity record;
        m' ← insert_with_remote_entity global_entity remote_entity m;
        Ok (None, lw_set_map m' self)
      else
        old_remote_entity ← record_remote_entity record;
        '(new_host_entity, host) ← host_generate_entity now (lw_host self);
        m ← insert_with_host_entity global_entity new_host_entity m;
        let m := remove_remote_mapping_if_exists old_remote_entity m in
        still_remote ← LocalMap_to_remote m global_entity;
        if decide (is_Some still_remote) then Panic else
        remote ← force_drain_entity_buffers old_remote_entity (lw_remote self);
        component_kinds ← extract_component_kinds old_remote_entity remote;
        '(_, remote) ← remote_remove_entity_channel old_remote_entity remote;
        let new_host_channel := HostEntityChannel_new_with_components m.(host_type) component_kinds in
        host ← host_insert_entity_channel new_host_entity new_host_channel host;
        let old_entity := remote_copy_to_owned old_remote_entity in
        let new_entity := Wire.Host (he_id new_host_entity) false in
        let m := install_entity_redirect now old_entity new_entity m in
        self ← update_sent_command_entity_refs old_entity new_entity (lw_set_remote remote (lw_set_host host (lw_set_map m self)));
        Ok (Some new_host_entity, lw_set_remote (remote_despawn_entity old_remote_entity (lw_remote self)) self)
  end.

Definition extract_host_entity_commands (global_entity : GlobalEntity) (self : LocalWorldManager)
  : res (list EntityCommand * LocalWorldManager) :=
  host_opt ← LocalMap_to_host (entity_map self) global_entity;
  host_entity ← unwrap host_opt;
  let '(commands, host) := host_extract_entity_commands host_entity (lw_host self) in
  Ok (commands, lw_set_host host self).

Definition extract_host_component_kinds (global_entity : GlobalEntity) (self : LocalWorldManager) : res (gset ComponentKind) :=
  host_opt ← LocalMap_to_host (entity_map self) global_entity;
  host_entity ← unwrap host_opt;
  channel ← unwrap (hg_channels (host_engine (lw_host self)) !! host_entity);
  Ok (hc_components channel).

Definition remove_host_entity (global_entity : GlobalEntity) (self : LocalWorldManager) : res LocalWorldManager :=
  host_opt ← LocalMap_to_host (entity_map self) global_entity;
  host_entity ← unwrap host_opt;
  '(_, host) ← host_remove_entity_channel host_entity (lw_host self);
  '(_, m) ← LocalMap_remove_by_global_entity global_entity (entity_map self);
  Ok (lw_set_host host (lw_set_map m self)).

(** The component channels of a migrated entity; [iter_k] is the order of the hash set. *)
Definition with_inserted (iter_k : gset ComponentKind -> list ComponentKind) (component_kinds : gset ComponentKind)
  (channel : RemoteEntityChannel) : RemoteEntityChannel :=
  fold_left (fun c kind => insert_component_channel_as_inserted kind 0 c) (iter_k component_kinds) channel.

Definition insert_remote_entity (iter_k : gset ComponentKind -> list ComponentKind) (global_entity : GlobalEntity)
  (remote_entity : RemoteEntity) (component_kinds : gset ComponentKind) (self : LocalWorldManager) : res LocalWorldManager :=
  m ← insert_with_remote_entity global_entity remote_entity (entity_map self);
  let engine := remote_engine (lw_remote self) in
  match rg_channels engine !! remote_entity with
  | Some channel =>
      channel ← set_spawned 0 (configure_as_delegated channel);
      let engine := rg_set_channels (<[remote_entity := with_inserted iter_k component_kinds channel]> (rg_channels engine)) engine in
      Ok (lw_set_remote (rw_set_engine engine (lw_remote self)) (lw_set_map m self))
  | None =>
      channel ← set_spawned 0 (RemoteEntityChannel_new_delegated m.(host_type));
      remote ← remote_insert_entity_channel remote_entity (with_inserted iter_k component_kinds channel) (lw_remote self);
      Ok (lw_set_remote remote (lw_set_map m self))
  end.

Definition LocalWorld_install_redirect (now : Z) (old new : OwnedLocalEntity) (self : LocalWorldManager) : LocalWorldManager :=
  lw_set_map (install_entity_redirect now old new (entity_map self)) self.

Definition replay_entity_command (global_entity : GlobalEntity) (command : EntityCommand) (self : LocalWorldManager)
  : res LocalWorldManager :=
  remote_opt ← LocalMap_to_remote (entity_map self) global_entity;
  _ ← unwrap remote_opt;
  on_remote_entity command self.

(** * Remote entities *)
Definition send_enable_delegation_response (global_entity : GlobalEntity) (self : LocalWorldManager) : res LocalWorldManager :=
  on_remote_auth (CEnableDelegationResponse None global_entity) self.

Definition remote_send_request_auth (global_entity : GlobalEntity) (self : LocalWorldManager) : res LocalWorldManager :=
  on_remote_auth (CRequestAuthority None global_entity) self.

Definition remote_receive_set_auth (global_entity : GlobalEntity) (auth_status : EntityAuthStatus) (self : LocalWorldManager)
  : res LocalWorldManager :=
  remote_opt ← LocalMap_to_remote (entity_map self) global_entity;
  remote_entity ← unwrap remote_opt;
  Ok (lw_set_remote (remote_receive_set_auth_status remote_entity auth_status (lw_remote self)) self).

(** [remote_spawn_entity] and [remote_despawn_entity] *)
Definition LocalWorld_remote_spawn_entity (now : Z) (global_entity : GlobalEntity) (self : LocalWorldManager) : res LocalWorldManager :=
  remote_opt ← LocalMap_to_remote (entity_map self) global_entity;
  remote_entity ← unwrap remote_opt;
  remote ← remote_spawn_entity iter_e now remote_entity (lw_remote self);
  Ok (lw_set_remote remote self).

Definition LocalWorld_remote_despawn_entity (global_entity : GlobalEntity) (self : LocalWorldManager) : res LocalWorldManager :=
  remote_opt ← LocalMap_to_remote (entity_map self) global_entity;
  remote_entity ← unwrap remote_opt;
  Ok (lw_set_remote (remote_despawn_entity remote_entity (lw_remote self)) self).

Definition register_authed_entity (gkinds : GlobalEntity -> option (list ComponentKind)) (g : Diffs) (now : Z)
  (global_entity : GlobalEntity) (x : LocalWorldManager * Heap) : res (LocalWorldManager * Heap) :=
  let '(self, st) := x in
  remote_opt ← LocalMap_to_remote (entity_map self) global_entity;
  let self := match remote_opt with
              | Some remote_entity => lw_set_remote (remote_register_authed_entity remote_entity (lw_remote self)) self
              | None => self
              end in
  us ← foldM (fun kind us => UpdateManager.register_component g now global_entity kind us.1 us.2)
         (default [] (gkinds global_entity)) (updater self, st);
  Ok (lw_set_updater us.1 self, us.2).

Definition deregister_authed_entity (gkinds : GlobalEntity -> option (list ComponentKind)) (g : Diffs) (now : Z)
  (global_entity : GlobalEntity) (x : LocalWorldManager * Heap) : res (LocalWorldManager * Heap) :=
  let '(self, st) := x in
  remote_opt ← LocalMap_to_remote (entity_map self) global_entity;
  let self := match remote_opt with
              | Some remote_entity => lw_set_remote (remote_deregister_authed_entity remote_entity (lw_remote self)) self
              | None => self
              end in
  let us := fold_left (fun us kind => UpdateManager.deregister_component g now global_entity kind us.1 us.2)
              (default [] (gkinds global_entity)) (updater self, st) in
  Ok (lw_set_updater us.1 self, us.2).

(** * Receiving *)
Definition receiver_buffer_message (id : MessageIndex) (msg : EntityMessage OwnedLocalEntity) (self : LocalWorldManager)
  : res LocalWorldManager :=
  r ← ReliableReceiver_buffer_message id msg (lw_receiver self);
  Ok (lw_set_incoming r (incoming_components self) (incoming_updates self) self).

Definition insert_received_component (local_entity : OwnedLocalEntity) (kind : ComponentKind) (component : C)
  (self : LocalWorldManager) : LocalWorldManager :=
  lw_set_incoming (lw_receiver self) (<[(local_entity, kind) := component]> (incoming_components self)) (incoming_updates self) self.

Definition insert_received_update (tick : Tick) (local_entity : OwnedLocalEntity) (component_update : U)
  (self : LocalWorldManager) : LocalWorldManager :=
  lw_set_incoming (lw_receiver self) (incoming_components self) (incoming_updates self ++ [(tick, local_entity, component_update)]) self.

(** One message of the loop that sorts messages by owner. *)
Definition route_message (x : MessageIndex * EntityMessage OwnedLocalEntity)
  (acc : list (MessageIndex * EntityMessage HostEntity) * list (MessageIndex * EntityMessage RemoteEntity))
  : res (list (MessageIndex * EntityMessage HostEntity) * list (MessageIndex * EntityMessage RemoteEntity)) :=
  let '(id, incoming_message) := x in
  if decide (get_type incoming_message = TNoop) then Ok acc else
  local_entity ← unwrap (EntityMessage_entity incoming_message);
  match local_entity with
  | Wire.Host host_entity is_static =>
      m ← with_entity incoming_message (mkHostEntity host_entity is_static); Ok (acc.1 ++ [(id, m)], acc.2)
  | Wire.Remote remote_entity is_static =>
      m ← with_entity incoming_message (mkRemoteEntity remote_entity is_static); Ok (acc.1, acc.2 ++ [(id, m)])
  end.

Definition LocalWorld_take_incoming_events (gkinds : GlobalEntity -> option (list ComponentKind)) (now : Z)
  (spawner : GlobalEntityMap E) (world : W) (self : LocalWorldManager)
  : res (list (EntityEvent C) * GlobalEntityMap E * W * LocalWorldManager) :=
  let '(incoming_messages, receiver) := ReliableReceiver_receive_messages (lw_receiver self) in
  '(host_messages, remote_messages) ← foldM route_message incoming_messages ([], []);
  '(host_events, host) ← HostWorld_take_incoming_events (entity_map self) host_messages (lw_host self);
  '(remote_events, b) ← RemoteWorld_take_incoming_events iter_c iter_e iter_h iter_f gkinds now (incoming_updates self) remote_messages
                          (mkBatch (lw_remote self) spawner (entity_map self) world (incoming_components self));
  Ok (host_events ++ remote_events, b_spawner b, b_world b,
      lw_set_incoming receiver (b_components b) []
        (lw_set_remote (b_self b) (lw_set_host host (lw_set_map (b_map b) self)))).

(** * Routing by owner *)
Definition LocalWorld_despawn_entity (global_entity : GlobalEntity) (self : LocalWorldManager) : res LocalWorldManager :=
  let self := lw_set_paused (paused_entities self ∖ {[global_entity]}) self in
  local_entity ← unwrap (LocalMap_to_owned (entity_map self) global_entity);
  if owned_is_host local_entity then on_host (CDespawn global_entity) self else on_remote_entity (CDespawn global_entity) self.

Definition pause_entity (global_entity : GlobalEntity) (self : LocalWorldManager) : LocalWorldManager :=
  lw_set_paused ({[global_entity]} ∪ paused_entities self) self.
Definition resume_entity (global_entity : GlobalEntity) (self : LocalWorldManager) : LocalWorldManager :=
  lw_set_paused (paused_entities self ∖ {[global_entity]}) self.
Definition is_entity_paused (global_entity : GlobalEntity) (self : LocalWorldManager) : bool :=
  bool_decide (global_entity ∈ paused_entities self).

Definition LocalWorld_insert_component (g : Diffs) (now : Z) (global_entity : GlobalEntity) (kind : ComponentKind)
  (x : LocalWorldManager * Heap) : res (LocalWorldManager * Heap) :=
  let '(self, st) := x in
  local_entity ← unwrap (LocalMap_to_owned (entity_map self) global_entity);
  if owned_is_host local_entity then
    '(u, st') ← UpdateManager.register_component g now global_entity kind (updater self) st;
    self ← on_host (CInsertComponent global_entity kind) (lw_set_updater u self);
    Ok (self, st')
  else self ← on_remote_entity (CInsertComponent global_entity kind) self; Ok (self, st).

Definition LocalWorld_remove_component (global_entity : GlobalEntity) (kind : ComponentKind) (self : LocalWorldManager)
  : res LocalWorldManager :=
  local_entity ← unwrap (LocalMap_to_owned (entity_map self) global_entity);
  if owned_is_host local_entity then on_host (CRemoveComponent global_entity kind) self
  else on_remote_entity (CRemoveComponent global_entity kind) self.

(** The table of [send_publish] and [send_unpublish]: who may publish which entity. *)
Definition publisher_owns (host_type : HostType) (is_host : bool) : res bool :=
  match host_type, is_host with
  | Server, true | Client, false => Panic
  | Server, false => Ok false
  | Client, true => Ok true
  end.

Definition send_publish (host_type : HostType) (global_entity : GlobalEntity) (self : LocalWorldManager) : res LocalWorldManager :=
  local_entity ← unwrap (LocalMap_to_owned (entity_map self) global_entity);
  host_owned ← publisher_owns host_type (owned_is_host local_entity);
  let command := CPublish None global_entity in
  if (host_owned : bool) then on_host command self else on_remote_auth command self.

Definition send_unpublish (host_type : HostType) (global_entity : GlobalEntity) (self : LocalWorldManager) : res LocalWorldManager :=
  local_entity ← unwrap (LocalMap_to_owned (entity_map self) global_entity);
  host_owned ← publisher_owns host_type (owned_is_host local_entity);
  let command := CUnpublish None global_entity in
  if (host_owned : bool) then on_host command self else on_remote_auth command self.

Definition delegator_owns (host_type : HostType) (is_host origin_is_owning_client : bool) : res bool :=
  match host_type, is_host, origin_is_owning_client with
  | Server, false, true | Client, _, false | Client, false, true => Panic
  | Server, true, true | Server, true, false | Client, true, true => Ok true
  | Server, false, false => Ok false
  end.

Definition send_enable_delegation (host_type : HostType) (origin_is_owning_client : bool) (global_entity : GlobalEntity)
  (self : LocalWorldManager) : res LocalWorldManager :=
  local_entity ← unwrap (LocalMap_to_owned (entity_map self) global_entity);
  host_owned ← delegator_owns host_type (owned_is_host local_entity) origin_is_owning_client;
  if (host_owned : bool) then
    host_opt ← LocalMap_to_host (entity_map self) global_entity;
    host_entity ← unwrap host_opt;
    let is_published := match hg_channels (host_engine (lw_host self)) !! host_entity with
                        | Some channel => bool_decide (ac_state (hc_auth channel) = Published \/ ac_state (hc_auth channel) = Delegated)
                        | None => false
                        end in
    self ← (if is_published then Ok self else on_host (CPublish None global_entity) self);
    on_host (CEnableDelegation None global_entity) self
  else on_remote_auth (CEnableDelegation None global_entity) self.

Definition send_disable_delegation (global_entity : GlobalEntity) (self : LocalWorldManager) : res LocalWorldManager :=
  on_host (CDisableDelegation None global_entity) self.

Definition remote_send_release_auth (global_entity : GlobalEntity) (self : LocalWorldManager) : res LocalWorldManager :=
  local_entity ← unwrap (LocalMap_to_owned (entity_map self) global_entity);
  let command := CReleaseAuthority None global_entity in
  if owned_is_host local_entity then on_host command self else on_remote_auth command self.

(** * The tick *)
Fixpoint drop_old_packets (now : Z) (packets : SentCommandPackets) : SentCommandPackets :=
  match packets with
  | (_, (time_sent, _)) :: rest => if COMMAND_RECORD_TTL <? elapsed time_sent now then drop_old_packets now rest else packets
  | [] => []
  end.

Definition handle_dropped_command_packets (now : Z) (self : LocalWorldManager) : LocalWorldManager :=
  lw_set_map (cleanup_old_redirects now 60 (entity_map self)) (lw_set_packets (drop_old_packets now (sent_command_packets self)) self).

Definition LocalWorld_collect_messages iter_m iter_p (now drop_duration : Z) (x : LocalWorldManager * Heap) : res (LocalWorldManager * Heap) :=
  let self := handle_dropped_command_packets now x.1 in
  '(u, st) ← handle_dropped_update_packets iter_m iter_p now drop_duration (updater self) x.2;
  Ok (lw_set_updater u self, st).

(** Whether a dirty component may be sent: its entity is not paused and one of the
    managers holds it updatable. *)
Definition is_updatable (self : LocalWorldManager) (global_entity : GlobalEntity) (kind : ComponentKind) : res bool :=
  h ← host_is_component_updatable (entity_map self) global_entity kind (lw_host self);
  if (h : bool) then Ok true else remote_is_component_updatable (entity_map self) global_entity kind (lw_remote self).

Definition add_updatable (self : LocalWorldManager) (entry : GlobalEntity * gset ComponentKind)
  (out : gmap GlobalEntity (gset ComponentKind)) : res (gmap GlobalEntity (gset ComponentKind)) :=
  if decide (entry.1 ∈ paused_entities self) then Ok out else
  foldM (fun kind out =>
           b ← is_updatable self entry.1 kind;
           Ok (if (b : bool) then <[entry.1 := {[kind]} ∪ default ∅ (out !! entry.1)]> out else out))
    (elements entry.2) out.

Definition take_update_events {X} (replicating : GlobalEntity -> bool) (to_world : GlobalEntity -> option X) (has_entity : X -> bool)
  (has_component_of_kind : X -> ComponentKind -> bool) (x : LocalWorldManager * Heap)
  : res (gmap GlobalEntity (gset ComponentKind) * Heap) :=
  let '(self, st) := x in
  '(dirty, st) ← build_dirty_candidates_from_receivers (updater self) st;
  updatable_world ← foldM (add_updatable self) (map_to_list dirty) ∅;
  events ← take_outgoing_events replicating to_world has_entity has_component_of_kind (updater self) st updatable_world;
  Ok (events, st).

(** [resend_duration] is one and a half round trips. *)
Definition LocalWorld_take_outgoing_events {X} (replicating : GlobalEntity -> bool) (to_world : GlobalEntity -> option X) (has_entity : X -> bool)
  (has_component_of_kind : X -> ComponentKind -> bool) (now resend_duration : Z) (x : LocalWorldManager * Heap)
  : res (list (CommandId * EntityCommand) * gmap GlobalEntity (gset ComponentKind) * (LocalWorldManager * Heap)) :=
  let '(self, st) := x in
  let '(host_commands, host) := host_take_outgoing_commands (lw_host self) in
  let '(remote_commands, remote) := remote_take_outgoing_commands (lw_remote self) in
  let sender := fold_left (fun s command => (ReliableSender_send_message command s).2) (host_commands ++ remote_commands) (lw_sender self) in
  let '(world_commands, sender) := ReliableSender_take_next_messages (ReliableSender_collect_messages now resend_duration sender) in
  let self := lw_set_sender sender (lw_set_remote remote (lw_set_host host self)) in
  '(update_events, st) ← take_update_events replicating to_world has_entity has_component_of_kind (self, st);
  Ok (world_commands, update_events, (self, st)).

Definition LocalWorld_process_delivered_commands (g : Diffs) (now : Z) (x : LocalWorldManager * Heap) : res (LocalWorldManager * Heap) :=
  let '(self, st) := x in
  '(host, m, us) ← host_process_delivered_commands iter_c g now (lw_host self, entity_map self, (updater self, st));
  Ok (lw_set_updater us.1 (lw_set_map m (lw_set_host host self)), us.2).

Definition deliver_message (id : CommandId) (msg : EntityMessage OwnedLocalEntity) (self : LocalWorldManager) : res LocalWorldManager :=
  if decide (msg = Noop) then Ok self else
  local_entity ← unwrap (EntityMessage_entity msg);
  match local_entity with
  | Wire.Host host_entity is_static =>
      m ← with_entity msg (mkHostEntity host_entity is_static);
      h ← host_deliver_message id m (lw_host self); Ok (lw_set_host h self)
  | Wire.Remote _ _ => Ok self
  end.

Definition deliver_command (x : CommandId * EntityMessage OwnedLocalEntity) (self : LocalWorldManager) : res LocalWorldManager :=
  let '(o, sender) := ReliableSender_deliver_message x.1 (lw_sender self) in
  let self := lw_set_sender sender self in
  match o with Some _ => deliver_message x.1 x.2 self | None => Ok self end.

Definition host_notify_packet_delivered (packet_index : Z) (self : LocalWorldManager) : res LocalWorldManager :=
  match remove_scan_from_front packet_index (sent_command_packets self) with
  | Some ((_, command_list), packets) => foldM deliver_command command_list (lw_set_packets packets self)
  | None => Ok self
  end.

Definition LocalWorld_notify_packet_delivered (packet_index : Z) (self : LocalWorldManager) : res LocalWorldManager :=
  self ← host_notify_packet_delivered packet_index self;
  Ok (lw_set_updater (Updates_notify_packet_delivered packet_index (updater self)) self).
End LocalWorld.
