(* ===== verification/LocalWorldFacts.v ===== *)
(** What a connection's [LocalWorldManager] guarantees: which updates a tick sends,
    what a migration moves and leaves behind, and that an acknowledgement that comes
    late for an entity's old host id does not touch its new one. *)

From Stdlib Require Import ZArith Lia.
From stdpp Require Import base numbers option list gmap sets.
From S2P Require Import Prelude Wrapping Wire SequenceList Reliable Channels EntityTypes SyncEngine HostSync DiffMask DirtyQueue DiffHandlers UpdateManager EntityMaps LocalEntities Waitlist RemoteWorld HostWorld LocalWorld.
Import LocalEntityMap HostEntityGenerator GlobalEntityMap LocalMapFacts HostIds.

Section Facts.
Context {C U F A : Type} {eqA : EqDecision A} {cA : Countable A}.

Abbreviation manager := (@LocalWorldManager C U F A).
Abbreviation Updates := (@EntityUpdateManager GlobalEntity ComponentKind A _ _ _ _).
Abbreviation Heap := (@Store A eqA cA).
Abbreviation Diffs := (@GlobalDiffHandler GlobalEntity ComponentKind _ _ _ _).

(** * Updates of a tick *)
(** What the two managers answer, as one predicate: the host side has the component and
    has seen it acknowledged, or the remote side is authorised and has a channel for it. *)
Definition updatable (self : manager) (ge : GlobalEntity) (kind : ComponentKind) : bool :=
  match is_updatable self ge kind with Ok b => b | _ => false end.

Lemma is_updatable_ok self ge kind : is_updatable self ge kind = Ok (updatable self ge kind).
Proof.
  unfold updatable. enough (is_ok (is_updatable self ge kind) = true) as H by (now destruct (is_updatable self ge kind)).
  unfold is_updatable, host_is_component_updatable, remote_is_component_updatable.
  rewrite to_host_of, to_remote_of. cbn [mbind res_bind].
  assert (forall h : option HostEntity, exists b, match h with
    | None => Ok false
    | Some host_entity =>
      match hg_channels (host_engine (lw_host self)) !! host_entity with
      | None => Ok false
      | Some host_channel =>
          if decide (kind ∉ hc_components host_channel) then Ok false
          else match rg_channels (delivered_engine (lw_host self)) !! host_entity with
               | None => Ok false
               | Some delivered_channel => Ok (bool_decide (is_Some (re_components delivered_channel !! kind)))
               end
      end
    end = Ok b) as Hh by (intros h; repeat case_match; eauto).
  destruct (Hh (host_of (entity_map self) ge)) as (b & ->). cbn [mbind res_bind]. repeat case_match; reflexivity.
Qed.

Lemma add_updatable_ok self ge (kinds : gset ComponentKind) out :
  exists out', add_updatable self (ge, kinds) out = Ok out' /\
    forall e k, (exists ks, out' !! e = Some ks /\ k ∈ ks) <->
      (exists ks, out !! e = Some ks /\ k ∈ ks) \/
      (e = ge /\ k ∈ kinds /\ (ge ∉ paused_entities self) /\ updatable self ge k = true).
Proof.
  unfold add_updatable. cbn [fst snd]. destruct (decide (ge ∈ paused_entities self)) as [Hp|Hp].
  { exists out. split; [reflexivity|]. intros e k. tauto. }
  assert (forall l (out : gmap GlobalEntity (gset ComponentKind)), exists out', foldM (fun kind out => b ← is_updatable self ge kind;
      Ok (if (b : bool) then <[ge := {[kind]} ∪ default ∅ (out !! ge)]> out else out)) l out = Ok out' /\
      forall e k, (exists ks, out' !! e = Some ks /\ k ∈ ks) <-> (exists ks, out !! e = Some ks /\ k ∈ ks) \/ (e = ge /\ k ∈ l /\ updatable self ge k = true)) as Hl.
  { induction l as [|kind l IH]; intros out0; cbn [foldM].
    - exists out0. split; [reflexivity|]. intros e k. rewrite elem_of_nil. tauto.
    - rewrite is_updatable_ok. cbn [mbind res_bind]. destruct (updatable self ge kind) eqn:Hu.
      + destruct (IH (<[ge := {[kind]} ∪ default ∅ (out0 !! ge)]> out0)) as (out' & Ho & Hlook). exists out'. split; [exact Ho|].
        intros e k. rewrite Hlook, elem_of_cons. destruct (decide (e = ge)) as [->|Hne].
        * rewrite lookup_insert_eq. split.
          -- intros [(ks & [= <-] & Hin)|H]; [|tauto]. apply elem_of_union in Hin as [->%elem_of_singleton|Hin]; [tauto|].
             left. destruct (out0 !! ge) as [ks|]; [eauto|]. now apply not_elem_of_empty in Hin.
          -- intros [(ks & Hks & Hin)|(_ & [->|Hin] & Huk)]; [left..|tauto]; (eexists; split; [reflexivity|]); apply elem_of_union.
             ++ right. now rewrite Hks.
             ++ left. now apply elem_of_singleton.
        * rewrite lookup_insert_ne by congruence. tauto.
      + destruct (IH out0) as (out' & Ho & Hlook). exists out'. split; [exact Ho|]. intros e k. rewrite Hlook, elem_of_cons. split.
        * tauto.
        * intros [H|(He & [->|Hin] & Huk)]; [tauto|congruence|tauto]. }
  destruct (Hl (elements kinds) out) as (out' & Ho & Hlook). exists out'. split; [exact Ho|].
  intros e k. rewrite Hlook, elem_of_elements. tauto.
Qed.

Lemma updatable_world_ok self (l : list (GlobalEntity * gset ComponentKind)) out :
  exists out', foldM (add_updatable self) l out = Ok out' /\
    forall e k, (exists ks, out' !! e = Some ks /\ k ∈ ks) <->
      (exists ks, out !! e = Some ks /\ k ∈ ks) \/
      ((exists kinds, (e, kinds) ∈ l /\ k ∈ kinds) /\ (e ∉ paused_entities self) /\ updatable self e k = true).
Proof.
  revert out. induction l as [|[ge kinds] l IH]; intros out; cbn [foldM].
  - exists out. split; [reflexivity|]. intros e k. split; [tauto|]. intros [H|((ks & Hin & _) & _)]; [exact H|]. now apply elem_of_nil in Hin.
  - destruct (add_updatable_ok self ge kinds out) as (out1 & -> & H1). cbn [mbind res_bind].
    destruct (IH out1) as (out' & Ho & H2). exists out'. split; [exact Ho|]. intros e k. rewrite H2, H1. split.
    + intros [[H|(-> & Hin & Hp & Hu)]|((ks & Hin & Hk) & Hp & Hu)]; [now left|right..]; split; eauto.
      * exists kinds. split; [now left|exact Hin].
      * exists ks. split; [now right|exact Hk].
    + intros [H|((ks & [Heq|Hin]%elem_of_cons & Hk) & Hp & Hu)]; [now left; left| |].
      * injection Heq as -> ->. left. right. auto.
      * right. split; [|auto]. eauto.
Qed.

(** * Redirected commands *)
(** The command [y] is [x] with the reference to [old] replaced. *)
Definition redirected (old new : OwnedLocalEntity) (x y : MessageIndex * EntityMessage OwnedLocalEntity) : Prop :=
  y.1 = x.1 /\
  if decide (EntityMessage_entity x.2 = Some old) then with_entity x.2 new = Ok y.2 else y.2 = x.2.

Definition packet_redirected (old new : OwnedLocalEntity)
  (x y : Z * (Z * list (MessageIndex * EntityMessage OwnedLocalEntity))) : Prop :=
  y.1 = x.1 /\ y.2.1 = x.2.1 /\ Forall2 (redirected old new) x.2.2 y.2.2.

Lemma with_entity_total {X Y} (m : EntityMessage X) (y : Y) : EntityMessage_entity m <> None ->
  exists m', with_entity m y = Ok m' /\ EntityMessage_entity m' = Some y.
Proof. destruct m; cbn; intros H; eauto; congruence. Qed.

Lemma redirect_message_ok old new (x : MessageIndex * EntityMessage OwnedLocalEntity) :
  exists m, redirect_message old new x.2 = Ok m /\ redirected old new x (x.1, m) /\
    (old <> new -> EntityMessage_entity m <> Some old).
Proof.
  unfold redirect_message, redirected. cbn [fst snd]. destruct (EntityMessage_entity x.2) as [e|] eqn:He.
  - destruct (decide (e = old)) as [->|Hne].
    + destruct (with_entity_total x.2 new) as (m & Hm & Hn); [congruence|]. exists m. rewrite decide_True by reflexivity.
      split_and!; auto. rewrite Hn. congruence.
    + exists x.2. rewrite decide_False by congruence. split_and!; auto. congruence.
  - exists x.2. rewrite decide_False by congruence. split_and!; auto. congruence.
Qed.

(** A loop that maps a list in order. *)
Lemma foldM_forall2 {X Y V} (f : X -> res V) (g : X -> V -> Y) (R : X -> Y -> Prop) l :
  (forall x, x ∈ l -> exists v, f x = Ok v /\ R x (g x v)) ->
  exists l', foldM (fun x acc => v ← f x; Ok (acc ++ [g x v])) l [] = Ok l' /\ Forall2 R l l'.
Proof.
  intros Hf. enough (forall acc, exists l', foldM (fun x acc => v ← f x; Ok (acc ++ [g x v])) l acc = Ok (acc ++ l') /\ Forall2 R l l') as H
    by (destruct (H []) as (l' & -> & HR); eauto).
  induction l as [|x l IH]; intros acc; [exists []; cbn; rewrite app_nil_r; auto|].
  destruct (Hf x) as (y & Hy & HR); [now left|]. cbn [foldM]. rewrite Hy. cbn [mbind res_bind].
  destruct (IH (fun x Hx => Hf x (list_elem_of_further _ _ _ Hx)) (acc ++ [g x y])) as (l' & -> & HF). exists (g x y :: l').
  rewrite <- app_assoc. split; [reflexivity|now constructor].
Qed.

Lemma redirect_commands_ok old new commands : old <> new ->
  exists commands', redirect_commands old new commands = Ok commands' /\ Forall2 (redirected old new) commands commands' /\
    forall i m, (i, m) ∈ commands' -> EntityMessage_entity m <> Some old.
Proof.
  intros Hne. unfold redirect_commands.
  destruct (foldM_forall2 (fun x : MessageIndex * EntityMessage OwnedLocalEntity => redirect_message old new x.2) (fun x m => (x.1, m))
    (fun x y => redirected old new x y /\ EntityMessage_entity y.2 <> Some old) commands) as (commands' & Hc & HF).
  { intros y _. destruct (redirect_message_ok old new y) as (m & -> & HR & Hn). exists m. cbn. auto. }
  exists commands'. split_and!; [exact Hc|eapply Forall2_impl; [exact HF|]; now intros ? ? []|].
  intros i m Hin. apply list_elem_of_lookup in Hin as (n & Hn). destruct (Forall2_lookup_r _ _ _ _ _ HF Hn) as (z & _ & _ & Hz). exact Hz.
Qed.

Lemma update_refs_ok old new (self : manager) : old <> new ->
  exists packets, update_sent_command_entity_refs old new self = Ok (lw_set_packets packets self) /\
    Forall2 (packet_redirected old new) (sent_command_packets self) packets /\
    forall p t commands i m, (p, (t, commands)) ∈ packets -> (i, m) ∈ commands -> EntityMessage_entity m <> Some old.
Proof.
  intros Hne. unfold update_sent_command_entity_refs.
  destruct (foldM_forall2 (fun x : Z * (Z * list (MessageIndex * EntityMessage OwnedLocalEntity)) => redirect_commands old new x.2.2)
    (fun x c => (x.1, (x.2.1, c))) (fun x y => packet_redirected old new x y /\ forall i m, (i, m) ∈ y.2.2 -> EntityMessage_entity m <> Some old)
    (sent_command_packets self)) as (packets & Hp & HF).
  { intros x _. destruct (redirect_commands_ok old new x.2.2 Hne) as (c & -> & HR & Hn). exists c. split; [reflexivity|].
    split; [now split_and!|exact Hn]. }
  exists packets. rewrite Hp. split_and!; [reflexivity|eapply Forall2_impl; [exact HF|]; now intros ? ? []|].
  intros p t commands i m Hin Him. apply list_elem_of_lookup in Hin as (n & Hn).
  destruct (Forall2_lookup_r _ _ _ _ _ HF Hn) as (z & _ & _ & Hz). now apply (Hz i m).
Qed.

(** * Migration *)
(** The entity map of a migrated entity. *)
Definition migrated_map (now : Z) (ge : GlobalEntity) (r : RemoteEntity) (h : HostEntity) (m : LocalEntityMap) : LocalEntityMap :=
  install_entity_redirect now (remote_copy_to_owned r) (host_copy_to_owned h)
    (with_host {| record_entity := host_copy_to_owned h |} ge h (dropped ge m)).

Lemma remote_of_record m ge r : remote_of m ge = Some r -> m.(global_to_local) !! ge = Some {| record_entity := remote_copy_to_owned r |}.
Proof. unfold remote_of. destruct (_ !! ge) as [[[id s|id s]]|]; intros [= <-]. reflexivity. Qed.

Lemma migrated_map_ok now ge r h m : local_map_ok m -> remote_of m ge = Some r -> m.(host_to_global) !! h = None ->
  local_map_ok (migrated_map now ge r h m) /\ host_of (migrated_map now ge r h m) ge = Some h /\
  (forall ge', ge' <> ge -> LocalMap_to_owned (migrated_map now ge r h m) ge' = LocalMap_to_owned m ge').
Proof.
  intros Hm Hr Hh.
  assert (host_of m ge = None) as Hn by (unfold host_of; apply remote_of_record in Hr; now rewrite Hr).
  assert (local_map_ok (with_host {| record_entity := host_copy_to_owned h |} ge h (dropped ge m))) as Hok.
  { apply with_host_ok; [now apply dropped_ok|apply lookup_delete_eq|]. cbn. now rewrite Hn. }
  split_and!.
  - exact Hok.
  - unfold host_of. cbn. rewrite lookup_insert_eq. now destruct h.
  - intros ge' Hne. unfold LocalMap_to_owned. cbn. now rewrite lookup_insert_ne, lookup_delete_ne by congruence.
Qed.

(** Step by step: the entity map, the remote side, the host side, the packets. *)
Lemma migrate_ok now ge r c h gen (self : manager) :
  let m := entity_map self in
  local_map_ok m -> remote_of m ge = Some r -> rg_channels (remote_engine (lw_remote self)) !! r = Some c ->
  generate_host_entity now (entity_generator (lw_host self)) = Ok (h, gen) ->
  m.(host_to_global) !! h = None -> hg_channels (host_engine (lw_host self)) !! h = None ->
  exists self', migrate_entity_remote_to_host now ge self = Ok (Some h, self') /\
    entity_map self' = migrated_map now ge r h m /\
    hg_channels (host_engine (lw_host self')) =
      <[h := HostEntityChannel_new_with_components m.(host_type) (extract_inserted_component_kinds (force_drain_all_buffers c))]>
        (hg_channels (host_engine (lw_host self))) /\
    rg_channels (remote_engine (lw_remote self')) = delete r (rg_channels (remote_engine (lw_remote self))) /\
    Forall2 (packet_redirected (remote_copy_to_owned r) (host_copy_to_owned h)) (sent_command_packets self) (sent_command_packets self') /\
    (forall p t commands i msg, (p, (t, commands)) ∈ sent_command_packets self' -> (i, msg) ∈ commands ->
       EntityMessage_entity msg <> Some (remote_copy_to_owned r)).
Proof.
  intros m Hm Hr Hc Hgen Hh Hch. unfold m in *. clear m. pose proof (remote_of_record _ _ _ Hr) as Hrec.
  unfold migrate_entity_remote_to_host. rewrite remove_global_eq, Hrec. cbn [mbind res_bind is_remote_owned record_entity owned_is_host negb remote_copy_to_owned record_remote_entity owned_remote].
  unfold host_generate_entity. rewrite Hgen. cbn [mbind res_bind].
  assert (he_static h = false) as Hs.
  { unfold generate_host_entity in Hgen. destruct (KeyGenerator_generate _ _) as [[k g']| | |]; try discriminate. now injection Hgen as <- _. }
  destruct (insert_host_ok ge h (dropped ge (entity_map self))) as (m1 & -> & Hok1 & ->);
    [now apply dropped_ok|apply lookup_delete_eq| |exact Hs|].
  { cbn. assert (host_of (entity_map self) ge = None) as -> by (unfold host_of; now rewrite Hrec). exact Hh. }
  cbn [mbind res_bind]. set (m1 := with_host _ ge h (dropped ge (entity_map self))).
  assert (remove_remote_mapping_if_exists {| re_id := re_id r; re_static := re_static r |} m1 = m1) as Hdel.
  { unfold remove_remote_mapping_if_exists, with_locals, m1, with_host, dropped. cbn. rewrite Hr. destruct r. cbn. now rewrite delete_delete_eq. }
  rewrite Hdel, to_remote_of. cbn [mbind res_bind].
  rewrite decide_False by (unfold remote_of, m1; cbn; rewrite lookup_insert_eq; now intros [? [=]]).
  replace {| re_id := re_id r; re_static := re_static r |} with r by now destruct r.
  unfold force_drain_entity_buffers, extract_component_kinds, remote_remove_entity_channel, RemoteEngine_remove_entity_channel, host_insert_entity_channel, HostEngine_insert_entity_channel.
  rewrite Hc. cbn [unwrap mbind res_bind remote_engine rw_set_engine rg_set_channels rg_channels].
  rewrite lookup_insert_eq. cbn [unwrap mbind res_bind hw_set_generator host_engine]. rewrite Hch. cbn [mbind res_bind].
  rewrite <- Hs. fold (host_copy_to_owned h). fold (remote_copy_to_owned r).
  edestruct (update_refs_ok (remote_copy_to_owned r) (host_copy_to_owned h)) as (packets & Hp & HF & Hno); [discriminate|].
  rewrite Hp. cbn [mbind res_bind]. eexists. split; [reflexivity|]. split_and!.
  - reflexivity.
  - cbn. unfold m1. reflexivity.
  - cbn. now rewrite delete_insert_eq.
  - exact HF.
  - exact Hno.
Qed.

(** * Entering scope again *)
Lemma spawn_command_ok m ge h kinds (host : @HostWorldManager C) : host_of m ge = Some h -> hg_channels (host_engine host) !! h = None ->
  exists host', host_send_command m (spawn_command ge kinds) host = Ok host' /\
    hg_channels (host_engine host') = <[h := HostEntityChannel_new_with_components (hg_host_type (host_engine host)) (list_to_set kinds)]>
                                        (hg_channels (host_engine host)) /\
    entity_generator host' = entity_generator host /\ hg_outgoing (host_engine host') = hg_outgoing (host_engine host) ++ [spawn_command ge kinds].
Proof.
  intros Hh Hn. unfold host_send_command.
  assert (EntityCommand_entity (spawn_command ge kinds) = ge) as -> by (now destruct kinds).
  rewrite to_host_of, Hh. cbn [mbind res_bind]. unfold HostEngine_send_command.
  destruct kinds as [|k kinds]; cbn [spawn_command unwrap mbind res_bind]; rewrite Hn; (eexists; split; [reflexivity|]); now split_and!.
Qed.

(** The mapping left by a despawn that was sent is replaced by a new id. *)
Lemma init_again_ok immutable g now ge kinds old new gen us (self : manager) (st : Heap) :
  let m := entity_map self in
  local_map_ok m -> host_of m ge = Some old -> hg_channels (host_engine (lw_host self)) !! old = None ->
  generate_host_entity now (entity_generator (lw_host self)) = Ok (new, gen) ->
  m.(host_to_global) !! new = None -> hg_channels (host_engine (lw_host self)) !! new = None ->
  foldM (register_mutable immutable g now ge) kinds (updater self, st) = Ok us ->
  exists self', host_init_entity immutable g now ge kinds false (self, st) = Ok (self', us.2) /\
    entity_map self' = with_host {| record_entity := host_copy_to_owned new |} ge new (dropped ge m) /\
    local_map_ok (entity_map self') /\ updater self' = us.1 /\
    hg_channels (host_engine (lw_host self')) !! new =
      Some (HostEntityChannel_new_with_components (hg_host_type (host_engine (lw_host self))) (list_to_set kinds)).
Proof.
  intros m Hm Hold Hgone Hgen Hnew Hfree Hreg. unfold m in *. clear m.
  unfold host_init_entity, evict_stale_mapping. rewrite to_host_of, Hold. cbn [mbind res_bind]. unfold host_has_entity. rewrite Hgone.
  rewrite bool_decide_false by (now intros [? [=]]). rewrite remove_global_eq. cbn [mbind res_bind].
  assert (host_of (dropped ge (entity_map self)) ge = None) as Hno by (rewrite (proj1 (dropped_of _ _ _)); now rewrite decide_True).
  rewrite to_host_of, Hno. cbn [mbind res_bind]. unfold host_generate_entity. rewrite Hgen. cbn [mbind res_bind].
  assert (he_static new = false) as Hs.
  { unfold generate_host_entity in Hgen. destruct (KeyGenerator_generate _ _) as [[k g']| | |]; try discriminate. now injection Hgen as <- _. }
  destruct (insert_host_ok ge new (dropped ge (entity_map self))) as (m1 & -> & Hok1 & ->);
    [now apply dropped_ok|apply lookup_delete_eq| |exact Hs|].
  { cbn. rewrite Hold. rewrite lookup_delete_ne; [exact Hnew|]. intros ->. destruct Hm as [Hm _]. apply Hm in Hold. congruence. }
  cbn [mbind res_bind]. set (m1 := with_host _ ge new (dropped ge (entity_map self))) in *.
  unfold init_entity_send_host_commands. rewrite Hreg. cbn [mbind res_bind].
  assert (host_of m1 ge = Some new) as Hof by (unfold host_of, m1; cbn; rewrite lookup_insert_eq; now destruct new).
  destruct (spawn_command_ok m1 ge new kinds (hw_set_generator gen (lw_host self)) Hof Hfree) as (host' & -> & Hch & _ & _).
  cbn [mbind res_bind]. eexists. split; [reflexivity|]. split_and!; cbn; try reflexivity; [exact Hok1|].
  rewrite Hch. now rewrite lookup_insert_eq.
Qed.

Lemma late_despawn_ok (g : Diffs) now ge old new m (host : @HostWorldManager C) (us : Updates * Heap) : local_map_ok m ->
  host_of m ge = Some old -> m.(host_to_global) !! new = None ->
  let m1 := with_host {| record_entity := host_copy_to_owned new |} ge new (dropped ge m) in
  exists host', delivered_message g now (Despawn old) (host, m1, us) = Ok (Some (host', m1, us)) /\
    recycling_keys (pool_of (he_static old) (entity_generator host')) = recycling_keys (pool_of (he_static old) (entity_generator host)) ++ [(he_id old, now)].
Proof.
  intros Hm Hold Hnew m1. cbn [delivered_message]. unfold HostGen_remove_by_host_entity, LocalMap_from_host.
  assert (m1.(host_to_global) !! old = None) as ->.
  { unfold m1. cbn. rewrite Hold. rewrite lookup_insert_ne, lookup_delete_eq; [reflexivity|].
    intros ->. destruct Hm as [Hm _]. apply Hm in Hold. congruence. }
  cbn [mbind res_bind]. eexists. split; [reflexivity|]. unfold pool_of, recycle_host. cbn. now destruct (he_static old).
Qed.
End Facts.

(** C12: The updates of a connection's tick.  In every state the update manager can
    reach, and provided that every replicated entity is mapped to a world entity, [take_update_events] does not panic, leaves the masks as they are and returns
    exactly the components with unsent changes whose entity is replicated, in the world and
    not paused, and that the host or the remote manager holds updatable. *)
Theorem connection_updates_exact {C U F A X} {eqA : EqDecision A} {cA : Countable A} iter width
    (Hiter : forall m, iter m ≡ₚ map_to_list m) replicating (to_world : GlobalEntity -> option X) has_entity has_component_of_kind
    g gh (self : @LocalWorldManager C U F A) (st : @Store A eqA cA) :
  UpdateManager.reach iter width g (updater self, st) gh -> (forall e, replicating e = true -> is_Some (to_world e)) ->
  exists events st', take_update_events replicating to_world has_entity has_component_of_kind (self, st) = Ok (events, st') /\
    st'.(cells) = st.(cells) /\
    forall e k, (exists ks, events !! e = Some ks /\ k ∈ ks) <->
      diff_mask_is_clear (updater self).(diff_handler) st e k = false /\ (e ∉ paused_entities self) /\
      is_updatable self e k = Ok true /\ replicating e = true /\
      exists w, to_world e = Some w /\ has_entity w = true /\ has_component_of_kind w k = true.
Proof.
  intros Hr Hworld. destruct (reach_ok iter width Hiter g _ gh Hr) as [q Hok]. cbn [fst snd] in Hok.
  destruct (collect_step width g (updater self) st gh q Hok) as (cands & st' & q' & Hc & _ & Hcells & Hall).
  unfold take_update_events. rewrite Hc. cbn [mbind res_bind].
  destruct (updatable_world_ok self (map_to_list cands) ∅) as (uw & -> & Huw). cbn [mbind res_bind].
  destruct (outgoing_listed replicating to_world has_entity has_component_of_kind (updater self) st' uw Hworld) as (out & -> & Hlist).
  cbn [mbind res_bind]. exists out, st'. split; [reflexivity|]. split; [exact Hcells|]. intros e k. rewrite Hlist, Huw, is_updatable_ok.
  unfold diff_mask_is_clear. rewrite Hcells. split.
  - intros ([(ks & Hks & _)|(_ & Hp & Hu)] & Hd & Hre & Hw); [now rewrite lookup_empty in Hks|]. split_and!; auto. now rewrite Hu.
  - intros (Hd & Hp & Hu & Hre & Hw). split; [|auto]. right. destruct (Hall e k Hd) as (ks & Hks & Hin). split_and!; [|exact Hp|now injection Hu].
    exists ks. split; [now apply elem_of_map_to_list|exact Hin].
Qed.

(** C13: A migration moves an entity from the remote to the host side.  When the entity is
    mapped to a remote id with a channel and the issuer hands out an id that is free, the
    migration succeeds: the entity is mapped to the new host id and every other entity as
    before, the maps stay inverse, the new host channel has exactly the components of the
    drained remote channel and the remote channel is gone, the old id is redirected to the
    new one, and the commands in flight are the same with the old id replaced: none refers
    to it any more. *)
Theorem migration_moves_entity {C U F A} now ge r c h gen (self : @LocalWorldManager C U F A) :
  local_map_ok (entity_map self) -> remote_of (entity_map self) ge = Some r ->
  rg_channels (remote_engine (lw_remote self)) !! r = Some c ->
  generate_host_entity now (entity_generator (lw_host self)) = Ok (h, gen) ->
  (entity_map self).(host_to_global) !! h = None -> hg_channels (host_engine (lw_host self)) !! h = None ->
  exists self', migrate_entity_remote_to_host now ge self = Ok (Some h, self') /\
    LocalMap_to_owned (entity_map self') ge = Some (host_copy_to_owned h) /\
    (forall ge', ge' <> ge -> LocalMap_to_owned (entity_map self') ge' = LocalMap_to_owned (entity_map self) ge') /\
    local_map_ok (entity_map self') /\
    extract_host_component_kinds ge self' = Ok (extract_inserted_component_kinds (force_drain_all_buffers c)) /\
    rg_channels (remote_engine (lw_remote self')) = delete r (rg_channels (remote_engine (lw_remote self))) /\
    LocalMap_redirect (entity_map self') (remote_copy_to_owned r) = host_copy_to_owned h /\
    Forall2 (packet_redirected (remote_copy_to_owned r) (host_copy_to_owned h)) (sent_command_packets self) (sent_command_packets self') /\
    (forall p t commands i msg, (p, (t, commands)) ∈ sent_command_packets self' -> (i, msg) ∈ commands ->
       EntityMessage_entity msg <> Some (remote_copy_to_owned r)).
Proof.
  intros Hm Hr Hc Hgen Hh Hch. destruct (migrate_ok now ge r c h gen self Hm Hr Hc Hgen Hh Hch) as (self' & He & Hmap & Hhost & Hrem & HF & Hno).
  destruct (migrated_map_ok now ge r h _ Hm Hr Hh) as (Hok & Hof & Hother). exists self'. rewrite Hmap.
  split_and!; auto.
  - now rewrite to_owned_spec, Hof.
  - unfold extract_host_component_kinds. rewrite Hmap, to_host_of, Hof. cbn [mbind res_bind unwrap]. rewrite Hhost, lookup_insert_eq. reflexivity.
  - unfold LocalMap_redirect, migrated_map, install_entity_redirect. cbn. now rewrite lookup_insert_eq.
Qed.

(** A late acknowledgement does not touch the new mapping.  When an entity whose
    despawn has been sent enters the scope again before the despawn is acknowledged, it gets
    a new host id and a fresh channel with its components; the acknowledgement of the old
    despawn then only gives the old id back to the issuer's quarantine and leaves the maps
    as they are. *)
Theorem late_despawn_ack_harmless {C U F A} {eqA : EqDecision A} {cA : Countable A} immutable g now now' ge kinds old new gen us
    (self : @LocalWorldManager C U F A) (st : @Store A eqA cA) :
  local_map_ok (entity_map self) -> host_of (entity_map self) ge = Some old -> hg_channels (host_engine (lw_host self)) !! old = None ->
  generate_host_entity now (entity_generator (lw_host self)) = Ok (new, gen) ->
  (entity_map self).(host_to_global) !! new = None -> hg_channels (host_engine (lw_host self)) !! new = None ->
  foldM (register_mutable immutable g now ge) kinds (updater self, st) = Ok us ->
  exists self' st', host_init_entity immutable g now ge kinds false (self, st) = Ok (self', st') /\
    host_of (entity_map self') ge = Some new /\ extract_host_component_kinds ge self' = Ok (list_to_set kinds) /\
    exists host', delivered_message g now' (Despawn old) (lw_host self', entity_map self', (updater self', st')) =
        Ok (Some (host', entity_map self', (updater self', st'))) /\
      recycling_keys (pool_of (he_static old) (entity_generator host')) =
        recycling_keys (pool_of (he_static old) (entity_generator (lw_host self'))) ++ [(he_id old, now')].
Proof.
  intros Hm Hold Hgone Hgen Hnew Hfree Hreg.
  destruct (init_again_ok immutable g now ge kinds old new gen us self st Hm Hold Hgone Hgen Hnew Hfree Hreg) as (self' & He & Hmap & Hok & Hu & Hch).
  exists self', us.2. assert (host_of (entity_map self') ge = Some new) as Hof.
  { rewrite Hmap. unfold host_of. cbn. rewrite lookup_insert_eq. now destruct new. }
  split_and!; [exact He|exact Hof| |].
  - unfold extract_host_component_kinds. rewrite to_host_of, Hof. cbn [mbind res_bind unwrap]. rewrite Hch. reflexivity.
  - rewrite Hmap. now apply late_despawn_ok.
Qed.

(** * Runs *)
Module LocalSample.
Import UpdateManager.Sample.
Abbreviation manager := (@LocalWorldManager Z unit unit nat).
Definition h1 : HostEntity := mkHostEntity 1 false.
Definition r5 : RemoteEntity := mkRemoteEntity 5 false.

(** Entity 7 is the host's [h1], entity 8 the peer's [r5]. *)
Definition map78 : LocalEntityMap :=
  match (m ← insert_with_host_entity 7 h1 (LocalMap_new Server); insert_with_remote_entity 8 r5 m) with
  | Ok m => m | _ => LocalMap_new Server end.
Definition peer_has (kinds : list ComponentKind) : RemoteEntityChannel :=
  fold_left (fun c kind => insert_component_channel_as_inserted kind 0 c) kinds (RemoteEntityChannel_new Client).

(** A connection: the channels of the host side, what the peer acknowledged, the remote
    channels and the packets in flight. *)
Definition connection channels acked remotes packets (u : EntityUpdateManager) : manager :=
  mkLocalWorld map78 (ReliableSender_new None) packets ReliableReceiver_new
    (mkHostWorld (HostGen_new 3) (mkHostEngine Server channels [] []) ReliableReceiver_new (mkRemoteEngine Client acked [] []) [])
    (mkRemoteWorld (mkRemoteEngine Server remotes [] []) None [] WorldWaitlist_new) u ∅ ∅ [].

Lemma map78_ok : local_map_ok map78.
Proof.
  destruct (insert_host_ok 7 h1 (LocalMap_new Server) (local_new_ok Server)) as (m & He & Hok & Hm); [reflexivity..|].
  destruct (insert_remote_ok 8 r5 m Hok) as (m' & He' & Hok' & _); [now rewrite Hm..|].
  unfold map78. rewrite He. cbn [mbind res_bind]. rewrite He'. exact Hok'.
Qed.

(** Component 1 of entity 7 has changed, was acknowledged and is sent. *)
Definition live : manager :=
  connection {[h1 := HostEntityChannel_new_with_components Server {[1]}]} {[h1 := peer_has [1]]} ∅ [] (state 5).1.

Lemma connection_updates_exact_witness : is_updatable live 7 1 = Ok true /\
  exists events st', take_update_events (fun _ => true) Some (fun _ => true) (fun _ k => k =? 1) (live, (state 5).2) = Ok (events, st') /\
    st'.(cells) = (state 5).2.(cells) /\ exists ks, events !! 7 = Some ks /\ 1 ∈ ks.
Proof.
  split; [vm_compute; reflexivity|].
  destruct (connection_updates_exact order width (fun _ => reflexivity _) (fun _ => true) Some (fun _ => true) (fun _ k => k =? 1)
    g1 (ghost 5) live (state 5).2) as (events & st' & He & Hc & Hiff).
  - exact reach5.
  - intros e _. now exists e.
  - exists events, st'. split; [exact He|]. split; [exact Hc|]. apply Hiff.
    split; [vm_compute; reflexivity|]. split; [apply not_elem_of_empty|]. split; [vm_compute; reflexivity|]. split; [reflexivity|].
    exists 7. now split_and!.
Defined.

(** Entity 8 with two components migrates while a command about it is in flight. *)
Definition delegated : manager :=
  connection ∅ ∅ {[r5 := peer_has [1; 2]]}
    [(3, (0, [(10, EnableDelegation 0 (remote_copy_to_owned r5)); (11, Despawn (host_copy_to_owned h1))]))] (state 0).1.
Definition h0 : HostEntity := mkHostEntity 0 false.
Definition next_gen : HostEntityGenerator :=
  match generate_host_entity 0 (HostGen_new 3) with Ok (_, gen) => gen | _ => HostGen_new 3 end.

Lemma migration_moves_entity_witness : exists self', migrate_entity_remote_to_host 0 8 delegated = Ok (Some h0, self') /\
  LocalMap_to_owned (entity_map self') 8 = Some (Wire.Host 0 false) /\
  LocalMap_to_owned (entity_map self') 7 = Some (Wire.Host 1 false) /\
  extract_host_component_kinds 8 self' = Ok {[1; 2]} /\
  sent_command_packets self' = [(3, (0, [(10, EnableDelegation 0 (Wire.Host 0 false)); (11, Despawn (Wire.Host 1 false))]))].
Proof.
  destruct (migration_moves_entity 0 8 r5 (peer_has [1; 2]) h0 next_gen delegated) as (self' & He & H8 & Ho & _ & Hk & _ & _ & HF & _);
    [exact map78_ok|vm_compute; reflexivity..|].
  exists self'. split; [exact He|]. split; [exact H8|]. split; [rewrite Ho by discriminate; vm_compute; reflexivity|].
  split; [rewrite Hk; vm_compute; reflexivity|].
  revert HF. generalize (sent_command_packets self'). intros l HF. cbn [delegated connection sent_command_packets] in HF.
  inversion HF as [|x [p [t cs]] l1 l2 (Hp & Ht & HC) HN]; subst. inversion HN; subst. cbn in Hp, Ht, HC. subst.
  inversion HC as [|x1 [i1 y1] l1 l2 [Hi1 H1] HC2]; subst. inversion HC2 as [|x2 [i2 y2] l3 l4 [Hi2 H2] HC3]; subst. inversion HC3; subst.
  vm_compute in H1, H2. injection H1 as <-. cbn in Hi1, Hi2. subst. reflexivity.
Defined.

(** Entity 7 was despawned and comes back before the peer has acknowledged that. *)
Definition leaving : manager := connection ∅ {[h1 := peer_has [1]]} ∅ [] (state 0).1.

Lemma late_despawn_ack_harmless_witness :
  exists self' st', host_init_entity (fun _ => false) g1 0 7 [1] false (leaving, (state 0).2) = Ok (self', st') /\
    host_of (entity_map self') 7 = Some h0 /\ extract_host_component_kinds 7 self' = Ok {[1]} /\
    exists host', delivered_message g1 50 (Despawn h1) (lw_host self', entity_map self', (updater self', st')) =
      Ok (Some (host', entity_map self', (updater self', st'))).
Proof.
  destruct (late_despawn_ack_harmless (fun _ => false) g1 0 50 7 [1] h1 h0 next_gen (state 1) leaving (state 0).2)
    as (self' & st' & He & Hof & Hk & host' & Hd & _); [exact map78_ok|vm_compute; reflexivity..|].
  exists self', st'. split; [exact He|]. split; [exact Hof|]. split; [rewrite Hk; vm_compute; reflexivity|]. exists host'. exact Hd.
Defined.
End LocalSample.
