(* ===== verification/LocalHazards.v ===== *)
(** Where the connection's bookkeeping falls short: calls that panic on events the
    connection itself has produced, changes that are never sent, and acknowledgements
    that are lost with the rest of their batch. *)

From Stdlib Require Import ZArith Lia.
From stdpp Require Import base numbers option list gmap sets.
From S2P Require Import Prelude Wrapping Wire SequenceList Reliable Channels EntityTypes SyncEngine HostSync DiffMask DirtyQueue DiffHandlers UpdateManager EntityMaps LocalEntities Waitlist RemoteWorld RemoteWorldSpec HostWorld LocalWorld LocalWorldFacts.
Import LocalEntityMap HostEntityGenerator GlobalEntityMap LocalMapFacts HostIds.

(** * Despawned by the peer *)
Section Despawned.
Context {W E C U F A : Type} {eqE : EqDecision E} {cE : Countable E}.
Context {world_type : WorldMutType W E C U F} {replicate : Replicate C U F}.
Context (iter_e : gset RemoteEntity -> list RemoteEntity) (iter_h : gset WaitlistHandle -> list WaitlistHandle).
Context (iter_f : gmap Z WaitlistHandle -> list (Z * WaitlistHandle)) (gkinds : GlobalEntity -> option (list ComponentKind)).
Abbreviation batch := (@batch W E C F eqE cE).

Lemma process_remove_map now r w k (b b' : batch) : process_remove iter_e iter_f now r w k b = Ok b' -> b_map b' = b_map b.
Proof.
  unfold process_remove. intros H. apply bind_ok_inv in H as ([removed wl] & _ & H).
  repeat case_match; injection H as <-; reflexivity.
Qed.

Lemma despawn_unmaps now r ge (b b' : batch) : local_map_ok (b_map b) -> (b_map b).(remote_to_global) !! r = Some ge ->
  ready_message iter_e iter_h iter_f gkinds now (Despawn r) b = Ok b' -> remote_of (b_map b') ge = None.
Proof.
  intros Hm Hr H. cbn [ready_message] in H. rewrite (remove_remote_eq r ge) in H by assumption. cbn [mbind res_bind] in H.
  apply bind_ok_inv in H as (w & _ & H). apply bind_ok_inv in H as (b1 & H1 & H). injection H as <-. cbn [b_map].
  assert (b_map b1 = dropped ge (b_map b)) as ->.
  { eapply (foldM_inv (fun b2 : batch => b_map b2 = dropped ge (b_map b))) in H1; [exact H1| |reflexivity].
    intros k b2 b3 Hb2 Hb3. rewrite <- Hb2. eapply process_remove_map. exact Hb3. }
  rewrite (proj2 (dropped_of _ _ _)). now rewrite decide_True.
Qed.
End Despawned.

(** The handler of a received despawn panics.  After the connection has applied a
    [Despawn] of the peer, the entity has no remote id any more, so the two calls the server
    and the client make for the entity's events, [remote_despawn_entity] and, for a spawn
    that was applied in the same batch, [remote_spawn_entity], panic: the server does so for
    every published or delegated entity whose client despawns it. *)
Theorem despawned_entity_handlers_panic {W E C U F A} {eqE : EqDecision E} {cE : Countable E}
    {world_type : WorldMutType W E C U F} {replicate : Replicate C U F} iter_e iter_h iter_f gkinds now now' r ge
    (b b' : @batch W E C F eqE cE) (self : @LocalWorldManager C U F A) :
  local_map_ok (b_map b) -> (b_map b).(remote_to_global) !! r = Some ge ->
  ready_message iter_e iter_h iter_f gkinds now (Despawn r) b = Ok b' -> entity_map self = b_map b' ->
  LocalWorld_remote_despawn_entity ge self = Panic /\ LocalWorld_remote_spawn_entity iter_e now' ge self = Panic.
Proof.
  intros Hm Hr H Hs. apply (despawn_unmaps iter_e iter_h iter_f gkinds now r ge b b' Hm Hr) in H.
  unfold LocalWorld_remote_despawn_entity, LocalWorld_remote_spawn_entity. rewrite Hs, to_remote_of, H. split; reflexivity.
Qed.

(** * Changes to remote entities *)
(** Changes of a remote-owned entity are never sent.  Despawning an entity that is
    mapped to a remote id, inserting a component into it or removing one changes the
    connection's own channel and queues no command for the peer, on either side. *)
Theorem remote_owned_changes_not_sent {C U F A} {eqA : EqDecision A} {cA : Countable A} g now ge r kind
    (self self' : @LocalWorldManager C U F A) (st st' : @Store A eqA cA) :
  remote_of (entity_map self) ge = Some r ->
  LocalWorld_despawn_entity ge self = Ok self' \/ LocalWorld_remove_component ge kind self = Ok self' \/
    LocalWorld_insert_component g now ge kind (self, st) = Ok (self', st') ->
  hg_outgoing (host_engine (lw_host self')) = hg_outgoing (host_engine (lw_host self)) /\
  rg_outgoing (remote_engine (lw_remote self')) = rg_outgoing (remote_engine (lw_remote self)).
Proof.
  intros Hr Hrun.
  assert (LocalMap_to_owned (entity_map self) ge = Some (remote_copy_to_owned r)) as Ho by (unfold LocalMap_to_owned; now rewrite (remote_of_record _ _ _ Hr)).
  assert (forall command (s s' : @LocalWorldManager C U F A), on_remote_entity command s = Ok s' ->
    hg_outgoing (host_engine (lw_host s')) = hg_outgoing (host_engine (lw_host s)) /\
    rg_outgoing (remote_engine (lw_remote s')) = rg_outgoing (remote_engine (lw_remote s))) as Hon.
  { intros command s s' H. unfold on_remote_entity, remote_send_entity_command in H. rewrite to_remote_of in H. cbn [mbind res_bind] in H.
    destruct (remote_of (entity_map s) (EntityCommand_entity command)) as [r'|]; cbn [mbind res_bind] in H; [|now injection H as <-].
    unfold RemoteEngine_send_entity_command in H. destruct (rg_channels _ !! r'); [|discriminate]. cbn in H.
    destruct command; cbn in H; injection H as <-; now split. }
  destruct Hrun as [H|[H|H]].
  - unfold LocalWorld_despawn_entity in H. cbn [entity_map lw_set_paused] in H. rewrite Ho in H. now apply Hon in H.
  - unfold LocalWorld_remove_component in H. rewrite Ho in H. now apply Hon in H.
  - cbn [LocalWorld_insert_component] in H. rewrite Ho in H. cbn [unwrap mbind res_bind owned_is_host remote_copy_to_owned] in H.
    apply bind_ok_inv in H as (s1 & H1 & H). injection H as <- <-. now apply Hon in H1.
Qed.

(** A published entity of a client, despawned. *)
Module DespawnSample.
Import RemoteWorldSpec.SampleWorld.
Definition spawned_batch : sample_batch :=
  match ready_message elements elements map_to_list (fun _ => None) 0 (Spawn r5) (start Server ∅) with Ok b => b | _ => start Server ∅ end.
Definition despawned_batch : sample_batch :=
  match ready_message elements elements map_to_list (fun _ => None) 10 (Despawn r5) spawned_batch with Ok b => b | _ => spawned_batch end.
Definition server_side : @LocalWorldManager comp update (Z * Z) nat :=
  lw_set_map (b_map despawned_batch) (LocalWorld_new (Some 9%nat) Server 3 UpdateManager.Sample.g0 UpdateManager.Sample.st0).1.

Lemma despawned_entity_handlers_panic_witness :
  LocalWorld_remote_despawn_entity 0 server_side = Panic /\ LocalWorld_remote_spawn_entity elements 20 0 server_side = Panic.
Proof.
  apply (despawned_entity_handlers_panic elements elements map_to_list (fun _ => None) 10 20 r5 0 spawned_batch despawned_batch server_side).
  - destruct (insert_remote_ok 0 r5 (LocalMap_new Server) (local_new_ok Server)) as (m & He & Hok & _); [reflexivity..|].
    assert (Ok m = Ok (b_map spawned_batch)) as Heq by (rewrite <- He; vm_compute; reflexivity). injection Heq as <-. exact Hok.
  - vm_compute. reflexivity.
  - vm_compute. reflexivity.
  - reflexivity.
Defined.
End DespawnSample.

(** An authorised client inserts a component into a delegated entity. *)
Definition granted_client : LocalSample.manager :=
  LocalSample.connection ∅ ∅ {[LocalSample.r5 := LocalSample.peer_has [1]]} [] (UpdateManager.Sample.state 0).1.
Definition after_insert : LocalSample.manager :=
  match LocalWorld_insert_component UpdateManager.Sample.g1 0 8 2 (granted_client, (UpdateManager.Sample.state 0).2) with
  | Ok (self, _) => self | _ => granted_client end.

Lemma remote_owned_changes_not_sent_witness :
  (re_components <$> rg_channels (remote_engine (lw_remote after_insert)) !! LocalSample.r5) ≫= (fun m => m !! 2) = Some RemoteComponentChannel_new /\
  hg_outgoing (host_engine (lw_host after_insert)) = [] /\ rg_outgoing (remote_engine (lw_remote after_insert)) = [].
Proof.
  split; [vm_compute; reflexivity|].
  apply (remote_owned_changes_not_sent UpdateManager.Sample.g1 0 8 LocalSample.r5 2 granted_client after_insert
    (UpdateManager.Sample.state 0).2 (UpdateManager.Sample.state 0).2); [vm_compute; reflexivity|].
  right. right. vm_compute. reflexivity.
Defined.

(** * Acknowledgements lost with their batch *)
(** Entity 7 has left the scope and come back as a new id while the commands of its old
    id [h1] are in flight, and entity 9 is being despawned.  The acknowledged insert of
    [h1] finds no entity and ends the loop: the despawns behind it, of [h1] and of entity
    9, are never handled, so both ids stay taken and entity 9 stays mapped. *)
Definition h2 : HostEntity := mkHostEntity 2 false.
Definition map9 : LocalEntityMap :=
  match insert_with_host_entity 9 h2 (LocalMap_new Server) with Ok m => m | _ => LocalMap_new Server end.
Definition acked_batch : list (EntityMessage HostEntity) :=
  [Spawn LocalSample.h1; InsertComponent LocalSample.h1 1; Despawn LocalSample.h1; Despawn h2].

Lemma stale_insert_ack_loses_batch :
  exists self m us, delivered_messages UpdateManager.Sample.g1 0 acked_batch (HostWorld_new Server 3 : @HostWorldManager Z, map9, UpdateManager.Sample.state 0) = Ok (self, m, us) /\
    host_of m 9 = Some h2 /\ recycling_keys (generator (entity_generator self)) = [] /\
    exists self' m' us', delivered_messages UpdateManager.Sample.g1 0 (drop 2 acked_batch) (HostWorld_new Server 3 : @HostWorldManager Z, map9, UpdateManager.Sample.state 0)
        = Ok (self', m', us') /\ host_of m' 9 = None /\ recycling_keys (generator (entity_generator self')) = [(1, 0); (2, 0)].
Proof.
  eexists _, _, _. split; [vm_compute; reflexivity|]. split; [vm_compute; reflexivity|]. split; [vm_compute; reflexivity|].
  eexists _, _, _. split; [vm_compute; reflexivity|]. split; vm_compute; reflexivity.
Qed.

(** * Updates that overtake their insert *)
(** A component that was removed and is inserted again counts as known to the peer from
    the moment the insert is queued: its channel in the delivered engine outlives the
    acknowledged removal. *)
Definition readded : LocalSample.manager :=
  LocalSample.connection {[LocalSample.h1 := HostEntityChannel_new_with_components Server {[1]}]}
    {[LocalSample.h1 := re_set_components {[1 := set_inserted false 2 RemoteComponentChannel_new]} (LocalSample.peer_has [])]} ∅ [] (UpdateManager.Sample.state 0).1.

Lemma readded_component_updatable_early : is_updatable readded 7 1 = Ok true /\
  (extract_inserted_component_kinds <$> rg_channels (delivered_engine (lw_host readded)) !! LocalSample.h1) = Some ∅.
Proof. split; vm_compute; reflexivity. Qed.

(** * Migrating the wrong entity *)
(** The error path of [migrate_entity_remote_to_host] for a host-owned entity asks the
    record for a remote entity it does not have. *)
Lemma migrate_host_owned_panics {C U F A} now ge h (self : @LocalWorldManager C U F A) :
  host_of (entity_map self) ge = Some h -> migrate_entity_remote_to_host now ge self = Panic.
Proof.
  unfold host_of, migrate_entity_remote_to_host. rewrite remove_global_eq. intros H. cbn [mbind res_bind].
  destruct ((entity_map self).(global_to_local) !! ge) as [[[id s|id s]]|]; try discriminate. reflexivity.
Qed.
