(* ===== verification/Authority.v ===== *)
(** Who holds the authority over a delegated entity:
    - [EntityAuthChannel], [EntityAuthData] and its two handles
      ([world/delegation/auth_channel.rs]);
    - [HostAuthHandler] ([world/delegation/host_auth_handler.rs]);
    - [AuthOwner] and [ServerAuthHandler] ([src/server/src/world/server_auth_handler.rs]).

    A channel is an [Arc] shared by the mutator the handler keeps and by every accessor handed
    out to components, so the channels of a handler live in a list of their own and a handle is
    a position in it.  An accessor that outlives its entity keeps its old channel. *)

From Stdlib Require Import ZArith Lia.
From stdpp Require Import base numbers option list gmap sets.
From S2P Require Import Prelude EntityTypes.

(** [world/sync/authority_error.rs] *)
Inductive AuthorityError := NotDelegated | NotAvailable | NotHolder | NotInScope | ResourceNotPresent.

(** [Result<T, AuthorityError>] *)
Abbreviation auth_result T := (AuthorityError + T)%type.

(** * Channels *)
Module Auth.
Record EntityAuthData := mkAuthData { host_type : HostType; status : EntityAuthStatus }.

Definition EntityAuthData_new (h : HostType) : EntityAuthData :=
  {| host_type := h; status := match h with Server => Available | Client => Requested end |}.

Definition EntityAuthData_auth_status (self : EntityAuthData) : HostEntityAuthStatus :=
  mkHostEntityAuthStatus self.(host_type) self.(status).

Definition EntityAuthData_set_auth_status (s : EntityAuthStatus) (self : EntityAuthData) : EntityAuthData :=
  {| host_type := self.(host_type); status := s |}.

Record HostAuthHandler := mkHandler {
  channels : list EntityAuthData;
  auth_channels : gmap GlobalEntity nat
}.

Definition HostAuth_new : HostAuthHandler := {| channels := []; auth_channels := ∅ |}.

(** [EntityAuthAccessor::auth_status] *)
Definition accessor_auth_status (self : HostAuthHandler) (accessor : nat) : res HostEntityAuthStatus :=
  d ← unwrap (self.(channels) !! accessor); Ok (EntityAuthData_auth_status d).

(** [EntityAuthMutator::set_auth_status] *)
Definition mutator_set_auth_status (mutator : nat) (s : EntityAuthStatus) (self : HostAuthHandler) : res HostAuthHandler :=
  d ← unwrap (self.(channels) !! mutator);
  Ok {| channels := <[mutator := EntityAuthData_set_auth_status s d]> self.(channels);
        auth_channels := self.(auth_channels) |}.

Definition HostAuth_register_entity (h : HostType) (e : GlobalEntity) (self : HostAuthHandler) : res (nat * HostAuthHandler) :=
  match self.(auth_channels) !! e with
  | Some _ => Panic
  | None =>
      let accessor := length self.(channels) in
      Ok (accessor, {| channels := self.(channels) ++ [EntityAuthData_new h];
                       auth_channels := <[e := accessor]> self.(auth_channels) |})
  end.

Definition HostAuth_deregister_entity (e : GlobalEntity) (self : HostAuthHandler) : HostAuthHandler :=
  {| channels := self.(channels); auth_channels := delete e self.(auth_channels) |}.

Definition HostAuth_get_accessor (self : HostAuthHandler) (e : GlobalEntity) : res nat := unwrap (self.(auth_channels) !! e).

Definition HostAuth_auth_status (self : HostAuthHandler) (e : GlobalEntity) : res (option HostEntityAuthStatus) :=
  match self.(auth_channels) !! e with
  | Some accessor => s ← accessor_auth_status self accessor; Ok (Some s)
  | None => Ok None
  end.

Definition HostAuth_set_auth_status (e : GlobalEntity) (s : EntityAuthStatus) (self : HostAuthHandler) : res HostAuthHandler :=
  mutator ← unwrap (self.(auth_channels) !! e); mutator_set_auth_status mutator s self.

(** ** Every entity has a channel of its own *)
Record handler_ok (self : HostAuthHandler) : Prop := {
  handler_bound : forall e loc, self.(auth_channels) !! e = Some loc -> (loc < length self.(channels))%nat;
  handler_inj : forall e1 e2 loc, self.(auth_channels) !! e1 = Some loc -> self.(auth_channels) !! e2 = Some loc -> e1 = e2
}.

(** The data of an entity's channel, where it has one. *)
Definition data_of (self : HostAuthHandler) (e : GlobalEntity) : option EntityAuthData :=
  loc ← self.(auth_channels) !! e; self.(channels) !! loc.

Lemma new_ok : handler_ok HostAuth_new.
Proof. split; cbn; intros *; rewrite lookup_empty; discriminate. Qed.

Lemma data_of_dom self e : handler_ok self -> is_Some (data_of self e) <-> is_Some (self.(auth_channels) !! e).
Proof.
  intros [Hb _]. unfold data_of. split.
  - intros [d Hd]. destruct (auth_channels self !! e) eqn:He; [eauto|discriminate].
  - intros [loc Hloc]. rewrite Hloc. cbn. apply lookup_lt_is_Some. eauto.
Qed.

Lemma auth_status_data self e :
  handler_ok self -> HostAuth_auth_status self e = Ok (EntityAuthData_auth_status <$> data_of self e).
Proof.
  intros Hok. unfold HostAuth_auth_status, data_of. destruct (auth_channels self !! e) as [loc|] eqn:He; [|reflexivity].
  unfold accessor_auth_status. cbn. destruct (lookup_lt_is_Some_2 _ _ (handler_bound _ Hok _ _ He)) as [d ->]. reflexivity.
Qed.

Lemma register_spec h e self :
  handler_ok self -> self.(auth_channels) !! e = None ->
  exists loc self', HostAuth_register_entity h e self = Ok (loc, self') /\ handler_ok self' /\
    self'.(auth_channels) !! e = Some loc /\
    dom self'.(auth_channels) = {[e]} ∪ dom self.(auth_channels) /\
    forall e', data_of self' e' = if decide (e' = e) then Some (EntityAuthData_new h) else data_of self e'.
Proof.
  intros [Hb Hi] He. unfold HostAuth_register_entity. rewrite He. do 2 eexists. split; [reflexivity|]. split; [|split; [|split]].
  - split; cbn; intros *; rewrite ?lookup_insert_Some.
    + rewrite length_app; cbn. intros [[_ <-]|[_ Hl]]; [lia|]. apply Hb in Hl. lia.
    + intros [[<- <-]|[Hn1 H1]] [[<- Hl]|[Hn2 H2]]; try reflexivity.
      * apply Hb in H2. lia.
      * subst. apply Hb in H1. lia.
      * eauto.
  - cbn. now rewrite lookup_insert_eq.
  - cbn. now rewrite dom_insert_L.
  - intros e'. unfold data_of; cbn. destruct (decide (e' = e)) as [->|Hne].
    + rewrite lookup_insert_eq. cbn. now rewrite lookup_app_r, Nat.sub_diag by lia.
    + rewrite lookup_insert_ne by congruence. destruct (auth_channels self !! e') as [loc|] eqn:He'; [|reflexivity].
      cbn. now rewrite lookup_app_l by eauto.
Qed.

Lemma deregister_spec e self :
  handler_ok self -> handler_ok (HostAuth_deregister_entity e self) /\
  dom (HostAuth_deregister_entity e self).(auth_channels) = dom self.(auth_channels) ∖ {[e]} /\
  forall e', data_of (HostAuth_deregister_entity e self) e' = if decide (e' = e) then None else data_of self e'.
Proof.
  intros [Hb Hi]. split; [|split].
  - split; cbn; intros *; rewrite !lookup_delete_Some; intros []; [eauto|]. intros []; eauto.
  - cbn. now rewrite dom_delete_L.
  - intros e'. unfold data_of; cbn. destruct (decide (e' = e)) as [->|Hne].
    + now rewrite lookup_delete_eq.
    + now rewrite lookup_delete_ne by congruence.
Qed.

Lemma set_auth_status_spec e s self d :
  handler_ok self -> data_of self e = Some d ->
  exists self', HostAuth_set_auth_status e s self = Ok self' /\ handler_ok self' /\
    self'.(auth_channels) = self.(auth_channels) /\
    forall e', data_of self' e' = if decide (e' = e) then Some (EntityAuthData_set_auth_status s d) else data_of self e'.
Proof.
  intros [Hb Hi] Hd. unfold data_of in Hd. destruct (auth_channels self !! e) as [loc|] eqn:He; [|discriminate]. cbn in Hd.
  unfold HostAuth_set_auth_status. rewrite He. cbn [unwrap]. rewrite bind_ok.
  unfold mutator_set_auth_status. rewrite Hd. cbn [unwrap]. rewrite bind_ok.
  eexists. split; [reflexivity|]. split; [|split; [reflexivity|]].
  - split; cbn; [|eauto]. intros *. rewrite length_insert. eauto.
  - intros e'. unfold data_of; cbn. destruct (decide (e' = e)) as [->|Hne].
    + rewrite He. cbn. apply list_lookup_insert_eq. eauto.
    + destruct (auth_channels self !! e') as [loc'|] eqn:He'; [|reflexivity]. cbn.
      rewrite list_lookup_insert_ne; [reflexivity|]. intros ->. eauto.
Qed.

(** An accessor handed out for an entity reads the entity's status for as long as the entity
    stays registered. *)
Lemma accessor_follows self e loc :
  HostAuth_get_accessor self e = Ok loc -> HostAuth_auth_status self e = (s ← accessor_auth_status self loc; Ok (Some s)).
Proof.
  unfold HostAuth_get_accessor, HostAuth_auth_status. destruct (auth_channels self !! e); [|discriminate].
  cbn. intros [= ->]. reflexivity.
Qed.
End Auth.

(** * The server's registry of holders *)
Abbreviation UserKey := Z.

(** Constructors carry the prefix [By]. *)
Inductive AuthOwner := ByNone | ByServer | ByClient (user_key : UserKey).

#[global] Instance AuthOwner_eq_dec : EqDecision AuthOwner.
Proof. solve_decision. Defined.

Definition from_user_key (user_key : option UserKey) : AuthOwner :=
  match user_key with Some u => ByClient u | None => ByServer end.

Module ServerAuth.
Import Auth.

Record ServerAuthHandler := mkServerAuth {
  host_auth_handler : HostAuthHandler;
  entity_auth_map : gmap GlobalEntity AuthOwner;
  user_to_entity_map : gmap UserKey (gset GlobalEntity)
}.

Definition ServerAuth_new : ServerAuthHandler :=
  {| host_auth_handler := HostAuth_new; entity_auth_map := ∅; user_to_entity_map := ∅ |}.

Definition with_host (self : ServerAuthHandler) (h : HostAuthHandler) : ServerAuthHandler :=
  {| host_auth_handler := h; entity_auth_map := self.(entity_auth_map); user_to_entity_map := self.(user_to_entity_map) |}.
Definition with_owner (self : ServerAuthHandler) (e : GlobalEntity) (o : AuthOwner) : ServerAuthHandler :=
  {| host_auth_handler := self.(host_auth_handler); entity_auth_map := <[e := o]> self.(entity_auth_map);
     user_to_entity_map := self.(user_to_entity_map) |}.
Definition with_users (self : ServerAuthHandler) (m : gmap UserKey (gset GlobalEntity)) : ServerAuthHandler :=
  {| host_auth_handler := self.(host_auth_handler); entity_auth_map := self.(entity_auth_map); user_to_entity_map := m |}.

Definition set_status (e : GlobalEntity) (s : EntityAuthStatus) (self : ServerAuthHandler) : res ServerAuthHandler :=
  h ← HostAuth_set_auth_status e s self.(host_auth_handler); Ok (with_host self h).

(** [user_to_entity_map.entry(user).or_default().insert(entity)] *)
Definition track (u : UserKey) (e : GlobalEntity) (self : ServerAuthHandler) : ServerAuthHandler :=
  with_users self (<[u := {[e]} ∪ default ∅ (self.(user_to_entity_map) !! u)]> self.(user_to_entity_map)).

Definition ServerAuth_get_accessor (self : ServerAuthHandler) (e : GlobalEntity) : res nat :=
  HostAuth_get_accessor self.(host_auth_handler) e.

Definition ServerAuth_register_entity (e : GlobalEntity) (self : ServerAuthHandler) : res ServerAuthHandler :=
  '(_, h) ← HostAuth_register_entity Server e self.(host_auth_handler);
  Ok (with_owner (with_host self h) e ByNone).

Definition ServerAuth_deregister_entity (e : GlobalEntity) (self : ServerAuthHandler) : ServerAuthHandler :=
  {| host_auth_handler := HostAuth_deregister_entity e self.(host_auth_handler);
     entity_auth_map := delete e self.(entity_auth_map); user_to_entity_map := self.(user_to_entity_map) |}.

Definition authority_status (self : ServerAuthHandler) (e : GlobalEntity) : res (option EntityAuthStatus) :=
  s ← HostAuth_auth_status self.(host_auth_handler) e; Ok (option_map heas_auth_status s).

Definition entity_has_holder (self : ServerAuthHandler) (e : GlobalEntity) : bool :=
  match self.(entity_auth_map) !! e with
  | Some ByNone | None => false
  | Some ByServer | Some (ByClient _) => true
  end.

(** The user's whole entry goes as soon as there is one. *)
Definition release_all_authority (e : GlobalEntity) (owner : AuthOwner) (self : ServerAuthHandler) : res (bool * ServerAuthHandler) :=
  match owner with
  | ByNone => Ok (false, self)
  | _ =>
      let self1 :=
        match owner with
        | ByClient user_key =>
            match self.(user_to_entity_map) !! user_key with
            | Some entities =>
                with_users self (delete user_key (<[user_key := entities ∖ {[e]}]> self.(user_to_entity_map)))
            | None => self
            end
        | _ => self
        end in
      self2 ← set_status e Available self1; Ok (true, self2)
  end.

Definition client_request_authority (e : GlobalEntity) (requester : AuthOwner) (self : ServerAuthHandler)
    : res (auth_result unit * ServerAuthHandler) :=
  match self.(entity_auth_map) !! e with
  | None => Ok (inl NotDelegated, self)
  | Some owner =>
      if decide (owner = ByNone) then
        match requester with
        | ByServer => self' ← set_status e Granted (with_owner self e ByServer); Ok (inr tt, self')
        | ByClient user_key =>
            self' ← set_status e Denied (track user_key e (with_owner self e (ByClient user_key))); Ok (inr tt, self')
        | ByNone => Ok (inr tt, self)
        end
      else Ok (inl NotAvailable, self)
  end.

Definition client_release_authority (e : GlobalEntity) (releaser : AuthOwner) (self : ServerAuthHandler)
    : res (auth_result unit * ServerAuthHandler) :=
  match self.(entity_auth_map) !! e with
  | None => Ok (inl NotDelegated, self)
  | Some owner =>
      let server_initiated := bool_decide (releaser = ByServer) in
      if bool_decide (owner = releaser) || server_initiated then
        '(_, self') ← release_all_authority e owner (with_owner self e ByNone); Ok (inr tt, self')
      else Ok (inl NotHolder, self)
  end.

Definition server_give_authority_to_client (e : GlobalEntity) (target_user : UserKey) (self : ServerAuthHandler)
    : res (auth_result AuthOwner * ServerAuthHandler) :=
  match self.(entity_auth_map) !! e with
  | None => Ok (inl NotDelegated, self)
  | Some previous_owner =>
      if decide (previous_owner = ByClient target_user) then Ok (inr previous_owner, self)
      else
        '(_, self1) ← release_all_authority e previous_owner (with_owner self e (ByClient target_user));
        self2 ← set_status e Denied (track target_user e self1);
        Ok (inr previous_owner, self2)
  end.

Definition server_take_authority (e : GlobalEntity) (self : ServerAuthHandler) : res (auth_result AuthOwner * ServerAuthHandler) :=
  match self.(entity_auth_map) !! e with
  | None => Ok (inl NotDelegated, self)
  | Some previous_owner =>
      if decide (previous_owner = ByServer) then Ok (inr previous_owner, self)
      else
        '(_, self1) ← release_all_authority e previous_owner (with_owner self e ByServer);
        self2 ← set_status e Granted self1;
        Ok (inr previous_owner, self2)
  end.

Definition user_all_owned_entities (self : ServerAuthHandler) (u : UserKey) : option (gset GlobalEntity) :=
  self.(user_to_entity_map) !! u.

Definition user_is_authority_holder (self : ServerAuthHandler) (u : UserKey) (e : GlobalEntity) : bool :=
  match self.(entity_auth_map) !! e with Some owner => bool_decide (owner = ByClient u) | None => false end.

(** ** The status a holder implies *)
Definition status_of (o : AuthOwner) : EntityAuthStatus :=
  match o with ByNone => Available | ByServer => Granted | ByClient _ => Denied end.

(** The channel of a delegated entity tells the server's side of who holds it. *)
Record auth_ok (self : ServerAuthHandler) : Prop := {
  auth_handler : handler_ok self.(host_auth_handler);
  auth_data : forall e, data_of self.(host_auth_handler) e =
                (fun o => {| host_type := Server; status := status_of o |}) <$> self.(entity_auth_map) !! e
}.

Lemma auth_new_ok : auth_ok ServerAuth_new.
Proof. split; [apply new_ok|]. intros e. cbn. unfold data_of; cbn. now rewrite !lookup_empty. Qed.

(** [set_status] after the owner was written: the last status written is the one that counts. *)
Lemma set_status_spec e s self d :
  handler_ok self.(host_auth_handler) -> data_of self.(host_auth_handler) e = Some d ->
  exists h, set_status e s self = Ok (with_host self h) /\ handler_ok h /\
    forall e', data_of h e' = if decide (e' = e) then Some (EntityAuthData_set_auth_status s d) else data_of self.(host_auth_handler) e'.
Proof.
  intros Hh Hd. destruct (set_auth_status_spec e s _ _ Hh Hd) as (h & Hset & Hok & _ & Hdata).
  exists h. unfold set_status. rewrite Hset. auto.
Qed.

(** The abstract holder map of a delegated entity, and its refinement: every operation is a
    function on holders alone. *)
Definition held (self : ServerAuthHandler) (e : GlobalEntity) : option AuthOwner := self.(entity_auth_map) !! e.

Inductive auth_op :=
| ORegister (e : GlobalEntity) | ODeregister (e : GlobalEntity)
| ORequest (e : GlobalEntity) (requester : AuthOwner) | ORelease (e : GlobalEntity) (releaser : AuthOwner)
| OGive (e : GlobalEntity) (u : UserKey) | OTake (e : GlobalEntity).

Definition run_op (op : auth_op) (self : ServerAuthHandler) : res (option AuthorityError * ServerAuthHandler) :=
  let err {T} (r : auth_result T) := match r with inl x => Some x | inr _ => None end in
  match op with
  | ORegister e => self' ← ServerAuth_register_entity e self; Ok (None, self')
  | ODeregister e => Ok (None, ServerAuth_deregister_entity e self)
  | ORequest e o => '(r, self') ← client_request_authority e o self; Ok (err r, self')
  | ORelease e o => '(r, self') ← client_release_authority e o self; Ok (err r, self')
  | OGive e u => '(r, self') ← server_give_authority_to_client e u self; Ok (err r, self')
  | OTake e => '(r, self') ← server_take_authority e self; Ok (err r, self')
  end.

(** What an operation does to the holder of the entity it names; [h = None] is an entity that is
    not delegated.  The result is [None] where the code panics: an entity registered twice. *)
Definition spec_op (op : auth_op) (h : option AuthOwner) : option (option AuthorityError * option AuthOwner) :=
  match op, h with
  | ORegister _, None => Some (None, Some ByNone)
  | ORegister _, Some _ => None
  | ODeregister _, _ => Some (None, None)
  | _, None => Some (Some NotDelegated, None)
  | ORequest _ o, Some ByNone => Some (None, Some o)
  | ORequest _ _, Some holder => Some (Some NotAvailable, Some holder)
  | ORelease _ ByServer, Some _ => Some (None, Some ByNone)
  | ORelease _ o, Some holder => if decide (holder = o) then Some (None, Some ByNone) else Some (Some NotHolder, Some holder)
  | OGive _ u, Some _ => Some (None, Some (ByClient u))
  | OTake _, Some _ => Some (None, Some ByServer)
  end.

Definition op_entity (op : auth_op) : GlobalEntity :=
  match op with ORegister e | ODeregister e | ORequest e _ | ORelease e _ | OGive e _ | OTake e => e end.

(** A run of the server's registry and of the holders alone, with the error of every call. *)
Fixpoint run_ops (ops : list auth_op) (self : ServerAuthHandler) : res (list (option AuthorityError) * ServerAuthHandler) :=
  match ops with
  | [] => Ok ([], self)
  | op :: ops' => '(x, self1) ← run_op op self; '(xs, self2) ← run_ops ops' self1; Ok (x :: xs, self2)
  end.

Fixpoint spec_ops (ops : list auth_op) (h : GlobalEntity -> option AuthOwner)
    : option (list (option AuthorityError) * (GlobalEntity -> option AuthOwner)) :=
  match ops with
  | [] => Some ([], h)
  | op :: ops' =>
      '(x, o) ← spec_op op (h (op_entity op));
      '(xs, h') ← spec_ops ops' (fun e => if decide (e = op_entity op) then o else h e);
      Some (x :: xs, h')
  end.

(** Between the write of a new owner and the write of its status only the entity's own status is
    out of step. *)
Record auth_but (e : GlobalEntity) (self : ServerAuthHandler) : Prop := {
  but_handler : handler_ok self.(host_auth_handler);
  but_self : exists s, data_of self.(host_auth_handler) e = Some {| host_type := Server; status := s |};
  but_data : forall e', e' <> e -> data_of self.(host_auth_handler) e' =
               (fun o => {| host_type := Server; status := status_of o |}) <$> self.(entity_auth_map) !! e'
}.

Lemma with_owner_but self e o o' :
  auth_ok self -> held self e = Some o -> auth_but e (with_owner self e o').
Proof.
  unfold held. intros [Hh Hd] He. split; cbn; [exact Hh| |].
  - exists (status_of o). now rewrite Hd, He.
  - intros e' Hne. rewrite lookup_insert_ne by congruence. apply Hd.
Qed.

Lemma with_users_but e self m : auth_but e self -> auth_but e (with_users self m).
Proof. intros []; split; assumption. Qed.

Lemma set_status_but e s self :
  auth_but e self -> exists self', set_status e s self = Ok self' /\ auth_but e self' /\
    self'.(entity_auth_map) = self.(entity_auth_map) /\ self'.(user_to_entity_map) = self.(user_to_entity_map) /\
    (forall o, self.(entity_auth_map) !! e = Some o -> s = status_of o -> auth_ok self').
Proof.
  intros [Hh [s0 Hs0] Hd]. destruct (set_status_spec e s self _ Hh Hs0) as (h & Hset & Hok & Hdata).
  exists (with_host self h). split; [exact Hset|]. split; [|split; [reflexivity|split; [reflexivity|]]].
  - split; cbn; [exact Hok| |].
    + exists s. now rewrite Hdata, decide_True.
    + intros e' Hne. rewrite Hdata, decide_False by assumption. auto.
  - intros o Ho ->. split; cbn; [exact Hok|]. intros e'. rewrite Hdata. case_decide as Heq; [subst|auto]. now rewrite Ho.
Qed.

Lemma release_all_but e o self :
  auth_but e self -> exists b self', release_all_authority e o self = Ok (b, self') /\ auth_but e self' /\
    self'.(entity_auth_map) = self.(entity_auth_map) /\
    (o <> ByNone -> self.(entity_auth_map) !! e = Some ByNone -> auth_ok self').
Proof.
  intros Hbut. destruct o as [| |u]; cbn [release_all_authority].
  - exists false, self. split_and!; [reflexivity|exact Hbut|reflexivity|congruence].
  - destruct (set_status_but e Available self Hbut) as (self' & -> & Hb & Hm & _ & Hok).
    exists true, self'. split_and!; [reflexivity|exact Hb|exact Hm|]. intros _ Hn. now apply (Hok ByNone).
  - destruct (user_to_entity_map self !! u) as [es|];
      [destruct (set_status_but e Available _ (with_users_but e self (delete u (<[u := es ∖ {[e]}]> (user_to_entity_map self))) Hbut)) as (self' & -> & Hb & Hm & _ & Hok)
      |destruct (set_status_but e Available self Hbut) as (self' & -> & Hb & Hm & _ & Hok)];
      exists true, self'; (split_and!; [reflexivity|exact Hb|exact Hm|]); intros _ Hn; now apply (Hok ByNone).
Qed.

Lemma status_held self e : auth_ok self -> authority_status self e = Ok (status_of <$> held self e).
Proof.
  intros [Hh Hd]. unfold authority_status. rewrite (auth_status_data _ _ Hh), bind_ok, Hd. unfold held.
  now destruct (entity_auth_map self !! e).
Qed.

(** The holder written and the state it leaves. *)
Definition holds_now (e : GlobalEntity) (o : option AuthOwner) (self self' : ServerAuthHandler) : Prop :=
  auth_ok self' /\ forall e', held self' e' = if decide (e' = e) then o else held self e'.

Lemma holds_now_same e self o : auth_ok self -> held self e = o -> holds_now e o self self.
Proof. intros Hok <-. split; [exact Hok|]. intros e'. now case_decide as Heq; [subst|]. Qed.

Lemma holds_now_insert e o self self' :
  auth_ok self' -> self'.(entity_auth_map) = <[e := o]> self.(entity_auth_map) -> holds_now e (Some o) self self'.
Proof.
  intros Hok Hm. split; [exact Hok|]. intros e'. unfold held. rewrite Hm, lookup_insert. repeat case_decide; congruence.
Qed.

Lemma request_spec e o self :
  auth_ok self -> exists x self', run_op (ORequest e o) self = Ok (x, self') /\
    exists h', spec_op (ORequest e o) (held self e) = Some (x, h') /\ holds_now e h' self self'.
Proof.
  intros Hok. cbn [run_op spec_op]. unfold client_request_authority. fold (held self e).
  destruct (held self e) as [[| |u]|] eqn:He; cbn; try (do 2 eexists; split; [reflexivity|]; eexists; split; [reflexivity|]; now apply holds_now_same).
  destruct o as [| |u]; cbn.
  - do 2 eexists. split; [reflexivity|]. eexists. split; [reflexivity|]. now apply holds_now_same.
  - destruct (set_status_but e Granted (with_owner self e ByServer)) as (self' & -> & _ & Hm & _ & Hok'); [eapply with_owner_but; eassumption|].
    do 2 eexists. split; [reflexivity|]. eexists. split; [reflexivity|]. apply holds_now_insert; [|exact Hm].
    apply (Hok' ByServer); cbn; [now rewrite lookup_insert_eq|reflexivity].
  - destruct (set_status_but e Denied (track u e (with_owner self e (ByClient u)))) as (self' & -> & _ & Hm & _ & Hok');
      [eapply with_users_but, with_owner_but; eassumption|].
    do 2 eexists. split; [reflexivity|]. eexists. split; [reflexivity|]. apply holds_now_insert; [|exact Hm].
    apply (Hok' (ByClient u)); cbn; [now rewrite lookup_insert_eq|reflexivity].
Qed.

(** Releasing what nobody holds leaves a consistent registry too. *)
Lemma release_owner e o self :
  auth_ok self -> held self e = Some o ->
  exists b self', release_all_authority e o (with_owner self e ByNone) = Ok (b, self') /\ holds_now e (Some ByNone) self self'.
Proof.
  intros Hok He. destruct (release_all_but e o (with_owner self e ByNone)) as (b & self' & Hr & Hb & Hm & Hok'); [eapply with_owner_but; eassumption|].
  exists b, self'. split; [exact Hr|]. apply holds_now_insert; [|exact Hm].
  destruct (decide (o = ByNone)) as [->|Hne].
  - injection Hr as _ <-. split; [apply Hok|]. intros e'. cbn. rewrite lookup_insert. case_decide as Heq; [subst e'|apply Hok].
    rewrite (auth_data _ Hok). unfold held in He. now rewrite He.
  - apply Hok'; [exact Hne|]. cbn. now rewrite lookup_insert_eq.
Qed.

Lemma release_spec e o self :
  auth_ok self -> exists x self', run_op (ORelease e o) self = Ok (x, self') /\
    exists h', spec_op (ORelease e o) (held self e) = Some (x, h') /\ holds_now e h' self self'.
Proof.
  intros Hok. cbn [run_op]. unfold client_release_authority. fold (held self e).
  destruct (held self e) as [h|] eqn:He; cbn.
  2: { do 2 eexists. split; [reflexivity|]. exists None. split; [now destruct o|]. now apply holds_now_same. }
  destruct (release_owner e h self Hok He) as (b & self' & Hr & Hnow).
  destruct (bool_decide (h = o)) eqn:Ho; cbn.
  - apply bool_decide_eq_true_1 in Ho as ->. rewrite Hr. do 2 eexists. split; [reflexivity|].
    eexists. split; [|exact Hnow]. destruct o; cbn; [reflexivity|reflexivity|]. now rewrite decide_True.
  - apply bool_decide_eq_false_1 in Ho. destruct (bool_decide (o = ByServer)) eqn:Hs.
    + apply bool_decide_eq_true_1 in Hs as ->. rewrite Hr. do 2 eexists. split; [reflexivity|]. eexists. split; [reflexivity|exact Hnow].
    + apply bool_decide_eq_false_1 in Hs. do 2 eexists. split; [reflexivity|]. exists (Some h). split; [|now apply holds_now_same].
      destruct o; [|congruence|]; cbn; now rewrite decide_False.
Qed.

(** Overriding the holder: [give] and [take]. *)
Lemma override_spec e o self self1 h b :
  auth_ok self -> held self e = Some h ->
  release_all_authority e h (with_owner self e o) = Ok (b, self1) ->
  forall m, exists self', set_status e (status_of o) (with_users self1 m) = Ok self' /\ holds_now e (Some o) self self'.
Proof.
  intros Hok He Hr m. destruct (release_all_but e h (with_owner self e o)) as (b' & s1 & Hr' & Hb & Hm & _); [eapply with_owner_but; eassumption|].
  rewrite Hr in Hr'. injection Hr' as -> ->.
  destruct (set_status_but e (status_of o) _ (with_users_but _ _ m Hb)) as (self' & -> & _ & Hm' & _ & Hok').
  exists self'. split; [reflexivity|]. apply holds_now_insert; [|now rewrite Hm'; cbn; rewrite Hm].
  apply (Hok' o); [|reflexivity]. cbn. rewrite Hm. cbn. now rewrite lookup_insert_eq.
Qed.

Lemma with_users_self self : with_users self self.(user_to_entity_map) = self.
Proof. now destruct self. Qed.

Lemma give_spec e u self :
  auth_ok self -> exists x self', run_op (OGive e u) self = Ok (x, self') /\
    exists h', spec_op (OGive e u) (held self e) = Some (x, h') /\ holds_now e h' self self'.
Proof.
  intros Hok. cbn [run_op spec_op]. unfold server_give_authority_to_client. fold (held self e).
  destruct (held self e) as [h|] eqn:He; cbn.
  2: { do 2 eexists. split; [reflexivity|]. eexists. split; [reflexivity|]. now apply holds_now_same. }
  destruct (decide (h = ByClient u)) as [->|Hne].
  - do 2 eexists. split; [reflexivity|]. eexists. split; [reflexivity|]. now apply holds_now_same.
  - destruct (release_all_but e h (with_owner self e (ByClient u))) as (b & s1 & Hr & _); [eapply with_owner_but; eassumption|].
    rewrite Hr. cbn. edestruct (override_spec e (ByClient u) self s1 h b) as (self' & Hset & Hnow); [assumption..|].
    cbn [status_of] in Hset. unfold track. rewrite Hset. do 2 eexists. split; [reflexivity|]. eexists. now split.
Qed.

Lemma take_spec e self :
  auth_ok self -> exists x self', run_op (OTake e) self = Ok (x, self') /\
    exists h', spec_op (OTake e) (held self e) = Some (x, h') /\ holds_now e h' self self'.
Proof.
  intros Hok. cbn [run_op spec_op]. unfold server_take_authority. fold (held self e).
  destruct (held self e) as [h|] eqn:He; cbn.
  2: { do 2 eexists. split; [reflexivity|]. eexists. split; [reflexivity|]. now apply holds_now_same. }
  destruct (decide (h = ByServer)) as [->|Hne].
  - do 2 eexists. split; [reflexivity|]. eexists. split; [reflexivity|]. now apply holds_now_same.
  - destruct (release_all_but e h (with_owner self e ByServer)) as (b & s1 & Hr & _); [eapply with_owner_but; eassumption|].
    rewrite Hr. cbn. edestruct (override_spec e ByServer self s1 h b) as (self' & Hset & Hnow); [assumption..|].
    rewrite with_users_self in Hset. cbn [status_of] in Hset. rewrite Hset. do 2 eexists. split; [reflexivity|]. eexists. now split.
Qed.

(** The same, for a delegated entity and with the value the call returns. *)
Lemma take_returns e o self : auth_ok self -> held self e = Some o ->
  exists self', server_take_authority e self = Ok (inr o, self') /\ holds_now e (Some ByServer) self self'.
Proof.
  intros Hok He. destruct (take_spec e self Hok) as (x & self' & Hr & h' & Hs & Hn). rewrite He in Hs. injection Hs as <- <-.
  exists self'. split; [|exact Hn]. cbn [run_op] in Hr. unfold server_take_authority in *. fold (held self e) in *. rewrite He in *.
  case_decide as Hd; [now injection Hr as <-|]. apply bind_ok_inv in Hr as ([r s] & Hr & H). apply bind_ok_inv in Hr as ([b s1] & Hr & H1).
  apply bind_ok_inv in H1 as (s2 & H2 & H1). injection H1 as <- <-. injection H as <-. now rewrite Hr; cbn; rewrite H2.
Qed.

Lemma give_returns e u o self : auth_ok self -> held self e = Some o ->
  exists self', server_give_authority_to_client e u self = Ok (inr o, self') /\ holds_now e (Some (ByClient u)) self self'.
Proof.
  intros Hok He. destruct (give_spec e u self Hok) as (x & self' & Hr & h' & Hs & Hn). rewrite He in Hs. injection Hs as <- <-.
  exists self'. split; [|exact Hn]. cbn [run_op] in Hr. unfold server_give_authority_to_client in *. fold (held self e) in *. rewrite He in *.
  case_decide as Hd; [now injection Hr as <-|]. apply bind_ok_inv in Hr as ([r s] & Hr & H). apply bind_ok_inv in Hr as ([b s1] & Hr & H1).
  apply bind_ok_inv in H1 as (s2 & H2 & H1). injection H1 as <- <-. injection H as <-. now rewrite Hr; cbn; rewrite H2.
Qed.

Lemma request_returns e o self : auth_ok self -> held self e = Some ByNone ->
  exists self', client_request_authority e o self = Ok (inr tt, self') /\ holds_now e (Some o) self self'.
Proof.
  intros Hok He. destruct (request_spec e o self Hok) as (x & self' & Hr & h' & Hs & Hn). rewrite He in Hs. injection Hs as <- <-.
  exists self'. split; [|exact Hn]. cbn [run_op] in Hr. apply bind_ok_inv in Hr as ([[r|[]] s] & Hr & H); [discriminate|]. now injection H as <-.
Qed.

Lemma release_returns e o self : auth_ok self -> (held self e = Some o \/ (o = ByServer /\ is_Some (held self e))) ->
  exists self', client_release_authority e o self = Ok (inr tt, self') /\ holds_now e (Some ByNone) self self'.
Proof.
  intros Hok He. destruct (release_spec e o self Hok) as (x & self' & Hr & h' & Hs & Hn).
  assert (x = None /\ h' = Some ByNone) as [-> ->].
  { destruct He as [He|[-> [h He]]]; rewrite He in Hs; cbn in Hs; [|now injection Hs].
    destruct o; cbn in Hs; [now injection Hs|now injection Hs|]. rewrite decide_True in Hs by reflexivity. now injection Hs. }
  exists self'. split; [|exact Hn]. cbn [run_op] in Hr. apply bind_ok_inv in Hr as ([[r|[]] s] & Hr & H); [discriminate|]. now injection H as <-.
Qed.

Lemma auth_register_step e self :
  auth_ok self -> match held self e with
  | Some _ => run_op (ORegister e) self = Panic
  | None => exists self', run_op (ORegister e) self = Ok (None, self') /\ holds_now e (Some ByNone) self self'
  end.
Proof.
  intros Hok. pose proof (auth_data _ Hok e) as Hd. fold (held self e) in Hd. cbn [run_op]. unfold ServerAuth_register_entity.
  destruct (held self e) as [h|] eqn:He; cbn in Hd.
  - unfold HostAuth_register_entity, data_of in *. destruct (auth_channels _ !! e); [reflexivity|discriminate].
  - destruct (auth_channels (host_auth_handler self) !! e) eqn:Hc.
    { destruct (proj2 (data_of_dom _ e (auth_handler _ Hok))) as [d Hd']; [rewrite Hc; eauto|]. congruence. }
    destruct (register_spec Server e _ (auth_handler _ Hok) Hc) as (loc & h' & -> & Hh' & _ & _ & Hdata). cbn.
    eexists. split; [reflexivity|]. apply holds_now_insert; [|reflexivity]. split; cbn; [exact Hh'|].
    intros e'. rewrite Hdata, lookup_insert. do 2 case_decide; subst; try congruence; [reflexivity|apply Hok].
Qed.

Lemma auth_deregister_step e self : auth_ok self -> holds_now e None self (ServerAuth_deregister_entity e self).
Proof.
  intros Hok. destruct (deregister_spec e _ (auth_handler _ Hok)) as (Hh & _ & Hd). split; [split; cbn; [exact Hh|]|].
  - intros e'. rewrite Hd. case_decide as Heq; [subst; now rewrite lookup_delete_eq|]. rewrite lookup_delete_ne by congruence. apply Hok.
  - intros e'. unfold held; cbn. case_decide as Heq; [subst; apply lookup_delete_eq|]. now rewrite lookup_delete_ne by congruence.
Qed.

Lemma run_op_refines op self :
  auth_ok self -> match spec_op op (held self (op_entity op)) with
  | None => run_op op self = Panic
  | Some (x, h') => exists self', run_op op self = Ok (x, self') /\ holds_now (op_entity op) h' self self'
  end.
Proof.
  intros Hok. destruct op as [e|e|e o|e o|e u|e]; cbn [op_entity].
  - pose proof (auth_register_step e self Hok) as H. cbn [spec_op]. now destruct (held self e).
  - cbn. eexists. split; [reflexivity|]. now apply auth_deregister_step.
  - destruct (request_spec e o self Hok) as (x & self' & Hr & h' & -> & Hn). eauto.
  - destruct (release_spec e o self Hok) as (x & self' & Hr & h' & -> & Hn). eauto.
  - destruct (give_spec e u self Hok) as (x & self' & Hr & h' & -> & Hn). eauto.
  - destruct (take_spec e self Hok) as (x & self' & Hr & h' & -> & Hn). eauto.
Qed.

Lemma run_ops_refines ops self h :
  auth_ok self -> (forall e, held self e = h e) ->
  match spec_ops ops h with
  | None => run_ops ops self = Panic
  | Some (xs, h') => exists self', run_ops ops self = Ok (xs, self') /\ auth_ok self' /\ forall e, held self' e = h' e
  end.
Proof.
  revert self h; induction ops as [|op ops IH]; intros self h Hok Hh; cbn [spec_ops run_ops]; [eauto|].
  pose proof (run_op_refines op self Hok) as Hop. rewrite Hh in Hop.
  destruct (spec_op op (h (op_entity op))) as [[x o]|]; cbn; [|now rewrite Hop].
  destruct Hop as (self1 & -> & Hok1 & Hh1). cbn.
  specialize (IH self1 (fun e => if decide (e = op_entity op) then o else h e) Hok1).
  destruct (spec_ops ops _) as [[xs h']|]; cbn.
  - destruct IH as (self2 & -> & Hok2 & Hh2); [intros e; rewrite Hh1; case_decide; auto|]. cbn. eauto.
  - rewrite IH; [reflexivity|]. intros e; rewrite Hh1; case_decide; auto.
Qed.

(** C20: Whatever calls the server makes, its registry answers and behaves like a map from delegated
    entities to their holder: every call returns the error the holder map prescribes (only a second
    registration panics), at most one owner is recorded per entity, and the status its channel
    shows is Available without a holder, Granted while the server holds it and Denied while a
    client does. *)
Theorem authority_refines_holders ops :
  match spec_ops ops (fun _ => None) with
  | None => run_ops ops ServerAuth_new = Panic
  | Some (xs, h) => exists self, run_ops ops ServerAuth_new = Ok (xs, self) /\
      forall e, held self e = h e /\ authority_status self e = Ok (status_of <$> h e) /\
                entity_has_holder self e = bool_decide (h e <> None /\ h e <> Some ByNone)
  end.
Proof.
  pose proof (run_ops_refines ops ServerAuth_new (fun _ => None) auth_new_ok) as H.
  destruct (spec_ops ops _) as [[xs h]|]; [|now apply H].
  destruct H as (self & Hrun & Hok & Hh); [intros e; apply lookup_empty|]. exists self. split; [exact Hrun|].
  intros e. split; [apply Hh|]. split; [now rewrite status_held, Hh|].
  unfold entity_has_holder. fold (held self e). rewrite Hh. symmetry.
  destruct (h e) as [[| |u]|]; [apply bool_decide_eq_false_2|apply bool_decide_eq_true_2..|apply bool_decide_eq_false_2]; intuition congruence.
Qed.

(** ** The entities listed for a user *)
Definition listed (self : ServerAuthHandler) (u : UserKey) (e : GlobalEntity) : Prop :=
  exists es, user_all_owned_entities self u = Some es /\ e ∈ es.

(** Everything listed for a user is held by it. *)
Definition listed_sound (self : ServerAuthHandler) : Prop := forall u e, listed self u e -> held self e = Some (ByClient u).

Lemma set_status_frame e s self self' :
  set_status e s self = Ok self' -> self'.(entity_auth_map) = self.(entity_auth_map) /\ self'.(user_to_entity_map) = self.(user_to_entity_map).
Proof. unfold set_status. intros H. res_inv. now subst. Qed.

Lemma release_all_frame e o self b self' :
  release_all_authority e o self = Ok (b, self') ->
  self'.(entity_auth_map) = self.(entity_auth_map) /\
  self'.(user_to_entity_map) = match o with ByClient u => delete u self.(user_to_entity_map) | _ => self.(user_to_entity_map) end.
Proof.
  destruct o as [| |u]; cbn [release_all_authority]; intros H; [injection H as <- <-; easy|..];
    apply bind_ok_inv in H as (s & Hs & H); injection H as <- <-.
  - now apply set_status_frame in Hs.
  - destruct (user_to_entity_map self !! u) eqn:Hu; apply set_status_frame in Hs as [-> ->]; cbn; split; try reflexivity.
    + now rewrite delete_insert_eq.
    + now rewrite delete_id.
Qed.

Lemma listed_dropped self self' u' u e :
  self'.(user_to_entity_map) = delete u' self.(user_to_entity_map) -> listed self' u e -> u <> u' /\ listed self u e.
Proof.
  intros Hm (es & Hes & Hin). unfold user_all_owned_entities in Hes. rewrite Hm in Hes.
  apply lookup_delete_Some in Hes as [Hne Hes]. split; [congruence|]. now exists es.
Qed.

(** A user's list becomes empty when it gives up any of its entities, so that
    [user_all_owned_entities] no longer names the entities it goes on holding. *)
Lemma release_forgets_the_rest self e u self' :
  held self e = Some (ByClient u) -> client_release_authority e (ByClient u) self = Ok (inr tt, self') ->
  user_all_owned_entities self' u = None /\ forall e', e' <> e -> user_is_authority_holder self' u e' = user_is_authority_holder self u e'.
Proof.
  intros He. unfold client_release_authority. fold (held self e). rewrite He, bool_decide_true by reflexivity. cbn [orb].
  intros H. apply bind_ok_inv in H as ([b s] & Hr & H). injection H as <-. apply release_all_frame in Hr as [Hm Hu].
  unfold user_all_owned_entities, user_is_authority_holder. rewrite Hm, Hu. cbn. split; [apply lookup_delete_eq|].
  intros e' Hne. now rewrite lookup_insert_ne by congruence.
Qed.

Lemma listed_track self u e u' e' :
  listed (track u e self) u' e' -> (u' = u /\ e' = e) \/ listed self u' e'.
Proof.
  intros (es & Hes & Hin). unfold user_all_owned_entities, track in Hes. cbn in Hes. rewrite lookup_insert in Hes.
  case_decide as Hu; [|right; now exists es]. injection Hes as <-. subst u'.
  apply elem_of_union in Hin as [->%elem_of_singleton|Hin]; [now left|]. right.
  destruct (user_to_entity_map self !! u) as [es'|] eqn:Hu; [now exists es'|]. now apply elem_of_empty in Hin.
Qed.

(** What changes the lists and the holders of an operation: the holder of [e] becomes [o], the
    list of its former holder goes and, if [o] is a client, its list gains [e]. *)
Lemma listed_sound_override self self' e o h :
  listed_sound self -> held self e = Some h ->
  self'.(entity_auth_map) = <[e := o]> self.(entity_auth_map) ->
  (forall u' e', listed self' u' e' -> (o = ByClient u' /\ e' = e) \/ (h <> ByClient u' /\ listed self u' e')) -> listed_sound self'.
Proof.
  intros Hs He Hm Hl u e' Hle. unfold held. rewrite Hm, lookup_insert.
  destruct (Hl u e' Hle) as [[-> ->]|[Hne Hold]]; [now case_decide|].
  pose proof (Hs u e' Hold) as Hh. case_decide as Heq; [|exact Hh]. subst. rewrite He in Hh. congruence.
Qed.

Lemma listed_released self e o self1 u e' b h :
  release_all_authority e h (with_owner self e o) = Ok (b, self1) -> listed self1 u e' ->
  listed_sound self -> h <> ByClient u /\ listed self u e'.
Proof.
  intros Hr%release_all_frame (es & Hes & Hin) Hs. destruct Hr as [_ Hu]. unfold user_all_owned_entities in Hes. rewrite Hu in Hes.
  destruct h as [| |u0]; cbn in Hes; [split; [easy|now exists es]..|].
  apply lookup_delete_Some in Hes as [Hne Hes]. split; [congruence|now exists es].
Qed.

(** Until delegation of an entity is disabled, the list of a user names only entities it holds. *)
Lemma listed_sound_step op self x self' :
  (forall e, op <> ODeregister e) -> auth_ok self -> listed_sound self -> run_op op self = Ok (x, self') -> listed_sound self'.
Proof.
  intros Hnd Hok Hs. destruct op as [e|e|e o|e o|e u|e]; cbn [run_op]; intros H; [|now specialize (Hnd e)|..];
    apply bind_ok_inv in H as (r & Hr & H).
  - unfold ServerAuth_register_entity in Hr. apply bind_ok_inv in Hr as ([loc h] & Hreg & Hr). injection Hr as <-. injection H as <- <-.
    intros u e' Hl. specialize (Hs u e' Hl). unfold held; cbn. rewrite lookup_insert. case_decide as Heq; [|exact Hs]. subst.
    pose proof (auth_register_step e' self Hok) as Hstep. rewrite Hs in Hstep. cbn in Hstep. unfold ServerAuth_register_entity in Hstep.
    rewrite Hreg in Hstep. discriminate.
  - destruct r as [r s]. injection H as <- <-. unfold client_request_authority in Hr. fold (held self e) in Hr.
    destruct (held self e) as [h|] eqn:He; [|now injection Hr as <- <-]. case_decide as Hh; [|now injection Hr as <- <-]. subst h.
    destruct o as [| |u]; [now injection Hr as <- <-|..]; apply bind_ok_inv in Hr as (s1 & Hr & H); injection H as <- <-;
      apply set_status_frame in Hr as [Hm Hu]; (eapply (listed_sound_override self); [exact Hs|exact He|exact Hm|]).
    + intros u' e' (es & Hes & Hin). right. split; [easy|]. exists es. unfold user_all_owned_entities in *. rewrite Hu in Hes. easy.
    + intros u' e' (es & Hes & Hin). unfold user_all_owned_entities in Hes. rewrite Hu in Hes.
      destruct (listed_track (with_owner self e (ByClient u)) u e u' e') as [[-> ->]|Hl]; [now exists es|now left|now right].
  - destruct r as [r s]. injection H as <- <-. unfold client_release_authority in Hr. fold (held self e) in Hr.
    destruct (held self e) as [h|] eqn:He; [|now injection Hr as <- <-]. destruct (_ || _); [|now injection Hr as <- <-].
    apply bind_ok_inv in Hr as ([b s1] & Hr & H). injection H as <- <-. pose proof (release_all_frame _ _ _ _ _ Hr) as [Hm _].
    eapply (listed_sound_override self); [exact Hs|exact He|exact Hm|]. intros u' e' Hl. right. eauto using listed_released.
  - destruct r as [r s]. injection H as <- <-. unfold server_give_authority_to_client in Hr. fold (held self e) in Hr.
    destruct (held self e) as [h|] eqn:He; [|now injection Hr as <- <-]. case_decide as Hh; [now injection Hr as <- <-|].
    apply bind_ok_inv in Hr as ([b s1] & Hr & H). apply bind_ok_inv in H as (s2 & Hset & H). injection H as <- <-.
    pose proof (release_all_frame _ _ _ _ _ Hr) as [Hm _]. apply set_status_frame in Hset as [Hm' Hu'].
    eapply (listed_sound_override self); [exact Hs|exact He|rewrite Hm'; exact Hm|].
    intros u' e' (es & Hes & Hin). unfold user_all_owned_entities in Hes. rewrite Hu' in Hes.
    destruct (listed_track s1 u e u' e') as [[-> ->]|Hl]; [now exists es|now left|right]. eauto using listed_released.
  - destruct r as [r s]. injection H as <- <-. unfold server_take_authority in Hr. fold (held self e) in Hr.
    destruct (held self e) as [h|] eqn:He; [|now injection Hr as <- <-]. case_decide as Hh; [now injection Hr as <- <-|].
    apply bind_ok_inv in Hr as ([b s1] & Hr & H). apply bind_ok_inv in H as (s2 & Hset & H). injection H as <- <-.
    pose proof (release_all_frame _ _ _ _ _ Hr) as [Hm _]. apply set_status_frame in Hset as [Hm' Hu'].
    eapply (listed_sound_override self); [exact Hs|exact He|rewrite Hm'; exact Hm|].
    intros u' e' (es & Hes & Hin). unfold user_all_owned_entities in Hes. rewrite Hu' in Hes. right.
    eapply listed_released; [eassumption|now exists es|exact Hs].
Qed.

(** Disabling delegation leaves the entity in its holder's list. *)
Lemma deregister_leaves_listed self u e : listed self u e -> listed (ServerAuth_deregister_entity e self) u e.
Proof. now intros (es & ? & ?); exists es. Qed.

(** User 4 holds two entities and gives up one: it still holds the other, but is listed with none. *)
Example holder_not_listed :
  exists self, run_ops [ORegister 1; ORegister 2; ORequest 1 (ByClient 4); ORequest 2 (ByClient 4); ORelease 1 (ByClient 4)] ServerAuth_new
                 = Ok ([None; None; None; None; None], self) /\
    user_is_authority_holder self 4 2 = true /\ user_all_owned_entities self 4 = None.
Proof. eexists. split; [reflexivity|]. split; reflexivity. Qed.
End ServerAuth.
