(* ===== verification/Rooms.v ===== *)
(** Rooms and the maps that mirror them on the server:
    - [Room] ([src/server/src/room.rs]), [RoomStore] ([server/room_store.rs]),
      [ScopeChange] ([server/scope_change.rs]);
    - [UserStore] and [WorldUser] ([server/user_store.rs], [user/world_user.rs]);
    - [EntityRoomMap], [EntityScopeMap] ([world/entity_room_map.rs], [world/entity_scope_map.rs]);
    - [ScopeChecksCache] ([server/scope_checks_cache.rs]).

    [iter_u], [iter_e] and [iter_r] are the orders in which hash sets of users, of entities and
    of rooms are walked. *)

From Stdlib Require Import ZArith Lia.
From stdpp Require Import base numbers option list gmap sets.
From S2P Require Import Prelude EntityTypes EntityMaps Waitlist Authority.

Abbreviation RoomKey := Z.

Inductive ScopeChange :=
| UserEnteredRoom (user_key : UserKey) (room_key : RoomKey)
| UserLeftRoom (user_key : UserKey) (room_key : RoomKey)
| EntityEnteredRoom (global_entity : GlobalEntity) (room_key : RoomKey)
| ScopeToggled (user_key : UserKey) (global_entity : GlobalEntity) (is_included : bool).

(** * The rooms an entity is in *)
Abbreviation EntityRoomMap := (gmap GlobalEntity (gset RoomKey)).

Definition entity_get_rooms (self : EntityRoomMap) (entity : GlobalEntity) : option (gset RoomKey) := self !! entity.

Definition entity_add_room (entity : GlobalEntity) (room_key : RoomKey) (self : EntityRoomMap) : EntityRoomMap :=
  let self := match self !! entity with Some _ => self | None => <[entity := ∅]> self end in
  match self !! entity with
  | Some rooms => <[entity := {[room_key]} ∪ rooms]> self
  | None => self
  end.

Definition remove_from_room (entity : GlobalEntity) (room_key : RoomKey) (self : EntityRoomMap) : EntityRoomMap :=
  match self !! entity with
  | Some rooms =>
      let rooms := rooms ∖ {[room_key]} in
      if decide (rooms = ∅) then delete entity (<[entity := rooms]> self) else <[entity := rooms]> self
  | None => self
  end.

(** * Explicit inclusion and exclusion *)
Record EntityScopeMap := mkScopeMap {
  entities_of_user : gmap UserKey (gset GlobalEntity);
  users_of_entity : gmap GlobalEntity (gset UserKey);
  main_map : gmap (UserKey * GlobalEntity) bool
}.

Definition ScopeMap_new : EntityScopeMap := {| entities_of_user := ∅; users_of_entity := ∅; main_map := ∅ |}.

Definition ScopeMap_get (self : EntityScopeMap) (user_key : UserKey) (entity : GlobalEntity) : option bool :=
  self.(main_map) !! (user_key, entity).

Definition ScopeMap_insert (user_key : UserKey) (entity : GlobalEntity) (in_scope : bool) (self : EntityScopeMap) : EntityScopeMap :=
  {| entities_of_user := <[user_key := {[entity]} ∪ default ∅ (self.(entities_of_user) !! user_key)]> self.(entities_of_user);
     users_of_entity := <[entity := {[user_key]} ∪ default ∅ (self.(users_of_entity) !! entity)]> self.(users_of_entity);
     main_map := <[(user_key, entity) := in_scope]> self.(main_map) |}.

(** * The mirror of (room, user, entity) triples *)
Record ScopeChecksCache (E : Type) := mkCache {
  tuples : list (RoomKey * UserKey * E);
  pending : list (RoomKey * UserKey * E)
}.
Arguments mkCache {E} _ _.
Arguments tuples {E} _.
Arguments pending {E} _.

Section Cache.
Context {E : Type} {eqE : EqDecision E}.
Abbreviation Cache := (ScopeChecksCache E).

Definition Cache_new : Cache := mkCache [] [].
Definition pending_slice (self : Cache) : list (RoomKey * UserKey * E) := self.(pending).
Definition mark_pending_handled (self : Cache) : Cache := mkCache self.(tuples) [].
Definition mark_all_pending (self : Cache) : Cache := mkCache self.(tuples) self.(tuples).

Definition push_all (new : list (RoomKey * UserKey * E)) (self : Cache) : Cache :=
  mkCache (self.(tuples) ++ new) (self.(pending) ++ new).

Definition retain (P : RoomKey * UserKey * E -> Prop) `{!forall t, Decision (P t)} (self : Cache) : Cache :=
  mkCache (filter P self.(tuples)) (filter P self.(pending)).

Definition on_user_added_to_room (room_key : RoomKey) (user_key : UserKey) (entities_in_room : list E) (self : Cache) : Cache :=
  push_all (map (fun entity => (room_key, user_key, entity)) entities_in_room) self.

Definition on_user_removed_from_room (room_key : RoomKey) (user_key : UserKey) (self : Cache) : Cache :=
  retain (fun t => t.1.1 <> room_key \/ t.1.2 <> user_key) self.

Definition on_entity_added_to_room (room_key : RoomKey) (entity : E) (users_in_room : list UserKey) (self : Cache) : Cache :=
  push_all (map (fun user_key => (room_key, user_key, entity)) users_in_room) self.

Definition on_entity_removed_from_room (room_key : RoomKey) (entity : E) (self : Cache) : Cache :=
  retain (fun t => t.1.1 <> room_key \/ t.2 <> entity) self.

Definition on_entity_despawned (entity : E) (self : Cache) : Cache := retain (fun t => t.2 <> entity) self.

Definition on_room_destroyed (room_key : RoomKey) (self : Cache) : Cache := retain (fun t => t.1.1 <> room_key) self.
End Cache.

Section Rooms.
Context (iter_u : gset UserKey -> list UserKey) (iter_e : gset GlobalEntity -> list GlobalEntity)
        (iter_r : gset RoomKey -> list RoomKey).
Context {E A : Type} {eqE : EqDecision E} {cE : Countable E} {eqA : EqDecision A} {cA : Countable A}.

Definition remove_from_all_rooms (entity : GlobalEntity) (self : EntityRoomMap) : option (list RoomKey) * EntityRoomMap :=
  let output := match self !! entity with Some rooms => iter_r rooms | None => [] end in
  (match output with [] => None | _ => Some output end, delete entity self).

Definition ScopeMap_remove_user (user_key : UserKey) (self : EntityScopeMap) : EntityScopeMap :=
  let forget entity self :=
    match self.(users_of_entity) !! entity with
    | Some users =>
        {| entities_of_user := self.(entities_of_user); users_of_entity := <[entity := users ∖ {[user_key]}]> self.(users_of_entity);
           main_map := delete (user_key, entity) self.(main_map) |}
    | None => self
    end in
  let self :=
    match self.(entities_of_user) !! user_key with
    | Some entities => foldr forget self (rev (iter_e entities))
    | None => self
    end in
  {| entities_of_user := delete user_key self.(entities_of_user); users_of_entity := self.(users_of_entity); main_map := self.(main_map) |}.

Definition ScopeMap_remove_entity (entity : GlobalEntity) (self : EntityScopeMap) : EntityScopeMap :=
  let forget user self :=
    match self.(entities_of_user) !! user with
    | Some entities =>
        {| entities_of_user := <[user := entities ∖ {[entity]}]> self.(entities_of_user); users_of_entity := self.(users_of_entity);
           main_map := delete (user, entity) self.(main_map) |}
    | None => self
    end in
  let self :=
    match self.(users_of_entity) !! entity with
    | Some users => foldr forget self (rev (iter_u users))
    | None => self
    end in
  {| entities_of_user := self.(entities_of_user); users_of_entity := delete entity self.(users_of_entity); main_map := self.(main_map) |}.

(** * One room *)
Record Room := mkRoom {
  users : gset UserKey;
  entities : gset GlobalEntity;
  entity_removal_queue : list (UserKey * GlobalEntity)
}.

Definition Room_new : Room := {| users := ∅; entities := ∅; entity_removal_queue := [] |}.
Definition Room_has_user (self : Room) (user_key : UserKey) : bool := bool_decide (user_key ∈ self.(users)).
Definition subscribe_user (user_key : UserKey) (self : Room) : Room :=
  {| users := {[user_key]} ∪ self.(users); entities := self.(entities); entity_removal_queue := self.(entity_removal_queue) |}.
Definition unsubscribe_user (user_key : UserKey) (self : Room) : Room :=
  {| users := self.(users) ∖ {[user_key]}; entities := self.(entities);
     entity_removal_queue := self.(entity_removal_queue) ++ map (fun entity => (user_key, entity)) (iter_e self.(entities)) |}.
Definition Room_user_keys (self : Room) : list UserKey := iter_u self.(users).
Definition Room_users_count (self : Room) : nat := size self.(users).
Definition Room_add_entity (global_entity : GlobalEntity) (self : Room) : Room :=
  {| users := self.(users); entities := {[global_entity]} ∪ self.(entities); entity_removal_queue := self.(entity_removal_queue) |}.
Definition Room_remove_entity (global_entity : GlobalEntity) (entity_is_despawned : bool) (self : Room) : res Room :=
  if decide (global_entity ∈ self.(entities)) then
    Ok {| users := self.(users); entities := self.(entities) ∖ {[global_entity]};
          entity_removal_queue :=
            if entity_is_despawned then self.(entity_removal_queue)
            else self.(entity_removal_queue) ++ map (fun user_key => (user_key, global_entity)) (iter_u self.(users)) |}
  else Panic.
Definition Room_has_entity (self : Room) (global_entity : GlobalEntity) : bool := bool_decide (global_entity ∈ self.(entities)).
Definition Room_entities (self : Room) : list GlobalEntity := iter_e self.(entities).
Definition pop_entity_removal_queue (self : Room) : option (UserKey * GlobalEntity) * Room :=
  match self.(entity_removal_queue) with
  | [] => (None, self)
  | x :: q => (Some x, {| users := self.(users); entities := self.(entities); entity_removal_queue := q |})
  end.
Definition Room_entities_count (self : Room) : nat := size self.(entities).

(** * Users *)
Record WorldUser := mkWorldUser { data_addr : A; rooms_cache : gset RoomKey }.

Definition WorldUser_new (address : A) : WorldUser := {| data_addr := address; rooms_cache := ∅ |}.
Definition cache_room (room_key : RoomKey) (self : WorldUser) : WorldUser :=
  {| data_addr := self.(data_addr); rooms_cache := {[room_key]} ∪ self.(rooms_cache) |}.
Definition uncache_room (room_key : RoomKey) (self : WorldUser) : WorldUser :=
  {| data_addr := self.(data_addr); rooms_cache := self.(rooms_cache) ∖ {[room_key]} |}.
Definition WorldUser_rooms_count (self : WorldUser) : nat := size self.(rooms_cache).

Record UserStore := mkUserStore { store_users : gmap UserKey WorldUser; disconnected_users : gmap A UserKey }.

Definition UserStore_new : UserStore := {| store_users := ∅; disconnected_users := ∅ |}.
Definition UserStore_get (self : UserStore) (key : UserKey) : option WorldUser := self.(store_users) !! key.
Definition UserStore_contains (self : UserStore) (key : UserKey) : bool := bool_decide (is_Some (self.(store_users) !! key)).
(** [insert], and the write through [get_mut]. *)
Definition UserStore_insert (key : UserKey) (user : WorldUser) (self : UserStore) : UserStore :=
  {| store_users := <[key := user]> self.(store_users); disconnected_users := self.(disconnected_users) |}.
Definition UserStore_remove (key : UserKey) (self : UserStore) : option WorldUser * UserStore :=
  (self.(store_users) !! key, {| store_users := delete key self.(store_users); disconnected_users := self.(disconnected_users) |}).
Definition UserStore_len (self : UserStore) : nat := size self.(store_users).
Definition UserStore_address (self : UserStore) (key : UserKey) : option A := data_addr <$> self.(store_users) !! key.
Definition room_keys_iter (self : UserStore) (key : UserKey) : option (list RoomKey) :=
  (fun u => iter_r u.(rooms_cache)) <$> self.(store_users) !! key.
Definition UserStore_rooms_count (self : UserStore) (key : UserKey) : option nat := WorldUser_rooms_count <$> self.(store_users) !! key.
Definition register_disconnected (addr : A) (key : UserKey) (self : UserStore) : UserStore :=
  {| store_users := self.(store_users); disconnected_users := <[addr := key]> self.(disconnected_users) |}.
Definition take_disconnected (addr : A) (self : UserStore) : option UserKey * UserStore :=
  (self.(disconnected_users) !! addr,
   {| store_users := self.(store_users); disconnected_users := delete addr self.(disconnected_users) |}).

(** * The room store *)
Abbreviation RoomStore := (BigMap Room).
Abbreviation GMap := (@GlobalEntityMap.GlobalEntityMap E eqE cE).
Abbreviation SCache := (ScopeChecksCache E).

Definition RoomStore_contains (self : RoomStore) (key : RoomKey) : bool := bool_decide (is_Some (BigMap_get key self)).
Definition RoomStore_len (self : RoomStore) : nat := size (bm_inner self).
Definition RoomStore_has_user (self : RoomStore) (room_key : RoomKey) (user_key : UserKey) : bool :=
  match BigMap_get room_key self with Some r => Room_has_user r user_key | None => false end.
Definition RoomStore_users_count (self : RoomStore) (room_key : RoomKey) : nat :=
  match BigMap_get room_key self with Some r => Room_users_count r | None => O end.
Definition user_keys_iter (self : RoomStore) (room_key : RoomKey) : list UserKey :=
  match BigMap_get room_key self with Some r => Room_user_keys r | None => [] end.
Definition entities_iter (self : RoomStore) (room_key : RoomKey) : list GlobalEntity :=
  match BigMap_get room_key self with Some r => Room_entities r | None => [] end.
Definition RoomStore_has_entity (self : RoomStore) (room_key : RoomKey) (entity : GlobalEntity) : bool :=
  match BigMap_get room_key self with Some r => Room_has_entity r entity | None => false end.
Definition RoomStore_entities_count (self : RoomStore) (room_key : RoomKey) : nat :=
  match BigMap_get room_key self with Some r => Room_entities_count r | None => O end.

(** What the stores hold together; each operation takes the parts it needs. *)
Record Membership := mkMembership {
  room_store : RoomStore;
  user_store : UserStore;
  entity_room_map : EntityRoomMap;
  scope_checks_cache : SCache
}.

Definition RoomStore_add_user (room_key : RoomKey) (user_key : UserKey) (entity_map : GMap) (m : Membership) : ScopeChange * Membership :=
  (UserEnteredRoom user_key room_key,
   match UserStore_get m.(user_store) user_key, BigMap_get room_key m.(room_store) with
   | Some user, Some room =>
       let room := subscribe_user user_key room in
       {| room_store := BigMap_set room_key room m.(room_store);
          user_store := UserStore_insert user_key (cache_room room_key user) m.(user_store);
          entity_room_map := m.(entity_room_map);
          scope_checks_cache := on_user_added_to_room room_key user_key
            (omap (GlobalEntityMap.GlobalMap_to_entity entity_map) (Room_entities room)) m.(scope_checks_cache) |}
   | _, _ => m
   end).

Definition RoomStore_remove_user (room_key : RoomKey) (user_key : UserKey) (m : Membership) : ScopeChange * Membership :=
  (UserLeftRoom user_key room_key,
   match UserStore_get m.(user_store) user_key, BigMap_get room_key m.(room_store) with
   | Some user, Some room =>
       {| room_store := BigMap_set room_key (unsubscribe_user user_key room) m.(room_store);
          user_store := UserStore_insert user_key (uncache_room room_key user) m.(user_store);
          entity_room_map := m.(entity_room_map);
          scope_checks_cache := on_user_removed_from_room room_key user_key m.(scope_checks_cache) |}
   | _, _ => m
   end).

Definition remove_all_entities (room_key : RoomKey) (x : RoomStore * EntityRoomMap) : res (RoomStore * EntityRoomMap) :=
  let '(self, erm) := x in
  match BigMap_get room_key self with
  | Some room =>
      '(room, erm) ← foldM (fun global_entity '(room, erm) =>
                              room ← Room_remove_entity global_entity false room;
                              Ok (room, remove_from_room global_entity room_key erm))
                            (Room_entities room) (room, erm);
      Ok (BigMap_set room_key room self, erm)
  | None => Ok (self, erm)
  end.

Definition RoomStore_destroy (room_key : RoomKey) (m : Membership) : res (bool * Membership) :=
  '(self, erm) ← remove_all_entities room_key (m.(room_store), m.(entity_room_map));
  match BigMap_remove room_key self with
  | (Some room, self) =>
      let us := foldr (fun user_key us =>
                         match UserStore_get us user_key with
                         | Some user => UserStore_insert user_key (uncache_room room_key user) us
                         | None => us
                         end) m.(user_store) (rev (Room_user_keys room)) in
      Ok (true, {| room_store := self; user_store := us; entity_room_map := erm;
                   scope_checks_cache := on_room_destroyed room_key m.(scope_checks_cache) |})
  | (None, _) =>
      Ok (false, {| room_store := self; user_store := m.(user_store); entity_room_map := erm;
                    scope_checks_cache := m.(scope_checks_cache) |})
  end.

Definition RoomStore_add_entity (room_key : RoomKey) (world_entity : E) (entity_map : GMap) (m : Membership)
    : res (option ScopeChange * Membership) :=
  global_entity ← unwrap (GlobalEntityMap.GlobalMap_to_global entity_map world_entity);
  match BigMap_get room_key m.(room_store) with
  | None => Ok (None, m)
  | Some room =>
      let room := Room_add_entity global_entity room in
      Ok (Some (EntityEnteredRoom global_entity room_key),
          {| room_store := BigMap_set room_key room m.(room_store); user_store := m.(user_store);
             entity_room_map := entity_add_room global_entity room_key m.(entity_room_map);
             scope_checks_cache := on_entity_added_to_room room_key world_entity (Room_user_keys room) m.(scope_checks_cache) |})
  end.

Definition RoomStore_remove_entity (room_key : RoomKey) (world_entity : E) (entity_map : GMap) (m : Membership) : res Membership :=
  global_entity ← unwrap (GlobalEntityMap.GlobalMap_to_global entity_map world_entity);
  match BigMap_get room_key m.(room_store) with
  | None => Ok m
  | Some room =>
      room ← Room_remove_entity global_entity false room;
      Ok {| room_store := BigMap_set room_key room m.(room_store); user_store := m.(user_store);
            entity_room_map := remove_from_room global_entity room_key m.(entity_room_map);
            scope_checks_cache := on_entity_removed_from_room room_key world_entity m.(scope_checks_cache) |}
  end.

(** The rooms of a user that is deleted ([WorldServer::user_delete]), after it left the store. *)
Definition leave_rooms (user_key : UserKey) (user : WorldUser) (m : Membership) : res Membership :=
  foldM (fun room_key m =>
           room ← unwrap (BigMap_get room_key m.(room_store));
           Ok {| room_store := BigMap_set room_key (unsubscribe_user user_key room) m.(room_store);
                 user_store := m.(user_store); entity_room_map := m.(entity_room_map);
                 scope_checks_cache := on_user_removed_from_room room_key user_key m.(scope_checks_cache) |})
        (iter_r user.(rooms_cache)) m.

(** The rooms of an entity that goes ([WorldServer::cleanup_entity_replication]). *)
Definition leave_all_rooms (global_entity : GlobalEntity) (m : Membership) : res Membership :=
  let '(room_keys, erm) := remove_from_all_rooms global_entity m.(entity_room_map) in
  rooms ← foldM (fun room_key rooms =>
                   match BigMap_get room_key rooms with
                   | Some room => room ← Room_remove_entity global_entity true room; Ok (BigMap_set room_key room rooms)
                   | None => Ok rooms
                   end) (default [] room_keys) m.(room_store);
  Ok {| room_store := rooms; user_store := m.(user_store); entity_room_map := erm; scope_checks_cache := m.(scope_checks_cache) |}.
End Rooms.
