(* ===== verification/RoomsFacts.v ===== *)
(** The stores of [Rooms] mirror each other: a user's cache of rooms, an entity's set of rooms
    and the cached (room, user, entity) triples are always what the rooms themselves say. *)

From Stdlib Require Import ZArith Lia.
From stdpp Require Import base numbers option list gmap sets.
From S2P Require Import Prelude EntityTypes EntityMaps Waitlist Authority Rooms.

(** * Rooms of an entity *)
Definition in_rooms (m : EntityRoomMap) (e : GlobalEntity) (r : RoomKey) : Prop := exists rs, m !! e = Some rs /\ r ∈ rs.
Definition no_empty (m : EntityRoomMap) : Prop := forall e rs, m !! e = Some rs -> rs <> ∅.

Lemma in_rooms_nil e r : ~ in_rooms ∅ e r.
Proof. now intros (rs & H & _). Qed.

Lemma in_rooms_insert m e rs e' r : in_rooms (<[e := rs]> m) e' r <-> (e' = e /\ r ∈ rs) \/ (e' <> e /\ in_rooms m e' r).
Proof.
  unfold in_rooms. rewrite lookup_insert. case_decide as He; [subst; split|].
  - intros (rs' & [= <-] & Hr). now left.
  - intros [[_ Hr]|[]]; [eauto|congruence].
  - split; [intros H; right; split; [congruence|exact H]|intros [[]|[_ H]]; [congruence|exact H]].
Qed.

Lemma in_rooms_delete m e e' r : in_rooms (delete e m) e' r <-> e' <> e /\ in_rooms m e' r.
Proof.
  unfold in_rooms. setoid_rewrite lookup_delete_Some. split.
  - intros (rs & [Hne Hrs] & Hr). eauto.
  - intros [Hne (rs & Hrs & Hr)]. eauto.
Qed.

Lemma in_rooms_add m e r e' r' : in_rooms (entity_add_room e r m) e' r' <-> (e' = e /\ r' = r) \/ in_rooms m e' r'.
Proof.
  unfold entity_add_room. destruct (m !! e) as [rs|] eqn:He.
  - rewrite He, in_rooms_insert, elem_of_union, elem_of_singleton. split.
    + intros [[-> [->|Hr]]|[_ H]]; [now left|right; now exists rs|now right].
    + intros [[-> ->]|H]; [left; auto|]. destruct (decide (e' = e)) as [->|Hne]; [|now right].
      destruct H as (rs' & Hrs' & Hr). left. split; [reflexivity|]. right. congruence.
  - rewrite lookup_insert_eq, !in_rooms_insert, elem_of_union, elem_of_singleton. split.
    + intros [[-> [->|Hr]]|[Hne [[]|[_ H]]]]; [now left|now apply elem_of_empty in Hr|congruence|now right].
    + intros [[-> ->]|H]; [left; auto|]. destruct (decide (e' = e)) as [->|Hne]; [|auto].
      destruct H as (rs' & Hrs' & _). congruence.
Qed.

Lemma no_empty_add m e r : no_empty m -> no_empty (entity_add_room e r m).
Proof.
  intros Hm e' rs. unfold entity_add_room. destruct (m !! e) as [rs0|] eqn:He; [rewrite He|rewrite lookup_insert_eq, insert_insert_eq];
    rewrite lookup_insert; case_decide; try (intros [= <-]; apply non_empty_inhabited_L with r, elem_of_union; left; now apply elem_of_singleton);
    apply Hm.
Qed.

Lemma in_rooms_remove m e r e' r' : in_rooms (remove_from_room e r m) e' r' <-> in_rooms m e' r' /\ ~ (e' = e /\ r' = r).
Proof.
  unfold remove_from_room. destruct (m !! e) as [rs|] eqn:He.
  - case_decide as Hemp; rewrite ?in_rooms_delete, !in_rooms_insert, ?elem_of_difference, ?elem_of_singleton.
    + split; [intros [Hne [[]|[_ H]]]; [congruence|]; split; [exact H|intros []; congruence]|].
      intros [H Hn]. destruct (decide (e' = e)) as [->|Hne]; [|auto]. destruct H as (rs' & Hrs' & Hr).
      assert (r' ∈ rs ∖ {[r]}) as Hin; [|rewrite Hemp in Hin; now apply elem_of_empty in Hin].
      apply elem_of_difference. rewrite elem_of_singleton. split; [congruence|]. intros ->. auto.
    + split.
      * intros [[-> [Hr Hne]]|[Hne H]]; [split; [now exists rs|now intros []]|split; [exact H|now intros []]].
      * intros [H Hn]. destruct (decide (e' = e)) as [->|Hne]; [|now right]. destruct H as (rs' & Hrs' & Hr).
        left. split; [reflexivity|]. split; [congruence|]. intros ->. auto.
  - split; [|tauto]. intros H. split; [exact H|]. intros [-> _]. destruct H as (rs & Hrs & _). congruence.
Qed.

Lemma no_empty_remove m e r : no_empty m -> no_empty (remove_from_room e r m).
Proof.
  intros Hm e' rs. unfold remove_from_room. destruct (m !! e) as [rs0|] eqn:He; [|apply Hm].
  case_decide as Hemp; [rewrite delete_insert_eq, lookup_delete_Some; intros [_ H]; now apply Hm in H|].
  rewrite lookup_insert. case_decide; [congruence|apply Hm].
Qed.

Lemma no_empty_delete m e : no_empty m -> no_empty (delete e m).
Proof. intros Hm e' rs [_ H]%lookup_delete_Some. now apply Hm in H. Qed.

(** Roomless means in no room. *)
Lemma roomless_spec m e : no_empty m -> entity_get_rooms m e = None <-> forall r, ~ in_rooms m e r.
Proof.
  intros Hm. unfold entity_get_rooms. split.
  - intros He r (rs & Hrs & _). congruence.
  - intros Hn. destruct (m !! e) as [rs|] eqn:He; [|reflexivity]. exfalso.
    pose proof (Hm _ _ He) as Hne. apply set_choose_L in Hne as [r Hr]. apply (Hn r). now exists rs.
Qed.

Section Facts.
Context (iter_u : gset UserKey -> list UserKey) (iter_e : gset GlobalEntity -> list GlobalEntity)
        (iter_r : gset RoomKey -> list RoomKey).
Context {E A : Type} {eqE : EqDecision E} {cE : Countable E} {eqA : EqDecision A} {cA : Countable A}.
Context (Hwu : walks iter_u) (Hwe : walks iter_e) (Hwr : walks iter_r).
Abbreviation Members := (@Membership E A eqA cA).
Abbreviation GMap := (@GlobalEntityMap.GlobalEntityMap E eqE cE).

Definition member (m : Members) (r : RoomKey) (u : UserKey) : Prop :=
  exists room, BigMap_get r m.(room_store) = Some room /\ u ∈ room.(users).
Definition placed (m : Members) (r : RoomKey) (e : GlobalEntity) : Prop :=
  exists room, BigMap_get r m.(room_store) = Some room /\ e ∈ room.(entities).
Definition cached_room (m : Members) (u : UserKey) (r : RoomKey) : Prop :=
  exists user, m.(user_store).(store_users) !! u = Some user /\ r ∈ user.(rooms_cache).

(** The triples that a walk over all rooms would list. *)
Definition scope_checks_recompute (gm : GMap) (m : Members) (t : RoomKey * UserKey * E) : Prop :=
  member m t.1.1 t.1.2 /\ exists e, placed m t.1.1 e /\ GlobalEntityMap.GlobalMap_to_entity gm e = Some t.2.

Record member_ok (gm : GMap) (m : Members) : Prop := {
  mo_keys : bigmap_ok m.(room_store);
  mo_users : forall r u, member m r u <-> cached_room m u r;
  mo_entities : forall r e, placed m r e <-> in_rooms m.(entity_room_map) e r;
  mo_rooms : no_empty m.(entity_room_map);
  mo_mapped : forall r e, placed m r e -> is_Some (GlobalEntityMap.GlobalMap_to_entity gm e);
  mo_cache : forall t, t ∈ m.(scope_checks_cache).(tuples) <-> scope_checks_recompute gm m t;
  mo_pending : forall t, t ∈ m.(scope_checks_cache).(pending) -> t ∈ m.(scope_checks_cache).(tuples)
}.

Lemma get_set r r' v (b : BigMap Room) : BigMap_get r' (BigMap_set r v b) = if decide (r' = r) then Some v else BigMap_get r' b.
Proof using Type. unfold BigMap_get, BigMap_set. cbn. rewrite lookup_insert. repeat case_decide; congruence. Qed.

(** What a write to one room does to membership. *)
Lemma member_set m r room us erm c r' u :
  member {| room_store := BigMap_set r room m.(room_store); user_store := us; entity_room_map := erm; scope_checks_cache := c |} r' u
  <-> if decide (r' = r) then u ∈ room.(users) else member m r' u.
Proof using Type.
  unfold member; cbn. rewrite get_set. case_decide; [|tauto]. split; [|eauto]. now intros (? & [= <-] & ?).
Qed.

Lemma placed_set m r room us erm c r' e :
  placed {| room_store := BigMap_set r room m.(room_store); user_store := us; entity_room_map := erm; scope_checks_cache := c |} r' e
  <-> if decide (r' = r) then e ∈ room.(entities) else placed m r' e.
Proof using Type.
  unfold placed; cbn. rewrite get_set. case_decide; [|tauto]. split; [|eauto]. now intros (? & [= <-] & ?).
Qed.

Lemma member_get m r room u : BigMap_get r m.(room_store) = Some room -> member m r u <-> u ∈ room.(users).
Proof using Type. intros Hr. unfold member. rewrite Hr. split; [now intros (? & [= <-] & ?)|eauto]. Qed.

Lemma placed_get m r room e : BigMap_get r m.(room_store) = Some room -> placed m r e <-> e ∈ room.(entities).
Proof using Type. intros Hr. unfold placed. rewrite Hr. split; [now intros (? & [= <-] & ?)|eauto]. Qed.

Lemma cached_get m u user r : m.(user_store).(store_users) !! u = Some user -> cached_room m u r <-> r ∈ user.(rooms_cache).
Proof using Type. intros Hu. unfold cached_room. rewrite Hu. split; [now intros (? & [= <-] & ?)|eauto]. Qed.

Lemma cached_insert m u user us erm c rs u' r :
  us = UserStore_insert u user m.(user_store) ->
  cached_room {| room_store := rs; user_store := us; entity_room_map := erm; scope_checks_cache := c |} u' r
  <-> if decide (u' = u) then r ∈ user.(rooms_cache) else cached_room m u' r.
Proof using Type.
  intros ->. unfold cached_room; cbn. rewrite lookup_insert. case_decide; [|repeat case_decide; [congruence|tauto]].
  rewrite decide_True by congruence. split; [|eauto]. now intros (? & [= <-] & ?).
Qed.

Lemma push_all_in t new (c : ScopeChecksCache E) : t ∈ (push_all new c).(tuples) <-> t ∈ c.(tuples) \/ t ∈ new.
Proof using Type. cbn. apply elem_of_app. Qed.

Lemma push_all_pending new (c : ScopeChecksCache E) :
  (forall t, t ∈ c.(pending) -> t ∈ c.(tuples)) -> forall t, t ∈ (push_all new c).(pending) -> t ∈ (push_all new c).(tuples).
Proof using Type. intros Hc t. cbn. rewrite !elem_of_app. intros [H|H]; auto. Qed.

Lemma retain_in t P `{!forall t, Decision (P t)} (c : ScopeChecksCache E) : t ∈ (retain P c).(tuples) <-> P t /\ t ∈ c.(tuples).
Proof using Type. cbn. apply list_elem_of_filter. Qed.

Lemma retain_pending P `{!forall t, Decision (P t)} (c : ScopeChecksCache E) :
  (forall t, t ∈ c.(pending) -> t ∈ c.(tuples)) -> forall t, t ∈ (retain P c).(pending) -> t ∈ (retain P c).(tuples).
Proof using Type. intros Hc t. cbn. rewrite !list_elem_of_filter. intros [? Ht]; auto. Qed.

(** ** Users *)
Lemma add_user_ok gm m r u :
  member_ok gm m -> member_ok gm (RoomStore_add_user iter_e r u gm m).2.
Proof using Hwe.
  intros Hok. unfold RoomStore_add_user. cbn [snd]. unfold UserStore_get.
  destruct (store_users (user_store m) !! u) as [user|] eqn:Hu; [|exact Hok].
  destruct (BigMap_get r (room_store m)) as [room|] eqn:Hr; [|exact Hok].
  assert (forall r' e, placed {| room_store := BigMap_set r (subscribe_user u room) (room_store m);
      user_store := UserStore_insert u (cache_room r user) (user_store m); entity_room_map := entity_room_map m;
      scope_checks_cache := on_user_added_to_room r u (omap (GlobalEntityMap.GlobalMap_to_entity gm) (Room_entities iter_e (subscribe_user u room)))
        (scope_checks_cache m) |} r' e <-> placed m r' e) as Hpl.
  { intros r' e. rewrite placed_set. case_decide; [subst|tauto]. now rewrite (placed_get m r room). }
  split; cbn [room_store user_store entity_room_map scope_checks_cache].
  - eapply bigmap_set_ok; [apply Hok|exact Hr].
  - intros r' u'. rewrite member_set, (cached_insert m u (cache_room r user)) by reflexivity.
    pose proof (mo_users _ _ Hok r' u') as Hmu. cbn. repeat case_decide; subst; rewrite ?elem_of_union, ?elem_of_singleton.
    + tauto.
    + rewrite <- Hmu, (member_get m r room) by exact Hr. tauto.
    + rewrite Hmu, (cached_get m u user) by exact Hu. tauto.
    + exact Hmu.
  - intros r' e. rewrite Hpl. apply Hok.
  - apply Hok.
  - intros r' e. rewrite Hpl. apply Hok.
  - intros [[r' u'] w]. unfold on_user_added_to_room. rewrite push_all_in, (mo_cache _ _ Hok).
    unfold scope_checks_recompute. setoid_rewrite Hpl. cbn [fst snd]. rewrite member_set.
    rewrite list_elem_of_fmap. setoid_rewrite list_elem_of_omap. cbn [users subscribe_user].
    unfold Room_entities. setoid_rewrite (proj2 (Hwe _)). cbn [entities subscribe_user].
    split.
    + intros [[Hm Hp]|(w' & [= -> -> ->] & e & He & Hw)].
      * split; [|exact Hp]. case_decide; [subst; apply elem_of_union; right; now apply (member_get m r room)|exact Hm].
      * rewrite decide_True by reflexivity. split; [apply elem_of_union; left; now apply elem_of_singleton|].
        exists e. split; [now apply (placed_get m r room)|exact Hw].
    + intros [Hm (e & Hp & Hw)]. case_decide; [subst r'|left; eauto]. apply elem_of_union in Hm as [->%elem_of_singleton|Hm].
      * right. exists w. split; [reflexivity|]. exists e. split; [now apply (placed_get m r room)|exact Hw].
      * left. split; [now apply (member_get m r room)|eauto].
  - apply push_all_pending, Hok.
Qed.

Lemma remove_user_ok gm m r u :
  member_ok gm m -> member_ok gm (RoomStore_remove_user iter_e r u m).2.
Proof using Type.
  intros Hok. unfold RoomStore_remove_user. cbn [snd]. unfold UserStore_get.
  destruct (store_users (user_store m) !! u) as [user|] eqn:Hu; [|exact Hok].
  destruct (BigMap_get r (room_store m)) as [room|] eqn:Hr; [|exact Hok].
  assert (forall r' e, placed {| room_store := BigMap_set r (unsubscribe_user iter_e u room) (room_store m);
      user_store := UserStore_insert u (uncache_room r user) (user_store m); entity_room_map := entity_room_map m;
      scope_checks_cache := on_user_removed_from_room r u (scope_checks_cache m) |} r' e <-> placed m r' e) as Hpl.
  { intros r' e. rewrite placed_set. case_decide; [subst|tauto]. now rewrite (placed_get m r room). }
  split; cbn [room_store user_store entity_room_map scope_checks_cache].
  - eapply bigmap_set_ok; [apply Hok|exact Hr].
  - intros r' u'. rewrite member_set, (cached_insert m u (uncache_room r user)) by reflexivity.
    pose proof (mo_users _ _ Hok r' u') as Hmu. cbn. repeat case_decide; subst; rewrite ?elem_of_difference, ?elem_of_singleton.
    + tauto.
    + rewrite <- Hmu, (member_get m r room) by exact Hr. tauto.
    + rewrite Hmu, (cached_get m u user) by exact Hu. tauto.
    + exact Hmu.
  - intros r' e. rewrite Hpl. apply Hok.
  - apply Hok.
  - intros r' e. rewrite Hpl. apply Hok.
  - intros [[r' u'] w]. unfold on_user_removed_from_room. rewrite retain_in, (mo_cache _ _ Hok).
    unfold scope_checks_recompute. setoid_rewrite Hpl. cbn [fst snd]. rewrite member_set.
    cbn [users unsubscribe_user]. case_decide; [subst r'|tauto].
    rewrite (member_get m r room) by exact Hr. rewrite elem_of_difference, elem_of_singleton. tauto.
  - apply retain_pending, Hok.
Qed.

(** ** Entities *)
Lemma to_entity_inj (gm : GMap) e1 e2 w : GlobalEntityMap.global_map_ok gm -> GlobalEntityMap.GlobalMap_to_entity gm e1 = Some w ->
  GlobalEntityMap.GlobalMap_to_entity gm e2 = Some w -> e1 = e2.
Proof using Type. intros Hg H1 H2. eapply (mirror_inj _ _ _ _ _ (GlobalEntityMap.gm_mirror _ Hg)); eassumption. Qed.

Lemma add_entity_ok gm m r w e :
  GlobalEntityMap.global_map_ok gm -> member_ok gm m -> GlobalEntityMap.GlobalMap_to_global gm w = Some e ->
  exists c m', RoomStore_add_entity iter_u r w gm m = Ok (c, m') /\ member_ok gm m' /\
    (c = Some (EntityEnteredRoom e r) \/ (c = None /\ BigMap_get r m.(room_store) = None)).
Proof using Hwu.
  intros Hg Hok He. unfold RoomStore_add_entity. rewrite He. cbn [unwrap]. rewrite bind_ok.
  destruct (BigMap_get r (room_store m)) as [room|] eqn:Hr; [|now exists None, m; auto].
  do 2 eexists. split; [reflexivity|]. split; [|now left].
  assert (GlobalEntityMap.GlobalMap_to_entity gm e = Some w) as Hew by (now apply (GlobalEntityMap.gm_mirror _ Hg)).
  split; cbn [room_store user_store entity_room_map scope_checks_cache].
  - eapply bigmap_set_ok; [apply Hok|exact Hr].
  - intros r' u'. rewrite member_set. rewrite <- (mo_users _ _ Hok r' u'). case_decide; [subst|tauto]. now rewrite (member_get m r room).
  - intros r' e'. rewrite placed_set, in_rooms_add, <- (mo_entities _ _ Hok). case_decide; [subst|intuition congruence].
    rewrite (placed_get m r room) by exact Hr. cbn. rewrite elem_of_union, elem_of_singleton. tauto.
  - apply no_empty_add, Hok.
  - intros r' e'. rewrite placed_set. case_decide; [|apply Hok]. cbn. rewrite elem_of_union, elem_of_singleton.
    intros [->|Hin]; [eauto|]. apply (mo_mapped _ _ Hok r). now apply (placed_get m r room).
  - intros [[r' u'] w']. unfold on_entity_added_to_room. rewrite push_all_in, (mo_cache _ _ Hok).
    unfold scope_checks_recompute. setoid_rewrite placed_set. setoid_rewrite member_set. cbn [fst snd].
    rewrite list_elem_of_fmap. unfold Room_user_keys. setoid_rewrite (proj2 (Hwu _)). cbn [users entities Room_add_entity].
    split.
    + intros [[Hm (e' & Hp & Hw)]|(u & [= -> -> ->] & Hu)].
      * case_decide as Hrr; [subst r'|eauto]. rewrite (member_get m r room) in Hm by exact Hr. rewrite (placed_get m r room) in Hp by exact Hr.
        split; [exact Hm|]. exists e'. split; [apply elem_of_union; now right|exact Hw].
      * rewrite decide_True by reflexivity. split; [exact Hu|]. exists e. rewrite decide_True by reflexivity. split; [apply elem_of_union; left; now apply elem_of_singleton|exact Hew].
    + intros [Hm (e' & Hp & Hw)]. case_decide as Hrr; [subst r'|left; eauto]. apply elem_of_union in Hp as [->%elem_of_singleton|Hp].
      * right. rewrite Hew in Hw. injection Hw as ->. eauto.
      * left. split; [now apply (member_get m r room)|]. exists e'. split; [now apply (placed_get m r room)|exact Hw].
  - apply push_all_pending, Hok.
Qed.

(** Removing one entity from one room, in the room, the entity's rooms and the triples. *)
Definition without (r : RoomKey) (e : GlobalEntity) (m m' : Members) : Prop :=
  m'.(user_store) = m.(user_store) /\ current_index m'.(room_store) = current_index m.(room_store) /\
  (forall r', is_Some (BigMap_get r' m'.(room_store)) <-> is_Some (BigMap_get r' m.(room_store))) /\
  (forall r' u, member m' r' u <-> member m r' u) /\
  (forall r' e', placed m' r' e' <-> placed m r' e' /\ ~ (r' = r /\ e' = e)).

Lemma remove_entity_ok gm m r w e :
  GlobalEntityMap.global_map_ok gm -> member_ok gm m -> GlobalEntityMap.GlobalMap_to_global gm w = Some e -> placed m r e ->
  exists m', RoomStore_remove_entity iter_u r w gm m = Ok m' /\ member_ok gm m' /\ without r e m m'.
Proof using Type.
  intros Hg Hok He Hpl. unfold RoomStore_remove_entity. rewrite He. cbn [unwrap]. rewrite bind_ok.
  destruct (BigMap_get r (room_store m)) as [room|] eqn:Hr; [|now destruct Hpl as (? & ? & _); congruence].
  rewrite (placed_get m r room) in Hpl by exact Hr. unfold Room_remove_entity. rewrite decide_True by exact Hpl. rewrite bind_ok.
  assert (GlobalEntityMap.GlobalMap_to_entity gm e = Some w) as Hew by (now apply (GlobalEntityMap.gm_mirror _ Hg)).
  set (room' := {| users := users room; entities := entities room ∖ {[e]}; entity_removal_queue := _ |}).
  eexists. split; [reflexivity|].
  assert (forall r' u, member {| room_store := BigMap_set r room' (room_store m); user_store := user_store m;
    entity_room_map := remove_from_room e r (entity_room_map m); scope_checks_cache := on_entity_removed_from_room r w (scope_checks_cache m) |} r' u
    <-> member m r' u) as Hmem.
  { intros r' u. rewrite member_set. case_decide; [subst|tauto]. now rewrite (member_get m r room). }
  assert (forall r' e', placed {| room_store := BigMap_set r room' (room_store m); user_store := user_store m;
    entity_room_map := remove_from_room e r (entity_room_map m); scope_checks_cache := on_entity_removed_from_room r w (scope_checks_cache m) |} r' e'
    <-> placed m r' e' /\ ~ (r' = r /\ e' = e)) as Hplc.
  { intros r' e'. rewrite placed_set. case_decide; [subst|tauto]. rewrite (placed_get m r room) by exact Hr.
    cbn. rewrite elem_of_difference, elem_of_singleton. tauto. }
  split.
  - split; cbn [room_store user_store entity_room_map scope_checks_cache].
    + eapply bigmap_set_ok; [apply Hok|exact Hr].
    + intros r' u'. rewrite Hmem. apply Hok.
    + intros r' e'. rewrite Hplc, in_rooms_remove, (mo_entities _ _ Hok). tauto.
    + apply no_empty_remove, Hok.
    + intros r' e' [Hp _]%Hplc. now apply (mo_mapped _ _ Hok r').
    + intros [[r' u'] w']. unfold on_entity_removed_from_room. rewrite retain_in, (mo_cache _ _ Hok).
      unfold scope_checks_recompute. setoid_rewrite Hplc. rewrite Hmem. cbn [fst snd]. split.
      * intros [Hne [Hm (e' & Hp & Hw)]]. split; [exact Hm|]. exists e'. split; [|exact Hw]. split; [exact Hp|].
        intros [-> ->]. rewrite Hew in Hw. destruct Hne; congruence.
      * intros [Hm (e' & [Hp Hn] & Hw)]. split; [|eauto]. destruct (decide (r' = r)) as [->|]; [|now left]. right.
        intros ->. apply Hn. split; [reflexivity|]. eapply to_entity_inj; eassumption.
    + apply retain_pending, Hok.
  - split; [reflexivity|]. split; [reflexivity|]. split; [|now split].
    intros r'. cbn. rewrite get_set. case_decide; [subst; rewrite Hr; split; eauto|tauto].
Qed.

(** ** Destroying a room *)
Lemma Room_remove_in e d room :
  e ∈ room.(entities) -> exists q, Room_remove_entity iter_u e d room
    = Ok {| users := room.(users); entities := room.(entities) ∖ {[e]}; entity_removal_queue := q |}.
Proof using Type. intros He. unfold Room_remove_entity. rewrite decide_True by exact He. eauto. Qed.

Lemma remove_all_fold r l room erm :
  NoDup l -> (forall e, e ∈ l -> e ∈ room.(entities)) -> no_empty erm ->
  exists room' erm', foldM (fun global_entity '(room, erm) =>
      room ← Room_remove_entity iter_u global_entity false room; Ok (room, remove_from_room global_entity r erm)) l (room, erm) = Ok (room', erm') /\
    room'.(users) = room.(users) /\ (forall e, e ∈ room'.(entities) <-> e ∈ room.(entities) /\ e ∉ l) /\
    (forall e r', in_rooms erm' e r' <-> in_rooms erm e r' /\ ~ (e ∈ l /\ r' = r)) /\ no_empty erm'.
Proof using Type.
  revert room erm; induction l as [|e l IH]; intros room erm Hnd Hin Hne; cbn [foldM].
  - exists room, erm. split_and!; try reflexivity; try exact Hne.
    + intros e. split; [|tauto]. intros He. split; [exact He|apply not_elem_of_nil].
    + intros e r'. split; [|tauto]. intros He. split; [exact He|]. now intros [?%elem_of_nil _].
  - apply NoDup_cons in Hnd as [Hel Hnd]. destruct (Room_remove_in e false room) as [q ->]; [apply Hin; now left|]. rewrite !bind_ok.
    destruct (IH {| users := users room; entities := entities room ∖ {[e]}; entity_removal_queue := q |} (remove_from_room e r erm) Hnd)
      as (room' & erm' & -> & Hu & He & Hr & Hne'); [|now apply no_empty_remove|].
    { cbn. intros e' He'. apply elem_of_difference. rewrite elem_of_singleton. split; [apply Hin; now right|congruence]. }
    exists room', erm'. split; [reflexivity|]. split; [exact Hu|]. split; [|split; [|exact Hne']].
    + intros e'. rewrite He. cbn. rewrite elem_of_difference, elem_of_singleton, not_elem_of_cons. tauto.
    + intros e' r'. rewrite Hr, in_rooms_remove, elem_of_cons. tauto.
Qed.

Lemma uncache_fold r l (us : UserStore) u :
  (foldr (fun user_key us => match UserStore_get us user_key with
                             | Some user => UserStore_insert user_key (uncache_room r user) us
                             | None => us end) us l).(store_users) !! u
  = if decide (u ∈ l) then @uncache_room A r <$> us.(store_users) !! u else us.(store_users) !! u.
Proof using Type.
  induction l as [|u0 l IH]; cbn [foldr]; [rewrite decide_False by apply not_elem_of_nil; reflexivity|].
  set (us' := foldr _ us l) in *. unfold UserStore_get. destruct (decide (u = u0)) as [->|Hne].
  - rewrite decide_True by (now left). destruct (store_users us' !! u0) as [user|] eqn:Hu.
    + cbn. rewrite lookup_insert_eq. symmetry in IH. case_decide.
      * destruct (store_users us !! u0) as [user0|]; [|discriminate]. cbn in *. injection IH as <-. unfold uncache_room. cbn.
        do 2 f_equal. apply set_eq. intros x. rewrite !elem_of_difference. tauto.
      * now rewrite IH.
    + rewrite Hu. symmetry in IH. case_decide; [|now rewrite IH]. now destruct (store_users us !! u0).
  - transitivity (store_users us' !! u); [destruct (store_users us' !! u0); [cbn; now rewrite lookup_insert_ne by congruence|reflexivity]|].
    rewrite IH. do 2 case_decide; try reflexivity; exfalso; rewrite elem_of_cons in *; tauto.
Qed.

(** A destroyed room is gone from every user, from every entity and from the triples. *)
Lemma destroy_ok gm m r :
  member_ok gm m -> exists m', RoomStore_destroy iter_u iter_e r m = Ok (bool_decide (is_Some (BigMap_get r m.(room_store))), m') /\
    member_ok gm m' /\ (forall r', BigMap_get r' m'.(room_store) = if decide (r' = r) then None else BigMap_get r' m.(room_store)).
Proof using Hwu Hwe.
  intros Hok. unfold RoomStore_destroy, remove_all_entities.
  destruct (BigMap_get r (room_store m)) as [room|] eqn:Hr.
  2: { rewrite bind_ok. unfold BigMap_remove. unfold BigMap_get in Hr. rewrite Hr. exists m. split_and!.
       - destruct m; reflexivity.
       - exact Hok.
       - intros r'. case_decide; [subst; exact Hr|reflexivity]. }
  destruct (Hwe (entities room)) as [Hnd Hin].
  destruct (remove_all_fold r (Room_entities iter_e room) room (entity_room_map m) Hnd) as (room' & erm' & -> & Hus & Hes & Hrs & Hne);
    [apply Hin|apply Hok|]. rewrite !bind_ok.
  unfold BigMap_remove at 1. cbn [BigMap_set bm_inner]. rewrite lookup_insert_eq. cbn [snd].
  eexists. split; [reflexivity|].
  assert (forall e, e ∉ entities room') as Hemp by (intros e [He Hn]%Hes; now apply Hn, Hin).
  set (rs := mkBigMap (delete r (<[r:=room']> (bm_inner (room_store m)))) (current_index (BigMap_set r room' (room_store m)))).
  assert (forall r', BigMap_get r' rs = if decide (r' = r) then None else BigMap_get r' (room_store m)) as Hget.
  { intros r'. unfold BigMap_get, rs. cbn. case_decide; [subst; apply lookup_delete_eq|]. now rewrite lookup_delete_ne, lookup_insert_ne by congruence. }
  split; [|exact Hget].
  set (us := foldr _ _ _).
  assert (forall r' u, member {| room_store := rs; user_store := us; entity_room_map := erm'; scope_checks_cache := on_room_destroyed r (scope_checks_cache m) |} r' u
     <-> r' <> r /\ member m r' u) as Hmem.
  { intros r' u. unfold member; cbn. rewrite Hget. case_decide; [|tauto]. split; [now intros (? & ? & _)|tauto]. }
  assert (forall r' e, placed {| room_store := rs; user_store := us; entity_room_map := erm'; scope_checks_cache := on_room_destroyed r (scope_checks_cache m) |} r' e
     <-> r' <> r /\ placed m r' e) as Hpl.
  { intros r' e. unfold placed; cbn. rewrite Hget. case_decide; [|tauto]. split; [now intros (? & ? & _)|tauto]. }
  split; cbn [room_store user_store entity_room_map scope_checks_cache].
  - apply (bigmap_remove_ok r (BigMap_set r room' (room_store m))). eapply bigmap_set_ok; [apply Hok|exact Hr].
  - intros r' u. rewrite Hmem, (mo_users _ _ Hok). unfold cached_room; cbn. unfold us. rewrite uncache_fold.
    assert (u ∈ rev (Room_user_keys iter_u room') <-> u ∈ users room) as Hrev.
    { rewrite list_elem_of_In, <- in_rev, <- list_elem_of_In. unfold Room_user_keys. now rewrite (proj2 (Hwu _)), Hus. }
    case_decide as Hu; rewrite Hrev in Hu.
    + split.
      * intros [Hrr (user & Hus' & Hrc)]. rewrite Hus'. eexists. split; [reflexivity|]. cbn. apply elem_of_difference.
        split; [exact Hrc|]. now rewrite elem_of_singleton.
      * intros (user & Hus' & Hrc). apply fmap_Some in Hus' as (user0 & Hu0 & ->). cbn in Hrc.
        apply elem_of_difference in Hrc as [Hrc Hn]. rewrite elem_of_singleton in Hn. eauto.
    + split; [tauto|]. intros Hc. split; [|exact Hc]. intros ->. apply Hu. apply (member_get m r room); [exact Hr|]. now apply (mo_users _ _ Hok).
  - intros r' e. rewrite Hpl, Hrs, (mo_entities _ _ Hok). unfold Room_entities. rewrite Hin. split.
    + intros [Hne' He]. split; [exact He|]. now intros [].
    + intros [He Hn]. split; [|exact He]. intros ->. apply Hn. split; [|reflexivity].
      apply (placed_get m r room); [exact Hr|]. now apply (mo_entities _ _ Hok).
  - exact Hne.
  - intros r' e [_ Hp]%Hpl. now apply (mo_mapped _ _ Hok r').
  - intros [[r' u'] w']. unfold on_room_destroyed. rewrite retain_in, (mo_cache _ _ Hok).
    unfold scope_checks_recompute. setoid_rewrite Hpl. rewrite Hmem. cbn [fst snd]. split.
    + intros (Hrr & Hm & e & Hp & Hw). eauto 6.
    + intros ((Hrr & Hm) & e & (_ & Hp) & Hw). eauto 6.
  - apply retain_pending, Hok.
Qed.

(** ** A user that goes *)
Lemma leave_fold u l m :
  bigmap_ok m.(room_store) -> (forall r, r ∈ l -> is_Some (BigMap_get r m.(room_store))) ->
  (forall t, t ∈ m.(scope_checks_cache).(pending) -> t ∈ m.(scope_checks_cache).(tuples)) ->
  exists m', foldM (fun room_key m =>
           room ← unwrap (BigMap_get room_key m.(room_store));
           Ok {| room_store := BigMap_set room_key (unsubscribe_user iter_e u room) m.(room_store);
                 user_store := m.(user_store); entity_room_map := m.(entity_room_map);
                 scope_checks_cache := on_user_removed_from_room room_key u m.(scope_checks_cache) |}) l m = Ok m' /\
    bigmap_ok m'.(room_store) /\ m'.(user_store) = m.(user_store) /\ m'.(entity_room_map) = m.(entity_room_map) /\
    (forall r' u', member m' r' u' <-> member m r' u' /\ ~ (u' = u /\ r' ∈ l)) /\ (forall r' e, placed m' r' e <-> placed m r' e) /\
    (forall t, t ∈ m'.(scope_checks_cache).(tuples) <-> t ∈ m.(scope_checks_cache).(tuples) /\ ~ (t.1.2 = u /\ t.1.1 ∈ l)) /\
    (forall t, t ∈ m'.(scope_checks_cache).(pending) -> t ∈ m'.(scope_checks_cache).(tuples)).
Proof using Type.
  revert m; induction l as [|r l IH]; intros m Hb Hl Hp; cbn [foldM].
  - exists m. split_and!; try reflexivity; try assumption; intros *; (split; [|tauto]); intros H; (split; [exact H|]); now intros [_ ?%elem_of_nil].
  - destruct (Hl r) as [room Hr]; [now left|]. rewrite Hr. cbn [unwrap]. rewrite !bind_ok.
    set (m1 := {| room_store := BigMap_set r _ _; user_store := _; entity_room_map := _; scope_checks_cache := _ |}).
    destruct (IH m1) as (m' & -> & Hb' & Hu & He & Hm & Hpl & Ht & Hp').
    + eapply bigmap_set_ok; [exact Hb|exact Hr].
    + intros r' Hin. cbn. rewrite get_set. case_decide; [eauto|]. apply Hl. now right.
    + now apply retain_pending.
    + exists m'. split; [reflexivity|]. split; [exact Hb'|]. split; [exact Hu|]. split; [exact He|]. split_and!; [| | |exact Hp'].
      * intros r' u'. rewrite Hm. unfold m1. rewrite member_set, elem_of_cons. case_decide; [subst|tauto].
        rewrite (member_get m r room) by exact Hr. cbn. rewrite elem_of_difference, elem_of_singleton. tauto.
      * intros r' e. rewrite Hpl. unfold m1. rewrite placed_set. case_decide; [subst|tauto]. now rewrite (placed_get m r room).
      * intros t. rewrite Ht. unfold m1. cbn [scope_checks_cache]. unfold on_user_removed_from_room. rewrite retain_in, elem_of_cons.
        destruct (decide (t.1.1 = r)), (decide (t.1.2 = u)); tauto.
Qed.

(** Deleting a user never meets a missing room, and leaves no trace of it. *)
Lemma leave_rooms_ok gm m u user :
  member_ok gm m -> m.(user_store).(store_users) !! u = Some user ->
  exists m', leave_rooms iter_e iter_r u user {| room_store := m.(room_store); user_store := (UserStore_remove u m.(user_store)).2;
      entity_room_map := m.(entity_room_map); scope_checks_cache := m.(scope_checks_cache) |} = Ok m' /\
    member_ok gm m' /\ m'.(user_store) = (UserStore_remove u m.(user_store)).2 /\ (forall r, ~ member m' r u).
Proof using Hwr.
  intros Hok Hu. set (m0 := {| room_store := _; user_store := _; entity_room_map := _; scope_checks_cache := _ |}).
  assert (forall r, member m r u <-> r ∈ rooms_cache user) as Hru.
  { intros r. rewrite (mo_users _ _ Hok). exact (cached_get m u user r Hu). }
  destruct (leave_fold u (iter_r (rooms_cache user)) m0) as (m' & Hm' & Hb & Hus & He & Hm & Hpl & Ht & Hp).
  { apply Hok. }
  { intros r Hr. apply (proj2 (Hwr _)) in Hr. apply Hru in Hr as (room & Hroom & _). eauto. }
  { apply Hok. }
  exists m'. split; [exact Hm'|].
  assert (forall r u', member m0 r u' <-> member m r u') as Hm0 by reflexivity.
  split; [|split; [exact Hus|]].
  2: { intros r [Hmm Hn]%Hm. apply Hn. split; [reflexivity|]. apply (proj2 (Hwr _)). exact (proj1 (Hru r) Hmm). }
  split.
  - exact Hb.
  - intros r u'. rewrite Hm, Hm0, (mo_users _ _ Hok). unfold cached_room. rewrite Hus. cbn.
    setoid_rewrite lookup_delete_Some. setoid_rewrite (proj2 (Hwr _)). split.
    + intros [(user' & Hu' & Hr) Hn]. exists user'. split; [split; [|exact Hu']|exact Hr]. intros ->.
      apply Hn. split; [reflexivity|congruence].
    + intros (user' & [Hne Hu'] & Hr). split; [eauto|]. intros [-> _]. congruence.
  - intros r e. rewrite Hpl, He. apply Hok.
  - rewrite He. apply Hok.
  - intros r e. rewrite Hpl. apply Hok.
  - intros [[r u'] w]. rewrite Ht. unfold m0. cbn [scope_checks_cache]. rewrite (mo_cache _ _ Hok). unfold scope_checks_recompute.
    setoid_rewrite Hpl. rewrite Hm. cbn [fst snd]. change (member m0 r u') with (member m r u'). tauto.
  - exact Hp.
Qed.

(** ** An entity that goes *)
Lemma leave_all_fold e l rs :
  bigmap_ok rs -> NoDup l -> (forall r, r ∈ l -> exists room, BigMap_get r rs = Some room /\ e ∈ room.(entities)) ->
  exists rs', foldM (fun room_key rooms =>
                   match BigMap_get room_key rooms with
                   | Some room => room ← Room_remove_entity iter_u e true room; Ok (BigMap_set room_key room rooms)
                   | None => Ok rooms
                   end) l rs = Ok rs' /\ bigmap_ok rs' /\
    forall r, match BigMap_get r rs, BigMap_get r rs' with
              | Some room, Some room' => room'.(users) = room.(users) /\
                  room'.(entities) = if decide (r ∈ l) then room.(entities) ∖ {[e]} else room.(entities)
              | None, None => True
              | _, _ => False
              end.
Proof using Type.
  revert rs; induction l as [|r l IH]; intros rs Hb Hnd Hl; cbn [foldM].
  - exists rs. split; [reflexivity|]. split; [exact Hb|]. intros r. destruct (BigMap_get r rs); [|exact I].
    split; [reflexivity|]. destruct (decide (r ∈ [])) as [?%elem_of_nil|]; easy.
  - apply NoDup_cons in Hnd as [Hr Hnd]. destruct (Hl r) as (room & Hroom & He); [now left|]. rewrite Hroom.
    destruct (Room_remove_in e true room He) as [q ->]. rewrite !bind_ok.
    set (room' := {| users := users room; entities := _; entity_removal_queue := q |}).
    destruct (IH (BigMap_set r room' rs)) as (rs' & -> & Hb' & Hrs').
    + eapply bigmap_set_ok; [exact Hb|exact Hroom].
    + exact Hnd.
    + intros r' Hr'. rewrite get_set, decide_False by congruence. apply Hl. now right.
    + exists rs'. split; [reflexivity|]. split; [exact Hb'|]. intros r'. specialize (Hrs' r'). rewrite get_set in Hrs'.
      destruct (decide (r' = r)) as [->|Hne].
      * rewrite Hroom. destruct (BigMap_get r rs') as [room''|]; [|exact Hrs']. destruct Hrs' as [-> ->].
        rewrite decide_False by exact Hr. rewrite decide_True by (now left). now split.
      * destruct (BigMap_get r' rs), (BigMap_get r' rs'); try exact Hrs'. destruct Hrs' as [-> ->]. split; [reflexivity|].
        do 2 case_decide; try reflexivity; exfalso; rewrite elem_of_cons in *; tauto.
Qed.

(** Despawning an entity never meets a room without it, and leaves it in no room and no triple. *)
Lemma leave_all_rooms_ok (gm gm' : GMap) m w e :
  GlobalEntityMap.global_map_ok gm -> member_ok gm m -> GlobalEntityMap.GlobalMap_to_global gm w = Some e ->
  (forall e', GlobalEntityMap.GlobalMap_to_entity gm' e' = if decide (e' = e) then None else GlobalEntityMap.GlobalMap_to_entity gm e') ->
  exists m', leave_all_rooms iter_u iter_r e {| room_store := m.(room_store); user_store := m.(user_store);
      entity_room_map := m.(entity_room_map); scope_checks_cache := on_entity_despawned w m.(scope_checks_cache) |} = Ok m' /\
    member_ok gm' m' /\ m'.(user_store) = m.(user_store) /\ (forall r, ~ placed m' r e).
Proof using Hwr.
  intros Hg Hok Hw Hgm'. unfold leave_all_rooms, remove_from_all_rooms. cbn [entity_room_map room_store user_store scope_checks_cache].
  assert (GlobalEntityMap.GlobalMap_to_entity gm e = Some w) as Hew by (now apply (GlobalEntityMap.gm_mirror _ Hg)).
  set (l := match entity_room_map m !! e with Some rooms => iter_r rooms | None => [] end).
  replace (default [] match l with [] => None | _ => Some l end) with l by (now destruct l).
  assert (forall r, r ∈ l <-> in_rooms (entity_room_map m) e r) as Hl.
  { intros r. unfold l, in_rooms. destruct (entity_room_map m !! e) as [rs|].
    - rewrite (proj2 (Hwr _)). split; [eauto|now intros (? & [= <-] & ?)].
    - split; [now intros ?%elem_of_nil|now intros (? & ? & _)]. }
  assert (NoDup l) as Hnd by (unfold l; destruct (entity_room_map m !! e); [apply Hwr|constructor]).
  destruct (leave_all_fold e l (room_store m) (mo_keys _ _ Hok) Hnd) as (rs' & -> & Hb & Hrs).
  { intros r Hr. apply Hl, (mo_entities _ _ Hok) in Hr. exact Hr. }
  rewrite bind_ok. eexists. split; [reflexivity|].
  set (m' := {| room_store := rs'; user_store := _; entity_room_map := _; scope_checks_cache := _ |}).
  assert (forall r u, member m' r u <-> member m r u) as Hm.
  { intros r u. unfold member; cbn. specialize (Hrs r). destruct (BigMap_get r (room_store m)) as [room|], (BigMap_get r rs') as [room'|]; try easy.
    destruct Hrs as [Hu _]. split; intros (? & [= <-] & H); eexists; (split; [reflexivity|]); congruence. }
  assert (forall r e', placed m' r e' <-> placed m r e' /\ e' <> e) as Hp.
  { intros r e'. assert (placed m r e -> r ∈ l) as Hin by (rewrite Hl; apply Hok). unfold placed in *; cbn. specialize (Hrs r).
    destruct (BigMap_get r (room_store m)) as [room|], (BigMap_get r rs') as [room'|]; try easy;
      [|split; [now intros (? & ? & _)|now intros [(? & ? & _) _]]].
    destruct Hrs as [_ He]. split.
    - intros (? & [= <-] & H). rewrite He in H. case_decide as Hd.
      + apply elem_of_difference in H as [H Hn]. rewrite elem_of_singleton in Hn. eauto.
      + split; [eauto|]. intros ->. apply Hd, Hin. eauto.
    - intros [(? & [= <-] & H) Hne]. exists room'. split; [reflexivity|]. rewrite He. case_decide; [|exact H].
      apply elem_of_difference. now rewrite elem_of_singleton. }
  split; [|split; [reflexivity|intros r [_ Hn]%Hp; congruence]].
  split.
  - exact Hb.
  - intros r u. rewrite Hm. apply Hok.
  - intros r e'. rewrite Hp, (mo_entities _ _ Hok). cbn. rewrite in_rooms_delete. tauto.
  - apply no_empty_delete, Hok.
  - intros r e' [Hpl Hne]%Hp. rewrite Hgm', decide_False by exact Hne. now apply (mo_mapped _ _ Hok r).
  - intros [[r u] w']. cbn [m' scope_checks_cache]. unfold on_entity_despawned. rewrite retain_in, (mo_cache _ _ Hok). unfold scope_checks_recompute.
    setoid_rewrite Hp. rewrite Hm. setoid_rewrite Hgm'. cbn [fst snd]. split.
    + intros (Hne & Hmm & e' & Hpl & Hw'). split; [exact Hmm|]. exists e'. destruct (decide (e' = e)) as [->|Hee]; [congruence|auto].
    + intros (Hmm & e' & [Hpl Hne] & Hw'). rewrite decide_False in Hw' by exact Hne. split; [|eauto].
      intros ->. apply Hne. eapply to_entity_inj; eassumption.
  - apply retain_pending, Hok.
Qed.

(** ** A new room, a new user, a new entity *)
Lemma create_room_ok gm m : member_ok gm m -> current_index m.(room_store) < 2 ^ 64 - 1 ->
  exists key rs, BigMap_insert Room_new m.(room_store) = Ok (key, rs) /\ BigMap_get key m.(room_store) = None /\
    member_ok gm {| room_store := rs; user_store := m.(user_store); entity_room_map := m.(entity_room_map); scope_checks_cache := m.(scope_checks_cache) |}.
Proof using Type.
  intros Hok Hc. destruct (bigmap_insert_ok Room_new (room_store m) (mo_keys _ _ Hok) Hc) as (rs & Hins & Hb & Hn & _ & Hin).
  do 2 eexists. split; [exact Hins|]. split; [exact Hn|]. set (m' := {| room_store := rs; user_store := _; entity_room_map := _; scope_checks_cache := _ |}).
  assert (forall r, BigMap_get r rs = if decide (r = current_index (room_store m)) then Some Room_new else BigMap_get r (room_store m)) as Hget.
  { intros r. unfold BigMap_get. rewrite Hin, lookup_insert. repeat case_decide; congruence. }
  assert (forall r u, member m' r u <-> member m r u) as Hm.
  { intros r u. unfold member; cbn. rewrite Hget. case_decide; [subst|tauto]. unfold BigMap_get. rewrite Hn.
    split; [intros (? & [= <-] & H); now apply elem_of_empty in H|now intros (? & ? & _)]. }
  assert (forall r e, placed m' r e <-> placed m r e) as Hp.
  { intros r e. unfold placed; cbn. rewrite Hget. case_decide; [subst|tauto]. unfold BigMap_get. rewrite Hn.
    split; [intros (? & [= <-] & H); now apply elem_of_empty in H|now intros (? & ? & _)]. }
  split; [exact Hb|..].
  - intros r u. rewrite Hm. apply Hok.
  - intros r e. rewrite Hp. apply Hok.
  - apply Hok.
  - intros r e. rewrite Hp. apply Hok.
  - intros t. cbn [m' scope_checks_cache]. rewrite (mo_cache _ _ Hok). unfold scope_checks_recompute. setoid_rewrite Hp. now rewrite Hm.
  - apply Hok.
Qed.

Lemma new_user_ok gm m u a : member_ok gm m -> m.(user_store).(store_users) !! u = None ->
  member_ok gm {| room_store := m.(room_store); user_store := UserStore_insert u (WorldUser_new a) m.(user_store);
                  entity_room_map := m.(entity_room_map); scope_checks_cache := m.(scope_checks_cache) |}.
Proof using Type.
  intros Hok Hu. split; try apply Hok. intros r u'. rewrite (cached_insert m u (WorldUser_new a)) by reflexivity.
  change (member m r u' <-> if decide (u' = u) then r ∈ (∅ : gset RoomKey) else cached_room m u' r). rewrite (mo_users _ _ Hok).
  case_decide; [subst|tauto]. split; [intros (? & ? & _); congruence|intros H; now apply elem_of_empty in H].
Qed.

(** The invariant speaks of the map only through the entities that rooms hold. *)
Lemma member_ok_map (gm gm' : GMap) m :
  (forall r e, placed m r e -> GlobalEntityMap.GlobalMap_to_entity gm' e = GlobalEntityMap.GlobalMap_to_entity gm e) ->
  member_ok gm m -> member_ok gm' m.
Proof using Type.
  intros Heq Hok. split; try apply Hok.
  - intros r e Hp. rewrite (Heq r e Hp). now apply (mo_mapped _ _ Hok r).
  - intros t. rewrite (mo_cache _ _ Hok). unfold scope_checks_recompute. split; intros (Hm & e & Hp & Hw); (split; [exact Hm|]); exists e;
      (split; [exact Hp|]); pose proof (Heq _ _ Hp); congruence.
Qed.
End Facts.

(** * Explicit scopes *)
Section Scopes.
Context (iter_u : gset UserKey -> list UserKey) (iter_e : gset GlobalEntity -> list GlobalEntity).
Context (Hwu : walks iter_u) (Hwe : walks iter_e).

(** The two indices and the map name the same pairs. *)
Record scope_map_ok (s : EntityScopeMap) : Prop := {
  sm_user : forall u e, is_Some (ScopeMap_get s u e) <-> exists es, s.(entities_of_user) !! u = Some es /\ e ∈ es;
  sm_entity : forall u e, is_Some (ScopeMap_get s u e) <-> exists us, s.(users_of_entity) !! e = Some us /\ u ∈ us
}.

Lemma scope_new_ok : scope_map_ok ScopeMap_new.
Proof using Type.
  split; intros u e; cbn; unfold ScopeMap_get; cbn; rewrite !lookup_empty; (split; [now intros [? ?]|now intros (? & ? & _)]).
Qed.

Lemma index_insert {K V} `{Countable K, Countable V} (m : gmap K (gset V)) k v k' v' :
  (exists s, <[k := {[v]} ∪ default ∅ (m !! k)]> m !! k' = Some s /\ v' ∈ s) <->
  (k' = k /\ v' = v) \/ exists s, m !! k' = Some s /\ v' ∈ s.
Proof using Type.
  rewrite lookup_insert. case_decide as Hk; [subst k'|].
  - split.
    + intros (s & [= <-] & [->%elem_of_singleton|Hv]%elem_of_union); [now left|]. right.
      destruct (m !! k) as [s|]; [eauto|now apply elem_of_empty in Hv].
    + intros Hor. eexists. split; [reflexivity|]. apply elem_of_union. rewrite elem_of_singleton.
      destruct Hor as [[_ ->]|(s & -> & Hv)]; [now left|now right].
  - split; [eauto|]. intros [[]|]; [congruence|assumption].
Qed.

Lemma scope_insert_ok u e b s : scope_map_ok s -> scope_map_ok (ScopeMap_insert u e b s).
Proof using Type.
  intros Hok. assert (forall u' e', is_Some (ScopeMap_get (ScopeMap_insert u e b s) u' e') <->
    (u' = u /\ e' = e) \/ is_Some (ScopeMap_get s u' e')) as Hg.
  { intros u' e'. unfold ScopeMap_get, ScopeMap_insert; cbn. rewrite lookup_insert_is_Some'. split; (intros [Hx|]; [left|now right]); [now injection Hx as -> ->|now destruct Hx as [-> ->]]. }
  split; intros u' e'; rewrite Hg; cbn [ScopeMap_insert entities_of_user users_of_entity]; rewrite index_insert.
  - now rewrite (sm_user _ Hok).
  - rewrite (sm_entity _ Hok). tauto.
Qed.

Lemma scope_insert_get u e b s u' e' :
  ScopeMap_get (ScopeMap_insert u e b s) u' e' = if decide (u' = u /\ e' = e) then Some b else ScopeMap_get s u' e'.
Proof using Type.
  unfold ScopeMap_get, ScopeMap_insert; cbn. rewrite lookup_insert. destruct (decide (u' = u /\ e' = e)) as [[-> ->]|Hn].
  - now rewrite decide_True.
  - rewrite decide_False; [reflexivity|]. intros [= -> ->]. auto.
Qed.

(** Walking the entities of a user. *)
Lemma forget_entities u l s :
  (forall e, e ∈ l -> is_Some (s.(users_of_entity) !! e)) ->
  let s' := foldr (fun entity self =>
      match self.(users_of_entity) !! entity with
      | Some users =>
          {| entities_of_user := self.(entities_of_user); users_of_entity := <[entity := users ∖ {[u]}]> self.(users_of_entity);
             main_map := delete (u, entity) self.(main_map) |}
      | None => self
      end) s l in
  s'.(entities_of_user) = s.(entities_of_user) /\
  (forall e, s'.(users_of_entity) !! e = if decide (e ∈ l) then (fun us => us ∖ {[u]}) <$> s.(users_of_entity) !! e else s.(users_of_entity) !! e) /\
  (forall u' e, ScopeMap_get s' u' e = if decide (u' = u /\ e ∈ l) then None else ScopeMap_get s u' e).
Proof using Type.
  induction l as [|e0 l IH]; intros Hl.
  - cbn. split; [reflexivity|]. split; [intros e; destruct (decide (e ∈ [])) as [?%elem_of_nil|]; easy|].
    intros u' e. destruct (decide (u' = u /\ e ∈ [])) as [[_ ?%elem_of_nil]|]; easy.
  - cbn [foldr]. destruct IH as (He & Hu & Hg); [intros e Hin; apply Hl; now right|].
    set (s1 := foldr _ s l) in *. destruct (Hl e0) as [us0 Hus0]; [now left|].
    assert (exists us, users_of_entity s1 !! e0 = Some us /\ us ∖ {[u]} = us0 ∖ {[u]}) as (us & Hus & Heq).
    { rewrite Hu, Hus0. case_decide; cbn; eexists; (split; [reflexivity|]); [|reflexivity].
      apply set_eq. intros x. rewrite !elem_of_difference. tauto. }
    rewrite Hus. split; [exact He|]. split.
    + intros e. cbn. rewrite lookup_insert. destruct (decide (e0 = e)) as [<-|Hne].
      * rewrite decide_True by (now left). rewrite Hus0. cbn. now rewrite Heq.
      * rewrite Hu. do 2 case_decide; try reflexivity; exfalso; rewrite elem_of_cons in *; intuition congruence.
    + intros u' e. unfold ScopeMap_get; cbn. rewrite lookup_delete. fold (ScopeMap_get s1 u' e). rewrite Hg.
      destruct (decide ((u, e0) = (u', e))) as [[= -> ->]|Hne].
      * rewrite decide_True; [reflexivity|]. split; [reflexivity|now left].
      * destruct (decide (u' = u /\ e ∈ l)) as [[-> Hin]|Hn]; [rewrite decide_True; [reflexivity|]; split; [reflexivity|now right]|].
        rewrite decide_False; [reflexivity|]. intros [-> [->|Hin]%elem_of_cons]; [congruence|auto].
Qed.

Lemma remove_user_scopes_of (iter_s : gset Z -> list Z) (Hws : walks iter_s) u s : scope_map_ok s ->
  scope_map_ok (ScopeMap_remove_user iter_s u s) /\
  forall u' e, ScopeMap_get (ScopeMap_remove_user iter_s u s) u' e = if decide (u' = u) then None else ScopeMap_get s u' e.
Proof using Type.
  intros Hok. unfold ScopeMap_remove_user. destruct (entities_of_user s !! u) as [es|] eqn:Hu.
  - destruct (forget_entities u (rev (iter_s es)) s) as (He & Hus & Hg).
    { intros e Hin. rewrite list_elem_of_In, <- in_rev, <- list_elem_of_In in Hin. apply (proj2 (Hws _)) in Hin.
      assert (is_Some (ScopeMap_get s u e)) as Hs by (apply (sm_user _ Hok); eauto).
      apply (sm_entity _ Hok) in Hs as (us & -> & _). eauto. }
    assert (forall e, e ∈ rev (iter_s es) <-> is_Some (ScopeMap_get s u e)) as Hin.
    { intros e. rewrite list_elem_of_In, <- in_rev, <- list_elem_of_In, (proj2 (Hws _)), (sm_user _ Hok), Hu.
      split; [eauto|now intros (? & [= <-] & ?)]. }
    set (s1 := foldr _ s _) in *.
    assert (forall u' e, ScopeMap_get {| entities_of_user := delete u (entities_of_user s1); users_of_entity := users_of_entity s1; main_map := main_map s1 |} u' e
      = if decide (u' = u) then None else ScopeMap_get s u' e) as Hget.
    { intros u' e. change (ScopeMap_get s1 u' e = if decide (u' = u) then None else ScopeMap_get s u' e). rewrite Hg.
      destruct (decide (u' = u)) as [->|Hne]; [|now rewrite decide_False by (now intros [])].
      case_decide as Hd; [reflexivity|]. destruct (ScopeMap_get s u e) eqn:Hs; [|reflexivity].
      exfalso. apply Hd. split; [reflexivity|]. apply Hin. eauto. }
    split; [|exact Hget]. split; intros u' e; rewrite Hget; cbn.
    + rewrite He. setoid_rewrite lookup_delete_Some. case_decide as Hd.
      * subst. split; [now intros [? ?]|]. now intros (? & [] & _).
      * rewrite (sm_user _ Hok). split; [intros (x & ? & ?); eauto|intros (x & [] & ?); eauto].
    + rewrite Hus. case_decide as Hd.
      * subst. split; [now intros [? ?]|]. case_decide as Hl; [|rewrite Hin, (sm_entity _ Hok) in Hl; tauto].
        intros (us & Hx & Hux). apply fmap_Some in Hx as (us0 & _ & ->). apply elem_of_difference in Hux as [_ Hn]. now rewrite elem_of_singleton in Hn.
      * rewrite (sm_entity _ Hok). case_decide; [|tauto]. split.
        -- intros (us & -> & Hu'). eexists. split; [reflexivity|]. apply elem_of_difference. now rewrite elem_of_singleton.
        -- intros (us & Hx & Hux). apply fmap_Some in Hx as (us0 & -> & ->). apply elem_of_difference in Hux as [Hux _]. eauto.
  - assert (forall e, ScopeMap_get s u e = None) as Hn.
    { intros e. destruct (ScopeMap_get s u e) eqn:Hs; [|reflexivity]. exfalso.
      assert (is_Some (ScopeMap_get s u e)) as Hx by eauto. apply (sm_user _ Hok) in Hx as (es & Hes & _). congruence. }
    rewrite delete_id by exact Hu. destruct s as [eu ue mm]; cbn in *. split; [exact Hok|].
    intros u' e. case_decide; [subst; apply Hn|reflexivity].
Qed.

Lemma remove_user_scopes u s : scope_map_ok s ->
  scope_map_ok (ScopeMap_remove_user iter_e u s) /\
  forall u' e, ScopeMap_get (ScopeMap_remove_user iter_e u s) u' e = if decide (u' = u) then None else ScopeMap_get s u' e.
Proof using Hwe. exact (remove_user_scopes_of iter_e Hwe u s). Qed.

(** The map with the two indices exchanged: users and entities play the same part. *)
Definition swapped (s : EntityScopeMap) : EntityScopeMap :=
  {| entities_of_user := s.(users_of_entity); users_of_entity := s.(entities_of_user); main_map := kmap prod_swap s.(main_map) |}.

Lemma swapped_get s u e : ScopeMap_get (swapped s) e u = ScopeMap_get s u e.
Proof using Type. unfold ScopeMap_get, swapped; cbn. apply (lookup_kmap prod_swap (main_map s) (u, e)). Qed.

Lemma swapped_ok s : scope_map_ok (swapped s) <-> scope_map_ok s.
Proof using Type.
  split; intros Hok; split; intros u e.
  - rewrite <- swapped_get. apply (sm_entity _ Hok).
  - rewrite <- swapped_get. apply (sm_user _ Hok).
  - rewrite swapped_get. apply (sm_entity _ Hok).
  - rewrite swapped_get. apply (sm_user _ Hok).
Qed.

Lemma swapped_remove e s : swapped (ScopeMap_remove_entity iter_u e s) = ScopeMap_remove_user iter_u e (swapped s).
Proof using Type.
  unfold ScopeMap_remove_entity, ScopeMap_remove_user. cbn [swapped entities_of_user users_of_entity main_map].
  destruct (users_of_entity s !! e) as [us|]; [|reflexivity].
  set (f := fun user self => match entities_of_user self !! user with Some es => _ | None => self end).
  set (g := fun entity self => match users_of_entity self !! entity with Some us => _ | None => self end).
  assert (forall l, swapped (foldr f s l) = foldr g (swapped s) l) as Hfold.
  { induction l as [|u l IH]; [reflexivity|]. cbn [foldr]. rewrite <- IH. unfold f at 1, g at 1. cbn [swapped users_of_entity entities_of_user].
    destruct (entities_of_user (foldr f s l) !! u); [|reflexivity]. unfold swapped. cbn. f_equal.
    apply (kmap_delete prod_swap (main_map (foldr f s l)) (u, e)). }
  rewrite <- Hfold. reflexivity.
Qed.

Lemma remove_entity_scopes e s : scope_map_ok s ->
  scope_map_ok (ScopeMap_remove_entity iter_u e s) /\
  forall u e', ScopeMap_get (ScopeMap_remove_entity iter_u e s) u e' = if decide (e' = e) then None else ScopeMap_get s u e'.
Proof using Hwu.
  intros Hok%swapped_ok. destruct (remove_user_scopes_of iter_u Hwu e _ Hok) as [Hok' Hg].
  rewrite <- swapped_remove in Hok', Hg. split; [now apply swapped_ok|].
  intros u e'. rewrite <- swapped_get, Hg. case_decide; [reflexivity|]. apply swapped_get.
Qed.
End Scopes.
