(* ===== verification/ServerWorld.v ===== *)
(** The server's record of the world's entities: [GlobalWorldManager]
    ([src/server/src/world/global_world_manager.rs]), its records
    ([global_entity_record.rs], [entity_owner.rs]) and their replication configuration
    ([replication_config.rs], [src/shared/src/world/publicity.rs]).

    [iter_k] is the order in which a hash set of component kinds is walked.  A component is
    known by its kind, by whether it is immutable and by the length of its diff mask; the mutator
    it is given is the position of its channel in the store of [DiffHandlers]. *)

From Stdlib Require Import ZArith Lia.
From stdpp Require Import base numbers option list gmap sets.
From S2P Require Import Prelude Kinds EntityTypes DiffHandlers Waitlist Authority.

Inductive Publicity := Private | Public | Delegated.
Inductive ScopeExit := Despawn | Persist.

#[global] Instance Publicity_eq_dec : EqDecision Publicity.
Proof. solve_decision. Defined.
#[global] Instance ScopeExit_eq_dec : EqDecision ScopeExit.
Proof. solve_decision. Defined.

Definition is_delegated (p : Publicity) : bool := match p with Delegated => true | _ => false end.

Record ReplicationConfig := mkConfig { publicity : Publicity; scope_exit : ScopeExit }.

#[global] Instance ReplicationConfig_eq_dec : EqDecision ReplicationConfig.
Proof. solve_decision. Defined.

Definition config_public : ReplicationConfig := {| publicity := Public; scope_exit := Despawn |}.
Definition config_private : ReplicationConfig := {| publicity := Private; scope_exit := Despawn |}.
Definition config_delegated : ReplicationConfig := {| publicity := Delegated; scope_exit := Despawn |}.
Definition persist_on_scope_exit (c : ReplicationConfig) : ReplicationConfig :=
  {| publicity := c.(publicity); scope_exit := Persist |}.

(** Constructors carry the prefix [Own]. *)
Inductive EntityOwner :=
| OwnServer | OwnClient (user_key : UserKey) | OwnClientWaiting (user_key : UserKey) | OwnClientPublic (user_key : UserKey) | OwnLocal.

#[global] Instance EntityOwner_eq_dec : EqDecision EntityOwner.
Proof. solve_decision. Defined.

Definition owner_is_server (o : EntityOwner) : bool := match o with OwnServer => true | _ => false end.
Definition owner_is_client (o : EntityOwner) : bool :=
  match o with OwnClient _ | OwnClientPublic _ | OwnClientWaiting _ => true | _ => false end.
Definition owner_is_public (o : EntityOwner) : bool := match o with OwnClientPublic _ | OwnServer => true | _ => false end.

(** The user of a client-owned entity. *)
Definition owner_user (o : EntityOwner) : option UserKey :=
  match o with OwnClient u | OwnClientWaiting u | OwnClientPublic u => Some u | _ => None end.

Record GlobalEntityRecord := mkRecord {
  component_kind_set : gset ComponentKind;
  owner : EntityOwner;
  replication_config : ReplicationConfig;
  is_replicating : bool;
  is_static : bool
}.

Definition Record_new (o : EntityOwner) : res GlobalEntityRecord :=
  config ← match o with
           | OwnServer => Ok config_public
           | OwnClient _ | OwnClientWaiting _ => Ok config_private
           | OwnClientPublic _ => Panic
           | OwnLocal => Panic
           end;
  Ok {| component_kind_set := ∅; owner := o; replication_config := config; is_replicating := true; is_static := false |}.

Definition with_static (r : GlobalEntityRecord) (b : bool) : GlobalEntityRecord :=
  {| component_kind_set := r.(component_kind_set); owner := r.(owner); replication_config := r.(replication_config);
     is_replicating := r.(is_replicating); is_static := b |}.
Definition with_replicating (r : GlobalEntityRecord) (b : bool) : GlobalEntityRecord :=
  {| component_kind_set := r.(component_kind_set); owner := r.(owner); replication_config := r.(replication_config);
     is_replicating := b; is_static := r.(is_static) |}.
Definition with_kinds (r : GlobalEntityRecord) (ks : gset ComponentKind) : GlobalEntityRecord :=
  {| component_kind_set := ks; owner := r.(owner); replication_config := r.(replication_config);
     is_replicating := r.(is_replicating); is_static := r.(is_static) |}.
Definition with_record_owner (r : GlobalEntityRecord) (o : EntityOwner) : GlobalEntityRecord :=
  {| component_kind_set := r.(component_kind_set); owner := o; replication_config := r.(replication_config);
     is_replicating := r.(is_replicating); is_static := r.(is_static) |}.
Definition with_publicity (r : GlobalEntityRecord) (p : Publicity) : GlobalEntityRecord :=
  {| component_kind_set := r.(component_kind_set); owner := r.(owner);
     replication_config := {| publicity := p; scope_exit := r.(replication_config).(scope_exit) |};
     is_replicating := r.(is_replicating); is_static := r.(is_static) |}.
Definition with_scope_exit (r : GlobalEntityRecord) (x : ScopeExit) : GlobalEntityRecord :=
  {| component_kind_set := r.(component_kind_set); owner := r.(owner);
     replication_config := {| publicity := r.(replication_config).(publicity); scope_exit := x |};
     is_replicating := r.(is_replicating); is_static := r.(is_static) |}.

Definition Record_new_static (o : EntityOwner) : res GlobalEntityRecord :=
  record ← Record_new o; Ok (with_static record true).

(** * The manager *)
Module SW.
Section Manager.
Context {A B : Type} {eqA : EqDecision A} {cA : Countable A}.
Context (iter_k : gset ComponentKind -> list ComponentKind).
Abbreviation Diffs := (@GlobalDiffHandler GlobalEntity ComponentKind _ _ _ _).
Abbreviation Heap := (@Store A eqA cA).

Record GlobalWorldManager := mkManager {
  auth_handler : ServerAuth.ServerAuthHandler;
  diff_handler : Diffs;
  entity_records : gmap GlobalEntity GlobalEntityRecord
}.

Definition Manager_new : GlobalWorldManager :=
  {| auth_handler := ServerAuth.ServerAuth_new; diff_handler := Global_new; entity_records := ∅ |}.

Definition set_records (self : GlobalWorldManager) (m : gmap GlobalEntity GlobalEntityRecord) : GlobalWorldManager :=
  {| auth_handler := self.(auth_handler); diff_handler := self.(diff_handler); entity_records := m |}.
Definition set_auth (self : GlobalWorldManager) (h : ServerAuth.ServerAuthHandler) : GlobalWorldManager :=
  {| auth_handler := h; diff_handler := self.(diff_handler); entity_records := self.(entity_records) |}.
Definition set_diffs (self : GlobalWorldManager) (d : Diffs) : GlobalWorldManager :=
  {| auth_handler := self.(auth_handler); diff_handler := d; entity_records := self.(entity_records) |}.

Definition has_entity (self : GlobalWorldManager) (e : GlobalEntity) : bool := bool_decide (is_Some (self.(entity_records) !! e)).
Definition entity_owner (self : GlobalWorldManager) (e : GlobalEntity) : option EntityOwner := owner <$> self.(entity_records) !! e.

Definition insert_entity_record (e : GlobalEntity) (o : EntityOwner) (self : GlobalWorldManager) : res GlobalWorldManager :=
  match self.(entity_records) !! e with
  | Some _ => Panic
  | None => record ← Record_new o; Ok (set_records self (<[e := record]> self.(entity_records)))
  end.

Definition insert_static_entity_record (e : GlobalEntity) (o : EntityOwner) (self : GlobalWorldManager) : res GlobalWorldManager :=
  match self.(entity_records) !! e with
  | Some _ => Panic
  | None => record ← Record_new_static o; Ok (set_records self (<[e := record]> self.(entity_records)))
  end.

(** A write to an entity's record; [Panic] where the entity has none. *)
Definition on_record (e : GlobalEntity) (f : GlobalEntityRecord -> res GlobalEntityRecord) (self : GlobalWorldManager) : res GlobalWorldManager :=
  record ← unwrap (self.(entity_records) !! e);
  record ← f record;
  Ok (set_records self (<[e := record]> self.(entity_records))).

Definition mark_entity_as_static (e : GlobalEntity) (self : GlobalWorldManager) : res GlobalWorldManager :=
  on_record e (fun r => Ok (with_static r true)) self.

Definition component_kinds (self : GlobalWorldManager) (e : GlobalEntity) : option (list ComponentKind) :=
  (fun r => iter_k r.(component_kind_set)) <$> self.(entity_records) !! e.

Definition remove_component_diff_handler (e : GlobalEntity) (k : ComponentKind) (self : GlobalWorldManager) : GlobalWorldManager :=
  set_diffs self (Global_deregister_component e k self.(diff_handler)).

Definition remove_entity_diff_handlers (e : GlobalEntity) (self : GlobalWorldManager) : GlobalWorldManager :=
  match component_kinds self e with
  | None => self
  | Some kinds => foldl (fun self k => remove_component_diff_handler e k self) self kinds
  end.

Definition remove_entity_record (e : GlobalEntity) (self : GlobalWorldManager) : res GlobalWorldManager :=
  _ ← unwrap (self.(entity_records) !! e); Ok (set_records self (delete e self.(entity_records))).

Definition insert_component_record (e : GlobalEntity) (k : ComponentKind) (self : GlobalWorldManager) : res GlobalWorldManager :=
  on_record e (fun r => Ok (with_kinds r ({[k]} ∪ r.(component_kind_set)))) self.

Definition has_component_record (self : GlobalWorldManager) (e : GlobalEntity) (k : ComponentKind) : bool :=
  match self.(entity_records) !! e with Some r => bool_decide (k ∈ r.(component_kind_set)) | None => false end.

Definition register_component (ks : Kinds ComponentKind B) (e : GlobalEntity) (k : ComponentKind) (diff_mask_length : Z)
    (self : GlobalWorldManager) (st : Heap) : res (nat * GlobalWorldManager * Heap) :=
  '(chan, d, st) ← Global_register_component true ks e k diff_mask_length self.(diff_handler) st;
  Ok (chan, set_diffs self d, st).

(** The channel is the mutator the component is given; an immutable component gets none. *)
Definition insert_component_diff_handler (ks : Kinds ComponentKind B) (e : GlobalEntity) (immutable : bool) (k : ComponentKind)
    (diff_mask_size : Z) (self : GlobalWorldManager) (st : Heap) : res (option nat * GlobalWorldManager * Heap) :=
  if immutable then Ok (None, self, st)
  else '(chan, self, st) ← register_component ks e k diff_mask_size self st; Ok (Some chan, self, st).

Definition remove_component_record (e : GlobalEntity) (k : ComponentKind) (self : GlobalWorldManager) : res GlobalWorldManager :=
  on_record e (fun r => if decide (k ∈ r.(component_kind_set)) then Ok (with_kinds r (r.(component_kind_set) ∖ {[k]})) else Panic) self.

(** ** Publicity *)
Definition entity_publish (e : GlobalEntity) (self : GlobalWorldManager) : res (bool * GlobalWorldManager) :=
  record ← unwrap (self.(entity_records) !! e);
  match record.(owner) with
  | OwnLocal => Panic
  | OwnServer => Ok (false, self)
  | OwnClientWaiting _ => Panic
  | OwnClient user_key | OwnClientPublic user_key =>
      Ok (true, set_records self
        (<[e := with_publicity (with_record_owner record (OwnClientPublic user_key)) Public]> self.(entity_records)))
  end.

Definition entity_unpublish (e : GlobalEntity) (self : GlobalWorldManager) : res GlobalWorldManager :=
  on_record e (fun r => match r.(owner) with
                        | OwnClientPublic user_key => Ok (with_publicity (with_record_owner r (OwnClient user_key)) Private)
                        | _ => Panic
                        end) self.

Definition entity_is_public_and_client_owned (self : GlobalWorldManager) (e : GlobalEntity) : bool :=
  match entity_owner self e with Some (OwnClientPublic _) => true | _ => false end.

Definition entity_is_public_and_owned_by_user (self : GlobalWorldManager) (user_key : UserKey) (e : GlobalEntity) : bool :=
  match entity_owner self e with Some (OwnClientPublic u) => bool_decide (u = user_key) | _ => false end.

Definition entity_replication_config (self : GlobalWorldManager) (e : GlobalEntity) : option ReplicationConfig :=
  replication_config <$> self.(entity_records) !! e.

Definition entity_set_scope_exit (e : GlobalEntity) (x : ScopeExit) (self : GlobalWorldManager) : GlobalWorldManager :=
  match self.(entity_records) !! e with
  | Some r => set_records self (<[e := with_scope_exit r x]> self.(entity_records))
  | None => self
  end.

Definition entity_is_delegated (self : GlobalWorldManager) (e : GlobalEntity) : bool :=
  match self.(entity_records) !! e with Some r => is_delegated r.(replication_config).(publicity) | None => false end.

Definition entity_enable_delegation (e : GlobalEntity) (self : GlobalWorldManager) : res GlobalWorldManager :=
  self ← on_record e (fun r => if decide (r.(replication_config).(publicity) = Public) then Ok (with_publicity r Delegated) else Panic) self;
  h ← ServerAuth.ServerAuth_register_entity e self.(auth_handler);
  Ok (set_auth self h).

Definition migrate_entity_to_server (e : GlobalEntity) (self : GlobalWorldManager) : res GlobalWorldManager :=
  on_record e (fun r => if owner_is_client r.(owner) then Ok (with_record_owner r OwnServer) else Panic) self.

Definition entity_disable_delegation (e : GlobalEntity) (self : GlobalWorldManager) : res GlobalWorldManager :=
  self ← on_record e (fun r => if decide (r.(replication_config).(publicity) = Delegated) then Ok (with_publicity r Public) else Panic) self;
  Ok (set_auth self (ServerAuth.ServerAuth_deregister_entity e self.(auth_handler))).

(** ** Authority *)
Definition entity_authority_status (self : GlobalWorldManager) (e : GlobalEntity) : res (option EntityAuthStatus) :=
  ServerAuth.authority_status self.(auth_handler) e.

(** An operation of the authority registry, guarded by delegation. *)
Definition if_delegated {T} (e : GlobalEntity) (f : ServerAuth.ServerAuthHandler -> res (auth_result T * ServerAuth.ServerAuthHandler))
    (self : GlobalWorldManager) : res (auth_result T * GlobalWorldManager) :=
  if entity_is_delegated self e then '(r, h) ← f self.(auth_handler); Ok (r, set_auth self h)
  else Ok (inl NotDelegated, self).

Definition server_take_authority (e : GlobalEntity) (self : GlobalWorldManager) : res (auth_result AuthOwner * GlobalWorldManager) :=
  if_delegated e (ServerAuth.server_take_authority e) self.
Definition client_request_authority (e : GlobalEntity) (requester : AuthOwner) (self : GlobalWorldManager)
    : res (auth_result unit * GlobalWorldManager) :=
  if_delegated e (ServerAuth.client_request_authority e requester) self.
Definition server_give_authority_to_client (e : GlobalEntity) (target_user : UserKey) (self : GlobalWorldManager)
    : res (auth_result AuthOwner * GlobalWorldManager) :=
  if_delegated e (ServerAuth.server_give_authority_to_client e target_user) self.
Definition client_release_authority (e : GlobalEntity) (releaser : AuthOwner) (self : GlobalWorldManager)
    : res (auth_result unit * GlobalWorldManager) :=
  if_delegated e (ServerAuth.client_release_authority e releaser) self.
Definition user_all_owned_entities (self : GlobalWorldManager) (u : UserKey) : option (gset GlobalEntity) :=
  ServerAuth.user_all_owned_entities self.(auth_handler) u.
Definition user_is_authority_holder (self : GlobalWorldManager) (u : UserKey) (e : GlobalEntity) : bool :=
  ServerAuth.user_is_authority_holder self.(auth_handler) u e.
Definition entity_has_holder (self : GlobalWorldManager) (e : GlobalEntity) : bool :=
  ServerAuth.entity_has_holder self.(auth_handler) e.

Definition set_replicating (e : GlobalEntity) (b : bool) (self : GlobalWorldManager) : GlobalWorldManager :=
  match self.(entity_records) !! e with
  | Some r => set_records self (<[e := with_replicating r b]> self.(entity_records))
  | None => self
  end.
Definition pause_entity_replication (e : GlobalEntity) (self : GlobalWorldManager) : GlobalWorldManager := set_replicating e false self.
Definition resume_entity_replication (e : GlobalEntity) (self : GlobalWorldManager) : GlobalWorldManager := set_replicating e true self.

Definition entity_can_relate_to_user (self : GlobalWorldManager) (e : GlobalEntity) (user_key : Z) : bool :=
  match entity_owner self e with
  | Some OwnServer | Some (OwnClientPublic _) => true
  | Some (OwnClient u) | Some (OwnClientWaiting u) => u =? user_key
  | Some OwnLocal => false
  | None => false
  end.
Definition get_entity_auth_accessor (self : GlobalWorldManager) (e : GlobalEntity) : res nat :=
  ServerAuth.ServerAuth_get_accessor self.(auth_handler) e.
Definition entity_needs_mutator_for_delegation (self : GlobalWorldManager) (e : GlobalEntity) : bool := false.
Definition entity_is_replicating (self : GlobalWorldManager) (e : GlobalEntity) : bool :=
  match self.(entity_records) !! e with Some r => r.(is_replicating) | None => false end.
Definition entity_is_static (self : GlobalWorldManager) (e : GlobalEntity) : bool :=
  match self.(entity_records) !! e with Some r => r.(is_static) | None => false end.
End Manager.
End SW.
