(* ===== verification/ServerRecords.v ===== *)
(** What the records of the server's world manager promise: the publicity of an entity follows
    from who owns it, and an entity is delegated exactly while its authority is registered. *)

From Stdlib Require Import ZArith Lia.
From stdpp Require Import base numbers option list gmap sets.
From S2P Require Import Prelude EntityTypes DiffHandlers Authority ServerWorld.

(** The publicities an owner allows. *)
Definition record_ok (r : GlobalEntityRecord) : Prop :=
  match r.(owner) with
  | OwnServer => r.(replication_config).(publicity) <> Private
  | OwnClient _ | OwnClientWaiting _ => r.(replication_config).(publicity) = Private
  | OwnClientPublic _ => r.(replication_config).(publicity) = Public
  | OwnLocal => False
  end.

Section Records.
Abbreviation Manager := SW.GlobalWorldManager.
Abbreviation held m := (ServerAuth.held (SW.auth_handler m)).

Record manager_ok (m : Manager) : Prop := {
  mg_records : forall e r, m.(SW.entity_records) !! e = Some r -> record_ok r;
  mg_auth : ServerAuth.auth_ok m.(SW.auth_handler);
  mg_held : forall e, SW.entity_is_delegated m e = true -> is_Some (held m e);
  mg_delegated : forall e, is_Some (held m e) -> SW.entity_is_delegated m e = true \/ m.(SW.entity_records) !! e = None
}.

(** The operations the server uses; [MMigrate] is what it does to delegate an entity that a client
    owns and has published. *)
Inductive manager_op :=
| MSpawn (e : GlobalEntity) | MSpawnStatic (e : GlobalEntity) | MReceive (e : GlobalEntity) (user_key : UserKey)
| MRemove (e : GlobalEntity)
| MPublish (e : GlobalEntity) | MUnpublish (e : GlobalEntity)
| MEnable (e : GlobalEntity) | MMigrate (e : GlobalEntity) | MDisable (e : GlobalEntity)
| MScopeExit (e : GlobalEntity) (x : ScopeExit) | MReplicating (e : GlobalEntity) (b : bool) | MStatic (e : GlobalEntity)
| MInsertKind (e : GlobalEntity) (k : ComponentKind) | MRemoveKind (e : GlobalEntity) (k : ComponentKind)
| MTake (e : GlobalEntity) | MRequest (e : GlobalEntity) (o : AuthOwner) | MGive (e : GlobalEntity) (u : UserKey) | MRelease (e : GlobalEntity) (o : AuthOwner).

Definition run_manager_op (op : manager_op) (m : Manager) : res Manager :=
  match op with
  | MSpawn e => SW.insert_entity_record e OwnServer m
  | MSpawnStatic e => SW.insert_static_entity_record e OwnServer m
  | MReceive e u => SW.insert_entity_record e (OwnClient u) m
  | MRemove e => SW.remove_entity_record e m
  | MPublish e => '(_, m) ← SW.entity_publish e m; Ok m
  | MUnpublish e => SW.entity_unpublish e m
  | MEnable e => SW.entity_enable_delegation e m
  | MMigrate e => m ← SW.migrate_entity_to_server e m; SW.entity_enable_delegation e m
  | MDisable e => SW.entity_disable_delegation e m
  | MScopeExit e x => Ok (SW.entity_set_scope_exit e x m)
  | MReplicating e b => Ok (SW.set_replicating e b m)
  | MStatic e => SW.mark_entity_as_static e m
  | MInsertKind e k => SW.insert_component_record e k m
  | MRemoveKind e k => SW.remove_component_record e k m
  | MTake e => '(_, m) ← SW.server_take_authority e m; Ok m
  | MRequest e o => '(_, m) ← SW.client_request_authority e o m; Ok m
  | MGive e u => '(_, m) ← SW.server_give_authority_to_client e u m; Ok m
  | MRelease e o => '(_, m) ← SW.client_release_authority e o m; Ok m
  end.

(** What the operations ask: new entities are new to the registry of authority too (numbers are
    not reused), and an entity is delegated from Public. *)
Definition manager_allowed (op : manager_op) (m : Manager) : Prop :=
  match op with
  | MSpawn e | MSpawnStatic e | MReceive e _ => m.(SW.entity_records) !! e = None /\ held m e = None
  | MRemove e | MStatic e | MInsertKind e _ => is_Some (m.(SW.entity_records) !! e)
  | MRemoveKind e k => SW.has_component_record m e k = true
  | MPublish e => match SW.entity_owner m e with Some (OwnClient _) | Some (OwnClientPublic _) | Some OwnServer => True | _ => False end
  | MUnpublish e | MMigrate e => SW.entity_is_public_and_client_owned m e = true
  | MEnable e => SW.entity_owner m e = Some OwnServer /\ SW.entity_is_delegated m e = false
  | MDisable e => SW.entity_is_delegated m e = true
  | _ => True
  end.

Inductive manager_reachable : Manager -> Prop :=
| manager_start : manager_reachable SW.Manager_new
| manager_step m op m' : manager_reachable m -> manager_allowed op m -> run_manager_op op m = Ok m' -> manager_reachable m'.

(** ** Writes to one record *)
Lemma ok_new : manager_ok SW.Manager_new.
Proof using Type.
  split; cbn.
  - intros e r H. now rewrite lookup_empty in H.
  - apply ServerAuth.auth_new_ok.
  - intros e. unfold SW.entity_is_delegated. cbn. rewrite lookup_empty. discriminate.
  - intros e [o H]. unfold ServerAuth.held in H. cbn in H. now rewrite lookup_empty in H.
Qed.

Lemma delegated_insert (m : Manager) e r e' :
  SW.entity_is_delegated (SW.set_records m (<[e := r]> m.(SW.entity_records))) e'
  = if decide (e' = e) then is_delegated r.(replication_config).(publicity) else SW.entity_is_delegated m e'.
Proof using Type.
  unfold SW.entity_is_delegated; cbn. rewrite lookup_insert. destruct (decide (e' = e)) as [->|Hne]; [now rewrite decide_True|].
  now rewrite decide_False by congruence.
Qed.

(** A write that leaves delegation as it was. *)
Lemma ok_write (m : Manager) e r : manager_ok m -> record_ok r ->
  (is_delegated r.(replication_config).(publicity) = true <-> is_Some (held m e)) ->
  manager_ok (SW.set_records m (<[e := r]> m.(SW.entity_records))).
Proof using Type.
  intros Hok Hr Hd. split.
  - intros e' r' H. cbn in H. apply lookup_insert_Some in H as [[_ <-]|[_ H]]; [exact Hr|]. exact (mg_records m Hok _ _ H).
  - apply Hok.
  - intros e'. rewrite delegated_insert. case_decide; [subst; apply Hd|apply (mg_held m Hok)].
  - intros e' Hh. rewrite delegated_insert. cbn. case_decide as He; [subst; left; now apply Hd|].
    rewrite lookup_insert_ne by congruence. now apply (mg_delegated m Hok).
Qed.

Lemma delegated_held (m : Manager) e r : manager_ok m -> m.(SW.entity_records) !! e = Some r ->
  is_delegated r.(replication_config).(publicity) = true <-> is_Some (held m e).
Proof using Type.
  intros Hok He. assert (SW.entity_is_delegated m e = is_delegated r.(replication_config).(publicity)) as Hd.
  { unfold SW.entity_is_delegated. now rewrite He. }
  rewrite <- Hd. split; [apply (mg_held m Hok)|]. intros Hh. destruct (mg_delegated m Hok e Hh); congruence.
Qed.

(** A write to a record that keeps its owner and its publicity. *)
Lemma ok_rewrite (m : Manager) e r r' : manager_ok m -> m.(SW.entity_records) !! e = Some r ->
  r'.(owner) = r.(owner) -> r'.(replication_config).(publicity) = r.(replication_config).(publicity) ->
  manager_ok (SW.set_records m (<[e := r']> m.(SW.entity_records))).
Proof using Type.
  intros Hok He Ho Hp. apply ok_write; [exact Hok| |].
  - unfold record_ok. rewrite Ho, Hp. exact (mg_records m Hok e r He).
  - rewrite Hp. exact (delegated_held m e r Hok He).
Qed.

(** A write that leaves the entity what it was not before: not delegated. *)
Lemma ok_undelegated (m : Manager) e r : manager_ok m -> held m e = None -> record_ok r ->
  is_delegated r.(replication_config).(publicity) = false -> manager_ok (SW.set_records m (<[e := r]> m.(SW.entity_records))).
Proof using Type.
  intros Hok Hh Hr Hd. apply ok_write; [exact Hok|exact Hr|]. rewrite Hd, Hh. split; [discriminate|intros [? ?]; discriminate].
Qed.

Lemma not_held (m : Manager) e r : manager_ok m -> m.(SW.entity_records) !! e = Some r ->
  is_delegated r.(replication_config).(publicity) = false -> held m e = None.
Proof using Type.
  intros Hok He Hd. destruct (held m e) as [o|] eqn:Hh; [|reflexivity].
  assert (is_Some (held m e)) as Hx by eauto. apply (delegated_held m e r Hok He) in Hx. congruence.
Qed.

(** ** Authority *)
Lemma ok_auth (m : Manager) h e o : manager_ok m -> SW.entity_is_delegated m e = true -> is_Some o ->
  ServerAuth.holds_now e o m.(SW.auth_handler) h -> manager_ok (SW.set_auth m h).
Proof using Type.
  intros Hok Hd Ho [Hh Hnow]. split; [apply Hok|exact Hh| |].
  - intros e' He'. cbn. rewrite Hnow. case_decide; [exact Ho|]. now apply (mg_held m Hok).
  - intros e'. cbn. rewrite Hnow. case_decide as He; [subst; intros _; now left|apply (mg_delegated m Hok)].
Qed.

(** The registry's answer to an operation on a delegated entity, with a holder after it. *)
Lemma auth_call (m : Manager) e (op : ServerAuth.auth_op) : manager_ok m -> SW.entity_is_delegated m e = true ->
  ServerAuth.op_entity op = e -> (match op with ServerAuth.ORegister _ | ServerAuth.ODeregister _ => False | _ => True end) ->
  exists x h, ServerAuth.run_op op m.(SW.auth_handler) = Ok (x, h) /\ manager_ok (SW.set_auth m h).
Proof using Type.
  intros Hok Hd He Hop. destruct (mg_held m Hok e Hd) as [o Ho].
  pose proof (ServerAuth.run_op_refines op _ (mg_auth m Hok)) as Hr. rewrite He, Ho in Hr.
  destruct (ServerAuth.spec_op op (Some o)) as [[x h']|] eqn:Hs; [|exfalso; destruct op as [?|?|? a|? a|? ?|?]; try easy; cbn in Hs; [destruct o|destruct a; repeat case_decide]; discriminate].
  destruct Hr as (h & Hr & Hn). exists x, h. split; [exact Hr|]. apply (ok_auth m h e h' Hok Hd); [|exact Hn].
  destruct op as [?|?|? a|? a|? ?|?], o; try easy; cbn in Hs; try (destruct a; cbn in Hs); repeat case_decide; injection Hs as <- <-; eauto.
Qed.

Lemma record_if_delegated_ok {T} (m : Manager) e (f : ServerAuth.ServerAuthHandler -> res (auth_result T * ServerAuth.ServerAuthHandler)) :
  manager_ok m -> (SW.entity_is_delegated m e = true -> exists r h, f m.(SW.auth_handler) = Ok (r, h) /\ manager_ok (SW.set_auth m h)) ->
  exists m', ('(_, m) ← SW.if_delegated e f m; Ok m) = Ok m' /\ manager_ok m'.
Proof using Type.
  intros Hok Hf. unfold SW.if_delegated. destruct (SW.entity_is_delegated m e); [|eauto].
  destruct (Hf eq_refl) as (r & h & -> & Hm). eauto.
Qed.

Lemma auth_op_ok op (m : Manager) : manager_ok m ->
  (match op with MTake _ | MRequest _ _ | MGive _ _ | MRelease _ _ => True | _ => False end) ->
  exists m', run_manager_op op m = Ok m' /\ manager_ok m'.
Proof using Type.
  intros Hok Hop. destruct op; try easy; cbn [run_manager_op]; apply record_if_delegated_ok; auto; intros Hd.
  - destruct (auth_call m e (ServerAuth.OTake e) Hok Hd eq_refl I) as (x & h & Hr & Hm). cbn [ServerAuth.run_op] in Hr.
    apply bind_ok_inv in Hr as ([r h'] & Hr & H). injection H as _ <-. eauto.
  - destruct (auth_call m e (ServerAuth.ORequest e o) Hok Hd eq_refl I) as (x & h & Hr & Hm). cbn [ServerAuth.run_op] in Hr.
    apply bind_ok_inv in Hr as ([r h'] & Hr & H). injection H as _ <-. eauto.
  - destruct (auth_call m e (ServerAuth.OGive e u) Hok Hd eq_refl I) as (x & h & Hr & Hm). cbn [ServerAuth.run_op] in Hr.
    apply bind_ok_inv in Hr as ([r h'] & Hr & H). injection H as _ <-. eauto.
  - destruct (auth_call m e (ServerAuth.ORelease e o) Hok Hd eq_refl I) as (x & h & Hr & Hm). cbn [ServerAuth.run_op] in Hr.
    apply bind_ok_inv in Hr as ([r h'] & Hr & H). injection H as _ <-. eauto.
Qed.

(** ** Delegation *)
Lemma registered (m : Manager) e : manager_ok m -> held m e = None ->
  exists h, ServerAuth.ServerAuth_register_entity e m.(SW.auth_handler) = Ok h /\ ServerAuth.holds_now e (Some ByNone) m.(SW.auth_handler) h.
Proof using Type.
  intros Hok Hn. pose proof (ServerAuth.auth_register_step e _ (mg_auth m Hok)) as Hr. rewrite Hn in Hr.
  destruct Hr as (h & Hr & Hnow). cbn [ServerAuth.run_op] in Hr. apply bind_ok_inv in Hr as (h' & Hr & H). injection H as <-. eauto.
Qed.

Lemma enable_ok (m : Manager) e r : manager_ok m -> held m e = None ->
  m.(SW.entity_records) !! e = Some r -> r.(replication_config).(publicity) = Public -> r.(owner) = OwnServer ->
  exists m', SW.entity_enable_delegation e m = Ok m' /\ manager_ok m' /\ SW.entity_is_delegated m' e = true.
Proof using Type.
  intros Hok Hn He Hp Ho. unfold SW.entity_enable_delegation, SW.on_record. rewrite He. cbn [unwrap]. rewrite !bind_ok, decide_True by exact Hp.
  rewrite !bind_ok. cbn [SW.auth_handler SW.set_records]. destruct (registered m e Hok Hn) as (h & -> & Hh & Hnow). rewrite bind_ok.
  eexists. split; [reflexivity|]. set (r' := with_publicity r Delegated).
  assert (forall e', SW.entity_is_delegated (SW.set_auth (SW.set_records m (<[e := r']> m.(SW.entity_records))) h) e'
    = if decide (e' = e) then true else SW.entity_is_delegated m e') as Hd by (intros e'; exact (delegated_insert m e r' e')).
  split; [|rewrite Hd; now rewrite decide_True]. split; cbn [SW.auth_handler SW.set_auth SW.entity_records SW.set_records].
  - intros e' x [[_ <-]|[_ H]]%lookup_insert_Some; [unfold record_ok; cbn; now rewrite Ho|exact (mg_records m Hok _ _ H)].
  - exact Hh.
  - intros e'. rewrite Hd, Hnow. case_decide; [eauto|apply (mg_held m Hok)].
  - intros e'. rewrite Hd, Hnow. case_decide as Heq; [now left|]. rewrite lookup_insert_ne by congruence. apply (mg_delegated m Hok).
Qed.

(** Between the change of owner and the delegation the entity is the server's, and public. *)
Lemma record_migrate_ok (m : Manager) e r u : manager_ok m -> m.(SW.entity_records) !! e = Some r -> r.(owner) = OwnClientPublic u ->
  exists m', SW.migrate_entity_to_server e m = Ok m' /\ manager_ok m' /\ held m' e = None /\
    m'.(SW.entity_records) !! e = Some (with_record_owner r OwnServer) /\ r.(replication_config).(publicity) = Public.
Proof using Type.
  intros Hok He Ho. pose proof (mg_records m Hok e r He) as Hr. unfold record_ok in Hr. rewrite Ho in Hr.
  unfold SW.migrate_entity_to_server, SW.on_record. rewrite He. cbn [unwrap]. rewrite !bind_ok, Ho. cbn [owner_is_client]. rewrite bind_ok.
  assert (held m e = None) as Hn by (apply (not_held m e r Hok He); now rewrite Hr).
  eexists. split; [reflexivity|]. split; [|split; [exact Hn|split; [apply lookup_insert_eq|exact Hr]]].
  apply ok_undelegated; [exact Hok|exact Hn| |]; cbn; now rewrite Hr.
Qed.

Lemma disable_ok (m : Manager) e r : manager_ok m -> m.(SW.entity_records) !! e = Some r -> SW.entity_is_delegated m e = true ->
  exists m', SW.entity_disable_delegation e m = Ok m' /\ manager_ok m'.
Proof using Type.
  intros Hok He Hdel. unfold SW.entity_disable_delegation, SW.on_record. rewrite He. cbn [unwrap]. rewrite !bind_ok.
  assert (r.(replication_config).(publicity) = Delegated) as Hp.
  { unfold SW.entity_is_delegated in Hdel. rewrite He in Hdel. now destruct (publicity (replication_config r)). }
  rewrite decide_True by exact Hp. rewrite !bind_ok. eexists. split; [reflexivity|].
  pose proof (mg_records m Hok e r He) as Hr. unfold record_ok in Hr. rewrite Hp in Hr.
  destruct (ServerAuth.auth_deregister_step e _ (mg_auth m Hok)) as [Hh Hnow]. set (r' := with_publicity r Public).
  assert (forall e', SW.entity_is_delegated (SW.set_auth (SW.set_records m (<[e := r']> m.(SW.entity_records)))
      (ServerAuth.ServerAuth_deregister_entity e (SW.auth_handler m))) e' = if decide (e' = e) then false else SW.entity_is_delegated m e') as Hd
    by (intros e'; exact (delegated_insert m e r' e')).
  split; cbn [SW.auth_handler SW.set_auth SW.entity_records SW.set_records].
  - intros e' x [[_ <-]|[_ H]]%lookup_insert_Some; [|exact (mg_records m Hok _ _ H)]. unfold record_ok. cbn. now destruct (owner r).
  - exact Hh.
  - intros e'. rewrite Hd, Hnow. case_decide; [discriminate|apply (mg_held m Hok)].
  - intros e'. rewrite Hd, Hnow. case_decide as Heq; [now intros [? ?]|]. rewrite lookup_insert_ne by congruence. apply (mg_delegated m Hok).
Qed.

Lemma remove_ok (m : Manager) e : manager_ok m -> is_Some (m.(SW.entity_records) !! e) ->
  exists m', SW.remove_entity_record e m = Ok m' /\ manager_ok m'.
Proof using Type.
  intros Hok [r He]. unfold SW.remove_entity_record. rewrite He. cbn [unwrap]. rewrite bind_ok. eexists. split; [reflexivity|].
  assert (forall e', SW.entity_is_delegated (SW.set_records m (delete e m.(SW.entity_records))) e' = if decide (e' = e) then false else SW.entity_is_delegated m e') as Hd.
  { intros e'. unfold SW.entity_is_delegated; cbn. rewrite lookup_delete. destruct (decide (e' = e)) as [->|Hne]; [now rewrite decide_True|].
    now rewrite decide_False by congruence. }
  split; cbn.
  - intros e' x [_ H]%lookup_delete_Some. exact (mg_records m Hok _ _ H).
  - apply Hok.
  - intros e'. rewrite Hd. case_decide; [discriminate|apply (mg_held m Hok)].
  - intros e' Hh. rewrite Hd, lookup_delete. destruct (decide (e' = e)) as [->|Hne]; [right; now rewrite decide_True|].
    rewrite decide_False by congruence. now apply (mg_delegated m Hok).
Qed.

Lemma publish_ok (m : Manager) e : manager_ok m -> manager_allowed (MPublish e) m ->
  exists m', run_manager_op (MPublish e) m = Ok m' /\ manager_ok m'.
Proof using Type.
  intros Hok Ha. cbn in Ha. cbn [run_manager_op]. unfold SW.entity_publish, SW.entity_owner in *.
  destruct (SW.entity_records m !! e) as [r|] eqn:He; [|easy]. cbn [unwrap fmap option_fmap option_map] in *. rewrite bind_ok.
  pose proof (mg_records m Hok e r He) as Hr. unfold record_ok in Hr.
  assert (r.(owner) <> OwnServer -> held m e = None) as Hn.
  { intros Ho. apply (not_held m e r Hok He). destruct (owner r); easy || (rewrite Hr; reflexivity). }
  destruct (owner r) as [|u|u|u|] eqn:Ho; try easy; rewrite bind_ok; eexists; (split; [reflexivity|]); [exact Hok|..];
    (apply ok_undelegated; [exact Hok|apply Hn; discriminate|reflexivity|reflexivity]).
Qed.

Lemma unpublish_ok (m : Manager) e r u : manager_ok m -> m.(SW.entity_records) !! e = Some r -> r.(owner) = OwnClientPublic u ->
  exists m', SW.entity_unpublish e m = Ok m' /\ manager_ok m'.
Proof using Type.
  intros Hok He Ho. unfold SW.entity_unpublish, SW.on_record. rewrite He. cbn [unwrap]. rewrite !bind_ok, Ho, bind_ok. eexists. split; [reflexivity|].
  pose proof (mg_records m Hok e r He) as Hr. unfold record_ok in Hr. rewrite Ho in Hr.
  apply ok_undelegated; [exact Hok|apply (not_held m e r Hok He); now rewrite Hr|reflexivity|reflexivity].
Qed.

Lemma client_public (m : Manager) e : SW.entity_is_public_and_client_owned m e = true ->
  exists r u, m.(SW.entity_records) !! e = Some r /\ r.(owner) = OwnClientPublic u.
Proof using Type.
  unfold SW.entity_is_public_and_client_owned, SW.entity_owner. destruct (SW.entity_records m !! e) as [r|]; [|discriminate]. cbn.
  destruct (owner r) eqn:Ho; try discriminate. eauto.
Qed.

Lemma manager_op_ok op (m : Manager) : manager_ok m -> manager_allowed op m -> exists m', run_manager_op op m = Ok m' /\ manager_ok m'.
Proof using Type.
  intros Hok Ha. destruct op; try (now apply auth_op_ok); cbn [run_manager_op manager_allowed] in *.
  - destruct Ha as [Hn Hh]. unfold SW.insert_entity_record. rewrite Hn. eexists. split; [reflexivity|]. apply ok_undelegated; auto; discriminate.
  - destruct Ha as [Hn Hh]. unfold SW.insert_static_entity_record. rewrite Hn. eexists. split; [reflexivity|]. apply ok_undelegated; auto; discriminate.
  - destruct Ha as [Hn Hh]. unfold SW.insert_entity_record. rewrite Hn. eexists. split; [reflexivity|]. apply ok_undelegated; auto; reflexivity.
  - now apply remove_ok.
  - now apply publish_ok.
  - destruct (client_public m e Ha) as (r & u & He & Ho). exact (unpublish_ok m e r u Hok He Ho).
  - destruct Ha as [Ho Hd]. unfold SW.entity_owner in Ho. destruct (SW.entity_records m !! e) as [r|] eqn:He; [|discriminate]. injection Ho as Ho.
    pose proof (mg_records m Hok e r He) as Hr. unfold record_ok in Hr. rewrite Ho in Hr. unfold SW.entity_is_delegated in Hd. rewrite He in Hd.
    destruct (enable_ok m e r Hok) as (m' & -> & Hm & _); [now apply (not_held m e r Hok He)|exact He|now destruct (publicity (replication_config r))|exact Ho|eauto].
  - destruct (client_public m e Ha) as (r & u & He & Ho). destruct (record_migrate_ok m e r u Hok He Ho) as (m1 & -> & Hok1 & Hn1 & He1 & Hp).
    rewrite bind_ok. destruct (enable_ok m1 e _ Hok1 Hn1 He1 Hp eq_refl) as (m' & -> & Hm & _). eauto.
  - destruct (SW.entity_records m !! e) as [r|] eqn:He; [exact (disable_ok m e r Hok He Ha)|]. unfold SW.entity_is_delegated in Ha. now rewrite He in Ha.
  - eexists. split; [reflexivity|]. unfold SW.entity_set_scope_exit. destruct (SW.entity_records m !! e) eqn:He; [|exact Hok]. eapply ok_rewrite; [exact Hok|exact He|reflexivity|reflexivity].
  - eexists. split; [reflexivity|]. unfold SW.set_replicating. destruct (SW.entity_records m !! e) eqn:He; [|exact Hok]. eapply ok_rewrite; [exact Hok|exact He|reflexivity|reflexivity].
  - destruct Ha as [r He]. unfold SW.mark_entity_as_static, SW.on_record. rewrite He. eexists. split; [reflexivity|]. eapply ok_rewrite; [exact Hok|exact He|reflexivity|reflexivity].
  - destruct Ha as [r He]. unfold SW.insert_component_record, SW.on_record. rewrite He. eexists. split; [reflexivity|]. eapply ok_rewrite; [exact Hok|exact He|reflexivity|reflexivity].
  - unfold SW.remove_component_record, SW.on_record, SW.has_component_record in *. destruct (SW.entity_records m !! e) as [r|] eqn:He; [|discriminate].
    apply bool_decide_eq_true in Ha. cbn [unwrap]. rewrite !bind_ok, decide_True by exact Ha. eexists. split; [reflexivity|]. eapply ok_rewrite; [exact Hok|exact He|reflexivity|reflexivity].
Qed.

Lemma manager_reachable_ok (m : Manager) : manager_reachable m -> manager_ok m.
Proof using Type.
  induction 1 as [|m op m' _ IH Ha Hr]; [apply ok_new|]. destruct (manager_op_ok op m IH Ha) as (m1 & Hr1 & Hm). congruence.
Qed.

(** C31: Every record is well formed in every reachable world manager: a client's unpublished
    entity is Private, its published one Public, and only the server's entities are delegated;
    delegation and the registration of authority come and go together while the entity lives, so
    that no operation of authority on a delegated entity fails for want of registration, and every
    allowed operation returns. *)
Theorem records_well_formed (m : Manager) : manager_reachable m ->
  (forall e r, m.(SW.entity_records) !! e = Some r -> record_ok r) /\
  (forall e r, m.(SW.entity_records) !! e = Some r ->
     SW.entity_is_delegated m e = true <-> exists o, held m e = Some o /\ SW.entity_authority_status m e = Ok (Some (ServerAuth.status_of o))) /\
  (forall e, SW.entity_is_delegated m e = true -> SW.entity_owner m e = Some OwnServer) /\
  (forall op, manager_allowed op m -> exists m', run_manager_op op m = Ok m' /\ manager_reachable m').
Proof using Type.
  intros Hm. pose proof (manager_reachable_ok m Hm) as Hok. split; [apply Hok|]. split; [|split].
  - intros e r He. assert (SW.entity_is_delegated m e = true <-> is_Some (held m e)) as ->.
    { rewrite <- (delegated_held m e r Hok He). unfold SW.entity_is_delegated. now rewrite He. }
    split; [|intros (o & Ho & _); eauto]. intros [o Ho]. exists o. split; [exact Ho|].
    unfold SW.entity_authority_status. rewrite (ServerAuth.status_held _ e (mg_auth m Hok)). now rewrite Ho.
  - intros e Hd. unfold SW.entity_is_delegated, SW.entity_owner in *. destruct (SW.entity_records m !! e) as [r|] eqn:He; [|discriminate]. cbn. f_equal.
    pose proof (mg_records m Hok e r He) as Hr. unfold record_ok in Hr. destruct (owner r); try reflexivity; try easy; rewrite Hr in Hd; discriminate.
  - intros op Ha. destruct (manager_op_ok op m Hok Ha) as (m' & Hr & _). exists m'. split; [exact Hr|]. exact (manager_step m op m' Hm Ha Hr).
Qed.
End Records.

Module RecordsSample.
(** Entity 0 is the server's and delegated, held by user 1; entity 1 is user 2's, published and
    then taken over. *)
Definition history : list manager_op :=
  [MSpawn 0; MEnable 0; MRequest 0 (ByClient 1); MReceive 1 2; MPublish 1; MMigrate 1].

Definition after : SW.GlobalWorldManager := match foldM run_manager_op history SW.Manager_new with Ok m => m | _ => SW.Manager_new end.

Lemma after_reachable : manager_reachable after.
Proof.
  assert (forall ops m m', manager_reachable m ->
    (fix go ops m := match ops with [] => True | op :: ops => manager_allowed op m /\ match run_manager_op op m with Ok m' => go ops m' | _ => False end end) ops m ->
    foldM run_manager_op ops m = Ok m' -> manager_reachable m') as Hgo.
  { induction ops as [|op ops IH]; intros m m' Hm; cbn [foldM]; [congruence|]. intros [Ha Hl] (m1 & Hr & Hf)%bind_ok_inv. rewrite Hr in Hl.
    exact (IH m1 m' (manager_step m op m1 Hm Ha Hr) Hl Hf). }
  apply (Hgo history SW.Manager_new); [constructor| |vm_compute; reflexivity]. vm_compute. repeat split.
Qed.

Lemma records_well_formed_witness :
  (exists o, ServerAuth.held (SW.auth_handler after) 0 = Some o /\ SW.entity_authority_status after 0 = Ok (Some (ServerAuth.status_of o))) /\
  SW.entity_owner after 1 = Some OwnServer /\ exists m', run_manager_op (MDisable 1) after = Ok m'.
Proof.
  destruct (records_well_formed after after_reachable) as (_ & Hheld & Howner & Hop). split; [|split].
  - eapply (Hheld 0); vm_compute; reflexivity.
  - apply Howner. vm_compute. reflexivity.
  - destruct (Hop (MDisable 1)) as (m' & Hm' & _); [vm_compute; reflexivity|eauto].
Defined.
End RecordsSample.
