(* ===== verification/Historian.v ===== *)
(** The server's snapshots of past ticks for lag compensation ([src/server/src/historian.rs]).

    [component_of_kind] is the application's world ([WorldRefType::component_of_kind] followed by
    [copy_to_box]); [iter_e] and [iter_k] are the orders in which records and component kinds are
    walked.  [snapshot_at_time_ago_ms] computes with floats and is not part of the model. *)

From Stdlib Require Import ZArith Lia Sorted.
From stdpp Require Import base numbers option list gmap sets.
From S2P Require Import Prelude EntityTypes DiffHandlers EntityMaps Waitlist WaitlistRefine GameTime Authority ServerWorld.

Section Historian.
Context {E Comp : Type} {eqE : EqDecision E} {cE : Countable E}.
Context (iter_k : gset ComponentKind -> list ComponentKind) (iter_e : gmap GlobalEntity GlobalEntityRecord -> list GlobalEntity).
Abbreviation Tick := Z.
Abbreviation EntitySnapshot := (gmap ComponentKind Comp).
Abbreviation Snapshot := (gmap GlobalEntity EntitySnapshot).

Record Historian := mkHistorian {
  max_ticks : Z;
  snapshots : list (Tick * Snapshot);
  component_filter : option (gset ComponentKind)
}.
Definition Historian_new (max_ticks : Z) : Historian := mkHistorian max_ticks [] None.
Definition Historian_new_filtered (max_ticks : Z) (filter : gset ComponentKind) : Historian := mkHistorian max_ticks [] (Some filter).

Definition captured (component_filter : option (gset ComponentKind)) (kind : ComponentKind) : bool :=
  match component_filter with Some f => bool_decide (kind ∈ f) | None => true end.

Definition snapshot_entity (component_filter : option (gset ComponentKind)) (component_of_kind : E -> ComponentKind -> option Comp)
    (world_entity : E) (kinds : list ComponentKind) : EntitySnapshot :=
  foldl (fun entity_snapshot kind =>
           if captured component_filter kind then
             match component_of_kind world_entity kind with
             | Some component_ref => <[kind := component_ref]> entity_snapshot
             | None => entity_snapshot
             end
           else entity_snapshot) ∅ kinds.

Abbreviation Manager := SW.GlobalWorldManager.

(** One round of the loop over the entities. *)
Definition snapshot_step (component_filter : option (gset ComponentKind)) (m : Manager)
    (global_entity_map : @GlobalEntityMap.GlobalEntityMap E _ _) (component_of_kind : E -> ComponentKind -> option Comp)
    (tick_snapshot : Snapshot) (global_entity : GlobalEntity) : Snapshot :=
  match GlobalEntityMap.GlobalMap_to_entity global_entity_map global_entity with
  | None => tick_snapshot
  | Some world_entity =>
      match SW.component_kinds iter_k m global_entity with
      | None => tick_snapshot
      | Some kinds =>
          let entity_snapshot := snapshot_entity component_filter component_of_kind world_entity kinds in
          if bool_decide (size entity_snapshot = 0%nat) then tick_snapshot else <[global_entity := entity_snapshot]> tick_snapshot
      end
  end.

Definition snapshot_world (component_filter : option (gset ComponentKind)) (m : Manager)
    (global_entity_map : @GlobalEntityMap.GlobalEntityMap E _ _) (component_of_kind : E -> ComponentKind -> option Comp) : Snapshot :=
  foldl (snapshot_step component_filter m global_entity_map component_of_kind) ∅ (iter_e m.(SW.entity_records)).

(** The eviction: [u32] subtraction of two [u16] ticks, wrapping. *)
Fixpoint evict (max_ticks : Z) (tick : Tick) (l : list (Tick * Snapshot)) : list (Tick * Snapshot) :=
  match l with
  | [] => []
  | (oldest_tick, s) :: rest => if max_ticks <? wrap 32 (tick - oldest_tick) then evict max_ticks tick rest else l
  end.

Definition record_tick (tick : Tick) (m : Manager) (global_entity_map : @GlobalEntityMap.GlobalEntityMap E _ _)
    (component_of_kind : E -> ComponentKind -> option Comp) (self : Historian) : Historian :=
  let tick_snapshot := snapshot_world self.(component_filter) m global_entity_map component_of_kind in
  mkHistorian self.(max_ticks) (evict self.(max_ticks) tick (self.(snapshots) ++ [(tick, tick_snapshot)])) self.(component_filter).

Definition snapshot_at_tick (tick : Tick) (self : Historian) : option Snapshot :=
  (fun x => x.2.2) <$> list_find (fun x => x.1 = tick) self.(snapshots).

(** * What a snapshot holds *)
Lemma snapshot_entity_lookup f world w kinds k :
  snapshot_entity f world w kinds !! k = if bool_decide (k ∈ kinds) && captured f k then world w k else None.
Proof using Type.
  unfold snapshot_entity. induction kinds as [|kind kinds IH] using rev_ind; [cbn [foldl]; now rewrite lookup_empty, bool_decide_eq_false_2 by apply not_elem_of_nil|].
  rewrite foldl_app. cbn [foldl]. destruct (decide (kind = k)) as [->|Hne].
  - rewrite (bool_decide_eq_true_2 (k ∈ kinds ++ [k])) by (apply elem_of_app; right; now left). cbn [andb].
    destruct (captured f k) eqn:Hc; [|rewrite IH, andb_false_r; reflexivity].
    destruct (world w k) as [c|] eqn:Hw; [apply lookup_insert_eq|]. rewrite IH, andb_true_r. now destruct (bool_decide _).
  - assert (bool_decide (k ∈ kinds ++ [kind]) = bool_decide (k ∈ kinds)) as ->.
    { apply bool_decide_ext. rewrite elem_of_app, list_elem_of_singleton. intuition congruence. }
    destruct (captured f kind); [|exact IH]. destruct (world w kind); [|exact IH]. now rewrite lookup_insert_ne.
Qed.

Definition entity_part f (m : Manager) (g : @GlobalEntityMap.GlobalEntityMap E _ _) world (e : GlobalEntity) : option EntitySnapshot :=
  w ← GlobalEntityMap.GlobalMap_to_entity g e; kinds ← SW.component_kinds iter_k m e;
  let s := snapshot_entity f world w kinds in if bool_decide (size s = 0%nat) then None else Some s.

Lemma snapshot_step_lookup f (m : Manager) (g : @GlobalEntityMap.GlobalEntityMap E _ _) world s x e :
  snapshot_step f m g world s x !! e = match entity_part f m g world x with
                                       | Some p => if decide (x = e) then Some p else s !! e
                                       | None => s !! e
                                       end.
Proof using Type.
  unfold snapshot_step, entity_part. destruct (GlobalEntityMap.GlobalMap_to_entity g x) as [w|]; [|reflexivity]. cbn.
  destruct (SW.component_kinds iter_k m x) as [kinds|]; [|reflexivity]. cbn. case_bool_decide; [reflexivity|]. apply lookup_insert.
Qed.

Lemma snapshot_fold f (m : Manager) (g : @GlobalEntityMap.GlobalEntityMap E _ _) world l e :
  foldl (snapshot_step f m g world) ∅ l !! e = if bool_decide (e ∈ l) then entity_part f m g world e else None.
Proof using Type.
  induction l as [|x l IH] using rev_ind; [cbn [foldl]; now rewrite lookup_empty, bool_decide_eq_false_2 by apply not_elem_of_nil|].
  rewrite foldl_app. cbn [foldl]. rewrite snapshot_step_lookup, IH. destruct (decide (x = e)) as [->|Hne].
  - rewrite (bool_decide_eq_true_2 (e ∈ l ++ [e])) by (apply elem_of_app; right; now left).
    destruct (entity_part f m g world e); [reflexivity|]. now destruct (bool_decide _).
  - assert (bool_decide (e ∈ l ++ [x]) = bool_decide (e ∈ l)) as ->.
    { apply bool_decide_ext. rewrite elem_of_app, list_elem_of_singleton. intuition congruence. }
    now destruct (entity_part f m g world x).
Qed.

Context (Hk : walks iter_k) (He : forall m e, e ∈ iter_e m <-> is_Some (m !! e)).

Lemma snapshot_world_lookup f (m : Manager) (g : @GlobalEntityMap.GlobalEntityMap E _ _) world e k :
  (snapshot_world f m g world !! e ≫= fun s => s !! k) =
  (w ← GlobalEntityMap.GlobalMap_to_entity g e; r ← m.(SW.entity_records) !! e;
   if bool_decide (k ∈ r.(component_kind_set)) && captured f k then world w k else None).
Proof using Hk He.
  unfold snapshot_world. rewrite snapshot_fold. unfold entity_part, SW.component_kinds. case_bool_decide as Hin.
  - destruct (GlobalEntityMap.GlobalMap_to_entity g e) as [w|]; [|reflexivity]. cbn. apply He in Hin as [r ->]. cbn.
    assert (bool_decide (k ∈ iter_k r.(component_kind_set)) = bool_decide (k ∈ r.(component_kind_set))) as <- by (apply bool_decide_ext; apply Hk).
    rewrite <- snapshot_entity_lookup. case_bool_decide as Hz; [|reflexivity]. cbn.
    assert (snapshot_entity f world w (iter_k (component_kind_set r)) = ∅) as -> by exact (map_size_empty_inv _ Hz). now rewrite lookup_empty.
  - destruct (m.(SW.entity_records) !! e) as [r|] eqn:Hr; [exfalso; apply Hin, He; eauto|]. now destruct (GlobalEntityMap.GlobalMap_to_entity g e).
Qed.

(** * Which snapshots are kept *)
Definition before_tick (x y : Tick * Snapshot) : Prop := x.1 < y.1.

Lemma evict_sorted n tick (l : list (Tick * Snapshot)) : StronglySorted before_tick l -> Forall (fun x => 0 <= tick - x.1 < 2 ^ 32) l ->
  evict n tick l = filter (fun x => tick - x.1 <= n) l.
Proof using Type.
  intros Hs. induction Hs as [|x l Hs IH Hx]; intros Hr; [reflexivity|]. apply Forall_cons in Hr as [Hr0 Hr].
  destruct x as [t s]. cbn [evict fst] in *. rewrite wrap_small by (unfold in_u; lia). destruct (Z.ltb_spec n (tick - t)).
  - rewrite filter_cons_False by (cbn; lia). now apply IH.
  - rewrite filter_cons_True by (cbn; lia). rewrite filter_keep; [reflexivity|]. rewrite Forall_forall in Hx. intros y Hy. specialize (Hx y Hy).
    unfold before_tick in Hx. cbn in Hx. lia.
Qed.

(** A recording of the world at a tick. *)
Record recording := mkRecording { rec_tick : Tick; rec_manager : Manager; rec_map : @GlobalEntityMap.GlobalEntityMap E _ _; rec_world : E -> ComponentKind -> option Comp }.
Definition run_recording (self : Historian) (r : recording) : Historian := record_tick r.(rec_tick) r.(rec_manager) r.(rec_map) r.(rec_world) self.
Definition taken (f : option (gset ComponentKind)) (r : recording) : Tick * Snapshot := (r.(rec_tick), snapshot_world f r.(rec_manager) r.(rec_map) r.(rec_world)).

Fixpoint rising_ticks (l : list recording) : Prop :=
  match l with [] => True | r :: l => 0 <= r.(rec_tick) < 65536 /\ Forall (fun r' => r.(rec_tick) < r'.(rec_tick)) l /\ rising_ticks l end.

Lemma rising_app l r : rising_ticks (l ++ [r]) -> rising_ticks l /\ Forall (fun r' => 0 <= r'.(rec_tick) < r.(rec_tick)) l /\ 0 <= r.(rec_tick) < 65536.
Proof using Type.
  induction l as [|x l IH]; intros Hl; [destruct Hl as (H & _); split_and!; [exact I|constructor|lia|lia]|].
  destruct Hl as (H1 & H2 & H3). apply IH in H3 as (H3 & H4 & H5).
  apply Forall_app in H2 as [H2 H2']. apply Forall_inv in H2'. split; [exact (conj H1 (conj H2 H3))|]. split; [|exact H5]. constructor; [lia|exact H4].
Qed.

Lemma rising_inj l x y : rising_ticks l -> x ∈ l -> y ∈ l -> x.(rec_tick) = y.(rec_tick) -> x = y.
Proof using Type.
  induction l as [|z l IH]; intros Hl Hx Hy Hxy; [now apply not_elem_of_nil in Hx|]. destruct Hl as (_ & Hz & Hl). rewrite Forall_forall in Hz.
  apply elem_of_cons in Hx as [->|Hx], Hy as [->|Hy]; [reflexivity|specialize (Hz _ Hy); lia|specialize (Hz _ Hx); lia|auto].
Qed.

Lemma taken_sorted f l : rising_ticks l -> StronglySorted before_tick (map (taken f) l).
Proof using Type.
  induction l as [|x l IH]; intros Hl; [constructor|]. destruct Hl as (H1 & H2 & H3). cbn. constructor; [now apply IH|].
  apply Forall_forall. intros y (r & -> & Hr)%list_elem_of_fmap. rewrite Forall_forall in H2. exact (H2 r Hr).
Qed.

Lemma run_recordings f n l r : 0 <= n -> rising_ticks (l ++ [r]) ->
  foldl run_recording (mkHistorian n [] f) (l ++ [r]) =
  mkHistorian n (filter (fun x => r.(rec_tick) - x.1 <= n) (map (taken f) (l ++ [r]))) f.
Proof using Type.
  intros Hn. revert r. induction l as [|r0 l IH] using rev_ind; intros r Hl.
  - cbn. destruct Hl as (H1 & _). unfold run_recording, record_tick. cbn [snapshots app max_ticks component_filter]. f_equal.
    rewrite evict_sorted; [reflexivity|repeat constructor|]. repeat constructor; cbn; lia.
  - pose proof (rising_app _ _ Hl) as (Hl0 & Hlt & Hr). rewrite foldl_app. rewrite IH by exact Hl0. cbn [foldl]. unfold run_recording, record_tick.
    cbn [snapshots max_ticks component_filter]. f_equal. fold (taken f r). set (t0 := rec_tick r0). set (m := map (taken f) (l ++ [r0])).
    assert (StronglySorted before_tick (m ++ [taken f r])) as Hs.
    { subst m. change [taken f r] with (map (taken f) [r]). rewrite <- map_app. now apply taken_sorted. }
    assert (Forall (fun x => 0 <= rec_tick r - x.1 < 2 ^ 32) (m ++ [taken f r])) as Hrange.
    { apply Forall_app. split; [|repeat constructor; cbn; lia]. apply Forall_forall. intros y (r' & -> & Hr')%list_elem_of_fmap.
      rewrite Forall_forall in Hlt. specialize (Hlt r' Hr'). cbn. lia. }
    assert (sublist (filter (fun x => t0 - x.1 <= n) m ++ [taken f r]) (m ++ [taken f r])) as Hsub.
    { apply sublist_app; [apply sublist_filter|reflexivity]. }
    rewrite evict_sorted; [|eapply StronglySorted_sublist; eauto|eapply Forall_sublist; eauto].
    rewrite map_app. change (map (taken f) [r]) with [taken f r]. fold m. rewrite !filter_app. f_equal. rewrite list_filter_filter_l; [reflexivity|].
    intros x Hx. rewrite Forall_forall in Hlt. specialize (Hlt r0 ltac:(apply elem_of_app; right; now left)). subst t0. lia.
Qed.

(** While the tick does not wrap, the historian keeps exactly the snapshots of the last
    [max_ticks] ticks; the snapshot of a kept tick holds, for every entity and component kind, the
    value the application's world had when it was recorded, if the entity was registered, the kind
    listed and not filtered out. *)
Theorem historian_window f n l r t : 0 <= n -> rising_ticks (l ++ [r]) -> t ∈ l ++ [r] -> r.(rec_tick) - t.(rec_tick) <= n ->
  let h := foldl run_recording (mkHistorian n [] f) (l ++ [r]) in
  (forall x, x ∈ h.(snapshots) -> r.(rec_tick) - x.1 <= n) /\
  exists s, snapshot_at_tick t.(rec_tick) h = Some s /\
    forall e k, (s !! e ≫= fun c => c !! k) =
      (w ← GlobalEntityMap.GlobalMap_to_entity t.(rec_map) e; x ← t.(rec_manager).(SW.entity_records) !! e;
       if bool_decide (k ∈ x.(component_kind_set)) && captured f k then t.(rec_world) w k else None).
Proof using Hk He.
  intros Hn Hl Ht Ha h. subst h. rewrite run_recordings by assumption. cbn [snapshots]. split.
  { intros x Hx. now apply list_elem_of_filter in Hx as [Hx _]. }
  exists (taken f t).2. split; [|intros e k; apply snapshot_world_lookup]. unfold snapshot_at_tick. cbn [snapshots].
  assert (taken f t ∈ filter (fun x => rec_tick r - x.1 <= n) (map (taken f) (l ++ [r]))) as Hin.
  { apply list_elem_of_filter. split; [exact Ha|]. apply list_elem_of_fmap. eauto. }
  destruct (list_find_elem_of (fun x => x.1 = rec_tick t) _ (taken f t) Hin eq_refl) as [[i [t' s']] Hi]. rewrite Hi. cbn.
  apply list_find_Some in Hi as (Hi & Heq & _). cbn in Heq. subst t'. f_equal.
  apply list_elem_of_lookup_2, list_elem_of_filter in Hi as [_ Hi]. apply list_elem_of_fmap in Hi as (r' & Hr' & Hin').
  unfold taken in Hr'. injection Hr' as Htick ->. now rewrite (rising_inj (l ++ [r]) t r' Hl Ht Hin' Htick).
Qed.

(** Across the wrap of the tick nothing older survives: the age is a [u32] difference of 16-bit
    ticks. *)
Theorem wrap_evicts_all tick (m : Manager) (g : @GlobalEntityMap.GlobalEntityMap E _ _) world h :
  in_u 16 tick -> in_u 16 h.(max_ticks) -> Forall (fun x => tick < x.1 < 65536) h.(snapshots) ->
  snapshots (record_tick tick m g world h) = [(tick, snapshot_world h.(component_filter) m g world)].
Proof using Type.
  unfold in_u. intros Ht Hm Hf. unfold record_tick. cbn [snapshots]. generalize (snapshot_world h.(component_filter) m g world). intros s.
  induction Hf as [|[t s'] l H Hf IH]; cbn [app evict fst] in *.
  - rewrite Z.sub_diag, wrap_small by (unfold in_u; lia). case_ifs; [lia|reflexivity].
  - rewrite (proj2 (Z.ltb_lt _ _)); [exact IH|]. unfold wrap. dlia.
Qed.
End Historian.

Module HistorianSample.
(** Entity 0 is world entity 5 with components of kinds 1 and 2; only kind 1 is captured. *)
Definition the_map : @GlobalEntityMap.GlobalEntityMap Z _ _ :=
  match GlobalEntityMap.GlobalMap_spawn 5 None GlobalEntityMap.GlobalMap_new with Ok (_, g) => g | _ => GlobalEntityMap.GlobalMap_new end.
Definition the_manager : SW.GlobalWorldManager :=
  match (m ← SW.insert_entity_record 0 OwnServer SW.Manager_new; m ← SW.insert_component_record 0 1 m; SW.insert_component_record 0 2 m) with
  | Ok m => m | _ => SW.Manager_new end.
Definition keys (m : gmap GlobalEntity GlobalEntityRecord) : list GlobalEntity := (map_to_list m).*1.
Definition recorded (tick value : Z) : recording := mkRecording tick the_manager the_map (fun _ kind => Some (value + kind)).

Lemma keys_elem m e : e ∈ keys m <-> is_Some (m !! e).
Proof.
  unfold keys. rewrite list_elem_of_fmap. split.
  - intros ([e' r] & -> & H%elem_of_map_to_list). cbn. eauto.
  - intros [r Hr]. exists (e, r). split; [reflexivity|]. now apply elem_of_map_to_list.
Qed.

Lemma historian_window_witness :
  exists s, snapshot_at_tick 8 (foldl (run_recording elements keys) (Historian_new_filtered 2 {[ 1 ]}) [recorded 5 100; recorded 8 200; recorded 9 300]) = Some s /\
    (s !! (0 : GlobalEntity) ≫= fun c => c !! (1 : ComponentKind)) = Some 201.
Proof.
  destruct (historian_window elements keys WaitlistRefine.WaitlistSample.walks_elements keys_elem (Some {[ 1 ]}) 2 [recorded 5 100; recorded 8 200] (recorded 9 300) (recorded 8 200))
    as (_ & s & Hs & Hv).
  - lia.
  - cbn. repeat split; try lia; repeat constructor; cbn; lia.
  - cbn. right. left.
  - cbn. lia.
  - exists s. split; [exact Hs|]. rewrite (Hv 0 1). vm_compute. reflexivity.
Defined.

Lemma wrap_evicts_all_witness :
  snapshots (run_recording elements keys (run_recording elements keys (Historian_new 64) (recorded 65535 100)) (recorded 0 200))
  = [(0, snapshot_world elements keys None the_manager the_map (fun _ kind => Some (200 + kind)))].
Proof. apply (wrap_evicts_all elements keys); [unfold in_u; lia|unfold in_u; cbn; lia|]. repeat constructor; cbn; lia. Defined.
End HistorianSample.
