(* ===== verification/ServerConn.v ===== *)
(** What the server asks of a user's connection ([connection.base.world_manager] in
    [src/server/src/server/world_server.rs]) as a typeclass with its laws, and the instance that
    [LocalWorldManager] gives.

    [conn_auth c e] is the authority status the connection has told its client about an entity it
    replicates to it, where the entity is delegated; [conn_hosted c e] says that the entity is
    replicated to the client rather than received from it. *)

From Stdlib Require Import ZArith Lia.
From stdpp Require Import base numbers option list gmap sets.
From S2P Require Import Prelude Wire EntityTypes SyncEngine HostSync DiffHandlers UpdateManager EntityMaps LocalEntities Waitlist RemoteWorld HostWorld LocalWorld.
Import LocalEntityMap HostEntityGenerator LocalMapFacts.

Class WorldConn (C H D : Type) := {
  conn_has : C -> GlobalEntity -> bool;
  conn_is_paused : C -> GlobalEntity -> bool;
  conn_pause : GlobalEntity -> C -> C;
  conn_resume : GlobalEntity -> C -> C;
  conn_despawn : GlobalEntity -> C -> res C;
  conn_host_init : D -> Z -> GlobalEntity -> list ComponentKind -> bool -> C * H -> res (C * H);
  conn_insert_component : D -> Z -> GlobalEntity -> ComponentKind -> C * H -> res (C * H);
  conn_remove_component : GlobalEntity -> ComponentKind -> C -> res C;
  conn_send_publish : GlobalEntity -> C -> res C;
  conn_send_unpublish : GlobalEntity -> C -> res C;
  conn_send_enable_delegation : bool -> GlobalEntity -> C -> res C;
  conn_send_disable_delegation : GlobalEntity -> C -> res C;
  conn_send_set_auth : GlobalEntity -> EntityAuthStatus -> C -> res C;
  conn_migrate : Z -> GlobalEntity -> C -> res C
}.

(** What the server's theorems use of a connection. *)
Class ConnLaws (C H D : Type) `{WorldConn C H D} := {
  conn_ok : C -> Prop;
  conn_hosted : C -> GlobalEntity -> bool;
  conn_auth : C -> GlobalEntity -> option EntityAuthStatus;

  conn_hosted_has c e : conn_hosted c e = true -> conn_has c e = true;
  conn_auth_hosted c e : is_Some (conn_auth c e) -> conn_hosted c e = true;

  conn_pause_law e c : conn_ok c -> conn_ok (conn_pause e c) /\
    (forall e', conn_has (conn_pause e c) e' = conn_has c e') /\
    (forall e', conn_hosted (conn_pause e c) e' = conn_hosted c e') /\
    (forall e', conn_auth (conn_pause e c) e' = conn_auth c e') /\
    (forall e', conn_is_paused (conn_pause e c) e' = bool_decide (e' = e) || conn_is_paused c e');
  conn_resume_law e c : conn_ok c -> conn_ok (conn_resume e c) /\
    (forall e', conn_has (conn_resume e c) e' = conn_has c e') /\
    (forall e', conn_hosted (conn_resume e c) e' = conn_hosted c e') /\
    (forall e', conn_auth (conn_resume e c) e' = conn_auth c e') /\
    (forall e', conn_is_paused (conn_resume e c) e' = negb (bool_decide (e' = e)) && conn_is_paused c e');

  conn_despawn_law e c : conn_ok c -> conn_has c e = true -> exists c', conn_despawn e c = Ok c' /\ conn_ok c' /\
    (forall e', conn_has c' e' = negb (bool_decide (e' = e)) && conn_has c e') /\
    (forall e', conn_hosted c' e' = negb (bool_decide (e' = e)) && conn_hosted c e') /\
    (forall e', conn_auth c' e' = if decide (e' = e) then None else conn_auth c e') /\
    (forall e', conn_is_paused c' e' = negb (bool_decide (e' = e)) && conn_is_paused c e');

  conn_host_init_law d now e kinds static c h c' h' : conn_ok c -> conn_has c e = false ->
    conn_host_init d now e kinds static (c, h) = Ok (c', h') -> conn_ok c' /\
    (forall e', conn_has c' e' = bool_decide (e' = e) || conn_has c e') /\
    (forall e', conn_hosted c' e' = bool_decide (e' = e) || conn_hosted c e') /\
    (forall e', conn_auth c' e' = if decide (e' = e) then None else conn_auth c e') /\
    (forall e', conn_is_paused c' e' = conn_is_paused c e');

  conn_set_auth_law e s s' c : conn_ok c -> conn_auth c e = Some s -> valid_auth_transition s s' = true ->
    exists c', conn_send_set_auth e s' c = Ok c' /\ conn_ok c' /\
    (forall e', conn_has c' e' = conn_has c e') /\ (forall e', conn_hosted c' e' = conn_hosted c e') /\
    (forall e', conn_auth c' e' = if decide (e' = e) then Some s' else conn_auth c e') /\
    (forall e', conn_is_paused c' e' = conn_is_paused c e');
  conn_set_auth_panic e s s' c : conn_auth c e = Some s -> valid_auth_transition s s' = false ->
    conn_send_set_auth e s' c = Panic;

  conn_enable_law e c b : conn_ok c -> conn_hosted c e = true -> conn_auth c e = None ->
    exists c', conn_send_enable_delegation b e c = Ok c' /\ conn_ok c' /\
    (forall e', conn_has c' e' = conn_has c e') /\ (forall e', conn_hosted c' e' = conn_hosted c e') /\
    (forall e', conn_auth c' e' = if decide (e' = e) then Some Available else conn_auth c e') /\
    (forall e', conn_is_paused c' e' = conn_is_paused c e')
}.

(** * The local world manager as a connection *)
Section Local.
Context {C U F A : Type} {eqA : EqDecision A} {cA : Countable A}.
Abbreviation Manager := (@LocalWorldManager C U F A).
Abbreviation Heap := (@Store A eqA cA).
Abbreviation Diffs := (@GlobalDiffHandler GlobalEntity ComponentKind _ _ _ _).
Context (immutable : ComponentKind -> bool).

(** Steps 0 to 3 of [enable_delegation_client_owned_entity]: the entity moves from the remote to
    the host side, its channel is delegated, and the client is told. *)
Definition migrate_to_host (now : Z) (e : GlobalEntity) (self : Manager) : res Manager :=
  old_opt ← LocalMap_to_remote (entity_map self) e;
  old_remote_entity ← unwrap old_opt;
  '(new_opt, self) ← migrate_entity_remote_to_host now e self;
  new_host_entity ← unwrap new_opt;
  self ← host_local_enable_delegation new_host_entity self;
  host_send_migrate_response e old_remote_entity new_host_entity self.

#[global] Instance local_conn : WorldConn Manager Heap Diffs := {|
  conn_has c e := has_global_entity e c;
  conn_is_paused c e := is_entity_paused e c;
  conn_pause := pause_entity;
  conn_resume := resume_entity;
  conn_despawn := LocalWorld_despawn_entity;
  conn_host_init := host_init_entity immutable;
  conn_insert_component := LocalWorld_insert_component;
  conn_remove_component := LocalWorld_remove_component;
  conn_send_publish := send_publish Server;
  conn_send_unpublish := send_unpublish Server;
  conn_send_enable_delegation := send_enable_delegation Server;
  conn_send_disable_delegation := send_disable_delegation;
  conn_send_set_auth := host_send_set_auth;
  conn_migrate := migrate_to_host |}.

(** The channel of an entity on the host side. *)
Definition host_channel (c : Manager) (e : GlobalEntity) : option HostEntityChannel :=
  h ← host_of (entity_map c) e; hg_channels (host_engine (lw_host c)) !! h.

Definition local_hosted (c : Manager) (e : GlobalEntity) : bool := bool_decide (is_Some (host_channel c e)).
Definition local_auth (c : Manager) (e : GlobalEntity) : option EntityAuthStatus :=
  ch ← host_channel c e; if decide (ac_state (hc_auth ch) = Delegated) then ac_auth_status (hc_auth ch) else None.

Lemma has_spec (c : Manager) e :
  has_global_entity e c = match host_of (entity_map c) e with
    | Some h => bool_decide (is_Some (hg_channels (host_engine (lw_host c)) !! h))
    | None => match remote_of (entity_map c) e with
              | Some r => bool_decide (is_Some (rg_channels (remote_engine (lw_remote c)) !! r))
              | None => false end
    end.
Proof using Type.
  unfold has_global_entity. rewrite to_owned_spec. destruct (host_of (entity_map c) e) as [[id s]|]; [reflexivity|].
  destruct (remote_of (entity_map c) e) as [[id s]|]; reflexivity.
Qed.

Lemma hosted_has c e : local_hosted c e = true -> has_global_entity e c = true.
Proof using Type.
  unfold local_hosted, host_channel. rewrite has_spec. intros [ch Hch]%bool_decide_eq_true.
  destruct (host_of (entity_map c) e); [|discriminate]. cbn in Hch. apply bool_decide_eq_true. eauto.
Qed.

(** Two connections that differ at most in the channel of one entity. *)
Record channel_step (e : GlobalEntity) (ch : option HostEntityChannel) (c c' : Manager) : Prop := {
  cs_map : entity_map c' = entity_map c;
  cs_remote : lw_remote c' = lw_remote c;
  cs_paused : paused_entities c' = paused_entities c;
  cs_channels : forall h, hg_channels (host_engine (lw_host c')) !! h =
    if decide (host_of (entity_map c) e = Some h) then ch else hg_channels (host_engine (lw_host c)) !! h
}.

Lemma channel_step_channel e ch c c' e' : local_map_ok (entity_map c) -> is_Some (host_of (entity_map c) e) -> channel_step e ch c c' ->
  host_channel c' e' = if decide (e' = e) then ch else host_channel c e'.
Proof using Type.
  intros [Hm _] [h Hh] [Hmap _ _ Hch]. unfold host_channel. rewrite Hmap. case_decide as He.
  - subst e'. rewrite Hh. cbn. rewrite Hch. now rewrite decide_True.
  - destruct (host_of (entity_map c) e') as [h'|] eqn:Hh'; [|reflexivity]. cbn. rewrite Hch, decide_False; [reflexivity|].
    rewrite Hh. intros [= ->]. apply He. exact (mirror_inj _ _ _ _ _ Hm Hh' Hh).
Qed.

Lemma channel_step_has e ch c c' e' : local_map_ok (entity_map c) -> is_Some (host_of (entity_map c) e) -> channel_step e ch c c' ->
  has_global_entity e' c' = if decide (e' = e) then bool_decide (is_Some ch) else has_global_entity e' c.
Proof using Type.
  intros Hok Hh Hs. pose proof (channel_step_channel e ch c c' e' Hok Hh Hs) as Hc. rewrite !has_spec. destruct Hs as [Hm Hr _ _].
  unfold host_channel in Hc. rewrite Hm, Hr in *. destruct (host_of (entity_map c) e') as [h'|] eqn:Hh'; cbn in Hc.
  - rewrite Hc. now case_decide.
  - case_decide as He; [|reflexivity]. subst. destruct Hh as [h Hh]. congruence.
Qed.

(** A command that keeps the channel but changes its authority. *)
Lemma auth_command e command a a' commands c ch :
  host_channel c e = Some ch -> EntityCommand_entity command = e ->
  HostEntityChannel_send_command command ch = Ok (mkHostChannel (hc_components ch) a' (hc_buffered ch) (hc_incoming ch) (hc_outgoing ch ++ commands)) ->
  match command with CSpawn _ | CSpawnWithComponents _ _ | CDespawn _ => False | _ => True end -> a = a' ->
  exists c', on_host command c = Ok c' /\ channel_step e (Some (mkHostChannel (hc_components ch) a (hc_buffered ch) (hc_incoming ch) [])) c c'.
Proof using Type.
  intros Hch He Hsend Hkind ->. unfold host_channel in Hch. destruct (host_of (entity_map c) e) as [h|] eqn:Hh; [|discriminate]. cbn in Hch.
  unfold on_host, host_send_command. rewrite He, to_host_of, Hh, bind_ok.
  assert (HostEngine_send_command (fun _ => Some h) command (host_engine (lw_host c)) =
    Ok (mkHostEngine (hg_host_type (host_engine (lw_host c)))
          (<[h := mkHostChannel (hc_components ch) a' (hc_buffered ch) (hc_incoming ch) []]> (hg_channels (host_engine (lw_host c))))
          (hg_incoming (host_engine (lw_host c))) (hg_outgoing (host_engine (lw_host c)) ++ hc_outgoing ch ++ commands))) as ->.
  { unfold HostEngine_send_command. cbn [unwrap]. rewrite bind_ok.
    destruct command; try contradiction; rewrite Hch; cbn [unwrap]; rewrite bind_ok, Hsend; reflexivity. }
  rewrite !bind_ok. eexists. split; [reflexivity|]. split; try reflexivity. intros h'. cbn. rewrite lookup_insert.
  do 2 case_decide; congruence.
Qed.

Lemma local_set_auth_law e s s' c : local_map_ok (entity_map c) -> local_auth c e = Some s -> valid_auth_transition s s' = true ->
  exists c', host_send_set_auth e s' c = Ok c' /\ exists ch ch', host_channel c e = Some ch /\ channel_step e (Some ch') c c' /\
    ac_state (hc_auth ch') = Delegated /\ ac_auth_status (hc_auth ch') = Some s'.
Proof using Type.
  intros Hok Hs Hv. unfold local_auth in Hs. destruct (host_channel c e) as [ch|] eqn:Hch; [|discriminate]. cbn in Hs.
  case_decide as Hd; [|discriminate]. unfold host_send_set_auth. rewrite to_owned_spec.
  assert (exists h, host_of (entity_map c) e = Some h) as [h Hh].
  { unfold host_channel in Hch. destruct (host_of (entity_map c) e); [eauto|discriminate]. }
  rewrite Hh. cbn [unwrap]. rewrite bind_ok. cbn [owned_is_host host_copy_to_owned].
  edestruct (auth_command e (CSetAuthority None e s')) as (c' & -> & Hstep); [exact Hch|reflexivity| |exact I|reflexivity|].
  { unfold HostEntityChannel_send_command. cbn [EntityCommand_get_type]. unfold AuthChannel_validate_command. cbn [EntityCommand_get_type].
    rewrite decide_False by (intros Hn; now apply Hn). rewrite Hs. cbn [unwrap]. rewrite bind_ok, Hv, bind_ok. cbn. reflexivity. }
  exists c'. split; [reflexivity|]. do 2 eexists. split; [reflexivity|]. split; [exact Hstep|]. cbn. now rewrite Hd.
Qed.

Lemma host_channel_of c e ch : host_channel c e = Some ch ->
  exists h, host_of (entity_map c) e = Some h /\ hg_channels (host_engine (lw_host c)) !! h = Some ch.
Proof using Type. unfold host_channel. destruct (host_of (entity_map c) e) as [h|]; [|discriminate]. cbn. eauto. Qed.

Lemma local_set_auth_panic e s s' c : local_auth c e = Some s -> valid_auth_transition s s' = false -> host_send_set_auth e s' c = Panic.
Proof using Type.
  intros Hs Hv. unfold local_auth in Hs. destruct (host_channel c e) as [ch|] eqn:Hch; [|discriminate]. cbn in Hs.
  case_decide as Hd; [|discriminate]. destruct (host_channel_of _ _ _ Hch) as (h & Hh & Hhc).
  unfold host_send_set_auth. rewrite to_owned_spec, Hh. cbn [unwrap]. rewrite bind_ok. cbn [owned_is_host host_copy_to_owned].
  unfold on_host, host_send_command. cbn [EntityCommand_entity]. rewrite to_host_of, Hh, bind_ok.
  unfold HostEngine_send_command. cbn [unwrap]. rewrite bind_ok, Hhc. cbn [unwrap]. rewrite bind_ok.
  unfold HostEntityChannel_send_command, AuthChannel_validate_command. cbn [EntityCommand_get_type].
  rewrite decide_False by (intros Hn; now apply Hn). rewrite Hs. cbn [unwrap]. rewrite bind_ok, Hv. reflexivity.
Qed.

(** A channel that is not delegated yet: published first where it is not, then delegated. *)
Lemma local_enable_law e c b : local_map_ok (entity_map c) -> local_hosted c e = true -> local_auth c e = None ->
  (forall ch, host_channel c e = Some ch -> ac_state (hc_auth ch) = Delegated -> is_Some (ac_auth_status (hc_auth ch))) ->
  exists c', send_enable_delegation Server b e c = Ok c' /\ exists ch', channel_step e (Some ch') c c' /\
    ac_state (hc_auth ch') = Delegated /\ ac_auth_status (hc_auth ch') = Some Available.
Proof using Type.
  intros Hok [ch Hch]%bool_decide_eq_true Ha Hwf. destruct (host_channel_of _ _ _ Hch) as (h & Hh & Hhc).
  assert (ac_state (hc_auth ch) <> Delegated) as Hnd.
  { intros Hd. unfold local_auth in Ha. rewrite Hch in Ha. cbn in Ha. rewrite decide_True in Ha by exact Hd.
    destruct (Hwf ch Hch Hd) as [s Hs]. congruence. }
  unfold send_enable_delegation. rewrite to_owned_spec, Hh. cbn [unwrap]. rewrite bind_ok. cbn [owned_is_host host_copy_to_owned].
  assert (delegator_owns Server true b = Ok true) as -> by (now destruct b). rewrite bind_ok, to_host_of, Hh, bind_ok. cbn [unwrap].
  rewrite bind_ok, Hhc.
  destruct (decide (ac_state (hc_auth ch) = Published)) as [Hp|Hnp].
  - rewrite bool_decide_true by (now left). rewrite bind_ok.
    edestruct (auth_command e (CEnableDelegation None e)) as (c' & -> & Hstep); [exact Hch|reflexivity| |exact I|reflexivity|].
    { unfold HostEntityChannel_send_command, AuthChannel_validate_command. cbn [EntityCommand_get_type].
      rewrite decide_False by (intros Hn; now apply Hn). rewrite bind_ok. cbn. reflexivity. }
    exists c'. split; [reflexivity|]. eexists. split; [exact Hstep|]. now split.
  - rewrite bool_decide_false by (intros []; contradiction).
    assert (ac_state (hc_auth ch) = Unpublished) as Hu by (now destruct (ac_state (hc_auth ch))).
    edestruct (auth_command e (CPublish None e)) as (c1 & -> & Hstep1); [exact Hch|reflexivity| |exact I|reflexivity|].
    { unfold HostEntityChannel_send_command, AuthChannel_validate_command. cbn [EntityCommand_get_type].
      rewrite decide_False by (intros Hn; now apply Hn). rewrite bind_ok. cbn. reflexivity. }
    rewrite bind_ok. pose proof (channel_step_channel e _ c c1 e Hok (ex_intro _ h Hh) Hstep1) as Hch1. rewrite decide_True in Hch1 by reflexivity.
    edestruct (auth_command e (CEnableDelegation None e)) as (c' & -> & Hstep); [exact Hch1|reflexivity| |exact I|reflexivity|].
    { unfold HostEntityChannel_send_command, AuthChannel_validate_command. cbn [EntityCommand_get_type hc_auth ac_state ac_set_state].
      rewrite decide_False by (intros Hn; now apply Hn). rewrite bind_ok. cbn. reflexivity. }
    exists c'. split; [reflexivity|]. match type of Hstep with channel_step _ (Some ?x) _ _ => exists x end. split; [|split; reflexivity].
    destruct Hstep1 as [Hm1 Hr1 Hp1 Hc1], Hstep as [Hm2 Hr2 Hp2 Hc2]. split; [congruence..|]. intros h'. rewrite Hc2, Hm1.
    case_decide as Hd; [reflexivity|]. now rewrite Hc1, decide_False.
Qed.

Lemma local_despawn_law e c : local_map_ok (entity_map c) -> has_global_entity e c = true ->
  exists c', LocalWorld_despawn_entity e c = Ok c' /\ entity_map c' = entity_map c /\
    paused_entities c' = paused_entities c ∖ {[e]} /\
    (forall e', host_channel c' e' = if decide (e' = e) then None else host_channel c e') /\
    (forall e', has_global_entity e' c' = if decide (e' = e) then false else has_global_entity e' c).
Proof using Type.
  intros Hok Hhas. unfold LocalWorld_despawn_entity. cbn [entity_map lw_set_paused]. rewrite to_owned_spec. rewrite has_spec in Hhas.
  destruct (host_of (entity_map c) e) as [h|] eqn:Hh.
  - cbn [unwrap]. rewrite bind_ok. cbn [owned_is_host host_copy_to_owned]. apply bool_decide_eq_true in Hhas as [ch Hch].
    unfold on_host, host_send_command. cbn [EntityCommand_entity entity_map lw_set_paused]. rewrite to_host_of, Hh, bind_ok.
    unfold HostEngine_send_command. cbn [unwrap lw_host lw_set_paused]. rewrite bind_ok, Hch. rewrite !bind_ok.
    set (c1 := lw_set_paused (paused_entities c ∖ {[e]}) c). eexists. split; [reflexivity|].
    match goal with |- entity_map ?x = _ /\ _ => set (c' := x) end.
    assert (channel_step e None c1 c') as Hstep.
    { split; try reflexivity. intros h'. unfold c'. cbn. rewrite lookup_delete, Hh. do 2 case_decide; congruence. }
    split; [reflexivity|]. split; [reflexivity|]. split.
    + intros e'. exact (channel_step_channel e None c1 c' e' Hok (ex_intro _ h Hh) Hstep).
    + intros e'. exact (channel_step_has e None c1 c' e' Hok (ex_intro _ h Hh) Hstep).
  - destruct (remote_of (entity_map c) e) as [r|] eqn:Hr; [|discriminate]. cbn [unwrap]. rewrite bind_ok. cbn [owned_is_host remote_copy_to_owned].
    apply bool_decide_eq_true in Hhas as [ch Hch]. unfold on_remote_entity, remote_send_entity_command.
    cbn [EntityCommand_entity entity_map lw_set_paused]. rewrite to_remote_of, Hr, bind_ok.
    unfold RemoteEngine_send_entity_command. cbn [lw_remote lw_set_paused]. rewrite Hch. cbn [unwrap]. rewrite !bind_ok.
    eexists. split; [reflexivity|]. split; [reflexivity|]. split; [reflexivity|]. split.
    + intros e'. change (host_channel c e' = if decide (e' = e) then None else host_channel c e'). case_decide; [subst|reflexivity].
      unfold host_channel. now rewrite Hh.
    + intros e'. rewrite !has_spec. cbn. destruct (host_of (entity_map c) e') as [h'|] eqn:Hh'; [case_decide; [congruence|reflexivity]|].
      destruct (remote_of (entity_map c) e') as [r'|] eqn:Hr'; [|now case_decide]. rewrite lookup_delete.
      destruct (decide (e' = e)) as [->|Hne].
      * rewrite decide_True by congruence. reflexivity.
      * rewrite decide_False; [reflexivity|]. intros ->. apply Hne. exact (mirror_inj _ _ _ _ _ (proj2 Hok) Hr' Hr).
Qed.

(** The map [host_init_entity] starts from: a mapping whose channel is gone is dropped. *)
Lemma evict_ok e (c : Manager) m : local_map_ok (entity_map c) -> has_global_entity e c = false -> evict_stale_mapping e c = Ok m ->
  local_map_ok m /\ host_of m e = None /\
  (forall e', e' <> e -> host_of m e' = host_of (entity_map c) e' /\ remote_of m e' = remote_of (entity_map c) e').
Proof using Type.
  intros Hok Hhas. unfold evict_stale_mapping. rewrite has_spec in Hhas. rewrite to_host_of, bind_ok.
  destruct (host_of (entity_map c) e) as [h|] eqn:Hh.
  - unfold host_has_entity. rewrite Hhas, remove_global_eq, bind_ok. intros [= <-]. split; [now apply dropped_ok|].
    split; [rewrite (proj1 (dropped_of _ _ _)); now rewrite decide_True|].
    intros e' Hne. rewrite (proj1 (dropped_of _ _ _)), (proj2 (dropped_of _ _ _)). now rewrite !decide_False.
  - intros [= <-]. now split_and!.
Qed.

Lemma insert_host_inv e h m m' : he_static h = false -> insert_with_host_entity e h m = Ok m' ->
  m.(global_to_local) !! e = None /\ m.(host_to_global) !! h = None /\ m' = with_host {| record_entity := host_copy_to_owned h |} e h m.
Proof using Type.
  intros Hs. unfold insert_with_host_entity. case_decide as H1; [discriminate|]. case_decide as H2; [discriminate|]. intros [= <-].
  apply eq_None_not_Some in H1, H2. split_and!; try assumption. unfold new_host_owned_entity, owned_new_host, host_copy_to_owned. now rewrite Hs.
Qed.

Lemma insert_static_inv e h m m' : he_static h = true -> insert_with_static_host_entity e h m = Ok m' ->
  m.(global_to_local) !! e = None /\ m.(host_to_global) !! h = None /\ m' = with_host {| record_entity := host_copy_to_owned h |} e h m.
Proof using Type.
  intros Hs. unfold insert_with_static_host_entity. case_decide as H1; [discriminate|]. case_decide as H2; [discriminate|]. intros [= <-].
  apply eq_None_not_Some in H1, H2. split_and!; try assumption. unfold new_static_host_owned_entity, owned_new_host_static, host_copy_to_owned. now rewrite Hs.
Qed.

(** Spawning on the host side gives the entity a new channel. *)
Lemma spawn_inv m e h kinds (host host' : @HostWorldManager C) : host_of m e = Some h ->
  host_send_command m (spawn_command e kinds) host = Ok host' -> hg_channels (host_engine host) !! h = None /\
  exists ch, hg_channels (host_engine host') = <[h := ch]> (hg_channels (host_engine host)) /\ ac_auth_status (hc_auth ch) = None /\
    ac_state (hc_auth ch) <> Delegated.
Proof using Type.
  intros Hh. unfold host_send_command. assert (EntityCommand_entity (spawn_command e kinds) = e) as -> by (now destruct kinds).
  rewrite to_host_of, Hh, bind_ok. unfold HostEngine_send_command.
  destruct kinds as [|k kinds]; cbn [spawn_command unwrap]; rewrite bind_ok;
    (destruct (hg_channels (host_engine host) !! h) eqn:Hc; [discriminate|]); rewrite bind_ok; intros [= <-]; (split; [reflexivity|]);
    (eexists; split; [reflexivity|]); (split; [reflexivity|]); cbn; now destruct (hg_host_type (host_engine host)).
Qed.

Lemma local_init_law d now e kinds static (c : Manager) (st : Heap) c' st' : local_map_ok (entity_map c) -> has_global_entity e c = false ->
  host_init_entity immutable d now e kinds static (c, st) = Ok (c', st') ->
  local_map_ok (entity_map c') /\ paused_entities c' = paused_entities c /\
  (forall e', has_global_entity e' c' = if decide (e' = e) then true else has_global_entity e' c) /\
  (forall e', e' <> e -> host_channel c' e' = host_channel c e') /\
  exists ch, host_channel c' e = Some ch /\ ac_auth_status (hc_auth ch) = None /\ ac_state (hc_auth ch) <> Delegated.
Proof using Type.
  intros Hok Hhas. unfold host_init_entity. intros H. apply bind_ok_inv in H as (m0 & Hm0 & H).
  destruct (evict_ok e c m0 Hok Hhas Hm0) as (Hok0 & Hno & Hsame). rewrite to_host_of, Hno, bind_ok in H.
  apply bind_ok_inv in H as ([m1 host1] & Hm1 & H).
  assert (exists h, m1 = with_host {| record_entity := host_copy_to_owned h |} e h m0 /\ m0.(global_to_local) !! e = None /\
    m0.(host_to_global) !! h = None /\ hg_channels (host_engine host1) = hg_channels (host_engine (lw_host c))) as (h & -> & Hg & Hfree & Hch1).
  { destruct static; apply bind_ok_inv in Hm1 as ([h host] & Hgen & Hm1); apply bind_ok_inv in Hm1 as (m' & Hins & Hm1); injection Hm1 as <- <-; exists h.
    - unfold host_generate_static_entity, generate_static_host_entity in Hgen. apply bind_ok_inv in Hgen as ([h1 g1] & Hg1 & Hgen).
      apply bind_ok_inv in Hg1 as ([key g2] & _ & Hg1). injection Hg1 as <- <-. injection Hgen as <- <-.
      apply insert_static_inv in Hins as (? & ? & ->); [|reflexivity]. now split_and!.
    - unfold host_generate_entity, generate_host_entity in Hgen. apply bind_ok_inv in Hgen as ([h1 g1] & Hg1 & Hgen).
      apply bind_ok_inv in Hg1 as ([key g2] & _ & Hg1). injection Hg1 as <- <-. injection Hgen as <- <-.
      apply insert_host_inv in Hins as (? & ? & ->); [|reflexivity]. now split_and!. }
  set (m1 := with_host _ e h m0) in *.
  assert (local_map_ok m1) as Hok1 by (now apply with_host_ok).
  assert (host_of m1 e = Some h) as Hh1 by (unfold host_of, m1; cbn; rewrite lookup_insert_eq; now destruct h).
  assert (forall e', e' <> e -> host_of m1 e' = host_of (entity_map c) e' /\ remote_of m1 e' = remote_of (entity_map c) e') as Hsame1.
  { intros e' Hne. destruct (Hsame e' Hne) as [<- <-]. apply host_of_ext. unfold m1. cbn. now rewrite lookup_insert_ne by congruence. }
  assert (exists host2 ch, entity_map c' = m1 /\ lw_host c' = host2 /\ lw_remote c' = lw_remote c /\ paused_entities c' = paused_entities c /\
    hg_channels (host_engine (lw_host c)) !! h = None /\
    hg_channels (host_engine host2) = <[h := ch]> (hg_channels (host_engine (lw_host c))) /\ ac_auth_status (hc_auth ch) = None /\
    ac_state (hc_auth ch) <> Delegated) as (host2 & ch & Hmap & <- & Hrem & Hpau & Hfresh & Hch & Hst & Hnd).
  { destruct static.
    - apply bind_ok_inv in H as (host2 & Hsp & H). injection H as <- <-. apply spawn_inv with (h := h) in Hsp as (Hf & ch & Hch & Hst & Hnd); [|exact Hh1].
      exists host2, ch. rewrite Hch1 in *. now split_and!.
    - apply bind_ok_inv in H as ([us host2] & Hinit & H). injection H as <- <-. unfold init_entity_send_host_commands in Hinit.
      apply bind_ok_inv in Hinit as (us1 & _ & Hinit). apply bind_ok_inv in Hinit as (h1 & Hsp & Hinit). injection Hinit as <- <-.
      apply spawn_inv with (h := h) in Hsp as (Hf & ch & Hch & Hst & Hnd); [|exact Hh1]. exists h1, ch. rewrite Hch1 in *. now split_and!. }
  split; [now rewrite Hmap|]. split; [exact Hpau|].
  assert (forall e' h', e' <> e -> host_of (entity_map c) e' = Some h' -> h <> h') as Hdiff.
  { intros e' h' Hne Hh' ->. apply Hne. rewrite <- (proj1 (Hsame1 e' Hne)) in Hh'. exact (mirror_inj _ _ _ _ _ (proj1 Hok1) Hh' Hh1). }
  split; [|split].
  - intros e'. rewrite !has_spec, Hmap, Hrem, Hch. destruct (decide (e' = e)) as [->|Hne].
    + rewrite Hh1, lookup_insert_eq. now apply bool_decide_eq_true_2.
    + destruct (Hsame1 e' Hne) as [-> ->]. destruct (host_of (entity_map c) e') as [h'|] eqn:Hh'; [|reflexivity].
      rewrite lookup_insert_ne; [reflexivity|]. eauto.
  - intros e' Hne. unfold host_channel. rewrite Hmap, Hch. destruct (Hsame1 e' Hne) as [-> _].
    destruct (host_of (entity_map c) e') as [h'|] eqn:Hh'; [|reflexivity]. cbn. rewrite lookup_insert_ne; [reflexivity|]. eauto.
  - exists ch. split; [|now split]. unfold host_channel. rewrite Hmap, Hch, Hh1. cbn. apply lookup_insert_eq.
Qed.

(** ** The laws *)
Definition local_ok (c : Manager) : Prop := local_map_ok (entity_map c) /\
  forall e ch, host_channel c e = Some ch -> ac_state (hc_auth ch) = Delegated -> is_Some (ac_auth_status (hc_auth ch)).

(** What follows from a step of one channel to a delegated one. *)
Lemma channel_step_laws e ch s (c c' : Manager) : local_ok c -> is_Some (host_channel c e) -> channel_step e (Some ch) c c' ->
  ac_state (hc_auth ch) = Delegated -> ac_auth_status (hc_auth ch) = Some s ->
  local_ok c' /\ (forall e', has_global_entity e' c' = has_global_entity e' c) /\
  (forall e', local_hosted c' e' = local_hosted c e') /\
  (forall e', local_auth c' e' = if decide (e' = e) then Some s else local_auth c e') /\
  (forall e', is_entity_paused e' c' = is_entity_paused e' c).
Proof using Type.
  intros [Hm Hwf] [ch0 Hch0] Hstep Hd Hs. destruct (host_channel_of _ _ _ Hch0) as (h & Hh & Hhc).
  pose proof (fun e' => channel_step_channel e (Some ch) c c' e' Hm (ex_intro _ h Hh) Hstep) as Hch.
  split; [split|split; [|split; [|split]]].
  - rewrite (cs_map _ _ _ _ Hstep). exact Hm.
  - intros e' ch' He' Hd'. rewrite Hch in He'. case_decide; [injection He' as <-; eauto|eauto].
  - intros e'. rewrite (channel_step_has e (Some ch) c c' e' Hm (ex_intro _ h Hh) Hstep). case_decide; [subst|reflexivity].
    rewrite bool_decide_true by eauto. symmetry. apply hosted_has. unfold local_hosted. rewrite Hch0. now apply bool_decide_eq_true_2.
  - intros e'. unfold local_hosted. rewrite Hch. case_decide; [subst; rewrite Hch0; now rewrite !bool_decide_true by eauto|reflexivity].
  - intros e'. unfold local_auth. rewrite Hch. case_decide; [|reflexivity]. cbn. now rewrite decide_True.
  - intros e'. unfold is_entity_paused. now rewrite (cs_paused _ _ _ _ Hstep).
Qed.

#[global] Instance local_laws : ConnLaws Manager Heap Diffs.
Proof using Type.
  refine {| conn_ok := local_ok; conn_hosted := local_hosted; conn_auth := local_auth |}.
  - exact hosted_has.
  - intros c e [s Hs]. unfold local_auth in Hs. unfold local_hosted. destruct (host_channel c e); [now apply bool_decide_eq_true_2|discriminate].
  - intros e c Hok. split; [exact Hok|]. split_and!; try reflexivity. intros e'. cbn. unfold is_entity_paused. cbn.
    rewrite <- bool_decide_or. apply bool_decide_ext. now rewrite elem_of_union, elem_of_singleton.
  - intros e c Hok. split; [exact Hok|]. split_and!; try reflexivity. intros e'. cbn. unfold is_entity_paused. cbn.
    rewrite <- bool_decide_not, <- bool_decide_and. apply bool_decide_ext. rewrite elem_of_difference, elem_of_singleton. tauto.
  - intros e c [Hm Hwf] Hhas. destruct (local_despawn_law e c Hm Hhas) as (c' & Hc' & Hmap & Hpau & Hch & Hha).
    exists c'. split; [exact Hc'|]. split; [split|split_and!].
    + now rewrite Hmap.
    + intros e' ch. rewrite Hch. case_decide; [discriminate|apply Hwf].
    + intros e'. cbn. rewrite Hha. case_decide; [now rewrite bool_decide_true|now rewrite bool_decide_false].
    + intros e'. cbn. unfold local_hosted. rewrite Hch. case_decide; [now rewrite bool_decide_false, bool_decide_true by (done || now intros [])|].
      now rewrite (bool_decide_false (e' = e)).
    + intros e'. unfold local_auth. rewrite Hch. now case_decide.
    + intros e'. cbn. unfold is_entity_paused. rewrite Hpau. rewrite <- bool_decide_not, <- bool_decide_and. apply bool_decide_ext.
      rewrite elem_of_difference, elem_of_singleton. tauto.
  - intros d now e kinds static c h c' h' [Hm Hwf] Hhas Hinit.
    destruct (local_init_law d now e kinds static c h c' h' Hm Hhas Hinit) as (Hm' & Hpau & Hha & Hch & ch & Hce & Hst & Hnd).
    split; [split|split_and!].
    + exact Hm'.
    + intros e' ch' He' Hd. destruct (decide (e' = e)) as [->|Hne]; [congruence|]. rewrite Hch in He' by exact Hne. eauto.
    + intros e'. cbn. rewrite Hha. case_decide; [now rewrite bool_decide_true|now rewrite bool_decide_false].
    + intros e'. cbn. unfold local_hosted. destruct (decide (e' = e)) as [->|Hne].
      * rewrite Hce. now rewrite !bool_decide_true by eauto.
      * rewrite Hch by exact Hne. now rewrite (bool_decide_false (e' = e)).
    + intros e'. unfold local_auth. destruct (decide (e' = e)) as [->|Hne]; [rewrite Hce; cbn; now rewrite decide_False|now rewrite Hch].
    + intros e'. cbn. unfold is_entity_paused. now rewrite Hpau.
  - intros e s s' c Hok Hs Hv. destruct (local_set_auth_law e s s' c (proj1 Hok) Hs Hv) as (c' & Hc' & ch & ch' & Hch & Hstep & Hd & Hst).
    exists c'. split; [exact Hc'|]. eapply channel_step_laws; eauto.
  - intros e s s' c Hs Hv. exact (local_set_auth_panic e s s' c Hs Hv).
  - intros e c b Hok Hh Ha. destruct (local_enable_law e c b (proj1 Hok) Hh Ha) as (c' & Hc' & ch' & Hstep & Hd & Hst); [apply Hok|].
    exists c'. split; [exact Hc'|]. apply bool_decide_eq_true in Hh. eapply channel_step_laws; eauto.
Defined.
End Local.

(** * A connection reduced to its table of scopes

    The smallest connection that keeps the laws: the entities in scope with the status told to
    the client, where they are delegated, and the paused ones. *)
Module Table.
Record TableConn := mkTable { entries : gmap GlobalEntity (option EntityAuthStatus); paused : gset GlobalEntity }.

Definition fresh : TableConn := {| entries := ∅; paused := ∅ |}.
Definition with_entries (m : gmap GlobalEntity (option EntityAuthStatus)) (c : TableConn) : TableConn := {| entries := m; paused := c.(paused) |}.
Definition table_has (c : TableConn) (e : GlobalEntity) : bool := bool_decide (is_Some (c.(entries) !! e)).
Definition table_auth (c : TableConn) (e : GlobalEntity) : option EntityAuthStatus := mjoin (c.(entries) !! e).
Definition table_set_auth (e : GlobalEntity) (s : EntityAuthStatus) (c : TableConn) : res TableConn :=
  match c.(entries) !! e with
  | Some (Some from) => if valid_auth_transition from s then Ok (with_entries (<[e := Some s]> c.(entries)) c) else Panic
  | _ => Panic
  end.
Definition table_enable (e : GlobalEntity) (c : TableConn) : res TableConn :=
  match c.(entries) !! e with Some None => Ok (with_entries (<[e := Some Available]> c.(entries)) c) | _ => Panic end.

#[export] Instance table_conn {H D : Type} : WorldConn TableConn H D := {|
  conn_has := table_has;
  conn_is_paused c e := bool_decide (e ∈ c.(paused));
  conn_pause e c := {| entries := c.(entries); paused := {[e]} ∪ c.(paused) |};
  conn_resume e c := {| entries := c.(entries); paused := c.(paused) ∖ {[e]} |};
  conn_despawn e c := if table_has c e then Ok {| entries := delete e c.(entries); paused := c.(paused) ∖ {[e]} |} else Panic;
  conn_host_init _ _ e _ _ x := if table_has x.1 e then Panic else Ok (with_entries (<[e := None]> x.1.(entries)) x.1, x.2);
  conn_insert_component _ _ e _ x := if table_has x.1 e then Ok x else Panic;
  conn_remove_component e _ c := if table_has c e then Ok c else Panic;
  conn_send_publish e c := if table_has c e then Ok c else Panic;
  conn_send_unpublish e c := if table_has c e then Ok c else Panic;
  conn_send_enable_delegation _ := table_enable;
  conn_send_disable_delegation e c :=
    match c.(entries) !! e with Some (Some _) => Ok (with_entries (<[e := None]> c.(entries)) c) | _ => Panic end;
  conn_send_set_auth := table_set_auth;
  conn_migrate _ e c := if table_has c e then Ok (with_entries (<[e := Some Available]> c.(entries)) c) else Panic |}.

Lemma table_has_insert e x c e' : table_has (with_entries (<[e := x]> c.(entries)) c) e' = bool_decide (e' = e) || table_has c e'.
Proof.
  unfold table_has. cbn. rewrite lookup_insert. case_decide as He; [subst; now rewrite !bool_decide_true by eauto|].
  now rewrite (bool_decide_false (e' = e)) by congruence.
Qed.

Lemma table_auth_insert e x c e' : table_auth (with_entries (<[e := x]> c.(entries)) c) e' = if decide (e' = e) then x else table_auth c e'.
Proof. unfold table_auth. cbn. rewrite lookup_insert. repeat case_decide; congruence || reflexivity. Qed.

Lemma table_keep e c e' : is_Some (c.(entries) !! e) -> bool_decide (e' = e) || table_has c e' = table_has c e'.
Proof.
  intros He. unfold table_has. destruct (decide (e' = e)) as [->|Hne]; [now rewrite !bool_decide_true|now rewrite (bool_decide_false (e' = e))].
Qed.

#[export] Instance table_laws {H D : Type} : ConnLaws TableConn H D.
Proof.
  refine {| conn_ok := fun _ => True; conn_hosted := table_has; conn_auth := table_auth |}; cbn; try easy.
  - intros c e [s Hs]. unfold table_auth in Hs. unfold table_has. destruct (entries c !! e); [now apply bool_decide_eq_true_2|discriminate].
  - intros e c _. split_and!; try easy. intros e'. rewrite <- bool_decide_or. apply bool_decide_ext. now rewrite elem_of_union, elem_of_singleton.
  - intros e c _. split_and!; try easy. intros e'. rewrite <- bool_decide_not, <- bool_decide_and. apply bool_decide_ext.
    rewrite elem_of_difference, elem_of_singleton. tauto.
  - intros e c _ Hh. rewrite Hh. eexists. split; [reflexivity|]. split; [exact I|].
    assert (forall e', table_has {| entries := delete e (entries c); paused := paused c ∖ {[e]} |} e' = negb (bool_decide (e' = e)) && table_has c e') as Hd.
    { intros e'. unfold table_has. cbn. rewrite lookup_delete. case_decide as He; [subst; now rewrite (bool_decide_true (e' = e')), bool_decide_false by (done || now intros [])|].
      now rewrite (bool_decide_false (e' = e)) by congruence. }
    split_and!; [exact Hd..| |].
    + intros e'. unfold table_auth. cbn. rewrite lookup_delete. repeat case_decide; congruence || reflexivity.
    + intros e'. rewrite <- bool_decide_not, <- bool_decide_and. apply bool_decide_ext. cbn. rewrite elem_of_difference, elem_of_singleton. tauto.
  - intros d now e kinds static c h c' h' _ Hh. rewrite Hh. intros [= <- <-]. split; [exact I|].
    split_and!; try easy; intros e'; [apply table_has_insert..|apply table_auth_insert].
  - intros e s s' c _ Hs Hv. unfold table_auth in Hs. unfold table_set_auth. destruct (entries c !! e) as [[x|]|] eqn:He; try discriminate.
    injection Hs as ->. rewrite Hv. eexists. split; [reflexivity|]. split; [exact I|].
    split_and!; try easy; intros e'; [rewrite table_has_insert; apply table_keep; eauto..|apply table_auth_insert].
  - intros e s s' c Hs Hv. unfold table_auth in Hs. unfold table_set_auth. destruct (entries c !! e) as [[x|]|] eqn:He; try discriminate.
    injection Hs as ->. now rewrite Hv.
  - intros e c b _ Hh Ha. unfold table_has in Hh. apply bool_decide_eq_true in Hh as [x Hx]. unfold table_auth in Ha. rewrite Hx in Ha. cbn in Ha. subst x.
    unfold table_enable. rewrite Hx. eexists. split; [reflexivity|]. split; [exact I|].
    split_and!; try easy; intros e'; [rewrite table_has_insert; apply table_keep; eauto..|apply table_auth_insert].
Defined.
End Table.
