(* ===== verification/Resources.v ===== *)
(** The registry of replicated resources, a map in both directions between a resource's type and
    the hidden entity that carries it: [src/shared/src/world/resource/resource_registry.rs]. *)

From Stdlib Require Import ZArith Lia.
From stdpp Require Import base numbers option list gmap sets.
From S2P Require Import Prelude EntityTypes EntityMaps.

Abbreviation TypeId := Z.

Record ResourceRegistry := mkRegistry { by_type : gmap TypeId GlobalEntity; by_entity : gmap GlobalEntity TypeId }.

(** [Result<_, ResourceAlreadyExists>] *)
Inductive registered := Registered (r : ResourceRegistry) | ResourceAlreadyExists.

Definition Registry_new : ResourceRegistry := {| by_type := ∅; by_entity := ∅ |}.

Definition Registry_insert (type_id : TypeId) (entity : GlobalEntity) (self : ResourceRegistry) : registered :=
  match self.(by_type) !! type_id with
  | Some _ => ResourceAlreadyExists
  | None => Registered {| by_type := <[type_id := entity]> self.(by_type); by_entity := <[entity := type_id]> self.(by_entity) |}
  end.

Definition insert_raw (type_id : TypeId) (entity : GlobalEntity) (self : ResourceRegistry) : registered :=
  match self.(by_type) !! type_id with
  | Some existing => if decide (existing = entity) then Registered self else ResourceAlreadyExists
  | None => Registered {| by_type := <[type_id := entity]> self.(by_type); by_entity := <[entity := type_id]> self.(by_entity) |}
  end.

Definition Registry_remove (type_id : TypeId) (self : ResourceRegistry) : option GlobalEntity * ResourceRegistry :=
  match self.(by_type) !! type_id with
  | Some entity => (Some entity, {| by_type := delete type_id self.(by_type); by_entity := delete entity self.(by_entity) |})
  | None => (None, self)
  end.

Definition remove_by_entity (entity : GlobalEntity) (self : ResourceRegistry) : option TypeId * ResourceRegistry :=
  match self.(by_entity) !! entity with
  | Some type_id => (Some type_id, {| by_type := delete type_id self.(by_type); by_entity := delete entity self.(by_entity) |})
  | None => (None, self)
  end.

Definition entity_for (self : ResourceRegistry) (type_id : TypeId) : option GlobalEntity := self.(by_type) !! type_id.
Definition type_for (self : ResourceRegistry) (entity : GlobalEntity) : option TypeId := self.(by_entity) !! entity.
Definition is_resource_entity (self : ResourceRegistry) (entity : GlobalEntity) : bool := bool_decide (is_Some (self.(by_entity) !! entity)).
Definition Registry_len (self : ResourceRegistry) : nat := size self.(by_type).
Definition Registry_is_empty (self : ResourceRegistry) : bool := bool_decide (self.(by_type) = ∅).

(** The two maps are inverse to each other. *)
Definition registry_ok (self : ResourceRegistry) : Prop :=
  forall t e, self.(by_type) !! t = Some e <-> self.(by_entity) !! e = Some t.

Lemma registry_new_ok : registry_ok Registry_new.
Proof. intros t e. cbn. rewrite !lookup_empty. split; discriminate. Qed.

(** Inserting an entity that carries no resource yet. *)
Lemma registry_insert_ok t e self self' : registry_ok self -> self.(by_entity) !! e = None -> Registry_insert t e self = Registered self' -> registry_ok self'.
Proof.
  intros Hok He. unfold Registry_insert. destruct (by_type self !! t) eqn:Ht; [discriminate|]. intros [= <-] t' e'. cbn.
  rewrite !lookup_insert_Some. rewrite (Hok t' e'). split.
  - intros [[-> ->]|[Hne H]]; [now left|]. right. split; [|exact H]. intros ->. congruence.
  - intros [[-> ->]|[Hne H]]; [now left|]. right. split; [|exact H]. intros ->. apply Hok in H. congruence.
Qed.

Lemma registry_remove_ok t self : registry_ok self -> registry_ok (Registry_remove t self).2.
Proof.
  intros Hok. unfold Registry_remove. destruct (by_type self !! t) as [e|] eqn:Ht; [|exact Hok]. intros t' e'. cbn.
  rewrite !lookup_delete_Some, (Hok t' e'). apply Hok in Ht. split; intros [Hne H]; (split; [|exact H]); intros ->; (congruence || (apply Hok in Ht; apply Hok in H; congruence)).
Qed.

Lemma remove_by_entity_ok e self : registry_ok self -> registry_ok (remove_by_entity e self).2.
Proof.
  intros Hok. unfold remove_by_entity. destruct (by_entity self !! e) as [t|] eqn:He; [|exact Hok].
  apply Hok in He. pose proof (registry_remove_ok t self Hok) as H. unfold Registry_remove in H. now rewrite He in H.
Qed.
