(* ===== verification/WorldServer.v ===== *)
(** The part of the server that decides who sees and who may change an entity
    ([src/server/src/server/world_server.rs]): rooms and scopes, publication, delegation and
    authority, the life of entities and users.

    The connections of the users are known through [WorldConn]; the calls the server makes on the
    application's world ([WorldMutType]) are logged in order, and [world_has] is its
    [has_entity].  Per-user priorities, bandwidth accounting and requests are not part of the
    state.  [iter_us] and [iter_cs] are the orders in which the maps of users and of connections
    are walked. *)

From Stdlib Require Import ZArith Lia.
From stdpp Require Import base numbers option list gmap sets.
From S2P Require Import Prelude Kinds EntityTypes DiffHandlers EntityMaps Waitlist Authority Rooms ServerConn Resources ServerWorld.

Inductive DisconnectReason := ClientDisconnected | TimedOut | Kicked | AuthTimeout.

(** Notifications the application takes ([WorldEvents]) and calls on its world.  A component that
    was removed is noted by its kind. *)
Inductive server_event (E : Type) :=
| AuthGrant (user_key : UserKey) (world_entity : E)
| AuthDenied (user_key : UserKey) (world_entity : E)
| AuthReset (world_entity : E)
| PushSpawn (user_key : UserKey) (world_entity : E)
| PushDespawn (user_key : UserKey) (world_entity : E)
| PushInsert (user_key : UserKey) (world_entity : E) (kind : ComponentKind)
| PushRemove (user_key : UserKey) (world_entity : E) (kind : ComponentKind)
| PushUpdate (user_key : UserKey) (world_entity : E) (kind : ComponentKind)
| PushPublish (user_key : UserKey) (world_entity : E)
| PushUnpublish (user_key : UserKey) (world_entity : E)
| PushDelegate (user_key : UserKey) (world_entity : E)
| PushConnection (user_key : UserKey)
| PushDisconnection (user_key : UserKey) (reason : DisconnectReason).
Arguments AuthGrant {E} _ _.
Arguments AuthDenied {E} _ _.
Arguments AuthReset {E} _.
Arguments PushSpawn {E} _ _.
Arguments PushDespawn {E} _ _.
Arguments PushInsert {E} _ _ _.
Arguments PushRemove {E} _ _ _.
Arguments PushUpdate {E} _ _ _.
Arguments PushPublish {E} _ _.
Arguments PushUnpublish {E} _ _.
Arguments PushDelegate {E} _ _.
Arguments PushConnection {E} _.
Arguments PushDisconnection {E} _ _.

Inductive world_call (E : Type) :=
| WPublish (e : E) | WUnpublish (e : E) | WEnableDelegation (e : E) | WDisableDelegation (e : E)
| WDespawn (e : E) | WComponentPublish (e : E) (kind : ComponentKind) | WComponentEnableDelegation (e : E) (kind : ComponentKind).
Arguments WPublish {E} _.
Arguments WUnpublish {E} _.
Arguments WEnableDelegation {E} _.
Arguments WDisableDelegation {E} _.
Arguments WDespawn {E} _.
Arguments WComponentPublish {E} _ _.
Arguments WComponentEnableDelegation {E} _ _.

Section Server.
Context (iter_u : gset UserKey -> list UserKey) (iter_e : gset GlobalEntity -> list GlobalEntity)
        (iter_r : gset RoomKey -> list RoomKey) (iter_k : gset ComponentKind -> list ComponentKind).
Context {E A B C : Type} {eqE : EqDecision E} {cE : Countable E} {eqA : EqDecision A} {cA : Countable A}.
Abbreviation Heap := (@Store A eqA cA).
Abbreviation Diffs := (@GlobalDiffHandler GlobalEntity ComponentKind _ _ _ _).
Context {conn : WorldConn C Heap Diffs}.
Abbreviation WUser := (@WorldUser A).
Abbreviation Manager := SW.GlobalWorldManager.
Abbreviation GMap := (@GlobalEntityMap.GlobalEntityMap E eqE cE).
Context (iter_us : gmap UserKey WUser -> list (UserKey * WUser)) (iter_cs : gmap A C -> list A).

Record WorldServer := mkServer {
  members : @Membership E A eqA cA;
  user_connections : gmap A C;
  entity_scope_map : EntityScopeMap;
  global_world_manager : Manager;
  global_entity_map : GMap;
  scope_change_queue : list ScopeChange;
  resource_registry : ResourceRegistry;
  heap : Heap;
  incoming_world_events : list (server_event E);
  world_calls : list (world_call E)
}.

Definition set_members (m : Membership) (s : WorldServer) : WorldServer :=
  {| members := m; user_connections := s.(user_connections); entity_scope_map := s.(entity_scope_map);
     global_world_manager := s.(global_world_manager); global_entity_map := s.(global_entity_map);
     scope_change_queue := s.(scope_change_queue); resource_registry := s.(resource_registry); heap := s.(heap);
     incoming_world_events := s.(incoming_world_events); world_calls := s.(world_calls) |}.
Definition set_conns (cs : gmap A C) (s : WorldServer) : WorldServer :=
  {| members := s.(members); user_connections := cs; entity_scope_map := s.(entity_scope_map);
     global_world_manager := s.(global_world_manager); global_entity_map := s.(global_entity_map);
     scope_change_queue := s.(scope_change_queue); resource_registry := s.(resource_registry); heap := s.(heap);
     incoming_world_events := s.(incoming_world_events); world_calls := s.(world_calls) |}.
Definition set_scopes (m : EntityScopeMap) (s : WorldServer) : WorldServer :=
  {| members := s.(members); user_connections := s.(user_connections); entity_scope_map := m;
     global_world_manager := s.(global_world_manager); global_entity_map := s.(global_entity_map);
     scope_change_queue := s.(scope_change_queue); resource_registry := s.(resource_registry); heap := s.(heap);
     incoming_world_events := s.(incoming_world_events); world_calls := s.(world_calls) |}.
Definition set_manager (m : Manager) (s : WorldServer) : WorldServer :=
  {| members := s.(members); user_connections := s.(user_connections); entity_scope_map := s.(entity_scope_map);
     global_world_manager := m; global_entity_map := s.(global_entity_map);
     scope_change_queue := s.(scope_change_queue); resource_registry := s.(resource_registry); heap := s.(heap);
     incoming_world_events := s.(incoming_world_events); world_calls := s.(world_calls) |}.
Definition set_entities (m : GMap) (s : WorldServer) : WorldServer :=
  {| members := s.(members); user_connections := s.(user_connections); entity_scope_map := s.(entity_scope_map);
     global_world_manager := s.(global_world_manager); global_entity_map := m;
     scope_change_queue := s.(scope_change_queue); resource_registry := s.(resource_registry); heap := s.(heap);
     incoming_world_events := s.(incoming_world_events); world_calls := s.(world_calls) |}.
Definition set_queue (q : list ScopeChange) (s : WorldServer) : WorldServer :=
  {| members := s.(members); user_connections := s.(user_connections); entity_scope_map := s.(entity_scope_map);
     global_world_manager := s.(global_world_manager); global_entity_map := s.(global_entity_map);
     scope_change_queue := q; resource_registry := s.(resource_registry); heap := s.(heap);
     incoming_world_events := s.(incoming_world_events); world_calls := s.(world_calls) |}.
Definition set_registry (r : ResourceRegistry) (s : WorldServer) : WorldServer :=
  {| members := s.(members); user_connections := s.(user_connections); entity_scope_map := s.(entity_scope_map);
     global_world_manager := s.(global_world_manager); global_entity_map := s.(global_entity_map);
     scope_change_queue := s.(scope_change_queue); resource_registry := r; heap := s.(heap);
     incoming_world_events := s.(incoming_world_events); world_calls := s.(world_calls) |}.
Definition set_heap (h : Heap) (s : WorldServer) : WorldServer :=
  {| members := s.(members); user_connections := s.(user_connections); entity_scope_map := s.(entity_scope_map);
     global_world_manager := s.(global_world_manager); global_entity_map := s.(global_entity_map);
     scope_change_queue := s.(scope_change_queue); resource_registry := s.(resource_registry); heap := h;
     incoming_world_events := s.(incoming_world_events); world_calls := s.(world_calls) |}.
Definition push_event (e : server_event E) (s : WorldServer) : WorldServer :=
  {| members := s.(members); user_connections := s.(user_connections); entity_scope_map := s.(entity_scope_map);
     global_world_manager := s.(global_world_manager); global_entity_map := s.(global_entity_map);
     scope_change_queue := s.(scope_change_queue); resource_registry := s.(resource_registry); heap := s.(heap);
     incoming_world_events := s.(incoming_world_events) ++ [e]; world_calls := s.(world_calls) |}.
Definition call_world (w : world_call E) (s : WorldServer) : WorldServer :=
  {| members := s.(members); user_connections := s.(user_connections); entity_scope_map := s.(entity_scope_map);
     global_world_manager := s.(global_world_manager); global_entity_map := s.(global_entity_map);
     scope_change_queue := s.(scope_change_queue); resource_registry := s.(resource_registry); heap := s.(heap);
     incoming_world_events := s.(incoming_world_events); world_calls := s.(world_calls) ++ [w] |}.
Definition push_change (c : ScopeChange) (s : WorldServer) : WorldServer := set_queue (s.(scope_change_queue) ++ [c]) s.

Definition WorldServer_new : WorldServer :=
  {| members := {| room_store := BigMap_new; user_store := UserStore_new; entity_room_map := ∅; scope_checks_cache := Cache_new |};
     user_connections := ∅; entity_scope_map := ScopeMap_new; global_world_manager := SW.Manager_new;
     global_entity_map := GlobalEntityMap.GlobalMap_new; scope_change_queue := []; resource_registry := Registry_new;
     heap := {| cells := []; sets := []; chans := [] |}; incoming_world_events := []; world_calls := [] |}.

(** [self.user_store.get(user_key)] and the connection at the user's address. *)
Definition user_of (s : WorldServer) (user_key : UserKey) : option WUser := UserStore_get s.(members).(user_store) user_key.
Definition conn_at (s : WorldServer) (addr : A) : option C := s.(user_connections) !! addr.
Definition conn_of (s : WorldServer) (user_key : UserKey) : option (A * C) :=
  user ← user_of s user_key; c ← conn_at s user.(data_addr); Some (user.(data_addr), c).
Definition set_conn (addr : A) (c : C) (s : WorldServer) : WorldServer := set_conns (<[addr := c]> s.(user_connections)) s.

(** [entity_to_global_entity(world_entity).unwrap()] *)
Definition global_of (s : WorldServer) (world_entity : E) : res GlobalEntity :=
  unwrap (GlobalEntityMap.GlobalMap_to_global s.(global_entity_map) world_entity).

(** * Fan-out *)

(** The loops over [user_store.iter()]: [f] runs on the connection of every user that has one
    and has the entity in scope. *)
Definition in_scope_step (e : GlobalEntity) (f : UserKey -> C -> res C) (x : UserKey * WUser) (conns : gmap A C) : res (gmap A C) :=
  match conns !! x.2.(data_addr) with
  | None => Ok conns
  | Some c => if conn_has c e then c' ← f x.1 c; Ok (<[x.2.(data_addr) := c']> conns) else Ok conns
  end.
Definition for_users_in_scope (e : GlobalEntity) (f : UserKey -> C -> res C) (s : WorldServer) : res WorldServer :=
  conns ← foldM (in_scope_step e f) (iter_us s.(members).(user_store).(store_users)) s.(user_connections);
  Ok (set_conns conns s).

(** The loops over [user_connections.iter_mut()]. *)
Definition for_connections (f : A -> C -> res C) (s : WorldServer) : res WorldServer :=
  conns ← foldM (fun addr conns => match conns !! addr with
                                   | Some c => c' ← f addr c; Ok (<[addr := c']> conns)
                                   | None => Ok conns
                                   end) (iter_cs s.(user_connections)) s.(user_connections);
  Ok (set_conns conns s).

Definition send_reset_authority_messages (e : GlobalEntity) (s : WorldServer) : res WorldServer :=
  for_users_in_scope e (fun _ => conn_send_set_auth e Available) s.

Definition send_take_authority_messages (e : GlobalEntity) (previous_owner : AuthOwner) (s : WorldServer) : res WorldServer :=
  match previous_owner with
  | ByClient prev_holder_key =>
      match conn_of s prev_holder_key with
      | Some (addr, c) => if conn_has c e then c' ← conn_send_set_auth e Denied c; Ok (set_conn addr c' s) else Ok s
      | None => Ok s
      end
  | ByNone => for_users_in_scope e (fun _ => conn_send_set_auth e Denied) s
  | ByServer => Ok s
  end.

(** Granted for the holder, Denied for everyone else. *)
Definition send_grant (holder : UserKey) (e : GlobalEntity) (s : WorldServer) : res WorldServer :=
  for_users_in_scope e (fun user_key => conn_send_set_auth e (if decide (holder = user_key) then Granted else Denied)) s.

(** * Scope *)
Definition is_private (s : WorldServer) (e : GlobalEntity) : bool :=
  match SW.entity_replication_config s.(global_world_manager) e with
  | Some c => match c.(publicity) with Private => true | _ => false end
  | None => false
  end.

Definition is_owned_by (s : WorldServer) (user_key : UserKey) (e : GlobalEntity) : bool :=
  match SW.entity_owner s.(global_world_manager) e with
  | Some (OwnClient owner_key) | Some (OwnClientWaiting owner_key) | Some (OwnClientPublic owner_key) => owner_key =? user_key
  | _ => false
  end.

Definition server_owned (s : WorldServer) (e : GlobalEntity) : bool :=
  match SW.entity_owner s.(global_world_manager) e with Some o => owner_is_server o | None => false end.

(** [entity_rooms.intersection(user.room_keys()).next().is_some()] *)
Definition in_common_room (s : WorldServer) (user : WUser) (e : GlobalEntity) : bool :=
  match entity_get_rooms s.(members).(entity_room_map) e with
  | Some rooms => bool_decide (rooms ∩ user.(rooms_cache) <> ∅)
  | None => false
  end.

Definition user_scope_has_entity (user_key : UserKey) (world_entity : E) (s : WorldServer) : res bool :=
  e ← global_of s world_entity;
  if is_owned_by s user_key e then Ok true
  else if is_private s e then Ok false
  else match ScopeMap_get s.(entity_scope_map) user_key e with
  | Some in_scope =>
      Ok (if in_scope && bool_decide (entity_get_rooms s.(members).(entity_room_map) e = None)
             && server_owned s e && negb (is_resource_entity s.(resource_registry) e)
          then false else in_scope)
  | None =>
      match user_of s user_key with
      | None => Ok false
      | Some user => Ok (in_common_room s user e)
      end
  end.

Definition user_scope_set_entity (user_key : UserKey) (world_entity : E) (is_contained : bool) (s : WorldServer) : res WorldServer :=
  e ← global_of s world_entity;
  s ← (if negb is_contained && SW.user_is_authority_holder s.(global_world_manager) user_key e then
         '(r, m) ← SW.client_release_authority e (ByClient user_key) s.(global_world_manager);
         let s := set_manager m s in
         match r with inr _ => send_reset_authority_messages e s | inl _ => Ok s end
       else Ok s);
  if is_contained && is_private s e && negb (is_owned_by s user_key e) then Ok s
  else Ok (push_change (ScopeToggled user_key e is_contained)
             (set_scopes (ScopeMap_insert user_key e is_contained s.(entity_scope_map)) s)).

(** [should_be_in_scope] of [apply_scope_for_user] *)
Definition should_be_in_scope (s : WorldServer) (user_key : UserKey) (user : WUser) (e : GlobalEntity) : bool :=
  let is_resource := is_resource_entity s.(resource_registry) e in
  let server_owned_roomless_non_resource :=
    server_owned s e && negb is_resource && bool_decide (entity_get_rooms s.(members).(entity_room_map) e = None) in
  match ScopeMap_get s.(entity_scope_map) user_key e with
  | Some true => if server_owned_roomless_non_resource then false else true
  | Some false => false
  | None => is_resource || in_common_room s user e
  end.

Definition scope_exit_of (s : WorldServer) (e : GlobalEntity) : ScopeExit :=
  match SW.entity_replication_config s.(global_world_manager) e with Some c => c.(scope_exit) | None => Despawn end.

Definition leave_scope (s : WorldServer) (e : GlobalEntity) (c : C) : res C :=
  match scope_exit_of s e with Persist => Ok (conn_pause e c) | Despawn => conn_despawn e c end.

(** [world_has] is [WorldRefType::has_entity], [now] the clock of the tick. *)
Definition apply_scope_for_user (world_has : E -> bool) (now : Z) (user_key : UserKey) (e : GlobalEntity) (s : WorldServer) : res WorldServer :=
  match user_of s user_key with
  | None => Ok s
  | Some user =>
  match conn_at s user.(data_addr) with
  | None => Ok s
  | Some c =>
  match GlobalEntityMap.GlobalMap_to_entity s.(global_entity_map) e with
  | None => Ok s
  | Some world_entity =>
  if negb (world_has world_entity) then Ok (push_change (ScopeToggled user_key e true) s)
  else if SW.entity_is_public_and_owned_by_user s.(global_world_manager) user_key e then Ok s
  else match SW.entity_owner s.(global_world_manager) e with
  | Some (OwnClient _) | Some (OwnClientWaiting _) => Ok s
  | _ =>
  let put c s := set_conn user.(data_addr) c s in
  let currently_in_scope := conn_has c e in
  if should_be_in_scope s user_key user e then
    if currently_in_scope then
      Ok (if conn_is_paused c e then put (conn_resume e c) s else s)
    else
      kinds ← unwrap (SW.component_kinds iter_k s.(global_world_manager) e);
      '(c, h) ← conn_host_init s.(global_world_manager).(SW.diff_handler) now e kinds (SW.entity_is_static s.(global_world_manager) e) (c, s.(heap));
      let s := set_heap h s in
      if negb (SW.entity_is_delegated s.(global_world_manager) e) then Ok (put c s)
      else
        c ← conn_send_enable_delegation false e c;
        if SW.entity_has_holder s.(global_world_manager) e then
          c ← conn_send_set_auth e (if SW.user_is_authority_holder s.(global_world_manager) user_key e then Granted else Denied) c;
          Ok (put c s)
        else Ok (put c s)
  else if currently_in_scope then
    c ← leave_scope s e c; Ok (put c s)
  else Ok s
  end end end end.

(** The loop over a room that a user left: entities it shares no other room with. *)
Definition left_room_step (addr : A) (user_rooms : gset RoomKey) (e : GlobalEntity) (s : WorldServer) : res WorldServer :=
  match conn_at s addr with
  | None => Ok s
  | Some c =>
      let shared := match entity_get_rooms s.(members).(entity_room_map) e with
                    | Some rooms => bool_decide (rooms ∩ user_rooms <> ∅)
                    | None => false
                    end in
      if (shared : bool) then Ok s
      else if negb (conn_has c e) then Ok s
      else c ← leave_scope s e c; Ok (set_conn addr c s)
  end.

Definition apply_change (world_has : E -> bool) (now : Z) (change : ScopeChange) (s : WorldServer) : res WorldServer :=
  match change with
  | UserEnteredRoom user_key room_key =>
      foldM (apply_scope_for_user world_has now user_key) (entities_iter iter_e s.(members).(room_store) room_key) s
  | UserLeftRoom user_key room_key =>
      match user_of s user_key with
      | None => Ok s
      | Some user =>
          match conn_at s user.(data_addr) with
          | None => Ok s
          | Some _ => foldM (left_room_step user.(data_addr) user.(rooms_cache)) (entities_iter iter_e s.(members).(room_store) room_key) s
          end
      end
  | EntityEnteredRoom e room_key =>
      foldM (fun user_key => apply_scope_for_user world_has now user_key e) (user_keys_iter iter_u s.(members).(room_store) room_key) s
  | ScopeToggled user_key e _ => apply_scope_for_user world_has now user_key e s
  end.

Definition drain_scope_change_queue (world_has : E -> bool) (now : Z) (s : WorldServer) : res WorldServer :=
  foldM (apply_change world_has now) s.(scope_change_queue) (set_queue [] s).

(** One entry of a room's removal queue. *)
Definition removal_step (x : UserKey * GlobalEntity) (s : WorldServer) : res WorldServer :=
  let '(removed_user, e) := x in
  match user_of s removed_user with
  | None => Ok s
  | Some user =>
      match conn_at s user.(data_addr) with
      | None => Ok s
      | Some c =>
          if in_common_room s user e then Ok s
          else if negb (conn_has c e) then Ok s
          else c ← conn_despawn e c; Ok (set_conn user.(data_addr) c s)
      end
  end.

(** The queue of a room, popped until it is empty. *)
Fixpoint drain_removals (fuel : nat) (room_key : RoomKey) (s : WorldServer) : res WorldServer :=
  match fuel with
  | O => Diverge
  | S fuel =>
      match BigMap_get room_key s.(members).(room_store) with
      | None => Ok s
      | Some room =>
          match pop_entity_removal_queue room with
          | (None, _) => Ok s
          | (Some x, room) =>
              let m := s.(members) in
              s ← removal_step x (set_members {| room_store := BigMap_set room_key room m.(room_store); user_store := m.(user_store);
                                                 entity_room_map := m.(entity_room_map); scope_checks_cache := m.(scope_checks_cache) |} s);
              drain_removals fuel room_key s
          end
      end
  end.

Definition removal_count (s : WorldServer) (room_key : RoomKey) : nat :=
  match BigMap_get room_key s.(members).(room_store) with Some room => length room.(entity_removal_queue) | None => O end.

(** [iter_rooms] is the order of the rooms. *)
Definition update_entity_scopes (iter_rooms : gmap RoomKey Room -> list RoomKey) (world_has : E -> bool) (now : Z) (s : WorldServer) : res WorldServer :=
  s ← foldM (fun room_key s => drain_removals (S (removal_count s room_key)) room_key s) (iter_rooms (bm_inner s.(members).(room_store))) s;
  drain_scope_change_queue world_has now s.

(** * Authority *)
Definition entity_take_authority (world_entity : E) (s : WorldServer) : res (auth_result unit * WorldServer) :=
  e ← global_of s world_entity;
  '(r, m) ← SW.server_take_authority e s.(global_world_manager);
  let s := set_manager m s in
  match r with
  | inr previous_owner => s ← send_take_authority_messages e previous_owner s; Ok (inr tt, push_event (AuthReset world_entity) s)
  | inl x => Ok (inl x, s)
  end.

Definition entity_give_authority (origin_user : UserKey) (world_entity : E) (s : WorldServer) : res (auth_result unit * WorldServer) :=
  e ← global_of s world_entity;
  in_scope ← user_scope_has_entity origin_user world_entity s;
  if negb in_scope then Ok (inl NotInScope, s)
  else
    '(r, m) ← SW.server_give_authority_to_client e origin_user s.(global_world_manager);
    let s := set_manager m s in
    match r with
    | inl x => Ok (inl x, s)
    | inr previous_owner =>
        if decide (previous_owner = ByClient origin_user) then Ok (inr tt, s)
        else s ← send_grant origin_user e s; Ok (inr tt, push_event (AuthGrant origin_user world_entity) s)
    end.

Definition entity_handle_client_request_authority (requester_user : UserKey) (world_entity : E) (s : WorldServer)
    : res (auth_result unit * WorldServer) :=
  e ← global_of s world_entity;
  in_scope ← user_scope_has_entity requester_user world_entity s;
  if negb in_scope then Ok (inl NotInScope, s)
  else
    '(r, m) ← SW.client_request_authority e (from_user_key (Some requester_user)) s.(global_world_manager);
    let s := set_manager m s in
    match r with
    | inl x => Ok (inl x, s)
    | inr _ => s ← send_grant requester_user e s; Ok (inr tt, push_event (AuthGrant requester_user world_entity) s)
    end.

Definition entity_release_authority (origin_user : option UserKey) (world_entity : E) (s : WorldServer) : res (auth_result unit * WorldServer) :=
  e ← global_of s world_entity;
  '(r, m) ← SW.client_release_authority e (from_user_key origin_user) s.(global_world_manager);
  let s := set_manager m s in
  match r with
  | inr _ => s ← send_reset_authority_messages e s; Ok (r, s)
  | inl _ => Ok (r, s)
  end.

Definition entity_authority_status (world_entity : E) (s : WorldServer) : res (option EntityAuthStatus) :=
  match GlobalEntityMap.GlobalMap_to_global s.(global_entity_map) world_entity with
  | Some e => SW.entity_authority_status s.(global_world_manager) e
  | None => Ok None
  end.

(** The release of everything a user is listed with, on disconnection ([user_disconnect]). *)
Definition release_owned_entities (user_key : UserKey) (s : WorldServer) : res WorldServer :=
  match SW.user_all_owned_entities s.(global_world_manager) user_key with
  | None => Ok s
  | Some entities =>
      foldM (fun e s => match GlobalEntityMap.GlobalMap_to_entity s.(global_entity_map) e with
                        | Some world_entity => '(_, s) ← entity_release_authority (Some user_key) world_entity s; Ok s
                        | None => Ok s
                        end) (iter_e entities) s
  end.

(** * Publication and delegation *)
Definition owner_conn (s : WorldServer) (user_key : UserKey) (f : C -> res C) : res WorldServer :=
  match conn_of s user_key with
  | Some (addr, c) => c' ← f c; Ok (set_conn addr c' s)
  | None => Ok s
  end.

Definition publish_entity (e : GlobalEntity) (world_entity : E) (server_origin : bool) (s : WorldServer) : res (bool * WorldServer) :=
  s ← (if server_origin then
         match SW.entity_owner s.(global_world_manager) e with
         | Some (OwnClient user_key) => owner_conn s user_key (conn_send_publish e)
         | _ => Panic
         end
       else Ok s);
  '(result, m) ← SW.entity_publish e s.(global_world_manager);
  let s := set_manager m s in
  if (result : bool) then
    let rooms := match entity_get_rooms s.(members).(entity_room_map) e with Some rooms => iter_r rooms | None => [] end in
    Ok (true, set_queue (s.(scope_change_queue) ++ map (EntityEnteredRoom e) rooms) (call_world (WPublish world_entity) s))
  else Ok (false, s).

Definition unpublish_entity (e : GlobalEntity) (world_entity : E) (server_origin : bool) (s : WorldServer) : res WorldServer :=
  let owner_addr :=
    match SW.entity_owner s.(global_world_manager) e with
    | Some (OwnClientPublic k) => data_addr <$> user_of s k
    | _ => None
    end in
  s ← (if server_origin then
         match owner_addr with
         | Some addr => match conn_at s addr with
                        | Some c => c' ← conn_send_unpublish e c; Ok (set_conn addr c' s)
                        | None => Ok s
                        end
         | None => Ok s
         end
       else Ok s);
  m ← SW.entity_unpublish e s.(global_world_manager);
  let s := call_world (WUnpublish world_entity) (set_manager m s) in
  let s := match SW.component_kinds iter_k s.(global_world_manager) e with
           | Some kinds => set_manager (foldl (fun m k => SW.remove_component_diff_handler e k m) s.(global_world_manager) kinds) s
           | None => s
           end in
  for_connections (fun addr c =>
    if decide (owner_addr = Some addr) then Ok c
    else if conn_has c e then conn_despawn e c else Ok c) s.

Definition enable_delegation_client_owned_entity (now : Z) (e : GlobalEntity) (world_entity : E) (client_key : UserKey) (s : WorldServer)
    : res WorldServer :=
  entity_owner ← unwrap (SW.entity_owner s.(global_world_manager) e);
  published ← match entity_owner with
              | OwnClient user_key =>
                  '(result, m) ← SW.entity_publish e s.(global_world_manager);
                  let s := set_manager m s in
                  if (result : bool) then Ok (inl (user_key, call_world (WPublish world_entity) s)) else Ok (inr s)
              | OwnClientPublic user_key => Ok (inl (user_key, s))
              | _ => Panic
              end;
  match published with
  | inr s => Ok s
  | inl (user_key, s) =>
      m ← SW.migrate_entity_to_server e s.(global_world_manager);
      let s := set_manager m s in
      let s := match ScopeMap_get s.(entity_scope_map) user_key e with
               | None => set_scopes (ScopeMap_insert user_key e true s.(entity_scope_map)) s
               | Some _ => s
               end in
      user ← unwrap (user_of s user_key);
      c ← unwrap (conn_at s user.(data_addr));
      c ← conn_migrate now e c;
      let s := set_conn user.(data_addr) c s in
      m ← SW.entity_enable_delegation e s.(global_world_manager);
      let s := call_world (WEnableDelegation world_entity) (set_manager m s) in
      if default false (ScopeMap_get s.(entity_scope_map) client_key e) then
        '(r, m) ← SW.client_request_authority e (from_user_key (Some client_key)) s.(global_world_manager);
        match r with
        | inl _ => Panic
        | inr _ => send_grant client_key e (set_manager m s)
        end
      else Ok s
  end.

Definition entity_enable_delegation (now : Z) (e : GlobalEntity) (world_entity : E) (client_origin : option UserKey) (s : WorldServer)
    : res WorldServer :=
  let from_client := bool_decide (is_Some client_origin) in
  s ← for_users_in_scope e (fun user_key c =>
        if decide (Some user_key = client_origin) then Ok c else conn_send_enable_delegation from_client e c) s;
  match client_origin with
  | Some client_key => enable_delegation_client_owned_entity now e world_entity client_key s
  | None => m ← SW.entity_enable_delegation e s.(global_world_manager);
            Ok (call_world (WEnableDelegation world_entity) (set_manager m s))
  end.

Definition entity_disable_delegation (e : GlobalEntity) (world_entity : E) (s : WorldServer) : res WorldServer :=
  s ← for_users_in_scope e (fun _ => conn_send_disable_delegation e) s;
  m ← SW.entity_disable_delegation e s.(global_world_manager);
  Ok (call_world (WDisableDelegation world_entity) (set_manager m s)).

Definition entity_owner (world_entity : E) (s : WorldServer) : res EntityOwner :=
  e ← global_of s world_entity; Ok (default OwnLocal (SW.entity_owner s.(global_world_manager) e)).

Definition enable_delegation (now : Z) (world_entity : E) (s : WorldServer) : res (bool * WorldServer) :=
  match GlobalEntityMap.GlobalMap_to_global s.(global_entity_map) world_entity with
  | None => Ok (false, s)
  | Some e =>
      o ← entity_owner world_entity s;
      if negb (owner_is_server o) then Ok (false, s)
      else s ← entity_enable_delegation now e world_entity None s; Ok (true, s)
  end.

Definition configure_entity_replication (now : Z) (world_entity : E) (config : ReplicationConfig) (s : WorldServer) : res WorldServer :=
  e ← global_of s world_entity;
  if negb (SW.has_entity s.(global_world_manager) e) then Panic
  else
    entity_owner ← unwrap (SW.entity_owner s.(global_world_manager) e);
    let server_owned := owner_is_server entity_owner in
    let client_owned := owner_is_client entity_owner in
    let client_origin := owner_user entity_owner in
    prev_config ← unwrap (SW.entity_replication_config s.(global_world_manager) e);
    if decide (prev_config = config) then Ok s
    else
      s ← (if decide (prev_config.(publicity) = config.(publicity)) then Ok s
           else match prev_config.(publicity) with
           | Private =>
               if server_owned then Panic
               else match config.(publicity) with
               | Private => Panic
               | Public => '(_, s) ← publish_entity e world_entity true s; Ok s
               | Delegated => '(_, s) ← publish_entity e world_entity true s; entity_enable_delegation now e world_entity client_origin s
               end
           | Public =>
               match config.(publicity) with
               | Private => if server_owned then Panic else unpublish_entity e world_entity true s
               | Public => Panic
               | Delegated => entity_enable_delegation now e world_entity client_origin s
               end
           | Delegated =>
               if client_owned then Panic
               else match config.(publicity) with
               | Private =>
                   if server_owned then Panic
                   else s ← entity_disable_delegation e world_entity s; unpublish_entity e world_entity true s
               | Public => entity_disable_delegation e world_entity s
               | Delegated => Panic
               end
           end);
      Ok (set_manager (SW.entity_set_scope_exit e config.(scope_exit) s.(global_world_manager)) s).

(** * Rooms *)
Definition create_room (s : WorldServer) : res (RoomKey * WorldServer) :=
  let m := s.(members) in
  '(room_key, rooms) ← BigMap_insert Room_new m.(room_store);
  Ok (room_key, set_members {| room_store := rooms; user_store := m.(user_store); entity_room_map := m.(entity_room_map);
                               scope_checks_cache := m.(scope_checks_cache) |} s).

Definition room_destroy (room_key : RoomKey) (s : WorldServer) : res (bool * WorldServer) :=
  '(b, m) ← RoomStore_destroy iter_u iter_e room_key s.(members); Ok (b, set_members m s).

Definition room_add_user (room_key : RoomKey) (user_key : UserKey) (s : WorldServer) : WorldServer :=
  let '(change, m) := RoomStore_add_user iter_e room_key user_key s.(global_entity_map) s.(members) in
  push_change change (set_members m s).

Definition room_remove_user (room_key : RoomKey) (user_key : UserKey) (s : WorldServer) : WorldServer :=
  let '(change, m) := RoomStore_remove_user iter_e room_key user_key s.(members) in
  push_change change (set_members m s).

Definition room_add_entity (room_key : RoomKey) (world_entity : E) (s : WorldServer) : res WorldServer :=
  '(change, m) ← RoomStore_add_entity iter_u room_key world_entity s.(global_entity_map) s.(members);
  let s := set_members m s in
  Ok (match change with Some change => push_change change s | None => s end).

Definition room_remove_entity (room_key : RoomKey) (world_entity : E) (s : WorldServer) : res WorldServer :=
  m ← RoomStore_remove_entity iter_u room_key world_entity s.(global_entity_map) s.(members); Ok (set_members m s).

(** * Users *)
Definition receive_user (user_key : UserKey) (user_addr : A) (s : WorldServer) : WorldServer :=
  let m := s.(members) in
  set_members {| room_store := m.(room_store);
                 user_store := register_disconnected user_addr user_key (UserStore_insert user_key (WorldUser_new user_addr) m.(user_store));
                 entity_room_map := m.(entity_room_map); scope_checks_cache := m.(scope_checks_cache) |} s.

(** [new_connection] is [Connection::new]; the resources go into the user's scope. *)
Definition finalize_connection (new_connection : Diffs -> Heap -> C * Heap) (iter_t : gmap TypeId GlobalEntity -> list GlobalEntity)
    (user_key : UserKey) (user_address : A) (s : WorldServer) : res WorldServer :=
  if negb (UserStore_contains s.(members).(user_store) user_key) then Ok s
  else
    let '(c, h) := new_connection s.(global_world_manager).(SW.diff_handler) s.(heap) in
    let s := set_heap h (set_conn user_address c s) in
    let resource_entities := omap (GlobalEntityMap.GlobalMap_to_entity s.(global_entity_map)) (iter_t s.(resource_registry).(by_type)) in
    s ← foldM (fun world_entity => user_scope_set_entity user_key world_entity true) resource_entities s;
    Ok (push_event (PushConnection user_key) s).

Definition user_delete (user_key : UserKey) (s : WorldServer) : res (WUser * WorldServer) :=
  let m := s.(members) in
  match UserStore_remove user_key m.(user_store) with
  | (None, _) => Panic
  | (Some user, us) =>
      let s := set_scopes (ScopeMap_remove_user iter_e user_key s.(entity_scope_map))
                 (set_conns (delete user.(data_addr) s.(user_connections)) s) in
      m ← leave_rooms iter_e iter_r user_key user {| room_store := m.(room_store); user_store := us; entity_room_map := m.(entity_room_map);
                                                     scope_checks_cache := m.(scope_checks_cache) |};
      Ok (user, set_members m s)
  end.

(** * Entities *)
Definition spawn_entity_inner (world_entity : E) (s : WorldServer) : res WorldServer :=
  '(e, g) ← GlobalEntityMap.GlobalMap_spawn world_entity None s.(global_entity_map);
  m ← SW.insert_entity_record e OwnServer s.(global_world_manager);
  Ok (set_manager m (set_entities g s)).

Definition spawn_static_entity_inner (world_entity : E) (s : WorldServer) : res WorldServer :=
  '(e, g) ← GlobalEntityMap.GlobalMap_spawn world_entity None s.(global_entity_map);
  m ← SW.insert_static_entity_record e OwnServer s.(global_world_manager);
  Ok (set_manager m (set_entities g s)).

Definition despawn_entity_from_all_connections (e : GlobalEntity) (s : WorldServer) : res WorldServer :=
  for_connections (fun _ c => if conn_has c e then conn_despawn e c else Ok c) s.

Definition cleanup_entity_replication (e : GlobalEntity) (s : WorldServer) : res WorldServer :=
  s ← despawn_entity_from_all_connections e s;
  let s := set_scopes (ScopeMap_remove_entity iter_u e s.(entity_scope_map)) s in
  m ← leave_all_rooms iter_u iter_r e s.(members);
  let s := set_members m s in
  Ok (set_manager (SW.remove_entity_diff_handlers iter_k e s.(global_world_manager)) s).

Definition despawn_entity_worldless (world_entity : E) (s : WorldServer) : res WorldServer :=
  e ← global_of s world_entity;
  if negb (SW.has_entity s.(global_world_manager) e) then Ok s
  else
    let m := s.(members) in
    let s := set_members {| room_store := m.(room_store); user_store := m.(user_store); entity_room_map := m.(entity_room_map);
                            scope_checks_cache := on_entity_despawned world_entity m.(scope_checks_cache) |} s in
    s ← cleanup_entity_replication e s;
    mg ← SW.remove_entity_record e s.(global_world_manager);
    g ← GlobalEntityMap.despawn_by_global e s.(global_entity_map);
    Ok (set_entities g (set_manager mg s)).

(** ** Components *)
Definition insert_new_component_into_entity_scopes (now : Z) (e : GlobalEntity) (kind : ComponentKind) (excluding_user_opt : option UserKey)
    (s : WorldServer) : res WorldServer :=
  let excluding_addr_opt := user_key ← excluding_user_opt; data_addr <$> user_of s user_key in
  '(conns, h) ← foldM (fun addr '(conns, h) =>
      match (conns : gmap A C) !! addr with
      | None => Ok (conns, h)
      | Some c =>
          if decide (excluding_addr_opt = Some addr) then Ok (conns, h)
          else if negb (conn_has c e) then Ok (conns, h)
          else '(c, h) ← conn_insert_component s.(global_world_manager).(SW.diff_handler) now e kind (c, h); Ok (<[addr := c]> conns, h)
      end) (iter_cs s.(user_connections)) (s.(user_connections), s.(heap));
  Ok (set_heap h (set_conns conns s)).

(** The component is known by its kind, whether it is immutable and the size of its mask; the
    result is the mutator and the accessor it is given. *)
Definition insert_component_worldless (ks : Kinds ComponentKind B) (now : Z) (world_entity : E) (kind : ComponentKind) (immutable : bool)
    (diff_mask_size : Z) (s : WorldServer) : res (option nat * option nat * WorldServer) :=
  e ← global_of s world_entity;
  if SW.has_component_record s.(global_world_manager) e kind then Ok (None, None, s)
  else
    s ← insert_new_component_into_entity_scopes now e kind None s;
    m ← SW.insert_component_record e kind s.(global_world_manager);
    '(mutator, m, h) ← SW.insert_component_diff_handler ks e immutable kind diff_mask_size m s.(heap);
    let s := set_heap h (set_manager m s) in
    if SW.entity_is_delegated s.(global_world_manager) e
    then accessor ← SW.get_entity_auth_accessor s.(global_world_manager) e; Ok (mutator, Some accessor, s)
    else Ok (mutator, None, s).

Definition remove_component_from_all_connections (e : GlobalEntity) (kind : ComponentKind) (s : WorldServer) : res WorldServer :=
  for_connections (fun _ c => if conn_has c e then conn_remove_component e kind c else Ok c) s.

Definition remove_component_worldless (world_entity : E) (kind : ComponentKind) (s : WorldServer) : res WorldServer :=
  e ← global_of s world_entity;
  s ← remove_component_from_all_connections e kind s;
  m ← SW.remove_component_record e kind s.(global_world_manager);
  Ok (set_manager (SW.remove_component_diff_handler e kind m) s).

Definition set_entity_replicating (f : GlobalEntity -> Manager -> Manager) (world_entity : E) (s : WorldServer) : WorldServer :=
  match GlobalEntityMap.GlobalMap_to_global s.(global_entity_map) world_entity with
  | Some e => set_manager (f e s.(global_world_manager)) s
  | None => s
  end.
Definition pause_entity_replication (world_entity : E) (s : WorldServer) : WorldServer :=
  set_entity_replicating SW.pause_entity_replication world_entity s.
Definition resume_entity_replication (world_entity : E) (s : WorldServer) : WorldServer :=
  set_entity_replicating SW.resume_entity_replication world_entity s.
End Server.
