(* ===== verification/ServerAuthority.v ===== *)
(** What the clients are told about who may change an entity: after every change of the holder
    each connection that has the entity in scope carries the status its client is to see, and
    where the fan-out would repeat a status the connection panics. *)

From Stdlib Require Import ZArith Lia.
From stdpp Require Import base numbers option list gmap sets.
From S2P Require Import Prelude EntityTypes SyncEngine DiffHandlers EntityMaps Waitlist Authority Rooms ServerConn Resources ServerWorld WorldServer.

(** The status a client is to see. *)
Definition view (o : AuthOwner) (u : UserKey) : EntityAuthStatus :=
  match o with
  | ByNone => Available
  | ByServer => Denied
  | ByClient holder => if decide (holder = u) then Granted else Denied
  end.

Section Fanout.
Context {E A C : Type} {eqE : EqDecision E} {cE : Countable E} {eqA : EqDecision A} {cA : Countable A}.
Abbreviation Heap := (@Store A eqA cA).
Abbreviation Diffs := (@GlobalDiffHandler GlobalEntity ComponentKind _ _ _ _).
Context {conn : WorldConn C Heap Diffs} {laws : ConnLaws C Heap Diffs}.
Abbreviation WUser := (@WorldUser A).
Abbreviation Server := (@WorldServer E A C eqE cE eqA cA).
Context (iter_us : gmap UserKey WUser -> list (UserKey * WUser)) (Hus : forall m, iter_us m ≡ₚ map_to_list m).

(** ** The loop over the users *)
Lemma fold_scope e f (R : UserKey -> C -> C -> Prop) l conns :
  NoDup (map (fun x : UserKey * WUser => x.2.(data_addr)) l) ->
  (forall x c, x ∈ l -> conns !! x.2.(data_addr) = Some c -> conn_has c e = true -> exists c', f x.1 c = Ok c' /\ R x.1 c c') ->
  exists conns', foldM (in_scope_step e f) l conns = Ok conns' /\
    (forall a, a ∉ map (fun x : UserKey * WUser => x.2.(data_addr)) l -> conns' !! a = conns !! a) /\
    (forall x, x ∈ l -> match conns !! x.2.(data_addr) with
                        | None => conns' !! x.2.(data_addr) = None
                        | Some c => if conn_has c e then exists c', conns' !! x.2.(data_addr) = Some c' /\ R x.1 c c'
                                    else conns' !! x.2.(data_addr) = Some c
                        end).
Proof using Type.
  revert conns; induction l as [|x l IH]; intros conns Hnd Hf; cbn [foldM].
  - exists conns. split; [reflexivity|]. split; [reflexivity|]. intros x Hx. now apply elem_of_nil in Hx.
  - cbn [map] in Hnd. apply NoDup_cons in Hnd as [Hx Hnd].
    assert (exists conns1, in_scope_step e f x conns = Ok conns1 /\ (forall a, a <> x.2.(data_addr) -> conns1 !! a = conns !! a) /\
      match conns !! x.2.(data_addr) with
      | None => conns1 !! x.2.(data_addr) = None
      | Some c => if conn_has c e then exists c', conns1 !! x.2.(data_addr) = Some c' /\ R x.1 c c' else conns1 !! x.2.(data_addr) = Some c
      end) as (conns1 & -> & Hsame & Hx1).
    { unfold in_scope_step. destruct (conns !! data_addr x.2) as [c|] eqn:Hc; [|exists conns; now rewrite Hc].
      destruct (conn_has c e) eqn:Hh; [|exists conns; now rewrite Hc].
      destruct (Hf x c) as (c' & -> & HR); [now left|exact Hc|exact Hh|]. rewrite bind_ok. eexists. split; [reflexivity|].
      split; [intros a Ha; now rewrite lookup_insert_ne by congruence|]. exists c'. now rewrite lookup_insert_eq. }
    rewrite bind_ok.
    assert (forall y, y ∈ l -> conns1 !! y.2.(data_addr) = conns !! y.2.(data_addr)) as Hl.
    { intros y Hy. apply Hsame. intros Heq. apply Hx. rewrite <- Heq. apply list_elem_of_fmap. eauto. }
    destruct (IH conns1 Hnd) as (conns' & -> & Hout & Hin).
    { intros y c Hy Hc Hh. rewrite Hl in Hc by exact Hy. apply Hf; [now right|exact Hc|exact Hh]. }
    exists conns'. split; [reflexivity|]. split.
    + intros a Ha. cbn [map] in Ha. apply not_elem_of_cons in Ha as [Hax Ha]. rewrite Hout by exact Ha. auto.
    + intros y [->|Hy]%elem_of_cons.
      * rewrite Hout by exact Hx. exact Hx1.
      * specialize (Hin y Hy). now rewrite Hl in Hin.
Qed.

Definition addresses_differ (s : Server) : Prop := forall u1 u2 x1 x2,
  s.(members).(user_store).(store_users) !! u1 = Some x1 -> s.(members).(user_store).(store_users) !! u2 = Some x2 ->
  x1.(data_addr) = x2.(data_addr) -> u1 = u2.

Lemma iter_addresses (s : Server) : addresses_differ s ->
  NoDup (map (fun x : UserKey * WUser => x.2.(data_addr)) (iter_us s.(members).(user_store).(store_users))).
Proof using Hus.
  intros Hd. rewrite (Hus (store_users (user_store (members s)))).
  assert (forall l : list (UserKey * WUser), NoDup (map fst l) -> (forall x y, x ∈ l -> y ∈ l -> x.2.(data_addr) = y.2.(data_addr) -> x.1 = y.1) ->
    NoDup (map (fun x => x.2.(data_addr)) l)) as Hgen.
  { induction l as [|x l IH]; intros Hnd Hinj; cbn [map] in *; [constructor|]. apply NoDup_cons in Hnd as [Hx Hnd]. apply NoDup_cons. split.
    - intros (y & Hy & Hyl)%list_elem_of_fmap. apply Hx. apply list_elem_of_fmap. exists y. split; [|exact Hyl]. apply Hinj; [now left|now right|exact Hy].
    - apply IH; [exact Hnd|]. intros y z Hy Hz. apply Hinj; now right. }
  apply Hgen; [apply NoDup_fst_map_to_list|]. intros [u1 x1] [u2 x2] H1%elem_of_map_to_list H2%elem_of_map_to_list Heq. eauto.
Qed.

Lemma iter_users (s : Server) u user : (u, user) ∈ iter_us s.(members).(user_store).(store_users) <-> user_of s u = Some user.
Proof using Hus. rewrite (Hus (store_users (user_store (members s)))). apply elem_of_map_to_list. Qed.

(** ** Statuses on the connections *)
Record told (s : Server) (e : GlobalEntity) (o : AuthOwner) : Prop := {
  told_addresses : addresses_differ s;
  told_status : forall u user c, user_of s u = Some user -> conn_at s user.(data_addr) = Some c ->
    conn_ok c /\ (conn_has c e = true -> conn_auth c e = Some (view o u))
}.

Lemma fan_out_ok e (g : UserKey -> EntityAuthStatus) (s : Server) :
  addresses_differ s ->
  (forall u user c, user_of s u = Some user -> conn_at s user.(data_addr) = Some c -> conn_ok c /\
     (conn_has c e = true -> exists st, conn_auth c e = Some st /\ valid_auth_transition st (g u) = true)) ->
  exists conns', for_users_in_scope iter_us e (fun u => conn_send_set_auth e (g u)) s = Ok (set_conns conns' s) /\
    forall u user c', user_of s u = Some user -> conns' !! user.(data_addr) = Some c' ->
      conn_ok c' /\ (conn_has c' e = true -> conn_auth c' e = Some (g u)).
Proof using Hus.
  intros Hd Hs. unfold for_users_in_scope.
  destruct (fold_scope e (fun u => conn_send_set_auth e (g u)) (fun u c c' => conn_ok c' /\ conn_auth c' e = Some (g u))
    (iter_us (store_users (user_store (members s)))) (user_connections s)) as (conns' & -> & _ & Hin).
  { now apply iter_addresses. }
  { intros [u user] c Hx Hc Hh. apply iter_users in Hx. cbn in *. destruct (Hs u user c Hx Hc) as [Hok Hst].
    destruct (Hst Hh) as (st & Hst' & Hv). destruct (conn_set_auth_law e st (g u) c Hok Hst' Hv) as (c' & Hc' & Hok' & _ & _ & Ha & _).
    exists c'. split; [exact Hc'|]. split; [exact Hok'|]. rewrite Ha. now rewrite decide_True. }
  exists conns'. split; [reflexivity|]. intros u user c' Hu Hc'.
  specialize (Hin (u, user) (proj2 (iter_users s u user) Hu)). cbn in Hin.
  destruct (user_connections s !! data_addr user) as [c|] eqn:Hc; [|congruence]. destruct (conn_has c e) eqn:Hh.
  - destruct Hin as (c2 & Hc2 & Hok & Ha). rewrite Hc2 in Hc'. injection Hc' as <-. auto.
  - rewrite Hin in Hc'. injection Hc' as <-. destruct (Hs u user c Hu Hc) as [Hok _]. split; [exact Hok|congruence].
Qed.

(** A step that panics makes the whole loop panic, in whatever order the users come. *)
Lemma fold_scope_panic e f l conns x c :
  (forall y c, y ∈ l -> conns !! y.2.(data_addr) = Some c -> conn_has c e = true -> f y.1 c = Panic \/ exists c', f y.1 c = Ok c') ->
  NoDup (map (fun x : UserKey * WUser => x.2.(data_addr)) l) -> x ∈ l -> conns !! x.2.(data_addr) = Some c -> conn_has c e = true ->
  f x.1 c = Panic -> foldM (in_scope_step e f) l conns = Panic.
Proof using Type.
  revert conns; induction l as [|y l IH]; intros conns Hdec Hnd Hx Hc Hh Hp; [now apply elem_of_nil in Hx|]. cbn [foldM map] in *.
  apply NoDup_cons in Hnd as [Hy Hnd]. apply elem_of_cons in Hx as [->|Hx].
  - assert (in_scope_step e f y conns = Panic) as -> by (unfold in_scope_step; now rewrite Hc, Hh, Hp). reflexivity.
  - assert (forall z, z ∈ l -> data_addr z.2 <> data_addr y.2) as Ha.
    { intros z Hz Heq. apply Hy. rewrite <- Heq. apply list_elem_of_fmap. eauto. }
    assert (forall conns1, (forall a, a <> data_addr y.2 -> conns1 !! a = conns !! a) -> foldM (in_scope_step e f) l conns1 = Panic) as Hrest.
    { intros conns1 Hsame. apply (IH conns1); auto.
      - intros z c' Hz Hc' Hh'. rewrite Hsame in Hc' by auto. apply Hdec; [now right|exact Hc'|exact Hh'].
      - now rewrite Hsame by auto. }
    assert (in_scope_step e f y conns = Panic \/ exists conns1, in_scope_step e f y conns = Ok conns1 /\ forall a, a <> data_addr y.2 -> conns1 !! a = conns !! a)
      as [->|(conns1 & -> & Hsame)]; [|reflexivity|rewrite bind_ok; now apply Hrest].
    unfold in_scope_step. destruct (conns !! data_addr y.2) as [cy|] eqn:Hcy; [|right; eauto].
    destruct (conn_has cy e) eqn:Hhy; [|right; eauto]. destruct (Hdec y cy) as [->|[c' ->]]; [now left|exact Hcy|exact Hhy|now left|].
    right. eexists. split; [reflexivity|]. intros a Hay. now rewrite lookup_insert_ne by congruence.
Qed.

Lemma fan_out_panic e (g : UserKey -> EntityAuthStatus) (s : Server) o u user c :
  told s e o -> user_of s u = Some user -> conn_at s user.(data_addr) = Some c -> conn_has c e = true ->
  valid_auth_transition (view o u) (g u) = false ->
  for_users_in_scope iter_us e (fun u => conn_send_set_auth e (g u)) s = Panic.
Proof using Hus.
  intros Ht Hu Hc Hh Hv. unfold for_users_in_scope.
  rewrite (fold_scope_panic e _ _ _ (u, user) c); [reflexivity| | | |exact Hc|exact Hh|].
  - intros [u' user'] c' Hx Hc' Hh'. apply iter_users in Hx. cbn in *. destruct (told_status _ _ _ Ht u' user' c' Hx Hc') as [Hok Hst].
    destruct (valid_auth_transition (view o u') (g u')) eqn:Hv'.
    + right. destruct (conn_set_auth_law e _ _ c' Hok (Hst Hh') Hv') as (c2 & Hc2 & _). eauto.
    + left. now apply (conn_set_auth_panic e (view o u')); [apply Hst|].
  - apply iter_addresses, Ht.
  - now apply iter_users.
  - cbn. apply (conn_set_auth_panic e (view o u)); [|exact Hv]. now apply (told_status _ _ _ Ht u user c).
Qed.

(** ** The operations *)

(** The registry of the server and the connections agree on the holder of a delegated entity. *)
Record authority (s : Server) (e : GlobalEntity) (o : AuthOwner) : Prop := {
  au_ok : ServerAuth.auth_ok s.(global_world_manager).(SW.auth_handler);
  au_delegated : SW.entity_is_delegated s.(global_world_manager) e = true;
  au_held : ServerAuth.held s.(global_world_manager).(SW.auth_handler) e = Some o;
  au_told : told s e o
}.

Lemma authority_set s e o conns h :
  addresses_differ s -> SW.entity_is_delegated s.(global_world_manager) e = true ->
  ServerAuth.auth_ok h -> ServerAuth.held h e = Some o ->
  (forall u user c, user_of s u = Some user -> conns !! user.(data_addr) = Some c ->
     conn_ok c /\ (conn_has c e = true -> conn_auth c e = Some (view o u))) ->
  authority (set_conns conns (set_manager (SW.set_auth s.(global_world_manager) h) s)) e o.
Proof using Type. intros Ha Hd Hok Hh Hc. split; [exact Hok|exact Hd|exact Hh|]. now split. Qed.

Lemma told_next s e o g : told s e o -> (forall u, valid_auth_transition (view o u) (g u) = true) ->
  forall u user c, user_of s u = Some user -> conn_at s user.(data_addr) = Some c -> conn_ok c /\
     (conn_has c e = true -> exists st, conn_auth c e = Some st /\ valid_auth_transition st (g u) = true).
Proof using Type.
  intros Ht Hg u user c Hu Hc. destruct (told_status _ _ _ Ht u user c Hu Hc) as [Hok Hst]. split; [exact Hok|]. intros Hh. eauto.
Qed.

(** Telling every client in scope the status of the new holder. *)
Lemma tell_all s e o o' h g : authority s e o -> ServerAuth.holds_now e (Some o') s.(global_world_manager).(SW.auth_handler) h ->
  (forall u, g u = view o' u) -> (forall u, valid_auth_transition (view o u) (view o' u) = true) ->
  exists s', for_users_in_scope iter_us e (fun u => conn_send_set_auth e (g u)) (set_manager (SW.set_auth s.(global_world_manager) h) s) = Ok s' /\
    authority s' e o' /\ s'.(global_entity_map) = s.(global_entity_map).
Proof using Hus.
  intros [Hok Hd Hh Ht] [Hok' Hh'] Hg Hv.
  destruct (fan_out_ok e g (set_manager (SW.set_auth (global_world_manager s) h) s)) as (conns & -> & Hc).
  { apply Ht. }
  { apply (told_next s e o g Ht). intros u. rewrite Hg. apply Hv. }
  eexists. split; [reflexivity|]. split; [|reflexivity]. apply authority_set; [apply Ht|exact Hd|exact Hok'| |].
  - rewrite Hh'. now rewrite decide_True.
  - intros u user c Hu Hcu. destruct (Hc u user c Hu Hcu) as [Hcok Hst]. rewrite <- Hg. auto.
Qed.

Lemma if_delegated_ok {T} s e (f : ServerAuth.ServerAuthHandler -> res (auth_result T * ServerAuth.ServerAuthHandler)) r h :
  SW.entity_is_delegated (global_world_manager (s : Server)) e = true -> f (SW.auth_handler (global_world_manager s)) = Ok (r, h) ->
  SW.if_delegated e f (global_world_manager s) = Ok (r, SW.set_auth (global_world_manager s) h).
Proof using Type. intros Hd Hf. unfold SW.if_delegated. now rewrite Hd, Hf. Qed.

Lemma authority_event s e o ev : authority s e o -> authority (push_event ev s) e o.
Proof using Type. intros [H1 H2 H3 [Ha Hs]]. split; [exact H1|exact H2|exact H3|]. split; [exact Ha|exact Hs]. Qed.

Lemma valid_from_none o u : o <> ByNone -> valid_auth_transition (view ByNone u) (view o u) = true.
Proof using Type. destruct o as [| |h]; cbn; [congruence|reflexivity|]. now case_decide. Qed.

Lemma valid_to_none o u : o <> ByNone -> valid_auth_transition (view o u) (view ByNone u) = true.
Proof using Type. destruct o as [| |h]; cbn; [congruence|reflexivity|]. now case_decide. Qed.

Lemma request_grants s w e u :
  authority s e ByNone -> global_of s w = Ok e -> user_scope_has_entity u w s = Ok true ->
  exists s', entity_handle_client_request_authority iter_us u w s = Ok (inr tt, s') /\ authority s' e (ByClient u).
Proof using Hus.
  intros Ha Hw Hs. unfold entity_handle_client_request_authority. rewrite Hw, bind_ok, Hs, bind_ok. cbn [negb].
  destruct (ServerAuth.request_returns e (ByClient u) _ (au_ok _ _ _ Ha) (au_held _ _ _ Ha)) as (h & Hr & Hn).
  unfold SW.client_request_authority. cbn [from_user_key]. rewrite (if_delegated_ok s e _ _ _ (au_delegated _ _ _ Ha) Hr), bind_ok.
  destruct (tell_all s e ByNone (ByClient u) h (fun k => if decide (u = k) then Granted else Denied) Ha Hn) as (s' & Ht & Ha' & _);
    [reflexivity|intros k; now apply valid_from_none|].
  unfold send_grant. rewrite Ht, bind_ok. eexists. split; [reflexivity|]. now apply authority_event.
Qed.

Lemma release_resets s w e o releaser :
  authority s e o -> o <> ByNone -> global_of s w = Ok e -> (from_user_key releaser = o \/ releaser = None) ->
  exists s', entity_release_authority iter_us releaser w s = Ok (inr tt, s') /\ authority s' e ByNone.
Proof using Hus.
  intros Ha Ho Hw Hrel. unfold entity_release_authority. rewrite Hw, bind_ok.
  destruct (ServerAuth.release_returns e (from_user_key releaser) _ (au_ok _ _ _ Ha)) as (h & Hr & Hn).
  { destruct Hrel as [->| ->]; [left; apply Ha|right]. split; [reflexivity|]. rewrite (au_held _ _ _ Ha). eauto. }
  unfold SW.client_release_authority. rewrite (if_delegated_ok s e _ _ _ (au_delegated _ _ _ Ha) Hr), bind_ok.
  destruct (tell_all s e o ByNone h (fun _ => Available) Ha Hn) as (s' & Ht & Ha' & _); [reflexivity|intros k; now apply valid_to_none|].
  unfold send_reset_authority_messages. rewrite Ht, bind_ok. eauto.
Qed.

Lemma give_free s w e u :
  authority s e ByNone -> global_of s w = Ok e -> user_scope_has_entity u w s = Ok true ->
  exists s', entity_give_authority iter_us u w s = Ok (inr tt, s') /\ authority s' e (ByClient u).
Proof using Hus.
  intros Ha Hw Hs. unfold entity_give_authority. rewrite Hw, bind_ok, Hs, bind_ok. cbn [negb].
  destruct (ServerAuth.give_returns e u ByNone _ (au_ok _ _ _ Ha) (au_held _ _ _ Ha)) as (h & Hr & Hn).
  unfold SW.server_give_authority_to_client. rewrite (if_delegated_ok s e _ _ _ (au_delegated _ _ _ Ha) Hr), bind_ok.
  rewrite decide_False by discriminate.
  destruct (tell_all s e ByNone (ByClient u) h (fun k => if decide (u = k) then Granted else Denied) Ha Hn) as (s' & Ht & Ha' & _);
    [reflexivity|intros k; now apply valid_from_none|].
  unfold send_grant. rewrite Ht, bind_ok. eexists. split; [reflexivity|]. now apply authority_event.
Qed.

(** Taking authority from a client tells that client only: everyone else was denied already. *)
Lemma take_denies s w e o :
  authority s e o -> global_of s w = Ok e ->
  exists s', entity_take_authority iter_us w s = Ok (inr tt, s') /\ authority s' e ByServer.
Proof using Hus.
  intros Ha Hw. unfold entity_take_authority. rewrite Hw, bind_ok.
  destruct (ServerAuth.take_returns e o _ (au_ok _ _ _ Ha) (au_held _ _ _ Ha)) as (h & Hr & Hok & Hh).
  unfold SW.server_take_authority. rewrite (if_delegated_ok s e _ _ _ (au_delegated _ _ _ Ha) Hr), bind_ok.
  set (s1 := set_manager (SW.set_auth (global_world_manager s) h) s).
  enough (exists s', send_take_authority_messages iter_us e o s1 = Ok s' /\ authority s' e ByServer) as (s' & -> & Ha').
  { rewrite bind_ok. eexists. split; [reflexivity|]. now apply authority_event. }
  assert (ServerAuth.held h e = Some ByServer) as Hnow by (rewrite Hh; now rewrite decide_True).
  pose proof (au_told _ _ _ Ha) as Ht.
  destruct o as [| |holder]; cbn [send_take_authority_messages].
  - destruct (tell_all s e ByNone ByServer h (fun _ => Denied) Ha (conj Hok Hh)) as (s' & Hs' & Ha' & _); [reflexivity..|]. eauto.
  - exists s1. split; [reflexivity|]. split; [exact Hok|apply Ha|exact Hnow|]. split; apply Ht.
  - destruct (conn_of s1 holder) as [[addr c]|] eqn:Hc.
    + unfold conn_of in Hc. destruct (user_of s1 holder) as [user|] eqn:Hu; [|discriminate]. cbn in Hc.
      destruct (conn_at s1 (data_addr user)) as [c0|] eqn:Hca; [|discriminate]. injection Hc as <- ->.
      destruct (told_status _ _ _ Ht holder user c Hu Hca) as [Hcok Hst]. destruct (conn_has c e) eqn:Hhas.
      * assert (valid_auth_transition (view (ByClient holder) holder) Denied = true) as Hv by (cbn; now rewrite decide_True).
        destruct (conn_set_auth_law e _ Denied c Hcok (Hst eq_refl) Hv) as (c' & -> & Hok' & _ & _ & Hau & _). rewrite bind_ok.
        eexists. split; [reflexivity|]. split; [exact Hok|apply Ha|exact Hnow|]. split; [apply Ht|].
        intros u user' c2 Hu' Hc2. change (user_of s u = Some user') in Hu'. unfold conn_at in Hc2. cbn in Hc2. rewrite lookup_insert in Hc2.
        case_decide as Haddr.
        -- injection Hc2 as <-. split; [exact Hok'|]. intros _. rewrite Hau. now rewrite decide_True.
        -- destruct (told_status _ _ _ Ht u user' c2 Hu' Hc2) as [? Hst2]. split; [assumption|]. intros Hh2. rewrite (Hst2 Hh2). cbn.
           rewrite decide_False; [reflexivity|]. intros ->. apply Haddr. change (user_of s u = Some user) in Hu. congruence.
      * eexists. split; [reflexivity|]. split; [exact Hok|apply Ha|exact Hnow|]. split; [apply Ht|].
        intros u user' c2 Hu' Hc2. change (user_of s u = Some user') in Hu'. destruct (told_status _ _ _ Ht u user' c2 Hu' Hc2) as [? Hst2].
        split; [assumption|]. intros Hh2. rewrite (Hst2 Hh2). cbn. rewrite decide_False; [reflexivity|]. intros ->.
        change (user_of s u = Some user) in Hu. assert (user' = user) as -> by congruence.
        change (conn_at s1 (data_addr user)) with (conn_at s (data_addr user)) in Hca. change (conn_at s (data_addr user) = Some c2) in Hc2. congruence.
    + eexists. split; [reflexivity|]. split; [exact Hok|apply Ha|exact Hnow|]. split; [apply Ht|].
      intros u user' c2 Hu' Hc2. change (user_of s u = Some user') in Hu'. destruct (told_status _ _ _ Ht u user' c2 Hu' Hc2) as [? Hst2].
      split; [assumption|]. intros Hh2. rewrite (Hst2 Hh2). cbn. rewrite decide_False; [reflexivity|]. intros ->.
      unfold conn_of in Hc. change (user_of s1 u) with (user_of s u) in Hc. rewrite Hu' in Hc. cbn in Hc.
      change (conn_at s1 (data_addr user') = Some c2) in Hc2. rewrite Hc2 in Hc. discriminate.
Qed.
(** Refused operations change nothing. *)
Lemma authority_same s e o : authority s e o -> authority (set_manager (SW.set_auth s.(global_world_manager) s.(global_world_manager).(SW.auth_handler)) s) e o.
Proof using Type. intros [H1 H2 H3 [Ha Hs]]. split; [exact H1|exact H2|exact H3|]. now split. Qed.

Lemma request_refused s w e o u : authority s e o -> o <> ByNone -> global_of s w = Ok e -> user_scope_has_entity u w s = Ok true ->
  exists s', entity_handle_client_request_authority iter_us u w s = Ok (inl NotAvailable, s') /\ authority s' e o.
Proof using Type.
  intros Ha Ho Hw Hs. unfold entity_handle_client_request_authority. rewrite Hw, bind_ok, Hs, bind_ok. cbn [negb]. unfold SW.client_request_authority.
  rewrite (if_delegated_ok s e _ (inl NotAvailable) (SW.auth_handler (global_world_manager s)) (au_delegated _ _ _ Ha)), bind_ok.
  - eexists. split; [reflexivity|now apply authority_same].
  - pose proof (au_held _ _ _ Ha) as Hh. unfold ServerAuth.held in Hh. unfold ServerAuth.client_request_authority. rewrite Hh. now rewrite decide_False.
Qed.

Lemma release_refused s w e o u : authority s e o -> o <> ByClient u -> global_of s w = Ok e ->
  exists s', entity_release_authority iter_us (Some u) w s = Ok (inl NotHolder, s') /\ authority s' e o.
Proof using Type.
  intros Ha Ho Hw. unfold entity_release_authority. rewrite Hw, bind_ok. unfold SW.client_release_authority.
  rewrite (if_delegated_ok s e _ (inl NotHolder) (SW.auth_handler (global_world_manager s)) (au_delegated _ _ _ Ha)), bind_ok.
  - eexists. split; [reflexivity|now apply authority_same].
  - pose proof (au_held _ _ _ Ha) as Hh. unfold ServerAuth.held in Hh. unfold ServerAuth.client_release_authority. rewrite Hh. cbn [from_user_key].
    rewrite !bool_decide_false by congruence. reflexivity.
Qed.

Lemma give_again s w e u : authority s e (ByClient u) -> global_of s w = Ok e -> user_scope_has_entity u w s = Ok true ->
  exists s', entity_give_authority iter_us u w s = Ok (inr tt, s') /\ authority s' e (ByClient u).
Proof using Type.
  intros Ha Hw Hs. unfold entity_give_authority. rewrite Hw, bind_ok, Hs, bind_ok. cbn [negb]. unfold SW.server_give_authority_to_client.
  rewrite (if_delegated_ok s e _ (inr (ByClient u)) (SW.auth_handler (global_world_manager s)) (au_delegated _ _ _ Ha)), bind_ok.
  - rewrite decide_True by reflexivity. eexists. split; [reflexivity|now apply authority_same].
  - pose proof (au_held _ _ _ Ha) as Hh. unfold ServerAuth.held in Hh. unfold ServerAuth.server_give_authority_to_client. rewrite Hh. now rewrite decide_True.
Qed.
End Fanout.


(** Giving a held entity to another client panics as soon as a third client has it in scope: the
    loop tells everyone but the new holder Denied, and a connection does not accept Denied twice. *)
Theorem give_authority_panics {E A C} {eqE : EqDecision E} {cE : Countable E} {eqA : EqDecision A} {cA : Countable A}
    {conn : WorldConn C (@Store A eqA cA) (@GlobalDiffHandler GlobalEntity ComponentKind _ _ _ _)}
    {laws : ConnLaws C (@Store A eqA cA) (@GlobalDiffHandler GlobalEntity ComponentKind _ _ _ _)}
    iter_us (Hus : forall m, iter_us m ≡ₚ map_to_list m) (s : @WorldServer E A C eqE cE eqA cA) w e o u u' user c :
  authority s e o -> o <> ByNone -> o <> ByClient u -> global_of s w = Ok e -> user_scope_has_entity u w s = Ok true ->
  u' <> u -> o <> ByClient u' -> user_of s u' = Some user -> conn_at s user.(data_addr) = Some c -> conn_has c e = true ->
  entity_give_authority iter_us u w s = Panic.
Proof.
  intros Ha Ho Hou Hw Hs Hne Ho' Hu Hc Hh. unfold entity_give_authority. rewrite Hw, bind_ok, Hs, bind_ok. cbn [negb].
  destruct (ServerAuth.give_returns e u o _ (au_ok _ _ _ Ha) (au_held _ _ _ Ha)) as (h & Hr & Hn).
  unfold SW.server_give_authority_to_client. rewrite (if_delegated_ok s e _ _ _ (au_delegated _ _ _ Ha) Hr), bind_ok.
  rewrite decide_False by exact Hou. unfold send_grant. set (s1 := set_manager _ s).
  assert (told s1 e o) as Ht by (destruct (au_told _ _ _ Ha) as [H1 H2]; split; [exact H1|exact H2]).
  erewrite (fan_out_panic iter_us Hus e (fun k => if decide (u = k) then Granted else Denied) s1 o u' user c Ht Hu Hc Hh); [reflexivity|].
  rewrite decide_False by congruence. destruct o as [| |holder]; [congruence|reflexivity|]. cbn. now rewrite decide_False by congruence.
Qed.

(** A server that releases an entity nobody holds panics when a client has it in scope. *)
Lemma release_free_panics {E A C} {eqE : EqDecision E} {cE : Countable E} {eqA : EqDecision A} {cA : Countable A}
    {conn : WorldConn C (@Store A eqA cA) (@GlobalDiffHandler GlobalEntity ComponentKind _ _ _ _)}
    {laws : ConnLaws C (@Store A eqA cA) (@GlobalDiffHandler GlobalEntity ComponentKind _ _ _ _)}
    iter_us (Hus : forall m, iter_us m ≡ₚ map_to_list m) (s : @WorldServer E A C eqE cE eqA cA) w e u user c :
  authority s e ByNone -> global_of s w = Ok e -> user_of s u = Some user -> conn_at s user.(data_addr) = Some c -> conn_has c e = true ->
  entity_release_authority iter_us None w s = Panic.
Proof.
  intros Ha Hw Hu Hc Hh. unfold entity_release_authority. rewrite Hw, bind_ok. cbn [from_user_key].
  destruct (ServerAuth.release_returns e ByServer _ (au_ok _ _ _ Ha)) as (h & Hr & Hn).
  { right. split; [reflexivity|]. rewrite (au_held _ _ _ Ha). eauto. }
  unfold SW.client_release_authority. rewrite (if_delegated_ok s e _ _ _ (au_delegated _ _ _ Ha) Hr), bind_ok.
  set (s1 := set_manager _ s). assert (told s1 e ByNone) as Ht by (destruct (au_told _ _ _ Ha) as [H1 H2]; split; [exact H1|exact H2]).
  unfold send_reset_authority_messages.
  now rewrite (fan_out_panic iter_us Hus e (fun _ => Available) s1 ByNone u user c Ht Hu Hc Hh).
Qed.

(** * Three users and a delegated entity *)
Module AuthoritySample.
Import Table.

Definition handler (ops : list ServerAuth.auth_op) : ServerAuth.ServerAuthHandler :=
  match ServerAuth.run_ops ops ServerAuth.ServerAuth_new with Ok (_, h) => h | _ => ServerAuth.ServerAuth_new end.

Definition user (addr : Z) : @WorldUser Z := {| data_addr := addr; rooms_cache := ∅ |}.
Definition seen (st : EntityAuthStatus) : TableConn := with_entries {[ 0 := Some st ]} fresh.

(** Users 1, 2 and 3 at the addresses 11, 12 and 13 all have entity 0, world entity 7, in scope. *)
Definition server (ops : list ServerAuth.auth_op) (s1 s2 s3 : EntityAuthStatus) : @WorldServer Z Z TableConn _ _ _ _ := {|
  members := {| room_store := BigMap_new; user_store := {| store_users := {[ 1 := user 11; 2 := user 12; 3 := user 13 ]}; disconnected_users := ∅ |};
                entity_room_map := {[ 0 := {[ 5 ]} ]}; scope_checks_cache := Cache_new |};
  user_connections := {[ 11 := seen s1; 12 := seen s2; 13 := seen s3 ]};
  entity_scope_map := ScopeMap_insert 1 0 true (ScopeMap_insert 2 0 true ScopeMap_new);
  global_world_manager := {| SW.auth_handler := handler ops; SW.diff_handler := Global_new;
    SW.entity_records := {[ 0 := {| component_kind_set := ∅; owner := OwnServer; replication_config := config_delegated;
                                    is_replicating := true; is_static := false |} ]} |};
  global_entity_map := {| GlobalEntityMap.entity_to_global_map := {[ 7 := 0 ]};
                          GlobalEntityMap.global_to_entity_map := mkBigMap {[ 0 := Some 7 ]} 1;
                          GlobalEntityMap.reserved_global_entities := ∅ |};
  scope_change_queue := []; resource_registry := Registry_new; heap := {| cells := []; sets := []; chans := [] |};
  incoming_world_events := []; world_calls := [] |}.

Lemma told_server ops o s1 s2 s3 : s1 = view o 1 -> s2 = view o 2 -> s3 = view o 3 -> told (server ops s1 s2 s3) 0 o.
Proof.
  intros -> -> ->.
  assert (forall u x, user_of (server ops (view o 1) (view o 2) (view o 3)) u = Some x ->
    (u = 1 /\ x = user 11) \/ (u = 2 /\ x = user 12) \/ (u = 3 /\ x = user 13)) as Hu.
  { intros u x. unfold user_of, UserStore_get. cbn -[lookup]. rewrite !lookup_insert_Some, lookup_singleton_Some. intuition congruence. }
  split.
  - intros u1 u2 x1 x2 H1%Hu H2%Hu Heq. destruct H1 as [[-> ->]|[[-> ->]|[-> ->]]], H2 as [[-> ->]|[[-> ->]|[-> ->]]]; try reflexivity; discriminate Heq.
  - intros u x c Hx Hc. split; [exact I|]. intros _.
    destruct (Hu u x Hx) as [[-> ->]|[[-> ->]|[-> ->]]]; vm_compute in Hc; injection Hc as <-; reflexivity.
Qed.

Lemma held_by_1 : authority (server [ServerAuth.ORegister 0; ServerAuth.ORequest 0 (ByClient 1)] Granted Denied Denied) 0 (ByClient 1).
Proof.
  split; [|reflexivity|reflexivity|now apply told_server].
  destruct (ServerAuth.run_ops_refines [ServerAuth.ORegister 0; ServerAuth.ORequest 0 (ByClient 1)] ServerAuth.ServerAuth_new (fun _ => None)
    ServerAuth.auth_new_ok) as (h & Hrun & Hok & _); [intros e; apply lookup_empty|].
  cbn -[ServerAuth.run_ops]. unfold handler. now rewrite Hrun.
Qed.


(** User 1 holds entity 7, user 3 watches, and the server gives it to user 2. *)
Lemma give_authority_panics_witness :
  entity_give_authority map_to_list 2 7 (server [ServerAuth.ORegister 0; ServerAuth.ORequest 0 (ByClient 1)] Granted Denied Denied) = Panic.
Proof.
  apply (give_authority_panics map_to_list (fun _ => reflexivity _) _ 7 0 (ByClient 1) 2 3 (user 13) (seen Denied) held_by_1);
    [discriminate|discriminate|reflexivity|vm_compute; reflexivity|discriminate|discriminate|reflexivity..].
Defined.
End AuthoritySample.
