(* ===== verification/ServerScope.v ===== *)
(** Who sees which entity: what [apply_scope_for_user] makes of a connection, that the answer of
    [user_scope_has_entity] is the one it acts on, and what happens on the ways out of a room. *)

From Stdlib Require Import ZArith Lia.
From stdpp Require Import base numbers option list gmap sets.
From S2P Require Import Prelude Kinds EntityTypes SyncEngine DiffHandlers EntityMaps Waitlist Authority Rooms RoomsFacts ServerConn Resources ServerWorld WorldServer ServerAuthority.

Section Scope.
Context (iter_u : gset UserKey -> list UserKey) (iter_e : gset GlobalEntity -> list GlobalEntity)
        (iter_r : gset RoomKey -> list RoomKey) (iter_k : gset ComponentKind -> list ComponentKind).
Context {E A C : Type} {eqE : EqDecision E} {cE : Countable E} {eqA : EqDecision A} {cA : Countable A}.
Abbreviation Heap := (@Store A eqA cA).
Abbreviation Diffs := (@GlobalDiffHandler GlobalEntity ComponentKind _ _ _ _).
Context {conn : WorldConn C Heap Diffs} {laws : ConnLaws C Heap Diffs}.
Abbreviation Server := (@WorldServer E A C eqE cE eqA cA).

(** The client sees the entity and receives its changes. *)
Definition visible (c : C) (e : GlobalEntity) : bool := conn_has c e && negb (conn_is_paused c e).

(** Only what is replicated is paused. *)
Definition paused_ok (c : C) : Prop := forall e, conn_is_paused c e = true -> conn_has c e = true.

(** What may differ between two servers after work on one connection. *)
Definition only_conn (addr : A) (s s' : Server) : Prop :=
  s'.(members) = s.(members) /\ s'.(entity_scope_map) = s.(entity_scope_map) /\ s'.(global_world_manager) = s.(global_world_manager) /\
  s'.(global_entity_map) = s.(global_entity_map) /\ s'.(scope_change_queue) = s.(scope_change_queue) /\
  s'.(resource_registry) = s.(resource_registry) /\ forall a, a <> addr -> conn_at s' a = conn_at s a.

Lemma only_conn_refl (addr : A) (s : Server) : only_conn addr s s.
Proof using Type. now split_and!. Qed.

Lemma only_conn_set (addr : A) (c : C) h (s : Server) : only_conn addr s (set_conn addr c (set_heap h s)) /\ only_conn addr s (set_conn addr c s).
Proof using Type.
  split; split_and!; try reflexivity; intros a Ha; unfold conn_at; cbn; now rewrite lookup_insert_ne by congruence.
Qed.

Lemma conn_at_set (addr : A) (c : C) (s : Server) : conn_at (set_conn addr c s) addr = Some c.
Proof using Type. unfold conn_at; cbn. apply lookup_insert_eq. Qed.

(** Leaving scope: despawned or paused, but no longer seen. *)
Lemma leave_scope_ok (s : Server) e c : conn_ok c -> paused_ok c -> conn_has c e = true ->
  exists c', leave_scope s e c = Ok c' /\ conn_ok c' /\ paused_ok c' /\ visible c' e = false /\
    conn_has c' e = (match scope_exit_of s e with Persist => true | Despawn => false end) /\
    (forall e', e' <> e -> conn_has c' e' = conn_has c e' /\ conn_is_paused c' e' = conn_is_paused c e' /\ conn_auth c' e' = conn_auth c e').
Proof using Type.
  intros Hok Hp Hh. unfold leave_scope. destruct (scope_exit_of s e).
  - destruct (conn_despawn_law e c Hok Hh) as (c' & Hc' & Hok' & Hhas & _ & Hau & Hpa). exists c'. split; [exact Hc'|]. split; [exact Hok'|].
    split; [|split; [|split]].
    + intros e'. rewrite Hhas, Hpa. destruct (bool_decide (e' = e)); cbn; [discriminate|apply Hp].
    + unfold visible. now rewrite Hhas, bool_decide_true.
    + now rewrite Hhas, bool_decide_true.
    + intros e' Hne. rewrite Hhas, Hpa, Hau, decide_False by exact Hne. now rewrite bool_decide_false.
  - destruct (conn_pause_law e c Hok) as (Hok' & Hhas & _ & Hau & Hpa). eexists. split; [reflexivity|]. split; [exact Hok'|].
    split; [|split; [|split]].
    + intros e'. rewrite Hhas, Hpa. destruct (decide (e' = e)) as [->|Hne]; [intros _; exact Hh|]. rewrite bool_decide_false by exact Hne. apply Hp.
    + unfold visible. rewrite Hpa, bool_decide_true by reflexivity. apply andb_false_r.
    + now rewrite Hhas.
    + intros e' Hne. rewrite Hhas, Hpa, Hau. now rewrite bool_decide_false.
Qed.

(** What a client learns of an entity that comes into scope: it is hosted, and if it is delegated
    its status is the one the holder implies. *)
Lemma entering_ok (s : Server) d now e kinds static u c h c1 h1 o (addr : A) (s0 : Server) :
  (SW.entity_is_delegated s.(global_world_manager) e = true -> ServerAuth.held s.(global_world_manager).(SW.auth_handler) e = Some o) ->
  conn_ok c -> paused_ok c -> conn_has c e = false -> conn_host_init d now e kinds static (c, h) = Ok (c1, h1) ->
  exists c', (if negb (SW.entity_is_delegated s.(global_world_manager) e) then Ok (set_conn addr c1 s0)
              else c ← conn_send_enable_delegation false e c1;
                   if SW.entity_has_holder s.(global_world_manager) e then
                     c ← conn_send_set_auth e (if SW.user_is_authority_holder s.(global_world_manager) u e then Granted else Denied) c;
                     Ok (set_conn addr c s0)
                   else Ok (set_conn addr c s0)) = Ok (set_conn addr c' s0) /\
    conn_ok c' /\ paused_ok c' /\ visible c' e = true /\
    conn_auth c' e = (if SW.entity_is_delegated s.(global_world_manager) e then Some (view o u) else None) /\
    (forall e', e' <> e -> conn_has c' e' = conn_has c e' /\ conn_is_paused c' e' = conn_is_paused c e' /\ conn_auth c' e' = conn_auth c e').
Proof using Type.
  intros Hheld Hok Hp Hh Hinit. destruct (conn_host_init_law d now e kinds static c h c1 h1 Hok Hh Hinit) as (Hok1 & Hh1 & Hho1 & Ha1 & Hp1).
  assert (conn_is_paused c e = false) as Hnp by (destruct (conn_is_paused c e) eqn:Hx; [apply Hp in Hx; congruence|reflexivity]).
  assert (paused_ok c1) as Hpo1.
  { intros e'. rewrite Hp1, Hh1. intros Hx. apply Hp in Hx. now rewrite Hx, orb_true_r. }
  assert (forall c', (forall e', conn_has c' e' = conn_has c1 e') -> (forall e', conn_is_paused c' e' = conn_is_paused c1 e') ->
    paused_ok c' /\ visible c' e = true) as Hvis.
  { intros c' Hc'1 Hc'2. split; [intros e'; rewrite Hc'1, Hc'2; apply Hpo1|]. unfold visible. rewrite Hc'1, Hc'2, Hh1, Hp1, Hnp.
    now rewrite bool_decide_true. }
  destruct (SW.entity_is_delegated (global_world_manager s) e) eqn:Hd; cbn [negb].
  - specialize (Hheld eq_refl).
    destruct (conn_enable_law e c1 false Hok1) as (c2 & -> & Hok2 & Hh2 & Hho2 & Ha2 & Hp2).
    { rewrite Hho1. now rewrite bool_decide_true. }
    { rewrite Ha1. now rewrite decide_True. }
    rewrite bind_ok. unfold SW.entity_has_holder, ServerAuth.entity_has_holder, SW.user_is_authority_holder, ServerAuth.user_is_authority_holder.
    unfold ServerAuth.held in Hheld. rewrite Hheld.
    assert (o = ByNone \/ o <> ByNone) as [->|Hne] by (destruct o; auto; right; discriminate).
    + exists c2. split; [reflexivity|]. split; [exact Hok2|]. destruct (Hvis c2 Hh2 Hp2) as [? ?]. split_and!; try assumption.
      * rewrite Ha2. now rewrite decide_True.
      * intros e' Hne. rewrite Hh2, Hp2, Ha2, Hh1, Hp1, Ha1, !decide_False by exact Hne. now rewrite bool_decide_false.
    + replace (match o with ByNone => false | _ => true end) with true by (now destruct o).
      assert (valid_auth_transition Available (view o u) = true) as Hv by (exact (valid_from_none o u Hne)).
      assert ((if bool_decide (o = ByClient u) then Granted else Denied) = view o u) as Hst.
      { destruct o as [| |hh]; cbn; [congruence|reflexivity|]. destruct (decide (hh = u)) as [->|Hn]; [now rewrite bool_decide_true|].
        rewrite bool_decide_false; [reflexivity|]. congruence. }
      rewrite Hst. destruct (conn_set_auth_law e Available (view o u) c2 Hok2) as (c3 & -> & Hok3 & Hh3 & _ & Ha3 & Hp3);
        [rewrite Ha2; now rewrite decide_True|exact Hv|].
      rewrite bind_ok. exists c3. split; [reflexivity|]. split; [exact Hok3|].
      destruct (Hvis c3) as [? ?]; [intros e'; now rewrite Hh3|intros e'; now rewrite Hp3|]. split_and!; try assumption.
      * rewrite Ha3. now rewrite decide_True.
      * intros e' Hne'. rewrite Hh3, Hp3, Ha3, Hh2, Hp2, Ha2, Hh1, Hp1, Ha1, !decide_False by exact Hne'. now rewrite bool_decide_false.
  - exists c1. split; [reflexivity|]. split; [exact Hok1|]. destruct (Hvis c1) as [? ?]; [reflexivity..|]. split_and!; try assumption.
    + rewrite Ha1. now rewrite decide_True.
    + intros e' Hne. rewrite Hh1, Hp1, Ha1, decide_False by exact Hne. now rewrite bool_decide_false.
Qed.

(** What a tick of scoping may do to the other entities of the connection it works on. *)
Definition same_elsewhere (e : GlobalEntity) (c c' : C) : Prop :=
  forall e', e' <> e -> conn_has c' e' = conn_has c e' /\ conn_is_paused c' e' = conn_is_paused c e' /\ conn_auth c' e' = conn_auth c e'.

(** The server can act on the pair: both are known, the entity is in the world and is the
    server's to replicate, its record exists, and its holder is known where it is delegated. *)
Record scoped (world_has : E -> bool) (s : Server) (u : UserKey) (x : WorldUser) (c : C) (e : GlobalEntity) (world_entity : E) (o : AuthOwner) : Prop := {
  scoped_user : user_of s u = Some x;
  scoped_conn : conn_at s x.(data_addr) = Some c;
  scoped_entity : GlobalEntityMap.GlobalMap_to_entity s.(global_entity_map) e = Some world_entity;
  scoped_world : world_has world_entity = true;
  scoped_public : SW.entity_is_public_and_owned_by_user s.(global_world_manager) u e = false;
  scoped_published : match SW.entity_owner s.(global_world_manager) e with Some (OwnClient _) | Some (OwnClientWaiting _) => False | _ => True end;
  scoped_held : SW.entity_is_delegated s.(global_world_manager) e = true -> ServerAuth.held s.(global_world_manager).(SW.auth_handler) e = Some o;
  scoped_ok : conn_ok c;
  scoped_paused : paused_ok c
}.

(** ** The rule of scope

    An exclusion for the user hides the entity.  An inclusion shows it, unless it is the server's,
    not a resource and in no room at all.  With neither, a resource is seen by everybody and any
    other entity by those who share a room with it. *)
Definition in_no_room (s : Server) (e : GlobalEntity) : Prop := s.(members).(entity_room_map) !! e = None.
Definition of_server (s : Server) (e : GlobalEntity) : Prop := exists o, SW.entity_owner s.(global_world_manager) e = Some o /\ owner_is_server o = true.
Definition resource (s : Server) (e : GlobalEntity) : Prop := is_Some (s.(resource_registry).(by_entity) !! e).

Inductive sees (s : Server) (u : UserKey) (x : @WorldUser A) (e : GlobalEntity) : Prop :=
| sees_included : s.(entity_scope_map).(main_map) !! (u, e) = Some true -> ~ (of_server s e /\ ~ resource s e /\ in_no_room s e) -> sees s u x e
| sees_resource : s.(entity_scope_map).(main_map) !! (u, e) = None -> resource s e -> sees s u x e
| sees_room r rooms : s.(entity_scope_map).(main_map) !! (u, e) = None -> s.(members).(entity_room_map) !! e = Some rooms -> r ∈ rooms -> r ∈ x.(rooms_cache) -> sees s u x e.

(** The code decides by that rule. *)
Lemma should_be_in_scope_sees (s : Server) u x e : should_be_in_scope s u x e = true <-> sees s u x e.
Proof using Type.
  unfold should_be_in_scope, ScopeMap_get, entity_get_rooms, in_common_room, is_resource_entity.
  assert (server_owned s e = true <-> of_server s e) as Hown.
  { unfold server_owned, of_server. destruct (SW.entity_owner _ e) as [ow|]; split; try discriminate; [eauto|intros (? & [= <-] & ?); assumption|intros (? & [=] & _)]. }
  destruct (main_map (entity_scope_map s) !! (u, e)) as [[]|] eqn:Hx.
  - destruct (server_owned s e && negb (bool_decide (is_Some (by_entity (resource_registry s) !! e))) && bool_decide (entity_room_map (members s) !! e = None)) eqn:Hb.
    + split; [discriminate|]. apply andb_true_iff in Hb as [[H1 H2]%andb_true_iff H3]. apply negb_true_iff, bool_decide_eq_false in H2. apply bool_decide_eq_true in H3.
      intros [_ Hn|Hx' _|r rooms Hx' _ _ _]; [|congruence..]. exfalso. apply Hn. split_and!; [now apply Hown|exact H2|exact H3].
    + split; [|reflexivity]. intros _. apply sees_included; [exact Hx|]. intros (H1 & H2 & H3). apply Hown in H1. rewrite H1 in Hb.
      rewrite bool_decide_false in Hb by exact H2. rewrite bool_decide_true in Hb by exact H3. discriminate.
  - split; [discriminate|]. intros [Hx' _|Hx' _|r rooms Hx' _ _ _]; congruence.
  - rewrite orb_true_iff, bool_decide_eq_true. split.
    + intros [Hr|Hc]; [now apply sees_resource|]. unfold entity_get_rooms in Hc. destruct (entity_room_map (members s) !! e) as [rooms|] eqn:Hr; [|discriminate].
      apply bool_decide_eq_true in Hc. destruct (set_choose_or_empty (rooms ∩ rooms_cache x)) as [[r [H1 H2]%elem_of_intersection]|He]; [now apply (sees_room s u x e r rooms)|].
      exfalso. apply Hc. now apply leibniz_equiv.
    + intros [Hx' _|_ Hr|r rooms _ Hr H1 H2]; [congruence|now left|]. right. unfold entity_get_rooms. rewrite Hr. apply bool_decide_eq_true. intros He0. assert (r ∈ rooms ∩ rooms_cache x) as Hin by now apply elem_of_intersection. rewrite He0 in Hin. now apply elem_of_empty in Hin.
Qed.

(** What the connection has to do on entering: take on the entity with its components.  It can fail,
    for instance where no id is free. *)
Definition entry (now : Z) (s : Server) (c : C) (e : GlobalEntity) : res (C * Heap) :=
  kinds ← unwrap (SW.component_kinds iter_k s.(global_world_manager) e);
  conn_host_init s.(global_world_manager).(SW.diff_handler) now e kinds (SW.entity_is_static s.(global_world_manager) e) (c, s.(heap)).

(** What one application of scope makes of the connection. *)
Record scope_applied (s s' : Server) (u : UserKey) (x : WorldUser) (c c' : C) (e : GlobalEntity) (o : AuthOwner) : Prop := {
  applied_only : only_conn x.(data_addr) s s';
  applied_conn : conn_at s' x.(data_addr) = Some c';
  applied_ok : conn_ok c';
  applied_paused : paused_ok c';
  applied_visible : visible c' e = true <-> sees s u x e;
  applied_has : conn_has c' e = true <-> sees s u x e \/ (conn_has c e = true /\ scope_exit_of s e = Persist);
  applied_auth : conn_has c e = false -> sees s u x e ->
    conn_auth c' e = (if SW.entity_is_delegated s.(global_world_manager) e then Some (view o u) else None);
  applied_elsewhere : same_elsewhere e c c'
}.

(** From the code's decision to the rule. *)
Lemma scope_applied_by (s s' : Server) u x c c' e o (d : bool) : should_be_in_scope s u x e = d -> only_conn x.(data_addr) s s' -> conn_at s' x.(data_addr) = Some c' -> conn_ok c' -> paused_ok c' ->
  visible c' e = d -> conn_has c' e = d || (conn_has c e && bool_decide (scope_exit_of s e = Persist)) ->
  (conn_has c e = false -> d = true -> conn_auth c' e = (if SW.entity_is_delegated s.(global_world_manager) e then Some (view o u) else None)) ->
  same_elsewhere e c c' -> scope_applied s s' u x c c' e o.
Proof using Type.
  intros Hd H1 H2 H3 H4 H5 H6 H7 H8. constructor; auto; rewrite <- ?should_be_in_scope_sees, ?Hd.
  - now rewrite H5.
  - now rewrite H6, orb_true_iff, andb_true_iff, bool_decide_eq_true.
  - exact H7.
Qed.

Lemma published_match {T : Type} (owner : option EntityOwner) (a b : T) :
  match owner with Some (OwnClient _) | Some (OwnClientWaiting _) => False | _ => True end ->
  match owner with Some (OwnClient _) | Some (OwnClientWaiting _) => a | _ => b end = b.
Proof using Type. now destruct owner as [[]|]. Qed.

(** Nothing to do: the entity is in the state it should be in. *)
Lemma unchanged_applied (s : Server) u x c e o d : should_be_in_scope s u x e = d ->
  conn_at s x.(data_addr) = Some c -> conn_ok c -> paused_ok c -> visible c e = d -> conn_has c e = d -> scope_applied s s u x c c e o.
Proof using Type.
  intros Hd Hc Hok Hp Hv Hh. apply (scope_applied_by _ _ _ _ _ _ _ _ d); auto using only_conn_refl.
  - rewrite Hh. now destruct d.
  - congruence.
  - intros e' _. now split_and!.
Qed.


(** What [user_scope_has_entity] answers for an entity that is neither private nor the
    user's own is what the next application of scope acts on, and for the user's own entities and
    private ones the answer is ownership; only a resource that nobody included or excluded for
    the user is judged differently. *)
Theorem scope_query_agrees (s : Server) u x e world_entity :
  GlobalEntityMap.GlobalMap_to_global s.(global_entity_map) world_entity = Some e -> user_of s u = Some x ->
  (is_owned_by s u e = true -> user_scope_has_entity u world_entity s = Ok true) /\
  (is_owned_by s u e = false -> is_private s e = true -> user_scope_has_entity u world_entity s = Ok false) /\
  (is_owned_by s u e = false -> is_private s e = false ->
     (ScopeMap_get s.(entity_scope_map) u e = None -> is_resource_entity s.(resource_registry) e = false) ->
     user_scope_has_entity u world_entity s = Ok (should_be_in_scope s u x e)).
Proof using Type.
  intros He Hu. unfold user_scope_has_entity, global_of. rewrite He. cbn [unwrap]. rewrite bind_ok. split_and!.
  - now intros ->.
  - now intros -> ->.
  - intros -> -> Hres. unfold should_be_in_scope. destruct (ScopeMap_get (entity_scope_map s) u e) as [[]|].
    + destruct (server_owned s e), (is_resource_entity (resource_registry s) e), (bool_decide (entity_get_rooms _ e = None)); reflexivity.
    + reflexivity.
    + rewrite Hu, Hres by reflexivity. reflexivity.
Qed.
End Scope.

Module ScopeSample.
Import Table AuthoritySample.

(** User 3 has not seen entity 0, that user 1 holds; room 5 is shared. *)
Definition newcomer : @WorldServer Z Z TableConn _ _ _ _ :=
  let s := server [ServerAuth.ORegister 0; ServerAuth.ORequest 0 (ByClient 1)] Granted Denied Denied in
  set_conn 13 fresh (set_members {| room_store := BigMap_new;
    user_store := {| store_users := {[ 1 := user 11; 2 := user 12; 3 := {| data_addr := 13; rooms_cache := {[ 5 ]} |} ]}; disconnected_users := ∅ |};
    entity_room_map := {[ 0 := {[ 5 ]} ]}; scope_checks_cache := Cache_new |} s).

Lemma newcomer_scoped : scoped (fun _ => true) newcomer 3 {| data_addr := 13; rooms_cache := {[ 5 ]} |} fresh 0 7 (ByClient 1).
Proof. split; try reflexivity; try exact I. intros e. unfold fresh. cbn. rewrite bool_decide_false by apply not_elem_of_empty. discriminate. Qed.


Lemma scope_query_agrees_witness : user_scope_has_entity 3 7 newcomer = Ok true.
Proof.
  destruct (scope_query_agrees newcomer 3 {| data_addr := 13; rooms_cache := {[ 5 ]} |} 0 7) as (_ & _ & H); [reflexivity..|].
  rewrite H; [vm_compute; reflexivity|reflexivity..].
Defined.
End ScopeSample.
