(* ===== verification/ServerRooms.v ===== *)
(** The life of rooms, users and entities on the server: what every history of the room, user and
    entity operations of [WorldServer] ([src/server/src/server/world_server.rs]) keeps true of the
    stores that mirror each other, and what is left of an entity or a user that goes. *)

From Stdlib Require Import ZArith Lia.
From stdpp Require Import base numbers option list gmap sets.
From S2P Require Import Prelude Kinds EntityTypes SyncEngine DiffHandlers EntityMaps Waitlist WaitlistRefine Authority Rooms RoomsFacts ServerConn Resources ServerWorld WorldServer.

(** A loop whose rounds return and keep an invariant. *)
Lemma foldM_total {A S} (I : S -> Prop) (f : A -> S -> res S) l s :
  (forall a s, I s -> exists s', f a s = Ok s' /\ I s') -> I s -> exists s', foldM f l s = Ok s' /\ I s'.
Proof.
  intros Hf. revert s; induction l as [|a l IH]; intros s Hs; cbn [foldM]; [eauto|].
  destruct (Hf a s Hs) as (s1 & -> & Hs1). rewrite bind_ok. now apply IH.
Qed.

Section ServerRooms.
Context (iter_u : gset UserKey -> list UserKey) (iter_e : gset GlobalEntity -> list GlobalEntity)
        (iter_r : gset RoomKey -> list RoomKey) (iter_k : gset ComponentKind -> list ComponentKind).
Context (Hwu : walks iter_u) (Hwe : walks iter_e) (Hwr : walks iter_r).
Context {E A C : Type} {eqE : EqDecision E} {cE : Countable E} {eqA : EqDecision A} {cA : Countable A}.
Abbreviation Heap := (@Store A eqA cA).
Abbreviation Diffs := (@GlobalDiffHandler GlobalEntity ComponentKind _ _ _ _).
Context {conn : WorldConn C Heap Diffs} {laws : ConnLaws C Heap Diffs}.
Context (iter_us : gmap UserKey (@WorldUser A) -> list (UserKey * @WorldUser A)) (iter_cs : gmap A C -> list A).
Context (Hcs : forall m a, a ∈ iter_cs m <-> is_Some (m !! a)).
Context (iter_rooms : gmap RoomKey Room -> list RoomKey) (iter_t : gmap TypeId GlobalEntity -> list GlobalEntity).
Context (new_connection : Diffs -> Heap -> C * Heap) (Hnew : forall d h, conn_ok (new_connection d h).1).
Abbreviation Server := (@WorldServer E A C eqE cE eqA cA).
Abbreviation GMap := (@GlobalEntityMap.GlobalEntityMap E eqE cE).

(** The stores of the server agree. *)
Record server_ok (s : Server) : Prop := {
  so_map : GlobalEntityMap.global_map_ok s.(global_entity_map);
  so_members : member_ok s.(global_entity_map) s.(members);
  so_scopes : scope_map_ok s.(entity_scope_map);
  so_records : forall e, is_Some (s.(global_world_manager).(SW.entity_records) !! e)
    <-> is_Some (GlobalEntityMap.GlobalMap_to_entity s.(global_entity_map) e);
  so_conns : forall a c, conn_at s a = Some c -> conn_ok c
}.

(** ** Operations *)
Inductive server_op :=
| OCreateRoom
| ODestroyRoom (room_key : RoomKey)
| OAddUser (room_key : RoomKey) (user_key : UserKey)
| ORemoveUser (room_key : RoomKey) (user_key : UserKey)
| OAddEntity (room_key : RoomKey) (world_entity : E)
| ORemoveEntity (room_key : RoomKey) (world_entity : E)
| OReceiveUser (user_key : UserKey) (user_addr : A)
| ODeleteUser (user_key : UserKey)
| OSpawn (world_entity : E)
| OSpawnStatic (world_entity : E)
| ODespawn (world_entity : E)
| OSetScope (user_key : UserKey) (world_entity : E) (is_contained : bool)
| OFinalize (user_key : UserKey) (user_addr : A)
| OUpdate (world_has : E -> bool) (now : Z).

Definition run_server_op (op : server_op) (s : Server) : res Server :=
  match op with
  | OCreateRoom => '(_, s) ← create_room s; Ok s
  | ODestroyRoom r => '(_, s) ← room_destroy iter_u iter_e r s; Ok s
  | OAddUser r u => Ok (room_add_user iter_e r u s)
  | ORemoveUser r u => Ok (room_remove_user iter_e r u s)
  | OAddEntity r w => room_add_entity iter_u r w s
  | ORemoveEntity r w => room_remove_entity iter_u r w s
  | OReceiveUser u a => Ok (receive_user u a s)
  | ODeleteUser u => '(_, s) ← user_delete iter_e iter_r u s; Ok s
  | OSpawn w => spawn_entity_inner w s
  | OSpawnStatic w => spawn_static_entity_inner w s
  | ODespawn w => despawn_entity_worldless iter_u iter_r iter_k iter_cs w s
  | OSetScope u w b => user_scope_set_entity iter_us u w b s
  | OFinalize u a => finalize_connection iter_us new_connection iter_t u a s
  | OUpdate world_has now => update_entity_scopes iter_u iter_e iter_k iter_rooms world_has now s
  end.

(** What the operations ask of their caller.  An update of the scopes asks nothing, and it is the
    one operation that may fail nevertheless: where a connection fails to take on an entity. *)
Definition op_allowed (op : server_op) (s : Server) : Prop :=
  match op with
  | OCreateRoom => current_index s.(members).(room_store) < 2 ^ 64 - 1
  | ODestroyRoom _ | OAddUser _ _ | ORemoveUser _ _ => True
  | OAddEntity _ w => is_Some (GlobalEntityMap.GlobalMap_to_global s.(global_entity_map) w)
  | ORemoveEntity r w => exists e, GlobalEntityMap.GlobalMap_to_global s.(global_entity_map) w = Some e /\
      (placed s.(members) r e \/ BigMap_get r s.(members).(room_store) = None)
  | OReceiveUser u _ => user_of s u = None
  | ODeleteUser u => is_Some (user_of s u)
  | OSpawn w | OSpawnStatic w => GlobalEntityMap.GlobalMap_to_global s.(global_entity_map) w = None /\
      current_index s.(global_entity_map).(GlobalEntityMap.global_to_entity_map) < 2 ^ 64 - 1
  | ODespawn w => is_Some (GlobalEntityMap.GlobalMap_to_global s.(global_entity_map) w)
  | OSetScope u w b => exists e, GlobalEntityMap.GlobalMap_to_global s.(global_entity_map) w = Some e /\
      (b = true \/ SW.user_is_authority_holder s.(global_world_manager) u e = false)
  | OFinalize _ _ | OUpdate _ _ => True
  end.
Definition is_update (op : server_op) : bool := match op with OUpdate _ _ => true | _ => false end.

(** Histories of allowed operations, each of which returned, on a new server. *)
Inductive server_reachable : Server -> Prop :=
| server_start : server_reachable WorldServer_new
| server_step s op s' : server_reachable s -> op_allowed op s -> run_server_op op s = Ok s' -> server_reachable s'.

(** A history as a list, with what each operation asks. *)
Fixpoint allowed_along (ops : list server_op) (s : Server) : Prop :=
  match ops with
  | [] => True
  | op :: ops => op_allowed op s /\ match run_server_op op s with Ok s' => allowed_along ops s' | _ => False end
  end.

Lemma history_reachable ops (s s' : Server) :
  server_reachable s -> allowed_along ops s -> foldM run_server_op ops s = Ok s' -> server_reachable s'.
Proof using Type.
  revert s; induction ops as [|op ops IH]; intros s Hs; cbn [allowed_along foldM]; [congruence|].
  intros [Ha Hl] (s1 & Hr & Hf)%bind_ok_inv. rewrite Hr in Hl. apply (IH s1); [exact (server_step s op s1 Hs Ha Hr)|exact Hl|exact Hf].
Qed.

(** ** Each operation *)
Lemma server_new_ok : server_ok WorldServer_new.
Proof using Type.
  split; cbn.
  - apply GlobalEntityMap.global_new_ok.
  - assert (forall r u, ~ member {| room_store := BigMap_new; user_store := (UserStore_new : @UserStore A eqA cA); entity_room_map := ∅; scope_checks_cache := (Cache_new : ScopeChecksCache E) |} r u) as Hm.
    { intros r u (room & H & _). unfold BigMap_get in H. cbn in H. now rewrite lookup_empty in H. }
    assert (forall r u, ~ placed {| room_store := BigMap_new; user_store := (UserStore_new : @UserStore A eqA cA); entity_room_map := ∅; scope_checks_cache := (Cache_new : ScopeChecksCache E) |} r u) as Hp.
    { intros r u (room & H & _). unfold BigMap_get in H. cbn in H. now rewrite lookup_empty in H. }
    split; cbn.
    + apply bigmap_new_ok.
    + intros r u. split; [now intros H%Hm|]. intros (x & H & _). cbn in H. now rewrite lookup_empty in H.
    + intros r e. split; [now intros H%Hp|]. intros H. now apply in_rooms_nil in H.
    + intros e rs H. now rewrite lookup_empty in H.
    + now intros r e H%Hp.
    + intros t. split; [now intros H%elem_of_nil|]. now intros [H%Hm _].
    + intros t H. exact H.
  - apply scope_new_ok.
  - intros e. unfold GlobalEntityMap.GlobalMap_to_entity, BigMap_get. cbn. rewrite !lookup_empty. split; intros [? ?]; discriminate.
  - intros a c H. unfold conn_at in H. cbn in H. now rewrite lookup_empty in H.
Qed.

(** Operations that change the membership only. *)
Lemma ok_members (s : Server) m : server_ok s -> member_ok s.(global_entity_map) m -> server_ok (set_members m s).
Proof using Type. intros [] Hm. now split. Qed.

Lemma ok_queue (s : Server) q : server_ok s -> server_ok (set_queue q s).
Proof using Type. intros []. now split. Qed.

Lemma spawn_mapped (g : GMap) w :
  GlobalEntityMap.global_map_ok g -> GlobalEntityMap.GlobalMap_to_global g w = None ->
  current_index g.(GlobalEntityMap.global_to_entity_map) < 2 ^ 64 - 1 ->
  exists e g', GlobalEntityMap.GlobalMap_spawn w None g = Ok (e, g') /\ GlobalEntityMap.global_map_ok g' /\
    GlobalEntityMap.GlobalMap_to_entity g e = None /\
    forall e', GlobalEntityMap.GlobalMap_to_entity g' e' = if decide (e' = e) then Some w else GlobalEntityMap.GlobalMap_to_entity g e'.
Proof using Type.
  intros Hok Hw Hc. assert (GlobalEntityMap.log_ok g []) as Hl.
  { split; [constructor|]. split; [intros x H; now apply elem_of_nil in H|]. intros r x _ H. now apply elem_of_nil in H. }
  destruct (GlobalEntityMap.spawn_ok w None g [] Hok Hl Hw Hc) as (e & g' & Hs & Hok' & _). exists e, g'. split; [exact Hs|]. split; [exact Hok'|].
  unfold GlobalEntityMap.GlobalMap_spawn, GlobalEntityMap.take_reserved in Hs. rewrite bind_ok in Hs.
  destruct (bigmap_insert_ok (Some w) _ (GlobalEntityMap.gm_bigmap _ Hok) Hc) as (b & Hb & _ & Hn & _ & Hin).
  rewrite Hb, bind_ok in Hs. injection Hs as <- <-. split.
  - unfold GlobalEntityMap.GlobalMap_to_entity, BigMap_get. now rewrite Hn.
  - intros e'. unfold GlobalEntityMap.GlobalMap_to_entity, BigMap_get. cbn [GlobalEntityMap.global_to_entity_map]. rewrite Hin, lookup_insert.
    destruct (decide (e' = _)) as [->|Hne]; [now rewrite decide_True|now rewrite decide_False by congruence].
Qed.

(** A new entity gets a record. *)
Lemma spawned_ok (s : Server) w record :
  server_ok s -> GlobalEntityMap.GlobalMap_to_global s.(global_entity_map) w = None ->
  current_index s.(global_entity_map).(GlobalEntityMap.global_to_entity_map) < 2 ^ 64 - 1 ->
  exists e g s', GlobalEntityMap.GlobalMap_spawn w None s.(global_entity_map) = Ok (e, g) /\
    s.(global_world_manager).(SW.entity_records) !! e = None /\
    s' = set_manager (SW.set_records s.(global_world_manager) (<[e := record]> s.(global_world_manager).(SW.entity_records))) (set_entities g s) /\
    server_ok s'.
Proof using Type.
  intros Hok Hw Hc. destruct (spawn_mapped _ w (so_map s Hok) Hw Hc) as (e & g & Hs & Hg & Hn & Hto). exists e, g. eexists. split; [exact Hs|].
  split; [|split; [reflexivity|]].
  - destruct (SW.entity_records (global_world_manager s) !! e) eqn:He; [|reflexivity].
    assert (is_Some (SW.entity_records (global_world_manager s) !! e)) as Hx%(so_records s Hok) by eauto. rewrite Hn in Hx. now destruct Hx.
  - split; cbn; [exact Hg| |apply Hok| |apply Hok].
    + apply (member_ok_map s.(global_entity_map)); [|apply Hok]. intros r e' Hp. rewrite Hto, decide_False; [reflexivity|].
      intros ->. apply (mo_mapped _ _ (so_members s Hok)) in Hp as [? ?]. congruence.
    + intros e'. rewrite Hto, lookup_insert. destruct (decide (e' = e)) as [->|Hne]; [rewrite decide_True by reflexivity; split; eauto|].
      rewrite decide_False by congruence. apply Hok.
Qed.

Lemma server_spawn_ok (s : Server) w : server_ok s -> op_allowed (OSpawn w) s -> exists s', spawn_entity_inner w s = Ok s' /\ server_ok s'.
Proof using Type.
  intros Hok [Hw Hc]. destruct (spawned_ok s w {| component_kind_set := ∅; owner := OwnServer; replication_config := config_public; is_replicating := true; is_static := false |} Hok Hw Hc) as (e & g & s' & Hs & Hn & -> & Hok').
  unfold spawn_entity_inner. rewrite Hs, bind_ok. unfold SW.insert_entity_record. rewrite Hn. eexists. split; [reflexivity|exact Hok'].
Qed.

Lemma spawn_static_ok (s : Server) w : server_ok s -> op_allowed (OSpawnStatic w) s -> exists s', spawn_static_entity_inner w s = Ok s' /\ server_ok s'.
Proof using Type.
  intros Hok [Hw Hc]. destruct (spawned_ok s w {| component_kind_set := ∅; owner := OwnServer; replication_config := config_public; is_replicating := true; is_static := true |} Hok Hw Hc) as (e & g & s' & Hs & Hn & -> & Hok').
  unfold spawn_static_entity_inner. rewrite Hs, bind_ok. unfold SW.insert_static_entity_record, Record_new_static. rewrite Hn.
  eexists. split; [reflexivity|exact Hok'].
Qed.

Lemma global_of_ok (s : Server) w e : GlobalEntityMap.GlobalMap_to_global s.(global_entity_map) w = Some e -> global_of s w = Ok e.
Proof using Type. intros H. unfold global_of. now rewrite H. Qed.

(** ** What is left of a despawned entity *)
Definition forgotten (s : Server) (e : GlobalEntity) (w : E) : Prop :=
  GlobalEntityMap.GlobalMap_to_entity s.(global_entity_map) e = None /\
  GlobalEntityMap.GlobalMap_to_global s.(global_entity_map) w = None /\
  s.(global_world_manager).(SW.entity_records) !! e = None /\
  (forall r, ~ placed s.(members) r e) /\
  (forall t, t ∈ s.(members).(scope_checks_cache).(tuples) -> t.2 <> w) /\
  (forall u, ScopeMap_get s.(entity_scope_map) u e = None) /\
  (forall a c, conn_at s a = Some c -> conn_has c e = false).

(** Every connection has let go of the entity, and nothing else changed on it. *)
Lemma despawn_all_ok (s : Server) e : (forall a c, conn_at s a = Some c -> conn_ok c) ->
  exists cs, despawn_entity_from_all_connections iter_cs e s = Ok (set_conns cs s) /\
    forall a c, cs !! a = Some c -> conn_ok c /\ conn_has c e = false.
Proof using Hcs.
  intros Hok. unfold despawn_entity_from_all_connections, for_connections.
  set (f := fun (addr : A) (conns : gmap A C) => _).
  pose (I := fun cs : gmap A C => (forall a c, cs !! a = Some c -> conn_ok c) /\ forall a, is_Some (cs !! a) -> is_Some (s.(user_connections) !! a)).
  pose (P := fun (a : A) (cs : gmap A C) => forall c, cs !! a = Some c -> conn_has c e = false).
  destruct (foldM_mono (fun cs cs' => forall a, P a cs -> P a cs') I P f (iter_cs s.(user_connections))) with (s := s.(user_connections))
    as (cs & Hf & [HI1 HI2] & _ & HP).
  - auto.
  - eauto.
  - auto.
  - intros a cs _ [H1 H2]. unfold f. destruct (cs !! a) as [c|] eqn:Hc; [|exists cs; split; [reflexivity|]; split; [now split|]; split; [auto|intros c Hx; congruence]].
    assert (forall c', conn_ok c' -> conn_has c' e = false -> I (<[a := c']> cs) /\ (forall b, P b cs -> P b (<[a := c']> cs)) /\ P a (<[a := c']> cs)) as Hput.
    { intros c' Ho Hh. split; [split|split].
      - intros b x [[_ <-]|[_ Hx]]%lookup_insert_Some; eauto.
      - intros b. rewrite lookup_insert_is_Some'. intros [<-|Hx]; [apply H2; eauto|now apply H2].
      - intros b Hb x [[_ <-]|[_ Hx]]%lookup_insert_Some; eauto.
      - intros x Hx. rewrite lookup_insert_eq in Hx. congruence. }
    destruct (conn_has c e) eqn:Hh.
    + destruct (conn_despawn_law e c (H1 _ _ Hc) Hh) as (c' & -> & Hok' & Hhas & _). rewrite bind_ok. eexists. split; [reflexivity|].
      apply Hput; [exact Hok'|]. rewrite Hhas, bool_decide_true by reflexivity. reflexivity.
    + rewrite bind_ok. eexists. split; [reflexivity|]. apply Hput; [exact (H1 _ _ Hc)|exact Hh].
  - split; [exact Hok|auto].
  - exists cs. rewrite Hf, bind_ok. split; [reflexivity|]. intros a c Hc. split; [eauto|].
    apply (HP a); [|exact Hc]. apply Hcs. apply HI2. eauto.
Qed.

(** Unregistering the entity's components touches neither its record nor its authority. *)
Lemma remove_diffs_records e (m : SW.GlobalWorldManager) :
  SW.entity_records (SW.remove_entity_diff_handlers iter_k e m) = SW.entity_records m /\
  SW.auth_handler (SW.remove_entity_diff_handlers iter_k e m) = SW.auth_handler m.
Proof using Type.
  unfold SW.remove_entity_diff_handlers. destruct (SW.component_kinds iter_k m e) as [ks|]; [|now split].
  revert m. induction ks as [|k ks IH]; intros m; [now split|]. cbn [foldl]. destruct (IH (SW.remove_component_diff_handler e k m)) as [-> ->]. now split.
Qed.

Lemma unmapped (g : GMap) e w : GlobalEntityMap.global_map_ok g -> GlobalEntityMap.GlobalMap_to_entity g e = Some w ->
  exists g', GlobalEntityMap.despawn_by_global e g = Ok g' /\ GlobalEntityMap.global_map_ok g' /\
    GlobalEntityMap.GlobalMap_to_global g' w = None /\
    forall e', GlobalEntityMap.GlobalMap_to_entity g' e' = if decide (e' = e) then None else GlobalEntityMap.GlobalMap_to_entity g e'.
Proof using Type.
  intros Hok He. assert (GlobalEntityMap.log_ok g []) as Hl.
  { split; [constructor|]. split; [intros x H; now apply elem_of_nil in H|]. intros r x _ H. now apply elem_of_nil in H. }
  destruct (GlobalEntityMap.unmap_ok e w g [] Hok Hl He) as [Hok' _]. unfold GlobalEntityMap.despawn_by_global, BigMap_remove.
  rewrite (proj1 (GlobalEntityMap.to_entity_spec g e w) He). eexists. split; [reflexivity|]. split; [exact Hok'|]. split.
  - unfold GlobalEntityMap.GlobalMap_to_global; cbn. apply lookup_delete_eq.
  - intros e'. unfold GlobalEntityMap.GlobalMap_to_entity, BigMap_get. cbn. rewrite lookup_delete.
    destruct (decide (e' = e)) as [->|Hne]; [now rewrite decide_True|now rewrite decide_False by congruence].
Qed.

Lemma despawn_forgets (s : Server) w e : server_ok s -> GlobalEntityMap.GlobalMap_to_global s.(global_entity_map) w = Some e ->
  exists s', despawn_entity_worldless iter_u iter_r iter_k iter_cs w s = Ok s' /\ server_ok s' /\ forgotten s' e w /\
    s'.(global_world_manager).(SW.auth_handler) = s.(global_world_manager).(SW.auth_handler) /\
    s'.(resource_registry) = s.(resource_registry) /\ s'.(scope_change_queue) = s.(scope_change_queue).
Proof using Hwu Hwr Hcs.
  intros Hok Hw. assert (GlobalEntityMap.GlobalMap_to_entity s.(global_entity_map) e = Some w) as He by (now apply (GlobalEntityMap.gm_mirror _ (so_map s Hok))).
  unfold despawn_entity_worldless. rewrite (global_of_ok s w e Hw), bind_ok. unfold SW.has_entity.
  assert (is_Some (SW.entity_records (global_world_manager s) !! e)) as Hrec by (apply (so_records s Hok); eauto).
  rewrite bool_decide_true by exact Hrec. cbn [negb]. unfold cleanup_entity_replication.
  set (s1 := set_members _ s). destruct (despawn_all_ok s1 e (so_conns s Hok)) as (cs & -> & Hcl). rewrite !bind_ok.
  destruct (unmapped _ e w (so_map s Hok) He) as (g' & Hg' & Hgok & Hgw & Hto).
  destruct (leave_all_rooms_ok iter_u iter_r Hwr s.(global_entity_map) g' s.(members) w e (so_map s Hok) (so_members s Hok) Hw Hto) as (m' & Hm' & Hmok & _ & Hnp).
  subst s1. cbn [members set_scopes set_conns set_members]. rewrite Hm', !bind_ok.
  destruct (remove_diffs_records e (global_world_manager s)) as [Hr1 Hr2]. destruct Hrec as [rec Hrec].
  unfold SW.remove_entity_record. cbn [global_world_manager set_manager set_members set_scopes set_conns]. rewrite Hr1, Hrec. cbn [unwrap].
  rewrite !bind_ok. cbn [global_entity_map set_manager set_members set_scopes set_conns]. rewrite Hg', bind_ok. eexists. split; [reflexivity|].
  destruct (remove_entity_scopes iter_u Hwu e _ (so_scopes s Hok)) as [Hsc Hget].
  assert (GlobalEntityMap.GlobalMap_to_entity g' e = None) as Hge by (rewrite Hto; now rewrite decide_True).
  split; [split; cbn; try assumption|split; [|now split_and!]].
  - intros e'. rewrite Hto, lookup_delete. destruct (decide (e' = e)) as [->|Hne]; [rewrite decide_True by reflexivity; split; intros [? ?]; discriminate|].
    rewrite decide_False by congruence. apply Hok.
  - intros a c Hc. now apply (Hcl a).
  - split_and!; cbn; try assumption.
    + apply lookup_delete_eq.
    + intros t Ht. apply (mo_cache _ _ Hmok) in Ht as [_ (e' & Hp & Het)]. intros Heq. rewrite Hto, Heq in Het. case_decide as Hx; [discriminate|].
      apply Hx. exact (to_entity_inj _ _ _ _ (so_map s Hok) Het He).
    + intros u. rewrite Hget. now rewrite decide_True.
    + intros a c Hc. now apply (Hcl a).
Qed.

(** ** Every operation *)
Lemma user_delete_ok (s : Server) u user : server_ok s -> user_of s u = Some user ->
  exists s', user_delete iter_e iter_r u s = Ok (user, s') /\ server_ok s' /\ user_of s' u = None /\
    conn_at s' user.(data_addr) = None /\ (forall r, ~ member s'.(members) r u) /\ (forall e, ScopeMap_get s'.(entity_scope_map) u e = None).
Proof using Hwe Hwr.
  intros Hok Hu. unfold user_delete. unfold UserStore_remove at 1. unfold user_of, UserStore_get in Hu. rewrite Hu.
  destruct (leave_rooms_ok iter_e iter_r Hwr s.(global_entity_map) s.(members) u user (so_members s Hok) Hu) as (m' & Hm' & Hmok & Hus & Hnm).
  cbn [UserStore_remove snd] in Hm'. rewrite Hm', bind_ok. eexists. split; [reflexivity|].
  destruct (remove_user_scopes iter_e Hwe u _ (so_scopes s Hok)) as [Hsc Hget].
  split; [split; cbn; try apply Hok; try assumption|split_and!; cbn; try assumption].
  - intros a c Hc. unfold conn_at in Hc. cbn in Hc. apply lookup_delete_Some in Hc as [_ Hc]. exact (so_conns s Hok a c Hc).
  - unfold user_of, UserStore_get. cbn. rewrite Hus. cbn. apply lookup_delete_eq.
  - unfold conn_at. cbn. apply lookup_delete_eq.
  - intros e. rewrite Hget. now rewrite decide_True.
Qed.

Lemma set_scope_ok (s : Server) u w b : server_ok s ->
  (exists e, GlobalEntityMap.GlobalMap_to_global s.(global_entity_map) w = Some e /\
     (b = true \/ SW.user_is_authority_holder s.(global_world_manager) u e = false)) ->
  exists s', user_scope_set_entity iter_us u w b s = Ok s' /\ server_ok s' /\ s'.(global_entity_map) = s.(global_entity_map).
Proof using Type.
  intros Hok (e & Hw & Hb). unfold user_scope_set_entity. rewrite (global_of_ok s w e Hw), bind_ok.
  replace (negb b && SW.user_is_authority_holder (global_world_manager s) u e) with false
    by (destruct Hb as [-> | ->]; [reflexivity|now rewrite andb_false_r]).
  rewrite bind_ok. destruct (_ && _ && _); [eauto|]. eexists. split; [reflexivity|].
  destruct Hok as [H1 H2 H3 H4 H5]. split; [split; try assumption|reflexivity]. cbn. now apply scope_insert_ok.
Qed.

Lemma ok_conn (s : Server) a c h : server_ok s -> conn_ok c -> server_ok (set_conn a c (set_heap h s)) /\ server_ok (set_conn a c s).
Proof using Type.
  intros [H1 H2 H3 H4 H5] Hc.
  split; split; try assumption; intros a' c' Hx; unfold conn_at in Hx; cbn in Hx; apply lookup_insert_Some in Hx as [[_ <-]|[_ Hx]]; eauto.
Qed.

Lemma finalize_ok (s : Server) u a : server_ok s -> exists s', finalize_connection iter_us new_connection iter_t u a s = Ok s' /\ server_ok s'.
Proof using Hnew.
  intros Hok. unfold finalize_connection. destruct (negb _); [eauto|].
  pose proof (Hnew s.(global_world_manager).(SW.diff_handler) s.(heap)) as Hc.
  destruct (new_connection _ _) as [c h]. cbn [fst] in Hc.
  assert (server_ok (set_heap h (set_conn a c s))) as Hok1.
  { destruct (ok_conn s a c h Hok Hc) as [Hx _]. exact Hx. }
  revert Hok1. generalize (set_heap h (set_conn a c s)). clear s Hok. intros s Hok.
  set (l := omap _ _). assert (forall w, w ∈ l -> is_Some (GlobalEntityMap.GlobalMap_to_global s.(global_entity_map) w)) as Hl.
  { intros w Hw. apply list_elem_of_omap in Hw as (e & _ & He). exists e. now apply (GlobalEntityMap.gm_mirror _ (so_map s Hok)). }
  clearbody l. assert (exists s', foldM (fun world_entity => user_scope_set_entity iter_us u world_entity true) l s = Ok s' /\ server_ok s') as (s' & -> & Hs').
  2: { rewrite bind_ok. eexists. split; [reflexivity|]. destruct Hs'. now split. }
  revert s Hok Hl. induction l as [|w l IH]; intros s Hok Hl; cbn [foldM]; [eauto|].
  destruct (Hl w) as [e He]; [now left|]. destruct (set_scope_ok s u w true Hok) as (s1 & -> & Hok1 & Hg); [exists e; auto|].
  rewrite bind_ok. apply IH; [exact Hok1|]. intros w' Hw'. rewrite Hg. apply Hl. now right.
Qed.

(** ** A round of scoping *)
Lemma leave_scope_keeps (s : Server) e c c' : conn_ok c -> conn_has c e = true -> leave_scope s e c = Ok c' -> conn_ok c'.
Proof using Type.
  intros Hok Hh. unfold leave_scope. destruct (scope_exit_of s e).
  - destruct (conn_despawn_law e c Hok Hh) as (c1 & -> & Hok1 & _). intros [= <-]. exact Hok1.
  - intros [= <-]. exact (proj1 (conn_pause_law e c Hok)).
Qed.

Lemma enabled_keeps e b status c c1 h h' d now kinds static :
  conn_ok c -> conn_has c e = false -> conn_host_init d now e kinds static (c, h) = Ok (c1, h') ->
  conn_ok c1 /\ exists c2, conn_send_enable_delegation b e c1 = Ok c2 /\ conn_ok c2 /\
    (status <> Available -> valid_auth_transition Available status = true -> exists c3, conn_send_set_auth e status c2 = Ok c3 /\ conn_ok c3).
Proof using Type.
  intros Hok Hh Hi. destruct (conn_host_init_law _ _ _ _ _ _ _ _ _ Hok Hh Hi) as (Hok1 & _ & Hho & Ha & _). split; [exact Hok1|].
  destruct (conn_enable_law e c1 b Hok1) as (c2 & Hc2 & Hok2 & _ & _ & Ha2 & _);
    [rewrite Hho; now rewrite bool_decide_true|rewrite Ha; now rewrite decide_True|].
  exists c2. split; [exact Hc2|]. split; [exact Hok2|]. intros _ Hv.
  destruct (conn_set_auth_law e Available status c2 Hok2) as (c3 & Hc3 & Hok3 & _); [rewrite Ha2; now rewrite decide_True|exact Hv|eauto].
Qed.

Lemma apply_scope_keeps world_has now u e (s s' : Server) : server_ok s -> apply_scope_for_user iter_k world_has now u e s = Ok s' -> server_ok s'.
Proof using Type.
  intros Hok. unfold apply_scope_for_user. destruct (user_of s u) as [x|]; [|congruence].
  destruct (conn_at s (data_addr x)) as [c|] eqn:Hc; [|congruence]. pose proof (so_conns s Hok _ _ Hc) as Hcok.
  destruct (GlobalEntityMap.GlobalMap_to_entity _ e) as [w|]; [|congruence].
  destruct (negb (world_has w)); [intros [= <-]; now apply ok_queue|]. destruct (SW.entity_is_public_and_owned_by_user _ u e); [congruence|].
  assert (forall b : res Server, match SW.entity_owner s.(global_world_manager) e with Some (OwnClient _) | Some (OwnClientWaiting _) => Ok s | _ => b end = Ok s' ->
    (b = Ok s' -> server_ok s') -> server_ok s') as Hown.
  { intros b Hb Hk. destruct (SW.entity_owner (global_world_manager s) e) as [[]|]; auto; congruence. }
  intros Hr. apply Hown in Hr; [exact Hr|]. clear Hown Hr.
  destruct (should_be_in_scope s u x e), (conn_has c e) eqn:Hh; intros Hr.
  - injection Hr as <-. destruct (conn_is_paused c e); [|exact Hok]. apply (ok_conn s _ _ s.(heap) Hok). exact (proj1 (conn_resume_law e c Hcok)).
  - apply bind_ok_inv in Hr as (kinds & _ & Hr). apply bind_ok_inv in Hr as ([c1 h1] & Hi & Hr).
    set (st := if SW.user_is_authority_holder s.(global_world_manager) u e then Granted else Denied).
    destruct (enabled_keeps e false st c c1 _ _ _ _ _ _ Hcok Hh Hi) as (Hok1 & c2 & Hc2 & Hok2 & Hst).
    destruct Hst as (c3 & Hc3 & Hok3); [unfold st; now destruct (SW.user_is_authority_holder _ u e)..|].
    cbn [global_world_manager set_heap] in Hr. rewrite Hc2, bind_ok in Hr. fold st in Hr. rewrite Hc3, bind_ok in Hr.
    destruct (SW.entity_is_delegated _ e); cbn [negb] in Hr; [destruct (SW.entity_has_holder _ e)|]; injection Hr as <-;
      now apply (ok_conn s _ _ h1 Hok).
  - apply bind_ok_inv in Hr as (c1 & Hl & Hr). injection Hr as <-. apply (ok_conn s _ _ s.(heap) Hok). exact (leave_scope_keeps s e c c1 Hcok Hh Hl).
  - congruence.
Qed.

Lemma left_room_keeps a rs e (s s' : Server) : server_ok s -> left_room_step a rs e s = Ok s' -> server_ok s'.
Proof using Type.
  intros Hok. unfold left_room_step. destruct (conn_at s a) as [c|] eqn:Hc; [|congruence].
  destruct (match entity_get_rooms _ e with Some _ => _ | None => _ end); [congruence|].
  destruct (conn_has c e) eqn:Hh; cbn [negb]; [|congruence]. intros (c1 & Hl & [= <-])%bind_ok_inv.
  apply (ok_conn s _ _ s.(heap) Hok). exact (leave_scope_keeps s e c c1 (so_conns s Hok _ _ Hc) Hh Hl).
Qed.

Lemma apply_change_keeps world_has now change (s s' : Server) :
  server_ok s -> apply_change iter_u iter_e iter_k world_has now change s = Ok s' -> server_ok s'.
Proof using Type.
  intros Hok. destruct change as [u r|u r|e r|u e b]; cbn [apply_change].
  - apply foldM_inv; [|exact Hok]. intros e s0 s1. apply apply_scope_keeps.
  - destruct (user_of s u) as [x|]; [|congruence]. destruct (conn_at s (data_addr x)); [|congruence].
    apply foldM_inv; [|exact Hok]. intros e s0 s1. apply left_room_keeps.
  - apply foldM_inv; [|exact Hok]. intros u s0 s1. apply apply_scope_keeps.
  - now apply apply_scope_keeps.
Qed.

Lemma removal_keeps x (s s' : Server) : server_ok s -> removal_step x s = Ok s' -> server_ok s'.
Proof using Type.
  intros Hok. destruct x as [u e]. unfold removal_step. destruct (user_of s u) as [user|]; [|congruence].
  destruct (conn_at s (data_addr user)) as [c|] eqn:Hc; [|congruence]. destruct (in_common_room s user e); [congruence|].
  destruct (conn_has c e) eqn:Hh; cbn [negb]; [|congruence]. intros (c1 & Hl & [= <-])%bind_ok_inv. apply (ok_conn s _ _ s.(heap) Hok).
  destruct (conn_despawn_law e c (so_conns s Hok _ _ Hc) Hh) as (c2 & Hc2 & Hok2 & _). congruence.
Qed.

(** Popping a room's queue leaves its users and its entities. *)
Lemma popped_ok (gm : GMap) (m : @Membership E A eqA cA) r room q : member_ok gm m -> BigMap_get r m.(room_store) = Some room ->
  member_ok gm {| room_store := BigMap_set r {| users := room.(users); entities := room.(entities); entity_removal_queue := q |} m.(room_store);
                  user_store := m.(user_store); entity_room_map := m.(entity_room_map); scope_checks_cache := m.(scope_checks_cache) |}.
Proof using Type.
  intros Hok Hr. set (m' := {| room_store := _; user_store := _; entity_room_map := _; scope_checks_cache := _ |}).
  assert (forall r' u, member m' r' u <-> member m r' u) as Hm.
  { intros r' u. unfold m'. rewrite member_set. case_decide; [subst; now rewrite (member_get m r room) by exact Hr|reflexivity]. }
  assert (forall r' e, placed m' r' e <-> placed m r' e) as Hp.
  { intros r' e. unfold m'. rewrite placed_set. case_decide; [subst; now rewrite (placed_get m r room) by exact Hr|reflexivity]. }
  split.
  - exact (bigmap_set_ok _ _ _ _ (mo_keys _ _ Hok) Hr).
  - intros r' u. rewrite Hm. apply (mo_users _ _ Hok).
  - intros r' e. rewrite Hp. apply (mo_entities _ _ Hok).
  - apply (mo_rooms _ _ Hok).
  - intros r' e Hx%Hp. now apply (mo_mapped _ _ Hok r').
  - intros t. cbn. rewrite (mo_cache _ _ Hok). unfold scope_checks_recompute. rewrite Hm. now setoid_rewrite Hp.
  - apply (mo_pending _ _ Hok).
Qed.

Lemma drain_removals_keeps fuel r (s s' : Server) : server_ok s -> drain_removals fuel r s = Ok s' -> server_ok s'.
Proof using Type.
  revert s; induction fuel as [|fuel IH]; intros s Hok; cbn [drain_removals]; [discriminate|].
  destruct (BigMap_get r (room_store (members s))) as [room|] eqn:Hr; [|congruence]. unfold pop_entity_removal_queue.
  destruct (entity_removal_queue room) as [|x q] eqn:Hq; [congruence|]. intros (s1 & Hx & Hd)%bind_ok_inv. apply (IH s1); [|exact Hd].
  apply (removal_keeps x _ _ (ok_members s _ Hok (popped_ok _ _ r room q (so_members s Hok) Hr)) Hx).
Qed.

Lemma update_keeps world_has now (s s' : Server) :
  server_ok s -> update_entity_scopes iter_u iter_e iter_k iter_rooms world_has now s = Ok s' -> server_ok s'.
Proof using Type.
  intros Hok. unfold update_entity_scopes. intros (s1 & Hl & Hd)%bind_ok_inv.
  assert (server_ok s1) as Hok1.
  { revert Hl. apply foldM_inv; [|exact Hok]. intros r s0 s2. apply drain_removals_keeps. }
  revert Hd. unfold drain_scope_change_queue. apply foldM_inv; [|now apply ok_queue]. intros ch s0 s2. apply apply_change_keeps.
Qed.

Lemma server_op_ok op (s : Server) : server_ok s -> op_allowed op s -> is_update op = false -> exists s', run_server_op op s = Ok s' /\ server_ok s'.
Proof using Hwu Hwe Hwr Hcs Hnew.
  intros Hok Ha Hup. destruct op; cbn [run_server_op].
  - destruct (create_room_ok _ _ (so_members s Hok) Ha) as (k & rs & Hi & _ & Hm). unfold create_room. rewrite Hi, !bind_ok.
    eexists. split; [reflexivity|]. now apply ok_members.
  - destruct (destroy_ok iter_u iter_e Hwu Hwe _ _ room_key (so_members s Hok)) as (m' & Hd & Hm & _). unfold room_destroy. rewrite Hd, !bind_ok.
    eexists. split; [reflexivity|]. now apply ok_members.
  - eexists. split; [reflexivity|]. unfold room_add_user.
    pose proof (add_user_ok iter_e Hwe _ _ room_key user_key (so_members s Hok)) as Hm.
    destruct (RoomStore_add_user iter_e room_key user_key (global_entity_map s) (members s)) as [c m]. apply ok_queue, ok_members; [exact Hok|exact Hm].
  - eexists. split; [reflexivity|]. unfold room_remove_user.
    pose proof (remove_user_ok iter_e _ _ room_key user_key (so_members s Hok)) as Hm.
    destruct (RoomStore_remove_user iter_e room_key user_key (members s)) as [c m]. apply ok_queue, ok_members; [exact Hok|exact Hm].
  - destruct Ha as [e He]. destruct (add_entity_ok iter_u Hwu _ _ room_key world_entity e (so_map s Hok) (so_members s Hok) He) as (c & m' & Hr & Hm & _).
    unfold room_add_entity. rewrite Hr, bind_ok. eexists. split; [reflexivity|]. destruct c; [apply ok_queue|]; now apply ok_members.
  - destruct Ha as (e & He & Hp). unfold room_remove_entity. destruct Hp as [Hp|Hn].
    + destruct (remove_entity_ok iter_u _ _ room_key world_entity e (so_map s Hok) (so_members s Hok) He Hp) as (m' & -> & Hm & _).
      rewrite bind_ok. eexists. split; [reflexivity|]. now apply ok_members.
    + unfold RoomStore_remove_entity. rewrite He. cbn [unwrap]. rewrite bind_ok, Hn, bind_ok. eexists. split; [reflexivity|].
      apply ok_members; [exact Hok|apply Hok].
  - eexists. split; [reflexivity|]. apply ok_members; [exact Hok|].
    destruct (new_user_ok _ _ user_key user_addr (so_members s Hok) Ha). now split.
  - destruct Ha as [user Hu]. destruct (user_delete_ok s user_key user Hok Hu) as (s' & -> & Hok' & _). rewrite bind_ok. eauto.
  - now apply server_spawn_ok.
  - now apply spawn_static_ok.
  - destruct Ha as [e He]. destruct (despawn_forgets s world_entity e Hok He) as (s' & -> & Hok' & _). eauto.
  - destruct (set_scope_ok s _ _ _ Hok Ha) as (s' & -> & Hok' & _). eauto.
  - now apply finalize_ok.
  - discriminate.
Qed.

Lemma server_reachable_ok (s : Server) : server_reachable s -> server_ok s.
Proof using Hwu Hwe Hwr Hcs Hnew.
  induction 1 as [|s op s' _ IH Ha Hr]; [apply server_new_ok|].
  destruct (is_update op) eqn:Hup.
  - destruct op; try discriminate. exact (update_keeps world_has now s s' IH Hr).
  - destruct (server_op_ok op s IH Ha Hup) as (s1 & Hr1 & Hok). congruence.
Qed.

(** C27: Rooms mirror.  Take any history, on a new server, of the application's operations on rooms,
    users, entities and scopes and of the updates of the scopes ([server_op]), each allowed
    ([op_allowed]: numbers are not used up, entities and users that are named exist, an entity is
    removed from a room it is in) and each having returned.  Then the stores mirror each other: a
    user is in a room exactly when the room is in the user's cache, an entity is in a room exactly
    when the map of rooms says so, the cached triples that scope checks walk are those that a walk
    over all rooms, their users and their entities would list, and the scope overrides are indexed
    by user; and every next allowed operation returns, except that an update of the scopes may fail
    where a connection cannot take on an entity.  Component, authority, publicity and resource calls
    and the events of clients are not among the operations; a client's despawn of its private entity
    breaks the mirror. *)
Theorem rooms_mirror (s : Server) : server_reachable s ->
  (forall r u, member s.(members) r u <-> cached_room s.(members) u r) /\
  (forall r e, placed s.(members) r e <-> in_rooms s.(members).(entity_room_map) e r) /\
  (forall t, t ∈ s.(members).(scope_checks_cache).(tuples) <-> scope_checks_recompute s.(global_entity_map) s.(members) t) /\
  (forall u e, is_Some (ScopeMap_get s.(entity_scope_map) u e) <-> exists es, s.(entity_scope_map).(entities_of_user) !! u = Some es /\ e ∈ es) /\
  (forall op, op_allowed op s -> is_update op = false -> exists s', run_server_op op s = Ok s' /\ server_reachable s').
Proof using Hwu Hwe Hwr Hcs Hnew.
  intros Hs. pose proof (server_reachable_ok s Hs) as Hok. split_and!; try apply (so_members s Hok).
  - apply (so_scopes s Hok).
  - intros op Ha Hup. destruct (server_op_ok op s Hok Ha Hup) as (s' & Hr & _). exists s'. split; [exact Hr|]. now apply (server_step s op).
Qed.

(** C32: What a despawn clears and what it leaves.  In every state in which the server's stores agree
    ([server_ok]; the states of [server_reachable] are such, and delegation and resources are not
    excluded), the application's despawn of an entity returns, and afterwards the stores agree and
    the entity is in neither direction of the entity map, has no record, is in no room, in no cached
    triple and in no scope override, and no connection replicates it.  The authority registry, the
    resource registry and the queue of scope changes are left as they were, so a delegated entity
    stays registered there, with its holder. *)
Theorem despawn_clears_entity (s : Server) w e : server_ok s -> GlobalEntityMap.GlobalMap_to_global s.(global_entity_map) w = Some e ->
  exists s', despawn_entity_worldless iter_u iter_r iter_k iter_cs w s = Ok s' /\ server_ok s' /\ forgotten s' e w /\
    s'.(global_world_manager).(SW.auth_handler) = s.(global_world_manager).(SW.auth_handler) /\
    s'.(resource_registry) = s.(resource_registry) /\ s'.(scope_change_queue) = s.(scope_change_queue).
Proof using Hwu Hwr Hcs. exact (despawn_forgets s w e). Qed.
End ServerRooms.

Module RoomsSample.
Import Table.

Definition keys {V : Type} (m : gmap Z V) : list Z := (map_to_list m).*1.
Definition values (m : gmap Z Z) : list Z := (map_to_list m).*2.
Definition new_table (_ : @GlobalDiffHandler GlobalEntity ComponentKind _ _ _ _) (h : @Store Z _ _) : TableConn * @Store Z _ _ := (fresh, h).

Definition run (ops : list (@server_op Z Z)) (s : @WorldServer Z Z TableConn _ _ _ _) : res (@WorldServer Z Z TableConn _ _ _ _) :=
  foldM (run_server_op elements elements elements elements map_to_list keys keys values new_table) ops s.

(** Users 1 and 2 at the addresses 11 and 12 share room 0 with world entity 7. *)
Definition setup : list (@server_op Z Z) :=
  [OCreateRoom; OReceiveUser 1 11; OFinalize 1 11; OReceiveUser 2 12; OFinalize 2 12; OSpawn 7; OAddEntity 0 7; OAddUser 0 1; OAddUser 0 2;
   OUpdate (fun _ => true) 0].

Definition at_setup : @WorldServer Z Z TableConn _ _ _ _ :=
  match run setup WorldServer_new with Ok s => s | _ => WorldServer_new end.

Lemma keys_spec {V : Type} (m : gmap Z V) a : a ∈ keys m <-> is_Some (m !! a).
Proof.
  unfold keys. rewrite list_elem_of_fmap. split.
  - intros ([k v] & -> & H%elem_of_map_to_list). eauto.
  - intros [v H]. exists (a, v). split; [reflexivity|]. now apply elem_of_map_to_list.
Qed.

Lemma setup_reachable : server_reachable elements elements elements elements map_to_list keys keys values new_table at_setup.
Proof.
  apply (history_reachable _ _ _ _ _ _ _ _ _ setup WorldServer_new); [constructor| |vm_compute; reflexivity].
  cbn [setup allowed_along].
  repeat (match goal with |- match ?x with _ => _ end => let v := eval vm_compute in x in change x with v; cbn [allowed_along] end || split);
    vm_compute; eauto; try reflexivity.
Qed.

Lemma new_table_ok (d : @GlobalDiffHandler GlobalEntity ComponentKind _ _ _ _) (h : @Store Z _ _) :
  conn_ok (H := @Store Z _ _) (D := @GlobalDiffHandler GlobalEntity ComponentKind _ _ _ _) (new_table d h).1.
Proof. exact I. Qed.

(** Both users are listed with the entity they share a room with, and the room can go. *)
Lemma rooms_mirror_witness :
  (forall t, t ∈ at_setup.(members).(scope_checks_cache).(tuples) <-> scope_checks_recompute at_setup.(global_entity_map) at_setup.(members) t) /\
  at_setup.(members).(scope_checks_cache).(tuples) = [(0, 1, 7); (0, 2, 7)] /\
  exists s', run [ODestroyRoom 0] at_setup = Ok s'.
Proof.
  destruct (rooms_mirror elements elements elements elements WaitlistSample.walks_elements WaitlistSample.walks_elements WaitlistSample.walks_elements
    map_to_list keys keys_spec keys values new_table new_table_ok at_setup setup_reachable) as (_ & _ & Hc & _ & Hop).
  split; [exact Hc|]. split; [vm_compute; reflexivity|]. destruct (Hop (ODestroyRoom 0) I eq_refl) as (s' & Hs' & _). exists s'. cbn [run foldM].
  now rewrite Hs'.
Defined.

(** Both connections replicate entity 0; after the despawn neither does. *)
Lemma despawn_clears_entity_witness :
  (exists c, conn_at at_setup 11 = Some c /\ conn_has (H := @Store Z _ _) (D := @GlobalDiffHandler GlobalEntity ComponentKind _ _ _ _) c 0 = true) /\
  exists s', despawn_entity_worldless elements elements elements keys 7 at_setup = Ok s' /\ forgotten s' 0 7.
Proof.
  split; [eexists; split; vm_compute; reflexivity|].
  destruct (despawn_clears_entity elements elements elements WaitlistSample.walks_elements WaitlistSample.walks_elements keys keys_spec at_setup 7 0) as (s' & Hs' & _ & Hf & _).
  - exact (server_reachable_ok elements elements elements elements WaitlistSample.walks_elements WaitlistSample.walks_elements WaitlistSample.walks_elements
      map_to_list keys keys_spec keys values new_table new_table_ok at_setup setup_reachable).
  - reflexivity.
  - exists s'. split; [exact Hs'|exact Hf].
Defined.
End RoomsSample.
