(* ===== verification/ScopeHazards.v ===== *)
(** Ways out of scope on which the server and its documents part, shown on the connections of
    [Table]: leaving a room goes through the room's removal queue before the queue of scope
    changes, and destroying a room drops its removal queue. *)

From Stdlib Require Import ZArith Lia.
From stdpp Require Import base numbers option list gmap sets.
From S2P Require Import Prelude Kinds EntityTypes SyncEngine DiffHandlers EntityMaps Waitlist Authority Rooms RoomsFacts ServerConn Resources ServerWorld WorldServer ServerAuthority ServerScope ServerRooms.
Import Table RoomsSample.

Section Removal.
Context {E A C : Type} {eqE : EqDecision E} {cE : Countable E} {eqA : EqDecision A} {cA : Countable A}.
Abbreviation Heap := (@Store A eqA cA).
Abbreviation Diffs := (@GlobalDiffHandler GlobalEntity ComponentKind _ _ _ _).
Context {conn : WorldConn C Heap Diffs} {laws : ConnLaws C Heap Diffs}.
Abbreviation Server := (@WorldServer E A C eqE cE eqA cA).

(** An entry of a room's removal queue despawns the entity on the user's connection when no
    room is shared any more, whatever its scope-exit policy is, whoever holds it and whether or
    not the user was explicitly included. *)
Theorem removal_despawns (s : Server) u x c e : user_of s u = Some x -> conn_at s x.(data_addr) = Some c -> conn_ok c ->
  in_common_room s x e = false -> conn_has c e = true ->
  exists c', removal_step (u, e) s = Ok (set_conn x.(data_addr) c' s) /\ conn_ok c' /\ conn_has c' e = false /\ same_elsewhere e c c'.
Proof using Type.
  intros Hu Hc Hok Hroom Hh. unfold removal_step. rewrite Hu, Hc, Hroom, Hh. cbn [negb].
  destruct (conn_despawn_law e c Hok Hh) as (c' & -> & Hok' & Hhas & _ & Hau & Hpa). rewrite bind_ok. exists c'. split; [reflexivity|].
  split; [exact Hok'|]. split; [now rewrite Hhas, bool_decide_true|]. intros e' Hne. rewrite Hhas, Hpa, Hau, decide_False by exact Hne.
  now rewrite bool_decide_false.
Qed.
End Removal.

Module Hazards.
Abbreviation Sample := (@WorldServer Z Z TableConn _ _ _ _).

Definition sees (s : Sample) (addr : Z) (e : GlobalEntity) : option bool := (fun c => table_has c e) <$> conn_at s addr.
Definition persist (w : Z) (s : Sample) : res Sample :=
  configure_entity_replication elements elements map_to_list keys 0 w (persist_on_scope_exit config_public) s.
Definition update : @server_op Z Z := OUpdate (fun _ => true) 0.

(** A Persist entity is paused when it is excluded, and despawned when the user leaves the room. *)
Example persist_depends_on_the_way_out :
  (s ← persist 7 at_setup; s ← run [OSetScope 1 7 false; update] s; Ok (sees s 11 0)) = Ok (Some true) /\
  (s ← persist 7 at_setup; s ← run [ORemoveUser 0 1; update] s; Ok (sees s 11 0)) = Ok (Some false).
Proof. split; vm_compute; reflexivity. Qed.

(** Clients keep the entities of a destroyed room. *)
Example destroyed_room_keeps_entities :
  (s ← run [ODestroyRoom 0; update] at_setup; Ok (sees s 11 0, user_scope_has_entity 1 7 s)) = Ok (Some true, Ok false).
Proof. vm_compute. reflexivity. Qed.

(** A user that was explicitly included loses the entity when it leaves the room, while the
    server says that it has it in scope. *)
Example include_lost_on_leaving :
  (s ← run [OSetScope 1 7 true; update; ORemoveUser 0 1; update] at_setup; Ok (sees s 11 0, user_scope_has_entity 1 7 s)) = Ok (Some false, Ok true).
Proof. vm_compute. reflexivity. Qed.

(** A user that is added to its room again is listed twice with every entity. *)
Example added_twice_listed_twice :
  (s ← run [OAddUser 0 1] at_setup; Ok s.(members).(scope_checks_cache).(tuples)) = Ok [(0, 1, 7); (0, 2, 7); (0, 1, 7)].
Proof. vm_compute. reflexivity. Qed.

(** The holder of a delegated entity keeps its authority when it leaves the room, and loses it
    when it is excluded. *)
Definition held_by_leaver (ops : list (@server_op Z Z)) : res (option bool * bool) :=
  s ← configure_entity_replication elements elements map_to_list keys 0 7 config_delegated at_setup;
  '(_, s) ← entity_handle_client_request_authority map_to_list 1 7 s;
  s ← run ops s;
  Ok (sees s 11 0, SW.user_is_authority_holder s.(global_world_manager) 1 0).

Example leaving_keeps_authority :
  held_by_leaver [OSetScope 1 7 false; update] = Ok (Some false, false) /\
  held_by_leaver [ORemoveUser 0 1; update] = Ok (Some false, true).
Proof. split; vm_compute; reflexivity. Qed.

(** A delegated entity that is despawned stays in the authority registry, with its holder. *)
Example despawned_entity_stays_registered :
  (s ← configure_entity_replication elements elements map_to_list keys 0 7 config_delegated at_setup;
   '(_, s) ← entity_handle_client_request_authority map_to_list 1 7 s;
   s ← run [ODespawn 7] s;
   Ok (SW.has_entity s.(global_world_manager) 0, SW.user_is_authority_holder s.(global_world_manager) 1 0)) = Ok (false, true).
Proof. vm_compute. reflexivity. Qed.

(** Removing an entity from a room it is not in. *)
Example remove_absent_panics : run [OCreateRoom; ORemoveEntity 1 7] at_setup = Panic.
Proof. vm_compute. reflexivity. Qed.

(** User 1 leaves room 0, with entity 0 of policy Persist. *)
Lemma removal_despawns_witness : exists s, persist 7 at_setup = Ok s /\
  exists c', removal_step (1, 0) (room_remove_user elements 0 1 s) = Ok (set_conn 11 c' (room_remove_user elements 0 1 s)) /\ table_has c' 0 = false.
Proof.
  eexists. split; [vm_compute; reflexivity|]. set (s := room_remove_user _ _ _ _).
  destruct (removal_despawns s 1 {| data_addr := 11; rooms_cache := ∅ |} (with_entries {[ 0 := None ]} fresh) 0) as (c' & Hr & _ & Hh & _);
    [vm_compute; reflexivity|vm_compute; reflexivity|exact I|vm_compute; reflexivity|vm_compute; reflexivity|].
  exists c'. split; [exact Hr|exact Hh].
Defined.
End Hazards.
