(* ===== verification/ServerEvents.v ===== *)
(** What the server does with what its clients send about entities, with users that leave and with
    resources ([process_entity_events], [user_disconnect], [despawn_all_remote_entities],
    [insert_resource] and [remove_resource] of [src/server/src/server/world_server.rs];
    [despawn_all_entities] of [src/shared/src/world/shared_global_world_manager.rs]).

    The application's world is known through [WorldMutType]; where only its entities and
    components are told about a change, the call is logged as in [WorldServer]. *)

From Stdlib Require Import ZArith Lia.
From stdpp Require Import base numbers option list gmap sets.
From S2P Require Import Prelude Kinds Wire EntityTypes SyncEngine HostSync DiffHandlers EntityMaps LocalEntities Waitlist RemoteWorld HostWorld LocalWorld Authority Rooms ServerConn Resources ServerWorld WorldServer.

(** What the server asks of a connection about the entities its client owns. *)
Class RemoteConn (C : Type) := {
  conn_remote_spawn : Z -> GlobalEntity -> C -> res C;
  conn_remote_despawn : GlobalEntity -> C -> res C;
  conn_remote_entities : C -> list GlobalEntity
}.

#[global] Instance local_remote_conn {C U F A : Type} (iter_e : gset RemoteEntity -> list RemoteEntity)
    (iter_g : gmap GlobalEntity LocalEntityRecord -> list (GlobalEntity * LocalEntityRecord)) : RemoteConn (@LocalWorldManager C U F A) := {|
  conn_remote_spawn := LocalWorld_remote_spawn_entity iter_e;
  conn_remote_despawn := LocalWorld_remote_despawn_entity;
  conn_remote_entities c := LocalEntityMap.remote_entities iter_g (entity_map c) |}.

(** [SharedGlobalWorldManager::despawn_all_entities], over the converter and the records of
    either side. *)
Section DespawnAll.
Context {W E Comp U F : Type} {world_type : WorldMutType W E Comp U F}.

Definition remove_kind (world_entity : E) (e : GlobalEntity) (kind : ComponentKind) (x : W * list (EntityEvent Comp)) : res (W * list (EntityEvent Comp)) :=
  let '(world, output) := x in
  match remove_component_of_kind world_entity kind world with
  | (Some component, world) => Ok (world, output ++ [EvRemoveComponent e component])
  | (None, _) => Panic
  end.

Definition despawn_all_entities (to_world : GlobalEntity -> res E) (component_kinds : GlobalEntity -> option (list ComponentKind))
    (entities : list GlobalEntity) (world : W) : res (W * list (EntityEvent Comp)) :=
  foldM (fun e '(world, output) =>
    world_entity ← to_world e;
    '(world, output) ← match component_kinds e with
                       | Some kinds => foldM (remove_kind world_entity e) kinds (world, output)
                       | None => Ok (world, output)
                       end;
    Ok (world_despawn_entity world_entity world, output ++ [EvDespawn e])) entities (world, []).
End DespawnAll.

Section Events.
Context (iter_u : gset UserKey -> list UserKey) (iter_e : gset GlobalEntity -> list GlobalEntity)
        (iter_r : gset RoomKey -> list RoomKey) (iter_k : gset ComponentKind -> list ComponentKind).
Context {W E A B C Comp U F : Type} {eqE : EqDecision E} {cE : Countable E} {eqA : EqDecision A} {cA : Countable A}.
Abbreviation Heap := (@Store A eqA cA).
Abbreviation Diffs := (@GlobalDiffHandler GlobalEntity ComponentKind _ _ _ _).
Context {conn : WorldConn C Heap Diffs} {rconn : RemoteConn C} {world_type : WorldMutType W E Comp U F} {replicate : Replicate Comp U F}.
Abbreviation WUser := (@WorldUser A).
Context (iter_us : gmap UserKey WUser -> list (UserKey * WUser)) (iter_cs : gmap A C -> list A).
Abbreviation Server := (@WorldServer E A C eqE cE eqA cA).

(** [global_entity_to_entity(..).unwrap()], and the connection of a user that must have one. *)
Definition world_of (s : Server) (e : GlobalEntity) : res E := unwrap (GlobalEntityMap.GlobalMap_to_entity s.(global_entity_map) e).
Definition user_conn (s : Server) (user_key : UserKey) : res (A * C) :=
  user ← unwrap (user_of s user_key); c ← unwrap (conn_at s user.(data_addr)); Ok (user.(data_addr), c).

Definition shared_with_others (s : Server) (e : GlobalEntity) : bool :=
  SW.entity_is_public_and_client_owned s.(global_world_manager) e || SW.entity_is_delegated s.(global_world_manager) e.

(** The first pass: what changes the records; the rest is deferred. *)
Definition first_pass (now : Z) (user_key : UserKey) (event : EntityEvent Comp) (x : Server * list (EntityEvent Comp))
    : res (Server * list (EntityEvent Comp)) :=
  let '(s, deferred_events) := x in
  match event with
  | EvSpawn e =>
      world_entity ← world_of s e;
      let s := push_event (PushSpawn user_key world_entity) s in
      m ← SW.insert_entity_record e (OwnClient user_key) s.(global_world_manager);
      let s := set_manager m s in
      '(addr, c) ← user_conn s user_key;
      c ← conn_remote_spawn now e c;
      Ok (set_conn addr c s, deferred_events)
  | EvDespawn e =>
      world_entity ← world_of s e;
      Ok (push_event (PushDespawn user_key world_entity) s, deferred_events ++ [EvDespawn e])
  | EvInsertComponent e kind =>
      world_entity ← world_of s e;
      let s := push_event (PushInsert user_key world_entity kind) s in
      m ← SW.insert_component_record e kind s.(global_world_manager);
      let s := set_manager m s in
      if shared_with_others s e then
        let s := call_world (WComponentPublish world_entity kind) s in
        let s := if SW.entity_is_delegated s.(global_world_manager) e then call_world (WComponentEnableDelegation world_entity kind) s else s in
        s ← insert_new_component_into_entity_scopes iter_cs now e kind (Some user_key) s;
        Ok (s, deferred_events)
      else Ok (s, deferred_events)
  | EvRemoveComponent e component =>
      let kind := component_kind component in
      world_entity ← world_of s e;
      let s := push_event (PushRemove user_key world_entity kind) s in
      if shared_with_others s e then
        s ← remove_component_worldless iter_cs world_entity kind s; Ok (s, deferred_events)
      else
        m ← SW.remove_component_record e kind s.(global_world_manager); Ok (set_manager m s, deferred_events)
  | EvUpdateComponent _ e kind =>
      world_entity ← world_of s e; Ok (push_event (PushUpdate user_key world_entity kind) s, deferred_events)
  | _ => Ok (s, deferred_events ++ [event])
  end.

(** The second pass: publication, delegation and authority; what is left is deferred again. *)
Definition second_pass (now : Z) (user_key : UserKey) (event : EntityEvent Comp) (x : Server * list (EntityEvent Comp))
    : res (Server * list (EntityEvent Comp)) :=
  let '(s, extra_deferred_events) := x in
  match event with
  | EvPublish e =>
      world_entity ← world_of s e;
      '(_, s) ← publish_entity iter_r e world_entity false s;
      Ok (push_event (PushPublish user_key world_entity) s, extra_deferred_events)
  | EvUnpublish e =>
      world_entity ← world_of s e;
      s ← unpublish_entity iter_k iter_cs e world_entity false s;
      Ok (push_event (PushUnpublish user_key world_entity) s, extra_deferred_events)
  | EvEnableDelegation e =>
      world_entity ← world_of s e;
      s ← entity_enable_delegation iter_us now e world_entity (Some user_key) s;
      Ok (push_event (PushDelegate user_key world_entity) s, extra_deferred_events)
  | EvEnableDelegationResponse e => Ok (s, extra_deferred_events)
  | EvDisableDelegation _ => Panic
  | EvRequestAuthority e =>
      world_entity ← world_of s e;
      '(r, s) ← entity_handle_client_request_authority iter_us user_key world_entity s;
      Ok (match r with inl _ => push_event (AuthDenied user_key world_entity) s | inr _ => s end, extra_deferred_events)
  | EvReleaseAuthority e =>
      world_entity ← world_of s e;
      '(r, s) ← entity_release_authority iter_us (Some user_key) world_entity s;
      Ok (match r with inr _ => push_event (AuthReset world_entity) s | inl _ => s end, extra_deferred_events)
  | EvSetAuthority _ _ => Panic
  | EvMigrateResponse _ _ => Panic
  | _ => Ok (s, extra_deferred_events ++ [event])
  end.

(** The last pass: despawns. *)
Definition last_pass (user_key : UserKey) (event : EntityEvent Comp) (s : Server) : res Server :=
  match event with
  | EvDespawn e =>
      world_entity ← world_of s e;
      let s := push_event (PushDespawn user_key world_entity) s in
      if shared_with_others s e then
        '(addr, c) ← user_conn s user_key;
        c ← conn_remote_despawn e c;
        despawn_entity_worldless iter_u iter_r iter_k iter_cs world_entity (set_conn addr c s)
      else
        m ← SW.remove_entity_record e s.(global_world_manager);
        g ← GlobalEntityMap.despawn_by_global e s.(global_entity_map);
        Ok (set_entities g (set_manager m s))
  | _ => Panic
  end.

Definition process_entity_events (now : Z) (user_key : UserKey) (response_events : list (EntityEvent Comp)) (s : Server) : res Server :=
  '(s, deferred_events) ← foldM (first_pass now user_key) response_events (s, []);
  '(s, extra_deferred_events) ← foldM (second_pass now user_key) deferred_events (s, []);
  foldM (last_pass user_key) extra_deferred_events s.

(** * Users that leave *)

Definition despawn_all_remote_entities (now : Z) (user_key : UserKey) (world : W) (s : Server) : res (W * Server) :=
  '(_, c) ← user_conn s user_key;
  '(world, entity_events) ← despawn_all_entities (world_of s) (SW.component_kinds iter_k s.(global_world_manager)) (conn_remote_entities c) world;
  s ← process_entity_events now user_key entity_events s;
  Ok (world, s).

Definition user_disconnect (client_authoritative_entities : bool) (now : Z) (user_key : UserKey) (reason : DisconnectReason) (world : W) (s : Server) : res (W * Server) :=
  '(world, s) ← (if client_authoritative_entities then
                   '(world, s) ← despawn_all_remote_entities now user_key world s;
                   s ← release_owned_entities iter_e iter_us user_key s; Ok (world, s)
                 else Ok (world, s));
  '(_, s) ← user_delete iter_e iter_r user_key s;
  Ok (world, push_event (PushDisconnection user_key reason) s).

(** The flag [manual_disconnect] of a connection, by its address, and the queue of users that will
    be disconnected. *)
Record Disconnects := mkDisconnects { manual_disconnect : gset A; outstanding_disconnects : list (UserKey * DisconnectReason) }.

Definition user_queue_disconnect (user_key : UserKey) (reason : DisconnectReason) (s : Server) (d : Disconnects) : Disconnects :=
  match user_of s user_key with
  | None => d
  | Some user =>
      match conn_at s user.(data_addr) with
      | None => d
      | Some _ => if decide (user.(data_addr) ∈ d.(manual_disconnect)) then d
                  else {| manual_disconnect := {[user.(data_addr)]} ∪ d.(manual_disconnect);
                          outstanding_disconnects := d.(outstanding_disconnects) ++ [(user_key, reason)] |}
      end
  end.

(** [connection_user] and [should_drop] are the user key and the timeout of the connection at an
    address; [ringing] says whether the timeout timer rings. *)
Definition handle_disconnects (ringing : bool) (connection_user : A -> UserKey) (should_drop : A -> bool) (s : Server) (d : Disconnects) : Disconnects :=
  if ringing then
    let user_disconnects := map connection_user
      (filter (fun addr => should_drop addr && negb (bool_decide (addr ∈ d.(manual_disconnect))) = true) (iter_cs s.(user_connections))) in
    {| manual_disconnect := d.(manual_disconnect);
       outstanding_disconnects := d.(outstanding_disconnects) ++ map (fun user_key => (user_key, TimedOut)) user_disconnects |}
  else d.

(** The connection of a disconnected user is dropped, and its flag with it. *)
Definition drop_flag (user_key : UserKey) (s : Server) (flags : gset A) : gset A :=
  match user_of s user_key with Some user => flags ∖ {[user.(data_addr)]} | None => flags end.

Definition process_disconnects (client_authoritative_entities : bool) (now : Z) (world : W) (s : Server) (d : Disconnects) : res (W * Server * Disconnects) :=
  '(world, s, flags) ← foldM (fun '(user_key, reason) '(world, s, flags) =>
                                 let flags := drop_flag user_key s flags in
                                 '(world, s) ← user_disconnect client_authoritative_entities now user_key reason world s; Ok (world, s, flags))
                              d.(outstanding_disconnects) (world, s, d.(manual_disconnect));
  Ok (world, s, {| manual_disconnect := flags; outstanding_disconnects := [] |}).

(** * Resources *)

(** [world_entity] is the entity that [world.spawn_entity()] returned; the component that carries
    the resource is known as in [insert_component_worldless]. *)
Definition insert_resource (ks : Kinds ComponentKind B) (now : Z) (type_id : TypeId) (world_entity : E) (kind : ComponentKind)
    (immutable : bool) (diff_mask_size : Z) (static : bool) (keys : gmap UserKey WUser -> list UserKey) (s : Server) : res (option E * Server) :=
  s ← (if static then spawn_static_entity_inner world_entity s else spawn_entity_inner world_entity s);
  e ← global_of s world_entity;
  match Registry_insert type_id e s.(resource_registry) with
  | ResourceAlreadyExists =>
      s ← despawn_entity_worldless iter_u iter_r iter_k iter_cs world_entity s;
      Ok (None, call_world (WDespawn world_entity) s)
  | Registered r =>
      '(_, _, s) ← insert_component_worldless iter_cs ks now world_entity kind immutable diff_mask_size (set_registry r s);
      s ← foldM (fun user_key => user_scope_set_entity iter_us user_key world_entity true) (keys s.(members).(user_store).(store_users)) s;
      Ok (Some world_entity, s)
  end.

Definition remove_resource (type_id : TypeId) (s : Server) : res (bool * Server) :=
  match Registry_remove type_id s.(resource_registry) with
  | (None, _) => Ok (false, s)
  | (Some e, r) =>
      let s := set_registry r s in
      match GlobalEntityMap.GlobalMap_to_entity s.(global_entity_map) e with
      | None => Ok (true, s)
      | Some world_entity =>
          s ← despawn_entity_worldless iter_u iter_r iter_k iter_cs world_entity s;
          Ok (true, call_world (WDespawn world_entity) s)
      end
  end.

Definition resource_entity (s : Server) (type_id : TypeId) : option E :=
  e ← entity_for s.(resource_registry) type_id; GlobalEntityMap.GlobalMap_to_entity s.(global_entity_map) e.
Definition has_resource (s : Server) (type_id : TypeId) : bool := bool_decide (is_Some (entity_for s.(resource_registry) type_id)).
Definition resource_authority_status (s : Server) (type_id : TypeId) : res (option EntityAuthStatus) :=
  match resource_entity s type_id with Some world_entity => entity_authority_status world_entity s | None => Ok None end.
End Events.
