(* ===== verification/ServerEventFacts.v ===== *)
(** What the three passes over a client's events amount to, who sees a resource, and what a private
    entity leaves behind. *)

From Stdlib Require Import ZArith Lia.
From stdpp Require Import base numbers option list gmap sets.
From S2P Require Import Prelude Kinds Wire EntityTypes SyncEngine HostSync DiffHandlers EntityMaps LocalEntities Waitlist WaitlistRefine RemoteWorld HostWorld LocalWorld Authority Rooms RoomsFacts ServerConn Resources ServerWorld WorldServer ServerScope ServerRooms ServerEvents.

(** The pass that handles an event; a despawn is announced in the first and done in the last. *)
Definition acts_first {Comp : Type} (event : EntityEvent Comp) : bool :=
  match event with EvSpawn _ | EvDespawn _ | EvInsertComponent _ _ | EvRemoveComponent _ _ | EvUpdateComponent _ _ _ => true | _ => false end.
Definition acts_last {Comp : Type} (event : EntityEvent Comp) : bool := match event with EvDespawn _ => true | _ => false end.

Section Phases.
Context (iter_u : gset UserKey -> list UserKey) (iter_e : gset GlobalEntity -> list GlobalEntity)
        (iter_r : gset RoomKey -> list RoomKey) (iter_k : gset ComponentKind -> list ComponentKind).
Context {E A C Comp U F : Type} {eqE : EqDecision E} {cE : Countable E} {eqA : EqDecision A} {cA : Countable A}.
Abbreviation Heap := (@Store A eqA cA).
Abbreviation Diffs := (@GlobalDiffHandler GlobalEntity ComponentKind _ _ _ _).
Context {conn : WorldConn C Heap Diffs} {rconn : RemoteConn C} {replicate : Replicate Comp U F}.
Context (iter_us : gmap UserKey (@WorldUser A) -> list (UserKey * @WorldUser A)) (iter_cs : gmap A C -> list A).
Abbreviation Server := (@WorldServer E A C eqE cE eqA cA).
Abbreviation Event := (EntityEvent Comp).

(** The effect of a pass on the server alone, and what it defers. *)
Definition first_effect now u (event : Event) (s : Server) : res Server := '(s, _) ← first_pass iter_cs now u event (s, []); Ok s.
Definition second_effect now u (event : Event) (s : Server) : res Server := '(s, _) ← second_pass iter_r iter_k iter_us iter_cs now u event (s, []); Ok s.
Definition first_defers (event : Event) : list Event :=
  if acts_first event && negb (acts_last event) then [] else [event].
Definition second_defers (event : Event) : list Event := if acts_first event then [event] else [].

(** A pass whose steps append what they defer. *)
Lemma foldM_defers {X S : Type} (f : X -> S * list X -> res (S * list X)) (defers : X -> list X) :
  (forall x s d, f x (s, d) = ('(s, _) ← f x (s, []); Ok (s, d ++ defers x))) ->
  forall l s d, foldM f l (s, d) = (s ← foldM (fun x s => '(s, _) ← f x (s, []); Ok s) l s; Ok (s, d ++ concat (map defers l))).
Proof using Type.
  intros Hf. induction l as [|x l IH]; intros s d; cbn [foldM map concat]; [now rewrite app_nil_r|].
  rewrite Hf. destruct (f x (s, [])) as [[s' d']| | |]; [|reflexivity..]. rewrite !bind_ok, IH, app_assoc. reflexivity.
Qed.

(** Case analysis on the calls of a pass, outermost first. *)
Ltac calls :=
  repeat match goal with
  | |- context [mbind _ ?m] =>
      lazymatch m with
      | Ok _ => rewrite !bind_ok
      | mbind _ _ => fail
      | Panic => fail
      | (if ?b then _ else _) => destruct b
      | _ => let x := fresh "x" in destruct m as [x| | |]; [try (destruct x as [? ?]); rewrite ?bind_ok|reflexivity..]
      end
  end; rewrite ?app_nil_r; try reflexivity.

Lemma first_pass_defers now u event (s : Server) d :
  first_pass iter_cs now u event (s, d) = ('(s, _) ← first_pass iter_cs now u event (s, []); Ok (s, d ++ first_defers event)).
Proof using Type.
  destruct event as [e|e|e k|e c|t e k|e|e|e|e|e st|e|e|e|e r]; unfold first_pass, first_defers; cbn [acts_first acts_last andb negb]; calls.
Qed.

Lemma second_pass_defers now u event (s : Server) d :
  second_pass iter_r iter_k iter_us iter_cs now u event (s, d)
  = ('(s, _) ← second_pass iter_r iter_k iter_us iter_cs now u event (s, []); Ok (s, d ++ second_defers event)).
Proof using Type.
  destruct event as [e|e|e k|e c|t e k|e|e|e|e|e st|e|e|e|e r]; unfold second_pass, second_defers; cbn [acts_first]; calls.
Qed.

Definition keep (P : Event -> bool) (l : list Event) : list Event := filter (fun event => P event = true) l.

Lemma concat_keep (f : Event -> list Event) (P : Event -> bool) l :
  (forall event, f event = if P event then [event] else []) -> concat (map f l) = keep P l.
Proof using Type.
  intros Hf. induction l as [|x l IH]; [reflexivity|]. cbn [map concat]. rewrite Hf, IH. unfold keep. rewrite filter_cons.
  destruct (P x); [now rewrite decide_True|now rewrite decide_False].
Qed.

(** The passes as folds over the events they handle. *)
Lemma process_in_phases now u events (s : Server) :
  process_entity_events iter_u iter_r iter_k iter_us iter_cs now u events s
  = (s ← foldM (first_effect now u) (keep acts_first events) s;
     s ← foldM (second_effect now u) (keep (fun event => negb (acts_first event)) events) s;
     foldM (last_pass iter_u iter_r iter_k iter_cs u) (keep acts_last events) s).
Proof using Type.
  assert (forall (f : Event -> Server -> res Server) P l s0, (forall event s0, P event = false -> f event s0 = Ok s0) -> foldM f l s0 = foldM f (keep P l) s0) as Hskip.
  { intros f P l. induction l as [|x l IH]; intros s0 Hf; [reflexivity|]. unfold keep. rewrite filter_cons. destruct (P x) eqn:Hx.
    - rewrite decide_True by reflexivity. cbn [foldM]. destruct (f x s0); [|reflexivity..]. rewrite !bind_ok. now apply IH.
    - rewrite decide_False by discriminate. cbn [foldM]. rewrite Hf, bind_ok by exact Hx. now apply IH. }
  unfold process_entity_events. rewrite (foldM_defers _ first_defers (first_pass_defers now u)). cbn [app].
  fold (first_effect now u). rewrite (Hskip (first_effect now u) acts_first events s) by (intros [] s0 H; easy).
  destruct (foldM (first_effect now u) (keep acts_first events) s) as [s1| | |]; [|reflexivity..]. rewrite !bind_ok.
  rewrite (foldM_defers _ second_defers (second_pass_defers now u)). cbn [app]. fold (second_effect now u).
  rewrite (concat_keep first_defers (fun event => negb (acts_first event && negb (acts_last event)))) by (intros []; reflexivity).
  rewrite (concat_keep second_defers acts_first) by (intros []; reflexivity).
  rewrite (Hskip (second_effect now u) (fun event => negb (acts_first event)) (keep _ events) s1) by (intros [] s0 H; easy).
  assert (forall P Q R : Event -> bool, (forall event, P event && Q event = R event) -> keep P (keep Q events) = keep R events) as Hkk.
  { intros P Q R HR. unfold keep. rewrite list_filter_filter. apply list_filter_iff. intros event. rewrite <- HR, andb_true_iff. reflexivity. }
  rewrite (Hkk (fun event => negb (acts_first event)) _ (fun event => negb (acts_first event))) by (intros []; reflexivity).
  rewrite (Hkk acts_first _ acts_last) by (intros []; reflexivity).
  destruct (foldM (second_effect now u) _ s1) as [s2| | |]; reflexivity.
Qed.

(** C36: The order in which a client's events arrive matters only within each pass: two batches with
    the same spawns, despawns and component events in the same order, and the same events of
    publication, delegation and authority in the same order, leave the same server, however the
    two kinds are interleaved. *)
Theorem events_in_any_interleaving now u events events' (s : Server) :
  keep acts_first events = keep acts_first events' ->
  keep (fun event => negb (acts_first event)) events = keep (fun event => negb (acts_first event)) events' ->
  process_entity_events iter_u iter_r iter_k iter_us iter_cs now u events s
  = process_entity_events iter_u iter_r iter_k iter_us iter_cs now u events' s.
Proof using Type.
  intros H1 H2. rewrite !process_in_phases, H1, H2.
  assert (forall l, keep acts_last l = keep acts_last (keep acts_first l)) as Hl.
  { intros l. unfold keep. rewrite list_filter_filter. apply list_filter_iff. intros []; cbn; intuition congruence. }
  now rewrite (Hl events), (Hl events'), H1.
Qed.
End Phases.

(** * Resources *)
Section Resource.
Context (iter_u : gset UserKey -> list UserKey) (iter_e : gset GlobalEntity -> list GlobalEntity)
        (iter_r : gset RoomKey -> list RoomKey) (iter_k : gset ComponentKind -> list ComponentKind).
Context {E A B C : Type} {eqE : EqDecision E} {cE : Countable E} {eqA : EqDecision A} {cA : Countable A}.
Abbreviation Heap := (@Store A eqA cA).
Abbreviation Diffs := (@GlobalDiffHandler GlobalEntity ComponentKind _ _ _ _).
Context {conn : WorldConn C Heap Diffs} {laws : ConnLaws C Heap Diffs}.
Context (iter_us : gmap UserKey (@WorldUser A) -> list (UserKey * @WorldUser A)) (iter_cs : gmap A C -> list A).
Context (keys : gmap UserKey (@WorldUser A) -> list UserKey) (Hkeys : forall m u, u ∈ keys m <-> is_Some (m !! u)).
Abbreviation Server := (@WorldServer E A C eqE cE eqA cA).
Abbreviation Manager := SW.GlobalWorldManager.

(** Nobody replicates the entity yet. *)
Definition unseen (s : Server) (e : GlobalEntity) : Prop := forall a c, conn_at s a = Some c -> conn_has c e = false.

Lemma insert_unseen now e kind u (s : Server) : unseen s e ->
  insert_new_component_into_entity_scopes iter_cs now e kind u s = Ok (set_heap s.(heap) (set_conns s.(user_connections) s)).
Proof using Type.
  intros Hun. unfold insert_new_component_into_entity_scopes. set (f := fun (addr : A) '(conns, h) => _).
  assert (forall l, foldM f l (s.(user_connections), s.(heap)) = Ok (s.(user_connections), s.(heap))) as ->; [|reflexivity].
  induction l as [|a l IH]; [reflexivity|]. cbn [foldM].
  assert (f a (s.(user_connections), s.(heap)) = Ok (s.(user_connections), s.(heap))) as ->; [|now rewrite bind_ok].
  unfold f. destruct (user_connections s !! a) as [c|] eqn:Hc; [|reflexivity]. case_decide; [reflexivity|]. now rewrite (Hun a c Hc).
Qed.

(** A server-owned, public entity with the components it has. *)
Definition plain (m : Manager) (e : GlobalEntity) : Prop :=
  exists r, m.(SW.entity_records) !! e = Some r /\ r.(owner) = OwnServer /\ r.(replication_config) = config_public.

Lemma plain_private (s : Server) e : plain s.(global_world_manager) e ->
  is_private s e = false /\ (forall u, is_owned_by s u e = false) /\ server_owned s e = true.
Proof using Type.
  intros (r & He & Ho & Hc). unfold is_private, is_owned_by, server_owned, SW.entity_replication_config, SW.entity_owner.
  rewrite He. cbn. rewrite Ho, Hc. now split_and!.
Qed.

(** The component of a new entity goes into its record, and no connection hears of it. *)
Lemma insert_component_plain ks now w e kind immutable mask (s : Server) :
  server_ok s -> GlobalEntityMap.GlobalMap_to_global s.(global_entity_map) w = Some e -> unseen s e ->
  (exists r, s.(global_world_manager).(SW.entity_records) !! e = Some r /\ r.(owner) = OwnServer /\ r.(replication_config) = config_public /\ kind ∉ r.(component_kind_set)) ->
  (immutable = false -> exists chan d h, Global_register_component true ks e kind mask s.(global_world_manager).(SW.diff_handler) s.(heap) = Ok (chan, d, h)) ->
  exists mutator s', insert_component_worldless (B := B) iter_cs ks now w kind immutable mask s = Ok (mutator, None, s') /\
    server_ok s' /\ plain s'.(global_world_manager) e /\ s'.(members) = s.(members) /\ s'.(global_entity_map) = s.(global_entity_map) /\
    s'.(resource_registry) = s.(resource_registry) /\ s'.(entity_scope_map) = s.(entity_scope_map).
Proof using Type.
  intros Hok Hw Hun (r & He & Ho & Hc & Hk) Hreg. unfold insert_component_worldless. rewrite (global_of_ok s w e Hw), bind_ok.
  unfold SW.has_component_record. rewrite He, bool_decide_false by exact Hk. rewrite (insert_unseen now e kind None s Hun), bind_ok.
  unfold SW.insert_component_record, SW.on_record. cbn [global_world_manager set_heap set_conns]. rewrite He. cbn [unwrap]. rewrite !bind_ok.
  set (r' := with_kinds r _). set (m1 := SW.set_records _ _).
  assert (exists mut d h, SW.insert_component_diff_handler ks e immutable kind mask m1 s.(heap) = Ok (mut, SW.set_diffs m1 d, h)) as (mut & d & h & Hd).
  { unfold SW.insert_component_diff_handler. destruct immutable; [exists None, m1.(SW.diff_handler), s.(heap); now destruct m1|].
    destruct (Hreg eq_refl) as (chan & d & h & Hr). unfold SW.register_component. cbn [m1 SW.diff_handler SW.set_records]. rewrite Hr, !bind_ok. eauto. }
  cbn [heap set_heap set_conns]. rewrite Hd, bind_ok. cbn [global_world_manager set_heap set_manager].
  assert (SW.entity_is_delegated (SW.set_diffs m1 d) e = false) as ->.
  { unfold SW.entity_is_delegated, m1. cbn. rewrite lookup_insert_eq. cbn. now rewrite Hc. }
  eexists _, _. split; [reflexivity|]. split; [|split; [|easy]].
  - destruct Hok as [H1 H2 H3 H4 H5]. split; try assumption. intros e'. cbn. rewrite <- H4. unfold m1. cbn. rewrite lookup_insert.
    destruct (decide (e = e')) as [<-|Hne]; [rewrite He; split; eauto|reflexivity].
  - exists r'. split; [|now split]. cbn. apply lookup_insert_eq.
Qed.

(** The users are told one after another. *)
Definition told_of (e : GlobalEntity) (u : UserKey) (s : Server) : Prop :=
  ScopeMap_get s.(entity_scope_map) u e = Some true /\ ScopeToggled u e true ∈ s.(scope_change_queue).

Lemma include_all w e l (s : Server) :
  server_ok s -> GlobalEntityMap.GlobalMap_to_global s.(global_entity_map) w = Some e -> plain s.(global_world_manager) e ->
  exists s', foldM (fun u => user_scope_set_entity iter_us u w true) l s = Ok s' /\ server_ok s' /\
    (s'.(members) = s.(members) /\ s'.(global_entity_map) = s.(global_entity_map) /\ s'.(global_world_manager) = s.(global_world_manager) /\
     s'.(resource_registry) = s.(resource_registry)) /\ forall u, u ∈ l -> told_of e u s'.
Proof using Type.
  intros Hok Hw Hp.
  pose (I := fun s1 : Server => server_ok s1 /\ s1.(members) = s.(members) /\ s1.(global_entity_map) = s.(global_entity_map) /\
    s1.(global_world_manager) = s.(global_world_manager) /\ s1.(resource_registry) = s.(resource_registry)).
  destruct (foldM_mono (fun s1 s2 : Server => forall u, told_of e u s1 -> told_of e u s2) I (told_of e) (fun u => user_scope_set_entity iter_us u w true) l)
    with (s := s) as (s' & Hf & HI & _ & HP); [auto|eauto|auto| |now split|].
  - intros u s1 _ (Hok1 & Hm & Hg & Hgw & Hr). destruct (set_scope_ok iter_us s1 u w true Hok1) as (s2 & Hs2 & Hok2 & _).
    { exists e. rewrite Hg. auto. }
    exists s2. split; [exact Hs2|]. unfold user_scope_set_entity in Hs2. rewrite (global_of_ok s1 w e) in Hs2 by congruence. rewrite bind_ok in Hs2. cbn [negb andb] in Hs2. rewrite bind_ok in Hs2.
    destruct (plain_private s1 e) as (Hpr & _ & _); [now rewrite Hgw|]. rewrite Hpr in Hs2. cbn [negb andb] in Hs2. injection Hs2 as <-.
    split; [|split].
    + now split.
    + intros u' [Ht1 Ht2]. split; cbn [entity_scope_map scope_change_queue push_change set_queue set_scopes].
      * rewrite scope_insert_get. case_decide; [reflexivity|exact Ht1].
      * apply elem_of_app. now left.
    + split; cbn [entity_scope_map scope_change_queue push_change set_queue set_scopes]; [rewrite scope_insert_get; now rewrite decide_True|]. apply elem_of_app. right. now left.
  - exists s'. destruct HI as (? & ? & ? & ? & ?). now split_and!.
Qed.

(** A new resource reaches everybody: its insertion returns, the registry finds its entity, and
    every known user has it in scope, by the query and by the next application of scope, which is
    queued for each of them, although the entity is in no room. *)
Theorem resource_reaches_everyone ks now type_id w kind immutable mask static (s : Server) :
  server_ok s -> GlobalEntityMap.GlobalMap_to_global s.(global_entity_map) w = None ->
  current_index s.(global_entity_map).(GlobalEntityMap.global_to_entity_map) < 2 ^ 64 - 1 ->
  entity_for s.(resource_registry) type_id = None -> (forall e, GlobalEntityMap.GlobalMap_to_entity s.(global_entity_map) e = None -> unseen s e) ->
  (immutable = false -> forall e, exists chan d h, Global_register_component true ks e kind mask s.(global_world_manager).(SW.diff_handler) s.(heap) = Ok (chan, d, h)) ->
  exists e s', insert_resource (B := B) iter_u iter_r iter_k iter_us iter_cs ks now type_id w kind immutable mask static keys s = Ok (Some w, s') /\
    server_ok s' /\ resource_entity s' type_id = Some w /\
    forall u x, user_of s' u = Some x -> user_scope_has_entity u w s' = Ok true /\ should_be_in_scope s' u x e = true /\
      ScopeToggled u e true ∈ s'.(scope_change_queue).
Proof using Hkeys.
  intros Hok Hw Hc Hty Hun Hreg.
  destruct (spawned_ok s w {| component_kind_set := ∅; owner := OwnServer; replication_config := config_public; is_replicating := true; is_static := static |} Hok Hw Hc)
    as (e & g & s1 & Hsp & Hn & Hs1 & Hok1).
  assert ((if static then spawn_static_entity_inner w s else spawn_entity_inner w s) = Ok s1) as Hspawn.
  { subst s1. destruct static; unfold spawn_static_entity_inner, spawn_entity_inner; rewrite Hsp, bind_ok;
      unfold SW.insert_static_entity_record, SW.insert_entity_record; now rewrite Hn. }
  assert (GlobalEntityMap.GlobalMap_to_entity s.(global_entity_map) e = None) as Hne.
  { destruct (GlobalEntityMap.GlobalMap_to_entity s.(global_entity_map) e) eqn:Hx; [|reflexivity].
    assert (is_Some (SW.entity_records (global_world_manager s) !! e)) as [? ?] by (apply (so_records s Hok); eauto). congruence. }
  assert (GlobalEntityMap.GlobalMap_to_global s1.(global_entity_map) w = Some e) as Hw1.
  { destruct (spawn_mapped _ w (so_map s Hok) Hw Hc) as (e' & g' & Hsp' & Hg' & _ & Hto). rewrite Hsp in Hsp'. injection Hsp' as <- <-.
    subst s1. cbn. apply (GlobalEntityMap.gm_mirror _ Hg'). rewrite Hto. now rewrite decide_True. }
  unfold insert_resource. rewrite Hspawn, bind_ok, (global_of_ok s1 w e Hw1), bind_ok.
  assert (resource_registry s1 = resource_registry s /\ user_connections s1 = user_connections s /\ heap s1 = heap s) as (Hr1 & Hc1 & Hh1) by (now subst s1).
  unfold Registry_insert. unfold entity_for in Hty. rewrite Hr1, Hty. set (r := {| by_type := _; by_entity := _ |}).
  destruct (insert_component_plain ks now w e kind immutable mask (set_registry r s1)) as (mut & s2 & -> & Hok2 & Hp2 & Hm2 & Hg2 & Hr2 & _).
  - now destruct Hok1.
  - exact Hw1.
  - intros a c Hx. unfold conn_at in Hx. cbn in Hx. rewrite Hc1 in Hx. exact (Hun e Hne a c Hx).
  - subst s1. eexists. cbn. split; [apply lookup_insert_eq|]. split; [reflexivity|]. split; [reflexivity|]. apply not_elem_of_empty.
  - intros Him. subst s1. cbn. exact (Hreg Him e).
  - rewrite bind_ok. cbn in Hg2, Hr2. destruct (include_all w e (keys s2.(members).(user_store).(store_users)) s2 Hok2) as (s3 & -> & Hok3 & (Hm3 & Hg3 & Hgw3 & Hr3) & Ht);
      [congruence|exact Hp2|].
    rewrite bind_ok. exists e, s3. split; [reflexivity|]. split; [exact Hok3|]. split.
    { unfold resource_entity, entity_for. rewrite Hr3, Hr2. cbn. rewrite lookup_insert_eq. cbn. rewrite Hg3, Hg2.
      now apply (GlobalEntityMap.gm_mirror _ (so_map s1 Hok1)). }
    intros u x Hu. destruct (Ht u) as [Hget Hq].
    { apply Hkeys. unfold user_of, UserStore_get in Hu. rewrite Hm3 in Hu. eauto. }
    destruct (plain_private s3 e) as (Hpr & How & Hso); [now rewrite Hgw3|].
    assert (is_resource_entity (resource_registry s3) e = true) as Hres.
    { unfold is_resource_entity. rewrite Hr3, Hr2. cbn. apply bool_decide_eq_true_2. rewrite lookup_insert_eq. eauto. }
    split; [|split; [|exact Hq]].
    + unfold user_scope_has_entity. rewrite (global_of_ok s3 w e) by congruence. rewrite bind_ok, How, Hpr, Hget, Hres. cbn [negb].
      now rewrite andb_false_r.
    + unfold should_be_in_scope. now rewrite Hget, Hres, andb_false_r.
Qed.
End Resource.

(** * Users queued for disconnection *)
Section Queue.
Context (iter_u : gset UserKey -> list UserKey) (iter_e : gset GlobalEntity -> list GlobalEntity)
        (iter_r : gset RoomKey -> list RoomKey) (iter_k : gset ComponentKind -> list ComponentKind).
Context {W E A C Comp U F : Type} {eqE : EqDecision E} {cE : Countable E} {eqA : EqDecision A} {cA : Countable A}.
Abbreviation Heap := (@Store A eqA cA).
Abbreviation Diffs := (@GlobalDiffHandler GlobalEntity ComponentKind _ _ _ _).
Context {conn : WorldConn C Heap Diffs} {rconn : RemoteConn C} {world_type : WorldMutType W E Comp U F} {replicate : Replicate Comp U F}.
Context (iter_us : gmap UserKey (@WorldUser A) -> list (UserKey * @WorldUser A)) (iter_cs : gmap A C -> list A).
Abbreviation Server := (@WorldServer E A C eqE cE eqA cA).
Abbreviation disconnect := (user_disconnect iter_u iter_e iter_r iter_k iter_us iter_cs).

(** Without client-owned entities a disconnection deletes the user and no other. *)
Lemma leave_rooms_users u (user : @WorldUser A) (m m' : @Membership E A _ _) :
  leave_rooms iter_e iter_r u user m = Ok m' -> m'.(user_store) = m.(user_store).
Proof using Type.
  unfold leave_rooms. apply (foldM_inv (fun m1 => m1.(user_store) = m.(user_store))); [|reflexivity].
  intros r m1 m2 <- H. apply bind_ok_inv in H as (room & _ & H). now injection H as <-.
Qed.

Lemma user_disconnect_deletes now u reason (w w' : W) (s s' : Server) : disconnect false now u reason w s = Ok (w', s') ->
  is_Some (user_of s u) /\ user_of s' u = None /\ forall u', user_of s u' = None -> user_of s' u' = None.
Proof using Type.
  unfold user_disconnect. rewrite bind_ok. intros H. apply bind_ok_inv in H as ([user s1] & Hd & H). injection H as _ <-.
  unfold user_delete, UserStore_remove in Hd. unfold user_of, UserStore_get.
  destruct (store_users (user_store (members s)) !! u) as [x|] eqn:Hx; [|discriminate].
  apply bind_ok_inv in Hd as (m & Hm & Hd). injection Hd as _ <-. apply leave_rooms_users in Hm. cbn in Hm.
  cbn. rewrite Hm. cbn. split; [now eexists|]. split; [apply lookup_delete_eq|].
  intros u' Hu'. apply lookup_delete_None. now right.
Qed.

Lemma queued_twice l1 l2 u r1 r2 now (w : W) (s : Server) d : (u, r1) ∈ l1 -> (u, r2) ∈ l2 -> d.(outstanding_disconnects) = l1 ++ l2 ->
  forall x, process_disconnects iter_u iter_e iter_r iter_k iter_us iter_cs false now w s d <> Ok x.
Proof using Type.
  intros H1 H2 Hd x H. unfold process_disconnects in H. rewrite Hd in H. apply bind_ok_inv in H as (y & H & _). clear Hd x.
  apply list_elem_of_split in H1 as (a1 & b1 & ->). apply list_elem_of_split in H2 as (a2 & b2 & ->).
  rewrite foldM_app in H. apply bind_ok_inv in H as (y2 & H1 & H2).
  rewrite foldM_app in H1. apply bind_ok_inv in H1 as (y1 & _ & H1). cbn [foldM] in H1. apply bind_ok_inv in H1 as (y3 & Hu & H1).
  pose (gone := fun y : W * Server * gset A => user_of y.1.2 u = None).
  assert (forall a y y', gone y -> (fun '(user_key, reason) '(world, s, flags) =>
      let flags := drop_flag user_key s flags in '(world, s) ← disconnect false now user_key reason world s; Ok (world, s, flags)) a y = Ok y' -> gone y') as Hstep.
  { intros [u' r'] [[w1 s1] f1] y' Hg H. cbv beta iota zeta in H. apply bind_ok_inv in H as ([w2 s2] & H & H'). injection H' as <-.
    apply user_disconnect_deletes in H as (_ & _ & H). exact (H u Hg). }
  assert (gone y3) as Hg3.
  { destruct y1 as [[w1 s1] f1]. cbv beta iota zeta in Hu. apply bind_ok_inv in Hu as ([w2 s2] & H & H'). injection H' as <-.
    apply user_disconnect_deletes in H as (_ & H & _). exact H. }
  apply (foldM_inv gone) in H1; [|exact Hstep|exact Hg3].
  rewrite foldM_app in H2. apply bind_ok_inv in H2 as (y4 & H2 & H3). apply (foldM_inv gone) in H2; [|exact Hstep|exact H1].
  cbn [foldM] in H3. apply bind_ok_inv in H3 as (y5 & H3 & _). destruct y4 as [[w1 s1] f1]. cbv beta iota zeta in H3.
  apply bind_ok_inv in H3 as ([w2 s2] & H3 & _). apply user_disconnect_deletes in H3 as ([v Hv] & _). unfold gone in H2. cbn in H2. congruence.
Qed.

(** A user whose connection times out and who is kicked, or says goodbye, before the queue of
    disconnections is worked off is queued twice, because a time-out does not set the connection's
    [manual_disconnect]; working off the queue then never succeeds: the second deletion panics. *)
Theorem timed_out_and_kicked_panics now (w : W) (s : Server) d u user reason (connection_user : A -> UserKey) should_drop :
  user_of s u = Some user -> is_Some (conn_at s user.(data_addr)) -> user.(data_addr) ∈ iter_cs s.(user_connections) ->
  connection_user user.(data_addr) = u -> should_drop user.(data_addr) = true -> user.(data_addr) ∉ d.(manual_disconnect) ->
  forall x, process_disconnects iter_u iter_e iter_r iter_k iter_us iter_cs false now w s
    (user_queue_disconnect u reason s (handle_disconnects iter_cs true connection_user should_drop s d)) <> Ok x.
Proof using Type.
  intros Hu [c Hc] Hin Hcu Hdrop Hm.
  eapply (queued_twice _ [(u, reason)] u TimedOut reason).
  2: { now left. }
  2: { unfold user_queue_disconnect. rewrite Hu, Hc. cbn [handle_disconnects manual_disconnect]. rewrite decide_False by exact Hm.
      cbn [outstanding_disconnects]. reflexivity. }
  cbn [outstanding_disconnects handle_disconnects]. apply elem_of_app. right. apply list_elem_of_fmap. exists u. split; [reflexivity|].
  apply list_elem_of_fmap. exists user.(data_addr). split; [congruence|]. apply list_elem_of_filter. split; [|exact Hin].
  rewrite Hdrop. cbn. now rewrite bool_decide_eq_false_2.
Qed.
End Queue.

Module EventsSample.
Import Table RoomsSample.

(** Components are known by their kind; the table gains an entry for an entity of its client. *)
#[export] Instance sample_replicate : Replicate Z unit unit := {|
  component_kind c := c; relations_waiting _ := None; relations_complete _ c := Ok c;
  update_kind _ := 0; field_id _ := 0; split_into_waiting_and_ready _ _ := None |}.
#[export] Instance sample_remote : RemoteConn TableConn := {|
  conn_remote_spawn _ e c := Ok (with_entries (<[e := None]> c.(entries)) c);
  conn_remote_despawn e c := if table_has c e then Ok c else Panic;
  conn_remote_entities c := [] |}.

Abbreviation Sample := (@WorldServer Z Z TableConn _ _ _ _).

(** World entity 9, number 1, was spawned for user 2. *)
Definition with_client_entity : Sample :=
  match GlobalEntityMap.GlobalMap_spawn 9 None at_setup.(global_entity_map) with Ok (_, g) => set_entities g at_setup | _ => at_setup end.

Definition events_of (events : list (EntityEvent Z)) (s : Sample) : res Sample :=
  process_entity_events elements elements elements map_to_list keys 0 2 events s.

(** The publication may overtake the spawn it belongs to. *)
Lemma events_in_any_interleaving_witness :
  events_of [EvPublish 1; EvSpawn 1; EvInsertComponent 1 3] with_client_entity = events_of [EvSpawn 1; EvInsertComponent 1 3; EvPublish 1] with_client_entity /\
  exists s, events_of [EvPublish 1; EvSpawn 1; EvInsertComponent 1 3] with_client_entity = Ok s /\ SW.entity_is_public_and_client_owned s.(global_world_manager) 1 = true.
Proof.
  split; [|eexists; split; vm_compute; reflexivity].
  apply (events_in_any_interleaving elements elements elements map_to_list keys 0 2); reflexivity.
Defined.

(** A private entity that its client despawns stays in its room, and its world entity in the
    triples that scope checks walk. *)
Example private_despawn_leaves_room :
  (s ← events_of [EvSpawn 1] with_client_entity;
   s ← room_add_entity elements 0 9 s;
   s ← events_of [EvDespawn 1] s;
   Ok (GlobalEntityMap.GlobalMap_to_entity s.(global_entity_map) 1, RoomStore_has_entity s.(members).(room_store) 0 1,
       s.(members).(scope_checks_cache).(tuples)))
  = Ok (None, true, [(0, 1, 7); (0, 2, 7); (0, 2, 9); (0, 1, 9)]).
Proof. vm_compute. reflexivity. Qed.

(** The application hears of a despawn twice. *)
Example despawn_announced_twice :
  (s ← events_of [EvSpawn 1; EvDespawn 1] with_client_entity; Ok s.(incoming_world_events))
  = Ok (with_client_entity.(incoming_world_events) ++ [PushSpawn 2 9; PushDespawn 2 9; PushDespawn 2 9]).
Proof. vm_compute. reflexivity. Qed.

(** A client that sends one of the server's messages stops the server. *)
Example server_messages_panic :
  events_of [EvDisableDelegation 0] with_client_entity = Panic /\ events_of [EvSetAuthority 0 Granted] with_client_entity = Panic /\
  events_of [EvMigrateResponse 0 (mkRemoteEntity 5 false)] with_client_entity = Panic.
Proof. split_and!; vm_compute; reflexivity. Qed.

Lemma setup_unseen e : GlobalEntityMap.GlobalMap_to_entity at_setup.(global_entity_map) e = None ->
  unseen at_setup e.
Proof.
  intros He a c Hc. assert (e <> 0) as Hne.
  { intros ->. vm_compute in He. discriminate. }
  assert (user_connections at_setup = {[ 11 := with_entries {[ 0 := None ]} fresh; 12 := with_entries {[ 0 := None ]} fresh ]}) as Hcs by (vm_compute; reflexivity).
  unfold conn_at in Hc. rewrite Hcs in Hc. change (table_has c e = false). unfold table_has. apply bool_decide_eq_false_2.
  apply lookup_insert_Some in Hc as [[_ <-]|[_ Hc]]; [|apply lookup_singleton_Some in Hc as [_ <-]];
    cbn; rewrite lookup_singleton_ne by congruence; now intros [].
Qed.

(** Resource type 100, an immutable component of kind 3 on world entity 8, with users 1 and 2. *)
Lemma resource_reaches_everyone_witness :
  exists s', insert_resource elements elements elements map_to_list keys (Kinds_new : Kinds ComponentKind unit) 0 100 8 3 true 1 false keys at_setup = Ok (Some 8, s') /\
    user_scope_has_entity 1 8 s' = Ok true /\ user_scope_has_entity 2 8 s' = Ok true.
Proof.
  destruct (resource_reaches_everyone elements elements elements map_to_list keys keys keys_spec (Kinds_new : Kinds ComponentKind unit) 0 100 8 3 true 1 false at_setup)
    as (e & s' & Hr & _ & _ & Hu).
  - apply (server_reachable_ok elements elements elements elements WaitlistRefine.WaitlistSample.walks_elements WaitlistRefine.WaitlistSample.walks_elements
      WaitlistRefine.WaitlistSample.walks_elements map_to_list keys keys_spec keys values new_table new_table_ok at_setup setup_reachable).
  - vm_compute. reflexivity.
  - vm_compute. reflexivity.
  - vm_compute. reflexivity.
  - exact setup_unseen.
  - discriminate.
  - exists s'. split; [exact Hr|]. vm_compute in Hr. injection Hr as <-. split; eapply Hu; vm_compute; reflexivity.
Defined.

(** User 1 at address 11 times out and is kicked. *)
#[local] Instance no_world : WorldMutType unit Z Z unit unit := {|
  world_spawn_entity w := (0, w); world_despawn_entity _ w := w; insert_boxed_component _ _ w := w; remove_component_of_kind _ _ w := (None, w);
  component_apply_update _ _ _ _ w := (true, w); component_apply_field_update _ _ _ _ w := (true, w) |}.

Definition queued : @Disconnects Z _ _ :=
  user_queue_disconnect 1 Kicked at_setup (handle_disconnects keys true (fun addr => addr - 10) (fun addr => addr =? 11) at_setup (mkDisconnects ∅ [])).
Lemma timed_out_and_kicked_panics_witness :
  queued.(outstanding_disconnects) = [(1, TimedOut); (1, Kicked)] /\ forall x, process_disconnects elements elements elements elements map_to_list keys false 0 tt at_setup queued <> Ok x.
Proof.
  split; [vm_compute; reflexivity|].
  eapply (timed_out_and_kicked_panics elements elements elements elements map_to_list keys 0 tt at_setup (mkDisconnects ∅ []) 1).
  - vm_compute. reflexivity.
  - vm_compute. eauto.
  - apply (bool_decide_eq_true_1 (11 ∈ keys at_setup.(user_connections))). vm_compute. reflexivity.
  - reflexivity.
  - reflexivity.
  - apply not_elem_of_empty.
Defined.
End EventsSample.
