(* ===== verification/ClientWorld.v ===== *)
(** The client's record of the world's entities: [GlobalWorldManager]
    ([src/client/src/world/global_world_manager.rs]) with its records
    ([global_entity_record.rs], [entity_owner.rs]).

    As on the server, [iter_k] is the order in which a set of component kinds is walked, and a
    component is known by its kind and the length of its diff mask. *)

From Stdlib Require Import ZArith Lia.
From stdpp Require Import base numbers option list gmap sets.
From S2P Require Import Prelude Kinds EntityTypes DiffHandlers Waitlist Authority ServerWorld.

Module CW.
(** Constructors carry the prefix [Of]. *)
Inductive EntityOwner := OfServer | OfClient | OfLocal.

#[global] Instance EntityOwner_eq_dec : EqDecision EntityOwner.
Proof. solve_decision. Defined.

Definition is_server (o : EntityOwner) : bool := match o with OfServer => true | _ => false end.
Definition is_client (o : EntityOwner) : bool := match o with OfClient => true | _ => false end.

Record GlobalEntityRecord := mkRecord {
  kind_set : gset ComponentKind;
  owner : EntityOwner;
  replication_config : Publicity;
  is_replicating : bool
}.

Definition Record_new (o : EntityOwner) : res GlobalEntityRecord :=
  if decide (o = OfLocal) then Panic
  else Ok {| kind_set := ∅; owner := o; replication_config := if is_server o then Public else Private; is_replicating := true |}.

Definition set_owner (r : GlobalEntityRecord) (o : EntityOwner) : GlobalEntityRecord :=
  {| kind_set := r.(kind_set); owner := o; replication_config := r.(replication_config); is_replicating := r.(is_replicating) |}.
Definition set_replication_config (r : GlobalEntityRecord) (p : Publicity) : GlobalEntityRecord :=
  {| kind_set := r.(kind_set); owner := r.(owner); replication_config := p; is_replicating := r.(is_replicating) |}.
Definition with_kinds (r : GlobalEntityRecord) (ks : gset ComponentKind) : GlobalEntityRecord :=
  {| kind_set := ks; owner := r.(owner); replication_config := r.(replication_config); is_replicating := r.(is_replicating) |}.

Definition has_component (r : GlobalEntityRecord) (k : ComponentKind) : bool := bool_decide (k ∈ r.(kind_set)).
Definition insert_component (k : ComponentKind) (r : GlobalEntityRecord) : res GlobalEntityRecord :=
  if decide (k ∈ r.(kind_set)) then Panic else Ok (with_kinds r ({[k]} ∪ r.(kind_set))).
Definition remove_component (k : ComponentKind) (r : GlobalEntityRecord) : res GlobalEntityRecord :=
  if decide (k ∈ r.(kind_set)) then Ok (with_kinds r (r.(kind_set) ∖ {[k]})) else Panic.

Section Manager.
Context {A B : Type} {eqA : EqDecision A} {cA : Countable A}.
Context (iter_k : gset ComponentKind -> list ComponentKind).
Abbreviation Diffs := (@GlobalDiffHandler GlobalEntity ComponentKind _ _ _ _).
Abbreviation Heap := (@Store A eqA cA).

Record GlobalWorldManager := mkManager {
  auth_handler : Auth.HostAuthHandler;
  diff_handler : Diffs;
  entity_records : gmap GlobalEntity GlobalEntityRecord
}.

Definition Manager_new : GlobalWorldManager :=
  {| auth_handler := Auth.HostAuth_new; diff_handler := Global_new; entity_records := ∅ |}.

Definition set_records (self : GlobalWorldManager) (m : gmap GlobalEntity GlobalEntityRecord) : GlobalWorldManager :=
  {| auth_handler := self.(auth_handler); diff_handler := self.(diff_handler); entity_records := m |}.
Definition set_auth (self : GlobalWorldManager) (h : Auth.HostAuthHandler) : GlobalWorldManager :=
  {| auth_handler := h; diff_handler := self.(diff_handler); entity_records := self.(entity_records) |}.
Definition set_diffs (self : GlobalWorldManager) (d : Diffs) : GlobalWorldManager :=
  {| auth_handler := self.(auth_handler); diff_handler := d; entity_records := self.(entity_records) |}.

Definition has_entity (self : GlobalWorldManager) (e : GlobalEntity) : bool := bool_decide (is_Some (self.(entity_records) !! e)).
Definition entity_owner (self : GlobalWorldManager) (e : GlobalEntity) : option EntityOwner := owner <$> self.(entity_records) !! e.

(** [host_spawn_entity] and [remote_spawn_entity] *)
Definition spawn_as (o : EntityOwner) (e : GlobalEntity) (self : GlobalWorldManager) : res GlobalWorldManager :=
  match self.(entity_records) !! e with
  | Some _ => Panic
  | None => record ← Record_new o; Ok (set_records self (<[e := record]> self.(entity_records)))
  end.
Definition host_spawn_entity : GlobalEntity -> GlobalWorldManager -> res GlobalWorldManager := spawn_as OfClient.
Definition remote_spawn_entity : GlobalEntity -> GlobalWorldManager -> res GlobalWorldManager := spawn_as OfServer.

(** A write to an entity's record; [Panic] where the entity has none. *)
Definition on_record (e : GlobalEntity) (f : GlobalEntityRecord -> res GlobalEntityRecord) (self : GlobalWorldManager) : res GlobalWorldManager :=
  record ← unwrap (self.(entity_records) !! e);
  record ← f record;
  Ok (set_records self (<[e := record]> self.(entity_records))).

Definition component_kinds (self : GlobalWorldManager) (e : GlobalEntity) : option (list ComponentKind) :=
  (fun r => iter_k r.(kind_set)) <$> self.(entity_records) !! e.

Definition register_component (ks : Kinds ComponentKind B) (e : GlobalEntity) (k : ComponentKind) (diff_mask_length : Z)
    (self : GlobalWorldManager) (st : Heap) : res (nat * GlobalWorldManager * Heap) :=
  '(chan, d, st) ← Global_register_component false ks e k diff_mask_length self.(diff_handler) st;
  Ok (chan, set_diffs self d, st).

(** The channel is the mutator the component is given. *)
Definition host_insert_component (ks : Kinds ComponentKind B) (e : GlobalEntity) (k : ComponentKind) (diff_mask_size : Z)
    (self : GlobalWorldManager) (st : Heap) : res (nat * GlobalWorldManager * Heap) :=
  self ← on_record e (insert_component k) self; register_component ks e k diff_mask_size self st.

Definition host_remove_component (e : GlobalEntity) (k : ComponentKind) (self : GlobalWorldManager) : res GlobalWorldManager :=
  self ← on_record e (remove_component k) self; Ok (set_diffs self (Global_deregister_component e k self.(diff_handler))).

Definition host_despawn_entity (e : GlobalEntity) (self : GlobalWorldManager) : res (GlobalEntityRecord * GlobalWorldManager) :=
  kinds ← unwrap (component_kinds self e);
  self ← foldM (host_remove_component e) kinds self;
  record ← unwrap (self.(entity_records) !! e);
  Ok (record, set_records self (delete e self.(entity_records))).

Definition remove_entity_record (e : GlobalEntity) (self : GlobalWorldManager) : res GlobalWorldManager :=
  _ ← unwrap (self.(entity_records) !! e); Ok (set_records self (delete e self.(entity_records))).
Definition remote_insert_component (e : GlobalEntity) (k : ComponentKind) (self : GlobalWorldManager) : res GlobalWorldManager :=
  on_record e (insert_component k) self.
Definition remove_component_record (e : GlobalEntity) (k : ComponentKind) (self : GlobalWorldManager) : res GlobalWorldManager :=
  on_record e (remove_component k) self.

Definition entity_replication_config (self : GlobalWorldManager) (e : GlobalEntity) : option Publicity :=
  replication_config <$> self.(entity_records) !! e.
Definition entity_publish (e : GlobalEntity) (self : GlobalWorldManager) : res GlobalWorldManager :=
  on_record e (fun r => Ok (set_replication_config r Public)) self.
Definition entity_unpublish (e : GlobalEntity) (self : GlobalWorldManager) : res GlobalWorldManager :=
  on_record e (fun r => Ok (set_replication_config r Private)) self.
Definition entity_has_component (self : GlobalWorldManager) (e : GlobalEntity) (k : ComponentKind) : bool :=
  match self.(entity_records) !! e with Some r => has_component r k | None => false end.
Definition entity_is_delegated (self : GlobalWorldManager) (e : GlobalEntity) : bool :=
  match self.(entity_records) !! e with Some r => is_delegated r.(replication_config) | None => false end.
Definition component_already_host_registered (self : GlobalWorldManager) (e : GlobalEntity) (k : ComponentKind) : bool :=
  entity_is_delegated self e && Global_has_component self.(diff_handler) e k.

Definition entity_register_auth_for_delegation (e : GlobalEntity) (self : GlobalWorldManager) : res GlobalWorldManager :=
  record ← unwrap (self.(entity_records) !! e);
  if decide (record.(replication_config) = Public) then
    '(_, h) ← Auth.HostAuth_register_entity Client e self.(auth_handler); Ok (set_auth self h)
  else Panic.
Definition entity_enable_delegation (e : GlobalEntity) (self : GlobalWorldManager) : res GlobalWorldManager :=
  on_record e (fun r => if decide (r.(replication_config) = Public) then
                          let r := set_replication_config r Delegated in
                          Ok (if is_client r.(owner) then set_owner r OfServer else r)
                        else Panic) self.
Definition entity_disable_delegation (e : GlobalEntity) (self : GlobalWorldManager) : res GlobalWorldManager :=
  self ← on_record e (fun r => if decide (r.(replication_config) = Delegated) then Ok (set_replication_config r Public) else Panic) self;
  Ok (set_auth self (Auth.HostAuth_deregister_entity e self.(auth_handler))).

(** ** Authority *)
Definition entity_authority_status (self : GlobalWorldManager) (e : GlobalEntity) : res (option EntityAuthStatus) :=
  s ← Auth.HostAuth_auth_status self.(auth_handler) e; Ok (option_map heas_auth_status s).

Definition entity_update_authority (e : GlobalEntity) (new_auth_status : EntityAuthStatus) (self : GlobalWorldManager) : res GlobalWorldManager :=
  h ← Auth.HostAuth_set_auth_status e new_auth_status self.(auth_handler); Ok (set_auth self h).

(** The guards that a request and a release share. *)
Definition change_own_authority (allowed : HostEntityAuthStatus -> res bool) (refused : AuthorityError) (next : EntityAuthStatus)
    (e : GlobalEntity) (self : GlobalWorldManager) : res (auth_result unit * GlobalWorldManager) :=
  if negb (has_entity self e) then Ok (inl NotInScope, self)
  else if negb (entity_is_delegated self e) then Ok (inl NotDelegated, self)
  else
    status ← Auth.HostAuth_auth_status self.(auth_handler) e;
    match status with
    | None => Ok (inl NotInScope, self)
    | Some auth_status =>
        can ← allowed auth_status;
        if (can : bool) then self ← entity_update_authority e next self; Ok (inr tt, self)
        else Ok (inl refused, self)
    end.
Definition entity_request_authority : GlobalEntity -> GlobalWorldManager -> res (auth_result unit * GlobalWorldManager) :=
  change_own_authority can_request NotAvailable Requested.
Definition entity_release_authority : GlobalEntity -> GlobalWorldManager -> res (auth_result unit * GlobalWorldManager) :=
  change_own_authority can_release NotHolder Releasing.

Definition entity_can_relate_to_user (self : GlobalWorldManager) (e : GlobalEntity) (user_key : Z) : bool :=
  match entity_owner self e with Some OfServer | Some OfClient => true | Some OfLocal => false | None => false end.
Definition get_entity_auth_accessor (self : GlobalWorldManager) (e : GlobalEntity) : res nat := Auth.HostAuth_get_accessor self.(auth_handler) e.
Definition entity_needs_mutator_for_delegation (self : GlobalWorldManager) (e : GlobalEntity) : bool :=
  match self.(entity_records) !! e with
  | Some r => bool_decide (r.(owner) = OfServer) && bool_decide (r.(replication_config) = Public)
  | None => false
  end.
Definition entity_is_replicating (self : GlobalWorldManager) (e : GlobalEntity) : res bool :=
  r ← unwrap (self.(entity_records) !! e); Ok r.(is_replicating).
Definition entity_is_static (self : GlobalWorldManager) (e : GlobalEntity) : bool := false.
End Manager.
End CW.
