(* ===== verification/Client.v ===== *)
(** The client's handling of entities, delegation and authority
    ([src/client/src/client.rs]).

    The connection to the server is known through [ClientConn], which [LocalWorldManager]
    implements.  Calls on the application's world are logged in order; a call may register
    components for mutation with the manager's diff handler, and [world_hook] is what it does
    there.  Sockets, handshake, messages and ticks are not part of the state. *)

From Stdlib Require Import ZArith Lia.
From stdpp Require Import base numbers option list gmap sets.
From S2P Require Import Prelude Kinds Wire EntityTypes SyncEngine HostSync DiffHandlers UpdateManager EntityMaps LocalEntities Waitlist RemoteWorld HostWorld LocalWorld Authority Resources ServerWorld WorldServer ServerEvents ClientWorld.

(** What the client asks of its connection ([connection.base.world_manager]). *)
Class ClientConn (C H D : Type) := {
  cc_has : C -> GlobalEntity -> bool;
  cc_host_init : D -> Z -> GlobalEntity -> list ComponentKind -> C * H -> res (C * H);
  cc_despawn : GlobalEntity -> C -> res C;
  cc_insert_component : D -> Z -> GlobalEntity -> ComponentKind -> C * H -> res (C * H);
  cc_remove_component : GlobalEntity -> ComponentKind -> C -> res C;
  cc_send_publish : GlobalEntity -> C -> res C;
  cc_send_unpublish : GlobalEntity -> C -> res C;
  cc_send_enable_delegation : GlobalEntity -> C -> res C;
  cc_send_enable_delegation_response : GlobalEntity -> C -> res C;
  cc_send_request_auth : GlobalEntity -> C -> res C;
  cc_send_release_auth : GlobalEntity -> C -> res C;
  cc_remote_auth_status : C -> GlobalEntity -> option EntityAuthStatus;
  cc_receive_set_auth : GlobalEntity -> EntityAuthStatus -> C -> res C;
  cc_register_authed : (GlobalEntity -> option (list ComponentKind)) -> D -> Z -> GlobalEntity -> C * H -> res (C * H);
  cc_deregister_authed : (GlobalEntity -> option (list ComponentKind)) -> D -> Z -> GlobalEntity -> C * H -> res (C * H);
  cc_remote_spawn : Z -> GlobalEntity -> C -> res C;
  cc_remote_entities : C -> list GlobalEntity;
  cc_migrate : Z -> GlobalEntity -> RemoteEntity -> C -> res (option C)
}.

(** * The local world manager as the client's connection *)
Section Local.
Context {X U F A : Type} {eqA : EqDecision A} {cA : Countable A}.
Abbreviation LManager := (@LocalWorldManager X U F A).
Abbreviation Heap := (@Store A eqA cA).
Abbreviation Diffs := (@GlobalDiffHandler GlobalEntity ComponentKind _ _ _ _).
Context (immutable : ComponentKind -> bool) (iter_k : gset ComponentKind -> list ComponentKind)
        (iter_e : gset RemoteEntity -> list RemoteEntity)
        (iter_g : gmap GlobalEntity LocalEntityRecord -> list (GlobalEntity * LocalEntityRecord)).

(** [RemoteEngine::get_entity_auth_status] and the lookup before it. *)
Definition get_remote_entity_auth_status (self : LManager) (e : GlobalEntity) : option EntityAuthStatus :=
  match LocalEntityMap.LocalMap_to_owned (entity_map self) e with
  | Some (Remote id static) =>
      match rg_channels (remote_engine (lw_remote self)) !! mkRemoteEntity id static with
      | Some channel => ac_auth_status (re_auth channel)
      | None => None
      end
  | _ => None
  end.

(** The steps of a [MigrateResponse] that the connection takes; [None] where the entity is not a
    host entity and the client gives up. *)
Definition migrate_to_remote (now : Z) (e : GlobalEntity) (new_remote_entity : RemoteEntity) (self : LManager) : res (option LManager) :=
  old_opt ← LocalEntityMap.LocalMap_to_host (entity_map self) e;
  match old_opt with
  | None => Ok None
  | Some old_host_entity =>
      '(buffered_commands, self) ← extract_host_entity_commands e self;
      component_kinds ← extract_host_component_kinds e self;
      self ← remove_host_entity e self;
      self ← insert_remote_entity iter_k e new_remote_entity component_kinds self;
      let old_entity := Host (he_id old_host_entity) false in
      let new_entity := remote_copy_to_owned new_remote_entity in
      let self := LocalWorld_install_redirect now old_entity new_entity self in
      self ← update_sent_command_entity_refs old_entity new_entity self;
      self ← foldM (fun command self => if is_valid_for_remote_entity command then replay_entity_command e command self else Ok self)
               buffered_commands self;
      self ← remote_receive_set_auth e Granted self;
      Ok (Some self)
  end.

#[global] Instance local_client_conn : ClientConn LManager Heap Diffs := {|
  cc_has c e := has_global_entity e c;
  cc_host_init d now e kinds := host_init_entity immutable d now e kinds false;
  cc_despawn := LocalWorld_despawn_entity;
  cc_insert_component := LocalWorld_insert_component;
  cc_remove_component := LocalWorld_remove_component;
  cc_send_publish := send_publish Client;
  cc_send_unpublish := send_unpublish Client;
  cc_send_enable_delegation := send_enable_delegation Client true;
  cc_send_enable_delegation_response := send_enable_delegation_response;
  cc_send_request_auth := remote_send_request_auth;
  cc_send_release_auth := remote_send_release_auth;
  cc_remote_auth_status := get_remote_entity_auth_status;
  cc_receive_set_auth := remote_receive_set_auth;
  cc_register_authed := register_authed_entity;
  cc_deregister_authed := deregister_authed_entity;
  cc_remote_spawn := LocalWorld_remote_spawn_entity iter_e;
  cc_remote_entities c := LocalEntityMap.remote_entities iter_g (entity_map c);
  cc_migrate := migrate_to_remote |}.
End Local.

(** Notifications for the application ([WorldEvents]); a removed component is noted by its kind. *)
Inductive client_event (E : Type) :=
| GotSpawn (world_entity : E)
| GotDespawn (world_entity : E)
| GotInsert (world_entity : E) (kind : ComponentKind)
| GotRemove (world_entity : E) (kind : ComponentKind)
| GotUpdate (tick : Z) (world_entity : E) (kind : ComponentKind)
| GotPublish (world_entity : E)
| GotUnpublish (world_entity : E)
| GotAuthGrant (world_entity : E)
| GotAuthDeny (world_entity : E)
| GotAuthReset (world_entity : E)
| GotDisconnection (reason : DisconnectReason).
Arguments GotSpawn {E} _.
Arguments GotDespawn {E} _.
Arguments GotInsert {E} _ _.
Arguments GotRemove {E} _ _.
Arguments GotUpdate {E} _ _ _.
Arguments GotPublish {E} _.
Arguments GotUnpublish {E} _.
Arguments GotAuthGrant {E} _.
Arguments GotAuthDeny {E} _.
Arguments GotAuthReset {E} _.
Arguments GotDisconnection {E} _.

Module CL.
Section Client.
Context (iter_k : gset ComponentKind -> list ComponentKind).
Context {E A B C Comp U F W : Type} {eqE : EqDecision E} {cE : Countable E} {eqA : EqDecision A} {cA : Countable A}.
Abbreviation Heap := (@Store A eqA cA).
Abbreviation Diffs := (@GlobalDiffHandler GlobalEntity ComponentKind _ _ _ _).
Context {conn : ClientConn C Heap Diffs} {replicate : Replicate Comp U F} {world_type : WorldMutType W E Comp U F}.
Abbreviation Manager := CW.GlobalWorldManager.
Abbreviation GMap := (@GlobalEntityMap.GlobalEntityMap E eqE cE).
Context (world_hook : world_call E -> Manager -> Heap -> res (Diffs * Heap)).

(** The protocol: whether clients may own entities, and the resource types. *)
Record Protocol := mkProtocol { client_authoritative_entities : bool; resource_type : ComponentKind -> option TypeId }.

Record Client := mkClient {
  protocol : Protocol;
  server_connection : option C;
  global_world_manager : Manager;
  global_entity_map : GMap;
  resource_registry : ResourceRegistry;
  heap : Heap;
  incoming_world_events : list (client_event E);
  world_calls : list (world_call E)
}.

Definition set_conn (c : option C) (s : Client) : Client :=
  {| protocol := s.(protocol); server_connection := c; global_world_manager := s.(global_world_manager); global_entity_map := s.(global_entity_map);
     resource_registry := s.(resource_registry); heap := s.(heap); incoming_world_events := s.(incoming_world_events); world_calls := s.(world_calls) |}.
Definition set_manager (m : Manager) (s : Client) : Client :=
  {| protocol := s.(protocol); server_connection := s.(server_connection); global_world_manager := m; global_entity_map := s.(global_entity_map);
     resource_registry := s.(resource_registry); heap := s.(heap); incoming_world_events := s.(incoming_world_events); world_calls := s.(world_calls) |}.
Definition set_entities (g : GMap) (s : Client) : Client :=
  {| protocol := s.(protocol); server_connection := s.(server_connection); global_world_manager := s.(global_world_manager); global_entity_map := g;
     resource_registry := s.(resource_registry); heap := s.(heap); incoming_world_events := s.(incoming_world_events); world_calls := s.(world_calls) |}.
Definition set_registry (r : ResourceRegistry) (s : Client) : Client :=
  {| protocol := s.(protocol); server_connection := s.(server_connection); global_world_manager := s.(global_world_manager); global_entity_map := s.(global_entity_map);
     resource_registry := r; heap := s.(heap); incoming_world_events := s.(incoming_world_events); world_calls := s.(world_calls) |}.
Definition set_heap (h : Heap) (s : Client) : Client :=
  {| protocol := s.(protocol); server_connection := s.(server_connection); global_world_manager := s.(global_world_manager); global_entity_map := s.(global_entity_map);
     resource_registry := s.(resource_registry); heap := h; incoming_world_events := s.(incoming_world_events); world_calls := s.(world_calls) |}.
Definition set_events (l : list (client_event E)) (s : Client) : Client :=
  {| protocol := s.(protocol); server_connection := s.(server_connection); global_world_manager := s.(global_world_manager); global_entity_map := s.(global_entity_map);
     resource_registry := s.(resource_registry); heap := s.(heap); incoming_world_events := l; world_calls := s.(world_calls) |}.
Definition push_event (ev : client_event E) (s : Client) : Client := set_events (s.(incoming_world_events) ++ [ev]) s.

(** A call on the application's world. *)
Definition call_world (w : world_call E) (s : Client) : res Client :=
  '(d, h) ← world_hook w s.(global_world_manager) s.(heap);
  let s := set_heap h (set_manager (CW.set_diffs s.(global_world_manager) d) s) in
  Ok {| protocol := s.(protocol); server_connection := s.(server_connection); global_world_manager := s.(global_world_manager);
        global_entity_map := s.(global_entity_map); resource_registry := s.(resource_registry); heap := s.(heap);
        incoming_world_events := s.(incoming_world_events); world_calls := s.(world_calls) ++ [w] |}.

Definition with_manager (f : Manager -> res Manager) (s : Client) : res Client :=
  m ← f s.(global_world_manager); Ok (set_manager m s).

(** An operation of the connection, if there is one; [unwrap_conn] where there must be one. *)
Definition if_connected (f : C -> res C) (s : Client) : res Client :=
  match s.(server_connection) with Some c => c ← f c; Ok (set_conn (Some c) s) | None => Ok s end.
Definition unwrap_conn (f : C * Heap -> res (C * Heap)) (s : Client) : res Client :=
  match s.(server_connection) with
  | Some c => '(c, h) ← f (c, s.(heap)); Ok (set_heap h (set_conn (Some c) s))
  | None => Panic
  end.

Definition world_of (s : Client) (e : GlobalEntity) : res E := unwrap (GlobalEntityMap.GlobalMap_to_entity s.(global_entity_map) e).
Definition global_of (s : Client) (world_entity : E) : res GlobalEntity := unwrap (GlobalEntityMap.GlobalMap_to_global s.(global_entity_map) world_entity).

Definition check_client_authoritative_allowed (s : Client) : res unit :=
  if s.(protocol).(client_authoritative_entities) then Ok tt else Panic.

(** * Entities *)
Definition spawn_entity_inner (now : Z) (world_entity : E) (s : Client) : res Client :=
  '(e, g) ← GlobalEntityMap.GlobalMap_spawn world_entity None s.(global_entity_map);
  s ← with_manager (CW.host_spawn_entity e) (set_entities g s);
  match s.(server_connection) with
  | None => Ok s
  | Some c =>
      kinds ← unwrap (CW.component_kinds iter_k s.(global_world_manager) e);
      '(c, h) ← cc_host_init s.(global_world_manager).(CW.diff_handler) now e kinds (c, s.(heap));
      Ok (set_heap h (set_conn (Some c) s))
  end.

Definition enable_entity_replication (now : Z) (world_entity : E) (s : Client) : res Client :=
  _ ← check_client_authoritative_allowed s; spawn_entity_inner now world_entity s.

Definition entity_owner (s : Client) (world_entity : E) : CW.EntityOwner :=
  match GlobalEntityMap.GlobalMap_to_global s.(global_entity_map) world_entity with
  | Some e => match CW.entity_owner s.(global_world_manager) e with Some o => o | None => CW.OfLocal end
  | None => CW.OfLocal
  end.

(** Whether the client may despawn an entity: its own, or a delegated one it has been granted. *)
Definition check_despawn (e : GlobalEntity) (s : Client) : res unit :=
  match CW.entity_owner s.(global_world_manager) e with
  | Some o =>
      if CW.is_server o then
        if CW.entity_is_delegated s.(global_world_manager) e then
          status ← CW.entity_authority_status s.(global_world_manager) e;
          if decide (status = Some Granted) then Ok tt else Panic
        else Panic
      else Ok tt
  | None => Panic
  end.

Definition despawn_entity_worldless (world_entity : E) (s : Client) : res Client :=
  match GlobalEntityMap.GlobalMap_to_global s.(global_entity_map) world_entity with
  | None => Ok s
  | Some e =>
      if CW.has_entity s.(global_world_manager) e then
        _ ← check_despawn e s;
        s ← if_connected (cc_despawn e) s;
        '(_, m) ← CW.host_despawn_entity iter_k e s.(global_world_manager);
        Ok (set_manager m s)
      else Ok s
  end.

Definition disable_entity_replication (world_entity : E) (s : Client) : res Client :=
  _ ← check_client_authoritative_allowed s; despawn_entity_worldless world_entity s.

(** Whether an insertion is carried out: [insert_component] drops it silently otherwise. *)
Definition can_mutate_entity (world_entity : E) (s : Client) : res bool :=
  match GlobalEntityMap.GlobalMap_to_global s.(global_entity_map) world_entity with
  | None => Ok true
  | Some e =>
      if CW.entity_is_delegated s.(global_world_manager) e then
        status ← CW.entity_authority_status s.(global_world_manager) e; Ok (bool_decide (status = Some Granted))
      else match CW.entity_owner s.(global_world_manager) e with Some o => Ok (CW.is_client o) | None => Ok false end
  end.

(** The component is known by its kind and the length of its diff mask; the mutator and the
    accessor it is given are not kept. *)
Definition insert_component_worldless (ks : Kinds ComponentKind B) (now : Z) (world_entity : E) (kind : ComponentKind) (diff_mask_size : Z)
    (s : Client) : res Client :=
  e ← global_of s world_entity;
  if CW.component_already_host_registered s.(global_world_manager) e kind then Ok s
  else
    '(_, m, h) ← CW.host_insert_component ks e kind diff_mask_size s.(global_world_manager) s.(heap);
    let s := set_heap h (set_manager m s) in
    s ← match s.(server_connection) with
        | Some c => if cc_has c e then unwrap_conn (cc_insert_component s.(global_world_manager).(CW.diff_handler) now e kind) s else Ok s
        | None => Ok s
        end;
    if CW.entity_is_delegated s.(global_world_manager) e
    then _ ← CW.get_entity_auth_accessor s.(global_world_manager) e; Ok s
    else Ok s.

(** [insert_component]; [world_has] and [world_has_kind] are the queries of the application's
    world, which stores the component itself. *)
Definition insert_component (ks : Kinds ComponentKind B) (now : Z) (world_has world_has_kind : bool) (world_entity : E) (kind : ComponentKind)
    (diff_mask_size : Z) (s : Client) : res Client :=
  if negb world_has then Panic
  else
    allowed ← can_mutate_entity world_entity s;
    if negb (allowed : bool) then Ok s
    else if world_has_kind then Ok s
    else insert_component_worldless ks now world_entity kind diff_mask_size s.

Definition remove_component_worldless (world_entity : E) (kind : ComponentKind) (s : Client) : res Client :=
  e ← global_of s world_entity;
  s ← if_connected (cc_remove_component e kind) s;
  with_manager (CW.host_remove_component e kind) s.

(** * Publicity *)
Definition publish_entity (e : GlobalEntity) (client_is_origin : bool) (s : Client) : res Client :=
  if client_is_origin then
    match s.(server_connection) with
    | None => Ok s
    | Some _ => s ← if_connected (cc_send_publish e) s; with_manager (CW.entity_publish e) s
    end
  else if decide (CW.entity_replication_config s.(global_world_manager) e = Some Private)
  then with_manager (CW.entity_publish e) s else Panic.

Definition unpublish_entity (e : GlobalEntity) (client_is_origin : bool) (s : Client) : res Client :=
  if client_is_origin then
    match s.(server_connection) with
    | None => Ok s
    | Some _ => s ← if_connected (cc_send_unpublish e) s; with_manager (CW.entity_unpublish e) s
    end
  else if decide (CW.entity_replication_config s.(global_world_manager) e = Some Public)
  then with_manager (CW.entity_unpublish e) s else Panic.

(** * Delegation *)
Definition entity_complete_delegation (e : GlobalEntity) (world_entity : E) (s : Client) : res Client :=
  s ← call_world (WEnableDelegation world_entity) s;
  with_manager (CW.entity_enable_delegation e) s.

(** [world_kinds] is [world.component_kinds(world_entity)]. *)
Definition entity_enable_delegation (world_kinds : list ComponentKind) (e : GlobalEntity) (world_entity : E) (client_is_origin : bool)
    (s : Client) : res Client :=
  s ← with_manager (CW.entity_register_auth_for_delegation e) s;
  if client_is_origin then if_connected (cc_send_enable_delegation e) s
  else
    s ← entity_complete_delegation e world_entity s;
    s ← foldM (fun kind s => if CW.entity_has_component s.(global_world_manager) e kind then Ok s
                             else with_manager (CW.remote_insert_component e kind) s) world_kinds s;
    with_manager (CW.entity_update_authority e Available) s.

Definition entity_disable_delegation (e : GlobalEntity) (world_entity : E) (client_is_origin : bool) (s : Client) : res Client :=
  if client_is_origin then Panic
  else
    status ← CW.entity_authority_status s.(global_world_manager) e;
    s ← with_manager (CW.entity_disable_delegation e) s;
    s ← call_world (WDisableDelegation world_entity) s;
    let s := if decide (status = Some Granted) then push_event (GotAuthReset world_entity) s else s in
    if_connected (cc_despawn e) s.

Definition configure_entity_replication (world_kinds : list ComponentKind) (world_entity : E) (config : Publicity) (s : Client) : res Client :=
  _ ← check_client_authoritative_allowed s;
  e ← global_of s world_entity;
  owner ← unwrap (CW.entity_owner s.(global_world_manager) e);
  if CW.is_server owner then Panic
  else if negb (CW.is_client owner) then Panic
  else
    prev_config ← unwrap (CW.entity_replication_config s.(global_world_manager) e);
    if decide (prev_config = config) then Ok s
    else match prev_config, config with
         | Private, Private => Panic
         | Private, Public => publish_entity e true s
         | Private, Delegated => s ← publish_entity e true s; entity_enable_delegation world_kinds e world_entity true s
         | Public, Private => unpublish_entity e true s
         | Public, Public => Panic
         | Public, Delegated => entity_enable_delegation world_kinds e world_entity true s
         | Delegated, _ => Panic
         end.

(** * Authority *)
Definition entity_authority_status (world_entity : E) (s : Client) : res (option EntityAuthStatus) :=
  _ ← check_client_authoritative_allowed s;
  match GlobalEntityMap.GlobalMap_to_global s.(global_entity_map) world_entity with
  | Some e => CW.entity_authority_status s.(global_world_manager) e
  | None => Ok None
  end.

Definition entity_request_authority (world_entity : E) (s : Client) : res (auth_result unit * Client) :=
  _ ← check_client_authoritative_allowed s;
  e ← global_of s world_entity;
  '(result, m) ← CW.entity_request_authority e s.(global_world_manager);
  let s := set_manager m s in
  match result with
  | inr _ => s ← if_connected (cc_send_request_auth e) s; Ok (result, s)
  | inl _ => Ok (result, s)
  end.

Definition entity_release_authority (world_entity : E) (s : Client) : res (auth_result unit * Client) :=
  _ ← check_client_authoritative_allowed s;
  e ← global_of s world_entity;
  '(result, m) ← CW.entity_release_authority e s.(global_world_manager);
  let s := set_manager m s in
  match result with
  | inr _ => s ← if_connected (cc_send_release_auth e) s; Ok (result, s)
  | inl _ => Ok (result, s)
  end.

(** The connection's channel follows, where the entity is a remote one. *)
Definition sync_channel (e : GlobalEntity) (new_auth_status : EntityAuthStatus) (s : Client) : res Client :=
  if_connected (fun c => match cc_remote_auth_status c e with Some _ => cc_receive_set_auth e new_auth_status c | None => Ok c end) s.

Definition register_authed (now : Z) (e : GlobalEntity) (s : Client) : res Client :=
  unwrap_conn (cc_register_authed (CW.component_kinds iter_k s.(global_world_manager)) s.(global_world_manager).(CW.diff_handler) now e) s.
Definition deregister_authed (now : Z) (e : GlobalEntity) (s : Client) : res Client :=
  unwrap_conn (cc_deregister_authed (CW.component_kinds iter_k s.(global_world_manager)) s.(global_world_manager).(CW.diff_handler) now e) s.

(** The table of transitions. *)
Definition authority_changed (now : Z) (old_auth_status new_auth_status : EntityAuthStatus) (e : GlobalEntity) (world_entity : E) (s : Client) : res Client :=
  match old_auth_status, new_auth_status with
  | Requested, Granted | Denied, Granted | Available, Granted =>
      s ← register_authed now e s; Ok (push_event (GotAuthGrant world_entity) s)
  | Granted, Available | Granted, Denied =>
      s ← deregister_authed now e s; Ok (push_event (GotAuthReset world_entity) s)
  | Requested, Denied => Ok (push_event (GotAuthDeny world_entity) s)
  | Releasing, Available => s ← deregister_authed now e s; Ok (push_event (GotAuthReset world_entity) s)
  | Releasing, Denied => s ← deregister_authed now e s; Ok (push_event (GotAuthReset world_entity) s)
  | Releasing, Granted => with_manager (CW.entity_update_authority e Available) s
  | Available, Denied => Ok (push_event (GotAuthDeny world_entity) s)
  | Denied, Available => Ok (push_event (GotAuthReset world_entity) s)
  | Available, Available | Denied, Denied | Granted, Granted | Requested, Requested | Releasing, Releasing => Ok s
  | _, _ => Panic
  end.

Definition entity_update_authority (now : Z) (e : GlobalEntity) (world_entity : E) (new_auth_status : EntityAuthStatus) (s : Client) : res Client :=
  old_opt ← CW.entity_authority_status s.(global_world_manager) e;
  old_auth_status ← unwrap old_opt;
  s ← with_manager (CW.entity_update_authority e new_auth_status) s;
  s ← sync_channel e new_auth_status s;
  authority_changed now old_auth_status new_auth_status e world_entity s.

(** * What the server sends about entities *)
Definition lose_authority_on_despawn (now : Z) (e : GlobalEntity) (world_entity : E) (s : Client) : res Client :=
  if CW.entity_is_delegated s.(global_world_manager) e then
    status ← CW.entity_authority_status s.(global_world_manager) e;
    match status with
    | Some status => if decide (status = Available) then Ok s else entity_update_authority now e world_entity Available s
    | None => Ok s
    end
  else Ok s.

Definition handle_despawn (now : Z) (e : GlobalEntity) (s : Client) : res Client :=
  world_entity ← world_of s e;
  let s := push_event (GotDespawn world_entity) (set_registry (remove_by_entity e s.(resource_registry)).2 s) in
  s ← lose_authority_on_despawn now e world_entity s;
  s ← with_manager (CW.remove_entity_record e) s;
  g ← GlobalEntityMap.despawn_by_global e s.(global_entity_map);
  Ok (set_entities g s).

Definition handle_insert (e : GlobalEntity) (kind : ComponentKind) (s : Client) : res Client :=
  world_entity ← world_of s e;
  let s := match s.(protocol).(resource_type) kind with
           | Some type_id => match insert_raw type_id e s.(resource_registry) with Registered r => set_registry r s | ResourceAlreadyExists => s end
           | None => s
           end in
  let s := push_event (GotInsert world_entity kind) s in
  if CW.entity_has_component s.(global_world_manager) e kind then Ok s
  else
    s ← (if CW.entity_is_delegated s.(global_world_manager) e
         then s ← call_world (WComponentPublish world_entity kind) s; call_world (WComponentEnableDelegation world_entity kind) s
         else Ok s);
    with_manager (CW.remote_insert_component e kind) s.

(** [None] where the handler returns from [process_entity_events] altogether. *)
Definition handle_migrate_response (now : Z) (e : GlobalEntity) (new_remote_entity : RemoteEntity) (s : Client) : res (option Client) :=
  match GlobalEntityMap.GlobalMap_to_entity s.(global_entity_map) e with
  | None => Ok None
  | Some world_entity =>
      match s.(server_connection) with
      | None => Ok None
      | Some c =>
          migrated ← cc_migrate now e new_remote_entity c;
          match migrated with
          | None => Ok None
          | Some c =>
              let s := set_conn (Some c) s in
              status ← CW.entity_authority_status s.(global_world_manager) e;
              s ← (match status with None => with_manager (CW.entity_register_auth_for_delegation e) s | Some _ => Ok s end);
              s ← entity_complete_delegation e world_entity s;
              s ← with_manager (CW.entity_update_authority e Granted) s;
              Ok (Some (push_event (GotAuthGrant world_entity) s))
          end
      end
  end.

(** One event; the flag says whether the loop goes on. *)
Definition handle_event (world_kinds : E -> list ComponentKind) (now : Z) (event : EntityEvent Comp) (s : Client) : res (bool * Client) :=
  let go (r : res Client) : res (bool * Client) := s ← r; Ok (true, s) in
  match event with
  | EvSpawn e => go (
      world_entity ← world_of s e;
      let s := push_event (GotSpawn world_entity) s in
      s ← with_manager (CW.remote_spawn_entity e) s;
      match s.(server_connection) with Some _ => if_connected (cc_remote_spawn now e) s | None => Panic end)
  | EvDespawn e => go (handle_despawn now e s)
  | EvInsertComponent e kind => go (handle_insert e kind s)
  | EvRemoveComponent e component => go (
      let kind := component_kind component in
      world_entity ← world_of s e;
      let s := push_event (GotRemove world_entity kind) s in
      if CW.entity_is_delegated s.(global_world_manager) e then remove_component_worldless world_entity kind s
      else with_manager (CW.remove_component_record e kind) s)
  | EvPublish e => go (world_entity ← world_of s e; s ← publish_entity e false s; Ok (push_event (GotPublish world_entity) s))
  | EvUnpublish e => go (world_entity ← world_of s e; s ← unpublish_entity e false s; Ok (push_event (GotUnpublish world_entity) s))
  | EvEnableDelegation e =>
      world_entity ← world_of s e;
      s ← entity_enable_delegation (world_kinds world_entity) e world_entity false s;
      match s.(server_connection) with
      | None => Ok (false, s)
      | Some _ => go (if_connected (cc_send_enable_delegation_response e) s)
      end
  | EvEnableDelegationResponse _ => Panic
  | EvDisableDelegation e => go (world_entity ← world_of s e; entity_disable_delegation e world_entity false s)
  | EvRequestAuthority _ | EvReleaseAuthority _ => Panic
  | EvSetAuthority e status => go (world_entity ← world_of s e; entity_update_authority now e world_entity status s)
  | EvMigrateResponse e r =>
      o ← handle_migrate_response now e r s;
      match o with Some s => Ok (true, s) | None => Ok (false, s) end
  | EvUpdateComponent tick e kind => go (world_entity ← world_of s e; Ok (push_event (GotUpdate tick world_entity kind) s))
  end.

Fixpoint process_entity_events (world_kinds : E -> list ComponentKind) (now : Z) (entity_events : list (EntityEvent Comp)) (s : Client) : res Client :=
  match entity_events with
  | [] => Ok s
  | event :: rest =>
      '(go_on, s) ← handle_event world_kinds now event s;
      if (go_on : bool) then process_entity_events world_kinds now rest s else Ok s
  end.

(** * Disconnection *)
Definition despawn_all_remote_entities (world_kinds : E -> list ComponentKind) (now : Z) (world : W) (s : Client) : res (W * Client) :=
  c ← unwrap s.(server_connection);
  '(world, entity_events) ← despawn_all_entities (world_of s) (CW.component_kinds iter_k s.(global_world_manager)) (cc_remote_entities c) world;
  s ← process_entity_events world_kinds now entity_events s;
  Ok (world, s).

Definition disconnect_reset_connection (s : Client) : Client := set_manager CW.Manager_new (set_conn None s).

Definition disconnect_with_events (world_kinds : E -> list ComponentKind) (now : Z) (reason : DisconnectReason) (world : W) (s : Client) : res (W * Client) :=
  let s := set_events [] s in
  '(world, s) ← despawn_all_remote_entities world_kinds now world s;
  Ok (world, push_event (GotDisconnection reason) (disconnect_reset_connection s)).
End Client.
End CL.
