(* ===== verification/ClientFacts.v ===== *)
(** Authority as the client sees it: what the application is told, what its connection registers
    for updates, and the calls that stop the client. *)

From Stdlib Require Import ZArith Lia String.
From stdpp Require Import base numbers option list gmap sets.
From S2P Require Import Prelude Kinds Wire EntityTypes SyncEngine HostSync DiffHandlers UpdateManager EntityMaps LocalEntities Waitlist RemoteWorld HostWorld LocalWorld Authority Resources ServerWorld WorldServer ServerEvents ClientWorld Client.

(** * What the theorems use of a connection *)

(** [cc_tracks gk d e (c, h)]: the connection [c], with the components [gk e] of [e] and the diff
    handler [d], is in a state from which it can follow the authority over [e].  [cc_authed] says
    whether [e] is registered for updates. *)
Class AuthLaws (C H D : Type) `{ClientConn C H D} := {
  cc_tracks : (GlobalEntity -> option (list ComponentKind)) -> D -> GlobalEntity -> C * H -> Prop;
  cc_authed : C -> GlobalEntity -> bool;
  law_register gk d now e x : cc_tracks gk d e x ->
    exists y, cc_register_authed gk d now e x = Ok y /\ cc_tracks gk d e y /\ cc_authed y.1 e = true;
  law_deregister gk d now e x : cc_tracks gk d e x ->
    exists y, cc_deregister_authed gk d now e x = Ok y /\ cc_tracks gk d e y /\ cc_authed y.1 e = false;
  law_set_auth gk d e s c h : cc_tracks gk d e (c, h) ->
    exists c', cc_receive_set_auth e s c = Ok c' /\ cc_tracks gk d e (c', h) /\ cc_authed c' e = cc_authed c e;
  law_request gk d e c h : cc_tracks gk d e (c, h) ->
    exists c', cc_send_request_auth e c = Ok c' /\ cc_tracks gk d e (c', h) /\ cc_authed c' e = cc_authed c e;
  law_release gk d e c h : cc_tracks gk d e (c, h) ->
    exists c', cc_send_release_auth e c = Ok c' /\ cc_tracks gk d e (c', h) /\ cc_authed c' e = cc_authed c e
}.

(** ** [LocalWorldManager] keeps the laws *)
Section Local.
Context {X U F A : Type} {eqA : EqDecision A} {cA : Countable A}.
Abbreviation LManager := (@LocalWorldManager X U F A).
Abbreviation Heap := (@Store A eqA cA).
Abbreviation Diffs := (@GlobalDiffHandler GlobalEntity ComponentKind _ _ _ _).
Abbreviation Updater := (@UpdateManager.EntityUpdateManager GlobalEntity ComponentKind A _ _ _ _).
Context (immutable : ComponentKind -> bool) (iter_k : gset ComponentKind -> list ComponentKind)
        (iter_e : gset RemoteEntity -> list RemoteEntity)
        (iter_g : gmap GlobalEntity LocalEntityRecord -> list (GlobalEntity * LocalEntityRecord)).

Definition register_kinds (d : Diffs) (now : Z) (e : GlobalEntity) (kinds : list ComponentKind) (us : Updater * Heap) : res (Updater * Heap) :=
  foldM (fun kind us => UpdateManager.register_component d now e kind us.1 us.2) kinds us.
Definition deregister_kinds (d : Diffs) (now : Z) (e : GlobalEntity) (kinds : list ComponentKind) (us : Updater * Heap) : Updater * Heap :=
  fold_left (fun us kind => UpdateManager.deregister_component d now e kind us.1 us.2) kinds us.

(** The components of an entity can be registered and deregistered any number of times: some
    invariant of the update manager and the heap says so. *)
Definition registrable (d : Diffs) (e : GlobalEntity) (kinds : list ComponentKind) (us : Updater * Heap) : Prop :=
  exists I : Updater * Heap -> Prop, I us /\
    (forall now us, I us -> exists us', register_kinds d now e kinds us = Ok us' /\ I us') /\
    (forall now us, I us -> I (deregister_kinds d now e kinds us)).

(** [e] is the remote entity [r], which has a channel. *)
Definition local_at (c : LManager) (e : GlobalEntity) (r : RemoteEntity) : Prop :=
  LocalEntityMap.LocalMap_to_remote (entity_map c) e = Ok (Some r) /\
  (exists id static, LocalEntityMap.LocalMap_to_owned (entity_map c) e = Some (Remote id static)) /\
  is_Some (rg_channels (remote_engine (lw_remote c)) !! r).

Definition local_tracks (gk : GlobalEntity -> option (list ComponentKind)) (d : Diffs) (e : GlobalEntity) (x : LManager * Heap) : Prop :=
  (exists r, local_at x.1 e r) /\ is_Some (authed_entities_opt (lw_remote x.1)) /\
  registrable d e (default [] (gk e)) (updater x.1, x.2).

Definition local_authed (c : LManager) (e : GlobalEntity) : bool :=
  match LocalEntityMap.LocalMap_to_remote (entity_map c) e, authed_entities_opt (lw_remote c) with
  | Ok (Some r), Some s => bool_decide (r ∈ s)
  | _, _ => false
  end.

(** What a change of the channel of [e] leaves. *)
Lemma channel_change gk d (c c' : LManager) h e r :
  entity_map c' = entity_map c -> updater c' = updater c -> authed_entities_opt (lw_remote c') = authed_entities_opt (lw_remote c) ->
  is_Some (rg_channels (remote_engine (lw_remote c')) !! r) -> local_at c e r -> local_tracks gk d e (c, h) ->
  local_tracks gk d e (c', h) /\ local_authed c' e = local_authed c e.
Proof using Type.
  intros Hm Hu Ha Hr (H1 & H2 & _) (_ & H3 & H4). unfold local_authed, local_tracks, local_at. cbn [fst snd] in *. rewrite Hm, Hu, Ha.
  split; [|reflexivity]. split; [exists r|]; split; auto.
Qed.

Lemma auth_command_ok gk d command (c : LManager) h e : EntityCommand_entity command = e ->
  (forall id, exists command', set_subcommand_id id command = Ok command') -> local_tracks gk d e (c, h) ->
  exists c', on_remote_auth command c = Ok c' /\ local_tracks gk d e (c', h) /\ local_authed c' e = local_authed c e.
Proof using Type.
  intros <- Hid Ht. destruct Ht as [[r Hr] Ht']. cbn [fst] in Hr. pose proof Hr as (H1 & H2 & [ch Hch]). unfold on_remote_auth, remote_send_auth_command. rewrite H1, bind_ok.
  unfold RemoteEngine_send_auth_command. rewrite Hch. cbn [unwrap]. rewrite bind_ok. unfold RemoteEntityChannel_send_command, AuthChannel_send_command, AuthChannelSender_send_command.
  destruct (Hid (as_next_subcommand_id (ac_sender (re_auth ch)))) as [command' ->]. rewrite !bind_ok. cbn [AuthChannel_sender_drain]. rewrite !bind_ok.
  eexists. split; [reflexivity|]. apply (channel_change gk d c _ h _ r); try reflexivity; [|exact Hr|split; [now exists r|exact Ht']].
  cbn. rewrite lookup_insert_eq. eauto.
Qed.

Lemma registered_kinds gk d (c c' : LManager) h e r us s : local_at c e r -> local_tracks gk d e (c, h) -> registrable d e (default [] (gk e)) us ->
  entity_map c' = entity_map c -> updater c' = us.1 -> remote_engine (lw_remote c') = remote_engine (lw_remote c) -> authed_entities_opt (lw_remote c') = Some s ->
  local_tracks gk d e (c', us.2) /\ local_authed c' e = bool_decide (r ∈ s).
Proof using Type.
  intros (H1 & H2 & H3) _ Hus Hm Hu He Hs. unfold local_authed, local_tracks, local_at. cbn [fst snd]. rewrite Hm, Hu, He, Hs, H1. destruct us. cbn in *.
  split; [|reflexivity]. split; [exists r|]; split; eauto.
Qed.

#[export] Instance local_auth_laws : @AuthLaws LManager Heap Diffs (local_client_conn immutable iter_k iter_e iter_g).
Proof using Type.
  unshelve eapply (Build_AuthLaws LManager Heap Diffs (local_client_conn immutable iter_k iter_e iter_g) local_tracks local_authed); cbn.
  - intros gk d now e [c h] Ht. pose proof Ht as ([r Hr] & [s Hs] & (I & Hi & Hreg & Hdereg)). cbn [fst snd] in *. unfold register_authed_entity. rewrite (proj1 Hr), bind_ok.
    destruct (Hreg now _ Hi) as ([u h'] & Hk & Hi'). unfold register_kinds in Hk. cbn. rewrite Hk, bind_ok. cbn. eexists. split; [reflexivity|].
    unfold remote_register_authed_entity. rewrite Hs. cbn [fst snd].
    destruct (registered_kinds gk d c (lw_set_updater u (lw_set_remote (mkRemoteWorld (remote_engine (lw_remote c)) (Some ({[r]} ∪ s)) (rw_incoming_events (lw_remote c)) (waitlist (lw_remote c))) c))
                h e r (u, h') ({[r]} ∪ s) Hr Ht) as [Ht' ->]; try reflexivity; [now exists I|]. split; [exact Ht'|]. apply bool_decide_eq_true_2. set_solver.
  - intros gk d now e [c h] Ht. pose proof Ht as ([r Hr] & [s Hs] & (I & Hi & Hreg & Hdereg)). cbn [fst snd] in *. unfold deregister_authed_entity. rewrite (proj1 Hr), bind_ok.
    eexists. split; [reflexivity|]. pose proof (Hdereg now _ Hi) as Hi'. unfold deregister_kinds in Hi'. cbn. unfold remote_deregister_authed_entity. rewrite Hs.
    destruct (fold_left _ _ _) as [u h']. cbn [fst snd].
    destruct (registered_kinds gk d c (lw_set_updater u (lw_set_remote (mkRemoteWorld (remote_engine (lw_remote c)) (Some (s ∖ {[r]})) (rw_incoming_events (lw_remote c)) (waitlist (lw_remote c))) c))
                h e r (u, h') (s ∖ {[r]}) Hr Ht) as [Ht' ->]; try reflexivity; [now exists I|]. split; [exact Ht'|]. apply bool_decide_eq_false_2. set_solver.
  - intros gk d e s c h Ht. pose proof Ht as ([r Hr] & _). unfold remote_receive_set_auth. cbn [fst] in Hr. rewrite (proj1 Hr), bind_ok. cbn [unwrap]. rewrite bind_ok.
    eexists. split; [reflexivity|]. apply (channel_change gk d c _ h e r); try reflexivity; try assumption. cbn. unfold receive_set_auth_status.
    destruct Hr as (_ & _ & [ch Hch]). rewrite Hch. cbn. rewrite lookup_insert_eq. eauto.
  - intros gk d e c h Ht. apply auth_command_ok; [reflexivity|cbn; eauto|exact Ht].
  - intros gk d e c h Ht. pose proof Ht as ([r (_ & (id & static & Ho) & _)] & _). unfold remote_send_release_auth. cbn [fst] in Ho. rewrite Ho. cbn [unwrap]. rewrite bind_ok.
    cbn [owned_is_host]. apply auth_command_ok; [reflexivity|cbn; eauto|exact Ht].
Defined.
End Local.

(** * The authority over one entity *)
Section Authority.
Context (iter_k : gset ComponentKind -> list ComponentKind).
Context {E A B C Comp U F : Type} {eqE : EqDecision E} {cE : Countable E} {eqA : EqDecision A} {cA : Countable A}.
Abbreviation Heap := (@Store A eqA cA).
Abbreviation Diffs := (@GlobalDiffHandler GlobalEntity ComponentKind _ _ _ _).
Context {conn : ClientConn C Heap Diffs} {laws : AuthLaws C Heap Diffs} {replicate : Replicate Comp U F}.
Context (world_hook : world_call E -> CW.GlobalWorldManager -> Heap -> res (Diffs * Heap)) (world_kinds : E -> list ComponentKind).
Abbreviation Client := (@CL.Client E A C eqE cE eqA cA).

(** What happens to an entity's authority: a message of the server, or a call of the application. *)
Inductive auth_input := FromServer (s : EntityAuthStatus) | Request | Release.

Definition run_input (now : Z) (e : GlobalEntity) (w : E) (i : auth_input) (s : Client) : res Client :=
  match i with
  | FromServer st => CL.process_entity_events iter_k world_hook world_kinds now [EvSetAuthority e st : EntityEvent Comp] s
  | Request => '(_, s) ← CL.entity_request_authority w s; Ok s
  | Release => '(_, s) ← CL.entity_release_authority w s; Ok s
  end.

(** ** The specification *)

(** What the application is told when the server's word changes. *)
Definition told (w : E) (last next : EntityAuthStatus) : client_event E :=
  match last, next with
  | _, Granted => GotAuthGrant w
  | Granted, _ => GotAuthReset w
  | _, Denied => GotAuthDeny w
  | _, _ => GotAuthReset w
  end.

(** The server speaks of three statuses and only when the status changes; the application does not
    release what it has only requested.  [last] is the server's last word, [st] the status. *)
Definition spec_input (w : E) (i : auth_input) (x : EntityAuthStatus * EntityAuthStatus)
    : option (EntityAuthStatus * EntityAuthStatus * list (client_event E)) :=
  let '(last, st) := x in
  match i with
  | FromServer next =>
      match next with
      | Available | Granted | Denied => if decide (next = last) then None else Some (next, next, [told w last next])
      | _ => None
      end
  | Request => Some (last, if decide (st = Available) then Requested else st, [])
  | Release => match st with Requested => None | Granted => Some (last, Releasing, []) | _ => Some (last, st, []) end
  end.

Fixpoint spec_inputs (w : E) (inputs : list auth_input) (x : EntityAuthStatus * EntityAuthStatus)
    : option (EntityAuthStatus * EntityAuthStatus * list (client_event E)) :=
  match inputs with
  | [] => Some (x.1, x.2, [])
  | i :: inputs =>
      match spec_input w i x with
      | Some (last, st, evs) => match spec_inputs w inputs (last, st) with Some (last', st', evs') => Some (last', st', evs ++ evs') | None => None end
      | None => None
      end
  end.

(** A delegated entity [e], world entity [w], with status [st] after the server's word [last]. *)
Definition agree (last st : EntityAuthStatus) : Prop :=
  match last, st with
  | Available, Available | Available, Requested | Granted, Granted | Granted, Releasing | Denied, Denied => True
  | _, _ => False
  end.

Definition tracked (s : Client) : GlobalEntity -> C * Heap -> Prop :=
  cc_tracks (CW.component_kinds iter_k s.(CL.global_world_manager)) s.(CL.global_world_manager).(CW.diff_handler).

Record follows (s : Client) (e : GlobalEntity) (w : E) (last st : EntityAuthStatus) : Prop := {
  fo_allowed : s.(CL.protocol).(CL.client_authoritative_entities) = true;
  fo_to_world : GlobalEntityMap.GlobalMap_to_entity s.(CL.global_entity_map) e = Some w;
  fo_to_global : GlobalEntityMap.GlobalMap_to_global s.(CL.global_entity_map) w = Some e;
  fo_handler : Auth.handler_ok s.(CL.global_world_manager).(CW.auth_handler);
  fo_delegated : CW.entity_is_delegated s.(CL.global_world_manager) e = true;
  fo_status : Auth.data_of s.(CL.global_world_manager).(CW.auth_handler) e = Some (Auth.mkAuthData EntityTypes.Client st);
  fo_agree : agree last st;
  fo_conn : exists c, s.(CL.server_connection) = Some c /\ tracked s e (c, s.(CL.heap)) /\ cc_authed c e = bool_decide (last = Granted)
}.

(** ** Steps *)
Lemma status_of_data (m : CW.GlobalWorldManager) e st : Auth.handler_ok m.(CW.auth_handler) ->
  Auth.data_of m.(CW.auth_handler) e = Some (Auth.mkAuthData EntityTypes.Client st) -> CW.entity_authority_status m e = Ok (Some st).
Proof using Type. intros Hok Hd. unfold CW.entity_authority_status. rewrite Auth.auth_status_data by exact Hok. rewrite Hd. reflexivity. Qed.

Lemma update_authority_ok (m : CW.GlobalWorldManager) e st st' : Auth.handler_ok m.(CW.auth_handler) ->
  Auth.data_of m.(CW.auth_handler) e = Some (Auth.mkAuthData EntityTypes.Client st) ->
  exists h, CW.entity_update_authority e st' m = Ok (CW.set_auth m h) /\ Auth.handler_ok h /\ Auth.data_of h e = Some (Auth.mkAuthData EntityTypes.Client st').
Proof using Type.
  intros Hok Hd. destruct (Auth.set_auth_status_spec e st' _ _ Hok Hd) as (h & Hh & Hok' & _ & Hd'). exists h. unfold CW.entity_update_authority.
  rewrite Hh. split; [reflexivity|]. split; [exact Hok'|]. specialize (Hd' e). now rewrite decide_True in Hd' by reflexivity.
Qed.

Lemma follows_delegated_entity (s : Client) e w last st : follows s e w last st -> CW.has_entity s.(CL.global_world_manager) e = true.
Proof using Type.
  intros Hf. pose proof (fo_delegated _ _ _ _ _ Hf) as Hd. unfold CW.entity_is_delegated in Hd. unfold CW.has_entity.
  destruct (CW.entity_records _ !! e); [|discriminate]. apply bool_decide_eq_true_2. eauto.
Qed.

(** The state after the manager has a new status and the connection has changed. *)
Lemma follows_next (s : Client) e w last st last' st' h c' hp evs : follows s e w last st ->
  Auth.handler_ok h -> Auth.data_of h e = Some (Auth.mkAuthData EntityTypes.Client st') -> agree last' st' ->
  tracked s e (c', hp) -> cc_authed c' e = bool_decide (last' = Granted) ->
  follows (CL.set_events evs (CL.set_heap hp (CL.set_conn (Some c') (CL.set_manager (CW.set_auth s.(CL.global_world_manager) h) s)))) e w last' st'.
Proof using Type.
  intros [H1 H2 H3 H4 H5 H6 H7 H8] Hh Hd Ha Ht Hc. split; cbn; auto. exists c'. auto.
Qed.

Lemma change_own_spec (m : CW.GlobalWorldManager) e st allowed refused next b : CW.has_entity m e = true -> CW.entity_is_delegated m e = true ->
  Auth.handler_ok m.(CW.auth_handler) -> Auth.data_of m.(CW.auth_handler) e = Some (Auth.mkAuthData EntityTypes.Client st) ->
  allowed (mkHostEntityAuthStatus EntityTypes.Client st) = Ok b ->
  CW.change_own_authority allowed refused next e m =
  (if b then m ← CW.entity_update_authority e next m; Ok (inr tt, m) else Ok (inl refused, m)).
Proof using Type.
  intros Hh Hd Hok Hs Ha. unfold CW.change_own_authority. rewrite Hh, Hd. cbn [negb]. rewrite Auth.auth_status_data by exact Hok.
  rewrite Hs. cbn. unfold Auth.EntityAuthData_auth_status. cbn. rewrite Ha. reflexivity.
Qed.

(** A call of the application that the manager grants ([b]) or refuses. *)
Lemma own_call (op : E -> Client -> res (auth_result unit * Client)) (send : GlobalEntity -> C -> res C) allowed refused next
    (s : Client) e w last st b :
  (forall w s, op w s =
     (_ ← CL.check_client_authoritative_allowed s; e ← CL.global_of s w;
      '(result, m) ← CW.change_own_authority allowed refused next e s.(CL.global_world_manager);
      let s := CL.set_manager m s in
      match result with inr _ => s ← CL.if_connected (send e) s; Ok (result, s) | inl _ => Ok (result, s) end)) ->
  (forall gk d c h, cc_tracks gk d e (c, h) -> exists c', send e c = Ok c' /\ cc_tracks gk d e (c', h) /\ cc_authed c' e = cc_authed c e) ->
  allowed (mkHostEntityAuthStatus EntityTypes.Client st) = Ok b -> (b = true -> agree last next) -> follows s e w last st ->
  exists r s', op w s = Ok (r, s') /\ s'.(CL.incoming_world_events) = s.(CL.incoming_world_events) /\ follows s' e w last (if b then next else st).
Proof using Type.
  intros Hop Hsend Ha Hag Hf. rewrite Hop. unfold CL.check_client_authoritative_allowed, CL.global_of.
  rewrite (fo_allowed _ _ _ _ _ Hf), (fo_to_global _ _ _ _ _ Hf). cbn [unwrap]. rewrite !bind_ok.
  rewrite (change_own_spec _ e st allowed refused next b (follows_delegated_entity _ _ _ _ _ Hf) (fo_delegated _ _ _ _ _ Hf)
             (fo_handler _ _ _ _ _ Hf) (fo_status _ _ _ _ _ Hf) Ha).
  destruct b.
  - destruct (update_authority_ok _ e st next (fo_handler _ _ _ _ _ Hf) (fo_status _ _ _ _ _ Hf)) as (h & -> & Hh & Hd). rewrite !bind_ok. cbn zeta.
    destruct (fo_conn _ _ _ _ _ Hf) as (c & Hc & Ht & Hauth). unfold CL.if_connected. cbn [CL.server_connection CL.set_manager]. rewrite Hc.
    destruct (Hsend _ _ c _ Ht) as (c' & -> & Ht' & Hauth'). rewrite !bind_ok. do 2 eexists. split; [reflexivity|]. split; [reflexivity|].
    exact (follows_next s e w last st last next h c' (CL.heap s) (CL.incoming_world_events s) Hf Hh Hd (Hag eq_refl) Ht' (eq_trans Hauth' Hauth)).
  - rewrite bind_ok. cbn zeta. do 2 eexists. split; [reflexivity|]. split; [reflexivity|]. destruct Hf. now split.
Qed.

(** The channel of the connection follows, or there is none to follow. *)
Lemma sync_channel_ok (s : Client) e next c : s.(CL.server_connection) = Some c -> tracked s e (c, s.(CL.heap)) ->
  exists c', CL.sync_channel e next s = Ok (CL.set_conn (Some c') s) /\ tracked s e (c', s.(CL.heap)) /\ cc_authed c' e = cc_authed c e.
Proof using Type.
  intros Hc Ht. unfold CL.sync_channel, CL.if_connected. rewrite Hc. destruct (cc_remote_auth_status c e).
  - destruct (law_set_auth _ _ e next c _ Ht) as (c' & -> & Ht' & Ha). rewrite bind_ok. now exists c'.
  - rewrite bind_ok. now exists c.
Qed.

Lemma grant_registers (s : Client) now e c : s.(CL.server_connection) = Some c -> tracked s e (c, s.(CL.heap)) ->
  exists c' h', CL.register_authed iter_k now e s = Ok (CL.set_heap h' (CL.set_conn (Some c') s)) /\ tracked s e (c', h') /\ cc_authed c' e = true.
Proof using Type.
  intros Hc Ht. unfold CL.register_authed, CL.unwrap_conn. rewrite Hc. destruct (law_register _ _ now e _ Ht) as ([c' h'] & -> & Ht' & Ha).
  rewrite bind_ok. now exists c', h'.
Qed.

Lemma loss_deregisters (s : Client) now e c : s.(CL.server_connection) = Some c -> tracked s e (c, s.(CL.heap)) ->
  exists c' h', CL.deregister_authed iter_k now e s = Ok (CL.set_heap h' (CL.set_conn (Some c') s)) /\ tracked s e (c', h') /\ cc_authed c' e = false.
Proof using Type.
  intros Hc Ht. unfold CL.deregister_authed, CL.unwrap_conn. rewrite Hc. destruct (law_deregister _ _ now e _ Ht) as ([c' h'] & -> & Ht' & Ha).
  rewrite bind_ok. now exists c', h'.
Qed.

(** The table of transitions, where the server's word agrees with the status. *)
Lemma authority_changed_ok (s : Client) now e w last st next c : s.(CL.server_connection) = Some c -> tracked s e (c, s.(CL.heap)) ->
  cc_authed c e = bool_decide (last = Granted) -> agree last st -> next <> last -> agree next next ->
  exists c' h', CL.authority_changed iter_k now st next e w s
      = Ok (CL.set_events (s.(CL.incoming_world_events) ++ [told w last next]) (CL.set_heap h' (CL.set_conn (Some c') s))) /\
    tracked s e (c', h') /\ cc_authed c' e = bool_decide (next = Granted).
Proof using Type.
  intros Hc Ht Ha Hag Hne Hnext.
  destruct (grant_registers s now e c Hc Ht) as (cr & hr & Hr & Htr & Har). destruct (loss_deregisters s now e c Hc Ht) as (cd & hd & Hd & Htd & Had).
  assert (CL.set_heap s.(CL.heap) (CL.set_conn (Some c) s) = s) as Hs by (destruct s; cbn in *; now subst).
  destruct last, st; cbn in Hag; try contradiction; destruct next; cbn in Hnext; try contradiction; try congruence;
    cbn [CL.authority_changed told]; rewrite ?Hr, ?Hd, ?bind_ok;
    first [ now exists cr, hr | now exists cd, hd | exists c, s.(CL.heap); rewrite Hs; now split ].
Qed.

Lemma client_update_ok (s : Client) now e w last st next : follows s e w last st -> next <> last -> agree next next ->
  exists s', CL.entity_update_authority iter_k now e w next s = Ok s' /\
    s'.(CL.incoming_world_events) = s.(CL.incoming_world_events) ++ [told w last next] /\ follows s' e w next next.
Proof using Type.
  intros Hf Hne Hnext. unfold CL.entity_update_authority.
  rewrite (status_of_data _ e st (fo_handler _ _ _ _ _ Hf) (fo_status _ _ _ _ _ Hf)), bind_ok. cbn [unwrap]. rewrite bind_ok.
  destruct (update_authority_ok _ e st next (fo_handler _ _ _ _ _ Hf) (fo_status _ _ _ _ _ Hf)) as (h & Hh & Hok & Hd).
  unfold CL.with_manager at 1. rewrite Hh, !bind_ok. destruct (fo_conn _ _ _ _ _ Hf) as (c & Hc & Ht & Hauth).
  destruct (sync_channel_ok (CL.set_manager (CW.set_auth (CL.global_world_manager s) h) s) e next c Hc Ht) as (c1 & -> & Ht1 & Ha1). rewrite bind_ok.
  destruct (authority_changed_ok (CL.set_conn (Some c1) (CL.set_manager (CW.set_auth (CL.global_world_manager s) h) s)) now e w last st next c1 eq_refl Ht1
              (eq_trans Ha1 Hauth) (fo_agree _ _ _ _ _ Hf) Hne Hnext) as (c2 & h2 & -> & Ht2 & Ha2).
  eexists. split; [reflexivity|]. split; [reflexivity|].
  exact (follows_next s e w last st next next h c2 h2 _ Hf Hok Hd Hnext Ht2 Ha2).
Qed.

Lemma server_step (s : Client) now e w last st next : follows s e w last st -> next <> last -> agree next next ->
  exists s', run_input now e w (FromServer next) s = Ok s' /\
    s'.(CL.incoming_world_events) = s.(CL.incoming_world_events) ++ [told w last next] /\ follows s' e w next next.
Proof using Type.
  intros Hf Hne Hnext. destruct (client_update_ok s now e w last st next Hf Hne Hnext) as (s' & Hs' & Hev & Hf').
  exists s'. split; [|now split]. unfold run_input. cbn [CL.process_entity_events CL.handle_event]. unfold CL.world_of.
  rewrite (fo_to_world _ _ _ _ _ Hf). cbn [unwrap]. now rewrite bind_ok, Hs'.
Qed.

Lemma input_step (s : Client) now e w last st i last' st' evs : follows s e w last st -> spec_input w i (last, st) = Some (last', st', evs) ->
  exists s', run_input now e w i s = Ok s' /\ s'.(CL.incoming_world_events) = s.(CL.incoming_world_events) ++ evs /\ follows s' e w last' st'.
Proof using Type.
  intros Hf Hs. destruct i as [next| |]; cbn [spec_input] in Hs.
  - assert (next <> last /\ agree next next /\ (last', st', evs) = (next, next, [told w last next])) as (Hne & Hnext & [= -> -> ->])
      by (destruct next; try discriminate; (case_decide as Hd; [discriminate|]); injection Hs as <- <- <-; easy).
    now apply (server_step s now e w last st next).
  - injection Hs as <- <- <-. cbn [run_input].
    destruct (own_call CL.entity_request_authority cc_send_request_auth can_request NotAvailable Requested s e w last st (bool_decide (st = Available)))
      as (r & s' & -> & Hev & Hf'); [reflexivity|intros gk d; exact (law_request gk d e)|now destruct st| |exact Hf|].
    { intros Hb%bool_decide_eq_true. subst st. pose proof (fo_agree _ _ _ _ _ Hf) as Ha. now destruct last. }
    rewrite bind_ok. exists s'. split; [reflexivity|]. split; [now rewrite app_nil_r|]. case_bool_decide; [rewrite decide_True by assumption|rewrite decide_False by assumption]; exact Hf'.
  - cbn [run_input]. assert (st <> Requested) as Hnr by now destruct st.
    destruct (own_call CL.entity_release_authority cc_send_release_auth can_release NotHolder Releasing s e w last st (bool_decide (st = Granted)))
      as (r & s' & -> & Hev & Hf'); [reflexivity|intros gk d; exact (law_release gk d e)|now destruct st| |exact Hf|].
    { intros Hb%bool_decide_eq_true. subst st. pose proof (fo_agree _ _ _ _ _ Hf) as Ha. now destruct last. }
    rewrite bind_ok. exists s'. split; [reflexivity|]. destruct st; try discriminate; injection Hs as <- <- <-; (split; [now rewrite app_nil_r|exact Hf']).
Qed.


(** ** Calls that stop the client *)
Lemma lost_request_panics (s : Client) now e w : Auth.handler_ok s.(CL.global_world_manager).(CW.auth_handler) ->
  Auth.data_of s.(CL.global_world_manager).(CW.auth_handler) e = Some (Auth.mkAuthData EntityTypes.Client Requested) ->
  forall x, CL.entity_update_authority iter_k now e w Available s <> Ok x.
Proof using Type.
  intros Hok Hd x H. unfold CL.entity_update_authority in H. rewrite (status_of_data _ e _ Hok Hd), bind_ok in H. cbn [unwrap] in H. rewrite bind_ok in H.
  apply bind_ok_inv in H as (s1 & _ & H). apply bind_ok_inv in H as (s2 & _ & H). discriminate.
Qed.

(** An entity that the server takes away while the client waits for its authority stops the
    client: the request itself succeeds, and processing the despawn that arrives before the answer
    never does, because the table of transitions has no entry from [Requested] to [Available]. *)
Theorem despawn_while_requested_panics (s : Client) now e w rest : follows s e w Available Available ->
  exists s', CL.entity_request_authority w s = Ok (inr tt, s') /\
    forall x, CL.process_entity_events iter_k world_hook world_kinds now (EvDespawn e :: rest) s' <> Ok x.
Proof using Type.
  intros Hf.
  destruct (own_call CL.entity_request_authority cc_send_request_auth can_request NotAvailable Requested s e w Available Available true)
    as (r & s' & Hr & _ & Hf'); [reflexivity|intros gk d; exact (law_request gk d e)|reflexivity|easy|exact Hf|].
  exists s'. assert (r = inr tt) as ->.
  { unfold CL.entity_request_authority, CL.check_client_authoritative_allowed, CL.global_of in Hr. rewrite (fo_allowed _ _ _ _ _ Hf), (fo_to_global _ _ _ _ _ Hf) in Hr.
    cbn [unwrap] in Hr. rewrite !bind_ok in Hr. apply bind_ok_inv in Hr as ([r1 m1] & Hm & Hr). unfold CW.entity_request_authority in Hm.
    rewrite (change_own_spec _ e Available can_request NotAvailable Requested true (follows_delegated_entity _ _ _ _ _ Hf) (fo_delegated _ _ _ _ _ Hf)
               (fo_handler _ _ _ _ _ Hf) (fo_status _ _ _ _ _ Hf) eq_refl) in Hm.
    apply bind_ok_inv in Hm as (m2 & _ & Hm). injection Hm as <- _. apply bind_ok_inv in Hr as (s2 & _ & Hr). now injection Hr as <- _. }
  split; [exact Hr|]. intros x H. cbn [CL.process_entity_events CL.handle_event] in H. apply bind_ok_inv in H as (y & H & _).
  apply bind_ok_inv in H as (s1 & H & _). unfold CL.handle_despawn, CL.world_of in H. rewrite (fo_to_world _ _ _ _ _ Hf') in H. cbn [unwrap] in H. rewrite bind_ok in H.
  apply bind_ok_inv in H as (s2 & H & _). unfold CL.lose_authority_on_despawn in H. cbn [CL.global_world_manager CL.push_event CL.set_events CL.set_registry] in H.
  rewrite (fo_delegated _ _ _ _ _ Hf'), (status_of_data _ e _ (fo_handler _ _ _ _ _ Hf') (fo_status _ _ _ _ _ Hf')), bind_ok in H.
  rewrite decide_False in H by discriminate. eapply lost_request_panics; [| |exact H]; [exact (fo_handler _ _ _ _ _ Hf')|exact (fo_status _ _ _ _ _ Hf')].
Qed.

Lemma register_registers (m m' : CW.GlobalWorldManager) e : CW.entity_register_auth_for_delegation e m = Ok m' ->
  is_Some (m'.(CW.auth_handler).(Auth.auth_channels) !! e) /\ m'.(CW.entity_records) = m.(CW.entity_records) /\
  CW.entity_replication_config m e = Some Public.
Proof using Type.
  unfold CW.entity_register_auth_for_delegation, CW.entity_replication_config. destruct (CW.entity_records m !! e) as [r|]; [|discriminate]. cbn.
  case_decide as Hp; [|discriminate]. intros H. apply bind_ok_inv in H as ([a h] & H & Hm). injection Hm as <-. unfold Auth.HostAuth_register_entity in H.
  destruct (Auth.auth_channels _ !! e); [discriminate|]. injection H as <- <-. cbn. rewrite lookup_insert_eq, Hp. eauto.
Qed.

Lemma register_twice (m : CW.GlobalWorldManager) e : is_Some (m.(CW.auth_handler).(Auth.auth_channels) !! e) ->
  CW.entity_replication_config m e = Some Public -> CW.entity_register_auth_for_delegation e m = Panic.
Proof using Type.
  unfold CW.entity_register_auth_for_delegation, CW.entity_replication_config. intros [a Ha] H. destruct (CW.entity_records m !! e) as [r|]; [|discriminate].
  cbn in *. injection H as ->. unfold Auth.HostAuth_register_entity. now rewrite Ha.
Qed.

(** A state in which the client has asked for the delegation of its own entity. *)
Lemma enable_waits kinds e w (s s' : Client) : CL.entity_enable_delegation world_hook kinds e w true s = Ok s' ->
  is_Some (s'.(CL.global_world_manager).(CW.auth_handler).(Auth.auth_channels) !! e) /\
  CW.entity_replication_config s'.(CL.global_world_manager) e = Some Public /\
  s'.(CL.global_entity_map) = s.(CL.global_entity_map) /\ s'.(CL.protocol) = s.(CL.protocol).
Proof using Type.
  unfold CL.entity_enable_delegation, CL.with_manager. intros H. apply bind_ok_inv in H as (s1 & H1 & H). apply bind_ok_inv in H1 as (m & Hm & H1). injection H1 as <-.
  apply register_registers in Hm as (Ha & Hr & Hp). unfold CL.if_connected in H. cbn [CL.server_connection CL.set_manager] in H.
  assert (CW.entity_replication_config m e = Some Public) as Hp' by (unfold CW.entity_replication_config in *; now rewrite Hr).
  destruct (CL.server_connection s) as [c|].
  - apply bind_ok_inv in H as (c' & _ & H). injection H as <-. now cbn.
  - injection H as <-. now cbn.
Qed.

Lemma publish_keeps e b (s s' : Client) : CL.publish_entity e b s = Ok s' ->
  s'.(CL.global_entity_map) = s.(CL.global_entity_map) /\ s'.(CL.protocol) = s.(CL.protocol).
Proof using Type.
  unfold CL.publish_entity, CL.with_manager, CL.if_connected. intros H. destruct b.
  - destruct (CL.server_connection s) as [c|]; [|now injection H as <-]. apply bind_ok_inv in H as (s1 & H1 & H). apply bind_ok_inv in H1 as (c' & _ & H1). injection H1 as <-.
    apply bind_ok_inv in H as (m & _ & H). now injection H as <-.
  - case_decide; [|discriminate]. apply bind_ok_inv in H as (m & _ & H). now injection H as <-.
Qed.

(** A client that asks for the delegation of one of its entities twice before the server has
    answered stops: the first call leaves the entity [Public] and registered, so the second takes
    it for a new request and registers it again. *)
Theorem delegating_twice_panics kinds (s s' : Client) e w :
  GlobalEntityMap.GlobalMap_to_global s.(CL.global_entity_map) w = Some e ->
  CW.entity_replication_config s.(CL.global_world_manager) e <> Some Delegated ->
  CL.configure_entity_replication world_hook kinds w Delegated s = Ok s' ->
  forall x, CL.configure_entity_replication world_hook kinds w Delegated s' <> Ok x.
Proof using Type.
  intros Hw Hnd H x Hx.
  assert (is_Some (s'.(CL.global_world_manager).(CW.auth_handler).(Auth.auth_channels) !! e) /\
    CW.entity_replication_config s'.(CL.global_world_manager) e = Some Public /\ s'.(CL.global_entity_map) = s.(CL.global_entity_map)) as (Ha & Hp & Hg).
  { unfold CL.configure_entity_replication, CL.global_of in H. apply bind_ok_inv in H as ([] & _ & H). rewrite Hw in H. cbn [unwrap] in H. rewrite bind_ok in H.
    apply bind_ok_inv in H as (o & _ & H). destruct (CW.is_server o); [discriminate|]. destruct (CW.is_client o); [|discriminate]. cbn [negb] in H.
    apply bind_ok_inv in H as (p & Hp & H). destruct (CW.entity_replication_config _ e) as [p'|] eqn:Hc; [|discriminate]. injection Hp as ->.
    rewrite decide_False in H by congruence. destruct p; [| |congruence].
    - apply bind_ok_inv in H as (s1 & Hpub & H). apply publish_keeps in Hpub as [Hg _]. apply enable_waits in H as (Ha & Hp & Hg' & _). now rewrite <- Hg.
    - apply enable_waits in H as (Ha & Hp & Hg' & _). easy. }
  unfold CL.configure_entity_replication, CL.global_of in Hx. apply bind_ok_inv in Hx as ([] & _ & Hx). rewrite Hg, Hw in Hx. cbn [unwrap] in Hx. rewrite bind_ok in Hx.
  apply bind_ok_inv in Hx as (o & _ & Hx). destruct (CW.is_server o); [discriminate|]. destruct (CW.is_client o); [|discriminate]. cbn [negb] in Hx.
  rewrite Hp in Hx. cbn [unwrap] in Hx. rewrite bind_ok, decide_False in Hx by discriminate.
  unfold CL.entity_enable_delegation, CL.with_manager in Hx. now rewrite (register_twice _ e Ha Hp) in Hx.
Qed.
End Authority.

(** * A client with one delegated entity *)
Module ClientSample.
#[export] Instance sample_replicate : Replicate Z unit unit := {|
  component_kind c := c; relations_waiting _ := None; relations_complete _ c := Ok c;
  update_kind _ := 0%Z; field_id _ := 0%Z; split_into_waiting_and_ready _ _ := None |}.

Abbreviation LManager := (@LocalWorldManager Z unit unit nat).
Abbreviation Heap := (@Store nat _ _).
Abbreviation Diffs := (@GlobalDiffHandler GlobalEntity ComponentKind _ _ _ _).
#[export] Instance sample_conn : ClientConn LManager Heap Diffs := local_client_conn (fun _ => false) elements elements map_to_list.
#[export] Instance sample_laws : AuthLaws LManager Heap Diffs := local_auth_laws (fun _ => false) elements elements map_to_list.
Abbreviation Sample := (@CL.Client Z nat LManager _ _ _ _).

(** The application's world registers nothing for mutation. *)
Definition sample_hook (_ : world_call Z) (m : CW.GlobalWorldManager) (h : Heap) : res (Diffs * Heap) := Ok (CW.diff_handler m, h).
Definition sample_protocol : CL.Protocol := CL.mkProtocol true (fun _ => None).
Definition remote1 : RemoteEntity := mkRemoteEntity 1 false.

Definition events_of (events : list (EntityEvent Z)) (s : Sample) : res Sample :=
  CL.process_entity_events elements sample_hook (fun _ => []) 0 events s.

Definition joined : Sample :=
  let '(c, h) := LocalWorld_new (None : option nat) EntityTypes.Client 0 Global_new UpdateManager.Sample.st0 in
  CL.mkClient sample_protocol (Some c) CW.Manager_new GlobalEntityMap.GlobalMap_new Registry_new h [] [].

(** The connection knows number 0, world entity 9, as [remote1]; the server spawns and
    delegates it. *)
Definition told_of_entity : res Sample :=
  '(e, g) ← GlobalEntityMap.GlobalMap_spawn 9%Z None joined.(CL.global_entity_map);
  s ← CL.if_connected (insert_remote_entity elements e remote1 ∅) (CL.set_entities g joined);
  events_of [EvSpawn e; EvEnableDelegation e] s.
Definition watching : Sample := Eval vm_compute in match told_of_entity with Ok s => s | _ => joined end.

(** The client's own entity: world entity 9, number 0, with a component of kind 3. *)
Definition with_own_entity : res Sample :=
  ks ← Kinds_add (3 : ComponentKind) tt EmptyString Kinds_new;
  s ← CL.enable_entity_replication elements 0 9%Z joined;
  CL.insert_component_worldless ks 0 9%Z 3 1 s.
Definition owning : Sample := Eval vm_compute in match with_own_entity with Ok s => s | _ => joined end.

Lemma registrable_none d e us : registrable (A := nat) d e [] us.
Proof. exists (fun _ => True). split; [exact I|]. split; [|easy]. intros now x _. now exists x. Qed.

Lemma watching_follows : follows elements watching 0 9%Z Available Available.
Proof.
  split; try reflexivity.
  - assert (Auth.auth_channels watching.(CL.global_world_manager).(CW.auth_handler) = {[0%Z := 0%nat]}) as Hc by reflexivity.
    split; rewrite ?Hc.
    + intros e a [_ <-]%lookup_singleton_Some. cbn. lia.
    + intros e1 e2 a [<- _]%lookup_singleton_Some [<- _]%lookup_singleton_Some. reflexivity.
  - eexists. split; [reflexivity|]. split; [|reflexivity]. split; [|split; [now eexists|apply registrable_none]].
    exists remote1. split; [reflexivity|]. split; [now do 2 eexists|]. now eexists.
Qed.


Lemma despawn_while_requested_panics_witness :
  exists s', CL.entity_request_authority 9%Z watching = Ok (inr tt, s') /\ forall x, events_of [EvDespawn 0] s' <> Ok x.
Proof. apply (despawn_while_requested_panics elements sample_hook (fun _ => []) watching 0 0 9%Z []). exact watching_follows. Defined.

Definition configured : Sample :=
  Eval vm_compute in match CL.configure_entity_replication sample_hook [] 9%Z Delegated owning with Ok s => s | _ => joined end.
Lemma delegating_twice_panics_witness : forall x, CL.configure_entity_replication sample_hook [] 9%Z Delegated configured <> Ok x.
Proof. apply (delegating_twice_panics sample_hook [] owning configured 0 9%Z); [reflexivity|discriminate|reflexivity]. Defined.

(** A request taken back before the answer.  The grant that was under way frees the entity, the
    application asks again, and the server's answer to the release stops the client. *)
Example release_before_answer_panics :
  foldM (run_input elements sample_hook (fun _ => []) 0 0 9%Z) [Request; Release; FromServer Granted; Request; FromServer Available] watching = Panic.
Proof. vm_compute. reflexivity. Qed.

(** An answer for an entity that is gone hides the events behind it. *)
Example migrate_response_hides_the_rest : events_of [EvMigrateResponse 5 remote1; EvSetAuthority 0 Granted] watching = Ok watching.
Proof. vm_compute. reflexivity. Qed.
End ClientSample.
