(* ===== verification/ClientMigration.v ===== *)
(** The answer to a client's own delegation: the entity moves to the remote side of the connection
    and the application is granted authority, but nothing registers the entity for updates. *)

From Stdlib Require Import ZArith Lia.
From stdpp Require Import base numbers option list gmap sets.
From S2P Require Import Prelude Kinds Wire EntityTypes SyncEngine HostSync DiffHandlers UpdateManager EntityMaps LocalEntities Waitlist RemoteWorld HostWorld LocalWorld Authority Resources ServerWorld WorldServer ServerEvents ClientWorld Client ClientFacts.

Section Migration.
Context {X U F A : Type} {eqA : EqDecision A} {cA : Countable A}.
Abbreviation LManager := (@LocalWorldManager X U F A).

(** [e] is the remote entity [r], which the client may not update. *)
Record unauthed (e : GlobalEntity) (r : RemoteEntity) (authed : option (gset RemoteEntity)) (c : LManager) : Prop := {
  un_remote : LocalEntityMap.LocalMap_to_remote (entity_map c) e = Ok (Some r);
  un_host : LocalEntityMap.LocalMap_to_host (entity_map c) e = Ok None;
  un_authed : authed_entities_opt (lw_remote c) = authed
}.

Lemma unauthed_not_updatable e r authed c kind : unauthed e r authed c -> r ∉ default ∅ authed -> is_updatable c e kind = Ok false.
Proof using Type.
  intros [Hr Hh Ha] Hn. unfold is_updatable, host_is_component_updatable, remote_is_component_updatable. rewrite Hh, !bind_ok, Ha.
  destruct authed as [s|]; [|reflexivity]. now rewrite Hr, bind_ok, decide_False.
Qed.

(** Operations that leave the mapping and the registered entities alone. *)
Lemma unauthed_same e r authed (c c' : LManager) : entity_map c' = entity_map c -> authed_entities_opt (lw_remote c') = authed_entities_opt (lw_remote c) ->
  unauthed e r authed c -> unauthed e r authed c'.
Proof using Type. intros Hm Ha [H1 H2 H3]. now split; rewrite ?Hm, ?Ha. Qed.

Lemma replay_unauthed e r authed command (c c' : LManager) : replay_entity_command e command c = Ok c' -> unauthed e r authed c -> unauthed e r authed c'.
Proof using Type.
  unfold replay_entity_command, on_remote_entity, remote_send_entity_command. intros H. apply bind_ok_inv in H as (o & _ & H). apply bind_ok_inv in H as (x & _ & H).
  apply bind_ok_inv in H as (w & Hw & H). injection H as <-. apply bind_ok_inv in Hw as ([re|] & _ & Hw).
  - apply bind_ok_inv in Hw as (g & _ & Hw). injection Hw as <-. now apply unauthed_same.
  - injection Hw as <-. now apply unauthed_same.
Qed.

Lemma set_auth_unauthed e r authed st (c c' : LManager) : remote_receive_set_auth e st c = Ok c' -> unauthed e r authed c -> unauthed e r authed c'.
Proof using Type.
  unfold remote_receive_set_auth. intros H. apply bind_ok_inv in H as (o & _ & H). apply bind_ok_inv in H as (x & _ & H). injection H as <-. now apply unauthed_same.
Qed.

Lemma insert_remote_unauthed iter_k e r kinds (c c' : LManager) : insert_remote_entity iter_k e r kinds c = Ok c' ->
  unauthed e r (authed_entities_opt (lw_remote c)) c'.
Proof using Type.
  unfold insert_remote_entity. intros H. apply bind_ok_inv in H as (m & Hm & H).
  assert (LocalEntityMap.LocalMap_to_remote m e = Ok (Some r) /\ LocalEntityMap.LocalMap_to_host m e = Ok None) as [Hr Hh].
  { unfold LocalEntityMap.insert_with_remote_entity in Hm. repeat case_decide; try discriminate. injection Hm as <-.
    unfold LocalEntityMap.LocalMap_to_remote, LocalEntityMap.LocalMap_to_host. cbn. rewrite lookup_insert_eq. destruct r as [id []]; now cbn. }
  destruct (rg_channels _ !! r).
  - apply bind_ok_inv in H as (ch & _ & H). injection H as <-. now split.
  - apply bind_ok_inv in H as (ch & _ & H). apply bind_ok_inv in H as (rw & Hw & H). injection H as <-. unfold remote_insert_entity_channel in Hw.
    apply bind_ok_inv in Hw as (g & _ & Hw). injection Hw as <-. now split.
Qed.

Lemma migrate_unauthed iter_k now e r (c c' : LManager) : migrate_to_remote iter_k now e r c = Ok (Some c') ->
  unauthed e r (authed_entities_opt (lw_remote c)) c'.
Proof using Type.
  unfold migrate_to_remote. intros H. apply bind_ok_inv in H as ([h|] & _ & H); [|discriminate].
  apply bind_ok_inv in H as ([commands c1] & H1 & H). apply bind_ok_inv in H as (kinds & _ & H). apply bind_ok_inv in H as (c2 & H2 & H).
  apply bind_ok_inv in H as (c3 & H3 & H). apply bind_ok_inv in H as (c4 & H4 & H). apply bind_ok_inv in H as (c5 & H5 & H). apply bind_ok_inv in H as (c6 & H6 & H). injection H as <-.
  assert (authed_entities_opt (lw_remote c2) = authed_entities_opt (lw_remote c)) as Hc2.
  { unfold extract_host_entity_commands in H1. apply bind_ok_inv in H1 as (? & _ & H1). apply bind_ok_inv in H1 as (? & _ & H1).
    destruct (host_extract_entity_commands _ _). injection H1 as _ <-. unfold remove_host_entity in H2. apply bind_ok_inv in H2 as (? & _ & H2).
    apply bind_ok_inv in H2 as (? & _ & H2). apply bind_ok_inv in H2 as ([? ?] & _ & H2). apply bind_ok_inv in H2 as ([? ?] & _ & H2). now injection H2 as <-. }
  eapply set_auth_unauthed; [exact H6|]. eapply (foldM_inv (unauthed e r (authed_entities_opt (lw_remote c)))) in H5; [exact H5| |].
  - intros command a b Ha Hb. destruct (is_valid_for_remote_entity command); [eapply replay_unauthed; eauto|now injection Hb as <-].
  - unfold update_sent_command_entity_refs in H4. apply bind_ok_inv in H4 as (? & _ & H4). injection H4 as <-. apply insert_remote_unauthed in H3 as [R1 R2 R3]. rewrite Hc2 in R3. now split.
Qed.

Lemma update_then_status e st (m m' : CW.GlobalWorldManager) : CW.entity_update_authority e st m = Ok m' -> CW.entity_authority_status m' e = Ok (Some st).
Proof using Type.
  unfold CW.entity_update_authority, CW.entity_authority_status, Auth.HostAuth_set_auth_status, Auth.HostAuth_auth_status. intros H. apply bind_ok_inv in H as (h & Hh & H). injection H as <-.
  apply bind_ok_inv in Hh as (loc & Hl & Hh). unfold Auth.mutator_set_auth_status in Hh. apply bind_ok_inv in Hh as (d & Hd & Hh). injection Hh as <-. cbn.
  destruct (Auth.auth_channels _ !! e) as [loc'|]; [|discriminate]. injection Hl as ->. cbn. unfold Auth.accessor_auth_status. cbn.
  destruct (_ !! loc) as [d'|] eqn:Hlk in Hd; [|discriminate]. rewrite list_lookup_insert_eq by now apply lookup_lt_Some in Hlk. reflexivity.
Qed.
End Migration.

Section Grant.
Context (immutable : ComponentKind -> bool) (iter_k : gset ComponentKind -> list ComponentKind) (iter_e : gset RemoteEntity -> list RemoteEntity)
        (iter_g : gmap GlobalEntity LocalEntityRecord -> list (GlobalEntity * LocalEntityRecord)).
Context {E A Comp U F : Type} {eqE : EqDecision E} {cE : Countable E} {eqA : EqDecision A} {cA : Countable A} {replicate : Replicate Comp U F}.
Abbreviation LManager := (@LocalWorldManager Comp U F A).
Abbreviation Heap := (@Store A eqA cA).
Abbreviation Diffs := (@GlobalDiffHandler GlobalEntity ComponentKind _ _ _ _).
Context (world_hook : world_call E -> CW.GlobalWorldManager -> Heap -> res (Diffs * Heap)) (world_kinds : E -> list ComponentKind).
Abbreviation Client := (@CL.Client E A LManager eqE cE eqA cA).
#[local] Instance grant_conn : ClientConn LManager Heap Diffs := local_client_conn immutable iter_k iter_e iter_g.
Abbreviation process := (CL.process_entity_events (Comp := Comp) iter_k world_hook world_kinds).

(** The connection of [s] never sends an update of [e]. *)
Definition silent (s : Client) (e : GlobalEntity) : Prop := exists c, s.(CL.server_connection) = Some c /\ forall kind, is_updatable c e kind = Ok false.

Lemma complete_delegation_keeps e w (s s' : Client) : CL.entity_complete_delegation world_hook e w s = Ok s' ->
  s'.(CL.server_connection) = s.(CL.server_connection) /\ s'.(CL.incoming_world_events) = s.(CL.incoming_world_events) /\ s'.(CL.global_entity_map) = s.(CL.global_entity_map).
Proof using Type.
  unfold CL.entity_complete_delegation, CL.call_world, CL.with_manager. intros H. apply bind_ok_inv in H as (s1 & H1 & H). apply bind_ok_inv in H1 as ([d h] & _ & H1). injection H1 as <-.
  apply bind_ok_inv in H as (m & _ & H). now injection H as <-.
Qed.

(** A handled answer: what the client has afterwards. *)
Lemma migrate_response_state now e w r c (s s' : Client) : s.(CL.server_connection) = Some c -> GlobalEntityMap.GlobalMap_to_entity s.(CL.global_entity_map) e = Some w ->
  CL.handle_migrate_response world_hook now e r s = Ok (Some s') ->
  s'.(CL.incoming_world_events) = s.(CL.incoming_world_events) ++ [GotAuthGrant w] /\ s'.(CL.global_entity_map) = s.(CL.global_entity_map) /\
  CW.entity_authority_status s'.(CL.global_world_manager) e = Ok (Some Granted) /\
  exists c', s'.(CL.server_connection) = Some c' /\ unauthed e r (authed_entities_opt (lw_remote c)) c'.
Proof using Type.
  intros Hc Hw H. unfold CL.handle_migrate_response in H. rewrite Hw, Hc in H. cbn [cc_migrate grant_conn local_client_conn] in H.
  apply bind_ok_inv in H as ([c'|] & Hm & H); [|discriminate]. apply migrate_unauthed in Hm. cbn zeta in H.
  apply bind_ok_inv in H as (status & _ & H). apply bind_ok_inv in H as (s1 & H1 & H). apply bind_ok_inv in H as (s2 & H2 & H). apply bind_ok_inv in H as (s3 & H3 & H). injection H as <-.
  assert (s1.(CL.server_connection) = Some c' /\ s1.(CL.incoming_world_events) = s.(CL.incoming_world_events) /\ s1.(CL.global_entity_map) = s.(CL.global_entity_map)) as (Hc1 & He1 & Hg1).
  { destruct status; [now injection H1 as <-|]. unfold CL.with_manager in H1. apply bind_ok_inv in H1 as (m & _ & H1). now injection H1 as <-. }
  apply complete_delegation_keeps in H2 as (Hc2 & He2 & Hg2). unfold CL.with_manager in H3. apply bind_ok_inv in H3 as (m & Hm3 & H3). injection H3 as <-.
  apply update_then_status in Hm3. cbn. rewrite He2, Hg2, Hc2, He1, Hg1, Hc1. split; [reflexivity|]. split; [reflexivity|]. split; [exact Hm3|]. now exists c'.
Qed.

Lemma granted_again_silent now e w r authed c (s s' : Client) : s.(CL.server_connection) = Some c -> unauthed e r authed c ->
  CW.entity_authority_status s.(CL.global_world_manager) e = Ok (Some Granted) -> CL.entity_update_authority iter_k now e w Granted s = Ok s' ->
  exists c', s'.(CL.server_connection) = Some c' /\ unauthed e r authed c'.
Proof using Type.
  intros Hc Hu Hs H. unfold CL.entity_update_authority in H. rewrite Hs, bind_ok in H. cbn [unwrap] in H. rewrite bind_ok in H.
  apply bind_ok_inv in H as (s1 & H1 & H). apply bind_ok_inv in H as (s2 & H2 & H). injection H as <-. unfold CL.with_manager in H1. apply bind_ok_inv in H1 as (m & _ & H1). injection H1 as <-.
  unfold CL.sync_channel, CL.if_connected in H2. cbn [CL.server_connection CL.set_manager] in H2. rewrite Hc in H2. apply bind_ok_inv in H2 as (c' & H2 & Heq). injection Heq as <-.
  exists c'. split; [reflexivity|]. destruct (cc_remote_auth_status c e) in H2.
  - exact (set_auth_unauthed e r authed Granted c c' H2 Hu).
  - now injection H2 as <-.
Qed.

(** Granted, but mute.  When the server answers a client's delegation of its own entity, the
    client gives the entity its new remote id, tells the application that it holds the authority
    and sets the status to [Granted]; no component of the entity is updatable afterwards, so no
    change the application makes is sent, and the grant that the server sends next, which finds
    the status [Granted] already, does not alter that. *)
Theorem migration_grant_without_updates now now' e w r c (s s' : Client) :
  s.(CL.server_connection) = Some c -> GlobalEntityMap.GlobalMap_to_entity s.(CL.global_entity_map) e = Some w ->
  r ∉ default ∅ (authed_entities_opt (lw_remote c)) -> CL.handle_migrate_response world_hook now e r s = Ok (Some s') ->
  s'.(CL.incoming_world_events) = s.(CL.incoming_world_events) ++ [GotAuthGrant w] /\
  CW.entity_authority_status s'.(CL.global_world_manager) e = Ok (Some Granted) /\ silent s' e /\
  forall s2, process now' [EvSetAuthority e Granted] s' = Ok s2 -> silent s2 e.
Proof using Type.
  intros Hc Hw Hn H. destruct (migrate_response_state now e w r c s s' Hc Hw H) as (Hev & Hg & Hst & c' & Hc' & Hu).
  assert (forall (s0 : Client) c0, s0.(CL.server_connection) = Some c0 -> unauthed e r (authed_entities_opt (lw_remote c)) c0 -> silent s0 e) as Hsil
    by (intros s0 c0 H0 Hu0; exists c0; split; [exact H0|]; intros kind; eapply unauthed_not_updatable; eauto).
  split; [exact Hev|]. split; [exact Hst|]. split; [now apply (Hsil s' c')|]. intros s2 H2. cbn [CL.process_entity_events CL.handle_event] in H2.
  unfold CL.world_of in H2. rewrite Hg, Hw in H2. cbn [unwrap] in H2. rewrite bind_ok in H2. apply bind_ok_inv in H2 as ([go s3] & H2 & H3).
  apply bind_ok_inv in H2 as (s4 & H2 & H4). injection H4 as <- <-. injection H3 as <-.
  destruct (granted_again_silent now' e w r _ c' s' s4 Hc' Hu Hst H2) as (c2 & Hc2 & Hu2). now apply (Hsil s4 c2).
Qed.
End Grant.

(** The entity that [owning] asks to be delegated, and the answer. *)
Module MigrationSample.
Import ClientSample.
#[export] Existing Instance sample_conn.

Definition answered : Sample :=
  Eval vm_compute in match CL.handle_migrate_response sample_hook 0 0 remote1 configured with Ok (Some s) => s | _ => joined end.

Lemma migration_grant_without_updates_witness :
  CL.incoming_world_events answered = [GotAuthGrant 9%Z] /\ CW.entity_authority_status answered.(CL.global_world_manager) 0 = Ok (Some Granted) /\
  silent answered 0 /\ forall s2, events_of [EvSetAuthority 0 Granted] answered = Ok s2 -> silent s2 0.
Proof.
  apply (migration_grant_without_updates (fun _ => false) elements elements map_to_list sample_hook (fun _ => []) 0 0 0 9%Z remote1
           (match CL.server_connection configured with Some c => c | None => (LocalWorld_new None EntityTypes.Client 0 Global_new UpdateManager.Sample.st0).1 end) configured answered);
    [reflexivity|reflexivity| |vm_compute; reflexivity].
  vm_compute. intros H. discriminate H.
Defined.

(** The channel of the entity has the component; only the registration is missing. *)
Example mute_for_want_of_registration :
  match CL.server_connection answered with
  | Some c =>
      is_updatable c 0 3 = Ok false /\
      is_updatable (lw_set_remote (remote_register_authed_entity remote1 (lw_remote c)) c) 0 3 = Ok true
  | None => False
  end.
Proof. vm_compute. now split. Qed.
End MigrationSample.
