(* ===== verification/Properties.v ===== *)
(** The fields of a component: [Property<T>]
    ([src/shared/src/world/component/property.rs]).

    A property is owned here, by the peer, published by the peer, delegated, or local.  A mutator
    is a mutation channel of the store, an accessor an entry of the authority handler.  [h] is the
    handler and [st] the store of mutation channels; reading the handler never changes it. *)

From Stdlib Require Import ZArith Lia.
From stdpp Require Import base numbers option list gmap.
From S2P Require Import Prelude BitIO Serde EntityTypes DiffHandlers Authority.

Module Property.
Section Property.
Context {T A : Type} {eqT : EqDecision T} {eqA : EqDecision A} {cA : Countable A} (serde : Serde T).
Abbreviation Heap := (@Store A eqA cA).

Record HostOwnedProperty := mkHostOwned { ho_inner : T; ho_mutator : option nat; ho_index : Z }.
Record RemotePublicProperty := mkRemotePublic { rp_inner : T; rp_mutator : nat; rp_index : Z }.
Record DelegatedProperty := mkDelegated { de_inner : T; de_accessor : nat; de_mutator : nat; de_index : Z }.

Inductive Property :=
| HostOwned (p : HostOwnedProperty)
| RemoteOwned (inner : T)
| RemotePublic (p : RemotePublicProperty)
| Delegated (p : DelegatedProperty)
| Local (inner : T).

Definition new_local (value : T) : Property := Local value.
Definition host_owned (value : T) (mutator_index : Z) : Property := HostOwned (mkHostOwned value None mutator_index).
Definition new_read (r : BitReader) : res (Property * BitReader) := '(v, r) ← de serde r; Ok (RemoteOwned v, r).

Definition set_mutator (mutator : nat) (self : Property) : res Property :=
  match self with
  | HostOwned p => Ok (HostOwned (mkHostOwned p.(ho_inner) (Some mutator) p.(ho_index)))
  | _ => Panic
  end.

Definition inner (self : Property) : T :=
  match self with
  | HostOwned p => p.(ho_inner)
  | RemoteOwned v => v
  | RemotePublic p => p.(rp_inner)
  | Delegated p => p.(de_inner)
  | Local v => v
  end.
Definition equals (self other : Property) : bool := bool_decide (inner self = inner other).

(** The status that the accessor of a delegated property shows. *)
Definition status_of (h : Auth.HostAuthHandler) (p : DelegatedProperty) : res HostEntityAuthStatus := Auth.accessor_auth_status h p.(de_accessor).

Definition write {W} `{BitWrite W} (h : Auth.HostAuthHandler) (self : Property) (w : W) : res W :=
  match self with
  | HostOwned p => ser serde p.(ho_inner) w
  | RemotePublic p => ser serde p.(rp_inner) w
  | Delegated p => s ← status_of h p; if can_write s then ser serde p.(de_inner) w else Panic
  | RemoteOwned _ | Local _ => Panic
  end.

Definition read_write {W} `{BitWrite W} (r : BitReader) (w : W) : res (BitReader * W) :=
  '(v, r) ← de serde r; w ← ser serde v w; Ok (r, w).

(** [mutate] of the three kinds that have a mutator; a host property without one only warns. *)
Definition host_mutate (p : HostOwnedProperty) (st : Heap) : res Heap :=
  match p.(ho_mutator) with Some m => send m p.(ho_index) st | None => Ok st end.
Definition delegated_mutate (h : Auth.HostAuthHandler) (p : DelegatedProperty) (st : Heap) : res Heap :=
  s ← status_of h p; if can_mutate s then send p.(de_mutator) p.(de_index) st else Panic.

Definition with_inner (v : T) (self : Property) : Property :=
  match self with
  | HostOwned p => HostOwned (mkHostOwned v p.(ho_mutator) p.(ho_index))
  | RemoteOwned _ => RemoteOwned v
  | RemotePublic p => RemotePublic (mkRemotePublic v p.(rp_mutator) p.(rp_index))
  | Delegated p => Delegated (mkDelegated v p.(de_accessor) p.(de_mutator) p.(de_index))
  | Local _ => Local v
  end.

(** What [read] does with the value it has read. *)
Definition accept (h : Auth.HostAuthHandler) (v : T) (self : Property) (st : Heap) : res (Property * Heap) :=
  match self with
  | HostOwned _ | Local _ => Panic
  | RemoteOwned _ => Ok (with_inner v self, st)
  | RemotePublic p => st ← send p.(rp_mutator) p.(rp_index) st; Ok (with_inner v self, st)
  | Delegated p =>
      s ← status_of h p;
      if can_read s then
        st ← (if can_mutate s then send p.(de_mutator) p.(de_index) st else Ok st);
        Ok (with_inner v self, st)
      else Ok (self, st)
  end.

(** The properties that read nothing panic before they touch the reader. *)
Definition read (h : Auth.HostAuthHandler) (r : BitReader) (self : Property) (st : Heap) : res (Property * BitReader * Heap) :=
  match self with
  | HostOwned _ | Local _ => Panic
  | _ => '(v, r) ← de serde r; '(self, st) ← accept h v self st; Ok (self, r, st)
  end.

Definition mirror (h : Auth.HostAuthHandler) (other : Property) (self : Property) (st : Heap) : res (Property * Heap) :=
  match self with
  | HostOwned p => st ← host_mutate p st; Ok (with_inner (inner other) self, st)
  | Delegated p => st ← delegated_mutate h p st; Ok (with_inner (inner other) self, st)
  | Local _ => Ok (with_inner (inner other) self, st)
  | RemoteOwned _ | RemotePublic _ => Panic
  end.

(** An assignment through [deref_mut]. *)
Definition assign (h : Auth.HostAuthHandler) (v : T) (self : Property) (st : Heap) : res (Property * Heap) :=
  match self with
  | HostOwned p => st ← host_mutate p st; Ok (with_inner v self, st)
  | Delegated p => st ← delegated_mutate h p st; Ok (with_inner v self, st)
  | RemoteOwned _ | RemotePublic _ | Local _ => Ok (with_inner v self, st)
  end.

Definition remote_publish (mutator_index : Z) (mutator : nat) (self : Property) : res Property :=
  match self with RemoteOwned v => Ok (RemotePublic (mkRemotePublic v mutator mutator_index)) | _ => Panic end.
Definition remote_unpublish (self : Property) : res Property :=
  match self with RemotePublic p => Ok (RemoteOwned p.(rp_inner)) | _ => Panic end.

Definition enable_delegation (accessor : nat) (mutator_opt : option (Z * nat)) (self : Property) : res Property :=
  '(mutator_index, mutator) ←
    match mutator_opt with
    | Some (mutator_index, mutator) => match self with RemoteOwned _ => Ok (mutator_index, mutator) | _ => Panic end
    | None =>
        match self with
        | HostOwned p => m ← unwrap p.(ho_mutator); Ok (p.(ho_index), m)
        | RemotePublic p => Ok (p.(rp_index), p.(rp_mutator))
        | _ => Panic
        end
    end;
  Ok (Delegated (mkDelegated (inner self) accessor mutator mutator_index)).

Definition disable_delegation (self : Property) : res Property :=
  match self with Delegated p => Ok (HostOwned (mkHostOwned p.(de_inner) (Some p.(de_mutator)) p.(de_index))) | _ => Panic end.
Definition localize (self : Property) : res Property :=
  match self with HostOwned p => Ok (Local p.(ho_inner)) | _ => Panic end.
End Property.
End Property.
