(* ===== verification/EntityProps.v ===== *)
(** References from a component to another entity: [EntityProperty]
    ([src/shared/src/world/component/entity_property.rs]).

    A reference is a property whose value is an optional entity, with two states of its own: a
    reference read before its entity has arrived waits, and one that names an unknown entity of
    this side is invalid.  The connection's ids are known through the conversion traits. *)

From Stdlib Require Import ZArith Lia.
From stdpp Require Import base numbers option list gmap.
From S2P Require Import Prelude BitIO Serde Wire EntityTypes DirtyQueue DiffHandlers EntityMaps LocalEntities Authority Properties.

(** [LocalEntityAndGlobalEntityConverterMut]: the id of an entity, reserved where it has none;
    [None] is the [Err] of an entity that may not be named to this peer. *)
Class ConverterMut (S : Type) := { get_or_reserve : GlobalEntity -> S -> res (option OwnedLocalEntity * S) }.

(** [EntityConverterMut]: the map and the generator of a connection. *)
Record EntityConverterMut := mkConverterMut {
  cm_can_relate : GlobalEntity -> bool;
  cm_now : Z;
  cm_map : LocalEntityMap.LocalEntityMap;
  cm_generator : HostEntityGenerator.HostEntityGenerator
}.
#[export] Instance connection_converter : ConverterMut EntityConverterMut := {|
  get_or_reserve e c :=
    '(o, m, g) ← HostEntityGenerator.get_or_reserve_entity (c.(cm_can_relate) e) c.(cm_now) e c.(cm_map) c.(cm_generator);
    Ok (o, mkConverterMut c.(cm_can_relate) c.(cm_now) m g) |}.

Module EntityProperty.
Section EntityProperty.
Context {A : Type} {eqA : EqDecision A} {cA : Countable A}.
Abbreviation Heap := (@Store A eqA cA).
Abbreviation Target := (option GlobalEntity).

Record HostCreatedRelation := mkHostCreated { hc_global_entity : Target; hc_mutator : option nat; hc_index : Z }.
Record RemoteWaitingRelation := mkRemoteWaiting {
  rw_remote_entity : RemoteEntity; will_publish : option (Z * nat); will_delegate : option nat
}.
Record RemotePublicRelation := mkRemotePublic { rp_global_entity : Target; rp_mutator : nat; rp_index : Z }.
Record DelegatedRelation := mkDelegated { dr_global_entity : Target; auth_accessor : nat; dr_mutator : nat; dr_index : Z }.

Inductive EntityRelation :=
| HostCreated (r : HostCreatedRelation)
| RemoteCreated (global_entity : Target)
| RemoteWaiting (r : RemoteWaitingRelation)
| RemotePublic (r : RemotePublicRelation)
| Delegated (r : DelegatedRelation)
| Local (global_entity : Target)
| Invalid.

Definition new_for_message : EntityRelation := HostCreated (mkHostCreated None None 0).
Definition new_for_component (mutator_index : Z) : EntityRelation := HostCreated (mkHostCreated None None mutator_index).

Definition get_global_entity (self : EntityRelation) : Target :=
  match self with
  | HostCreated r => r.(hc_global_entity)
  | RemoteCreated g => g
  | RemotePublic r => r.(rp_global_entity)
  | Local g => g
  | Delegated r => r.(dr_global_entity)
  | RemoteWaiting _ | Invalid => None
  end.

Definition get {E M} `{EntityAndGlobalEntityConverter E M} (converter : M) (self : EntityRelation) : option E :=
  match get_global_entity self with Some g => global_entity_to_entity converter g | None => None end.

Definition set_mutator (mutator : nat) (self : EntityRelation) : res EntityRelation :=
  match self with
  | HostCreated r => Ok (HostCreated (mkHostCreated r.(hc_global_entity) (Some mutator) r.(hc_index)))
  | _ => Panic
  end.

Definition status_of (h : Auth.HostAuthHandler) (r : DelegatedRelation) : res HostEntityAuthStatus := Auth.accessor_auth_status h r.(auth_accessor).

(** * Writing *)
(** The host and remote sides of an id change places on the way to the peer. *)
Definition write_target {W S} `{BitWrite W} `{ConverterMut S} (target : Target) (w : W) (converter : S) : res (W * S) :=
  match target with
  | None => w ← ser bool_serde false w; Ok (w, converter)
  | Some global_entity =>
      '(owned_opt, converter) ← get_or_reserve global_entity converter;
      match owned_opt with
      | None => w ← ser bool_serde false w; Ok (w, converter)
      | Some owned => w ← ser bool_serde true w; w ← OwnedLocalEntity_ser (owned_to_reversed owned) w; Ok (w, converter)
      end
  end.

Definition write {W S} `{BitWrite W} `{ConverterMut S} (h : Auth.HostAuthHandler) (self : EntityRelation) (w : W) (converter : S) : res (W * S) :=
  match self with
  | HostCreated r => write_target r.(hc_global_entity) w converter
  | RemotePublic r => write_target r.(rp_global_entity) w converter
  | Delegated r => s ← status_of h r; if can_write s then write_target r.(dr_global_entity) w converter else Panic
  | RemoteCreated _ | RemoteWaiting _ | Local _ | Invalid => Panic
  end.

(** Counting the bits reserves ids, as writing does. *)
Definition bit_length {S} `{ConverterMut S} (h : Auth.HostAuthHandler) (self : EntityRelation) (converter : S) : res (Z * S) :=
  '(c, converter) ← write h self (mkBitCounter 0 0 (2 ^ 32 - 1)) converter;
  n ← BitCounter_bits_needed c; Ok (n, converter).

Definition write_local_target {W M} `{BitWrite W} `{LocalEntityAndGlobalEntityConverter M} (converter : M) (target : Target) (w : W) : res W :=
  match target with
  | None => ser bool_serde false w
  | Some g =>
      match global_entity_to_owned_entity converter g with
      | None => ser bool_serde false w
      | Some owned => w ← ser bool_serde true w; OwnedLocalEntity_ser owned w
      end
  end.
Definition write_local_entity {W M} `{BitWrite W} `{LocalEntityAndGlobalEntityConverter M} (converter : M) (self : EntityRelation) (w : W) : res W :=
  match self with
  | RemoteCreated g => write_local_target converter g w
  | RemotePublic r => write_local_target converter r.(rp_global_entity) w
  | Delegated r => write_local_target converter r.(dr_global_entity) w
  | HostCreated _ | RemoteWaiting _ | Local _ | Invalid => Panic
  end.

(** * Reading *)
Definition read_entity (r : BitReader) : res (option OwnedLocalEntity * BitReader) :=
  '(exists_, r) ← de bool_serde r;
  if (exists_ : bool) then '(e, r) ← OwnedLocalEntity_de r; Ok (Some e, r) else Ok (None, r).

Definition new_read {M} `{LocalEntityAndGlobalEntityConverter M} (converter : M) (r : BitReader) : res (EntityRelation * BitReader) :=
  '(local_entity_opt, r) ← read_entity r;
  match local_entity_opt with
  | None => Ok (RemoteCreated None, r)
  | Some local_entity =>
      let redirected_entity := apply_entity_redirect converter local_entity in
      match convert_to_global redirected_entity converter with
      | Some g => Ok (RemoteCreated (Some g), r)
      | None =>
          match redirected_entity with
          | Remote id static => Ok (RemoteWaiting (mkRemoteWaiting (mkRemoteEntity id static) None None), r)
          | Host _ _ => Ok (Invalid, r)
          end
      end
  end.

Definition read_write {W} `{BitWrite W} (r : BitReader) (w : W) : res (BitReader * W) :=
  '(exists_, r) ← de bool_serde r;
  w ← ser bool_serde exists_ w;
  if (exists_ : bool) then '(e, r) ← OwnedLocalEntity_de r; w ← OwnedLocalEntity_ser e w; Ok (r, w) else Ok (r, w).

(** [mutate] of a host reference, which ignores a missing mutator, and of a delegated one. *)
Definition host_mutate (r : HostCreatedRelation) (st : Heap) : res Heap :=
  match r.(hc_mutator) with Some m => send m r.(hc_index) st | None => Ok st end.
Definition delegated_mutate (h : Auth.HostAuthHandler) (r : DelegatedRelation) (st : Heap) : res Heap :=
  s ← status_of h r; if can_mutate s then send r.(dr_mutator) r.(dr_index) st else Panic.

(** [DelegatedRelation::read_none] and [read_some] *)
Definition delegated_read (h : Auth.HostAuthHandler) (target : Target) (r : DelegatedRelation) (st : Heap) : res (EntityRelation * Heap) :=
  s ← status_of h r;
  if can_read s then
    st ← delegated_mutate h r st;
    Ok (Delegated (mkDelegated target r.(auth_accessor) r.(dr_mutator) r.(dr_index)), st)
  else Ok (Delegated r, st).

(** The entity that has been read: its id if there is one, and the entity it stands for. *)
Definition accept {M} `{LocalEntityAndGlobalEntityConverter M} (h : Auth.HostAuthHandler) (converter : M) (local_entity_opt : option OwnedLocalEntity)
    (self : EntityRelation) (st : Heap) : res (EntityRelation * Heap) :=
  match local_entity_opt with
  | None =>
      match self with
      | RemotePublic r => Ok (RemotePublic (mkRemotePublic None r.(rp_mutator) r.(rp_index)), st)
      | Delegated r => delegated_read h None r st
      | _ => Ok (RemoteCreated None, st)
      end
  | Some local_entity =>
      match convert_to_global local_entity converter with
      | Some g =>
          match self with
          | RemotePublic r => Ok (RemotePublic (mkRemotePublic (Some g) r.(rp_mutator) r.(rp_index)), st)
          | Delegated r => delegated_read h (Some g) r st
          | _ => Ok (RemoteCreated (Some g), st)
          end
      | None =>
          e ← owned_take_remote local_entity;
          Ok (RemoteWaiting match self with
                            | RemotePublic r => mkRemoteWaiting e (Some (r.(rp_index), r.(rp_mutator))) None
                            | Delegated r => mkRemoteWaiting e (Some (r.(dr_index), r.(dr_mutator))) (Some r.(auth_accessor))
                            | _ => mkRemoteWaiting e None None
                            end, st)
      end
  end.

Definition read {M} `{LocalEntityAndGlobalEntityConverter M} (h : Auth.HostAuthHandler) (converter : M) (r : BitReader)
    (self : EntityRelation) (st : Heap) : res (EntityRelation * BitReader * Heap) :=
  '(local_entity_opt, r) ← read_entity r; '(self, st) ← accept h converter local_entity_opt self st; Ok (self, r, st).

(** * Waiting *)
Definition waiting_remote_entity (self : EntityRelation) : option RemoteEntity :=
  match self with RemoteWaiting r => Some r.(rw_remote_entity) | _ => None end.

(** What a waiting reference becomes. *)
Definition complete_as (target : Target) (r : RemoteWaitingRelation) : EntityRelation :=
  match r.(will_publish), r.(will_delegate) with
  | Some (index, mutator), Some accessor => Delegated (mkDelegated target accessor mutator index)
  | Some (index, mutator), None => RemotePublic (mkRemotePublic target mutator index)
  | None, _ => RemoteCreated target
  end.
Definition waiting_complete {M} `{LocalEntityAndGlobalEntityConverter M} (converter : M) (self : EntityRelation) : res EntityRelation :=
  match self with
  | RemoteCreated _ | RemotePublic _ | Delegated _ => Ok self
  | RemoteWaiting r =>
      g ← unwrap (convert_to_global (apply_entity_redirect converter (remote_copy_to_owned r.(rw_remote_entity))) converter);
      Ok (complete_as (Some g) r)
  | HostCreated _ | Local _ | Invalid => Panic
  end.

(** * Setting *)
(** The three kinds that the application may write. *)
Definition set_target (h : Auth.HostAuthHandler) (target : Target) (self : EntityRelation) (st : Heap) : res (EntityRelation * Heap) :=
  match self with
  | HostCreated r => st ← host_mutate r st; Ok (HostCreated (mkHostCreated target r.(hc_mutator) r.(hc_index)), st)
  | Local _ => Ok (Local target, st)
  | Delegated r => st ← delegated_mutate h r st; Ok (Delegated (mkDelegated target r.(auth_accessor) r.(dr_mutator) r.(dr_index)), st)
  | RemoteCreated _ | RemoteWaiting _ | RemotePublic _ | Invalid => Panic
  end.

Definition settable (self : EntityRelation) : bool :=
  match self with HostCreated _ | Local _ | Delegated _ => true | _ => false end.
Definition set {E M} `{EntityAndGlobalEntityConverter E M} (h : Auth.HostAuthHandler) (converter : M) (entity : E) (self : EntityRelation) (st : Heap)
  : res (EntityRelation * Heap) :=
  if settable self then
    match entity_to_global_entity converter entity with Some g => set_target h (Some g) self st | None => Ok (self, st) end
  else Panic.
Definition set_to_none (h : Auth.HostAuthHandler) (self : EntityRelation) (st : Heap) : res (EntityRelation * Heap) := set_target h None self st.

Definition mirror (h : Auth.HostAuthHandler) (other self : EntityRelation) (st : Heap) : res (EntityRelation * Heap) :=
  match other with
  | Invalid => Panic
  | _ => set_target h (get_global_entity other) self st
  end.

(** * Changes of ownership *)
Definition remote_publish (mutator_index : Z) (mutator : nat) (self : EntityRelation) : res EntityRelation :=
  match self with
  | RemoteCreated g => Ok (RemotePublic (mkRemotePublic g mutator mutator_index))
  | RemoteWaiting r => Ok (RemoteWaiting (mkRemoteWaiting r.(rw_remote_entity) (Some (mutator_index, mutator)) r.(will_delegate)))
  | _ => Panic
  end.
Definition remote_unpublish (self : EntityRelation) : res EntityRelation :=
  match self with
  | RemotePublic r => Ok (RemoteCreated r.(rp_global_entity))
  | RemoteWaiting r => Ok (RemoteWaiting (mkRemoteWaiting r.(rw_remote_entity) None r.(will_delegate)))
  | _ => Panic
  end.

Definition enable_delegation (accessor : nat) (mutator_opt : option (Z * nat)) (self : EntityRelation) : res EntityRelation :=
  let delegated mutator_index mutator := Ok (Delegated (mkDelegated (get_global_entity self) accessor mutator mutator_index)) in
  match mutator_opt with
  | Some (mutator_index, mutator) =>
      match self with
      | RemoteCreated _ => delegated mutator_index mutator
      | RemoteWaiting r => Ok (RemoteWaiting (mkRemoteWaiting r.(rw_remote_entity) r.(will_publish) (Some accessor)))
      | _ => Panic
      end
  | None =>
      match self with
      | HostCreated r => m ← unwrap r.(hc_mutator); delegated r.(hc_index) m
      | RemotePublic r => delegated r.(rp_index) r.(rp_mutator)
      | _ => Panic
      end
  end.
Definition disable_delegation (self : EntityRelation) : res EntityRelation :=
  match self with
  | Delegated r => Ok (HostCreated (mkHostCreated r.(dr_global_entity) (Some r.(dr_mutator)) r.(dr_index)))
  | RemoteWaiting r => Ok (RemoteWaiting (mkRemoteWaiting r.(rw_remote_entity) r.(will_publish) None))
  | _ => Panic
  end.
Definition localize (self : EntityRelation) : res EntityRelation :=
  match self with
  | HostCreated r => Ok (Local r.(hc_global_entity))
  | Delegated r => Ok (Local r.(dr_global_entity))
  | _ => Panic
  end.
End EntityProperty.
End EntityProperty.
