(* ===== verification/PropertyFacts.v ===== *)
(** References and plain properties compared: where a reference behaves as the property of an
    optional entity, where it does not, and that a reference reaches the peer whatever arrives
    first, the reference or its entity. *)

From Stdlib Require Import ZArith Lia.
From stdpp Require Import base numbers option list gmap.
From S2P Require Import Prelude BitIO Serde Wire EntityTypes DirtyQueue DiffHandlers UpdateManager EntityMaps LocalEntities Authority Properties EntityProps.
Import EntityProperty.

Section Alike.
Context {A M E W : Type} {eqA : EqDecision A} {cA : Countable A} {conv : LocalEntityAndGlobalEntityConverter M} {world_conv : EntityAndGlobalEntityConverter E W}.
Abbreviation Heap := (@Store A eqA cA).
Abbreviation Target := (option GlobalEntity).
Abbreviation Prop_ := (@Property.Property Target).
Context (h : Auth.HostAuthHandler) (converter : M) (world : W).

Definition as_property (r : EntityRelation) : option Prop_ :=
  match r with
  | HostCreated r => Some (Property.HostOwned (Property.mkHostOwned r.(hc_global_entity) r.(hc_mutator) r.(hc_index)))
  | RemoteCreated g => Some (Property.RemoteOwned g)
  | RemotePublic r => Some (Property.RemotePublic (Property.mkRemotePublic r.(rp_global_entity) r.(rp_mutator) r.(rp_index)))
  | Delegated r => Some (Property.Delegated (Property.mkDelegated r.(dr_global_entity) r.(auth_accessor) r.(dr_mutator) r.(dr_index)))
  | Local g => Some (Property.Local g)
  | RemoteWaiting _ | Invalid => None
  end.

(** What can happen to a field of a component. *)
Inductive field_op :=
| OpSetMutator (mutator : nat)
| OpRead (local_entity_opt : option OwnedLocalEntity)
| OpSet (world_entity : option E)
| OpMirror (other : EntityRelation)
| OpPublish (mutator_index : Z) (mutator : nat)
| OpUnpublish
| OpEnable (accessor : nat) (mutator_opt : option (Z * nat))
| OpDisable
| OpLocalize.

Definition target_of (o : option OwnedLocalEntity) : Target := match o with Some e => convert_to_global e converter | None => None end.
Definition known (o : option OwnedLocalEntity) : bool :=
  match o with Some e => bool_decide (is_Some (convert_to_global e converter)) | None => true end.

Definition keep {P} (st : Heap) (r : res P) : res (P * Heap) := r ← r; Ok (r, st).
Definition run_ref (op : field_op) (x : EntityRelation * Heap) : res (EntityRelation * Heap) :=
  let '(r, st) := x in
  match op with
  | OpSetMutator m => keep st (set_mutator m r)
  | OpRead o => accept h converter o r st
  | OpSet (Some world_entity) => set h world world_entity r st
  | OpSet None => set_to_none h r st
  | OpMirror other => mirror h other r st
  | OpPublish i m => keep st (remote_publish i m r)
  | OpUnpublish => keep st (remote_unpublish r)
  | OpEnable accessor mo => keep st (enable_delegation accessor mo r)
  | OpDisable => keep st (disable_delegation r)
  | OpLocalize => keep st (localize r)
  end.
Definition run_prop (op : field_op) (x : Prop_ * Heap) : res (Prop_ * Heap) :=
  let '(p, st) := x in
  match op with
  | OpSetMutator m => keep st (Property.set_mutator m p)
  | OpRead o => Property.accept h (target_of o) p st
  | OpSet (Some world_entity) => Property.assign h (entity_to_global_entity world world_entity) p st
  | OpSet None => Property.assign h None p st
  | OpMirror other => q ← unwrap (as_property other); Property.mirror h q p st
  | OpPublish i m => keep st (Property.remote_publish i m p)
  | OpUnpublish => keep st (Property.remote_unpublish p)
  | OpEnable accessor mo => keep st (Property.enable_delegation accessor mo p)
  | OpDisable => keep st (Property.disable_delegation p)
  | OpLocalize => keep st (Property.localize p)
  end.

(** What a call does to a field.  An application sets a reference with [set] and [set_to_none] and
    assigns to a property through [deref_mut]; it copies either with [mirror].

    The calls on which the two are written alike.  Those that differ: a reference of this side or a
    published one does not read as a property does, a delegated one only where the reader may also
    write; a delegated property is never made local; setting a reference of the peer panics where
    assigning to a property does not, and setting one to an entity that the world does not know
    leaves it unchanged, which has no counterpart; and a reference that waits mirrors as none. *)
Definition alike (op : field_op) (r : EntityRelation) : bool :=
  match op, r with
  | OpSet _, (RemoteCreated _ | RemotePublic _) => false
  | OpSet (Some world_entity), _ => bool_decide (is_Some (entity_to_global_entity world world_entity))
  | OpMirror other, _ => bool_decide (is_Some (as_property other))
  | OpRead o, RemoteCreated _ => known o
  | OpRead o, Delegated d => known o && match status_of h d with Ok s => negb (can_read s) || can_mutate s | _ => true end
  | OpRead _, _ => false
  | OpLocalize, Delegated _ => false
  | _, _ => true
  end.
Fixpoint alike_all (ops : list field_op) (x : EntityRelation * Heap) : bool :=
  match ops with
  | [] => true
  | op :: ops => alike op x.1 && match run_ref op x with Ok y => alike_all ops y | _ => true end
  end.

(** The same outcome: the same property and store, or the same failure. *)
Definition same (x : res (EntityRelation * Heap)) (y : res (Prop_ * Heap)) : Prop :=
  match x, y with
  | Ok (r, st), Ok (p, st') => as_property r = Some p /\ st' = st
  | Err, Err | Panic, Panic | Diverge, Diverge => True
  | _, _ => False
  end.

Lemma same_after_send (x : res Heap) r p : as_property r = Some p -> same (st ← x; Ok (r, st)) (st ← x; Ok (p, st)).
Proof using Type. now destruct x. Qed.

Lemma known_target o : known o = true -> match o with Some e => convert_to_global e converter = target_of o /\ is_Some (target_of o) | None => True end.
Proof using Type. destruct o as [e|]; [|easy]. cbn. now intros H%bool_decide_eq_true. Qed.

Lemma delegated_read_alike d st o : known o = true ->
  (match status_of h d with Ok s => negb (can_read s) || can_mutate s | _ => true end) = true ->
  same (accept h converter o (Delegated d) st) (Property.accept h (target_of o)
    (Property.Delegated (Property.mkDelegated d.(dr_global_entity) d.(auth_accessor) d.(dr_mutator) d.(dr_index))) st).
Proof using Type.
  intros Hk Hs. assert (accept h converter o (Delegated d) st = delegated_read h (target_of o) d st) as ->.
  { pose proof (known_target o Hk) as Ht. unfold accept. destruct o as [e|]; [|reflexivity]. destruct Ht as [-> [g Hg]]. now rewrite Hg. }
  unfold delegated_read, delegated_mutate, Property.accept, Property.status_of, status_of in *. cbn [Property.de_accessor Property.de_mutator Property.de_index].
  destruct (Auth.accessor_auth_status h (auth_accessor d)) as [s| | |]; try easy. rewrite !bind_ok.
  destruct (can_read s); [|now destruct d]. cbn in Hs. rewrite Hs. now apply same_after_send.
Qed.

Lemma set_alike target r p st : as_property r = Some p -> settable r = true -> same (set_target h target r st) (Property.assign h target p st).
Proof using Type.
  intros Hp Hs. destruct r as [[g mo i']|g|w|[g m' i']|[g acc' m' i']|g|]; try discriminate; injection Hp as <-; cbn.
  - unfold host_mutate, Property.host_mutate. cbn. destruct mo; [now apply same_after_send|easy].
  - unfold delegated_mutate, Property.delegated_mutate, status_of, Property.status_of. cbn. destruct (Auth.accessor_auth_status h acc'); try easy. rewrite !bind_ok.
    destruct (can_mutate _); [now apply same_after_send|easy].
  - easy.
Qed.
Lemma mirror_alike other q r p st : as_property other = Some q -> as_property r = Some p -> same (mirror h other r st) (Property.mirror h q p st).
Proof using Type.
  intros Hq Hp. assert (mirror h other r st = set_target h (Property.inner q) r st) as -> by (destruct other as [[]| | |[]|[]| |]; try discriminate; now injection Hq as <-).
  destruct r as [[g mo i']|g|w|[g m' i']|[g acc' m' i']|g|]; try discriminate; injection Hp as <-; try easy.
  - exact (set_alike (Property.inner q) (HostCreated (mkHostCreated g mo i')) _ st eq_refl eq_refl).
  - exact (set_alike (Property.inner q) (Delegated (mkDelegated g acc' m' i')) _ st eq_refl eq_refl).
Qed.

Lemma alike_step op r p st : as_property r = Some p -> alike op r = true -> same (run_ref op (r, st)) (run_prop op (p, st)).
Proof using Type.
  intros Hp Ha. destruct op as [m|o|[world_entity|]|other|i m| |acc [[i m]|]| |].
  3: { cbn [run_ref run_prop]. assert (settable r = true) as Hs by (destruct r; try discriminate; reflexivity). unfold set. rewrite Hs.
       assert (is_Some (entity_to_global_entity world world_entity)) as [g Hg] by (destruct r; try discriminate; now apply bool_decide_eq_true in Ha). rewrite Hg. now apply set_alike. }
  3: { apply set_alike; [exact Hp|]. destruct r; try discriminate; reflexivity. }
  3: { cbn [alike run_ref run_prop] in *. apply bool_decide_eq_true in Ha as [q Hq]. rewrite Hq. cbn [unwrap]. rewrite bind_ok. now apply mirror_alike. }
  all: destruct r as [[g mo i']|g|w|[g m' i']|[g acc' m' i']|g|]; try discriminate; cbn in Hp; injection Hp as <-; cbn -[accept Property.accept]; try easy.
  - cbn in Ha. pose proof (known_target o Ha) as Ht. unfold accept. destruct o as [e|]; [|easy]. cbn in Ht |- *. destruct Ht as [_ [x ->]]. easy.
  - apply andb_true_iff in Ha as [Hk Hs]. exact (delegated_read_alike (mkDelegated g acc' m' i') st o Hk Hs).
  - destruct mo; easy.
Qed.

(** C28: A reference is a property.  Through any history of becoming tracked, published,
    unpublished, delegated, undelegated, made local, set, mirrored and updated, a reference that is
    not waiting behaves as the property of an optional entity to which the application assigns: the
    same calls panic, the value, the mutator and the accessor are the same and so is every mark left
    for other peers.  The exceptions are the calls that [alike] lists: updates of a reference of
    this side, of a published one, and of a delegated one whose reader may not write; setting a
    reference of the peer (it panics, an assignment does not) or setting one to an entity the world
    does not know; mirroring one that waits; and making a delegated one local. *)
Theorem reference_is_property ops r p (st : Heap) : as_property r = Some p -> alike_all ops (r, st) = true ->
  same (foldM run_ref ops (r, st)) (foldM run_prop ops (p, st)).
Proof using Type.
  revert r p st. induction ops as [|op ops IH]; intros r p st Hp Ha; cbn [foldM alike_all fst] in *; [now split|].
  apply andb_true_iff in Ha as [Ha1 Ha2]. pose proof (alike_step op r p st Hp Ha1) as Hs.
  destruct (run_ref op (r, st)) as [[r' st']| | |], (run_prop op (p, st)) as [[p' st2]| | |]; try easy. destruct Hs as [Hp' ->]. cbn [mbind res_bind]. now apply IH.
Qed.

(** ** Where the two differ *)

(** An update of a delegated reference stops the client that does not hold the authority.
    Every status in which the client takes updates but may not write, [Available], [Releasing] and
    [Denied], makes the reference mark itself as changed, which panics; a property with the same
    accessor takes the update. *)
Theorem delegated_reference_update_panics r s o rd rd' (st : Heap) : status_of h r = Ok s -> can_read s = true -> can_mutate s = false ->
  read_entity rd = Ok (o, rd') -> known o = true ->
  read h converter rd (Delegated r) st = Panic /\
  exists p, as_property (Delegated r) = Some p /\ Property.accept h (target_of o) p st = Ok (Property.with_inner (target_of o) p, st).
Proof using Type.
  intros Hs Hr Hm Hrd Hk. split.
  - unfold read. rewrite Hrd, bind_ok. pose proof (known_target o Hk) as Ht.
    assert (forall target, delegated_read h target r st = Panic) as Hd by (intros; unfold delegated_read, delegated_mutate; rewrite Hs, bind_ok, Hr, bind_ok, Hm; reflexivity).
    unfold accept. destruct o as [e|]; [|now rewrite Hd]. destruct Ht as [-> [g ->]]. now rewrite Hd.
  - eexists. split; [reflexivity|]. unfold Property.accept, Property.status_of. cbn. unfold status_of in Hs. now rewrite Hs, bind_ok, Hr, Hm, bind_ok.
Qed.

(** An update of a published reference is not passed on: no receiver is marked, where the
    property marks all of them. *)
Theorem published_reference_not_forwarded r o (st : Heap) : known o = true ->
  accept h converter o (RemotePublic r) st = Ok (RemotePublic (mkRemotePublic (target_of o) r.(rp_mutator) r.(rp_index)), st) /\
  exists p, as_property (RemotePublic r) = Some p /\
    Property.accept h (target_of o) p st = (st ← send r.(rp_mutator) r.(rp_index) st; Ok (Property.with_inner (target_of o) p, st)).
Proof using Type.
  intros Hk. split; [|now eexists]. pose proof (known_target o Hk) as Ht. unfold accept. destruct o as [e|]; [|reflexivity]. destruct Ht as [Ht [g Hg]]. rewrite Ht, Hg. reflexivity.
Qed.

(** A reference that is delegated while it waits, with the mutator that the client passes for an
    entity of the server, comes out of the wait as a plain remote reference. *)
Theorem waiting_delegation_lost e accessor i m g : exists r,
  enable_delegation accessor (Some (i, m)) (RemoteWaiting (mkRemoteWaiting e None None)) = Ok r /\
  (convert_to_global (apply_entity_redirect converter (remote_copy_to_owned e)) converter = Some g -> waiting_complete converter r = Ok (RemoteCreated (Some g))) /\
  enable_delegation accessor (Some (i, m)) (RemoteCreated (Some g)) = Ok (Delegated (mkDelegated (Some g) accessor m i)).
Proof using Type. eexists. split; [reflexivity|]. split; [|reflexivity]. cbn. now intros ->. Qed.
End Alike.

(** * The wait *)
Section Waiting.
Context {A M E W : Type} {eqA : EqDecision A} {cA : Countable A} {conv : LocalEntityAndGlobalEntityConverter M} {world_conv : EntityAndGlobalEntityConverter E W}.
Context (h : Auth.HostAuthHandler) (converter : M) (world : W).

Definition publication (op : @field_op E) : bool := match op with OpPublish _ _ | OpUnpublish => true | _ => false end.

Lemma publication_waits op w g x (st st' : @Store A eqA cA) : publication op = true -> w.(will_delegate) = None ->
  run_ref h converter world op (complete_as (Some g) w, st) = Ok (x, st') ->
  exists w', run_ref h converter world op (RemoteWaiting w, st) = Ok (RemoteWaiting w', st') /\ w'.(will_delegate) = None /\
    w'.(rw_remote_entity) = w.(rw_remote_entity) /\ complete_as (Some g) w' = x.
Proof using Type.
  intros Hp Hd H. destruct w as [e [[i m]|] d]; cbn in Hd; subst d; destruct op; try discriminate; cbn in H; try discriminate; injection H as <- <-;
    (eexists; split; [reflexivity|]; split; [reflexivity|]; split; reflexivity).
Qed.

(** Publishing and unpublishing a reference that waits and completing it afterwards is the same
    as completing it first: the wait is invisible to the publication of the entity. *)
Theorem publication_commutes_with_wait ops w g x (st st' : @Store A eqA cA) : forallb publication ops = true -> w.(will_delegate) = None ->
  convert_to_global (apply_entity_redirect converter (remote_copy_to_owned w.(rw_remote_entity))) converter = Some g ->
  foldM (run_ref h converter world) ops (complete_as (Some g) w, st) = Ok (x, st') ->
  exists r, foldM (run_ref h converter world) ops (RemoteWaiting w, st) = Ok (r, st') /\ waiting_complete converter r = Ok x.
Proof using Type.
  revert w st. induction ops as [|op ops IH]; intros w st Hp Hd Hg H; cbn [foldM forallb] in *.
  - injection H as <- <-. eexists. split; [reflexivity|]. cbn. now rewrite Hg.
  - apply andb_true_iff in Hp as [Hp1 Hp2]. destruct (run_ref h converter world op (complete_as (Some g) w, st)) as [[y st1]| | |] eqn:Hy; try discriminate.
    destruct (publication_waits op w g y st st1 Hp1 Hd Hy) as (w' & -> & Hd' & He' & <-). rewrite bind_ok in *. apply IH; auto. now rewrite He'.
Qed.
End Waiting.

(** * From one side to the other *)
Section Resolve.
Abbreviation wire := (option_serde owned_entity_serde).
Import LocalEntityMap HostEntityGenerator.

Lemma write_target_wire {W S} `{BitWrite W} `{ConverterMut S} g o (w : W) (s s' : S) : get_or_reserve g s = Ok (o, s') ->
  write_target (Some g) w s = (w ← ser wire (owned_to_reversed <$> o) w; Ok (w, s')).
Proof using Type.
  intros Hg. unfold write_target. rewrite Hg, bind_ok. destruct o as [o|]; [|reflexivity]. cbn. now destruct (write_bit true w).
Qed.

(** The side that has the reference may send it. *)
Definition may_write (h : Auth.HostAuthHandler) (r : EntityRelation) : Prop :=
  match r with
  | HostCreated _ | RemotePublic _ => True
  | Delegated d => exists s, status_of h d = Ok s /\ can_write s = true
  | _ => False
  end.

(** The peer's entity for what this side calls [o], read off the maps of the peer: the id of one
    side's host entity is that of a remote entity on the other. *)
Definition entity_at (peer : LocalEntityMap) (o : OwnedLocalEntity) : option GlobalEntity :=
  match o with
  | Host id static => peer.(remote_to_global) !! mkRemoteEntity id static
  | Remote id static => peer.(host_to_global) !! mkHostEntity id static
  end.

(** An id that is handed out is the one in the map. *)
Lemma reserved_id_mapped g (s : EntityConverterMut) o s' : get_or_reserve g s = Ok (Some o, s') -> LocalMap_to_owned s'.(cm_map) g = Some o.
Proof using Type.
  intros H. cbn in H. apply bind_ok_inv in H as ([[o1 m] gen] & H & E). injection E as -> <-. cbn. unfold get_or_reserve_entity in H. destruct (negb _); [discriminate|].
  destruct (LocalMap_to_owned (cm_map s) g) as [owned|] eqn:Ho; [injection H as -> <- _; exact Ho|]. apply bind_ok_inv in H as ([[he m'] gen'] & H & E). injection E as <- <- _.
  unfold host_reserve_entity in H. apply bind_ok_inv in H as (gen1 & _ & H). destruct (_ !! g); [discriminate|]. apply bind_ok_inv in H as ([he1 gen2] & Hgen & H). apply bind_ok_inv in H as (m1 & Hm & H). injection H as <- <- _.
  apply bind_ok_inv in Hgen as ([key gen3] & _ & E). injection E as <- _.
  unfold insert_with_host_entity in Hm. repeat case_match; try discriminate; injection Hm as <-; unfold LocalMap_to_owned; cbn; now rewrite lookup_insert_eq.
Qed.

(** C29: A reference reaches the peer.  Let a side that may send a reference (it has made it, published
    it, or holds the authority for it) write it into a packet.  The id written is the one its map has
    afterwards for the entity, reserved if it had none.  The peer, reading those bytes, comes to refer
    to the entity its own maps have for that id, the sender's host ids being its remote ids and the
    other way round: at once if the entity has arrived, and for an entity of the sender that has not,
    when the wait ends with the map of that time.  The id is not redirected at the peer, and it is
    not a static id of the peer itself, which the peer would look up as a dynamic one. *)
Theorem reference_reaches_peer h r g (s s' : EntityConverterMut) o c1 c2 g' : may_write h r -> get_global_entity r = Some g -> get_or_reserve g s = Ok (Some o, s') -> in_u 16 (owned_id o) ->
  (forall id, o <> Remote id true) -> c1.(entity_redirects) !! owned_to_reversed o = None -> c2.(entity_redirects) !! owned_to_reversed o = None ->
  entity_at c1 o = Some g' \/ (entity_at c1 o = None /\ owned_is_host o = true /\ entity_at c2 o = Some g') ->
  exists w bs x y rd, LocalMap_to_owned s'.(cm_map) g = Some o /\ write h r BitWriter_new s = Ok (w, s') /\ BitWriter_to_bytes w = Ok bs /\
    new_read c1 (BitReader_new bs) = Ok (x, rd) /\ waiting_complete c2 x = Ok y /\ get_global_entity y = Some g'.
Proof using Type.
  intros Hw Hr Hg Ho Hst Hr1 Hr2 Hat. pose proof (reserved_id_mapped g s o s' Hg) as Hmapped. assert (in_u 16 (owned_id (owned_to_reversed o))) as Hv by now destruct o.
  assert (Serde.valid wire (Some (owned_to_reversed o))) as Hvalid by exact Hv.
  destruct (serde_packet wire (Some (owned_to_reversed o)) Hvalid) as (w & bs & rd & Hser & Hb & Hde).
  { cbn [enc option_lawful length]. pose proof (owned_enc_short _ Hv). change MTU_SIZE_BITS with 3440%Z. lia. }
  assert (write h r BitWriter_new s = Ok (w, s')) as Hwrite.
  { assert (write h r BitWriter_new s = write_target (Some g) BitWriter_new s) as ->.
    { destruct r as [r|g0|r|r|r|g0|]; cbn in Hw, Hr |- *; try contradiction; try (now rewrite Hr). destruct Hw as (st & -> & Hcan). now rewrite bind_ok, Hcan, Hr. }
    rewrite (write_target_wire g (Some o) _ s s' Hg). cbn [fmap option_fmap option_map]. now rewrite Hser. }
  assert (read_entity (BitReader_new bs) = Ok (Some (owned_to_reversed o), rd)) as Hread by exact Hde.
  assert (forall c : LocalEntityMap, c.(entity_redirects) !! owned_to_reversed o = None -> convert_to_global (apply_entity_redirect c (owned_to_reversed o)) c = entity_at c o) as Hconv.
  { intros c Hc. cbn. unfold LocalMap_redirect. rewrite Hc. destruct o as [id st|id st]; cbn; [now destruct st|]. destruct st; [exfalso; now apply (Hst id)|reflexivity]. }
  exists w, bs. assert (new_read c1 (BitReader_new bs) = match entity_at c1 o with Some g0 => Ok (RemoteCreated (Some g0), rd) | None => match owned_to_reversed o with Remote id static => Ok (RemoteWaiting (mkRemoteWaiting (mkRemoteEntity id static) None None), rd) | Host _ _ => Ok (Invalid, rd) end end) as Hnew.
  { unfold new_read. rewrite Hread, bind_ok. cbn zeta. rewrite (Hconv c1 Hr1). destruct (entity_at c1 o); [reflexivity|]. cbn. unfold LocalMap_redirect. now rewrite Hr1. }
  destruct Hat as [Hat|(Hat & Hh & Hat2)]; rewrite Hat in Hnew.
  - do 3 eexists. split; [exact Hmapped|]. split; [exact Hwrite|]. split; [exact Hb|]. split; [exact Hnew|]. now split.
  - destruct o as [id st|]; [|discriminate]. do 3 eexists. split; [exact Hmapped|]. split; [exact Hwrite|]. split; [exact Hb|]. split; [exact Hnew|]. cbn [waiting_complete rw_remote_entity].
    change (remote_copy_to_owned (mkRemoteEntity id st)) with (owned_to_reversed (Host id st)). rewrite (Hconv c2 Hr2), Hat2. now split.
Qed.
End Resolve.

(** * Samples *)
Module PropertySample.
Import LocalEntityMap HostEntityGenerator.

(** One channel with one receiver, a delegated entity of a client with status [s]. *)
Definition store1 : @Store nat _ _ := {| cells := [MutReceiver_new 1]; sets := []; chans := [ClientChannel 0%nat] |}.
Definition handler (t : HostType) (s : EntityAuthStatus) : Auth.HostAuthHandler :=
  {| Auth.channels := [Auth.mkAuthData t s]; Auth.auth_channels := {[0%Z := 0%nat]} |}.
Definition client_map : LocalEntityMap := LocalMap_new EntityTypes.Client.
Definition known_map : LocalEntityMap :=
  match insert_with_remote_entity 4 (mkRemoteEntity 0 false) client_map with Ok m => m | _ => client_map end.

(** World entity 9 is known. *)
Definition world9 : GlobalEntityMap.GlobalEntityMap Z := match GlobalEntityMap.GlobalMap_spawn 9%Z None (GlobalEntityMap.GlobalMap_new (E := Z)) with Ok (_, m) => m | _ => GlobalEntityMap.GlobalMap_new end.

(** A server passes a reference of a client on: published, delegated, updated and set, undelegated
    and made local. *)
Definition life : list (@field_op Z) :=
  [OpRead None; OpPublish 3 0; OpEnable 0 None; OpRead (Some (Remote 0 false)); OpSet (Some 9); OpMirror (RemoteCreated None); OpDisable; OpSetMutator 0; OpLocalize].
Lemma reference_is_property_witness :
  same (foldM (run_ref (handler EntityTypes.Server Granted) known_map world9) life (RemoteCreated None, store1))
       (foldM (run_prop (handler EntityTypes.Server Granted) known_map world9) life (Property.RemoteOwned None, store1)) /\
  exists st, foldM (run_ref (handler EntityTypes.Server Granted) known_map world9) life (RemoteCreated None, store1) = Ok (Local None, st) /\ st <> store1.
Proof.
  split; [|eexists; split; [vm_compute; reflexivity|discriminate]].
  apply (reference_is_property (handler EntityTypes.Server Granted) known_map world9 life (RemoteCreated None)); vm_compute; reflexivity.
Defined.

Definition none_bits : BitReader := BitReader_new [0%Z].
Definition one_reference : DelegatedRelation := mkDelegated (Some 4) 0 0 3.
Lemma delegated_reference_update_panics_witness :
  read (handler EntityTypes.Client Denied) known_map none_bits (Delegated one_reference) store1 = Panic /\
  exists p, as_property (Delegated one_reference) = Some p /\
    Property.accept (handler EntityTypes.Client Denied) None p store1 = Ok (Property.with_inner None p, store1).
Proof.
  apply (delegated_reference_update_panics (handler EntityTypes.Client Denied) known_map one_reference (mkHostEntityAuthStatus EntityTypes.Client Denied) None
           none_bits (mkBitReader 0 7 1 [0%Z])); reflexivity.
Defined.

(** The server reserves an id for the entity it refers to; the client learns of the entity after
    the reference. *)
Definition server_side : EntityConverterMut := mkConverterMut (fun _ => true) 0 (LocalMap_new EntityTypes.Server) (HostGen_new 1).
Definition reserved : EntityConverterMut :=
  match get_or_reserve 7 server_side with Ok (_, s) => s | _ => server_side end.
Lemma reference_reaches_peer_witness :
  exists w bs x y rd, LocalMap_to_owned reserved.(cm_map) 7 = Some (Host 0 false) /\ write Auth.HostAuth_new (HostCreated (mkHostCreated (Some 7) None 0)) BitWriter_new server_side = Ok (w, reserved) /\ BitWriter_to_bytes w = Ok bs /\
    new_read client_map (BitReader_new bs) = Ok (x, rd) /\ waiting_complete known_map x = Ok y /\ get_global_entity y = Some 4.
Proof.
  apply (reference_reaches_peer Auth.HostAuth_new (HostCreated (mkHostCreated (Some 7) None 0)) 7 server_side reserved (Host 0 false) client_map known_map 4); try reflexivity.
  - unfold in_u. cbn. lia.
  - discriminate.
  - right. now split_and!.
Defined.
End PropertySample.
