(* ===== verification/Handshake.v ===== *)
(** Connecting with signed timestamps: the handshake of the UDP transport, on both sides
    ([src/server/src/handshake/advanced_handshaker.rs], [cache_map.rs],
    [src/client/src/handshake/advanced_handshaker.rs] and the header of
    [src/shared/src/handshake]).

    The message authentication code is a parameter ([sign], [verify]), as is the decoding of a
    string ([from_utf8_lossy]); strings are their bytes.  The client's clock synchronisation is
    known through [HandshakeClock]. *)

From Stdlib Require Import ZArith Lia.
From stdpp Require Import base numbers option list gmap.
From S2P Require Import Prelude BitIO Number Serde Wire.

Abbreviation Timestamp := Z.
Abbreviation IdentityToken := (list Z).
Abbreviation ProtocolId := Z.

(** * The header *)
Inductive RejectReason := ProtocolMismatch | Auth.

Inductive HandshakeHeader :=
| ClientChallengeRequest (protocol_id : ProtocolId)
| ServerChallengeResponse
| ClientValidateRequest
| ServerValidateResponse
| ClientConnectRequest
| ServerConnectResponse
| ServerRejectResponse (reason : RejectReason)
| Disconnect.

Definition reason_index (r : RejectReason) : Z := match r with ProtocolMismatch => 0 | Auth => 1 end.
Definition header_index (h : HandshakeHeader) : Z :=
  match h with
  | ClientChallengeRequest _ => 0 | ServerChallengeResponse => 1 | ClientValidateRequest => 2 | ServerValidateResponse => 3
  | ClientConnectRequest => 4 | ServerConnectResponse => 5 | ServerRejectResponse _ => 6 | Disconnect => 7
  end.

(** The derived implementation: the index of the variant, then its field. *)
Definition HandshakeHeader_ser {W} `{BitWrite W} (h : HandshakeHeader) (w : W) : res W :=
  w ← ser (variant_serde 8) (header_index h) w;
  match h with
  | ClientChallengeRequest protocol_id => ser u64_serde protocol_id w
  | ServerRejectResponse reason => ser (variant_serde 2) (reason_index reason) w
  | _ => Ok w
  end.
Definition HandshakeHeader_de (r : BitReader) : res (HandshakeHeader * BitReader) :=
  '(i, r) ← de (variant_serde 8) r;
  match i with
  | 0 => '(protocol_id, r) ← de u64_serde r; Ok (ClientChallengeRequest protocol_id, r)
  | 1 => Ok (ServerChallengeResponse, r)
  | 2 => Ok (ClientValidateRequest, r)
  | 3 => Ok (ServerValidateResponse, r)
  | 4 => Ok (ClientConnectRequest, r)
  | 5 => Ok (ServerConnectResponse, r)
  | 6 => '(j, r) ← de (variant_serde 2) r; Ok (ServerRejectResponse (if j =? 0 then ProtocolMismatch else Auth), r)
  | 7 => Ok (Disconnect, r)
  | _ => Err
  end.

(** A packet that starts with a standard header of the handshake type. *)
Definition packet_start (h : HandshakeHeader) : res BitWriter :=
  w ← ser standard_header_serde (mkStandardHeader Handshake 0 0 0) BitWriter_new; HandshakeHeader_ser h w.

(** * CacheMap *)
Module CacheMap.
Section CacheMap.
Context {K V : Type} {eqK : EqDecision K} {cK : Countable K}.

(** [capacity] is the capacity of the queue of keys, at least the one asked for. *)
Record CacheMap := mkCacheMap { map : gmap K V; keys : list K; capacity : nat }.

Definition with_capacity (capacity : nat) : CacheMap := mkCacheMap ∅ [] capacity.
Definition contains_key (key : K) (self : CacheMap) : bool := bool_decide (is_Some (self.(map) !! key)).
Definition get (key : K) (self : CacheMap) : option V := self.(map) !! key.
Definition get_unchecked (key : K) (self : CacheMap) : res V := unwrap (self.(map) !! key).

Definition make_room (self : CacheMap) : res CacheMap :=
  if decide (length self.(keys) = self.(capacity)) then
    match self.(keys) with
    | [] => Panic
    | popped_key :: keys => Ok (mkCacheMap (delete popped_key self.(map)) keys self.(capacity))
    end
  else Ok self.
Definition insert (key : K) (value : V) (self : CacheMap) : res CacheMap :=
  self ← make_room self;
  Ok (mkCacheMap (<[key := value]> self.(map)) (self.(keys) ++ [key]) self.(capacity)).

Definition remove (key : K) (self : CacheMap) : CacheMap :=
  match self.(map) !! key with
  | Some _ => mkCacheMap (delete key self.(map)) (filter (fun k => k <> key) self.(keys)) self.(capacity)
  | None => self
  end.
Definition clear (self : CacheMap) : CacheMap := mkCacheMap ∅ [] self.(capacity).
End CacheMap.
Arguments CacheMap _ _ {_ _}.
End CacheMap.

(** * The server *)
Section Server.
Context {A U : Type} {eqA : EqDecision A} {cA : Countable A} {eqU : EqDecision U} {cU : Countable U}.
Context (sign : Timestamp -> list Z) (verify : Timestamp -> list Z -> bool) (from_utf8_lossy : list Z -> IdentityToken).

Inductive HandshakeAction :=
| NoAction
| FinalizeConnection (user_key : U) (packet : list Z)
| SendPacket (packet : list Z)
| ForwardPacket
| DisconnectUser (user_key : U).

Record ServerHandshake := mkServerHandshake {
  protocol_id : ProtocolId;
  authenticated_and_identified_users : gmap A U;
  authenticated_unidentified_users : gmap IdentityToken U;
  identity_token_map : gmap U IdentityToken;
  been_handshaked_users : gmap A U;
  address_to_timestamp_map : CacheMap.CacheMap A Timestamp;
  timestamp_digest_map : CacheMap.CacheMap Timestamp (list Z)
}.

Definition with_identified (m : gmap A U) (s : ServerHandshake) : ServerHandshake :=
  mkServerHandshake s.(protocol_id) m s.(authenticated_unidentified_users) s.(identity_token_map) s.(been_handshaked_users)
    s.(address_to_timestamp_map) s.(timestamp_digest_map).
Definition with_tokens (m : gmap IdentityToken U) (t : gmap U IdentityToken) (s : ServerHandshake) : ServerHandshake :=
  mkServerHandshake s.(protocol_id) s.(authenticated_and_identified_users) m t s.(been_handshaked_users)
    s.(address_to_timestamp_map) s.(timestamp_digest_map).
Definition with_handshaked (m : gmap A U) (s : ServerHandshake) : ServerHandshake :=
  mkServerHandshake s.(protocol_id) s.(authenticated_and_identified_users) s.(authenticated_unidentified_users) s.(identity_token_map) m
    s.(address_to_timestamp_map) s.(timestamp_digest_map).
Definition with_timestamps (c : CacheMap.CacheMap A Timestamp) (s : ServerHandshake) : ServerHandshake :=
  mkServerHandshake s.(protocol_id) s.(authenticated_and_identified_users) s.(authenticated_unidentified_users) s.(identity_token_map)
    s.(been_handshaked_users) c s.(timestamp_digest_map).
Definition with_digests (c : CacheMap.CacheMap Timestamp (list Z)) (s : ServerHandshake) : ServerHandshake :=
  mkServerHandshake s.(protocol_id) s.(authenticated_and_identified_users) s.(authenticated_unidentified_users) s.(identity_token_map)
    s.(been_handshaked_users) s.(address_to_timestamp_map) c.

Definition MAX_PENDING_CONNECTIONS : nat := 1024.
Definition MAX_TIMESTAMP_DIGESTS : nat := 64.
Definition ServerHandshake_new (protocol_id : ProtocolId) : ServerHandshake :=
  mkServerHandshake protocol_id ∅ ∅ ∅ ∅ (CacheMap.with_capacity MAX_PENDING_CONNECTIONS) (CacheMap.with_capacity MAX_TIMESTAMP_DIGESTS).

Definition authenticate_user (identity_token : IdentityToken) (user_key : U) (s : ServerHandshake) : ServerHandshake :=
  with_tokens (<[identity_token := user_key]> s.(authenticated_unidentified_users)) (<[user_key := identity_token]> s.(identity_token_map)) s.

Definition delete_user (user_key : U) (address_opt : option A) (s : ServerHandshake) : ServerHandshake :=
  let s := match s.(identity_token_map) !! user_key with
           | Some identity_token =>
               with_tokens (delete identity_token s.(authenticated_unidentified_users)) (delete user_key s.(identity_token_map)) s
           | None => s
           end in
  match address_opt with
  | Some address =>
      with_timestamps (CacheMap.remove address s.(address_to_timestamp_map))
        (with_handshaked (delete address s.(been_handshaked_users)) (with_identified (delete address s.(authenticated_and_identified_users)) s))
  | None => with_handshaked (filter (fun '(_, v) => v <> user_key) s.(been_handshaked_users)) s
  end.

(** ** Packets of the server *)
Definition write_reject_response (reason : RejectReason) : res (list Z) := w ← packet_start (ServerRejectResponse reason); BitWriter_to_bytes w.
Definition write_validate_response : res (list Z) := w ← packet_start ServerValidateResponse; BitWriter_to_bytes w.
Definition write_connect_response : res (list Z) := w ← packet_start ServerConnectResponse; BitWriter_to_bytes w.
Definition server_write_disconnect : res (list Z) := w ← packet_start Disconnect; BitWriter_to_bytes w.

Definition remember_digest (timestamp : Timestamp) (s : ServerHandshake) : res ServerHandshake :=
  if CacheMap.contains_key timestamp s.(timestamp_digest_map) then Ok s
  else c ← CacheMap.insert timestamp (sign timestamp) s.(timestamp_digest_map); Ok (with_digests c s).
Definition write_challenge_response (timestamp : Timestamp) (s : ServerHandshake) : res (list Z * ServerHandshake) :=
  w ← packet_start ServerChallengeResponse;
  w ← ser u64_serde timestamp w;
  s ← remember_digest timestamp s;
  digest ← CacheMap.get_unchecked timestamp s.(timestamp_digest_map);
  w ← ser (vec_serde u8_serde 1) digest w;
  bs ← BitWriter_to_bytes w; Ok (bs, s).

(** ** Packets of clients *)
(** [None] where reading fails. *)
Definition attempt {X} (x : res X) : res (option X) := match x with Ok a => Ok (Some a) | Err => Ok None | Panic => Panic | Diverge => Diverge end.

Definition recv_challenge_request (r : BitReader) : res (Timestamp * IdentityToken) :=
  '(timestamp, r) ← de u64_serde r; '(bytes, _) ← de bytes_serde r; Ok (timestamp, from_utf8_lossy bytes).

Definition timestamp_validate (r : BitReader) : res (option Timestamp) :=
  o ← attempt ('(timestamp, r) ← de u64_serde r; '(digest_bytes, _) ← de (vec_serde u8_serde 1) r; Ok (timestamp, digest_bytes));
  Ok (match o with Some (timestamp, digest_bytes) => if verify timestamp digest_bytes then Some timestamp else None | None => None end).

Definition recv_validate_request (address : A) (r : BitReader) (s : ServerHandshake) : res (bool * ServerHandshake) :=
  o ← timestamp_validate r;
  match o with
  | None => Ok (false, s)
  | Some timestamp => c ← CacheMap.insert address timestamp s.(address_to_timestamp_map); Ok (true, with_timestamps c s)
  end.

Definition verify_disconnect_request (address : A) (r : BitReader) (s : ServerHandshake) : res bool :=
  o ← timestamp_validate r;
  Ok (match o, CacheMap.get address s.(address_to_timestamp_map) with
      | Some new_timestamp, Some old_timestamp => old_timestamp =? new_timestamp
      | _, _ => false
      end).

Definition user_finish_handshake (addr : A) (user_key : U) (s : ServerHandshake) : res (list Z * ServerHandshake) :=
  packet ← write_validate_response; Ok (packet, with_handshaked (<[addr := user_key]> s.(been_handshaked_users)) s).

(** A challenge whose token is known identifies the user of the address. *)
Definition handle_challenge (address : A) (r : BitReader) (s : ServerHandshake) : res (HandshakeAction * ServerHandshake) :=
  o ← attempt (recv_challenge_request r);
  match o with
  | None => Ok (NoAction, s)
  | Some (timestamp, id_token) =>
      match s.(authenticated_unidentified_users) !! id_token with
      | None => Ok (NoAction, s)
      | Some user_key =>
          _ ← unwrap (s.(identity_token_map) !! user_key);
          let s := with_tokens (delete id_token s.(authenticated_unidentified_users)) (delete user_key s.(identity_token_map)) s in
          let s := with_identified (<[address := user_key]> s.(authenticated_and_identified_users)) s in
          '(packet, s) ← write_challenge_response timestamp s; Ok (SendPacket packet, s)
      end
  end.

Definition handle_validate (address : A) (r : BitReader) (s : ServerHandshake) : res (HandshakeAction * ServerHandshake) :=
  '(valid, s) ← recv_validate_request address r s;
  if (valid : bool) then
    match s.(been_handshaked_users) !! address with
    | Some _ => packet ← write_validate_response; Ok (SendPacket packet, s)
    | None =>
        match s.(authenticated_and_identified_users) !! address with
        | Some user_key => '(packet, s) ← user_finish_handshake address user_key s; Ok (SendPacket packet, s)
        | None => Ok (NoAction, s)
        end
    end
  else Ok (NoAction, s).

Definition maintain_handshake (address : A) (r : BitReader) (has_connection : bool) (s : ServerHandshake) : res (HandshakeAction * ServerHandshake) :=
  '(handshake_header, r) ← HandshakeHeader_de r;
  match handshake_header with
  | ClientChallengeRequest client_protocol_id =>
      if negb (client_protocol_id =? s.(protocol_id)) then packet ← write_reject_response ProtocolMismatch; Ok (SendPacket packet, s)
      else handle_challenge address r s
  | ClientValidateRequest => handle_validate address r s
  | ClientConnectRequest =>
      packet ← write_connect_response;
      if has_connection then Ok (SendPacket packet, s)
      else user_key ← unwrap (s.(been_handshaked_users) !! address); Ok (FinalizeConnection user_key packet, s)
  | Disconnect =>
      ok ← verify_disconnect_request address r s;
      Ok (match (ok : bool), s.(authenticated_and_identified_users) !! address with true, Some user_key => DisconnectUser user_key | _, _ => NoAction end, s)
  | _ => Ok (NoAction, s)
  end.

Definition reset (s : ServerHandshake) : ServerHandshake :=
  mkServerHandshake s.(protocol_id) ∅ ∅ ∅ ∅ (CacheMap.clear s.(address_to_timestamp_map)) (CacheMap.clear s.(timestamp_digest_map)).
End Server.

(** * The client *)

(** What the handshake asks of the clock synchronisation ([HandshakeTimeManager]); [F] is the time
    manager that comes out of it.  A pong that cannot be read counts as [None]. *)
Class HandshakeClock (T F : Type) := {
  clock_new : T;
  clock_write_ping : T -> res (list Z * T);
  clock_read_pong : BitReader -> T -> res (option bool * T);
  clock_finalize : T -> F
}.

Section Client.
Context {T F : Type} {clock : HandshakeClock T F}.

Inductive HandshakeState :=
| AwaitingChallengeResponse
| AwaitingValidateResponse
| TimeSync (time_manager : T)
| AwaitingConnectResponse (time_manager : F)
| Connected.

Inductive HandshakeResult := ConnectedResult (time_manager : F) | Rejected (reason : RejectReason).

Record ClientHandshake := mkClientHandshake {
  client_protocol_id : ProtocolId;
  connection_state : HandshakeState;
  identity_token : option IdentityToken;
  pre_connection_timestamp : Timestamp;
  pre_connection_digest : option (list Z)
}.

(** [now] is the time at which the handshake was created. *)
Definition ClientHandshake_new (protocol_id : ProtocolId) (now : Timestamp) : ClientHandshake :=
  mkClientHandshake protocol_id AwaitingChallengeResponse None now None.
Definition set_identity_token (token : IdentityToken) (c : ClientHandshake) : ClientHandshake :=
  mkClientHandshake c.(client_protocol_id) c.(connection_state) (Some token) c.(pre_connection_timestamp) c.(pre_connection_digest).
Definition with_state (s : HandshakeState) (c : ClientHandshake) : ClientHandshake :=
  mkClientHandshake c.(client_protocol_id) s c.(identity_token) c.(pre_connection_timestamp) c.(pre_connection_digest).
Definition with_digest (d : list Z) (c : ClientHandshake) : ClientHandshake :=
  mkClientHandshake c.(client_protocol_id) c.(connection_state) c.(identity_token) c.(pre_connection_timestamp) (Some d).

Definition write_signed_timestamp (c : ClientHandshake) (w : BitWriter) : res BitWriter :=
  w ← ser u64_serde c.(pre_connection_timestamp) w;
  digest ← unwrap c.(pre_connection_digest);
  ser (vec_serde u8_serde 1) digest w.

Definition write_challenge_request (token : IdentityToken) (c : ClientHandshake) : res (list Z) :=
  w ← packet_start (ClientChallengeRequest c.(client_protocol_id));
  w ← ser u64_serde c.(pre_connection_timestamp) w;
  w ← ser bytes_serde token w;
  BitWriter_to_bytes w.
Definition write_validate_request (c : ClientHandshake) : res (list Z) :=
  w ← packet_start ClientValidateRequest; w ← write_signed_timestamp c w; BitWriter_to_bytes w.
Definition write_connect_request : res (list Z) := w ← packet_start ClientConnectRequest; BitWriter_to_bytes w.
Definition client_write_disconnect (c : ClientHandshake) : res (list Z) :=
  w ← packet_start Disconnect; w ← write_signed_timestamp c w; BitWriter_to_bytes w.

(** [ringing] is the answer of the handshake timer. *)
Definition client_send (ringing : bool) (c : ClientHandshake) : res (option (list Z) * ClientHandshake) :=
  if negb ringing then Ok (None, c)
  else match c.(connection_state) with
       | AwaitingChallengeResponse =>
           match c.(identity_token) with Some token => p ← write_challenge_request token c; Ok (Some p, c) | None => Ok (None, c) end
       | AwaitingValidateResponse => p ← write_validate_request c; Ok (Some p, c)
       | TimeSync time_manager => '(p, t) ← clock_write_ping time_manager; Ok (Some p, with_state (TimeSync t) c)
       | AwaitingConnectResponse _ => p ← write_connect_request; Ok (Some p, c)
       | Connected => Ok (None, c)
       end.

Definition recv_challenge_response (r : BitReader) (c : ClientHandshake) : res ClientHandshake :=
  match c.(connection_state) with
  | AwaitingChallengeResponse =>
      o ← attempt (de u64_serde r);
      match o with
      | None => Ok c
      | Some (timestamp, r) =>
          if c.(pre_connection_timestamp) =? timestamp then
            o ← attempt (de (vec_serde u8_serde 1) r);
            match o with
            | None => Ok c
            | Some (digest_bytes, _) => Ok (with_state AwaitingValidateResponse (with_digest digest_bytes c))
            end
          else Ok c
      end
  | _ => Ok c
  end.

Definition recv_validate_response (c : ClientHandshake) : ClientHandshake := with_state (TimeSync clock_new) c.

(** The state is replaced before it is looked at. *)
Definition recv_connect_response (c : ClientHandshake) : option HandshakeResult * ClientHandshake :=
  (match c.(connection_state) with AwaitingConnectResponse time_manager => Some (ConnectedResult time_manager) | _ => None end, with_state Connected c).

Definition recv_handshake (r : BitReader) (c : ClientHandshake) : res (option HandshakeResult * ClientHandshake) :=
  o ← attempt (HandshakeHeader_de r);
  match o with
  | None => Ok (None, c)
  | Some (header, r) =>
      match header with
      | ServerChallengeResponse => c ← recv_challenge_response r c; Ok (None, c)
      | ServerValidateResponse => Ok (None, match c.(connection_state) with AwaitingValidateResponse => recv_validate_response c | _ => c end)
      | ServerConnectResponse => Ok (recv_connect_response c)
      | ServerRejectResponse reason => Ok (Some (Rejected reason), c)
      | ClientChallengeRequest _ | ClientValidateRequest | ClientConnectRequest | Disconnect => Ok (None, c)
      end
  end.

Definition recv_pong (r : BitReader) (c : ClientHandshake) : res ClientHandshake :=
  match c.(connection_state) with
  | TimeSync time_manager =>
      '(success, t) ← clock_read_pong r time_manager;
      Ok (with_state (if decide (success = Some true) then AwaitingConnectResponse (clock_finalize t) else TimeSync t) c)
  | _ => Ok c
  end.

Definition client_recv (r : BitReader) (c : ClientHandshake) : res (option HandshakeResult * ClientHandshake) :=
  o ← attempt (de standard_header_serde r);
  match o with
  | None => Ok (None, c)
  | Some (header, r) =>
      match packet_type header with
      | Handshake => recv_handshake r c
      | Pong => c ← recv_pong r c; Ok (None, c)
      | Data | Heartbeat | Ping => Ok (None, c)
      end
  end.
End Client.
