(* ===== verification/HandshakeFacts.v ===== *)
(** What the handshake guarantees: only users who have shown their token and a signed timestamp are
    let in, and both sides complete it over a network that delivers; and where it fails: a stray
    packet stops the server, a lost answer stalls a client for good. *)

From Stdlib Require Import ZArith Lia.
From stdpp Require Import base numbers option list gmap.
From S2P Require Import Prelude BitIO Number Serde Wire Handshake.

(** * The bounded cache *)
Section Cache.
Context {K V : Type} {eqK : EqDecision K} {cK : Countable K}.
Abbreviation Cache := (@CacheMap.CacheMap K V eqK cK).

Inductive cache_op := CacheInsert (k : K) (v : V) | CacheRemove (k : K) | CacheClear.
Definition run_cache (op : cache_op) (c : Cache) : res Cache :=
  match op with
  | CacheInsert k v => CacheMap.insert k v c
  | CacheRemove k => Ok (CacheMap.remove k c)
  | CacheClear => Ok (CacheMap.clear c)
  end.

Record cache_ok (n : nat) (c : Cache) : Prop := {
  ca_capacity : c.(CacheMap.capacity) = n;
  ca_keys : (length c.(CacheMap.keys) <= n)%nat;
  ca_listed : forall k, is_Some (c.(CacheMap.map) !! k) -> k ∈ c.(CacheMap.keys)
}.

Lemma cache_insert_ok n k v c : (0 < n)%nat -> cache_ok n c -> exists c', CacheMap.insert k v c = Ok c' /\ cache_ok n c' /\ CacheMap.get k c' = Some v.
Proof using Type.
  intros Hn [Hc Hk Hl]. unfold CacheMap.insert, CacheMap.make_room. rewrite Hc. case_decide as Hd.
  - destruct (CacheMap.keys c) as [|k0 keys] eqn:Hkeys; [cbn in Hd; lia|]. rewrite bind_ok. eexists. split; [reflexivity|]. split; [split|]; cbn.
    + reflexivity || exact Hc.
    + rewrite length_app. cbn in *. lia.
    + intros k'. destruct (decide (k' = k)) as [->|Hne]; [intros _; apply elem_of_app; right; now apply list_elem_of_singleton|]. rewrite lookup_insert_ne by congruence.
      intros [x Hx]. apply lookup_delete_Some in Hx as [Hne' Hx]. apply elem_of_app. left. pose proof (Hl k' ltac:(eauto)) as Hin. rewrite elem_of_cons in Hin. destruct Hin; congruence.
    + unfold CacheMap.get. cbn. apply lookup_insert_eq.
  - rewrite bind_ok. eexists. split; [reflexivity|]. split; [split|]; cbn.
    + exact Hc.
    + rewrite length_app. cbn. lia.
    + intros k'. destruct (decide (k' = k)) as [->|Hne]; [intros _; apply elem_of_app; right; now apply list_elem_of_singleton|]. rewrite lookup_insert_ne by congruence.
      intros Hx. apply elem_of_app. left. now apply Hl.
    + unfold CacheMap.get. cbn. apply lookup_insert_eq.
Qed.

Lemma cache_remove_ok n k c : cache_ok n c -> cache_ok n (CacheMap.remove k c).
Proof using Type.
  intros [Hc Hk Hl]. unfold CacheMap.remove. destruct (CacheMap.map c !! k) eqn:Hm; [|now split]. split; cbn; [exact Hc| |].
  - pose proof (length_filter (fun k' => k' <> k) (CacheMap.keys c)). lia.
  - intros k' [x [Hne Hx]%lookup_delete_Some]. apply list_elem_of_filter. split; [congruence|]. apply Hl. eauto.
Qed.

Lemma set_of_list_small (l : list K) : (size (list_to_set l : gset K) <= length l)%nat.
Proof using Type.
  induction l as [|k l IH]; cbn; [now rewrite size_empty|]. rewrite size_union_alt, size_singleton.
  pose proof (subseteq_size ((list_to_set l : gset K) ∖ {[k]}) (list_to_set l) ltac:(set_solver)). lia.
Qed.

(** The cache is bounded: in every history it holds at most as many entries as its capacity, no
    call fails, and an entry is there right after it was put in. *)
Theorem cache_bounded n ops : (0 < n)%nat -> exists c, foldM run_cache ops (CacheMap.with_capacity n) = Ok c /\ cache_ok n c /\
  (size c.(CacheMap.map) <= n)%nat.
Proof using Type.
  intros Hn. enough (forall c0, cache_ok n c0 -> exists c, foldM run_cache ops c0 = Ok c /\ cache_ok n c) as H.
  { destruct (H (CacheMap.with_capacity n)) as (c & Hc & Hok); [split; cbn; [reflexivity|lia|intros k; rewrite lookup_empty; now intros []]|].
    exists c. split; [exact Hc|]. split; [exact Hok|]. destruct Hok as [_ Hk Hl]. rewrite <- size_dom.
    etrans; [|exact Hk]. etrans; [apply (subseteq_size (dom (CacheMap.map c)) (list_to_set (CacheMap.keys c)))|apply set_of_list_small].
    intros k Hin%elem_of_dom. apply elem_of_list_to_set. now apply Hl. }
  induction ops as [|op ops IH]; intros c0 Hok; [now exists c0|]. cbn [foldM]. destruct op as [k v|k|]; cbn [run_cache].
  - destruct (cache_insert_ok n k v c0 Hn Hok) as (c1 & -> & Hok1 & _). rewrite bind_ok. now apply IH.
  - rewrite bind_ok. apply IH. now apply cache_remove_ok.
  - rewrite bind_ok. apply IH. destruct Hok as [Hc _ _]. split; cbn; [exact Hc|lia|intros k; rewrite lookup_empty; now intros []].
Qed.
End Cache.

(** * Who is let in *)
Section Server.
Context {A U : Type} {eqA : EqDecision A} {cA : Countable A} {eqU : EqDecision U} {cU : Countable U}.
Context (sign : Timestamp -> list Z) (verify : Timestamp -> list Z -> bool) (from_utf8_lossy : list Z -> IdentityToken).
Abbreviation Server := (@ServerHandshake A U eqA cA eqU cU).
Abbreviation Action := (@HandshakeAction U).
Abbreviation maintain := (maintain_handshake sign verify from_utf8_lossy).

(** A packet is written and the state is returned. *)
Lemma answered {X P S} (m : res X) (g : X -> P) (s s' : S) p : (x ← m; Ok (g x, s)) = Ok (p, s') -> s' = s /\ exists x, p = g x.
Proof using Type. intros H. apply bind_ok_inv in H as (x & _ & H). injection H as <- <-. eauto. Qed.

(** What happens to the server: the application authenticates or deletes a user, or a packet, of
    whatever content, arrives. *)
Inductive hs_input :=
| Authenticate (token : IdentityToken) (u : U)
| DeleteUser (u : U) (address_opt : option A)
| Packet (a : A) (r : BitReader) (has_connection : bool).

Definition run_hs (i : hs_input) (s : Server) : res Server :=
  match i with
  | Authenticate token u => Ok (authenticate_user token u s)
  | DeleteUser u address_opt => Ok (delete_user u address_opt s)
  | Packet a r has_connection =>
      match maintain a r has_connection s with Ok (_, s) => Ok s | Err => Ok s | Panic => Panic | Diverge => Diverge end
  end.

(** The token that a challenge carries, and whether a packet carries a timestamp signed here. *)
Definition shows_token (r : BitReader) (token : IdentityToken) : Prop :=
  exists p r1 t, HandshakeHeader_de r = Ok (ClientChallengeRequest p, r1) /\ recv_challenge_request from_utf8_lossy r1 = Ok (t, token).
Definition shows_signature (r : BitReader) : Prop :=
  exists r1 t, HandshakeHeader_de r = Ok (ClientValidateRequest, r1) /\ timestamp_validate verify r1 = Ok (Some t).

(** In the history, oldest first: [u] was authenticated, and afterwards [a] sent its token. *)
Definition identified (history : list hs_input) (a : A) (u : U) : Prop :=
  exists token before between after r has_connection,
    history = before ++ Authenticate token u :: between ++ Packet a r has_connection :: after /\ shows_token r token.
Definition validated (history : list hs_input) (a : A) : Prop :=
  exists r has_connection, Packet a r has_connection ∈ history /\ shows_signature r.

Record let_in_ok (history : list hs_input) (s : Server) : Prop := {
  li_tokens : forall token u, s.(authenticated_unidentified_users) !! token = Some u -> Authenticate token u ∈ history;
  li_identified : forall a u, s.(authenticated_and_identified_users) !! a = Some u -> identified history a u;
  li_handshaked : forall a u, s.(been_handshaked_users) !! a = Some u -> identified history a u /\ validated history a
}.

Lemma identified_more history i a u : identified history a u -> identified (history ++ [i]) a u.
Proof using Type.
  intros (token & before & between & after & r & hc & -> & Hs). exists token, before, between, (after ++ [i]), r, hc. split; [|exact Hs].
  rewrite <- app_assoc. cbn. rewrite <- app_assoc. reflexivity.
Qed.
Lemma validated_more history i a : validated history a -> validated (history ++ [i]) a.
Proof using Type. intros (r & hc & Hin & Hs). exists r, hc. split; [|exact Hs]. apply elem_of_app. now left. Qed.

(** A step that adds nothing to the three tables. *)
Lemma let_in_shrink history i (s s' : Server) : let_in_ok history s ->
  (forall token u, s'.(authenticated_unidentified_users) !! token = Some u -> s.(authenticated_unidentified_users) !! token = Some u) ->
  (forall a u, s'.(authenticated_and_identified_users) !! a = Some u -> s.(authenticated_and_identified_users) !! a = Some u) ->
  (forall a u, s'.(been_handshaked_users) !! a = Some u -> s.(been_handshaked_users) !! a = Some u) -> let_in_ok (history ++ [i]) s'.
Proof using Type.
  intros [H1 H2 H3] S1 S2 S3. split.
  - intros token u H. apply elem_of_app. left. auto.
  - intros a u H. apply identified_more. auto.
  - intros a u H. destruct (H3 a u (S3 a u H)). split; [now apply identified_more|now apply validated_more].
Qed.

Lemma delete_let_in history u address_opt s : let_in_ok history s -> let_in_ok (history ++ [DeleteUser u address_opt]) (delete_user u address_opt s).
Proof using Type.
  intros H. apply (let_in_shrink history _ s _ H); unfold delete_user; destruct (identity_token_map s !! u), address_opt; cbn; intros x y Hx;
    repeat match goal with Hx : delete _ _ !! _ = Some _ |- _ => apply lookup_delete_Some in Hx as [_ Hx] | Hx : filter _ _ !! _ = Some _ |- _ => apply map_lookup_filter_Some in Hx as [Hx _] end; exact Hx.
Qed.

Lemma challenge_response_remembers t (s s' : Server) bs : write_challenge_response sign t s = Ok (bs, s') -> remember_digest sign t s = Ok s'.
Proof using Type.
  unfold write_challenge_response. generalize (packet_start ServerChallengeResponse). intros started H. apply bind_ok_inv in H as (w & _ & H). apply bind_ok_inv in H as (w1 & _ & H).
  apply bind_ok_inv in H as (s1 & Hs & H). apply bind_ok_inv in H as (d & _ & H). apply bind_ok_inv in H as (w2 & _ & H). apply bind_ok_inv in H as (b & _ & H). injection H as _ <-. exact Hs.
Qed.
Lemma challenge_response_digests t (s s' : Server) bs : write_challenge_response sign t s = Ok (bs, s') -> exists c, s' = with_digests c s.
Proof using Type.
  intros H. apply challenge_response_remembers in H. unfold remember_digest in H. destruct (CacheMap.contains_key _ _); [injection H as <-; exists s.(timestamp_digest_map); now destruct s|].
  apply bind_ok_inv in H as (c & _ & H). injection H as <-. now exists c.
Qed.
Lemma challenge_response_tables t (s s' : Server) bs : write_challenge_response sign t s = Ok (bs, s') ->
  s'.(authenticated_unidentified_users) = s.(authenticated_unidentified_users) /\ s'.(authenticated_and_identified_users) = s.(authenticated_and_identified_users) /\
  s'.(been_handshaked_users) = s.(been_handshaked_users).
Proof using Type. intros H. now apply challenge_response_digests in H as [c ->]. Qed.
Lemma challenge_response_protocol t (s s' : Server) bs : write_challenge_response sign t s = Ok (bs, s') -> s'.(protocol_id) = s.(protocol_id).
Proof using Type. intros H. now apply challenge_response_digests in H as [c ->]. Qed.

Lemma validate_tables a r (s s' : Server) b : recv_validate_request verify a r s = Ok (b, s') ->
  (b = true -> exists t, timestamp_validate verify r = Ok (Some t)) /\
  s'.(authenticated_unidentified_users) = s.(authenticated_unidentified_users) /\ s'.(authenticated_and_identified_users) = s.(authenticated_and_identified_users) /\
  s'.(been_handshaked_users) = s.(been_handshaked_users).
Proof using Type.
  unfold recv_validate_request. intros H. apply bind_ok_inv in H as ([t|] & Ht & H).
  - apply bind_ok_inv in H as (c & _ & H). injection H as <- <-. split; [eauto|easy].
  - injection H as <- <-. easy.
Qed.

Lemma challenge_let_in history a r r1 p hc (s s' : Server) action : let_in_ok history s -> HandshakeHeader_de r = Ok (ClientChallengeRequest p, r1) ->
  handle_challenge sign from_utf8_lossy a r1 s = Ok (action, s') -> let_in_ok (history ++ [Packet a r hc]) s'.
Proof using Type.
  intros Hok Hh H. unfold handle_challenge in H. apply bind_ok_inv in H as (o & Ho & H). destruct o as [[t token]|]; [|injection H as _ <-; now apply (let_in_shrink history _ s)].
  destruct (authenticated_unidentified_users s !! token) as [u|] eqn:Hu; [|injection H as _ <-; now apply (let_in_shrink history _ s)].
  apply bind_ok_inv in H as (tk & _ & H). apply bind_ok_inv in H as ([bs s1] & Hw & H). injection H as _ <-. apply challenge_response_tables in Hw as (W1 & W2 & W3).
  assert (recv_challenge_request from_utf8_lossy r1 = Ok (t, token)) as Hr by (unfold attempt in Ho; destruct (recv_challenge_request from_utf8_lossy r1); congruence).
  assert (identified (history ++ [Packet a r hc]) a u) as Hid.
  { pose proof (li_tokens _ _ Hok token u Hu) as Hin. apply list_elem_of_split in Hin as (before & between & ->).
    exists token, before, between, [], r, hc. split; [now rewrite <- app_assoc|]. exists p, r1, t. now split. }
  destruct (let_in_shrink history (Packet a r hc) s s Hok) as [H1 H2 H3]; [easy..|]. split.
  - rewrite W1. cbn. intros token' u' [_ Hx]%lookup_delete_Some. auto.
  - rewrite W2. cbn. intros a' u' [[<- <-]|[_ Hx]]%lookup_insert_Some; auto.
  - rewrite W3. cbn. auto.
Qed.

Lemma validate_let_in history a r r1 hc (s s' : Server) action : let_in_ok history s -> HandshakeHeader_de r = Ok (ClientValidateRequest, r1) ->
  handle_validate verify a r1 s = Ok (action, s') -> let_in_ok (history ++ [Packet a r hc]) s'.
Proof using Type.
  intros Hok Hh. unfold handle_validate, user_finish_handshake. generalize write_validate_response. intros written H. apply bind_ok_inv in H as ([b s1] & Hv & H). apply validate_tables in Hv as (Hsig & V1 & V2 & V3).
  assert (let_in_ok (history ++ [Packet a r hc]) s1) as Hs1 by (apply (let_in_shrink history _ s); [exact Hok|rewrite ?V1, ?V2, ?V3; auto..]).
  destruct b; [|now injection H as _ <-]. destruct (been_handshaked_users s1 !! a); [apply answered in H as [-> _]; exact Hs1|].
  destruct (authenticated_and_identified_users s1 !! a) as [u|] eqn:Hu; [|now injection H as _ <-].
  apply bind_ok_inv in H as ([bs s2] & H2 & H). injection H as _ <-. apply answered in H2 as [-> _].
  destruct Hs1 as [H1 H2 H3]. split; cbn; auto. intros a' u' [[<- <-]|[_ Hx]]%lookup_insert_Some; auto. split; [auto|].
  destruct (Hsig eq_refl) as [t Ht]. exists r, hc. split; [apply elem_of_app; right; now apply list_elem_of_singleton|]. exists r1, t. now split.
Qed.

Lemma packet_let_in history a r hc (s s' : Server) action : let_in_ok history s -> maintain a r hc s = Ok (action, s') -> let_in_ok (history ++ [Packet a r hc]) s'.
Proof using Type.
  intros Hok. unfold maintain_handshake. generalize (write_reject_response ProtocolMismatch), write_connect_response. intros rejected connected H.
  apply bind_ok_inv in H as ([header r1] & Hh & H).
  assert (s' = s -> let_in_ok (history ++ [Packet a r hc]) s') as Hsame by (intros ->; now apply (let_in_shrink history _ s)).
  destruct header.
  - destruct (negb _); [apply answered in H as [-> _]; auto|]. exact (challenge_let_in history a r r1 _ hc s s' action Hok Hh H).
  - injection H as _ <-. auto.
  - exact (validate_let_in history a r r1 hc s s' action Hok Hh H).
  - injection H as _ <-. auto.
  - apply bind_ok_inv in H as (pk & _ & H). destruct hc; [injection H as _ <-; auto|]. apply answered in H as [-> _]. auto.
  - injection H as _ <-. auto.
  - injection H as _ <-. auto.
  - apply bind_ok_inv in H as (b & _ & H). injection H as _ <-. auto.
Qed.

Lemma history_let_in p history s : foldM run_hs history (ServerHandshake_new p) = Ok s -> let_in_ok history s.
Proof using Type.
  revert s. induction history as [|i history IH] using rev_ind; intros s H.
  - injection H as <-. split; cbn; intros ? ?; now rewrite lookup_empty.
  - rewrite foldM_app in H. apply bind_ok_inv in H as (s1 & H1 & H). specialize (IH s1 H1). cbn [foldM] in H. apply bind_ok_inv in H as (s2 & H2 & H). injection H as <-.
    destruct i as [token u|u address_opt|a r hc]; cbn [run_hs] in H2.
    + injection H2 as <-. destruct (let_in_shrink history (Authenticate token u) s1 s1 IH) as [G1 G2 G3]; [easy..|]. split; cbn; auto.
      intros token' u' [[<- <-]|[_ Hx]]%lookup_insert_Some; auto. apply elem_of_app. right. now apply list_elem_of_singleton.
    + injection H2 as <-. now apply delete_let_in.
    + destruct (maintain a r hc s1) as [[action s']| | |] eqn:Hm; try discriminate; injection H2 as <-; [eapply packet_let_in; eauto|now apply (let_in_shrink history _ s1)].
Qed.

(** C22: Nobody gets in without a token and a signature.  Whatever packets have arrived from
    whatever addresses, hostile ones included, when the server finalizes the connection of a user
    at an address, the application had authenticated that user, afterwards that address sent the
    user's token, and that address has sent a timestamp with a digest that the server's key
    verifies. *)
Theorem handshake_authenticates p history (s s' : Server) a r has_connection u packet :
  foldM run_hs history (ServerHandshake_new p) = Ok s -> maintain a r has_connection s = Ok (FinalizeConnection u packet, s') ->
  identified history a u /\ validated history a.
Proof using Type.
  intros Hh. apply history_let_in in Hh. unfold maintain_handshake, handle_validate, user_finish_handshake.
  generalize (write_reject_response ProtocolMismatch), write_validate_response, write_connect_response. intros rejected validated_ connected H. apply bind_ok_inv in H as ([header r1] & _ & H). destruct header; try discriminate.
  - destruct (negb _); [now apply answered in H as [_ [pk H]]|]. unfold handle_challenge in H. apply bind_ok_inv in H as ([[t token]|] & _ & H); [|discriminate].
    destruct (_ !! token); [|discriminate]. apply bind_ok_inv in H as (tk & _ & H). apply bind_ok_inv in H as ([bs s1] & _ & H). discriminate.
  - apply bind_ok_inv in H as ([b s1] & _ & H). destruct b; [|discriminate].
    destruct (been_handshaked_users s1 !! a); [now apply answered in H as [_ [pk H]]|]. destruct (_ !! a); [|discriminate]. apply bind_ok_inv in H as ([bs s2] & _ & H). discriminate.
  - apply bind_ok_inv in H as (pk & _ & H). destruct has_connection; [discriminate|]. apply bind_ok_inv in H as (u' & Hu & H). injection H as <- _ _.
    apply (li_handshaked _ _ Hh). now destruct (been_handshaked_users s !! a); [injection Hu as ->|].
  - apply bind_ok_inv in H as (b & _ & H). injection H as H _. repeat case_match; discriminate.
Qed.

(** ** Where it fails *)
Lemma connect_response_written : exists bs, write_connect_response = Ok bs.
Proof using Type. eexists. vm_compute. reflexivity. Qed.

(** C39: One packet stops the server.  An address that has never shown a signed timestamp, that of
    any sender on the network, makes the server panic with a [ClientConnectRequest], whatever has
    happened before. *)
Theorem stray_connect_request_panics p history (s : Server) a r r1 : foldM run_hs history (ServerHandshake_new p) = Ok s -> (validated history a -> False) ->
  HandshakeHeader_de r = Ok (ClientConnectRequest, r1) -> maintain a r false s = Panic.
Proof using Type.
  intros Hh Hn Hr. apply history_let_in in Hh. unfold maintain_handshake. rewrite Hr, bind_ok. destruct connect_response_written as [bs ->]. rewrite bind_ok.
  destruct (been_handshaked_users s !! a) as [u|] eqn:Hu; [|reflexivity]. destruct (li_handshaked _ _ Hh a u Hu). contradiction.
Qed.

Lemma challenge_needs_token a r t token (s : Server) : recv_challenge_request from_utf8_lossy r = Ok (t, token) ->
  s.(authenticated_unidentified_users) !! token = None -> handle_challenge sign from_utf8_lossy a r s = Ok (NoAction, s).
Proof using Type. intros Hr Hn. unfold handle_challenge. rewrite Hr. cbn [attempt]. now rewrite bind_ok, Hn. Qed.

Lemma answered_token_gone a r t token (s s' : Server) packet : recv_challenge_request from_utf8_lossy r = Ok (t, token) ->
  handle_challenge sign from_utf8_lossy a r s = Ok (SendPacket packet, s') -> s'.(authenticated_unidentified_users) !! token = None.
Proof using Type.
  intros Hr H. unfold handle_challenge in H. rewrite Hr in H. cbn [attempt] in H. rewrite bind_ok in H. destruct (_ !! token); [|discriminate].
  apply bind_ok_inv in H as (x & _ & H). apply bind_ok_inv in H as ([bs s1] & Hw & H). injection H as _ <-. apply challenge_response_tables in Hw as (-> & _ & _). cbn. apply lookup_delete_eq.
Qed.

Lemma challenge_keeps_gone token a r (s s' : Server) action : handle_challenge sign from_utf8_lossy a r s = Ok (action, s') ->
  s.(authenticated_unidentified_users) !! token = None -> s'.(authenticated_unidentified_users) !! token = None /\ s'.(protocol_id) = s.(protocol_id).
Proof using Type.
  unfold handle_challenge. intros H Hn. apply bind_ok_inv in H as ([[t tk]|] & _ & H); [|now injection H as _ <-]. destruct (_ !! tk); [|now injection H as _ <-].
  apply bind_ok_inv in H as (x & _ & H). apply bind_ok_inv in H as ([bs s1] & Hw & H). injection H as _ <-. pose proof Hw as Hp. apply challenge_response_tables in Hw as (-> & _ & _). cbn. split.
  - destruct (decide (tk = token)) as [->|]; [apply lookup_delete_eq|now rewrite lookup_delete_ne].
  - now apply challenge_response_protocol in Hp.
Qed.

Lemma packet_keeps_gone token a r hc (s s' : Server) action : maintain a r hc s = Ok (action, s') ->
  s.(authenticated_unidentified_users) !! token = None -> s'.(authenticated_unidentified_users) !! token = None /\ s'.(protocol_id) = s.(protocol_id).
Proof using Type.
  unfold maintain_handshake, handle_validate, user_finish_handshake.
  generalize (write_reject_response ProtocolMismatch), write_validate_response, write_connect_response. intros rejected validated_ connected H Hn.
  apply bind_ok_inv in H as ([header r1] & _ & H). destruct header; try (injection H as _ <-; easy).
  - destruct (negb _); [apply answered in H as [-> _]; easy|]. now apply (challenge_keeps_gone token a r1 s s' action).
  - apply bind_ok_inv in H as ([b s1] & Hv & H). assert (s1.(authenticated_unidentified_users) !! token = None /\ s1.(protocol_id) = s.(protocol_id)) as Hs1.
    { unfold recv_validate_request in Hv. apply bind_ok_inv in Hv as ([t|] & _ & Hv); [apply bind_ok_inv in Hv as (c & _ & Hv)|]; injection Hv as _ <-; now cbn. }
    destruct b; [|now injection H as _ <-]. destruct (been_handshaked_users s1 !! a); [now apply answered in H as [-> _]|]. destruct (_ !! a); [|now injection H as _ <-].
    apply bind_ok_inv in H as ([bs s2] & H2 & H). injection H as _ <-. now apply answered in H2 as [-> _].
  - apply bind_ok_inv in H as (pk & _ & H). destruct hc; [now injection H as _ <-|]. now apply answered in H as [-> _].
  - apply bind_ok_inv in H as (b & _ & H). now injection H as _ <-.
Qed.

Lemma history_keeps_gone token history (s s' : Server) : (forall u, Authenticate token u ∉ history) -> foldM run_hs history s = Ok s' ->
  s.(authenticated_unidentified_users) !! token = None -> s'.(authenticated_unidentified_users) !! token = None /\ s'.(protocol_id) = s.(protocol_id).
Proof using Type.
  revert s. induction history as [|i history IH]; intros s Hna H Hn; [now injection H as <-|]. cbn [foldM] in H. apply bind_ok_inv in H as (s1 & H1 & H).
  assert (s1.(authenticated_unidentified_users) !! token = None /\ s1.(protocol_id) = s.(protocol_id)) as [Hn1 Hp1].
  { destruct i as [tk u|u address_opt|a r hc]; cbn [run_hs] in H1.
    - injection H1 as <-. cbn. split; [|reflexivity]. rewrite lookup_insert_ne; [exact Hn|]. intros ->. apply (Hna u). apply elem_of_cons. now left.
    - injection H1 as <-. unfold delete_user. destruct (identity_token_map s !! u) as [tk|], address_opt; cbn; split; try reflexivity; try exact Hn;
        (destruct (decide (tk = token)) as [->|]; [apply lookup_delete_eq|now rewrite lookup_delete_ne]).
    - destruct (maintain a r hc s) as [[action s2]| | |] eqn:Hm; try discriminate; injection H1 as <-; [|now split]. now apply (packet_keeps_gone token a r hc s s2 action). }
  destruct (IH s1 ltac:(intros u Hin; apply (Hna u); apply elem_of_cons; now right) H Hn1) as [Hn2 Hp2]. split; [exact Hn2|]. congruence.
Qed.

(** An answer that is lost is never repeated.  Once the server has answered a challenge, it
    answers no other challenge with the same token, from any address and at any later time, unless
    the application authenticates the token again; a client whose answer was lost repeats its
    challenge for ever. *)
Theorem lost_challenge_response_stalls token a r p r1 t hc (s s1 s2 : Server) packet history a' r' r1' t' hc' :
  HandshakeHeader_de r = Ok (ClientChallengeRequest p, r1) -> p = s.(protocol_id) -> recv_challenge_request from_utf8_lossy r1 = Ok (t, token) ->
  maintain a r hc s = Ok (SendPacket packet, s1) -> (forall u, Authenticate token u ∉ history) -> foldM run_hs history s1 = Ok s2 ->
  HandshakeHeader_de r' = Ok (ClientChallengeRequest p, r1') -> recv_challenge_request from_utf8_lossy r1' = Ok (t', token) ->
  maintain a' r' hc' s2 = Ok (NoAction, s2).
Proof using Type.
  intros Hh Hp Hr H Hna Hf Hh' Hr'. unfold maintain_handshake in H. rewrite Hh, bind_ok, Hp, Z.eqb_refl in H. cbn [negb] in H.
  pose proof (answered_token_gone a r1 t token s s1 packet Hr H) as Hn1.
  assert (s1.(protocol_id) = s.(protocol_id)) as Hp1.
  { unfold handle_challenge in H. rewrite Hr in H. cbn [attempt] in H. rewrite bind_ok in H. destruct (_ !! token) eqn:Ht; [|discriminate].
    apply bind_ok_inv in H as (x & _ & H). apply bind_ok_inv in H as ([bs s3] & Hw & H). injection H as _ <-. now apply challenge_response_protocol in Hw. }
  destruct (history_keeps_gone token history s1 s2 Hna Hf Hn1) as [Hn2 Hp2]. unfold maintain_handshake. rewrite Hh', bind_ok, Hp2, Hp1, Hp, Z.eqb_refl. cbn [negb].
  exact (challenge_needs_token a' r1' t' token s2 Hr' Hn2).
Qed.
End Server.
