(* ===== verification/HandshakeRun.v ===== *)
(** The handshake from both ends: its packets survive the wire, and a client that the application
    has authenticated gets in over a network that delivers. *)

From Stdlib Require Import ZArith Lia.
From stdpp Require Import base numbers option list gmap.
From S2P Require Import Prelude BitIO Number Serde Wire Handshake HandshakeFacts.

(** * The header on the wire *)
Definition handshake_header_serde : Serde HandshakeHeader := mkSerde (fun W _ => HandshakeHeader_ser) HandshakeHeader_de (fun _ => Ok 0).

Definition header_payload (h : HandshakeHeader) : list bool :=
  match h with ClientChallengeRequest p => enc u64_serde p | ServerRejectResponse r => to_bits 1 (reason_index r) | _ => [] end.

Definition header_valid (h : HandshakeHeader) : Prop := match h with ClientChallengeRequest p => in_u 64 p | _ => True end.

#[export] Program Instance handshake_header_lawful : Lawful handshake_header_serde :=
  {| valid := header_valid;
     enc h := to_bits 3 (header_index h) ++ header_payload h |}.
Next Obligation.
  intros W HW HL h w Hh Hw. cbn [ser handshake_header_serde]. unfold HandshakeHeader_ser. rewrite write_bits_app.
  rewrite (ser_enc (Lawful := variant_lawful 8 ltac:(lia)) W (header_index h) w) by (assumption || (destruct h; cbn; lia)).
  change (enc (variant_serde 8) (header_index h)) with (to_bits 3 (header_index h)).
  destruct (write_bits (to_bits 3 (header_index h)) w) as [w1| | |] eqn:E; try reflexivity. rewrite !bind_ok.
  assert (wok w1) as Hw1 by (eapply write_bits_wok; eauto). destruct h; try reflexivity; cbn [header_payload].
  - now apply (ser_enc (Lawful := uint_lawful 8) W).
  - apply (ser_enc (Lawful := variant_lawful 2 ltac:(lia)) W); [destruct reason; cbn; lia|exact Hw1].
Qed.
Next Obligation.
  intros h rest r Hh Hr E. cbv beta in E. rewrite <- app_assoc in E.
  destruct (de_enc (Lawful := variant_lawful 8 ltac:(lia)) (header_index h) _ r ltac:(destruct h; cbn; lia) Hr E) as (r1 & R1 & O1 & B1).
  cbn [de handshake_header_serde]. unfold HandshakeHeader_de. rewrite R1, bind_ok.
  assert (header_payload h = [] -> exists r', Ok (h, r1) = Ok (h, r') /\ reader_ok r' /\ br_bits r' = rest) as Hplain.
  { intros Hp. rewrite Hp in B1. exists r1. split; [reflexivity|]. split; [exact O1|exact B1]. }
  destruct h as [p| | | | | |reason|]; try exact (Hplain eq_refl); clear Hplain; cbn [header_index].
  - destruct (de_enc (Lawful := uint_lawful 8) p _ r1 Hh O1 B1) as (r2 & R2 & O2 & B2). exists r2. unfold u64_serde.
    split; [|split; [exact O2|exact B2]]. rewrite R2. reflexivity.
  - destruct (de_enc (Lawful := variant_lawful 2 ltac:(lia)) (reason_index reason) _ r1 ltac:(destruct reason; cbn; lia) O1 B1) as (r2 & R2 & O2 & B2).
    exists r2. split; [|split; [exact O2|exact B2]]. rewrite R2, bind_ok. now destruct reason.
Qed.

(** * A packet *)
Definition start : StandardHeader := mkStandardHeader Handshake 0 0 0.
Definition packet_bits {X} (s : Serde X) `{!Lawful s} (h : HandshakeHeader) (x : X) : list bool :=
  enc standard_header_serde start ++ enc handshake_header_serde h ++ enc s x.

Lemma packet_roundtrip_ {X} (s : Serde X) `{!Lawful s} h x : valid handshake_header_serde h -> valid s x ->
  Z.of_nat (length (packet_bits s h x)) <= MTU_SIZE_BITS ->
  exists w1 w2 bs r1 r2 r3, packet_start h = Ok w1 /\ ser s x w1 = Ok w2 /\ BitWriter_to_bytes w2 = Ok bs /\
    de standard_header_serde (BitReader_new bs) = Ok (start, r1) /\ HandshakeHeader_de r1 = Ok (h, r2) /\ de s r2 = Ok (x, r3).
Proof.
  intros Hh Hx Hl. destruct (write_packet _ Hl) as (w2 & bs & pad & E & T1 & Hb & Eb & _). unfold packet_bits in E, Eb. rewrite write_bits_app in E.
  assert (valid standard_header_serde start) as Hs by (cbn; unfold in_u; lia).
  apply bind_ok_inv in E as (w0 & E0 & E). rewrite write_bits_app in E. apply bind_ok_inv in E as (w1 & E1 & E).
  assert (wok (W := BitWriter) w0) as O0 by (eapply write_bits_wok; [exact (writer_new_ok MTU_SIZE_BITS)|exact E0]). assert (wok (W := BitWriter) w1) as O1 by (eapply write_bits_wok; eauto).
  rewrite <- !app_assoc in Eb.
  destruct (de_enc start _ _ Hs (reader_new_ok bs Hb) Eb) as (r1 & R1 & Ok1 & B1). destruct (de_enc (Lawful := handshake_header_lawful) h _ r1 Hh Ok1 B1) as (r2 & R2 & Ok2 & B2).
  destruct (de_enc x _ r2 Hx Ok2 B2) as (r3 & R3 & _). exists w1, w2, bs, r1, r2, r3. split.
  - unfold packet_start. fold start. rewrite (ser_enc BitWriter start) by (exact Hs || exact (writer_new_ok _)). rewrite E0, bind_ok.
    rewrite <- E1. now apply (ser_enc (Lawful := handshake_header_lawful) BitWriter).
  - split; [rewrite <- E; now apply (ser_enc BitWriter)|]. auto.
Qed.

(** * Both ends *)
Section Run.
Context {A U T F : Type} {eqA : EqDecision A} {cA : Countable A} {eqU : EqDecision U} {cU : Countable U} {clock : HandshakeClock T F}.
Context (sign : Timestamp -> list Z) (verify : Timestamp -> list Z -> bool) (from_utf8_lossy : list Z -> IdentityToken).
Abbreviation Server := (@ServerHandshake A U eqA cA eqU cU).
Abbreviation Client := (@ClientHandshake T F).
Abbreviation maintain := (maintain_handshake sign verify from_utf8_lossy).

(** The main server reads the standard header before it hands a packet on. *)
Definition deliver (a : A) (bs : list Z) (has_connection : bool) (s : Server) : res (HandshakeAction * Server) :=
  '(_, r) ← de standard_header_serde (BitReader_new bs); maintain a r has_connection s.

Record caches_ok (s : Server) : Prop := {
  cs_addresses : cache_ok MAX_PENDING_CONNECTIONS s.(address_to_timestamp_map);
  cs_digests : cache_ok MAX_TIMESTAMP_DIGESTS s.(timestamp_digest_map);
  cs_signed : forall t d, CacheMap.get t s.(timestamp_digest_map) = Some d -> d = sign t
}.

Lemma get_insert_back {K V} `{Countable K} n (k k' : K) (v x : V) c c' : cache_ok n c -> CacheMap.insert k v c = Ok c' -> CacheMap.get k' c' = Some x ->
  k' = k /\ x = v \/ CacheMap.get k' c = Some x.
Proof using Type.
  intros _ Hi Hg. unfold CacheMap.insert in Hi. apply bind_ok_inv in Hi as (c1 & Hr & Hi). injection Hi as <-. unfold CacheMap.get in *. cbn in Hg.
  apply lookup_insert_Some in Hg as [[<- <-]|[_ Hg]]; [now left|right]. unfold CacheMap.make_room in Hr. case_decide; [|now injection Hr as <-].
  destruct (CacheMap.keys c); [discriminate|]. injection Hr as <-. cbn in Hg. now apply lookup_delete_Some in Hg as [_ Hg].
Qed.

Lemma remember_ok t (s : Server) : caches_ok s -> exists s', remember_digest sign t s = Ok s' /\ caches_ok s' /\ CacheMap.get t s'.(timestamp_digest_map) = Some (sign t) /\
  exists c, s' = with_digests c s.
Proof using Type.
  intros [H1 H2 H3]. unfold remember_digest, CacheMap.contains_key. case_bool_decide as Hd.
  - exists s. split; [reflexivity|]. split; [now split|]. destruct Hd as [d Hd]. split; [unfold CacheMap.get; now rewrite Hd, (H3 t d Hd)|]. exists s.(timestamp_digest_map). now destruct s.
  - destruct (cache_insert_ok MAX_TIMESTAMP_DIGESTS t (sign t) s.(timestamp_digest_map) ltac:(unfold MAX_TIMESTAMP_DIGESTS; lia) H2) as (c & Hc & Hok & Hg). rewrite Hc, bind_ok.
    eexists. split; [reflexivity|]. split; [|split; [exact Hg|now exists c]]. split; [exact H1|exact Hok|]. cbn. intros t' d' Hd'.
    destruct (get_insert_back MAX_TIMESTAMP_DIGESTS t t' (sign t) d' s.(timestamp_digest_map) c H2 Hc Hd') as [[-> ->]|Hx]; auto.
Qed.

(** A new server, whatever users it authenticates. *)
Lemma new_caches p : caches_ok (ServerHandshake_new p).
Proof using Type.
  split; cbn; [split; cbn; [reflexivity|lia|]..|]; intros k; [| |intros d]; unfold CacheMap.get; cbn; rewrite lookup_empty; try discriminate; now intros [].
Qed.

Abbreviation pair_payload := (pair_serde u64_serde bytes_serde).
Abbreviation digest_payload := (pair_serde u64_serde (vec_serde u8_serde 1)).

(** The packets of this handshake fit: the protocol, the timestamp, the token and the digest. *)
Record fits (p now : Z) (token : IdentityToken) : Prop := {
  fit_protocol : in_u 64 p;
  fit_now : in_u 64 now;
  fit_token : valid bytes_serde token;
  fit_lossy : from_utf8_lossy token = token;
  fit_digest : valid (vec_serde u8_serde 1) (sign now);
  fit_challenge : Z.of_nat (length (packet_bits pair_payload (ClientChallengeRequest p) (now, token))) <= MTU_SIZE_BITS;
  fit_response : Z.of_nat (length (packet_bits digest_payload ServerChallengeResponse (now, sign now))) <= MTU_SIZE_BITS;
  fit_validate : Z.of_nat (length (packet_bits digest_payload ClientValidateRequest (now, sign now))) <= MTU_SIZE_BITS
}.

Definition start_client (p now : Z) (token : IdentityToken) : Client := set_identity_token token (ClientHandshake_new p now).

Lemma challenge_sent p now token : fits p now token -> exists bs r1 r2,
  client_send true (start_client p now token) = Ok (Some bs, start_client p now token) /\
  de standard_header_serde (BitReader_new bs) = Ok (start, r1) /\ HandshakeHeader_de r1 = Ok (ClientChallengeRequest p, r2) /\
  recv_challenge_request from_utf8_lossy r2 = Ok (now, token).
Proof using Type.
  intros [F1 F2 F3 F4 _ F6 _ _]. assert (valid pair_payload (now, token)) as Hv by (split; [exact F2|exact F3]).
  destruct (packet_roundtrip_ pair_payload (ClientChallengeRequest p) (now, token) F1 Hv F6) as (w1 & w2 & bs & r1 & r2 & r3 & E1 & E2 & E3 & D1 & D2 & D3).
  exists bs, r1, r2. cbn [ser de pair_serde fst snd] in E2, D3. apply bind_ok_inv in E2 as (w & Ew & E2). apply bind_ok_inv in D3 as ([t r] & Dt & D3).
  apply bind_ok_inv in D3 as ([b r'] & Db & D3). injection D3 as -> -> ->. split; [|split; [exact D1|split; [exact D2|]]].
  - change (client_send true (start_client p now token)) with
      (bs ← (w ← packet_start (ClientChallengeRequest p); w ← ser u64_serde now w; w ← ser bytes_serde token w; BitWriter_to_bytes w); Ok (Some bs, start_client p now token)).
    rewrite E1, bind_ok, Ew, bind_ok, E2, bind_ok, E3. reflexivity.
  - unfold recv_challenge_request. rewrite Dt, bind_ok, Db, bind_ok, F4. reflexivity.
Qed.

Lemma response_written p now token (s : Server) : fits p now token -> caches_ok s -> exists bs r1 r2 r3 r4 s1,
  write_challenge_response sign now s = Ok (bs, s1) /\ caches_ok s1 /\ (exists c, s1 = with_digests c s) /\
  de standard_header_serde (BitReader_new bs) = Ok (start, r1) /\ HandshakeHeader_de r1 = Ok (ServerChallengeResponse, r2) /\
  de u64_serde r2 = Ok (now, r3) /\ de (vec_serde u8_serde 1) r3 = Ok (sign now, r4).
Proof using Type.
  intros [_ F2 _ _ F5 _ F7 _] Hc. assert (valid digest_payload (now, sign now)) as Hv by (split; [exact F2|exact F5]).
  destruct (packet_roundtrip_ digest_payload ServerChallengeResponse (now, sign now) Logic.I Hv F7) as (w1 & w2 & bs & r1 & r2 & r3 & E1 & E2 & E3 & D1 & D2 & D3).
  cbn [ser de pair_serde fst snd] in E2, D3. apply bind_ok_inv in E2 as (w & Ew & E2). apply bind_ok_inv in D3 as ([t r] & Dt & D3). apply bind_ok_inv in D3 as ([b r'] & Db & D3). injection D3 as -> -> ->.
  destruct (remember_ok now s Hc) as (s1 & Hs1 & Hc1 & Hg & Hw). exists bs, r1, r2, r, r3, s1. split; [|split; [exact Hc1|split; [exact Hw|split; [exact D1|split; [exact D2|split; [exact Dt|exact Db]]]]]].
  unfold write_challenge_response. rewrite E1, bind_ok, Ew, bind_ok, Hs1, bind_ok. unfold CacheMap.get_unchecked. unfold CacheMap.get in Hg. rewrite Hg. cbn [unwrap]. rewrite bind_ok, E2, bind_ok, E3. reflexivity.
Qed.

(** The client after the challenge. *)
Definition signed_client (p now : Z) (token : IdentityToken) : Client :=
  with_state AwaitingValidateResponse (with_digest (sign now) (start_client p now token)).

Lemma response_received p now token bs r1 r2 r3 r4 : de standard_header_serde (BitReader_new bs) = Ok (start, r1) ->
  HandshakeHeader_de r1 = Ok (ServerChallengeResponse, r2) -> de u64_serde r2 = Ok (now, r3) -> de (vec_serde u8_serde 1) r3 = Ok (sign now, r4) ->
  client_recv (BitReader_new bs) (start_client p now token) = Ok (None, signed_client p now token).
Proof using Type.
  intros D1 D2 D3 D4. unfold client_recv. rewrite D1. cbn [attempt]. rewrite bind_ok. cbn [packet_type start]. unfold recv_handshake. rewrite D2. cbn [attempt]. rewrite bind_ok.
  unfold recv_challenge_response. cbn [connection_state start_client set_identity_token ClientHandshake_new pre_connection_timestamp]. rewrite D3. cbn [attempt]. rewrite bind_ok, Z.eqb_refl, D4.
  cbn [attempt]. rewrite bind_ok. reflexivity.
Qed.

Lemma validate_sent p now token : fits p now token -> verify now (sign now) = true -> exists bs r1 r2,
  client_send true (signed_client p now token) = Ok (Some bs, signed_client p now token) /\
  de standard_header_serde (BitReader_new bs) = Ok (start, r1) /\ HandshakeHeader_de r1 = Ok (ClientValidateRequest, r2) /\ timestamp_validate verify r2 = Ok (Some now).
Proof using Type.
  intros [_ F2 _ _ F5 _ _ F8] Hv. assert (valid digest_payload (now, sign now)) as Hd by (split; [exact F2|exact F5]).
  destruct (packet_roundtrip_ digest_payload ClientValidateRequest (now, sign now) Logic.I Hd F8) as (w1 & w2 & bs & r1 & r2 & r3 & E1 & E2 & E3 & D1 & D2 & D3).
  cbn [ser de pair_serde fst snd] in E2, D3. apply bind_ok_inv in E2 as (w & Ew & E2). apply bind_ok_inv in D3 as ([t r] & Dt & D3). apply bind_ok_inv in D3 as ([b r'] & Db & D3). injection D3 as -> -> ->.
  exists bs, r1, r2. split; [|split; [exact D1|split; [exact D2|]]].
  - change (client_send true (signed_client p now token)) with
      (bs ← (w ← packet_start ClientValidateRequest; w ← (w ← ser u64_serde now w; ser (vec_serde u8_serde 1) (sign now) w); BitWriter_to_bytes w); Ok (Some bs, signed_client p now token)).
    rewrite E1, bind_ok, Ew, bind_ok, E2, bind_ok, E3. reflexivity.
  - unfold timestamp_validate. rewrite Dt, bind_ok, Db, bind_ok. cbn [attempt]. now rewrite bind_ok, Hv.
Qed.

Lemma plain_packet h : header_payload h = [] -> exists bs r1 r2, (w ← packet_start h; BitWriter_to_bytes w) = Ok bs /\
  de standard_header_serde (BitReader_new bs) = Ok (start, r1) /\ HandshakeHeader_de r1 = Ok (h, r2).
Proof using Type.
  intros Hp. assert (header_valid h) as Hv by now destruct h. assert (Z.of_nat (length (packet_bits unit_serde h tt)) <= MTU_SIZE_BITS) as Hl.
  { unfold packet_bits. cbn [enc handshake_header_lawful]. rewrite Hp, !length_app, length_to_bits. vm_compute. discriminate. }
  assert (valid unit_serde tt) as Hu by exact Logic.I.
  destruct (packet_roundtrip_ unit_serde h tt Hv Hu Hl) as (w1 & w2 & bs & r1 & r2 & r3 & E1 & E2 & E3 & D1 & D2 & _).
  cbn [ser unit_serde] in E2. injection E2 as <-. exists bs, r1, r2.
  split; [|split; [exact D1|exact D2]]. rewrite E1, bind_ok. exact E3.
Qed.

(** The server's two steps before the connection is finalized. *)
Lemma challenge_accepted p now token u tk a r1 r2 bs hc (s : Server) : fits p now token -> caches_ok s -> s.(protocol_id) = p ->
  s.(authenticated_unidentified_users) !! token = Some u -> s.(identity_token_map) !! u = Some tk ->
  de standard_header_serde (BitReader_new bs) = Ok (start, r1) -> HandshakeHeader_de r1 = Ok (ClientChallengeRequest p, r2) ->
  recv_challenge_request from_utf8_lossy r2 = Ok (now, token) ->
  exists bs' s1, deliver a bs hc s = Ok (SendPacket bs', s1) /\ client_recv (BitReader_new bs') (start_client p now token) = Ok (None, signed_client p now token) /\
    caches_ok s1 /\ s1.(authenticated_and_identified_users) !! a = Some u /\ s1.(been_handshaked_users) = s.(been_handshaked_users).
Proof using Type.
  intros Hf Hc Hp Hu Htk D1 D2 D3.
  set (s0 := with_identified (<[a := u]> s.(authenticated_and_identified_users)) (with_tokens (delete token s.(authenticated_unidentified_users)) (delete u s.(identity_token_map)) s)).
  assert (caches_ok s0) as Hc0 by (destruct Hc; now split).
  destruct (response_written p now token s0 Hf Hc0) as (bs' & q1 & q2 & q3 & q4 & s1 & Hw & Hc1 & [c ->] & E1 & E2 & E3 & E4). exists bs', (with_digests c s0). split; [|split; [|split; [exact Hc1|]]].
  - unfold deliver. rewrite D1, bind_ok. unfold maintain_handshake. rewrite D2, bind_ok, Hp, Z.eqb_refl. cbn [negb]. unfold handle_challenge. rewrite D3. cbn [attempt]. rewrite bind_ok, Hu, Htk.
    cbn [unwrap]. rewrite bind_ok. cbn zeta.
    match goal with |- context [write_challenge_response sign now ?x] => change x with s0 end. rewrite Hw, bind_ok. reflexivity.
  - eapply response_received; eassumption.
  - cbn. split; [apply lookup_insert_eq|reflexivity].
Qed.

Lemma validate_accepted now a u r1 r2 bs hc (s : Server) : caches_ok s -> s.(authenticated_and_identified_users) !! a = Some u -> s.(been_handshaked_users) !! a = None ->
  de standard_header_serde (BitReader_new bs) = Ok (start, r1) -> HandshakeHeader_de r1 = Ok (ClientValidateRequest, r2) -> timestamp_validate verify r2 = Ok (Some now) ->
  exists bs' q1 q2 s1, deliver a bs hc s = Ok (SendPacket bs', s1) /\ s1.(been_handshaked_users) !! a = Some u /\
    de standard_header_serde (BitReader_new bs') = Ok (start, q1) /\ HandshakeHeader_de q1 = Ok (ServerValidateResponse, q2).
Proof using Type.
  intros Hc Hid Hb D1 D2 D3. destruct (plain_packet ServerValidateResponse eq_refl) as (bs' & q1 & q2 & Hw & E1 & E2).
  destruct (cache_insert_ok MAX_PENDING_CONNECTIONS a now s.(address_to_timestamp_map) ltac:(unfold MAX_PENDING_CONNECTIONS; lia) (cs_addresses s Hc)) as (c & Hins & _ & _).
  exists bs', q1, q2, (with_handshaked (<[a := u]> s.(been_handshaked_users)) (with_timestamps c s)). split; [|split; [cbn; apply lookup_insert_eq|now split]].
  assert (write_validate_response = Ok bs') as Hv by exact Hw.
  unfold deliver. rewrite D1, bind_ok. unfold maintain_handshake. rewrite D2, bind_ok. unfold handle_validate, recv_validate_request. rewrite D3, bind_ok, Hins, !bind_ok.
  cbn [been_handshaked_users authenticated_and_identified_users with_timestamps]. rewrite Hb, Hid. unfold user_finish_handshake. rewrite Hv, !bind_ok. reflexivity.
Qed.

(** ** Every history keeps the caches *)
Abbreviation hs_step := (run_hs sign verify from_utf8_lossy).

(** The caches and the protocol are all that the completion depends on. *)
Definition same_base (s s' : Server) : Prop :=
  s'.(protocol_id) = s.(protocol_id) /\ s'.(timestamp_digest_map) = s.(timestamp_digest_map) /\ s'.(address_to_timestamp_map) = s.(address_to_timestamp_map).
Lemma same_base_caches (s s' : Server) : same_base s s' -> caches_ok s -> caches_ok s' /\ s'.(protocol_id) = s.(protocol_id).
Proof using Type. intros (Hp & Hd & Ha) [H1 H2 H3]. split; [split; rewrite ?Hd, ?Ha; auto|exact Hp]. Qed.

Lemma challenge_caches a r (s s' : Server) action : handle_challenge sign from_utf8_lossy a r s = Ok (action, s') -> caches_ok s -> caches_ok s' /\ s'.(protocol_id) = s.(protocol_id).
Proof using Type.
  unfold handle_challenge. intros H Hc. apply bind_ok_inv in H as ([[t token]|] & _ & H); [|injection H as _ <-; now split]. destruct (_ !! token) as [u|]; [|injection H as _ <-; now split].
  apply bind_ok_inv in H as (x & _ & H). cbn zeta in H. apply bind_ok_inv in H as ([bs s1] & Hw & H). injection H as _ <-. apply challenge_response_remembers in Hw as Hs.
  match type of Hs with remember_digest _ _ ?x = _ => destruct (remember_ok t x) as (s3 & Hs3 & Hc3 & _ & [c ->]); [destruct Hc; now split|] end. rewrite Hs in Hs3. injection Hs3 as ->. now split.
Qed.

Lemma validate_caches a r (s s' : Server) action : handle_validate verify a r s = Ok (action, s') -> caches_ok s -> caches_ok s' /\ s'.(protocol_id) = s.(protocol_id).
Proof using Type.
  unfold handle_validate, user_finish_handshake. generalize write_validate_response. intros written H Hc. apply bind_ok_inv in H as ([b s1] & Hv & H).
  assert (caches_ok s1 /\ s1.(protocol_id) = s.(protocol_id)) as Hs1.
  { unfold recv_validate_request in Hv. apply bind_ok_inv in Hv as ([t|] & _ & Hv); [|injection Hv as _ <-; now split].
    destruct (cache_insert_ok MAX_PENDING_CONNECTIONS a t s.(address_to_timestamp_map) ltac:(unfold MAX_PENDING_CONNECTIONS; lia) (cs_addresses s Hc)) as (c & Hins & Hok & _).
    rewrite Hins, bind_ok in Hv. injection Hv as _ <-. destruct Hc. now split. }
  destruct b; [|now injection H as _ <-]. destruct (been_handshaked_users s1 !! a); [now apply answered in H as [-> _]|]. destruct (_ !! a); [|now injection H as _ <-].
  apply bind_ok_inv in H as ([bs s2] & H2 & H). injection H as _ <-. apply answered in H2 as [-> _]. destruct Hs1 as [Hc1 Hp1]. split; [destruct Hc1; now split|exact Hp1].
Qed.

Lemma packet_caches a r hc (s s' : Server) action : maintain a r hc s = Ok (action, s') -> caches_ok s -> caches_ok s' /\ s'.(protocol_id) = s.(protocol_id).
Proof using Type.
  unfold maintain_handshake. generalize (write_reject_response ProtocolMismatch), write_connect_response. intros rejected connected H Hc. apply bind_ok_inv in H as ([header r1] & _ & H).
  destruct header; try (injection H as _ <-; now split).
  - destruct (negb _); [apply answered in H as [-> _]; now split|]. now apply (challenge_caches a r1 s s' action).
  - now apply (validate_caches a r1 s s' action).
  - apply bind_ok_inv in H as (pk & _ & H). destruct hc; [injection H as _ <-; now split|]. apply answered in H as [-> _]. now split.
  - apply bind_ok_inv in H as (b & _ & H). injection H as _ <-. now split.
Qed.

Lemma history_caches p history s : foldM hs_step history (ServerHandshake_new p) = Ok s -> caches_ok s /\ s.(protocol_id) = p.
Proof using Type.
  intros H. eapply (foldM_inv (fun s : Server => caches_ok s /\ s.(protocol_id) = p)) in H; [exact H| |split; [apply new_caches|reflexivity]].
  intros i s0 s1 [Hc Hp] Hs. destruct i as [token u|u address_opt|a r hc]; cbn [run_hs] in Hs.
  - injection Hs as <-. split; [destruct Hc; now split|exact Hp].
  - injection Hs as <-. destruct Hc as [H1 H2 H3]. unfold delete_user. destruct (identity_token_map s0 !! u), address_opt; (split; [split|]); cbn; auto using cache_remove_ok.
  - destruct (maintain a r hc s0) as [[action s2]| | |] eqn:Hm; try discriminate; injection Hs as <-; [|now split]. apply packet_caches in Hm as [Hc2 Hp2]; [|exact Hc]. split; [exact Hc2|congruence].
Qed.

(** C24: An authenticated client gets in.  Whatever the server has been through, a client whose
    token the application has authenticated, at an address that has not gone through a handshake
    before ([been_handshaked_users] has no entry for it, else the connect request finalizes the
    older user of the address), completes the handshake when its packets and the
    answers arrive: the challenge is answered with a signed timestamp, the validation is accepted,
    and once the client's clock is synchronised (the exchange of pings is not part of the run; its
    result [f] is arbitrary) its connect request finalizes
    the connection of exactly that user, and the answer makes the client connected. *)
Theorem handshake_completes p now token u history (s : Server) a :
  (forall t, verify t (sign t) = true) -> fits p now token ->
  foldM hs_step history (ServerHandshake_new p) = Ok s -> s.(authenticated_unidentified_users) !! token = Some u -> is_Some (s.(identity_token_map) !! u) ->
  s.(been_handshaked_users) !! a = None ->
  exists p1 p2 p3 p4 p5 p6 c1 c2 s1 s2, let c0 := start_client p now token in
    client_send true c0 = Ok (Some p1, c0) /\ deliver a p1 false s = Ok (SendPacket p2, s1) /\ client_recv (BitReader_new p2) c0 = Ok (None, c1) /\
    client_send true c1 = Ok (Some p3, c1) /\ deliver a p3 false s1 = Ok (SendPacket p4, s2) /\ client_recv (BitReader_new p4) c1 = Ok (None, c2) /\
    c2.(connection_state) = TimeSync clock_new /\
    forall f, let c3 := with_state (AwaitingConnectResponse f) c2 in
      client_send true c3 = Ok (Some p5, c3) /\ deliver a p5 false s2 = Ok (FinalizeConnection u p6, s2) /\
      client_recv (BitReader_new p6) c3 = Ok (Some (ConnectedResult f), with_state Connected c3).
Proof using Type.
  intros Hv Hf Hh Hu [tk Htk] Hb. destruct (history_caches p history s Hh) as [Hc Hp].
  destruct (challenge_sent p now token Hf) as (p1 & x1 & x2 & S1 & D1 & D2 & D3).
  destruct (challenge_accepted p now token u tk a x1 x2 p1 false s Hf Hc Hp Hu Htk D1 D2 D3) as (p2 & s1 & S2 & R2 & Hc1 & Hid & Hb1).
  destruct (validate_sent p now token Hf (Hv now)) as (p3 & y1 & y2 & S3 & E1 & E2 & E3). rewrite <- Hb1 in Hb.
  destruct (validate_accepted now a u y1 y2 p3 false s1 Hc1 Hid Hb E1 E2 E3) as (p4 & q1 & q2 & s2 & S4 & Hb2 & G1 & G2).
  destruct (plain_packet ClientConnectRequest eq_refl) as (p5 & z1 & z2 & W5 & K1 & K2). destruct (plain_packet ServerConnectResponse eq_refl) as (p6 & v1 & v2 & W6 & L1 & L2).
  assert (write_connect_request = Ok p5) as V5 by exact W5. assert (write_connect_response = Ok p6) as V6 by exact W6.
  exists p1, p2, p3, p4, p5, p6, (signed_client p now token), (recv_validate_response (signed_client p now token)), s1, s2. cbn zeta.
  split; [exact S1|]. split; [exact S2|]. split; [exact R2|]. split; [exact S3|]. split; [exact S4|]. split; [|split; [reflexivity|]].
  - unfold client_recv. rewrite G1. cbn [attempt]. rewrite bind_ok. cbn [packet_type start]. unfold recv_handshake. rewrite G2. cbn [attempt]. rewrite bind_ok. reflexivity.
  - intros f. split; [|split].
    + unfold client_send. cbn [negb connection_state with_state]. rewrite V5, bind_ok. reflexivity.
    + unfold deliver. rewrite K1, bind_ok. unfold maintain_handshake. rewrite K2, bind_ok, V6, bind_ok, Hb2. reflexivity.
    + unfold client_recv. rewrite L1. cbn [attempt]. rewrite bind_ok. cbn [packet_type start]. unfold recv_handshake. rewrite L2. cbn [attempt]. rewrite bind_ok. reflexivity.
Qed.

(** A connect response that comes early, or a second time, strands the client: whatever it was
    doing, it takes itself for connected, reports nothing and sends nothing any more. *)
Theorem early_connect_response_strands (c : Client) bs r1 r2 : de standard_header_serde (BitReader_new bs) = Ok (start, r1) ->
  HandshakeHeader_de r1 = Ok (ServerConnectResponse, r2) -> (forall f, c.(connection_state) <> AwaitingConnectResponse f) ->
  exists c', client_recv (BitReader_new bs) c = Ok (None, c') /\ client_send true c' = Ok (None, c').
Proof using Type.
  intros D1 D2 Hn. exists (with_state Connected c). split; [|reflexivity]. unfold client_recv. rewrite D1. cbn [attempt]. rewrite bind_ok. cbn [packet_type start].
  unfold recv_handshake. rewrite D2. cbn [attempt]. rewrite bind_ok. unfold recv_connect_response. destruct (connection_state c) eqn:Hs; try reflexivity. now destruct (Hn time_manager).
Qed.
End Run.

(** * A server and two clients *)
Module HandshakeSample.
Definition sign (t : Timestamp) : list Z := [Z.modulo t 256; 7].
Definition verify (t : Timestamp) (d : list Z) : bool := bool_decide (d = sign t).
Definition lossy (bs : list Z) : IdentityToken := bs.
#[local] Instance clock : HandshakeClock Z Z :=
  {| clock_new := 0; clock_write_ping t := Ok ([], t + 1); clock_read_pong _ t := Ok (Some (5 <=? t), t); clock_finalize t := t |}.

Definition S : Type := @ServerHandshake Z Z _ _ _ _.
Definition Input : Type := @hs_input Z Z.
Definition token : IdentityToken := [110; 97; 105; 97].
Definition client : @ClientHandshake Z Z := start_client 42 300 token.
Definition signed : @ClientHandshake Z Z := signed_client sign 42 300 token.

(** The reader behind the standard header, and the packets of a client. *)
Definition body (x : res (list Z)) : BitReader :=
  match (bs ← x; '(_, r) ← de standard_header_serde (BitReader_new bs); Ok r) with Ok r => r | _ => BitReader_new [] end.
Definition challenge : BitReader := Eval vm_compute in body (write_challenge_request token client).
Definition validate : BitReader := Eval vm_compute in body (write_validate_request signed).
Definition connect : BitReader := Eval vm_compute in body write_connect_request.

Definition started : list Input := [Authenticate token 7].
Definition shaken : list Input := started ++ [Packet 1 challenge false; Packet 1 validate false].
Definition after (history : list Input) : S := match foldM (run_hs sign verify lossy) history (ServerHandshake_new 42) with Ok s => s | _ => ServerHandshake_new 0 end.
Definition second : list Input := [Packet 1 connect false; Packet 2 challenge false].

Lemma handshake_authenticates_witness :
  maintain_handshake sign verify lossy 1 connect false (after shaken) = Ok (FinalizeConnection 7 [2; 0; 0; 0; 0; 0; 0; 0; 40], after shaken) /\
  identified lossy shaken 1 7 /\ validated verify shaken 1.
Proof.
  assert (maintain_handshake sign verify lossy 1 connect false (after shaken) = Ok (FinalizeConnection 7 [2; 0; 0; 0; 0; 0; 0; 0; 40], after shaken)) as H
    by (vm_compute; reflexivity).
  split; [exact H|]. apply (handshake_authenticates sign verify lossy 42 shaken (after shaken) (after shaken) 1 connect false 7 [2; 0; 0; 0; 0; 0; 0; 0; 40]); [vm_compute; reflexivity|exact H].
Defined.

Lemma nothing_validated (a : Z) : validated verify started a -> False.
Proof. intros (r & hc & Hin & _). apply list_elem_of_singleton in Hin. discriminate. Qed.

Lemma stray_connect_request_panics_witness : maintain_handshake sign verify lossy 1 connect false (after started) = Panic.
Proof.
  eapply (stray_connect_request_panics sign verify lossy 42 started); [vm_compute; reflexivity|exact (nothing_validated 1)|vm_compute; reflexivity].
Defined.

(** The answer to the first challenge is lost; the client repeats it. *)
Lemma lost_challenge_response_stalls_witness :
  maintain_handshake sign verify lossy 1 challenge false (after (started ++ [Packet 1 challenge false])) = Ok (NoAction, after (started ++ [Packet 1 challenge false])).
Proof.
  eapply (lost_challenge_response_stalls sign verify lossy token 1 challenge 42 _ 300 false (after started) (after (started ++ [Packet 1 challenge false])) _ _ [] 1 challenge _ 300 false);
    try (vm_compute; reflexivity). intros u. apply not_elem_of_nil.
Defined.

Lemma sample_fits : fits sign lossy 42 300 token.
Proof.
  split; try (vm_compute; intuition discriminate).
  all: cbn; unfold in_u, sign; split; [vm_compute; intuition discriminate|repeat constructor; vm_compute; intuition discriminate].
Qed.

Lemma handshake_completes_witness : exists p5 p6 s2, deliver sign verify lossy 1 p5 false s2 = Ok (FinalizeConnection 7 p6, s2).
Proof.
  destruct (handshake_completes (T := Z) (F := Z) sign verify lossy 42 300 token 7 started (after started) 1) as (p1 & p2 & p3 & p4 & p5 & p6 & c1 & c2 & s1 & s2 & H).
  - intros t. unfold verify. now rewrite bool_decide_eq_true.
  - exact sample_fits.
  - vm_compute. reflexivity.
  - vm_compute. reflexivity.
  - exists token. vm_compute. reflexivity.
  - vm_compute. reflexivity.
  - exists p5, p6, s2. destruct H as (_ & _ & _ & _ & _ & _ & _ & H). exact (proj1 (proj2 (H 0))).
Defined.

(** A key that is put in again is listed twice: the older listing evicts the newer entry, although
    the cache is not full of keys. *)
Example reinserted_key_evicted_early :
  let ops := [CacheInsert 1 10; CacheInsert 2 20; CacheInsert 1 11; CacheInsert 3 30] in
  (c ← foldM run_cache ops (CacheMap.with_capacity 3); Ok (CacheMap.get 1 c, CacheMap.get 2 c, CacheMap.get 3 c)) = Ok (None, Some 20, Some 30).
Proof. vm_compute. reflexivity. Qed.

(** A client that wants to leave before the challenge has been answered has no digest. *)
Example disconnect_before_challenge_panics : client_write_disconnect client = Panic.
Proof. vm_compute. reflexivity. Qed.
End HandshakeSample.
