(* ===== verification/SimpleHandshake.v ===== *)
(** Connecting over a transport that is already safe: the handshake without signatures, on both
    sides ([src/server/src/handshake/simple_handshaker.rs],
    [src/client/src/handshake/simple_handshaker.rs], [src/shared/src/handshake/simple/header.rs]),
    and what it guarantees. *)

From Stdlib Require Import ZArith Lia.
From stdpp Require Import base numbers option list gmap.
From S2P Require Import Prelude BitIO Number Serde Wire Handshake HandshakeFacts.

(** * The header *)
Inductive SimpleHeader :=
| SClientIdentifyRequest (protocol_id : ProtocolId)
| SServerIdentifyResponse
| SClientConnectRequest
| SServerConnectResponse
| SServerRejectResponse (reason : RejectReason)
| SDisconnect.

Definition simple_index (h : SimpleHeader) : Z :=
  match h with
  | SClientIdentifyRequest _ => 0 | SServerIdentifyResponse => 1 | SClientConnectRequest => 2 | SServerConnectResponse => 3
  | SServerRejectResponse _ => 4 | SDisconnect => 5
  end.

Definition SimpleHeader_ser {W} `{BitWrite W} (h : SimpleHeader) (w : W) : res W :=
  w ← ser (variant_serde 6) (simple_index h) w;
  match h with
  | SClientIdentifyRequest protocol_id => ser u64_serde protocol_id w
  | SServerRejectResponse reason => ser (variant_serde 2) (reason_index reason) w
  | _ => Ok w
  end.
Definition SimpleHeader_de (r : BitReader) : res (SimpleHeader * BitReader) :=
  '(i, r) ← de (variant_serde 6) r;
  match i with
  | 0 => '(protocol_id, r) ← de u64_serde r; Ok (SClientIdentifyRequest protocol_id, r)
  | 1 => Ok (SServerIdentifyResponse, r)
  | 2 => Ok (SClientConnectRequest, r)
  | 3 => Ok (SServerConnectResponse, r)
  | 4 => '(j, r) ← de (variant_serde 2) r; Ok (SServerRejectResponse (if j =? 0 then ProtocolMismatch else Auth), r)
  | 5 => Ok (SDisconnect, r)
  | _ => Err
  end.

Definition simple_start (h : SimpleHeader) : res BitWriter :=
  w ← ser standard_header_serde (mkStandardHeader Handshake 0 0 0) BitWriter_new; SimpleHeader_ser h w.

(** * The server *)
Section Server.
Context {A U : Type} {eqA : EqDecision A} {cA : Countable A} {eqU : EqDecision U} {cU : Countable U}.
Context (from_utf8_lossy : list Z -> IdentityToken).

Record SimpleServer := mkSimpleServer {
  s_protocol_id : ProtocolId;
  s_identified_users : gmap A U;
  s_unidentified_users : gmap IdentityToken U;
  s_identity_token_map : gmap U IdentityToken
}.

Definition SimpleServer_new (protocol_id : ProtocolId) : SimpleServer := mkSimpleServer protocol_id ∅ ∅ ∅.
Definition simple_authenticate_user (identity_token : IdentityToken) (user_key : U) (s : SimpleServer) : SimpleServer :=
  mkSimpleServer s.(s_protocol_id) s.(s_identified_users) (<[identity_token := user_key]> s.(s_unidentified_users))
    (<[user_key := identity_token]> s.(s_identity_token_map)).

Definition simple_delete_user (user_key : U) (address_opt : option A) (s : SimpleServer) : SimpleServer :=
  mkSimpleServer s.(s_protocol_id)
    (match address_opt with Some address => delete address s.(s_identified_users) | None => s.(s_identified_users) end)
    (match s.(s_identity_token_map) !! user_key with Some identity_token => delete identity_token s.(s_unidentified_users) | None => s.(s_unidentified_users) end)
    (delete user_key s.(s_identity_token_map)).

Definition write_identity_response : res (list Z) := w ← simple_start SServerIdentifyResponse; BitWriter_to_bytes w.
Definition simple_write_connect_response : res (list Z) := w ← simple_start SServerConnectResponse; BitWriter_to_bytes w.
Definition simple_write_reject_response (reason : RejectReason) : res (list Z) := w ← simple_start (SServerRejectResponse reason); BitWriter_to_bytes w.
Definition simple_server_write_disconnect : res (list Z) := w ← simple_start SDisconnect; BitWriter_to_bytes w.

Definition recv_identify_request (r : BitReader) : res IdentityToken := '(bytes, _) ← de bytes_serde r; Ok (from_utf8_lossy bytes).

Definition simple_verify_disconnect_request (address : A) (r : BitReader) (s : SimpleServer) : res bool :=
  o ← attempt (recv_identify_request r);
  Ok (match o with
      | None => false
      | Some disconnect_token =>
          match s.(s_identified_users) !! address with
          | None => false
          | Some user_key => match s.(s_identity_token_map) !! user_key with None => false | Some expected_token => bool_decide (expected_token = disconnect_token) end
          end
      end).

(** The token is used up; what it was stays known for the disconnect. *)
Definition handle_identify (address : A) (r : BitReader) (s : SimpleServer) : res (@HandshakeAction U * SimpleServer) :=
  o ← attempt (recv_identify_request r);
  match o with
  | None => Ok (NoAction, s)
  | Some id_token =>
      match s.(s_unidentified_users) !! id_token with
      | None => packet ← simple_write_reject_response Auth; Ok (SendPacket packet, s)
      | Some user_key =>
          _ ← unwrap (s.(s_identity_token_map) !! user_key);
          identify_response ← write_identity_response;
          Ok (FinalizeConnection user_key identify_response,
              mkSimpleServer s.(s_protocol_id) (<[address := user_key]> s.(s_identified_users)) (delete id_token s.(s_unidentified_users)) s.(s_identity_token_map))
      end
  end.

Definition simple_maintain_handshake (address : A) (r : BitReader) (has_connection : bool) (s : SimpleServer) : res (@HandshakeAction U * SimpleServer) :=
  '(handshake_header, r) ← SimpleHeader_de r;
  match handshake_header with
  | SClientIdentifyRequest protocol_id =>
      if negb (protocol_id =? s.(s_protocol_id)) then packet ← simple_write_reject_response ProtocolMismatch; Ok (SendPacket packet, s)
      else if has_connection then packet ← write_identity_response; Ok (SendPacket packet, s)
      else handle_identify address r s
  | SClientConnectRequest => Ok (ForwardPacket, s)
  | SDisconnect =>
      ok ← simple_verify_disconnect_request address r s;
      Ok (match (ok : bool), s.(s_identified_users) !! address with true, Some user_key => DisconnectUser user_key | _, _ => NoAction end, s)
  | _ => Ok (NoAction, s)
  end.

Definition simple_reset (s : SimpleServer) : SimpleServer := mkSimpleServer s.(s_protocol_id) ∅ ∅ ∅.
End Server.

(** * The client *)
Section Client.
Context {T F : Type} {clock : HandshakeClock T F}.

Inductive SimpleState :=
| SAwaitingIdentifyResponse
| STimeSync (time_manager : T)
| SAwaitingConnectResponse (time_manager : F)
| SConnected.

Record SimpleClient := mkSimpleClient {
  sc_protocol_id : ProtocolId;
  sc_connection_state : SimpleState;
  sc_identity_token : option IdentityToken
}.

Definition SimpleClient_new (protocol_id : ProtocolId) : SimpleClient := mkSimpleClient protocol_id SAwaitingIdentifyResponse None.
Definition simple_set_identity_token (token : IdentityToken) (c : SimpleClient) : SimpleClient :=
  mkSimpleClient c.(sc_protocol_id) c.(sc_connection_state) (Some token).
Definition simple_with_state (s : SimpleState) (c : SimpleClient) : SimpleClient := mkSimpleClient c.(sc_protocol_id) s c.(sc_identity_token).

Definition write_identify_request (token : IdentityToken) (c : SimpleClient) : res (list Z) :=
  w ← simple_start (SClientIdentifyRequest c.(sc_protocol_id)); w ← ser bytes_serde token w; BitWriter_to_bytes w.
Definition simple_write_connect_request : res (list Z) := w ← simple_start SClientConnectRequest; BitWriter_to_bytes w.
Definition simple_client_write_disconnect (c : SimpleClient) : res (list Z) :=
  w ← simple_start SDisconnect; token ← unwrap c.(sc_identity_token); w ← ser bytes_serde token w; BitWriter_to_bytes w.

Definition simple_send (ringing : bool) (c : SimpleClient) : res (option (list Z) * SimpleClient) :=
  if negb ringing then Ok (None, c)
  else match c.(sc_connection_state) with
       | SAwaitingIdentifyResponse => match c.(sc_identity_token) with Some token => p ← write_identify_request token c; Ok (Some p, c) | None => Ok (None, c) end
       | STimeSync time_manager => '(p, t) ← clock_write_ping time_manager; Ok (Some p, simple_with_state (STimeSync t) c)
       | SAwaitingConnectResponse _ => p ← simple_write_connect_request; Ok (Some p, c)
       | SConnected => Ok (None, c)
       end.

Definition recv_identify_response (c : SimpleClient) : SimpleClient :=
  match c.(sc_connection_state) with SAwaitingIdentifyResponse => simple_with_state (STimeSync clock_new) c | _ => c end.
Definition simple_recv_connect_response (c : SimpleClient) : option (@HandshakeResult F) * SimpleClient :=
  (match c.(sc_connection_state) with SAwaitingConnectResponse time_manager => Some (ConnectedResult time_manager) | _ => None end, simple_with_state SConnected c).

Definition simple_recv_handshake (r : BitReader) (c : SimpleClient) : res (option (@HandshakeResult F) * SimpleClient) :=
  o ← attempt (SimpleHeader_de r);
  match o with
  | None => Ok (None, c)
  | Some (header, _) =>
      match header with
      | SServerIdentifyResponse => Ok (None, recv_identify_response c)
      | SServerConnectResponse => Ok (simple_recv_connect_response c)
      | SServerRejectResponse reason => Ok (Some (Rejected reason), c)
      | SClientIdentifyRequest _ | SClientConnectRequest | SDisconnect => Ok (None, c)
      end
  end.

Definition simple_recv_pong (r : BitReader) (c : SimpleClient) : res SimpleClient :=
  match c.(sc_connection_state) with
  | STimeSync time_manager =>
      '(success, t) ← clock_read_pong r time_manager;
      Ok (simple_with_state (if decide (success = Some true) then SAwaitingConnectResponse (clock_finalize t) else STimeSync t) c)
  | _ => Ok c
  end.

Definition simple_recv (r : BitReader) (c : SimpleClient) : res (option (@HandshakeResult F) * SimpleClient) :=
  o ← attempt (de standard_header_serde r);
  match o with
  | None => Ok (None, c)
  | Some (header, r) =>
      match packet_type header with
      | Handshake => simple_recv_handshake r c
      | Pong => c ← simple_recv_pong r c; Ok (None, c)
      | Data | Heartbeat | Ping => Ok (None, c)
      end
  end.
End Client.
