(* ===== verification/MainServer.v ===== *)
(** The main server: it lets users in and knows which user is at which address
    ([src/server/src/server/main_server.rs], [src/server/src/user/main_user.rs],
    [src/server/src/events/main_events.rs], the trait of [src/server/src/handshake/mod.rs]).

    The server is written against the trait [Handshaker], which both handshakers implement.
    What the sockets deliver in one call is a list of results; what is handed to them is logged,
    and [send_fails] says at which addresses sending fails.  Identity tokens, which the source draws
    at random, come with the input; instants are milliseconds. *)

From Stdlib Require Import ZArith Lia.
From stdpp Require Import base numbers option list gmap.
From S2P Require Import Prelude BitIO Number Serde Wire EntityMaps Handshake HandshakeFacts SimpleHandshake.

Abbreviation UserKey := Z.

(** * The trait *)
Class Handshaker (A H : Type) := {
  hs_new : ProtocolId -> H;
  hs_authenticate_user : IdentityToken -> UserKey -> H -> H;
  hs_delete_user : UserKey -> option A -> H -> H;
  hs_maintain_handshake : A -> BitReader -> bool -> H -> res (@HandshakeAction UserKey * H);
  hs_reset : H -> H;
  hs_write_disconnect : res (list Z)
}.

Section Instances.
Context {A : Type} {eqA : EqDecision A} {cA : Countable A}.
Context (sign : Timestamp -> list Z) (verify : Timestamp -> list Z -> bool) (from_utf8_lossy : list Z -> IdentityToken).

Definition advanced_handshaker : Handshaker A (@ServerHandshake A UserKey _ _ _ _) :=
  {| hs_new := ServerHandshake_new;
     hs_authenticate_user := authenticate_user;
     hs_delete_user := delete_user;
     hs_maintain_handshake := maintain_handshake sign verify from_utf8_lossy;
     hs_reset := reset;
     hs_write_disconnect := server_write_disconnect |}.

Definition simple_handshaker : Handshaker A (@SimpleServer A UserKey _ _ _ _) :=
  {| hs_new := SimpleServer_new;
     hs_authenticate_user := simple_authenticate_user;
     hs_delete_user := simple_delete_user;
     hs_maintain_handshake := simple_maintain_handshake from_utf8_lossy;
     hs_reset := simple_reset;
     hs_write_disconnect := simple_server_write_disconnect |}.
End Instances.

Section MainServer.
Context {A H M : Type} {eqA : EqDecision A} {cA : Countable A} {handshaker : Handshaker A H}.
Context (send_fails : A -> bool).
(** [MessageKinds::read] of an authentication message, and the kind of a message. *)
Context (read_auth : BitReader -> res M) (message_kind : M -> Z).

(** * Users *)
Record MainUser := mkMainUser { auth_addr : option A; data_addr : option A; created_at : Z }.
Definition MainUser_new (auth_addr : A) (now : Z) : MainUser := mkMainUser (Some auth_addr) None now.
Definition has_address (u : MainUser) : bool := bool_decide (is_Some u.(data_addr)).
Definition set_address (addr : A) (u : MainUser) : MainUser := mkMainUser u.(auth_addr) (Some addr) u.(created_at).
Definition take_auth_address (u : MainUser) : res (A * MainUser) :=
  addr ← unwrap u.(auth_addr); Ok (addr, mkMainUser None u.(data_addr) u.(created_at)).

(** * Events *)
Inductive MainError := RecvError | WrappedError.
Record MainEvents := mkMainEvents {
  auths : gmap Z (list (UserKey * M));
  connections : list UserKey;
  queued_disconnects : list UserKey;
  errors : list MainError;
  world_packets : list (UserKey * A * list Z);
  no_events : bool
}.
Definition MainEvents_default : MainEvents := mkMainEvents ∅ [] [] [] [] true.

Definition push_connection (u : UserKey) (e : MainEvents) : MainEvents :=
  mkMainEvents e.(auths) (e.(connections) ++ [u]) e.(queued_disconnects) e.(errors) e.(world_packets) false.
Definition push_auth (u : UserKey) (m : M) (e : MainEvents) : MainEvents :=
  mkMainEvents (<[message_kind m := default [] (e.(auths) !! message_kind m) ++ [(u, m)]]> e.(auths)) e.(connections) e.(queued_disconnects) e.(errors) e.(world_packets) false.
Definition push_error (err : MainError) (e : MainEvents) : MainEvents :=
  mkMainEvents e.(auths) e.(connections) e.(queued_disconnects) (e.(errors) ++ [err]) e.(world_packets) false.
Definition push_world_packet (u : UserKey) (a : A) (payload : list Z) (e : MainEvents) : MainEvents :=
  mkMainEvents e.(auths) e.(connections) e.(queued_disconnects) e.(errors) (e.(world_packets) ++ [(u, a, payload)]) false.
Definition push_queued_disconnect (u : UserKey) (e : MainEvents) : MainEvents :=
  mkMainEvents e.(auths) e.(connections) (e.(queued_disconnects) ++ [u]) e.(errors) e.(world_packets) false.

(** Two batches of events put together: a later list of authentications of a kind replaces the
    earlier one. *)
Definition MainEvents_append (other e : MainEvents) : MainEvents :=
  mkMainEvents (other.(auths) ∪ e.(auths)) (e.(connections) ++ other.(connections)) (e.(queued_disconnects) ++ other.(queued_disconnects))
    (e.(errors) ++ other.(errors)) (e.(world_packets) ++ other.(world_packets)) (e.(no_events) && other.(no_events)).

(** * The server *)
Record MainServer := mkMainServer {
  require_auth : bool;
  pending_auth_timeout : Z;
  listening : bool;
  handshake_manager : H;
  users : BigMap MainUser;
  user_connections : gmap A UserKey;
  incoming_events : MainEvents;
  sent_packets : list (A * list Z);
  sent_auths : list (A * option IdentityToken)
}.

Definition with_manager (h : H) (s : MainServer) : MainServer :=
  mkMainServer s.(require_auth) s.(pending_auth_timeout) s.(listening) h s.(users) s.(user_connections) s.(incoming_events) s.(sent_packets) s.(sent_auths).
Definition with_users (us : BigMap MainUser) (s : MainServer) : MainServer :=
  mkMainServer s.(require_auth) s.(pending_auth_timeout) s.(listening) s.(handshake_manager) us s.(user_connections) s.(incoming_events) s.(sent_packets) s.(sent_auths).
Definition with_connections (c : gmap A UserKey) (s : MainServer) : MainServer :=
  mkMainServer s.(require_auth) s.(pending_auth_timeout) s.(listening) s.(handshake_manager) s.(users) c s.(incoming_events) s.(sent_packets) s.(sent_auths).
Definition with_events (f : MainEvents -> MainEvents) (s : MainServer) : MainServer :=
  mkMainServer s.(require_auth) s.(pending_auth_timeout) s.(listening) s.(handshake_manager) s.(users) s.(user_connections) (f s.(incoming_events)) s.(sent_packets) s.(sent_auths).

Definition MainServer_new (require_auth : bool) (pending_auth_timeout : Z) (protocol_id : ProtocolId) : MainServer :=
  mkMainServer require_auth pending_auth_timeout false (hs_new protocol_id) BigMap_new ∅ MainEvents_default [] [].

(** The sockets can be loaded once. *)
Definition listen (s : MainServer) : res MainServer :=
  if s.(listening) then Panic
  else Ok (mkMainServer s.(require_auth) s.(pending_auth_timeout) true s.(handshake_manager) s.(users) s.(user_connections) s.(incoming_events) s.(sent_packets) s.(sent_auths)).

Definition reset_all (s : MainServer) : MainServer :=
  mkMainServer s.(require_auth) s.(pending_auth_timeout) s.(listening) (hs_reset s.(handshake_manager)) BigMap_new ∅ MainEvents_default s.(sent_packets) s.(sent_auths).

(** Sending, with what it was given; whether it fails. *)
Definition send_packet (address : A) (packet : list Z) (s : MainServer) : MainServer :=
  mkMainServer s.(require_auth) s.(pending_auth_timeout) s.(listening) s.(handshake_manager) s.(users) s.(user_connections) s.(incoming_events)
    (s.(sent_packets) ++ [(address, packet)]) s.(sent_auths).
Definition send_auth (address : A) (answer : option IdentityToken) (s : MainServer) : MainServer :=
  mkMainServer s.(require_auth) s.(pending_auth_timeout) s.(listening) s.(handshake_manager) s.(users) s.(user_connections) s.(incoming_events)
    s.(sent_packets) (s.(sent_auths) ++ [(address, answer)]).

(** ** Users *)
Definition user_exists (u : UserKey) (s : MainServer) : bool := bool_decide (is_Some (BigMap_get u s.(users))).
Definition user_address (u : UserKey) (s : MainServer) : option A := user ← BigMap_get u s.(users); data_addr user.
Definition users_count (s : MainServer) : nat := size (bm_inner s.(users)).
Definition user_keys (s : MainServer) : list UserKey :=
  omap (fun '(u, user) => a ← data_addr user; if decide (is_Some (s.(user_connections) !! a)) then Some u else None) (map_to_list (bm_inner s.(users))).

Definition user_delete (u : UserKey) (s : MainServer) : res MainServer :=
  let '(o, us) := BigMap_remove u s.(users) in
  user ← unwrap o;
  let s := with_users us s in
  let s := match data_addr user with Some a => with_connections (delete a s.(user_connections)) s | None => s end in
  Ok (with_manager (hs_delete_user u (data_addr user) s.(handshake_manager)) s).

Definition accept_connection (identity_token : IdentityToken) (u : UserKey) (s : MainServer) : res MainServer :=
  match BigMap_get u s.(users) with
  | None => Ok s
  | Some user =>
      '(auth_addr, user) ← take_auth_address user;
      let s := with_users (BigMap_set u user s.(users)) s in
      let s := with_manager (hs_authenticate_user identity_token u s.(handshake_manager)) s in
      if s.(listening) then Ok (send_auth auth_addr (Some identity_token) s) else Panic
  end.

Definition reject_connection (u : UserKey) (s : MainServer) : res MainServer :=
  match BigMap_get u s.(users) with
  | None => Ok s
  | Some user =>
      '(auth_addr, user) ← take_auth_address user;
      let s := with_users (BigMap_set u user s.(users)) s in
      if s.(listening) then user_delete u (send_auth auth_addr None s) else Panic
  end.

Definition finalize_connection (u : UserKey) (a : A) (s : MainServer) : MainServer :=
  match BigMap_get u s.(users) with
  | None => s
  | Some user =>
      let s := with_users (BigMap_set u (set_address a user) s.(users)) s in
      let s := with_connections (<[a := u]> s.(user_connections)) s in
      with_events (push_connection u) s
  end.

(** Ten disconnect packets, until sending one fails. *)
Fixpoint send_disconnects (n : nat) (a : A) (s : MainServer) : res MainServer :=
  match n with
  | O => Ok s
  | S n => packet ← hs_write_disconnect; let s := send_packet a packet s in if send_fails a then Ok s else send_disconnects n a s
  end.
Definition disconnect_user (u : UserKey) (s : MainServer) : res MainServer :=
  s ← match user_address u s with Some a => send_disconnects 10 a s | None => Ok s end;
  user_delete u s.

(** ** One receive *)
(** A result of the authentication socket, with the token for a user that is accepted at once. *)
Definition auth_step (now : Z) (input : option (A * list Z * IdentityToken)) (s : MainServer) : res MainServer :=
  match input with
  | None => Ok (with_events (push_error RecvError) s)
  | Some (auth_addr, auth_bytes, identity_token) =>
      '(u, us) ← BigMap_insert (MainUser_new auth_addr now) s.(users);
      let s := with_users us s in
      if s.(require_auth) then
        o ← attempt (read_auth (BitReader_new auth_bytes));
        Ok (match o with None => s | Some auth_message => with_events (push_auth u auth_message) s end)
      else
        user ← unwrap (BigMap_get u s.(users));
        '(_, user) ← take_auth_address user;
        let s := with_users (BigMap_set u user s.(users)) s in
        let s := with_manager (hs_authenticate_user identity_token u s.(handshake_manager)) s in
        Ok (send_auth auth_addr (Some identity_token) s)
  end.

Definition to_world (a : A) (payload : list Z) (s : MainServer) : MainServer :=
  match s.(user_connections) !! a with Some u => with_events (push_world_packet u a payload) s | None => s end.

Definition perform (a : A) (payload : list Z) (action : @HandshakeAction UserKey) (s : MainServer) : MainServer :=
  match action with
  | ForwardPacket => to_world a payload s
  | DisconnectUser u => with_events (push_queued_disconnect u) s
  | SendPacket packet => send_packet a packet s
  | FinalizeConnection u packet => send_packet a packet (finalize_connection u a s)
  | NoAction => s
  end.

Definition handshake_packet (a : A) (payload : list Z) (r : BitReader) (s : MainServer) : res MainServer :=
  match hs_maintain_handshake a r (bool_decide (is_Some (s.(user_connections) !! a))) s.(handshake_manager) with
  | Ok (action, h) => Ok (perform a payload action (with_manager h s))
  | Err => Ok s
  | Panic => Panic
  | Diverge => Diverge
  end.

Definition packet_step (input : option (A * list Z)) (s : MainServer) : res MainServer :=
  match input with
  | None => Ok (with_events (push_error WrappedError) s)
  | Some (a, payload) =>
      o ← attempt (de standard_header_serde (BitReader_new payload));
      match o with
      | None => Ok s
      | Some (header, r) =>
          match packet_type header with
          | Data | Heartbeat | Pong | Ping => Ok (to_world a payload s)
          | Handshake => handshake_packet a payload r s
          end
      end
  end.

Definition timed_out (now : Z) (s : MainServer) : list (UserKey * option A) :=
  omap (fun '(u, user) => if negb (has_address user) && (s.(pending_auth_timeout) <? now - created_at user) then Some (u, auth_addr user) else None)
    (map_to_list (bm_inner s.(users))).
Definition drop_pending (x : UserKey * option A) (s : MainServer) : res MainServer :=
  user_delete x.1 (match x.2 with Some a => send_auth a None s | None => s end).

Definition maintain_socket (now : Z) (auth_inputs : list (option (A * list Z * IdentityToken))) (packets : list (option (A * list Z))) (s : MainServer) : res MainServer :=
  if s.(listening) then
    s ← foldM (auth_step now) auth_inputs s;
    s ← foldM packet_step packets s;
    foldM drop_pending (timed_out now s) s
  else Panic.

Definition receive (now : Z) (auth_inputs : list (option (A * list Z * IdentityToken))) (packets : list (option (A * list Z))) (s : MainServer) : res (MainEvents * MainServer) :=
  s ← maintain_socket now auth_inputs packets s;
  Ok (s.(incoming_events), with_events (fun _ => MainEvents_default) s).

(** What the server above does with the connections of one receive: it asks for every address
    ([Server::receive_all_packets]). *)
Definition connected_addresses (events : MainEvents) (s : MainServer) : res (list (UserKey * A)) :=
  foldM (fun u l => a ← unwrap (user_address u s); Ok (l ++ [(u, a)])) events.(connections) [].
End MainServer.
