(* ===== verification/MainServerFacts.v ===== *)
(** What the main server guarantees, whichever handshaker it is built with: users and addresses
    mirror each other, and nobody connects whom the application has not accepted.  [HandshakerLaws]
    is what the server asks of a handshaker; both keep it.  And where the two part: a user who is
    dropped during the signed handshake is told that it is connected. *)

From Stdlib Require Import ZArith Lia.
From stdpp Require Import base numbers option list gmap.
From S2P Require Import Prelude BitIO Number Serde Wire EntityMaps Handshake HandshakeFacts HandshakeRun SimpleHandshake MainServer.

(** * What a handshaker promises *)
(** [pending h a u]: user [u] may still be finalized at address [a]. *)
Class HandshakerLaws (A H : Type) `{!Handshaker A H} := {
  hs_ok : H -> Prop;
  pending : H -> A -> UserKey -> Prop;
  new_ok p : hs_ok (hs_new p);
  new_pending p a u : ~ pending (hs_new p) a u;
  reset_ok h : hs_ok (hs_reset h);
  reset_pending h a u : ~ pending (hs_reset h) a u;
  authenticate_ok token u h : hs_ok h -> (forall a, ~ pending h a u) -> hs_ok (hs_authenticate_user token u h);
  authenticate_pending token u h a u' : pending (hs_authenticate_user token u h) a u' -> u' = u \/ pending h a u';
  delete_ok u address_opt h : hs_ok h -> hs_ok (hs_delete_user u address_opt h);
  delete_pending u address_opt h a u' : pending (hs_delete_user u address_opt h) a u' -> pending h a u';
  maintain_ok a r hc h action h' : hs_ok h -> hs_maintain_handshake a r hc h = Ok (action, h') -> hs_ok h';
  maintain_pending a r hc h action h' a' u : hs_ok h -> hs_maintain_handshake a r hc h = Ok (action, h') -> pending h' a' u -> pending h a' u;
  maintain_finalizes a r hc h u packet h' : hs_ok h -> hs_maintain_handshake a r hc h = Ok (FinalizeConnection u packet, h') ->
    hc = false /\ pending h a u /\ forall a', pending h' a' u -> a' = a
}.

(** ** The handshaker without signatures *)
Section Simple.
Context {A : Type} {eqA : EqDecision A} {cA : Countable A} {iA : Inhabited A} (from_utf8_lossy : list Z -> IdentityToken).
Abbreviation S := (@SimpleServer A UserKey _ _ _ _).

Record simple_ok (s : S) : Prop := { so_once : forall t t' u, s.(s_unidentified_users) !! t = Some u -> s.(s_unidentified_users) !! t' = Some u -> t = t' }.
Definition simple_pending (s : S) (a : A) (u : UserKey) : Prop := exists t, s.(s_unidentified_users) !! t = Some u.

Lemma identify_outcome a r (s s' : S) action : handle_identify from_utf8_lossy a r s = Ok (action, s') ->
  s' = s /\ (forall u p, action <> FinalizeConnection u p) \/
  exists t u p, action = FinalizeConnection u p /\ s.(s_unidentified_users) !! t = Some u /\ s'.(s_unidentified_users) = delete t s.(s_unidentified_users).
Proof using Type.
  unfold handle_identify. generalize (simple_write_reject_response Auth), write_identity_response. intros rejected identified H.
  apply bind_ok_inv in H as ([t|] & _ & H); [|injection H as <- <-; now left]. destruct (_ !! t) as [u|] eqn:Hu.
  - apply bind_ok_inv in H as (x & _ & H). apply bind_ok_inv in H as (p & _ & H). injection H as <- <-. right. now exists t, u, p.
  - apply answered in H as [-> [p ->]]. now left.
Qed.

Lemma simple_outcome a r hc (s s' : S) action : simple_maintain_handshake from_utf8_lossy a r hc s = Ok (action, s') ->
  s' = s /\ (forall u p, action <> FinalizeConnection u p) \/
  hc = false /\ exists t u p, action = FinalizeConnection u p /\ s.(s_unidentified_users) !! t = Some u /\ s'.(s_unidentified_users) = delete t s.(s_unidentified_users).
Proof using Type.
  unfold simple_maintain_handshake. generalize (simple_write_reject_response ProtocolMismatch), write_identity_response. intros rejected identified H.
  apply bind_ok_inv in H as ([header r1] & _ & H). destruct header; try (injection H as <- <-; now left).
  - destruct (negb _); [apply answered in H as [-> [p ->]]; now left|]. destruct hc; [apply answered in H as [-> [p ->]]; now left|].
    apply identify_outcome in H as [H|H]; [now left|now right].
  - apply bind_ok_inv in H as (b & _ & H). injection H as <- <-. left. split; [reflexivity|]. intros u p. repeat case_match; discriminate.
Qed.

#[export] Instance simple_laws : @HandshakerLaws A S (simple_handshaker from_utf8_lossy).
Proof using Type iA.
  refine (@Build_HandshakerLaws A S (simple_handshaker from_utf8_lossy) simple_ok simple_pending _ _ _ _ _ _ _ _ _ _ _); cbn.
  - intros p. split. intros t t' u H. cbn in H. now rewrite lookup_empty in H.
  - intros p a u [t H]. cbn in H. now rewrite lookup_empty in H.
  - intros h. split. intros t t' u H. cbn in H. now rewrite lookup_empty in H.
  - intros h a u [t H]. cbn in H. now rewrite lookup_empty in H.
  - intros token u h [H] Hn. split. cbn. intros t t' u' [[<- <-]|[_ H1]]%lookup_insert_Some [[<- E]|[_ H2]]%lookup_insert_Some; eauto.
    + destruct (Hn inhabitant). now exists t'.
    + subst u'. destruct (Hn inhabitant). now exists t.
  - intros token u h a u' [t H]. cbn in H. apply lookup_insert_Some in H as [[_ <-]|[_ H]]; [now left|right; now exists t].
  - intros u o h [H]. split. cbn. destruct (_ !! u); [|exact H]. intros t t' u' [_ H1]%lookup_delete_Some [_ H2]%lookup_delete_Some. eauto.
  - intros u o h a u' [t H]. exists t. cbn in H. destruct (_ !! u); [now apply lookup_delete_Some in H|exact H].
  - intros a r hc h action h' [H] [[-> _]|(_ & t & u & p & _ & _ & Hd)]%simple_outcome; [now split|]. split. rewrite Hd.
    intros t1 t2 u' [_ H1]%lookup_delete_Some [_ H2]%lookup_delete_Some. eauto.
  - intros a r hc h action h' a' u _ [[-> _]|(_ & t & u' & p & _ & _ & Hd)]%simple_outcome; [auto|]. intros [t1 H1]. rewrite Hd in H1. apply lookup_delete_Some in H1 as [_ H1]. now exists t1.
  - intros a r hc h u packet h' [H] [[_ Hn]|(-> & t & u' & p & E & Ht & Hd)]%simple_outcome; [now destruct (Hn u packet)|]. injection E as <- <-. split; [reflexivity|]. split; [now exists t|].
    intros a' [t1 H1]. rewrite Hd in H1. apply lookup_delete_Some in H1 as [Hne H1]. destruct Hne. eauto.
Defined.
End Simple.

(** ** The handshaker with signatures *)
Section Advanced.
Context {A : Type} {eqA : EqDecision A} {cA : Countable A} {iA : Inhabited A}.
Context (sign : Timestamp -> list Z) (verify : Timestamp -> list Z -> bool) (from_utf8_lossy : list Z -> IdentityToken).
Abbreviation S := (@ServerHandshake A UserKey _ _ _ _).

Definition located (s : S) (a : A) (u : UserKey) : Prop := s.(authenticated_and_identified_users) !! a = Some u \/ s.(been_handshaked_users) !! a = Some u.
Definition waits (s : S) (t : IdentityToken) (u : UserKey) : Prop := s.(authenticated_unidentified_users) !! t = Some u.
Definition advanced_pending (s : S) (a : A) (u : UserKey) : Prop := (exists t, waits s t u) \/ located s a u.

Record advanced_ok (s : S) : Prop := {
  ao_once : forall t t' u, waits s t u -> waits s t' u -> t = t';
  ao_moved : forall t a u, waits s t u -> located s a u -> False;
  ao_place : forall a a' u, located s a u -> located s a' u -> a = a'
}.

(** A step that only takes away, and one that identifies a user. *)
Lemma advanced_shrinks (s s' : S) : advanced_ok s -> (forall t u, waits s' t u -> waits s t u) -> (forall a u, located s' a u -> located s a u) -> advanced_ok s'.
Proof using Type. intros [H1 H2 H3] Hw Hl. split; eauto. Qed.

Lemma advanced_identifies (s s' : S) t a u : advanced_ok s -> waits s t u -> (forall t' u', waits s' t' u' -> t' <> t /\ waits s t' u') ->
  (forall a' u', located s' a' u' -> a' = a /\ u' = u \/ located s a' u') -> advanced_ok s'.
Proof using Type.
  intros [H1 H2 H3] Ht Hw Hl. split.
  - intros t1 t2 u' [_ W1]%Hw [_ W2]%Hw. eauto.
  - intros t1 a1 u' [Hne W1]%Hw [[-> ->]|L1]%Hl; [destruct Hne; eauto|eauto].
  - intros a1 a2 u' [[-> ->]|L1]%Hl [[-> E]|L2]%Hl; subst; eauto; exfalso; eauto.
Qed.

(** What a packet does to the tables. *)
Inductive tables_step (s s' : S) (a : A) (hc : bool) : @HandshakeAction UserKey -> Prop :=
| TablesKept action : (forall u p, action <> FinalizeConnection u p) -> (forall t u, waits s' t u -> waits s t u) -> (forall a' u, located s' a' u -> located s a' u) ->
    tables_step s s' a hc action
| TablesIdentified t u action : (forall u p, action <> FinalizeConnection u p) -> waits s t u -> (forall t' u', waits s' t' u' -> t' <> t /\ waits s t' u') ->
    (forall a' u', located s' a' u' -> a' = a /\ u' = u \/ located s a' u') -> tables_step s s' a hc action
| TablesFinalized u p : hc = false -> s' = s -> located s a u -> tables_step s s' a hc (FinalizeConnection u p).

Lemma challenge_tables a r hc (s s' : S) action : handle_challenge sign from_utf8_lossy a r s = Ok (action, s') -> tables_step s s' a hc action.
Proof using Type.
  unfold handle_challenge. intros H. apply bind_ok_inv in H as ([[t token]|] & _ & H); [|injection H as <- <-; now apply TablesKept].
  destruct (_ !! token) as [u|] eqn:Hu; [|injection H as <- <-; now apply TablesKept]. apply bind_ok_inv in H as (x & _ & H). apply bind_ok_inv in H as ([bs s1] & Hw & H). injection H as <- <-.
  apply challenge_response_tables in Hw as (W1 & W2 & W3). apply (TablesIdentified _ _ _ _ token u); [discriminate|exact Hu|..]; unfold waits, located; rewrite ?W1, ?W2, ?W3; cbn.
  - intros t' u' [Hne H]%lookup_delete_Some. auto.
  - intros a' u' [[[<- <-]|[_ H]]%lookup_insert_Some|H]; auto.
Qed.

Lemma validate_steps a r hc (s s' : S) action : handle_validate verify a r s = Ok (action, s') -> tables_step s s' a hc action.
Proof using Type.
  unfold handle_validate, user_finish_handshake. generalize write_validate_response. intros written H. apply bind_ok_inv in H as ([b s1] & Hv & H). apply validate_tables in Hv as (_ & V1 & V2 & V3).
  assert (forall act, (forall u p, act <> FinalizeConnection u p) -> tables_step s s1 a hc act) as Hsame.
  { intros act Ha. apply TablesKept; [exact Ha|unfold waits; now rewrite V1|unfold located; now rewrite V2, V3]. }
  destruct b; [|injection H as <- <-; now apply Hsame]. destruct (been_handshaked_users s1 !! a); [apply answered in H as [-> [p ->]]; now apply Hsame|].
  destruct (authenticated_and_identified_users s1 !! a) as [u|] eqn:Hu; [|injection H as <- <-; now apply Hsame].
  apply bind_ok_inv in H as ([bs s2] & H2 & H). injection H as <- <-. apply answered in H2 as [-> _]. apply TablesKept; [discriminate|unfold waits; cbn; now rewrite V1|].
  unfold located. cbn. rewrite <- V2, <- V3. intros a' u' [H|[[<- <-]|[_ H]]%lookup_insert_Some]; auto.
Qed.

Lemma advanced_outcome a r hc (s s' : S) action : maintain_handshake sign verify from_utf8_lossy a r hc s = Ok (action, s') -> tables_step s s' a hc action.
Proof using Type.
  unfold maintain_handshake. generalize (write_reject_response ProtocolMismatch), write_connect_response. intros rejected connected H.
  apply bind_ok_inv in H as ([header r1] & _ & H). destruct header; try (injection H as <- <-; now apply TablesKept).
  - destruct (negb _); [apply answered in H as [-> [p ->]]; now apply TablesKept|]. now apply (challenge_tables a r1).
  - now apply (validate_steps a r1).
  - apply bind_ok_inv in H as (pk & _ & H). destruct hc; [injection H as <- <-; now apply TablesKept|]. apply bind_ok_inv in H as (u & Hu & H). injection H as <- <-.
    apply TablesFinalized; [reflexivity|reflexivity|]. right. now destruct (been_handshaked_users s !! a); [injection Hu as ->|].
  - apply bind_ok_inv in H as (b & _ & H). injection H as <- <-. apply TablesKept; [|auto..]. intros u p. repeat case_match; discriminate.
Qed.

Lemma delete_shrinks u o (s : S) : (forall t u', waits (delete_user u o s) t u' -> waits s t u') /\ (forall a u', located (delete_user u o s) a u' -> located s a u').
Proof using Type.
  unfold delete_user, waits, located. split; destruct (identity_token_map s !! u), o; cbn; intros x y Hx;
    repeat match goal with
      | Hx : _ \/ _ |- _ => destruct Hx as [Hx|Hx]
      | Hx : delete _ _ !! _ = Some _ |- _ => apply lookup_delete_Some in Hx as [_ Hx]
      | Hx : filter _ _ !! _ = Some _ |- _ => apply map_lookup_filter_Some in Hx as [Hx _]
      end; auto.
Qed.

#[export] Instance advanced_laws : @HandshakerLaws A S (advanced_handshaker sign verify from_utf8_lossy).
Proof using Type iA.
  refine (@Build_HandshakerLaws A S (advanced_handshaker sign verify from_utf8_lossy) advanced_ok advanced_pending _ _ _ _ _ _ _ _ _ _ _); cbn.
  - intros p. split; unfold waits, located; cbn; intros ? ? ? H; rewrite ?lookup_empty in H; try discriminate; now destruct H.
  - intros p a u [[t H]|[H|H]]; unfold waits in H; cbn in H; now rewrite lookup_empty in H.
  - intros p. split; unfold waits, located; cbn; intros ? ? ? H; rewrite ?lookup_empty in H; try discriminate; now destruct H.
  - intros p a u [[t H]|[H|H]]; unfold waits in H; cbn in H; now rewrite lookup_empty in H.
  - intros token u h [H1 H2 H3] Hn. split; unfold waits, located; cbn.
    + intros t t' u' [[<- <-]|[_ W1]]%lookup_insert_Some [[<- E]|[_ W2]]%lookup_insert_Some; eauto.
      * destruct (Hn inhabitant). left. now exists t'.
      * subst u'. destruct (Hn inhabitant). left. now exists t.
    + intros t a u' [[<- <-]|[_ W1]]%lookup_insert_Some L; [apply (Hn a); now right|exact (H2 t a u' W1 L)].
    + exact H3.
  - intros token u h a u' [[t H]|H]; [|right; now right]. unfold waits in H. cbn in H. apply lookup_insert_Some in H as [[_ <-]|[_ H]]; [now left|right; left; now exists t].
  - intros u o h Hok. destruct (delete_shrinks u o h). now apply (advanced_shrinks h).
  - intros u o h a u' [[t H]|H]; [left; exists t|right]; now apply (delete_shrinks u o h).
  - intros a r hc h action h' Hok H. apply advanced_outcome in H. destruct H as [action _ Hw Hl|t u action _ Ht Hw Hl|u p _ -> _]; [now apply (advanced_shrinks h)|eapply (advanced_identifies h); eauto|exact Hok].
  - intros a r hc h action h' a' u Hok H. apply advanced_outcome in H. destruct H as [action _ Hw Hl|t u0 action _ Ht Hw Hl|u0 p _ -> _]; [| |auto].
    + intros [[t H]|H]; [left; exists t; auto|right; auto].
    + intros [[t' H]|H]; [left; exists t'; now apply Hw|]. apply Hl in H as [[-> ->]|H]; [left; now exists t|now right].
  - intros a r hc h u packet h' [H1 H2 H3] H. apply advanced_outcome in H. inversion H as [? Hn|? ? ? Hn|u0 p Hc -> Hl]; subst; [now destruct (Hn u packet)..|]. split; [reflexivity|]. split; [now right|].
    intros a' [[t W]|L]; [destruct (H2 t a u W Hl)|eauto].
Defined.
End Advanced.

(** * Users and addresses *)
Section Main.
Context {A H M : Type} {eqA : EqDecision A} {cA : Countable A} {handshaker : Handshaker A H} {laws : HandshakerLaws A H}.
Context (send_fails : A -> bool) (read_auth : BitReader -> res M) (message_kind : M -> Z).
Abbreviation Server := (@MainServer.MainServer A H M eqA cA).
Abbreviation User := (@MainUser A).
Abbreviation receive_ := (receive read_auth message_kind).

Inductive main_call :=
| Listen
| Accept (token : IdentityToken) (u : UserKey)
| Reject (u : UserKey)
| Kick (u : UserKey)
| Receive (now : Z) (auth_inputs : list (option (A * list Z * IdentityToken))) (packets : list (option (A * list Z)))
| Reset.

Definition run_main (c : main_call) (s : Server) : res Server :=
  match c with
  | Listen => listen s
  | Accept token u => accept_connection token u s
  | Reject u => reject_connection u s
  | Kick u => disconnect_user send_fails u s
  | Receive now auth_inputs packets => '(_, s) ← receive_ now auth_inputs packets s; Ok s
  | Reset => Ok (reset_all s)
  end.

Record main_ok (s : Server) : Prop := {
  mo_users : bigmap_ok s.(users);
  mo_manager : hs_ok s.(handshake_manager);
  mo_connected : forall a u, s.(user_connections) !! a = Some u <-> user_address u s = Some a;
  mo_one_place : forall a a' u, user_address u s = Some a -> pending s.(handshake_manager) a' u -> a' = a;
  mo_unanswered : forall u user, bm_inner s.(users) !! u = Some user -> auth_addr user <> None -> data_addr user = None /\ forall a, ~ pending s.(handshake_manager) a u;
  mo_issued : forall a u, pending s.(handshake_manager) a u -> 0 <= u < current_index s.(users)
}.

Lemma user_address_Some u a (s : Server) : user_address u s = Some a <-> exists user, bm_inner s.(users) !! u = Some user /\ data_addr user = Some a.
Proof using Type.
  unfold user_address, BigMap_get. destruct (bm_inner (users s) !! u) as [user|]; cbn; split; [intros E; now exists user|intros (x & [= <-] & E); exact E|discriminate|intros (x & E & _); discriminate].
Qed.

(** Only these parts of the state matter. *)
Definition same_core (s s' : Server) : Prop :=
  s'.(users) = s.(users) /\ s'.(user_connections) = s.(user_connections) /\ s'.(handshake_manager) = s.(handshake_manager).
Lemma same_core_ok (s s' : Server) : same_core s s' -> main_ok s -> main_ok s'.
Proof using Type.
  intros (E1 & E2 & E3) [H1 H2 H3 H4 H5 H6]. assert (forall u, user_address u s' = user_address u s) as E by (intros u; unfold user_address; now rewrite E1).
  split; rewrite ?E1, ?E2, ?E3; try assumption; [intros a u; rewrite E; apply H3|intros a a' u; rewrite E; apply H4].
Qed.

(** The handshake manager moves on, without a new pending user. *)
Lemma manager_ok h (s : Server) : main_ok s -> hs_ok h -> (forall a u, pending h a u -> pending s.(handshake_manager) a u) -> main_ok (with_manager h s).
Proof using Type.
  intros [H1 H2 H3 H4 H5 H6] Hh Hp. split; [exact H1|exact Hh|exact H3|intros a a' u Hx Hq; exact (H4 a a' u Hx (Hp a' u Hq))| |intros a u Hq; exact (H6 a u (Hp a u Hq))].
  intros u user Hu Hn. destruct (H5 u user Hu Hn) as [E Hnp]. split; [exact E|]. intros a Ha. exact (Hnp a (Hp a u Ha)).
Qed.

(** A user whose authentication is answered. *)
Lemma authenticated_ok token u user addr (s : Server) : main_ok s -> bm_inner s.(users) !! u = Some user -> auth_addr user = Some addr ->
  main_ok (with_manager (hs_authenticate_user token u s.(handshake_manager)) (with_users (BigMap_set u (mkMainUser None (data_addr user) (created_at user)) s.(users)) s)).
Proof using Type.
  intros [H1 H2 H3 H4 H5 H6] Hu Ha. destruct (H5 u user Hu ltac:(congruence)) as [Hd Hnp].
  assert (forall u', user_address u' (with_manager (hs_authenticate_user token u s.(handshake_manager)) (with_users (BigMap_set u (mkMainUser None (data_addr user) (created_at user)) s.(users)) s)) = user_address u' s) as Haddr.
  { intros u'. unfold user_address, BigMap_get. cbn. destruct (decide (u' = u)) as [->|Hne]; [now rewrite lookup_insert_eq, Hu|now rewrite lookup_insert_ne by congruence]. }
  split.
  - now apply (bigmap_set_ok u _ user).
  - now apply authenticate_ok.
  - intros a u'. rewrite Haddr. apply H3.
  - intros a a' u'. rewrite Haddr. cbn. intros Hx [->|Hp]%authenticate_pending; [|eauto]. apply user_address_Some in Hx as (x & Ex & Ed). congruence.
  - cbn. intros u' user' [[<- <-]|[Hne Hu']]%lookup_insert_Some Hn; [now destruct Hn|]. destruct (H5 u' user' Hu' Hn) as [E Hnp']. split; [exact E|].
    intros a [->|Hp]%authenticate_pending; [congruence|exact (Hnp' a Hp)].
  - cbn. intros a u' [->|Hp]%authenticate_pending; [exact (proj2 H1 u user Hu)|eauto].
Qed.

Lemma accept_main token u (s s' : Server) : accept_connection token u s = Ok s' -> main_ok s -> main_ok s'.
Proof using Type.
  unfold accept_connection, BigMap_get. destruct (bm_inner (users s) !! u) as [user|] eqn:Hu; [|intros [= <-]; auto]. intros E Hok. apply bind_ok_inv in E as ([addr user'] & Ht & E).
  unfold take_auth_address in Ht. destruct (auth_addr user) as [x|] eqn:Ha; [|discriminate]. cbn in Ht. injection Ht as <- <-. cbn zeta in E.
  destruct (listening _); [|discriminate]. injection E as <-. eapply same_core_ok; [|exact (authenticated_ok token u user x s Hok Hu Ha)]. now split.
Qed.

Lemma delete_main u (s s' : Server) : user_delete u s = Ok s' -> main_ok s -> main_ok s'.
Proof using Type.
  unfold user_delete, BigMap_remove. intros E [H1 H2 H3 H4 H5 H6]. apply bind_ok_inv in E as (user & Hu & E). destruct (bm_inner (users s) !! u) as [user0|] eqn:Hu0; [|discriminate]. injection Hu as ->.
  assert (users s' = mkBigMap (delete u (bm_inner (users s))) (current_index (users s)) /\ handshake_manager s' = hs_delete_user u (data_addr user) s.(handshake_manager) /\
    forall a, user_connections s' !! a = if decide (data_addr user = Some a) then None else user_connections s !! a) as (E1 & E2 & E3).
  { cbn zeta in E. destruct (data_addr user) as [x|] eqn:Hx; injection E as <-; cbn; (split; [reflexivity|split; [reflexivity|]]); intros a; case_decide as Hd.
    - injection Hd as ->. apply lookup_delete_eq.
    - apply lookup_delete_ne. congruence.
    - discriminate.
    - reflexivity. }
  assert (forall u', user_address u' s' = if decide (u' = u) then None else user_address u' s) as Haddr.
  { intros u'. unfold user_address, BigMap_get. rewrite E1. cbn. case_decide as Hd; [subst; now rewrite lookup_delete_eq|now rewrite lookup_delete_ne by congruence]. }
  split.
  - rewrite E1. exact (bigmap_remove_ok u s.(users) H1).
  - rewrite E2. now apply delete_ok.
  - intros a u'. rewrite E3, Haddr. case_decide as Hd; case_decide as Hd'; [easy| |subst|apply H3].
    + split; [discriminate|]. intros Hx%H3. assert (user_connections s !! a = Some u) as Hx' by (apply H3; unfold user_address, BigMap_get; now rewrite Hu0). congruence.
    + split; [|discriminate]. intros Hx%H3. unfold user_address, BigMap_get in Hx. rewrite Hu0 in Hx. now destruct Hd.
  - intros a a' u'. rewrite Haddr, E2. case_decide; [discriminate|]. intros Hx Hp%delete_pending. eauto.
  - rewrite E1, E2. cbn. intros u' user' [_ Hu']%lookup_delete_Some Hn. destruct (H5 u' user' Hu' Hn) as [E4 Hnp]. split; [exact E4|]. intros a Hp%delete_pending. exact (Hnp a Hp).
  - rewrite E1, E2. cbn. intros a u' Hp%delete_pending. eauto.
Qed.

(** ** Within one receive *)
(** Addresses stay, and a new one was pending; nobody new is pending. *)
Record moved (s s' : Server) : Prop := {
  mv_keeps : forall u a, user_address u s = Some a -> user_address u s' = Some a;
  mv_new : forall u a, user_address u s' = Some a -> user_address u s = Some a \/ pending s.(handshake_manager) a u \/ s.(require_auth) = false;
  mv_pending : forall a u, pending s'.(handshake_manager) a u -> pending s.(handshake_manager) a u \/ s.(require_auth) = false;
  mv_config : s'.(require_auth) = s.(require_auth)
}.
Lemma moved_refl s : moved s s.
Proof using Type. split; auto. Qed.

Definition events_ok (e : @MainEvents A M) (s : Server) : Prop :=
  (forall u, u ∈ e.(connections) -> exists a, user_address u s = Some a) /\ (forall u a p, (u, a, p) ∈ e.(world_packets) -> user_address u s = Some a).
Lemma events_moved e (s s' : Server) : (forall u a, user_address u s = Some a -> user_address u s' = Some a) -> events_ok e s -> events_ok e s'.
Proof using Type. intros Hk [H1 H2]. split; [intros u Hu; destruct (H1 u Hu) as [a Ha]; eauto|intros u a p Hu; eauto]. Qed.

Definition step_ok (s s' : Server) : Prop := main_ok s' /\ events_ok s'.(incoming_events) s' /\ moved s s'.

(** The server says or notes something. *)
Lemma noted_step (s s' : Server) : main_ok s -> events_ok s'.(incoming_events) s -> same_core s s' -> s'.(require_auth) = s.(require_auth) -> step_ok s s'.
Proof using Type.
  intros Hok He Hc Hr. assert (forall u, user_address u s' = user_address u s) as E by (intros u; unfold user_address; now rewrite (proj1 Hc)).
  split; [now apply (same_core_ok s)|]. split; [apply (events_moved _ s); [intros u a; now rewrite E|exact He]|].
  split; [intros u a; now rewrite E|intros u a; rewrite E; auto|rewrite (proj2 (proj2 Hc)); auto|exact Hr].
Qed.

Lemma world_packet_ok u a payload (s : Server) e : events_ok e s -> user_address u s = Some a -> events_ok (push_world_packet u a payload e) s.
Proof using Type.
  intros [H1 H2] Ha. split; [exact H1|]. cbn. intros u' a' p [Hx|Hx]%elem_of_app; [eauto|]. apply list_elem_of_singleton in Hx. injection Hx as -> -> ->. exact Ha.
Qed.

Lemma to_world_step a payload (s : Server) : main_ok s -> events_ok s.(incoming_events) s -> step_ok s (to_world a payload s).
Proof using Type.
  intros Hok He. unfold to_world. destruct (user_connections s !! a) as [u|] eqn:Hu; [|split; [exact Hok|split; [exact He|apply moved_refl]]].
  apply noted_step; [exact Hok| |now split|reflexivity]. apply world_packet_ok; [exact He|]. now apply (mo_connected s Hok).
Qed.

(** A user finalized at an address without a connection is known nowhere else. *)
Lemma finalize_step a u (s : Server) h : main_ok s -> events_ok s.(incoming_events) s -> hs_ok h -> (forall a' u', pending h a' u' -> pending s.(handshake_manager) a' u') ->
  s.(user_connections) !! a = None -> pending s.(handshake_manager) a u -> (forall a', pending h a' u -> a' = a) ->
  step_ok s (finalize_connection u a (with_manager h s)).
Proof using Type.
  intros Hok He Hh Hp Hfree Hu Hone. unfold finalize_connection, BigMap_get. cbn [users with_manager]. destruct (bm_inner (users s) !! u) as [user|] eqn:Hus.
  2: { split; [now apply manager_ok|]. split; [exact He|]. split; auto. }
  assert (data_addr user = None) as Hnone.
  { destruct (data_addr user) as [a0|] eqn:Hd; [|reflexivity]. assert (user_address u s = Some a0) as Hx by (apply user_address_Some; eauto). pose proof (mo_one_place s Hok a0 a u Hx Hu). subst a0.
    apply (mo_connected s Hok) in Hx. congruence. }
  cbn zeta. match goal with |- step_ok s ?x => set (s1 := x) end.
  assert (forall u', user_address u' s1 = if decide (u' = u) then Some a else user_address u' s) as Haddr.
  { intros u'. unfold user_address, BigMap_get, s1. cbn. case_decide as Hd; [subst; now rewrite lookup_insert_eq|now rewrite lookup_insert_ne by congruence]. }
  assert (forall a', user_address u s = Some a' -> False) as Hnew by (intros a' Hx; apply user_address_Some in Hx as (x & Ex & Ed); congruence).
  assert (forall u' a', user_address u' s = Some a' -> user_address u' s1 = Some a') as Hkeep by (intros u' a' Hx; rewrite Haddr; case_decide; [subst; now destruct (Hnew a')|exact Hx]).
  destruct Hok as [H1 H2 H3 H4 H5 H6]. split; [split|split].
  - now apply (bigmap_set_ok u _ user).
  - exact Hh.
  - intros a' u'. rewrite Haddr. unfold s1. cbn. rewrite lookup_insert_Some. case_decide as Hd.
    + subst u'. split; [intros [[<- _]|[_ Hx%H3]]; [reflexivity|now destruct (Hnew a')]|]. intros [= <-]. now left.
    + rewrite H3. split; [intros [[_ ?]|[_ Hx]]; [congruence|exact Hx]|]. intros Hx. right. split; [|exact Hx]. intros ->. apply H3 in Hx. congruence.
  - intros a1 a2 u'. rewrite Haddr. unfold s1. cbn. case_decide as Hd; [|intros Hx Hq; exact (H4 a1 a2 u' Hx (Hp a2 u' Hq))]. subst u'. intros [= <-]. apply Hone.
  - unfold s1. cbn. intros u' user' [[<- <-]|[_ Hu']]%lookup_insert_Some Hn.
    + cbn in Hn. destruct (H5 u user Hus Hn) as [_ Hnp]. now destruct (Hnp a).
    + destruct (H5 u' user' Hu' Hn) as [E Hnp]. split; [exact E|]. intros a' Hq. exact (Hnp a' (Hp a' u' Hq)).
  - unfold s1. cbn. intros a' u' Hq. exact (H6 a' u' (Hp a' u' Hq)).
  - destruct He as [E1 E2]. split; unfold s1 at 1; cbn.
    + intros u' [Hx|Hx]%elem_of_app; [destruct (E1 u' Hx) as [a' Ha']; eauto|]. apply list_elem_of_singleton in Hx. subst u'. exists a. rewrite Haddr. now case_decide.
    + intros u' a' p Hx. eauto.
  - split; [exact Hkeep| |unfold s1; cbn; auto|reflexivity]. intros u' a'. rewrite Haddr. case_decide as Hd; [|now left]. intros [= <-]. subst u'. right. now left.
Qed.

Lemma moved_trans s1 s2 s3 : moved s1 s2 -> moved s2 s3 -> moved s1 s3.
Proof using Type.
  intros [A1 A2 A3 A4] [B1 B2 B3 B4]. split.
  - eauto.
  - intros u a [Hx|[Hx|Hx]]%B2; [auto| |right; right; congruence]. apply A3 in Hx as [Hx|Hx]; auto.
  - intros a u [Hx|Hx]%B3; [auto|right; congruence].
  - congruence.
Qed.

Lemma steps_ok {X} (f : X -> Server -> res Server) l : (forall x s s', main_ok s -> events_ok s.(incoming_events) s -> f x s = Ok s' -> step_ok s s') ->
  forall s s', main_ok s -> events_ok s.(incoming_events) s -> foldM f l s = Ok s' -> step_ok s s'.
Proof using Type.
  intros Hf. induction l as [|x l IH]; intros s s' Hok He E; [injection E as <-; split; [exact Hok|split; [exact He|apply moved_refl]]|].
  cbn [foldM] in E. apply bind_ok_inv in E as (s1 & E1 & E). destruct (Hf x s s1 Hok He E1) as (Hok1 & He1 & Hm1). destruct (IH s1 s' Hok1 He1 E) as (Hok2 & He2 & Hm2).
  split; [exact Hok2|]. split; [exact He2|]. now apply (moved_trans s s1 s').
Qed.

Lemma packet_step_ok input (s s' : Server) : main_ok s -> events_ok s.(incoming_events) s -> packet_step input s = Ok s' -> step_ok s s'.
Proof using Type.
  intros Hok He E. assert (step_ok s s) as Hrefl by (split; [exact Hok|split; [exact He|apply moved_refl]]).
  destruct input as [[a payload]|]; cbn [packet_step] in E; [|injection E as <-; now apply noted_step].
  apply bind_ok_inv in E as ([[header r]|] & _ & E); [|now injection E as <-]. destruct (packet_type header); try (injection E as <-; now apply to_world_step).
  unfold handshake_packet in E. destruct (hs_maintain_handshake _ _ _ _) as [[action h]| | |] eqn:Hm; try discriminate; [|now injection E as <-]. injection E as <-.
  pose proof (mo_manager s Hok) as Hh. pose proof (maintain_ok _ _ _ _ _ _ Hh Hm) as Hh'. pose proof (fun a' u' => maintain_pending _ _ _ _ _ _ a' u' Hh Hm) as Hp.
  assert (main_ok (with_manager h s)) as Hok' by now apply manager_ok.
  assert (moved s (with_manager h s)) as Hmv by (split; cbn; auto).
  destruct action as [|u packet|packet| |u]; cbn [perform].
  - split; [exact Hok'|split; [exact He|exact Hmv]].
  - destruct (maintain_finalizes _ _ _ _ _ _ _ Hh Hm) as (Hfree & Hu & Hone). apply bool_decide_eq_false, eq_None_not_Some in Hfree.
    destruct (finalize_step a u s h Hok He Hh' Hp Hfree Hu Hone) as (F1 & F2 & F3).
    match goal with |- step_ok s (send_packet a packet ?x) => destruct (noted_step x (send_packet a packet x) F1 F2) as (G1 & G2 & G3); [now split|reflexivity|] end.
    split; [exact G1|]. split; [exact G2|]. eapply moved_trans; eassumption.
  - destruct (noted_step (with_manager h s) (send_packet a packet (with_manager h s)) Hok' He) as (G1 & G2 & G3); [now split|reflexivity|]. split; [exact G1|]. split; [exact G2|]. eapply moved_trans; eassumption.
  - destruct (to_world_step a payload (with_manager h s) Hok' He) as (G1 & G2 & G3). split; [exact G1|]. split; [exact G2|]. eapply moved_trans; eassumption.
  - destruct (noted_step (with_manager h s) (with_events (push_queued_disconnect u) (with_manager h s)) Hok' He) as (G1 & G2 & G3); [now split|reflexivity|]. split; [exact G1|]. split; [exact G2|]. eapply moved_trans; eassumption.
Qed.

(** A user arrives. *)
Lemma insert_user_ok addr now us u (s : Server) : main_ok s -> BigMap_insert (MainUser_new addr now) s.(users) = Ok (u, us) ->
  main_ok (with_users us s) /\ bm_inner us !! u = Some (MainUser_new addr now) /\ forall u', user_address u' (with_users us s) = user_address u' s.
Proof using Type.
  intros [H1 H2 H3 H4 H5 H6] E. assert (current_index s.(users) < 2 ^ 64 - 1) as Hlt.
  { unfold BigMap_insert in E. destruct (current_index (users s) =? 2 ^ 64 - 1) eqn:Hq; [discriminate|]. apply Z.eqb_neq in Hq. destruct H1 as [[? ?] _]. lia. }
  destruct (bigmap_insert_ok (MainUser_new addr now) s.(users) H1 Hlt) as (m & Em & Hm & Hn & Hc & Hi). rewrite Em in E. injection E as <- <-.
  assert (forall u', user_address u' (with_users m s) = user_address u' s) as Haddr.
  { intros u'. unfold user_address, BigMap_get. cbn. rewrite Hi. destruct (decide (u' = current_index (users s))) as [->|Hne]; [now rewrite lookup_insert_eq, Hn|now rewrite lookup_insert_ne by congruence]. }
  split; [|split; [rewrite Hi; apply lookup_insert_eq|exact Haddr]]. split.
  - exact Hm.
  - exact H2.
  - intros a u'. rewrite Haddr. apply H3.
  - intros a a' u'. rewrite Haddr. apply H4.
  - cbn. rewrite Hi. intros u' user' [[<- <-]|[_ Hu']]%lookup_insert_Some Hx; [|eauto]. split; [reflexivity|]. intros a Hp. apply H6 in Hp. lia.
  - cbn. rewrite Hc. intros a u' Hp. apply H6 in Hp. lia.
Qed.

Lemma auth_step_ok now input (s s' : Server) : main_ok s -> events_ok s.(incoming_events) s -> auth_step read_auth message_kind now input s = Ok s' -> step_ok s s'.
Proof using Type.
  intros Hok He E. destruct input as [[[addr bytes] token]|]; cbn [auth_step] in E; [|injection E as <-; now apply noted_step].
  apply bind_ok_inv in E as ([u us] & Ei & E). destruct (insert_user_ok addr now us u s Hok Ei) as (Hok1 & Hu & Haddr). cbn zeta in E.
  assert (step_ok s (with_users us s)) as H1.
  { split; [exact Hok1|]. split; [apply (events_moved _ s); [intros u' a; now rewrite Haddr|exact He]|]. split; [intros u' a; now rewrite Haddr|intros u' a; rewrite Haddr; auto|auto|reflexivity]. }
  destruct (require_auth (with_users us s)) eqn:Hr.
  - apply bind_ok_inv in E as (o & _ & E). injection E as <-. destruct o as [m|]; [|exact H1]. destruct H1 as (G1 & G2 & G3).
    destruct (noted_step (with_users us s) (with_events (push_auth message_kind u m) (with_users us s)) G1) as (K1 & K2 & K3); [exact G2|now split|reflexivity|].
    split; [exact K1|split; [exact K2|]]. eapply moved_trans; eassumption.
  - apply bind_ok_inv in E as (user & Eu & E). unfold BigMap_get in Eu. cbn [users with_users] in Eu. rewrite Hu in Eu. injection Eu as <-. cbn in E. injection E as <-.
    pose proof (authenticated_ok token u (MainUser_new addr now) addr (with_users us s) Hok1 Hu eq_refl) as Hok2.
    match type of Hok2 with main_ok ?x => assert (forall u', user_address u' x = user_address u' s) as Haddr2 end.
    { intros u'. rewrite <- Haddr. unfold user_address, BigMap_get. cbn. destruct (decide (u' = u)) as [->|Hne]; [now rewrite lookup_insert_eq, Hu|now rewrite lookup_insert_ne by congruence]. }
    split; [eapply same_core_ok; [|exact Hok2]; now split|]. split; [apply (events_moved _ s); [intros u' a Hx; now rewrite <- Haddr2 in Hx|exact He]|].
    cbn in Hr. split; [intros u' a Hx; now rewrite <- Haddr2 in Hx|intros u' a Hx; left; now rewrite <- Haddr2|auto|reflexivity].
Qed.

(** ** The sweep *)
Lemma drop_ok x user (s : Server) : main_ok s -> events_ok s.(incoming_events) s -> bm_inner s.(users) !! x.1 = Some user -> data_addr user = None ->
  exists s', drop_pending x s = Ok s' /\ step_ok s s' /\ bm_inner s'.(users) = delete x.1 (bm_inner s.(users)).
Proof using Type.
  intros Hok He Hu Hd. unfold drop_pending. set (s0 := match x.2 with Some a => send_auth a None s | None => s end).
  assert (same_core s s0 /\ s0.(require_auth) = s.(require_auth) /\ s0.(incoming_events) = s.(incoming_events)) as (Hc & Hr & Hev) by (unfold s0; destruct x.2; now repeat split).
  assert (bm_inner s0.(users) !! x.1 = Some user) as Hu0 by now rewrite (proj1 Hc). set (s' := with_manager (hs_delete_user x.1 None s0.(handshake_manager)) (with_users (mkBigMap (delete x.1 (bm_inner s0.(users))) (current_index s0.(users))) s0)).
  assert (user_delete x.1 s0 = Ok s') as Edel by (unfold user_delete, BigMap_remove; rewrite Hu0; cbn; now rewrite Hd). exists s'. split; [exact Edel|].
  assert (forall u, user_address u s' = user_address u s) as Haddr.
  { intros u. unfold user_address, BigMap_get. cbn. rewrite (proj1 Hc). destruct (decide (u = x.1)) as [->|Hne]; [rewrite lookup_delete_eq, Hu; cbn; now rewrite Hd|now rewrite lookup_delete_ne by congruence]. }
  split; [|cbn; now rewrite (proj1 Hc)]. split; [|split].
  - exact (delete_main x.1 s0 s' Edel (same_core_ok s s0 Hc Hok)).
  - replace (incoming_events s') with (incoming_events s) by (symmetry; exact Hev). apply (events_moved _ s); [intros u a; now rewrite Haddr|exact He].
  - split; [intros u a; now rewrite Haddr|intros u a; rewrite Haddr; auto| |exact Hr]. cbn. rewrite (proj2 (proj2 Hc)). intros a u Hp%delete_pending. auto.
Qed.

Lemma sweep_ok l (s : Server) : main_ok s -> events_ok s.(incoming_events) s -> NoDup l.*1 ->
  (forall x, x ∈ l -> exists user, bm_inner s.(users) !! x.1 = Some user /\ data_addr user = None) ->
  exists s', foldM drop_pending l s = Ok s' /\ step_ok s s'.
Proof using Type.
  revert s. induction l as [|x l IH]; intros s Hok He Hnd Hin.
  - exists s. split; [reflexivity|]. split; [exact Hok|split; [exact He|apply moved_refl]].
  - cbn in Hnd. apply NoDup_cons in Hnd as [Hx Hnd]. destruct (Hin x ltac:(apply elem_of_cons; now left)) as (user & Hu & Hd).
    destruct (drop_ok x user s Hok He Hu Hd) as (s1 & E1 & (Hok1 & He1 & Hm1) & Hus). destruct (IH s1 Hok1 He1 Hnd) as (s' & E & (G1 & G2 & G3)).
    + intros y Hy. destruct (Hin y ltac:(apply elem_of_cons; now right)) as (user' & Hu' & Hd'). exists user'. split; [|exact Hd']. rewrite Hus, lookup_delete_ne; [exact Hu'|].
      intros Heq. apply Hx. rewrite Heq. now apply list_elem_of_fmap_2.
    + exists s'. cbn [foldM]. rewrite E1, bind_ok. split; [exact E|]. split; [exact G1|split; [exact G2|eapply moved_trans; eassumption]].
Qed.

Lemma timed_out_pending now (s : Server) : NoDup (timed_out now s).*1 /\ forall x, x ∈ timed_out now s -> exists user, bm_inner s.(users) !! x.1 = Some user /\ data_addr user = None.
Proof using Type.
  unfold timed_out. set (l := map_to_list (bm_inner (users s))). assert (NoDup l.*1) as Hnd by apply NoDup_fst_map_to_list.
  assert (forall x, x ∈ l -> bm_inner s.(users) !! x.1 = Some x.2) as Hl by (intros [k v] Hx; now apply elem_of_map_to_list in Hx). clearbody l. induction l as [|[u user] l IH].
  - split; [constructor|]. intros x Hx%elem_of_nil. contradiction.
  - cbn in Hnd. apply NoDup_cons in Hnd as [Hx Hnd]. destruct IH as [IH1 IH2]; [exact Hnd|intros x Hin; apply Hl, elem_of_cons; now right|]. cbn [omap list_omap].
    match goal with |- context [if ?b then _ else _] => destruct b eqn:Hb end; [|now split]. split.
    + cbn. constructor; [|exact IH1]. intros Hin. apply Hx. apply list_elem_of_fmap in Hin as ([k o] & -> & Hin). apply list_elem_of_omap in Hin as ([k' user'] & Hin & Hq).
      match type of Hq with context [if ?b then _ else _] => destruct b end; [|discriminate]. injection Hq as <- <-. now apply (list_elem_of_fmap_2 fst) in Hin.
    + intros x Hin. apply elem_of_cons in Hin as [->|Hin]; [|now apply IH2]. exists user. split; [apply (Hl (u, user)), elem_of_cons; now left|]. cbn in Hb. apply andb_true_iff in Hb as [Hb _].
      unfold has_address in Hb. destruct (data_addr user) eqn:Hd; [|reflexivity]. rewrite bool_decide_eq_true_2 in Hb by eauto. discriminate.
Qed.

Lemma maintain_socket_ok now auth_inputs packets (s s' : Server) : main_ok s -> events_ok s.(incoming_events) s ->
  maintain_socket read_auth message_kind now auth_inputs packets s = Ok s' -> step_ok s s'.
Proof using Type.
  intros Hok He E. unfold maintain_socket in E. destruct (listening s); [|discriminate]. apply bind_ok_inv in E as (s1 & E1 & E). apply bind_ok_inv in E as (s2 & E2 & E).
  destruct (steps_ok (auth_step read_auth message_kind now) auth_inputs (auth_step_ok now) s s1 Hok He E1) as (Hok1 & He1 & Hm1).
  destruct (steps_ok packet_step packets packet_step_ok s1 s2 Hok1 He1 E2) as (Hok2 & He2 & Hm2). destruct (timed_out_pending now s2) as [Hnd Hin].
  destruct (sweep_ok (timed_out now s2) s2 Hok2 He2 Hnd Hin) as (s3 & E3 & (Hok3 & He3 & Hm3)). rewrite E in E3. injection E3 as <-.
  split; [exact Hok3|]. split; [exact He3|]. eapply moved_trans; [exact Hm1|]. eapply moved_trans; eassumption.
Qed.

(** ** Every history *)
(** Calls between two receives only take away, but for an acceptance. *)
Record shrunk (s s' : Server) : Prop := {
  sh_addresses : forall u a, user_address u s' = Some a -> user_address u s = Some a;
  sh_pending : forall a u, pending s'.(handshake_manager) a u -> pending s.(handshake_manager) a u;
  sh_config : s'.(require_auth) = s.(require_auth);
  sh_events : s'.(incoming_events) = s.(incoming_events)
}.
Lemma shrunk_trans s1 s2 s3 : shrunk s1 s2 -> shrunk s2 s3 -> shrunk s1 s3.
Proof using Type. intros [A1 A2 A3 A4] [B1 B2 B3 B4]. split; eauto; congruence. Qed.
Lemma same_core_shrunk (s s' : Server) : same_core s s' -> s'.(require_auth) = s.(require_auth) -> s'.(incoming_events) = s.(incoming_events) -> shrunk s s'.
Proof using Type. intros (E1 & E2 & E3) Hr He. split; auto; [intros u a; unfold user_address; now rewrite E1|now rewrite E3]. Qed.

Lemma delete_shrunk u (s s' : Server) : user_delete u s = Ok s' -> shrunk s s'.
Proof using Type.
  unfold user_delete, BigMap_remove. intros E. apply bind_ok_inv in E as (user & _ & E). injection E as <-. split.
  - intros u' a. unfold user_address, BigMap_get. destruct (data_addr user); cbn; (destruct (decide (u' = u)) as [->|Hne]; [now rewrite lookup_delete_eq|now rewrite lookup_delete_ne by congruence]).
  - intros a u'. destruct (data_addr user); cbn; apply delete_pending.
  - now destruct (data_addr user).
  - now destruct (data_addr user).
Qed.

Lemma disconnects_core n a (s s' : Server) : send_disconnects send_fails n a s = Ok s' -> same_core s s' /\ s'.(require_auth) = s.(require_auth) /\ s'.(incoming_events) = s.(incoming_events).
Proof using Type.
  revert s. induction n as [|n IH]; intros s E; [injection E as <-; now repeat split|]. cbn [send_disconnects] in E. apply bind_ok_inv in E as (packet & _ & E). cbn zeta in E.
  destruct (send_fails a); [injection E as <-; now repeat split|]. apply IH in E as ((E1 & E2 & E3) & E4 & E5). now repeat split.
Qed.

Lemma kick_ok u (s s' : Server) : disconnect_user send_fails u s = Ok s' -> main_ok s -> main_ok s' /\ shrunk s s'.
Proof using Type.
  unfold disconnect_user. intros E Hok. apply bind_ok_inv in E as (s1 & E1 & E). assert (same_core s s1 /\ s1.(require_auth) = s.(require_auth) /\ s1.(incoming_events) = s.(incoming_events)) as (Hc & Hr & He).
  { destruct (user_address u s) as [a|]; [now apply disconnects_core in E1|injection E1 as <-; now repeat split]. }
  split; [exact (delete_main u s1 s' E (same_core_ok s s1 Hc Hok))|]. eapply shrunk_trans; [apply (same_core_shrunk s s1 Hc Hr He)|now apply (delete_shrunk u)].
Qed.

(** The address of authentication is taken from a user. *)
Lemma taken_ok u user (s : Server) : main_ok s -> bm_inner s.(users) !! u = Some user ->
  main_ok (with_users (BigMap_set u (mkMainUser None (data_addr user) (created_at user)) s.(users)) s) /\
  shrunk s (with_users (BigMap_set u (mkMainUser None (data_addr user) (created_at user)) s.(users)) s).
Proof using Type.
  intros [H1 H2 H3 H4 H5 H6] Hu. match goal with |- main_ok ?x /\ _ => set (s1 := x) end. assert (forall u', user_address u' s1 = user_address u' s) as Haddr.
  { intros u'. unfold user_address, BigMap_get. cbn. destruct (decide (u' = u)) as [->|Hne]; [now rewrite lookup_insert_eq, Hu|now rewrite lookup_insert_ne by congruence]. }
  split; [split|split; [intros u' a; now rewrite Haddr|auto|reflexivity|reflexivity]].
  - now apply (bigmap_set_ok u _ user).
  - exact H2.
  - intros a u'. rewrite Haddr. apply H3.
  - intros a a' u'. rewrite Haddr. apply H4.
  - cbn. intros u' user' [[<- <-]|[_ Hu']]%lookup_insert_Some Hn; [now destruct Hn|eauto].
  - exact H6.
Qed.

Lemma reject_ok u (s s' : Server) : reject_connection u s = Ok s' -> main_ok s -> main_ok s' /\ shrunk s s'.
Proof using Type.
  unfold reject_connection, BigMap_get. destruct (bm_inner (users s) !! u) as [user|] eqn:Hu; [|intros [= <-] Hok; split; [exact Hok|now apply same_core_shrunk]].
  intros E Hok. apply bind_ok_inv in E as ([addr user'] & Ht & E). unfold take_auth_address in Ht. destruct (auth_addr user) as [a0|] eqn:Ha; [|discriminate]. cbn in Ht. injection Ht as <- <-. cbn zeta in E.
  destruct (listening _); [|discriminate]. destruct (taken_ok u user s Hok Hu) as [Hok1 Hs1].
  match type of Hok1 with main_ok ?x => assert (main_ok (send_auth a0 None x)) as Hok2 by (apply (same_core_ok x); [now split|exact Hok1]); assert (shrunk x (send_auth a0 None x)) as Hs2 by now apply same_core_shrunk end.
  split; [exact (delete_main u _ s' E Hok2)|]. eapply shrunk_trans; [exact Hs1|]. eapply shrunk_trans; [exact Hs2|exact (delete_shrunk u _ s' E)].
Qed.

Lemma new_main_ok required timeout p : main_ok (MainServer_new required timeout p).
Proof using Type.
  split; cbn.
  - apply bigmap_new_ok.
  - apply new_ok.
  - intros a u. unfold user_address, BigMap_get. cbn. rewrite !lookup_empty. easy.
  - intros a a' u. unfold user_address, BigMap_get. cbn. now rewrite lookup_empty.
  - intros u user. now rewrite lookup_empty.
  - intros a u Hp. now apply new_pending in Hp.
Qed.
Lemma reset_main_ok (s : Server) : main_ok (reset_all s).
Proof using Type.
  split; cbn.
  - apply bigmap_new_ok.
  - apply reset_ok.
  - intros a u. unfold user_address, BigMap_get. cbn. rewrite !lookup_empty. easy.
  - intros a a' u. unfold user_address, BigMap_get. cbn. now rewrite lookup_empty.
  - intros u user. now rewrite lookup_empty.
  - intros a u Hp. now apply reset_pending in Hp.
Qed.

Lemma receive_ok now auth_inputs packets (s s' : Server) e : main_ok s -> s.(incoming_events) = MainEvents_default -> receive_ now auth_inputs packets s = Ok (e, s') ->
  main_ok s' /\ events_ok e s' /\ moved s s' /\ s'.(incoming_events) = MainEvents_default.
Proof using Type.
  intros Hok He E. unfold receive in E. apply bind_ok_inv in E as (s1 & E1 & E). injection E as <- <-.
  assert (events_ok s.(incoming_events) s) as Hev by (rewrite He; split; [intros u Hu%elem_of_nil|intros u a q Hu%elem_of_nil]; contradiction).
  destruct (maintain_socket_ok now auth_inputs packets s s1 Hok Hev E1) as (G1 & G2 & [M1 M2 M3 M4]). split; [apply (same_core_ok s1); [now split|exact G1]|]. split; [exact G2|].
  split; [|reflexivity]. now split.
Qed.

(** The application accepted the user while it was waiting for that, and the server has not been
    reset since. *)
Definition accepted (start : Server) (history : list main_call) (u : UserKey) : Prop :=
  exists token before after s0 user, history = before ++ (Accept token u :: after) /\ (Reset ∉ after) /\ foldM run_main before start = Ok s0 /\
    bm_inner s0.(users) !! u = Some user /\ auth_addr user <> None.
Lemma accepted_more start history c u : c <> Reset -> accepted start history u -> accepted start (history ++ [c]) u.
Proof using Type.
  intros Hc (token & before & after & s0 & user & -> & Hr & Hrest). exists token, before, (after ++ [c]), s0, user. split; [now rewrite <- app_assoc|]. split; [|exact Hrest].
  intros [Hx|Hx]%elem_of_app; [contradiction|]. apply list_elem_of_singleton in Hx. congruence.
Qed.

Record history_ok (start : Server) (history : list main_call) (s : Server) : Prop := {
  ho_main : main_ok s;
  ho_quiet : s.(incoming_events) = MainEvents_default;
  ho_config : s.(require_auth) = start.(require_auth);
  ho_accepted : start.(require_auth) = true -> forall u a, user_address u s = Some a \/ pending s.(handshake_manager) a u -> accepted start history u
}.

Lemma shrunk_history start history c (s s' : Server) : c <> Reset -> history_ok start history s -> main_ok s' -> shrunk s s' -> history_ok start (history ++ [c]) s'.
Proof using Type.
  intros Hc [H1 H2 H3 H4] Hok [S1 S2 S3 S4]. split; [exact Hok|congruence|congruence|]. intros Hr u a Hx. apply accepted_more; [exact Hc|]. apply (H4 Hr u a). destruct Hx; auto.
Qed.

Lemma accept_history start history token u (s s' : Server) : foldM run_main history start = Ok s -> history_ok start history s -> accept_connection token u s = Ok s' ->
  history_ok start (history ++ [Accept token u]) s'.
Proof using Type.
  intros Hrun Hh E. pose proof (accept_main token u s s' E (ho_main _ _ _ Hh)) as Hok. unfold accept_connection, BigMap_get in E.
  destruct (bm_inner (users s) !! u) as [user|] eqn:Hu; [|injection E as <-; apply (shrunk_history start history (Accept token u) s s); [discriminate|exact Hh|exact Hok|now apply same_core_shrunk]].
  apply bind_ok_inv in E as ([addr user'] & Ht & E). unfold take_auth_address in Ht. destruct (auth_addr user) as [a0|] eqn:Ha; [|discriminate]. cbn in Ht. injection Ht as <- <-. cbn zeta in E.
  destruct (listening _); [|discriminate]. injection E as <-. destruct Hh as [H1 H2 H3 H4]. destruct (taken_ok u user s H1 Hu) as [_ [T1 _ _ _]]. split; [exact Hok|exact H2|exact H3|].
  intros Hr u' a Hx. assert (u' = u \/ user_address u' s = Some a \/ pending s.(handshake_manager) a u') as [->|Hx'].
  { destruct Hx as [Hx|Hx]; [right; left; now apply T1|]. cbn in Hx. apply authenticate_pending in Hx as [->|Hx]; auto. }
  - exists token, history, [], s, user. split; [reflexivity|]. split; [apply not_elem_of_nil|]. split; [exact Hrun|]. split; [exact Hu|congruence].
  - apply accepted_more; [discriminate|]. now apply (H4 Hr u' a).
Qed.

Lemma run_history required timeout p history s : foldM run_main history (MainServer_new required timeout p) = Ok s -> history_ok (MainServer_new required timeout p) history s.
Proof using Type.
  revert s. induction history as [|c history IH] using rev_ind; intros s E.
  - injection E as <-. split; [apply new_main_ok|reflexivity|reflexivity|]. intros _ u a [Hx|Hx].
    + unfold user_address, BigMap_get in Hx. cbn in Hx. now rewrite lookup_empty in Hx.
    + cbn in Hx. now apply new_pending in Hx.
  - rewrite foldM_app in E. apply bind_ok_inv in E as (s1 & E1 & E). pose proof (IH s1 E1) as Hh. cbn [foldM] in E. apply bind_ok_inv in E as (s2 & E2 & E). injection E as <-.
    destruct c as [|token u|u|u|now auth_inputs packets|]; cbn [run_main] in E2.
    + unfold listen in E2. destruct (listening s1); [discriminate|]. injection E2 as <-. apply (shrunk_history _ history Listen s1); [discriminate|exact Hh| |now apply same_core_shrunk].
      apply (same_core_ok s1); [now split|exact (ho_main _ _ _ Hh)].
    + exact (accept_history _ history token u s1 s2 E1 Hh E2).
    + destruct (reject_ok u s1 s2 E2 (ho_main _ _ _ Hh)). now apply (shrunk_history _ history (Reject u) s1).
    + destruct (kick_ok u s1 s2 E2 (ho_main _ _ _ Hh)). now apply (shrunk_history _ history (Kick u) s1).
    + apply bind_ok_inv in E2 as ([e s3] & E2 & E3). injection E3 as <-. destruct Hh as [H1 H2 H3 H4]. destruct (receive_ok now auth_inputs packets s1 s3 e H1 H2 E2) as (G1 & _ & [M1 M2 M3 M4] & G4).
      split; [exact G1|exact G4|congruence|]. intros Hr u a Hx. apply accepted_more; [discriminate|]. apply (H4 Hr u a). rewrite H3, Hr in *.
      destruct Hx as [[Hx|[Hx|Hx]]%M2|[Hx|Hx]%M3]; auto; discriminate.
    + injection E2 as <-. split; [apply reset_main_ok|reflexivity|exact (ho_config _ _ _ Hh)|]. intros _ u a [Hx|Hx]; [unfold user_address, BigMap_get in Hx; cbn in Hx; now rewrite lookup_empty in Hx|].
      cbn in Hx. now apply reset_pending in Hx.
Qed.

(** C25: Users and addresses mirror each other.  Whatever the application calls and whatever arrives
    on the sockets, with either handshaker, an address leads to a user exactly when it is that
    user's address; so no two users share one, every packet is attributed to the user at its
    address, and [user_keys] lists exactly the users who have an address. *)
Theorem addresses_mirror required timeout p history (s : Server) : foldM run_main history (MainServer_new required timeout p) = Ok s ->
  (forall a u, s.(user_connections) !! a = Some u <-> user_address u s = Some a) /\ (forall u, u ∈ user_keys s <-> is_Some (user_address u s)).
Proof using laws.
  intros E. apply run_history in E as [Hok _ _ _]. pose proof (mo_connected s Hok) as Hm. split; [exact Hm|]. intros u. unfold user_keys. rewrite list_elem_of_omap. split.
  - intros ([u' user] & Hin%elem_of_map_to_list & Hq). destruct (data_addr user) as [a|] eqn:Hd; [|discriminate]. cbn in Hq. case_decide; [|discriminate]. injection Hq as ->. exists a. apply user_address_Some. eauto.
  - intros [a Ha]. pose proof Ha as Hc. apply Hm in Hc. apply user_address_Some in Ha as (user & Hu & Hd). exists (u, user). split; [now apply elem_of_map_to_list|]. rewrite Hd. cbn. rewrite decide_True by eauto. reflexivity.
Qed.

(** C23: Nobody connects who was not accepted.  After any history of a server that asks the
    application ([require_auth = true]), every connection that a receive reports is that of a user whom the application has
    accepted while it was waiting; the user has an address when the receive returns, so the server
    above can ask for it, and every packet that is passed on comes from the address of its user. *)
Theorem connected_were_accepted timeout p history (s s' : Server) now auth_inputs packets e :
  foldM run_main history (MainServer_new true timeout p) = Ok s -> receive_ now auth_inputs packets s = Ok (e, s') ->
  (forall u, u ∈ e.(connections) -> accepted (MainServer_new true timeout p) history u) /\
  (forall u a payload, (u, a, payload) ∈ e.(world_packets) -> user_address u s' = Some a /\ accepted (MainServer_new true timeout p) history u) /\
  exists l, connected_addresses e s' = Ok l /\ l.*1 = e.(connections).
Proof using laws.
  intros Hrun E. apply run_history in Hrun as [H1 H2 H3 H4]. destruct (receive_ok now auth_inputs packets s s' e H1 H2 E) as (_ & [E1 E2] & [_ M2 _ _] & _).
  assert (forall u a, user_address u s' = Some a -> accepted (MainServer_new true timeout p) history u) as Hacc.
  { intros u a Hx. apply M2 in Hx. rewrite H3 in Hx. apply (H4 eq_refl u a). destruct Hx as [Hx|[Hx|Hx]]; auto. discriminate. }
  split; [intros u Hu; destruct (E1 u Hu) as [a Ha]; eauto|]. split; [intros u a q Hu; pose proof (E2 u a q Hu); eauto|].
  unfold connected_addresses. change (connections e) with ([] ++ connections e) at 2. enough (forall l0 : list (UserKey * A), exists l, foldM (fun u l => a ← unwrap (user_address u s'); Ok (l ++ [(u, a)])) e.(connections) l0 = Ok l /\ l.*1 = l0.*1 ++ e.(connections)) as Hl
    by exact (Hl []).
  clear E. induction (connections e) as [|u us IH]; intros l0; [exists l0; split; [reflexivity|now rewrite app_nil_r]|]. destruct (E1 u ltac:(apply elem_of_cons; now left)) as [a Ha].
  cbn [foldM]. rewrite Ha. cbn [unwrap]. rewrite !bind_ok. destruct (IH ltac:(intros u' Hu'; apply E1, elem_of_cons; now right) (l0 ++ [(u, a)])) as (l & Hl & Hf). exists l. split; [exact Hl|].
  rewrite Hf, fmap_app, <- app_assoc. reflexivity.
Qed.
End Main.

(** * Where the signed handshake falls short *)
Section Dropped.
Context {A M : Type} {eqA : EqDecision A} {cA : Countable A}.
Context (sign : Timestamp -> list Z) (verify : Timestamp -> list Z -> bool) (from_utf8_lossy : list Z -> IdentityToken).
Abbreviation H := (@ServerHandshake A UserKey _ _ _ _).
Abbreviation Server := (@MainServer.MainServer A H M eqA cA).
#[local] Existing Instance advanced_handshaker.
Abbreviation step := (packet_step (handshaker := advanced_handshaker sign verify from_utf8_lossy)).

(** A user without an address who is deleted stays identified at the address it used. *)
Lemma dropped_stays_identified u (h : H) : (delete_user u None h).(authenticated_and_identified_users) = h.(authenticated_and_identified_users).
Proof using Type. unfold delete_user. now destruct (identity_token_map h !! u). Qed.

Definition is_handshake (bs : list Z) (h : HandshakeHeader) (r : BitReader) : Prop :=
  exists header r1, de standard_header_serde (BitReader_new bs) = Ok (header, r1) /\ packet_type header = Handshake /\ HandshakeHeader_de r1 = Ok (h, r).

Lemma handshake_step a bs hd r (s : Server) : is_handshake bs hd r -> step (Some (a, bs)) s = handshake_packet (handshaker := advanced_handshaker sign verify from_utf8_lossy) a bs
  (match de standard_header_serde (BitReader_new bs) with Ok (_, r1) => r1 | _ => BitReader_new bs end) s.
Proof using Type. intros (header & r1 & E1 & E2 & _). cbn [packet_step]. rewrite E1. cbn [attempt]. now rewrite bind_ok, E2. Qed.

(** The handshake of an address that is identified goes on, also where its user is gone. *)
Lemma handshake_goes_on a u bs1 r1 t bs2 r2 (s : Server) :
  s.(handshake_manager).(authenticated_and_identified_users) !! a = Some u -> s.(handshake_manager).(been_handshaked_users) !! a = None ->
  cache_ok MAX_PENDING_CONNECTIONS s.(handshake_manager).(address_to_timestamp_map) ->
  BigMap_get u s.(users) = None -> s.(user_connections) !! a = None ->
  is_handshake bs1 ClientValidateRequest r1 -> timestamp_validate verify r1 = Ok (Some t) -> is_handshake bs2 ClientConnectRequest r2 ->
  exists s' p1 p2, foldM step [Some (a, bs1); Some (a, bs2)] s = Ok s' /\ write_connect_response = Ok p2 /\
    s'.(sent_packets) = s.(sent_packets) ++ [(a, p1); (a, p2)] /\ s'.(users) = s.(users) /\ s'.(user_connections) = s.(user_connections) /\ s'.(incoming_events) = s.(incoming_events).
Proof using Type.
  intros Hid Hb Hc Hu Hn V1 Vt V2. assert (exists p1, write_validate_response = Ok p1) as [p1 Hp1] by (eexists; vm_compute; reflexivity). destruct connect_response_written as [p2 Hp2].
  destruct (cache_insert_ok MAX_PENDING_CONNECTIONS a t _ ltac:(unfold MAX_PENDING_CONNECTIONS; lia) Hc) as (c & Hins & _ & _).
  cbn [foldM]. rewrite (handshake_step a bs1 _ _ s V1). destruct V1 as (hd1 & q1 & E1 & _ & D1). rewrite E1. unfold handshake_packet. cbn [hs_maintain_handshake advanced_handshaker].
  rewrite Hn. rewrite bool_decide_eq_false_2 by (intros [x Hx]; discriminate).
  assert (maintain_handshake sign verify from_utf8_lossy a q1 false s.(handshake_manager) =
    Ok (SendPacket p1, with_handshaked (<[a := u]> s.(handshake_manager).(been_handshaked_users)) (with_timestamps c s.(handshake_manager)))) as ->.
  { unfold maintain_handshake. rewrite D1, bind_ok. unfold handle_validate, recv_validate_request. rewrite Vt, bind_ok, Hins, !bind_ok. cbn [been_handshaked_users authenticated_and_identified_users with_timestamps].
    rewrite Hb, Hid. unfold user_finish_handshake. rewrite Hp1, !bind_ok. reflexivity. }
  rewrite bind_ok. rewrite (handshake_step a bs2 _ _ _ V2). destruct V2 as (hd2 & q2 & E2 & _ & D2). rewrite E2. unfold handshake_packet. cbn [hs_maintain_handshake advanced_handshaker perform user_connections send_packet with_manager handshake_manager].
  rewrite Hn. rewrite bool_decide_eq_false_2 by (intros [x Hx]; discriminate).
  match goal with |- context [maintain_handshake sign verify from_utf8_lossy a q2 false ?h] => assert (maintain_handshake sign verify from_utf8_lossy a q2 false h = Ok (FinalizeConnection u p2, h)) as -> end.
  { unfold maintain_handshake. rewrite D2, bind_ok, Hp2, bind_ok. cbn [been_handshaked_users with_handshaked]. rewrite lookup_insert_eq. reflexivity. }
  rewrite bind_ok. eexists _, p1, p2. split; [reflexivity|]. split; [exact Hp2|]. cbn [perform]. unfold finalize_connection. cbn [users with_manager send_packet]. rewrite Hu. cbn. rewrite <- app_assoc. auto.
Qed.

(** C40: A dropped user is told that it is connected.  The server drops a user whose signed
    handshake is under way (its address [a] has been identified by its token but has not validated,
    so the user has no address yet), as it does when the timeout for pending users passes.  The
    user is gone, but what remains of it lets the rest of the handshake through: the validation
    that [a] then sends is answered, and so is its connect request, as if the connection had been
    made, while the server has no user for the address and reports no connection. *)
Theorem dropped_user_told_connected a u user o bs1 r1 t bs2 r2 (s : Server) :
  BigMap_get u s.(users) = Some user -> data_addr user = None ->
  s.(handshake_manager).(authenticated_and_identified_users) !! a = Some u -> s.(handshake_manager).(been_handshaked_users) !! a = None ->
  cache_ok MAX_PENDING_CONNECTIONS s.(handshake_manager).(address_to_timestamp_map) -> s.(user_connections) !! a = None ->
  is_handshake bs1 ClientValidateRequest r1 -> timestamp_validate verify r1 = Ok (Some t) -> is_handshake bs2 ClientConnectRequest r2 ->
  exists s1 s' p1 p2, drop_pending (handshaker := advanced_handshaker sign verify from_utf8_lossy) (u, o) s = Ok s1 /\ BigMap_get u s1.(users) = None /\
    foldM step [Some (a, bs1); Some (a, bs2)] s1 = Ok s' /\ write_connect_response = Ok p2 /\
    s'.(sent_packets) = s.(sent_packets) ++ [(a, p1); (a, p2)] /\ s'.(users) = s1.(users) /\ s'.(user_connections) !! a = None /\ s'.(incoming_events) = s.(incoming_events).
Proof using Type.
  intros Hu Hd Hid Hb Hc Hn V1 Vt V2. set (s0 := match o with Some x => send_auth x None s | None => s end).
  assert (s0.(users) = s.(users) /\ s0.(user_connections) = s.(user_connections) /\ s0.(handshake_manager) = s.(handshake_manager) /\ s0.(sent_packets) = s.(sent_packets) /\ s0.(incoming_events) = s.(incoming_events)) as (E1 & E2 & E3 & E4 & E5)
    by (unfold s0; now destruct o).
  set (s1 := with_manager (delete_user u None s.(handshake_manager)) (with_users (mkBigMap (delete u (bm_inner s.(users))) (current_index s.(users))) s0)).
  assert (drop_pending (handshaker := advanced_handshaker sign verify from_utf8_lossy) (u, o) s = Ok s1) as Hdrop.
  { unfold drop_pending, user_delete. cbn [fst snd]. fold s0. unfold BigMap_remove. rewrite E1. unfold BigMap_get in Hu. rewrite Hu. cbn [unwrap]. rewrite bind_ok, Hd. cbn [hs_delete_user advanced_handshaker handshake_manager with_users]. rewrite E3. reflexivity. }
  assert (BigMap_get u s1.(users) = None) as Hgone by (cbn; unfold BigMap_get; cbn; apply lookup_delete_eq).
  destruct (handshake_goes_on a u bs1 r1 t bs2 r2 s1) as (s' & p1 & p2 & Hrun & Hp2 & Hsent & Hus & Hcs & Hev).
  - cbn. destruct (identity_token_map (handshake_manager s) !! u); exact Hid.
  - cbn. destruct (identity_token_map (handshake_manager s) !! u); cbn; apply map_lookup_filter_None; left; exact Hb.
  - cbn. destruct (identity_token_map (handshake_manager s) !! u); exact Hc.
  - exact Hgone.
  - cbn. now rewrite E2.
  - exact V1.
  - exact Vt.
  - exact V2.
  - exists s1, s', p1, p2. split; [exact Hdrop|]. split; [exact Hgone|]. split; [exact Hrun|]. split; [exact Hp2|].
    split; [rewrite Hsent; cbn; now rewrite E4|]. split; [exact Hus|]. split; [rewrite Hcs; cbn; now rewrite E2|]. rewrite Hev. cbn. exact E5.
Qed.
End Dropped.

(** Two batches of events put together lose the authentications of the first, where both have one
    of the same kind. *)
Lemma append_replaces_auths {A M} (first second : @MainEvents A M) kind l : second.(auths) !! kind = Some l -> (MainEvents_append second first).(auths) !! kind = Some l.
Proof. intros Hk. cbn. now apply lookup_union_Some_l. Qed.

(** * A server at work *)
Module MainSample.
Import HandshakeSample.
#[local] Instance advanced : Handshaker Z (@ServerHandshake Z UserKey _ _ _ _) := advanced_handshaker sign verify lossy.
#[local] Instance advanced_keeps : HandshakerLaws Z (@ServerHandshake Z UserKey _ _ _ _) := advanced_laws sign verify lossy.
#[local] Instance simple : Handshaker Z (@SimpleServer Z UserKey _ _ _ _) := simple_handshaker lossy.

Definition never (a : Z) : bool := false.
Definition read_any (r : BitReader) : res unit := Ok tt.
Definition kind_of (m : unit) : Z := 0.
Definition bytes (x : res (list Z)) : list Z := match x with Ok bs => bs | _ => [] end.
Definition challenge_bytes : list Z := Eval vm_compute in bytes (write_challenge_request token client).
Definition validate_bytes : list Z := Eval vm_compute in bytes (write_validate_request HandshakeSample.signed).
Definition connect_bytes : list Z := Eval vm_compute in bytes write_connect_request.

Definition server : Type := @MainServer.MainServer Z (@ServerHandshake Z UserKey _ _ _ _) unit _ _.
Definition fresh : server := MainServer_new true 1000 42.
Definition challenged : list main_call := [Listen; Receive 0 [Some (100, [], [])] []; Accept token 0; Receive 10 [] [Some (1, challenge_bytes)]].
Definition entered : list main_call := challenged ++ [Receive 20 [] [Some (1, validate_bytes)]].
Definition state (history : list main_call) : server := match foldM (run_main never read_any kind_of) history fresh with Ok s => s | _ => fresh end.

Lemma addresses_mirror_witness : let s := state (entered ++ [Receive 30 [] [Some (1, connect_bytes)]]) in
  s.(user_connections) !! 1 = Some 0 /\ user_address 0 s = Some 1 /\ forall a u, s.(user_connections) !! a = Some u <-> user_address u s = Some a.
Proof.
  cbn zeta. split; [vm_compute; reflexivity|]. split; [vm_compute; reflexivity|].
  apply (addresses_mirror never read_any kind_of true 1000 42 (entered ++ [Receive 30 [] [Some (1, connect_bytes)]])). vm_compute. reflexivity.
Defined.

Lemma connected_were_accepted_witness : accepted never read_any kind_of fresh entered 0.
Proof.
  destruct (receive read_any kind_of 30 [] [Some (1, connect_bytes)] (state entered)) as [[e s']| | |] eqn:E; [|vm_compute in E; discriminate..].
  assert (connections e = [0]) as He.
  { transitivity (match receive read_any kind_of 30 [] [Some (1, connect_bytes)] (state entered) with Ok (x, _) => connections x | _ => [] end); [now rewrite E|vm_compute; reflexivity]. }
  apply (connected_were_accepted never read_any kind_of 1000 42 entered (state entered) s' 30 [] [Some (1, connect_bytes)] e); [vm_compute; reflexivity|exact E|].
  rewrite He. apply list_elem_of_singleton. reflexivity.
Defined.

(** The timeout passes between the challenge and the validation. *)
Definition dropped : list main_call := challenged ++ [Receive 5000 [] []].

Lemma sample_cache : cache_ok MAX_PENDING_CONNECTIONS (state challenged).(handshake_manager).(address_to_timestamp_map).
Proof.
  replace (address_to_timestamp_map (handshake_manager (state challenged))) with (CacheMap.with_capacity (K := Z) (V := Timestamp) MAX_PENDING_CONNECTIONS) by (vm_compute; reflexivity).
  split; cbn; [reflexivity|lia|]. intros k. rewrite lookup_empty. now intros [].
Qed.

(** The timeout drops the user that has been challenged. *)
Lemma dropped_by_timeout : exists s1, drop_pending (handshaker := advanced_handshaker sign verify lossy) (0, None) (state challenged) = Ok s1 /\ (state dropped).(users) = s1.(users) /\ (state dropped).(handshake_manager) = s1.(handshake_manager).
Proof. eexists. split; [vm_compute; reflexivity|]. split; vm_compute; reflexivity. Qed.

Lemma dropped_user_told_connected_witness : exists s1 s' p1 p2, drop_pending (handshaker := advanced_handshaker sign verify lossy) (0, None) (state challenged) = Ok s1 /\ BigMap_get 0 s1.(users) = None /\
  foldM packet_step [Some (1, validate_bytes); Some (1, connect_bytes)] s1 = Ok s' /\ write_connect_response = Ok p2 /\
  s'.(sent_packets) = (state challenged).(sent_packets) ++ [(1, p1); (1, p2)] /\ s'.(users) = s1.(users) /\ s'.(user_connections) !! 1 = None /\
  s'.(incoming_events) = (state challenged).(incoming_events).
Proof.
  assert (exists user, BigMap_get 0 (state challenged).(users) = Some user /\ data_addr user = None) as (user & Hu & Hd) by (eexists; split; vm_compute; reflexivity).
  eapply (dropped_user_told_connected sign verify lossy 1 0 user None validate_bytes _ 300 connect_bytes _ (state challenged)).
  - exact Hu.
  - exact Hd.
  - vm_compute. reflexivity.
  - vm_compute. reflexivity.
  - exact sample_cache.
  - vm_compute. reflexivity.
  - eexists _, _. split; [vm_compute; reflexivity|]. split; [reflexivity|vm_compute; reflexivity].
  - vm_compute. reflexivity.
  - eexists _, _. split; [vm_compute; reflexivity|]. split; [reflexivity|vm_compute; reflexivity].
Defined.

(** The handshake without signatures: one request lets the user in, a repeated one is answered. *)
Definition identify_bytes : list Z := Eval vm_compute in bytes (write_identify_request token (simple_set_identity_token token (SimpleClient_new (T := Z) (F := Z) 42))).
Example simple_request_repeated :
  (s ← foldM (run_main never read_any kind_of) [Listen; Receive 0 [Some (100, [], [])] []; Accept token 0] (MainServer_new (handshaker := simple) true 1000 42 : @MainServer.MainServer Z _ unit _ _);
   '(e, s) ← receive read_any kind_of 10 [] [Some (1, identify_bytes); Some (1, identify_bytes)] s; Ok (e.(connections), (s.(sent_packets)).*1)) = Ok ([0], [1; 1]).
Proof. vm_compute. reflexivity. Qed.
End MainSample.
