(* ===== verification/WorldWire.v ===== *)
(** Entity commands and component updates in a packet:
    src/shared/src/world/world_writer.rs and src/shared/src/world/world_reader.rs.

    The writer tries every command on a bit counter before it writes it, so a packet carries as
    many commands as fit; the reader hands every message to the receiver of the connection.
    Components are written and read by derived code: [ComponentWire] is what the two ask of it.
    Writing a component may reserve ids for the entities it refers to, in the entity map and the
    host manager of the connection.  [to_world] and [component_of_kind] are the converter and the
    world that the writer is given; the sets and maps of pending updates are walked in the orders
    [iter_u] and [iter_k]. *)

From Stdlib Require Import ZArith Lia.
From stdpp Require Import base numbers option list gmap sets.
From S2P Require Import Prelude BitIO Number Serde Wrapping Wire Kinds SequenceList Reliable MessageWire Channels EntityTypes SyncEngine HostSync DiffMask DirtyQueue DiffHandlers UpdateManager EntityMaps LocalEntities Waitlist RemoteWorld HostWorld LocalWorld.
Import LocalEntityMap HostEntityGenerator GlobalEntityMap.

Abbreviation CommandId := MessageIndex.

(** * The message type and the status on the wire *)
Definition type_index (t : EntityMessageType) : Z :=
  match t with
  | TSpawn => 0 | TSpawnWithComponents => 1 | TDespawn => 2 | TInsertComponent => 3 | TRemoveComponent => 4
  | TPublish => 5 | TUnpublish => 6 | TEnableDelegation => 7 | TDisableDelegation => 8 | TSetAuthority => 9
  | TNoop => 10
  | TRequestAuthority => 11 | TReleaseAuthority => 12 | TEnableDelegationResponse => 13 | TMigrateResponse => 14
  end.
Definition index_type (i : Z) : EntityMessageType :=
  match i with
  | 0 => TSpawn | 1 => TSpawnWithComponents | 2 => TDespawn | 3 => TInsertComponent | 4 => TRemoveComponent
  | 5 => TPublish | 6 => TUnpublish | 7 => TEnableDelegation | 8 => TDisableDelegation | 9 => TSetAuthority
  | 10 => TNoop
  | 11 => TRequestAuthority | 12 => TReleaseAuthority | 13 => TEnableDelegationResponse | _ => TMigrateResponse
  end.
Definition message_type_serde : Serde EntityMessageType := iso_serde type_index index_type (variant_serde 15).

Definition status_index (s : EntityAuthStatus) : Z :=
  match s with Available => 0 | Requested => 1 | Granted => 2 | Releasing => 3 | Denied => 4 end.
Definition index_status (i : Z) : EntityAuthStatus :=
  match i with 0 => Available | 1 => Requested | 2 => Granted | 3 => Releasing | _ => Denied end.
Definition auth_status_serde : Serde EntityAuthStatus := iso_serde status_index index_status (variant_serde 5).

(** * What the derived code of a component does *)
Class ComponentWire (C U K : Type) := {
  component_write : forall W `{BitWrite W}, C -> W -> K -> res (W * K);
  component_read : BitReader -> LocalEntityMap -> res (C * BitReader);
  update_write : forall W `{BitWrite W}, DiffMask.DiffMask -> C -> W -> K -> res (W * K);
  update_read : BitReader -> res (U * BitReader)
}.
Arguments component_write {C U K _} {W _} _ _ _.
Arguments update_write {C U K _} {W _} _ _ _ _.

Section WorldWire.
Context {E C U F A : Type} {eqE : EqDecision E} {cE : Countable E} {eqA : EqDecision A} {cA : Countable A}.
Context {replicate : Replicate C U F} {B : Type} (component_kinds : Kinds ComponentKind B).
Abbreviation World := (@LocalWorldManager C U F A).
Abbreviation Converter := (LocalEntityMap * @HostWorldManager C)%type.
Context {wire : ComponentWire C U Converter}.
Context (to_world : GlobalEntity -> option E) (component_of_kind : E -> ComponentKind -> option C).

(** [entity_converter_mut]: the two parts of the manager that writing may change. *)
Definition converter_mut (self : World) : Converter := (entity_map self, lw_host self).
Definition with_converter (k : Converter) (self : World) : World := lw_set_host k.2 (lw_set_map k.1 self).

(** * Writing one command *)
Section Command.
Context {W : Type} {bit_write : BitWrite W}.

Definition write_command_id (last_id_opt : option CommandId) (current_id : CommandId) (w : W) : res W := write_message_index last_id_opt current_id w.

Definition write_type (t : EntityMessageType) (w : W) : res W := ser message_type_serde t w.
Definition has_component_of_kind (world_entity : E) (kind : ComponentKind) : bool := bool_decide (is_Some (component_of_kind world_entity kind)).

Definition write_component (world_entity : E) (kind : ComponentKind) (x : W * World) : res (W * World) :=
  c ← unwrap (component_of_kind world_entity kind);
  '(w, k) ← component_write c x.1 (converter_mut x.2);
  Ok (w, with_converter k x.2).

Definition host_of (global_entity : GlobalEntity) (self : World) : res HostEntity := o ← LocalMap_to_host (entity_map self) global_entity; unwrap o.
Definition remote_of (global_entity : GlobalEntity) (self : World) : res RemoteEntity := o ← LocalMap_to_remote (entity_map self) global_entity; unwrap o.
Definition owned_of (global_entity : GlobalEntity) (self : World) : res OwnedLocalEntity := unwrap (LocalMap_to_owned (entity_map self) global_entity).

(** The remote entity, or the host entity as the peer sees it. *)
Definition authority_target (global_entity : GlobalEntity) (self : World) : res RemoteEntity :=
  o ← LocalMap_to_remote (entity_map self) global_entity;
  match o with
  | Some remote_entity => Ok remote_entity
  | None => o ← LocalMap_to_host (entity_map self) global_entity; host_entity ← unwrap o; Ok (host_to_remote host_entity)
  end.

(** A command about an entity of either side, with its sub-command id. *)
Definition write_owned (t : EntityMessageType) (m : SubCommandId -> OwnedLocalEntity -> EntityMessage OwnedLocalEntity) (sub_id_opt : option SubCommandId)
  (global_entity : GlobalEntity) (w : W) (self : World) : res (EntityMessage OwnedLocalEntity * W * World) :=
  sub_id ← unwrap sub_id_opt;
  w ← write_type t w;
  w ← ser u8_serde sub_id w;
  local_entity ← owned_of global_entity self;
  w ← ser owned_entity_serde local_entity w;
  Ok (m sub_id local_entity, w, self).

(** The bodies of the commands; the message is what is recorded for the packet. *)
Definition write_spawn (global_entity : GlobalEntity) (w : W) (self : World) : res (EntityMessage OwnedLocalEntity * W * World) :=
  w ← write_type TSpawn w;
  host_entity ← host_of global_entity self;
  w ← ser host_entity_serde host_entity w;
  Ok (Spawn (host_copy_to_owned host_entity), w, self).
Definition write_noop (w : W) (self : World) : res (EntityMessage OwnedLocalEntity * W * World) := w ← write_type TNoop w; Ok (Noop, w, self).
Definition write_spawn_with_components (global_entity : GlobalEntity) (comp_kind_list : list ComponentKind) (w : W) (self : World) : res (EntityMessage OwnedLocalEntity * W * World) :=
  match to_world global_entity with
  | None => write_noop w self
  | Some world_entity =>
      if negb (has_global_entity global_entity self) || negb (forallb (has_component_of_kind world_entity) comp_kind_list) then write_noop w self
      else
        w ← write_type TSpawnWithComponents w;
        host_entity ← host_of global_entity self;
        w ← ser owned_entity_serde (host_copy_to_owned host_entity) w;
        w ← ser u8_serde (wrap 8 (Z.of_nat (length comp_kind_list))) w;
        '(w, self) ← foldM (write_component world_entity) comp_kind_list (w, self);
        Ok (SpawnWithComponents (host_copy_to_owned host_entity) comp_kind_list, w, self)
  end.
Definition write_despawn (global_entity : GlobalEntity) (w : W) (self : World) : res (EntityMessage OwnedLocalEntity * W * World) :=
  w ← write_type TDespawn w;
  local_entity ← owned_of global_entity self;
  w ← ser owned_entity_serde local_entity w;
  Ok (Despawn local_entity, w, self).
Definition write_insert_component (global_entity : GlobalEntity) (kind : ComponentKind) (w : W) (self : World) : res (EntityMessage OwnedLocalEntity * W * World) :=
  match to_world global_entity with
  | None => write_noop w self
  | Some world_entity =>
      if negb (has_global_entity global_entity self) || negb (has_component_of_kind world_entity kind) then write_noop w self
      else
        w ← write_type TInsertComponent w;
        local_entity ← owned_of global_entity self;
        w ← ser owned_entity_serde local_entity w;
        '(w, self) ← write_component world_entity kind (w, self);
        Ok (InsertComponent local_entity kind, w, self)
  end.
Definition write_remove_component (global_entity : GlobalEntity) (kind : ComponentKind) (w : W) (self : World) : res (EntityMessage OwnedLocalEntity * W * World) :=
  if negb (has_global_entity global_entity self) then write_noop w self
  else
    w ← write_type TRemoveComponent w;
    local_entity ← owned_of global_entity self;
    w ← ser owned_entity_serde local_entity w;
    w ← Kind_ser component_kinds kind w;
    Ok (RemoveComponent local_entity kind, w, self).
Definition write_disable_delegation (sub_id_opt : option SubCommandId) (global_entity : GlobalEntity) (w : W) (self : World) : res (EntityMessage OwnedLocalEntity * W * World) :=
  sub_id ← unwrap sub_id_opt;
  w ← write_type TDisableDelegation w;
  w ← ser u8_serde sub_id w;
  host_entity ← host_of global_entity self;
  w ← ser host_entity_serde host_entity w;
  Ok (DisableDelegation sub_id (host_copy_to_owned host_entity), w, self).
Definition write_set_authority (sub_id_opt : option SubCommandId) (global_entity : GlobalEntity) (auth_status : EntityAuthStatus) (w : W) (self : World) : res (EntityMessage OwnedLocalEntity * W * World) :=
  sub_id ← unwrap sub_id_opt;
  w ← write_type TSetAuthority w;
  w ← ser u8_serde sub_id w;
  remote_entity ← authority_target global_entity self;
  w ← ser remote_entity_serde remote_entity w;
  w ← ser auth_status_serde auth_status w;
  Ok (SetAuthority sub_id (remote_copy_to_owned remote_entity) auth_status, w, self).
Definition write_request_authority (sub_id_opt : option SubCommandId) (global_entity : GlobalEntity) (w : W) (self : World) : res (EntityMessage OwnedLocalEntity * W * World) :=
  sub_id ← unwrap sub_id_opt;
  w ← write_type TRequestAuthority w;
  w ← ser u8_serde sub_id w;
  remote_entity ← remote_of global_entity self;
  w ← ser remote_entity_serde remote_entity w;
  Ok (RequestAuthority sub_id (remote_copy_to_owned remote_entity), w, self).
Definition write_enable_delegation_response (sub_id_opt : option SubCommandId) (global_entity : GlobalEntity) (w : W) (self : World) : res (EntityMessage OwnedLocalEntity * W * World) :=
  sub_id ← unwrap sub_id_opt;
  w ← write_type TEnableDelegationResponse w;
  w ← ser u8_serde sub_id w;
  remote_entity ← remote_of global_entity self;
  w ← ser remote_entity_serde remote_entity w;
  Ok (EnableDelegationResponse sub_id (remote_copy_to_owned remote_entity), w, self).
Definition write_migrate_response (sub_id_opt : option SubCommandId) (old_remote_entity : RemoteEntity) (new_host_entity : HostEntity) (w : W) (self : World) : res (EntityMessage OwnedLocalEntity * W * World) :=
  sub_id ← unwrap sub_id_opt;
  w ← write_type TMigrateResponse w;
  w ← ser u8_serde sub_id w;
  let client_host_entity := remote_to_host old_remote_entity in
  w ← ser host_entity_serde client_host_entity w;
  let new_remote_entity := host_to_remote new_host_entity in
  w ← ser remote_entity_serde new_remote_entity w;
  Ok (MigrateResponse sub_id (host_copy_to_owned client_host_entity) new_remote_entity, w, self).

Definition write_body (command : EntityCommand) (w : W) (self : World) : res (EntityMessage OwnedLocalEntity * W * World) :=
  match command with
  | CSpawn global_entity => write_spawn global_entity w self
  | CSpawnWithComponents global_entity comp_kind_list => write_spawn_with_components global_entity comp_kind_list w self
  | CDespawn global_entity => write_despawn global_entity w self
  | CInsertComponent global_entity kind => write_insert_component global_entity kind w self
  | CRemoveComponent global_entity kind => write_remove_component global_entity kind w self
  | CPublish sub_id_opt global_entity => write_owned TPublish Publish sub_id_opt global_entity w self
  | CUnpublish sub_id_opt global_entity => write_owned TUnpublish Unpublish sub_id_opt global_entity w self
  | CEnableDelegation sub_id_opt global_entity => write_owned TEnableDelegation EnableDelegation sub_id_opt global_entity w self
  | CDisableDelegation sub_id_opt global_entity => write_disable_delegation sub_id_opt global_entity w self
  | CSetAuthority sub_id_opt global_entity auth_status => write_set_authority sub_id_opt global_entity auth_status w self
  | CRequestAuthority sub_id_opt global_entity => write_request_authority sub_id_opt global_entity w self
  | CReleaseAuthority sub_id_opt global_entity => write_owned TReleaseAuthority ReleaseAuthority sub_id_opt global_entity w self
  | CEnableDelegationResponse sub_id_opt global_entity => write_enable_delegation_response sub_id_opt global_entity w self
  | CMigrateResponse sub_id_opt _ old_remote_entity new_host_entity => write_migrate_response sub_id_opt old_remote_entity new_host_entity w self
  end.

Definition write_command (packet_index : Z) (last_written_id : option CommandId) (is_writing : bool) (x : CommandId * EntityCommand) (w : W) (self : World)
  : res (W * World) :=
  let '(command_id, command) := x in
  w ← write_command_id last_written_id command_id w;
  '(message, w, self) ← write_body command w self;
  self ← (if is_writing then record_command_written packet_index command_id message self else Ok self);
  Ok (w, self).
End Command.

(** * The commands of a packet *)
(** A command that overflows before anything was written panics ([warn_overflow_command]). *)
Fixpoint write_commands_loop (now packet_index : Z) (next_send_commands : list (CommandId * EntityCommand)) (last_id : option CommandId)
  (writer : BitWriter) (has_written : bool) (self : World) : res (list (CommandId * EntityCommand) * BitWriter * bool * World) :=
  match next_send_commands with
  | [] => Ok ([], writer, has_written, self)
  | x :: rest =>
      counter ← ser bool_serde true (BitWriter_counter writer);
      '(counter, self) ← write_command packet_index last_id false x counter self;
      if BitCounter_overflowed counter then
        if has_written then Ok (next_send_commands, writer, has_written, self) else Panic
      else
        self ← insert_sent_command_packet packet_index now self;
        writer ← ser bool_serde true writer;
        '(writer, self) ← write_command packet_index last_id true x writer self;
        write_commands_loop now packet_index rest (Some x.1) writer true self
  end.

Definition write_commands (now packet_index : Z) (next_send_commands : list (CommandId * EntityCommand)) (writer : BitWriter) (has_written : bool) (self : World)
  : res (list (CommandId * EntityCommand) * BitWriter * bool * World) :=
  '(rest, writer, has_written, self) ← write_commands_loop now packet_index next_send_commands None writer has_written self;
  writer ← BitWriter_release_bits 1 writer;
  writer ← ser bool_serde false writer;
  Ok (rest, writer, has_written, self).

(** * The updates of a packet *)
Section Updates.
Context (iter_u : gmap GlobalEntity (gset ComponentKind) -> list GlobalEntity) (iter_k : gset ComponentKind -> list ComponentKind).
Abbreviation Heap := (@Store A eqA cA).
Abbreviation Pending := (gmap GlobalEntity (gset ComponentKind)).

Definition write_one_update {W} `{BitWrite W} (world_entity : E) (kind : ComponentKind) (diff_mask : DiffMask.DiffMask) (w : W) (self : World) : res (W * World) :=
  w ← ser bool_serde true w;
  w ← Kind_ser component_kinds kind w;
  c ← unwrap (component_of_kind world_entity kind);
  '(w, k) ← update_write diff_mask c w (converter_mut self);
  Ok (w, with_converter k self).

(** The components of one entity; returns the kinds written.  A component that overflows before
    anything was written panics ([warn_overflow_update]). *)
Fixpoint write_update_loop (now packet_index : Z) (global_entity : GlobalEntity) (world_entity : E) (kinds : list ComponentKind) (written : list ComponentKind)
  (writer : BitWriter) (has_written : bool) (self : World) (st : Heap) : res (list ComponentKind * BitWriter * bool * World * Heap) :=
  match kinds with
  | [] => Ok (written, writer, has_written, self, st)
  | kind :: kinds =>
      diff_mask ← get_diff_mask (updater self) st global_entity kind;
      '(counter, self) ← write_one_update world_entity kind diff_mask (BitWriter_counter writer) self;
      if BitCounter_overflowed counter then
        if has_written then Ok (written, writer, has_written, self, st) else Panic
      else
        '(writer, self) ← write_one_update world_entity kind diff_mask writer self;
        '(u, st) ← record_update now packet_index global_entity kind diff_mask (updater self) st;
        write_update_loop now packet_index global_entity world_entity kinds (written ++ [kind]) writer true (lw_set_updater u self) st
  end.

Definition forget_written (global_entity : GlobalEntity) (written : list ComponentKind) (next_send_updates : Pending) : res Pending :=
  update_kinds ← (unwrap (next_send_updates !! global_entity) : res (gset ComponentKind));
  let update_kinds : gset ComponentKind := update_kinds ∖ list_to_set written in
  Ok (if decide (update_kinds = ∅) then delete global_entity next_send_updates else <[global_entity := update_kinds]> next_send_updates).

Definition write_update (now packet_index : Z) (global_entity : GlobalEntity) (world_entity : E) (writer : BitWriter) (has_written : bool) (next_send_updates : Pending)
  (self : World) (st : Heap) : res (BitWriter * bool * Pending * World * Heap) :=
  component_kind_set ← unwrap (next_send_updates !! global_entity);
  '(written, writer, has_written, self, st) ← write_update_loop now packet_index global_entity world_entity (iter_k component_kind_set) [] writer has_written self st;
  next_send_updates ← forget_written global_entity written next_send_updates;
  Ok (writer, has_written, next_send_updates, self, st).

(** The entities: as many as the two continue bits and the id of the next one fit. *)
Fixpoint write_updates_loop (now packet_index : Z) (all_update_entities : list GlobalEntity) (writer : BitWriter) (has_written : bool) (next_send_updates : Pending)
  (self : World) (st : Heap) : res (BitWriter * bool * Pending * World * Heap) :=
  match all_update_entities with
  | [] => Ok (writer, has_written, next_send_updates, self, st)
  | global_entity :: rest =>
      local_entity ← owned_of global_entity self;
      world_entity ← unwrap (to_world global_entity);
      counter ← write_bit true (BitWriter_counter writer);
      counter ← write_bit true counter;
      counter ← ser owned_entity_serde local_entity counter;
      if BitCounter_overflowed counter then Ok (writer, has_written, next_send_updates, self, st)
      else
        writer ← BitWriter_reserve_bits 1 writer;
        writer ← ser bool_serde true writer;
        writer ← ser owned_entity_serde local_entity writer;
        '(writer, has_written, next_send_updates, self, st) ← write_update now packet_index global_entity world_entity writer has_written next_send_updates self st;
        writer ← BitWriter_release_bits 1 writer;
        writer ← ser bool_serde false writer;
        write_updates_loop now packet_index rest writer has_written next_send_updates self st
  end.

Definition write_updates (now packet_index : Z) (entity_priority_order : option (list GlobalEntity)) (writer : BitWriter) (has_written : bool) (next_send_updates : Pending)
  (self : World) (st : Heap) : res (BitWriter * bool * Pending * World * Heap) :=
  let all_update_entities := match entity_priority_order with
                             | Some order => filter (fun e => is_Some (next_send_updates !! e)) order
                             | None => iter_u next_send_updates
                             end in
  '(writer, has_written, next_send_updates, self, st) ← write_updates_loop now packet_index all_update_entities writer has_written next_send_updates self st;
  writer ← BitWriter_release_bits 1 writer;
  writer ← ser bool_serde false writer;
  Ok (writer, has_written, next_send_updates, self, st).

Definition write_into_packet (now packet_index : Z) (entity_priority_order : option (list GlobalEntity)) (world_events : list (CommandId * EntityCommand))
  (update_events : Pending) (writer : BitWriter) (has_written : bool) (self : World) (st : Heap)
  : res (BitWriter * bool * list (CommandId * EntityCommand) * Pending * World * Heap) :=
  '(writer, has_written, update_events, self, st) ← write_updates now packet_index entity_priority_order writer has_written update_events self st;
  '(world_events, writer, has_written, self) ← write_commands now packet_index world_events writer has_written self;
  Ok (writer, has_written, world_events, update_events, self, st).
End Updates.

(** * Reading *)
(** What was handed over before a read fails stays handed over: [None] is the error. *)
Definition reading {X Y} (x : res X) (self : World) (k : X -> res (option Y * World)) : res (option Y * World) :=
  match x with Ok a => k a | Err => Ok (None, self) | Panic => Panic | Diverge => Diverge end.

Definition handed {Y} (y : Y) (x : res World) : res (option Y * World) := self ← x; Ok (Some y, self).

(** The components of a spawned entity. *)
Fixpoint read_components (n : nat) (local_entity : OwnedLocalEntity) (kinds : list ComponentKind) (r : BitReader) (self : World)
  : res (option (list ComponentKind * BitReader) * World) :=
  match n with
  | O => Ok (Some (kinds, r), self)
  | S n =>
      reading (component_read r (entity_map self)) self (fun '(new_component, r) =>
        let new_component_kind := component_kind new_component in
        read_components n local_entity (kinds ++ [new_component_kind]) r (insert_received_component local_entity new_component_kind new_component self))
  end.

Definition buffer (message_id : MessageIndex) (message : EntityMessage OwnedLocalEntity) (r : BitReader) (self : World) : res (option BitReader * World) :=
  handed r (receiver_buffer_message message_id message self).

(** An entity that either side may own, as this side sees it, and behind a redirect. *)
Definition read_owned (r : BitReader) (self : World) (k : OwnedLocalEntity -> BitReader -> res (option BitReader * World)) : res (option BitReader * World) :=
  reading (de owned_entity_serde r) self (fun '(local_entity, r) => k (LocalMap_redirect (entity_map self) (owned_to_reversed local_entity)) r).

Definition read_sub (r : BitReader) (self : World) (k : SubCommandId -> BitReader -> res (option BitReader * World)) : res (option BitReader * World) :=
  reading (de u8_serde r) self (fun '(sub_command_id, r) => k sub_command_id r).

Definition read_spawn_with_components (message_id : MessageIndex) (r : BitReader) (self : World) : res (option BitReader * World) :=
  reading (de owned_entity_serde r) self (fun '(entity, r) =>
    let local_entity := owned_to_reversed entity in
    reading (de u8_serde r) self (fun '(count, r) =>
      '(o, self) ← read_components (Z.to_nat count) local_entity [] r self;
      match o with None => Ok (None, self) | Some (kinds, r) => buffer message_id (SpawnWithComponents local_entity kinds) r self end)).
Definition read_insert_component (message_id : MessageIndex) (r : BitReader) (self : World) : res (option BitReader * World) :=
  read_owned r self (fun local_entity r =>
    reading (component_read r (entity_map self)) self (fun '(new_component, r) =>
      let new_component_kind := component_kind new_component in
      handed r (self ← receiver_buffer_message message_id (InsertComponent local_entity new_component_kind) self;
                Ok (insert_received_component local_entity new_component_kind new_component self)))).
Definition read_remove_component (message_id : MessageIndex) (r : BitReader) (self : World) : res (option BitReader * World) :=
  read_owned r self (fun local_entity r =>
    reading (Kind_de component_kinds r) self (fun '(component_kind, r) => buffer message_id (RemoveComponent local_entity component_kind) r self)).
(** A message about an entity of either side, with its sub-command id. *)
Definition read_owned_message (m : SubCommandId -> OwnedLocalEntity -> EntityMessage OwnedLocalEntity) (message_id : MessageIndex) (r : BitReader) (self : World) : res (option BitReader * World) :=
  read_sub r self (fun sub_id r => read_owned r self (fun local_entity r => buffer message_id (m sub_id local_entity) r self)).
Definition read_disable_delegation (message_id : MessageIndex) (r : BitReader) (self : World) : res (option BitReader * World) :=
  read_sub r self (fun sub_id r => reading (de remote_entity_serde r) self (fun '(remote_entity, r) =>
    buffer message_id (DisableDelegation sub_id (remote_copy_to_owned remote_entity)) r self)).
Definition read_set_authority (message_id : MessageIndex) (r : BitReader) (self : World) : res (option BitReader * World) :=
  read_sub r self (fun sub_id r => reading (de remote_entity_serde r) self (fun '(remote_entity, r) =>
    reading (de auth_status_serde r) self (fun '(auth_status, r) =>
      buffer message_id (SetAuthority sub_id (remote_copy_to_owned remote_entity) auth_status) r self))).
(** A message about an entity of this side, sent by its id alone. *)
Definition read_host_message (m : SubCommandId -> OwnedLocalEntity -> EntityMessage OwnedLocalEntity) (message_id : MessageIndex) (r : BitReader) (self : World) : res (option BitReader * World) :=
  read_sub r self (fun sub_id r => reading (de host_entity_serde r) self (fun '(host_entity, r) =>
    buffer message_id (m sub_id (host_copy_to_owned host_entity)) r self)).
Definition read_migrate_response (message_id : MessageIndex) (r : BitReader) (self : World) : res (option BitReader * World) :=
  read_sub r self (fun sub_id r => reading (de host_entity_serde r) self (fun '(client_host_entity, r) =>
    reading (de remote_entity_serde r) self (fun '(new_remote_entity, r) =>
      buffer message_id (MigrateResponse sub_id (host_copy_to_owned client_host_entity) new_remote_entity) r self))).

Definition read_body (message_id : MessageIndex) (message_type : EntityMessageType) (r : BitReader) (self : World) : res (option BitReader * World) :=
  match message_type with
  | TSpawn => reading (de remote_entity_serde r) self (fun '(remote_entity, r) => buffer message_id (Spawn (remote_copy_to_owned remote_entity)) r self)
  | TSpawnWithComponents => read_spawn_with_components message_id r self
  | TDespawn => read_owned r self (fun local_entity r => buffer message_id (Despawn local_entity) r self)
  | TInsertComponent => read_insert_component message_id r self
  | TRemoveComponent => read_remove_component message_id r self
  | TPublish => read_owned_message Publish message_id r self
  | TUnpublish => read_owned_message Unpublish message_id r self
  | TEnableDelegation => read_owned_message EnableDelegation message_id r self
  | TDisableDelegation => read_disable_delegation message_id r self
  | TSetAuthority => read_set_authority message_id r self
  | TRequestAuthority => read_host_message RequestAuthority message_id r self
  | TReleaseAuthority => read_owned_message ReleaseAuthority message_id r self
  | TEnableDelegationResponse => read_host_message EnableDelegationResponse message_id r self
  | TMigrateResponse => read_migrate_response message_id r self
  | TNoop => buffer message_id Noop r self
  end.

Definition read_message (last_read_id : option MessageIndex) (r : BitReader) (self : World) : res (option (MessageIndex * BitReader) * World) :=
  reading (read_message_index last_read_id r) self (fun '(message_id, r) =>
    reading (de message_type_serde r) self (fun '(message_type, r) =>
      '(o, self) ← read_body message_id message_type r self;
      Ok (match o with Some r => Some (message_id, r) | None => None end, self))).

(** As many rounds as there are bits left: every round reads its continue bit. *)
Fixpoint read_messages_from (fuel : nat) (last_read_id : option MessageIndex) (r : BitReader) (self : World) : res (option BitReader * World) :=
  match fuel with
  | O => Diverge
  | S fuel =>
      reading (de bool_serde r) self (fun '(message_continue, r) =>
        if negb message_continue then Ok (Some r, self)
        else '(o, self) ← read_message last_read_id r self;
             match o with None => Ok (None, self) | Some (message_id, r) => read_messages_from fuel (Some message_id) r self end)
  end.
Definition read_messages (r : BitReader) (self : World) : res (option BitReader * World) := read_messages_from (chunk_fuel r) None r self.

Fixpoint read_update (fuel : nat) (tick : Tick) (local_entity : OwnedLocalEntity) (r : BitReader) (self : World) : res (option BitReader * World) :=
  match fuel with
  | O => Diverge
  | S fuel =>
      reading (de bool_serde r) self (fun '(component_continue, r) =>
        if negb component_continue then Ok (Some r, self)
        else reading (update_read r) self (fun '(component_update, r) =>
               read_update fuel tick local_entity r
                 (if has_local_entity local_entity self then insert_received_update tick local_entity component_update self else self)))
  end.

Fixpoint read_updates_from (fuel : nat) (tick : Tick) (r : BitReader) (self : World) : res (option BitReader * World) :=
  match fuel with
  | O => Diverge
  | S fuel =>
      reading (de bool_serde r) self (fun '(update_continue, r) =>
        if negb update_continue then Ok (Some r, self)
        else reading (de owned_entity_serde r) self (fun '(entity, r) =>
               '(o, self) ← read_update (chunk_fuel r) tick (LocalMap_redirect (entity_map self) (owned_to_reversed entity)) r self;
               match o with None => Ok (None, self) | Some r => read_updates_from fuel tick r self end))
  end.
Definition read_updates (tick : Tick) (r : BitReader) (self : World) : res (option BitReader * World) := read_updates_from (chunk_fuel r) tick r self.

Definition read_world_events (tick : Tick) (r : BitReader) (self : World) : res (option BitReader * World) :=
  '(o, self) ← read_updates tick r self;
  match o with None => Ok (None, self) | Some r => read_messages r self end.
End WorldWire.
