(* ===== verification/WorldWireFacts.v ===== *)
(** What the world writer and the world reader achieve together: the commands of a packet reach
    the peer in order, each as the message the writer has recorded, and as many as fit; and what
    does not survive the wire. *)

From Stdlib Require Import ZArith Lia.
From stdpp Require Import base numbers option list gmap sets.
From S2P Require Import MessageManager Prelude BitIO Number Serde Wrapping Wire Kinds SequenceList Reliable MessageWire Channels EntityTypes SyncEngine HostSync DiffMask DirtyQueue DiffHandlers UpdateManager EntityMaps LocalEntities Waitlist RemoteWorld HostWorld LocalWorld WorldWire Serde.
Import LocalEntityMap HostEntityGenerator GlobalEntityMap.

(** The bodies of the commands and of the messages. *)
Ltac unfold_writes := unfold write_spawn, write_noop, write_spawn_with_components, write_despawn, write_insert_component, write_remove_component, write_disable_delegation, write_set_authority, write_request_authority, write_enable_delegation_response, write_migrate_response.
Ltac unfold_reads := unfold read_spawn_with_components, read_insert_component, read_remove_component, read_owned_message, read_disable_delegation, read_set_authority, read_host_message, read_migrate_response.

(** * Laws *)
#[export] Program Instance message_type_lawful : Lawful message_type_serde :=
  iso_lawful type_index index_type (variant_serde 15) (Lawful0 := variant_lawful 15 _) (fun _ => True) _.
Solve Obligations with (try lia).
Next Obligation. now intros []. Qed.

#[export] Program Instance auth_status_lawful : Lawful auth_status_serde :=
  iso_lawful status_index index_status (variant_serde 5) (Lawful0 := variant_lawful 5 _) (fun _ => True) _.
Solve Obligations with (try lia).
Next Obligation. now intros []. Qed.

#[export] Program Instance host_entity_lawful : Lawful host_entity_serde :=
  iso_lawful he_id (fun i => mkHostEntity i false) (variable_u16_serde 7) (fun h => he_static h = false) _.
Next Obligation. intros [i st]. cbn. now intros ->. Qed.
#[export] Program Instance remote_entity_lawful : Lawful remote_entity_serde :=
  iso_lawful re_id (fun i => mkRemoteEntity i false) (variable_u16_serde 7) (fun h => re_static h = false) _.
Next Obligation. intros [i st]. cbn. now intros ->. Qed.

Section Chains.
Context {W : Type} `{BitWriteLaws W}.

(** One value, then the rest. *)
Lemma ser_then {T X} (s : Serde T) `{!Lawful s} x more (w : W) (rest : W -> res X) (K : W -> res X) : valid s x -> wok w ->
  (forall w1, wok w1 -> rest w1 = (w' ← write_bits more w1; K w')) -> (w1 ← ser s x w; rest w1) = (w' ← write_bits (enc s x ++ more) w; K w').
Proof.
  intros Hx Hw Hr. rewrite (ser_enc W x w Hx Hw), write_bits_app. destruct (write_bits (enc s x) w) as [w1| | |] eqn:E1; try reflexivity. rewrite !bind_ok.
  apply Hr. eapply write_bits_wok; eassumption.
Qed.
Lemma ser_last {T X} (s : Serde T) `{!Lawful s} x (w : W) (K : W -> res X) : valid s x -> wok w -> (w1 ← ser s x w; K w1) = (w' ← write_bits (enc s x) w; K w').
Proof. intros Hx Hw. now rewrite (ser_enc W x w Hx Hw). Qed.

Lemma byte_then {X} i more (w : W) (rest : W -> res X) (K : W -> res X) : is_byte i -> wok w -> (forall w1, wok w1 -> rest w1 = (w' ← write_bits more w1; K w')) ->
  (w1 ← ser u8_serde i w; rest w1) = (w' ← write_bits (to_bits 8 i ++ more) w; K w').
Proof. intros Hi Hw Hr. exact (ser_then u8_serde i more w rest K Hi Hw Hr). Qed.
Lemma id_last {X} (h : HostEntity) (w : W) (K : W -> res X) : in_u 16 (he_id h) -> wok w -> (w1 ← ser host_entity_serde h w; K w1) = (w' ← write_bits (length_enc 7 (he_id h)) w; K w').
Proof. intros Hx Hw. exact (ser_last (variable_u16_serde 7) (he_id h) w K Hx Hw). Qed.
Lemma remote_id_last {X} (r : RemoteEntity) (w : W) (K : W -> res X) : in_u 16 (re_id r) -> wok w -> (w1 ← ser remote_entity_serde r w; K w1) = (w' ← write_bits (length_enc 7 (re_id r)) w; K w').
Proof. intros Hx Hw. exact (ser_last (variable_u16_serde 7) (re_id r) w K Hx Hw). Qed.
Lemma remote_id_then {X} (r : RemoteEntity) more (w : W) (rest : W -> res X) (K : W -> res X) : in_u 16 (re_id r) -> wok w ->
  (forall w1, wok w1 -> rest w1 = (w' ← write_bits more w1; K w')) -> (w1 ← ser remote_entity_serde r w; rest w1) = (w' ← write_bits (length_enc 7 (re_id r) ++ more) w; K w').
Proof. intros Hx Hw Hr. exact (ser_then (variable_u16_serde 7) (re_id r) more w rest K Hx Hw Hr). Qed.
Lemma id_then {X} (h : HostEntity) more (w : W) (rest : W -> res X) (K : W -> res X) : in_u 16 (he_id h) -> wok w ->
  (forall w1, wok w1 -> rest w1 = (w' ← write_bits more w1; K w')) -> (w1 ← ser host_entity_serde h w; rest w1) = (w' ← write_bits (length_enc 7 (he_id h) ++ more) w; K w').
Proof. intros Hx Hw Hr. exact (ser_then (variable_u16_serde 7) (he_id h) more w rest K Hx Hw Hr). Qed.
End Chains.

(** * What is asked of components *)
Section Facts.
Context {E C U F A : Type} {eqE : EqDecision E} {cE : Countable E} {eqA : EqDecision A} {cA : Countable A}.
Context {replicate : Replicate C U F} {B : Type} (builder : ComponentKind -> B) (component_kinds : Kinds ComponentKind B) (kinds_registered : kinds_ok builder component_kinds).
Abbreviation World := (@LocalWorldManager C U F A).
Abbreviation Converter := (LocalEntityMap * @HostWorldManager C)%type.
Context {wire : ComponentWire C U Converter}.

(** [conv_grows]: ids have been reserved for entities that had none; a reserved entity has no
    channel yet. *)
Class ComponentWireLaws := {
  conv_grows : Converter -> Converter -> Prop;
  component_ok : C -> Converter -> Prop;
  component_bits : C -> Converter -> list bool;
  component_after : C -> Converter -> Converter;
  component_seen : C -> Converter -> LocalEntityMap -> C;
  grows_refl k : conv_grows k k;
  grows_trans k1 k2 k3 : conv_grows k1 k2 -> conv_grows k2 k3 -> conv_grows k1 k3;
  grows_mapped k k' g e : conv_grows k k' -> LocalMap_to_owned k.1 g = Some e -> LocalMap_to_owned k'.1 g = Some e;
  grows_reserved k k' g : conv_grows k k' -> LocalMap_to_owned k.1 g = None ->
    LocalMap_to_owned k'.1 g = None \/ exists h, LocalMap_to_owned k'.1 g = Some (host_copy_to_owned h) /\ host_has_entity h k'.2 = false;
  grows_channels k k' h : conv_grows k k' -> host_has_entity h k'.2 = host_has_entity h k.2;
  component_ok_grows c k k' : component_ok c k -> conv_grows k k' -> component_ok c k';
  component_grows c k : component_ok c k -> conv_grows k (component_after c k);
  component_again c k k' : component_ok c k -> conv_grows (component_after c k) k' -> component_bits c k' = component_bits c k /\ component_after c k' = k';
  component_writes c k : component_ok c k -> forall W `{BitWriteLaws W} (w : W), wok w ->
    component_write c w k = (w' ← write_bits (component_bits c k) w; Ok (w', component_after c k));
  component_reads c k m r rest : component_ok c k -> reader_ok r -> br_bits r = component_bits c k ++ rest ->
    exists r', component_read r m = Ok (component_seen c k m, r') /\ reader_ok r' /\ br_bits r' = rest;
  component_short c k : component_ok c k -> Z.of_nat (length (component_bits c k)) < 2 ^ 20;
  component_seen_kind c k m : component_kind (component_seen c k m) = component_kind c
}.
Context {laws : ComponentWireLaws}.
Context (to_world : GlobalEntity -> option E) (component_of_kind : E -> ComponentKind -> option C).
Context (kind_of_stored : forall e k c, component_of_kind e k = Some c -> component_kind c = k).

(** ** Several components *)
Fixpoint bits_list (cs : list C) (k : Converter) : list bool := match cs with [] => [] | c :: cs => component_bits c k ++ bits_list cs (component_after c k) end.
Fixpoint after_list (cs : list C) (k : Converter) : Converter := match cs with [] => k | c :: cs => after_list cs (component_after c k) end.
Fixpoint seen_list (cs : list C) (k : Converter) (m : LocalEntityMap) : list C := match cs with [] => [] | c :: cs => component_seen c k m :: seen_list cs (component_after c k) m end.

Lemma list_ok_grows cs k k' : Forall (fun c => component_ok c k) cs -> conv_grows k k' -> Forall (fun c => component_ok c k') cs.
Proof using Type. intros H Hg. eapply Forall_impl; [exact H|]. cbn. intros c Hc. exact (component_ok_grows c k k' Hc Hg). Qed.
Lemma list_grows cs k : Forall (fun c => component_ok c k) cs -> conv_grows k (after_list cs k).
Proof using Type.
  revert k. induction cs as [|c cs IH]; intros k H; [apply grows_refl|]. apply Forall_cons in H as [Hc H]. pose proof (component_grows c k Hc) as Hg. cbn.
  eapply grows_trans; [exact Hg|]. apply IH. now apply (list_ok_grows cs k).
Qed.
Lemma list_again cs k k' : Forall (fun c => component_ok c k) cs -> conv_grows (after_list cs k) k' -> bits_list cs k' = bits_list cs k /\ after_list cs k' = k'.
Proof using Type.
  revert k. induction cs as [|c cs IH]; intros k H Hg; [now split|]. apply Forall_cons in H as [Hc H]. pose proof (component_grows c k Hc) as Hg1. pose proof (list_ok_grows cs k _ H Hg1) as H1. cbn in Hg.
  assert (conv_grows (component_after c k) k') as Hg2 by (eapply grows_trans; [apply (list_grows cs _ H1)|exact Hg]). destruct (component_again c k k' Hc Hg2) as [Eb Ea]. destruct (IH _ H1 Hg) as [Eb' Ea'].
  cbn. rewrite Eb, Ea. now rewrite Eb', Ea'.
Qed.
Lemma list_short cs k : Forall (fun c => component_ok c k) cs -> Z.of_nat (length (bits_list cs k)) <= Z.of_nat (length cs) * 2 ^ 20.
Proof using Type.
  revert k. induction cs as [|c cs IH]; intros k H; [cbn; lia|]. apply Forall_cons in H as [Hc H]. pose proof (component_short c k Hc). pose proof (IH _ (list_ok_grows cs k _ H (component_grows c k Hc))).
  cbn [bits_list length]. rewrite length_app. lia.
Qed.

(** ** The message of a command *)
Definition converter_after (cs : list C) (self : World) : World := with_converter (after_list cs (converter_mut self)) self.
Lemma converter_same (self : World) : with_converter (converter_mut self) self = self.
Proof using Type. now destruct self. Qed.

Abbreviation owned := (fun (self : World) g => LocalMap_to_owned (entity_map self) g).
Definition as_host (e : OwnedLocalEntity) : option OwnedLocalEntity := if owned_is_host e then Some e else None.
Definition as_remote (e : OwnedLocalEntity) : option OwnedLocalEntity := if owned_is_host e then None else Some e.

Definition message_of (command : EntityCommand) (self : World) : option (EntityMessage OwnedLocalEntity) :=
  match command with
  | CSpawn g => e ← owned self g; h ← as_host e; Some (Spawn h)
  | CSpawnWithComponents g kinds =>
      match to_world g with
      | None => Some Noop
      | Some world_entity =>
          if negb (has_global_entity g self) || negb (forallb (has_component_of_kind component_of_kind world_entity) kinds) then Some Noop
          else e ← owned self g; h ← as_host e; Some (SpawnWithComponents h kinds)
      end
  | CDespawn g => e ← owned self g; Some (Despawn e)
  | CInsertComponent g kind =>
      match to_world g with
      | None => Some Noop
      | Some world_entity =>
          if negb (has_global_entity g self) || negb (has_component_of_kind component_of_kind world_entity kind) then Some Noop
          else e ← owned self g; Some (InsertComponent e kind)
      end
  | CRemoveComponent g kind => if negb (has_global_entity g self) then Some Noop else e ← owned self g; Some (RemoveComponent e kind)
  | CPublish sub g => i ← sub; e ← owned self g; Some (Publish i e)
  | CUnpublish sub g => i ← sub; e ← owned self g; Some (Unpublish i e)
  | CEnableDelegation sub g => i ← sub; e ← owned self g; Some (EnableDelegation i e)
  | CDisableDelegation sub g => i ← sub; e ← owned self g; h ← as_host e; Some (DisableDelegation i h)
  | CSetAuthority sub g status => i ← sub; e ← owned self g; Some (SetAuthority i (Remote (owned_id e) (owned_is_static e)) status)
  | CRequestAuthority sub g => i ← sub; e ← owned self g; r ← as_remote e; Some (RequestAuthority i r)
  | CReleaseAuthority sub g => i ← sub; e ← owned self g; Some (ReleaseAuthority i e)
  | CEnableDelegationResponse sub g => i ← sub; e ← owned self g; r ← as_remote e; Some (EnableDelegationResponse i r)
  | CMigrateResponse sub _ old new => i ← sub; Some (MigrateResponse i (host_copy_to_owned (remote_to_host old)) (host_to_remote new))
  end.

(** The components that go with it. *)
Definition payload (command : EntityCommand) (m : EntityMessage OwnedLocalEntity) : list C :=
  match to_world (EntityCommand_entity command), m with
  | Some world_entity, SpawnWithComponents _ kinds => omap (component_of_kind world_entity) kinds
  | Some world_entity, InsertComponent _ kind => omap (component_of_kind world_entity) [kind]
  | _, _ => []
  end.

Definition body_bits (m : EntityMessage OwnedLocalEntity) (components : list bool) : list bool :=
  enc message_type_serde (get_type m) ++
  match m with
  | Spawn e => length_enc 7 (owned_id e)
  | SpawnWithComponents e kinds => enc owned_entity_serde e ++ to_bits 8 (Z.of_nat (length kinds)) ++ components
  | Despawn e => enc owned_entity_serde e
  | InsertComponent e _ => enc owned_entity_serde e ++ components
  | RemoveComponent e kind => enc owned_entity_serde e ++ tag_enc component_kinds kind
  | Publish i e | Unpublish i e | EnableDelegation i e | ReleaseAuthority i e => to_bits 8 i ++ enc owned_entity_serde e
  | DisableDelegation i e | RequestAuthority i e | EnableDelegationResponse i e => to_bits 8 i ++ length_enc 7 (owned_id e)
  | SetAuthority i e status => to_bits 8 i ++ length_enc 7 (owned_id e) ++ enc auth_status_serde status
  | MigrateResponse i e r => to_bits 8 i ++ length_enc 7 (owned_id e) ++ length_enc 7 (re_id r)
  | Noop => []
  end.

(** Ids, sub-command ids and kinds are in range; at most 255 components. *)
Definition message_ok (m : EntityMessage OwnedLocalEntity) : Prop :=
  match EntityMessage_entity m with Some e => in_u 16 (owned_id e) | None => True end /\
  match m with
  | SpawnWithComponents _ kinds => (length kinds <= 255)%nat
  | RemoveComponent _ kind => is_Some (kind_map component_kinds !! kind)
  | Publish i _ | Unpublish i _ | EnableDelegation i _ | DisableDelegation i _ | SetAuthority i _ _ | RequestAuthority i _ | ReleaseAuthority i _ | EnableDelegationResponse i _ => is_byte i
  | MigrateResponse i _ r => is_byte i /\ in_u 16 (re_id r)
  | _ => True
  end.

(** ** Writing *)
Lemma to_host_owned (m : LocalEntityMap) g id st : LocalMap_to_owned m g = Some (Host id st) -> LocalMap_to_host m g = Ok (Some (mkHostEntity id st)).
Proof using Type. unfold LocalMap_to_owned, LocalMap_to_host. destruct (global_to_local m !! g) as [[e]|]; [|discriminate]. cbn. intros [= ->]. reflexivity. Qed.
Lemma to_host_none (m : LocalEntityMap) g id st : LocalMap_to_owned m g = Some (Remote id st) -> LocalMap_to_host m g = Ok None /\ LocalMap_to_remote m g = Ok (Some (mkRemoteEntity id st)).
Proof using Type. unfold LocalMap_to_owned, LocalMap_to_host, LocalMap_to_remote. destruct (global_to_local m !! g) as [[e]|]; [|discriminate]. cbn. intros [= ->]. now split. Qed.
Lemma to_remote_none (m : LocalEntityMap) g id st : LocalMap_to_owned m g = Some (Host id st) -> LocalMap_to_remote m g = Ok None.
Proof using Type. unfold LocalMap_to_owned, LocalMap_to_remote. destruct (global_to_local m !! g) as [[e]|]; [|discriminate]. cbn. now intros [= ->]. Qed.

Lemma host_of_owned (self : World) g e : owned self g = Some e -> owned_is_host e = true -> host_of g self = Ok (mkHostEntity (owned_id e) (owned_is_static e)).
Proof using Type. intros Ho Hh. destruct e as [id st|id st]; [|discriminate]. unfold host_of. now rewrite (to_host_owned _ _ _ _ Ho). Qed.
Lemma remote_of_owned (self : World) g e : owned self g = Some e -> owned_is_host e = false -> remote_of g self = Ok (mkRemoteEntity (owned_id e) (owned_is_static e)).
Proof using Type. intros Ho Hh. destruct e as [id st|id st]; [discriminate|]. unfold remote_of. now rewrite (proj2 (to_host_none _ _ _ _ Ho)). Qed.
Lemma target_of_owned (self : World) g e : owned self g = Some e -> authority_target g self = Ok (mkRemoteEntity (owned_id e) (owned_is_static e)).
Proof using Type.
  intros Ho. unfold authority_target. destruct e as [id st|id st].
  - rewrite (to_remote_none _ _ _ _ Ho), bind_ok, (to_host_owned _ _ _ _ Ho). now destruct st.
  - rewrite (proj2 (to_host_none _ _ _ _ Ho)). reflexivity.
Qed.

Lemma converter_set k (self : World) : converter_mut (with_converter k self) = k.
Proof using Type. now destruct k. Qed.
Lemma converter_twice k k' (self : World) : with_converter k (with_converter k' self) = with_converter k self.
Proof using Type. reflexivity. Qed.

(** Writing the components of a list of kinds. *)
Lemma write_components_enc {W} `{BitWriteLaws W} world_entity kinds (self : World) (w : W) : wok w ->
  forallb (has_component_of_kind component_of_kind world_entity) kinds = true -> Forall (fun c => component_ok c (converter_mut self)) (omap (component_of_kind world_entity) kinds) ->
  foldM (write_component component_of_kind world_entity) kinds (w, self) =
  (w' ← write_bits (bits_list (omap (component_of_kind world_entity) kinds) (converter_mut self)) w; Ok (w', converter_after (omap (component_of_kind world_entity) kinds) self)).
Proof using Type.
  revert self w. induction kinds as [|kind kinds IH]; intros self w Hw Hall Hok.
  - cbn. unfold converter_after. cbn. now rewrite converter_same.
  - cbn [forallb] in Hall. apply andb_true_iff in Hall as [Hk Hall]. unfold has_component_of_kind in Hk. apply bool_decide_eq_true in Hk as [c Hc]. cbn [omap list_omap] in Hok |- *. rewrite Hc in Hok |- *.
    apply Forall_cons in Hok as [Hc1 Hok]. cbn [foldM bits_list]. 
    assert (write_component component_of_kind world_entity kind (w, self) = ('(w1, k) ← component_write c w (converter_mut self); Ok (w1, with_converter k self))) as ->
      by (unfold write_component; cbn [fst snd]; now rewrite Hc).
    rewrite (component_writes c _ Hc1 W w Hw), write_bits_app.
    destruct (write_bits (component_bits c (converter_mut self)) w) as [w1| | |] eqn:E1; try reflexivity. rewrite !bind_ok.
    rewrite IH; [| |exact Hall|].
    + unfold converter_after. rewrite !converter_set. reflexivity.
    + eapply write_bits_wok; eassumption.
    + rewrite converter_set. apply (list_ok_grows _ (converter_mut self)); [exact Hok|now apply component_grows].
Qed.

Lemma type_valid t : valid message_type_serde t.
Proof using Type. split; [exact Logic.I|]. destruct t; cbn; lia. Qed.

(** A command with a sub-command id about an entity of either side. *)
Lemma write_owned_enc {W} `{BitWriteLaws W} t m i g e (self : World) (w : W) : wok w -> owned self g = Some e -> is_byte i -> in_u 16 (owned_id e) ->
  write_owned t m (Some i) g w self = (w' ← write_bits (enc message_type_serde t ++ to_bits 8 i ++ enc owned_entity_serde e) w; Ok (m i e, w', self)).
Proof using Type.
  intros Hw Ho Hi He. unfold write_owned. cbn [unwrap]. rewrite bind_ok. unfold write_type. apply (ser_then message_type_serde); [apply type_valid|exact Hw|]. intros w1 Hw1.
  apply byte_then; [exact Hi|exact Hw1|]. intros w2 Hw2. unfold owned_of. rewrite Ho. cbn [unwrap]. rewrite bind_ok. now apply (ser_last owned_entity_serde).
Qed.

(** One with the id alone. *)
Lemma type_then {W X} `{BitWriteLaws W} t more (w : W) (rest : W -> res X) (K : W -> res X) : wok w -> (forall w1, wok w1 -> rest w1 = (w' ← write_bits more w1; K w')) ->
  (w1 ← write_type t w; rest w1) = (w' ← write_bits (enc message_type_serde t ++ more) w; K w').
Proof using Type. intros Hw Hr. apply (ser_then message_type_serde); [apply type_valid|exact Hw|exact Hr]. Qed.
Lemma noop_written {W} `{BitWriteLaws W} (w : W) (self : World) : wok w ->
  (w ← write_type TNoop w; Ok (Noop, w, self)) = (w' ← write_bits (body_bits Noop []) w; Ok (@Noop OwnedLocalEntity, w', self)).
Proof using Type. intros Hw. apply (type_then TNoop []); [exact Hw|reflexivity]. Qed.

Lemma as_host_Some e h : as_host e = Some h -> h = e /\ owned_is_host e = true.
Proof using Type. unfold as_host. destruct (owned_is_host e); [now intros [= <-]|discriminate]. Qed.
Lemma as_remote_Some e r : as_remote e = Some r -> r = e /\ owned_is_host e = false.
Proof using Type. unfold as_remote. destruct (owned_is_host e); [discriminate|now intros [= <-]]. Qed.
Lemma host_copy e : owned_is_host e = true -> host_copy_to_owned (mkHostEntity (owned_id e) (owned_is_static e)) = e.
Proof using Type. now destruct e. Qed.
Lemma remote_copy e : owned_is_host e = false -> remote_copy_to_owned (mkRemoteEntity (owned_id e) (owned_is_static e)) = e.
Proof using Type. now destruct e. Qed.

(** The steps of the proofs about writing: the entity is mapped, the component list is empty, the
    type and the sub-command id go first. *)
Ltac mapped self g Hm Ho :=
  destruct (LocalMap_to_owned (entity_map self) g) as [e|] eqn:Ho; [|discriminate]; cbn in Hm;
  first [injection Hm as <-
        | let h := fresh "h" in let Hh := fresh "Hh" in destruct (as_host e) as [h|] eqn:Hh; [|discriminate]; injection Hm as <-; apply as_host_Some in Hh as [-> Hh]
        | let h := fresh "h" in let Hh := fresh "Hh" in destruct (as_remote e) as [h|] eqn:Hh; [|discriminate]; injection Hm as <-; apply as_remote_Some in Hh as [-> Hh]].
Ltac no_components Hsame := unfold payload; cbn [body_bits get_type unwrap]; rewrite ?bind_ok; match goal with |- context [match ?x with Some _ => _ | None => _ end] => destruct x end; rewrite Hsame by reflexivity.
Ltac type_first w1 Hw1 := apply type_then; [assumption|]; intros w1 Hw1.
Ltac sub_first w2 Hw2 := let w1 := fresh "w" in let Hw1 := fresh "Hw" in type_first w1 Hw1; apply byte_then; [assumption|exact Hw1|]; intros w2 Hw2.

Lemma spawn_components_enc {W} `{BitWriteLaws W} g kinds m (self : World) (w : W) : wok w -> message_of (CSpawnWithComponents g kinds) self = Some m -> message_ok m ->
  Forall (fun c => component_ok c (converter_mut self)) (payload (CSpawnWithComponents g kinds) m) ->
  write_body component_kinds to_world component_of_kind (CSpawnWithComponents g kinds) w self =
  (w' ← write_bits (body_bits m (bits_list (payload (CSpawnWithComponents g kinds) m) (converter_mut self))) w; Ok (m, w', converter_after (payload (CSpawnWithComponents g kinds) m) self)).
Proof using Type.
  intros Hw Hm [Hid Hok] Hcs. assert (forall x : list C, x = [] -> converter_after x self = self) as Hsame by (intros x ->; exact (converter_same self)). cbn [message_of write_body] in *; unfold_writes.
  unfold payload in *. cbn [EntityCommand_entity] in *. destruct (to_world g) as [world_entity|] eqn:Hg; [|injection Hm as <-; rewrite Hsame by reflexivity; now apply noop_written].
  destruct (negb _ || negb _) eqn:Hb; [injection Hm as <-; rewrite Hsame by reflexivity; now apply noop_written|]. apply orb_false_iff in Hb as [_ Hall]. apply negb_false_iff in Hall.
  mapped self g Hm Ho. cbn [body_bits get_type]. type_first w1 Hw1. rewrite (host_of_owned self g e Ho Hh), bind_ok, (host_copy e Hh). apply (ser_then owned_entity_serde e); [exact Hid|exact Hw1|]. intros w2 Hw2.
  rewrite wrap_small by (unfold in_u; lia). apply byte_then; [unfold is_byte; lia|exact Hw2|]. intros w3 Hw3. rewrite (write_components_enc world_entity kinds self w3 Hw3 Hall Hcs). destruct (write_bits _ w3); reflexivity.
Qed.

Lemma insert_component_enc {W} `{BitWriteLaws W} g kind m (self : World) (w : W) : wok w -> message_of (CInsertComponent g kind) self = Some m -> message_ok m ->
  Forall (fun c => component_ok c (converter_mut self)) (payload (CInsertComponent g kind) m) ->
  write_body component_kinds to_world component_of_kind (CInsertComponent g kind) w self =
  (w' ← write_bits (body_bits m (bits_list (payload (CInsertComponent g kind) m) (converter_mut self))) w; Ok (m, w', converter_after (payload (CInsertComponent g kind) m) self)).
Proof using Type.
  intros Hw Hm [Hid Hok] Hcs. assert (forall x : list C, x = [] -> converter_after x self = self) as Hsame by (intros x ->; exact (converter_same self)). cbn [message_of write_body] in *; unfold_writes.
  unfold payload in *. cbn [EntityCommand_entity] in *. destruct (to_world g) as [world_entity|] eqn:Hg; [|injection Hm as <-; rewrite Hsame by reflexivity; now apply noop_written].
  destruct (negb _ || negb _) eqn:Hb; [injection Hm as <-; rewrite Hsame by reflexivity; now apply noop_written|]. apply orb_false_iff in Hb as [_ Hall]. apply negb_false_iff in Hall.
  mapped self g Hm Ho. cbn [body_bits get_type]. type_first w1 Hw1. unfold owned_of. rewrite Ho. cbn [unwrap]. rewrite bind_ok. apply (ser_then owned_entity_serde e); [exact Hid|exact Hw1|]. intros w2 Hw2.
  pose proof (write_components_enc world_entity [kind] self w2 Hw2 ltac:(cbn [forallb]; now rewrite Hall) Hcs) as Hwc. cbn [foldM] in Hwc.
  destruct (write_component component_of_kind world_entity kind (w2, self)) as [[w3 s3]| | |]; rewrite ?bind_ok in Hwc; destruct (write_bits _ w2); rewrite ?bind_ok in Hwc |- *; try discriminate; try reflexivity.
  now injection Hwc as -> ->.
Qed.

(** What is written is the message, and the message is what is recorded. *)
Lemma write_body_enc {W} `{BitWriteLaws W} command m (self : World) (w : W) : wok w -> message_of command self = Some m -> message_ok m ->
  Forall (fun c => component_ok c (converter_mut self)) (payload command m) ->
  write_body component_kinds to_world component_of_kind command w self =
  (w' ← write_bits (body_bits m (bits_list (payload command m) (converter_mut self))) w; Ok (m, w', converter_after (payload command m) self)).
Proof using kinds_registered.
  intros Hw Hm [Hid Hok] Hcs.
  assert (forall x : list C, x = [] -> converter_after x self = self) as Hsame by (intros x ->; exact (converter_same self)).
  destruct command as [g|g kinds|g|g kind|g kind|sub g|sub g|sub g|sub g|sub g status|sub g|sub g|sub g|sub g old new]; cbn [message_of write_body] in *; unfold_writes; try (destruct sub as [i|]; [|discriminate]; cbn in Hm).
  - mapped self g Hm Ho. no_components Hsame. all: type_first w1 Hw1; rewrite (host_of_owned self g e Ho Hh), bind_ok, (host_copy e Hh); exact (id_last (mkHostEntity (owned_id e) (owned_is_static e)) w1 _ Hid Hw1).
  - now apply spawn_components_enc.
  - mapped self g Hm Ho. no_components Hsame. all: type_first w1 Hw1; unfold owned_of; rewrite Ho; cbn [unwrap]; rewrite bind_ok; now apply (ser_last owned_entity_serde e).
  - now apply insert_component_enc.
  - unfold payload in *. destruct (negb (has_global_entity g self)) eqn:Hb; [injection Hm as <-; destruct (to_world _); rewrite Hsame by reflexivity; now apply noop_written|].
    mapped self g Hm Ho. no_components Hsame. all: type_first w1 Hw1; unfold owned_of; rewrite Ho; cbn [unwrap]; rewrite bind_ok; apply (ser_then owned_entity_serde e); [exact Hid|exact Hw1|]; intros w2 Hw2;
      exact (ser_last (Lawful0 := kind_lawful builder component_kinds kinds_registered) (kind_serde component_kinds) kind w2 _ Hok Hw2).
  - mapped self g Hm Ho. no_components Hsame; now apply write_owned_enc.
  - mapped self g Hm Ho. no_components Hsame; now apply write_owned_enc.
  - mapped self g Hm Ho. no_components Hsame; now apply write_owned_enc.
  - mapped self g Hm Ho. no_components Hsame.
    all: sub_first w2 Hw2; rewrite (host_of_owned self g e Ho Hh), bind_ok, (host_copy e Hh); exact (id_last (mkHostEntity (owned_id e) (owned_is_static e)) w2 _ Hid Hw2).
  - mapped self g Hm Ho. no_components Hsame. all: sub_first w2 Hw2; rewrite (target_of_owned self g e Ho), bind_ok; apply (remote_id_then (mkRemoteEntity (owned_id e) (owned_is_static e))); [exact Hid|exact Hw2|];
      intros w3 Hw3; apply (ser_last auth_status_serde); [split; [exact Logic.I|destruct status; cbn; lia]|exact Hw3].
  - mapped self g Hm Ho. no_components Hsame.
    all: sub_first w2 Hw2; rewrite (remote_of_owned self g e Ho Hh), bind_ok, (remote_copy e Hh); exact (remote_id_last (mkRemoteEntity (owned_id e) (owned_is_static e)) w2 _ Hid Hw2).
  - mapped self g Hm Ho. no_components Hsame; now apply write_owned_enc.
  - mapped self g Hm Ho. no_components Hsame.
    all: sub_first w2 Hw2; rewrite (remote_of_owned self g e Ho Hh), bind_ok, (remote_copy e Hh); exact (remote_id_last (mkRemoteEntity (owned_id e) (owned_is_static e)) w2 _ Hid Hw2).
  - injection Hm as <-. destruct Hok as [Hi Hr]. no_components Hsame. all: sub_first w2 Hw2; apply (id_then (remote_to_host old)); [exact Hid|exact Hw2|]; intros w3 Hw3; now apply remote_id_last.
Qed.

(** ** Later states of the writer *)
Record later (self self' : World) : Prop := { la_converter : conv_grows (converter_mut self) (converter_mut self'); la_remote : lw_remote self' = lw_remote self }.
Lemma later_refl self : later self self.
Proof using Type. split; [apply grows_refl|reflexivity]. Qed.
Lemma later_trans s1 s2 s3 : later s1 s2 -> later s2 s3 -> later s1 s3.
Proof using Type. intros [A1 A2] [B1 B2]. split; [eapply grows_trans; eassumption|congruence]. Qed.

Lemma later_owned self self' g e : later self self' -> owned self g = Some e -> owned self' g = Some e.
Proof using Type. intros [Hg _] Ho. exact (grows_mapped _ _ g e Hg Ho). Qed.
Lemma later_has_global self self' g : later self self' -> has_global_entity g self' = has_global_entity g self.
Proof using Type.
  intros [Hg Hr]. unfold has_global_entity. destruct (LocalMap_to_owned (entity_map self) g) as [e|] eqn:Ho.
  - rewrite (grows_mapped _ _ g e Hg Ho : LocalMap_to_owned (entity_map self') g = Some e). destruct e as [id st|id st]; cbn; [exact (grows_channels _ _ (mkHostEntity id st) Hg)|now rewrite Hr].
  - destruct (grows_reserved _ _ g Hg Ho) as [Hn|[[id st] [Hs Hh]]]; cbn in *; [now rewrite Hn|]. rewrite Hs. exact Hh.
Qed.

Lemma message_later command m self self' : later self self' -> message_of command self = Some m -> message_of command self' = Some m.
Proof using Type.
  intros Hl Hm. destruct command as [g|g kinds|g|g kind|g kind|sub g|sub g|sub g|sub g|sub g status|sub g|sub g|sub g|sub g old new]; cbn [message_of] in *;
    rewrite ?(later_has_global self self' g Hl); try (destruct (to_world g) as [world_entity|]; [|exact Hm]); try (destruct (negb _ || _); [exact Hm|]); try (destruct (negb _); [exact Hm|]); try (destruct sub as [i|]; [|discriminate]; cbn in *); try exact Hm.
  all: destruct (LocalMap_to_owned (entity_map self) g) as [e|] eqn:Ho; [|discriminate]; now rewrite (later_owned self self' g e Hl Ho).
Qed.

(** A command that can be sent in the state it is in, and the message it becomes. *)
Record resolves (self : World) (x : CommandId * EntityCommand) (m : EntityMessage OwnedLocalEntity) : Prop := {
  rv_message : message_of x.2 self = Some m;
  rv_ok : message_ok m;
  rv_components : Forall (fun c => component_ok c (converter_mut self)) (payload x.2 m)
}.
Lemma resolves_later self self' x m : later self self' -> resolves self x m -> resolves self' x m.
Proof using Type. intros Hl [H1 H2 H3]. split; [now apply (message_later _ _ self)|exact H2|exact (list_ok_grows _ _ _ H3 (la_converter _ _ Hl))]. Qed.

Definition one_enc (last : option CommandId) (x : CommandId * EntityCommand) (m : EntityMessage OwnedLocalEntity) (k : Converter) : list bool :=
  true :: index_enc last x.1 ++ body_bits m (bits_list (payload x.2 m) k).

Lemma write_command_enc {W} `{BitWriteLaws W} p last is_writing x m (self : World) (w : W) : wok w -> step_ok last x.1 -> resolves self x m ->
  (w1 ← ser bool_serde true w; write_command component_kinds to_world component_of_kind p last is_writing x w1 self) =
  (w' ← write_bits (one_enc last x m (converter_mut self)) w;
   self' ← (if is_writing then record_command_written p x.1 m (converter_after (payload x.2 m) self) else Ok (converter_after (payload x.2 m) self)); Ok (w', self')).
Proof using kinds_registered.
  intros Hw Hs [Hm Hok Hcs]. unfold one_enc. match goal with |- context [true :: ?l] => change (true :: l) with (enc bool_serde true ++ l) end. apply (ser_then bool_serde true); [exact Logic.I|exact Hw|]. intros w1 Hw1. destruct x as [id command]. unfold write_command, write_command_id. cbn [fst snd] in *.
  rewrite (write_index_enc last id w1 Hs Hw1), write_bits_app. destruct (write_bits (index_enc last id) w1) as [w2| | |] eqn:E2; try reflexivity. rewrite !bind_ok.
  assert (wok w2) as Hw2 by (eapply write_bits_wok; eassumption). rewrite (write_body_enc command m self w2 Hw2 Hm Hok Hcs). destruct (write_bits _ w2); reflexivity.
Qed.

(** The second time nothing changes any more. *)
Lemma write_again self' x m (self : World) : resolves self x m -> converter_mut self' = after_list (payload x.2 m) (converter_mut self) ->
  bits_list (payload x.2 m) (converter_mut self') = bits_list (payload x.2 m) (converter_mut self) /\ converter_after (payload x.2 m) self' = self'.
Proof using Type.
  intros [_ _ Hcs] E0. destruct (list_again (payload x.2 m) (converter_mut self) (converter_mut self') Hcs) as [Eb Ea]; [rewrite E0; apply grows_refl|].
  split; [exact Eb|]. unfold converter_after. rewrite Ea. apply converter_same.
Qed.

Lemma omap_short (f : ComponentKind -> option C) kinds : (length (omap f kinds) <= length kinds)%nat.
Proof using Type. induction kinds as [|k kinds IH]; cbn; [lia|]. destruct (f k); cbn; lia. Qed.
Lemma one_enc_short last x m self : step_ok last x.1 -> resolves self x m -> Z.of_nat (length (one_enc last x m (converter_mut self))) < 2 ^ 31.
Proof using kinds_registered.
  intros _ [_ [Hid Hok] Hcs]. unfold one_enc. cbn [length]. rewrite length_app. pose proof (index_enc_length last x.1). pose proof (list_short _ _ Hcs) as Hl. change (2 ^ 20) with 1048576 in Hl. change (2 ^ 31) with 2147483648.
  assert (length (payload x.2 m) <= 255)%nat as Hp.
  { unfold payload. destruct (to_world _); [|cbn; lia]. destruct m; cbn [length]; try lia; (etrans; [apply omap_short|]); [exact Hok|cbn; lia]. }
  assert (forall z, in_u 16 z -> Z.of_nat (length (length_enc 7 z)) <= 290) as Hid' by (intros z Hz; pose proof (owned_enc_short (Host z false) Hz) as Ho; cbn [enc owned_entity_lawful owned_is_host owned_is_static owned_id length] in Ho; lia).
  assert (Z.of_nat (length (body_bits m (bits_list (payload x.2 m) (converter_mut self)))) <= 1000 + Z.of_nat (length (bits_list (payload x.2 m) (converter_mut self)))); [|lia].
  unfold body_bits. rewrite length_app. cbn [enc message_type_lawful iso_lawful variant_lawful]. rewrite length_to_bits. change (Z.to_nat (bits_needed_for 15)) with 4%nat.
  destruct m; cbn [EntityMessage_entity] in Hid; rewrite ?length_app, ?length_to_bits; try pose proof (owned_enc_short _ Hid); try pose proof (Hid' _ Hid); try pose proof (Hid' _ (proj2 Hok)); cbn [enc auth_status_lawful iso_lawful variant_lawful]; rewrite ?length_to_bits; try change (Z.to_nat (bits_needed_for 5)) with 3%nat; cbn [length]; try lia.
  unfold tag_enc. rewrite length_to_bits. pose proof (width_nat builder component_kinds kinds_registered). lia.
Qed.

(** ** The record of the packet *)
Abbreviation Sent := (list (Z * (Z * list (CommandId * EntityMessage OwnedLocalEntity)))).
(** A new packet is newer than the others; its entry is made with its first command. *)
Definition newest (p : Z) (l : Sent) : Prop := forall l0 q x, l = l0 ++ [(q, x)] -> q <> p /\ sequence_less_than q p = true.
Definition with_packet (p now : Z) (acts : list (CommandId * EntityMessage OwnedLocalEntity)) (base : Sent) : Sent := if decide (acts = []) then base else base ++ [(p, (now, acts))].

Lemma last_lookup (base : Sent) x : (base ++ [x]) !! length base = Some x.
Proof using Type. now rewrite list_lookup_middle. Qed.

Lemma packet_entered p now (self : World) base acts : newest p base -> sent_command_packets self = with_packet p now acts base ->
  insert_sent_command_packet p now self = Ok (lw_set_packets (base ++ [(p, (now, acts))]) self).
Proof using Type.
  intros Hn Hs. unfold insert_sent_command_packet. rewrite Hs. unfold with_packet in *. case_decide as Ha.
  - subst acts. assert (contains_scan_from_back p base = Ok false /\ insert_scan_from_back p (now, []) base = Ok (base ++ [(p, (now, []))])) as [-> ->]; [|reflexivity].
    unfold contains_scan_from_back, insert_scan_from_back. destruct base as [|[q x] l0 _] using rev_ind; [now split|]. destruct (Hn l0 q x eq_refl) as [Hq Hless].
    rewrite length_app. cbn [length]. rewrite Nat.add_1_r. cbn [contains_loop insert_loop]. rewrite last_lookup. cbn [unwrap]. rewrite !bind_ok, (proj2 (Z.eqb_neq _ _) Hq), Hless.
    split; [reflexivity|]. rewrite take_ge, drop_ge by (rewrite length_app; cbn; lia). reflexivity.
  - assert (contains_scan_from_back p (base ++ [(p, (now, acts))]) = Ok true) as ->.
    { unfold contains_scan_from_back. rewrite length_app. cbn [length]. rewrite Nat.add_1_r. cbn [contains_loop]. rewrite last_lookup. cbn [unwrap]. now rewrite bind_ok, Z.eqb_refl. }
    rewrite bind_ok. f_equal. destruct self. cbn in Hs |- *. now rewrite Hs.
Qed.

Lemma command_recorded p now id m (self : World) base acts : sent_command_packets self = base ++ [(p, (now, acts))] ->
  record_command_written p id m self = Ok (lw_set_packets (base ++ [(p, (now, acts ++ [(id, m)]))]) self).
Proof using Type.
  intros Hs. unfold record_command_written, get_mut_scan_from_back. rewrite Hs, length_app. cbn [length]. rewrite Nat.add_1_r. cbn [get_mut_loop]. rewrite last_lookup.
  cbn [unwrap]. rewrite bind_ok, Z.eqb_refl, bind_ok. cbn [unwrap]. rewrite bind_ok. unfold set_item. rewrite insert_app_r_alt by lia. rewrite Nat.sub_diag. reflexivity.
Qed.

(** ** The loop *)
Abbreviation loop := (write_commands_loop component_kinds to_world component_of_kind).
Lemma write_round p now last x m queue w hw (self : World) base acts : step_ok last x.1 -> resolves self x m -> writer_ok w -> bw_current_bits w <= bw_max_bits w <= MTU_SIZE_BITS ->
  newest p base -> sent_command_packets self = with_packet p now acts base ->
  if fits w (one_enc last x m (converter_mut self)) then
    exists w1 self1, extends w (one_enc last x m (converter_mut self)) w1 /\ bw_current_bits w1 <= bw_max_bits w1 /\ loop now p (x :: queue) last w hw self = loop now p queue (Some x.1) w1 true self1 /\
      converter_mut self1 = after_list (payload x.2 m) (converter_mut self) /\ lw_remote self1 = lw_remote self /\ updater self1 = updater self /\ sent_command_packets self1 = with_packet p now (acts ++ [(x.1, m)]) base
  else loop now p (x :: queue) last w hw self = if hw then Ok (x :: queue, w, hw, converter_after (payload x.2 m) self) else Panic.
Proof using kinds_registered.
  intros Hs Hr Hw Hb Hn Hsent. set (bits := one_enc last x m (converter_mut self)).
  destruct (count_then_write bits w Hw Hb ltac:(discriminate) (one_enc_short last x m self Hs Hr)) as (c & Ec & Eo & Ew). pose proof (writer_ok_current w Hw). change MTU_SIZE_BITS with 3440 in Hb.
  unfold fits. cbn [write_commands_loop]. rewrite <- bind_assoc.
  assert (wok (BitWriter_counter w)) as Hwc by (cbn; lia). pose proof (write_command_enc p last false x m self (BitWriter_counter w) Hwc Hs Hr) as Hc. fold bits in Hc. rewrite Ec, !bind_ok in Hc. rewrite Hc, bind_ok, Eo.
  destruct (Z.leb_spec (bw_current_bits w + Z.of_nat (length bits)) (bw_max_bits w)) as [Hf|Hf]; [|now rewrite (proj2 (Z.ltb_lt _ _)) by lia]. rewrite (proj2 (Z.ltb_ge _ _)) by lia.
  destruct (Ew Hf) as (w1 & E1 & X1). set (self1 := converter_after (payload x.2 m) self). assert (converter_mut self1 = after_list (payload x.2 m) (converter_mut self)) as Hconv by apply converter_set.
  assert (lw_remote self1 = lw_remote self) as Hrem by reflexivity. assert (sent_command_packets self1 = with_packet p now acts base) as Hs1 by exact Hsent.
  rewrite (packet_entered p now self1 base acts Hn Hs1), bind_ok. set (self2 := lw_set_packets (base ++ [(p, (now, acts))]) self1). assert (converter_mut self2 = after_list (payload x.2 m) (converter_mut self)) as Hconv2 by exact Hconv.
  destruct (write_again self2 x m self Hr Hconv2) as [Hbits Hafter].
  assert (resolves self2 x m) as Hr2.
  { apply (resolves_later self); [|exact Hr]. split; [rewrite Hconv2; apply list_grows; apply Hr|exact Hrem]. }
  rewrite <- bind_assoc. pose proof (write_command_enc p last true x m self2 w Hw Hs Hr2) as Hc2. unfold one_enc in Hc2. rewrite Hbits in Hc2. fold (one_enc last x m (converter_mut self)) in Hc2. fold bits in Hc2. rewrite E1, bind_ok, Hafter in Hc2.
  rewrite (command_recorded p now x.1 m self2 base acts eq_refl), bind_ok in Hc2. rewrite Hc2, bind_ok.
  exists w1, (lw_set_packets (base ++ [(p, (now, acts ++ [(x.1, m)]))]) self2). split; [exact X1|]. split.
  - rewrite (extends_current w _ w1 Hw X1). destruct X1 as (_ & _ & -> & _). exact Hf.
  - split; [reflexivity|]. split; [exact Hconv2|]. split; [exact Hrem|]. split; [reflexivity|]. cbn. unfold with_packet. rewrite decide_False; [reflexivity|]. now destruct acts.
Qed.

(** The bits of the commands of a packet, in the states the writer goes through. *)
Fixpoint commands_enc (last : option CommandId) (l : list ((CommandId * EntityCommand) * EntityMessage OwnedLocalEntity)) (k : Converter) : list bool :=
  match l with
  | [] => []
  | (x, m) :: l => one_enc last x m k ++ commands_enc (Some x.1) l (after_list (payload x.2 m) k)
  end.
Fixpoint after_commands (l : list ((CommandId * EntityCommand) * EntityMessage OwnedLocalEntity)) (k : Converter) : Converter :=
  match l with [] => k | (x, m) :: l => after_commands l (after_list (payload x.2 m) k) end.
Definition last_sent (last : option CommandId) (l : list ((CommandId * EntityCommand) * EntityMessage OwnedLocalEntity)) : option CommandId := fold_left (fun _ x => Some x.1.1) l last.
Definition acts_of (l : list ((CommandId * EntityCommand) * EntityMessage OwnedLocalEntity)) : list (CommandId * EntityMessage OwnedLocalEntity) := (fun x => (x.1.1, x.2)) <$> l.

(** Why the writer stopped: nothing is left, or the next command does not fit. *)
Definition stopped (last : option CommandId) (rest : list ((CommandId * EntityCommand) * EntityMessage OwnedLocalEntity)) (k : Converter) (w : BitWriter) : Prop :=
  match rest with [] => True | (x, m) :: _ => fits w (one_enc last x m k) = false end.

Lemma write_loop_commands p now queue last w hw (self : World) base acts : Forall (fun x => resolves self x.1 x.2) queue -> ascending last queue.*1 -> writer_ok w ->
  bw_current_bits w <= bw_max_bits w <= MTU_SIZE_BITS -> newest p base -> sent_command_packets self = with_packet p now acts base ->
  (hw = true \/ match queue with [] => True | (x, m) :: _ => fits w (one_enc last x m (converter_mut self)) = true end) ->
  exists done rest w' self', queue = done ++ rest /\ loop now p queue.*1 last w hw self = Ok (rest.*1, w', hw || negb (bool_decide (done = [])), self') /\
    extends w (commands_enc last done (converter_mut self)) w' /\ bw_current_bits w' <= bw_max_bits w' /\ sent_command_packets self' = with_packet p now (acts ++ acts_of done) base /\ updater self' = updater self /\
    stopped (last_sent last done) rest (after_commands done (converter_mut self)) w'.
Proof using kinds_registered.
  revert last w hw self acts. induction queue as [|[x m] queue IH]; intros last w hw self acts Hr Ha Hw Hb Hn Hs Hhw.
  - exists [], [], w, self. cbn. rewrite !app_nil_r, orb_false_r. split; [reflexivity|]. split; [reflexivity|]. split; [now apply extends_refl|]. split; [lia|]. split; [exact Hs|]. now split.
  - apply Forall_cons in Hr as [Hx Hr]. cbn [fst snd] in Hx. destruct x as [id command]. cbn [fmap list_fmap fst] in Ha |- *. destruct Ha as [Hst Ha].
    pose proof (write_round p now last (id, command) m queue.*1 w hw self base acts Hst Hx Hw Hb Hn Hs) as Hround. destruct (fits w (one_enc last (id, command) m (converter_mut self))) eqn:Hfit.
    + destruct Hround as (w1 & self1 & X1 & B1 & Hl & Hc1 & Hrem1 & Hu1 & Hs1). pose proof X1 as (O1 & _ & M1 & _).
      assert (later self self1) as Hlater by (split; [rewrite Hc1; apply list_grows; apply Hx|exact Hrem1]).
      assert (Forall (fun x => resolves self1 x.1 x.2) queue) as Hr1 by (eapply Forall_impl; [exact Hr|]; intros y Hy; now apply (resolves_later self)).
      destruct (IH (Some id) w1 true self1 (acts ++ [(id, m)]) Hr1 Ha O1 ltac:(lia) Hn Hs1 (or_introl eq_refl)) as (done & rest & w' & self' & -> & Hloop & X & Bd & Hsent & Hu & Hstop).
      exists (((id, command), m) :: done), rest, w', self'. split; [reflexivity|]. split; [cbn [fst] in Hl; rewrite Hl, Hloop; destruct hw; reflexivity|]. rewrite Hc1 in X, Hstop. cbn [commands_enc].
      split; [eapply extends_trans; eassumption|]. split; [exact Bd|]. split; [rewrite Hsent, <- app_assoc; reflexivity|]. split; [congruence|exact Hstop].
    + destruct Hhw as [->|Hhw]; [|cbn in Hhw; congruence]. exists [], (((id, command), m) :: queue), w, (converter_after (payload command m) self). split; [reflexivity|]. split; [exact Hround|].
      split; [now apply extends_refl|]. split; [lia|]. split; [cbn; now rewrite app_nil_r|]. split; [reflexivity|exact Hfit].
Qed.

(** ** The peer *)
(** An entity of either side, as the peer sees it; entities that are sent by their id alone arrive
    as dynamic ones. *)
Definition seen_owned (self : World) (e : OwnedLocalEntity) : OwnedLocalEntity := LocalMap_redirect (entity_map self) (owned_to_reversed e).
Definition seen_message (self : World) (m : EntityMessage OwnedLocalEntity) : EntityMessage OwnedLocalEntity :=
  match m with
  | Spawn e => Spawn (Remote (owned_id e) false)
  | SpawnWithComponents e kinds => SpawnWithComponents (owned_to_reversed e) kinds
  | Despawn e => Despawn (seen_owned self e)
  | InsertComponent e kind => InsertComponent (seen_owned self e) kind
  | RemoveComponent e kind => RemoveComponent (seen_owned self e) kind
  | Publish i e => Publish i (seen_owned self e)
  | Unpublish i e => Unpublish i (seen_owned self e)
  | EnableDelegation i e => EnableDelegation i (seen_owned self e)
  | DisableDelegation i e => DisableDelegation i (Remote (owned_id e) false)
  | SetAuthority i e status => SetAuthority i (Remote (owned_id e) false) status
  | RequestAuthority i e => RequestAuthority i (Host (owned_id e) false)
  | ReleaseAuthority i e => ReleaseAuthority i (seen_owned self e)
  | EnableDelegationResponse i e => EnableDelegationResponse i (Host (owned_id e) false)
  | MigrateResponse i e r => MigrateResponse i (Host (owned_id e) false) (mkRemoteEntity (re_id r) false)
  | Noop => Noop
  end.

Definition put_components (e : OwnedLocalEntity) (cs : list C) (self : World) : World := fold_left (fun self c => insert_received_component e (component_kind c) c self) cs self.

(** The message handed to the receiver directly, with its components. *)
Definition hand_over (id : CommandId) (m : EntityMessage OwnedLocalEntity) (cs : list C) (self : World) : res World :=
  match m with
  | SpawnWithComponents e _ => receiver_buffer_message id (seen_message self m) (put_components (owned_to_reversed e) cs self)
  | InsertComponent e _ => let local_entity := seen_owned self e in self ← receiver_buffer_message id (seen_message self m) self; Ok (put_components local_entity cs self)
  | _ => receiver_buffer_message id (seen_message self m) self
  end.

(** Reading gives what handing over gives, and goes on behind the bits. *)
Definition reads_as {Y} (x : res (option Y * World)) (rest : list bool) (reader_of : Y -> BitReader) (handed_over : res World) : Prop :=
  match handed_over with
  | Ok self' => exists y, x = Ok (Some y, self') /\ reader_ok (reader_of y) /\ br_bits (reader_of y) = rest
  | Err => x = Err
  | Panic => x = Panic
  | Diverge => x = Diverge
  end.

Lemma buffer_reads id m r rest (self : World) : reader_ok r -> br_bits r = rest -> reads_as (buffer id m r self) rest (fun r => r) (receiver_buffer_message id m self).
Proof using Type. intros Hr Hb. unfold buffer, handed. destruct (receiver_buffer_message id m self); cbn; eauto. Qed.

Lemma read_step {T} (s : Serde T) `{!Lawful s} x rest more r (self : World) (k : T * BitReader -> res (option BitReader * World)) direct : valid s x -> reader_ok r -> br_bits r = enc s x ++ more ->
  (forall r1, reader_ok r1 -> br_bits r1 = more -> reads_as (k (x, r1)) rest (fun r => r) direct) -> reads_as (reading (de s r) self k) rest (fun r => r) direct.
Proof using Type. intros Hx Hr Hb Hk. destruct (de_enc x more r Hx Hr Hb) as (r1 & -> & Ho & B1). exact (Hk r1 Ho B1). Qed.
Lemma owned_step e rest more r (self : World) k direct : in_u 16 (owned_id e) -> reader_ok r -> br_bits r = enc owned_entity_serde e ++ more ->
  (forall r1, reader_ok r1 -> br_bits r1 = more -> reads_as (k (seen_owned self e) r1) rest (fun r => r) direct) -> reads_as (read_owned r self k) rest (fun r => r) direct.
Proof using Type. intros He Hr Hb Hk. apply (read_step owned_entity_serde e rest more); [exact He|exact Hr|exact Hb|]. intros r1 O1 B1. exact (Hk r1 O1 B1). Qed.
Lemma sub_step i rest more r (self : World) k direct : is_byte i -> reader_ok r -> br_bits r = to_bits 8 i ++ more ->
  (forall r1, reader_ok r1 -> br_bits r1 = more -> reads_as (k i r1) rest (fun r => r) direct) -> reads_as (read_sub r self k) rest (fun r => r) direct.
Proof using Type. intros Hi Hr Hb Hk. apply (read_step u8_serde i rest more); [exact Hi|exact Hr|exact Hb|]. intros r1 O1 B1. exact (Hk r1 O1 B1). Qed.
Lemma remote_step id rest more r (self : World) k direct : in_u 16 id -> reader_ok r -> br_bits r = length_enc 7 id ++ more ->
  (forall r1, reader_ok r1 -> br_bits r1 = more -> reads_as (k (mkRemoteEntity id false, r1)) rest (fun r => r) direct) -> reads_as (reading (de remote_entity_serde r) self k) rest (fun r => r) direct.
Proof using Type. intros Hi Hr Hb Hk. apply (read_step remote_entity_serde (mkRemoteEntity id false) rest more); [now split|exact Hr|exact Hb|exact Hk]. Qed.
Lemma host_step id rest more r (self : World) k direct : in_u 16 id -> reader_ok r -> br_bits r = length_enc 7 id ++ more ->
  (forall r1, reader_ok r1 -> br_bits r1 = more -> reads_as (k (mkHostEntity id false, r1)) rest (fun r => r) direct) -> reads_as (reading (de host_entity_serde r) self k) rest (fun r => r) direct.
Proof using Type. intros Hi Hr Hb Hk. apply (read_step host_entity_serde (mkHostEntity id false) rest more); [now split|exact Hr|exact Hb|exact Hk]. Qed.

(** The components of a message arrive, each as the peer sees it. *)
Lemma put_map e cs (self : World) : entity_map (put_components e cs self) = entity_map self.
Proof using Type. revert self. induction cs as [|c cs IH]; intros self; [reflexivity|]. exact (IH _). Qed.
Lemma read_components_enc cs k e kinds r rest (self : World) : Forall (fun c => component_ok c k) cs -> reader_ok r -> br_bits r = bits_list cs k ++ rest ->
  exists r', read_components (length cs) e kinds r self = Ok (Some (kinds ++ map component_kind cs, r'), put_components e (seen_list cs k (entity_map self)) self) /\ reader_ok r' /\ br_bits r' = rest.
Proof using Type.
  revert k kinds r self. induction cs as [|c cs IH]; intros k kinds r self Hok Hr Hb.
  - exists r. cbn. rewrite app_nil_r. now split.
  - apply Forall_cons in Hok as [Hc Hok]. cbn [bits_list] in Hb. rewrite <- app_assoc in Hb. destruct (component_reads c k (entity_map self) r _ Hc Hr Hb) as (r1 & R1 & O1 & B1).
    cbn [read_components length]. unfold reading. rewrite R1, component_seen_kind.
    destruct (IH (component_after c k) (kinds ++ [component_kind c]) r1 (insert_received_component e (component_kind c) (component_seen c k (entity_map self)) self)) as (r' & R & O & B').
    + apply (list_ok_grows _ k); [exact Hok|now apply component_grows].
    + exact O1.
    + exact B1.
    + exists r'. rewrite R. split; [|now split]. cbn [map seen_list put_components fold_left]. rewrite component_seen_kind, <- app_assoc. reflexivity.
Qed.

Definition carries (m : EntityMessage OwnedLocalEntity) (cs : list C) : Prop :=
  match m with SpawnWithComponents _ kinds => map component_kind cs = kinds | InsertComponent _ kind => map component_kind cs = [kind] | _ => cs = [] end.

Lemma stored_kinds world_entity kinds : forallb (has_component_of_kind component_of_kind world_entity) kinds = true -> map component_kind (omap (component_of_kind world_entity) kinds) = kinds.
Proof using kind_of_stored.
  induction kinds as [|kind kinds IH]; intros Hall; [reflexivity|]. cbn [forallb] in Hall. apply andb_true_iff in Hall as [Hk Hall]. unfold has_component_of_kind in Hk. apply bool_decide_eq_true in Hk as [c Hc].
  cbn [omap list_omap]. rewrite Hc. cbn [map]. rewrite (kind_of_stored world_entity kind c Hc), IH by exact Hall. reflexivity.
Qed.
Lemma resolved_carries self x m : resolves self x m -> carries m (payload x.2 m).
Proof using kind_of_stored.
  intros [Hm _ _]. destruct x as [id command]. cbn [snd] in *. unfold payload. destruct command as [g|g kinds|g|g kind|g kind|sub g|sub g|sub g|sub g|sub g status|sub g|sub g|sub g|sub g old new]; cbn [message_of EntityCommand_entity] in *;
    try (destruct sub as [i|]; [|discriminate]; cbn in Hm);
    try (destruct (to_world g) as [world_entity|] eqn:Hg; [|injection Hm as <-; reflexivity]); try (destruct (negb _ || _) eqn:Hb; [injection Hm as <-; reflexivity|]); try (destruct (negb _); [injection Hm as <-; now repeat case_match|]);
    try (injection Hm as <-; now repeat case_match); mapped self g Hm Ho; try (now repeat case_match).
  all: apply orb_false_iff in Hb as [_ Hall]; apply negb_false_iff in Hall; cbn [carries].
  - now apply stored_kinds.
  - apply (stored_kinds world_entity [kind]). cbn [forallb]. now rewrite Hall.
Qed.

Ltac sub_owned_read Hok Hid Hr Hb := eapply sub_step; [exact Hok|exact Hr|exact Hb|]; intros ?r1 ?O1 ?B1; eapply owned_step; [exact Hid|eassumption|eassumption|]; intros ?r2 ?O2 ?B2; now apply buffer_reads.
Ltac sub_remote_read Hok Hid Hr Hb := eapply sub_step; [exact Hok|exact Hr|exact Hb|]; intros ?r1 ?O1 ?B1; eapply remote_step; [exact Hid|eassumption|eassumption|]; intros ?r2 ?O2 ?B2; now apply buffer_reads.
Ltac sub_host_read Hok Hid Hr Hb := eapply sub_step; [exact Hok|exact Hr|exact Hb|]; intros ?r1 ?O1 ?B1; eapply host_step; [exact Hid|eassumption|eassumption|]; intros ?r2 ?O2 ?B2; now apply buffer_reads.

Lemma read_body_enc id m cs k r rest (self : World) : message_ok m -> carries m cs -> Forall (fun c => component_ok c k) cs -> reader_ok r ->
  br_bits r = drop 4 (body_bits m (bits_list cs k)) ++ rest ->
  reads_as (read_body component_kinds id (get_type m) r self) rest (fun r => r) (hand_over id m (seen_list cs k (entity_map self)) self).
Proof using kinds_registered.
  intros [Hid Hok] Hcar Hcs Hr Hb. unfold body_bits in Hb. rewrite drop_app_length' in Hb by reflexivity.
  destruct m; cbn [EntityMessage_entity get_type read_body hand_over seen_message carries] in *; unfold_reads; rewrite <- ?app_assoc in Hb.
  - apply (remote_step (owned_id e) rest rest); [exact Hid|exact Hr|exact Hb|]. intros r1 O1 B1. now apply buffer_reads.
  - eapply (read_step owned_entity_serde e rest); [exact Hid|exact Hr|exact Hb|]. intros r1 O1 B1. apply (read_step u8_serde (Z.of_nat (length kinds)) rest (bits_list cs k ++ rest)); [cbn; unfold is_byte; lia|exact O1|exact B1|]. intros r2 O2 B2.
    rewrite Nat2Z.id. subst kinds. rewrite length_map. destruct (read_components_enc cs k (owned_to_reversed e) [] r2 rest self Hcs O2 B2) as (r3 & -> & O3 & B3). rewrite bind_ok. now apply buffer_reads.
  - apply (owned_step e rest rest); [exact Hid|exact Hr|exact Hb|]. intros r1 O1 B1. now apply buffer_reads.
  - apply (owned_step e rest _ r self _ _ Hid Hr Hb). intros r1 O1 B1. destruct cs as [|c [|c' cs]]; [discriminate| |discriminate]. injection Hcar as Hk. apply Forall_cons in Hcs as [Hc _]. cbn [bits_list] in B1. rewrite app_nil_r in B1.
    destruct (component_reads c k (entity_map self) r1 rest Hc O1 B1) as (r2 & R2 & O2 & B2). unfold reading. rewrite R2, component_seen_kind, Hk. unfold handed. cbn [seen_list put_components fold_left]. rewrite component_seen_kind, Hk.
    unfold reads_as. destruct (receiver_buffer_message id _ self); cbn; eauto.
  - apply (owned_step e rest _ r self _ _ Hid Hr Hb). intros r1 O1 B1. apply (read_step (Lawful0 := kind_lawful builder component_kinds kinds_registered) (kind_serde component_kinds) kind rest rest); [exact Hok|exact O1|exact B1|]. intros r2 O2 B2. now apply buffer_reads.
  - sub_owned_read Hok Hid Hr Hb.
  - sub_owned_read Hok Hid Hr Hb.
  - sub_owned_read Hok Hid Hr Hb.
  - sub_remote_read Hok Hid Hr Hb.
  - eapply (sub_step sub rest); [exact Hok|exact Hr|exact Hb|]; intros r1 O1 B1. eapply (remote_step (owned_id e) rest); [exact Hid|exact O1|exact B1|]. intros r2 O2 B2.
    apply (read_step auth_status_serde status rest rest); [split; [exact Logic.I|destruct status; cbn; lia]|exact O2|exact B2|]. intros r3 O3 B3. now apply buffer_reads.
  - sub_host_read Hok Hid Hr Hb.
  - sub_owned_read Hok Hid Hr Hb.
  - sub_host_read Hok Hid Hr Hb.
  - destruct Hok as [Hi Ho]. eapply (sub_step sub rest); [exact Hi|exact Hr|exact Hb|]; intros r1 O1 B1. eapply (host_step (owned_id e) rest); [exact Hid|exact O1|exact B1|]. intros r2 O2 B2.
    apply (remote_step (re_id other) rest rest); [exact Ho|exact O2|exact B2|]. intros r3 O3 B3. now apply buffer_reads.
  - now apply buffer_reads.
Qed.

Lemma ascending_app {X} last (l1 l2 : list (MessageIndex * X)) : ascending last (l1 ++ l2) -> ascending last l1.
Proof using Type. revert last. induction l1 as [|[i x] l1 IH]; intros last; [done|]. cbn. intros [Hi Ha]. split; [exact Hi|now apply IH]. Qed.

(** One message. *)
Lemma read_one last x m k r rest (self : World) : step_ok last x.1 -> message_ok m -> carries m (payload x.2 m) -> Forall (fun c => component_ok c k) (payload x.2 m) -> reader_ok r ->
  br_bits r = index_enc last x.1 ++ body_bits m (bits_list (payload x.2 m) k) ++ rest ->
  match hand_over x.1 m (seen_list (payload x.2 m) k (entity_map self)) self with
  | Ok self' => exists r', read_message component_kinds last r self = Ok (Some (x.1, r'), self') /\ reader_ok r' /\ br_bits r' = rest
  | Err => read_message component_kinds last r self = Err
  | Panic => read_message component_kinds last r self = Panic
  | Diverge => read_message component_kinds last r self = Diverge
  end.
Proof using kinds_registered.
  intros Hs Hok Hcar Hcs Hr Hb. destruct (read_index_enc last x.1 _ r Hs Hr Hb) as (r1 & R1 & O1 & B1).
  assert (br_bits r1 = enc message_type_serde (get_type m) ++ drop 4 (body_bits m (bits_list (payload x.2 m) k)) ++ rest) as B1'.
  { rewrite B1. unfold body_bits. rewrite drop_app_length' by reflexivity. now rewrite <- app_assoc. }
  destruct (de_enc (get_type m) _ r1 (type_valid (get_type m)) O1 B1') as (r2 & R2 & O2 & B2).
  unfold read_message, reading. rewrite R1, R2. pose proof (read_body_enc x.1 m (payload x.2 m) k r2 rest self Hok Hcar Hcs O2 B2) as Hread. unfold reads_as in Hread.
  destruct (hand_over _ m _ self) as [self'| | |]; [destruct Hread as (r' & -> & O3 & B3); rewrite bind_ok; eauto|..]; rewrite Hread; reflexivity.
Qed.

(** The messages of a packet handed over one after the other. *)
Fixpoint hand_all (l : list ((CommandId * EntityCommand) * EntityMessage OwnedLocalEntity)) (k : Converter) (peer : World) : res World :=
  match l with
  | [] => Ok peer
  | (x, m) :: l => peer ← hand_over x.1 m (seen_list (payload x.2 m) k (entity_map peer)) peer; hand_all l (after_list (payload x.2 m) k) peer
  end.

Lemma read_loop_commands fuel last l k r rest (self peer : World) : converter_mut self = k -> Forall (fun x => resolves self x.1 x.2) l -> ascending last l.*1 -> (length l < fuel)%nat -> reader_ok r ->
  br_bits r = commands_enc last l k ++ false :: rest -> reads_as (read_messages_from component_kinds fuel last r peer) rest (fun r => r) (hand_all l k peer).
Proof using kinds_registered kind_of_stored.
  revert last k l r self peer. induction fuel as [|fuel IH]; intros last k l r self peer Hk Hr Ha Hf Ho Hb; [lia|]. cbn [read_messages_from]. destruct l as [|[x m] l].
  - destruct (read_bit_enc _ _ _ Ho Hb) as (r1 & R1 & O1 & B1). cbn [de bool_serde]. rewrite R1. cbn. eauto.
  - apply Forall_cons in Hr as [Hx Hr]. cbn [fst snd] in Hx. destruct x as [id command]. cbn [fmap list_fmap fst] in Ha. destruct Ha as [Hst Ha].
    cbn [commands_enc] in Hb. unfold one_enc in Hb. rewrite <- !app_comm_cons, <- !app_assoc in Hb. destruct (read_bit_enc _ _ _ Ho Hb) as (r1 & R1 & O1 & B1). cbn [de bool_serde]. rewrite R1. cbn [reading negb].
    pose proof (read_one last (id, command) m k r1 _ peer Hst (rv_ok _ _ _ Hx) (resolved_carries _ _ _ Hx) ltac:(rewrite <- Hk; apply Hx) O1 B1) as Hone. cbn [hand_all fst].
    destruct (hand_over _ m _ peer) as [peer1| | |]; cbn [fst] in Hone; [destruct Hone as (r2 & -> & O2 & B2)|rewrite Hone; reflexivity..]. rewrite !bind_ok.
    set (self1 := converter_after (payload command m) self).
    assert (later self self1) as Hl by (split; [unfold self1, converter_after; rewrite converter_set; apply list_grows; apply Hx|reflexivity]).
    apply (IH (Some id) _ l r2 self1 peer1); [unfold self1, converter_after; now rewrite converter_set, Hk| |exact Ha|cbn in Hf; lia|exact O2|exact B2].
    eapply Forall_impl; [exact Hr|]. intros y Hy. now apply (resolves_later self).
Qed.

Lemma commands_enc_length last l k : (length l <= length (commands_enc last l k))%nat.
Proof using Type. revert last k. induction l as [|[x m] l IH]; intros last k; [cbn; lia|]. cbn [commands_enc length]. unfold one_enc. rewrite length_app. cbn [length]. specialize (IH (Some x.1) (after_list (payload x.2 m) k)). lia. Qed.

(** The entity commands of a packet: the writer writes the longest beginning of the queue that fits
    and records it; the peer goes through the same messages in the same order. *)
Lemma commands_written p now queue w hw (self : World) : Forall (fun x => resolves self x.1 x.2) queue -> ascending None queue.*1 -> writer_ok w ->
  bw_current_bits w <= bw_max_bits w < MTU_SIZE_BITS -> newest p (sent_command_packets self) ->
  (hw = true \/ match queue with [] => True | (x, m) :: _ => fits w (one_enc None x m (converter_mut self)) = true end) ->
  exists done rest w0 w' self', queue = done ++ rest /\
    write_commands component_kinds to_world component_of_kind now p queue.*1 w hw self = Ok (rest.*1, w', hw || negb (bool_decide (done = [])), self') /\
    sent_command_packets self' = with_packet p now (acts_of done) (sent_command_packets self) /\ updater self' = updater self /\
    extends w (commands_enc None done (converter_mut self)) w0 /\ stopped (last_sent None done) rest (after_commands done (converter_mut self)) w0 /\
    writer_ok w' /\ bw_bits w' = bw_bits w ++ commands_enc None done (converter_mut self) ++ [false] /\
    forall more r (peer : World), reader_ok r -> br_bits r = commands_enc None done (converter_mut self) ++ false :: more ->
      reads_as (read_messages component_kinds r peer) more (fun r => r) (hand_all done (converter_mut self) peer).
Proof using kinds_registered kind_of_stored.
  intros Hr Ha Hw Hb Hn Hfirst.
  destruct (write_loop_commands p now queue None w hw self (sent_command_packets self) [] Hr Ha Hw ltac:(lia) Hn) as (done & rest & w0 & self' & -> & Hloop & X & Bd & Hsent & Hu & Hstop);
    [now unfold with_packet; rewrite decide_True|exact Hfirst|].
  pose proof X as (O0 & B0 & M0 & _). change MTU_SIZE_BITS with 3440 in Hb. pose proof (writer_ok_current _ O0).
  pose proof (write_bit_spec false _ (set_max_ok w0 (bw_max_bits w0 + 1) O0)) as P2.
  change (bw_current_bits (bw_set_max w0 (bw_max_bits w0 + 1))) with (bw_current_bits w0) in P2. change (bw_max_bits (bw_set_max w0 (bw_max_bits w0 + 1))) with (bw_max_bits w0 + 1) in P2.
  rewrite !(proj2 (Z.leb_le _ _)) in P2 by lia. destruct P2 as (w2 & E2 & O2 & B2 & _).
  exists done, rest, w0, w2, self'. split; [reflexivity|]. split.
  { unfold write_commands. rewrite Hloop, bind_ok. unfold BitWriter_release_bits. rewrite uadd_ok, !bind_ok by lia. cbn [ser bool_serde write_bit BitWriter_BitWrite]. now rewrite E2. }
  split; [exact Hsent|]. split; [exact Hu|]. split; [exact X|]. split; [exact Hstop|]. split; [exact O2|]. split.
  { rewrite B2. change (bw_bits (bw_set_max w0 (bw_max_bits w0 + 1))) with (bw_bits w0). now rewrite B0, <- app_assoc. }
  intros more r peer Hor Hbr. apply (read_loop_commands _ None done (converter_mut self) r more self peer eq_refl); [| | |exact Hor|exact Hbr].
  - now apply Forall_app in Hr as [Hr _].
  - rewrite fmap_app in Ha. now apply ascending_app in Ha.
  - pose proof (chunk_fuel_enough r Hor) as Hf. rewrite Hbr, length_app in Hf. pose proof (commands_enc_length None done (converter_mut self)). lia.
Qed.
End Facts.
