(* ===== verification/WorldWireStops.v ===== *)
(** The world reader on any input: reading the entity part of a packet ends, whatever the bytes,
    the loop that fills the receiver's record included; and sample runs of the writer against the
    reader. *)

From Stdlib Require Import ZArith Lia.
From stdpp Require Import base numbers option list gmap sets strings.
From S2P Require Import MessageManager Prelude BitIO Number Serde Wrapping Wire Kinds SequenceList Reliable MessageWire Channels EntityTypes SyncEngine HostSync DiffMask DirtyQueue DiffHandlers UpdateManager EntityMaps LocalEntities Waitlist RemoteWorld HostWorld LocalWorld LocalWorldFacts WorldWire WorldWireFacts.
Import LocalEntityMap HostEntityGenerator GlobalEntityMap.

(** * Decoders that stop *)
(** [Stops] for a read of any kind. *)
Definition read_stops {T} (read : BitReader -> res (T * BitReader)) : Prop := forall r, reader_ok r ->
  read r <> Diverge /\ forall x r', read r = Ok (x, r') -> reader_ok r' /\ (length (br_bits r') <= length (br_bits r))%nat.

Lemma read_stops_bind {T X} (read : BitReader -> res (T * BitReader)) (k : T * BitReader -> res (X * BitReader)) :
  read_stops read -> (forall x, read_stops (fun r => k (x, r))) -> read_stops (fun r => p ← read r; k p).
Proof.
  intros H Hk r Hr. destruct (H r Hr) as [D S]. destruct (read r) as [[x r1]| | |]; try (cbn [mbind res_bind]; split; [congruence|intros; congruence]).
  destruct (S _ _ eq_refl) as [O1 L1]. rewrite bind_ok. destruct (Hk x r1 O1) as [D1 S1]. split; [exact D1|]. intros y r' E. destruct (S1 _ _ E). split; [assumption|lia].
Qed.
Lemma read_stops_ret {T} (x : T) : read_stops (fun r => Ok (x, r)).
Proof. intros r Hr. split; [discriminate|]. intros y r' [= <- <-]. now split. Qed.
Lemma read_stops_err {T} : read_stops (fun r => @Err (T * BitReader)).
Proof. intros r Hr. split; [discriminate|]. intros y r' [=]. Qed.

#[export] Instance u8_stops : Stops u8_serde.
Proof.
  intros r Hr. cbn [de u8_serde]. rewrite read_byte_bits by exact Hr. pose proof (read_bits_spec 8 r Hr) as P. destruct (_ <=? _)%nat; [|rewrite P; split; [discriminate|intros; discriminate]].
  destruct P as (r1 & -> & O1 & B1). rewrite bind_ok. split; [discriminate|]. intros x r' [= <- <-]. split; [exact O1|]. rewrite B1, length_drop. lia.
Qed.
#[export] Instance iso_stops {T X} (f : T -> X) (g : X -> T) (s : Serde X) `{!Stops s} : Stops (iso_serde f g s).
Proof. apply (read_stops_bind (de s)); [exact Stops0|]. intros x. apply read_stops_ret. Qed.
#[export] Instance narrow_stops bits : 0 <= bits <= 32 -> Stops (integer_serde false false bits).
Proof.
  intros Hb r Hr. cbn [de integer_serde]. unfold SerdeNumberInner_de. rewrite !bind_ok, (proj2 (Z.leb_le _ _)) by lia. destruct (read_lsb_safe 32 (Z.to_nat bits) 0 0 r Hr) as [D K].
  destruct (read_lsb 32 (Z.to_nat bits) 0 0 r) as [[v r1]| | |]; try (cbn [mbind res_bind]; split; [congruence|intros; congruence]). rewrite !bind_ok. split; [discriminate|]. intros x r' [= <- <-]. exact (K _ _ eq_refl).
Qed.
#[export] Instance variant_stops count : 0 <= bits_needed_for count <= 32 -> Stops (variant_serde count).
Proof.
  intros Hb. apply (read_stops_bind (de (integer_serde false false (bits_needed_for count)))); [now apply narrow_stops|]. intros x. cbn beta iota zeta. case_match; [apply read_stops_ret|apply read_stops_err].
Qed.
#[export] Instance variable_u16_stops bits : Stops (variable_u16_serde bits).
Proof. apply (read_stops_bind (de (integer_serde false true bits))); [apply variable_stops|]. intros x. apply read_stops_ret. Qed.
#[export] Instance owned_entity_stops : Stops owned_entity_serde.
Proof.
  apply (read_stops_bind (de bool_serde)); [apply bool_stops|]. intros x. apply (read_stops_bind (de bool_serde)); [apply bool_stops|]. intros y.
  apply (read_stops_bind (de (variable_u16_serde 7))); [apply variable_u16_stops|]. intros z. apply read_stops_ret.
Qed.
#[export] Instance message_type_stops : Stops message_type_serde.
Proof. apply iso_stops, variant_stops. vm_compute. now split. Qed.
#[export] Instance auth_status_stops : Stops auth_status_serde.
Proof. apply iso_stops, variant_stops. vm_compute. now split. Qed.
#[export] Instance host_entity_stops : Stops host_entity_serde.
Proof. apply iso_stops, variable_u16_stops. Qed.
#[export] Instance remote_entity_stops : Stops remote_entity_serde.
Proof. apply iso_stops, variable_u16_stops. Qed.


(** A 16-bit number that was read is one. *)
Lemma read_bytes_range n r bs r' : reader_ok r -> read_bytes n r = Ok (bs, r') -> 0 <= of_le_bytes bs < 256 ^ Z.of_nat n.
Proof.
  revert r bs r'. induction n as [|n IH]; intros r bs r' Hr E; cbn [read_bytes] in E; [injection E as <- _; cbn; lia|]. rewrite read_byte_bits in E by exact Hr. pose proof (read_bits_spec 8 r Hr) as P.
  destruct (_ <=? _)%nat eqn:L in P; [|rewrite P in E; discriminate]. destruct P as (r1 & R1 & O1 & _). rewrite R1, !bind_ok in E. apply bind_ok_inv in E as ([bs1 r2] & E1 & E). injection E as <- _.
  pose proof (IH r1 bs1 r2 O1 E1). apply Nat.leb_le in L. pose proof (of_bits_range (take 8 (br_bits r))) as Hb. rewrite length_take_le in Hb by exact L. change (2 ^ Z.of_nat 8) with 256 in Hb.
  cbn [of_le_bytes]. rewrite Nat2Z.inj_succ, Z.pow_succ_r by lia. lia.
Qed.

Lemma read_index_stops last r : reader_ok r -> read_message_index last r <> Diverge /\
  forall i r', read_message_index last r = Ok (i, r') -> in_u 16 i /\ reader_ok r' /\ (length (br_bits r') <= length (br_bits r))%nat.
Proof.
  intros Hr. destruct last as [l|]; cbn [read_message_index].
  - destruct (variable_stops 3 r Hr) as [D S]. destruct (de (integer_serde false true 3) r) as [[n r1]| | |]; try (cbn [mbind res_bind]; split; [congruence|intros; congruence]).
    rewrite bind_ok. split; [discriminate|]. intros i r' [= <- <-]. split; [|exact (S _ _ eq_refl)]. pose proof (wrap_range 16 (l + wrap 16 (SerdeInteger_get n)) ltac:(lia)). exact H.
  - destruct (uint_stops 2 r Hr) as [D S]. split; [exact D|]. intros i r' E. split; [|exact (S _ _ E)]. cbn [de u16_serde uint_serde] in E. apply bind_ok_inv in E as ([bs r1] & E1 & E). injection E as <- _.
    apply read_bytes_range in E1; [|exact Hr]. exact E1.
Qed.

(** * The record of the receiver *)
(** Whatever the record holds, the loop ends with the message found, or after filling in the
    indices up to it, at most 65536 of them. *)
Lemma buffer_loop_total fuel i oldest k (rec : list (MessageIndex * bool)) : in_u 16 i -> (k <= length rec)%nat ->
  (Z.of_nat (length rec - k) + wrap 16 (i - oldest - Z.of_nat (length rec)) < Z.of_nat fuel) -> exists o, buffer_loop fuel i oldest k rec = Ok o.
Proof.
  revert k rec. induction fuel as [|fuel IH]; intros k rec Hi Hk Hf; [pose proof (wrap_range 16 (i - oldest - Z.of_nat (length rec)) ltac:(lia)); lia|]. cbn [buffer_loop]. destruct (Nat.ltb_spec k (length rec)) as [Hl|Hl].
  - assert (exists o, buffer_loop fuel i oldest (S k) rec = Ok o) as Hnext by (apply IH; [exact Hi|lia|lia]). destruct (rec !! k) as [[old received]|]; [|exact Hnext]. destruct (old =? i); [|exact Hnext]. destruct received; eauto.
  - assert (k = length rec) as -> by lia. destruct (Z.eqb_spec (wrapping_add16 oldest (wrap 16 (Z.of_nat (length rec)))) i) as [He|He]; [eauto|]. apply IH; [exact Hi|rewrite length_app; cbn; lia|].
    rewrite length_app. cbn [length]. replace (length rec + 1 - S (length rec))%nat with 0%nat by lia. unfold wrapping_add16 in He. rewrite wrap16_add_r in He.
    unfold wrap, in_u in *. change (2 ^ 16) with 65536 in *. replace (i - oldest - Z.of_nat (length rec + 1)) with (i - oldest - Z.of_nat (length rec) - 1) by lia.
    assert ((i - oldest - Z.of_nat (length rec)) mod 65536 <> 0) as Hn by (intros Hz; apply He; dlia). dlia.
Qed.
Lemma buffer_total {M} i (m : M) r : in_u 16 i -> exists r', ReliableReceiver_buffer_message i m r = Ok r'.
Proof.
  intros Hi. unfold ReliableReceiver_buffer_message. destruct (sequence_less_than _ _); [eauto|].
  destruct (buffer_loop_total (buffer_fuel (record r)) i (oldest_received_message_index r) 0 (record r)) as [o ->]; [exact Hi|lia|unfold buffer_fuel; pose proof (wrap_range 16 (i - oldest_received_message_index r - Z.of_nat (length (record r))) ltac:(lia)); lia|].
  rewrite bind_ok. destruct o as [rec|]; [|eauto]. destruct (clear_old_messages _ rec). eauto.
Qed.

(** * Reading *)
Section Stops.
Context {E C U F A : Type} {eqA : EqDecision A} {cA : Countable A} {replicate : Replicate C U F} {B : Type} (component_kinds : Kinds ComponentKind B).
Abbreviation World := (@LocalWorldManager C U F A).
Abbreviation Converter := (LocalEntityMap * @HostWorldManager C)%type.
Context {wire : ComponentWire C U Converter}.
(** The derived code of components and updates stops. *)
Context (components_stop : forall m, read_stops (fun r => component_read r m)) (updates_stop : read_stops update_read).

(** It ends, and with no more than [n] bits left when there was no error. *)
Definition ends {Y} (reader_of : Y -> BitReader) (n : nat) (x : res (option Y * World)) : Prop :=
  match x with
  | Ok (Some y, _) => reader_ok (reader_of y) /\ (length (br_bits (reader_of y)) <= n)%nat
  | Diverge => False
  | _ => True
  end.
Abbreviation reader := (fun r : BitReader => r).

Lemma reading_ends {T Y} (read : BitReader -> res (T * BitReader)) (reader_of : Y -> BitReader) n r (self : World) k : read_stops read -> reader_ok r -> (length (br_bits r) <= n)%nat ->
  (forall x r1, reader_ok r1 -> (length (br_bits r1) <= n)%nat -> ends reader_of n (k (x, r1))) -> ends reader_of n (reading (read r) self k).
Proof using Type.
  intros H Hr Hn Hk. destruct (H r Hr) as [D S]. unfold reading. destruct (read r) as [[x r1]| | |]; [|exact Logic.I|exact Logic.I|now apply D]. destruct (S _ _ eq_refl). apply Hk; [assumption|lia].
Qed.
Lemma ends_bind {Y Z} (of_y : Y -> BitReader) (of_z : Z -> BitReader) n (x : res (option Y * World)) k : ends of_y n x -> (forall self, ends of_z n (k (None, self))) ->
  (forall y self, reader_ok (of_y y) -> (length (br_bits (of_y y)) <= n)%nat -> ends of_z n (k (Some y, self))) -> ends of_z n (p ← x; k p).
Proof using Type. intros Hx Hn Hs. destruct x as [[[y|] self]| | |]; [|apply Hn|exact Logic.I|exact Logic.I|destruct Hx]. destruct Hx. now apply Hs. Qed.

Lemma buffer_ends n id m r (self : World) : in_u 16 id -> reader_ok r -> (length (br_bits r) <= n)%nat -> ends reader n (buffer id m r self).
Proof using Type. intros Hi Hr Hn. unfold buffer, handed, receiver_buffer_message. destruct (buffer_total id m (lw_receiver self) Hi) as [rc ->]. now split. Qed.

Lemma read_components_ends fuel n e kinds r (self : World) : reader_ok r -> (length (br_bits r) <= n)%nat -> ends (fun x => x.2) n (read_components fuel e kinds r self).
Proof using components_stop.
  revert kinds r self. induction fuel as [|fuel IH]; intros kinds r self Hr Hn; [now split|]. cbn [read_components]. apply (reading_ends (fun r => component_read r (entity_map self))); [apply components_stop|exact Hr|exact Hn|]. intros c r1 O1 L1. now apply IH.
Qed.

Ltac next_read := match goal with
  | |- ends _ _ (read_sub _ _ _) => unfold read_sub; apply (reading_ends (de u8_serde)); [apply u8_stops|assumption|assumption|]; intros ? ? ? ?
  | |- ends _ _ (read_owned _ _ _) => unfold read_owned; apply (reading_ends (de owned_entity_serde)); [apply owned_entity_stops|assumption|assumption|]; intros ? ? ? ?
  | |- ends _ _ (reading (de ?s _) _ _) => apply (reading_ends (de s)); [change (Stops s); apply _|assumption|assumption|]; intros ? ? ? ?
  | |- ends _ _ (buffer _ _ _ _) => now apply buffer_ends
  end.

Lemma read_body_ends n id t r (self : World) : in_u 16 id -> reader_ok r -> (length (br_bits r) <= n)%nat -> ends reader n (read_body component_kinds id t r self).
Proof using components_stop.
  intros Hi Hr Hn. destruct t; cbn [read_body]; unfold_reads; repeat next_read.
  - eapply (ends_bind (fun x => x.2)); [now apply read_components_ends|intros s; exact Logic.I|]. intros [kinds r2] s O2 L2. now apply buffer_ends.
  - apply (reading_ends (fun r => component_read r (entity_map self))); [apply components_stop|assumption|assumption|]. intros c r2 O2 L2. unfold handed, receiver_buffer_message.
    match goal with |- context [ReliableReceiver_buffer_message id ?m _] => destruct (buffer_total id m (lw_receiver self) Hi) as [rc ->] end. now split.
  - apply (reading_ends (de (kind_serde component_kinds))); [apply kind_stops|assumption|assumption|]. intros kind r2 O2 L2. now apply buffer_ends.
Qed.

Lemma read_message_ends last n r (self : World) : reader_ok r -> (length (br_bits r) <= n)%nat -> ends (fun x => x.2) n (read_message component_kinds last r self).
Proof using components_stop.
  intros Hr Hn. unfold read_message, reading at 1. destruct (read_index_stops last r Hr) as [D S]. destruct (read_message_index last r) as [[i r1]| | |]; [|exact Logic.I|exact Logic.I|now apply D].
  destruct (S _ _ eq_refl) as (Hi & O1 & L1). apply (reading_ends (de message_type_serde)); [apply message_type_stops|exact O1|lia|]. intros t r2 O2 L2.
  eapply (ends_bind reader); [now apply read_body_ends|intros s; exact Logic.I|]. intros r3 s O3 L3. now split.
Qed.

(** A loop ends: every round takes a bit. *)
Lemma bit_round {Y} (reader_of : Y -> BitReader) n r (self : World) k : reader_ok r -> (length (br_bits r) <= n)%nat ->
  (forall b r1, reader_ok r1 -> (length (br_bits r1) < n)%nat -> (length (br_bits r1) < length (br_bits r))%nat -> ends reader_of n (k (b, r1))) -> ends reader_of n (reading (de bool_serde r) self k).
Proof using Type.
  intros Hr Hn Hk. unfold reading. cbn [de bool_serde]. pose proof (read_bit_diverge r Hr) as D. destruct (BitReader_read_bit r) as [[b r1]| | |] eqn:E1; [|exact Logic.I|exact Logic.I|now apply D].
  apply read_bit_shrink in E1 as [O1 L1]; [|exact Hr]. apply Hk; [exact O1|lia|lia].
Qed.

Lemma read_messages_ends fuel last n r (self : World) : reader_ok r -> (length (br_bits r) <= n)%nat -> (length (br_bits r) < fuel)%nat -> ends reader n (read_messages_from component_kinds fuel last r self).
Proof using components_stop.
  revert last r self. induction fuel as [|fuel IH]; intros last r self Hr Hn Hf; [lia|]. cbn [read_messages_from]. apply bit_round; [exact Hr|exact Hn|]. intros b r1 O1 L1 L1'. destruct b; cbn [negb]; [|now split; [|lia]].
  pose proof (read_message_ends last (length (br_bits r1)) r1 self O1 ltac:(lia)) as Hm. destruct (read_message component_kinds last r1 self) as [[[[i r2]|] s]| | |]; try exact Hm. destruct Hm as [O2 L2]. cbn [snd] in *. apply IH; [exact O2|lia|lia].
Qed.

Lemma read_update_ends fuel tick e n r (self : World) : reader_ok r -> (length (br_bits r) <= n)%nat -> (length (br_bits r) < fuel)%nat -> ends reader n (read_update fuel tick e r self).
Proof using updates_stop.
  revert r self. induction fuel as [|fuel IH]; intros r self Hr Hn Hf; [lia|]. cbn [read_update]. apply bit_round; [exact Hr|exact Hn|]. intros b r1 O1 L1 L1'. destruct b; cbn [negb]; [|now split; [|lia]].
  destruct (updates_stop r1 O1) as [D S]. unfold reading. destruct (update_read r1) as [[u r2]| | |]; [|exact Logic.I|exact Logic.I|now apply D]. destruct (S _ _ eq_refl) as [O2 L2]. apply IH; [exact O2|lia|lia].
Qed.

Lemma read_updates_ends fuel tick n r (self : World) : reader_ok r -> (length (br_bits r) <= n)%nat -> (length (br_bits r) < fuel)%nat -> ends reader n (read_updates_from fuel tick r self).
Proof using updates_stop.
  revert r self. induction fuel as [|fuel IH]; intros r self Hr Hn Hf; [lia|]. cbn [read_updates_from]. apply bit_round; [exact Hr|exact Hn|]. intros b r1 O1 L1 L1'. destruct b; cbn [negb]; [|now split; [|lia]].
  destruct (owned_entity_stops r1 O1) as [D S]. unfold reading. destruct (de owned_entity_serde r1) as [[e r2]| | |]; [|exact Logic.I|exact Logic.I|now apply D]. destruct (S _ _ eq_refl) as [O2 L2].
  pose proof (read_update_ends (chunk_fuel r2) tick (LocalMap_redirect (entity_map self) (owned_to_reversed e)) (length (br_bits r2)) r2 self O2 ltac:(lia) (chunk_fuel_enough r2 O2)) as Hu.
  destruct (read_update _ tick _ r2 self) as [[[r3|] s]| | |]; try exact Hu. destruct Hu as [O3 L3]. rewrite bind_ok. apply IH; [exact O3|lia|lia].
Qed.

(** C19: reading the entity part of a packet ends on every input: whatever the bytes and the state
    of the connection, [read_world_events] ends with the reader behind the part, an error or a
    panic, and never goes on forever, if the derived code of components and updates stops; the
    loops over updates, components and messages each take a bit a round, and the loop of the
    receiver that fills its record up to the message's index ends too. *)
Theorem world_reading_ends tick r (self : World) : reader_ok r ->
  match read_world_events component_kinds tick r self with
  | Ok (Some r', _) => reader_ok r' /\ (length (br_bits r') <= length (br_bits r))%nat
  | Diverge => False
  | _ => True
  end.
Proof using components_stop updates_stop.
  intros Hr. unfold read_world_events, read_updates. pose proof (read_updates_ends (chunk_fuel r) tick _ r self Hr (le_n _) (chunk_fuel_enough r Hr)) as Hu.
  destruct (read_updates_from _ tick r self) as [[[r1|] s]| | |]; try exact Hu. destruct Hu as [O1 L1]. rewrite bind_ok.
  exact (read_messages_ends (chunk_fuel r1) None _ r1 s O1 L1 (chunk_fuel_enough r1 O1)).
Qed.
End Stops.

(** * Runs *)
Module WireSample.
Import LocalSample.
(** Components of 256 kinds, each a byte on the wire that tells its kind. *)
#[export] Instance byte_replicate : Replicate Z unit unit := {|
  component_kind c := c; relations_waiting _ := None; relations_complete _ c := Ok c;
  update_kind _ := 1; field_id _ := 0; split_into_waiting_and_ready _ _ := None |}.
Definition byte_kinds : Kinds ComponentKind unit := match register (fun _ : ComponentKind => tt) [(1, "Byte"%string)] with Ok ks => ks | _ => Kinds_new end.
#[export] Instance byte_wire : ComponentWire Z unit (LocalEntityMap * @HostWorldManager Z) := {|
  component_write W _ c w k := w ← ser u8_serde c w; Ok (w, k);
  component_read r _ := de u8_serde r;
  update_write W _ _ c w k := w ← ser u8_serde c w; Ok (w, k);
  update_read r := '(_, r) ← de (kind_serde byte_kinds) r; '(_, r) ← de u8_serde r; Ok (tt, r) |}.

#[export] Program Instance byte_laws : ComponentWireLaws (C := Z) (U := unit) (F := unit) := {|
  conv_grows := eq;
  component_ok c _ := is_byte c;
  component_bits c _ := to_bits 8 c;
  component_after _ k := k;
  component_seen c _ _ := c |}.
Next Obligation. reflexivity. Qed.
Next Obligation. congruence. Qed.
Next Obligation. now intros k ? g e <-. Qed.
Next Obligation. intros k ? g <- H. now left. Qed.
Next Obligation. now intros k ? h <-. Qed.
Next Obligation. now intros c k ? H _. Qed.
Next Obligation. reflexivity. Qed.
Next Obligation. now split. Qed.
Next Obligation. intros c k Hc W bw bwl w Hw. change ((w ← ser u8_serde c w; Ok (w, k)) = (w' ← write_bits (to_bits 8 c) w; Ok (w', k))). now rewrite (ser_enc (Lawful := u8_lawful) W c w Hc Hw). Qed.
Next Obligation. intros c k m r rest Hc Hr Hb. exact (de_enc (Lawful := u8_lawful) c rest r Hc Hr Hb). Qed.
Next Obligation. intros c k _. cbn. lia. Qed.
Next Obligation. reflexivity. Qed.

Lemma byte_kinds_ok : kinds_ok (fun _ => tt) byte_kinds.
Proof. destruct (register_ok (fun _ : ComponentKind => tt) [(1, "Byte"%string)] ltac:(cbn; lia)) as (ks & E & Hok & _). unfold byte_kinds. now rewrite E. Qed.

Definition sample_entity (g : GlobalEntity) : option Z := Some g.
Definition sample_component (e : Z) (kind : ComponentKind) : option Z := if (0 <=? kind) && (kind <? 256) then Some kind else None.
Lemma sample_kinds e k c : sample_component e k = Some c -> component_kind c = k.
Proof. unfold sample_component. case_match; [now intros [= <-]|discriminate]. Qed.

(** Entity 7 is spawned with its component, published and despawned, across the wrap of the
    command ids. *)
Definition sample_queue : list ((CommandId * EntityCommand) * EntityMessage OwnedLocalEntity) :=
  [((65535, CSpawnWithComponents 7 [1]), SpawnWithComponents (Wire.Host 1 false) [1]);
   ((0, CPublish (Some 3) 7), Publish 3 (Wire.Host 1 false));
   ((1, CDespawn 7), Despawn (Wire.Host 1 false))].
Definition spawner : manager := connection {[h1 := HostEntityChannel_new_with_components Server {[1]}]} ∅ ∅ [] (UpdateManager.Sample.state 0).1.
Definition peer_world : manager := (LocalWorld_new (A := nat) None Client 3 (UpdateManager.Sample.g1) (UpdateManager.Sample.state 0).2).1.

Abbreviation write_all := (write_commands byte_kinds sample_entity sample_component).
Definition sample_writer : BitWriter := bw_set_max BitWriter_new (MTU_SIZE_BITS - 1).

Lemma sample_resolves : Forall (fun x => resolves byte_kinds sample_entity sample_component live x.1 x.2) sample_queue.
Proof.
  repeat apply Forall_cons_2; [..|apply Forall_nil_2]; (split; [vm_compute; reflexivity|split; cbn; unfold in_u, is_byte; first [lia|exact Logic.I]|]).
  - apply Forall_cons_2; [cbn; unfold is_byte; lia|apply Forall_nil_2].
  - apply Forall_nil_2.
  - apply Forall_nil_2.
Qed.
Lemma sample_ascending : ascending None sample_queue.*1.
Proof. repeat split; vm_compute; first [reflexivity|discriminate]. Qed.

(** What the peer has received of some commands sent in one packet. *)
Definition transfer (commands : list (CommandId * EntityCommand)) (self : manager) : res (list (MessageIndex * EntityMessage OwnedLocalEntity)) :=
  '(_, w, _, _) ← write_all 0 5 commands sample_writer true self;
  bytes ← BitWriter_to_bytes w;
  '(_, peer) ← read_messages byte_kinds (BitReader_new bytes) peer_world;
  Ok (incoming_messages (lw_receiver peer)).

Lemma sample_transfer : transfer [(0, CSpawnWithComponents 7 [1]); (1, CPublish (Some 3) 7); (2, CDespawn 7)] spawner =
  Ok [(0, SpawnWithComponents (Wire.Remote 1 false) [1]); (1, Publish 3 (Wire.Remote 1 false)); (2, Despawn (Wire.Remote 1 false))].
Proof. vm_compute. reflexivity. Qed.

Lemma byte_read_stops : read_stops (de u8_serde).
Proof. exact u8_stops. Qed.
Lemma world_reading_ends_witness : reader_ok (BitReader_new hostile_bytes) /\
  match read_world_events byte_kinds 3 (BitReader_new hostile_bytes) peer_world with
  | Ok (Some r', _) => reader_ok r' /\ (length (br_bits r') <= length (br_bits (BitReader_new hostile_bytes)))%nat
  | Diverge => False
  | _ => True
  end.
Proof.
  assert (reader_ok (BitReader_new hostile_bytes)) as Hr by (apply reader_new_ok; repeat constructor; unfold is_byte; lia). split; [exact Hr|]. apply (world_reading_ends byte_kinds); [..|exact Hr].
  - intros m. exact byte_read_stops.
  - apply (read_stops_bind (de (kind_serde byte_kinds))); [apply kind_stops|]. intros x. apply (read_stops_bind (de u8_serde)); [exact byte_read_stops|]. intros y. apply read_stops_ret.
Defined.

(** Entity 9 enters the connection as a static entity without components. *)
Definition with_static : manager := match host_init_entity (fun _ => false) UpdateManager.Sample.g1 0 9 [] true (spawner, (UpdateManager.Sample.state 0).2) with Ok (self, _) => self | _ => spawner end.

(** A static entity without components is spawned by its id alone and arrives as a dynamic one;
    what is sent about it later is about the static entity, which the peer does not have. *)
Theorem static_spawn_arrives_dynamic : LocalMap_to_owned (entity_map with_static) 9 = Some (Wire.Host 0 true) /\
  transfer [(0, CSpawn 9); (1, CDespawn 9)] with_static = Ok [(0, Spawn (Wire.Remote 0 false)); (1, Despawn (Wire.Remote 0 true))].
Proof. split; vm_compute; reflexivity. Qed.

(** The number of components is sent as a byte: an entity with 256 of them arrives with none, and
    the command behind it does not arrive. *)
Theorem components_counted_in_a_byte : transfer [(0, CSpawnWithComponents 7 (Z.of_nat <$> seq 0 256)); (1, CPublish (Some 3) 7)] spawner = Ok [(0, SpawnWithComponents (Wire.Remote 1 false) [])].
Proof. vm_compute. reflexivity. Qed.
End WireSample.
