(* ===== verification/WorldWireUpdates.v ===== *)
(** The component updates of a packet: the masks that are written are the ones that are recorded
    for the packet, every update written is a send of the diff tracking and leaves the pending
    ones, and the peer reads the updates of the entities that it has. *)

From Stdlib Require Import ZArith Lia.
From stdpp Require Import base numbers option list gmap sets strings.
From S2P Require Import MessageManager Prelude BitIO Number Serde Wrapping Wire Kinds SequenceList Reliable MessageWire Channels EntityTypes SyncEngine HostSync DiffMask DirtyQueue DiffHandlers UpdateManager EntityMaps LocalEntities Waitlist RemoteWorld HostWorld LocalWorld LocalWorldFacts WorldWire WorldWireFacts WorldWireStops.
Import LocalEntityMap HostEntityGenerator GlobalEntityMap.

(** * Sends of the diff tracking *)
Section Sends.
Context {A : Type} {eqA : EqDecision A} {cA : Countable A}.
Abbreviation Updates := (@EntityUpdateManager GlobalEntity ComponentKind A _ _ _ _).
Abbreviation Heap := (@Store A eqA cA).
Abbreviation Diffs := (@GlobalDiffHandler GlobalEntity ComponentKind _ _ _ _).
Abbreviation Key := (GlobalEntity * ComponentKind)%type.
Context (iter_m : gmap Key DiffMask.DiffMask -> list (Key * DiffMask.DiffMask)) (width : ComponentKind -> Z) (iter_m_ok : forall m, iter_m m ≡ₚ map_to_list m) (g : Diffs).

(** A run of sends in packet [p], with the masks that they carry. *)
Inductive sending (now p : Z) : list (Key * DiffMask.DiffMask) -> Updates * Heap -> Updates * Heap -> Prop :=
| sending_none ms : sending now p [] ms ms
| sending_one e k m l ms ms1 ms2 : get_diff_mask ms.1 ms.2 e k = Ok m -> upd_run_op iter_m g (OpSend now p e k) ms = Ok ms1 -> sending now p l ms1 ms2 -> sending now p (((e, k), m) :: l) ms ms2.

Lemma sending_app now p l1 l2 ms ms1 ms2 : sending now p l1 ms ms1 -> sending now p l2 ms1 ms2 -> sending now p (l1 ++ l2) ms ms2.
Proof. induction 1 as [|e k m l ms ms1 ms1' Hm Hr _ IH]; intros H2; [exact H2|]. cbn. eapply sending_one; [exact Hm|exact Hr|now apply IH]. Qed.

(** The components [keys] are registered and can go into packet [p]. *)
Record ready (p : Z) (keys : list Key) (ms : Updates * Heap) : Prop := {
  rd_reach : exists gh, UpdateManager.reach iter_m width g ms gh;
  rd_packet : in_u 16 p;
  rd_once : NoDup keys;
  rd_keys : forall key, key ∈ keys -> is_Some (receivers (diff_handler ms.1) !! key) /\ packet_mask (sent_updates ms.1) p key = None;
  rd_ages : forall p' key m, packet_mask (sent_updates ms.1) p' key = Some m -> age (last_update_packet_index ms.1) p' + age p (last_update_packet_index ms.1) < 65536
}.
Lemma ready_sublist p keys keys' ms : ready p keys ms -> keys' `sublist_of` keys -> ready p keys' ms.
Proof using Type.
  intros [H1 H2 H3 H4 H5] Hs. split; [exact H1|exact H2|now apply (sublist_NoDup _ keys)| |exact H5]. intros key Hk. apply H4. eapply elem_of_submseteq; [exact Hk|now apply sublist_submseteq].
Qed.

Lemma ready_send now p e k keys ms : ready p ((e, k) :: keys) ms ->
  exists m ms', get_diff_mask ms.1 ms.2 e k = Ok m /\ record_update now p e k m ms.1 ms.2 = Ok ms' /\ upd_run_op iter_m g (OpSend now p e k) ms = Ok ms' /\ ready p keys ms'.
Proof using iter_m_ok.
  intros [(gh & Hr) Hp Hnd Hk Ha]. destruct ms as [u st]. cbn [fst snd] in *. destruct (UpdateManager.reach_ok iter_m width iter_m_ok g (u, st) gh Hr) as [q Hok]. cbn [fst snd] in Hok.
  apply NoDup_cons in Hnd as [Hnot Hnd]. destruct (Hk (e, k) (list_elem_of_here _ _)) as [[loc Hreg] Hnone].
  assert (can_send u p (e, k)) as Hcan by (split; [exact Hp|]; split; [exact Hnone|exact Ha]).
  destruct (send_step iter_m width g u st gh q now p e k loc Hok Hreg Hcan) as (u' & st' & q' & m & Hm & Hs & _). exists m, (u', st'). split; [exact Hm|].
  assert (record_update now p e k m u st = Ok (u', st')) as Hrec by (unfold send_update in Hs; now rewrite Hm, bind_ok in Hs). split; [exact Hrec|]. split; [exact Hs|].
  unfold record_update in Hrec. destruct (default (now, ∅) (sent_updates u !! p)) as [time masks] eqn:Hdef. apply bind_ok_inv in Hrec as (st1 & _ & Hrec). injection Hrec as <- <-.
  assert (default (time, ∅) (sent_updates u !! p) = (time, masks)) as Hdef' by (destruct (sent_updates u !! p) as [[t0 ms0]|]; cbn in *; congruence).
  pose proof (packet_mask_insert iter_m (sent_updates u) p time masks (e, k) m) as Hpm. split; cbn [fst diff_handler with_sent sent_updates last_update_packet_index].
  - eexists. eapply (UpdateManager.reach_step _ _ _ (OpSend now p e k)); [exact Hr|exact (conj (ex_intro _ loc Hreg) Hcan)|exact Hs].
  - exact Hp.
  - exact Hnd.
  - intros key Hin. destruct (Hk key (list_elem_of_further _ _ _ Hin)) as [Hr1 Hr2]. split; [exact Hr1|]. rewrite Hpm by exact Hdef'. rewrite decide_False; [exact Hr2|]. intros [_ ->]. contradiction.
  - intros p' key m' _. rewrite age_self. pose proof (age_range p p'). lia.
Qed.
End Sends.

(** * What is left pending, and the header of an entity *)
Lemma extends_set_max w m l w' : extends (bw_set_max w m) l w' -> extends w l (bw_set_max w' (bw_max_bits w)).
Proof. intros (O1 & B1 & M1 & D1 & C1). split; [now apply set_max_ok|]. split; [exact B1|]. split; [reflexivity|]. split; [exact D1|exact C1]. Qed.

Abbreviation Pending := (gmap GlobalEntity (gset ComponentKind)).
Definition pending_kinds (pending : Pending) (e : GlobalEntity) : gset ComponentKind := default ∅ (pending !! e).
Lemma forget_spec e written (pending : Pending) : is_Some (pending !! e) ->
  exists pending', forget_written e written pending = Ok pending' /\ (forall e', e' <> e -> pending' !! e' = pending !! e') /\
    forall e' k, k ∈ pending_kinds pending' e' <-> k ∈ pending_kinds pending e' /\ ~ (e' = e /\ k ∈ written).
Proof.
  intros [ks Hks]. unfold forget_written. rewrite Hks. cbn [unwrap]. rewrite bind_ok. eexists. split; [reflexivity|].
  assert (forall e', e' <> e -> (if decide (ks ∖ list_to_set written = ∅) then delete e pending else <[e := ks ∖ list_to_set written]> pending) !! e' = pending !! e') as Hother.
  { intros e' Hn. case_decide; [now rewrite lookup_delete_ne|now rewrite lookup_insert_ne]. }
  split; [exact Hother|]. intros e' k. unfold pending_kinds. destruct (decide (e' = e)) as [->|Hn]; [|rewrite (Hother e' Hn); tauto]. rewrite Hks. cbn [default]. 
  case_decide as Hempty; [rewrite lookup_delete_eq|rewrite lookup_insert_eq]; cbn [default]; set_solver.
Qed.


Lemma header_then {W X} `{BitWriteLaws W} local (w : W) (K : W -> res X) : in_u 16 (owned_id local) -> wok w ->
  (w1 ← ser bool_serde true w; w2 ← ser owned_entity_serde local w1; K w2) = (w' ← write_bits (true :: enc owned_entity_serde local) w; K w').
Proof.
  intros Hid Hw. change (true :: enc owned_entity_serde local) with (enc bool_serde true ++ enc owned_entity_serde local). apply (ser_then bool_serde true); [exact Logic.I|exact Hw|]. intros w1 Hw1. now apply (ser_last owned_entity_serde local).
Qed.
Lemma probe_then {W X} `{BitWriteLaws W} local (w : W) (K : W -> res X) : in_u 16 (owned_id local) -> wok w ->
  (w1 ← write_bit true w; w2 ← write_bit true w1; w3 ← ser owned_entity_serde local w2; K w3) = (w' ← write_bits (true :: true :: enc owned_entity_serde local) w; K w').
Proof.
  intros Hid Hw. change (true :: true :: enc owned_entity_serde local) with (enc bool_serde true ++ true :: enc owned_entity_serde local). apply (ser_then bool_serde true); [exact Logic.I|exact Hw|]. intros w1 Hw1. now apply header_then.
Qed.

(** * Writing *)
Section Updates.
Context {E C U F A : Type} {eqE : EqDecision E} {cE : Countable E} {eqA : EqDecision A} {cA : Countable A}.
Context {replicate : Replicate C U F} {B : Type} (builder : ComponentKind -> B) (component_kinds : Kinds ComponentKind B) (kinds_registered : kinds_ok builder component_kinds).
Abbreviation World := (@LocalWorldManager C U F A).
Abbreviation Heap := (@Store A eqA cA).
Abbreviation Converter := (LocalEntityMap * @HostWorldManager C)%type.
Context {wire : ComponentWire C U Converter} {laws : ComponentWireLaws (C := C) (U := U) (F := F)}.

(** What is asked of the derived code of updates; [update_read] starts with the kind. *)
Class UpdateWireLaws := {
  update_ok : C -> Converter -> Prop;
  update_bits : DiffMask.DiffMask -> C -> Converter -> list bool;
  update_after : DiffMask.DiffMask -> C -> Converter -> Converter;
  update_seen : DiffMask.DiffMask -> C -> Converter -> U;
  update_ok_grows c k k' : update_ok c k -> conv_grows k k' -> update_ok c k';
  update_grows mask c k : update_ok c k -> conv_grows k (update_after mask c k);
  update_again mask c k : update_ok c k -> update_bits mask c (update_after mask c k) = update_bits mask c k /\ update_after mask c (update_after mask c k) = update_after mask c k;
  update_writes mask c k : update_ok c k -> forall W `{BitWriteLaws W} (w : W), wok w ->
    update_write mask c w k = (w' ← write_bits (update_bits mask c k) w; Ok (w', update_after mask c k));
  update_reads mask c k r rest : update_ok c k -> is_Some (kind_map component_kinds !! component_kind c) -> reader_ok r ->
    br_bits r = tag_enc component_kinds (component_kind c) ++ update_bits mask c k ++ rest -> exists r', update_read r = Ok (update_seen mask c k, r') /\ reader_ok r' /\ br_bits r' = rest;
  update_short mask c k : update_ok c k -> Z.of_nat (length (update_bits mask c k)) < 2 ^ 20
}.
Context {ulaws : UpdateWireLaws}.
Context (to_world : GlobalEntity -> option E) (component_of_kind : E -> ComponentKind -> option C) (kind_of_stored : forall e k c, component_of_kind e k = Some c -> component_kind c = k).
Context (iter_m : gmap (GlobalEntity * ComponentKind) DiffMask.DiffMask -> list ((GlobalEntity * ComponentKind) * DiffMask.DiffMask)) (width : ComponentKind -> Z) (iter_m_ok : forall m, iter_m m ≡ₚ map_to_list m)
  (g : @GlobalDiffHandler GlobalEntity ComponentKind _ _ _ _).
Context (iter_k : gset ComponentKind -> list ComponentKind).

(** An update that was written: with the mask and in the state of its time. *)
Record Item := mkItem { it_kind : ComponentKind; it_mask : DiffMask.DiffMask; it_component : C; it_converter : Converter }.
Definition item_ok (it : Item) : Prop := component_kind (it_component it) = it_kind it /\ is_Some (kind_map component_kinds !! it_kind it) /\ update_ok (it_component it) (it_converter it).
Definition item_enc (it : Item) : list bool := true :: tag_enc component_kinds (it_kind it) ++ update_bits (it_mask it) (it_component it) (it_converter it).
Definition items_enc (items : list Item) : list bool := concat (item_enc <$> items).
(** What was written is the component that the world holds. *)
Definition item_held (world_entity : E) (k : Converter) (it : Item) : Prop := component_of_kind world_entity (it_kind it) = Some (it_component it) /\ conv_grows k (it_converter it).
Definition item_seen (it : Item) : U := update_seen (it_mask it) (it_component it) (it_converter it).

(** The component of the entity can be sent. *)
Definition can_update (self : World) (world_entity : E) (kind : ComponentKind) : Prop :=
  exists c, component_of_kind world_entity kind = Some c /\ is_Some (kind_map component_kinds !! kind) /\ update_ok c (converter_mut self).
Lemma can_update_grows self self' world_entity kind : can_update self world_entity kind -> conv_grows (converter_mut self) (converter_mut self') -> can_update self' world_entity kind.
Proof using Type. intros (c & Hc & Hk & Ho) Hg. exists c. split; [exact Hc|]. split; [exact Hk|]. exact (update_ok_grows c _ _ Ho Hg). Qed.

Lemma write_one_enc {W} `{BitWriteLaws W} world_entity kind mask c (self : World) (w : W) : wok w -> component_of_kind world_entity kind = Some c -> is_Some (kind_map component_kinds !! kind) -> update_ok c (converter_mut self) ->
  write_one_update component_kinds component_of_kind world_entity kind mask w self =
  (w' ← write_bits (item_enc (mkItem kind mask c (converter_mut self))) w; Ok (w', with_converter (update_after mask c (converter_mut self)) self)).
Proof using kinds_registered.
  intros Hw Hc Hk Ho. unfold write_one_update, item_enc. cbn [it_kind it_mask it_component it_converter]. match goal with |- context [true :: ?l] => change (true :: l) with (enc bool_serde true ++ l) end.
  apply (ser_then bool_serde true); [exact Logic.I|exact Hw|]. intros w1 Hw1. apply (ser_then (Lawful0 := kind_lawful builder component_kinds kinds_registered) (kind_serde component_kinds) kind); [exact Hk|exact Hw1|]. intros w2 Hw2.
  rewrite Hc. cbn [unwrap]. rewrite bind_ok, (update_writes mask c _ Ho W w2 Hw2). destruct (write_bits _ w2); reflexivity.
Qed.

Lemma item_enc_short it : item_ok it -> Z.of_nat (length (item_enc it)) < 2 ^ 31.
Proof using kinds_registered.
  intros (_ & _ & Ho). pose proof (update_short (it_mask it) _ _ Ho) as Hs. change (2 ^ 20) with 1048576 in Hs. change (2 ^ 31) with 2147483648. unfold item_enc. cbn [length]. rewrite length_app. unfold tag_enc. rewrite length_to_bits.
  pose proof (width_nat builder component_kinds kinds_registered). lia.
Qed.

Definition sent_items (e : GlobalEntity) (items : list Item) : list ((GlobalEntity * ComponentKind) * DiffMask.DiffMask) := (fun it => ((e, it_kind it), it_mask it)) <$> items.
Abbreviation kind_loop := (write_update_loop component_kinds component_of_kind).
Abbreviation ready := (ready iter_m width g).
Abbreviation sending := (sending iter_m g).

(** Nothing but the converter and the updates changes. *)
Definition same_others (self self' : World) : Prop := lw_remote self' = lw_remote self /\ sent_command_packets self' = sent_command_packets self.

Lemma kind_round now p e world_entity kind kinds more written w hw (self : World) (st : Heap) : writer_ok w -> bw_current_bits w <= bw_max_bits w <= MTU_SIZE_BITS -> can_update self world_entity kind ->
  ready p ((e, kind) :: more) (updater self, st) ->
  exists mask c, let it := mkItem kind mask c (converter_mut self) in item_ok it /\ component_of_kind world_entity kind = Some c /\ get_diff_mask (updater self) st e kind = Ok mask /\
  if fits w (item_enc it) then
    exists w1 self1 st1, extends w (item_enc it) w1 /\ bw_current_bits w1 <= bw_max_bits w1 /\ kind_loop now p e world_entity (kind :: kinds) written w hw self st = kind_loop now p e world_entity kinds (written ++ [kind]) w1 true self1 st1 /\
      conv_grows (converter_mut self) (converter_mut self1) /\ same_others self self1 /\ sending now p [((e, kind), mask)] (updater self, st) (updater self1, st1) /\ ready p more (updater self1, st1)
  else exists self1, kind_loop now p e world_entity (kind :: kinds) written w hw self st = (if hw then Ok (written, w, hw, self1, st) else Panic) /\
      conv_grows (converter_mut self) (converter_mut self1) /\ same_others self self1 /\ updater self1 = updater self.
Proof using kinds_registered iter_m_ok kind_of_stored.
  intros Hw Hb (c & Hc & Hk & Ho) Hrd. destruct (ready_send iter_m width iter_m_ok g now p e kind more _ Hrd) as (mask & [u1 st1] & Hm & Hrec & Hrun & Hrd1). cbn [fst snd] in *.
  exists mask, c. set (it := mkItem kind mask c (converter_mut self)). assert (item_ok it) as Hit by (split; [exact (kind_of_stored _ _ _ Hc)|now split]). cbn zeta. split; [exact Hit|]. split; [exact Hc|]. split; [exact Hm|].
  destruct (count_then_write (item_enc it) w Hw Hb ltac:(discriminate) (item_enc_short it Hit)) as (ct & Ec & Eo & Ew). pose proof (writer_ok_current w Hw). change MTU_SIZE_BITS with 3440 in Hb.
  unfold fits. cbn [write_update_loop]. rewrite Hm, bind_ok. assert (wok (BitWriter_counter w)) as Hwc by (cbn; lia).
  rewrite (write_one_enc world_entity kind mask c self (BitWriter_counter w) Hwc Hc Hk Ho). fold it. rewrite Ec, !bind_ok, Eo. set (self0 := with_converter (update_after mask c (converter_mut self)) self).
  pose proof (update_grows mask c _ Ho) as Hg. destruct (update_again mask c _ Ho) as [Hbits Hafter].
  destruct (Z.leb_spec (bw_current_bits w + Z.of_nat (length (item_enc it))) (bw_max_bits w)) as [Hf|Hf].
  - rewrite (proj2 (Z.ltb_ge _ _)) by lia. destruct (Ew Hf) as (w1 & E1 & X1).
    assert (converter_mut self0 = update_after mask c (converter_mut self)) as Hc0 by apply converter_set.
    assert (wok w) as Hww by exact Hw. rewrite (write_one_enc world_entity kind mask c self0 w Hww Hc Hk) by (rewrite Hc0; exact (update_ok_grows c _ _ Ho Hg)). rewrite Hc0.
    assert (item_enc (mkItem kind mask c (update_after mask c (converter_mut self))) = item_enc it) as -> by (unfold item_enc; cbn; now rewrite Hbits). rewrite E1, !bind_ok, Hafter.
    change (updater (with_converter _ self0)) with (updater self). rewrite Hrec, bind_ok. do 3 eexists. split; [exact X1|]. split; [rewrite (extends_current w _ w1 Hw X1); destruct X1 as (_ & _ & -> & _); exact Hf|]. split; [reflexivity|].
    split; [change (conv_grows (converter_mut self) (converter_mut (with_converter (update_after mask c (converter_mut self)) self0))); now rewrite converter_set|].
    split; [now split|]. split; [eapply sending_one; [exact Hm|exact Hrun|apply sending_none]|exact Hrd1].
  - rewrite (proj2 (Z.ltb_lt _ _)) by lia. exists self0. split; [reflexivity|]. split; [unfold self0; rewrite converter_set; exact Hg|]. now split.
Qed.

Lemma kinds_written now p e world_entity kinds more written w hw (self : World) (st : Heap) : writer_ok w -> bw_current_bits w <= bw_max_bits w <= MTU_SIZE_BITS -> Forall (can_update self world_entity) kinds ->
  ready p ((map (pair e) kinds) ++ more) (updater self, st) ->
  (hw = true \/ match kinds with [] => True | kind :: _ => forall mask c, get_diff_mask (updater self) st e kind = Ok mask -> component_of_kind world_entity kind = Some c -> fits w (item_enc (mkItem kind mask c (converter_mut self))) = true end) ->
  exists items rest w' self' st', let hw' := hw || negb (bool_decide (items = [])) in kinds = (it_kind <$> items) ++ rest /\
    kind_loop now p e world_entity kinds written w hw self st = Ok (written ++ (it_kind <$> items), w', hw', self', st') /\ (kinds <> [] -> hw' = true) /\ Forall item_ok items /\ Forall (item_held world_entity (converter_mut self)) items /\
    extends w (items_enc items) w' /\ bw_current_bits w' <= bw_max_bits w' /\ conv_grows (converter_mut self) (converter_mut self') /\ same_others self self' /\
    sending now p (sent_items e items) (updater self, st) (updater self', st') /\ ready p more (updater self', st').
Proof using kinds_registered iter_m_ok kind_of_stored.
  revert written w hw self st. induction kinds as [|kind kinds IH]; intros written w hw self st Hw Hb Hcan Hrd Hfirst.
  - exists [], [], w, self, st. cbn. rewrite app_nil_r, orb_false_r. split; [reflexivity|]. split; [reflexivity|]. split; [contradiction|]. split; [constructor|]. split; [constructor|]. split; [now apply extends_refl|]. split; [lia|].
    split; [apply grows_refl|]. split; [now split|]. split; [constructor|exact Hrd].
  - apply Forall_cons in Hcan as [Hk Hcan]. destruct (kind_round now p e world_entity kind kinds ((map (pair e) kinds) ++ more) written w hw self st Hw Hb Hk Hrd) as (mask & c & Hit & Hc & Hm & Hround).
    set (it := mkItem kind mask c (converter_mut self)) in *. destruct (fits w (item_enc it)) eqn:Hfit.
    + destruct Hround as (w1 & self1 & st1 & X1 & B1 & Hl & Hg1 & Hs1 & Hsend1 & Hrd1). pose proof X1 as (O1 & _ & M1 & _).
      destruct (IH (written ++ [kind]) w1 true self1 st1 O1 ltac:(lia)) as (items & rest & w' & self' & st' & -> & Hloop & _ & Hok & Hheld & X & Bd & Hg & Hs & Hsend & Hrd'); [|exact Hrd1|now left|].
      { eapply Forall_impl; [exact Hcan|]. intros y Hy. exact (can_update_grows self self1 world_entity y Hy Hg1). }
      exists (it :: items), rest, w', self', st'. cbn zeta. assert (hw || negb (bool_decide (it :: items = [])) = true) as -> by now destruct hw. split; [reflexivity|].
      split; [rewrite Hl, Hloop; cbn; now rewrite <- app_assoc|]. split; [reflexivity|]. split; [now constructor|].
      split; [constructor; [split; [exact Hc|apply grows_refl]|]; eapply Forall_impl; [exact Hheld|]; intros y [Hy1 Hy2]; split; [exact Hy1|exact (grows_trans _ _ _ Hg1 Hy2)]|].
      split; [exact (extends_trans w w1 w' _ _ Hw X1 X)|]. split; [exact Bd|]. split; [exact (grows_trans _ _ _ Hg1 Hg)|].
      split; [destruct Hs1, Hs; split; congruence|]. split; [exact (sending_app iter_m g now p [((e, kind), mask)] _ _ _ _ Hsend1 Hsend)|exact Hrd'].
    + destruct Hround as (self1 & Hl & Hg & Hs & Hu). assert (hw = true) as ->.
      { destruct Hfirst as [->|Hf]; [reflexivity|]. pose proof (Hf mask c Hm Hc) as Hyes. unfold it in Hfit. congruence. }
      exists [], (kind :: kinds), w, self1, st. cbn. split; [reflexivity|]. split; [now rewrite app_nil_r|]. split; [reflexivity|]. split; [constructor|]. split; [constructor|]. split; [now apply extends_refl|]. split; [lia|]. split; [exact Hg|]. split; [exact Hs|]. rewrite Hu.
      split; [constructor|]. apply (ready_sublist _ _ _ _ _ _ _ Hrd). apply (sublist_inserts_l ((e, kind) :: (map (pair e) kinds))). reflexivity.
Qed.

(** ** The entities *)

(** An entity whose pending updates can be sent. *)
Definition entity_ready (self : World) (pending : Pending) (e : GlobalEntity) : Prop :=
  exists local world_entity, LocalMap_to_owned (entity_map self) e = Some local /\ in_u 16 (owned_id local) /\ to_world e = Some world_entity /\ is_Some (pending !! e) /\ Forall (can_update self world_entity) (iter_k (pending_kinds pending e)).
Definition keys_of (pending : Pending) (l : list GlobalEntity) : list (GlobalEntity * ComponentKind) := concat (map (fun e => map (pair e) (iter_k (pending_kinds pending e))) l).

(** The entity, as it was sent, and its updates. *)
Abbreviation Group := (GlobalEntity * OwnedLocalEntity * list Item)%type.
Definition group_enc (x : Group) : list bool := true :: enc owned_entity_serde x.1.2 ++ items_enc x.2 ++ [false].
Definition group_ok (x : Group) : Prop := in_u 16 (owned_id x.1.2) /\ Forall item_ok x.2.
(** The id is the one that the connection has for the entity, and the updates are of its components. *)
Definition group_held (self : World) (x : Group) : Prop :=
  LocalMap_to_owned (entity_map self) x.1.1 = Some x.1.2 /\ exists world_entity, to_world x.1.1 = Some world_entity /\ Forall (item_held world_entity (converter_mut self)) x.2.
Definition groups_enc (l : list Group) : list bool := concat (map group_enc l).
Definition sent_groups (l : list Group) : list ((GlobalEntity * ComponentKind) * DiffMask.DiffMask) := concat (map (fun x => sent_items x.1.1 x.2) l).

(** In an empty packet the first update fits. *)
Definition first_fits (w : BitWriter) (l : list GlobalEntity) (pending : Pending) (self : World) (st : Heap) : Prop :=
  match l with
  | [] => True
  | e :: _ => iter_k (pending_kinds pending e) <> [] /\ forall local world_entity kind kinds mask c, LocalMap_to_owned (entity_map self) e = Some local -> to_world e = Some world_entity ->
      iter_k (pending_kinds pending e) = kind :: kinds -> get_diff_mask (updater self) st e kind = Ok mask -> component_of_kind world_entity kind = Some c ->
      fits w (group_enc (e, local, [mkItem kind mask c (converter_mut self)])) = true
  end.

Abbreviation entity_loop := (write_updates_loop component_kinds to_world component_of_kind iter_k).

Lemma entity_round now p e l w hw pending (self : World) (st : Heap) more : writer_ok w -> bw_current_bits w <= bw_max_bits w <= MTU_SIZE_BITS -> entity_ready self pending e ->
  ready p (map (pair e) (iter_k (pending_kinds pending e)) ++ more) (updater self, st) -> (hw = true \/ first_fits w (e :: l) pending self st) ->
  (entity_loop now p (e :: l) w hw pending self st = Ok (w, hw, pending, self, st) /\ hw = true) \/
  exists local items w' hw' pending' self' st', group_ok (e, local, items) /\ group_held self (e, local, items) /\ entity_loop now p (e :: l) w hw pending self st = entity_loop now p l w' hw' pending' self' st' /\
    extends w (group_enc (e, local, items)) w' /\ bw_current_bits w' <= bw_max_bits w' /\ (hw = true \/ iter_k (pending_kinds pending e) <> [] -> hw' = true) /\ conv_grows (converter_mut self) (converter_mut self') /\ same_others self self' /\
    sending now p (sent_items e items) (updater self, st) (updater self', st') /\ ready p more (updater self', st') /\
    (forall e', e' <> e -> pending' !! e' = pending !! e') /\ (forall e' k, k ∈ pending_kinds pending' e' <-> k ∈ pending_kinds pending e' /\ ~ (e' = e /\ k ∈ it_kind <$> items)).
Proof using kinds_registered iter_m_ok kind_of_stored.
  intros Hw Hb (local & world_entity & Ho & Hid & Hwe & [ks Hks] & Hcan) Hrd Hfirst. set (header := true :: enc owned_entity_serde local). pose proof (writer_ok_current w Hw) as Hcur.
  assert (pending_kinds pending e = ks) as Hpk by (unfold pending_kinds; now rewrite Hks). rewrite Hpk in *. pose proof (owned_enc_short local Hid) as Hshort.
  destruct (count_then_write (true :: header) w Hw Hb ltac:(discriminate)) as (ct & Ec & Eo & _); [unfold header; cbn [length]; change (2 ^ 31) with 2147483648; lia|].
  cbn [write_updates_loop]. unfold owned_of. rewrite Ho, Hwe. cbn [unwrap]. rewrite !bind_ok. assert (wok (BitWriter_counter w)) as Hwc by (cbn; change MTU_SIZE_BITS with 3440 in Hb; lia).
  rewrite (probe_then local (BitWriter_counter w) _ Hid Hwc). fold header. rewrite Ec, bind_ok, Eo. destruct (Z.ltb_spec (bw_max_bits w) (bw_current_bits w + Z.of_nat (length (true :: header)))) as [Hov|Hf].
  { left. split; [reflexivity|]. destruct Hfirst as [->|[Hne Hff]]; [reflexivity|exfalso]. rewrite Hpk in *. destruct (iter_k ks) as [|kind kinds]; [contradiction|]. apply Forall_cons in Hcan as [(c & Hc & _) _].
    destruct (ready_send iter_m width iter_m_ok g now p e kind _ _ Hrd) as (mask & _ & Hm & _). specialize (Hff local world_entity kind kinds mask c Ho Hwe eq_refl Hm Hc).
    unfold fits, group_enc, items_enc, item_enc in Hff. apply Z.leb_le in Hff. cbn [fst snd fmap list_fmap concat length] in Hff. rewrite !length_app in Hff. cbn [length] in Hff, Hov. rewrite length_app in Hff. unfold header in Hov. cbn [length] in Hov. lia. }
  right.
  cbn [length] in Hf. unfold BitWriter_reserve_bits. rewrite usub_ok, !bind_ok by lia.
  set (w1 := bw_set_max w (bw_max_bits w - 1)). assert (writer_ok w1) as Hw1 by now apply set_max_ok. assert (wok w1) as Hww1 by exact Hw1.
  rewrite (header_then local w1 _ Hid Hww1). fold header.
  assert (bw_current_bits w1 <= bw_max_bits w1 <= MTU_SIZE_BITS) as Hb1 by (change (bw_current_bits w1) with (bw_current_bits w); change (bw_max_bits w1) with (bw_max_bits w - 1); lia).
  destruct (count_then_write header w1 Hw1 Hb1 ltac:(discriminate)) as (_ & _ & _ & Ew); [unfold header; cbn [length]; change (2 ^ 31) with 2147483648; lia|].
  destruct Ew as (w2 & -> & X2); [change (bw_current_bits w1) with (bw_current_bits w); change (bw_max_bits w1) with (bw_max_bits w - 1); lia|]. rewrite bind_ok.
  pose proof X2 as (O2 & _ & M2 & _). pose proof (extends_current w1 header w2 Hw1 X2) as C2. change (bw_current_bits w1) with (bw_current_bits w) in C2. change (bw_max_bits w1) with (bw_max_bits w - 1) in M2.
  unfold write_update. rewrite Hks. cbn [unwrap]. rewrite bind_ok.
  destruct (kinds_written now p e world_entity (iter_k ks) more [] w2 hw self st O2 ltac:(lia) Hcan Hrd) as (items & rest & w3 & self' & st' & Hsplit & Hloop & Hhw & Hok & Hheld & X3 & B3 & Hg & Hs & Hsend & Hrd').
  { destruct Hfirst as [->|[_ Hff]]; [now left|right]. rewrite Hpk in Hff. destruct (iter_k ks) as [|kind kinds]; [exact Logic.I|]. intros mask c Hm Hc. specialize (Hff local world_entity kind kinds mask c Ho Hwe eq_refl Hm Hc).
    unfold fits, group_enc, items_enc in *. apply Z.leb_le in Hff. apply Z.leb_le. cbn [fst snd fmap list_fmap concat length] in Hff. rewrite !length_app in Hff. cbn [length] in Hff. rewrite M2, C2. unfold header. cbn [length]. lia. }
  rewrite Hloop, bind_ok. destruct (forget_spec e (it_kind <$> items) pending ltac:(now rewrite Hks)) as (pending' & Hforget & Hother & Hleft). cbn [app]. rewrite Hforget, !bind_ok. cbn beta iota.
  pose proof X3 as (O3 & _ & M3 & _). unfold BitWriter_release_bits. rewrite uadd_ok, !bind_ok by (change MTU_SIZE_BITS with 3440 in Hb; lia). rewrite M3, M2. replace (bw_max_bits w - 1 + 1) with (bw_max_bits w) by lia.
  pose proof (extends_trans w1 w2 w3 header (items_enc items) Hw1 X2 X3) as X13. pose proof (extends_set_max w (bw_max_bits w - 1) _ w3 X13) as X4. set (w4 := bw_set_max w3 (bw_max_bits w)) in *. pose proof X4 as (O4 & _ & M4 & _).
  pose proof (extends_current w _ w4 Hw X4) as C4. pose proof (extends_current w1 _ w3 Hw1 X13) as C3. change (bw_current_bits w1) with (bw_current_bits w) in C3.
  destruct (count_then_write [false] w4 O4 ltac:(lia) ltac:(discriminate) ltac:(cbn; lia)) as (_ & _ & _ & Ew5). destruct Ew5 as (w5 & E5 & X5); [cbn [length]; lia|].
  assert (ser bool_serde false w4 = Ok w5) as -> by (change (write_bits [false] w4) with (w' ← ser bool_serde false w4; Ok w') in E5; destruct (ser bool_serde false w4); [now rewrite bind_ok in E5|discriminate..]). rewrite bind_ok.
  exists local, items, w5, (hw || negb (bool_decide (items = []))), pending', self', st'. split; [split; [exact Hid|exact Hok]|]. split; [split; [exact Ho|]; exists world_entity; split; [exact Hwe|exact Hheld]|]. split; [reflexivity|].
  split; [unfold group_enc; cbn [fst snd]; change (true :: enc owned_entity_serde local ++ items_enc items ++ [false]) with (header ++ items_enc items ++ [false]); rewrite app_assoc; exact (extends_trans w w4 w5 _ _ Hw X4 X5)|].
  split; [rewrite (extends_current w4 _ w5 O4 X5); destruct X5 as (_ & _ & -> & _); cbn [length]; lia|]. split; [intros [->|Hne]; [reflexivity|exact (Hhw Hne)]|].
  split; [exact Hg|]. split; [exact Hs|]. split; [exact Hsend|]. split; [exact Hrd'|]. split; [exact Hother|exact Hleft].
Qed.

Lemma entity_ready_later self self' pending pending' e : entity_ready self pending e -> conv_grows (converter_mut self) (converter_mut self') -> pending' !! e = pending !! e -> entity_ready self' pending' e.
Proof using Type.
  intros (local & world_entity & Ho & Hid & Hwe & Hsome & Hcan) Hg Hp. exists local, world_entity. split; [exact (grows_mapped _ _ e local Hg Ho)|]. unfold pending_kinds in *. rewrite Hp. split; [exact Hid|]. split; [exact Hwe|]. split; [exact Hsome|].
  eapply Forall_impl; [exact Hcan|]. intros k Hk. exact (can_update_grows self self' world_entity k Hk Hg).
Qed.
Lemma keys_of_same pending pending' l : (forall e, e ∈ l -> pending' !! e = pending !! e) -> keys_of pending' l = keys_of pending l.
Proof using Type. intros H. unfold keys_of. f_equal. apply map_ext_in. intros e He. unfold pending_kinds. rewrite H by now apply list_elem_of_In. reflexivity. Qed.

Lemma prefix_mem {X} (x : X) l1 l2 : l1 `prefix_of` l2 -> x ∈ l1 -> x ∈ l2.
Proof using Type. intros [l ->] H. apply elem_of_app. now left. Qed.
Lemma group_held_before self self' x : conv_grows (converter_mut self) (converter_mut self') -> group_held self' x -> is_Some (LocalMap_to_owned (entity_map self) x.1.1) -> group_held self x.
Proof using Type.
  intros Hg (Ho & world_entity & Hw & Hits) [local Hl]. pose proof (grows_mapped _ _ x.1.1 local Hg Hl) as Hl'. change (LocalMap_to_owned (entity_map self') x.1.1 = Some local) in Hl'. rewrite Ho in Hl'. injection Hl' as Hl2. split; [now rewrite Hl2|].
  exists world_entity. split; [exact Hw|]. eapply Forall_impl; [exact Hits|]. intros it [H1 H2]. split; [exact H1|exact (grows_trans _ _ _ Hg H2)].
Qed.

Lemma entities_written now p l w hw pending (self : World) (st : Heap) : writer_ok w -> bw_current_bits w <= bw_max_bits w <= MTU_SIZE_BITS -> NoDup l -> Forall (entity_ready self pending) l -> ready p (keys_of pending l) (updater self, st) ->
  (hw = true \/ first_fits w l pending self st) ->
  exists groups w' hw' pending' self' st', entity_loop now p l w hw pending self st = Ok (w', hw', pending', self', st') /\ map (fun x => x.1.1) groups `prefix_of` l /\
    Forall group_ok groups /\ Forall (group_held self) groups /\
    extends w (groups_enc groups) w' /\ bw_current_bits w' <= bw_max_bits w' /\ conv_grows (converter_mut self) (converter_mut self') /\ same_others self self' /\
    sending now p (sent_groups groups) (updater self, st) (updater self', st') /\ ready p [] (updater self', st') /\ (hw = true \/ l <> [] -> hw' = true) /\
    forall e k, k ∈ pending_kinds pending' e <-> k ∈ pending_kinds pending e /\ (e, k) ∉ (sent_groups groups).*1.
Proof using kinds_registered iter_m_ok kind_of_stored.
  revert w hw pending self st. induction l as [|e l IH]; intros w hw pending self st Hw Hb Hnd Hall Hrd Hfirst.
  - exists [], w, hw, pending, self, st. split; [reflexivity|]. split; [apply prefix_nil|]. split; [constructor|]. split; [constructor|]. split; [now apply extends_refl|]. split; [lia|]. split; [apply grows_refl|]. split; [now split|]. split; [constructor|]. split; [exact Hrd|].
    split; [intros [?|?]; [assumption|contradiction]|]. intros e k. split; [|tauto]. intros Hk. split; [exact Hk|apply not_elem_of_nil].
  - apply NoDup_cons in Hnd as [Hnot Hnd]. apply Forall_cons in Hall as [He Hall]. destruct (entity_round now p e l w hw pending self st (keys_of pending l) Hw Hb He Hrd Hfirst) as [[Hstop Htrue]|Hround].
    + exists [], w, hw, pending, self, st. split; [exact Hstop|]. split; [apply prefix_nil|]. split; [constructor|]. split; [constructor|]. split; [now apply extends_refl|]. split; [lia|]. split; [apply grows_refl|]. split; [now split|]. split; [constructor|].
      split; [apply (ready_sublist _ _ _ _ _ _ _ Hrd); apply sublist_nil_l|]. split; [now intros _|]. intros e' k. split; [|tauto]. intros Hk. split; [exact Hk|apply not_elem_of_nil].
    + destruct Hround as (local & items & w1 & hw1 & pending1 & self1 & st1 & Hgok & Hgheld & Hl & X1 & B1 & Hhw1 & Hg1 & Hs1 & Hsend1 & Hrd1 & Hother & Hleft). cbn [fst snd] in *. pose proof X1 as (O1 & _ & M1 & _).
      assert (forall e', e' ∈ l -> pending1 !! e' = pending !! e') as Hsame by (intros e' Hin; apply Hother; intros ->; contradiction).
      destruct (IH w1 hw1 pending1 self1 st1 O1 ltac:(lia) Hnd) as (groups & w' & hw' & pending' & self' & st' & Hloop & Hpre & Hgs & Hmap & X & Bd & Hg & Hs & Hsend & Hrd' & Hhw' & Hpend).
      * rewrite Forall_forall in Hall |- *. intros e' Hin. apply (entity_ready_later self self1 pending); [now apply Hall|exact Hg1|now apply Hsame].
      * rewrite (keys_of_same pending pending1 l Hsame). exact Hrd1.
      * left. apply Hhw1. destruct Hfirst as [->|[Hne _]]; [now left|now right].
      * exists ((e, local, items) :: groups), w', hw', pending', self', st'. split; [now rewrite Hl|]. split; [cbn; now apply prefix_cons|]. split; [constructor; [exact Hgok|exact Hgs]|].
        split; [constructor; [exact Hgheld|rewrite Forall_forall in Hmap; rewrite Forall_forall in Hall; rewrite Forall_forall; intros x Hx; apply (group_held_before self self1); [exact Hg1|exact (Hmap x Hx)|]; destruct (Hall x.1.1) as (lo & we & Hlo & _); [apply (prefix_mem _ (map (fun y => y.1.1) groups) l Hpre); apply list_elem_of_In, (in_map (fun y => y.1.1)), list_elem_of_In; exact Hx|now exists lo]]|]. split; [exact (extends_trans w w1 w' _ _ Hw X1 X)|]. split; [exact Bd|]. split; [exact (grows_trans _ _ _ Hg1 Hg)|].
        split; [destruct Hs1, Hs; split; congruence|]. split; [exact (sending_app iter_m g now p _ _ _ _ _ Hsend1 Hsend)|]. split; [exact Hrd'|].
        split; [intros _; apply Hhw'; left; apply Hhw1; destruct Hfirst as [->|[Hne _]]; [now left|now right]|]. intros e' k. rewrite Hpend, Hleft. change (sent_groups ((e, local, items) :: groups)) with (sent_items e items ++ sent_groups groups). rewrite fmap_app, elem_of_app.
        assert ((e', k) ∈ (sent_items e items).*1 <-> e' = e /\ k ∈ it_kind <$> items) as ->; [|tauto].
        unfold sent_items. rewrite <- list_fmap_compose, !list_elem_of_fmap. cbn. split; [intros (it & [= -> ->] & Hin); eauto|intros (-> & it & -> & Hin); eauto].
Qed.

(** * The peer *)
(** The updates handed to the peer directly: those of the entities that it has. *)
Definition put_updates (tick : Tick) (e : OwnedLocalEntity) (updates : list U) (peer : World) : World :=
  fold_left (fun peer u => if has_local_entity e peer then insert_received_update tick e u peer else peer) updates peer.
Definition hand_updates (tick : Tick) (groups : list Group) (peer : World) : World :=
  fold_left (fun peer x => put_updates tick (seen_owned peer x.1.2) (item_seen <$> x.2) peer) groups peer.

Lemma read_items fuel tick e items r rest (peer : World) : Forall item_ok items -> (length items < fuel)%nat -> reader_ok r -> br_bits r = items_enc items ++ false :: rest ->
  exists r', read_update fuel tick e r peer = Ok (Some r', put_updates tick e (item_seen <$> items) peer) /\ reader_ok r' /\ br_bits r' = rest.
Proof using Type.
  revert items r peer. induction fuel as [|fuel IH]; intros items r peer Hok Hf Hr Hb; [lia|]. cbn [read_update]. destruct items as [|it items].
  - destruct (read_bit_enc _ _ _ Hr Hb) as (r1 & R1 & O1 & B1). cbn [de bool_serde]. rewrite R1. cbn. eauto.
  - apply Forall_cons in Hok as [(Hk & Hreg & Ho) Hok]. unfold items_enc in Hb. cbn [fmap list_fmap concat] in Hb. unfold item_enc in Hb at 1. rewrite <- Hk, <- !app_comm_cons, <- !app_assoc in Hb. rewrite <- Hk in Hreg.
    destruct (read_bit_enc _ _ _ Hr Hb) as (r1 & R1 & O1 & B1). cbn [de bool_serde]. rewrite R1. cbn [reading negb]. destruct (update_reads _ _ _ r1 _ Ho Hreg O1 B1) as (r2 & -> & O2 & B2).
    destruct (IH items r2 (if has_local_entity e peer then insert_received_update tick e (item_seen it) peer else peer) Hok ltac:(cbn in Hf; lia) O2 B2) as (r' & R & O & B'). exists r'. split; [exact R|now split].
Qed.
Lemma items_enc_length items : (length items <= length (items_enc items))%nat.
Proof using Type. induction items as [|it items IH]; [cbn; lia|]. unfold items_enc in *. cbn [fmap list_fmap concat length]. rewrite length_app. unfold item_enc at 1. cbn [length]. lia. Qed.

Lemma read_groups fuel tick groups r rest (peer : World) : Forall group_ok groups -> (length groups < fuel)%nat -> reader_ok r -> br_bits r = groups_enc groups ++ false :: rest ->
  exists r', read_updates_from fuel tick r peer = Ok (Some r', hand_updates tick groups peer) /\ reader_ok r' /\ br_bits r' = rest.
Proof using Type.
  revert groups r peer. induction fuel as [|fuel IH]; intros groups r peer Hok Hf Hr Hb; [lia|]. cbn [read_updates_from]. destruct groups as [|[[e local] items] groups].
  - destruct (read_bit_enc _ _ _ Hr Hb) as (r1 & R1 & O1 & B1). cbn [de bool_serde]. rewrite R1. cbn. eauto.
  - apply Forall_cons in Hok as [[Hid Hits] Hok]. cbn [fst snd] in *. unfold groups_enc in Hb. cbn [map concat] in Hb. unfold group_enc in Hb at 1. cbn [fst snd] in Hb. rewrite <- !app_comm_cons, <- !app_assoc in Hb. rewrite <- app_comm_cons in Hb. cbn [app] in Hb.
    destruct (read_bit_enc _ _ _ Hr Hb) as (r1 & R1 & O1 & B1). cbn [de bool_serde]. rewrite R1. cbn [reading negb]. destruct (de_enc (Lawful := owned_entity_lawful) local _ r1 Hid O1 B1) as (r2 & -> & O2 & B2).
    destruct (read_items (chunk_fuel r2) tick (seen_owned peer local) items r2 (groups_enc groups ++ false :: rest) peer Hits) as (r3 & R3 & O3 & B3); [|exact O2|exact B2|].
    { pose proof (chunk_fuel_enough r2 O2) as Hfu. rewrite B2, length_app in Hfu. pose proof (items_enc_length items). lia. }
    unfold seen_owned in R3. cbn [reading]. rewrite R3, bind_ok. destruct (IH groups r3 (put_updates tick (seen_owned peer local) (item_seen <$> items) peer) Hok ltac:(cbn in Hf; lia) O3 B3) as (r' & R & O & B'). exists r'. split; [exact R|now split].
Qed.
Lemma groups_enc_length groups : (length groups <= length (groups_enc groups))%nat.
Proof using Type. induction groups as [|x groups IH]; [cbn; lia|]. unfold groups_enc in *. cbn [map concat length]. rewrite length_app. unfold group_enc at 1. cbn [length]. lia. Qed.

Context (iter_u : gmap GlobalEntity (gset ComponentKind) -> list GlobalEntity).
(** The order in which the entities are tried. *)
Definition update_order (entity_priority_order : option (list GlobalEntity)) (pending : Pending) : list GlobalEntity :=
  match entity_priority_order with Some order => filter (fun e => is_Some (pending !! e)) order | None => iter_u pending end.

Lemma updates_written now p priority w hw pending (self : World) (st : Heap) : let l := update_order priority pending in
  writer_ok w -> bw_current_bits w <= bw_max_bits w < MTU_SIZE_BITS -> NoDup l -> Forall (entity_ready self pending) l -> ready p (keys_of pending l) (updater self, st) -> (hw = true \/ first_fits w l pending self st) ->
  exists groups w' hw' pending' self' st',
    write_updates component_kinds to_world component_of_kind iter_u iter_k now p priority w hw pending self st = Ok (w', hw', pending', self', st') /\
    map (fun x => x.1.1) groups `prefix_of` l /\ Forall (group_held self) groups /\
    sending now p (sent_groups groups) (updater self, st) (updater self', st') /\ (exists gh, UpdateManager.reach iter_m width g (updater self', st') gh) /\
    (forall e k, k ∈ pending_kinds pending' e <-> k ∈ pending_kinds pending e /\ (e, k) ∉ (sent_groups groups).*1) /\
    conv_grows (converter_mut self) (converter_mut self') /\ same_others self self' /\ (hw = true \/ l <> [] -> hw' = true) /\
    writer_ok w' /\ bw_bits w' = bw_bits w ++ groups_enc groups ++ [false] /\ bw_max_bits w' = bw_max_bits w + 1 /\ bw_current_bits w' = bw_current_bits w + Z.of_nat (length (groups_enc groups)) + 1 /\ bw_current_bits w' <= bw_max_bits w' /\
    forall tick more r (peer : World), reader_ok r -> br_bits r = groups_enc groups ++ false :: more ->
      exists r', read_updates tick r peer = Ok (Some r', hand_updates tick groups peer) /\ reader_ok r' /\ br_bits r' = more.
Proof using kinds_registered iter_m_ok kind_of_stored.
  intros l Hw Hb Hnd Hall Hrd Hfirst. destruct (entities_written now p l w hw pending self st Hw ltac:(lia) Hnd Hall Hrd Hfirst) as (groups & w0 & hw' & pending' & self' & st' & Hloop & Hpre & Hgs & Hmap & X & Bd & Hg & Hs & Hsend & Hrd' & Hhw & Hpend).
  pose proof X as (O0 & B0 & M0 & _). change MTU_SIZE_BITS with 3440 in Hb. set (w1 := bw_set_max w0 (bw_max_bits w0 + 1)). assert (writer_ok w1) as O1 by now apply set_max_ok.
  destruct (count_then_write [false] w1 O1 ltac:(cbn; change MTU_SIZE_BITS with 3440; lia) ltac:(discriminate) ltac:(cbn; lia)) as (_ & _ & _ & Ew). destruct Ew as (w2 & E2 & X2); [cbn; lia|]. pose proof X2 as (O2 & B2 & M2 & _).
  pose proof (extends_current w1 _ w2 O1 X2) as C2. pose proof (extends_current w _ w0 Hw X) as C0. change (bw_current_bits w1) with (bw_current_bits w0) in C2. change (bw_max_bits w1) with (bw_max_bits w0 + 1) in M2. cbn [length] in C2.
  exists groups, w2, hw', pending', self', st'. split.
  { unfold write_updates. fold (update_order priority pending). change (update_order priority pending) with l. rewrite Hloop, bind_ok. unfold BitWriter_release_bits. rewrite uadd_ok, !bind_ok by lia. fold w1.
    change (write_bits [false] w1) with (w' ← ser bool_serde false w1; Ok w') in E2. destruct (ser bool_serde false w1); [rewrite bind_ok in E2; injection E2 as ->; reflexivity|discriminate..]. }
  split; [exact Hpre|]. split; [exact Hmap|]. split; [exact Hsend|]. split; [apply Hrd'|]. split; [exact Hpend|]. split; [exact Hg|]. split; [exact Hs|]. split; [exact Hhw|]. split; [exact O2|].
  split; [rewrite B2; change (bw_bits w1) with (bw_bits w0); now rewrite B0, <- app_assoc|]. split; [lia|]. split; [lia|]. split; [lia|].
  intros tick more r peer Hr Hbr. apply (read_groups (chunk_fuel r)); [exact Hgs| |exact Hr|exact Hbr]. pose proof (chunk_fuel_enough r Hr) as Hf. rewrite Hbr, length_app in Hf. pose proof (groups_enc_length groups). lia.
Qed.

(** * The entity part of a packet *)
(** What is tried first fits, or the packet holds something already. *)
Definition part_fits (hw : bool) (w : BitWriter) (l : list GlobalEntity) (pending : Pending) (queue : list ((CommandId * EntityCommand) * EntityMessage OwnedLocalEntity)) (self : World) (st : Heap) : Prop :=
  hw = true \/ match l, queue with
               | _ :: _, _ => first_fits w l pending self st
               | [], (x, m) :: _ => fits w (one_enc component_kinds to_world component_of_kind None x m (converter_mut self)) = true
               | [], [] => True
               end.

End Updates.

(** * A run *)
Module UpdateSample.
Import LocalSample WireSample UpdateManager.Sample.
#[export] Program Instance byte_update_laws : UpdateWireLaws (C := Z) (U := unit) (F := unit) byte_kinds := {|
  update_ok c _ := is_byte c;
  update_bits _ c _ := to_bits 8 c;
  update_after _ _ k := k;
  update_seen _ _ _ := tt |}.
Next Obligation. now intros c k k' H _. Qed.
Next Obligation. intros mask c k _. apply grows_refl. Qed.
Next Obligation. now split. Qed.
Next Obligation. intros mask c k Hc W bw bwl w Hw. change ((w ← ser u8_serde c w; Ok (w, k)) = (w' ← write_bits (to_bits 8 c) w; Ok (w', k))). now rewrite (ser_enc (Lawful := u8_lawful) W c w Hc Hw). Qed.
Next Obligation.
  intros mask c k r rest Hc Hk Hr Hb. destruct (de_enc (Lawful := kind_lawful _ byte_kinds byte_kinds_ok) _ _ r Hk Hr Hb) as (r1 & R1 & O1 & B1). destruct (de_enc (Lawful := u8_lawful) c rest r1 Hc O1 B1) as (r2 & R2 & O2 & B2).
  exists r2. cbn [update_read byte_wire]. rewrite R1, bind_ok, R2. now split.
Qed.
Next Obligation. intros mask c k _. cbn. lia. Qed.

(** Component 1 of entity 7 has changed. *)
Definition sample_pending : gmap GlobalEntity (gset ComponentKind) := {[7 := {[1]}]}.
Abbreviation write_sample := (write_updates byte_kinds sample_entity sample_component (fun m => (map_to_list m).*1) elements).

Lemma sample_ready : ready order width g1 9 (keys_of elements sample_pending [7]) (updater live, (state 5).2).
Proof.
  split.
  - exists (ghost 5). exact reach5.
  - vm_compute. now split.
  - vm_compute. constructor; [apply not_elem_of_nil|constructor].
  - intros key Hk. assert (key = (7, 1)) as -> by (vm_compute in Hk; now apply list_elem_of_singleton in Hk). split; [vm_compute; eexists; reflexivity|vm_compute; reflexivity].
  - intros p' key m Hm. exfalso. assert (sent_updates (updater live) = ∅) as He by (vm_compute; reflexivity). cbn [fst] in Hm. rewrite He in Hm. discriminate.
Qed.

Lemma sample_entities : Forall (entity_ready byte_kinds sample_entity sample_component elements live sample_pending) [7].
Proof.
  apply Forall_cons_2; [|apply Forall_nil_2]. exists (Wire.Host 1 false), 7. split; [vm_compute; reflexivity|]. split; [vm_compute; now split|]. split; [reflexivity|]. split; [eexists; vm_compute; reflexivity|].
  apply Forall_cons_2; [|apply Forall_nil_2]. exists 1. split; [reflexivity|]. split; [eexists; vm_compute; reflexivity|]. cbn. unfold is_byte. lia.
Qed.

Definition part_writer : BitWriter := bw_set_max BitWriter_new (MTU_SIZE_BITS - 2).

(** The peer has the entity and gets the update; nothing is pending any more. *)
Definition update_transfer (peer : manager) : res (gmap GlobalEntity (gset ComponentKind) * list (Tick * OwnedLocalEntity * unit)) :=
  '(w, _, pending, _, _) ← write_sample 0 9 None sample_writer true sample_pending live (state 5).2;
  bytes ← BitWriter_to_bytes w;
  '(_, peer) ← read_updates 20 (BitReader_new bytes) peer;
  Ok (pending, incoming_updates peer).
Definition peer_with (remotes : gmap RemoteEntity RemoteEntityChannel) : manager := connection ∅ ∅ remotes [] (state 0).1.
Lemma sample_update_transfer : update_transfer (peer_with {[mkRemoteEntity 1 false := peer_has [1]]}) = Ok (∅, [(20, Wire.Remote 1 false, tt)]) /\ update_transfer (peer_with ∅) = Ok (∅, []).
Proof. split; vm_compute; reflexivity. Qed.
End UpdateSample.
